(* ===== verification/_CoqProject ===== *)
-Q . S2P
Prelude.v
Bytes.v
FrameAllocator.v
BootMemory.v
Frames.v
BootAlloc.v
LinkedList.v
BipBuffer.v
Spinlock.v
Deque.v
Bits.v
OutFile.v
SymbolTable.v
BootConfig.v
RomFs.v
Format.v
Xoroshiro.v
LibcMemory.v
LibcString.v
LibcExit.v
LineEdit.v
Vector.v
RobinHood.v
Map.v
NodeMap.v
KObject.v
Capabilities.v
Process.v
HeapAllocator.v
PageTable.v
BootPaging.v
RadixTree.v
VmArea.v
VmSpace.v
Scheduler.v
WaitQueue.v
IpcMessage.v
Mailbox.v
ThreadLife.v
Apic.v
Acpi.v
Descriptors.v
Interrupts.v
Machine.v
ContextSwitch.v
SyscallEntry.v
InterruptEntry.v
SetJmp.v
Logger.v
UserSync.v
Channel.v
DynLink.v
