(* ===== verification/Prelude.v ===== *)
(** * jsix: a verification of the operating system's core

    jsix is a small operating system in C++: a boot loader, a microkernel with capabilities, address
    spaces, threads and message passing, libraries shared by the kernel and the programs, and user
    programs above them.  This library models the parts of the kernel that keep its promises, the
    containers of [libraries/util] they are built on, and of the user's side the synchronisation and
    channels of [libraries/j6], the C library's own code and the dynamic linker; it proves what these
    parts promise each other and the user.

    ** How the code is represented

    Words are integers ([Z]) kept in range by an explicit [wrap] at their width.  A call returns an
    [outcome]: a value, a failed assertion ([Panic]), undefined behaviour that was reached ([Undef]: a
    bad pointer, an index out of range, a shift that is too wide) or a loop that used up its fuel
    ([Diverge]).  So a theorem that a call is [Done] says that no assertion fails, that no bad access
    happens and that its loops end.  Objects are records with the fields of their classes; memory that
    is reached through pointers is a finite map from addresses.  Code that runs under a lock is a
    function on the state it guards; where the interleaving matters (the spinlock, the handle tables,
    events, the user's mutexes, conditions and channels) the atomic parts are the steps of a transition
    system and the theorems hold for every schedule.

    ** Files

    The containers and tools of src/libraries/util:
    - [LinkedList]: linked_list.h, the intrusive list, as a heap of nodes refining a list.
    - [BipBuffer]: bip_buffer.cpp, the two-region ring buffer, as a queue of bytes.
    - [Spinlock]: spinlock.cpp, the queue lock, as a transition system of its atomic accesses.
    - [Deque], [Vector], [RobinHood], [Map], [NodeMap]: deque.h, vector.h, map.h and node_map.h,
      refining lists and finite maps; the probing of both maps is in [RobinHood].
    - [Bits]: util.h, misc.h, bitset.h and hash.h.
    - [Format]: format.cpp, formatted output into a buffer.
    - [Xoroshiro]: xoroshiro.cpp, the random number generator and its jumps.
    - [RadixTree]: radix_tree.h and the kernel's page_tree.cpp built on it.

    The boot loader's memory maps, src/boot:
    - [BootMemory]: memory_map.cpp, the kernel's map and the frame blocks made of the firmware's map.

    The kernel's memory, src/kernel:
    - [FrameAllocator]: frame_allocator.cpp, physical frames in three levels of bitmaps.
    - [Frames]: what the users of physical frames rely on, as the classes [FrameSource] and
      [FrameLaws]; the frame allocator is an instance.
    - [HeapAllocator]: heap_allocator.cpp, the buddy allocator of the kernel heap.
    - [PageTable]: page_table.cpp, the iterator over four levels of tables and the cache of pages.
    - [VmArea]: objects/vm_area.cpp and block_allocator.h, the kinds of areas and guarded stacks.
    - [VmSpace]: vm_space.cpp, placing areas, faults, mapping and unmapping.

    The kernel's objects, src/kernel/objects, and system calls:
    - [KObject]: kobject.cpp, types, ids and handle counts.
    - [Capabilities]: capabilities.cpp, the table of capabilities on a node map.
    - [Process]: the handles of process.cpp and the system calls of syscalls/handle.cpp and
      helpers.h; the set of handles is the class [HandleSet], of which a node set is an instance.
    - [Logger]: logger.cpp, the log's ring buffer and its readers.

    Threads and messages:
    - [Scheduler]: scheduler.cpp and the states of objects/thread.h.
    - [WaitQueue]: wait_queue.cpp, block, wake, join and exit of objects/thread.cpp, objects/event.cpp
      and syscalls/futex.cpp.
    - [ThreadLife]: objects/process.cpp, objects/thread.cpp, syscalls/thread.cpp and
      syscalls/process.cpp, the creation and end of threads and processes.
    - [IpcMessage]: ipc_message.cpp.
    - [Mailbox]: objects/mailbox.cpp and syscalls/mailbox.cpp.
    - [Machine]: the processor as the kernel's assembly uses it, on which run
    - [ContextSwitch]: task.s, the end of syscall.s and the stacks of new threads (objects/thread.cpp),
    - [SyscallEntry]: the system call handler of syscall.s,
    - [InterruptEntry]: the interrupt stubs of interrupts.s and push_all.inc,
    - [SetJmp]: setjmp.s of the C library.

    Interrupts and devices, src/kernel:
    - [Apic]: apic.cpp, the interrupt controllers and the timer.
    - [Acpi]: device_manager.cpp, hpet.cpp and libraries/acpi, the tables of the firmware.
    - [Descriptors]: idt.cpp, gdt.cpp, tss.cpp and interrupt_isrs.inc, the processor's tables.
    - [Interrupts]: interrupts.cpp and the bindings of device_manager.cpp, what interrupts do.

    The user's side:
    - [UserSync]: mutex.cpp and condition.cpp of libraries/j6, over the kernel's futexes.
    - [Channel]: channel.cpp of libraries/j6, over [BipBuffer] and [UserSync].
    - [LibcMemory]: memutils.cpp of libraries/j6; [LibcString]: libc/string and libc/ctype;
      [LibcExit]: libc/stdlib/exit.cpp.
    - [LineEdit]: libraries/edit/line.cpp.
    - [DynLink]: user/ld.so, symbols, relocation and the order of loading.

    ** What the theorems show

    Containers refine their abstract types over any sequence of operations.  Allocators hand out memory
    that nobody has and that is of the size asked for; the frames the kernel starts with are exactly the
    free memory of the firmware's map ([boot_frames_are_free_memory]).  Page tables, areas and spaces
    compose to the theorem [handle_fault_maps]: a fault in an area ends with the page mapped to a frame
    of its own and every other translation as it was.  Handles name live objects under every
    interleaving ([handles_stay_valid]).  The scheduler never loses a thread and always runs one of the
    most urgent ([schedule_correct]).  A call through a mailbox delivers its bytes and handles and gets
    those of the reply ([mailbox_exchange]).  A thread that is switched away goes on as it left, on any
    CPU ([task_switch_roundtrip]), a new one enters user mode where it was told to
    ([new_thread_enters_user]), and a system call runs its function and returns to its caller
    ([syscall_roundtrip]); an interrupt calls its handler and the interrupted code goes on as it was
    ([interrupt_roundtrip]).  Interrupts nest without sharing a stack ([nested_stacks_safe]) and a line
    that is bound to an event reaches its waiter ([irq_delivers]).  What the firmware's tables list is
    what the kernel knows ([madt_roundtrip], [parse_acpi_loads]), and the timer runs for the time it is
    set to ([reset_timer_programs]).  No operation on threads and processes reaches a deleted thread
    ([threads_never_dangle]), and when a process exits all its threads end and those that wait for them
    go on ([process_exit_ends_threads]).  A reader of the log gets its entries in order and unaltered
    ([log_reader_sees_entries]); formatted output is the rendering of its format ([vformat_correct]); a
    jump of the generator is its 2^128 steps ([jump_equals_calls]).  User mutexes exclude each other
    ([mutex_excludes]), channels deliver bytes in order ([channel_fifo]), and the dynamic linker finds
    the symbols that the images export, binds them and loads what is needed ([lookup_correct],
    [relocate_binds], [load_closed]).

    Some theorems show where the code does not do what it means to: lost wake-ups of events, futexes,
    channels and mailbox calls, handles copied past the end of a message, frames freed in the wrong
    block, capabilities whose counts go wrong, a log query that stops the kernel, system call numbers
    outside the table, threads that are killed twice, events that are freed while an interrupt is bound
    to them, a table of the firmware that hangs the kernel, a longjmp that returns to the wrong place,
    and functions of the C library that do not compute what the standard says.

    ** Fuel

    Loops are structural where the code walks a list or counts.  The others have fuel, with lemmas that
    it is enough: the number of slots for the probing of a hash map, the length of the queue for
    clearing it, the levels of a tree or of the page tables, the orders of the buddy allocator, the
    eight priorities of the scheduler, the digits of a number, the entries of the log, the length of a
    chain of symbols and the number of libraries, the entries of a firmware table, the halvings of the
    timer's interval, and five levels of calls for the end of a process.  Jumps of the assembly go forward, so a run is
    structural.

    ** What is not modelled

    The processor's control registers, the start of the other processors, PCI and serial ports, generated code (system call stubs; memory layout constants read from it are given as
    definitions), the boot loader apart from the memory maps, since the rest is calls of the firmware,
    third-party code (dlmalloc, printf, zstd), the floating point functions of the C library and those that say they are not
    implemented, and the user programs other than the dynamic linker, which are loops of input and
    output.  Locks are modelled once, in [Spinlock], and elsewhere by their effect; weak memory is not
    modelled, the kernel's atomics being acquire-release or stronger on the modelled paths. *)
From Stdlib Require Export ZArith Lia Btauto.
From stdpp Require Export base numbers list gmap sets.

#[global] Set Default Goal Selector "!".
#[global] Open Scope Z_scope.

(** ** Outcomes of C++ code

    [Done x] is a normal return.  [Panic] is a failed [kassert]/[assert], which in the kernel
    never returns (kassert.cpp).  [Undef] is C++ undefined behaviour the model reached: a null or
    dangling dereference, an out-of-range array access, a shift by the width of the type or more.
    [Diverge] is a loop whose fuel ran out; theorems about loops show it is not reached. *)
Inductive outcome (A : Type) : Type :=
  | Done (a : A)
  | Panic
  | Undef
  | Diverge.
Arguments Done {A} _.
Arguments Panic {A}.
Arguments Undef {A}.
Arguments Diverge {A}.

#[global] Instance outcome_eq_dec {A} `{EqDecision A} : EqDecision (outcome A).
Proof. solve_decision. Defined.

#[global] Instance outcome_ret : MRet outcome := fun A a => Done a.
#[global] Instance outcome_bind : MBind outcome := fun A B f m =>
  match m with
  | Done a => f a
  | Panic => Panic
  | Undef => Undef
  | Diverge => Diverge
  end.

(** [kassert(c, ...)] of a debug build: continue when [c] holds, panic otherwise. *)
Definition kassert (c : bool) : outcome unit := if c then Done () else Panic.

(** Reading through a pointer or an array cell that may not exist. *)
Definition deref {A} (o : option A) : outcome A :=
  match o with Some a => Done a | None => Undef end.

(** Declares the state-passing notation [let* x := m in k] for outcomes. *)
Declare Scope outcome_scope.
Delimit Scope outcome_scope with outcome.
Notation "'let*' x ':=' m 'in' k" := (mbind (M:=outcome) (fun x => k) m)
  (at level 10, x pattern, m at level 100, k at level 200, only parsing) : outcome_scope.
#[global] Open Scope outcome_scope.

Lemma bind_Done {A B} (f : A → outcome B) (a : A) : mbind (M:=outcome) f (Done a) = f a.
Proof. reflexivity. Qed.

Lemma bind_Done_inv {A B} (f : A → outcome B) (m : outcome A) (b : B) :
  mbind (M:=outcome) f m = Done b → ∃ a, m = Done a ∧ f a = Done b.
Proof. destruct m; simpl; intros; try discriminate; eauto. Qed.

Lemma kassert_Done (c : bool) : kassert c = Done () ↔ c = true.
Proof. destruct c; simpl; split; congruence. Qed.

(** ** Machine words

    A [w]-bit unsigned integer is a [Z] in [0, 2^w); every operation of the source that can leave
    that range is followed by [wrap w]. *)
Definition wrap (w z : Z) : Z := z mod 2 ^ w.
Abbreviation u8 := (wrap 8).
Abbreviation u16 := (wrap 16).
Abbreviation u32 := (wrap 32).
Abbreviation u64 := (wrap 64).

Definition is_word (w z : Z) : Prop := 0 ≤ z < 2 ^ w.
Abbreviation is_u64 := (is_word 64).
Abbreviation is_u32 := (is_word 32).

(** [~x] on a [w]-bit type. *)
Definition wnot (w z : Z) : Z := wrap w (Z.lnot z).

(** [1ull << i] for [i < 64]. *)
Definition bit (i : Z) : Z := Z.shiftl 1 i.

#[global] Instance is_word_dec w z : Decision (is_word w z).
Proof. unfold is_word. apply _. Defined.

Create Rewrite HintDb zbits.
Create HintDb words discriminated.

Lemma wrap_range w z : 0 ≤ w → is_word w (wrap w z).
Proof. intros. apply Z.mod_pos_bound. lia. Qed.

Lemma wrap_small w z : is_word w z → wrap w z = z.
Proof. apply Z.mod_small. Qed.

Lemma wrap_wrap w z : 0 ≤ w → wrap w (wrap w z) = wrap w z.
Proof. intros. apply Z.mod_mod. lia. Qed.

Lemma wrap_add_l w a b : 0 ≤ w → wrap w (wrap w a + b) = wrap w (a + b).
Proof. intros. unfold wrap. apply Zplus_mod_idemp_l. Qed.

Lemma wrap_add_r w a b : 0 ≤ w → wrap w (a + wrap w b) = wrap w (a + b).
Proof. intros. unfold wrap. apply Zplus_mod_idemp_r. Qed.

Lemma wrap_testbit w z i : 0 ≤ w → Z.testbit (wrap w z) i = (i <? w) && Z.testbit z i.
Proof.
  intros Hw. unfold wrap. destruct (Z.ltb_spec i w).
  - rewrite andb_true_l. destruct (decide (0 ≤ i)).
    + by rewrite Z.mod_pow2_bits_low by lia.
    + by rewrite !Z.testbit_neg_r by lia.
  - by rewrite Z.mod_pow2_bits_high by lia.
Qed.

Lemma is_word_testbit w z :
  0 ≤ w → is_word w z ↔ (0 ≤ z ∧ ∀ i, w ≤ i → Z.testbit z i = false).
Proof.
  intros Hw. split.
  - intros Hz. pose proof Hz as [? ?]. split; [done|]. intros i Hi.
    rewrite <- (wrap_small w z Hz), wrap_testbit by done.
    by destruct (Z.ltb_spec i w); [lia|].
  - intros [Hz Hb]. assert (z = wrap w z) as ->; [|by apply wrap_range].
    apply Z.bits_inj'. intros i Hi. rewrite wrap_testbit by done.
    destruct (Z.ltb_spec i w); [done|]. by rewrite Hb.
Qed.

Lemma word_testbit_high w z i : 0 ≤ w → is_word w z → w ≤ i → Z.testbit z i = false.
Proof. intros Hw Hz. by apply is_word_testbit. Qed.

Lemma wnot_testbit w z i :
  0 ≤ w → 0 ≤ i → Z.testbit (wnot w z) i = (i <? w) && negb (Z.testbit z i).
Proof. intros. unfold wnot. rewrite wrap_testbit, Z.lnot_spec by done. done. Qed.

Lemma bit_testbit i j : 0 ≤ i → 0 ≤ j → Z.testbit (bit i) j = bool_decide (i = j).
Proof.
  intros. unfold bit. rewrite Z.shiftl_1_l, Z.pow2_bits_eqb by lia.
  case_bool_decide; subst; [apply Z.eqb_refl|by apply Z.eqb_neq].
Qed.

Lemma bit_pos i : 0 ≤ i → 0 < bit i.
Proof. intros. unfold bit. rewrite Z.shiftl_1_l. lia. Qed.

Lemma bit_word w i : 0 ≤ i < w → is_word w (bit i).
Proof.
  intros. unfold bit, is_word. rewrite Z.shiftl_1_l. split; [lia|].
  apply Z.pow_lt_mono_r; lia.
Qed.

Lemma land_word w a b : 0 ≤ w → is_word w a → 0 ≤ b → is_word w (Z.land a b).
Proof.
  intros Hw Ha Hb. apply is_word_testbit; [done|]. split.
  - apply Z.land_nonneg. left. apply Ha.
  - intros. rewrite Z.land_spec, (word_testbit_high w a) by done. done.
Qed.

Lemma lor_word w a b : 0 ≤ w → is_word w a → is_word w b → is_word w (Z.lor a b).
Proof.
  intros Hw Ha Hb. apply is_word_testbit; [done|]. split.
  - apply Z.lor_nonneg. split; [apply Ha|apply Hb].
  - intros. by rewrite Z.lor_spec, (word_testbit_high w a), (word_testbit_high w b).
Qed.

Lemma lxor_word w a b : 0 ≤ w → is_word w a → is_word w b → is_word w (Z.lxor a b).
Proof.
  intros Hw Ha Hb. apply is_word_testbit; [done|]. split.
  - apply Z.lxor_nonneg. split; intros _; [apply Hb|apply Ha].
  - intros. by rewrite Z.lxor_spec, (word_testbit_high w a), (word_testbit_high w b).
Qed.

Lemma shiftr_word w a n : 0 ≤ w → 0 ≤ n → is_word w a → is_word w (Z.shiftr a n).
Proof.
  intros Hw Hn Ha. apply is_word_testbit; [done|]. split.
  - apply Z.shiftr_nonneg, Ha.
  - intros. rewrite Z.shiftr_spec by lia. apply (word_testbit_high w); [done..|lia].
Qed.

Lemma wnot_word w z : 0 ≤ w → is_word w (wnot w z).
Proof. apply wrap_range. Qed.

Lemma wrap_word w z : 0 ≤ w → is_word w (wrap w z).
Proof. apply wrap_range. Qed.

Lemma word_ext w a b :
  0 ≤ w → is_word w a → is_word w b →
  (∀ i, 0 ≤ i < w → Z.testbit a i = Z.testbit b i) → a = b.
Proof.
  intros Hw Ha Hb He. apply Z.bits_inj'. intros i Hi.
  destruct (decide (i < w)); [apply He; lia|].
  by rewrite (word_testbit_high w a), (word_testbit_high w b) by (done || lia).
Qed.

Lemma word_nonzero_bit w a :
  0 ≤ w → is_word w a → a ≠ 0 → ∃ i, 0 ≤ i < w ∧ Z.testbit a i = true.
Proof.
  intros Hw Ha Hz. exists (Z.log2 a). destruct Ha as [Ha1 Ha2].
  split; [split; [apply Z.log2_nonneg|apply Z.log2_lt_pow2; lia]|].
  apply Z.bit_log2. lia.
Qed.

Lemma word_zero_bits a : (∀ i, 0 ≤ i → Z.testbit a i = false) → a = 0.
Proof. intros H. apply Z.bits_inj'. intros i Hi. by rewrite H, Z.bits_0. Qed.

#[export] Hint Resolve land_word lor_word lxor_word shiftr_word wnot_word wrap_word bit_word : words.
#[export] Hint Rewrite wrap_testbit wnot_testbit bit_testbit Z.land_spec Z.lor_spec Z.lxor_spec
  Z.shiftr_spec Z.shiftl_spec Z.lnot_spec Z.bits_0 using lia : zbits.

(** Joining a high and a low part of a word. *)
Lemma lor_add_low a k b : 0 ≤ k → 0 ≤ b < 2 ^ k → Z.lor (a * 2 ^ k) b = a * 2 ^ k + b.
Proof.
  intros Hk Hb. rewrite <- Z.add_lor_land. enough (Z.land (a * 2 ^ k) b = 0) as -> by lia.
  apply word_zero_bits. intros i Hi. rewrite Z.land_spec. destruct (decide (i < k)).
  - by rewrite Z.mul_pow2_bits_low.
  - by rewrite (word_testbit_high k b), andb_false_r by (done || lia).
Qed.

(** ** Words as bytes, the lowest first *)

Fixpoint le_bytes (n : nat) (v : Z) : list Z :=
  match n with O => [] | S n => v mod 256 :: le_bytes n (v / 256) end.
Fixpoint of_le (bs : list Z) : Z :=
  match bs with [] => 0 | b :: bs => b + 256 * of_le bs end.
Lemma length_le_bytes n v : length (le_bytes n v) = n.
Proof. revert v. induction n; intros v; cbn; [done|]. by rewrite IHn. Qed.
Lemma of_le_bytes n v : 0 ≤ v < 256 ^ Z.of_nat n → of_le (le_bytes n v) = v.
Proof.
  revert v. induction n as [|n IH]; intros v Hv; cbn [le_bytes of_le]; [change (256 ^ Z.of_nat 0) with 1 in Hv; lia|].
  rewrite Nat2Z.inj_succ, Z.pow_succ_r in Hv by lia.
  rewrite IH; [pose proof (Z.div_mod v 256); lia|]. split; [apply Z.div_pos; lia|].
  apply Z.div_lt_upper_bound; lia.
Qed.
Lemma of_le_word v : is_u64 v → of_le (le_bytes 8 v) = v.
Proof. intros Hv. apply of_le_bytes. exact Hv. Qed.

(** ** Page addresses: [~0xfffull] and the flags below it *)
Definition page_mask : Z := wnot 64 0xfff.

Lemma aligned_low a i : a mod 4096 = 0 → i < 12 → Z.testbit a i = false.
Proof.
  intros Ha Hi. rewrite (Z.div_mod a 4096), Ha, Z.add_0_r, Z.mul_comm by done.
  by apply (Z.mul_pow2_bits_low _ 12).
Qed.

Lemma page_mask_testbit i : 0 ≤ i → Z.testbit page_mask i = (12 <=? i) && (i <? 64).
Proof.
  intros Hi. unfold page_mask. rewrite wnot_testbit by lia. change 0xfff with (Z.ones 12).
  rewrite Z.testbit_ones_nonneg by lia.
  destruct (Z.ltb_spec i 12), (Z.leb_spec 12 i); try lia; by rewrite ?andb_true_r, ?andb_false_r.
Qed.

Lemma mask_aligned a f :
  is_u64 a → a mod 4096 = 0 → 0 ≤ f < 2 ^ 12 → Z.land (Z.lor a f) page_mask = a.
Proof.
  intros Ha Hal Hf. apply Z.bits_inj'. intros i Hi.
  rewrite Z.land_spec, Z.lor_spec, page_mask_testbit by done.
  destruct (Z.leb_spec 12 i); simpl.
  - rewrite (word_testbit_high 12 f), orb_false_r by (done || lia).
    destruct (Z.ltb_spec i 64); [by rewrite andb_true_r|].
    by rewrite (word_testbit_high 64 a) by (done || lia).
  - by rewrite andb_false_r, aligned_low.
Qed.

Lemma mask_page a : is_u64 a → Z.land a page_mask = a - a mod 4096.
Proof.
  intros Ha. pose proof (Z.div_mod a 4096). pose proof (Z.mod_pos_bound a 4096).
  replace (a - a mod 4096) with (a / 4096 * 2 ^ 12) by lia. unfold is_word in Ha.
  rewrite <- (mask_aligned (a / 4096 * 2 ^ 12) (a mod 4096)).
  - rewrite lor_add_low by lia. f_equal. lia.
  - unfold is_word. lia.
  - change (2 ^ 12) with 4096. by rewrite Z.mod_mul.
  - lia.
Qed.

(** Prove an equation between words bit by bit. *)
Ltac zbits :=
  apply Z.bits_inj'; intros ?i ?Hi; autorewrite with zbits;
  repeat case_bool_decide; subst; try btauto.

(** ** Count trailing zeros *)
Fixpoint pos_ctz (p : positive) : Z :=
  match p with
  | xO q => 1 + pos_ctz q
  | xI _ | xH => 0
  end.

(** The x86 [tzcnt] instruction on a 64-bit operand: 64 for zero. *)
Definition tzcnt64 (v : Z) : Z :=
  match v with
  | Zpos p => pos_ctz p
  | _ => 64
  end.

Lemma pos_ctz_nonneg p : 0 ≤ pos_ctz p.
Proof. induction p; simpl; lia. Qed.

Lemma pos_ctz_spec p :
  Z.testbit (Zpos p) (pos_ctz p) = true ∧
  (∀ j, j < pos_ctz p → Z.testbit (Zpos p) j = false).
Proof.
  induction p as [p _|p [IH1 IH2]|].
  - simpl. split; [done|]. intros j Hj. by apply Z.testbit_neg_r.
  - pose proof (pos_ctz_nonneg p). cbn [pos_ctz].
    replace (Zpos (xO p)) with (2 * Zpos p) by lia. split.
    + rewrite Z.add_comm, Z.add_1_r, Z.testbit_even_succ by lia. done.
    + intros j Hj. destruct (decide (j < 0)); [by apply Z.testbit_neg_r|].
      destruct (decide (j = 0)) as [->|]; [by rewrite Z.testbit_even_0|].
      replace j with (Z.succ (j - 1)) by lia. rewrite Z.testbit_even_succ by lia.
      apply IH2. lia.
  - simpl. split; [done|]. intros j Hj. by apply Z.testbit_neg_r.
Qed.

Lemma tzcnt64_spec v :
  0 < v → 0 ≤ tzcnt64 v ∧ Z.testbit v (tzcnt64 v) = true ∧
  (∀ j, j < tzcnt64 v → Z.testbit v j = false).
Proof.
  destruct v as [|p|]; try lia. intros _. simpl.
  split; [apply pos_ctz_nonneg|apply pos_ctz_spec].
Qed.

Lemma tzcnt64_lt v : is_u64 v → v ≠ 0 → 0 ≤ tzcnt64 v < 64.
Proof.
  intros Hw Hz. destruct (tzcnt64_spec v) as (H0 & H1 & _); [unfold is_word in Hw; lia|].
  split; [done|]. destruct (decide (64 ≤ tzcnt64 v)) as [Hge|]; [|lia].
  by rewrite (word_testbit_high 64 v) in H1.
Qed.

(** All bits below [tzcnt] of the complement are set: the length of the run of ones. *)
Lemma tzcnt64_unique v k :
  0 < v → Z.testbit v k = true → (∀ j, 0 ≤ j < k → Z.testbit v j = false) → tzcnt64 v = k.
Proof.
  intros Hv Hk Hlt. destruct (tzcnt64_spec v Hv) as (H0 & H1 & H2).
  destruct (Z.lt_trichotomy (tzcnt64 v) k) as [H|[H|H]]; [|done|].
  - by rewrite Hlt in H1 by lia.
  - by rewrite H2 in Hk by lia.
Qed.

(** ** Arrays of words

    A C array is a list; an access outside of it is undefined behaviour. *)
Definition arr_get {A} (l : list A) (i : Z) : outcome A :=
  if 0 <=? i then deref (l !! Z.to_nat i) else Undef.

Definition arr_set {A} (l : list A) (i : Z) (v : A) : outcome (list A) :=
  if (0 <=? i) && (i <? Z.of_nat (length l)) then Done (<[Z.to_nat i := v]> l) else Undef.

(** Total lookup in an array of words, 0 outside of it. *)
Definition znth (l : list Z) (i : Z) : Z := if 0 <=? i then nth (Z.to_nat i) l 0 else 0.

Lemma arr_get_Done {A} (l : list A) i a :
  arr_get l i = Done a ↔ 0 ≤ i ∧ l !! Z.to_nat i = Some a.
Proof.
  unfold arr_get, deref. destruct (Z.leb_spec 0 i); [|split; [done|lia]].
  destruct (l !! Z.to_nat i); naive_solver.
Qed.

Lemma arr_get_znth (l : list Z) i :
  0 ≤ i < Z.of_nat (length l) → arr_get l i = Done (znth l i).
Proof.
  intros Hi. apply arr_get_Done. split; [lia|]. unfold znth.
  rewrite (proj2 (Z.leb_le 0 i)) by lia.
  destruct (lookup_lt_is_Some_2 l (Z.to_nat i)) as [x Hx]; [lia|].
  by rewrite (nth_lookup_Some _ _ _ _ Hx).
Qed.

Lemma arr_set_Done {A} (l : list A) i v :
  0 ≤ i < Z.of_nat (length l) → arr_set l i v = Done (<[Z.to_nat i := v]> l).
Proof.
  intros Hi. unfold arr_set.
  by rewrite (proj2 (Z.leb_le 0 i)), (proj2 (Z.ltb_lt _ _)) by lia.
Qed.

Lemma arr_set_Done_inv {A} (l l' : list A) i v :
  arr_set l i v = Done l' → 0 ≤ i < Z.of_nat (length l) ∧ l' = <[Z.to_nat i := v]> l.
Proof.
  unfold arr_set. destruct (Z.leb_spec 0 i), (Z.ltb_spec i (Z.of_nat (length l)));
    simpl; intros; simplify_eq; done.
Qed.

Lemma znth_oob l i : Z.of_nat (length l) ≤ i → znth l i = 0.
Proof. intros. unfold znth. case_match; [|done]. apply nth_overflow. lia. Qed.

Lemma znth_neg l i : i < 0 → znth l i = 0.
Proof. intros. unfold znth. by rewrite (proj2 (Z.leb_gt 0 i)). Qed.

Lemma znth_insert l i j v :
  0 ≤ i < Z.of_nat (length l) →
  znth (<[Z.to_nat i := v]> l) j = if decide (i = j) then v else znth l j.
Proof.
  intros Hi. unfold znth. destruct (Z.leb_spec 0 j); [|by rewrite decide_False by lia].
  rewrite !nth_lookup. case_decide; subst.
  - by rewrite list_lookup_insert_eq by lia.
  - by rewrite list_lookup_insert_ne by lia.
Qed.

Lemma znth_Forall (P : Z → Prop) l i : P 0 → Forall P l → P (znth l i).
Proof.
  intros H0 Hl. unfold znth. case_match; [|done]. rewrite nth_lookup.
  destruct (l !! Z.to_nat i) eqn:E; [|done]. by eapply Forall_lookup_1 in Hl.
Qed.

(** The word whose bit [i] is [f i], for the [i] of a list. *)
Definition of_bits (f : Z → bool) (ns : list Z) : Z :=
  foldr (λ i acc, if f i then Z.lor (bit i) acc else acc) 0 ns.

Lemma of_bits_testbit f ns j :
  Forall (λ i, 0 ≤ i) ns → 0 ≤ j →
  Z.testbit (of_bits f ns) j = f j && bool_decide (j ∈ ns).
Proof.
  intros Hns Hj. induction Hns as [|i ns Hi Hns IH]; simpl.
  - by rewrite Z.bits_0, andb_false_r.
  - assert (bool_decide (j ∈ i :: ns) = bool_decide (i = j) || bool_decide (j ∈ ns)) as ->.
    { rewrite <- bool_decide_or. apply bool_decide_ext. rewrite elem_of_cons. naive_solver. }
    destruct (f i) eqn:Ei.
    + rewrite Z.lor_spec, bit_testbit, IH by done.
      destruct (bool_decide_reflect (i = j)); subst; simpl; [by rewrite Ei|done].
    + rewrite IH. destruct (bool_decide_reflect (i = j)); subst; simpl; [by rewrite Ei|done].
Qed.

Lemma of_bits_word w f :
  0 ≤ w → is_word w (of_bits f (seqZ 0 w)).
Proof.
  intros Hw. assert (Forall (λ i, 0 ≤ i < w) (seqZ 0 w)) as Hs.
  { apply Forall_forall. intros i Hi. apply elem_of_seqZ in Hi. lia. }
  unfold of_bits. induction Hs as [|i ns Hi Hs IH]; simpl; [unfold is_word; lia|].
  destruct (f i); [|done]. apply lor_word; [done|by apply bit_word|done].
Qed.

Lemma of_bits_seq_testbit w f j : 0 ≤ j < w → Z.testbit (of_bits f (seqZ 0 w)) j = f j.
Proof.
  intros Hj. rewrite of_bits_testbit.
  - rewrite bool_decide_eq_true_2, andb_true_r; [done|]. apply elem_of_seqZ. lia.
  - apply Forall_forall. intros i Hi. apply elem_of_seqZ in Hi. lia.
  - lia.
Qed.

(** Shifts whose amount is not a constant: the width or more is undefined. *)
Definition shl64 (a n : Z) : outcome Z :=
  if (0 <=? n) && (n <? 64) then Done (u64 (Z.shiftl a n)) else Undef.
Definition shr64 (a n : Z) : outcome Z :=
  if (0 <=? n) && (n <? 64) then Done (Z.shiftr a n) else Undef.

Lemma shl64_Done a n : 0 ≤ n < 64 → shl64 a n = Done (u64 (Z.shiftl a n)).
Proof. intros. unfold shl64. by rewrite (proj2 (Z.leb_le 0 n)), (proj2 (Z.ltb_lt _ _)) by lia. Qed.

Lemma shr64_Done a n : 0 ≤ n < 64 → shr64 a n = Done (Z.shiftr a n).
Proof. intros. unfold shr64. by rewrite (proj2 (Z.leb_le 0 n)), (proj2 (Z.ltb_lt _ _)) by lia. Qed.

(** Case analysis on the boolean comparisons of the source. *)
Ltac zcases :=
  repeat match goal with
  | |- context [?a =? ?b] => destruct (Z.eqb_spec a b)
  | |- context [?a <? ?b] => destruct (Z.ltb_spec a b)
  | |- context [?a <=? ?b] => destruct (Z.leb_spec a b)
  | |- context [?a >? ?b] => rewrite (Z.gtb_ltb a b)
  | |- context [?a >=? ?b] => rewrite (Z.geb_leb a b)
  end.
Ltac zcases_in H :=
  repeat match type of H with
  | context [?a =? ?b] => destruct (Z.eqb_spec a b)
  | context [?a <? ?b] => destruct (Z.ltb_spec a b)
  | context [?a <=? ?b] => destruct (Z.leb_spec a b)
  | context [?a >? ?b] => rewrite (Z.gtb_ltb a b) in H
  | context [?a >=? ?b] => rewrite (Z.geb_leb a b) in H
  end.

(** Peel the binds of a successful run. *)
Ltac inv_done :=
  repeat match goal with
  | H : mbind (M:=outcome) _ _ = Done _ |- _ =>
      let x := fresh "x" in let Hx := fresh "Hx" in
      apply bind_Done_inv in H as (x & Hx & H)
  | H : Done _ = Done _ |- _ => injection H as H
  | H : kassert _ = Done _ |- _ => apply kassert_Done in H
  | H : context [match ?x with (_, _) => _ end] |- _ => is_var x; destruct x
  end.

(** ** Counting the entries of a finite map

    [map_count p X] is the number of values of [X] that satisfy [p]; the reference counts of the kernel
    are compared with such numbers. *)
Section map_count.
Context {K : Type} `{Countable K} {A : Type} (p : A → bool).
Implicit Types (X : gmap K A).

Definition map_count X : Z := Z.of_nat (size (filter (λ kv : K * A, p kv.2 = true) X)).

Lemma map_count_nonneg X : 0 ≤ map_count X.
Proof. unfold map_count. lia. Qed.

Lemma map_count_empty : map_count ∅ = 0.
Proof. unfold map_count. by rewrite map_filter_empty, map_size_empty. Qed.

Lemma map_count_delete X i a :
  X !! i = Some a → map_count (delete i X) = map_count X - (if p a then 1 else 0).
Proof.
  intros Hi. unfold map_count. rewrite map_filter_delete. destruct (p a) eqn:E.
  - assert (filter (λ kv : K * A, p kv.2 = true) X !! i = Some a) as Hf by by apply map_lookup_filter_Some.
    assert (0 < size (filter (λ kv : K * A, p kv.2 = true) X))%nat.
    { apply Nat.neq_0_lt_0. intros Hz%map_size_empty_inv. by rewrite Hz in Hf. }
    rewrite map_size_delete_Some by (by rewrite Hf). lia.
  - rewrite delete_id; [lia|]. apply map_lookup_filter_None. right. intros b Hb. simplify_eq. simpl. congruence.
Qed.

Lemma map_count_insert X i a :
  X !! i = None → map_count (<[i := a]> X) = map_count X + (if p a then 1 else 0).
Proof.
  intros Hi. pose proof (map_count_delete (<[i := a]> X) i a) as Hd.
  rewrite delete_insert_id, lookup_insert_eq in Hd by done. specialize (Hd eq_refl). lia.
Qed.

Lemma map_count_update X i a b :
  X !! i = Some a → map_count (<[i := b]> X) = map_count X - (if p a then 1 else 0) + (if p b then 1 else 0).
Proof.
  intros Hi. rewrite <- insert_delete_eq, map_count_insert by apply lookup_delete_eq.
  by rewrite (map_count_delete _ _ _ Hi).
Qed.

Lemma map_count_pos X i a : X !! i = Some a → p a = true → 1 ≤ map_count X.
Proof.
  intros Hi Hp. pose proof (map_count_delete X i a Hi) as Hd. rewrite Hp in Hd.
  pose proof (map_count_nonneg (delete i X)). lia.
Qed.

Lemma map_count_zero X : map_count X = 0 → ∀ i a, X !! i = Some a → p a = false.
Proof.
  intros Hz i a Hi. destruct (p a) eqn:E; [|done]. pose proof (map_count_pos X i a Hi E). lia.
Qed.
End map_count.
