(* ===== verification/Bytes.v ===== *)
(** * Bytes in memory

    Memory as bytes by address, shared by the parts that read structures of bytes: the firmware's tables
    (Acpi.v), the loader's modules (BootAlloc.v), boot configurations (BootConfig.v), symbol tables
    (SymbolTable.v) and file system images (RomFs.v).  A byte that is
    not there is undefined behaviour; fields are little-endian. *)
From S2P Require Import Prelude.

Abbreviation physical := (gmap Z Z).
Definition byte (pm : physical) (a : Z) : outcome Z := deref (pm !! a).
Fixpoint read_bytes (pm : physical) (a : Z) (n : nat) : outcome (list Z) :=
  match n with
  | O => Done []
  | S n => let* b := byte pm a in let* bs := read_bytes pm (a + 1) n in Done (b :: bs)
  end.
(** [util::read_from] and fields of packed structures *)
Definition read_le (pm : physical) (a : Z) (n : nat) : outcome Z := let* bs := read_bytes pm a n in Done (of_le bs).

(** Writing bytes. *)
Definition bytes_from (a : Z) (bs : list Z) : physical := list_to_map (imap (λ i b, (a + Z.of_nat i, b)) bs).
Definition put_bytes (pm : physical) (a : Z) (bs : list Z) : physical := bytes_from a bs ∪ pm.

(** ** Reading what is there *)

Definition bytes_at (pm : physical) (a : Z) (bs : list Z) : Prop := ∀ i b, bs !! i = Some b → pm !! (a + Z.of_nat i) = Some b.
Lemma bytes_at_cons pm a b bs : bytes_at pm a (b :: bs) ↔ pm !! a = Some b ∧ bytes_at pm (a + 1) bs.
Proof.
  split.
  - intros H. split; [specialize (H 0%nat b eq_refl); by rewrite Z.add_0_r in H|]. intros i x Hi. rewrite <-(H (S i) x Hi). f_equal. lia.
  - intros [Hb Hs] [|i] x Hi; [injection Hi as <-; by rewrite Z.add_0_r|]. rewrite <-(Hs i x Hi). f_equal. lia.
Qed.
Lemma bytes_at_app pm a bs bs' : bytes_at pm a (bs ++ bs') ↔ bytes_at pm a bs ∧ bytes_at pm (a + Z.of_nat (length bs)) bs'.
Proof.
  revert a. induction bs as [|b bs IH]; intros a; cbn [app length].
  - rewrite Z.add_0_r. split; [intros H; split; [by intros [|i] x Hi|done]|by intros [_ H]].
  - rewrite !bytes_at_cons, IH. replace (a + Z.of_nat (S (length bs))) with (a + 1 + Z.of_nat (length bs)) by lia. tauto.
Qed.
Lemma read_bytes_at pm a bs : bytes_at pm a bs → read_bytes pm a (length bs) = Done bs.
Proof.
  revert a. induction bs as [|b bs IH]; intros a H; cbn [read_bytes length]; [done|]. apply bytes_at_cons in H as [Hb Hs].
  unfold byte. rewrite Hb. cbn [deref mbind outcome_bind]. by rewrite (IH (a + 1)).
Qed.
Lemma read_le_at pm a n v : bytes_at pm a (le_bytes n v) → 0 ≤ v < 256 ^ Z.of_nat n → read_le pm a n = Done v.
Proof.
  intros H Hv. unfold read_le. apply read_bytes_at in H. rewrite length_le_bytes in H. rewrite H. cbn [mbind outcome_bind]. by rewrite of_le_bytes.
Qed.
Lemma read_byte_at pm a b : pm !! a = Some b → read_le pm a 1 = Done b.
Proof. intros H. unfold read_le. cbn. unfold byte. rewrite H. cbn. do 2 f_equal. lia. Qed.

Lemma bytes_at_read pm bs : ∀ a, read_bytes pm a (length bs) = Done bs → bytes_at pm a bs.
Proof.
  induction bs as [|b bs IH]; intros a H; [by intros i x Hi|]. cbn [read_bytes length] in H. unfold byte in H.
  destruct (pm !! a) as [x|] eqn:Hx; [|done]. cbn [deref mbind outcome_bind] in H. destruct (read_bytes pm (a + 1) (length bs)) as [bs'| | |] eqn:E; try done.
  cbn in H. injection H as -> ->. apply bytes_at_cons. split; [done|by apply IH].
Qed.

(** Bytes at an address that is written in another way. *)
Ltac at_address H a := match type of H with bytes_at _ ?x _ => replace x with a in H by lia end.

(** ** Reading what was written *)

Lemma bytes_from_lookup a bs x : bytes_from a bs !! x = if decide (a ≤ x) then bs !! Z.to_nat (x - a) else None.
Proof.
  unfold bytes_from. revert a. induction bs as [|b bs IH]; intros a; [by case_decide|].
  change (imap (λ i b, (a + Z.of_nat i, b)) (b :: bs)) with ((a + Z.of_nat 0, b) :: imap (λ i b, (a + Z.of_nat (S i), b)) bs). rewrite list_to_map_cons, Z.add_0_r.
  destruct (decide (x = a)) as [->|Hne]; [rewrite lookup_insert_eq, decide_True by lia; by rewrite Z.sub_diag|].
  rewrite lookup_insert_ne by done. rewrite (imap_ext _ (λ i b, (a + 1 + Z.of_nat i, b))) by (intros i y _; f_equal; lia).
  rewrite IH. repeat case_decide; try lia; [|done]. replace (Z.to_nat (x - a)) with (S (Z.to_nat (x - (a + 1)))) by lia. done.
Qed.
Lemma put_bytes_out pm a bs x : ¬ (a ≤ x < a + Z.of_nat (length bs)) → put_bytes pm a bs !! x = pm !! x.
Proof.
  intros Hx. unfold put_bytes. apply lookup_union_r. rewrite bytes_from_lookup. case_decide; [|done]. apply lookup_ge_None. lia.
Qed.
Lemma put_bytes_in pm a bs : bytes_at (put_bytes pm a bs) a bs.
Proof.
  intros i b Hi. unfold put_bytes. apply lookup_union_Some_l. rewrite bytes_from_lookup, decide_True by lia. by replace (Z.to_nat (a + Z.of_nat i - a)) with i by lia.
Qed.
(** Bytes that are apart from a write stay. *)
Lemma put_bytes_apart pm a bs b cs : a + Z.of_nat (length bs) ≤ b ∨ b + Z.of_nat (length cs) ≤ a → bytes_at pm b cs → bytes_at (put_bytes pm a bs) b cs.
Proof. intros Hd H i c Hi. pose proof (lookup_lt_Some _ _ _ Hi). rewrite put_bytes_out by lia. by apply H. Qed.
Lemma bytes_at_length_0 pm a : bytes_at pm a [].
Proof. by intros i b. Qed.

(** ** Arrays whose element size is known at run time *)

(** [util::const_offset_iterator]: the addresses of a loop from [cur] to [last] in steps of [off]. *)
Fixpoint offsets (fuel : nat) (cur last off : Z) : outcome (list Z) :=
  match fuel with
  | O => Diverge
  | S fuel => if cur =? last then Done [] else let* l := offsets fuel (u64 (cur + off)) last off in Done (cur :: l)
  end.
Definition range (start off : Z) (n : nat) : list Z := (λ i, start + off * Z.of_nat i) <$> seq 0 n.
Lemma range_cons start off n : range start off (S n) = start :: range (start + off) off n.
Proof.
  unfold range. cbn [seq fmap list_fmap]. f_equal; [lia|]. rewrite <-fmap_S_seq, <-list_fmap_compose. apply list_fmap_ext. intros i x _. cbn. lia.
Qed.
Lemma range_lookup start off n i : (i < n)%nat → range start off n !! i = Some (start + off * Z.of_nat i).
Proof. intros Hi. unfold range. rewrite list_lookup_fmap, lookup_seq_lt by done. done. Qed.
(** The loop visits the elements of the array, and ends. *)
Lemma offsets_range start off n : 0 ≤ start → 0 < off → start + off * Z.of_nat n < 2 ^ 64 →
  offsets (S n) start (u64 (start + off * Z.of_nat n)) off = Done (range start off n).
Proof.
  intros Hs Ho Hn. rewrite (wrap_small 64 (start + _)) by (unfold is_word; lia). revert start Hs Hn. induction n as [|n IH]; intros start Hs Hn.
  - cbn [offsets]. by rewrite (proj2 (Z.eqb_eq _ _)) by lia.
  - replace (start + off * Z.of_nat (S n)) with (start + off + off * Z.of_nat n) by lia. cbn [offsets]. rewrite (proj2 (Z.eqb_neq _ _)) by nia.
    rewrite (wrap_small 64) by (unfold is_word; nia). specialize (IH (start + off)). cbn [offsets] in IH. rewrite IH by lia. cbn [mbind outcome_bind]. by rewrite range_cons.
Qed.

(** ** Strings *)

(** A 0-terminated string of bytes. *)
Definition string_at (pm : physical) (a : Z) (s : list Z) : Prop := bytes_at pm a (s ++ [0]) ∧ 0 ∉ s.

(** ** Buffers *)

(** [util::buffer] and [util::const_buffer]; [operator+=] takes its argument as [unsigned]. *)
Record buffer := Buffer { b_pointer : Z; b_count : Z }.
Definition advance (b : buffer) (n : Z) : buffer :=
  let i := u32 n in
  let i := if b_count b <? i then u32 (b_count b) else i in
  Buffer (u64 (b_pointer b + i)) (u64 (b_count b - i)).
(** [*util::read<T>(b)] for an unsigned type of [n] bytes *)
Definition read_field (pm : physical) (b : buffer) (n : nat) : outcome (Z * buffer) :=
  let* v := read_le pm (b_pointer b) n in Done (v, advance b (Z.of_nat n)).

(** A buffer over given bytes. *)
Record holds_bytes (pm : physical) (b : buffer) (bs : list Z) : Prop := {
  hb_bytes : bytes_at pm (b_pointer b) bs;
  hb_count : b_count b = Z.of_nat (length bs);
  hb_range : 0 < b_pointer b ∧ b_pointer b + Z.of_nat (length bs) < 2 ^ 64;
}.
Lemma advance_holds pm b xs bs : holds_bytes pm b (xs ++ bs) → Z.of_nat (length xs) < 2 ^ 32 →
  holds_bytes pm (advance b (Z.of_nat (length xs))) bs ∧ b_pointer (advance b (Z.of_nat (length xs))) = b_pointer b + Z.of_nat (length xs).
Proof.
  intros [Hb Hc Hr] Hx. apply bytes_at_app in Hb as [_ Hb]. rewrite length_app in *. unfold advance.
  rewrite (wrap_small 32 (Z.of_nat (length xs))) by (unfold is_word; lia). rewrite (proj2 (Z.ltb_ge _ _)) by lia.
  rewrite !(wrap_small 64) by (unfold is_word; lia). split; [|done]. split; cbn [b_pointer b_count]; [done|lia|lia].
Qed.
Lemma read_field_holds pm b n v bs : holds_bytes pm b (le_bytes n v ++ bs) → (n < 16)%nat → 0 ≤ v < 256 ^ Z.of_nat n →
  ∃ b', read_field pm b n = Done (v, b') ∧ holds_bytes pm b' bs ∧ b_pointer b' = b_pointer b + Z.of_nat n.
Proof.
  intros H Hn Hv. destruct (advance_holds pm b (le_bytes n v) bs H) as [H1 H2]; [rewrite length_le_bytes; lia|]. rewrite length_le_bytes in *.
  eexists. split; [|split; [exact H1|exact H2]]. unfold read_field. destruct H as [Hb _ _]. apply bytes_at_app in Hb as [Hb _]. by rewrite (read_le_at _ _ _ _ Hb Hv).
Qed.
