(* ===== verification/FrameAllocator.v ===== *)
(** * The physical frame allocator

    Models src/kernel/frame_allocator.cpp: blocks of up to 64*64*64 frames (struct frame_block of
    bootproto/kernel.h), each with a three-level bitmap in which a set bit is a free frame
    ([bitmap]), a group of 64 frames with a free one ([map2]) or 64 groups with a free one
    ([map1]).  The C++ object is used under its lock, so operations are functions on the list of
    blocks.  [block_wf] is the consistency of the three levels, [frame_free] the abstract view. *)
From S2P Require Import Prelude.

Definition frame_size : Z := 4096.
Definition frames_per_block : Z := 64 * 64 * 64.

Record frame_block := FrameBlock {
  base : Z;
  count : Z;
  flags : Z;
  map1 : Z;
  map2 : list Z;
  bitmap : list Z;
}.

Definition set_maps (b : frame_block) (m1 : Z) (m2 bm : list Z) : frame_block :=
  FrameBlock (base b) (count b) (flags b) m1 m2 bm.

(** [bsf] is a [tzcnt] instruction. *)
Definition bsf (v : Z) : Z := tzcnt64 v.

(** The body of the loop of [frame_allocator::allocate] for a block with a free frame. *)
Definition allocate_block (b : frame_block) (cnt : Z) : outcome (Z * Z * frame_block) :=
  let o1 := bsf (map1 b) in
  let* m2 := arr_get (map2 b) o1 in
  let o2 := bsf m2 in
  let* m3 := arr_get (bitmap b) (Z.shiftl o1 6 + o2) in
  let o3 := bsf m3 in
  let frame := u32 (Z.shiftl o1 12 + Z.shiftl o2 6 + o3) in
  let* shifted := shr64 m3 o3 in
  let run := bsf (wnot 64 shifted) in
  let n := if run >? cnt then cnt else run in
  let address := u64 (base b + frame * frame_size) in
  let* one := shl64 1 n in
  let* mask := shl64 (one - 1) o3 in
  let m3 := Z.land m3 (wnot 64 mask) in
  let* bm := arr_set (bitmap b) (Z.shiftl o1 6 + o2) m3 in
  if m3 =? 0 then
    let* b2 := shl64 1 o2 in
    let m2 := Z.land m2 (wnot 64 b2) in
    let* mp2 := arr_set (map2 b) o1 m2 in
    if m2 =? 0 then
      let* b1 := shl64 1 o1 in
      Done (n, address, set_maps b (Z.land (map1 b) (wnot 64 b1)) mp2 bm)
    else Done (n, address, set_maps b (map1 b) mp2 bm)
  else Done (n, address, set_maps b (map1 b) (map2 b) bm).

(** The loop [for (long i = m_count - 1; i >= 0; --i)]; [k] is [i + 1].  No block with a free
    frame is a failed [kassert(false, ...)]. *)
Fixpoint allocate_from (blocks : list frame_block) (k : nat) (cnt : Z)
    : outcome (Z * Z * list frame_block) :=
  match k with
  | O => Panic
  | S i =>
      let* b := deref (blocks !! i) in
      if map1 b =? 0 then allocate_from blocks i cnt
      else
        let* (n, address, b') := allocate_block b cnt in
        Done (n, address, <[i := b']> blocks)
  end.

Definition allocate (blocks : list frame_block) (cnt : Z) : outcome (Z * Z * list frame_block) :=
  allocate_from blocks (length blocks) cnt.

(** The inner [while (count--)] of [frame_allocator::free], run [n] times from the position
    [o1], [o2], [o3]. *)
Fixpoint free_run (b : frame_block) (o1 o2 o3 : Z) (n : nat) : outcome frame_block :=
  match n with
  | O => Done b
  | S n =>
      let m1 := Z.lor (map1 b) (bit o1) in
      let* m2 := arr_get (map2 b) o1 in
      let* mp2 := arr_set (map2 b) o1 (Z.lor m2 (bit o2)) in
      let* m3 := arr_get (bitmap b) o2 in
      let* bm := arr_set (bitmap b) o2 (Z.lor m3 (bit o3)) in
      let b := set_maps b m1 mp2 bm in
      if o3 + 1 =? 64 then
        if o2 + 1 =? 64 then
          let* _ := kassert (o1 + 1 <? 64) in
          free_run b (o1 + 1) 0 0 n
        else free_run b o1 (o2 + 1) 0 n
      else free_run b o1 o2 (o3 + 1) n
  end.

(** The inner [while (count--)] of [frame_allocator::used]. *)
Fixpoint used_run (b : frame_block) (o1 o2 o3 : Z) (n : nat) : outcome frame_block :=
  match n with
  | O => Done b
  | S n =>
      let* m3 := arr_get (bitmap b) o2 in
      let m3 := Z.land m3 (wnot 64 (bit o3)) in
      let* bm := arr_set (bitmap b) o2 m3 in
      let* b :=
        if m3 =? 0 then
          let* m2 := arr_get (map2 b) o1 in
          let m2 := Z.land m2 (wnot 64 (bit o2)) in
          let* mp2 := arr_set (map2 b) o1 m2 in
          Done (set_maps b (if m2 =? 0 then Z.land (map1 b) (wnot 64 (bit o1)) else map1 b) mp2 bm)
        else Done (set_maps b (map1 b) (map2 b) bm) in
      if o3 + 1 =? 64 then
        if o2 + 1 =? 64 then
          let* _ := kassert (o1 + 1 <? 64) in
          used_run b (o1 + 1) 0 0 n
        else used_run b o1 (o2 + 1) 0 n
      else used_run b o1 o2 (o3 + 1) n
  end.

(** The loop over the blocks shared by [free] and [used]: [run] is the inner loop.  After a block
    took the frames, [count] is left at its wrapped value [-1] by the last [count--]. *)
Fixpoint over_blocks (run : frame_block → Z → Z → Z → nat → outcome frame_block)
    (blocks : list frame_block) (address cnt : Z) : outcome (list frame_block) :=
  match blocks with
  | [] => Done []
  | b :: rest =>
      let end_ := u64 (base b + count b * frame_size) in
      if (address <? base b) || (end_ <=? address) then
        let* rest' := over_blocks run rest address cnt in
        Done (b :: rest')
      else
        let frame := Z.shiftr (u64 (address - base b)) 12 in
        let o1 := Z.land (Z.shiftr frame 12) 63 in
        let o2 := Z.land (Z.shiftr frame 6) 63 in
        let o3 := Z.land frame 63 in
        let* b' := run b o1 o2 o3 (Z.to_nat cnt) in
        let* rest' := over_blocks run rest address (u64 (-1)) in
        Done (b' :: rest')
  end.

Definition free (blocks : list frame_block) (address cnt : Z) : outcome (list frame_block) :=
  let* _ := kassert (address mod frame_size =? 0) in
  if cnt =? 0 then Done blocks else over_blocks free_run blocks address cnt.

Definition used (blocks : list frame_block) (address cnt : Z) : outcome (list frame_block) :=
  let* _ := kassert (address mod frame_size =? 0) in
  if cnt =? 0 then Done blocks else over_blocks used_run blocks address cnt.

(** ** Abstract view and invariant *)

(** Frame [f] of the block is free: its bit of the bitmap is set. *)
Definition frame_free (b : frame_block) (f : Z) : bool :=
  Z.testbit (znth (bitmap b) (f / 64)) (f mod 64).

Record block_wf (b : frame_block) : Prop := {
  wf_map1 : is_u64 (map1 b);
  wf_map2_len : length (map2 b) = 64%nat;
  wf_map2 : Forall is_u64 (map2 b);
  wf_bitmap_len : (length (bitmap b) <= 4096)%nat;
  wf_bitmap : Forall is_u64 (bitmap b);
  wf_level1 : ∀ o1, 0 ≤ o1 < 64 →
    Z.testbit (map1 b) o1 = bool_decide (znth (map2 b) o1 ≠ 0);
  wf_level2 : ∀ o1 o2, 0 ≤ o1 < 64 → 0 ≤ o2 < 64 →
    Z.testbit (znth (map2 b) o1) o2 = bool_decide (znth (bitmap b) (o1 * 64 + o2) ≠ 0);
}.

(** The consistent block over a given bitmap: what the boot loader means to build. *)
Definition mk_block (bs cnt : Z) (ws : list Z) : frame_block :=
  let group o1 o2 := bool_decide (znth ws (o1 * 64 + o2) ≠ 0) in
  let m2 := (λ o1, of_bits (group o1) (seqZ 0 64)) <$> seqZ 0 64 in
  FrameBlock bs cnt 8 (of_bits (λ o1, bool_decide (znth m2 o1 ≠ 0)) (seqZ 0 64)) m2 ws.

(** A block of 66 groups, all free. *)
Definition block_66 : frame_block := mk_block 0x100000 4224 (replicate 66 (2 ^ 64 - 1)).

Example allocate_3 :
  (let* (n, a, bs) := allocate [block_66] 3 in
   let* (n', a', bs') := allocate bs 2 in Done (n, a, n', a'))
  = Done (3, 0x100000, 2, 0x103000).
Proof. vm_compute. reflexivity. Qed.

(** ** Changing one word of the bitmap *)
Section update.
Context (b : frame_block) (Hwf : block_wf b).

Lemma map2_word o1 : is_u64 (znth (map2 b) o1).
Proof. apply znth_Forall; [done|apply Hwf]. Qed.

Lemma bitmap_word g : is_u64 (znth (bitmap b) g).
Proof. apply znth_Forall; [done|apply Hwf]. Qed.

Lemma bitmap_in_range g : 0 ≤ g → znth (bitmap b) g ≠ 0 → 0 ≤ g < Z.of_nat (length (bitmap b)).
Proof.
  intros Hg Hz. split; [done|]. destruct (decide (g < Z.of_nat (length (bitmap b)))); [done|].
  rewrite znth_oob in Hz by lia. done.
Qed.

(** A block whose group word [o1*64+o2] becomes [v], with the two summary levels following. *)
Lemma set_word_wf o1 o2 v m1' m2' :
  0 ≤ o1 < 64 → 0 ≤ o2 < 64 → o1 * 64 + o2 < Z.of_nat (length (bitmap b)) → is_u64 v →
  is_u64 m2' →
  (∀ j, 0 ≤ j < 64 → Z.testbit m2' j =
    if decide (o2 = j) then bool_decide (v ≠ 0) else Z.testbit (znth (map2 b) o1) j) →
  is_u64 m1' →
  (∀ j, 0 ≤ j < 64 → Z.testbit m1' j =
    if decide (o1 = j) then bool_decide (m2' ≠ 0) else Z.testbit (map1 b) j) →
  block_wf (set_maps b m1' (<[Z.to_nat o1 := m2']> (map2 b))
    (<[Z.to_nat (o1 * 64 + o2) := v]> (bitmap b))).
Proof.
  intros Ho1 Ho2 Hlen Hv Hm2 Hb2 Hm1 Hb1. destruct Hwf as [W1 W2 W3 W4 W5 W6 W7].
  split; simpl.
  - done.
  - by rewrite length_insert.
  - by apply Forall_insert.
  - by rewrite length_insert.
  - by apply Forall_insert.
  - intros j Hj. rewrite znth_insert, Hb1 by lia. destruct (decide (o1 = j)); [done|]. by apply W6.
  - intros j k Hj Hk. rewrite !znth_insert by lia. destruct (decide (o1 = j)) as [->|Hne].
    + rewrite Hb2 by done. destruct (decide (o2 = k)) as [->|]; [by rewrite decide_True by done|].
      rewrite decide_False by lia. by apply W7.
    + rewrite decide_False by lia. by apply W7.
Qed.

Lemma set_word_free o1 o2 v m1' mp2 f :
  0 ≤ o1 < 64 → 0 ≤ o2 < 64 → o1 * 64 + o2 < Z.of_nat (length (bitmap b)) → 0 ≤ f →
  frame_free (set_maps b m1' mp2 (<[Z.to_nat (o1 * 64 + o2) := v]> (bitmap b))) f =
    if decide (f / 64 = o1 * 64 + o2) then Z.testbit v (f mod 64) else frame_free b f.
Proof.
  intros Ho1 Ho2 Hlen Hf. unfold frame_free. simpl. rewrite znth_insert by lia.
  destruct (decide (o1 * 64 + o2 = f / 64)), (decide (f / 64 = o1 * 64 + o2)); congruence.
Qed.

End update.

(** The length of the run of ones of a word from bit [o] on. *)
Lemma run_spec m o :
  is_u64 m → 0 ≤ o < 64 → Z.testbit m o = true →
  let r := bsf (wnot 64 (Z.shiftr m o)) in
  0 < r ≤ 64 ∧ (∀ j, 0 ≤ j < r → Z.testbit m (o + j) = true) ∧
  (o + r < 64 → Z.testbit m (o + r) = false).
Proof.
  intros Hm Ho Hbit r. unfold r, bsf.
  assert (∀ i, 0 ≤ i < 64 →
    Z.testbit (wnot 64 (Z.shiftr m o)) i = negb (Z.testbit m (o + i))) as Hnot.
  { intros i Hi. autorewrite with zbits. rewrite (proj2 (Z.ltb_lt i 64)) by lia.
    by rewrite (Z.add_comm i o). }
  assert (is_u64 (wnot 64 (Z.shiftr m o))) as Hw by (apply wnot_word; lia).
  destruct (decide (wnot 64 (Z.shiftr m o) = 0)) as [Hz|Hz].
  - rewrite Hz. change (tzcnt64 0) with 64. split; [lia|]. split; [|lia].
    intros j Hj. specialize (Hnot j). rewrite Hz, Z.bits_0 in Hnot.
    symmetry in Hnot. apply negb_false_iff in Hnot; [done|lia].
  - pose proof (tzcnt64_lt _ Hw Hz) as Hlt.
    destruct (tzcnt64_spec (wnot 64 (Z.shiftr m o))) as (H0 & H1 & H2);
      [unfold is_word in Hw; lia|].
    set (k := tzcnt64 _) in *. rewrite Hnot in H1 by lia. apply negb_true_iff in H1.
    split; [|split; [|done]].
    + split; [|lia]. destruct (decide (k = 0)) as [E|]; [|lia].
      rewrite E, Z.add_0_r in H1. congruence.
    + intros j Hj. specialize (H2 j). rewrite Hnot in H2 by lia.
      apply negb_false_iff, H2. lia.
Qed.

Lemma run_mask_testbit n o i :
  0 ≤ n < 64 → 0 ≤ o < 64 → 0 ≤ i < 64 →
  Z.testbit (u64 (Z.shiftl (u64 (Z.shiftl 1 n) - 1) o)) i = bool_decide (o ≤ i < o + n).
Proof.
  intros Hn Ho Hi. rewrite (wrap_small 64 (Z.shiftl 1 n)) by (apply bit_word; lia).
  rewrite Z.shiftl_1_l. replace (2 ^ n - 1) with (Z.ones n) by (rewrite Z.ones_equiv; lia).
  rewrite wrap_testbit, Z.shiftl_spec by lia. rewrite (proj2 (Z.ltb_lt i 64)) by lia. simpl.
  rewrite Z.testbit_ones by lia. case_bool_decide as H; lia.
Qed.

(** ** allocate *)

(** What an allocation of [n] frames from frame [f] of block [b] promises. *)
Record alloc_spec (b : frame_block) (cnt n f : Z) (b' : frame_block) : Prop := {
  as_range : 0 ≤ f ∧ f + n ≤ frames_per_block;
  as_count : 0 < n ≤ cnt;
  as_lowest : ∀ g, 0 ≤ g < f → frame_free b g = false;
  as_was_free : ∀ g, f ≤ g < f + n → frame_free b g = true;
  as_now : ∀ g, 0 ≤ g →
    frame_free b' g = frame_free b g && negb (bool_decide (f ≤ g < f + n));
  as_maximal : n = cnt ∨ (f + n) mod 64 = 0 ∨ frame_free b (f + n) = false;
  as_wf : block_wf b';
  as_fixed : base b' = base b ∧ count b' = count b ∧ flags b' = flags b;
}.

(** The position the tree walk of [allocate] finds. *)
Lemma walk_spec b :
  block_wf b → map1 b ≠ 0 →
  let o1 := bsf (map1 b) in let m2 := znth (map2 b) o1 in
  let o2 := bsf m2 in let m3 := znth (bitmap b) (o1 * 64 + o2) in let o3 := bsf m3 in
  0 ≤ o1 < 64 ∧ 0 ≤ o2 < 64 ∧ 0 ≤ o3 < 64 ∧
  m2 ≠ 0 ∧ m3 ≠ 0 ∧ o1 * 64 + o2 < Z.of_nat (length (bitmap b)) ∧
  Z.testbit (map1 b) o1 = true ∧ Z.testbit m2 o2 = true ∧ Z.testbit m3 o3 = true ∧
  (∀ j, j < o1 → Z.testbit (map1 b) j = false) ∧
  (∀ j, j < o2 → Z.testbit m2 j = false) ∧ (∀ j, j < o3 → Z.testbit m3 j = false).
Proof.
  intros Hwf Hz o1 m2 o2 m3 o3. pose proof (wf_map1 b Hwf) as Hw1.
  pose proof (tzcnt64_lt _ Hw1 Hz) as Ho1.
  destruct (tzcnt64_spec (map1 b)) as (_ & B1 & L1); [unfold is_word in Hw1; lia|].
  assert (m2 ≠ 0) as Hm2.
  { pose proof (wf_level1 b Hwf o1 Ho1) as H. unfold o1, bsf in H. rewrite B1 in H.
    symmetry in H. by apply bool_decide_eq_true in H. }
  pose proof (map2_word b Hwf o1) as Hw2. fold m2 in Hw2.
  pose proof (tzcnt64_lt _ Hw2 Hm2) as Ho2.
  destruct (tzcnt64_spec m2) as (_ & B2 & L2); [unfold is_word in Hw2; lia|].
  assert (m3 ≠ 0) as Hm3.
  { pose proof (wf_level2 b Hwf o1 o2 Ho1 Ho2) as H. fold m2 in H.
    unfold o2, bsf in H. rewrite B2 in H. symmetry in H. by apply bool_decide_eq_true in H. }
  pose proof (bitmap_word b Hwf (o1 * 64 + o2)) as Hw3. fold m3 in Hw3.
  pose proof (tzcnt64_lt _ Hw3 Hm3) as Ho3.
  destruct (tzcnt64_spec m3) as (_ & B3 & L3); [unfold is_word in Hw3; lia|].
  assert (o1 * 64 + o2 < Z.of_nat (length (bitmap b))).
  { apply bitmap_in_range; [|done]. unfold o1, o2, bsf in *. lia. }
  repeat split; try done; try apply Ho1; try apply Ho2; apply Ho3.
Qed.

(** Every frame before the one the walk finds is in use. *)
Lemma walk_lowest b o1 o2 o3 :
  block_wf b → 0 ≤ o1 < 64 → 0 ≤ o2 < 64 → 0 ≤ o3 < 64 →
  (∀ j, j < o1 → Z.testbit (map1 b) j = false) →
  (∀ j, j < o2 → Z.testbit (znth (map2 b) o1) j = false) →
  (∀ j, j < o3 → Z.testbit (znth (bitmap b) (o1 * 64 + o2)) j = false) →
  ∀ g, 0 ≤ g < (o1 * 64 + o2) * 64 + o3 → frame_free b g = false.
Proof.
  intros Hwf Ho1 Ho2 Ho3 L1 L2 L3 g Hg. unfold frame_free.
  assert (0 ≤ g / 64 < 4096 ∧ 0 ≤ g mod 64 < 64 ∧ g = g / 64 * 64 + g mod 64) as (? & ? & Hge)
    by (Z.div_mod_to_equations; lia).
  set (w := g / 64) in *. set (r := g mod 64) in *.
  assert (0 ≤ w / 64 < 64 ∧ 0 ≤ w mod 64 < 64 ∧ w = w / 64 * 64 + w mod 64) as (? & ? & Hwe)
    by (Z.div_mod_to_equations; lia).
  destruct (decide (w = o1 * 64 + o2)) as [->|]; [apply L3; lia|].
  enough (znth (bitmap b) w = 0) as -> by apply Z.bits_0.
  pose proof (wf_level2 b Hwf (w / 64) (w mod 64)) as HL2. rewrite <- Hwe in HL2.
  apply dec_stable. intros Hnz. rewrite bool_decide_eq_true_2 in HL2 by done.
  destruct (decide (w / 64 = o1)) as [E|].
  - rewrite E in HL2. rewrite L2 in HL2 by lia. naive_solver lia.
  - pose proof (wf_level1 b Hwf (w / 64)) as HL1. rewrite L1 in HL1 by lia.
    enough (znth (map2 b) (w / 64) = 0) as E0 by (rewrite E0, Z.bits_0 in HL2; naive_solver lia).
    apply dec_stable. intros Hm. rewrite bool_decide_eq_true_2 in HL1 by done. naive_solver lia.
Qed.

Lemma clear_bit_testbit m k j :
  0 ≤ k < 64 → 0 ≤ j < 64 →
  Z.testbit (Z.land m (wnot 64 (u64 (Z.shiftl 1 k)))) j =
    if decide (k = j) then false else Z.testbit m j.
Proof.
  intros Hk Hj. rewrite (wrap_small 64 (Z.shiftl 1 k)) by (apply bit_word; lia).
  fold (bit k). autorewrite with zbits. rewrite (proj2 (Z.ltb_lt j 64)) by lia.
  destruct (decide (k = j)) as [->|].
  - by rewrite bool_decide_eq_true_2, andb_false_r by done.
  - by rewrite bool_decide_eq_false_2, andb_true_r by done.
Qed.

Lemma znth_insert_self l i : 0 ≤ i < Z.of_nat (length l) → <[Z.to_nat i := znth l i]> l = l.
Proof.
  intros Hi. apply list_insert_id. unfold znth. rewrite (proj2 (Z.leb_le 0 i)) by lia.
  destruct (lookup_lt_is_Some_2 l (Z.to_nat i)) as [x Hx]; [lia|].
  by rewrite Hx, (nth_lookup_Some _ _ _ _ Hx).
Qed.

(** The block [allocate_block] leaves, for the word [v] it stores at the walk's position. *)
Definition after_alloc (b : frame_block) (o1 o2 v : Z) : frame_block :=
  let m2 := znth (map2 b) o1 in
  let bm := <[Z.to_nat (o1 * 64 + o2) := v]> (bitmap b) in
  if v =? 0 then
    let m2' := Z.land m2 (wnot 64 (u64 (Z.shiftl 1 o2))) in
    set_maps b
      (if m2' =? 0 then Z.land (map1 b) (wnot 64 (u64 (Z.shiftl 1 o1))) else map1 b)
      (<[Z.to_nat o1 := m2']> (map2 b)) bm
  else set_maps b (map1 b) (map2 b) bm.

Lemma after_alloc_wf b o1 o2 v :
  block_wf b → 0 ≤ o1 < 64 → 0 ≤ o2 < 64 → o1 * 64 + o2 < Z.of_nat (length (bitmap b)) →
  is_u64 v → (v ≠ 0 → znth (bitmap b) (o1 * 64 + o2) ≠ 0) →
  block_wf (after_alloc b o1 o2 v).
Proof.
  intros Hwf Ho1 Ho2 Hlen Hv Hne. unfold after_alloc.
  pose proof (wf_map1 b Hwf) as W1. pose proof (wf_map2_len b Hwf) as Wl.
  pose proof (map2_word b Hwf o1) as W2.
  pose proof (wf_level1 b Hwf o1 Ho1) as B1. pose proof (wf_level2 b Hwf o1 o2 Ho1 Ho2) as B2.
  destruct (Z.eqb_spec v 0) as [->|Hv0].
  - set (m2' := Z.land (znth (map2 b) o1) _).
    assert (is_u64 m2') by (apply land_word; [lia|done|apply wnot_word; lia]).
    apply set_word_wf; try done.
    + intros j Hj. unfold m2'. rewrite clear_bit_testbit by lia. done.
    + case_match; [|done]. apply land_word; [lia|done|apply wnot_word; lia].
    + intros j Hj. destruct (Z.eqb_spec m2' 0) as [->|Hm]; [by rewrite clear_bit_testbit by lia|].
      destruct (decide (o1 = j)) as [<-|]; [|done]. rewrite B1, !bool_decide_eq_true_2; [done..|].
      intros E. unfold m2' in Hm. by rewrite E, Z.land_0_l in Hm.
  - rewrite (bool_decide_eq_true_2 (_ ≠ 0)) in B2 by auto.
    rewrite <- (znth_insert_self (map2 b) o1) by lia. apply set_word_wf; try done.
    + intros j Hj. destruct (decide (o2 = j)) as [<-|]; [|done]. by rewrite bool_decide_eq_true_2.
    + intros j Hj. destruct (decide (o1 = j)) as [<-|]; done.
Qed.

Lemma after_alloc_free b o1 o2 v f :
  0 ≤ o1 < 64 → 0 ≤ o2 < 64 → o1 * 64 + o2 < Z.of_nat (length (bitmap b)) → 0 ≤ f →
  frame_free (after_alloc b o1 o2 v) f =
    if decide (f / 64 = o1 * 64 + o2) then Z.testbit v (f mod 64) else frame_free b f.
Proof. intros. unfold after_alloc. destruct (v =? 0); by apply set_word_free. Qed.

Lemma allocate_block_eq b cnt :
  block_wf b → map1 b ≠ 0 → 0 ≤ cnt < 64 →
  let o1 := bsf (map1 b) in let o2 := bsf (znth (map2 b) o1) in
  let m3 := znth (bitmap b) (o1 * 64 + o2) in let o3 := bsf m3 in
  let n := Z.min (bsf (wnot 64 (Z.shiftr m3 o3))) cnt in
  allocate_block b cnt =
    Done (n, u64 (base b + ((o1 * 64 + o2) * 64 + o3) * frame_size),
      after_alloc b o1 o2
        (Z.land m3 (wnot 64 (u64 (Z.shiftl (u64 (Z.shiftl 1 n) - 1) o3))))).
Proof.
  intros Hwf Hz Hcnt.
  destruct (walk_spec b Hwf Hz) as (R1 & R2 & R3 & N2 & N3 & Hlen & B1 & B2 & B3 & _).
  pose proof (wf_map2_len b Hwf) as Wl. unfold allocate_block.
  set (o1 := bsf (map1 b)) in *. rewrite arr_get_znth by lia. rewrite bind_Done.
  set (m2 := znth (map2 b) o1) in *. set (o2 := bsf m2) in *.
  replace (Z.shiftl o1 6 + o2) with (o1 * 64 + o2) by (rewrite Z.shiftl_mul_pow2; lia).
  rewrite arr_get_znth by lia. rewrite bind_Done.
  set (m3 := znth (bitmap b) (o1 * 64 + o2)) in *. set (o3 := bsf m3) in *.
  rewrite shr64_Done by lia. rewrite bind_Done. cbv zeta.
  pose proof (run_spec m3 o3 (bitmap_word b Hwf _) R3 B3) as (Hr & _ & _). cbv zeta in Hr.
  set (run := bsf (wnot 64 (Z.shiftr m3 o3))) in *.
  replace (if run >? cnt then cnt else run) with (Z.min run cnt) by (zcases; lia).
  rewrite !shl64_Done by lia. rewrite !bind_Done. rewrite shl64_Done, bind_Done by lia.
  rewrite arr_set_Done, bind_Done by lia.
  replace (u32 (Z.shiftl o1 12 + Z.shiftl o2 6 + o3)) with ((o1 * 64 + o2) * 64 + o3).
  2:{ rewrite !Z.shiftl_mul_pow2 by lia. rewrite wrap_small; [lia|]. unfold is_word. lia. }
  unfold after_alloc. fold m2.
  destruct (_ =? 0); [|done]. rewrite bind_Done.
  rewrite arr_set_Done, bind_Done by lia. by destruct (_ =? 0).
Qed.

Lemma allocate_block_spec b cnt :
  block_wf b → map1 b ≠ 0 → 0 < cnt < 64 →
  ∃ n f b', allocate_block b cnt = Done (n, u64 (base b + f * frame_size), b') ∧
    alloc_spec b cnt n f b'.
Proof.
  intros Hwf Hz Hcnt. pose proof (allocate_block_eq b cnt Hwf Hz) as Heq. cbv zeta in Heq.
  destruct (walk_spec b Hwf Hz)
    as (R1 & R2 & R3 & N2 & N3 & Hlen & B1 & B2 & B3 & L1 & L2 & L3).
  set (o1 := bsf (map1 b)) in *. set (o2 := bsf (znth (map2 b) o1)) in *.
  set (m3 := znth (bitmap b) (o1 * 64 + o2)) in *. set (o3 := bsf m3) in *.
  pose proof (bitmap_word b Hwf (o1 * 64 + o2)) as Hw3. fold m3 in Hw3.
  destruct (run_spec m3 o3 Hw3 R3 B3) as (Hr & Hones & Hend). cbv zeta in Hr, Hones, Hend.
  set (run := bsf (wnot 64 (Z.shiftr m3 o3))) in *. set (n := Z.min run cnt) in *.
  assert (o3 + run ≤ 64) as Hrun.
  { destruct (decide (o3 + run ≤ 64)); [done|]. specialize (Hones (64 - o3)).
    replace (o3 + (64 - o3)) with 64 in Hones by lia.
    rewrite (word_testbit_high 64 m3) in Hones by (done || lia). naive_solver lia. }
  set (f := (o1 * 64 + o2) * 64 + o3).
  assert (∀ g, f ≤ g < f + run → g / 64 = o1 * 64 + o2 ∧ g mod 64 = o3 + (g - f)) as Hpos.
  { intros g Hg. split; symmetry.
    - apply (Z.div_unique _ _ _ (o3 + (g - f))); lia.
    - apply (Z.mod_unique _ _ (o1 * 64 + o2)); lia. }
  eexists n, f, _. split; [apply Heq; lia|]. split.
  - unfold frames_per_block. lia.
  - lia.
  - by apply walk_lowest.
  - intros g Hg. unfold frame_free. destruct (Hpos g) as [-> ->]; [lia|]. apply Hones. lia.
  - intros g Hg. rewrite after_alloc_free by done. destruct (decide _) as [E|Hne].
    + unfold frame_free. rewrite E. fold m3.
      rewrite Z.land_spec, wnot_testbit, run_mask_testbit by (Z.div_mod_to_equations; lia).
      rewrite (proj2 (Z.ltb_lt _ _)) by (Z.div_mod_to_equations; lia). simpl.
      f_equal. f_equal. apply bool_decide_ext. Z.div_mod_to_equations; lia.
    + rewrite bool_decide_eq_false_2, andb_true_r; [done|]. intros Hin. apply Hne, Hpos. lia.
  - destruct (decide (n = cnt)); [by left|]. right.
    destruct (decide (o3 + run = 64)).
    + left. replace (f + n) with ((o1 * 64 + o2 + 1) * 64) by lia. apply Z.mod_mul. lia.
    + right. unfold frame_free. replace ((f + n) / 64) with (o1 * 64 + o2).
      2:{ apply (Z.div_unique _ _ _ (o3 + run)); lia. }
      replace ((f + n) mod 64) with (o3 + run).
      2:{ apply (Z.mod_unique _ _ (o1 * 64 + o2)); lia. }
      apply Hend. lia.
  - apply after_alloc_wf; try done. apply land_word; [lia|done|apply wnot_word; lia].
  - unfold after_alloc. by destruct (_ =? 0).
Qed.

Lemma map1_zero_no_free b f :
  block_wf b → map1 b = 0 → 0 ≤ f < frames_per_block → frame_free b f = false.
Proof.
  intros Hwf Hz Hf. unfold frames_per_block in Hf. unfold frame_free.
  set (w := f / 64). assert (0 ≤ w / 64 < 64 ∧ 0 ≤ w mod 64 < 64 ∧ w = w / 64 * 64 + w mod 64)
    as (Hw1 & Hw2 & Hwe) by (unfold w; Z.div_mod_to_equations; lia).
  pose proof (wf_level1 b Hwf (w / 64) Hw1) as H1. rewrite Hz, Z.bits_0 in H1.
  pose proof (wf_level2 b Hwf (w / 64) (w mod 64) Hw1 Hw2) as H2. rewrite <- Hwe in H2.
  symmetry in H1. apply bool_decide_eq_false in H1. apply dec_stable in H1.
  rewrite H1, Z.bits_0 in H2. symmetry in H2.
  apply bool_decide_eq_false in H2. apply dec_stable in H2. rewrite H2. apply Z.bits_0.
Qed.

(** [allocate] looks at the blocks below [k]: it panics when none has a free frame, and otherwise
    allocates from the last one that has. *)
Lemma allocate_from_spec blocks k cnt :
  Forall block_wf blocks → (k <= length blocks)%nat → 0 < cnt < 64 →
  (allocate_from blocks k cnt = Panic ∧
    ∀ j b f, (j < k)%nat → blocks !! j = Some b → 0 ≤ f < frames_per_block →
      frame_free b f = false) ∨
  (∃ i b n f b', (i < k)%nat ∧ blocks !! i = Some b ∧
    allocate_from blocks k cnt = Done (n, u64 (base b + f * frame_size), <[i := b']> blocks) ∧
    alloc_spec b cnt n f b').
Proof.
  intros Hwf Hk Hcnt. induction k as [|i IH].
  - left. split; [done|]. lia.
  - destruct (lookup_lt_is_Some_2 blocks i) as [b Hb]; [lia|]. simpl. rewrite Hb. simpl.
    assert (block_wf b) as Hwb by (by eapply Forall_lookup_1 in Hb).
    destruct (Z.eqb_spec (map1 b) 0) as [Hz|Hz].
    + destruct IH as [[-> Hno]|(j & b1 & n & f & b' & Hj & Hb1 & -> & Hs)]; [lia| |].
      * left. split; [done|]. intros j b1 f Hj Hb1 Hf. destruct (decide (j = i)) as [->|].
        -- simplify_eq. by apply map1_zero_no_free.
        -- apply (Hno j b1 f); [lia|done|done].
      * right. exists j, b1, n, f, b'. repeat split; auto with lia; apply Hs.
    + destruct (allocate_block_spec b cnt Hwb Hz Hcnt) as (n & f & b' & -> & Hs).
      right. exists i, b, n, f, b'. repeat split; auto with lia; apply Hs.
Qed.


(** a request for 64 or more frames that finds a completely free group of 64 shifts [1ull] by
    64, which is undefined: the result of [allocate] is not determined by the language. *)
Theorem allocate_64_undefined b cnt :
  block_wf b → map1 b ≠ 0 → 64 ≤ cnt →
  znth (bitmap b) (bsf (map1 b) * 64 + bsf (znth (map2 b) (bsf (map1 b)))) = 2 ^ 64 - 1 →
  allocate_block b cnt = Undef.
Proof.
  intros Hwf Hz Hcnt Hones.
  destruct (walk_spec b Hwf Hz) as (R1 & R2 & R3 & _ & _ & Hlen & _).
  pose proof (wf_map2_len b Hwf) as Wl. unfold allocate_block.
  rewrite arr_get_znth, bind_Done by lia.
  replace (Z.shiftl (bsf (map1 b)) 6) with (bsf (map1 b) * 64) by (rewrite Z.shiftl_mul_pow2; lia).
  rewrite arr_get_znth, bind_Done by lia. rewrite Hones. change (bsf (2 ^ 64 - 1)) with 0.
  rewrite shr64_Done, bind_Done by lia. rewrite Z.shiftr_0_r.
  change (bsf (wnot 64 (2 ^ 64 - 1))) with 64. cbv zeta.
  by rewrite Z.gtb_ltb, (proj2 (Z.ltb_ge cnt 64)) by lia.
Qed.

Lemma znth_fmap_seqZ (f : Z → Z) n i : 0 ≤ i < n → znth (f <$> seqZ 0 n) i = f i.
Proof.
  intros Hi. unfold znth. rewrite (proj2 (Z.leb_le 0 i)), nth_lookup, list_lookup_fmap by lia.
  rewrite lookup_seqZ_lt by lia. simpl. f_equal. lia.
Qed.

Lemma mk_block_wf bs cnt ws :
  Forall is_u64 ws → (length ws <= 4096)%nat → block_wf (mk_block bs cnt ws).
Proof.
  intros Hws Hlen. split; cbn [mk_block map1 map2 bitmap].
  - apply of_bits_word. lia.
  - by rewrite length_fmap, length_seqZ.
  - apply Forall_fmap, Forall_forall. intros o1 _. apply of_bits_word. lia.
  - done.
  - done.
  - intros o1 Ho1. by rewrite of_bits_seq_testbit by lia.
  - intros o1 o2 Ho1 Ho2. rewrite znth_fmap_seqZ, of_bits_seq_testbit by lia. done.
Qed.

Lemma block_66_wf : block_wf block_66.
Proof.
  apply mk_block_wf; [|by rewrite length_replicate; lia]. apply Forall_replicate.
  unfold is_word. lia.
Qed.


Lemma allocate_64_undefined_witness : allocate_block block_66 64 = Undef.
Proof.
  apply (allocate_64_undefined block_66 64 block_66_wf).
  - vm_compute. discriminate.
  - lia.
  - vm_compute. reflexivity.
Defined.

(** ** free and used

    Both address the bitmap with [o2] alone, where the frame's word is [(o1 << 6) + o2]: they are
    right exactly for the first 64 groups of a block. *)

Lemma lor_bit_nonzero m o : 0 ≤ m → 0 ≤ o → Z.lor m (bit o) ≠ 0.
Proof. intros Hm Ho E. apply Z.lor_eq_0_iff in E as [_ E]. pose proof (bit_pos o Ho). lia. Qed.

Lemma set_bit_testbit m k j :
  0 ≤ k → 0 ≤ j →
  Z.testbit (Z.lor m (bit k)) j = if decide (k = j) then true else Z.testbit m j.
Proof.
  intros Hk Hj. autorewrite with zbits. case_decide; subst.
  - by rewrite bool_decide_eq_true_2, orb_true_r by done.
  - by rewrite bool_decide_eq_false_2, orb_false_r by done.
Qed.

Lemma free_set_wf b o1 o2 o3 :
  block_wf b → 0 ≤ o1 < 64 → 0 ≤ o2 < 64 → 0 ≤ o3 < 64 →
  o1 * 64 + o2 < Z.of_nat (length (bitmap b)) →
  block_wf (set_maps b (Z.lor (map1 b) (bit o1))
    (<[Z.to_nat o1 := Z.lor (znth (map2 b) o1) (bit o2)]> (map2 b))
    (<[Z.to_nat (o1 * 64 + o2) := Z.lor (znth (bitmap b) (o1 * 64 + o2)) (bit o3)]> (bitmap b))).
Proof.
  intros Hwf Ho1 Ho2 Ho3 Hlen. pose proof (map2_word b Hwf o1) as W2.
  pose proof (bitmap_word b Hwf (o1 * 64 + o2)) as W3. pose proof (wf_map1 b Hwf) as W1.
  apply set_word_wf; auto with lia.
  - apply lor_word; [lia|done|apply bit_word; lia].
  - apply lor_word; [lia|done|apply bit_word; lia].
  - intros j Hj. rewrite set_bit_testbit by lia. case_decide; [|done].
    symmetry. apply bool_decide_eq_true, lor_bit_nonzero; [apply W3|lia].
  - apply lor_word; [lia|done|apply bit_word; lia].
  - intros j Hj. rewrite set_bit_testbit by lia. case_decide; [|done].
    symmetry. apply bool_decide_eq_true, lor_bit_nonzero; [apply W2|lia].
Qed.

(** The next position of the loops: the offsets of frame [f + 1]. *)
Lemma next_group0 (run : Z → Z → Z → outcome frame_block) f :
  0 ≤ f < 4096 → (f = 4095 → ∀ o1, run o1 0 0 = run 0 64 0) →
  (if f mod 64 + 1 =? 64 then
     if f / 64 + 1 =? 64 then let* _ := kassert (0 + 1 <? 64) in run (0 + 1) 0 0
     else run 0 (f / 64 + 1) 0
   else run 0 (f / 64) (f mod 64 + 1))
  = run 0 ((f + 1) / 64) ((f + 1) mod 64).
Proof.
  intros Hf Hlast. pose proof (Z.div_mod f 64). pose proof (Z.mod_pos_bound f 64).
  destruct (Z.eqb_spec (f mod 64 + 1) 64) as [E|].
  - replace ((f + 1) / 64) with (f / 64 + 1) by (apply (Z.div_unique _ _ _ 0); lia).
    replace ((f + 1) mod 64) with 0 by (apply (Z.mod_unique _ _ (f / 64 + 1)); lia).
    destruct (Z.eqb_spec (f / 64 + 1) 64) as [E'|]; [|done]. rewrite E'. simpl.
    apply Hlast. lia.
  - replace ((f + 1) / 64) with (f / 64) by (apply (Z.div_unique _ _ _ (f mod 64 + 1)); lia).
    by replace ((f + 1) mod 64) with (f mod 64 + 1) by (apply (Z.mod_unique _ _ (f / 64)); lia).
Qed.

Lemma free_run_group0 n : ∀ b f,
  block_wf b → 0 ≤ f → f + Z.of_nat n ≤ 4096 →
  f + Z.of_nat n ≤ 64 * Z.of_nat (length (bitmap b)) →
  ∃ b', free_run b 0 (f / 64) (f mod 64) n = Done b' ∧ block_wf b' ∧
    (∀ g, 0 ≤ g → frame_free b' g = frame_free b g || bool_decide (f ≤ g < f + Z.of_nat n)).
Proof.
  induction n as [|n IH]; intros b f Hwf Hf Hn Hlen.
  - exists b. split; [done|]. split; [done|]. intros g Hg.
    by rewrite bool_decide_eq_false_2, orb_false_r by lia.
  - pose proof (wf_map2_len b Hwf) as Wl.
    assert (0 ≤ f / 64 < 64 ∧ 0 ≤ f mod 64 < 64 ∧ f / 64 < Z.of_nat (length (bitmap b)))
      as (H2 & H3 & H4) by (Z.div_mod_to_equations; lia).
    pose proof (free_set_wf b 0 (f / 64) (f mod 64) Hwf) as Hwf'.
    rewrite Z.mul_0_l, Z.add_0_l in Hwf'. specialize (Hwf' ltac:(lia) ltac:(lia) ltac:(lia) H4).
    cbn [free_run]. rewrite !arr_get_znth, bind_Done by lia.
    rewrite arr_set_Done, !bind_Done by lia. rewrite arr_set_Done, bind_Done by lia.
    set (b1 := set_maps _ _ _ _) in *. cbv zeta.
    rewrite (next_group0 (λ o1 o2 o3, free_run b1 o1 o2 o3 n)).
    + destruct (IH b1 (f + 1)) as (b' & -> & Hw & Hfree); [done|lia|lia| |].
      { simpl. rewrite length_insert. lia. }
      exists b'. split; [done|]. split; [done|]. intros g Hg. rewrite Hfree by done.
      unfold b1. pose proof (set_word_free b 0 (f / 64)) as Hsf.
      rewrite Z.mul_0_l, Z.add_0_l in Hsf. rewrite Hsf by lia.
      destruct (decide (g / 64 = f / 64)) as [E|Hne].
      * rewrite set_bit_testbit by (Z.div_mod_to_equations; lia). unfold frame_free. rewrite E.
        destruct (decide (f mod 64 = g mod 64)).
        -- rewrite (bool_decide_eq_true_2 (f ≤ g < f + Z.of_nat (S n))), orb_true_r
             by (Z.div_mod_to_equations; lia). done.
        -- f_equal. apply bool_decide_ext. Z.div_mod_to_equations; lia.
      * f_equal. apply bool_decide_ext. Z.div_mod_to_equations; lia.
    + Z.div_mod_to_equations; lia.
    + intros -> o1. destruct n; [done|lia].
Qed.

Lemma used_run_group0 n : ∀ b f,
  block_wf b → 0 ≤ f → f + Z.of_nat n ≤ 4096 →
  f + Z.of_nat n ≤ 64 * Z.of_nat (length (bitmap b)) →
  ∃ b', used_run b 0 (f / 64) (f mod 64) n = Done b' ∧ block_wf b' ∧
    (∀ g, 0 ≤ g →
      frame_free b' g = frame_free b g && negb (bool_decide (f ≤ g < f + Z.of_nat n))).
Proof.
  induction n as [|n IH]; intros b f Hwf Hf Hn Hlen.
  - exists b. split; [done|]. split; [done|]. intros g Hg.
    by rewrite bool_decide_eq_false_2, andb_true_r by lia.
  - pose proof (wf_map2_len b Hwf) as Wl.
    assert (0 ≤ f / 64 < 64 ∧ 0 ≤ f mod 64 < 64 ∧ f / 64 < Z.of_nat (length (bitmap b)))
      as (H2 & H3 & H4) by (Z.div_mod_to_equations; lia).
    set (v := Z.land (znth (bitmap b) (f / 64)) (wnot 64 (bit (f mod 64)))).
    assert (is_u64 v) by (apply land_word; [lia|by apply bitmap_word|apply wnot_word; lia]).
    assert (∀ i, 0 ≤ i < 64 → u64 (Z.shiftl 1 i) = bit i) as Hb
      by (intros; apply wrap_small, bit_word; lia).
    assert (block_wf (after_alloc b 0 (f / 64) v)) as Hwf'.
    { apply after_alloc_wf; auto with lia. intros Hv E. apply Hv. unfold v.
      rewrite Z.mul_0_l, Z.add_0_l in E. by rewrite E, Z.land_0_l. }
    cbn [used_run]. rewrite (arr_get_znth (bitmap b)), bind_Done by lia. fold v.
    rewrite (arr_set_Done (bitmap b)), bind_Done by lia.
    match goal with |- context [mbind _ ?m] => replace m with (Done (after_alloc b 0 (f / 64) v)) end.
    2:{ unfold after_alloc. rewrite !Hb, Z.mul_0_l, Z.add_0_l by lia.
        destruct (v =? 0); [|done]. rewrite arr_get_znth, bind_Done by lia.
        by rewrite arr_set_Done, bind_Done by lia. }
    rewrite bind_Done. set (b1 := after_alloc _ _ _ _) in *.
    rewrite (next_group0 (λ o1 o2 o3, used_run b1 o1 o2 o3 n)).
    + destruct (IH b1 (f + 1)) as (b' & -> & Hw & Hfree); [done|lia|lia| |].
      { unfold b1, after_alloc. destruct (v =? 0); simpl; rewrite length_insert; lia. }
      exists b'. split; [done|]. split; [done|]. intros g Hg. rewrite Hfree by done.
      unfold b1. rewrite after_alloc_free by lia.
      destruct (decide (g / 64 = 0 * 64 + f / 64)) as [E|Hne].
      * unfold frame_free. rewrite E, Z.mul_0_l, Z.add_0_l. unfold v.
        rewrite <- Hb, clear_bit_testbit by (Z.div_mod_to_equations; lia).
        destruct (decide (f mod 64 = g mod 64)).
        -- rewrite (bool_decide_eq_true_2 (f ≤ g < f + Z.of_nat (S n))), andb_false_r
             by (Z.div_mod_to_equations; lia). done.
        -- do 2 f_equal. apply bool_decide_ext. Z.div_mod_to_equations; lia.
      * do 2 f_equal. apply bool_decide_ext. Z.div_mod_to_equations; lia.
    + Z.div_mod_to_equations; lia.
    + intros -> o1. destruct n; [done|lia].
Qed.

(** [address] is in the range the loops of [free] and [used] test for block [b]. *)
Definition in_block (b : frame_block) (address : Z) : Prop :=
  base b ≤ address < u64 (base b + count b * frame_size).

Lemma over_blocks_none run blocks address cnt :
  (∀ j c, blocks !! j = Some c → ¬ in_block c address) →
  over_blocks run blocks address cnt = Done blocks.
Proof.
  induction blocks as [|b rest IH]; intros Hno; [done|]. simpl.
  assert (¬ in_block b address) as Hb by (by apply (Hno 0%nat)). unfold in_block in Hb.
  destruct (Z.ltb_spec address (base b)); simpl.
  - rewrite IH; [done|]. intros j. apply (Hno (S j)).
  - destruct (Z.leb_spec (u64 (base b + count b * frame_size)) address); [|lia].
    rewrite IH; [done|]. intros j. apply (Hno (S j)).
Qed.

(** The loops act on the one block that holds the address, at its frame's offsets. *)
Lemma over_blocks_at run blocks i b b' f n :
  blocks !! i = Some b → is_u64 (base b) → 0 ≤ f < count b → count b ≤ frames_per_block →
  is_u64 (base b + count b * frame_size) →
  (∀ j c, j ≠ i → blocks !! j = Some c → ¬ in_block c (base b + f * frame_size)) →
  run b (f / 4096) ((f / 64) mod 64) (f mod 64) (Z.to_nat n) = Done b' →
  over_blocks run blocks (base b + f * frame_size) n = Done (<[i := b']> blocks).
Proof.
  intros Hi Hb Hf Hcnt Hend Hno Hrun. unfold frames_per_block in *.
  generalize dependent i. induction blocks as [|c rest IH]; intros i Hi Hno; [done|].
  simpl. destruct i as [|i].
  - simplify_eq/=. rewrite (wrap_small 64 _ Hend). unfold is_word in Hb, Hend.
    change frame_size with 4096 in *.
    rewrite (proj2 (Z.ltb_ge _ (base b))), (proj2 (Z.leb_gt _ _)) by lia.
    simpl. rewrite (wrap_small 64 (base b + f * 4096 - base b)) by (unfold is_word; lia).
    replace (Z.shiftr (base b + f * 4096 - base b) 12) with f.
    2:{ rewrite Z.shiftr_div_pow2 by lia. change (2 ^ 12) with 4096.
        apply (Z.div_unique _ _ _ 0); lia. }
    rewrite !Z.shiftr_div_pow2 by lia. change 63 with (Z.ones 6). rewrite !Z.land_ones by lia.
    change (2 ^ 12) with 4096. change (2 ^ 6) with 64.
    rewrite (Z.mod_small (f / 4096)) by (Z.div_mod_to_equations; lia).
    rewrite Hrun, bind_Done, over_blocks_none; [done|]. intros j c Hc. by apply (Hno (S j)).
  - simpl in Hi. assert (¬ in_block c (base b + f * frame_size)) as Hc by (by apply (Hno 0%nat)).
    unfold in_block in Hc. rewrite (IH i Hi); [|intros j d Hj; apply (Hno (S j)); congruence].
    destruct (Z.ltb_spec (base b + f * frame_size) (base c)); simpl; [done|].
    by rewrite (proj2 (Z.leb_le _ _)) by lia.
Qed.

(** The layout the boot loader hands over: page-aligned block bases, no wrap-around, a bitmap with
    a bit for every frame. *)
Record block_layout (b : frame_block) : Prop := {
  lay_base : is_u64 (base b);
  lay_aligned : base b mod frame_size = 0;
  lay_count : 0 ≤ count b ≤ frames_per_block;
  lay_end : is_u64 (base b + count b * frame_size);
  lay_bitmap : count b ≤ 64 * Z.of_nat (length (bitmap b));
}.

Lemma frame_aligned b f :
  block_layout b → (base b + f * frame_size) mod frame_size = 0.
Proof. intros [_ Ha _ _ _]. by rewrite Z.mod_add. Qed.

(** freeing [n] frames that lie in the first 4096 frames of one block makes exactly those
    frames free and keeps the block consistent; [used] makes exactly those frames in use. *)
Theorem free_used_first_groups blocks i b f n :
  blocks !! i = Some b → block_wf b → block_layout b →
  0 ≤ f → 0 < n → f + n ≤ count b → f + n ≤ 4096 →
  (∀ j c, j ≠ i → blocks !! j = Some c → ¬ in_block c (base b + f * frame_size)) →
  (∃ b', free blocks (base b + f * frame_size) n = Done (<[i := b']> blocks) ∧ block_wf b' ∧
    ∀ g, 0 ≤ g → frame_free b' g = frame_free b g || bool_decide (f ≤ g < f + n)) ∧
  (∃ b', used blocks (base b + f * frame_size) n = Done (<[i := b']> blocks) ∧ block_wf b' ∧
    ∀ g, 0 ≤ g → frame_free b' g = frame_free b g && negb (bool_decide (f ≤ g < f + n))).
Proof.
  intros Hi Hwf Hlay Hf Hn Hc H4096 Hno. pose proof Hlay as [L1 _ L3 L4 L5].
  unfold free, used. rewrite frame_aligned by done. cbn [kassert]. rewrite Z.eqb_refl.
  rewrite (proj2 (Z.eqb_neq n 0)) by lia.
  assert (f / 4096 = 0 ∧ (f / 64) mod 64 = f / 64) as [E1 E2] by (Z.div_mod_to_equations; lia).
  destruct (free_run_group0 (Z.to_nat n) b f) as (b1 & R1 & W1 & F1); [done|lia..|].
  destruct (used_run_group0 (Z.to_nat n) b f) as (b2 & R2 & W2 & F2); [done|lia..|].
  rewrite Z2Nat.id in F1, F2 by lia. split.
  - exists b1. split; [|done]. simpl. apply over_blocks_at; try done; [lia..|].
    by rewrite E1, E2.
  - exists b2. split; [|done]. simpl. apply over_blocks_at; try done; [lia..|].
    by rewrite E1, E2.
Qed.

Lemma far_offsets f :
  4096 ≤ f < frames_per_block →
  0 < f / 4096 < 64 ∧ 0 ≤ (f / 64) mod 64 < 64 ∧ 0 ≤ f mod 64 < 64 ∧
  f / 64 ≠ (f / 64) mod 64 ∧ (f mod 4096) / 64 = (f / 64) mod 64 ∧ (f mod 4096) mod 64 = f mod 64.
Proof. unfold frames_per_block. intros. Z.div_mod_to_equations; lia. Qed.

(** One step of [free]'s loop, which panics only at the very last frame of a full block. *)
Lemma free_run_1 b o1 o2 o3 :
  block_wf b → 0 ≤ o1 < 64 → 0 ≤ o2 < 64 → o2 < Z.of_nat (length (bitmap b)) →
  free_run b o1 o2 o3 1 =
    if decide (o1 = 63 ∧ o2 = 63 ∧ o3 = 63) then Panic
    else Done (set_maps b (Z.lor (map1 b) (bit o1))
      (<[Z.to_nat o1 := Z.lor (znth (map2 b) o1) (bit o2)]> (map2 b))
      (<[Z.to_nat o2 := Z.lor (znth (bitmap b) o2) (bit o3)]> (bitmap b))).
Proof.
  intros Hwf H1 H2 Hl. pose proof (wf_map2_len b Hwf) as Wl. cbn [free_run].
  rewrite !arr_get_znth, bind_Done by lia. rewrite arr_set_Done, !bind_Done by lia.
  rewrite arr_set_Done, bind_Done by lia.
  destruct (Z.eqb_spec (o3 + 1) 64); [|by rewrite decide_False by lia].
  destruct (Z.eqb_spec (o2 + 1) 64); [|by rewrite decide_False by lia].
  destruct (Z.ltb_spec (o1 + 1) 64); [by rewrite decide_False by lia|by rewrite decide_True by lia].
Qed.

(** for a frame past the first 4096 of its block, [free] sets the bit of frame [f mod 4096]
    instead: the freed frame keeps its state, and the unrelated frame becomes free even when it is
    in use.  For the last frame of a full block it panics. *)
Theorem free_far_frees_other blocks i b f :
  blocks !! i = Some b → block_wf b → block_layout b → 4096 ≤ f < count b →
  (∀ j c, j ≠ i → blocks !! j = Some c → ¬ in_block c (base b + f * frame_size)) →
  f + 1 < frames_per_block →
  ∃ b', free blocks (base b + f * frame_size) 1 = Done (<[i := b']> blocks) ∧
    frame_free b' f = frame_free b f ∧ frame_free b' (f mod 4096) = true.
Proof.
  intros Hi Hwf Hlay Hf Hno Hlast. pose proof Hlay as [L1 _ L3 L4 L5].
  destruct (far_offsets f) as (O1 & O2 & O3 & Hne & Ew & Er); [lia|].
  assert ((f / 64) mod 64 < Z.of_nat (length (bitmap b))) by (Z.div_mod_to_equations; lia).
  unfold free. rewrite frame_aligned by done. change (0 =? 0) with true. change (1 =? 0) with false.
  eexists. split.
  - simpl. apply over_blocks_at; try done; [lia..|]. change (Z.to_nat 1) with 1%nat.
    rewrite free_run_1, decide_False by
      (try done; unfold frames_per_block in *; Z.div_mod_to_equations; lia). reflexivity.
  - unfold frame_free. simpl. rewrite !znth_insert, Ew, Er by lia.
    rewrite decide_False, decide_True by congruence. split; [done|].
    by rewrite set_bit_testbit, decide_True by lia.
Qed.

(** The last frame of a full block: the step after it panics. *)
Example free_last_panics : free_run block_66 63 63 63 1 = Panic.
Proof. vm_compute. reflexivity. Qed.

Lemma block_66_layout : block_layout block_66.
Proof. by split; vm_compute. Qed.

Lemma free_used_first_groups_witness :
  ∃ b', used [block_66] (0x100000 + 5 * frame_size) 1 = Done [b'] ∧ frame_free b' 5 = false.
Proof.
  destruct (free_used_first_groups [block_66] 0 block_66 5 1) as [_ (b' & H & _ & Hf)].
  - reflexivity.
  - apply block_66_wf.
  - apply block_66_layout.
  - lia.
  - lia.
  - vm_compute. discriminate.
  - lia.
  - intros [|j] c Hj Hc; done.
  - exists b'. split; [exact H|]. rewrite Hf by lia. by rewrite bool_decide_eq_true_2, andb_false_r.
Defined.

(** [block_66] with frame 5 in use. *)
Definition block_5_used : frame_block :=
  mk_block 0x100000 4224 ((2 ^ 64 - 1 - 32) :: replicate 65 (2 ^ 64 - 1)).

(** Frame 5 is in use; freeing frame 4101 makes frame 5 free. *)
Lemma free_far_frees_other_witness :
  ∃ b', free [block_5_used] (0x100000 + 4101 * frame_size) 1 = Done [b'] ∧
    frame_free block_5_used 5 = false ∧ frame_free b' 5 = true.
Proof.
  destruct (free_far_frees_other [block_5_used] 0 block_5_used 4101) as (b' & H & _ & Hf).
  - reflexivity.
  - apply mk_block_wf; [|rewrite length_cons, length_replicate; lia].
    constructor; [|apply Forall_replicate]; unfold is_word; lia.
  - by split; vm_compute.
  - vm_compute. done.
  - intros [|j] c Hj Hc; done.
  - vm_compute. done.
  - exists b'. split; [exact H|]. split; [vm_compute; reflexivity|].
    change 5 with (4101 mod 4096). exact Hf.
Defined.
