(* ===== verification/BootMemory.v ===== *)
(** * The boot loader's memory maps

    Models src/boot/memory_map.cpp: the loader turns the firmware's memory map into the kernel's
    ([build_kernel_map]) and makes the blocks the frame allocator starts from ([build_frame_blocks]).
    The blocks are those of FrameAllocator.v; their bitmaps are one array of words behind them, in
    pages that were cleared.  A descriptor of the firmware has the number of its type.

    The theorems show that the kernel's map covers what the firmware gave, type by type, and that the
    blocks make exactly the free pages available, unless a block is a partial one of more than 4032
    pages, whose summary words are wrong. *)
From S2P Require Import Prelude FrameAllocator.

(** ** The kernel's memory map *)

Inductive mem_type := m_free | m_pending | m_acpi | m_uefi_runtime | m_mmio | m_persistent.
#[global] Instance mem_type_eq_dec : EqDecision mem_type.
Proof. solve_decision. Defined.

Record memory_descriptor := Descriptor {
  d_type : Z;
  physical_start : Z;
  number_of_pages : Z;
  attribute : Z;
}.
Record mem_entry := MemEntry {
  e_start : Z;
  e_pages : Z;
  e_type : mem_type;
  e_attr : Z;
}.

Definition page_size : Z := 4096.

(** The [switch] on the descriptor's type: [Done None] for those skipped; an unknown type raises an
    error, which does not return. *)
Definition kernel_type (t : Z) : outcome (option mem_type) :=
  match t with
  | 0 | 8 | 10 | 13 => Done None
  | 1 | 2 | 3 | 4 | 7 => Done (Some m_free)
  | 5 | 6 => Done (Some m_uefi_runtime)
  | 9 => Done (Some m_acpi)
  | 11 | 12 => Done (Some m_mmio)
  | 14 => Done (Some m_persistent)
  | _ => Panic
  end.

Definition can_merge (prev : mem_entry) (ty : mem_type) (next : memory_descriptor) : bool :=
  bool_decide (e_type prev = ty) &&
  (u64 (e_start prev + page_size * e_pages prev) =? physical_start next) &&
  (e_attr prev =? Z.land (attribute next) 0xffffffff).

(** The loop of [build_kernel_map]; [acc] are the entries made, the last one first. *)
Definition new_entry (d : memory_descriptor) (ty : mem_type) : mem_entry :=
  MemEntry (physical_start d) (number_of_pages d) ty (Z.land (attribute d) 0xffffffff).
Definition add_descriptor (acc : list mem_entry) (d : memory_descriptor) (ty : mem_type) : list mem_entry :=
  match acc with
  | [] => [new_entry d ty]
  | prev :: acc' =>
      if can_merge prev ty d then
        MemEntry (e_start prev) (u64 (e_pages prev + number_of_pages d)) (e_type prev) (e_attr prev) :: acc'
      else new_entry d ty :: acc
  end.
Fixpoint kernel_map_loop (acc : list mem_entry) (ds : list memory_descriptor) : outcome (list mem_entry) :=
  match ds with
  | [] => Done acc
  | d :: ds =>
      let* ty := kernel_type (d_type d) in
      match ty with
      | None => kernel_map_loop acc ds
      | Some ty => kernel_map_loop (add_descriptor acc d ty) ds
      end
  end.
Definition build_kernel_map (ds : list memory_descriptor) : outcome (list mem_entry) :=
  let* acc := kernel_map_loop [] ds in Done (reverse acc).

(** ** The frame blocks *)

Definition bitmap_size (frames : Z) : Z := (frames + 63) / 64.
Definition num_blocks (frames : Z) : Z := (frames + (frames_per_block - 1)) / frames_per_block.
Definition bytes_to_pages (bytes : Z) : Z := u64 (bytes - 1) / page_size + 1.
Definition sizeof_frame_block : Z := 544.

(** [memset(words, n, 0xff)] on an array of words, little-endian. *)
Fixpoint memset_ff (words : list Z) (n : Z) : list Z :=
  match words with
  | [] => []
  | w :: ws =>
      if n <=? 0 then words
      else if 8 <=? n then (2 ^ 64 - 1) :: memset_ff ws (n - 8)
      else Z.lor w (2 ^ (8 * n) - 1) :: ws
  end.

(** The last block of an entry, of [n] pages; its memory was cleared. *)
Definition partial_block (bs n flags : Z) : outcome frame_block :=
  let b1 := (n + 4095) / 4096 in
  let* one1 := shl64 1 b1 in
  let b2 := (n + 63) / 64 in
  let b2q := b2 / 64 in
  let b2r := b2 mod 64 in
  let m2 := memset_ff (replicate 64 0) b2q in
  let* one2 := shl64 1 b2r in
  let* m2 := arr_set m2 b2q (one2 - 1) in
  Done (FrameBlock bs n flags (one1 - 1) m2 []).
Definition full_block (bs flags : Z) : frame_block :=
  FrameBlock bs frames_per_block flags (2 ^ 64 - 1) (memset_ff (replicate 64 0) 512) [].

(** [while (page_count)] *)
Fixpoint entry_blocks (fuel : nat) (bs n flags : Z) : outcome (list frame_block) :=
  match fuel with
  | O => Diverge
  | S fuel =>
      if n =? 0 then Done []
      else
        if frames_per_block <=? n then
          let* bs' := entry_blocks fuel (u64 (bs + frames_per_block * page_size)) (n - frames_per_block) flags in
          Done (full_block bs flags :: bs')
        else
          let* b := partial_block bs n flags in Done [b]
  end.
Fixpoint blocks_loop (es : list mem_entry) : outcome (list frame_block) :=
  match es with
  | [] => Done []
  | e :: es =>
      if bool_decide (e_type e = m_free) then
        let* bs := entry_blocks (Z.to_nat (e_pages e / frames_per_block) + 2) (e_start e) (e_pages e) (e_attr e) in
        let* bs' := blocks_loop es in
        Done (bs ++ bs')
      else blocks_loop es
  end.

(** The bitmap of a block of [n] frames, from word [off] of the array. *)
Definition set_bitmap (words : list Z) (off n : Z) : outcome (list Z) :=
  let b := n / 64 in
  let r := n mod 64 in
  let* _ := if off + b <=? Z.of_nat (length words) then Done () else Undef in
  let words := take (Z.to_nat off) words ++ memset_ff (drop (Z.to_nat off) words) (b * 8) in
  let* one := shl64 1 r in
  arr_set words (off + b) (one - 1).
Fixpoint bitmaps_loop (words : list Z) (off : Z) (bs : list frame_block) : outcome (list Z) :=
  match bs with
  | [] => Done words
  | b :: bs =>
      let* words := set_bitmap words off (count b) in
      bitmaps_loop words (off + bitmap_size (count b)) bs
  end.
(** The blocks with their parts of the array. *)
Fixpoint attach (words : list Z) (off : Z) (bs : list frame_block) : list frame_block :=
  match bs with
  | [] => []
  | b :: bs =>
      set_maps b (map1 b) (map2 b) (take (Z.to_nat (bitmap_size (count b))) (drop (Z.to_nat off) words))
        :: attach words (off + bitmap_size (count b)) bs
  end.

Definition free_blocks (es : list mem_entry) : Z :=
  foldr (λ e n, if bool_decide (e_type e = m_free) then num_blocks (e_pages e) + n else n) 0 es.
Definition free_words (es : list mem_entry) : Z :=
  foldr (λ e n, if bool_decide (e_type e = m_free) then bitmap_size (e_pages e) + n else n) 0 es.
(** [build_frame_blocks]; the allocator refuses more than 32 bits of pages. *)
Definition build_frame_blocks (es : list mem_entry) : outcome (list frame_block) :=
  let total := free_blocks es * sizeof_frame_block + free_words es * 8 in
  let* _ := if 0xffffffff <? bytes_to_pages total then Panic else Done () in
  let* bs := blocks_loop es in
  let words := replicate (Z.to_nat ((bytes_to_pages total * page_size - free_blocks es * sizeof_frame_block) / 8)) 0 in
  let* words := bitmaps_loop words 0 bs in
  Done (attach words 0 bs).

(** ** The kernel's map covers the firmware's *)

(** Page [a] of a range of pages. *)
Definition page_in (start pages a : Z) : Prop := ∃ j, 0 ≤ j < pages ∧ a = start + page_size * j.
Definition entry_page (es : list mem_entry) (ty : mem_type) (at_ a : Z) : Prop :=
  ∃ e, e ∈ es ∧ e_type e = ty ∧ e_attr e = at_ ∧ page_in (e_start e) (e_pages e) a.
Definition firmware_page (ds : list memory_descriptor) (ty : mem_type) (at_ a : Z) : Prop :=
  ∃ d, d ∈ ds ∧ kernel_type (d_type d) = Done (Some ty) ∧ Z.land (attribute d) 0xffffffff = at_ ∧
    page_in (physical_start d) (number_of_pages d) a.

(** A range below the end of the address space. *)
Definition range_ok (start pages : Z) : Prop := 0 ≤ start ∧ 0 ≤ pages ∧ start + page_size * pages < 2 ^ 64.
Definition entry_ok (e : mem_entry) : Prop := range_ok (e_start e) (e_pages e).
Definition descriptor_ok (d : memory_descriptor) : Prop :=
  0 ≤ d_type d ≤ 14 ∧ range_ok (physical_start d) (number_of_pages d).

Lemma page_in_app s p q a : 0 ≤ p → 0 ≤ q → page_in s (p + q) a ↔ page_in s p a ∨ page_in (s + page_size * p) q a.
Proof.
  intros Hp Hq. split.
  - intros (j & Hj & ->). destruct (decide (j < p)); [left; exists j; lia|right; exists (j - p); lia].
  - intros [(j & Hj & ->)|(j & Hj & ->)]; [exists j; lia|exists (p + j); lia].
Qed.

Lemma entry_page_cons e es ty at_ a :
  entry_page (e :: es) ty at_ a ↔
    (e_type e = ty ∧ e_attr e = at_ ∧ page_in (e_start e) (e_pages e) a) ∨ entry_page es ty at_ a.
Proof. unfold entry_page. setoid_rewrite elem_of_cons. naive_solver. Qed.
Lemma firmware_page_cons d ds ty at_ a :
  firmware_page (d :: ds) ty at_ a ↔
    (kernel_type (d_type d) = Done (Some ty) ∧ Z.land (attribute d) 0xffffffff = at_ ∧
      page_in (physical_start d) (number_of_pages d) a) ∨ firmware_page ds ty at_ a.
Proof. unfold firmware_page. setoid_rewrite elem_of_cons. naive_solver. Qed.

Lemma add_descriptor_spec acc d ty :
  Forall entry_ok acc → range_ok (physical_start d) (number_of_pages d) →
  Forall entry_ok (add_descriptor acc d ty) ∧ (length (add_descriptor acc d ty) ≤ S (length acc))%nat ∧
  ∀ ty' at_ a, entry_page (add_descriptor acc d ty) ty' at_ a ↔
    entry_page acc ty' at_ a ∨
    (ty = ty' ∧ Z.land (attribute d) 0xffffffff = at_ ∧ page_in (physical_start d) (number_of_pages d) a).
Proof.
  intros Hacc Hd. assert (Hnew : entry_ok (new_entry d ty)) by done. unfold add_descriptor.
  destruct acc as [|prev acc].
  { split_and!; [by constructor|done|]. intros. rewrite entry_page_cons. cbn. tauto. }
  destruct (can_merge prev ty d) eqn:Hm.
  - apply Forall_cons in Hacc as [Hprev Hacc]. unfold can_merge in Hm. rewrite !andb_true_iff in Hm.
    destruct Hm as [[Ht%bool_decide_eq_true Hs%Z.eqb_eq] Ha%Z.eqb_eq]. destruct Hprev as (P1 & P2 & P3), Hd as (D1 & D2 & D3).
    unfold page_size in *. rewrite wrap_small in Hs by (unfold is_word; lia).
    rewrite wrap_small by (unfold is_word; lia).
    split_and!; [constructor; [|done]; unfold entry_ok, range_ok, page_size; cbn; lia|cbn; lia|].
    intros ty' at_ a. rewrite !entry_page_cons. cbn [e_start e_pages e_type e_attr]. rewrite page_in_app by lia.
    unfold page_size. rewrite Hs, Ht, Ha. tauto.
  - split_and!; [by constructor|done|]. intros. rewrite entry_page_cons. cbn. tauto.
Qed.

Lemma kernel_type_total t : 0 ≤ t ≤ 14 → ∃ o, kernel_type t = Done o.
Proof.
  intros Ht. assert (Hc : t ∈ seqZ 0 15) by (apply elem_of_seqZ; lia). clear Ht. revert t Hc. apply Forall_forall.
  repeat constructor; eexists; reflexivity.
Qed.

Lemma kernel_map_loop_spec ds : ∀ acc,
  Forall entry_ok acc → Forall descriptor_ok ds →
  ∃ acc', kernel_map_loop acc ds = Done acc' ∧ Forall entry_ok acc' ∧ (length acc' ≤ length acc + length ds)%nat ∧
    ∀ ty at_ a, entry_page acc' ty at_ a ↔ entry_page acc ty at_ a ∨ firmware_page ds ty at_ a.
Proof.
  induction ds as [|d ds IH]; intros acc Hacc Hds; cbn [kernel_map_loop].
  { exists acc. split_and!; [done..|cbn; lia|]. intros. split; [tauto|]. intros [?|(d & Hd & _)]; [done|].
    by apply not_elem_of_nil in Hd. }
  apply Forall_cons in Hds as [[Ht Hd] Hds]. destruct (kernel_type_total _ Ht) as [[ty|] Hty]; rewrite Hty; cbn [mbind outcome_bind].
  - destruct (add_descriptor_spec acc d ty Hacc Hd) as (H1 & H2 & H3).
    destruct (IH (add_descriptor acc d ty) H1 Hds) as (acc' & Hrun & Hok & Hlen & Hp). exists acc'.
    split_and!; [done..|cbn; lia|]. intros ty' at_ a. rewrite Hp, H3, firmware_page_cons, Hty. split.
    + intros [[?|(-> & ?)]|?]; auto.
    + intros [?|[([= <-] & ?)|?]]; auto.
  - destruct (IH acc Hacc Hds) as (acc' & Hrun & Hok & Hlen & Hp). exists acc'. split_and!; [done..|cbn; lia|].
    intros ty' at_ a. rewrite Hp, firmware_page_cons, Hty. naive_solver.
Qed.

Lemma kernel_map_spec ds :
  Forall descriptor_ok ds →
  ∃ es, build_kernel_map ds = Done es ∧ Forall entry_ok es ∧ (length es ≤ length ds)%nat ∧
    ∀ ty at_ a, entry_page es ty at_ a ↔ firmware_page ds ty at_ a.
Proof.
  intros Hds. destruct (kernel_map_loop_spec ds [] (Forall_nil_2 _) Hds) as (acc & Hrun & Hok & Hlen & Hp).
  unfold build_kernel_map. rewrite Hrun. cbn [mbind outcome_bind]. exists (reverse acc). split_and!; [done|..].
  - by apply Forall_reverse.
  - by rewrite length_reverse.
  - intros. assert (He : entry_page (reverse acc) ty at_ a ↔ entry_page acc ty at_ a).
    { unfold entry_page. by setoid_rewrite elem_of_reverse. }
    rewrite He, Hp. split; [|auto]. intros [(e & He' & _)|?]; [by apply not_elem_of_nil in He'|done].
Qed.

(** ** Words of a prefix *)

(** The word with the low [k] bits set, for [k] cut to a word. *)
Definition low_word (k : Z) : Z := 2 ^ Z.max 0 (Z.min 64 k) - 1.
Lemma low_word_testbit k i : 0 ≤ i < 64 → Z.testbit (low_word k) i = (i <? k).
Proof.
  intros Hi. unfold low_word. replace (2 ^ Z.max 0 (Z.min 64 k) - 1) with (Z.ones (Z.max 0 (Z.min 64 k)))
    by (rewrite Z.ones_equiv; lia).
  rewrite Z.testbit_ones_nonneg by lia. destruct (Z.ltb_spec i (Z.max 0 (Z.min 64 k))), (Z.ltb_spec i k); lia.
Qed.
Lemma low_word_u64 k : is_u64 (low_word k).
Proof.
  unfold low_word, is_word. pose proof (Z.pow_pos_nonneg 2 (Z.max 0 (Z.min 64 k))).
  pose proof (Z.pow_le_mono_r 2 (Z.max 0 (Z.min 64 k)) 64). lia.
Qed.
Lemma low_word_nonzero k : low_word k ≠ 0 ↔ 0 < k.
Proof.
  unfold low_word. split.
  - intros Hk. destruct (decide (0 < k)); [done|]. exfalso. apply Hk. by replace (Z.max 0 (Z.min 64 k)) with 0 by lia.
  - intros Hk. pose proof (Z.pow_le_mono_r 2 1 (Z.max 0 (Z.min 64 k))). lia.
Qed.
Lemma low_word_full k : 64 ≤ k → low_word k = 2 ^ 64 - 1.
Proof. intros Hk. unfold low_word. by replace (Z.max 0 (Z.min 64 k)) with 64 by lia. Qed.
Lemma low_word_part k : 0 ≤ k ≤ 64 → low_word k = 2 ^ k - 1.
Proof. intros Hk. unfold low_word. by replace (Z.max 0 (Z.min 64 k)) with k by lia. Qed.

(** The bitmap with the first [n] frames free. *)
Definition free_words_of (n : Z) : list Z := (λ g, low_word (n - 64 * g)) <$> seqZ 0 (bitmap_size n).
Lemma bitmap_size_bounds n : 0 ≤ n → 64 * bitmap_size n - 63 ≤ n ≤ 64 * bitmap_size n.
Proof. intros Hn. unfold bitmap_size. pose proof (Z.div_mod (n + 63) 64). pose proof (Z.mod_pos_bound (n + 63) 64). lia. Qed.
Lemma length_free_words n : 0 ≤ n → length (free_words_of n) = Z.to_nat (bitmap_size n).
Proof. intros. unfold free_words_of. by rewrite length_fmap, length_seqZ. Qed.
Lemma znth_free_words n g : 0 ≤ n → 0 ≤ g → znth (free_words_of n) g = low_word (n - 64 * g).
Proof.
  intros Hn Hg. pose proof (bitmap_size_bounds n Hn). destruct (decide (g < bitmap_size n)).
  - unfold free_words_of. by rewrite znth_fmap_seqZ by lia.
  - rewrite znth_oob by (rewrite length_free_words; lia). symmetry. unfold low_word.
    by replace (Z.max 0 (Z.min 64 (n - 64 * g))) with 0 by lia.
Qed.

(** A block whose first [n] frames are free, with the summaries that belong to them. *)
Record prefix_block (b : frame_block) : Prop := {
  pb_count : 0 < count b ≤ frames_per_block;
  pb_map1 : map1 b = low_word (bitmap_size (bitmap_size (count b)));
  pb_map2_len : length (map2 b) = 64%nat;
  pb_map2 : ∀ o1, 0 ≤ o1 < 64 → znth (map2 b) o1 = low_word (bitmap_size (count b) - 64 * o1);
}.

Lemma Forall_znth (P : Z → Prop) l : (∀ i, 0 ≤ i < Z.of_nat (length l) → P (znth l i)) → Forall P l.
Proof.
  intros HP. apply Forall_lookup. intros i x Hx. specialize (HP (Z.of_nat i)). pose proof (lookup_lt_Some _ _ _ Hx).
  unfold znth in HP. rewrite (proj2 (Z.leb_le 0 (Z.of_nat i))), nth_lookup, Nat2Z.id, Hx in HP by lia. apply HP. lia.
Qed.

Lemma prefix_block_wf b :
  prefix_block b →
  let b' := set_maps b (map1 b) (map2 b) (free_words_of (count b)) in
  block_wf b' ∧ ∀ f, 0 ≤ f → frame_free b' f = (f <? count b).
Proof.
  intros [Hc Hm1 Hl Hm2]. cbv zeta. unfold frames_per_block in Hc. pose proof (bitmap_size_bounds (count b)) as Hb.
  pose proof (bitmap_size_bounds (bitmap_size (count b))) as Hb2. split.
  - split; cbn [map1 map2 bitmap set_maps].
    + rewrite Hm1. apply low_word_u64.
    + done.
    + apply Forall_znth. intros i Hi. rewrite Hm2 by lia. apply low_word_u64.
    + rewrite length_free_words by lia. lia.
    + apply Forall_fmap, Forall_forall. intros g _. apply low_word_u64.
    + intros o1 Ho1. rewrite Hm1, Hm2, low_word_testbit by done. apply eq_true_iff_eq.
      rewrite Z.ltb_lt, bool_decide_eq_true, low_word_nonzero. lia.
    + intros o1 o2 Ho1 Ho2. rewrite Hm2, low_word_testbit, znth_free_words by lia. apply eq_true_iff_eq.
      rewrite Z.ltb_lt, bool_decide_eq_true, low_word_nonzero. lia.
  - intros f Hf. unfold frame_free. cbn [bitmap set_maps]. pose proof (Z.div_mod f 64). pose proof (Z.mod_pos_bound f 64).
    assert (0 ≤ f / 64) by (apply Z.div_pos; lia). rewrite znth_free_words, low_word_testbit by lia.
    destruct (Z.ltb_spec (f mod 64) (count b - 64 * (f / 64))), (Z.ltb_spec f (count b)); lia.
Qed.

(** ** The blocks of an entry *)

Definition block_page (bs : list frame_block) (a : Z) : Prop :=
  ∃ b, b ∈ bs ∧ page_in (base b) (count b) a.
Definition total_words (bs : list frame_block) : Z := foldr (λ b n, bitmap_size (count b) + n) 0 bs.
(** The partial block at the end of an entry of [n] pages, if any, has at most 63 groups. *)
Definition small_rest (n : Z) : Prop := n mod frames_per_block ≤ 4032.

Lemma block_page_app bs bs' a : block_page (bs ++ bs') a ↔ block_page bs a ∨ block_page bs' a.
Proof. unfold block_page. setoid_rewrite elem_of_app. naive_solver. Qed.
Lemma block_page_cons b bs a : block_page (b :: bs) a ↔ page_in (base b) (count b) a ∨ block_page bs a.
Proof. unfold block_page. setoid_rewrite elem_of_cons. naive_solver. Qed.
Lemma block_page_nil a : ¬ block_page [] a.
Proof. intros (b & Hb & _). by apply not_elem_of_nil in Hb. Qed.
Lemma total_words_app bs bs' : total_words (bs ++ bs') = total_words bs + total_words bs'.
Proof. induction bs as [|b bs IH]; cbn; [done|]. unfold total_words in IH. rewrite IH. unfold total_words. lia. Qed.

Lemma full_block_prefix bs flags : prefix_block (full_block bs flags).
Proof.
  split; cbn [full_block count map1 map2]; [unfold frames_per_block; lia|reflexivity|reflexivity|].
  intros o1 Ho1. change (bitmap_size frames_per_block) with 4096. rewrite low_word_full by lia.
  assert (Hc : o1 ∈ seqZ 0 64) by (apply elem_of_seqZ; lia). clear Ho1. revert o1 Hc. apply Forall_forall.
  vm_compute. repeat constructor.
Qed.

Lemma partial_block_prefix bs n flags :
  0 < n ≤ 4032 → ∃ b, partial_block bs n flags = Done b ∧ prefix_block b ∧ base b = bs ∧ count b = n.
Proof.
  intros Hn. unfold partial_block. pose proof (bitmap_size_bounds n) as Hb. fold (bitmap_size n).
  assert (E1 : (n + 4095) / 4096 = 1) by (symmetry; apply (Z.div_unique _ _ 1 (n - 1)); lia).
  rewrite E1, (shl64_Done 1 1) by lia. cbn [mbind outcome_bind]. change (u64 (Z.shiftl 1 1)) with 2.
  assert (E2 : bitmap_size n / 64 = 0) by (apply Z.div_small; lia).
  assert (E3 : bitmap_size n mod 64 = bitmap_size n) by (apply Z.mod_small; lia).
  rewrite E2, E3, shl64_Done by lia. cbn [mbind outcome_bind].
  change (memset_ff (replicate 64 0) 0) with (replicate 64 (0 : Z)). rewrite arr_set_Done by (rewrite length_replicate; lia).
  cbn [mbind outcome_bind]. eexists. split; [done|]. split; [|done].
  rewrite Z.shiftl_1_l, wrap_small by (unfold is_word; pose proof (Z.pow_pos_nonneg 2 (bitmap_size n)); pose proof (Z.pow_lt_mono_r 2 (bitmap_size n) 64); lia).
  split; cbn [count map1 map2].
  - unfold frames_per_block. lia.
  - replace (bitmap_size (bitmap_size n)) with 1; [reflexivity|]. unfold bitmap_size at 1.
    apply (Z.div_unique _ _ 1 (bitmap_size n - 1)); lia.
  - by rewrite length_insert, length_replicate.
  - intros o1 Ho1. change (Z.to_nat 0) with (Z.to_nat 0). rewrite (znth_insert _ 0) by (rewrite length_replicate; lia).
    destruct (decide (0 = o1)) as [<-|].
    + rewrite low_word_part by lia. f_equal. f_equal. lia.
    + unfold low_word. replace (Z.max 0 (Z.min 64 (bitmap_size n - 64 * o1))) with 0 by lia.
      apply (znth_Forall (λ z, z = 2 ^ 0 - 1)); [done|]. by repeat constructor.
Qed.

Record blocks_of (s n : Z) (bs : list frame_block) : Prop := {
  bl_prefix : Forall prefix_block bs;
  bl_pages : ∀ a, block_page bs a ↔ page_in s n a;
  bl_words : total_words bs = bitmap_size n;
  bl_length : Z.of_nat (length bs) = num_blocks n;
}.

Lemma entry_blocks_spec flags fuel : ∀ s n,
  range_ok s n → small_rest n → n / frames_per_block + 1 < Z.of_nat fuel →
  ∃ bs, entry_blocks fuel s n flags = Done bs ∧ blocks_of s n bs.
Proof.
  unfold small_rest. induction fuel as [|fuel IH]; intros s n Hr Hsm Hf; [assert (0 ≤ n / frames_per_block) by (apply Z.div_pos; [apply Hr|done]); lia|].
  destruct Hr as (Hs & Hn & Hend). unfold page_size in Hend. cbn [entry_blocks].
  destruct (Z.eqb_spec n 0) as [->|].
  { exists []. split; [done|]. split; [constructor| |done|done]. intros a. split; [by intros ?%block_page_nil|].
    intros (j & ? & _). lia. }
  destruct (Z.leb_spec frames_per_block n) as [Hbig|Hsmall].
  - assert (Ediv : n / frames_per_block = (n - frames_per_block) / frames_per_block + 1)
      by (replace n with (n - frames_per_block + 1 * frames_per_block) at 1 by lia; by rewrite Z.div_add).
    assert (Emod : n mod frames_per_block = (n - frames_per_block) mod frames_per_block)
      by (replace n with (n - frames_per_block + 1 * frames_per_block) at 1 by lia; by rewrite Z.mod_add).
    unfold page_size, frames_per_block in *. rewrite wrap_small by (unfold is_word; lia).
    destruct (IH (s + 64 * 64 * 64 * 4096) (n - 64 * 64 * 64)) as (bs & Hrun & [B1 B2 B3 B4]);
      [unfold range_ok, page_size; lia|lia|lia|].
    rewrite Hrun. cbn [mbind outcome_bind]. eexists. split; [done|]. split.
    + constructor; [apply full_block_prefix|done].
    + intros a. rewrite block_page_cons, B2. cbn [full_block base count]. unfold frames_per_block.
      replace n with (64 * 64 * 64 + (n - 64 * 64 * 64)) at 2 by lia. rewrite page_in_app by lia. unfold page_size.
      by replace (s + 4096 * (64 * 64 * 64)) with (s + 64 * 64 * 64 * 4096) by lia.
    + cbn. unfold total_words in B3. rewrite B3. unfold bitmap_size. change (frames_per_block) with (64 * 64 * 64).
      assert (E : (n + 63) / 64 = (n - 64 * 64 * 64 + 63) / 64 + 4096) by (rewrite <-Z.div_add by lia; f_equal; lia).
      change ((64 * 64 * 64 + 63) / 64) with 4096. lia.
    + cbn [length]. rewrite Nat2Z.inj_succ, B4. unfold num_blocks, frames_per_block.
      assert (E : (n + (64 * 64 * 64 - 1)) / (64 * 64 * 64) = (n - 64 * 64 * 64 + (64 * 64 * 64 - 1)) / (64 * 64 * 64) + 1)
        by (rewrite <-Z.div_add by lia; f_equal; lia). lia.
  - rewrite Z.mod_small in Hsm by lia. destruct (partial_block_prefix s n flags) as (b & -> & Hb & Hbase & Hcount); [lia|].
    cbn [mbind outcome_bind]. exists [b]. split; [done|]. split.
    + by constructor.
    + intros a. rewrite block_page_cons, Hbase, Hcount. split; [|auto]. intros [?|?%block_page_nil]; done.
    + cbn. rewrite Hcount. lia.
    + change (Z.of_nat (length [b])) with 1. unfold num_blocks, frames_per_block in *. apply (Z.div_unique _ _ 1 (n - 1)); lia.
Qed.

Definition free_pages (es : list mem_entry) (a : Z) : Prop :=
  ∃ e, e ∈ es ∧ e_type e = m_free ∧ page_in (e_start e) (e_pages e) a.

Lemma blocks_loop_spec es :
  Forall entry_ok es → (∀ e, e ∈ es → e_type e = m_free → small_rest (e_pages e)) →
  ∃ bs, blocks_loop es = Done bs ∧ Forall prefix_block bs ∧ (∀ a, block_page bs a ↔ free_pages es a) ∧
    total_words bs = free_words es ∧ Z.of_nat (length bs) = free_blocks es.
Proof.
  induction es as [|e es IH]; intros Hok Hsm; cbn [blocks_loop].
  { exists []. split_and!; try done. intros a. split; [by intros ?%block_page_nil|]. intros (e & He & _). by apply not_elem_of_nil in He. }
  apply Forall_cons in Hok as [He Hok].
  destruct IH as (bs' & Hrun' & Hp' & Hb' & Hw' & Hl'); [done|intros; apply Hsm; [by right|done]|].
  assert (Hcons : ∀ a, free_pages (e :: es) a ↔ (e_type e = m_free ∧ page_in (e_start e) (e_pages e) a) ∨ free_pages es a).
  { intros a. unfold free_pages. setoid_rewrite elem_of_cons. naive_solver. }
  unfold free_words, free_blocks. cbn [foldr]. fold (free_words es). fold (free_blocks es).
  destruct (bool_decide_reflect (e_type e = m_free)) as [Hf|Hf].
  - destruct (entry_blocks_spec (e_attr e) (Z.to_nat (e_pages e / frames_per_block) + 2) (e_start e) (e_pages e))
      as (bs & Hrun & [B1 B2 B3 B4]); [done|apply Hsm; [left|done]|lia|].
    rewrite Hrun. cbn [mbind outcome_bind]. rewrite Hrun'. cbn [mbind outcome_bind]. exists (bs ++ bs'). split_and!.
    + done.
    + by apply Forall_app.
    + intros a. rewrite block_page_app, B2, Hb', Hcons. tauto.
    + rewrite total_words_app. lia.
    + rewrite length_app. lia.
  - rewrite Hrun'. exists bs'. split_and!; [done..| |done|done]. intros a. rewrite Hb', Hcons. tauto.
Qed.

(** ** The bitmaps *)

Lemma memset_ff_words k : ∀ words,
  (k ≤ length words)%nat → memset_ff words (8 * Z.of_nat k) = replicate k (2 ^ 64 - 1) ++ drop k words.
Proof.
  induction k as [|k IH]; intros words Hk.
  - destruct words; [done|]. cbn [memset_ff]. by rewrite (proj2 (Z.leb_le _ _)) by lia.
  - destruct words as [|w words]; cbn in Hk; [lia|]. cbn [memset_ff replicate drop].
    rewrite (proj2 (Z.leb_gt _ _)), (proj2 (Z.leb_le 8 _)) by lia.
    replace (8 * Z.of_nat (S k) - 8) with (8 * Z.of_nat k) by lia. rewrite IH by lia. done.
Qed.

Lemma free_words_split n :
  0 ≤ n →
  free_words_of n = replicate (Z.to_nat (n / 64)) (2 ^ 64 - 1) ++ (if n mod 64 =? 0 then [] else [2 ^ (n mod 64) - 1]).
Proof.
  intros Hn. pose proof (Z.div_mod n 64). pose proof (Z.mod_pos_bound n 64). pose proof (Z.div_pos n 64).
  pose proof (bitmap_size_bounds n Hn).
  assert (Hones : (λ g, low_word (n - 64 * g)) <$> seqZ 0 (n / 64) = replicate (Z.to_nat (n / 64)) (2 ^ 64 - 1)).
  { symmetry. apply replicate_as_elem_of. split; [by rewrite length_fmap, length_seqZ|].
    intros y (g & -> & Hg)%list_elem_of_fmap. apply elem_of_seqZ in Hg. apply low_word_full. lia. }
  unfold free_words_of. destruct (Z.eqb_spec (n mod 64) 0).
  - replace (bitmap_size n) with (n / 64) by lia. by rewrite Hones, app_nil_r.
  - replace (bitmap_size n) with (n / 64 + 1) by lia. rewrite seqZ_app, fmap_app, Hones by lia. f_equal.
    change (seqZ (0 + n / 64) 1) with [0 + n / 64]. cbn [fmap list_fmap]. rewrite low_word_part by lia. do 3 f_equal. lia.
Qed.

(** The words a block's part of the array gets; one more is written when its count is a multiple of 64. *)
Lemma set_bitmap_spec pre words n :
  0 ≤ n → bitmap_size n < Z.of_nat (length words) →
  ∃ rest, set_bitmap (pre ++ words) (Z.of_nat (length pre)) n = Done (pre ++ free_words_of n ++ rest) ∧
    length (free_words_of n ++ rest) = length words.
Proof.
  intros Hn Hlen. pose proof (Z.div_mod n 64). pose proof (Z.mod_pos_bound n 64). pose proof (Z.div_pos n 64).
  pose proof (bitmap_size_bounds n Hn). set (b := Z.to_nat (n / 64)).
  assert (Hb : n / 64 = Z.of_nat b) by lia. assert (Hbl : (b < length words)%nat) by lia.
  unfold set_bitmap. rewrite length_app, (proj2 (Z.leb_le _ _)) by lia. cbn [mbind outcome_bind].
  rewrite Nat2Z.id, take_app_length, drop_app_length. rewrite shl64_Done by lia. cbn [mbind outcome_bind].
  rewrite Hb, Z.mul_comm, memset_ff_words by lia.
  destruct (drop b words) as [|w tl] eqn:Hd.
  { apply (f_equal length) in Hd. rewrite length_drop in Hd. cbn in Hd. lia. }
  assert (Htl : length tl = (length words - S b)%nat)
    by (apply (f_equal length) in Hd; rewrite length_drop in Hd; cbn in Hd; lia).
  rewrite arr_set_Done by (rewrite !length_app, length_replicate; cbn; lia).
  rewrite Z.shiftl_1_l, wrap_small
    by (unfold is_word; pose proof (Z.pow_pos_nonneg 2 (n mod 64)); pose proof (Z.pow_lt_mono_r 2 (n mod 64) 64); lia).
  rewrite app_assoc. replace (Z.to_nat (Z.of_nat (length pre) + Z.of_nat b))
    with (Nat.add (length (pre ++ replicate b (2 ^ 64 - 1))) 0) by (rewrite length_app, length_replicate; lia).
  rewrite insert_app_r. cbn [insert list_insert]. rewrite free_words_split by done. fold b.
  destruct (Z.eqb_spec (n mod 64) 0) as [E|E].
  - exists (0 :: tl). rewrite E, app_nil_r, app_assoc. split; [done|]. rewrite length_app, length_replicate. cbn. lia.
  - exists tl. rewrite <-!app_assoc. split; [done|]. rewrite !length_app, length_replicate. cbn. lia.
Qed.

Lemma bitmaps_loop_spec bs : ∀ pre words,
  Forall prefix_block bs → total_words bs < Z.of_nat (length words) →
  ∃ words', bitmaps_loop (pre ++ words) (Z.of_nat (length pre)) bs = Done (pre ++ words') ∧
    attach (pre ++ words') (Z.of_nat (length pre)) bs
      = (λ b, set_maps b (map1 b) (map2 b) (free_words_of (count b))) <$> bs.
Proof.
  induction bs as [|b bs IH]; intros pre words Hbs Hlen; [by exists words|].
  apply Forall_cons in Hbs as [[Hc _ _ _] Hbs]. cbn [total_words foldr] in Hlen. fold (total_words bs) in Hlen.
  assert (Htw : 0 ≤ total_words bs).
  { clear -Hbs. induction Hbs as [|b bs [Hc _ _ _] _ IH]; cbn; [lia|]. fold (total_words bs).
    pose proof (bitmap_size_bounds (count b)). lia. }
  pose proof (length_free_words (count b)) as Hfl. pose proof (bitmap_size_bounds (count b)).
  destruct (set_bitmap_spec pre words (count b)) as (rest & Hset & Hrl); [lia|lia|].
  cbn [bitmaps_loop]. rewrite Hset. cbn [mbind outcome_bind]. rewrite app_assoc.
  replace (Z.of_nat (length pre) + bitmap_size (count b)) with (Z.of_nat (length (pre ++ free_words_of (count b))))
    by (rewrite length_app, Hfl by lia; lia).
  destruct (IH (pre ++ free_words_of (count b)) rest Hbs) as (words' & Hrun & Hatt).
  { rewrite length_app, Hfl in Hrl by lia. lia. }
  exists (free_words_of (count b) ++ words'). rewrite app_assoc. split; [done|]. cbn [attach fmap list_fmap]. f_equal.
  - f_equal. rewrite Nat2Z.id, <-app_assoc, drop_app_length. apply take_app_length'. rewrite Hfl; lia.
  - replace (Z.of_nat (length pre) + bitmap_size (count b)) with (Z.of_nat (length (pre ++ free_words_of (count b))))
      by (rewrite length_app, Hfl by lia; lia). exact Hatt.
Qed.

(** The pages the blocks and bitmaps take, not filled to the last byte: the bitmap of a last block
    with a multiple of 64 frames is followed by one more word. *)
Definition maps_fit (es : list mem_entry) : Prop :=
  let total := free_blocks es * sizeof_frame_block + free_words es * 8 in
  0 < total < 2 ^ 43 ∧ total mod page_size ≠ 0.

Lemma build_frame_blocks_spec es :
  Forall entry_ok es → (∀ e, e ∈ es → e_type e = m_free → small_rest (e_pages e)) → maps_fit es →
  ∃ bs, build_frame_blocks es = Done ((λ b, set_maps b (map1 b) (map2 b) (free_words_of (count b))) <$> bs) ∧
    Forall prefix_block bs ∧ ∀ a, block_page bs a ↔ free_pages es a.
Proof.
  intros Hok Hsm [Htot Hmod]. destruct (blocks_loop_spec es Hok Hsm) as (bs & Hrun & Hp & Hb & Hw & Hl).
  unfold build_frame_blocks, bytes_to_pages. set (total := free_blocks es * sizeof_frame_block + free_words es * 8) in *.
  rewrite wrap_small by (unfold is_word; lia). unfold page_size, sizeof_frame_block in *.
  pose proof (Z.div_mod (total - 1) 4096). pose proof (Z.mod_pos_bound (total - 1) 4096).
  rewrite (proj2 (Z.ltb_ge _ _)) by lia. cbn [mbind outcome_bind]. rewrite Hrun. cbn [mbind outcome_bind].
  set (P := (total - 1) / 4096 + 1) in *.
  assert (Hgt : total < P * 4096).
  { destruct (decide (total = P * 4096)) as [E|]; [|lia]. exfalso. apply Hmod. rewrite E. by apply Z.mod_mul. }
  assert (E8 : (P * 4096 - free_blocks es * 544) / 8 = P * 512 - free_blocks es * 68)
    by (symmetry; apply (Z.div_unique _ _ _ 0); lia). rewrite E8.
  destruct (bitmaps_loop_spec bs [] (replicate (Z.to_nat (P * 512 - free_blocks es * 68)) 0) Hp) as (words & Hrun2 & Hatt).
  { rewrite length_replicate. unfold total in Hgt. lia. }
  cbn [app length] in Hrun2, Hatt. change (Z.of_nat 0) with 0 in Hrun2, Hatt. rewrite Hrun2. cbn [mbind outcome_bind]. exists bs.
  by rewrite Hatt.
Qed.

(** ** Theorems *)


(** a partial block of 4033 to 28672 pages gets a second-level summary that is wrong: the loader
    sets its words to ones by the number of words, not of bytes.  Frame 4032 is free in its bitmap
    but no bit of the summary says so, and the block is not one the allocator can work with. *)
Theorem large_partial_block_inconsistent (bs n flags : Z) :
  4033 ≤ n ≤ 28672 →
  ∃ b words b', partial_block bs n flags = Done b ∧
    bitmaps_loop (replicate (Z.to_nat (bitmap_size n + 1)) 0) 0 [b] = Done words ∧ attach words 0 [b] = [b'] ∧
    frame_free b' 4032 = true ∧ Z.testbit (znth (map2 b') 0) 63 = false ∧ ¬ block_wf b'.
Proof.
  intros Hn. unfold partial_block. fold (bitmap_size n). pose proof (bitmap_size_bounds n) as Hb.
  pose proof (Z.div_mod (bitmap_size n) 64). pose proof (Z.mod_pos_bound (bitmap_size n) 64).
  pose proof (Z.div_mod (n + 4095) 4096). pose proof (Z.mod_pos_bound (n + 4095) 4096).
  rewrite (shl64_Done 1 ((n + 4095) / 4096)) by lia. cbn [mbind outcome_bind].
  rewrite (shl64_Done 1 (bitmap_size n mod 64)) by lia. cbn [mbind outcome_bind].
  set (q := bitmap_size n / 64) in *. set (m2 := memset_ff (replicate 64 0) q).
  assert (Hm2 : length m2 = 64%nat ∧ znth m2 0 = 2 ^ (8 * q) - 1).
  { assert (Hq : q ∈ seqZ 1 7) by (apply elem_of_seqZ; lia). unfold m2. clearbody q. clear -Hq. revert q Hq.
    apply Forall_forall. change (seqZ 1 7) with [1; 2; 3; 4; 5; 6; 7].
    repeat (apply Forall_cons; split; [split; reflexivity|]). by apply Forall_nil. }
  destruct Hm2 as [Hl2 Hz2]. rewrite arr_set_Done by lia. cbn [mbind outcome_bind].
  set (b := FrameBlock _ _ _ _ _ _).
  destruct (set_bitmap_spec [] (replicate (Z.to_nat (bitmap_size n + 1)) 0) n) as (rest & Hset & _);
    [lia|rewrite length_replicate; lia|].
  eexists b, _, _. split; [done|]. cbn [app length] in Hset. change (Z.of_nat 0) with 0 in Hset. cbn [bitmaps_loop]. change (count b) with n. rewrite Hset.
  cbn [mbind outcome_bind]. split; [done|]. split; [done|].
  assert (Htk : take (Z.to_nat (bitmap_size (count b))) (drop (Z.to_nat 0) (free_words_of n ++ rest)) = free_words_of n).
  { change (Z.to_nat 0) with 0%nat. rewrite drop_0. apply take_app_length'. rewrite length_free_words; [done|lia]. }
  rewrite Htk.
  assert (Hfree : frame_free (set_maps b (map1 b) (map2 b) (free_words_of n)) 4032 = true).
  { unfold frame_free. cbn [set_maps bitmap]. change (4032 / 64) with 63. change (4032 mod 64) with 0.
    rewrite znth_free_words, low_word_testbit by lia. apply Z.ltb_lt. lia. }
  assert (Hbit : Z.testbit (znth (map2 b) 0) 63 = false).
  { unfold b. cbn [map2]. rewrite znth_insert by lia. rewrite decide_False by lia. rewrite Hz2.
    replace (2 ^ (8 * q) - 1) with (Z.ones (8 * q)) by (rewrite Z.ones_equiv; lia).
    rewrite Z.testbit_ones_nonneg by lia. apply Z.ltb_ge. lia. }
  split; [done|]. split; [done|]. intros Hwf. pose proof (wf_level2 _ Hwf 0 63) as Hlv. cbn [set_maps map2 bitmap] in Hlv.
  rewrite Hbit in Hlv. specialize (Hlv ltac:(lia) ltac:(lia)). symmetry in Hlv. apply bool_decide_eq_false in Hlv.
  apply Hlv. intros E. unfold frame_free in Hfree. cbn [set_maps bitmap] in Hfree.
  change (4032 / 64) with (0 * 64 + 63) in Hfree. rewrite E in Hfree. by rewrite Z.bits_0 in Hfree.
Qed.

(** ** Witnesses *)

(** A firmware map of low memory, a reserved range and two ranges that merge. *)
Definition demo_map : list memory_descriptor :=
  [Descriptor 7 0x1000 159 15; Descriptor 0 0xa0000 96 0; Descriptor 4 0x100000 1000 15; Descriptor 7 0x4e8000 500 15].
Definition demo_entries : list mem_entry := [MemEntry 0x1000 159 m_free 15; MemEntry 0x100000 1500 m_free 15].


Lemma large_partial_block_inconsistent_witness :
  ∃ b words b', partial_block 0x100000 8192 15 = Done b ∧
    bitmaps_loop (replicate (Z.to_nat (bitmap_size 8192 + 1)) 0) 0 [b] = Done words ∧ attach words 0 [b] = [b'] ∧
    frame_free b' 4032 = true ∧ Z.testbit (znth (map2 b') 0) 63 = false ∧ ¬ block_wf b'.
Proof. apply (large_partial_block_inconsistent 0x100000 8192 15). lia. Defined.
