(* ===== verification/Frames.v ===== *)
(** * Physical frames as an interface

    What the page table code relies on of frame_allocator::allocate (src/kernel/frame_allocator.cpp)
    as a type class, and the frame allocator of FrameAllocator.v as its instance.  [fa_avail] is the
    set of frames, by physical address, that the allocator may still hand out.  Nothing is promised
    of [fa_free]: [frame_allocator::free] marks the wrong frame past the first 4096 of a block. *)
From S2P Require Import Prelude FrameAllocator.

Class FrameSource (F : Type) := {
  fa_allocate : F → Z → outcome (Z * Z * F);
  fa_free : F → Z → Z → outcome F;
}.

(** Physical memory the kernel can reach through its linear mapping is below 64 TiB. *)
Definition phys_limit : Z := 2 ^ 46.

(** [mem::page_count] *)
Definition page_count (bytes : Z) : Z := u64 (Z.shiftr (u64 (bytes - 1)) 12 + 1).

Class FrameLaws (F : Type) {FS : FrameSource F} := {
  fa_ok : F → Prop;
  fa_avail : F → Z → Prop;
  fa_avail_range f a : fa_ok f → fa_avail f a → 0 ≤ a < phys_limit ∧ a mod frame_size = 0;
  fa_allocate_law f cnt :
    fa_ok f → 0 < cnt < 64 →
    (fa_allocate f cnt = Panic ∧ ∀ a, ¬ fa_avail f a) ∨
    (∃ n a f', fa_allocate f cnt = Done (n, a, f') ∧ fa_ok f' ∧ 0 < n ≤ cnt ∧
      (∀ k, 0 ≤ k < n → fa_avail f (a + k * frame_size)) ∧
      (∀ x, fa_avail f' x → fa_avail f x ∧ ∀ k, 0 ≤ k < n → x ≠ a + k * frame_size));
}.

#[global] Instance blocks_source : FrameSource (list frame_block) := {
  fa_allocate := FrameAllocator.allocate;
  fa_free := FrameAllocator.free;
}.

(** The blocks of a machine: each consistent and inside linearly mapped memory at a page-aligned
    base, with no free bit past its last frame, and no two covering the same memory. *)
Record blocks_ok (bs : list frame_block) : Prop := {
  bo_wf : Forall block_wf bs;
  bo_layout : Forall (λ b, 0 ≤ base b ∧ base b mod frame_size = 0) bs;
  bo_limit : Forall (λ b, base b + count b * frame_size ≤ phys_limit) bs;
  bo_inside : ∀ i b f, bs !! i = Some b → 0 ≤ f → frame_free b f = true → f < count b;
  bo_disjoint : ∀ i j b c, i ≠ j → bs !! i = Some b → bs !! j = Some c →
    base b + count b * frame_size ≤ base c ∨ base c + count c * frame_size ≤ base b;
}.

Definition blocks_avail (bs : list frame_block) (a : Z) : Prop :=
  ∃ i b f, bs !! i = Some b ∧ 0 ≤ f ∧ frame_free b f = true ∧ a = base b + f * frame_size.

Lemma blocks_avail_range bs a :
  blocks_ok bs → blocks_avail bs a → 0 ≤ a < phys_limit ∧ a mod frame_size = 0.
Proof.
  intros [Hwf Hlay Hlim Hin _] (i & b & f & Hb & Hf & Hfree & ->).
  rewrite Forall_lookup in Hlay, Hlim. destruct (Hlay _ _ Hb) as [L1 L2].
  pose proof (Hlim _ _ Hb) as Hl. pose proof (Hin _ _ _ Hb Hf Hfree). simpl in Hl.
  split; [unfold frame_size in *; lia|]. by rewrite Z.mod_add.
Qed.

(** Two frames at one address are the same frame of the same block. *)
Lemma blocks_frame_inj bs i j b c f g :
  blocks_ok bs → bs !! i = Some b → bs !! j = Some c → 0 ≤ f < count b → 0 ≤ g < count c →
  base b + f * frame_size = base c + g * frame_size → i = j ∧ f = g.
Proof.
  intros H Hi Hj Hf Hg E. destruct (decide (i = j)) as [->|Hne].
  - split; [done|]. unfold frame_size in E. simplify_eq. lia.
  - destruct (bo_disjoint _ H i j b c) as [D|D]; [done..| |]; unfold frame_size in *; nia.
Qed.

(** Taking frames from one block keeps the blocks as they have to be. *)
Lemma blocks_ok_alloc bs i b cnt n f b' :
  blocks_ok bs → bs !! i = Some b → alloc_spec b cnt n f b' → blocks_ok (<[i:=b']> bs).
Proof.
  intros [Hwf Hlay Hlim Hin Hdis] Hb [_ _ _ _ Hnow _ Hwf' (Eb & Ec & _)].
  assert (i < length bs)%nat as Hi by by eapply lookup_lt_Some.
  pose proof (Forall_lookup_1 _ _ _ _ Hlim Hb) as Hl.
  pose proof (Forall_lookup_1 _ _ _ _ Hlay Hb) as HL.
  assert (∀ j c, <[i:=b']> bs !! j = Some c →
    ∃ c0, bs !! j = Some c0 ∧ base c = base c0 ∧ count c = count c0 ∧
      ∀ g, 0 ≤ g → frame_free c g = true → frame_free c0 g = true) as Hback.
  { intros j c [(<- & -> & _)|[_ Hc]]%list_lookup_insert_Some; [|by exists c].
    exists b. repeat split; try done. intros g Hg. rewrite Hnow by done. by intros [? _]%andb_prop. }
  split.
  - by apply Forall_insert.
  - apply Forall_insert; [done|]. by rewrite Eb.
  - apply Forall_insert; [done|]. by rewrite Eb, Ec.
  - intros j c g Hc Hg Hfree. destruct (Hback _ _ Hc) as (c0 & Hc0 & _ & -> & Hf). by eapply Hin; eauto.
  - intros j k c d Hne Hc Hd. destruct (Hback _ _ Hc) as (c0 & Hc0 & -> & -> & _).
    destruct (Hback _ _ Hd) as (d0 & Hd0 & -> & -> & _). by eapply Hdis.
Qed.

Lemma free_frame_bound b f : block_wf b → 0 ≤ f → frame_free b f = true → f < frames_per_block.
Proof.
  intros Hwf Hf Hfree. unfold frames_per_block. destruct (decide (f < 262144)); [lia|].
  unfold frame_free in Hfree. pose proof (wf_bitmap_len b Hwf).
  rewrite znth_oob, Z.bits_0 in Hfree; [done|]. Z.div_mod_to_equations; lia.
Qed.

Lemma blocks_avail_after bs i b cnt n f b' x :
  blocks_ok bs → bs !! i = Some b → alloc_spec b cnt n f b' → blocks_avail (<[i:=b']> bs) x →
  blocks_avail bs x ∧ ∀ k, 0 ≤ k < n → x ≠ base b + f * frame_size + k * frame_size.
Proof.
  intros Hok Hb [[Hf0 _] _ _ Hwas Hnow _ _ (Eb & _)] (j & c & g & Hc & Hg & Hfree & ->).
  apply list_lookup_insert_Some in Hc as [(<- & -> & _)|[Hne Hc]].
  - rewrite Hnow in Hfree by done. apply andb_prop in Hfree as [Hfree Hno].
    apply negb_true_iff, bool_decide_eq_false in Hno. rewrite Eb. split; [by exists i, b, g|].
    intros k Hk E. unfold frame_size in E. lia.
  - split; [by exists j, c, g|]. intros k Hk E.
    assert (frame_free b (f + k) = true) as Hfk by (apply Hwas; lia).
    pose proof (bo_inside _ Hok _ _ _ Hc Hg Hfree).
    destruct (blocks_frame_inj bs i j b c (f + k) g) as [-> _]; try done.
    + split; [lia|]. eapply (bo_inside _ Hok); [done|lia|done].
    + unfold frame_size in *; lia.
Qed.

#[global] Program Instance blocks_laws : FrameLaws (list frame_block) := {
  fa_ok := blocks_ok;
  fa_avail := blocks_avail;
  fa_avail_range := blocks_avail_range;
}.
Next Obligation.
  intros bs cnt Hok Hcnt. cbn [fa_allocate blocks_source]. unfold FrameAllocator.allocate.
  destruct (allocate_from_spec bs (length bs) cnt)
    as [[Hp Hno]|(i & b & n & f & b' & _ & Hb & He & Hs)]; [apply Hok|lia|done| |].
  - left. split; [done|]. intros a (i & b & f & Hb & Hf & Hfree & _).
    rewrite (Hno i b f) in Hfree; [done|by eapply lookup_lt_Some|done|].
    split; [done|]. eapply free_frame_bound; [|done..]. by eapply Forall_lookup_1; [apply bo_wf|].
  - right. pose proof Hs as [[Hf0 Hfn] Hn Hlow Hwas Hnow Hmax Hwf' (Eb & Ec & Efl)].
    assert (∀ k, 0 ≤ k < n → blocks_avail bs (base b + f * frame_size + k * frame_size)) as Hav.
    { intros k Hk. exists i, b, (f + k). repeat split; [done|lia|apply Hwas; lia|].
      unfold frame_size; lia. }
    destruct (blocks_avail_range bs (base b + f * frame_size)) as [Hr _]; [done| |].
    { specialize (Hav 0). rewrite Z.add_0_r in Hav. apply Hav. lia. }
    rewrite wrap_small in He by (unfold is_word, phys_limit in *; lia).
    eexists n, _, _. split; [done|]. split; [by eapply blocks_ok_alloc|]. split; [done|].
    split; [done|]. intros x Hx. by eapply blocks_avail_after.
Qed.
