(* ===== verification/BootAlloc.v ===== *)
(** * The boot loader's allocations

    Models src/boot/allocator.cpp: pages of the firmware, with a register of the allocations that the
    kernel reads when it starts (the loop in [memory_initialize_pre_ctors] of
    src/kernel/memory_bootstrap.cpp), and the pages of modules, which the init server reads
    (src/user/srv.init/modules.cpp).  The firmware's allocator is a parameter, of which the code uses that
    it returns pages that are not in use.  A failed call of the firmware raises an error, which does not
    return ([Panic]).

    [register_roundtrip] shows that the kernel finds every allocation of the loader, in order, with no
    other; [modules_roundtrip] that the init server finds every module. *)
From S2P Require Import Prelude Bytes Frames.

(** ** State *)

Record page_allocation := Allocation { pa_address : Z; pa_count : Z; pa_type : Z }.
Definition no_allocation : page_allocation := Allocation 0 0 0.
Record allocation_register := Register { r_next : Z; r_count : Z; r_entries : list page_allocation }.
Definition page_bytes : Z := 0x1000.
(** [alloc_type::init_args] *)
Definition type_init_args : Z := 6.
Definition sizeof_module : Z := 16.
Definition sizeof_modules_page : Z := 8.

Record allocator := Allocator {
  mem : physical;
  registers : gmap Z allocation_register;
  live : list (Z * Z);                      (** the firmware's record of pages in use: address and number *)
  m_register : Z;
  m_modules : Z;
  m_next_mod : Z;
}.
Definition with_mem (a : allocator) (pm : physical) : allocator := Allocator pm (registers a) (live a) (m_register a) (m_modules a) (m_next_mod a).
Definition with_registers (a : allocator) (rs : gmap Z allocation_register) (cur : Z) : allocator :=
  Allocator (mem a) rs (live a) cur (m_modules a) (m_next_mod a).
Definition with_modules (a : allocator) (page next : Z) : allocator := Allocator (mem a) (registers a) (live a) (m_register a) page next.

Section firmware.
(** The firmware's [allocate_pages]: an address for a number of pages, given those in use. *)
Context (allocate : list (Z * Z) → Z → option Z).

Definition firmware_pages (a : allocator) (count : Z) : outcome (Z * allocator) :=
  match allocate (live a) count with
  | None => Panic
  | Some p => Done (p, Allocator (mem a) (registers a) ((p, count) :: live a) (m_register a) (m_modules a) (m_next_mod a))
  end.
Definition set_mem (a : allocator) (p size : Z) : allocator := with_mem a (put_bytes (mem a) p (replicate (Z.to_nat size) 0)).

(** ** Operations *)

Definition add_register (a : allocator) : outcome allocator :=
  let* (reg, a) := firmware_pages a 1 in
  let rs := <[reg := Register 0 0 (replicate 255 no_allocation)]> (registers a) in
  let* rs :=
    if m_register a =? 0 then Done rs
    else let* r := deref (rs !! m_register a) in Done (<[m_register a := Register reg (r_count r) (r_entries r)]> rs) in
  Done (with_registers a rs reg).
(** Pages of the firmware, with their entry in the register. *)
Definition take_pages (a : allocator) (count type : Z) : outcome (Z * allocator) :=
  let* (pages, a) := firmware_pages a count in
  let* r := deref (registers a !! m_register a) in
  let* es := arr_set (r_entries r) (r_count r) (Allocation pages (u32 count) type) in
  Done (pages, with_registers a (<[m_register a := Register (r_next r) (u8 (r_count r + 1)) es]> (registers a)) (m_register a)).
Definition allocate_pages (a : allocator) (count type : Z) (zero : bool) : outcome (Z * allocator) :=
  if negb (Z.land count (wnot 64 0xffffffff) =? 0) then Panic
  else
    let* full := if m_register a =? 0 then Done true else let* r := deref (registers a !! m_register a) in Done (r_count r =? 0xff) in
    let* a := if full : bool then add_register a else Done a in
    let* (pages, a) := take_pages a count type in
    Done (pages, if zero then set_mem a pages (count * page_bytes) else a).
Definition add_modules (a : allocator) : outcome allocator :=
  let* (mods, a) := allocate_pages a 1 type_init_args true in
  let a := if m_modules a =? 0 then a else with_mem a (put_bytes (mem a) (m_modules a) (le_bytes 8 mods)) in
  Done (with_modules a mods (mods + sizeof_modules_page)).
Definition allocate_module (a : allocator) (extra : Z) : outcome (Z * allocator) :=
  let size := u64 (sizeof_module + extra) in
  let remaining := u64 (m_modules a + page_bytes - m_next_mod a - sizeof_module) in
  let* a := if remaining <? size then add_modules a else Done a in
  let m := m_next_mod a in
  let a := with_mem a (put_bytes (mem a) m (le_bytes 2 (u16 size))) in
  Done (m, with_modules a (m_modules a) (u64 (m + size))).
(** The constructor. *)
Definition allocator_new (pm : physical) : outcome allocator :=
  let* a := add_register (Allocator pm ∅ [] 0 0 0) in add_modules a.

(** ** Its users *)

(** A module with its type, its id and its data, [payload], which its maker writes behind the size. *)
Definition make_module (a : allocator) (extra : Z) (payload : list Z) : outcome (Z * allocator) :=
  let* (m, a) := allocate_module a extra in Done (m, with_mem a (put_bytes (mem a) (m + 2) payload)).
Inductive call := Pages (count type : Z) (zero : bool) | Module (extra : Z) (payload : list Z).
Fixpoint run (cs : list call) (a : allocator) : outcome (list Z * allocator) :=
  match cs with
  | [] => Done ([], a)
  | c :: cs =>
      let* (p, a) := match c with Pages n t z => allocate_pages a n t z | Module e bs => make_module a e bs end in
      let* (ps, a) := run cs a in
      Done (p :: ps, a)
  end.
End firmware.

(** The kernel's walk over the registers: the allocations it marks as used. *)
Fixpoint kernel_walk (fuel : nat) (rs : gmap Z allocation_register) (reg : Z) : outcome (list page_allocation) :=
  match fuel with
  | O => Diverge
  | S fuel =>
      if reg =? 0 then Done []
      else
        let* r := deref (rs !! reg) in
        let* l := kernel_walk fuel rs (r_next r) in
        Done (filter (λ e, pa_type e ≠ 0) (r_entries r) ++ l)
  end.
(** [load_modules] of the init server: the modules of a page, then the next page. *)
Fixpoint page_modules (fuel : nat) (pm : physical) (m : Z) : outcome (list Z) :=
  match fuel with
  | O => Diverge
  | S fuel =>
      let* bytes := read_le pm m 2 in
      if bytes =? 0 then Done [] else let* l := page_modules fuel pm (m + bytes) in Done (m :: l)
  end.
Fixpoint load_modules (fuel : nat) (pm : physical) (p : Z) : outcome (list Z) :=
  match fuel with
  | O => Diverge
  | S fuel =>
      if p =? 0 then Done []
      else
        let* ms := page_modules 256 pm (p + sizeof_modules_page) in
        let* next := read_le pm p 8 in
        let* l := load_modules fuel pm next in
        Done (ms ++ l)
  end.

(** ** The registers *)

Definition padded (es : list page_allocation) : list page_allocation := es ++ replicate (255 - length es) no_allocation.
Definition head_of (ps : list (Z * list page_allocation)) (tail : Z) : Z := match ps with [] => tail | (p, _) :: _ => p end.
(** Registers that follow each other, with the allocations of each; the last one leads to [tail]. *)
Fixpoint reg_chain (rs : gmap Z allocation_register) (tail : Z) (ps : list (Z * list page_allocation)) : Prop :=
  match ps with
  | [] => True
  | (p, es) :: ps => rs !! p = Some (Register (head_of ps tail) (Z.of_nat (length es)) (padded es)) ∧ reg_chain rs tail ps
  end.
(** The allocations of full registers and of the current one. *)
Definition entries (ps : list (Z * list page_allocation)) (es : list page_allocation) : list page_allocation := concat ps.*2 ++ es.
Definition pages_of (e : page_allocation) : Z * Z := (pa_address e, pa_count e).
(** The registers hold what the firmware gave, besides the pages of the registers themselves. *)
Record reg_inv (a : allocator) (first : Z) (ps : list (Z * list page_allocation)) (es : list page_allocation) : Prop := {
  ri_chain : reg_chain (registers a) 0 (ps ++ [(m_register a, es)]);
  ri_first : first = head_of (ps ++ [(m_register a, es)]) 0;
  ri_len : (length es <= 255)%nat;
  ri_nonzero : Forall (λ x, x.1 ≠ 0) (ps ++ [(m_register a, es)]);
  ri_nodup : NoDup (ps ++ [(m_register a, es)]).*1;
  ri_types : Forall (λ e, pa_type e ≠ 0) (concat (ps ++ [(m_register a, es)]).*2);
  ri_live : live a ≡ₚ (pages_of <$> concat (ps ++ [(m_register a, es)]).*2) ++ ((λ x, (x.1, 1)) <$> (ps ++ [(m_register a, es)]));
}.

Lemma reg_chain_app rs tail ps qs : reg_chain rs tail (ps ++ qs) ↔ reg_chain rs (head_of qs tail) ps ∧ reg_chain rs tail qs.
Proof.
  induction ps as [|[p es] ps IH]; cbn [app reg_chain]; [tauto|]. rewrite IH.
  assert (E : head_of (ps ++ qs) tail = head_of ps (head_of qs tail)) by (by destruct ps as [|[? ?] ?]). rewrite E. tauto.
Qed.
Lemma reg_chain_insert rs tail ps p r : p ∉ ps.*1 → reg_chain rs tail ps → reg_chain (<[p := r]> rs) tail ps.
Proof.
  induction ps as [|[q es] ps IH]; cbn [reg_chain fmap list_fmap]; [done|]. rewrite not_elem_of_cons. intros [Hn Hp] [H1 H2].
  split; [by rewrite lookup_insert_ne|by apply IH].
Qed.
(** The walk sees the allocations, and not the unused entries. *)
Lemma filter_padded es : Forall (λ e, pa_type e ≠ 0) es → filter (λ e, pa_type e ≠ 0) (padded es) = es.
Proof.
  intros H. unfold padded. rewrite filter_app. replace (filter _ (replicate _ _)) with (@nil page_allocation).
  - rewrite app_nil_r. induction H as [|e es He _ IH]; [done|]. by rewrite filter_cons_True, IH.
  - generalize (255 - length es)%nat. intros n. induction n as [|n IH]; [done|]. cbn [replicate]. rewrite filter_cons_False by (by intros ?). done.
Qed.
Lemma kernel_walk_spec rs ps fuel : reg_chain rs 0 ps → Forall (λ x, x.1 ≠ 0) ps → Forall (λ e, pa_type e ≠ 0) (concat ps.*2) →
  (length ps < fuel)%nat → kernel_walk fuel rs (head_of ps 0) = Done (concat ps.*2).
Proof.
  revert fuel. induction ps as [|[p es] ps IH]; intros fuel Hc Hnz Ht Hf; (destruct fuel as [|fuel]; [cbn in Hf; lia|]); [done|].
  cbn [reg_chain fmap list_fmap concat length head_of kernel_walk] in *. destruct Hc as [Hp Hc]. apply Forall_cons in Hnz as [Hz Hnz]. cbn [fst] in Hz.
  apply Forall_app in Ht as [Ht1 Ht2]. rewrite (proj2 (Z.eqb_neq p 0)) by done. rewrite Hp. cbn [deref mbind outcome_bind r_next r_entries].
  rewrite IH by (done || lia). cbn [mbind outcome_bind snd]. by rewrite filter_padded.
Qed.

(** ** The firmware *)

(** What the firmware promises: pages that are in use nowhere. *)
Definition apart (p n q k : Z) : Prop := p + n * page_bytes ≤ q ∨ q + k * page_bytes ≤ p.
Definition firmware_ok (allocate : list (Z * Z) → Z → option Z) : Prop :=
  ∀ live n p, 0 < n → allocate live n = Some p → 0 < p ∧ p mod page_bytes = 0 ∧ p + n * page_bytes ≤ phys_limit ∧ ∀ q k, (q, k) ∈ live → apart p n q k.

Section allocations.
Context (allocate : list (Z * Z) → Z → option Z) (Hfw : firmware_ok allocate).
Implicit Types (a : allocator).

Lemma live_register a first ps es x : reg_inv a first ps es → x ∈ (ps ++ [(m_register a, es)]).*1 → (x, 1) ∈ live a.
Proof.
  intros H Hx. rewrite (ri_live _ _ _ _ H). apply elem_of_app. right. apply list_elem_of_fmap in Hx as ([y l] & -> & Hy). apply list_elem_of_fmap. by exists (y, l).
Qed.
Lemma new_register_apart a first ps es p n : reg_inv a first ps es → 0 < n → allocate (live a) n = Some p → p ∉ (ps ++ [(m_register a, es)]).*1.
Proof.
  intros H Hn Hp Hin. destruct (Hfw _ _ _ Hn Hp) as (_ & _ & _ & Hd). destruct (Hd _ _ (live_register _ _ _ _ _ H Hin)); unfold page_bytes in *; lia.
Qed.

Lemma add_register_spec a first ps es p : reg_inv a first ps es → length es = 255%nat → m_register a ≠ 0 → allocate (live a) 1 = Some p →
  ∃ a', add_register allocate a = Done a' ∧ reg_inv a' first (ps ++ [(m_register a, es)]) [] ∧ live a' = (p, 1) :: live a ∧ mem a' = mem a ∧
    m_register a' = p ∧ m_modules a' = m_modules a ∧ m_next_mod a' = m_next_mod a.
Proof.
  intros H Hl Hm Hp. pose proof (new_register_apart _ _ _ _ _ 1 H ltac:(lia) Hp) as Hnew. destruct (Hfw _ 1 _ ltac:(lia) Hp) as (Hp0 & _).
  destruct H as [Hc Hf Hlen Hnz Hnd Ht Hlv]. unfold add_register, firmware_pages. rewrite Hp. cbn [mbind outcome_bind registers m_register].
  rewrite (proj2 (Z.eqb_neq _ 0)) by done. apply reg_chain_app in Hc as [Hc1 [Hc2 _]]. cbn [head_of] in Hc1, Hc2.
  assert (Hpm : p ≠ m_register a). { intros ->. apply Hnew. rewrite fmap_app. apply elem_of_app. right. by apply list_elem_of_singleton. }
  rewrite lookup_insert_ne by done. rewrite Hc2. cbn [deref mbind outcome_bind r_count r_entries]. eexists. split; [reflexivity|].
  unfold with_registers. cbn [live mem m_register m_modules m_next_mod]. split; [|done].
  assert (Hps : m_register a ∉ ps.*1) by (rewrite fmap_app in Hnd; apply NoDup_app in Hnd as (_ & Hd & _); intros Hin; apply (Hd _ Hin); by apply list_elem_of_singleton).
  split; cbn [registers m_register live].
  - rewrite reg_chain_app. cbn [reg_chain head_of]. split.
    + rewrite reg_chain_app. cbn [reg_chain head_of]. split; [|by rewrite lookup_insert_eq].
      apply reg_chain_insert; [done|]. apply reg_chain_insert; [|done]. intros Hin. apply Hnew. rewrite fmap_app. apply elem_of_app. by left.
    + rewrite lookup_insert_ne by done. by rewrite lookup_insert_eq.
  - rewrite Hf. destruct ps as [|[? ?] ?]; done.
  - cbn. lia.
  - rewrite Forall_app. split; [done|]. apply Forall_singleton. cbn. lia.
  - rewrite fmap_app. apply NoDup_app. split; [done|]. split; [|apply NoDup_singleton]. intros x Hx ->%list_elem_of_singleton. done.
  - rewrite fmap_app, concat_app. cbn. by rewrite app_nil_r.
  - rewrite fmap_app, concat_app, !fmap_app. cbn. rewrite app_nil_r, Hlv, !fmap_app. cbn. solve_Permutation.
Qed.

Lemma padded_insert es e : (length es < 255)%nat → <[length es := e]> (padded es) = padded (es ++ [e]).
Proof.
  intros Hl. unfold padded. rewrite length_app. cbn [length]. rewrite insert_app_r_alt, Nat.sub_diag by lia.
  replace (255 - length es)%nat with (S (255 - (length es + 1))) by lia. cbn [replicate insert list_insert]. by rewrite <- (assoc_L (++)).
Qed.
(** The changes of an allocation in memory, which the rest of the state does not see. *)
Record allocated a a' (p n : Z) (zero : bool) : Prop := {
  al_page : 0 < p ∧ p mod page_bytes = 0 ∧ p + n * page_bytes ≤ phys_limit;
  al_apart : ∀ q k, (q, k) ∈ live a → apart p n q k ∧ (q, k) ∈ live a';
  al_live : (p, n) ∈ live a';
  al_mem : mem a' = if zero then put_bytes (mem a) p (replicate (Z.to_nat (n * page_bytes)) 0) else mem a;
  al_modules : m_modules a' = m_modules a ∧ m_next_mod a' = m_next_mod a;
}.
Lemma record_spec a first ps es n p type : reg_inv a first ps es → (length es < 255)%nat → 0 < n < 2 ^ 32 → type ≠ 0 → allocate (live a) n = Some p →
  ∃ a', take_pages allocate a n type = Done (p, a') ∧
    reg_inv a' first ps (es ++ [Allocation p n type]) ∧ live a' = (p, n) :: live a ∧ mem a' = mem a ∧ m_register a' = m_register a ∧
    m_modules a' = m_modules a ∧ m_next_mod a' = m_next_mod a.
Proof.
  intros [Hc Hf Hlen Hnz Hnd Ht Hlv] Hl Hn Hty Hp. unfold take_pages, firmware_pages. rewrite Hp. cbn [mbind outcome_bind registers m_register].
  apply reg_chain_app in Hc as [Hc1 [Hc2 _]]. cbn [head_of] in Hc1, Hc2. rewrite Hc2. cbn [deref mbind outcome_bind r_count r_entries r_next].
  rewrite arr_set_Done by (unfold padded; rewrite length_app, length_replicate; lia). cbn [mbind outcome_bind]. rewrite Nat2Z.id, padded_insert by done.
  rewrite (wrap_small 32), (wrap_small 8) by (unfold is_word; lia). eexists. split; [reflexivity|].
  unfold with_registers. cbn [live mem m_register m_modules m_next_mod]. split; [|done].
  assert (Hps : m_register a ∉ ps.*1) by (rewrite fmap_app in Hnd; apply NoDup_app in Hnd as (_ & Hd & _); intros Hin; apply (Hd _ Hin); by apply list_elem_of_singleton).
  split; cbn [registers m_register live].
  - rewrite reg_chain_app. cbn [reg_chain head_of]. split; [by apply reg_chain_insert|]. rewrite lookup_insert_eq, length_app. cbn [length].
    split; [|done]. do 2 f_equal. lia.
  - rewrite Hf. by destruct ps as [|[? ?] ?].
  - rewrite length_app. cbn [length]. lia.
  - apply Forall_app in Hnz as [H1 H2]. apply Forall_app. split; [done|]. apply Forall_cons in H2 as [H2 _]. apply Forall_singleton. exact H2.
  - by rewrite fmap_app in *.
  - rewrite fmap_app, concat_app in *. cbn in *. rewrite !app_nil_r in *. apply Forall_app in Ht as [H1 H2]. apply Forall_app. split; [done|].
    apply Forall_app. split; [done|]. by apply Forall_singleton.
  - rewrite !fmap_app, concat_app in Hlv |- *. cbn in *. rewrite !app_nil_r in *. rewrite Hlv, !fmap_app. cbn. solve_Permutation.
Qed.

Lemma allocate_pages_spec a first ps es n type zero : reg_inv a first ps es → 0 < n < 2 ^ 32 → type ≠ 0 →
  allocate_pages allocate a n type zero = Panic ∨
  ∃ p a' ps' es', allocate_pages allocate a n type zero = Done (p, a') ∧ reg_inv a' first ps' es' ∧
    entries ps' es' = entries ps es ++ [Allocation p n type] ∧ ((length es < 255)%nat → m_register a' = m_register a) ∧ allocated a a' p n zero.
Proof.
  intros H Hn Hty. unfold allocate_pages.
  assert (Hmask : Z.land n (wnot 64 0xffffffff) = 0).
  { apply Z.bits_inj'. intros i Hi. rewrite Z.land_spec, Z.bits_0, wnot_testbit by lia. change 0xffffffff with (Z.ones 32). rewrite Z.testbit_ones_nonneg by lia.
    destruct (Z.ltb_spec i 32); [cbn [negb]; by rewrite !andb_false_r|]. by rewrite (word_testbit_high 32 n) by (done || unfold is_word; lia). }
  rewrite Hmask. cbn [negb Z.eqb].
  assert (Hm0 : m_register a ≠ 0). { pose proof (ri_nonzero _ _ _ _ H) as Hz. apply Forall_app in Hz as [_ [Hz _]%Forall_cons]. exact Hz. }
  pose proof (ri_chain _ _ _ _ H) as Hc. apply reg_chain_app in Hc as [_ [Hc _]]. rewrite (proj2 (Z.eqb_neq _ 0)) by done. rewrite Hc. cbn [deref mbind outcome_bind r_count].
  assert (Hstep : (if Z.of_nat (length es) =? 0xff then add_register allocate a else Done a) = Panic ∨
    ∃ a1 ps1 es1, (if Z.of_nat (length es) =? 0xff then add_register allocate a else Done a) = Done a1 ∧ reg_inv a1 first ps1 es1 ∧ (length es1 < 255)%nat ∧
      entries ps1 es1 = entries ps es ∧ ((length es < 255)%nat → m_register a1 = m_register a) ∧
      (∀ x, x ∈ live a → x ∈ live a1) ∧ mem a1 = mem a ∧ m_modules a1 = m_modules a ∧ m_next_mod a1 = m_next_mod a).
  { destruct (Z.eqb_spec (Z.of_nat (length es)) 0xff) as [El|El].
    - destruct (allocate (live a) 1) as [q|] eqn:Eq; [|left; unfold add_register, firmware_pages; by rewrite Eq].
      destruct (add_register_spec a first ps es q H ltac:(lia) Hm0 Eq) as (a1 & E1 & Hi1 & Hl1 & Hmem1 & _ & Hmm & Hnm). right.
      exists a1, (ps ++ [(m_register a, es)]), []. split; [done|]. split; [done|]. split; [cbn; lia|].
      split; [unfold entries; rewrite fmap_app, concat_app; cbn; by rewrite !app_nil_r|].
      split; [lia|]. split; [rewrite Hl1; intros x Hx; by right|done].
    - right. exists a, ps, es. split; [done|]. split; [done|]. pose proof (ri_len _ _ _ _ H). split; [lia|]. done. }
  destruct Hstep as [->|(a1 & ps1 & es1 & -> & Hi1 & Hl1 & Hent & Hreg & Hlive & Hmem & Hmm & Hnm)]; [by left|]. cbn [mbind outcome_bind].
  destruct (allocate (live a1) n) as [p|] eqn:Ep; [|left; unfold take_pages, firmware_pages; by rewrite Ep]. right.
  destruct (record_spec a1 first ps1 es1 n p type Hi1 Hl1 Hn Hty Ep) as (a2 & E2 & Hi2 & Hlv2 & Hm2 & Hr2 & Hmm2 & Hnm2).
  destruct (Hfw _ n _ ltac:(lia) Ep) as (Hp0 & Hpa & Hpl & Hap).
  rewrite E2. cbn [mbind outcome_bind]. eexists p, _, ps1, _. split; [reflexivity|]. split; [|split; [|split]].
  - destruct zero; [|exact Hi2]. destruct Hi2 as [R1 R2 R3 R4 R5 R6 R7]. by split.
  - rewrite <-Hent. unfold entries. by rewrite (assoc_L (++)).
  - intros Hle. rewrite <-(Hreg Hle), <-Hr2. by destruct zero.
  - assert (Hzl : ∀ x, x ∈ live a2 → x ∈ live (if zero then set_mem a2 p (n * page_bytes) else a2)) by (by destruct zero). split.
    + done.
    + intros q k Hq. split; [by apply Hap, Hlive|]. apply Hzl. rewrite Hlv2. right. by apply Hlive.
    + apply Hzl. rewrite Hlv2. by left.
    + destruct zero; cbn [set_mem with_mem mem]; congruence.
    + destruct zero; cbn [set_mem with_mem m_modules m_next_mod]; split; congruence.
Qed.
End allocations.

(** ** The pages of modules *)

Definition total (ss : list Z) : Z := foldr Z.add 0 ss.
(** The sizes at the heads of modules that follow each other, and where these are. *)
Fixpoint heads (pm : physical) (o : Z) (ss : list Z) : Prop :=
  match ss with [] => True | s :: ss => bytes_at pm o (le_bytes 2 s) ∧ heads pm (o + s) ss end.
Fixpoint places (o : Z) (ss : list Z) : list Z := match ss with [] => [] | s :: ss => o :: places (o + s) ss end.
Definition page_start (p : Z) : Z := p + sizeof_modules_page.
Record mod_page (pm : physical) (p next : Z) (ss : list Z) : Prop := {
  mp_next : bytes_at pm p (le_bytes 8 next);
  mp_heads : heads pm (page_start p) ss;
  mp_end : bytes_at pm (page_start p + total ss) [0; 0];
  mp_sizes : Forall (λ s, sizeof_module ≤ s) ss;
  mp_fits : sizeof_modules_page + total ss + sizeof_module ≤ page_bytes;
}.
Definition mod_head (ps : list (Z * list Z)) (tail : Z) : Z := match ps with [] => tail | (p, _) :: _ => p end.
Fixpoint mod_chain (pm : physical) (tail : Z) (ps : list (Z * list Z)) : Prop :=
  match ps with [] => True | (p, ss) :: ps => mod_page pm p (mod_head ps tail) ss ∧ 0 < p < 2 ^ 64 ∧ mod_chain pm tail ps end.
Definition all_places (ps : list (Z * list Z)) : list Z := concat ((λ x, places (page_start x.1) x.2) <$> ps).

Lemma sizes_app ss s : total (ss ++ [s]) = total ss + s.
Proof. unfold total. induction ss as [|x ss IH]; cbn [app foldr]; [lia|]. rewrite IH. lia. Qed.
Lemma sizes_total ss : Forall (λ s, sizeof_module ≤ s) ss → 16 * Z.of_nat (length ss) ≤ total ss.
Proof. induction 1 as [|s ss Hs _ IH]; cbn [length total foldr]; [done|]. fold (total ss). unfold sizeof_module in Hs. lia. Qed.
Lemma heads_app pm o ss s : heads pm o (ss ++ [s]) ↔ heads pm o ss ∧ bytes_at pm (o + total ss) (le_bytes 2 s).
Proof.
  revert o. induction ss as [|x ss IH]; intros o; cbn [app heads total foldr]; [rewrite Z.add_0_r; tauto|]. rewrite IH. fold (total ss).
  replace (o + x + total ss) with (o + (x + total ss)) by lia. tauto.
Qed.
Lemma places_app o ss s : places o (ss ++ [s]) = places o ss ++ [o + total ss].
Proof.
  revert o. induction ss as [|x ss IH]; intros o; cbn [app places total foldr]; [by rewrite Z.add_0_r|]. rewrite IH. fold (total ss). do 3 f_equal. lia.
Qed.
Lemma mod_chain_app pm tail ps qs : mod_chain pm tail (ps ++ qs) ↔ mod_chain pm (mod_head qs tail) ps ∧ mod_chain pm tail qs.
Proof.
  induction ps as [|[p ss] ps IH]; cbn [app mod_chain]; [tauto|]. rewrite IH.
  assert (E : mod_head (ps ++ qs) tail = mod_head ps (mod_head qs tail)) by (by destruct ps as [|[? ?] ?]). rewrite E. tauto.
Qed.

(** Memory that is the same on a range. *)
Definition same_on (pm pm' : physical) (lo hi : Z) : Prop := ∀ x, lo ≤ x < hi → pm' !! x = pm !! x.
Lemma bytes_at_same pm pm' lo hi a bs : same_on pm pm' lo hi → lo ≤ a → a + Z.of_nat (length bs) ≤ hi → bytes_at pm a bs → bytes_at pm' a bs.
Proof. intros Hs Hlo Hhi H i b Hi. pose proof (lookup_lt_Some _ _ _ Hi). rewrite Hs by lia. by apply H. Qed.
Lemma heads_same pm pm' lo hi o ss : same_on pm pm' lo hi → lo ≤ o → o + total ss ≤ hi → Forall (λ s, sizeof_module ≤ s) ss → heads pm o ss → heads pm' o ss.
Proof.
  intros Hs. revert o. induction ss as [|s ss IH]; intros o Hlo Hhi Hf; cbn [heads]; [done|]. intros [H1 H2]. apply Forall_cons in Hf as [Hf1 Hf2].
  cbn [total foldr] in Hhi. fold (total ss) in Hhi. pose proof (sizes_total _ Hf2). unfold sizeof_module in Hf1. split.
  - eapply bytes_at_same; [done|lia| |done]. rewrite length_le_bytes. lia.
  - apply IH; [lia|lia|done|done].
Qed.
Lemma mod_page_same pm pm' p next ss : same_on pm pm' p (p + page_bytes) → mod_page pm p next ss → mod_page pm' p next ss.
Proof.
  intros Hs [H1 H2 H3 H4 H5]. pose proof (sizes_total _ H4). unfold page_start, sizeof_modules_page, sizeof_module, page_bytes in *. split; try done.
  - eapply bytes_at_same; [done|lia| |done]. rewrite length_le_bytes. lia.
  - eapply heads_same; [done| | |done|done]; unfold page_start, sizeof_modules_page; lia.
  - eapply bytes_at_same; [done| | |done]; unfold page_start, sizeof_modules_page; cbn [length]; lia.
Qed.
Lemma mod_chain_same pm pm' tail ps : (∀ p, p ∈ ps.*1 → same_on pm pm' p (p + page_bytes)) → mod_chain pm tail ps → mod_chain pm' tail ps.
Proof.
  induction ps as [|[p ss] ps IH]; intros Hs; cbn [mod_chain fmap list_fmap] in *; [done|]. intros (H1 & H2 & H3). split; [|split; [done|]].
  - eapply mod_page_same; [apply Hs; by left|done].
  - apply IH; [|done]. intros q Hq. apply Hs. by right.
Qed.

(** What the init server reads. *)
Lemma page_modules_spec pm o ss fuel : heads pm o ss → bytes_at pm (o + total ss) [0; 0] → Forall (λ s, sizeof_module ≤ s < 2 ^ 16) ss → (length ss < fuel)%nat →
  page_modules fuel pm o = Done (places o ss).
Proof.
  revert o fuel. induction ss as [|s ss IH]; intros o fuel Hh He Hf Hl; (destruct fuel as [|fuel]; [cbn in Hl; lia|]); cbn [page_modules places heads] in *.
  - cbn [total foldr] in He. rewrite Z.add_0_r in He. rewrite (read_le_at pm o 2 0) by done. done.
  - destruct Hh as [H1 H2]. apply Forall_cons in Hf as [Hs Hf]. unfold sizeof_module in Hs. rewrite (read_le_at pm o 2 s) by (done || lia).
    cbn [mbind outcome_bind]. rewrite (proj2 (Z.eqb_neq s 0)) by lia. cbn [total foldr] in He. fold (total ss) in He. cbn [length] in Hl.
    rewrite (IH (o + s) fuel H2); [done| |done|lia]. by replace (o + s + total ss) with (o + (s + total ss)) by lia.
Qed.
Lemma sizes_small ss : Forall (λ s, sizeof_module ≤ s) ss → total ss < 2 ^ 16 → Forall (λ s, sizeof_module ≤ s < 2 ^ 16) ss.
Proof.
  induction 1 as [|s ss Hs Hf IH]; cbn [total foldr]; [done|]. fold (total ss). intros Ht. pose proof (sizes_total _ Hf). unfold sizeof_module in *.
  apply Forall_cons_2; [lia|]. apply IH. lia.
Qed.
Lemma mod_head_word pm tail ps : mod_chain pm tail ps → 0 ≤ tail < 2 ^ 64 → 0 ≤ mod_head ps tail < 2 ^ 64.
Proof. destruct ps as [|[p ss] ps]; cbn [mod_chain mod_head]; [done|]. intros (_ & ? & _) _. lia. Qed.
Lemma load_modules_spec pm ps fuel : mod_chain pm 0 ps → (length ps < fuel)%nat → load_modules fuel pm (mod_head ps 0) = Done (all_places ps).
Proof.
  revert fuel. induction ps as [|[p ss] ps IH]; intros fuel Hc Hl; (destruct fuel as [|fuel]; [cbn in Hl; lia|]); [done|].
  cbn [mod_chain mod_head length] in *. destruct Hc as ([H1 H2 H3 H4 H5] & Hp & Hc). cbn [load_modules]. rewrite (proj2 (Z.eqb_neq p 0)) by lia.
  pose proof (sizes_total _ H4). unfold sizeof_modules_page, sizeof_module, page_bytes in H5.
  fold (page_start p). rewrite (page_modules_spec pm (page_start p) ss) by (done || lia || (apply sizes_small; [done|lia])). cbn [mbind outcome_bind].
  pose proof (mod_head_word _ _ _ Hc ltac:(lia)). rewrite (read_le_at pm p 8 (mod_head ps 0)) by (done || lia). cbn [mbind outcome_bind].
  by rewrite IH by (done || lia).
Qed.

(** ** The modules of the allocator *)

(** The chain of the pages, of which the last one is filled; the rest of it is still zero. *)
Record mod_inv (a : allocator) (first : Z) (ps : list (Z * list Z)) (ss : list Z) : Prop := {
  mi_chain : mod_chain (mem a) 0 (ps ++ [(m_modules a, ss)]);
  mi_first : first = mod_head (ps ++ [(m_modules a, ss)]) 0;
  mi_next : m_next_mod a = page_start (m_modules a) + total ss;
  mi_rest : bytes_at (mem a) (m_next_mod a) (replicate (Z.to_nat (page_bytes - sizeof_modules_page - total ss)) 0);
  mi_live : Forall (λ x, (x.1, 1) ∈ live a) (ps ++ [(m_modules a, ss)]);
  mi_apart : Forall (λ x, apart (m_modules a) 1 x.1 1) ps;
  mi_page : m_modules a + page_bytes ≤ phys_limit;
}.

(** An allocation for another use leaves the pages of modules. *)
Lemma mod_inv_allocated a a' first ps ss p n zero : mod_inv a first ps ss → allocated a a' p n zero → 0 < n → mod_inv a' first ps ss.
Proof.
  intros [Hc Hf Hn Hr Hl Hd Hp] [_ Ha _ Hm [Hm1 Hm2]] Hn0.
  assert (Hs : ∀ x, x ∈ (ps ++ [(m_modules a, ss)]).*1 → same_on (mem a) (mem a') x (x + page_bytes)).
  { intros x Hx y Hy. apply list_elem_of_fmap in Hx as (z & -> & Hz). rewrite Forall_forall in Hl. destruct (Ha _ _ (Hl z Hz)) as [[Ho|Ho] _];
    rewrite Hm; (destruct zero; [|done]); apply put_bytes_out; rewrite length_replicate; unfold page_bytes in *; lia. }
  split; rewrite ?Hm1, ?Hm2; try done.
  - eapply mod_chain_same; [|done]. done.
  - eapply bytes_at_same; [apply (Hs (m_modules a)); rewrite fmap_app; apply elem_of_app; right; by apply list_elem_of_singleton| | |done];
      rewrite ?length_replicate, Hn; apply mod_chain_app in Hc as [_ [[_ _ _ H4 H5] _]]; pose proof (sizes_total _ H4);
      unfold page_start, sizeof_modules_page, sizeof_module, page_bytes in *; lia.
  - eapply Forall_impl; [exact Hl|]. intros x Hx. by apply Ha.
Qed.

Lemma reg_inv_same a a' first ps es : registers a' = registers a → live a' = live a → m_register a' = m_register a → reg_inv a first ps es → reg_inv a' first ps es.
Proof. intros H1 H2 H3 [? ? ? ? ? ? ?]. split; by rewrite ?H1, ?H2, ?H3. Qed.
Lemma zeros_part pm a n k m : bytes_at pm a (replicate n 0) → (k + m <= n)%nat → bytes_at pm (a + Z.of_nat k) (replicate m 0).
Proof.
  intros H Hk i b Hi. apply lookup_replicate in Hi as [-> Hi]. replace (a + Z.of_nat k + Z.of_nat i) with (a + Z.of_nat (k + i)) by lia.
  apply H. apply lookup_replicate. split; [done|lia].
Qed.
Lemma put_bytes_same pm a bs lo hi : a + Z.of_nat (length bs) ≤ lo ∨ hi ≤ a → same_on pm (put_bytes pm a bs) lo hi.
Proof. intros H x Hx. apply put_bytes_out. lia. Qed.
Lemma same_on_trans pm pm1 pm2 lo hi : same_on pm pm1 lo hi → same_on pm1 pm2 lo hi → same_on pm pm2 lo hi.
Proof. intros H1 H2 x Hx. rewrite H2 by done. by apply H1. Qed.
(** A page that is all zero has no module, and a page can be linked to a next one. *)
Lemma mod_page_zero pm p : bytes_at pm p (replicate (Z.to_nat page_bytes) 0) → mod_page pm p 0 [].
Proof.
  intros H. unfold page_bytes in H. split; cbn [heads total foldr]; try done.
  - pose proof (zeros_part _ _ _ 0 8 H ltac:(lia)) as Hz. by rewrite Z.add_0_r in Hz.
  - pose proof (zeros_part _ _ _ 8 2 H ltac:(lia)) as Hz. unfold page_start, sizeof_modules_page. by rewrite Z.add_0_r.
Qed.
Lemma mod_page_link pm p next next' ss : mod_page pm p next ss → mod_page (put_bytes pm p (le_bytes 8 next')) p next' ss.
Proof.
  intros [H1 H2 H3 H4 H5]. pose proof (sizes_total _ H4). split; try done; [apply put_bytes_in| |].
  - eapply heads_same; [apply (put_bytes_same _ _ _ (page_start p) (page_start p + total ss))| | |done|done]; [|lia|lia].
    rewrite length_le_bytes. unfold page_start, sizeof_modules_page. lia.
  - apply put_bytes_apart; [|done]. left. rewrite length_le_bytes. unfold page_start, sizeof_modules_page. lia.
Qed.

(** A module behind those of the current page. *)
Lemma place_module a a' first ps ss s payload : mod_inv a first ps ss → sizeof_module ≤ s → sizeof_modules_page + total ss + s + sizeof_module ≤ page_bytes →
  Z.of_nat (length payload) = s - 2 → mem a' = put_bytes (put_bytes (mem a) (m_next_mod a) (le_bytes 2 s)) (m_next_mod a + 2) payload →
  live a' = live a → m_modules a' = m_modules a → m_next_mod a' = m_next_mod a + s → mod_inv a' first ps (ss ++ [s]).
Proof.
  intros [Hc Hf Hn Hr Hl Hd Hp] Hs Hfit Hpl Hm Hlv Hmm Hnx. apply mod_chain_app in Hc as [Hc [Hpg [Hw _]]]. cbn [mod_head] in Hc, Hpg.
  destruct Hpg as [H1 H2 H3 H4 H5]. pose proof (sizes_total _ H4) as Ht.
  assert (Hin : ∀ lo hi, hi ≤ m_next_mod a ∨ m_next_mod a + s ≤ lo → same_on (mem a) (mem a') lo hi).
  { intros lo hi Hh. rewrite Hm. eapply same_on_trans; apply put_bytes_same; rewrite ?length_le_bytes; unfold sizeof_module in *; lia. }
  assert (Hz : bytes_at (mem a') (m_next_mod a + s) (replicate (Z.to_nat (page_bytes - sizeof_modules_page - total (ss ++ [s]))) 0)).
  { rewrite sizes_app. eapply bytes_at_same; [apply (Hin (m_next_mod a + s) (m_next_mod a + page_bytes)); lia|lia| |].
    - rewrite length_replicate. unfold page_bytes, sizeof_modules_page, sizeof_module in *. lia.
    - replace (m_next_mod a + s) with (m_next_mod a + Z.of_nat (Z.to_nat s)) by (unfold sizeof_module in *; lia). eapply zeros_part; [exact Hr|].
      unfold page_bytes, sizeof_modules_page, sizeof_module in *. lia. }
  unfold page_start, sizeof_modules_page, sizeof_module, page_bytes in *.
  split; rewrite ?Hmm, ?Hlv, ?Hnx; try done.
  - apply mod_chain_app. cbn [mod_head mod_chain]. split.
    { eapply mod_chain_same; [|exact Hc]. intros x (y & -> & Hy)%list_elem_of_fmap. rewrite Forall_forall in Hd. destruct (Hd y Hy); apply Hin;
      unfold page_bytes in *; lia. }
    split; [|done]. split; unfold page_start, sizeof_modules_page, sizeof_module, page_bytes; rewrite ?sizes_app.
    + eapply bytes_at_same; [apply (Hin (m_modules a) (m_modules a + 8)); lia|lia|rewrite length_le_bytes; lia|done].
    + apply heads_app. split; [eapply heads_same; [apply (Hin (m_modules a + 8) (m_modules a + 8 + total ss)); lia|lia|lia|done|done]|].
      rewrite <-Hn, Hm. apply put_bytes_apart; [rewrite length_le_bytes; lia|apply put_bytes_in].
    + rewrite sizes_app in Hz. pose proof (zeros_part _ _ _ 0 2 Hz ltac:(lia)) as Hz2. rewrite Z.add_0_r, Hn in Hz2.
      replace (m_modules a + 8 + (total ss + s)) with (m_modules a + 8 + total ss + s) by lia. exact Hz2.
    + apply Forall_app. split; [done|]. by apply Forall_cons_2; [|apply Forall_nil_2].
    + lia.
  - rewrite Hf. by destruct ps as [|[? ?] ?].
  - rewrite sizes_app, Hn. unfold page_start, sizeof_modules_page. lia.
  - apply Forall_app in Hl as [Hl1 Hl2]. apply Forall_app. split; [done|]. apply Forall_cons in Hl2 as [Hl2 _]. by apply Forall_cons_2; [|apply Forall_nil_2].
Qed.

Section modules.
Context (allocate : list (Z * Z) → Z → option Z) (Hfw : firmware_ok allocate).
Implicit Types (a : allocator).

Lemma page_word p : 0 < p → p + 1 * page_bytes ≤ phys_limit → 0 < p < 2 ^ 64.
Proof. unfold page_bytes, phys_limit. lia. Qed.
(** A new page behind the others. *)
Lemma add_modules_spec a rf rps res first ps ss : reg_inv a rf rps res → mod_inv a first ps ss →
  add_modules allocate a = Panic ∨
  ∃ a' rps' res', add_modules allocate a = Done a' ∧ reg_inv a' rf rps' res' ∧ entries rps res `sublist_of` entries rps' res' ∧
    mod_inv a' first (ps ++ [(m_modules a, ss)]) [].
Proof.
  intros Hreg Hmod. unfold add_modules. destruct (allocate_pages_spec allocate Hfw a rf rps res 1 type_init_args true Hreg ltac:(lia) ltac:(done))
    as [->|(q & a1 & rps' & res' & -> & Hreg' & Hent & _ & Hal)]; [by left|right]. cbn [mbind outcome_bind].
  pose proof (mod_inv_allocated _ _ _ _ _ _ _ _ Hmod Hal ltac:(lia)) as [Hc Hf Hn Hr Hl Hd Hp]. destruct Hal as [(Hq0 & _ & Hq) Ha Hql Hm [Hm1 Hm2]].
  apply mod_chain_app in Hc as [Hc [Hpg [Hw _]]]. cbn [mod_head] in Hc, Hpg. rewrite (proj2 (Z.eqb_neq (m_modules a1) 0)) by lia.
  eexists _, rps', res'. split; [reflexivity|]. split; [by apply (reg_inv_same a1)|].
  split; [rewrite Hent; by apply sublist_inserts_r|]. rewrite <-Hm1.
  assert (Happ : apart q 1 (m_modules a1) 1). { rewrite Hm1. apply Ha. apply Forall_app in Hl as [_ Hl%Forall_cons]. 
    pose proof (mi_live _ _ _ _ Hmod) as Hl'. apply Forall_app in Hl' as [_ [Hl' _]%Forall_cons]. exact Hl'. }
  assert (Hz : bytes_at (put_bytes (mem a1) (m_modules a1) (le_bytes 8 q)) q (replicate (Z.to_nat page_bytes) 0)).
  { apply put_bytes_apart; [rewrite length_le_bytes, length_replicate; destruct Happ; unfold page_bytes in *; lia|]. rewrite Hm. cbn [Z.mul]. apply put_bytes_in. }
  split; cbn [mem m_modules m_next_mod live with_modules with_mem].
  - apply mod_chain_app. cbn [mod_head mod_chain]. split; [|split; [by apply mod_page_zero|split; [by apply page_word|done]]].
    apply mod_chain_app. cbn [mod_head mod_chain]. split; [|split; [exact (mod_page_link _ _ _ _ _ Hpg)|exact (conj Hw I)]].
    eapply mod_chain_same; [|exact Hc]. intros x (y & -> & Hy)%list_elem_of_fmap. rewrite Forall_forall in Hd.
    destruct (Hd y Hy); apply put_bytes_same; rewrite length_le_bytes; unfold page_bytes in *; lia.
  - rewrite Hf. by destruct ps as [|[? ?] ?].
  - cbn. unfold page_start. lia.
  - apply (zeros_part _ _ _ 8 _ Hz). cbn. unfold page_bytes, sizeof_modules_page. lia.
  - apply Forall_app. split; [done|]. by apply Forall_cons_2; [|apply Forall_nil_2].
  - apply Forall_forall. intros x Hx. rewrite Hm1 in Hx. pose proof (mi_live _ _ _ _ Hmod) as Hl'. rewrite Forall_forall in Hl'. by apply Ha, Hl'.
  - unfold page_bytes in *. lia.
Qed.
Lemma all_places_app ps qs : all_places (ps ++ qs) = all_places ps ++ all_places qs.
Proof. unfold all_places. by rewrite fmap_app, concat_app. Qed.
Lemma all_places_place ps p ss s : all_places (ps ++ [(p, ss ++ [s])]) = all_places (ps ++ [(p, ss)]) ++ [page_start p + total ss].
Proof. rewrite !all_places_app. unfold all_places at 2 4. cbn. by rewrite !app_nil_r, places_app, (assoc_L (++)). Qed.

Lemma make_module_spec a rf rps res first ps ss extra payload : reg_inv a rf rps res → mod_inv a first ps ss →
  0 ≤ extra ≤ 4056 → Z.of_nat (length payload) = 14 + extra →
  make_module allocate a extra payload = Panic ∨
  ∃ m a' rps' res' ps' ss', make_module allocate a extra payload = Done (m, a') ∧ reg_inv a' rf rps' res' ∧ mod_inv a' first ps' ss' ∧
    entries rps res `sublist_of` entries rps' res' ∧
    all_places (ps' ++ [(m_modules a', ss')]) = all_places (ps ++ [(m_modules a, ss)]) ++ [m].
Proof.
  intros Hreg Hmod He Hpl. unfold make_module, allocate_module. set (size := u64 (sizeof_module + extra)).
  assert (Hsz : size = 16 + extra) by (apply wrap_small; unfold is_word, sizeof_module; lia).
  set (full := u64 _ <? size).
  assert (Hstep : (if full then add_modules allocate a else Done a) = Panic ∨
    ∃ a1 rps1 res1 ps1 ss1, (if full then add_modules allocate a else Done a) = Done a1 ∧ reg_inv a1 rf rps1 res1 ∧ mod_inv a1 first ps1 ss1 ∧
      entries rps res `sublist_of` entries rps1 res1 ∧
      sizeof_modules_page + total ss1 + size + sizeof_module ≤ page_bytes ∧ all_places (ps1 ++ [(m_modules a1, ss1)]) = all_places (ps ++ [(m_modules a, ss)])).
  { destruct full eqn:Ef.
    - destruct (add_modules_spec a rf rps res first ps ss Hreg Hmod) as [->|(a1 & rps1 & res1 & -> & Hr1 & He1 & Hm1)]; [by left|right].
      eexists a1, rps1, res1, _, []. split_and!; try done; [cbn [total foldr]; unfold sizeof_modules_page, sizeof_module, page_bytes; lia|].
      rewrite (all_places_app (ps ++ _)). unfold all_places at 2. cbn. by rewrite app_nil_r.
    - right. eexists a, rps, res, ps, ss. split_and!; try done. apply Z.ltb_ge in Ef. rewrite (mi_next _ _ _ _ Hmod) in Ef.
      pose proof (mi_chain _ _ _ _ Hmod) as Hc. apply mod_chain_app in Hc as [_ [[_ _ _ _ H5] _]].
      unfold page_start, sizeof_modules_page, sizeof_module, page_bytes in *. rewrite wrap_small in Ef; [lia|]. unfold is_word.
      pose proof (sizes_total ss). pose proof (mi_chain _ _ _ _ Hmod) as Hc. apply mod_chain_app in Hc as [_ [[_ _ _ H4 _] _]]. specialize (H H4). lia. }
  destruct Hstep as [->|(a1 & rps1 & res1 & ps1 & ss1 & -> & Hr1 & Hm1 & He1 & Hfit & Hpl1)]; [by left|right]. cbn [mbind outcome_bind].
  eexists _, _, rps1, res1, ps1, (ss1 ++ [size]). split; [reflexivity|]. split; [by apply (reg_inv_same a1)|].
  assert (Hu : u64 (m_next_mod a1 + size) = m_next_mod a1 + size).
  { apply wrap_small. unfold is_word. rewrite (mi_next _ _ _ _ Hm1). pose proof (mi_page _ _ _ _ Hm1). pose proof (mi_chain _ _ _ _ Hm1) as Hc.
    apply mod_chain_app in Hc as [_ [[_ _ _ H4 _] [Hw _]]]. pose proof (sizes_total _ H4). unfold page_start, sizeof_modules_page, sizeof_module, page_bytes, phys_limit in *. lia. }
  split; [|split; [done|]].
  - eapply (place_module a1); [exact Hm1| |exact Hfit| | | | |]; cbn [mem live m_modules m_next_mod with_mem with_modules]; try done.
    + unfold sizeof_module. lia.
    + rewrite Hpl. lia.
    + by rewrite (wrap_small 16 size) by (unfold is_word; lia).
  - cbn [m_modules with_mem with_modules]. by rewrite all_places_place, Hpl1, (mi_next _ _ _ _ Hm1).
Qed.

(** The constructor. *)
Lemma add_register_new pm : add_register allocate (Allocator pm ∅ [] 0 0 0) = Panic ∨
  ∃ p a, add_register allocate (Allocator pm ∅ [] 0 0 0) = Done a ∧ reg_inv a p [] [] ∧ m_register a = p ∧ m_modules a = 0.
Proof.
  unfold add_register, firmware_pages. cbn [live]. destruct (allocate [] 1) as [p|] eqn:E; [|by left]. right.
  destruct (Hfw _ 1 _ ltac:(lia) E) as (Hp & _). cbn. eexists p, _. split; [reflexivity|]. split; [|done]. split; cbn; try done.
  - split; [|done]. by rewrite lookup_insert_eq.
  - lia.
  - apply Forall_cons_2; [cbn; lia|apply Forall_nil_2].
  - apply NoDup_singleton.
Qed.
Lemma allocator_new_spec pm : allocator_new allocate pm = Panic ∨
  ∃ a rps res, allocator_new allocate pm = Done a ∧ reg_inv a (m_register a) rps res ∧ mod_inv a (m_modules a) [] [].
Proof.
  unfold allocator_new. destruct (add_register_new pm) as [->|(p & a & -> & Hreg & Hmr & Hmm)]; [by left|]. cbn [mbind outcome_bind]. unfold add_modules.
  destruct (allocate_pages_spec allocate Hfw a p [] [] 1 type_init_args true Hreg ltac:(lia) ltac:(done))
    as [->|(q & a1 & rps' & res' & -> & Hreg' & _ & Hmr' & Hal)]; [by left|right]. cbn [mbind outcome_bind].
  destruct Hal as [(Hq0 & _ & Hq) _ Hql Hm [Hm1 _]]. rewrite Hm1, Hmm. cbn [Z.eqb]. eexists _, rps', res'. split; [reflexivity|].
  assert (Hz : bytes_at (mem a1) q (replicate (Z.to_nat page_bytes) 0)) by (rewrite Hm; cbn [Z.mul]; apply put_bytes_in).
  cbn [m_register m_modules with_modules]. rewrite Hmr', Hmr by (cbn; lia). split; [by apply (reg_inv_same a1)|].
  split; cbn [mem m_modules m_next_mod live with_modules app mod_head mod_chain].
  - split; [by apply mod_page_zero|split; [by apply page_word|done]].
  - reflexivity.
  - cbn. unfold page_start. lia.
  - apply (zeros_part _ _ _ 8 _ Hz). cbn. unfold page_bytes, sizeof_modules_page. lia.
  - by apply Forall_cons_2; [|apply Forall_nil_2].
  - apply Forall_nil_2.
  - unfold page_bytes in *. lia.
Qed.

(** What the loader asks for: pages by the number, and modules that fit a page. *)
Definition call_ok (c : call) : Prop :=
  match c with
  | Pages n t _ => 0 < n < 2 ^ 32 ∧ t ≠ 0
  | Module extra payload => 0 ≤ extra ≤ 4056 ∧ Z.of_nat (length payload) = 14 + extra
  end.
(** The allocations and the modules that calls with their results made. *)
Definition page_calls (cs : list call) (rs : list Z) : list page_allocation :=
  omap (λ x, match x.1 with Pages n t _ => Some (Allocation x.2 n t) | Module _ _ => None end) (zip cs rs).
Definition module_calls (cs : list call) (rs : list Z) : list Z :=
  omap (λ x, match x.1 with Module _ _ => Some x.2 | Pages _ _ _ => None end) (zip cs rs).

Lemma calls_spec cs a rf rps res first ps ss : reg_inv a rf rps res → mod_inv a first ps ss → Forall call_ok cs →
  run allocate cs a = Panic ∨
  ∃ rs a' rps' res' ps' ss', run allocate cs a = Done (rs, a') ∧ reg_inv a' rf rps' res' ∧ mod_inv a' first ps' ss' ∧
    entries rps res ++ page_calls cs rs `sublist_of` entries rps' res' ∧
    all_places (ps' ++ [(m_modules a', ss')]) = all_places (ps ++ [(m_modules a, ss)]) ++ module_calls cs rs.
Proof.
  revert a rps res ps ss. induction cs as [|c cs IH]; intros a rps res ps ss Hreg Hmod Hok; cbn [run].
  - right. eexists [], a, rps, res, ps, ss. by rewrite !app_nil_r.
  - apply Forall_cons in Hok as [Hc Hok]. destruct c as [n t z|extra payload]; cbn [call_ok] in Hc; destruct Hc as [Hc1 Hc2].
    + destruct (allocate_pages_spec allocate Hfw a rf rps res n t z Hreg Hc1 Hc2) as [->|(p & a1 & rps1 & res1 & -> & Hr1 & He1 & _ & Hal)]; [by left|].
      cbn [mbind outcome_bind]. pose proof (mod_inv_allocated _ _ _ _ _ _ _ _ Hmod Hal ltac:(lia)) as Hm1.
      destruct (IH a1 rps1 res1 ps ss Hr1 Hm1 Hok) as [->|(rs & a' & rps' & res' & ps' & ss' & -> & Hr & Hm & Hs & Hp)]; [by left|right]. cbn [mbind outcome_bind].
      eexists (p :: rs), a', rps', res', ps', ss'. split_and!; try done.
      * unfold page_calls in *. cbn. by rewrite He1, <-(assoc_L (++)) in Hs.
      * rewrite Hp. by rewrite (proj1 (al_modules _ _ _ _ _ Hal)).
    + destruct (make_module_spec a rf rps res first ps ss extra payload Hreg Hmod Hc1 Hc2) as [->|(m & a1 & rps1 & res1 & ps1 & ss1 & -> & Hr1 & Hm1 & He1 & Hp1)]; [by left|].
      cbn [mbind outcome_bind]. destruct (IH a1 rps1 res1 ps1 ss1 Hr1 Hm1 Hok) as [->|(rs & a' & rps' & res' & ps' & ss' & -> & Hr & Hm & Hs & Hp)]; [by left|right].
      cbn [mbind outcome_bind]. eexists (m :: rs), a', rps', res', ps', ss'. split_and!; try done.
      * unfold page_calls in *. cbn. etrans; [|exact Hs]. by apply sublist_app.
      * rewrite Hp, Hp1, <-(assoc_L (++)). done.
Qed.
End modules.

(** ** What the kernel and the init server find *)

(** The loader's allocations from the constructor: the first register and page of modules, and the results of calls. *)
Definition boot_allocations (allocate : list (Z * Z) → Z → option Z) (pm : physical) (cs : list call) : outcome (Z * Z * list Z * allocator) :=
  let* a := allocator_new allocate pm in
  let* (rs, a') := run allocate cs a in
  Done (m_register a, m_modules a, rs, a').
Lemma boot_allocations_spec allocate pm cs : firmware_ok allocate → Forall call_ok cs →
  boot_allocations allocate pm cs = Panic ∨
  ∃ first mods rs a rps res ps ss, boot_allocations allocate pm cs = Done (first, mods, rs, a) ∧ reg_inv a first rps res ∧ mod_inv a mods ps ss ∧
    page_calls cs rs `sublist_of` entries rps res ∧ all_places (ps ++ [(m_modules a, ss)]) = module_calls cs rs.
Proof.
  intros Hfw Hok. unfold boot_allocations. destruct (allocator_new_spec allocate Hfw pm) as [->|(a & rps & res & -> & Hr & Hm)]; [by left|]. cbn [mbind outcome_bind].
  destruct (calls_spec allocate Hfw cs a _ _ _ _ _ _ Hr Hm Hok) as [->|(rs & a' & rps' & res' & ps' & ss' & -> & Hr' & Hm' & Hs & Hp)]; [by left|right]. cbn [mbind outcome_bind].
  eexists _, _, rs, a', rps', res', ps', ss'. split_and!; try done. etrans; [|exact Hs]. by apply sublist_inserts_l.
Qed.

(** The kernel finds every allocation of the boot loader: after any calls, the kernel's walk over the registers from the
    first one returns the allocations, those of the calls for pages in their order among them, and the firmware's pages in use
    are these allocations and the pages of the registers, with no others. *)
Theorem register_roundtrip allocate pm cs first mods rs a : firmware_ok allocate → Forall call_ok cs →
  boot_allocations allocate pm cs = Done (first, mods, rs, a) →
  ∃ l regs, kernel_walk (S (length regs)) (registers a) first = Done l ∧ page_calls cs rs `sublist_of` l ∧
    live a ≡ₚ (pages_of <$> l) ++ ((λ r, (r, 1)) <$> regs).
Proof.
  intros Hfw Hok E. destruct (boot_allocations_spec _ pm cs Hfw Hok) as [E'|(f & m & rs' & a' & rps & res & ps & ss & E' & Hr & _ & Hs & _)]; rewrite E in E'; [done|].
  injection E' as <- <- <- <-. exists (entries rps res), (rps ++ [(m_register a, res)]).*1.
  assert (He : entries rps res = concat (rps ++ [(m_register a, res)]).*2) by (unfold entries; rewrite fmap_app, concat_app; cbn; by rewrite app_nil_r).
  split; [|split; [done|]].
  - rewrite (ri_first _ _ _ _ Hr), He. apply kernel_walk_spec; [apply Hr|apply Hr|apply Hr|]. rewrite length_fmap. lia.
  - rewrite (ri_live _ _ _ _ Hr), He. by rewrite <-list_fmap_compose.
Qed.

(** The init server finds every module of the boot loader: after any calls, its walk over the pages of modules returns the
    modules that were made, in order and with no others, whatever data they hold. *)
Theorem modules_roundtrip allocate pm cs first mods rs a : firmware_ok allocate → Forall call_ok cs →
  boot_allocations allocate pm cs = Done (first, mods, rs, a) →
  ∃ n, ∀ fuel, (n < fuel)%nat → load_modules fuel (mem a) mods = Done (module_calls cs rs).
Proof.
  intros Hfw Hok E. destruct (boot_allocations_spec _ pm cs Hfw Hok) as [E'|(f & m & rs' & a' & rps & res & ps & ss & E' & _ & Hm & _ & Hp)]; rewrite E in E'; [done|].
  injection E' as <- <- <- <-. exists (length (ps ++ [(m_modules a, ss)])). intros fuel Hf. rewrite (mi_first _ _ _ _ Hm), <-Hp. by apply load_modules_spec; [apply Hm|].
Qed.

(** ** Witnesses *)

(** A firmware that gives the pages above those in use. *)
Definition above (l : list (Z * Z)) : Z := foldr (λ x t, Z.max (x.1 + x.2 * page_bytes) t) page_bytes l.
Definition bump (l : list (Z * Z)) (n : Z) : option Z :=
  let p := (above l + (page_bytes - 1)) / page_bytes * page_bytes in if p + n * page_bytes <=? phys_limit then Some p else None.
Lemma above_bound l : page_bytes ≤ above l ∧ ∀ q k, (q, k) ∈ l → q + k * page_bytes ≤ above l.
Proof.
  induction l as [|[q k] l [H1 H2]]; cbn [above foldr fst snd].
  - split; [done|]. by intros q k ?%not_elem_of_nil.
  - fold (above l). split; [lia|]. intros q' k' [[= -> ->]|Hin]%elem_of_cons; [lia|]. specialize (H2 _ _ Hin). lia.
Qed.
Lemma bump_ok : firmware_ok bump.
Proof.
  intros l n p Hn. unfold bump. destruct (above_bound l) as [H1 H2]. destruct (Z.leb_spec ((above l + (page_bytes - 1)) / page_bytes * page_bytes + n * page_bytes) phys_limit) as [Hle|]; [|done].
  intros [= <-]. unfold page_bytes in *.
  pose proof (Z.mul_div_le (above l + (0x1000 - 1)) 0x1000 ltac:(lia)). pose proof (Z.mul_succ_div_gt (above l + (0x1000 - 1)) 0x1000 ltac:(lia)).
  assert (Hge : above l ≤ (above l + (0x1000 - 1)) / 0x1000 * 0x1000) by lia. split; [lia|]. split; [by apply Z.mod_mul|]. split; [lia|].
  intros q k Hin. right. specialize (H2 _ _ Hin). unfold page_bytes in *. lia.
Qed.
Definition sample_calls : list call := [Pages 3 1 false; Module 16 (replicate 30 7); Pages 1 2 true; Module 4056 (replicate 4070 9)].
Definition is_done {A} (x : outcome A) : bool := match x with Done _ => true | _ => false end.
Lemma sample_calls_ok : Forall call_ok sample_calls.
Proof. repeat (apply Forall_cons_2; [cbn [call_ok]; rewrite ?length_replicate; lia|]). apply Forall_nil_2. Qed.
Lemma sample_done : is_done (boot_allocations bump ∅ sample_calls) = true.
Proof. by vm_compute. Qed.

Lemma register_roundtrip_witness : ∃ first mods rs a l (regs : list Z), boot_allocations bump ∅ sample_calls = Done (first, mods, rs, a) ∧
  kernel_walk (S (length regs)) (registers a) first = Done l ∧ page_calls sample_calls rs `sublist_of` l.
Proof.
  pose proof sample_done as H. destruct (boot_allocations bump ∅ sample_calls) as [[[[first mods] rs] a]| | |] eqn:E; try discriminate H.
  destruct (register_roundtrip bump ∅ sample_calls first mods rs a bump_ok sample_calls_ok E) as (l & regs & H1 & H2 & _). exists first, mods, rs, a, l, regs. exact (conj eq_refl (conj H1 H2)).
Defined.
Lemma modules_roundtrip_witness : ∃ first mods rs a fuel, boot_allocations bump ∅ sample_calls = Done (first, mods, rs, a) ∧
  load_modules fuel (mem a) mods = Done (module_calls sample_calls rs).
Proof.
  pose proof sample_done as H. destruct (boot_allocations bump ∅ sample_calls) as [[[[first mods] rs] a]| | |] eqn:E; try discriminate H.
  destruct (modules_roundtrip bump ∅ sample_calls first mods rs a bump_ok sample_calls_ok E) as (n & Hn). exists first, mods, rs, a, (S n). split; [reflexivity|]. apply Hn. lia.
Defined.
