(* ===== verification/LinkedList.v ===== *)
(** * util::linked_list

    Models src/libraries/util/include/util/linked_list.h on an explicit heap of nodes: a
    [list_node] holds its item and the two link pointers, a [linked_list] the head and tail
    pointers and the cached count.  Pointers are [option loc], [None] is [nullptr], and following
    a pointer that is not in the heap is undefined.  [is_list h l xs] relates a heap and a list
    object to the sequence [xs] of its nodes; each operation is shown to refine the corresponding
    operation on sequences and to leave every other node of the heap alone, so that several lists
    (the run queues of the scheduler) can share one heap. *)
From Stdlib Require Import Sorting.Sorted.
From S2P Require Import Prelude.

Abbreviation loc := positive.

Record list_node (T : Type) := ListNode {
  item : T;
  m_next : option loc;
  m_prev : option loc;
}.
Arguments ListNode {T} _ _ _.
Arguments item {T} _.
Arguments m_next {T} _.
Arguments m_prev {T} _.

Record linked_list := LinkedList {
  m_head : option loc;
  m_tail : option loc;
  m_count : Z;
}.

Section operations.
Context {T : Type}.
Implicit Types (h : gmap loc (list_node T)) (l : linked_list) (p q it : loc).

(** ** Node accessors and list_node's private operations *)
Definition next h p : outcome (option loc) := let* n := deref (h !! p) in Done (m_next n).
Definition prev h p : outcome (option loc) := let* n := deref (h !! p) in Done (m_prev n).

Definition set_next h p (v : option loc) : outcome (gmap loc (list_node T)) :=
  let* n := deref (h !! p) in Done (<[p := ListNode (item n) v (m_prev n)]> h).
Definition set_prev h p (v : option loc) : outcome (gmap loc (list_node T)) :=
  let* n := deref (h !! p) in Done (<[p := ListNode (item n) (m_next n) v]> h).

(** [if (q) q->m_prev = v] and [if (q) q->m_next = v]. *)
Definition set_prev_if h (q v : option loc) : outcome (gmap loc (list_node T)) :=
  match q with Some q => set_prev h q v | None => Done h end.
Definition set_next_if h (q v : option loc) : outcome (gmap loc (list_node T)) :=
  match q with Some q => set_next h q v | None => Done h end.

Definition node_insert_after h (this it : loc) : outcome (gmap loc (list_node T)) :=
  let* nx := next h this in
  let* h := set_prev_if h nx (Some it) in
  let* nx := next h this in
  let* h := set_next h it nx in
  let* h := set_prev h it (Some this) in
  set_next h this (Some it).

Definition node_insert_before h (this it : loc) : outcome (gmap loc (list_node T)) :=
  let* pv := prev h this in
  let* h := set_next_if h pv (Some it) in
  let* pv := prev h this in
  let* h := set_prev h it pv in
  let* h := set_next h it (Some this) in
  set_prev h this (Some it).

Definition node_remove h (this : loc) : outcome (gmap loc (list_node T)) :=
  let* nx := next h this in
  let* pv := prev h this in
  let* h := set_prev_if h nx pv in
  let* nx := next h this in
  let* pv := prev h this in
  let* h := set_next_if h pv nx in
  let* h := set_prev h this None in
  set_next h this None.

(** ** linked_list *)
Definition empty_list : linked_list := LinkedList None None 0.

(** Move construction and move assignment: the new list, and the emptied source. *)
Definition move_list (other : linked_list) : linked_list * linked_list := (other, empty_list).

Definition is_empty l : bool := bool_decide (m_head l = None).
Definition list_length l : Z := m_count l.

(** The loop of [count_length]. *)
Fixpoint count_from (fuel : nat) h (cur : option loc) (len : Z) : outcome Z :=
  match cur with
  | None => Done len
  | Some p =>
      match fuel with
      | O => Diverge
      | S fuel => let* nx := next h p in count_from fuel h nx (u64 (len + 1))
      end
  end.

Definition count_length l h : outcome (Z * linked_list) :=
  let* len := count_from (size h) h (m_head l) 0 in
  Done (len, LinkedList (m_head l) (m_tail l) len).

Definition push_front l h (itm : option loc) : outcome (linked_list * gmap loc (list_node T)) :=
  match itm with
  | None => Done (l, h)
  | Some it =>
      let* (l, h) :=
        match m_head l with
        | None =>
            let* h := set_prev h it None in
            let* h := set_next h it None in
            Done (LinkedList (Some it) (Some it) (m_count l), h)
        | Some hd =>
            let* h := set_prev h hd (Some it) in
            let* h := set_next h it (Some hd) in
            let* h := set_prev h it None in
            Done (LinkedList (Some it) (m_tail l) (m_count l), h)
        end in
      Done (LinkedList (m_head l) (m_tail l) (u64 (m_count l + 1)), h)
  end.

Definition push_back l h (itm : option loc) : outcome (linked_list * gmap loc (list_node T)) :=
  match itm with
  | None => Done (l, h)
  | Some it =>
      let* (l, h) :=
        match m_tail l with
        | None =>
            let* h := set_prev h it None in
            let* h := set_next h it None in
            Done (LinkedList (Some it) (Some it) (m_count l), h)
        | Some tl =>
            let* h := set_next h tl (Some it) in
            let* h := set_prev h it (Some tl) in
            let* h := set_next h it None in
            Done (LinkedList (m_head l) (Some it) (m_count l), h)
        end in
      Done (LinkedList (m_head l) (m_tail l) (u64 (m_count l + 1)), h)
  end.

Definition remove l h (itm : option loc) : outcome (linked_list * gmap loc (list_node T)) :=
  match itm with
  | None => Done (l, h)
  | Some it =>
      let* hd := if bool_decide (Some it = m_head l) then next h it else Done (m_head l) in
      let* tl := if bool_decide (Some it = m_tail l) then prev h it else Done (m_tail l) in
      let* h := node_remove h it in
      Done (LinkedList hd tl (u64 (m_count l - 1)), h)
  end.

Definition pop_front l h : outcome (option loc * linked_list * gmap loc (list_node T)) :=
  let itm := m_head l in
  let* (l, h) := remove l h itm in
  Done (itm, l, h).

Definition pop_back l h : outcome (option loc * linked_list * gmap loc (list_node T)) :=
  let itm := m_tail l in
  let* (l, h) := remove l h itm in
  Done (itm, l, h).

(** [append]: the list that grows and the emptied argument. *)
Definition append l (other : linked_list) h
    : outcome (linked_list * linked_list * gmap loc (list_node T)) :=
  match m_head other with
  | None => Done (l, other, h)
  | Some _ =>
      let* (hd, h) :=
        match m_tail l with
        | None => Done (m_head other, h)
        | Some tl => let* h := set_next h tl (m_head other) in Done (m_head l, h)
        end in
      Done (LinkedList hd (m_tail other) (u64 (m_count l + m_count other)), empty_list, h)
  end.

Definition insert_before l h (existing itm : option loc)
    : outcome (linked_list * gmap loc (list_node T)) :=
  match itm with
  | None => Done (l, h)
  | Some it =>
      match existing with
      | None => push_back l h itm
      | Some e =>
          if bool_decide (Some e = m_head l) then push_front l h itm
          else
            let* h := node_insert_before h e it in
            Done (LinkedList (m_head l) (m_tail l) (u64 (m_count l + 1)), h)
      end
  end.

Definition insert_after l h (existing itm : option loc)
    : outcome (linked_list * gmap loc (list_node T)) :=
  match itm with
  | None => Done (l, h)
  | Some it =>
      match existing with
      | None => push_front l h itm
      | Some e =>
          if bool_decide (Some e = m_tail l) then push_back l h itm
          else
            let* h := node_insert_after h e it in
            Done (LinkedList (m_head l) (m_tail l) (u64 (m_count l + 1)), h)
      end
  end.

(** [int compare(const T *other)] is a method the item type supplies. *)
Context (compare : T → T → Z).

(** The search loop of [sorted_insert]. *)
Fixpoint sorted_pos (fuel : nat) h (x : T) (cur : option loc) : outcome (option loc) :=
  match cur with
  | None => Done None
  | Some p =>
      match fuel with
      | O => Diverge
      | S fuel =>
          let* n := deref (h !! p) in
          if compare x (item n) >? 0 then sorted_pos fuel h x (m_next n) else Done cur
      end
  end.

Definition sorted_insert l h (itm : option loc) : outcome (linked_list * gmap loc (list_node T)) :=
  match itm with
  | None => Done (l, h)
  | Some it =>
      let* n := deref (h !! it) in
      let* cur := sorted_pos (size h) h (item n) (m_head l) in
      insert_before l h cur itm
  end.

End operations.

(** ** The sequence a list object stands for *)
Section sequences.
Context {T : Type}.
Implicit Types (h : gmap loc (list_node T)) (l : linked_list) (p q it : loc) (xs ys : list loc).

(** The pointer to the first node of [xs], or [d] when there is none; dually the last one. *)
Definition first_or xs (d : option loc) : option loc := match xs with [] => d | x :: _ => Some x end.
Definition last_or xs (d : option loc) : option loc := match last xs with Some x => Some x | None => d end.

(** The nodes [xs] are chained in both directions between [pv] and [nx]. *)
Fixpoint seg h (pv : option loc) xs (nx : option loc) : Prop :=
  match xs with
  | [] => True
  | x :: xs =>
      (∃ v, h !! x = Some (ListNode v (first_or xs nx) pv)) ∧ seg h (Some x) xs nx
  end.

Record is_list h l xs : Prop := {
  il_nodup : NoDup xs;
  il_seg : seg h None xs None;
  il_head : m_head l = head xs;
  il_tail : m_tail l = last xs;
  il_count : m_count l = u64 (Z.of_nat (length xs));
}.

(** What an operation on a list whose nodes are [xs] may change: the links of [xs] only. *)
Definition links_only h h' xs : Prop :=
  (∀ p, p ∉ xs → h' !! p = h !! p) ∧ (∀ p, item <$> h' !! p = item <$> h !! p).

Lemma last_or_snoc xs x d : last_or (xs ++ [x]) d = Some x.
Proof. unfold last_or. by rewrite last_snoc. Qed.

Lemma last_or_cons x xs d : last_or (x :: xs) d = last_or xs (Some x).
Proof. unfold last_or. rewrite last_cons. by destruct (last xs). Qed.

Lemma first_or_head xs : first_or xs None = head xs.
Proof. by destruct xs. Qed.

Lemma last_or_last xs : last_or xs None = last xs.
Proof. unfold last_or. by destruct (last xs). Qed.

Lemma seg_app h pv xs ys nx :
  seg h pv (xs ++ ys) nx ↔ seg h pv xs (first_or ys nx) ∧ seg h (last_or xs pv) ys nx.
Proof.
  revert pv. induction xs as [|x xs IH]; intros pv; [simpl; tauto|].
  cbn [app seg]. rewrite IH, last_or_cons.
  replace (first_or (xs ++ ys) nx) with (first_or xs (first_or ys nx)) by by destruct xs.
  tauto.
Qed.

Lemma seg_agree h h' pv xs nx :
  (∀ p, p ∈ xs → h' !! p = h !! p) → seg h pv xs nx → seg h' pv xs nx.
Proof.
  revert pv. induction xs as [|x xs IH]; intros pv Ha; [done|]. intros [Hx Hs]. split.
  - rewrite Ha; [done|left].
  - apply IH; [|done]. intros. apply Ha. by right.
Qed.

Lemma seg_insert h pv xs nx p n : p ∉ xs → seg h pv xs nx → seg (<[p := n]> h) pv xs nx.
Proof.
  intros Hp. apply seg_agree. intros q Hq. apply lookup_insert_ne. by intros ->.
Qed.

Lemma seg_in h pv xs nx p : seg h pv xs nx → p ∈ xs → is_Some (h !! p).
Proof.
  revert pv. induction xs as [|x xs IH]; intros pv; [intros _; by intros ?%elem_of_nil|].
  intros [[v Hx] Hs] [->|Hp]%elem_of_cons; [by eexists|eauto].
Qed.

Lemma seg_length h pv xs nx : NoDup xs → seg h pv xs nx → (length xs ≤ size h)%nat.
Proof.
  intros Hnd Hs. rewrite <- (size_list_to_set (C:=gset loc) xs Hnd), <- (size_dom (D:=gset loc)).
  apply subseteq_size. intros p Hp%elem_of_list_to_set. apply elem_of_dom. by eapply seg_in.
Qed.

(** The updates the setters perform, as total functions on heaps. *)
Definition upd_next p (v : option loc) h := alter (λ n, ListNode (item n) v (m_prev n)) p h.
Definition upd_prev p (v : option loc) h := alter (λ n, ListNode (item n) (m_next n) v) p h.
Definition upd_next_if (o v : option loc) h := match o with Some p => upd_next p v h | None => h end.
Definition upd_prev_if (o v : option loc) h := match o with Some p => upd_prev p v h | None => h end.

Lemma set_next_upd h p v : is_Some (h !! p) → set_next h p v = Done (upd_next p v h).
Proof.
  intros [n Hn]. unfold set_next, upd_next. rewrite Hn. simpl. f_equal.
  apply map_eq. intros q. destruct (decide (p = q)) as [<-|]; simplify_map_eq; done.
Qed.

Lemma set_prev_upd h p v : is_Some (h !! p) → set_prev h p v = Done (upd_prev p v h).
Proof.
  intros [n Hn]. unfold set_prev, upd_prev. rewrite Hn. simpl. f_equal.
  apply map_eq. intros q. destruct (decide (p = q)) as [<-|]; simplify_map_eq; done.
Qed.

Lemma upd_next_is_Some h p v q : is_Some (upd_next p v h !! q) ↔ is_Some (h !! q).
Proof. apply lookup_alter_is_Some. Qed.

Lemma upd_prev_is_Some h p v q : is_Some (upd_prev p v h !! q) ↔ is_Some (h !! q).
Proof. apply lookup_alter_is_Some. Qed.

Lemma upd_next_if_is_Some h o v q : is_Some (upd_next_if o v h !! q) ↔ is_Some (h !! q).
Proof. destruct o; [apply upd_next_is_Some|done]. Qed.

Lemma upd_prev_if_is_Some h o v q : is_Some (upd_prev_if o v h !! q) ↔ is_Some (h !! q).
Proof. destruct o; [apply upd_prev_is_Some|done]. Qed.

Lemma set_next_if_upd h o v :
  (∀ p, o = Some p → is_Some (h !! p)) → set_next_if h o v = Done (upd_next_if o v h).
Proof. destruct o; [|done]. intros H. apply set_next_upd. by apply H. Qed.

Lemma set_prev_if_upd h o v :
  (∀ p, o = Some p → is_Some (h !! p)) → set_prev_if h o v = Done (upd_prev_if o v h).
Proof. destruct o; [|done]. intros H. apply set_prev_upd. by apply H. Qed.

Lemma next_upd_prev_if h o v q : next (upd_prev_if o v h) q = next h q.
Proof.
  destruct o as [p|]; [|done]. unfold next, upd_prev_if, upd_prev. simpl.
  destruct (decide (p = q)) as [<-|]; [rewrite lookup_alter_eq|by rewrite lookup_alter_ne].
  by destruct (h !! p).
Qed.

Lemma prev_upd_next_if h o v q : prev (upd_next_if o v h) q = prev h q.
Proof.
  destruct o as [p|]; [|done]. unfold prev, upd_next_if, upd_next. simpl.
  destruct (decide (p = q)) as [<-|]; [rewrite lookup_alter_eq|by rewrite lookup_alter_ne].
  by destruct (h !! p).
Qed.

(** Updating a node outside a segment, or relinking one of its ends. *)
Lemma seg_upd_next_other h pv xs nx p v : p ∉ xs → seg h pv xs nx → seg (upd_next p v h) pv xs nx.
Proof. intros Hp. apply seg_agree. intros q Hq. apply lookup_alter_ne. by intros ->. Qed.

Lemma seg_upd_prev_other h pv xs nx p v : p ∉ xs → seg h pv xs nx → seg (upd_prev p v h) pv xs nx.
Proof. intros Hp. apply seg_agree. intros q Hq. apply lookup_alter_ne. by intros ->. Qed.

Lemma seg_relink_next h pv xs nx nx' :
  NoDup xs → seg h pv xs nx → seg (upd_next_if (last xs) nx' h) pv xs nx'.
Proof.
  destruct xs as [|p xs _] using rev_ind; [done|].
  intros Hnd [Hs Hp]%seg_app. rewrite last_snoc. simpl in *.
  apply NoDup_app in Hnd as (_ & Hx & _). apply seg_app. split.
  - apply seg_upd_next_other; [|done]. intros Hin. by apply (Hx p); [|left].
  - destruct Hp as [[v Hv] _]. simpl. split; [|done]. exists v.
    unfold upd_next. by rewrite lookup_alter_eq, Hv.
Qed.

Lemma seg_relink_prev h pv pv' xs nx :
  NoDup xs → seg h pv xs nx → seg (upd_prev_if (head xs) pv' h) pv' xs nx.
Proof.
  destruct xs as [|p xs]; [done|]. intros [Hp Hnd]%NoDup_cons [[v Hv] Hs]. simpl. split.
  - exists v. unfold upd_prev. by rewrite lookup_alter_eq, Hv.
  - by apply seg_upd_prev_other.
Qed.

Lemma links_only_trans h1 h2 h3 xs :
  links_only h1 h2 xs → links_only h2 h3 xs → links_only h1 h3 xs.
Proof. intros [H1 H2] [H3 H4]. split; intros; [rewrite H3, H1|rewrite H4, H2]; done. Qed.

Lemma links_only_alter h xs p (f : list_node T → list_node T) :
  (∀ n, item (f n) = item n) → p ∈ xs → links_only h (alter f p h) xs.
Proof.
  intros Hf Hin. split.
  - intros q Hq. apply lookup_alter_ne. by intros ->.
  - intros q. destruct (decide (p = q)) as [<-|]; [|by rewrite lookup_alter_ne].
    rewrite lookup_alter_eq. destruct (h !! p); [|done]. simpl. by rewrite Hf.
Qed.

Lemma links_only_upd_next h h' xs p v :
  p ∈ xs → links_only h h' xs → links_only h (upd_next p v h') xs.
Proof. intros Hp Hl. eapply links_only_trans; [exact Hl|]. by apply links_only_alter. Qed.

Lemma links_only_upd_prev h h' xs p v :
  p ∈ xs → links_only h h' xs → links_only h (upd_prev p v h') xs.
Proof. intros Hp Hl. eapply links_only_trans; [exact Hl|]. by apply links_only_alter. Qed.

Lemma links_only_upd_next_if h h' xs o v :
  (∀ p, o = Some p → p ∈ xs) → links_only h h' xs → links_only h (upd_next_if o v h') xs.
Proof. destruct o; [|done]. intros H. by apply links_only_upd_next, H. Qed.

Lemma links_only_upd_prev_if h h' xs o v :
  (∀ p, o = Some p → p ∈ xs) → links_only h h' xs → links_only h (upd_prev_if o v h') xs.
Proof. destruct o; [|done]. intros H. by apply links_only_upd_prev, H. Qed.

Lemma links_only_refl h xs : links_only h h xs.
Proof. done. Qed.

Lemma links_only_mono h h' xs ys : xs ⊆ ys → links_only h h' xs → links_only h h' ys.
Proof. intros Hs [H1 H2]. split; [|done]. intros p Hp. apply H1. set_solver. Qed.

(** ** Splicing a node in and out of a sequence

    [it] sits between [xs] and [ys]; the heap [h'] has the inner ends of both segments relinked
    and may differ from [h] at [it]. *)
Lemma seg_relink h h' xs ys it pv nx a b :
  NoDup (xs ++ it :: ys) → seg h None xs a → seg h b ys None →
  (∀ p, p ≠ it → h' !! p = upd_prev_if (head ys) pv (upd_next_if (last xs) nx h) !! p) →
  seg h' None xs nx ∧ seg h' pv ys None.
Proof.
  intros Hnd Hx Hy Hh'. apply NoDup_app in Hnd as (Hndx & Hdisj & Hnd).
  apply NoDup_cons in Hnd as [Hity Hndy].
  assert (it ∉ xs) as Hitx by (intros Hin; apply (Hdisj it Hin); left).
  assert (∀ p, p ∈ xs → p ∉ ys) as Hxy by (intros p Hp Hq; apply (Hdisj p Hp); by right).
  split.
  - eapply seg_agree; [|by eapply seg_relink_next].
    intros p Hp. rewrite Hh' by by intros ->.
    destruct ys as [|y ys]; [done|]. apply lookup_alter_ne.
    intros ->. apply (Hxy p); [done|left].
  - eapply seg_agree; [|by eapply (seg_relink_prev h)].
    intros p Hp. rewrite Hh' by by intros ->.
    assert (upd_next_if (last xs) nx h !! p = h !! p) as Hp'.
    { destruct (last xs) as [x|] eqn:Ex; [|done]. apply lookup_alter_ne. intros ->.
      apply (Hxy p); [by apply last_Some_elem_of|done]. }
    destruct ys as [|y ys]; [done|]. unfold upd_prev_if, upd_prev. cbn [head].
    destruct (decide (y = p)) as [->|]; [by rewrite !lookup_alter_eq, Hp'|].
    by rewrite !lookup_alter_ne.
Qed.

Lemma seg_splice h h' xs ys it v :
  NoDup (xs ++ it :: ys) → seg h None (xs ++ ys) None →
  h' !! it = Some (ListNode v (head ys) (last xs)) →
  (∀ p, p ≠ it →
    h' !! p = upd_prev_if (head ys) (Some it) (upd_next_if (last xs) (Some it) h) !! p) →
  seg h' None (xs ++ it :: ys) None.
Proof.
  intros Hnd [Hx Hy]%seg_app Hit Hh'.
  destruct (seg_relink h h' xs ys it (Some it) (Some it) _ _ Hnd Hx Hy Hh').
  apply seg_app. split; [done|]. split; [|done].
  exists v. by rewrite first_or_head, last_or_last.
Qed.

Lemma seg_unsplice h h' xs ys it :
  NoDup (xs ++ it :: ys) → seg h None (xs ++ it :: ys) None →
  (∀ p, p ≠ it →
    h' !! p = upd_prev_if (head ys) (last xs) (upd_next_if (last xs) (head ys) h) !! p) →
  seg h' None (xs ++ ys) None.
Proof.
  intros Hnd [Hx [_ Hy]]%seg_app Hh'. apply seg_app. rewrite first_or_head, last_or_last.
  by apply (seg_relink h h' xs ys it (last xs) (head ys) _ _ Hnd Hx Hy).
Qed.

Lemma head_elem xs p : head xs = Some p → p ∈ xs.
Proof. destruct xs; intros; simplify_eq/=. left. Qed.

End sequences.

(** Run the setters of an operation whose pointers are all in the heap. *)
Ltac upd_some :=
  repeat first [apply upd_next_is_Some | apply upd_prev_is_Some
               | apply upd_next_if_is_Some | apply upd_prev_if_is_Some]; eauto.
Ltac heap_step :=
  repeat first [rewrite bind_Done | rewrite set_next_upd by upd_some | rewrite set_prev_upd by upd_some].
Ltac heap_links :=
  repeat first [apply links_only_upd_next; [set_solver|] | apply links_only_upd_prev; [set_solver|]
               | done].

(** ** The operations refine the operations on sequences *)
Section refinement.
Context {T : Type}.
Implicit Types (h : gmap loc (list_node T)) (l : linked_list) (p q it : loc) (xs ys : list loc).

Lemma is_list_empty h : is_list h empty_list [].
Proof. split; simpl; try done. constructor. Qed.

(** Putting [it] between [xs] and [ys]: what every insertion establishes. *)
Lemma is_list_insert h h' l xs ys it v :
  is_list h l (xs ++ ys) → it ∉ xs ++ ys →
  h' !! it = Some (ListNode v (head ys) (last xs)) →
  (∀ p, p ≠ it →
    h' !! p = upd_prev_if (head ys) (Some it) (upd_next_if (last xs) (Some it) h) !! p) →
  is_list h'
    (LinkedList (first_or xs (Some it)) (last_or ys (Some it)) (u64 (m_count l + 1)))
    (xs ++ it :: ys).
Proof.
  intros Hl Hit Hv Hh'.
  assert (NoDup (xs ++ it :: ys)) as Hnd.
  { rewrite <- Permutation_middle. apply NoDup_cons. split; [done|apply Hl]. }
  split; simpl.
  - done.
  - eapply seg_splice; [done|apply Hl|done..].
  - by destruct xs.
  - rewrite last_app, last_cons. unfold last_or. by destruct (last ys).
  - rewrite (il_count _ _ _ Hl), wrap_add_l by lia. f_equal.
    rewrite !length_app. simpl. lia.
Qed.

Lemma push_front_spec h l xs it :
  is_list h l xs → is_Some (h !! it) → it ∉ xs →
  ∃ l' h', push_front l h (Some it) = Done (l', h') ∧ is_list h' l' (it :: xs) ∧
    links_only h h' (it :: xs).
Proof.
  intros Hl Hn Hit. pose proof Hn as [n Hv]. unfold push_front. rewrite (il_head _ _ _ Hl).
  destruct xs as [|x xs]; cbn [head].
  - heap_step. eexists _, _. split; [done|]. split; [|by heap_links].
    apply (is_list_insert h _ l [] [] it (item n)); [done..| |].
    + unfold upd_next, upd_prev. by simplify_map_eq.
    + intros p Hp. unfold upd_next, upd_prev. simpl. by rewrite !lookup_alter_ne.
  - assert (is_Some (h !! x)) as Hx by (eapply seg_in; [apply Hl|left]).
    heap_step. eexists _, _. split; [done|]. split; [|by heap_links].
    rewrite (il_tail _ _ _ Hl). simpl. rewrite last_cons. fold (last_or xs (Some x)).
    rewrite <- last_or_cons with (d := Some it).
    apply (is_list_insert h _ l [] (x :: xs) it (item n)); [done..| |].
    + apply not_elem_of_cons in Hit as [Hne _]. unfold upd_next, upd_prev. by simplify_map_eq.
    + intros p Hp. unfold upd_next, upd_prev. by rewrite !(lookup_alter_ne _ _ it).
Qed.

Lemma push_back_spec h l xs it :
  is_list h l xs → is_Some (h !! it) → it ∉ xs →
  ∃ l' h', push_back l h (Some it) = Done (l', h') ∧ is_list h' l' (xs ++ [it]) ∧
    links_only h h' (it :: xs).
Proof.
  intros Hl Hn Hit. pose proof Hn as [n Hv]. unfold push_back. rewrite (il_tail _ _ _ Hl).
  destruct xs as [|x xs _] using rev_ind; [|rewrite last_snoc].
  - cbn [last]. heap_step. eexists _, _. split; [done|]. split; [|by heap_links].
    apply (is_list_insert h _ l [] [] it (item n)); [done..| |].
    + unfold upd_next, upd_prev. by simplify_map_eq.
    + intros p Hp. unfold upd_next, upd_prev. simpl. by rewrite !lookup_alter_ne.
  - assert (is_Some (h !! x)) as Hx by (eapply seg_in; [apply Hl|set_solver]).
    heap_step. eexists _, _. split; [done|]. split; [|by heap_links].
    rewrite (il_head _ _ _ Hl). simpl.
    replace (head (xs ++ [x])) with (first_or (xs ++ [x]) (Some it)) by by destruct xs.
    apply (is_list_insert h _ l (xs ++ [x]) [] it (item n)).
    + by rewrite app_nil_r.
    + by rewrite app_nil_r.
    + assert (it ≠ x) by set_solver. rewrite last_snoc.
      unfold upd_next, upd_prev. by simplify_map_eq.
    + intros p Hp. rewrite last_snoc. unfold upd_next, upd_prev. by rewrite !(lookup_alter_ne _ _ it).
Qed.

Lemma seg_mid h pv xs x ys nx :
  seg h pv (xs ++ x :: ys) nx → ∃ v, h !! x = Some (ListNode v (first_or ys nx) (last_or xs pv)).
Proof. by intros [_ [[v Hv] _]]%seg_app; exists v. Qed.

Lemma seg_links h xs x ys :
  seg h None (xs ++ x :: ys) None → next h x = Done (head ys) ∧ prev h x = Done (last xs).
Proof.
  intros [v Hv]%seg_mid. unfold next, prev. rewrite Hv. simpl.
  by rewrite first_or_head, last_or_last.
Qed.

Lemma insert_before_spec h l xs e ys it :
  is_list h l (xs ++ e :: ys) → is_Some (h !! it) → it ∉ xs ++ e :: ys →
  ∃ l' h', insert_before l h (Some e) (Some it) = Done (l', h') ∧
    is_list h' l' (xs ++ it :: e :: ys) ∧ links_only h h' (it :: xs ++ e :: ys).
Proof.
  intros Hl Hn Hit. pose proof Hn as [n Hv]. unfold insert_before. rewrite (il_head _ _ _ Hl).
  destruct xs as [|x xs _] using rev_ind.
  { rewrite bool_decide_eq_true_2 by done. by apply push_front_spec. }
  pose proof (il_nodup _ _ _ Hl) as Hnd.
  rewrite bool_decide_eq_false_2.
  2:{ intros He. symmetry in He. destruct xs; simplify_eq/=; by inversion Hnd; set_solver. }
  destruct (seg_links h (xs ++ [x]) e ys (il_seg _ _ _ Hl)) as [_ Hprev].
  rewrite last_snoc in Hprev.
  assert (is_Some (h !! x)) as Hx by (eapply seg_in; [apply Hl|set_solver]).
  assert (is_Some (h !! e)) as He by (eapply seg_in; [apply Hl|set_solver]).
  unfold node_insert_before. rewrite Hprev. heap_step.
  rewrite set_next_if_upd by (intros ? [= <-]; done).
  heap_step. rewrite prev_upd_next_if, Hprev. heap_step.
  eexists _, _. split; [done|]. split.
  - pose proof (is_list_insert h (upd_prev e (Some it) (upd_next it (Some e) (upd_prev it (Some x)
      (upd_next_if (Some x) (Some it) h)))) l (xs ++ [x]) (e :: ys) it (item n)) as H.
    assert (it ≠ e ∧ it ≠ x) as [Hne Hnx] by set_solver.
    replace (first_or (xs ++ [x]) (Some it)) with (m_head l) in H
      by (rewrite (il_head _ _ _ Hl); by destruct xs).
    replace (last_or (e :: ys) (Some it)) with (m_tail l) in H.
    2:{ rewrite (il_tail _ _ _ Hl), last_or_cons, last_app, last_cons.
        unfold last_or. by destruct (last ys). }
    rewrite <- (il_head _ _ _ Hl). apply H; [done..| |].
    + rewrite last_snoc. unfold upd_prev, upd_next, upd_next_if, upd_next. by simplify_map_eq.
    + intros p Hp. rewrite last_snoc. unfold upd_prev, upd_next, upd_next_if, upd_prev_if, upd_prev, upd_next.
      cbn [head]. destruct (decide (e = p)) as [<-|].
      * rewrite !lookup_alter_eq. f_equal. by rewrite !(lookup_alter_ne _ _ it).
      * rewrite !(lookup_alter_ne _ _ e) by done. by rewrite !(lookup_alter_ne _ _ it).
  - unfold upd_next_if. by heap_links.
Qed.

Lemma insert_after_spec h l xs e ys it :
  is_list h l (xs ++ e :: ys) → is_Some (h !! it) → it ∉ xs ++ e :: ys →
  ∃ l' h', insert_after l h (Some e) (Some it) = Done (l', h') ∧
    is_list h' l' (xs ++ e :: it :: ys) ∧ links_only h h' (it :: xs ++ e :: ys).
Proof.
  intros Hl Hn Hit. pose proof Hn as [n Hv]. unfold insert_after. rewrite (il_tail _ _ _ Hl).
  pose proof (il_nodup _ _ _ Hl) as Hnd. apply NoDup_app in Hnd as (_ & _ & [Hey Hnd]%NoDup_cons).
  destruct ys as [|y ys].
  { rewrite last_snoc, bool_decide_eq_true_2 by done.
    destruct (push_back_spec h l (xs ++ [e]) it) as (l' & h' & H1 & H2 & H3); [done..|].
    exists l', h'. by rewrite <- app_assoc in H2. }
  rewrite bool_decide_eq_false_2.
  2:{ intros He. symmetry in He. rewrite last_app in He. simpl in He.
      destruct (last_is_Some (y :: ys)) as [_ [z Hz]]; [done|].
      cbn [last] in Hz, He. rewrite Hz in He. simplify_eq. by apply Hey, last_Some_elem_of. }
  destruct (seg_links h xs e (y :: ys) (il_seg _ _ _ Hl)) as [Hnext _].
  assert (is_Some (h !! y)) as Hy by (eapply seg_in; [apply Hl|set_solver]).
  assert (is_Some (h !! e)) as He by (eapply seg_in; [apply Hl|set_solver]).
  unfold node_insert_after. rewrite Hnext. heap_step.
  rewrite set_prev_if_upd by (intros ? [= <-]; done).
  heap_step. rewrite next_upd_prev_if, Hnext. heap_step.
  eexists _, _. split; [done|]. split.
  - pose proof (is_list_insert h (upd_next e (Some it) (upd_prev it (Some e) (upd_next it (Some y)
      (upd_prev_if (Some y) (Some it) h)))) l (xs ++ [e]) (y :: ys) it (item n)) as H.
    rewrite <- !app_assoc, last_snoc in H.
    assert (it ≠ e ∧ it ≠ y ∧ e ≠ y) as (Hne & Hny & Hey') by set_solver.
    replace (first_or (xs ++ [e]) (Some it)) with (m_head l) in H
      by (rewrite (il_head _ _ _ Hl); by destruct xs).
    replace (last_or (y :: ys) (Some it)) with (m_tail l) in H.
    2:{ rewrite (il_tail _ _ _ Hl). unfold last_or. rewrite last_app, !last_cons. by destruct (last ys). }
    rewrite <- (il_tail _ _ _ Hl). apply H; [done..| |].
    + unfold upd_prev, upd_next, upd_prev_if, upd_prev. by simplify_map_eq.
    + intros p Hp. unfold upd_prev, upd_next, upd_next_if, upd_prev_if, upd_prev, upd_next.
      cbn [head]. rewrite (alter_alter_ne _ _ h y e) by done.
      destruct (decide (e = p)) as [<-|].
      * rewrite !lookup_alter_eq. f_equal. by rewrite !(lookup_alter_ne _ _ it).
      * rewrite !(lookup_alter_ne _ _ e) by done. by rewrite !(lookup_alter_ne _ _ it).
  - unfold upd_prev_if. by heap_links.
Qed.

Lemma remove_head h l xs it ys :
  is_list h l (xs ++ it :: ys) →
  (if bool_decide (Some it = m_head l) then Done (head ys) else Done (m_head l))
  = Done (first_or xs (head ys)).
Proof.
  intros [Hnd _ -> _ _]. apply NoDup_app in Hnd as (_ & Hd & _).
  case_bool_decide as Hb; destruct xs as [|x xs]; simplify_eq/=; [done|exfalso|done].
  by apply (Hd x); left.
Qed.

Lemma remove_tail h l xs it ys :
  is_list h l (xs ++ it :: ys) →
  (if bool_decide (Some it = m_tail l) then Done (last xs) else Done (m_tail l))
  = Done (last_or ys (last xs)).
Proof.
  intros [Hnd _ _ -> _]. rewrite last_app, last_cons. unfold last_or.
  apply NoDup_app in Hnd as (_ & _ & [Hd _]%NoDup_cons).
  destruct (last ys) as [y|] eqn:Ey; [|by rewrite bool_decide_eq_true_2].
  rewrite bool_decide_eq_false_2; [done|]. intros [= ->]. by apply Hd, last_Some_elem_of.
Qed.

Lemma lookup_cleared h p n :
  h !! p = Some n → upd_next p None (upd_prev p None h) !! p = Some (ListNode (item n) None None).
Proof. intros Hn. unfold upd_next, upd_prev. by rewrite !lookup_alter_eq, Hn. Qed.

(** Removing a node of the list unlinks exactly that node, and clears its links. *)
Lemma remove_spec h l xs it ys :
  is_list h l (xs ++ it :: ys) →
  ∃ l' h', remove l h (Some it) = Done (l', h') ∧ is_list h' l' (xs ++ ys) ∧
    links_only h h' (xs ++ it :: ys) ∧ next h' it = Done None ∧ prev h' it = Done None.
Proof.
  intros Hl. destruct (seg_links h xs it ys (il_seg _ _ _ Hl)) as [Hnext Hprev].
  pose proof (il_nodup _ _ _ Hl) as Hnd.
  assert (∀ p, p ∈ xs ++ it :: ys → is_Some (h !! p)) as Hin by (intros; eapply seg_in; [apply Hl|done]).
  assert (∀ p, head ys = Some p → p ∈ xs ++ it :: ys) as Hhd
    by (intros p Hp%head_elem; set_solver).
  assert (∀ p, last xs = Some p → p ∈ xs ++ it :: ys) as Hla
    by (intros p Hp%last_Some_elem_of; set_solver).
  assert (is_Some (h !! it)) as Hit by (apply Hin; set_solver).
  unfold remove. rewrite Hnext, Hprev.
  rewrite (remove_head h l xs it ys Hl), (remove_tail h l xs it ys Hl).
  unfold node_remove. rewrite Hnext, !bind_Done, Hprev, bind_Done.
  rewrite set_prev_if_upd by auto. rewrite bind_Done, next_upd_prev_if, Hnext, bind_Done.
  set (h1 := upd_prev_if (head ys) (last xs) h).
  assert (prev h1 it = Done (last xs)) as ->.
  { unfold h1, prev. destruct ys as [|y ys]; [done|]. cbn [head upd_prev_if]. unfold upd_prev.
    rewrite lookup_alter_ne; [done|]. apply NoDup_app in Hnd as (_ & _ & [Hd _]%NoDup_cons). set_solver. }
  rewrite bind_Done, set_next_if_upd by (intros; subst h1; upd_some). subst h1. heap_step.
  eexists _, _. split; [done|]. split; [|split].
  - split; cbn [m_head m_tail m_count].
    + rewrite <- Permutation_middle in Hnd. by apply NoDup_cons in Hnd as [_ ?].
    + apply (seg_unsplice h _ xs ys it Hnd (il_seg _ _ _ Hl)). intros p Hp.
      unfold upd_next at 1, upd_prev at 1. rewrite !(lookup_alter_ne _ _ it) by done.
      destruct (last xs) as [x|] eqn:Ex, ys as [|y ys]; cbn [head upd_next_if upd_prev_if]; try done.
      unfold upd_next, upd_prev. rewrite alter_alter_ne; [done|]. intros ->.
      apply NoDup_app in Hnd as (_ & Hd & _). apply (Hd y); [by apply last_Some_elem_of|set_solver].
    + by destruct xs, ys.
    + rewrite last_app. unfold last_or. by destruct (last ys).
    + rewrite (il_count _ _ _ Hl). unfold wrap. rewrite Zminus_mod_idemp_l. f_equal.
      rewrite !length_app. simpl. lia.
  - apply links_only_upd_next; [set_solver|]. apply links_only_upd_prev; [set_solver|].
    apply links_only_upd_next_if; [done|]. by apply links_only_upd_prev_if.
  - destruct (proj2 (upd_next_if_is_Some (upd_prev_if (head ys) (last xs) h) (last xs) (head ys) it))
      as [n Hn]; [by upd_some|].
    unfold next, prev. by rewrite (lookup_cleared _ _ _ Hn).
Qed.

Lemma pop_front_spec h l x xs :
  is_list h l (x :: xs) →
  ∃ l' h', pop_front l h = Done (Some x, l', h') ∧ is_list h' l' xs ∧ links_only h h' (x :: xs).
Proof.
  intros Hl. unfold pop_front. rewrite (il_head _ _ _ Hl). cbn [head].
  destruct (remove_spec h l [] x xs Hl) as (l' & h' & -> & H1 & H2 & _). eauto.
Qed.

Lemma pop_back_spec h l xs x :
  is_list h l (xs ++ [x]) →
  ∃ l' h', pop_back l h = Done (Some x, l', h') ∧ is_list h' l' xs ∧ links_only h h' (xs ++ [x]).
Proof.
  intros Hl. unfold pop_back. rewrite (il_tail _ _ _ Hl), last_snoc.
  destruct (remove_spec h l xs x [] Hl) as (l' & h' & -> & H1 & H2 & _).
  rewrite app_nil_r in H1. eauto.
Qed.

Lemma count_from_spec h pv xs len fuel :
  seg h pv xs None → (length xs ≤ fuel)%nat →
  count_from fuel h (head xs) (u64 len) = Done (u64 (len + Z.of_nat (length xs))).
Proof.
  revert pv len fuel. induction xs as [|x xs IH]; intros pv len fuel Hs Hf.
  { destruct fuel; simpl; by rewrite Z.add_0_r. }
  destruct fuel as [|fuel]; [simpl in Hf; lia|]. destruct Hs as [[v Hv] Hs].
  simpl. unfold next. rewrite Hv. simpl. rewrite first_or_head, wrap_add_l by lia.
  rewrite (IH (Some x)) by (done || (simpl in Hf; lia)). do 2 f_equal. lia.
Qed.

Lemma count_length_spec h l xs :
  is_list h l xs → count_length l h = Done (m_count l, l).
Proof.
  intros Hl. unfold count_length. rewrite (il_head _ _ _ Hl).
  rewrite (count_from_spec h None xs 0); [|apply Hl|].
  - simpl. destruct l as [hd tl c]. destruct Hl as [_ _ Hh _ Hc]. simpl in *. by subst.
  - eapply seg_length; apply Hl.
Qed.

(** *** sorted_insert *)
Context (compare : T → T → Z).

(** The value a node carries. *)
Definition val h p : option T := item <$> h !! p.
Definition vals h xs : list T := omap (val h) xs.

(** Nodes are in order when each compares at most 0 with its successors. *)
Definition in_order h xs : Prop := Sorted (λ a b, compare a b ≤ 0) (vals h xs).

(** [sorted_insert] on sequences of values: in front of the first element that is not smaller. *)
Fixpoint insert_value (x : T) (vs : list T) : list T :=
  match vs with
  | [] => [x]
  | v :: vs' => if compare x v >? 0 then v :: insert_value x vs' else x :: v :: vs'
  end.

Lemma insert_value_sorted x vs :
  (∀ a b, compare a b > 0 → compare b a ≤ 0) →
  Sorted (λ a b, compare a b ≤ 0) vs → Sorted (λ a b, compare a b ≤ 0) (insert_value x vs).
Proof.
  intros Htot. induction 1 as [|v vs Hs IH Hhd]; simpl; [by repeat constructor|].
  destruct (compare x v >? 0) eqn:E.
  - constructor; [done|]. destruct Hhd as [|w vs Hw]; simpl.
    + constructor. apply Htot. lia.
    + destruct (compare x w >? 0); constructor; [done|]. apply Htot. lia.
  - repeat constructor; [done..|lia].
Qed.

Lemma insert_value_perm x vs : Permutation (insert_value x vs) (x :: vs).
Proof.
  induction vs as [|v vs IH]; simpl; [done|]. destruct (compare x v >? 0); [|done].
  rewrite IH. constructor.
Qed.

Lemma vals_cons h p n xs : h !! p = Some n → vals h (p :: xs) = item n :: vals h xs.
Proof. intros Hn. unfold vals, val. simpl. by rewrite Hn. Qed.

Lemma sorted_pos_spec h pv xs x fuel :
  seg h pv xs None → (length xs ≤ fuel)%nat →
  ∃ ys zs, xs = ys ++ zs ∧ sorted_pos compare fuel h x (head xs) = Done (head zs) ∧
    vals h ys ++ x :: vals h zs = insert_value x (vals h xs).
Proof.
  revert pv fuel. induction xs as [|p xs IH]; intros pv fuel Hs Hf.
  { exists [], []. by destruct fuel. }
  destruct fuel as [|fuel]; [simpl in Hf; lia|]. destruct Hs as [[v Hv] Hs].
  cbn [head sorted_pos]. rewrite Hv, (vals_cons _ _ _ xs Hv). simpl. rewrite first_or_head.
  destruct (compare x v >? 0) eqn:E.
  - destruct (IH (Some p) fuel Hs) as (ys & zs & -> & Hz & Hi); [simpl in Hf; lia|].
    exists (p :: ys), zs. split; [done|]. split; [done|].
    rewrite (vals_cons _ _ _ ys Hv). simpl. by rewrite Hi.
  - exists [], (p :: xs). by rewrite (vals_cons _ _ _ xs Hv).
Qed.

Lemma vals_links_only h h' xs zs : links_only h h' zs → vals h' xs = vals h xs.
Proof.
  intros [_ Hv]. induction xs as [|x xs IH]; [done|].
  assert (∀ g, vals g (x :: xs) = option_list (val g x) ++ vals g xs) as Hc
    by (intros g; unfold vals; simpl; by destruct (val g x)).
  rewrite !Hc, IH. f_equal. unfold val. by rewrite Hv.
Qed.

Lemma vals_app h xs ys : vals h (xs ++ ys) = vals h xs ++ vals h ys.
Proof. unfold vals. by rewrite omap_app. Qed.

Lemma sorted_insert_spec h l xs it x :
  is_list h l xs → val h it = Some x → it ∉ xs →
  ∃ l' h' xs', sorted_insert compare l h (Some it) = Done (l', h') ∧ is_list h' l' xs' ∧
    Permutation xs' (it :: xs) ∧ vals h' xs' = insert_value x (vals h xs) ∧
    links_only h h' (it :: xs).
Proof.
  intros Hl Hx Hit. unfold val in Hx.
  destruct (h !! it) as [n|] eqn:Hn; simpl in Hx; simplify_eq.
  unfold sorted_insert. rewrite Hn. cbn [deref]. rewrite bind_Done.
  destruct (sorted_pos_spec h None xs (item n) (size h) (il_seg _ _ _ Hl))
    as (ys & zs & -> & Hpos & Hi).
  { eapply seg_length; apply Hl. }
  rewrite (il_head _ _ _ Hl), Hpos, bind_Done.
  assert (∃ l' h', insert_before l h (head zs) (Some it) = Done (l', h') ∧
    is_list h' l' (ys ++ it :: zs) ∧ links_only h h' (it :: ys ++ zs)) as (l' & h' & E & H1 & H2).
  { destruct zs as [|z zs]; [|by apply insert_before_spec].
    rewrite app_nil_r in *. by apply push_back_spec. }
  exists l', h', (ys ++ it :: zs). split; [done|]. split; [done|].
  split; [symmetry; apply Permutation_middle|]. split; [|done].
  rewrite (vals_links_only h h' _ _ H2), <- Hi, vals_app. by rewrite (vals_cons _ _ _ zs Hn).
Qed.

End refinement.

(** ** Operation sequences *)
Section traces.
Context {T : Type}.
Implicit Types (h : gmap loc (list_node T)) (l : linked_list) (xs : list loc).

Inductive list_op :=
  | PushFront (it : loc)
  | PushBack (it : loc)
  | PopFront
  | PopBack
  | Remove (it : loc)
  | InsertBefore (e : option loc) (it : loc)
  | InsertAfter (e : option loc) (it : loc).

Definition op_item (op : list_op) : list loc :=
  match op with
  | PushFront it | PushBack it | Remove it | InsertBefore _ it | InsertAfter _ it => [it]
  | PopFront | PopBack => []
  end.

(** A call that returns nothing. *)
Definition ret_void {A B} (m : outcome (A * B)) : outcome (option loc * A * B) :=
  let* (l, h) := m in Done (None, l, h).

(** The node an operation returns, and the state it leaves. *)
Definition run_op l h (op : list_op) : outcome (option loc * linked_list * gmap loc (list_node T)) :=
  match op with
  | PushFront it => ret_void (push_front l h (Some it))
  | PushBack it => ret_void (push_back l h (Some it))
  | PopFront => pop_front l h
  | PopBack => pop_back l h
  | Remove it => ret_void (remove l h (Some it))
  | InsertBefore e it => ret_void (insert_before l h e (Some it))
  | InsertAfter e it => ret_void (insert_after l h e (Some it))
  end.

Fixpoint run_ops l h (ops : list list_op)
    : outcome (list (option loc) * linked_list * gmap loc (list_node T)) :=
  match ops with
  | [] => Done ([], l, h)
  | op :: ops =>
      let* (r, l, h) := run_op l h op in
      let* (rs, l, h) := run_ops l h ops in
      Done (r :: rs, l, h)
  end.

(** The same operations on sequences; [None] when the caller broke the contract: inserting a node
    that is already in the list, or naming a node that is not. *)
Fixpoint seq_before (e it : loc) xs : list loc :=
  match xs with
  | [] => []
  | x :: xs => if decide (x = e) then it :: x :: xs else x :: seq_before e it xs
  end.
Fixpoint seq_after (e it : loc) xs : list loc :=
  match xs with
  | [] => []
  | x :: xs => if decide (x = e) then x :: it :: xs else x :: seq_after e it xs
  end.
Fixpoint seq_remove (it : loc) xs : list loc :=
  match xs with
  | [] => []
  | x :: xs => if decide (x = it) then xs else x :: seq_remove it xs
  end.

Definition seq_op xs (op : list_op) : option (option loc * list loc) :=
  match op with
  | PushFront it => if decide (it ∈ xs) then None else Some (None, it :: xs)
  | PushBack it => if decide (it ∈ xs) then None else Some (None, xs ++ [it])
  | PopFront => Some (head xs, tail xs)
  | PopBack => Some (last xs, removelast xs)
  | Remove it => if decide (it ∈ xs) then Some (None, seq_remove it xs) else None
  | InsertBefore e it =>
      if decide (it ∈ xs) then None
      else match e with
           | None => Some (None, xs ++ [it])
           | Some e => if decide (e ∈ xs) then Some (None, seq_before e it xs) else None
           end
  | InsertAfter e it =>
      if decide (it ∈ xs) then None
      else match e with
           | None => Some (None, it :: xs)
           | Some e => if decide (e ∈ xs) then Some (None, seq_after e it xs) else None
           end
  end.

Fixpoint seq_ops xs (ops : list list_op) : option (list (option loc) * list loc) :=
  match ops with
  | [] => Some ([], xs)
  | op :: ops =>
      match seq_op xs op with
      | Some (r, xs) =>
          match seq_ops xs ops with Some (rs, xs) => Some (r :: rs, xs) | None => None end
      | None => None
      end
  end.

Lemma seq_remove_split xs it ys : it ∉ xs → seq_remove it (xs ++ it :: ys) = xs ++ ys.
Proof.
  induction xs as [|x xs IH]; intros Hn; simpl; [by rewrite decide_True|].
  rewrite decide_False by set_solver. rewrite IH by set_solver. done.
Qed.
Lemma seq_before_split xs e it ys : e ∉ xs → seq_before e it (xs ++ e :: ys) = xs ++ it :: e :: ys.
Proof.
  induction xs as [|x xs IH]; intros Hn; simpl; [by rewrite decide_True|].
  rewrite decide_False by set_solver. rewrite IH by set_solver. done.
Qed.
Lemma seq_after_split xs e it ys : e ∉ xs → seq_after e it (xs ++ e :: ys) = xs ++ e :: it :: ys.
Proof.
  induction xs as [|x xs IH]; intros Hn; simpl; [by rewrite decide_True|].
  rewrite decide_False by set_solver. rewrite IH by set_solver. done.
Qed.

Lemma nodup_split (xs : list loc) x : NoDup xs → x ∈ xs → ∃ ys zs, xs = ys ++ x :: zs ∧ x ∉ ys.
Proof.
  intros Hnd (ys & zs & ->)%list_elem_of_split. exists ys, zs. split; [done|].
  apply NoDup_app in Hnd as (_ & Hd & _). intros Hin. by apply (Hd x); [|left].
Qed.

Lemma ret_void_spec (m : outcome (linked_list * gmap loc (list_node T))) P :
  (∃ l' h', m = Done (l', h') ∧ P l' h') → ∃ l' h', ret_void m = Done (None, l', h') ∧ P l' h'.
Proof. intros (l' & h' & -> & HP). by exists l', h'. Qed.

Lemma run_op_spec h l xs op r xs' :
  is_list h l xs → (∀ p, p ∈ op_item op → is_Some (h !! p)) → seq_op xs op = Some (r, xs') →
  ∃ l' h', run_op l h op = Done (r, l', h') ∧ is_list h' l' xs' ∧
    links_only h h' (op_item op ++ xs).
Proof.
  intros Hl Hin Hop. pose proof (il_nodup _ _ _ Hl) as Hnd.
  destruct op as [it|it| | |it|e it|e it]; simpl in Hop; cbn [run_op op_item];
    try case_decide; simplify_eq; try apply ret_void_spec.
  - apply push_front_spec; [done|apply Hin; left|done].
  - apply push_back_spec; [done|apply Hin; left|done].
  - destruct xs as [|x xs].
    + unfold pop_front. rewrite (il_head _ _ _ Hl). by exists l, h.
    + by apply pop_front_spec.
  - destruct xs as [|x xs _] using rev_ind.
    + unfold pop_back. rewrite (il_tail _ _ _ Hl). by exists l, h.
    + rewrite last_snoc, removelast_last. by apply pop_back_spec.
  - destruct (nodup_split xs it Hnd) as (ys & zs & -> & Hn); [done|].
    rewrite seq_remove_split by done.
    destruct (remove_spec h l ys it zs Hl) as (l' & h' & -> & ? & ? & _).
    exists l', h'. split; [done|]. split; [done|]. eapply links_only_mono; [|done]. set_solver.
  - destruct e as [e|]; [case_decide|]; simplify_eq; apply ret_void_spec.
    + destruct (nodup_split xs e Hnd) as (ys & zs & -> & Hn); [done|].
      rewrite seq_before_split by done. apply insert_before_spec; [done|apply Hin; left|done].
    + apply push_back_spec; [done|apply Hin; left|done].
  - destruct e as [e|]; [case_decide|]; simplify_eq; apply ret_void_spec.
    + destruct (nodup_split xs e Hnd) as (ys & zs & -> & Hn); [done|].
      rewrite seq_after_split by done. apply insert_after_spec; [done|apply Hin; left|done].
    + apply push_front_spec; [done|apply Hin; left|done].
Qed.

Lemma seq_op_subseteq xs op r xs' : seq_op xs op = Some (r, xs') → xs' ⊆ op_item op ++ xs.
Proof.
  assert (∀ it xs, seq_remove it xs ⊆ xs) as Hr.
  { intros it ys. induction ys; simpl; [done|]. case_decide; set_solver. }
  assert (∀ e it xs, seq_before e it xs ⊆ it :: xs) as Hb.
  { intros e it ys. induction ys; simpl; [set_solver|]. case_decide; set_solver. }
  assert (∀ e it xs, seq_after e it xs ⊆ it :: xs) as Ha.
  { intros e it ys. induction ys; simpl; [set_solver|]. case_decide; set_solver. }
  destruct op as [it|it| | |it|[e|] it|[e|] it]; simpl;
    repeat case_decide; intros; simplify_eq; try set_solver.
  - destruct xs; set_solver.
  - destruct xs as [|x xs _] using rev_ind; [done|]. rewrite removelast_last. set_solver.
Qed.

End traces.

(** ** Properties *)
Section properties.
Context {T : Type}.

(** a linked list refines the sequence of its nodes.  Starting from a list object whose
    nodes are [xs], any sequence of push, pop, remove and insert operations that respects the
    callers' contract (a node is inserted only when it is in no list, and only members are removed
    or inserted next to) runs without undefined behaviour, returns the nodes the operations on
    sequences return, and ends in a list object that stands for what they give.  Both link
    directions, the end pointers and the cached length are right again, no item is changed, and no
    node outside the list and the operations' arguments is touched. *)
Theorem run_ops_refines (h : gmap loc (list_node T)) l xs ops rs xs' :
  is_list h l xs → (∀ p, p ∈ (ops ≫= op_item) → is_Some (h !! p)) →
  seq_ops xs ops = Some (rs, xs') →
  ∃ l' h', run_ops l h ops = Done (rs, l', h') ∧ is_list h' l' xs' ∧
    links_only h h' ((ops ≫= op_item) ++ xs).
Proof.
  revert h l xs rs. induction ops as [|op ops IH]; intros h l xs rs Hl Hin Hs; simpl in Hs.
  { simplify_eq. by exists l, h. }
  destruct (seq_op xs op) as [[r xs1]|] eqn:E; [|done].
  destruct (seq_ops xs1 ops) as [[rs1 xs2]|] eqn:E1; simplify_eq.
  destruct (run_op_spec h l xs op r xs1) as (l1 & h1 & Hr & Hl1 & Hk1); [done|set_solver|done|].
  destruct (IH h1 l1 xs1 rs1 Hl1) as (l' & h' & Hr' & Hl' & Hk'); [|done|].
  { intros p Hp. apply fmap_is_Some with (f := item). rewrite (proj2 Hk1).
    apply fmap_is_Some. apply Hin. set_solver. }
  exists l', h'. cbn [run_ops]. rewrite Hr, bind_Done, Hr', bind_Done. split; [done|].
  split; [done|]. pose proof (seq_op_subseteq _ _ _ _ E) as Hsub.
  eapply links_only_trans; eapply links_only_mono; [|exact Hk1| |exact Hk']; set_solver.
Qed.

(** [sorted_insert] keeps a list in order.  It terminates, puts the node in front of the
    first node it does not exceed, and when the list was in order for [compare] (and [compare] is
    antisymmetric in its sign) it still is, with exactly one node more. *)
Theorem sorted_insert_in_order (compare : T → T → Z) (h : gmap loc (list_node T)) l xs it x :
  (∀ a b, compare a b > 0 → compare b a ≤ 0) →
  is_list h l xs → in_order compare h xs → val h it = Some x → it ∉ xs →
  ∃ l' h' xs', sorted_insert compare l h (Some it) = Done (l', h') ∧ is_list h' l' xs' ∧
    in_order compare h' xs' ∧ Permutation xs' (it :: xs) ∧ links_only h h' (it :: xs).
Proof.
  intros Hc Hl Ho Hx Hit.
  destruct (sorted_insert_spec compare h l xs it x) as (l' & h' & xs' & H1 & H2 & H3 & H4 & H5);
    [done..|].
  exists l', h', xs'. split; [done|]. split; [done|]. split; [|done].
  unfold in_order. rewrite H4. by apply insert_value_sorted.
Qed.

Lemma node_remove_lone (h : gmap loc (list_node T)) y v :
  h !! y = Some (ListNode v None None) →
  node_remove h y = Done (upd_next y None (upd_prev y None h)).
Proof.
  intros Hv. assert (is_Some (h !! y)) as Hy by by eexists.
  unfold node_remove, next, prev. rewrite Hv. cbn [deref]. rewrite !bind_Done. cbn.
  rewrite Hv. cbn. rewrite set_prev_upd by done. cbn. by rewrite set_next_upd by upd_some.
Qed.

(** [append] does not link the first appended node back.  After appending the one-node list
    [y] to a non-empty list, [pop_back] leaves a list object without a tail although its head and
    its length still name the nodes [xs]; the next [push_back] takes it for an empty list and
    drops all of them. *)
Theorem append_loses_nodes (h : gmap loc (list_node T)) l other xs y z :
  xs ≠ [] → is_list h l xs → is_list h other [y] → y ∉ xs → is_Some (h !! z) → z ≠ y → z ∉ xs →
  ∃ l1 h1 l2 h2 l3 h3,
    append l other h = Done (l1, empty_list, h1) ∧
    pop_back l1 h1 = Done (Some y, l2, h2) ∧
    m_head l2 = head xs ∧ m_tail l2 = None ∧ m_count l2 = u64 (Z.of_nat (length xs)) ∧
    push_back l2 h2 (Some z) = Done (l3, h3) ∧
    m_head l3 = Some z ∧ m_tail l3 = Some z ∧ next h3 z = Done None ∧ prev h3 z = Done None ∧
    m_count l3 = u64 (Z.of_nat (length xs) + 1).
Proof.
  intros Hne Hl Ho Hy Hz Hzy Hzx. destruct xs as [|x xs _] using rev_ind; [done|].
  destruct (seg_mid _ _ [] _ _ _ (il_seg _ _ _ Ho)) as [v Hv].
  assert (is_Some (h !! x)) as Hx by (eapply seg_in; [apply Hl|set_solver]).
  assert (x ≠ y) as Hxy by set_solver.
  unfold append. rewrite (il_head _ _ _ Ho), (il_tail _ _ _ Hl), last_snoc, (il_tail _ _ _ Ho).
  cbn [head last]. heap_step. rewrite (il_count _ _ _ Hl), (il_count _ _ _ Ho), (il_head _ _ _ Hl).
  set (h1 := upd_next x (Some y) h).
  assert (h1 !! y = Some (ListNode v None None)) as Hv1 by (by unfold h1, upd_next; simplify_map_eq).
  assert (is_Some (h1 !! y)) as Hy1 by by eexists.
  assert (head (xs ++ [x]) ≠ Some y) as Hhd by (destruct xs; set_solver).
  eexists _, h1, _, _, _, _. split; [done|]. unfold pop_back, remove. cbn [m_tail m_head m_count].
  rewrite (bool_decide_eq_false_2 (Some y = head _)), bool_decide_eq_true_2 by (done || congruence).
  assert (prev h1 y = Done None) as -> by (unfold prev; by rewrite Hv1).
  rewrite !bind_Done, (node_remove_lone _ _ _ Hv1), !bind_Done.
  split; [done|]. cbn [m_tail m_head m_count]. split; [done|]. split; [done|].
  split; [|split].
  - unfold wrap. rewrite <- Zplus_mod, Zminus_mod_idemp_l. f_equal. simpl. lia.
  - unfold push_back. cbn [m_tail m_head m_count]. subst h1. heap_step. done.
  - cbn [m_tail m_head m_count]. split; [done|]. split; [done|].
    subst h1. destruct (proj2 (upd_next_is_Some (upd_prev y None (upd_next x (Some y) h)) y None z))
      as [n Hn']; [by upd_some|].
    unfold next, prev. rewrite (lookup_cleared _ _ _ Hn'). split; [done|]. split; [done|].
    unfold wrap. rewrite <- Zplus_mod, Zminus_mod_idemp_l, Zplus_mod_idemp_l. f_equal. simpl. lia.
Qed.

End properties.

(** *** Instances on concrete lists *)

(** A heap of [n] unlinked nodes, node [p] carrying the value [p]. *)
Definition free_nodes (n : nat) : gmap loc (list_node Z) :=
  list_to_map ((λ p, (p, ListNode (Zpos p) None None)) <$> (Pos.of_nat <$> seq 1 n)).

Lemma run_ops_refines_witness :
  ∃ l' h', run_ops empty_list (free_nodes 4)
      [PushBack 1; PushFront 2; InsertAfter (Some 2) 3; Remove 2; PopBack; InsertBefore (Some 3) 4]%positive
      = Done ([None; None; None; None; Some 1%positive; None], l', h') ∧ is_list h' l' [4; 3]%positive.
Proof.
  edestruct (run_ops_refines (free_nodes 4) empty_list []
    [PushBack 1; PushFront 2; InsertAfter (Some 2) 3; Remove 2; PopBack; InsertBefore (Some 3) 4]%positive
    [None; None; None; None; Some 1%positive; None] [4; 3]%positive) as (l' & h' & H1 & H2 & _).
  - apply is_list_empty.
  - intros p Hp. simpl in Hp. repeat (apply elem_of_cons in Hp as [->|Hp]); try by eexists.
    by apply not_elem_of_nil in Hp.
  - reflexivity.
  - eauto.
Defined.

(** The list [2; 4] on the heap of five nodes. *)
Definition nodes_2_4 : gmap loc (list_node Z) :=
  <[2%positive := ListNode 2 (Some 4%positive) None]>
    (<[4%positive := ListNode 4 None (Some 2%positive)]> (free_nodes 5)).
Definition list_2_4 : linked_list := LinkedList (Some 2%positive) (Some 4%positive) 2.

Lemma list_2_4_is_list : is_list nodes_2_4 list_2_4 [2; 4]%positive.
Proof.
  split; try done.
  - apply NoDup_cons. split; [set_solver|]. apply NoDup_cons. split; [set_solver|constructor].
  - simpl. split; [by exists 2|]. split; [by exists 4|done].
Qed.

Lemma sorted_insert_in_order_witness :
  ∃ l' h' xs', sorted_insert Z.sub list_2_4 nodes_2_4 (Some 3%positive) = Done (l', h') ∧
    is_list h' l' xs' ∧ in_order Z.sub h' xs'.
Proof.
  edestruct (sorted_insert_in_order Z.sub nodes_2_4 list_2_4 [2; 4]%positive 3%positive 3)
    as (l' & h' & xs' & H1 & H2 & H3 & _).
  - lia.
  - apply list_2_4_is_list.
  - unfold in_order. vm_compute. repeat constructor; discriminate.
  - reflexivity.
  - set_solver.
  - exists l', h', xs'. exact (conj H1 (conj H2 H3)).
Defined.

Lemma append_loses_nodes_witness :
  ∃ l1 h1 l2 h2, append list_2_4 (LinkedList (Some 1%positive) (Some 1%positive) 1) nodes_2_4
      = Done (l1, empty_list, h1) ∧
    pop_back l1 h1 = Done (Some 1%positive, l2, h2) ∧ m_tail l2 = None ∧ m_head l2 = Some 2%positive.
Proof.
  edestruct (append_loses_nodes nodes_2_4 list_2_4 (LinkedList (Some 1%positive) (Some 1%positive) 1)
    [2; 4]%positive 1%positive 5%positive) as (l1 & h1 & l2 & h2 & l3 & h3 & H1 & H2 & H3 & H4 & _).
  - discriminate.
  - apply list_2_4_is_list.
  - split; try done; [apply NoDup_singleton|]. simpl. split; [by exists 1|done].
  - set_solver.
  - by eexists.
  - discriminate.
  - set_solver.
  - exists l1, h1, l2, h2. exact (conj H1 (conj H2 (conj H4 H3))).
Defined.
