(* ===== verification/BipBuffer.v ===== *)
(** * util::bip_buffer

    Models src/libraries/util/bip_buffer.cpp and bip_buffer.h: a circular buffer that always hands
    out contiguous areas.  The state record has the fields of the class and the bytes of
    [m_buffer]; the scoped lock each method takes makes the methods atomic, so that writer and
    reader interleave as a sequence of calls ([run]).  [contents] is the stream of committed and
    not yet consumed bytes; the properties show the buffer is a FIFO of bytes. *)
From S2P Require Import Prelude.

Record bip_buffer := BipBuffer {
  m_start_a : Z;
  m_start_b : Z;
  m_start_r : Z;
  m_size_a : Z;
  m_size_b : Z;
  m_size_r : Z;
  m_buffer_size : Z;
  m_buffer : list Z;
}.

(** [sizeof(bip_buffer)]: six counters, the lock's pointer and the buffer size. *)
Definition sizeof_bip_buffer : Z := 64.

(** The constructor; [m_start_r] is left uninitialized, and the memory behind the object is
    whatever it was. *)
Definition new_bip_buffer (size start_r : Z) (mem : list Z) : bip_buffer :=
  BipBuffer 0 0 start_r 0 0 0 (u64 (size - sizeof_bip_buffer)) mem.

Definition write_available (b : bip_buffer) : Z :=
  if negb (m_size_r b =? 0) then 0
  else if negb (m_size_b b =? 0) then u64 (m_start_a b - m_start_b b - m_size_b b)
  else
    let remaining := u64 (m_buffer_size b - m_start_a b - m_size_a b) in
    if m_start_a b >? remaining then m_start_a b else remaining.

(** The room and the position [reserve] chooses. *)
Definition reserve_at (b : bip_buffer) (size : Z) : Z * Z :=
  if negb (m_size_b b =? 0)
  then (u64 (m_start_a b - m_start_b b - m_size_b b), u64 (m_start_b b + m_size_b b))
  else
    let remaining := u64 (m_buffer_size b - m_start_a b - m_size_a b) in
    if (remaining <? size) && (m_start_a b >? remaining) then (m_start_a b, 0)
    else (remaining, u64 (m_start_a b + m_size_a b)).

(** [reserve]: the size returned, the offset of [*area] in the buffer ([None] is [nullptr]) and
    the new state. *)
Definition reserve (b : bip_buffer) (size : Z) : Z * option Z * bip_buffer :=
  if negb (m_size_r b =? 0) then (0, None, b)
  else
    let (remaining, start_r) := reserve_at b size in
    if remaining =? 0 then
      (0, None, BipBuffer (m_start_a b) (m_start_b b) start_r (m_size_a b) (m_size_b b) (m_size_r b)
                  (m_buffer_size b) (m_buffer b))
    else
      let size_r := if remaining <? size then remaining else size in
      (size_r, Some start_r,
        BipBuffer (m_start_a b) (m_start_b b) start_r (m_size_a b) (m_size_b b) size_r
          (m_buffer_size b) (m_buffer b)).

Definition commit (b : bip_buffer) (size : Z) : outcome bip_buffer :=
  let* _ := kassert (size <=? m_size_r b) in
  let* (size_a, size_b) :=
    if negb (m_size_r b =? 0) then
      if m_start_r b =? u64 (m_start_a b + m_size_a b)
      then Done (u64 (m_size_a b + size), m_size_b b)
      else
        let* _ := kassert (m_start_r b =? u64 (m_start_b b + m_size_b b)) in
        Done (m_size_a b, u64 (m_size_b b + size))
    else Done (m_size_a b, m_size_b b) in
  Done (BipBuffer (m_start_a b) (m_start_b b) 0 size_a size_b 0 (m_buffer_size b) (m_buffer b)).

(** [get_block]: the size of the block and its offset. *)
Definition get_block (b : bip_buffer) : Z * option Z :=
  (m_size_a b, if negb (m_size_a b =? 0) then Some (m_start_a b) else None).

Definition consume (b : bip_buffer) (size : Z) : outcome bip_buffer :=
  let* _ := kassert (size <=? m_size_a b) in
  let mk start_a start_b size_a size_b :=
    BipBuffer start_a start_b (m_start_r b) size_a size_b (m_size_r b) (m_buffer_size b) (m_buffer b) in
  Done (
    if size >=? m_size_a b then
      if negb (m_size_r b =? 0) && (m_start_r b =? u64 (m_start_a b + m_size_a b))
      then mk (m_start_r b) (m_start_b b) 0 (m_size_b b)
      else mk (m_start_b b) 0 (m_size_b b) 0
    else mk (u64 (m_start_a b + size)) (m_start_b b) (u64 (m_size_a b - size)) (m_size_b b)).

(** [size()] and [free_space()]. *)
Definition bip_size (b : bip_buffer) : Z := u64 (m_size_a b + m_size_b b).
Definition free_space (b : bip_buffer) : Z := u64 (m_buffer_size b - bip_size b).

(** ** Bytes and areas *)
Definition slice (l : list Z) (start len : Z) : list Z :=
  take (Z.to_nat len) (drop (Z.to_nat start) l).

(** Storing [data] at offset [off]. *)
Definition blit (l : list Z) (off : Z) (data : list Z) : list Z :=
  take (Z.to_nat off) l ++ data ++ drop (Z.to_nat off + length data) l.

(** The committed bytes in the order they were written. *)
Definition contents (b : bip_buffer) : list Z :=
  slice (m_buffer b) (m_start_a b) (m_size_a b) ++ slice (m_buffer b) (m_start_b b) (m_size_b b).

(** ** Interleavings of a writer and a reader *)
Inductive bip_op :=
  | Reserve (size : Z)                  (** the writer asks for an area *)
  | Write (off : Z) (data : list Z)     (** the writer stores into the area it holds *)
  | Commit (size : Z)                   (** the writer publishes a prefix of the area *)
  | Consume (size : Z).                 (** the reader copies a prefix of the block and frees it *)

(** One call: the new state, the bytes published and the bytes delivered. *)
Definition step (b : bip_buffer) (op : bip_op) : outcome (bip_buffer * list Z * list Z) :=
  match op with
  | Reserve size => let '(_, _, b') := reserve b size in Done (b', [], [])
  | Write off data =>
      if (0 <=? off) && (off + Z.of_nat (length data) <=? m_size_r b) then
        Done (BipBuffer (m_start_a b) (m_start_b b) (m_start_r b) (m_size_a b) (m_size_b b) (m_size_r b)
                (m_buffer_size b) (blit (m_buffer b) (m_start_r b + off) data), [], [])
      else Undef
  | Commit size =>
      let* b' := commit b size in Done (b', slice (m_buffer b) (m_start_r b) size, [])
  | Consume size =>
      let* b' := consume b size in Done (b', [], slice (m_buffer b) (m_start_a b) size)
  end.

Fixpoint run (b : bip_buffer) (ops : list bip_op) : outcome (bip_buffer * list Z * list Z) :=
  match ops with
  | [] => Done (b, [], [])
  | op :: ops =>
      let* (b, sent, recv) := step b op in
      let* (b, sent', recv') := run b ops in
      Done (b, sent ++ sent', recv ++ recv')
  end.

(** The contract of the two sides: sizes are [size_t]s, stores stay in the reserved area, at most
    the reserved size is committed and at most the block's size consumed; a pending reservation is
    committed with at least one byte. *)
Definition op_ok (b : bip_buffer) (op : bip_op) : bool :=
  match op with
  | Reserve size => bool_decide (is_u64 size)
  | Write off data => (0 <=? off) && (off + Z.of_nat (length data) <=? m_size_r b)
  | Commit size =>
      (0 <=? size) && (size <=? m_size_r b) && ((0 <? size) || (m_size_r b =? 0))
  | Consume size => (0 <=? size) && (size <=? m_size_a b)
  end.

Fixpoint ops_ok (b : bip_buffer) (ops : list bip_op) : bool :=
  match ops with
  | [] => true
  | op :: ops =>
      op_ok b op &&
      match step b op with Done (b', _, _) => ops_ok b' ops | _ => false end
  end.

(** ** The invariant

    B always starts at the bottom of the buffer, below A.  A pending reservation follows A (when
    there is no B) or follows B and ends below A.  A is empty only when B is, and then sits at the
    bottom unless the reservation holds its place. *)
Record bip_wf (b : bip_buffer) : Prop := {
  wf_buf : Z.of_nat (length (m_buffer b)) = m_buffer_size b;
  wf_size : is_u64 (m_buffer_size b);
  wf_nonneg : 0 ≤ m_start_a b ∧ 0 ≤ m_size_a b ∧ 0 ≤ m_size_b b ∧ 0 ≤ m_size_r b;
  wf_a : m_start_a b + m_size_a b ≤ m_buffer_size b;
  wf_b : m_start_b b = 0 ∧ (0 < m_size_b b → m_size_b b ≤ m_start_a b);
  wf_r : 0 < m_size_r b →
    (m_start_r b = m_start_a b + m_size_a b ∧ m_start_r b + m_size_r b ≤ m_buffer_size b
       ∧ m_size_b b = 0) ∨
    (m_start_r b = m_size_b b ∧ m_start_r b + m_size_r b ≤ m_start_a b ∧ 0 < m_size_a b);
  wf_empty : m_size_a b = 0 →
    m_size_b b = 0 ∧ (m_start_a b = 0 ∨ (0 < m_size_r b ∧ m_start_r b = m_start_a b));
}.

Lemma new_bip_buffer_wf size start_r mem :
  sizeof_bip_buffer ≤ size < 2 ^ 64 → Z.of_nat (length mem) = size - sizeof_bip_buffer →
  bip_wf (new_bip_buffer size start_r mem) ∧ contents (new_bip_buffer size start_r mem) = [].
Proof.
  unfold sizeof_bip_buffer, new_bip_buffer. intros Hs Hm. split; [|done].
  split; simpl; unfold sizeof_bip_buffer; try lia;
    rewrite wrap_small by (unfold is_word; lia); unfold is_word; lia.
Qed.

Lemma slice_app l s a b :
  0 ≤ s → 0 ≤ a → 0 ≤ b → slice l s (a + b) = slice l s a ++ slice l (s + a) b.
Proof.
  intros Hs Ha Hb. unfold slice. rewrite !Z2Nat.inj_add, <- drop_drop by lia.
  by rewrite take_take_drop.
Qed.

Lemma slice_nil l s : slice l s 0 = [].
Proof. done. Qed.

Lemma slice_lookup l s n i :
  slice l s n !! i = if decide (i < Z.to_nat n)%nat then l !! (Z.to_nat s + i)%nat else None.
Proof.
  unfold slice. case_decide.
  - by rewrite lookup_take_lt, lookup_drop.
  - by rewrite lookup_take_ge by lia.
Qed.

Lemma blit_length l off data :
  0 ≤ off → off + Z.of_nat (length data) ≤ Z.of_nat (length l) →
  length (blit l off data) = length l.
Proof. intros. unfold blit. rewrite !length_app, length_take, length_drop. lia. Qed.

Lemma slice_blit_other l off data s n :
  0 ≤ off → off + Z.of_nat (length data) ≤ Z.of_nat (length l) → 0 ≤ s →
  s + n ≤ off ∨ off + Z.of_nat (length data) ≤ s → slice (blit l off data) s n = slice l s n.
Proof.
  intros Ho Hl Hs Hd. apply list_eq. intros i. rewrite !slice_lookup. case_decide; [|done].
  unfold blit. destruct Hd.
  - rewrite lookup_app_l by (rewrite length_take; lia). apply lookup_take_lt. lia.
  - rewrite lookup_app_r by (rewrite length_take; lia).
    rewrite lookup_app_r by (rewrite length_take; lia).
    rewrite lookup_drop, length_take. f_equal. lia.
Qed.

(** ** Every call preserves the invariant and the stream *)
Ltac bip_small := repeat (rewrite wrap_small by (unfold is_word in *; lia)).

Lemma reserve_spec b size :
  bip_wf b → is_u64 size →
  ∃ n area b', reserve b size = (n, area, b') ∧ bip_wf b' ∧ contents b' = contents b ∧
    0 ≤ n ≤ size ∧ (∀ off, area = Some off → m_start_r b' = off ∧ m_size_r b' = n).
Proof.
  intros [Hbuf Hsz Hnn Ha Hb Hr He] Hs. unfold reserve, reserve_at. unfold is_word in *.
  destruct (Z.eqb_spec (m_size_r b) 0); simpl.
  2:{ exists 0, None, b. split; [done|]. split; [done|]. split; [done|]. split; [lia|done]. }
  destruct Hb as [Hb0 Hb]. rewrite Hb0.
  destruct (Z.eqb_spec (m_size_b b) 0) as [Eb|Eb]; simpl; bip_small.
  - destruct (Z.ltb_spec (m_buffer_size b - m_start_a b - m_size_a b) size),
      (Z.gtb_spec (m_start_a b) (m_buffer_size b - m_start_a b - m_size_a b)); simpl.
    all: match goal with |- context [?x =? 0] => destruct (Z.eqb_spec x 0) end.
    all: eexists _, _, _; split; [done|]; split; [|split; [by unfold contents; simpl; rewrite ?Hb0|]; split; [zcases; lia|naive_solver]].
    all: split; simpl; unfold is_word; zcases; try lia.
  - destruct (Z.eqb_spec (m_start_a b - 0 - m_size_b b) 0).
    all: eexists _, _, _; split; [done|]; split; [|split; [by unfold contents; simpl; rewrite ?Hb0|]; split; [zcases; lia|naive_solver]].
    all: split; simpl; unfold is_word; zcases; try lia.
Qed.

Lemma commit_spec b size :
  bip_wf b → 0 ≤ size ≤ m_size_r b → 0 < size ∨ m_size_r b = 0 →
  ∃ b', commit b size = Done b' ∧ bip_wf b' ∧
    contents b' = contents b ++ slice (m_buffer b) (m_start_r b) size.
Proof.
  intros [Hbuf Hsz Hnn Ha [Hb0 Hb] Hr He] Hs Hp. unfold commit, is_word in *.
  rewrite (proj2 (Z.leb_le _ _)) by lia. simpl. rewrite Hb0.
  destruct (Z.eqb_spec (m_size_r b) 0) as [Er|Er]; simpl.
  - eexists. split; [done|]. split; [split; simpl; unfold is_word; naive_solver lia|].
    replace size with 0 by lia. unfold contents. simpl. by rewrite slice_nil, app_nil_r, Hb0.
  - destruct Hr as [(H1 & H2 & H3)|(H1 & H2 & H3)]; [lia| |]; bip_small.
    + rewrite (proj2 (Z.eqb_eq _ _)) by lia. simpl. eexists. split; [done|].
      split; [split; simpl; unfold is_word; lia|].
      unfold contents. simpl. rewrite H3, !slice_nil, !app_nil_r, H1. apply slice_app; lia.
    + rewrite (proj2 (Z.eqb_neq _ _)), (proj2 (Z.eqb_eq _ _)) by lia. simpl.
      eexists. split; [done|]. split; [split; simpl; unfold is_word; lia|].
      unfold contents. simpl. rewrite Hb0, <- app_assoc, H1. f_equal. apply slice_app; lia.
Qed.

Lemma consume_spec b size :
  bip_wf b → 0 ≤ size ≤ m_size_a b →
  ∃ b', consume b size = Done b' ∧ bip_wf b' ∧
    contents b = slice (m_buffer b) (m_start_a b) size ++ contents b'.
Proof.
  intros [Hbuf Hsz Hnn Ha [Hb0 Hb] Hr He] Hs. unfold consume, is_word in *.
  rewrite (proj2 (Z.leb_le _ _)) by lia. simpl. rewrite Z.geb_leb. eexists. split; [done|].
  destruct (Z.leb_spec (m_size_a b) size).
  - assert (size = m_size_a b) as -> by lia. bip_small.
    destruct (Z.eqb_spec (m_size_r b) 0), (Z.eqb_spec (m_start_r b) (m_start_a b + m_size_a b));
      simpl; split; try (split; simpl; unfold is_word; lia); unfold contents; simpl.
    all: rewrite ?slice_nil, ?app_nil_r; try done.
  - bip_small. split; [split; simpl; unfold is_word; lia|].
    unfold contents. simpl. rewrite app_assoc, <- slice_app by lia. do 2 f_equal. lia.
Qed.

Lemma write_spec b off data :
  bip_wf b → 0 ≤ off → off + Z.of_nat (length data) ≤ m_size_r b → 
  let b' := BipBuffer (m_start_a b) (m_start_b b) (m_start_r b) (m_size_a b) (m_size_b b) (m_size_r b)
              (m_buffer_size b) (blit (m_buffer b) (m_start_r b + off) data) in
  bip_wf b' ∧ contents b' = contents b.
Proof.
  intros [Hbuf Hsz Hnn Ha [Hb0 Hb] Hr He] Ho Hl b'.
  destruct (decide (data = [])) as [->|Hd].
  { assert (blit (m_buffer b) (m_start_r b + off) [] = m_buffer b) as Hn.
    { unfold blit. simpl. by rewrite Nat.add_0_r, take_drop. }
    subst b'. rewrite Hn. by destruct b. }
  assert (0 < length data)%nat by (destruct data; simpl; [done|lia]).
  assert (0 ≤ m_start_r b + off ∧
    m_start_r b + off + Z.of_nat (length data) ≤ Z.of_nat (length (m_buffer b))) as [H1 H2] by lia.
  split.
  - split; simpl; try done. by rewrite blit_length.
  - unfold contents. simpl. rewrite Hb0. f_equal; apply slice_blit_other; try lia.
Qed.

Lemma step_spec b op :
  bip_wf b → op_ok b op = true →
  ∃ b' sent recv, step b op = Done (b', sent, recv) ∧ bip_wf b' ∧
    contents b ++ sent = recv ++ contents b'.
Proof.
  intros Hw Hok. destruct op as [size|off data|size|size]; simpl in Hok.
  - apply bool_decide_eq_true in Hok.
    destruct (reserve_spec b size Hw Hok) as (n & area & b' & Hr & Hw' & Hc & _).
    exists b', [], []. simpl. rewrite Hr, Hc, app_nil_r. done.
  - pose proof Hok as [H1 H2]%andb_true_iff.
    destruct (write_spec b off data Hw) as [Hw' Hc]; [lia..|].
    eexists _, [], []. cbn [step]. rewrite Hok, app_nil_r. done.
  - destruct (commit_spec b size Hw) as (b' & Hr & Hw' & Hc); [lia..|].
    eexists b', _, []. simpl. rewrite Hr. simpl. by rewrite Hc.
  - destruct (consume_spec b size Hw) as (b' & Hr & Hw' & Hc); [lia..|].
    eexists b', [], _. simpl. rewrite Hr. simpl. by rewrite app_nil_r.
Qed.

(** ** Properties *)

(** C9: the bip buffer is a FIFO of bytes.  However a writer and a reader that keep their
    contract interleave their calls, no call fails an assertion, and the bytes that were in the
    buffer followed by the bytes committed are exactly the bytes delivered to the reader followed
    by the bytes still in the buffer: nothing is lost, duplicated, reordered or overwritten.  And
    the reader makes progress: whenever committed bytes are in the buffer, [get_block] hands out a
    non-empty block with their first bytes. *)
Theorem bip_buffer_fifo b ops :
  bip_wf b → ops_ok b ops = true →
  ∃ b' sent recv, run b ops = Done (b', sent, recv) ∧ bip_wf b' ∧
    contents b ++ sent = recv ++ contents b' ∧
    (contents b' ≠ [] → ∃ n off, get_block b' = (n, Some off) ∧ 0 < n ∧
       slice (m_buffer b') off n `prefix_of` contents b').
Proof.
  revert b. induction ops as [|op ops IH]; intros b Hw Hok; simpl in Hok.
  { exists b, [], []. split; [done|]. split; [done|]. split; [by rewrite app_nil_r|].
    intros Hne. exists (m_size_a b), (m_start_a b). unfold get_block.
    destruct (decide (m_size_a b = 0)) as [E|E].
    - destruct (wf_empty _ Hw E) as [E' _]. unfold contents in Hne. by rewrite E, E' in Hne.
    - rewrite (proj2 (Z.eqb_neq _ _)) by done. split; [done|].
      split; [pose proof (wf_nonneg _ Hw); lia|]. by eexists. }
  apply andb_true_iff in Hok as [Hop Hok].
  destruct (step_spec b op Hw Hop) as (b1 & s1 & r1 & Hs & Hw1 & Hc). rewrite Hs in Hok.
  destruct (IH b1 Hw1 Hok) as (b' & s2 & r2 & Hr & Hw' & Hc' & Hp).
  exists b', (s1 ++ s2), (r1 ++ r2). cbn [run]. rewrite Hs, bind_Done, Hr, bind_Done.
  split; [done|]. split; [done|]. split; [|done].
  by rewrite app_assoc, Hc, <- app_assoc, Hc', app_assoc.
Qed.

Lemma reserve_buffer_size b size n area b' :
  reserve b size = (n, area, b') → m_buffer_size b' = m_buffer_size b.
Proof.
  unfold reserve. destruct (reserve_at b size). zcases; simpl; intros E; by simplify_eq.
Qed.

(** when [write_available] reports room for [size] bytes and no reservation is pending,
    [reserve] grants all of them as one area inside the buffer that holds no committed byte. *)
Theorem reserve_grants_available b size :
  bip_wf b → is_u64 size → m_size_r b = 0 → 0 < size ≤ write_available b →
  ∃ off b', reserve b size = (size, Some off, b') ∧ bip_wf b' ∧ contents b' = contents b ∧
    0 ≤ off ∧ off + size ≤ m_buffer_size b.
Proof.
  intros Hw Hs Hr Ha. pose proof (reserve_spec b size Hw Hs) as (n & area & b' & E & Hw' & Hc & Hn & Hoff).
  pose proof Hw as [_ Hsz Hnn Hwa [Hb0 Hb] _ _].
  assert (n = size ∧ is_Some area) as [-> [off ->]].
  { unfold write_available, reserve, reserve_at, is_word in *. rewrite Hr, Hb0 in *. simpl in *.
    destruct (Z.eqb_spec (m_size_b b) 0); simpl in *.
    all: rewrite wrap_small in Ha, E by (unfold is_word; lia).
    all: zcases_in Ha; zcases_in E; simpl in E; zcases_in E; simplify_eq; try lia; eauto; lia. }
  exists off, b'. destruct (Hoff off eq_refl) as [H1 H2]. split; [done|]. split; [done|].
  split; [done|]. rewrite <- (reserve_buffer_size _ _ _ _ _ E).
  destruct Hw' as [_ _ Hnn' Hwa' Hb' Hwr' _]. lia.
Qed.

(** committing nothing loses the reader's way to later data.  On an 8-byte buffer: write and
    publish 6 bytes, reserve the last 2, let the reader drain the 6, and commit 0 of the 2, as the
    serial driver does when the device has no byte ready.  A is then empty in mid-buffer; the next
    3-byte write wraps to the front, and [get_block] hands out nothing although [size] reports the
    3 committed bytes. *)
Theorem commit_zero_strands :
  ∃ b, run (new_bip_buffer (sizeof_bip_buffer + 8) 0 (replicate 8 0))
        [Reserve 6; Write 0 [1; 2; 3; 4; 5; 6]; Commit 6; Reserve 2; Consume 6; Commit 0;
         Reserve 3; Write 0 [7; 8; 9]; Commit 3]
      = Done (b, [1; 2; 3; 4; 5; 6; 7; 8; 9], [1; 2; 3; 4; 5; 6]) ∧
    bip_size b = 3 ∧ contents b = [7; 8; 9] ∧ get_block b = (0, None).
Proof. eexists. split; [vm_compute; reflexivity|]. vm_compute. repeat split. Qed.

(** *** Instances on concrete runs *)
Lemma bip_buffer_fifo_witness :
  ∃ b', run (new_bip_buffer (sizeof_bip_buffer + 8) 0 (replicate 8 0))
        [Reserve 6; Write 0 [1; 2; 3; 4; 5; 6]; Commit 6; Consume 5; Reserve 4; Write 0 [7; 8; 9; 10];
         Commit 3; Consume 1]
      = Done (b', [1; 2; 3; 4; 5; 6; 7; 8; 9], [1; 2; 3; 4; 5; 6]) ∧ contents b' = [7; 8; 9].
Proof.
  destruct (bip_buffer_fifo (new_bip_buffer (sizeof_bip_buffer + 8) 0 (replicate 8 0))
    [Reserve 6; Write 0 [1; 2; 3; 4; 5; 6]; Commit 6; Consume 5; Reserve 4; Write 0 [7; 8; 9; 10];
     Commit 3; Consume 1]) as (b' & s & r & H1 & _).
  - apply new_bip_buffer_wf; [unfold sizeof_bip_buffer; lia|reflexivity].
  - vm_compute. reflexivity.
  - vm_compute in H1. injection H1 as <- <- <-.
    eexists. split; [vm_compute; reflexivity|]. vm_compute. reflexivity.
Defined.

Lemma reserve_grants_available_witness :
  ∃ off b', reserve (new_bip_buffer (sizeof_bip_buffer + 8) 0 (replicate 8 0)) 5 = (5, Some off, b').
Proof.
  destruct (reserve_grants_available (new_bip_buffer (sizeof_bip_buffer + 8) 0 (replicate 8 0)) 5)
    as (off & b' & H & _).
  - apply new_bip_buffer_wf; [unfold sizeof_bip_buffer; lia|reflexivity].
  - unfold is_word. lia.
  - reflexivity.
  - split; [lia|]. vm_compute. discriminate.
  - exists off, b'. exact H.
Defined.
