(* ===== verification/Spinlock.v ===== *)
(** * util::spinlock

    Models src/libraries/util/spinlock.cpp (an MCS queue lock) and the scoped locks of spinlock.h
    as threads that interleave at the granularity of single memory accesses.  A thread's waiter
    node lives on its stack and is named by the thread; [pc] says which access of [acquire],
    [try_acquire] or [release] the thread performs next.  The atomic exchange and
    compare-exchange are one step each, and the accesses are sequentially consistent (the code
    uses [__ATOMIC_SEQ_CST] for the atomics).  [sstep] is the executable step of one thread; a spin
    loop that is not ready yet has no step.  The invariant relates the machine to the FIFO queue of
    threads that the chain of waiter nodes encodes. *)
From stdpp Require Import functions.
From S2P Require Import Prelude.

Abbreviation tid := positive.

(** [spinlock::waiter], without the debugging fields [where] and [thread]. *)
Record waiter := Waiter {
  blocked : bool;
  w_next : option tid;
}.

(** The next access of a thread. *)
Inductive pc :=
  | Idle               (** outside of the lock's operations *)
  | Acq1               (** acquire: w->next = nullptr *)
  | Acq2               (** acquire: w->blocked = true *)
  | Acq3               (** acquire: prev = exchange(&m_lock, w) *)
  | Acq4 (prev : tid)  (** acquire: prev->next = w *)
  | Acq5               (** acquire: while (w->blocked) *)
  | Acq6               (** acquire: w->blocked = false *)
  | Crit               (** the lock is held *)
  | Try1               (** try_acquire: w->next = nullptr *)
  | Try2               (** try_acquire: w->blocked = false *)
  | Try3               (** try_acquire: compare_exchange(&m_lock, nullptr, w) *)
  | Rel1               (** release: compare_exchange(&m_lock, w, nullptr) *)
  | Rel2               (** release: while (!w->next) *)
  | Rel3               (** release: read w->next *)
  | Rel4 (n : tid).    (** release: w->next->blocked = false *)

Record lock_state := LockState {
  m_lock : option tid;
  waiters : tid → waiter;
  pcs : tid → pc;
}.

Definition set_next (s : lock_state) (t : tid) (v : option tid) : lock_state :=
  LockState (m_lock s) (<[t := Waiter (blocked (waiters s t)) v]> (waiters s)) (pcs s).
Definition set_blocked (s : lock_state) (t : tid) (v : bool) : lock_state :=
  LockState (m_lock s) (<[t := Waiter v (w_next (waiters s t))]> (waiters s)) (pcs s).
Definition set_lock (s : lock_state) (v : option tid) : lock_state :=
  LockState v (waiters s) (pcs s).
Definition goto (s : lock_state) (t : tid) (p : pc) : lock_state :=
  LockState (m_lock s) (waiters s) (<[t := p]> (pcs s)).

(** [spinlock()]: no waiter, nobody inside. *)
Definition new_spinlock : lock_state :=
  LockState None (λ _, Waiter false None) (λ _, Idle).

(** What a thread outside the lock's code does next. *)
Inductive action :=
  | CallAcquire | CallTryAcquire | CallRelease | Continue.

Definition acquire_step (s : lock_state) (t : tid) : option lock_state :=
  match pcs s t with
  | Acq1 => Some (goto (set_next s t None) t Acq2)
  | Acq2 => Some (goto (set_blocked s t true) t Acq3)
  | Acq3 =>
      let prev := m_lock s in
      let s := set_lock s (Some t) in
      Some (goto s t (match prev with Some p => Acq4 p | None => Acq6 end))
  | Acq4 prev => Some (goto (set_next s prev (Some t)) t Acq5)
  | Acq5 => if blocked (waiters s t) then None else Some (goto s t Crit)
  | Acq6 => Some (goto (set_blocked s t false) t Crit)
  | _ => None
  end.

Definition try_acquire_step (s : lock_state) (t : tid) : option lock_state :=
  match pcs s t with
  | Try1 => Some (goto (set_next s t None) t Try2)
  | Try2 => Some (goto (set_blocked s t false) t Try3)
  | Try3 =>
      match m_lock s with
      | None => Some (goto (set_lock s (Some t)) t Crit)
      | Some _ => Some (goto s t Idle)
      end
  | _ => None
  end.

Definition release_step (s : lock_state) (t : tid) : option lock_state :=
  match pcs s t with
  | Rel1 =>
      if decide (m_lock s = Some t) then Some (goto (set_lock s None) t Idle)
      else Some (goto s t Rel2)
  | Rel2 => match w_next (waiters s t) with None => None | Some _ => Some (goto s t Rel3) end
  | Rel3 => match w_next (waiters s t) with None => None | Some n => Some (goto s t (Rel4 n)) end
  | Rel4 n => Some (goto (set_blocked s n false) t Idle)
  | _ => None
  end.

(** One step of thread [t]. *)
Definition sstep (s : lock_state) (t : tid) (a : action) : option lock_state :=
  match a, pcs s t with
  | CallAcquire, Idle => Some (goto s t Acq1)
  | CallTryAcquire, Idle => Some (goto s t Try1)
  | CallRelease, Crit => Some (goto s t Rel1)
  | Continue, (Acq1 | Acq2 | Acq3 | Acq4 _ | Acq5 | Acq6) => acquire_step s t
  | Continue, (Try1 | Try2 | Try3) => try_acquire_step s t
  | Continue, (Rel1 | Rel2 | Rel3 | Rel4 _) => release_step s t
  | _, _ => None
  end.

(** A schedule: which thread moves, and what it does. *)
Fixpoint run_sched (s : lock_state) (sched : list (tid * action)) : option lock_state :=
  match sched with
  | [] => Some s
  | (t, a) :: sched => match sstep s t a with Some s' => run_sched s' sched | None => None end
  end.

Inductive reachable : lock_state → Prop :=
  | reach_init : reachable new_spinlock
  | reach_step s t a s' : reachable s → sstep s t a = Some s' → reachable s'.

(** ** The queue behind the waiter nodes *)
Definition in_queue (p : pc) : bool :=
  match p with
  | Acq4 _ | Acq5 | Acq6 | Crit | Rel1 | Rel2 | Rel3 | Rel4 _ => true
  | _ => false
  end.

(** The threads queued behind [p]: each is blocked, and either about to link itself to its
    predecessor or linked already. *)
Fixpoint waiting (s : lock_state) (p : tid) (q : list tid) : Prop :=
  match q with
  | [] => w_next (waiters s p) = None
  | t :: q =>
      (pcs s t = Acq4 p ∧ w_next (waiters s p) = None ∨ pcs s t = Acq5 ∧ w_next (waiters s p) = Some t) ∧
      blocked (waiters s t) = true ∧ waiting s t q
  end.

(** The thread at the front owns the lock, is about to, or is handing it over. *)
Definition holder_ok (s : lock_state) (t : tid) (q : list tid) : Prop :=
  match pcs s t with
  | Acq6 | Crit | Rel1 => True
  | Acq5 => blocked (waiters s t) = false
  | Rel2 => q ≠ []
  | Rel3 => w_next (waiters s t) ≠ None
  | Rel4 n => w_next (waiters s t) = Some n
  | _ => False
  end.

Definition entering_ok (s : lock_state) (t : tid) : Prop :=
  match pcs s t with
  | Acq2 | Try2 | Try3 => w_next (waiters s t) = None
  | Acq3 => w_next (waiters s t) = None ∧ blocked (waiters s t) = true
  | _ => True
  end.

Record lock_inv (s : lock_state) (q : list tid) : Prop := {
  li_nodup : NoDup q;
  li_last : m_lock s = last q;
  li_members : ∀ t, t ∈ q ↔ in_queue (pcs s t) = true;
  li_chain : match q with [] => True | t :: q' => holder_ok s t q' ∧ waiting s t q' end;
  li_entering : ∀ t, entering_ok s t;
}.

(** The queue before and after a step: unchanged, joined at the back, or left at the front. *)
Inductive queue_step (t : tid) : list tid → list tid → Prop :=
  | QSame q : queue_step t q q
  | QEnter q : queue_step t q (q ++ [t])
  | QLeave q : queue_step t (t :: q) q.

Lemma waiting_frame s s' p q :
  (∀ t, t ∈ q → pcs s' t = pcs s t ∧ blocked (waiters s' t) = blocked (waiters s t)) →
  (∀ t, t = p ∨ t ∈ q → w_next (waiters s' t) = w_next (waiters s t)) →
  waiting s p q → waiting s' p q.
Proof.
  revert p. induction q as [|t q IH]; intros p Hq Hn; simpl.
  { rewrite (Hn p); auto. }
  destruct (Hq t) as [-> ->]; [left|]. rewrite (Hn p) by auto. intros (H1 & H2 & H3).
  split; [done|]. split; [done|]. apply IH; [| |done].
  - intros u Hu. apply Hq. by right.
  - intros u Hu. apply Hn. right. destruct Hu as [->|]; [left|by right].
Qed.

Lemma lock_init_inv : lock_inv new_spinlock [].
Proof. split; try done; [constructor|]. intros t. simpl. split; [by intros ?%elem_of_nil|done]. Qed.

(** ** The steps preserve the invariant *)
Section steps.
Implicit Types (s : lock_state) (t p n : tid) (q : list tid).

(** Everything about the threads other than [t] is unchanged. *)
Definition same_except t s s' : Prop :=
  ∀ u, u ≠ t → pcs s' u = pcs s u ∧ waiters s' u = waiters s u.

Lemma head_or_waiting s q t :
  lock_inv s q → t ∈ q →
  (∃ q', q = t :: q' ∧ holder_ok s t q' ∧ waiting s t q') ∨
  (blocked (waiters s t) = true ∧ (pcs s t = Acq5 ∨ ∃ p, pcs s t = Acq4 p)).
Proof.
  intros [_ _ _ Hc _]. destruct q as [|u q]; [by intros ?%elem_of_nil|]. destruct Hc as [Hh Hw].
  intros [->|Hin]%elem_of_cons; [left; eauto|right]. clear Hh. revert u Hw Hin.
  induction q as [|v q IH]; intros u Hw; [by intros ?%elem_of_nil|]. destruct Hw as (H1 & H2 & H3).
  intros [->|Hin]%elem_of_cons; [|by eapply IH]. split; [done|].
  destruct H1 as [[H1 _]|[H1 _]]; eauto.
Qed.

(** Steps of a thread outside of the queue that stays outside. *)
Lemma inv_outside s s' q t :
  lock_inv s q → t ∉ q → m_lock s' = m_lock s → same_except t s s' →
  in_queue (pcs s' t) = false → entering_ok s' t → lock_inv s' q.
Proof.
  intros [H1 H2 H3 H4 H5] Ht Hm Hs Hp He.
  assert (∀ u, u ∈ q → pcs s' u = pcs s u ∧ waiters s' u = waiters s u) as Hq
    by (intros u Hu; apply Hs; by intros ->).
  split; [done|congruence| | |].
  - intros u. destruct (decide (u = t)) as [->|Hne]; [|by rewrite (proj1 (Hs u Hne))].
    rewrite Hp. naive_solver.
  - destruct q as [|h q]; [done|]. destruct H4 as [Hh Hw]. split.
    + unfold holder_ok. destruct (Hq h) as [-> ->]; [left|done].
    + eapply waiting_frame; [| |done].
      * intros u Hu. destruct (Hq u) as [-> ->]; [by right|done].
      * intros u Hu. destruct (Hq u) as [_ ->]; [|done]. destruct Hu as [->|]; [left|by right].
  - intros u. destruct (decide (u = t)) as [->|Hne]; [done|].
    unfold entering_ok. destruct (Hs u Hne) as [-> ->]. apply H5.
Qed.

(** Steps of the holder that keep the lock and its link. *)
Lemma inv_holder s s' q t :
  lock_inv s (t :: q) → m_lock s' = m_lock s → same_except t s s' →
  w_next (waiters s' t) = w_next (waiters s t) → in_queue (pcs s' t) = true → holder_ok s' t q →
  lock_inv s' (t :: q).
Proof.
  intros [H1 H2 H3 [_ Hw] H5] Hm Hs Hn Hp Hh. apply NoDup_cons in H1 as [Ht Hnd].
  split; [by apply NoDup_cons|congruence| | |].
  - intros u. destruct (decide (u = t)) as [->|Hne]; [|by rewrite (proj1 (Hs u Hne))].
    rewrite Hp. split; [done|left].
  - split; [done|]. eapply waiting_frame; [| |done].
    + intros u Hu. destruct (Hs u) as [-> ->]; [by intros ->|done].
    + intros u Hu. destruct (decide (u = t)) as [->|Hne]; [done|]. by destruct (Hs u Hne) as [_ ->].
  - intros u. destruct (decide (u = t)) as [->|Hne].
    + unfold entering_ok. by destruct (pcs s' t).
    + unfold entering_ok. destruct (Hs u Hne) as [-> ->]. apply H5.
Qed.

Lemma waiting_snoc s s' p q l t :
  t ∉ p :: q → same_except t s s' → waiting s p q →
  last (p :: q) = Some l → pcs s' t = Acq4 l → blocked (waiters s' t) = true → w_next (waiters s' t) = None →
  waiting s' p (q ++ [t]).
Proof.
  intros Ht Hs. revert p Ht. induction q as [|u q IH]; intros p Ht Hw Hl Hp Hb Hn.
  - simpl in *. simplify_eq. split; [left; split; [done|]|done].
    destruct (Hs l) as [_ ->]; [set_solver|done].
  - destruct Hw as (H1 & H2 & H3). cbn [app waiting].
    destruct (Hs u) as [-> ->]; [set_solver|]. destruct (Hs p) as [_ ->]; [set_solver|].
    split; [done|]. split; [done|]. apply IH; try done. set_solver.
Qed.

(** A thread joins at the back. *)
Lemma inv_enter s s' q t :
  lock_inv s q → t ∉ q → m_lock s' = Some t → same_except t s s' →
  blocked (waiters s' t) = true ∨ q = [] → w_next (waiters s' t) = None →
  pcs s' t = match last q with Some p => Acq4 p | None => pcs s' t end →
  (q = [] → pcs s' t = Acq6 ∨ pcs s' t = Crit) → lock_inv s' (q ++ [t]).
Proof.
  intros [H1 H2 H3 H4 H5] Ht Hm Hs Hb Hn Hp He.
  assert (in_queue (pcs s' t) = true) as Hin.
  { rewrite Hp. destruct (last q) eqn:El; [done|]. apply last_None in El as ->.
    by destruct He as [->| ->]. }
  split.
  - apply NoDup_app. split; [done|]. split; [set_solver|apply NoDup_singleton].
  - by rewrite last_snoc.
  - intros u. rewrite elem_of_app, list_elem_of_singleton.
    destruct (decide (u = t)) as [->|Hne]; [naive_solver|].
    rewrite (proj1 (Hs u Hne)), H3. naive_solver.
  - destruct q as [|h q]; simpl.
    + split; [|done]. unfold holder_ok. by destruct He as [->| ->].
    + destruct H4 as [Hh Hw]. split.
      * unfold holder_ok in *. destruct (Hs h) as [-> ->]; [set_solver|].
        destruct (pcs s h); try done. by destruct q.
      * destruct (last (h :: q)) as [l|] eqn:El; [|by apply last_None in El].
        by eapply waiting_snoc; [..|naive_solver|done].
  - intros u. destruct (decide (u = t)) as [->|Hne].
    + unfold entering_ok. by destruct (pcs s' t).
    + unfold entering_ok. destruct (Hs u Hne) as [-> ->]. apply H5.
Qed.

(** The thread at [Acq4 p] links itself to its predecessor. *)
Lemma waiting_link s p0 q t p :
  NoDup (p0 :: q) → waiting s p0 q → t ∈ q → pcs s t = Acq4 p →
  p ∈ p0 :: q ∧ w_next (waiters s p) = None ∧ p ≠ t ∧
  waiting (goto (set_next s p (Some t)) t Acq5) p0 q.
Proof.
  revert p0. induction q as [|u q IH]; intros p0 Hnd Hw; [by intros ?%elem_of_nil|].
  destruct Hw as (H1 & H2 & H3). apply NoDup_cons in Hnd as [Hp0 Hnd].
  intros Hin Ht. destruct (decide (u = t)) as [->|Hne].
  - destruct H1 as [[H1 Hn]|[H1 Hn]]; [|congruence]. assert (p0 = p) as -> by congruence.
    assert (p ≠ t) by set_solver.
    split; [left|]. split; [done|]. split; [done|]. split; [|split].
    + right. simpl. by rewrite !fn_lookup_insert.
    + simpl. by rewrite fn_lookup_insert_ne.
    + eapply waiting_frame; [| |exact H3].
      * intros v Hv. apply NoDup_cons in Hnd as [Htq _].
        simpl. rewrite !fn_lookup_insert_ne by set_solver. done.
      * intros v Hv. simpl. rewrite fn_lookup_insert_ne by set_solver. done.
  - destruct (IH u) as (Hp & Hn & Hpt & Hw'); [done|done|set_solver|done|].
    split; [by right|]. split; [done|]. split; [done|].
    assert (p ≠ p0) by set_solver. split; [|split].
    + simpl. rewrite (fn_lookup_insert_ne _ t u) by done. by rewrite (fn_lookup_insert_ne _ p p0).
    + simpl. destruct (decide (p = u)) as [->|]; [by rewrite fn_lookup_insert|].
      by rewrite fn_lookup_insert_ne.
    + done.
Qed.

Lemma inv_link s q t p :
  lock_inv s q → pcs s t = Acq4 p → lock_inv (goto (set_next s p (Some t)) t Acq5) q.
Proof.
  intros Hi Ht. pose proof Hi as [H1 H2 H3 H4 H5].
  assert (t ∈ q) as Hin by (apply H3; by rewrite Ht).
  destruct q as [|h q]; [by apply elem_of_nil in Hin|]. destruct H4 as [Hh Hw].
  assert (h ≠ t) as Hht.
  { intros ->. unfold holder_ok in Hh. by rewrite Ht in Hh. }
  destruct (waiting_link s h q t p) as (Hp & Hn & Hpt & Hw'); [done|done|set_solver|done|].
  split; [done|done| | |].
  - intros u. simpl. destruct (decide (t = u)) as [->|].
    + rewrite fn_lookup_insert. split; done.
    + rewrite fn_lookup_insert_ne by done. apply H3.
  - split; [|done]. unfold holder_ok in *. simpl. rewrite fn_lookup_insert_ne by done.
    destruct (decide (p = h)) as [->|].
    + rewrite fn_lookup_insert. simpl. by destruct (pcs s h); simplify_eq.
    + rewrite fn_lookup_insert_ne by done. done.
  - intros u. unfold entering_ok. simpl. destruct (decide (t = u)) as [->|].
    { by rewrite fn_lookup_insert. }
    rewrite fn_lookup_insert_ne by done. destruct (decide (p = u)) as [->|].
    + assert (in_queue (pcs s u) = true) as Hq by by apply H3. by destruct (pcs s u).
    + rewrite fn_lookup_insert_ne by done. apply H5.
Qed.

(** The holder leaves: nobody follows, or the follower is unblocked. *)
Lemma inv_leave_last s t :
  lock_inv s [t] → lock_inv (goto (set_lock s None) t Idle) [].
Proof.
  intros [H1 H2 H3 H4 H5]. split; try done; [constructor| |].
  - intros u. simpl. destruct (decide (t = u)) as [->|].
    + rewrite fn_lookup_insert. split; [by intros ?%elem_of_nil|done].
    + rewrite fn_lookup_insert_ne, <- H3, list_elem_of_singleton by done. set_solver.
  - intros u. unfold entering_ok. simpl. destruct (decide (t = u)) as [->|].
    + by rewrite fn_lookup_insert.
    + rewrite fn_lookup_insert_ne by done. apply H5.
Qed.

Lemma inv_handoff s t n q :
  lock_inv s (t :: q) → pcs s t = Rel4 n →
  ∃ q', q = n :: q' ∧ lock_inv (goto (set_blocked s n false) t Idle) q.
Proof.
  intros [H1 H2 H3 [Hh Hw] H5] Ht. unfold holder_ok in Hh. rewrite Ht in Hh.
  destruct q as [|m q]; [simpl in Hw; congruence|]. destruct Hw as (Hm & Hb & Hw).
  destruct Hm as [[Hm Hn]|[Hm Hn]]; [congruence|]. assert (m = n) as -> by congruence.
  exists q. split; [done|]. apply NoDup_cons in H1 as [Htq Hnd].
  assert (t ≠ n) as Htn by set_solver. split; [done| | | |].
  - simpl. rewrite H2. by rewrite last_cons_cons.
  - intros u. simpl. destruct (decide (t = u)) as [->|].
    + rewrite fn_lookup_insert. split; [done|done].
    + rewrite fn_lookup_insert_ne, <- H3 by done. set_solver.
  - split.
    + unfold holder_ok. simpl. rewrite fn_lookup_insert_ne, Hm by done. by rewrite fn_lookup_insert.
    + apply NoDup_cons in Hnd as [Hnq _]. eapply waiting_frame; [| |done].
      * intros v Hv. simpl. rewrite !fn_lookup_insert_ne by set_solver. done.
      * intros v Hv. simpl. destruct (decide (n = v)) as [->|]; [by rewrite fn_lookup_insert|].
        by rewrite fn_lookup_insert_ne.
  - intros u. unfold entering_ok. simpl. destruct (decide (t = u)) as [->|].
    { by rewrite fn_lookup_insert. }
    rewrite fn_lookup_insert_ne by done. destruct (decide (n = u)) as [->|].
    + by rewrite Hm.
    + rewrite fn_lookup_insert_ne by done. apply H5.
Qed.

Ltac fn_step :=
  simpl; repeat first [rewrite fn_lookup_insert | rewrite fn_lookup_insert_ne by done].
Ltac same_except_tac := intros ?u ?Hu; fn_step; done.

Lemma not_in_queue s q t : lock_inv s q → in_queue (pcs s t) = false → t ∉ q.
Proof. intros Hi Hp Hin. apply (li_members _ _ Hi) in Hin. congruence. Qed.

(** A queued thread that is neither linking nor blocked is at the front. *)
Lemma at_front s q t :
  lock_inv s q → in_queue (pcs s t) = true → (∀ p, pcs s t ≠ Acq4 p) →
  (pcs s t = Acq5 → blocked (waiters s t) = false) →
  ∃ q', q = t :: q' ∧ holder_ok s t q' ∧ waiting s t q'.
Proof.
  intros Hi Hp H4 H5. apply (li_members _ _ Hi) in Hp.
  destruct (head_or_waiting s q t Hi Hp) as [?|(Hb & [He|[p He]])]; [done| |].
  - rewrite (H5 He) in Hb. done.
  - by apply H4 in He.
Qed.

Lemma acquire_step_inv s q t s' :
  lock_inv s q → acquire_step s t = Some s' → ∃ q', lock_inv s' q' ∧ queue_step t q q'.
Proof.
  intros Hi. unfold acquire_step. destruct (pcs s t) as [| | | |p| | | | | | | | | |n] eqn:Ht; try done.
  - intros [= <-]. exists q. split; [|constructor]. eapply inv_outside; [done|..]; try done.
    + eapply not_in_queue; [done|by rewrite Ht].
    + same_except_tac.
    + by fn_step.
    + unfold entering_ok. by fn_step.
  - intros [= <-]. exists q. split; [|constructor]. eapply inv_outside; [done|..]; try done.
    + eapply not_in_queue; [done|by rewrite Ht].
    + same_except_tac.
    + by fn_step.
    + pose proof (li_entering _ _ Hi t) as He. unfold entering_ok in *. rewrite Ht in He. by fn_step.
  - intros [= <-]. pose proof (li_entering _ _ Hi t) as He. unfold entering_ok in He. rewrite Ht in He.
    exists (q ++ [t]). split; [|constructor]. rewrite (li_last _ _ Hi).
    eapply inv_enter; [done|eapply not_in_queue; [done|by rewrite Ht]|done|same_except_tac|..];
      fn_step; [left; naive_solver|naive_solver|by destruct (last q)|by intros ->; left].
  - intros [= <-]. exists q. split; [by eapply inv_link|constructor].
  - destruct (blocked (waiters s t)) eqn:Eb; [done|]. intros [= <-].
    destruct (at_front s q t Hi) as (q' & -> & _); [by rewrite Ht..|by intros; rewrite Ht|done|].
    exists (t :: q'). split; [|constructor]. eapply inv_holder; [done|done|same_except_tac|..];
      unfold holder_ok; by fn_step.
  - intros [= <-]. destruct (at_front s q t Hi) as (q' & -> & _); [by rewrite Ht|by intros; rewrite Ht|congruence|].
    exists (t :: q'). split; [|constructor]. eapply inv_holder; [done|done|same_except_tac|..];
      unfold holder_ok; by fn_step.
Qed.

Lemma try_acquire_step_inv s q t s' :
  lock_inv s q → try_acquire_step s t = Some s' → ∃ q', lock_inv s' q' ∧ queue_step t q q'.
Proof.
  intros Hi. unfold try_acquire_step. destruct (pcs s t) as [| | | |p| | | | | | | | | |n] eqn:Ht; try done.
  all: assert (t ∉ q) as Hq by (eapply not_in_queue; [done|by rewrite Ht]).
  all: pose proof (li_entering _ _ Hi t) as He; unfold entering_ok in He; rewrite Ht in He.
  - intros [= <-]. exists q. split; [|constructor].
    eapply inv_outside; [done|done|done|same_except_tac|..]; unfold entering_ok; by fn_step.
  - intros [= <-]. exists q. split; [|constructor].
    eapply inv_outside; [done|done|done|same_except_tac|..]; unfold entering_ok; by fn_step.
  - destruct (m_lock s) as [u|] eqn:El; intros [= <-].
    + exists q. split; [|constructor].
      eapply inv_outside; [done|done|done|same_except_tac|..]; unfold entering_ok; by fn_step.
    + assert (q = []) as -> by (apply last_None; by rewrite <- (li_last _ _ Hi)).
      exists ([] ++ [t]). split; [|constructor].
      eapply inv_enter; [done|done|done|same_except_tac|..]; fn_step; auto.
Qed.

Lemma release_step_inv s q t s' :
  lock_inv s q → release_step s t = Some s' → ∃ q', lock_inv s' q' ∧ queue_step t q q'.
Proof.
  intros Hi. unfold release_step. destruct (pcs s t) as [| | | |p| | | | | | | | | |n] eqn:Ht; try done.
  all: destruct (at_front s q t Hi) as (q' & -> & Hh & Hw);
    [by rewrite Ht|by intros; rewrite Ht|congruence|].
  - case_decide as Hd; intros [= <-].
    + assert (q' = []) as ->.
      { rewrite (li_last _ _ Hi) in Hd. destruct q' as [|u q']; [done|].
        pose proof (li_nodup _ _ Hi) as [Htq _]%NoDup_cons.
        rewrite last_cons_cons in Hd. by apply last_Some_elem_of in Hd. }
      exists []. split; [by apply inv_leave_last|constructor].
    + exists (t :: q'). split; [|constructor]. eapply inv_holder; [done|done|same_except_tac|..];
        unfold holder_ok; fn_step; try done.
      intros ->. by rewrite (li_last _ _ Hi) in Hd.
  - destruct (w_next (waiters s t)) eqn:En; [|done]. intros [= <-].
    exists (t :: q'). split; [|constructor]. eapply inv_holder; [done|done|same_except_tac|..];
      unfold holder_ok; fn_step; by rewrite ?En.
  - destruct (w_next (waiters s t)) eqn:En; [|done]. intros [= <-].
    exists (t :: q'). split; [|constructor]. eapply inv_holder; [done|done|same_except_tac|..];
      unfold holder_ok; by fn_step.
  - intros [= <-]. destruct (inv_handoff s t n q' Hi Ht) as (q'' & -> & Hi').
    exists (n :: q''). split; [done|constructor].
Qed.

Lemma sstep_inv s q t a s' :
  lock_inv s q → sstep s t a = Some s' → ∃ q', lock_inv s' q' ∧ queue_step t q q'.
Proof.
  intros Hi Hs. destruct a; cbn [sstep] in Hs;
    destruct (pcs s t) as [| | | |p| | | | | | | | | |n] eqn:Ht; simplify_eq;
    try by eauto using acquire_step_inv, try_acquire_step_inv, release_step_inv.
  - exists q. split; [|constructor]. eapply inv_outside; [done|..]; try done.
    + eapply not_in_queue; [done|by rewrite Ht].
    + same_except_tac.
    + by fn_step.
    + unfold entering_ok. by fn_step.
  - exists q. split; [|constructor]. eapply inv_outside; [done|..]; try done.
    + eapply not_in_queue; [done|by rewrite Ht].
    + same_except_tac.
    + by fn_step.
    + unfold entering_ok. by fn_step.
  - destruct (at_front s q t Hi) as (q' & -> & _); [by rewrite Ht|by intros; rewrite Ht|congruence|].
    exists (t :: q'). split; [|constructor]. eapply inv_holder; [done|done|same_except_tac|..];
      unfold holder_ok; by fn_step.
Qed.

Lemma reachable_inv s : reachable s → ∃ q, lock_inv s q.
Proof.
  induction 1 as [|s t a s' _ [q Hi] Hs]; [exists []; apply lock_init_inv|].
  destruct (sstep_inv s q t a s' Hi Hs) as (q' & Hi' & _). eauto.
Qed.
End steps.

(** ** Properties *)

(** C10: mutual exclusion.  In every state reachable by any interleaving of any number of
    threads, at most one thread holds the lock, and then [m_lock] is not null: no other thread's
    [try_acquire] succeeds. *)
Theorem mutual_exclusion s :
  reachable s → ∀ t u, pcs s t = Crit → pcs s u = Crit → t = u ∧ m_lock s ≠ None.
Proof.
  intros Hr t u Ht Hu. destruct (reachable_inv s Hr) as [q Hi].
  destruct (at_front s q t Hi) as (q1 & H1 & _); [by rewrite Ht|by intros; rewrite Ht|congruence|].
  destruct (at_front s q u Hi) as (q2 & H2 & _); [by rewrite Hu|by intros; rewrite Hu|congruence|].
  split; [congruence|]. rewrite (li_last _ _ Hi), H1. intros Hl. by apply last_None in Hl.
Qed.

(** the lock is a FIFO queue.  There is an abstract queue of threads behind every reachable
    state; a step of any thread leaves it alone, appends that thread (the exchange of [acquire], or
    a successful [try_acquire]), or removes that thread from its front (the end of [release]).  A
    thread holds the lock only at the front, so threads get it in the order of their exchanges. *)
Theorem lock_fifo s q t a s' :
  lock_inv s q → sstep s t a = Some s' →
  ∃ q', lock_inv s' q' ∧ queue_step t q q' ∧ (∀ u, pcs s' u = Crit → head q' = Some u).
Proof.
  intros Hi Hs. destruct (sstep_inv s q t a s' Hi Hs) as (q' & Hi' & Hq).
  exists q'. split; [done|]. split; [done|]. intros u Hu.
  destruct (at_front s' q' u Hi') as (q1 & -> & _); [by rewrite Hu|by intros; rewrite Hu|congruence|done].
Qed.

(** waiter nodes are not touched after their owner returned.  A thread that is about to write
    to another thread's node finds that thread still inside the lock's code: the predecessor it
    links to has not left [release], and the successor it unblocks is still spinning.  The nodes
    may therefore live on the stack of [scoped_lock]'s user. *)
Theorem waiter_not_dangling s t :
  reachable s →
  (∀ p, pcs s t = Acq4 p → p ≠ t ∧ in_queue (pcs s p) = true ∧ w_next (waiters s p) = None) ∧
  (∀ n, pcs s t = Rel4 n → n ≠ t ∧ pcs s n = Acq5 ∧ blocked (waiters s n) = true).
Proof.
  intros Hr. destruct (reachable_inv s Hr) as [q Hi]. pose proof Hi as [H1 H2 H3 H4 H5]. split.
  - intros p Hp. assert (t ∈ q) as Hin by (apply H3; by rewrite Hp).
    destruct q as [|h q]; [by apply elem_of_nil in Hin|]. destruct H4 as [Hh Hw].
    assert (h ≠ t) as Hht by (intros ->; unfold holder_ok in Hh; by rewrite Hp in Hh).
    destruct (waiting_link s h q t p) as (Hpq & Hn & Hpt & _); [done|done|set_solver|done|].
    split; [done|]. split; [by apply H3|done].
  - intros n Hn.
    destruct (at_front s q t Hi) as (q' & -> & Hh & Hw); [by rewrite Hn|by intros; rewrite Hn|congruence|].
    unfold holder_ok in Hh. rewrite Hn in Hh.
    destruct q' as [|m q']; simpl in Hw; [congruence|]. destruct Hw as ([[_ ?]|[Hm Hm']] & Hb & _); [congruence|].
    assert (m = n) as -> by congruence. split; [|done].
    intros ->. by apply NoDup_cons in H1 as [[]%not_elem_of_cons _].
Qed.

(** no deadlock.  In every reachable state in which some thread is inside [acquire],
    [try_acquire] or [release], either the lock is held, or some thread inside the lock's code can
    take a step: the spinning threads never all wait for each other. *)
Theorem no_deadlock s :
  reachable s → (∃ t, pcs s t ≠ Idle) →
  (∃ t, pcs s t = Crit) ∨ (∃ t s', pcs s t ≠ Idle ∧ sstep s t Continue = Some s').
Proof.
  intros Hr [t Ht]. destruct (reachable_inv s Hr) as [q Hi].
  assert (∀ t, in_queue (pcs s t) = false → pcs s t ≠ Idle → ∃ s', sstep s t Continue = Some s') as Hout.
  { intros u Hq Hu. cbn [sstep]. unfold acquire_step, try_acquire_step.
    destruct (pcs s u) eqn:Eu; try done; repeat case_match; eauto. }
  destruct (in_queue (pcs s t)) eqn:Hq; [|right; destruct (Hout t); eauto].
  apply (li_members _ _ Hi) in Hq. pose proof (li_chain _ _ Hi) as Hc.
  destruct q as [|h q]; [by apply elem_of_nil in Hq|]. destruct Hc as [Hh Hw].
  unfold holder_ok in Hh. destruct (pcs s h) eqn:Eh; try done; [| |left; by exists h|..]; right.
  1,2,3,5,6: exists h; cbn [sstep]; unfold acquire_step, release_step; rewrite Eh; simpl;
    rewrite ?Hh; repeat case_match; try done; by eexists.
  destruct q as [|u q]; [done|]. destruct Hw as ([[Hu _]|[Hu Hn]] & _).
  - exists u. cbn [sstep]. unfold acquire_step. rewrite Hu. by eexists.
  - exists h. cbn [sstep]. unfold release_step. rewrite Eh, Hn. by eexists.
Qed.

(** *** Instances on a concrete schedule *)
Lemma run_sched_reachable s sched s' : reachable s → run_sched s sched = Some s' → reachable s'.
Proof.
  revert s. induction sched as [|[t a] sched IH]; intros s Hr Hs; simpl in Hs; [by simplify_eq|].
  destruct (sstep s t a) as [s1|] eqn:E; [|done]. eapply IH; [|done]. by eapply reach_step.
Qed.

(** Thread 1 takes the lock, thread 2 queues up and links itself, thread 1 starts to release. *)
Definition two_threads : list (tid * action) :=
  [(1%positive, CallAcquire); (1%positive, Continue); (1%positive, Continue); (1%positive, Continue);
   (1%positive, Continue); (2%positive, CallAcquire); (2%positive, Continue); (2%positive, Continue);
   (2%positive, Continue)].
Definition hand_over : list (tid * action) :=
  [(2%positive, Continue); (1%positive, CallRelease); (1%positive, Continue); (1%positive, Continue);
   (1%positive, Continue)].
Definition after_two : lock_state := default new_spinlock (run_sched new_spinlock two_threads).
Definition at_hand_over : lock_state := default new_spinlock (run_sched after_two hand_over).

Lemma after_two_reachable : reachable after_two.
Proof.
  eapply (run_sched_reachable new_spinlock two_threads); [constructor|].
  unfold after_two. by destruct (run_sched new_spinlock two_threads) eqn:E.
Qed.

Lemma at_hand_over_reachable : reachable at_hand_over.
Proof.
  eapply (run_sched_reachable after_two hand_over); [apply after_two_reachable|].
  unfold at_hand_over. by destruct (run_sched after_two hand_over) eqn:E.
Qed.

Lemma mutual_exclusion_witness :
  pcs after_two 1%positive = Crit ∧ (∀ u, pcs after_two u = Crit → 1%positive = u).
Proof.
  split; [reflexivity|]. intros u Hu.
  exact (proj1 (mutual_exclusion after_two after_two_reachable 1%positive u eq_refl Hu)).
Defined.

Lemma lock_fifo_witness :
  ∃ s' q', sstep new_spinlock 1%positive CallAcquire = Some s' ∧ lock_inv s' q' ∧
    queue_step 1%positive [] q'.
Proof.
  destruct (lock_fifo new_spinlock [] 1%positive CallAcquire (goto new_spinlock 1%positive Acq1)
    lock_init_inv eq_refl) as (q' & H1 & H2 & _).
  eexists _, q'. split; [reflexivity|]. exact (conj H1 H2).
Defined.

Lemma waiter_not_dangling_witness :
  pcs after_two 2%positive = Acq4 1%positive ∧ in_queue (pcs after_two 1%positive) = true ∧
  pcs at_hand_over 1%positive = Rel4 2%positive ∧ pcs at_hand_over 2%positive = Acq5.
Proof.
  split; [reflexivity|]. split; [|split; [reflexivity|]].
  - destruct (waiter_not_dangling after_two 2%positive after_two_reachable) as [H _].
    exact (proj1 (proj2 (H 1%positive eq_refl))).
  - destruct (waiter_not_dangling at_hand_over 1%positive at_hand_over_reachable) as [_ H].
    exact (proj1 (proj2 (H 2%positive eq_refl))).
Defined.

Lemma no_deadlock_witness :
  (∃ t, pcs after_two t = Crit) ∨ (∃ t s', pcs after_two t ≠ Idle ∧ sstep after_two t Continue = Some s').
Proof.
  apply (no_deadlock after_two after_two_reachable). exists 2%positive. discriminate.
Defined.
