(* ===== verification/Deque.v ===== *)
(** * util::deque

    Models src/libraries/util/include/util/deque.h: a double-ended queue kept as a linked list of
    fixed-size chunks ([node]).  [m_first] is the index of the first item in the first chunk and
    [m_next] the index after the last item in the last chunk.  The chunks live in the heap of the
    linked list they are chained by, [new] takes a location that is not in use and [delete] gives it
    back.  [is_deque h d xs vs] says that the deque object [d] owns the chunks [xs] and holds the
    values [vs]; the operations refine those of a list of values. *)
From S2P Require Import Prelude LinkedList.

(** [m_first], [m_next] and the list of chunks. *)
Record deque := Deque {
  m_first : Z;
  m_nextf : Z;
  m_list : linked_list;
}.

Section operations.
Context {T : Type}.
(** What a zeroed [T] reads as ([memset] of a fresh chunk), and the template parameter [N]. *)
Context (zero : T) (chunk_size : Z).

Abbreviation chunk := (list T).
Implicit Types (h : gmap loc (list_node chunk)) (d : deque).

Definition new_deque : deque := Deque 0 chunk_size empty_list.

(** [new node_type] followed by [memset]. *)
Definition new_chunk h : loc * gmap loc (list_node chunk) :=
  let p := fresh (dom h : gset loc) in
  (p, <[p := ListNode (replicate (Z.to_nat chunk_size) zero) None None]> h).

(** [p->items[i] = v] and [p->items[i]]. *)
Definition store_item h (p : option loc) (i : Z) (v : T) : outcome (gmap loc (list_node chunk)) :=
  let* p := deref p in
  let* n := deref (h !! p) in
  let* its := arr_set (item n) i v in
  Done (<[p := ListNode its (m_next n) (m_prev n)]> h).
Definition load_item h (p : option loc) (i : Z) : outcome T :=
  let* p := deref p in
  let* n := deref (h !! p) in
  arr_get (item n) i.

Definition dq_empty d : bool :=
  is_empty (m_list d) || (list_length (m_list d) =? 1) && (m_first d =? m_nextf d).

Definition dq_push_front d h (v : T) : outcome (deque * gmap loc (list_node chunk)) :=
  let* (first, l, h) :=
    if m_first d =? 0 then
      let (n, h) := new_chunk h in
      let* (l, h) := push_front (m_list d) h (Some n) in
      Done (chunk_size, l, h)
    else Done (m_first d, m_list d, h) in
  let first := u32 (first - 1) in
  let* h := store_item h (m_head l) first v in
  Done (Deque first (m_nextf d) l, h).

Definition dq_push_back d h (v : T) : outcome (deque * gmap loc (list_node chunk)) :=
  let* (nx, l, h) :=
    if m_nextf d =? chunk_size then
      let (n, h) := new_chunk h in
      let* (l, h) := push_back (m_list d) h (Some n) in
      Done (0, l, h)
    else Done (m_nextf d, m_list d, h) in
  let* h := store_item h (m_tail l) nx v in
  Done (Deque (m_first d) (u32 (nx + 1)) l, h).

Definition dq_pop_front d h : outcome (T * deque * gmap loc (list_node chunk)) :=
  let* _ := kassert (negb (dq_empty d)) in
  let* v := load_item h (m_head (m_list d)) (m_first d) in
  let first := u32 (m_first d + 1) in
  if first =? chunk_size then
    let* (p, l, h) := pop_front (m_list d) h in
    let* p := deref p in
    Done (v, Deque 0 (if is_empty l then chunk_size else m_nextf d) l, delete p h)
  else Done (v, Deque first (m_nextf d) (m_list d), h).

Definition dq_pop_back d h : outcome (T * deque * gmap loc (list_node chunk)) :=
  let* _ := kassert (negb (dq_empty d)) in
  let nx := u32 (m_nextf d - 1) in
  let* v := load_item h (m_tail (m_list d)) nx in
  if nx =? 0 then
    let* (p, l, h) := pop_back (m_list d) h in
    let* p := deref p in
    Done (v, Deque (if is_empty l then 0 else m_first d) chunk_size l, delete p h)
  else Done (v, Deque (m_first d) nx (m_list d), h).

Definition dq_first d h : outcome T :=
  let* _ := kassert (negb (dq_empty d)) in
  load_item h (m_head (m_list d)) (m_first d).
Definition dq_last d h : outcome T :=
  let* _ := kassert (negb (dq_empty d)) in
  load_item h (m_tail (m_list d)) (u32 (m_nextf d - 1)).

(** The loop of [clear]: one iteration per chunk. *)
Fixpoint clear_chunks (fuel : nat) (l : linked_list) h : outcome (linked_list * gmap loc (list_node chunk)) :=
  if is_empty l then Done (l, h)
  else match fuel with
       | O => Diverge
       | S fuel =>
           let* (p, l, h) := pop_front l h in
           let* p := deref p in
           clear_chunks fuel l (delete p h)
       end.
Definition dq_clear d h : outcome (deque * gmap loc (list_node chunk)) :=
  let* (l, h) := clear_chunks (size h) (m_list d) h in
  Done (Deque 0 chunk_size l, h).

(** *** Iterators: a chunk and an index; the null iterator is the end. *)
Definition iter_make h (node : option loc) (index : Z) : outcome (option loc * Z) :=
  match node with
  | Some p => if index >=? chunk_size then let* nx := next h p in Done (nx, 0) else Done (node, index)
  | None => Done (node, index)
  end.
Definition iter_begin d h := iter_make h (m_head (m_list d)) (m_first d).
Definition iter_end d h := iter_make h (m_tail (m_list d)) (m_nextf d).
Definition iter_incr h (it : option loc * Z) : outcome (option loc * Z) :=
  let index := u64 (it.2 + 1) in
  if index >=? chunk_size then let* p := deref it.1 in let* nx := next h p in Done (nx, 0)
  else Done (it.1, index).
Definition iter_eq (a b : option loc * Z) : bool :=
  match a.1, b.1 with
  | None, None => true
  | _, _ => (a.2 =? b.2) && bool_decide (a.1 = b.1)
  end.

(** A range-based [for] over the deque, collecting the items it visits. *)
Fixpoint iter_collect (fuel : nat) h (it fin : option loc * Z) : outcome (list T) :=
  if iter_eq it fin then Done []
  else match fuel with
       | O => Diverge
       | S fuel =>
           let* _ := kassert (bool_decide (is_Some it.1)) in
           let* v := load_item h it.1 it.2 in
           let* it := iter_incr h it in
           let* vs := iter_collect fuel h it fin in
           Done (v :: vs)
       end.

End operations.

(** ** The values a deque holds *)
Section values.
Context {T : Type} (zero : T) (chunk_size : Z).
Context (Hchunk : 0 < chunk_size < 2 ^ 32).
Abbreviation chunk := (list T).
Implicit Types (h : gmap loc (list_node chunk)) (d : deque) (xs : list loc) (vs : list T).

Definition items h (p : loc) : list T := match h !! p with Some n => item n | None => [] end.
Definition all_items h xs : list T := xs ≫= items h.

(** The index after the last item, counted from the start of the first chunk. *)
Definition end_index d xs : Z := Z.of_nat (length xs) * chunk_size + m_nextf d - chunk_size.

Record is_deque h d xs vs : Prop := {
  dq_list : is_list h (m_list d) xs;
  dq_len : Z.of_nat (length xs) < 2 ^ 64;
  dq_chunks : ∀ p, p ∈ xs → Z.of_nat (length (items h p)) = chunk_size;
  dq_bounds : 0 ≤ m_first d < chunk_size ∧ 0 < m_nextf d ≤ chunk_size;
  dq_order : m_first d ≤ end_index d xs;
  dq_nil : xs = [] → m_first d = 0 ∧ m_nextf d = chunk_size;
  dq_vals : vs = drop (Z.to_nat (m_first d)) (take (Z.to_nat (end_index d xs)) (all_items h xs));
}.

Lemma all_items_length h xs :
  (∀ p, p ∈ xs → Z.of_nat (length (items h p)) = chunk_size) →
  Z.of_nat (length (all_items h xs)) = Z.of_nat (length xs) * chunk_size.
Proof.
  induction xs as [|x xs IH]; intros Hl; [done|].
  change (all_items h (x :: xs)) with (items h x ++ all_items h xs). rewrite length_app, Nat2Z.inj_add, IH, Hl.
  - simpl length. lia.
  - left.
  - intros p Hp. apply Hl. by right.
Qed.

Lemma all_items_app h xs ys : all_items h (xs ++ ys) = all_items h xs ++ all_items h ys.
Proof. apply bind_app. Qed.

Lemma all_items_agree h h' xs :
  (∀ p, p ∈ xs → items h' p = items h p) → all_items h' xs = all_items h xs.
Proof.
  induction xs as [|x xs IH]; intros Ha; [done|].
  change (items h' x ++ all_items h' xs = items h x ++ all_items h xs). f_equal.
  - apply Ha. left.
  - apply IH. intros p Hp. apply Ha. by right.
Qed.

Lemma items_links_only h h' zs p : links_only h h' zs → items h' p = items h p.
Proof.
  intros [_ Hi]. specialize (Hi p). unfold items.
  destruct (h !! p), (h' !! p); simpl in *; congruence.
Qed.

(** The length of the value list, and when a deque is empty. *)
Lemma is_deque_length h d xs vs :
  is_deque h d xs vs → Z.of_nat (length vs) = end_index d xs - m_first d.
Proof.
  intros [_ _ Hc Hb Ho Hn ->]. rewrite length_drop, length_take.
  pose proof (all_items_length h xs Hc). unfold end_index in *. nia.
Qed.

Lemma dq_empty_spec h d xs vs : is_deque h d xs vs → dq_empty d = bool_decide (vs = []).
Proof.
  intros Hd. pose proof (is_deque_length _ _ _ _ Hd) as Hlen. destruct Hd as [Hl Hs Hc Hb Ho Hn Hv].
  unfold dq_empty, is_empty, list_length. rewrite (il_head _ _ _ Hl), (il_count _ _ _ Hl).
  rewrite wrap_small by (unfold is_word; lia). unfold end_index in *.
  assert (vs = [] ↔ length vs = 0%nat) as Hz by (destruct vs; naive_solver).
  destruct xs as [|x [|y xs]]; simpl length in *.
  - rewrite bool_decide_eq_true_2 by done. symmetry. apply bool_decide_eq_true_2, Hz.
    destruct (Hn eq_refl). lia.
  - rewrite bool_decide_eq_false_2 by done. simpl. apply eq_bool_prop_intro.
    rewrite bool_decide_spec, Hz, Is_true_true, Z.eqb_eq. lia.
  - rewrite bool_decide_eq_false_2 by done. rewrite (proj2 (Z.eqb_neq _ 1)) by lia. simpl.
    symmetry. apply bool_decide_eq_false_2. rewrite Hz. nia.
Qed.


(** *** Chunk accesses *)
Lemma is_list_alter_item h l xs p n its :
  h !! p = Some n → is_list h l xs → is_list (<[p := ListNode its (m_next n) (m_prev n)]> h) l xs.
Proof.
  intros Hn [H1 H2 H3 H4 H5]. split; try done. clear H1 H3 H4 H5. revert H2.
  generalize (@None loc) at 1 3. induction xs as [|x xs IH]; intros pv; [done|].
  intros [[v Hv] Hs]. split; [|by apply IH]. destruct (decide (p = x)) as [->|].
  - exists its. rewrite lookup_insert_eq. rewrite Hv in Hn. by simplify_eq/=.
  - exists v. by rewrite lookup_insert_ne.
Qed.

Lemma is_list_in h l xs p : is_list h l xs → p ∈ xs → is_Some (h !! p).
Proof. intros Hl. eapply seg_in, Hl. Qed.

(** Positions in the concatenation of the chunks. *)
Lemma items_at h ys p zs (i : Z) :
  (∀ q, q ∈ ys → Z.of_nat (length (items h q)) = chunk_size) → 0 ≤ i < Z.of_nat (length (items h p)) →
  all_items h (ys ++ p :: zs) !! Z.to_nat (Z.of_nat (length ys) * chunk_size + i) =
    items h p !! Z.to_nat i.
Proof.
  intros Hc Hi. rewrite all_items_app. pose proof (all_items_length h ys Hc) as Hl.
  rewrite lookup_app_r by lia.
  change (all_items h (p :: zs)) with (items h p ++ all_items h zs).
  rewrite lookup_app_l by lia. f_equal. lia.
Qed.

Lemma load_spec h l ys p zs i :
  is_list h l (ys ++ p :: zs) → (∀ q, q ∈ ys ++ p :: zs → Z.of_nat (length (items h q)) = chunk_size) →
  0 ≤ i < chunk_size →
  ∃ v, load_item h (Some p) i = Done v ∧
    all_items h (ys ++ p :: zs) !! Z.to_nat (Z.of_nat (length ys) * chunk_size + i) = Some v.
Proof.
  intros Hl Hc Hi. assert (Z.of_nat (length (items h p)) = chunk_size) as Hp by (apply Hc; set_solver).
  rewrite items_at by (intros; try apply Hc; try set_solver; lia).
  destruct (is_list_in _ _ _ p Hl) as [n Hn]; [set_solver|]. unfold load_item. simpl. rewrite Hn. simpl.
  unfold items in *. rewrite Hn in *.
  destruct (lookup_lt_is_Some_2 (item n) (Z.to_nat i)) as [v Hv]; [lia|].
  exists v. split; [|done]. apply arr_get_Done. split; [lia|done].
Qed.

Lemma store_spec h l ys p zs i v :
  is_list h l (ys ++ p :: zs) → (∀ q, q ∈ ys ++ p :: zs → Z.of_nat (length (items h q)) = chunk_size) →
  0 ≤ i < chunk_size →
  ∃ h', store_item h (Some p) i v = Done h' ∧ is_list h' l (ys ++ p :: zs) ∧
    (∀ q, q ∈ ys ++ p :: zs → Z.of_nat (length (items h' q)) = chunk_size) ∧
    all_items h' (ys ++ p :: zs) =
      <[Z.to_nat (Z.of_nat (length ys) * chunk_size + i) := v]> (all_items h (ys ++ p :: zs)) ∧
    (∀ q, q ≠ p → h' !! q = h !! q).
Proof.
  intros Hl Hc Hi. assert (Z.of_nat (length (items h p)) = chunk_size) as Hp by (apply Hc; set_solver).
  destruct (is_list_in _ _ _ p Hl) as [n Hn]; [set_solver|].
  assert (items h p = item n) as Hin by (unfold items; by rewrite Hn). rewrite Hin in Hp.
  unfold store_item. simpl. rewrite Hn. simpl. rewrite arr_set_Done by lia. simpl.
  eexists. split; [done|].
  set (h' := <[p := ListNode (<[Z.to_nat i := v]> (item n)) (m_next n) (m_prev n)]> h).
  assert (items h' p = <[Z.to_nat i := v]> (items h p)) as Hi'
    by (rewrite Hin; unfold items, h'; by rewrite lookup_insert_eq).
  assert (∀ q, q ≠ p → h' !! q = h !! q) as Hf by (intros; by apply lookup_insert_ne).
  assert (∀ q, q ≠ p → items h' q = items h q) as Hi'' by (intros q Hq; unfold items; by rewrite Hf).
  split; [by apply is_list_alter_item|]. split; [|split; [|done]].
  { intros q Hq. destruct (decide (q = p)) as [->|]; [|rewrite Hi''; auto].
    rewrite Hi', length_insert, Hin. done. }
  pose proof (il_nodup _ _ _ Hl) as Hnd. apply NoDup_app in Hnd as (_ & Hd & [Hpz _]%NoDup_cons).
  pose proof (all_items_length h ys) as Hl'. rewrite !all_items_app.
  assert (Z.to_nat (Z.of_nat (length ys) * chunk_size + i)
    = length (all_items h ys) + Z.to_nat i)%nat as -> by (specialize (Hl' ltac:(set_solver)); lia).
  rewrite insert_app_r. f_equal; [apply all_items_agree; intros q Hq; apply Hi''; set_solver|].
  change (items h' p ++ all_items h' zs = <[Z.to_nat i := v]> (items h p ++ all_items h zs)).
  rewrite (all_items_agree h h' zs), Hi' by (intros q Hq; apply Hi''; set_solver).
  rewrite insert_app_l by (rewrite Hin; lia). done.
Qed.

(** A fresh chunk is in no list, and adding it to the heap changes none. *)
Lemma new_chunk_spec h p h' :
  new_chunk zero chunk_size h = (p, h') →
  h !! p = None ∧ (∀ q, q ≠ p → h' !! q = h !! q) ∧ is_Some (h' !! p) ∧
  items h' p = replicate (Z.to_nat chunk_size) zero ∧
  (∀ l xs, is_list h l xs → is_list h' l xs ∧ p ∉ xs).
Proof.
  unfold new_chunk. intros [= <- <-]. set (p := fresh (dom h : gset loc)).
  assert (h !! p = None) as Hp by (apply not_elem_of_dom, is_fresh).
  split; [done|]. split; [by intros; apply lookup_insert_ne|].
  split; [rewrite lookup_insert_eq; by eexists|].
  split; [unfold items; by rewrite lookup_insert_eq|]. intros l xs Hl.
  assert (p ∉ xs) as Hpx by (intros Hin; destruct (is_list_in _ _ _ _ Hl Hin); congruence).
  split; [|done]. destruct Hl as [H1 H2 H3 H4 H5]. split; try done. by apply seg_insert.
Qed.

Lemma drop_take_snoc (l : list T) f e v :
  (f ≤ e)%nat → (e < length l)%nat → drop f (take (S e) (<[e := v]> l)) = drop f (take e l) ++ [v].
Proof.
  intros Hf He. rewrite (take_S_r _ _ v) by (by apply list_lookup_insert_eq).
  rewrite take_insert_ge by lia. rewrite drop_app_le; [done|]. rewrite length_take. lia.
Qed.

Lemma drop_take_cons (l : list T) f e v :
  (f < e)%nat → (e ≤ length l)%nat →
  drop f (take e (<[f := v]> l)) = v :: drop (S f) (take e l).
Proof.
  intros Hf He. rewrite (drop_S _ v).
  - f_equal. rewrite take_insert_lt by done. by rewrite drop_insert_lt by lia.
  - rewrite lookup_take_lt by done. apply list_lookup_insert_eq. lia.
Qed.

(** ** The operations refine those of a list of values *)

(** A chunk [p] joins the list [xs]: what [new], [memset] and a push of the linked list leave. *)
Lemma joined_chunk h h1 h2 xs p :
  new_chunk zero chunk_size h = (p, h1) → links_only h1 h2 (p :: xs) → p ∉ xs →
  (∀ q, q ∈ xs → Z.of_nat (length (items h q)) = chunk_size) →
  (∀ q, q ∈ p :: xs → Z.of_nat (length (items h2 q)) = chunk_size) ∧
  items h2 p = replicate (Z.to_nat chunk_size) zero ∧ all_items h2 xs = all_items h xs ∧
  (∀ q, q ∉ p :: xs → h2 !! q = h !! q).
Proof.
  intros Hn Hk Hp Hc. destruct (new_chunk_spec h p h1 Hn) as (Hp0 & Hf & _ & Hi & _).
  assert (∀ q, q ≠ p → items h2 q = items h q) as Hsame.
  { intros q Hq. rewrite (items_links_only h1 h2 (p :: xs)) by done. unfold items. by rewrite Hf. }
  assert (items h2 p = replicate (Z.to_nat chunk_size) zero) as Hip
    by (by rewrite (items_links_only h1 h2 (p :: xs))).
  split; [|split; [done|split]].
  - intros q [->|Hq]%elem_of_cons; [rewrite Hip, length_replicate; lia|].
    rewrite Hsame by set_solver. by apply Hc.
  - apply all_items_agree. intros q Hq. apply Hsame. set_solver.
  - intros q Hq. rewrite (proj1 Hk) by done. apply Hf. set_solver.
Qed.

Lemma store_back h l ys p nx f v :
  is_list h l (ys ++ [p]) → Z.of_nat (length (ys ++ [p])) < 2 ^ 64 →
  (∀ q, q ∈ ys ++ [p] → Z.of_nat (length (items h q)) = chunk_size) →
  0 ≤ f < chunk_size → 0 ≤ nx < chunk_size → f ≤ Z.of_nat (length ys) * chunk_size + nx →
  ∃ h', store_item h (m_tail l) nx v = Done h' ∧ (∀ q, q ≠ p → h' !! q = h !! q) ∧
    is_deque h' (Deque f (u32 (nx + 1)) l) (ys ++ [p])
      (drop (Z.to_nat f) (take (Z.to_nat (Z.of_nat (length ys) * chunk_size + nx)) (all_items h (ys ++ [p])))
       ++ [v]).
Proof.
  intros Hl Hlen Hc Hf Hn Ho. rewrite (il_tail _ _ _ Hl), last_snoc.
  destruct (store_spec h l ys p [] nx v Hl Hc Hn) as (h' & Hs & Hl' & Hc' & Ha & Hfr).
  exists h'. split; [done|]. split; [done|].
  assert (end_index (Deque f (u32 (nx + 1)) l) (ys ++ [p])
    = Z.succ (Z.of_nat (length ys) * chunk_size + nx)) as He.
  { unfold end_index. simpl. rewrite wrap_small by (unfold is_word; lia). rewrite length_app. simpl. lia. }
  split; try done.
  - simpl. rewrite wrap_small by (unfold is_word; lia). lia.
  - rewrite He. simpl. lia.
  - intros Hnil. by destruct ys.
  - rewrite He, Ha. simpl. rewrite Z2Nat.inj_succ by nia. symmetry. apply drop_take_snoc; [lia|].
    pose proof (all_items_length h _ Hc) as Hal. rewrite length_app in Hal. simpl in Hal. nia.
Qed.

Lemma dq_push_back_spec h d xs vs v :
  is_deque h d xs vs → Z.of_nat (length xs) + 1 < 2 ^ 64 →
  ∃ d' h' xs', dq_push_back zero chunk_size d h v = Done (d', h') ∧ is_deque h' d' xs' (vs ++ [v]) ∧
    Z.of_nat (length xs') ≤ Z.of_nat (length xs) + 1 ∧
    (∀ q, q ∉ xs → q ∉ xs' → h' !! q = h !! q).
Proof.
  intros [Hl Hs Hc Hb Ho Hn ->] Hlen. unfold dq_push_back.
  destruct (Z.eqb_spec (m_nextf d) chunk_size) as [E|E].
  - destruct (new_chunk zero chunk_size h) as [p h1] eqn:Hnew.
    destruct (new_chunk_spec h p h1 Hnew) as (_ & _ & Hp1 & _ & Hlists).
    destruct (Hlists _ _ Hl) as [Hl1 Hp].
    destruct (push_back_spec h1 (m_list d) xs p Hl1 Hp1 Hp) as (l2 & h2 & -> & Hl2 & Hk).
    destruct (joined_chunk h h1 h2 xs p Hnew Hk Hp Hc) as (Hc2 & Hi & Ha & Hfr).
    rewrite !bind_Done.
    destruct (store_back h2 l2 xs p 0 (m_first d) v) as (h3 & Hst & Hfr3 & Hd); [done|..].
    + rewrite length_app. simpl. lia.
    + intros q Hq. apply Hc2. set_solver.
    + lia.
    + lia.
    + unfold end_index in Ho. lia.
    + rewrite Hst, bind_Done. eexists _, _, (xs ++ [p]). split; [done|]. split; [|split].
      * rewrite all_items_app, Ha in Hd. pose proof (all_items_length h xs Hc).
        replace (end_index d xs) with (Z.of_nat (length xs) * chunk_size + 0) by (unfold end_index; lia).
        rewrite take_app_le in Hd by lia. done.
      * rewrite length_app. simpl. lia.
      * intros q Hq1 Hq2. rewrite Hfr3 by set_solver. apply Hfr. set_solver.
  - destruct xs as [|p ys _] using rev_ind; [destruct (Hn eq_refl); lia|].
    rewrite bind_Done.
    destruct (store_back h (m_list d) ys p (m_nextf d) (m_first d) v) as (h3 & Hst & Hfr3 & Hd);
      [done|done|done|lia|lia|unfold end_index in Ho; rewrite length_app in Ho; simpl in Ho; lia|].
    rewrite Hst, bind_Done. eexists _, _, (ys ++ [p]). split; [done|]. split; [|split; [lia|]].
    + replace (end_index d (ys ++ [p])) with (Z.of_nat (length ys) * chunk_size + m_nextf d)
        by (unfold end_index; rewrite length_app; simpl; lia). done.
    + intros q Hq _. apply Hfr3. set_solver.
Qed.

Lemma store_front h l p zs nx f v :
  is_list h l (p :: zs) → Z.of_nat (length (p :: zs)) < 2 ^ 64 →
  (∀ q, q ∈ p :: zs → Z.of_nat (length (items h q)) = chunk_size) →
  0 < f ≤ chunk_size → 0 < nx ≤ chunk_size → f ≤ Z.of_nat (length zs) * chunk_size + nx →
  ∃ h', store_item h (m_head l) (u32 (f - 1)) v = Done h' ∧ (∀ q, q ≠ p → h' !! q = h !! q) ∧
    is_deque h' (Deque (u32 (f - 1)) nx l) (p :: zs)
      (v :: drop (Z.to_nat f)
              (take (Z.to_nat (Z.of_nat (length zs) * chunk_size + nx)) (all_items h (p :: zs)))).
Proof.
  intros Hl Hlen Hc Hf Hn Ho. rewrite (il_head _ _ _ Hl). cbn [head].
  rewrite wrap_small by (unfold is_word; lia).
  destruct (store_spec h l [] p zs (f - 1) v Hl Hc) as (h' & Hs & Hl' & Hc' & Ha & Hfr); [lia|].
  exists h'. split; [done|]. split; [done|].
  assert (end_index (Deque (f - 1) nx l) (p :: zs) = Z.of_nat (length zs) * chunk_size + nx) as He.
  { unfold end_index. simpl. lia. }
  split; try done.
  - simpl. lia.
  - rewrite He. simpl. lia.
  - rewrite He. simpl in Ha |- *. rewrite Ha.
    rewrite drop_take_cons by (try (pose proof (all_items_length h _ Hc) as Hal; simpl in Hal; nia); lia).
    do 2 f_equal. lia.
Qed.

Lemma dq_push_front_spec h d xs vs v :
  is_deque h d xs vs → Z.of_nat (length xs) + 1 < 2 ^ 64 →
  ∃ d' h' xs', dq_push_front zero chunk_size d h v = Done (d', h') ∧ is_deque h' d' xs' (v :: vs) ∧
    Z.of_nat (length xs') ≤ Z.of_nat (length xs) + 1 ∧
    (∀ q, q ∉ xs → q ∉ xs' → h' !! q = h !! q).
Proof.
  intros [Hl Hs Hc Hb Ho Hn ->] Hlen. unfold dq_push_front.
  destruct (Z.eqb_spec (m_first d) 0) as [E|E].
  - destruct (new_chunk zero chunk_size h) as [p h1] eqn:Hnew.
    destruct (new_chunk_spec h p h1 Hnew) as (_ & _ & Hp1 & _ & Hlists).
    destruct (Hlists _ _ Hl) as [Hl1 Hp].
    destruct (push_front_spec h1 (m_list d) xs p Hl1 Hp1 Hp) as (l2 & h2 & -> & Hl2 & Hk).
    destruct (joined_chunk h h1 h2 xs p Hnew Hk Hp Hc) as (Hc2 & Hi & Ha & Hfr).
    rewrite !bind_Done.
    destruct (store_front h2 l2 p xs (m_nextf d) chunk_size v) as (h3 & Hst & Hfr3 & Hd); [done|..].
    + simpl. lia.
    + done.
    + lia.
    + lia.
    + unfold end_index in Ho. lia.
    + rewrite Hst, bind_Done. eexists _, _, (p :: xs). split; [done|]. split; [|split].
      * change (all_items h2 (p :: xs)) with (items h2 p ++ all_items h2 xs) in Hd.
        rewrite Hi, Ha in Hd. unfold end_index in Ho |- *. rewrite E in *. simpl drop.
        rewrite take_app_ge, drop_app_length' in Hd by (rewrite length_replicate; nia).
        rewrite length_replicate in Hd.
        replace (Z.to_nat (Z.of_nat (length xs) * chunk_size + m_nextf d - chunk_size)) with
          (Z.to_nat (Z.of_nat (length xs) * chunk_size + m_nextf d) - Z.to_nat chunk_size)%nat by lia.
        done.
      * simpl. lia.
      * intros q Hq1 Hq2. rewrite Hfr3 by set_solver. apply Hfr. done.
  - destruct xs as [|p zs]; [destruct (Hn eq_refl); lia|]. rewrite bind_Done.
    destruct (store_front h (m_list d) p zs (m_nextf d) (m_first d) v) as (h3 & Hst & Hfr3 & Hd);
      [done|done|done|lia|lia|unfold end_index in Ho; simpl in Ho; lia|].
    rewrite Hst, bind_Done. eexists _, _, (p :: zs). split; [done|]. split; [|split; [lia|]].
    + replace (end_index d (p :: zs)) with (Z.of_nat (length zs) * chunk_size + m_nextf d)
        by (unfold end_index; simpl; lia). done.
    + intros q Hq _. apply Hfr3. set_solver.
Qed.

(** Deleting a node that was taken out of the list. *)
Lemma is_list_delete h l xs p : is_list h l xs → p ∉ xs → is_list (delete p h) l xs.
Proof.
  intros [H1 H2 H3 H4 H5] Hp. split; try done. eapply seg_agree; [|done].
  intros q Hq. apply lookup_delete_ne. by intros ->.
Qed.

Lemma items_delete h p q : q ≠ p → items (delete p h) q = items h q.
Proof. intros. unfold items. by rewrite lookup_delete_ne. Qed.

(** What is left when a chunk was unlinked and deleted. *)
Lemma left_chunks h h1 p ys xs :
  links_only h h1 ys → p ∉ xs → (∀ q, q ∈ xs → Z.of_nat (length (items h q)) = chunk_size) →
  all_items (delete p h1) xs = all_items h xs ∧
  (∀ q, q ∈ xs → Z.of_nat (length (items (delete p h1) q)) = chunk_size).
Proof.
  intros Hk Hp Hc. assert (∀ q, q ∈ xs → items (delete p h1) q = items h q) as Hs.
  { intros q Hq. rewrite items_delete by set_solver. by eapply items_links_only. }
  split; [by apply all_items_agree|]. intros q Hq. rewrite Hs; auto.
Qed.

Lemma dq_first_spec h d xs v vs : is_deque h d xs (v :: vs) →
  ∃ p zs, xs = p :: zs ∧ load_item h (m_head (m_list d)) (m_first d) = Done v ∧
    vs = drop (Z.to_nat (m_first d + 1)) (take (Z.to_nat (end_index d xs)) (all_items h xs)).
Proof.
  intros Hd. pose proof (is_deque_length _ _ _ _ Hd) as Hlen. destruct Hd as [Hl Hs Hc Hb Ho Hn Hv].
  destruct xs as [|p zs]; [simpl in Hv; by rewrite take_nil, drop_nil in Hv|]. exists p, zs. split; [done|].
  destruct (load_spec h _ [] p zs (m_first d) Hl Hc) as (v' & Hld & Hv'); [lia|].
  rewrite (il_head _ _ _ Hl). cbn [head]. rewrite Hld. simpl in Hv', Hlen.
  assert (take (Z.to_nat (end_index d (p :: zs))) (all_items h (p :: zs)) !! Z.to_nat (m_first d) = Some v') as Hv2.
  { rewrite lookup_take_lt by lia. exact Hv'. }
  rewrite (drop_S _ _ _ Hv2) in Hv. injection Hv as -> ->. split; [done|]. f_equal. lia.
Qed.

Lemma dq_pop_front_spec h d xs v vs :
  is_deque h d xs (v :: vs) →
  ∃ d' h' xs', dq_pop_front chunk_size d h = Done (v, d', h') ∧ is_deque h' d' xs' vs ∧
    Z.of_nat (length xs') ≤ Z.of_nat (length xs) ∧ (∀ q, q ∉ xs → q ∉ xs' → h' !! q = h !! q).
Proof.
  intros Hd. unfold dq_pop_front. rewrite (dq_empty_spec _ _ _ _ Hd). rewrite bool_decide_eq_false_2 by done.
  destruct (dq_first_spec h d xs v vs Hd) as (p & zs & -> & -> & Hvs).
  pose proof (is_deque_length _ _ _ _ Hd) as Hlen. destruct Hd as [Hl Hs Hc Hb Ho _ _].
  unfold end_index in Hlen, Ho. simpl length in Hlen, Ho. simpl negb. cbn [kassert]. rewrite !bind_Done.
  rewrite wrap_small by (unfold is_word; lia).
  destruct (Z.eqb_spec (m_first d + 1) chunk_size) as [E|E].
  - destruct (pop_front_spec h (m_list d) p zs Hl) as (l1 & h1 & -> & Hl1 & Hk). rewrite bind_Done.
    cbn [deref]. rewrite bind_Done. pose proof (il_nodup _ _ _ Hl) as [Hp _]%NoDup_cons.
    destruct (left_chunks h h1 p _ zs Hk Hp) as [Ha Hc1]; [intros; apply Hc; by right|].
    assert ((if is_empty l1 then chunk_size else m_nextf d) = m_nextf d) as ->.
    { unfold is_empty. rewrite (il_head _ _ _ Hl1). destruct zs; [|done]. simpl in *. lia. }
    eexists _, _, zs. split; [done|]. split; [|split; [simpl; lia|]].
    + split; try done; simpl; try lia.
      * by apply is_list_delete.
      * simpl in Hs. lia.
      * unfold end_index. simpl. lia.
      * intros ->. simpl in *. lia.
      * rewrite Hvs, Ha, E. unfold end_index. cbn [length m_nextf m_first m_list]. change (Z.to_nat 0) with 0%nat. cbn [drop].
        change (all_items h (p :: zs)) with (items h p ++ all_items h zs).
        assert (length (items h p) = Z.to_nat chunk_size) as Hip by (assert (p ∈ p :: zs) as Hpz by left; specialize (Hc p Hpz); lia).
        rewrite take_app_ge, drop_app_length' by (rewrite ?Hip; lia). rewrite Hip, drop_0. f_equal. lia.
    + intros q Hq _. rewrite lookup_delete_ne by set_solver. by apply Hk.
  - eexists _, _, (p :: zs). split; [done|]. split; [|split; [lia|done]].
    split; try done; simpl; try lia. unfold end_index. simpl. lia.
Qed.

Lemma dq_last_spec h d xs v vs : is_deque h d xs (vs ++ [v]) →
  ∃ ys p, xs = ys ++ [p] ∧ load_item h (m_tail (m_list d)) (m_nextf d - 1) = Done v ∧
    vs = drop (Z.to_nat (m_first d)) (take (Z.to_nat (end_index d xs - 1)) (all_items h xs)).
Proof.
  intros Hd. pose proof (is_deque_length _ _ _ _ Hd) as Hlen. destruct Hd as [Hl Hs Hc Hb Ho Hn Hv].
  destruct xs as [|p ys _] using rev_ind.
  { simpl in Hv. rewrite take_nil, drop_nil in Hv. by destruct vs. }
  exists ys, p. split; [done|].
  destruct (load_spec h _ ys p [] (m_nextf d - 1) Hl Hc) as (v' & Hld & Hv'); [lia|].
  rewrite (il_tail _ _ _ Hl), last_snoc, Hld. rewrite length_app in Hlen. simpl in Hlen.
  assert (Z.of_nat (length ys) * chunk_size + (m_nextf d - 1) = end_index d (ys ++ [p]) - 1) as He
    by (unfold end_index; rewrite length_app; simpl; lia).
  rewrite He in Hv'.
  replace (Z.to_nat (end_index d (ys ++ [p]))) with (S (Z.to_nat (end_index d (ys ++ [p]) - 1))) in Hv by lia.
  rewrite (take_S_r _ _ _ Hv'), drop_app_le in Hv.
  - apply app_inj_tail in Hv as [-> ->]. done.
  - apply lookup_lt_Some in Hv'. rewrite length_take. lia.
Qed.

Lemma dq_pop_back_spec h d xs v vs :
  is_deque h d xs (vs ++ [v]) →
  ∃ d' h' xs', dq_pop_back chunk_size d h = Done (v, d', h') ∧ is_deque h' d' xs' vs ∧
    Z.of_nat (length xs') ≤ Z.of_nat (length xs) ∧ (∀ q, q ∉ xs → q ∉ xs' → h' !! q = h !! q).
Proof.
  intros Hd. unfold dq_pop_back. rewrite (dq_empty_spec _ _ _ _ Hd). rewrite bool_decide_eq_false_2 by by destruct vs.
  destruct (dq_last_spec h d xs v vs Hd) as (ys & p & -> & Hld & Hvs).
  pose proof (is_deque_length _ _ _ _ Hd) as Hlen. destruct Hd as [Hl Hs Hc Hb Ho _ _].
  unfold end_index in *. rewrite !length_app in *. cbn [length] in *. simpl negb. cbn [kassert].
  rewrite bind_Done, wrap_small, Hld, bind_Done by (unfold is_word; lia).
  destruct (Z.eqb_spec (m_nextf d - 1) 0) as [E|E].
  - destruct (pop_back_spec h (m_list d) ys p Hl) as (l1 & h1 & -> & Hl1 & Hk). rewrite bind_Done.
    cbn [deref]. rewrite bind_Done.
    assert (p ∉ ys) as Hp by (pose proof (il_nodup _ _ _ Hl) as (_ & Hdj & _)%NoDup_app; set_solver).
    destruct (left_chunks h h1 p _ ys Hk Hp) as [Ha Hc1]; [intros; apply Hc; set_solver|].
    assert ((if is_empty l1 then 0 else m_first d) = m_first d) as ->.
    { unfold is_empty. rewrite (il_head _ _ _ Hl1). destruct ys; [|done]. simpl in *. lia. }
    eexists _, _, ys. split; [done|]. split; [|split; [lia|]].
    + split; try done; cbn [m_first m_nextf m_list]; try lia.
      * by apply is_list_delete.
      * unfold end_index. simpl. lia.
      * intros ->. simpl in *. lia.
      * rewrite Hvs, Ha, all_items_app. unfold end_index. cbn [m_nextf].
        pose proof (all_items_length h ys) as Hal. rewrite take_app_le.
        -- do 2 f_equal. lia.
        -- specialize (Hal ltac:(set_solver)). lia.
    + intros q Hq _. rewrite lookup_delete_ne by set_solver. by apply Hk.
  - eexists _, _, (ys ++ [p]). split; [done|]. split; [|split; [rewrite length_app; simpl; lia|done]].
    split; try done; cbn [m_first m_nextf m_list]; try lia.
    + rewrite length_app. simpl. lia.
    + unfold end_index. rewrite length_app. simpl. lia.
    + by destruct ys.
    + rewrite Hvs. unfold end_index. rewrite length_app. cbn [m_nextf length]. do 2 f_equal. lia.
Qed.

Lemma clear_chunks_spec h l xs fuel :
  is_list h l xs → (length xs ≤ fuel)%nat →
  ∃ l' h', clear_chunks fuel l h = Done (l', h') ∧ is_list h' l' [] ∧
    (∀ q, h' !! q = if decide (q ∈ xs) then None else h !! q).
Proof.
  revert h l xs. induction fuel as [|fuel IH]; intros h l xs Hl Hf.
  - destruct xs; [|simpl in Hf; lia]. exists l, h. simpl. unfold is_empty.
    rewrite (il_head _ _ _ Hl). done.
  - cbn [clear_chunks]. unfold is_empty. rewrite (il_head _ _ _ Hl).
    destruct xs as [|x xs]; [by exists l, h|]. rewrite bool_decide_eq_false_2 by done.
    destruct (pop_front_spec h l x xs Hl) as (l1 & h1 & -> & Hl1 & Hk). rewrite bind_Done.
    cbn [deref]. rewrite bind_Done. pose proof (il_nodup _ _ _ Hl) as [Hx _]%NoDup_cons.
    destruct (IH (delete x h1) l1 xs) as (l' & h' & -> & Hl' & Hq); [by apply is_list_delete|simpl in Hf; lia|].
    exists l', h'. split; [done|]. split; [done|]. intros q. rewrite Hq.
    destruct (decide (q ∈ xs)); [by rewrite decide_True by by right|].
    destruct (decide (q = x)) as [->|]; [rewrite lookup_delete_eq, decide_True by left; done|].
    rewrite lookup_delete_ne, decide_False by set_solver. apply Hk. set_solver.
Qed.

(** ** Operation sequences *)
Inductive dq_op := DqPushFront (v : T) | DqPushBack (v : T) | DqPopFront | DqPopBack.

Definition dq_run1 d h (op : dq_op) : outcome (list T * deque * gmap loc (list_node chunk)) :=
  match op with
  | DqPushFront v => let* (d, h) := dq_push_front zero chunk_size d h v in Done ([], d, h)
  | DqPushBack v => let* (d, h) := dq_push_back zero chunk_size d h v in Done ([], d, h)
  | DqPopFront => let* (v, d, h) := dq_pop_front chunk_size d h in Done ([v], d, h)
  | DqPopBack => let* (v, d, h) := dq_pop_back chunk_size d h in Done ([v], d, h)
  end.

Fixpoint dq_run d h (ops : list dq_op) : outcome (list T * deque * gmap loc (list_node chunk)) :=
  match ops with
  | [] => Done ([], d, h)
  | op :: ops =>
      let* (r, d, h) := dq_run1 d h op in
      let* (rs, d, h) := dq_run d h ops in
      Done (r ++ rs, d, h)
  end.

(** The same operations on a list of values; popping from an empty deque fails the assertion. *)
Definition vals_op vs (op : dq_op) : outcome (list T * list T) :=
  match op with
  | DqPushFront v => Done ([], v :: vs)
  | DqPushBack v => Done ([], vs ++ [v])
  | DqPopFront => match vs with [] => Panic | v :: vs => Done ([v], vs) end
  | DqPopBack => match last vs with None => Panic | Some v => Done ([v], removelast vs) end
  end.

Fixpoint vals_run vs (ops : list dq_op) : outcome (list T * list T) :=
  match ops with
  | [] => Done ([], vs)
  | op :: ops =>
      let* (r, vs) := vals_op vs op in
      let* (rs, vs) := vals_run vs ops in
      Done (r ++ rs, vs)
  end.

Lemma dq_run1_spec h d xs vs op :
  is_deque h d xs vs → Z.of_nat (length xs) + 1 < 2 ^ 64 →
  match vals_op vs op with
  | Done (r, vs') => ∃ d' h' xs', dq_run1 d h op = Done (r, d', h') ∧ is_deque h' d' xs' vs' ∧
      Z.of_nat (length xs') ≤ Z.of_nat (length xs) + 1 ∧ (∀ q, q ∉ xs → q ∉ xs' → h' !! q = h !! q)
  | _ => dq_run1 d h op = Panic
  end.
Proof.
  intros Hd Hlen. destruct op as [v|v| |]; cbn [vals_op dq_run1].
  - destruct (dq_push_front_spec h d xs vs v Hd Hlen) as (d' & h' & xs' & -> & H). by exists d', h', xs'.
  - destruct (dq_push_back_spec h d xs vs v Hd Hlen) as (d' & h' & xs' & -> & H). by exists d', h', xs'.
  - destruct vs as [|v vs].
    + unfold dq_pop_front. by rewrite (dq_empty_spec _ _ _ _ Hd).
    + destruct (dq_pop_front_spec h d xs v vs Hd) as (d' & h' & xs' & -> & ? & ? & ?).
      exists d', h', xs'. split; [done|]. split; [done|]. split; [lia|done].
  - destruct vs as [|v vs _] using rev_ind; [|rewrite last_snoc, removelast_last].
    + cbn [last]. unfold dq_pop_back. by rewrite (dq_empty_spec _ _ _ _ Hd).
    + destruct (dq_pop_back_spec h d xs v vs Hd) as (d' & h' & xs' & -> & ? & ? & ?).
      exists d', h', xs'. split; [done|]. split; [done|]. split; [lia|done].
Qed.

Lemma new_deque_spec h : is_deque h (new_deque chunk_size) [] [].
Proof.
  split; simpl; try done; try lia; try apply is_list_empty; try set_solver.
  all: unfold end_index; simpl; try lia; by rewrite ?Z.sub_diag.
Qed.

(** *** Iteration *)

(** The iterator at the [k]-th slot of the chunks. *)
Definition iter_at xs (k : Z) : option loc * Z :=
  if decide (k = Z.of_nat (length xs) * chunk_size) then (None, 0)
  else (xs !! Z.to_nat (k / chunk_size), k mod chunk_size).

Lemma slot_split xs (k : Z) :
  0 ≤ k < Z.of_nat (length xs) * chunk_size →
  ∃ ys p zs, xs = ys ++ p :: zs ∧ Z.of_nat (length ys) = k / chunk_size ∧
    iter_at xs k = (Some p, k mod chunk_size) ∧ 0 ≤ k mod chunk_size < chunk_size.
Proof.
  intros Hk. assert (0 ≤ k / chunk_size < Z.of_nat (length xs)) as Hq.
  { split; [apply Z.div_pos; lia|]. apply Z.div_lt_upper_bound; lia. }
  destruct (lookup_lt_is_Some_2 xs (Z.to_nat (k / chunk_size))) as [p Hp]; [lia|].
  apply list_elem_of_split_length in Hp as Hs. destruct Hs as (ys & zs & -> & Hl).
  exists ys, p, zs. split; [done|]. split; [lia|]. split; [|by apply Z.mod_pos_bound; lia].
  unfold iter_at. rewrite decide_False, Hp by lia. done.
Qed.

Lemma iter_at_load h l xs k :
  is_list h l xs → (∀ q, q ∈ xs → Z.of_nat (length (items h q)) = chunk_size) →
  0 ≤ k < Z.of_nat (length xs) * chunk_size →
  ∃ v, load_item h (iter_at xs k).1 (iter_at xs k).2 = Done v ∧ is_Some (iter_at xs k).1 ∧
    all_items h xs !! Z.to_nat k = Some v.
Proof.
  intros Hl Hc Hk. destruct (slot_split xs k Hk) as (ys & p & zs & -> & Hy & -> & Hm).
  destruct (load_spec h l ys p zs (k mod chunk_size) Hl Hc Hm) as (v & Hv & Ha).
  exists v. split; [done|]. split; [by eexists|]. rewrite <- Ha. f_equal.
  rewrite Hy, Z.mul_comm, <- Z.div_mod by lia. done.
Qed.

Lemma not_multiple (m q r n k : Z) : k = n * q + r → 0 ≤ r → r + 1 < n → k + 1 = m * n → False.
Proof. intros -> Hr Hn He. assert (r + 1 = (m - q) * n) by lia. destruct (Z.le_gt_cases (m - q) 0); nia. Qed.

Lemma iter_at_incr h l xs k :
  is_list h l xs → 0 ≤ k < Z.of_nat (length xs) * chunk_size →
  iter_incr chunk_size h (iter_at xs k) = Done (iter_at xs (k + 1)).
Proof.
  intros Hl Hk. destruct (slot_split xs k Hk) as (ys & p & zs & -> & Hy & -> & Hm).
  pose proof (Z.div_mod k chunk_size ltac:(lia)) as Hdm.
  unfold iter_incr. simpl fst. simpl snd. rewrite wrap_small by (unfold is_word; lia).
  rewrite Z.geb_leb. destruct (Z.leb_spec chunk_size (k mod chunk_size + 1)).
  - cbn [deref]. rewrite bind_Done, (proj1 (seg_links h ys p zs (il_seg _ _ _ Hl))), bind_Done.
    f_equal. unfold iter_at. rewrite length_app in Hk |- *. cbn [length] in Hk |- *.
    assert (k + 1 = (k / chunk_size + 1) * chunk_size) as Hk1 by lia.
    rewrite Hk1, Z.div_mul, Z.mod_mul by lia. case_decide.
    + assert (length zs = 0)%nat by nia. by destruct zs.
    + f_equal. rewrite lookup_app_r by lia.
      replace (Z.to_nat (k / chunk_size + 1) - length ys)%nat with 1%nat by lia. by destruct zs.
  - f_equal. unfold iter_at.
    assert ((k + 1) / chunk_size = k / chunk_size ∧ (k + 1) mod chunk_size = k mod chunk_size + 1) as [-> ->].
    { split; symmetry; [apply Z.div_unique with (k mod chunk_size + 1)|
        apply Z.mod_unique with (k / chunk_size)]; lia. }
    rewrite decide_False.
    + f_equal. rewrite lookup_app_r by lia.
      replace (Z.to_nat (k / chunk_size) - length ys)%nat with 0%nat by lia. done.
    + intros He. by eapply (not_multiple _ _ _ _ _ Hdm); [apply Hm|..].
Qed.

Lemma iter_at_eq xs j k :
  NoDup xs → xs ≠ [] → 0 ≤ j ≤ Z.of_nat (length xs) * chunk_size →
  0 ≤ k ≤ Z.of_nat (length xs) * chunk_size →
  iter_eq (iter_at xs j) (iter_at xs k) = bool_decide (j = k).
Proof.
  intros Hnd Hne Hj Hk.
  assert (∀ i, i = Z.of_nat (length xs) * chunk_size ∨ i ≠ Z.of_nat (length xs) * chunk_size) as Hc by lia.
  assert (∀ i, 0 ≤ i ≤ Z.of_nat (length xs) * chunk_size → i ≠ Z.of_nat (length xs) * chunk_size →
    ∃ p, iter_at xs i = (Some p, i mod chunk_size) ∧ xs !! Z.to_nat (i / chunk_size) = Some p) as Hs.
  { intros i Hi Hn. destruct (slot_split xs i) as (ys & p & zs & -> & Hy & Hp & _); [lia|].
    exists p. split; [done|]. rewrite <- Hy, Nat2Z.id. by apply list_lookup_middle. }
  destruct (Hc j) as [Ej|Ej], (Hc k) as [Ek|Ek].
  - unfold iter_at. rewrite !decide_True by done. simpl. symmetry. apply bool_decide_eq_true_2. lia.
  - destruct (Hs k Hk Ek) as (p & -> & _). unfold iter_at. rewrite decide_True by done.
    unfold iter_eq. simpl. rewrite andb_false_r. symmetry. apply bool_decide_eq_false_2. lia.
  - destruct (Hs j Hj Ej) as (p & -> & _). unfold iter_at. rewrite decide_True by done.
    unfold iter_eq. simpl. rewrite andb_false_r. symmetry. apply bool_decide_eq_false_2. lia.
  - destruct (Hs j Hj Ej) as (p & -> & Hp), (Hs k Hk Ek) as (r & -> & Hr). unfold iter_eq. simpl.
    pose proof (Z.div_mod j chunk_size ltac:(lia)). pose proof (Z.div_mod k chunk_size ltac:(lia)).
    assert (0 ≤ j / chunk_size ∧ 0 ≤ k / chunk_size) by (split; apply Z.div_pos; lia).
    apply eq_bool_prop_intro. rewrite andb_True, !bool_decide_spec, Is_true_true, Z.eqb_eq.
    split; [|by intros ->; simplify_eq]. intros [Hm [= ->]].
    pose proof (NoDup_lookup _ _ _ _ Hnd Hp Hr). lia.
Qed.
Lemma iter_collect_spec h l xs j k fuel :
  is_list h l xs → (∀ q, q ∈ xs → Z.of_nat (length (items h q)) = chunk_size) → xs ≠ [] →
  0 ≤ j ≤ k → k ≤ Z.of_nat (length xs) * chunk_size → (Z.to_nat (k - j) ≤ fuel)%nat →
  iter_collect chunk_size fuel h (iter_at xs j) (iter_at xs k) =
    Done (drop (Z.to_nat j) (take (Z.to_nat k) (all_items h xs))).
Proof.
  intros Hl Hc Hne Hj Hk. revert j Hj. induction fuel as [|fuel IH]; intros j Hj Hf; simpl.
  all: rewrite iter_at_eq by (apply Hl || lia || done); case_bool_decide as He.
  - subst. rewrite drop_ge; [done|]. rewrite length_take. lia.
  - lia.
  - subst. rewrite drop_ge; [done|]. rewrite length_take. lia.
  - destruct (iter_at_load h l xs j Hl Hc) as (v & -> & Hs & Hv); [lia|].
    rewrite bool_decide_eq_true_2 by done. simpl. rewrite (iter_at_incr h l xs j Hl) by lia. simpl.
    rewrite IH by lia. simpl. f_equal. symmetry.
    replace (Z.to_nat (j + 1)) with (S (Z.to_nat j)) by lia. apply drop_S.
    rewrite lookup_take_lt by lia. done.
Qed.

Lemma iter_ends h d xs vs :
  is_deque h d xs vs → xs ≠ [] →
  iter_begin chunk_size d h = Done (iter_at xs (m_first d)) ∧
  iter_end chunk_size d h = Done (iter_at xs (end_index d xs)).
Proof.
  intros [Hl Hs Hc Hb Ho Hn Hv] Hne. unfold iter_begin, iter_end, iter_make. split.
  - rewrite (il_head _ _ _ Hl). destruct xs as [|x xs]; [done|]. cbn [head].
    rewrite Z.geb_leb, (proj2 (Z.leb_gt _ _)) by lia. unfold iter_at.
    rewrite decide_False by (simpl length; nia). by rewrite Z.div_small, Z.mod_small by lia.
  - rewrite (il_tail _ _ _ Hl). destruct xs as [|p ys _] using rev_ind; [done|]. rewrite last_snoc, Z.geb_leb.
    unfold iter_at, end_index. rewrite length_app. cbn [length].
    destruct (Z.leb_spec chunk_size (m_nextf d)).
    + rewrite (proj1 (seg_links h ys p [] (il_seg _ _ _ Hl))). by rewrite decide_True by lia.
    + rewrite decide_False by lia.
      assert (Z.of_nat (length ys + 1) * chunk_size + m_nextf d - chunk_size
        = Z.of_nat (length ys) * chunk_size + m_nextf d) as -> by lia.
      assert ((Z.of_nat (length ys) * chunk_size + m_nextf d) / chunk_size = Z.of_nat (length ys) ∧
        (Z.of_nat (length ys) * chunk_size + m_nextf d) mod chunk_size = m_nextf d) as [-> ->].
      { split; symmetry; [apply Z.div_unique with (m_nextf d)|
          apply Z.mod_unique with (Z.of_nat (length ys))]; lia. }
      rewrite Nat2Z.id, list_lookup_middle by done. done.
Qed.

(** ** Properties *)

(** a deque refines the list of its values.  Any sequence of pushes and pops at both ends
    runs without undefined behaviour, whatever the chunk size; it returns the values the operations
    on lists return, in particular a pop fails its assertion exactly when the deque is empty, and at
    the end the deque holds the list's values.  (The bound says the chunks are fewer than 2^64, so that the cached length is right.) *)
Theorem dq_run_refines h d xs vs ops :
  is_deque h d xs vs → Z.of_nat (length xs) + Z.of_nat (length ops) < 2 ^ 64 →
  match vals_run vs ops with
  | Done (rs, vs') => ∃ d' h' xs', dq_run d h ops = Done (rs, d', h') ∧ is_deque h' d' xs' vs' ∧
      dq_empty d' = bool_decide (vs' = [])
  | _ => dq_run d h ops = Panic
  end.
Proof.
  revert h d xs vs. induction ops as [|op ops IH]; intros h d xs vs Hd Hlen.
  { simpl. exists d, h, xs. split; [done|]. split; [done|]. by eapply dq_empty_spec. }
  cbn [vals_run dq_run length] in *.
  pose proof (dq_run1_spec h d xs vs op Hd ltac:(lia)) as H1.
  destruct (vals_op vs op) as [[r vs1]| | |] eqn:Ev; [|by rewrite H1..].
  destruct H1 as (d1 & h1 & xs1 & -> & Hd1 & Hx1 & _). rewrite !bind_Done.
  specialize (IH h1 d1 xs1 vs1 Hd1 ltac:(lia)).
  destruct (vals_run vs1 ops) as [[rs vs2]| | |]; [|by rewrite IH..].
  destruct IH as (d2 & h2 & xs2 & -> & Hd2 & He). rewrite !bind_Done. by exists d2, h2, xs2.
Qed.

(** iterating over a deque from [begin] to [end] terminates and visits exactly its values, in
    order, across the chunk boundaries and for partly filled first and last chunks. *)
Theorem dq_iterate h d xs vs :
  is_deque h d xs vs →
  ∃ b e, iter_begin chunk_size d h = Done b ∧ iter_end chunk_size d h = Done e ∧
    iter_collect chunk_size (length vs) h b e = Done vs.
Proof.
  intros Hd. pose proof (is_deque_length _ _ _ _ Hd) as Hlen.
  destruct (decide (xs = [])) as [->|Hne].
  - destruct Hd as [Hl Hs Hc Hb Ho Hn Hv]. simpl in Hv. rewrite take_nil, drop_nil in Hv. subst.
    unfold iter_begin, iter_end. rewrite (il_head _ _ _ Hl), (il_tail _ _ _ Hl).
    by eexists _, _.
  - destruct (iter_ends h d xs vs Hd Hne) as [-> ->]. eexists _, _. split; [done|]. split; [done|].
    destruct Hd as [Hl Hs Hc Hb Ho Hn Hv]. rewrite (iter_collect_spec h (m_list d) xs); try done.
    + by rewrite Hv.
    + lia.
    + unfold end_index. lia.
    + lia.
Qed.

(** [clear] frees every chunk of the deque and nothing else, and leaves an empty deque. *)
Theorem dq_clear_frees h d xs vs :
  is_deque h d xs vs →
  ∃ d' h', dq_clear chunk_size d h = Done (d', h') ∧ is_deque h' d' [] [] ∧
    (∀ q, h' !! q = if decide (q ∈ xs) then None else h !! q).
Proof.
  intros [Hl Hs Hc Hb Ho Hn Hv]. unfold dq_clear.
  destruct (clear_chunks_spec h (m_list d) xs (size h) Hl) as (l' & h' & -> & Hl' & Hq).
  { eapply seg_length; apply Hl. }
  simpl. eexists _, h'. split; [done|]. split; [|done].
  split; simpl; try done; try lia; try set_solver; unfold end_index; simpl; try lia.
  by rewrite take_nil, drop_nil.
Qed.
End values.

(** *** Instances on concrete deques *)
Lemma deque_3 : (0 < 3 < 2 ^ 32). Proof. lia. Qed.

Lemma dq_run_refines_witness :
  match vals_run [] [DqPushBack 1; DqPushBack 2; DqPushFront 0; DqPushBack 3; DqPopFront; DqPopBack] with
  | Done (rs, vs') => ∃ d' h' xs',
      dq_run 0 3 (new_deque 3) ∅ [DqPushBack 1; DqPushBack 2; DqPushFront 0; DqPushBack 3; DqPopFront; DqPopBack]
        = Done (rs, d', h') ∧ is_deque 3 h' d' xs' vs' ∧ dq_empty d' = bool_decide (vs' = [])
  | _ => False
  end.
Proof.
  exact (dq_run_refines 0 3 deque_3 ∅ (new_deque 3) [] [] 
    [DqPushBack 1; DqPushBack 2; DqPushFront 0; DqPushBack 3; DqPopFront; DqPopBack]
    (new_deque_spec 3 deque_3 ∅) eq_refl).
Defined.

(** A deque of chunk size 3 that holds 0 | 1 2 3 | 4 in its chunks. *)
Definition deque_0_4 : outcome (list Z * deque * gmap loc (list_node (list Z))) :=
  dq_run 0 3 (new_deque 3) ∅ [DqPushBack 1; DqPushFront 0; DqPushBack 2; DqPushBack 3; DqPushBack 4].

Lemma deque_0_4_spec : ∃ d h xs, deque_0_4 = Done ([], d, h) ∧ is_deque 3 h d xs [0; 1; 2; 3; 4].
Proof.
  destruct (dq_push_back_spec 0 3 deque_3 ∅ (new_deque 3) [] [] 1 (new_deque_spec 3 deque_3 ∅))
    as (d1 & h1 & x1 & E1 & H1 & L1 & _); [done|].
  destruct (dq_push_front_spec 0 3 deque_3 h1 d1 x1 [1] 0 H1) as (d2 & h2 & x2 & E2 & H2 & L2 & _);
    [simpl in *; lia|].
  destruct (dq_push_back_spec 0 3 deque_3 h2 d2 x2 [0; 1] 2 H2) as (d3 & h3 & x3 & E3 & H3 & L3 & _);
    [simpl in *; lia|].
  destruct (dq_push_back_spec 0 3 deque_3 h3 d3 x3 [0; 1; 2] 3 H3) as (d4 & h4 & x4 & E4 & H4 & L4 & _);
    [simpl in *; lia|].
  destruct (dq_push_back_spec 0 3 deque_3 h4 d4 x4 [0; 1; 2; 3] 4 H4) as (d5 & h5 & x5 & E5 & H5 & L5 & _);
    [simpl in *; lia|].
  exists d5, h5, x5. split; [|exact H5]. unfold deque_0_4. cbn [dq_run dq_run1].
  rewrite E1, !bind_Done, E2, !bind_Done, E3, !bind_Done, E4, !bind_Done, E5. done.
Qed.

Lemma dq_iterate_witness :
  ∃ d h b e, deque_0_4 = Done ([], d, h) ∧ iter_begin 3 d h = Done b ∧ iter_end 3 d h = Done e ∧
    iter_collect 3 5 h b e = Done [0; 1; 2; 3; 4].
Proof.
  destruct deque_0_4_spec as (d & h & xs & E & Hd).
  destruct (dq_iterate 3 deque_3 h d xs [0; 1; 2; 3; 4] Hd) as (b & e & H).
  exists d, h, b, e. exact (conj E H).
Defined.

Lemma dq_clear_frees_witness :
  ∃ d h d' h', deque_0_4 = Done ([], d, h) ∧ dq_clear 3 d h = Done (d', h') ∧ is_deque 3 h' d' [] [].
Proof.
  destruct deque_0_4_spec as (d & h & xs & E & Hd).
  destruct (dq_clear_frees 3 deque_3 h d xs [0; 1; 2; 3; 4] Hd) as (d' & h' & H1 & H2 & _).
  exists d, h, d', h'. exact (conj E (conj H1 H2)).
Defined.
