(* ===== verification/Bits.v ===== *)
(** * Integer helpers, bit sets and hashes

    Models src/libraries/util/include/util/util.h ([const_log2], [is_pow2], [log2]), misc.h
    ([byteswap32], [checksum]), bitset.h ([bitset], [sized_bitset]) and hash.h ([fnv1a],
    [hash_fold], [splitmix64], [inthash32]) on words of the C++ types' widths. *)
From S2P Require Import Prelude.

(** ** util.h *)
Fixpoint const_log2_fuel (fuel : nat) (n : Z) : Z :=
  match fuel with
  | O => 0
  | S fuel => if n <? 2 then 0 else 1 + const_log2_fuel fuel (n / 2)
  end.
(** 64 halvings reach 0 for every [size_t]. *)
Definition const_log2 (n : Z) : Z := const_log2_fuel 64 n.

Definition is_pow2 (n : Z) : bool := Z.land n (u64 (n - 1)) =? 0.

(** [__builtin_clzll], undefined for zero. *)
Definition clzll (n : Z) : outcome Z := if n =? 0 then Undef else Done (63 - Z.log2 n).

Definition log2 (i : Z) : outcome Z :=
  if i <? 2 then Done 0
  else let* clz := clzll (u64 (i - 1)) in Done (64 - clz).

Lemma const_log2_fuel_spec fuel n :
  0 < n < 2 ^ Z.of_nat fuel → const_log2_fuel fuel n = Z.log2 n.
Proof.
  revert n. induction fuel as [|fuel IH]; intros n Hn; [simpl in Hn; lia|].
  simpl. destruct (Z.ltb_spec n 2).
  - assert (n = 1) as -> by lia. done.
  - rewrite IH.
    + assert (0 < n / 2) by (apply Z.div_str_pos; lia). pose proof (Z.log2_nonneg (n / 2)).
      destruct (Z.log2_spec (n / 2)) as [Hl1 Hl2]; [done|]. symmetry. apply Z.log2_unique; [lia|].
      rewrite !Z.add_1_l, !Z.pow_succ_r by lia. rewrite Z.pow_succ_r in Hl2 by lia.
      pose proof (Z.div_mod n 2). pose proof (Z.mod_pos_bound n 2). lia.
    + rewrite Nat2Z.inj_succ, Z.pow_succ_r in Hn by lia. split; [apply Z.div_str_pos; lia|].
      apply Z.div_lt_upper_bound; lia.
Qed.

Lemma const_log2_spec n : 0 < n < 2 ^ 64 → const_log2 n = Z.log2 n.
Proof. intros. by apply const_log2_fuel_spec. Qed.

(** [util::log2] rounds up. *)
Lemma log2_spec i : is_u64 i → log2 i = Done (Z.log2_up i).
Proof.
  unfold is_word, log2. intros Hi. destruct (Z.ltb_spec i 2).
  - by rewrite Z.log2_up_eqn0 by lia.
  - rewrite wrap_small by (unfold is_word; lia). unfold clzll.
    rewrite (proj2 (Z.eqb_neq _ 0)) by lia. simpl. f_equal.
    rewrite Z.log2_up_eqn by lia. rewrite <- Z.sub_1_r. lia.
Qed.

Lemma is_pow2_spec n : is_u64 n → is_pow2 n = true ↔ n = 0 ∨ ∃ k, 0 ≤ k < 64 ∧ n = 2 ^ k.
Proof.
  unfold is_pow2, is_word. intros Hn. rewrite Z.eqb_eq.
  destruct (decide (n = 0)) as [->|Hz]; [simpl; naive_solver|].
  rewrite wrap_small by (unfold is_word; lia). split.
  - intros Hl. right. exists (Z.log2 n).
    assert (0 ≤ Z.log2 n < 64) as Hlog by (split; [apply Z.log2_nonneg|apply Z.log2_lt_pow2; lia]).
    split; [done|]. destruct (Z.log2_spec n) as [H1 H2]; [lia|].
    destruct (decide (n = 2 ^ Z.log2 n)) as [|Hne]; [done|exfalso].
    assert (Z.testbit (Z.land n (n - 1)) (Z.log2 n) = true) as Hb; [|by rewrite Hl, Z.bits_0 in Hb].
    rewrite Z.land_spec, Z.bit_log2 by lia. simpl.
    replace (Z.log2 n) with (Z.log2 (n - 1)); [apply Z.bit_log2; lia|].
    apply Z.log2_unique; lia.
  - intros [?|(k & Hk & ->)]; [done|]. apply Z.bits_inj'. intros i Hi.
    rewrite Z.land_spec, Z.bits_0, Z.pow2_bits_eqb by lia.
    destruct (Z.eqb_spec k i) as [->|]; [|done]. rewrite Z.sub_1_r, <- Z.ones_equiv, Z.ones_spec_high by lia. by rewrite andb_false_r.
Qed.

(** ** misc.h *)
Definition byteswap32 (x : Z) : Z :=
  Z.lor (Z.lor (Z.land (Z.shiftr x 24) 0x000000ff) (Z.land (Z.shiftr x 8) 0x0000ff00))
        (Z.lor (Z.land (u32 (Z.shiftl x 8)) 0x00ff0000) (Z.land (u32 (Z.shiftl x 24)) 0xff000000)).

(** The loop of [checksum] over the bytes of the region: [len - i] iterations. *)
Fixpoint checksum_from (c : list Z) (i : Z) (n : nat) (sum : Z) : outcome Z :=
  match n with
  | O => Done sum
  | S n => let* b := arr_get c i in checksum_from c (i + 1) n (u8 (sum + b))
  end.
Definition checksum (c : list Z) (len off : Z) : outcome Z :=
  checksum_from c off (Z.to_nat (len - off)) 0.

(** Extracting a byte from a shift and a mask. *)
Lemma byteswap32_byte x i :
  is_u32 x → 0 ≤ i < 4 →
  u8 (Z.shiftr (byteswap32 x) (8 * i)) = u8 (Z.shiftr x (8 * (3 - i))).
Proof.
  intros Hx Hi. apply (word_ext 8); [lia|apply wrap_word; lia..|]. intros j Hj.
  unfold byteswap32. change 0x000000ff with (Z.ones 8).
  change 0x0000ff00 with (Z.shiftl (Z.ones 8) 8). change 0x00ff0000 with (Z.shiftl (Z.ones 8) 16).
  change 0xff000000 with (Z.shiftl (Z.ones 8) 24).
  rewrite !wrap_testbit, !Z.shiftr_spec by lia. f_equal.
  rewrite !Z.lor_spec, !Z.land_spec, !wrap_testbit, !Z.shiftl_spec, !Z.shiftr_spec by lia.
  rewrite !Z.testbit_ones by lia.
  assert (i = 0 ∨ i = 1 ∨ i = 2 ∨ i = 3) as [-> | [-> | [-> | ->]]] by lia; zcases; try lia; simpl;
    rewrite ?andb_true_r, ?andb_false_r, ?orb_false_r, ?orb_false_l; f_equal; lia.
Qed.

Lemma byteswap32_word x : is_u32 x → is_u32 (byteswap32 x).
Proof.
  intros Hx. unfold byteswap32. repeat apply lor_word; try lia; rewrite Z.land_comm; apply land_word; try lia;
    try (unfold is_word; lia); try (apply Z.shiftr_nonneg, Hx); apply wrap_range; lia.
Qed.

(** A 32-bit word is determined by its four bytes. *)
Lemma u32_bytes_ext a b :
  is_u32 a → is_u32 b → (∀ i, 0 ≤ i < 4 → u8 (Z.shiftr a (8 * i)) = u8 (Z.shiftr b (8 * i))) → a = b.
Proof.
  intros Ha Hb He. apply (word_ext 32); [lia|done..|]. intros j Hj.
  assert (0 ≤ j / 8 < 4) as Hq by (split; [apply Z.div_pos; lia|apply Z.div_lt_upper_bound; lia]).
  specialize (He (j / 8) Hq). pose proof (Z.div_mod j 8). pose proof (Z.mod_pos_bound j 8).
  apply (f_equal (λ z, Z.testbit z (j mod 8))) in He.
  rewrite !wrap_testbit, !Z.shiftr_spec, (proj2 (Z.ltb_lt _ _)) in He by lia.
  replace (j mod 8 + 8 * (j / 8)) with j in He by lia. done.
Qed.

(** ** bitset.h

    [bitset<I>] for an unsigned type [I] of [w] bits. *)
Section bitset.
Context (w : Z).

Definition bs_bit (i : Z) : outcome Z :=
  if (0 <=? i) && (i <? w) then Done (bit i) else Undef.
Definition bs_get (b i : Z) : outcome bool :=
  let* m := bs_bit i in Done (negb (Z.land b m =? 0)).
Definition bs_set (b i : Z) : outcome Z := let* m := bs_bit i in Done (Z.lor b m).
Definition bs_clear (b i : Z) : outcome Z := let* m := bs_bit i in Done (Z.land b (wnot w m)).
Definition bs_set_value (b i : Z) (value : bool) : outcome Z :=
  if value then bs_set b i else bs_clear b i.
Definition bs_or (a b : Z) : Z := Z.lor a b.
Definition bs_and (a b : Z) : Z := Z.land a b.
Definition bs_empty (b : Z) : bool := b =? 0.

(** The two's complement value of the low 32 bits. *)
Definition sint32 (z : Z) : Z := let u := u32 z in if u <? 2 ^ 31 then u else u - 2 ^ 32.

(** [~((1 << count) - 1)] is computed in [int]. *)
Definition int_mask (count : Z) : outcome Z :=
  if (0 <=? count) && (count <? 31) then Done (Z.lnot (Z.shiftl 1 count - 1)) else Undef.

Definition bs_range (b start count : Z) : outcome Z :=
  let* m := int_mask count in
  if (0 <=? start) && (start <? w) then Done (Z.land (Z.shiftr b start) (wrap w m)) else Undef.

Definition bs_set_range (b start count val : Z) : outcome Z :=
  let* m := int_mask count in
  if (0 <=? start) && (start <? 32) && (start <? w) then
    let mask := wrap w (sint32 (Z.shiftl m start)) in
    Done (Z.lor (Z.land b (wnot w mask)) (Z.land (wrap w (Z.shiftl val start)) mask))
  else Undef.

Context (Hw : 0 < w).

Lemma bs_bit_Done i : 0 ≤ i < w → bs_bit i = Done (bit i).
Proof. intros. unfold bs_bit. by rewrite (proj2 (Z.leb_le _ _)), (proj2 (Z.ltb_lt _ _)) by lia. Qed.

Lemma bs_get_testbit b i : 0 ≤ i < w → bs_get b i = Done (Z.testbit b i).
Proof.
  intros Hi. unfold bs_get. rewrite bs_bit_Done by done. simpl. f_equal.
  destruct (Z.testbit b i) eqn:Hb.
  - apply negb_true_iff, Z.eqb_neq. intros Hz. apply (f_equal (λ z, Z.testbit z i)) in Hz.
    rewrite Z.land_spec, bit_testbit, bool_decide_eq_true_2, Hb, Z.bits_0 in Hz by lia. done.
  - apply negb_false_iff, Z.eqb_eq, word_zero_bits. intros j Hj.
    rewrite Z.land_spec, bit_testbit by lia. case_bool_decide; subst; [by rewrite Hb|apply andb_false_r].
Qed.

Lemma bs_set_value_spec b i v :
  is_word w b → 0 ≤ i < w →
  ∃ b', bs_set_value b i v = Done b' ∧ is_word w b' ∧
    ∀ j, 0 ≤ j < w → Z.testbit b' j = if decide (i = j) then v else Z.testbit b j.
Proof.
  intros Hb Hi. unfold bs_set_value, bs_set, bs_clear. rewrite bs_bit_Done by done. destruct v; simpl.
  - eexists. split; [done|]. split; [apply lor_word; [lia|done|by apply bit_word]|].
    intros j Hj. rewrite Z.lor_spec, bit_testbit by lia. case_decide; case_bool_decide; try done.
    + by rewrite orb_true_r.
    + by rewrite orb_false_r.
  - eexists. split; [done|]. split; [apply land_word; [lia|done|apply wrap_range; lia]|].
    intros j Hj. rewrite Z.land_spec, wnot_testbit, bit_testbit, (proj2 (Z.ltb_lt _ _)) by lia.
    case_decide; case_bool_decide; try done; simpl; [by rewrite andb_false_r|by rewrite andb_true_r].
Qed.
End bitset.

(** [sized_bitset<N>]: an array of 64-bit words. *)
Definition num_elems (n : Z) : Z := (n + 63) / 64.
Definition sb_word (i : Z) : Z := Z.shiftr i 6.
Definition sb_bit (i : Z) : Z := bit (Z.land i 63).
Definition sb_get (m_bits : list Z) (i : Z) : outcome bool :=
  let* b := arr_get m_bits (sb_word i) in Done (negb (Z.land b (sb_bit i) =? 0)).
Definition sb_set (m_bits : list Z) (i : Z) : outcome (list Z) :=
  let* b := arr_get m_bits (sb_word i) in arr_set m_bits (sb_word i) (Z.lor b (sb_bit i)).
Definition sb_clear (m_bits : list Z) (i : Z) : outcome (list Z) :=
  let* b := arr_get m_bits (sb_word i) in
  arr_set m_bits (sb_word i) (Z.land b (wnot 64 (sb_bit i))).
Definition sb_empty (m_bits : list Z) : bool := forallb (λ b, b =? 0) m_bits.

(** The bit of index [i] in the array. *)
Definition sb_test (m_bits : list Z) (i : Z) : bool := Z.testbit (znth m_bits (i / 64)) (i mod 64).

Lemma sb_index i : 0 ≤ i → sb_word i = i / 64 ∧ sb_bit i = bit (i mod 64).
Proof.
  intros. unfold sb_word, sb_bit. rewrite Z.shiftr_div_pow2 by lia. split; [done|].
  change 63 with (Z.ones 6). by rewrite Z.land_ones by lia.
Qed.

Lemma sb_word_bound (m_bits : list Z) i :
  0 ≤ i < 64 * Z.of_nat (length m_bits) → 0 ≤ i / 64 < Z.of_nat (length m_bits) ∧ 0 ≤ i mod 64 < 64.
Proof.
  intros. split; [|by apply Z.mod_pos_bound]. split; [apply Z.div_pos; lia|].
  apply Z.div_lt_upper_bound; lia.
Qed.

(** ** hash.h *)
Definition val_32 : Z := 0x811c9dc5.
Definition prime_32 : Z := 0x1000193.
Definition val_64 : Z := 0xcbf29ce484222325.
Definition prime_64 : Z := 0x100000001b3.

(** A [char] (signed on this target) widened to an unsigned type of [w] bits. *)
Definition char_bits (w c : Z) : Z := wrap w (if c <? 128 then c else c - 256).

(** The hashes of 0-terminated strings, given as the list of their bytes before the terminator. *)
Definition hash32_const (str : list Z) : Z :=
  foldl (λ value c, u32 (Z.lxor value (char_bits 32 c) * prime_32)) val_32 str.
Definition hash64_const (str : list Z) : Z :=
  foldl (λ value c, u64 (Z.lxor value (char_bits 64 c) * prime_64)) val_64 str.
Definition hash64_string (s : option (list Z)) : Z :=
  match s with
  | None => val_64
  | Some s => foldl (λ value c, u64 (Z.lxor value (char_bits 64 c) * prime_64)) val_64 s
  end.
(** The hash of a buffer of bytes. *)
Definition hash64 (v : list Z) : Z :=
  foldl (λ value b, u64 (Z.lxor value b * prime_64)) val_64 v.

Definition hash_fold2 (n value : Z) : Z := Z.lxor (Z.shiftr value n) (Z.land value (Z.ones n)).
Definition hash_fold4 (n value : Z) : Z := hash_fold2 n (hash_fold2 (2 * n) value).

Definition splitmix64 (v : Z) : Z :=
  let v := u64 (Z.lxor v (Z.shiftr v 30) * 0xbf58476d1ce4e5b9) in
  let v := u64 (Z.lxor v (Z.shiftr v 27) * 0x94d049bb133111eb) in
  Z.lxor v (Z.shiftr v 31).

Definition inthash32 (v : Z) : Z :=
  let v := u32 (Z.lxor (Z.shiftr v 16) v * 0x45d9f3b) in
  let v := u32 (Z.lxor (Z.shiftr v 16) v * 0x45d9f3b) in
  Z.lxor (Z.shiftr v 16) v.

(** [hash<uint64_t>] and its narrower instances. *)
Definition hash_uint (i : Z) : Z := splitmix64 i.

(** *** The integer hashes are invertible *)
Definition unsplitmix64 (h : Z) : Z :=
  let v := Z.lxor h (Z.lxor (Z.shiftr h 31) (Z.shiftr h 62)) in
  let v := u64 (v * 3573116690164977347) in
  let v := Z.lxor v (Z.lxor (Z.shiftr v 27) (Z.shiftr v 54)) in
  let v := u64 (v * 10871156337175269513) in
  Z.lxor v (Z.lxor (Z.shiftr v 30) (Z.shiftr v 60)).

Lemma unxorshift w k k2 v :
  0 ≤ w → 0 < k → w ≤ 3 * k → k2 = 2 * k → is_word w v →
  let x := Z.lxor v (Z.shiftr v k) in
  Z.lxor x (Z.lxor (Z.shiftr x k) (Z.shiftr x k2)) = v.
Proof.
  intros Hw Hk Hwk -> Hv x. apply Z.bits_inj'. intros i Hi. unfold x.
  rewrite !Z.lxor_spec, !Z.shiftr_spec, !Z.lxor_spec, !Z.shiftr_spec by lia.
  rewrite (word_testbit_high w v (i + 2 * k + k)) by (done || lia).
  replace (i + k + k) with (i + 2 * k) by lia. btauto.
Qed.

Lemma unmul w a b v :
  0 ≤ w → (a * b) mod 2 ^ w = 1 mod 2 ^ w → is_word w v → wrap w (wrap w (v * a) * b) = v.
Proof.
  intros Hw Hab Hv. unfold wrap. rewrite Zmult_mod_idemp_l, <- Z.mul_assoc, <- Zmult_mod_idemp_r, Hab.
  rewrite Zmult_mod_idemp_r, Z.mul_1_r. by apply Z.mod_small.
Qed.

Lemma splitmix64_word v : is_u64 v → is_u64 (splitmix64 v).
Proof.
  intros Hv. unfold splitmix64. apply lxor_word; [lia|apply wrap_word; lia|].
  apply shiftr_word; [lia..|]. apply wrap_word. lia.
Qed.

(** ** Properties *)

(** the integer hash of the kernel's maps loses nothing: [splitmix64] is a bijection on
    64-bit words, with the inverse [unsplitmix64], so two different keys never have the same hash. *)
Theorem splitmix64_roundtrip v :
  is_u64 v → is_u64 (hash_uint v) ∧ unsplitmix64 (hash_uint v) = v.
Proof.
  intros Hv. split; [by apply splitmix64_word|].
  set (v1 := Z.lxor v (Z.shiftr v 30)).
  assert (is_u64 v1) as H1 by (apply lxor_word; [lia|done|apply shiftr_word; [lia..|done]]).
  set (v2 := u64 (v1 * 0xbf58476d1ce4e5b9)).
  assert (is_u64 v2) as H2 by (apply wrap_word; lia).
  set (v3 := Z.lxor v2 (Z.shiftr v2 27)).
  assert (is_u64 v3) as H3 by (apply lxor_word; [lia|done|apply shiftr_word; [lia..|done]]).
  set (v4 := u64 (v3 * 0x94d049bb133111eb)).
  assert (is_u64 v4) as H4 by (apply wrap_word; lia).
  unfold hash_uint. change (splitmix64 v) with (Z.lxor v4 (Z.shiftr v4 31)). unfold unsplitmix64.
  rewrite (unxorshift 64 31 62 v4) by (done || lia). unfold v4.
  rewrite (unmul 64 _ 3573116690164977347 v3) by (done || reflexivity). unfold v3.
  rewrite (unxorshift 64 27 54 v2) by (done || lia). unfold v2.
  rewrite (unmul 64 _ 10871156337175269513 v1) by (done || reflexivity). unfold v1.
  by rewrite (unxorshift 64 30 60 v) by (done || lia).
Qed.

(** [byteswap32] reverses the four bytes of a word, and applied twice gives the word back. *)
Theorem byteswap32_correct x :
  is_u32 x →
  (∀ i, 0 ≤ i < 4 → u8 (Z.shiftr (byteswap32 x) (8 * i)) = u8 (Z.shiftr x (8 * (3 - i)))) ∧
  byteswap32 (byteswap32 x) = x.
Proof.
  intros Hx. split; [intros; by apply byteswap32_byte|].
  apply u32_bytes_ext; [by apply byteswap32_word, byteswap32_word|done|]. intros i Hi.
  rewrite byteswap32_byte, byteswap32_byte by (done || lia || by apply byteswap32_word). do 3 f_equal. lia.
Qed.

(** a [sized_bitset] is a set of indices.  [set] and [clear] change the bit of their index and
    no other, across word boundaries, and [get] reads it. *)
Theorem sized_bitset_correct m_bits i :
  Forall is_u64 m_bits → 0 ≤ i < 64 * Z.of_nat (length m_bits) →
  sb_get m_bits i = Done (sb_test m_bits i) ∧
  (∃ m', sb_set m_bits i = Done m' ∧ length m' = length m_bits ∧ Forall is_u64 m' ∧
     ∀ j, 0 ≤ j → sb_test m' j = if decide (i = j) then true else sb_test m_bits j) ∧
  (∃ m', sb_clear m_bits i = Done m' ∧ length m' = length m_bits ∧ Forall is_u64 m' ∧
     ∀ j, 0 ≤ j → sb_test m' j = if decide (i = j) then false else sb_test m_bits j).
Proof.
  intros Hm Hi. destruct (sb_word_bound m_bits i Hi) as [Hq Hr].
  destruct (sb_index i) as [Ew Eb]; [lia|].
  assert (is_u64 (znth m_bits (i / 64))) as Hz by (apply znth_Forall; [unfold is_word; lia|done]).
  unfold sb_get, sb_set, sb_clear. rewrite Ew, Eb, arr_get_znth by done. simpl.
  rewrite !arr_set_Done by done.
  assert (∀ j, 0 ≤ j → i ≠ j → i / 64 = j / 64 → i mod 64 ≠ j mod 64) as Hinj.
  { intros j Hj Hne He Hmod. apply Hne. rewrite (Z.div_mod i 64), (Z.div_mod j 64) by lia. congruence. }
  split; [|split].
  - pose proof (bs_get_testbit 64 (znth m_bits (i / 64)) (i mod 64) Hr) as Hg.
    unfold bs_get in Hg. rewrite bs_bit_Done in Hg by done. exact Hg.
  - destruct (bs_set_value_spec 64 ltac:(lia) _ (i mod 64) true Hz Hr) as (b' & Hb & Hw & Ht).
    unfold bs_set_value, bs_set in Hb. rewrite bs_bit_Done in Hb by done. simpl in Hb. injection Hb as Hb.
    rewrite Hb. eexists. split; [done|]. split; [apply length_insert|]. split; [by apply Forall_insert|].
    intros j Hj. unfold sb_test. rewrite znth_insert by done. pose proof (Z.mod_pos_bound j 64).
    destruct (decide (i = j)) as [<-|]; [rewrite decide_True, Ht, decide_True by (done || lia); done|].
    destruct (decide (i / 64 = j / 64)) as [He|]; [|done].
    rewrite Ht, decide_False by (auto || lia). by rewrite He.
  - destruct (bs_set_value_spec 64 ltac:(lia) _ (i mod 64) false Hz Hr) as (b' & Hb & Hw & Ht).
    unfold bs_set_value, bs_clear in Hb. rewrite bs_bit_Done in Hb by done. simpl in Hb. injection Hb as Hb.
    rewrite Hb. eexists. split; [done|]. split; [apply length_insert|]. split; [by apply Forall_insert|].
    intros j Hj. unfold sb_test. rewrite znth_insert by done. pose proof (Z.mod_pos_bound j 64).
    destruct (decide (i = j)) as [<-|]; [rewrite decide_True, Ht, decide_True by (done || lia); done|].
    destruct (decide (i / 64 = j / 64)) as [He|]; [|done].
    rewrite Ht, decide_False by (auto || lia). by rewrite He.
Qed.

(** [bitset::range] keeps the wrong side of its mask.  Asked for the [count] bits from [start]
    it returns those bits cleared and everything above them kept: a set whose highest bit is in the
    range reads as 0. *)
Theorem bitset_range_inverted w b start count :
  0 < w → is_word w b → 0 ≤ start < w → 0 ≤ count < 31 →
  ∃ r, bs_range w b start count = Done r ∧
    (∀ j, 0 ≤ j < w → Z.testbit r j = if decide (j < count) then false else Z.testbit b (start + j)) ∧
    (b < 2 ^ (start + count) → r = 0).
Proof.
  intros Hw Hb Hs Hc. unfold bs_range, int_mask.
  rewrite (proj2 (Z.leb_le 0 count)), (proj2 (Z.ltb_lt count 31)) by lia. simpl.
  rewrite (proj2 (Z.leb_le 0 start)), (proj2 (Z.ltb_lt start w)) by lia. simpl.
  eexists. split; [done|].
  assert (∀ j, 0 ≤ j < w → Z.testbit (Z.land (Z.shiftr b start)
    (wrap w (Z.lnot (Z.shiftl 1 count - 1)))) j = if decide (j < count) then false else Z.testbit b (start + j)) as Ht.
  { intros j Hj. rewrite Z.land_spec, Z.shiftr_spec, wrap_testbit, Z.lnot_spec, (proj2 (Z.ltb_lt j w)) by lia.
    rewrite Z.shiftl_1_l, Z.sub_1_r, <- Z.ones_equiv, Z.testbit_ones_nonneg by lia.
    case_decide; zcases; try lia; simpl; rewrite ?andb_false_r, ?andb_true_r; try done; f_equal; lia. }
  split; [done|]. intros Hlt. apply (word_ext w); [lia| |unfold is_word; lia|].
  - apply land_word; [lia|apply shiftr_word; [lia..|done]|apply wrap_range; lia].
  - intros j Hj. rewrite Ht, Z.bits_0 by done. case_decide; [done|].
    apply (word_testbit_high (start + count)); [lia|split; [apply Hb|done]|lia].
Qed.

(** *** Instances *)
Lemma splitmix64_roundtrip_witness :
  is_u64 (hash_uint 12345) ∧ unsplitmix64 (hash_uint 12345) = 12345.
Proof. apply (splitmix64_roundtrip 12345). unfold is_word. lia. Defined.

Lemma byteswap32_correct_witness : byteswap32 (byteswap32 0x12345678) = 0x12345678.
Proof. apply (byteswap32_correct 0x12345678). unfold is_word. lia. Defined.

Lemma sized_bitset_correct_witness : ∃ m', sb_set [0; 0] 70 = Done m' ∧ sb_test m' 70 = true.
Proof.
  destruct (sized_bitset_correct [0; 0] 70) as (_ & (m' & H1 & _ & _ & H2) & _).
  - repeat (apply Forall_cons_2; [unfold is_word; lia|]). apply Forall_nil_2.
  - simpl. lia.
  - exists m'. split; [exact H1|]. rewrite H2 by lia. reflexivity.
Defined.

Lemma bitset_range_inverted_witness : ∃ r, bs_range 64 0xff0 4 8 = Done r ∧ r = 0.
Proof.
  destruct (bitset_range_inverted 64 0xff0 4 8) as (r & H1 & _ & H2); [unfold is_word; lia..|].
  exists r. split; [exact H1|]. apply H2. lia.
Defined.
