(* ===== verification/OutFile.v ===== *)
(** * Files that the build's scripts write

    A Python binary file opened for writing, as used by scripts/build_symbol_table.py, scripts/mkj6romfs.py
    and scripts/bonnibel/manifest.py: its bytes and its position.  [write] past the end fills the hole with
    zeros, [write] inside the file replaces, and writing nothing does nothing.  [pack] is [struct.pack] of one unsigned integer, which raises
    an error ([Panic]) for a value that does not fit. *)
From S2P Require Import Prelude.

Record file := File { content : list Z; pos : nat }.
Definition new_file : file := File [] 0.
Definition tell (f : file) : Z := Z.of_nat (pos f).
Definition seek (f : file) (p : Z) : file := File (content f) (Z.to_nat p).
(** [seek(n, 1)] *)
Definition seek_on (f : file) (n : Z) : file := File (content f) (Z.to_nat (Z.of_nat (pos f) + n)).
Definition write (f : file) (bs : list Z) : file :=
  match bs with
  | [] => f
  | _ =>
      let c := content f ++ replicate (pos f - length (content f)) 0 in
      File (take (pos f) c ++ bs ++ drop (pos f + length bs) c) (pos f + length bs)
  end.
Definition pack (n : nat) (v : Z) : outcome (list Z) := if (0 <=? v) && (v <? 256 ^ Z.of_nat n) then Done (le_bytes n v) else Panic.

(** ** Writing at the end, past it and inside *)

Lemma write_end c bs : write (File c (length c)) bs = File (c ++ bs) (length (c ++ bs)).
Proof.
  destruct bs as [|b bs]; [by rewrite app_nil_r|]. unfold write. cbn [content pos]. rewrite Nat.sub_diag. cbn [replicate]. rewrite app_nil_r, take_ge by lia.
  rewrite (drop_ge _ (_ + _)) by lia. by rewrite app_nil_r, (length_app c).
Qed.
(** The hole is there as soon as something is written behind it. *)
Lemma write_gap c k bs : bs ≠ [] → write (File c (length c + k)) bs = write (File (c ++ replicate k 0) (length (c ++ replicate k 0))) bs.
Proof.
  intros Hb. rewrite write_end. destruct bs as [|b bs]; [done|]. unfold write. cbn [content pos]. replace (length c + k - length c)%nat with k by lia.
  rewrite take_ge by (rewrite length_app, length_replicate; lia). rewrite drop_ge by (rewrite length_app, length_replicate; lia). rewrite app_nil_r.
  f_equal. rewrite !(length_app _ (b :: bs)), length_app, length_replicate. lia.
Qed.
Lemma write_over a old b bs : length old = length bs → write (File (a ++ old ++ b) (length a)) bs = File (a ++ bs ++ b) (length a + length bs).
Proof.
  intros Hl. destruct bs as [|x bs]; [destruct old; [|done]; cbn; f_equal; lia|]. unfold write. cbn [content pos].
  replace (length a - length (a ++ old ++ b))%nat with O by (rewrite length_app; lia). cbn [replicate]. rewrite app_nil_r.
  rewrite take_app_length. f_equal. do 2 f_equal. rewrite drop_app_add'; [|done]. by rewrite <-Hl, drop_app_length.
Qed.
Lemma write_start old b bs : length old = length bs → write (File (old ++ b) 0) bs = File (bs ++ b) (length bs).
Proof. intros H. exact (write_over [] old b bs H). Qed.
Lemma pack_Done n v : 0 ≤ v < 256 ^ Z.of_nat n → pack n v = Done (le_bytes n v).
Proof. intros [H1 H2]. unfold pack. by rewrite (proj2 (Z.leb_le _ _) H1), (proj2 (Z.ltb_lt _ _) H2). Qed.
Lemma pack_inv n v bs : pack n v = Done bs → 0 ≤ v < 256 ^ Z.of_nat n ∧ bs = le_bytes n v.
Proof. unfold pack. destruct (Z.leb_spec 0 v), (Z.ltb_spec v (256 ^ Z.of_nat n)); cbn [andb]; try done. intros [= <-]. done. Qed.
