(* ===== verification/SymbolTable.v ===== *)
(** * Symbol tables

    The kernel's symbols, for the panic handler: scripts/build_symbol_table.py writes the table
    ([write_table]) and src/kernel/panic.serial/symbol_table.cpp reads it from memory ([symbol_table_new],
    [find_symbol]).  Names are their UTF-8 bytes.

    [symbols_found] shows that an address in a symbol gives the name of the first symbol that holds it, and
    any other address none. *)
From S2P Require Import Prelude Bytes OutFile.

(** ** The script *)

Record sym := Sym { s_addr : Z; s_size : Z; s_name : list Z }.
Definition index_entry : Z := 24.

(** The names, each with its terminator, and where they are. *)
Fixpoint write_names (f : file) (syms : list sym) : file * list Z :=
  match syms with
  | [] => (f, [])
  | s :: syms => let (f', ps) := write_names (write (write f (s_name s)) [0]) syms in (f', tell f :: ps)
  end.
Fixpoint write_index (f : file) (syms : list (sym * Z)) : outcome file :=
  match syms with
  | [] => Done f
  | (s, p) :: syms =>
      let* b1 := pack 8 (s_addr s) in
      let* b2 := pack 8 (s_size s) in
      let* b3 := pack 8 p in
      write_index (write f (b1 ++ b2 ++ b3)) syms
  end.
Definition write_table (syms : list sym) : outcome file :=
  let* c := pack 8 (Z.of_nat (length syms)) in
  let f := write new_file c in
  let index_pos := tell f in
  let (f, ps) := write_names (seek_on f (index_entry * Z.of_nat (length syms))) syms in
  write_index (seek f index_pos) (zip syms ps).

(** ** The panic handler *)

Record symbol_table := Table { m_data : Z; m_entries : Z; m_count : Z }.
Definition symbol_table_new (pm : physical) (data : Z) : outcome symbol_table :=
  let* count := read_le pm data 8 in Done (Table data (u64 (data + 8)) count).
(** The first result of a loop over addresses. *)
Fixpoint first_of (body : Z → outcome (option Z)) (l : list Z) : outcome (option Z) :=
  match l with
  | [] => Done None
  | a :: l => let* r := body a in match r with Some x => Done (Some x) | None => first_of body l end
  end.
Definition check_entry (pm : physical) (t : symbol_table) (addr e : Z) : outcome (option Z) :=
  let* a := read_le pm e 8 in
  let* s := read_le pm (e + 8) 8 in
  if (a <=? addr) && (addr <? u64 (a + s)) then let* name := read_le pm (e + 16) 8 in Done (Some (u64 (m_data t + name))) else Done None.
Definition find_symbol (pm : physical) (t : symbol_table) (addr : Z) : outcome (option Z) :=
  let* l := offsets (S (Z.to_nat (m_count t))) (m_entries t) (u64 (m_entries t + index_entry * m_count t)) index_entry in
  first_of (check_entry pm t addr) l.

(** ** What the script writes *)

Definition name_bytes (syms : list sym) : list Z := concat ((λ s, s_name s ++ [0]) <$> syms).
Fixpoint name_positions (o : nat) (syms : list sym) : list Z :=
  match syms with [] => [] | s :: syms => Z.of_nat o :: name_positions (o + length (s_name s ++ [0])) syms end.
Definition entry_bytes (x : sym * Z) : list Z := le_bytes 8 (s_addr x.1) ++ le_bytes 8 (s_size x.1) ++ le_bytes 8 x.2.
Definition index_bytes (l : list (sym * Z)) : list Z := concat (entry_bytes <$> l).

Lemma length_name_positions o syms : length (name_positions o syms) = length syms.
Proof. revert o. induction syms as [|s syms IH]; intros o; cbn [name_positions length]; [done|]. by rewrite IH. Qed.
Lemma length_index_bytes l : length (index_bytes l) = (24 * length l)%nat.
Proof. unfold index_bytes. induction l as [|x l IH]; [done|]. cbn [fmap list_fmap concat length]. rewrite length_app, IH. unfold entry_bytes. rewrite !length_app, !length_le_bytes. lia. Qed.
Lemma write_names_spec c syms : write_names (File c (length c)) syms = (File (c ++ name_bytes syms) (length (c ++ name_bytes syms)), name_positions (length c) syms).
Proof.
  revert c. induction syms as [|s syms IH]; intros c; cbn [write_names name_positions]; [unfold name_bytes; cbn; by rewrite app_nil_r|].
  rewrite !write_end, IH. unfold name_bytes. cbn [fmap list_fmap concat]. rewrite <-!(assoc_L (++)). do 2 f_equal. f_equal. by rewrite !length_app, Nat.add_assoc.
Qed.
(** The hole for the index is filled by the first name. *)
Lemma write_names_gap c k syms : syms ≠ [] → write_names (File c (length c + k)) syms = write_names (File (c ++ replicate k 0) (length (c ++ replicate k 0))) syms.
Proof.
  destruct syms as [|s syms]; [done|]. intros _. cbn [write_names]. unfold tell. cbn [pos].
  assert (E : write (write (File c (length c + k)) (s_name s)) [0] = write (write (File (c ++ replicate k 0) (length (c ++ replicate k 0))) (s_name s)) [0])
    by (destruct (s_name s) as [|x xs]; [by apply write_gap|by rewrite (write_gap c k)]).
  rewrite E, (length_app c (replicate k 0)), length_replicate. done.
Qed.
Definition in_range (x : sym * Z) : Prop := is_u64 (s_addr x.1) ∧ is_u64 (s_size x.1) ∧ is_u64 x.2.
Lemma write_index_spec l : ∀ a old b f, length old = (24 * length l)%nat → write_index (File (a ++ old ++ b) (length a)) l = Done f →
  content f = a ++ index_bytes l ++ b ∧ Forall in_range l.
Proof.
  induction l as [|[s p] l IH]; intros a old b f Hold; cbn [write_index length] in *.
  - destruct old; [|done]. intros [= <-]. done.
  - destruct (pack 8 (s_addr s)) as [b1| | |] eqn:E1; try done. destruct (pack 8 (s_size s)) as [b2| | |] eqn:E2; try done. destruct (pack 8 p) as [b3| | |] eqn:E3; try done.
    apply pack_inv in E1 as [H1 ->], E2 as [H2 ->], E3 as [H3 ->]. cbn [mbind outcome_bind].
    change (le_bytes 8 (s_addr s) ++ le_bytes 8 (s_size s) ++ le_bytes 8 p) with (entry_bytes (s, p)).
    assert (Hl : length (entry_bytes (s, p)) = 24%nat) by (unfold entry_bytes; rewrite !length_app, !length_le_bytes; done).
    rewrite <-(take_drop 24 old), <-(assoc_L (++)), write_over by (rewrite length_take, Hl; lia). rewrite (assoc_L (++) a), <-length_app. intros H.
    apply IH in H as [H Hf]; [|rewrite length_drop; lia]. split; [|by apply Forall_cons_2].
    rewrite H. unfold index_bytes. cbn [fmap list_fmap concat]. by rewrite <-!(assoc_L (++)).
Qed.
(** The table: the number, the index and the names. *)
Lemma write_table_spec syms f : write_table syms = Done f →
  let l := zip syms (name_positions (8 + 24 * length syms) syms) in
  content f = le_bytes 8 (Z.of_nat (length syms)) ++ index_bytes l ++ name_bytes syms ∧ Forall in_range l ∧ Z.of_nat (length syms) < 2 ^ 64.
Proof.
  unfold write_table. destruct (pack 8 _) as [c| | |] eqn:E; try done. apply pack_inv in E as [Hn ->]. cbn [mbind outcome_bind]. unfold new_file.
  rewrite (write_end []). cbn [app]. set (c := le_bytes 8 (Z.of_nat (length syms))). assert (Hc : length c = 8%nat) by apply length_le_bytes. cbn zeta.
  set (k := (24 * length syms)%nat).
  assert (Hw : write_names (seek_on (File c (length c)) (index_entry * Z.of_nat (length syms))) syms =
    (File ((c ++ replicate k 0) ++ name_bytes syms) (length ((c ++ replicate k 0) ++ name_bytes syms)), name_positions (8 + k) syms)).
  { unfold seek_on. cbn [pos content]. replace (Z.to_nat _) with (length c + k)%nat by (unfold index_entry; lia). destruct syms as [|s syms'].
    - unfold k, name_bytes. cbn [length write_names name_positions fmap list_fmap concat]. rewrite Nat.mul_0_r. cbn [replicate]. by rewrite !app_nil_r, Nat.add_0_r.
    - rewrite write_names_gap, write_names_spec by done. by rewrite (length_app c (replicate k 0)), length_replicate, Hc. }
  rewrite Hw. unfold seek, tell. cbn [content pos]. rewrite Nat2Z.id, <-(assoc_L (++)). intros H. apply write_index_spec in H as [H1 H2]; [exact (conj H1 (conj H2 (proj2 Hn)))|].
  rewrite length_replicate, length_zip, length_name_positions. unfold k. lia.
Qed.

(** ** What the handler reads *)

Definition holds (addr : Z) (s : sym) : bool := (s_addr s <=? addr) && (addr <? s_addr s + s_size s).
Lemma check_entry_spec pm t addr e s p : bytes_at pm e (entry_bytes (s, p)) → in_range (s, p) → s_addr s + s_size s < 2 ^ 64 →
  check_entry pm t addr e = Done (if holds addr s then Some (u64 (m_data t + p)) else None).
Proof.
  intros H (H1 & H2 & H3) Hs. unfold entry_bytes in H. cbn [fst snd] in *. rewrite !bytes_at_app, !length_le_bytes in H. destruct H as (B1 & B2 & B3).
  replace (e + Z.of_nat 8 + Z.of_nat 8) with (e + 16) in B3 by lia. change (Z.of_nat 8) with 8 in B2. unfold check_entry. rewrite (read_le_at _ _ _ _ B1 H1). cbn [mbind outcome_bind].
  rewrite (read_le_at _ _ _ _ B2 H2). cbn [mbind outcome_bind]. unfold is_word in *. rewrite (wrap_small 64) by (unfold is_word; lia). fold (holds addr s).
  destruct (holds addr s); [|done]. by rewrite (read_le_at _ _ _ _ B3 H3).
Qed.
Lemma first_of_spec pm t addr syms : ∀ o e, bytes_at pm e (index_bytes (zip syms (name_positions o syms))) → Forall in_range (zip syms (name_positions o syms)) →
  bytes_at pm (m_data t + Z.of_nat o) (name_bytes syms) → Forall (λ s, s_addr s + s_size s < 2 ^ 64) syms → 0 < m_data t → m_data t + Z.of_nat (o + length (name_bytes syms)) < 2 ^ 64 →
  match find (holds addr) syms with
  | Some s => ∃ p, first_of (check_entry pm t addr) (range e 24 (length syms)) = Done (Some p) ∧ 0 < p ∧ bytes_at pm p (s_name s ++ [0])
  | None => first_of (check_entry pm t addr) (range e 24 (length syms)) = Done None
  end.
Proof.
  induction syms as [|s syms IH]; intros o e Hi Hr Hn Hs Hd Ho; [done|]. cbn [name_positions zip_with length find] in *. rewrite range_cons. cbn [first_of].
  unfold index_bytes in Hi. cbn [fmap list_fmap concat] in Hi. apply bytes_at_app in Hi as [Hi1 Hi2]. apply Forall_cons in Hr as [Hr1 Hr2]. apply Forall_cons in Hs as [Hs1 Hs2].
  unfold name_bytes in Hn, Ho. cbn [fmap list_fmap concat] in Hn, Ho. apply bytes_at_app in Hn as [Hn1 Hn2]. rewrite length_app in Ho.
  rewrite (check_entry_spec _ _ _ _ _ _ Hi1 Hr1 Hs1). cbn [mbind outcome_bind]. destruct (holds addr s).
  - eexists. split; [reflexivity|]. rewrite (wrap_small 64) by (unfold is_word; lia). split; [lia|done].
  - apply (IH (o + length (s_name s ++ [0%Z]))%nat); try done.
    + by replace (m_data t + Z.of_nat (o + length (s_name s ++ [0]))) with (m_data t + Z.of_nat o + Z.of_nat (length (s_name s ++ [0]))) by lia.
    + unfold name_bytes. lia.
Qed.

(** Symbols are found by their addresses: with a table that the script wrote in memory, the panic handler's lookup of an
    address returns the 0-terminated name of the first symbol that holds the address, and none if no symbol does. *)
Theorem symbols_found pm data syms f addr : write_table syms = Done f → bytes_at pm data (content f) → 0 < data → data + Z.of_nat (length (content f)) < 2 ^ 64 →
  Forall (λ s, s_addr s + s_size s < 2 ^ 64 ∧ 0 ∉ s_name s) syms →
  ∃ t, symbol_table_new pm data = Done t ∧
    match find (holds addr) syms with
    | Some s => ∃ p, find_symbol pm t addr = Done (Some p) ∧ 0 < p ∧ string_at pm p (s_name s)
    | None => find_symbol pm t addr = Done None
    end.
Proof.
  intros Hw Hb Hd Hlen Hs. apply write_table_spec in Hw as (Hc & Hr & Hn). rewrite Hc in Hb, Hlen. set (l := zip _ _) in *. rewrite !bytes_at_app, length_le_bytes, length_index_bytes in Hb.
  assert (Hll : length l = length syms) by (unfold l; rewrite length_zip, length_name_positions; lia). rewrite Hll in Hb.
  rewrite !length_app, length_le_bytes, length_index_bytes, Hll in Hlen. destruct Hb as (B1 & B2 & B3). change (Z.of_nat 8) with 8 in B2.
  unfold symbol_table_new. rewrite (read_le_at _ _ _ _ B1) by (unfold is_word in *; lia). cbn [mbind outcome_bind]. rewrite (wrap_small 64) by (unfold is_word; lia).
  eexists. split; [reflexivity|]. set (t := Table _ _ _). unfold find_symbol. cbn [m_count m_entries t]. rewrite Nat2Z.id. unfold index_entry.
  rewrite offsets_range by lia. cbn [mbind outcome_bind].
  pose proof (first_of_spec pm t addr syms (8 + 24 * length syms) (data + 8) B2 Hr) as H. cbn [m_data t] in H.
  replace (data + Z.of_nat (8 + 24 * length syms)) with (data + 8 + Z.of_nat (24 * length syms)) in H by lia.
  specialize (H B3 ltac:(eapply Forall_impl; [exact Hs|by intros ? [? _]]) Hd ltac:(lia)).
  destruct (find (holds addr) syms) as [s|] eqn:Ef; [|exact H]. destruct H as (p & -> & Hp & Hb). exists p. split; [done|]. split; [done|]. split; [done|].
  apply find_some in Ef as [Hin _]. rewrite Forall_forall in Hs. apply list_elem_of_In in Hin. by apply Hs.
Qed.

(** ** Witness *)

Definition sample_syms : list sym := [Sym 0x1000 0x20 [97; 98]; Sym 0x1020 0x10 [99]].
Definition sample_table : outcome file := write_table sample_syms.
Lemma symbols_found_witness : ∃ f t p, sample_table = Done f ∧ symbol_table_new (put_bytes ∅ 0x5000 (content f)) 0x5000 = Done t ∧
  find_symbol (put_bytes ∅ 0x5000 (content f)) t 0x1025 = Done (Some p) ∧ string_at (put_bytes ∅ 0x5000 (content f)) p [99].
Proof.
  destruct sample_table as [f| | |] eqn:E; try (vm_compute in E; discriminate E).
  assert (Hl : length (content f) = 61%nat) by (vm_compute in E; injection E as <-; reflexivity).
  destruct (symbols_found (put_bytes ∅ 0x5000 (content f)) 0x5000 sample_syms f 0x1025 E (put_bytes_in _ _ _)) as (t & Ht & p & Hp & _ & Hs); [lia|rewrite Hl; lia| |].
  - apply (bool_decide_eq_true_1 _). by vm_compute.
  - by exists f, t, p.
Defined.
