(* ===== verification/BootConfig.v ===== *)
(** * The boot configuration

    scripts/bonnibel/manifest.py writes the boot configuration of a build ([write_boot_config]), the boot
    loader reads it (src/boot/bootconfig.cpp: [read_string], [read_descriptor], [bootconfig_new]) and picks the
    panic handler ([pick_panic], the loops of [load_resources] in src/boot/main.cpp); the kernel tests the
    flags it is given ([enable_test] of [kernel_main]).  A Python string is the list of its code points.

    [config_roundtrip] shows that the loader reads what the manifest says; [panic_choice] which panic handler
    is loaded; [test_flag_lost] that the kernel never sees the flag for tests, since the script writes masks
    and the kernel reads them as positions of bits. *)
From stdpp Require Import strings.
From S2P Require Import Prelude Bytes OutFile Bits.

(** ** The script *)

Inductive entry_flag := graphical | symbols.
(** [Manifest.flags] *)
Definition entry_mask (f : entry_flag) : Z := match f with graphical => 0x01 | symbols => 0x80 end.
(** [Manifest.boot_flags.get(s, 0)] *)
Definition boot_mask (s : string) : Z := if decide (s = "debug"%string) then 0x01 else if decide (s = "test"%string) then 0x02 else 0.
Record entry := Entry { output : list Z; e_flags : list entry_flag }.
Record manifest := Manifest {
  location : list Z;
  kernel : entry;
  init : entry;
  panics : list entry;
  initrd_name : list Z;
  symbols_name : list Z;
  flags : list string;
}.

(** [s.encode("utf-16le")], which raises an error for a surrogate. *)
Definition utf16_units (c : Z) : outcome (list Z) :=
  if (0xd800 <=? c) && (c <=? 0xdfff) then Panic
  else if c <? 0x10000 then Done [c]
  else let v := c - 0x10000 in Done [0xd800 + Z.shiftr v 10; 0xdc00 + Z.land v 0x3ff].
Fixpoint utf16 (s : list Z) : outcome (list Z) :=
  match s with [] => Done [] | c :: s => let* u := utf16_units c in let* us := utf16 s in Done (u ++ us) end.
Definition unit_bytes (us : list Z) : list Z := concat (le_bytes 2 <$> us).

Definition slash : Z := 47.
Definition backslash : Z := 92.
(** [os.path.join] of two paths *)
Definition join (a b : list Z) : list Z :=
  if decide (head b = Some slash) then b else if decide (a = [] ∨ last a = Some slash) then a ++ b else a ++ slash :: b.
Definition to_backslash (s : list Z) : list Z := (λ c, if c =? slash then backslash else c) <$> s.

Definition write_str (f : file) (s : list Z) : outcome file :=
  let* us := utf16 s in
  let data := unit_bytes us in
  let* size := pack 2 (Z.of_nat (length data) + 2) in
  Done (write (write (write f size) data) [0; 0]).
Definition path_of (m : manifest) (name : list Z) : list Z := to_backslash (join (location m) name).
Definition write_path (m : manifest) (f : file) (name : list Z) : outcome file := write_str f (path_of m name).
Definition entry_flags (e : entry) : Z := foldl (λ v g, Z.lor v (entry_mask g)) 0 (e_flags e).
Definition write_ent (m : manifest) (f : file) (e : entry) : outcome file :=
  let* b := pack 2 (entry_flags e) in
  write_path m (write f b) (output e).
Fixpoint write_ents (m : manifest) (f : file) (es : list entry) : outcome file :=
  match es with [] => Done f | e :: es => let* f := write_ent m f e in write_ents m f es end.
Definition boot_flags (m : manifest) : Z := foldr Z.add 0 (boot_mask <$> flags m).
(** The bytes of [jsixboot]. *)
Definition magic_bytes : list Z := [106; 115; 105; 120; 98; 111; 111; 116].
Definition write_boot_config (m : manifest) : outcome file :=
  let* v := pack 1 1 in
  let* n := pack 1 (Z.of_nat (length (panics m))) in
  let* fl := pack 2 (boot_flags m) in
  let f := write new_file (magic_bytes ++ v ++ n ++ fl) in
  let* f := write_ent m f (kernel m) in
  let* f := write_ent m f (init m) in
  let* f := write_path m f (initrd_name m) in
  let* f := write_path m f (symbols_name m) in
  write_ents m f (panics m).

(** ** The boot loader *)

Definition jsixboot : Z := 0x746f6f627869736a.
Record descriptor := Descriptor { d_flags : Z; d_path : Z }.
Record bootconfig := Config {
  m_flags : Z;
  m_kernel : descriptor;
  m_init : descriptor;
  m_initrd : Z;
  m_symbols : Z;
  m_panics : list descriptor;
}.
Definition read_string (pm : physical) (data : buffer) : outcome (Z * buffer) :=
  let* (size, data) := read_field pm data 2 in Done (b_pointer data, advance data size).
Definition read_descriptor (pm : physical) (data : buffer) : outcome (descriptor * buffer) :=
  let* (fl, data) := read_field pm data 2 in
  let* (path, data) := read_string pm data in
  Done (Descriptor fl path, data).
Fixpoint read_descriptors (n : nat) (pm : physical) (data : buffer) : outcome (list descriptor) :=
  match n with
  | O => Done []
  | S n => let* (d, data) := read_descriptor pm data in let* ds := read_descriptors n pm data in Done (d :: ds)
  end.
(** The constructor; an error of the loader does not return. *)
Definition bootconfig_new (pm : physical) (data : buffer) : outcome bootconfig :=
  let* (magic, data) := read_field pm data 8 in
  if negb (magic =? jsixboot) then Panic
  else
    let* (version, data) := read_field pm data 1 in
    if negb (version =? 1) then Panic
    else
      let* (num_panics, data) := read_field pm data 1 in
      let* (fl, data) := read_field pm data 2 in
      let* (k, data) := read_descriptor pm data in
      let* (i, data) := read_descriptor pm data in
      let* (initrd, data) := read_string pm data in
      let* (syms, data) := read_string pm data in
      let* ps := read_descriptors (Z.to_nat num_panics) pm data in
      Done (Config fl k i initrd syms ps).

(** [desc_flags::graphical] *)
Definition is_graphical (d : descriptor) : bool := Z.testbit (d_flags d) 0.
(** The panic handler that [load_resources] loads: one for the screen if there is a screen, then one without. *)
Definition pick_panic (screen : bool) (ds : list descriptor) : option descriptor :=
  match (if screen then find is_graphical ds else None) with
  | Some d => Some d
  | None => find (λ d, negb (is_graphical d)) ds
  end.
(** [args->flags.get(boot_flags::test)] in the kernel, of [enum class boot_flags { none, debug, test }] *)
Definition boot_flags_test : Z := 2.
Definition enable_test (args_flags : Z) : outcome bool := bs_get 16 args_flags boot_flags_test.

(** ** What the script writes *)

Definition str_bytes (us : list Z) : list Z := le_bytes 2 (Z.of_nat (length (unit_bytes us)) + 2) ++ unit_bytes us ++ [0; 0].
Lemma write_str_spec c s f : write_str (File c (length c)) s = Done f →
  ∃ us, utf16 s = Done us ∧ Z.of_nat (length (unit_bytes us)) + 2 < 2 ^ 16 ∧ f = File (c ++ str_bytes us) (length (c ++ str_bytes us)).
Proof.
  unfold write_str. destruct (utf16 s) as [us| | |]; try done. cbn [mbind outcome_bind]. destruct (pack 2 _) as [b| | |] eqn:E; try done. apply pack_inv in E as [H ->].
  cbn [mbind outcome_bind]. rewrite !write_end. intros [= <-]. exists us. split; [done|]. split; [apply H|]. unfold str_bytes. by rewrite <-!(assoc_L (++)).
Qed.
(** The bytes of a path and of an entry. *)
Definition is_path (m : manifest) (name bs : list Z) : Prop :=
  ∃ us, utf16 (path_of m name) = Done us ∧ Z.of_nat (length (unit_bytes us)) + 2 < 2 ^ 16 ∧ bs = str_bytes us.
Definition is_ent (m : manifest) (e : entry) (bs : list Z) : Prop :=
  ∃ ps, is_path m (output e) ps ∧ 0 ≤ entry_flags e < 2 ^ 16 ∧ bs = le_bytes 2 (entry_flags e) ++ ps.
Lemma write_path_spec m c name f : write_path m (File c (length c)) name = Done f → ∃ bs, is_path m name bs ∧ f = File (c ++ bs) (length (c ++ bs)).
Proof. intros H. apply write_str_spec in H as (us & H1 & H2 & ->). eexists. split; [by exists us|done]. Qed.
Lemma write_ent_spec m c e f : write_ent m (File c (length c)) e = Done f → ∃ bs, is_ent m e bs ∧ f = File (c ++ bs) (length (c ++ bs)).
Proof.
  unfold write_ent. destruct (pack 2 _) as [b| | |] eqn:E; try done. apply pack_inv in E as [H ->]. cbn [mbind outcome_bind]. rewrite write_end. intros Hw.
  apply write_path_spec in Hw as (ps & Hp & ->). eexists. split; [exists ps; split; [exact Hp|split; [exact H|reflexivity]]|]. by rewrite <-!(assoc_L (++)).
Qed.
Lemma write_ents_spec m es : ∀ c f, write_ents m (File c (length c)) es = Done f → ∃ bss, Forall2 (is_ent m) es bss ∧ content f = c ++ concat bss.
Proof.
  induction es as [|e es IH]; intros c f; cbn [write_ents].
  - intros [= <-]. exists []. split; [constructor|]. cbn. by rewrite app_nil_r.
  - destruct (write_ent m (File c (length c)) e) as [f1| | |] eqn:E; try done. cbn [mbind outcome_bind]. apply write_ent_spec in E as (bs & Hb & ->). intros H.
    apply IH in H as (bss & Hbs & ->). exists (bs :: bss). split; [by constructor|]. cbn [concat]. by rewrite (assoc_L (++)).
Qed.
Lemma write_boot_config_spec m f : write_boot_config m = Done f → ∃ bk bi br bsy bss,
  content f = magic_bytes ++ le_bytes 1 1 ++ le_bytes 1 (Z.of_nat (length (panics m))) ++ le_bytes 2 (boot_flags m) ++ bk ++ bi ++ br ++ bsy ++ concat bss ∧
  Z.of_nat (length (panics m)) < 2 ^ 8 ∧ 0 ≤ boot_flags m < 2 ^ 16 ∧ is_ent m (kernel m) bk ∧ is_ent m (init m) bi ∧ is_path m (initrd_name m) br ∧ is_path m (symbols_name m) bsy ∧
  Forall2 (is_ent m) (panics m) bss.
Proof.
  unfold write_boot_config. rewrite (pack_Done 1 1) by lia. cbn [mbind outcome_bind]. destruct (pack 1 _) as [n| | |] eqn:E1; try done. apply pack_inv in E1 as [Hn ->].
  cbn [mbind outcome_bind]. destruct (pack 2 _) as [fl| | |] eqn:E2; try done. apply pack_inv in E2 as [Hf ->]. cbn [mbind outcome_bind]. unfold new_file. rewrite (write_end []), app_nil_l.
  destruct (write_ent m _ (kernel m)) as [f1| | |] eqn:E; try done. apply write_ent_spec in E as (bk & Hk & ->). cbn [mbind outcome_bind].
  destruct (write_ent m _ (init m)) as [f1| | |] eqn:E; try done. apply write_ent_spec in E as (bi & Hi & ->). cbn [mbind outcome_bind].
  destruct (write_path m _ (initrd_name m)) as [f1| | |] eqn:E; try done. apply write_path_spec in E as (br & Hr & ->). cbn [mbind outcome_bind].
  destruct (write_path m _ (symbols_name m)) as [f1| | |] eqn:E; try done. apply write_path_spec in E as (bsy & Hs & ->). cbn [mbind outcome_bind].
  intros H. apply write_ents_spec in H as (bss & Hb & ->). exists bk, bi, br, bsy, bss. split; [by rewrite <-!(assoc_L (++))|]. split; [apply Hn|]. done.
Qed.

(** ** What the loader reads *)

(** A path in memory: 16-bit units and a terminator, which is the first zero. *)
Definition path_at (pm : physical) (p : Z) (s : list Z) : Prop := ∃ us, utf16 s = Done us ∧ bytes_at pm p (unit_bytes (us ++ [0])) ∧ (0 ∉ s → 0 ∉ us).
Definition describes (pm : physical) (m : manifest) (d : descriptor) (e : entry) : Prop := d_flags d = entry_flags e ∧ path_at pm (d_path d) (path_of m (output e)).

Lemma utf16_nonzero s us : utf16 s = Done us → 0 ∉ s → 0 ∉ us.
Proof.
  revert us. induction s as [|c s IH]; intros us; cbn [utf16]; [by intros [= <-]|]. rewrite not_elem_of_cons.
  destruct (utf16_units c) as [u| | |] eqn:Eu; try done. cbn [mbind outcome_bind]. destruct (utf16 s) as [us'| | |]; try done. cbn [mbind outcome_bind]. intros [= <-] [Hc Hs].
  rewrite not_elem_of_app. split; [|by apply IH]. unfold utf16_units in Eu. destruct (_ && _); [done|]. destruct (Z.ltb_spec c 0x10000).
  - injection Eu as <-. by rewrite list_elem_of_singleton.
  - injection Eu as <-. rewrite !not_elem_of_cons. assert (0 ≤ Z.shiftr (c - 65536) 10) by (apply Z.shiftr_nonneg; lia).
    assert (0 ≤ Z.land (c - 65536) 1023) by (apply Z.land_nonneg; lia). split; [lia|]. split; [lia|]. apply not_elem_of_nil.
Qed.
Lemma unit_bytes_end us : unit_bytes us ++ [0; 0] = unit_bytes (us ++ [0]).
Proof. unfold unit_bytes. rewrite fmap_app, concat_app. done. Qed.
Lemma read_string_spec pm m name bs b rest : holds_bytes pm b (bs ++ rest) → is_path m name bs →
  ∃ p b', read_string pm b = Done (p, b') ∧ holds_bytes pm b' rest ∧ path_at pm p (path_of m name).
Proof.
  intros H (us & Hu & Hl & ->). unfold str_bytes in H. rewrite <-!(assoc_L (++)) in H.
  destruct (read_field_holds _ _ 2 _ _ H ltac:(lia) ltac:(lia)) as (b1 & E1 & H1 & _). unfold read_string. rewrite E1. cbn [mbind outcome_bind].
  rewrite (assoc_L (++)) in H1. destruct (advance_holds pm b1 (unit_bytes us ++ [0; 0]) rest H1) as [H2 _]; [rewrite length_app; cbn [length]; lia|].
  rewrite length_app in H2. cbn [length] in H2. rewrite Nat2Z.inj_add in H2. eexists _, _. split; [reflexivity|]. split; [exact H2|].
  exists us. split; [done|]. split; [|by apply utf16_nonzero]. destruct H1 as [H1 _ _]. apply bytes_at_app in H1 as [H1 _]. by rewrite <-unit_bytes_end.
Qed.
Lemma read_descriptor_spec pm m e bs b rest : holds_bytes pm b (bs ++ rest) → is_ent m e bs →
  ∃ d b', read_descriptor pm b = Done (d, b') ∧ holds_bytes pm b' rest ∧ describes pm m d e.
Proof.
  intros H (ps & Hp & Hf & ->). rewrite <-(assoc_L (++)) in H. destruct (read_field_holds _ _ 2 _ _ H ltac:(lia) Hf) as (b1 & E1 & H1 & _).
  unfold read_descriptor. rewrite E1. cbn [mbind outcome_bind]. destruct (read_string_spec _ _ _ _ _ _ H1 Hp) as (p & b2 & -> & H2 & Hpa). cbn [mbind outcome_bind].
  eexists _, _. split; [reflexivity|]. done.
Qed.
Lemma read_descriptors_spec pm m es bss : Forall2 (is_ent m) es bss → ∀ b, holds_bytes pm b (concat bss) →
  ∃ ds, read_descriptors (length es) pm b = Done ds ∧ Forall2 (describes pm m) ds es.
Proof.
  induction 1 as [|e bs es bss He _ IH]; intros b Hb; cbn [read_descriptors length]; [by exists []|]. cbn [concat] in Hb.
  destruct (read_descriptor_spec _ _ _ _ _ _ Hb He) as (d & b1 & -> & H1 & Hd). cbn [mbind outcome_bind]. destruct (IH _ H1) as (ds & -> & Hds).
  exists (d :: ds). split; [done|]. by constructor.
Qed.

(** What a configuration in memory says, as the manifest has it. *)
Record config_of (pm : physical) (m : manifest) (bc : bootconfig) : Prop := {
  co_flags : m_flags bc = boot_flags m;
  co_kernel : describes pm m (m_kernel bc) (kernel m);
  co_init : describes pm m (m_init bc) (init m);
  co_initrd : path_at pm (m_initrd bc) (path_of m (initrd_name m));
  co_symbols : path_at pm (m_symbols bc) (path_of m (symbols_name m));
  co_panics : Forall2 (describes pm m) (m_panics bc) (panics m);
}.
Lemma bootconfig_spec pm m f data : write_boot_config m = Done f → holds_bytes pm data (content f) → ∃ bc, bootconfig_new pm data = Done bc ∧ config_of pm m bc.
Proof.
  intros Hw H. apply write_boot_config_spec in Hw as (bk & bi & br & bsy & bss & Hc & Hn & Hf & Hk & Hi & Hr & Hs & Hp). rewrite Hc in H.
  change magic_bytes with (le_bytes 8 jsixboot) in H. unfold bootconfig_new.
  destruct (read_field_holds _ _ 8 _ _ H ltac:(lia) ltac:(unfold jsixboot; lia)) as (b1 & -> & H1 & _). cbn [mbind outcome_bind]. rewrite Z.eqb_refl. cbn [negb].
  destruct (read_field_holds _ _ 1 _ _ H1 ltac:(lia) ltac:(lia)) as (b2 & -> & H2 & _). cbn [mbind outcome_bind]. rewrite Z.eqb_refl. cbn [negb].
  destruct (read_field_holds _ _ 1 _ _ H2 ltac:(lia) ltac:(lia)) as (b3 & -> & H3 & _). cbn [mbind outcome_bind].
  destruct (read_field_holds _ _ 2 _ _ H3 ltac:(lia) Hf) as (b4 & -> & H4 & _). cbn [mbind outcome_bind].
  destruct (read_descriptor_spec _ _ _ _ _ _ H4 Hk) as (k & b5 & -> & H5 & Dk). cbn [mbind outcome_bind].
  destruct (read_descriptor_spec _ _ _ _ _ _ H5 Hi) as (i & b6 & -> & H6 & Di). cbn [mbind outcome_bind].
  destruct (read_string_spec _ _ _ _ _ _ H6 Hr) as (r & b7 & -> & H7 & Dr). cbn [mbind outcome_bind].
  destruct (read_string_spec _ _ _ _ _ _ H7 Hs) as (y & b8 & -> & H8 & Dy). cbn [mbind outcome_bind]. rewrite Nat2Z.id.
  destruct (read_descriptors_spec _ _ _ _ Hp _ H8) as (ds & -> & Dp). cbn [mbind outcome_bind]. eexists. split; [reflexivity|]. by split.
Qed.

(** The boot configuration survives its file: the boot loader reads from the file that the script wrote the flags, the
    kernel, the init server, the initial file system, the symbols and the panic handlers of the manifest, with their flags and
    their paths in the form of the firmware. *)
Theorem config_roundtrip pm m f data : write_boot_config m = Done f → holds_bytes pm data (content f) → ∃ bc, bootconfig_new pm data = Done bc ∧ config_of pm m bc.
Proof. apply bootconfig_spec. Qed.

(** ** The panic handler *)

#[global] Instance entry_flag_eq_dec : EqDecision entry_flag.
Proof. solve_decision. Defined.
Lemma entry_graphical gs : ∀ v, Z.testbit (foldl (λ v g, Z.lor v (entry_mask g)) v gs) 0 = Z.testbit v 0 || bool_decide (graphical ∈ gs).
Proof.
  induction gs as [|g gs IH]; intros v; cbn [foldl]; [rewrite bool_decide_eq_false_2 by apply not_elem_of_nil; by rewrite orb_false_r|].
  rewrite IH, Z.lor_spec, <-orb_assoc. f_equal. destruct g; cbn [entry_mask].
  - rewrite (bool_decide_eq_true_2 (_ ∈ graphical :: _)) by left. done.
  - change (Z.testbit 0x80 0) with false. cbn [orb]. apply bool_decide_ext. rewrite elem_of_cons. split; [by right|by intros [|]].
Qed.
Lemma describes_graphical pm m d e : describes pm m d e → is_graphical d = true ↔ graphical ∈ e_flags e.
Proof. intros [H _]. unfold is_graphical. rewrite H. unfold entry_flags. rewrite entry_graphical. cbn. by rewrite bool_decide_eq_true. Qed.
(** The first descriptor with a property describes an entry with it; if there is none, no entry has it. *)
Lemma find_described pm m (q : descriptor → bool) (r : entry → Prop) ds es : Forall2 (describes pm m) ds es → (∀ d e, describes pm m d e → q d = true ↔ r e) →
  match find q ds with Some d => ∃ e, e ∈ es ∧ describes pm m d e ∧ r e | None => ∀ e, e ∈ es → ¬ r e end.
Proof.
  intros H Hq. induction H as [|d e ds es Hd _ IH]; cbn [find]; [by intros e ?%not_elem_of_nil|]. destruct (q d) eqn:E.
  - exists e. split; [left|]. split; [done|]. by apply (Hq d e).
  - destruct (find q ds) as [d'|].
    + destruct IH as (e' & ? & ?). exists e'. split; [by right|done].
    + intros e' [->|Hin]%elem_of_cons; [|by apply IH]. intros Hr. apply (Hq d e Hd) in Hr. congruence.
Qed.

(** Which panic handler is loaded: one of the manifest's, a graphical one only with a screen, and one that is not
    graphical only if there is no screen or no graphical one; none only if there is no screen and all are graphical, or if the
    manifest has none. *)
Theorem panic_choice pm m bc screen : config_of pm m bc →
  match pick_panic screen (m_panics bc) with
  | Some d => ∃ e, e ∈ panics m ∧ describes pm m d e ∧
      (if decide (graphical ∈ e_flags e) then screen = true else screen = true → ∀ e', e' ∈ panics m → graphical ∉ e_flags e')
  | None => ∀ e, e ∈ panics m → graphical ∈ e_flags e ∧ screen = false
  end.
Proof.
  intros H. pose proof (co_panics _ _ _ H) as Hp. pose proof (find_described pm m is_graphical (λ e, graphical ∈ e_flags e) _ _ Hp (describes_graphical pm m)) as H1.
  assert (H2 := find_described pm m (λ d, negb (is_graphical d)) (λ e, graphical ∉ e_flags e) _ _ Hp).
  assert (Hq : ∀ d e, describes pm m d e → negb (is_graphical d) = true ↔ graphical ∉ e_flags e).
  { intros d e Hd. rewrite <-(describes_graphical _ _ _ _ Hd). destruct (is_graphical d); naive_solver. }
  specialize (H2 Hq). unfold pick_panic. destruct screen.
  - destruct (find is_graphical (m_panics bc)) as [d|] eqn:E1.
    + destruct H1 as (e & He & Hd & Hr). exists e. split; [done|]. split; [done|]. by rewrite decide_True.
    + destruct (find (λ d, negb (is_graphical d)) (m_panics bc)) as [d|] eqn:E2.
      * destruct H2 as (e & He & Hd & Hr). exists e. split; [done|]. split; [done|]. by rewrite decide_False.
      * intros e He. exfalso. exact (H2 e He (H1 e He)).
  - destruct (find (λ d, negb (is_graphical d)) (m_panics bc)) as [d|] eqn:E2.
    + destruct H2 as (e & He & Hd & Hr). exists e. split; [done|]. split; [done|]. by rewrite decide_False.
    + intros e He. split; [|done]. destruct (decide (graphical ∈ e_flags e)) as [|Hn]; [done|]. exfalso. exact (H2 e He Hn).
Qed.

(** ** The flags *)

Definition mask_if (s : string) (l : list string) (v : Z) : Z := if decide (s ∈ l) then v else 0.
Lemma mask_if_cons s x l v : mask_if s (x :: l) v = if decide (s = x) then v else mask_if s l v.
Proof. unfold mask_if. repeat case_decide; try done; exfalso; set_solver. Qed.
Lemma mask_if_absent s l v : s ∉ l → mask_if s l v = 0.
Proof. intros. unfold mask_if. by rewrite decide_False. Qed.
Lemma boot_flags_bound l : NoDup l → 0 ≤ foldr Z.add 0 (boot_mask <$> l) ≤ mask_if "debug" l 1 + mask_if "test" l 2.
Proof.
  induction 1 as [|s l Hs _ IH]; [done|]. cbn [fmap list_fmap foldr]. rewrite !mask_if_cons. unfold boot_mask at 1 3.
  destruct (decide (s = "debug"%string)) as [->|H1].
  - rewrite (mask_if_absent "debug") in IH by done. rewrite decide_True, decide_False by done. lia.
  - rewrite (decide_False (P := "debug"%string = s)) by congruence. destruct (decide (s = "test"%string)) as [->|H2].
    + rewrite (mask_if_absent "test") in IH by done. rewrite decide_True by done. lia.
    + rewrite decide_False by congruence. lia.
Qed.

(** The kernel never runs with its tests enabled: for any manifest whose flags are distinct, the one with the flag for
    tests included, the kernel finds the flag for tests clear in what the loader gives it. *)
Theorem test_flag_lost pm m f data : write_boot_config m = Done f → holds_bytes pm data (content f) → NoDup (flags m) →
  ∃ bc, bootconfig_new pm data = Done bc ∧ enable_test (m_flags bc) = Done false.
Proof.
  intros Hw Hb Hd. destruct (bootconfig_spec _ _ _ _ Hw Hb) as (bc & Hbc & Hco). exists bc. split; [done|]. rewrite (co_flags _ _ _ Hco).
  pose proof (boot_flags_bound _ Hd) as H. fold (boot_flags m) in H.
  assert (Hv : boot_flags m ∈ [0; 1; 2; 3]).
  { assert (0 ≤ boot_flags m ≤ 3) by (unfold mask_if in H; repeat case_decide; lia). assert (boot_flags m = 0 ∨ boot_flags m = 1 ∨ boot_flags m = 2 ∨ boot_flags m = 3) by lia. set_solver. }
  rewrite !elem_of_cons, elem_of_nil in Hv. destruct Hv as [->|[->|[->|[->|[]]]]]; by vm_compute.
Qed.

(** ** Witnesses *)

Definition sample_manifest : manifest :=
  Manifest [106; 115; 105; 120] (Entry [107] []) (Entry [105] []) [Entry [112] []; Entry [113] [graphical]] [114] [115] ["test"%string].
Definition sample_config : outcome file := write_boot_config sample_manifest.
Lemma sample_holds f : sample_config = Done f → holds_bytes (put_bytes ∅ 0x6000 (content f)) (Buffer 0x6000 (Z.of_nat (length (content f)))) (content f).
Proof. intros E. split; cbn [b_pointer b_count]; [apply put_bytes_in|done|]. vm_compute in E. injection E as <-. split; [lia|]. cbn. lia. Qed.

Lemma config_roundtrip_witness : ∃ f bc, sample_config = Done f ∧ bootconfig_new (put_bytes ∅ 0x6000 (content f)) (Buffer 0x6000 (Z.of_nat (length (content f)))) = Done bc ∧
  config_of (put_bytes ∅ 0x6000 (content f)) sample_manifest bc.
Proof.
  destruct sample_config as [f| | |] eqn:E; try (vm_compute in E; discriminate E).
  destruct (config_roundtrip (put_bytes ∅ 0x6000 (content f)) sample_manifest f (Buffer 0x6000 (Z.of_nat (length (content f)))) E (sample_holds f E)) as (bc & H1 & H2).
  by exists f, bc.
Defined.
Lemma panic_choice_witness : ∃ pm bc, match pick_panic true (m_panics bc) with
  | Some d => ∃ e, e ∈ panics sample_manifest ∧ describes pm sample_manifest d e ∧
      (if decide (graphical ∈ e_flags e) then true = true else true = true → ∀ e', e' ∈ panics sample_manifest → graphical ∉ e_flags e')
  | None => ∀ e, e ∈ panics sample_manifest → graphical ∈ e_flags e ∧ true = false
  end.
Proof.
  destruct sample_config as [f| | |] eqn:E; try (vm_compute in E; discriminate E).
  destruct (bootconfig_spec (put_bytes ∅ 0x6000 (content f)) sample_manifest f (Buffer 0x6000 (Z.of_nat (length (content f)))) E (sample_holds f E)) as (bc & _ & H2).
  exists (put_bytes ∅ 0x6000 (content f)), bc. exact (panic_choice _ _ _ true H2).
Defined.
Lemma test_flag_lost_witness : ∃ f bc, sample_config = Done f ∧ bootconfig_new (put_bytes ∅ 0x6000 (content f)) (Buffer 0x6000 (Z.of_nat (length (content f)))) = Done bc ∧
  enable_test (m_flags bc) = Done false ∧ "test"%string ∈ flags sample_manifest.
Proof.
  destruct sample_config as [f| | |] eqn:E; try (vm_compute in E; discriminate E).
  destruct (test_flag_lost (put_bytes ∅ 0x6000 (content f)) sample_manifest f (Buffer 0x6000 (Z.of_nat (length (content f)))) E (sample_holds f E)) as (bc & H1 & H2).
  - apply NoDup_singleton.
  - exists f, bc. split; [done|]. split; [done|]. split; [done|]. by left.
Defined.
