(* ===== verification/RomFs.v ===== *)
(** * File system images

    The initial file system: scripts/mkj6romfs.py writes an image of a directory ([make_image]), and the init
    server reads it from memory (src/user/srv.init/j6romfs.cpp: [fs_new], [load_inode_data],
    [lookup_inode_in_dir], [lookup_inode], [load_simple]).  A directory of the host is a [tree] whose names are
    their UTF-8 bytes, in the order in which [os.walk] gives them; a path of the host is the list of the names
    below the root.  The compressor is a parameter, of which the code uses that the decompressor gives back
    what was compressed.

    [image_roundtrip] shows that each path of the tree leads to its file or directory and every other path to
    nothing, and that a loaded file has the bytes it had, if the names have different hashes and are ASCII;
    [for_each_lists] that a directory lists its entries; [non_ascii_lost] that a name with another character is
    not found, since the reader's hash widens a signed [char]. *)
From S2P Require Import Prelude Bytes OutFile Bits.

(** ** The script *)

Abbreviation name := (list Z).
Abbreviation path := (list (list Z)).
Inductive tree := Dir (dirs : list (name * tree)) (files : list (name * list Z)).
Definition type_dir : Z := 1.
Definition type_file : Z := 2.
Definition uncompressed_limit : Z := 0xffffffff.
Definition compressed_limit : Z := 0xffffff.

(** [os.walk(root, topdown=False)]: the directories, each one after those in it. *)
Record visit := Visit { v_path : path; v_dirs : list name; v_files : list (name * list Z) }.
Fixpoint walk (p : path) (t : tree) : list visit :=
  match t with Dir ds fs => concat (map (λ x, match x with (n, t) => walk (p ++ [n]) t end) ds) ++ [Visit p ds.*1 fs] end.

Record inode := Inode { i_type : Z; i_offset : Z; i_comp : Z; i_size : Z }.
Record builder := Builder { out : file; inode_data : list inode }.

(** scripts/fnv.py: [hash64] of bytes *)
Definition py_hash64 (bs : list Z) : Z := foldl (λ h b, Z.land (Z.lxor h b * 1099511628211) (2 ^ 64 - 1)) 14695981039346656037 bs.
Definition align (f : file) (size : Z) : file :=
  let extra := tell f mod size in if extra =? 0 then f else seek_on f (size - extra).

Section compressor.
Context (compress : list Z → list Z).

Definition stored (d : list Z) : list Z := if Z.of_nat (length d) <=? Z.of_nat (length (compress d)) then d else compress d.
Definition add_file (b : builder) (d : list Z) : outcome builder :=
  let offset := tell (out b) in
  let c := stored d in
  let o := write (out b) c in
  if uncompressed_limit <? Z.of_nat (length d) then Panic
  else if compressed_limit <? Z.of_nat (length c) then Panic
  else Done (Builder o (inode_data b ++ [Inode type_file offset (Z.of_nat (length c)) (Z.of_nat (length d))])).
(** The files of a directory, with the inodes they get. *)
Fixpoint add_files (b : builder) (fs : list (name * list Z)) : outcome (builder * list (name * Z)) :=
  match fs with
  | [] => Done (b, [])
  | (n, d) :: fs =>
      let i := Z.of_nat (length (inode_data b)) in
      let* b := add_file b d in
      let* (b, l) := add_files b fs in
      Done (b, (n, i) :: l)
  end.

Definition dirent_size : Z := 16.
Definition make_dirent (i type : Z) (n : name) (strings : list Z) (strings_offset : Z) : outcome (list Z * list Z) :=
  let* b1 := pack 4 i in
  let* b2 := pack 2 (strings_offset + Z.of_nat (length strings)) in
  let* b3 := pack 1 type in
  let* b4 := pack 1 (Z.of_nat (length n) + 1) in
  let* b5 := pack 8 (py_hash64 n) in
  Done (b1 ++ b2 ++ b3 ++ b4 ++ b5, strings ++ n ++ [0]).
(** The entries of a directory, with their types, inodes and names. *)
Fixpoint make_dirents (es : list (Z * Z * name)) (data strings : list Z) (strings_offset : Z) : outcome (list Z * list Z) :=
  match es with
  | [] => Done (data, strings)
  | (t, i, n) :: es =>
      let* (e, strings) := make_dirent i t n strings strings_offset in
      make_dirents es (data ++ e) strings strings_offset
  end.
(** The inodes of the directories by their paths, and the entries of a directory. *)
Record directory := Directory { d_path : path; d_files : list (name * Z); d_dirs : list (name * path) }.
Fixpoint dir_entries (dir_inodes : gmap path Z) (ds : list (name * path)) : outcome (list (Z * Z * name)) :=
  match ds with
  | [] => Done []
  | (n, p) :: ds =>
      let* i := match dir_inodes !! p with Some i => Done i | None => Panic end in
      let* es := dir_entries dir_inodes ds in
      Done ((type_dir, i, n) :: es)
  end.
Definition add_dir (dir_inodes : gmap path Z) (b : builder) (d : directory) : outcome builder :=
  let o := align (out b) 0x10 in
  let offset := tell o in
  let* es := dir_entries dir_inodes (d_dirs d) in
  let es := es ++ ((λ x, (type_file, x.2, x.1)) <$> d_files d) in
  let* (data, strings) := make_dirents es [] [] (dirent_size * (Z.of_nat (length (d_dirs d)) + Z.of_nat (length (d_files d)))) in
  let u := data ++ strings in
  let c := stored u in
  Done (Builder (write o c) (inode_data b ++ [Inode type_dir offset (Z.of_nat (length c)) (Z.of_nat (length u))])).

Definition dot : name := [46].
Definition dotdot : name := [46; 46].
(** The first loop of [make_image]: the files. *)
Definition parent_of (p : path) : path := removelast p.
Fixpoint add_all_files (b : builder) (vs : list visit) : outcome (builder * list directory) :=
  match vs with
  | [] => Done (b, [])
  | v :: vs =>
      let* (b, l) := add_files b (v_files v) in
      let ds := (dot, v_path v) :: (dotdot, parent_of (v_path v)) :: ((λ n, (n, v_path v ++ [n])) <$> v_dirs v) in
      let* (b, dirs) := add_all_files b vs in
      Done (b, Directory (v_path v) l ds :: dirs)
  end.
(** The dict of the second loop: for a path that comes twice, the later inode. *)
Definition dir_index (n : Z) (dirs : list directory) : gmap path Z := list_to_map (reverse (imap (λ i d, (d_path d, n + Z.of_nat i)) dirs)).
Fixpoint add_all_dirs (dir_inodes : gmap path Z) (b : builder) (dirs : list directory) : outcome builder :=
  match dirs with [] => Done b | d :: dirs => let* b := add_dir dir_inodes b d in add_all_dirs dir_inodes b dirs end.
Definition inode_bytes (x : inode) : outcome (list Z) :=
  let* b1 := pack 4 (i_size x) in
  let* b2 := pack 4 (Z.lor (Z.land (i_comp x) 0xffffff) (Z.shiftl (i_type x) 24)) in
  let* b3 := pack 8 (i_offset x) in
  Done (b1 ++ b2 ++ b3).
Fixpoint write_inodes (f : file) (l : list inode) : outcome file :=
  match l with [] => Done f | x :: l => let* b := inode_bytes x in write_inodes (write f b) l end.
(** The bytes of [j6romfs1]. *)
Definition romfs_magic : list Z := [106; 54; 114; 111; 109; 102; 115; 49].
Definition header_bytes (compressor_id inode_offset inode_count root_inode : Z) : outcome (list Z) :=
  let* b1 := pack 8 inode_offset in
  let* b2 := pack 4 inode_count in
  let* b3 := pack 4 root_inode in
  let* b4 := pack 1 compressor_id in
  Done (romfs_magic ++ b1 ++ b2 ++ b3 ++ b4 ++ replicate 7 0).
Definition make_image (compressor_id : Z) (root : tree) : outcome file :=
  let* h := header_bytes compressor_id 0 0 0 in
  let* (b, dirs) := add_all_files (Builder (write (seek new_file 0) h) []) (walk [] root) in
  let* b := add_all_dirs (dir_index (Z.of_nat (length (inode_data b))) dirs) b dirs in
  let o := align (out b) 0x10 in
  let n := Z.of_nat (length (inode_data b)) in
  let* f := write_inodes o (inode_data b) in
  let* h := header_bytes compressor_id (tell o) n (n - 1) in
  Done (write (seek f 0) h).
End compressor.

(** ** The init server *)

Definition max_path : nat := 255.
(** A path without its terminator: the next element of it, and the rest. *)
Fixpoint copy_chars (n : nat) (p : list Z) : list Z * list Z :=
  match n, p with
  | S n, c :: p' => if c =? 47 then ([], p) else let (el, rest) := copy_chars n p' in (c :: el, rest)
  | _, _ => ([], p)
  end.
Definition copy_path_element (p : list Z) : list Z * list Z :=
  match p with c :: p' => copy_chars max_path (if c =? 47 then p' else p) | [] => ([], []) end.

Record romfs := Fs { m_data : buffer; m_inodes : Z; m_root : Z }.
Definition fs_new (pm : physical) (data : buffer) : outcome romfs :=
  let* inode_offset := read_le pm (b_pointer data + 8) 8 in
  let* root_inode := read_le pm (b_pointer data + 20) 4 in
  let inodes := u64 (b_pointer data + inode_offset) in
  Done (Fs data inodes (u64 (inodes + 16 * root_inode))).
Definition inode_size (pm : physical) (i : Z) : outcome Z := read_le pm i 4.
Definition inode_compressed (pm : physical) (i : Z) : outcome Z := read_le pm (i + 4) 3.
Definition inode_type (pm : physical) (i : Z) : outcome Z := read_le pm (i + 7) 1.

Section decompressor.
(** [ZSTD_decompress]: the bytes that compressed bytes stand for, if there is room for them. *)
Context (decompress : Z → list Z → option (list Z)).

(** The bytes that are put in a destination of [dest] bytes. *)
Definition load_inode_data (pm : physical) (r : romfs) (i dest : Z) : outcome (list Z) :=
  let* offset := read_le pm (i + 8) 8 in
  let src := advance (m_data r) offset in
  let* size := inode_size pm i in
  let* compressed := inode_compressed pm i in
  let* _ := kassert (size <=? dest) in
  let* _ := kassert (compressed <=? b_count src) in
  let* bs := read_bytes pm (b_pointer src) (Z.to_nat compressed) in
  if size =? compressed then Done bs else match decompress dest bs with Some d => Done d | None => Panic end.

(** Fields of the entries in a directory's bytes. *)
Definition field (d : list Z) (a : Z) (n : nat) : outcome Z :=
  if a + Z.of_nat n <=? Z.of_nat (length d) then Done (of_le (take n (drop (Z.to_nat a) d))) else Undef.
Fixpoint find_dirent (fuel : nat) (d : list Z) (hash i max : Z) : outcome (option Z) :=
  match fuel with
  | O => Diverge
  | S fuel =>
      if i <? max then
        let* h := field d (16 * i + 8) 8 in
        if h =? hash then let* x := field d (16 * i) 4 in Done (Some x)
        else
          let* o := field d (16 * i + 4) 2 in
          let new_max := o / 16 in
          find_dirent fuel d hash (u32 (i + 1)) (if new_max <? max then new_max else max)
      else Done None
  end.
Definition lookup_inode_in_dir (pm : physical) (r : romfs) (dir : Z) (n : name) : outcome (option Z) :=
  let* size := inode_size pm dir in
  let* d := load_inode_data pm r dir size in
  let max := size / 16 in
  let* x := find_dirent (S (Z.to_nat max)) d (hash64_string (Some n)) 0 max in
  Done (option_map (λ i, u64 (m_inodes r + 16 * i)) x).
Fixpoint lookup_loop (fuel : nat) (pm : physical) (r : romfs) (i : Z) (p : list Z) : outcome (option Z) :=
  match fuel with
  | O => Diverge
  | S fuel =>
      match p with
      | [] => Done None
      | _ =>
          let (el, rest) := copy_path_element p in
          let* x := lookup_inode_in_dir pm r i el in
          match x with
          | None => Done None
          | Some i =>
              match rest with
              | [] => Done (Some i)
              | _ => let* t := inode_type pm i in if t =? type_file then Done None else lookup_loop fuel pm r i rest
              end
          end
      end
  end.
Definition lookup_inode (pm : physical) (r : romfs) (p : list Z) : outcome (option Z) := lookup_loop (S (length p)) pm r (m_root r) p.
(** The bytes of a file; nothing for a path that leads to no file. *)
Definition load_simple (pm : physical) (r : romfs) (p : list Z) : outcome (option (list Z)) :=
  let* x := lookup_inode pm r p in
  match x with
  | None => Done None
  | Some i =>
      let* t := inode_type pm i in
      if negb (t =? type_file) then Done None
      else let* size := inode_size pm i in let* d := load_inode_data pm r i size in Done (Some d)
  end.
(** The name that starts at an offset of a directory's bytes. *)
Fixpoint c_string (l : list Z) : outcome (list Z) :=
  match l with [] => Undef | x :: l => if x =? 0 then Done [] else let* s := c_string l in Done (x :: s) end.
(** [for_each]: the inode and the name of each entry, in the order of the calls of the callback. *)
Fixpoint for_each_loop (fuel : nat) (r : romfs) (d : list Z) (i max : Z) : outcome (list (Z * list Z)) :=
  match fuel with
  | O => Diverge
  | S fuel =>
      if i <? max then
        let* x := field d (16 * i) 4 in
        let* o := field d (16 * i + 4) 2 in
        let* s := c_string (drop (Z.to_nat o) d) in
        let new_max := o / 16 in
        let* l := for_each_loop fuel r d (u64 (i + 1)) (if new_max <? max then new_max else max) in
        Done ((u64 (m_inodes r + 16 * x), s) :: l)
      else Done []
  end.
Definition for_each (pm : physical) (r : romfs) (p : list Z) : outcome (list (Z * list Z)) :=
  let* x := lookup_inode pm r p in
  match x with
  | None => Done []
  | Some i =>
      let* t := inode_type pm i in
      if negb (t =? type_dir) then Done []
      else
        let* size := inode_size pm i in
        let* d := load_inode_data pm r i size in
        for_each_loop (S (Z.to_nat (size / 16))) r d 0 (size / 16)
  end.
End decompressor.

(** ** What the script writes *)

(** Bytes inside a file's content. *)
Definition data_at (c : list Z) (o : nat) (bs : list Z) : Prop := ∀ i b, bs !! i = Some b → c !! (o + i)%nat = Some b.
Lemma data_at_end c bs : data_at (c ++ bs) (length c) bs.
Proof. intros i b Hi. rewrite lookup_app_r by lia. by replace (length c + i - length c)%nat with i by lia. Qed.
Lemma data_at_app c x o bs : data_at c o bs → data_at (c ++ x) o bs.
Proof. intros H i b Hi. apply lookup_app_l_Some. by apply H. Qed.
Lemma data_at_header h h' c o bs : length h = length h' → (length h <= o)%nat → data_at (h ++ c) o bs → data_at (h' ++ c) o bs.
Proof. intros Hl Ho H i b Hi. specialize (H i b Hi). rewrite lookup_app_r in H |- * by lia. by rewrite <-Hl. Qed.
Lemma data_at_bytes pm base c o bs : bytes_at pm base c → data_at c o bs → bytes_at pm (base + Z.of_nat o) bs.
Proof. intros Hb H i b Hi. rewrite <-Z.add_assoc, <-Nat2Z.inj_add. apply Hb. by apply H. Qed.

Section images.
(** Something that is not empty is compressed to something that is not empty. *)
Context (compress : list Z → list Z) (Hcomp : ∀ d, d ≠ [] → compress d ≠ []).
Implicit Types (b : builder).

Lemma stored_le d : (length (stored compress d) <= length d)%nat.
Proof. unfold stored. destruct (Z.leb_spec (Z.of_nat (length d)) (Z.of_nat (length (compress d)))); lia. Qed.

Lemma stored_nonempty d : d ≠ [] → stored compress d ≠ [].
Proof. intros Hd. unfold stored. destruct (_ <=? _); [done|by apply Hcomp]. Qed.

(** An inode with the type and the data it stands for. *)
Record inode_ok (c : list Z) (x : inode) (blob : Z * list Z) : Prop := {
  io_type : i_type x = blob.1;
  io_size : i_size x = Z.of_nat (length blob.2);
  io_comp : i_comp x = Z.of_nat (length (stored compress blob.2));
  io_limit : Z.of_nat (length (stored compress blob.2)) < 2 ^ 24;
  io_data : ∃ o, i_offset x = Z.of_nat o ∧ (32 <= o)%nat ∧ (o + length (stored compress blob.2) <= length c)%nat ∧ data_at c o (stored compress blob.2);
}.
Record builder_ok b (bl : list (Z * list Z)) : Prop := {
  bo_end : out b = File (content (out b)) (length (content (out b)));
  bo_head : (32 <= length (content (out b)))%nat;
  bo_inodes : Forall2 (inode_ok (content (out b))) (inode_data b) bl;
}.
Lemma inode_ok_app c y x blob : inode_ok c x blob → inode_ok (c ++ y) x blob.
Proof.
  intros [H1 H2 H3 H4 (o & H5 & H6 & H7 & H8)]. split; try done. exists o. split; [done|]. split; [done|]. rewrite length_app. split; [lia|by apply data_at_app].
Qed.
(** Data at the end of the file, behind a hole of [k] bytes, with an inode for it. *)
Lemma append_inode c l bl k t d : (32 <= length c)%nat → Forall2 (inode_ok c) l bl → Z.of_nat (length (stored compress d)) < 2 ^ 24 →
  let c' := (c ++ replicate k 0) ++ stored compress d in
  builder_ok (Builder (File c' (length c')) (l ++ [Inode t (Z.of_nat (length (c ++ replicate k 0))) (Z.of_nat (length (stored compress d))) (Z.of_nat (length d))])) (bl ++ [(t, d)]).
Proof.
  intros Hc Hf Hl c'. split; cbn [out content pos inode_data]; [done|unfold c'; rewrite !length_app; lia|]. apply Forall2_app.
  - eapply Forall2_impl; [exact Hf|]. intros x y H. unfold c'. rewrite <-(assoc_L (++)). by apply inode_ok_app.
  - constructor; [|constructor]. split; cbn [i_type i_size i_comp i_offset fst snd]; try done. exists (length (c ++ replicate k 0)). split; [done|].
    split; [rewrite length_app; lia|]. split; [unfold c'; rewrite (length_app (c ++ _)); lia|]. apply data_at_end.
Qed.
Lemma add_file_spec b bl d b' : builder_ok b bl → add_file compress b d = Done b' → builder_ok b' (bl ++ [(type_file, d)]) ∧ Z.of_nat (length d) ≤ uncompressed_limit.
Proof.
  intros [He Hh Hi]. unfold add_file. destruct (Z.ltb_spec uncompressed_limit (Z.of_nat (length d))); [done|].
  destruct (Z.ltb_spec compressed_limit (Z.of_nat (length (stored compress d)))) as [|Hc]; [done|]. intros [= <-]. split; [|done].
  rewrite He. cbn [content] in *. set (c := content (out b)) in *. unfold tell. cbn [pos]. rewrite write_end.
  pose proof (append_inode c _ _ 0 type_file d Hh Hi) as H1. cbn [replicate] in H1. rewrite app_nil_r in H1. apply H1. unfold compressed_limit in Hc. lia.
Qed.

Definition file_blobs (fs : list (name * list Z)) : list (Z * list Z) := (λ x, (type_file, x.2)) <$> fs.
(** Files by their names, with the inodes of their data. *)
Definition links (bl : list (Z * list Z)) (fs : list (name * list Z)) (l : list (name * Z)) : Prop :=
  Forall2 (λ f x, x.1 = f.1 ∧ ∃ k, x.2 = Z.of_nat k ∧ bl !! k = Some (type_file, f.2)) fs l.
Lemma links_app bl bl' fs l : links bl fs l → links (bl ++ bl') fs l.
Proof. intros H. eapply Forall2_impl; [exact H|]. intros f x (H1 & k & H2 & H3). split; [done|]. exists k. split; [done|]. by apply lookup_app_l_Some. Qed.
Lemma builder_length b bl : builder_ok b bl → length (inode_data b) = length bl.
Proof. intros [_ _ H]. by apply Forall2_length in H. Qed.
Lemma add_files_spec fs : ∀ b bl b' l, builder_ok b bl → add_files compress b fs = Done (b', l) → builder_ok b' (bl ++ file_blobs fs) ∧ links (bl ++ file_blobs fs) fs l.
Proof.
  induction fs as [|[n d] fs IH]; intros b bl b' l Hb; cbn [add_files].
  - intros [= <- <-]. unfold file_blobs. cbn. rewrite app_nil_r. split; [done|constructor].
  - destruct (add_file compress b d) as [b1| | |] eqn:E; try done. cbn [mbind outcome_bind]. destruct (add_file_spec _ _ _ _ Hb E) as [H1 _].
    destruct (add_files compress b1 fs) as [[b2 l2]| | |] eqn:E2; try done. cbn [mbind outcome_bind]. intros [= <- <-].
    destruct (IH _ _ _ _ H1 E2) as [H2 H3]. rewrite <-(assoc_L (++)) in H2, H3. split; [exact H2|]. constructor; [|exact H3]. cbn [fst snd]. split; [done|].
    exists (length bl). rewrite (builder_length _ _ Hb). split; [done|]. rewrite lookup_app_r, Nat.sub_diag by lia. done.
Qed.

(** What the first loop leaves for a directory. *)
Record dir_ok (bl : list (Z * list Z)) (v : visit) (d : directory) : Prop := {
  do_path : d_path d = v_path v;
  do_dirs : d_dirs d = (dot, v_path v) :: (dotdot, parent_of (v_path v)) :: ((λ n, (n, v_path v ++ [n])) <$> v_dirs v);
  do_files : links bl (v_files v) (d_files d);
}.
Definition all_blobs (vs : list visit) : list (Z * list Z) := concat ((λ v, file_blobs (v_files v)) <$> vs).
Lemma add_all_files_spec vs : ∀ b bl b' dirs, builder_ok b bl → add_all_files compress b vs = Done (b', dirs) →
  builder_ok b' (bl ++ all_blobs vs) ∧ Forall2 (dir_ok (bl ++ all_blobs vs)) vs dirs.
Proof.
  induction vs as [|v vs IH]; intros b bl b' dirs Hb; cbn [add_all_files].
  - intros [= <- <-]. unfold all_blobs. cbn. rewrite app_nil_r. split; [done|constructor].
  - destruct (add_files compress b (v_files v)) as [[b1 l]| | |] eqn:E; try done. cbn [mbind outcome_bind]. destruct (add_files_spec _ _ _ _ _ Hb E) as [H1 H2].
    destruct (add_all_files compress b1 vs) as [[b2 ds]| | |] eqn:E2; try done. cbn [mbind outcome_bind]. intros [= <- <-].
    destruct (IH _ _ _ _ H1 E2) as [H3 H4]. rewrite <-(assoc_L (++)) in H3, H4. split; [exact H3|]. constructor; [|exact H4]. split; cbn [d_path d_dirs d_files]; [done|done|].
    unfold all_blobs. cbn [fmap list_fmap concat]. rewrite (assoc_L (++)). by apply links_app.
Qed.

(** The bytes of a directory's entries, whose names start at [o]. *)
Definition dirent_bytes (o : Z) (e : Z * Z * name) : list Z :=
  le_bytes 4 e.1.2 ++ le_bytes 2 o ++ le_bytes 1 e.1.1 ++ le_bytes 1 (Z.of_nat (length e.2) + 1) ++ le_bytes 8 (py_hash64 e.2).
Fixpoint dirents_of (o : Z) (es : list (Z * Z * name)) : list Z :=
  match es with [] => [] | e :: es => dirent_bytes o e ++ dirents_of (o + Z.of_nat (length e.2) + 1) es end.
Definition names_of (es : list (Z * Z * name)) : list Z := concat ((λ e, e.2 ++ [0]) <$> es).
Definition dir_data (es : list (Z * Z * name)) : list Z := dirents_of (dirent_size * Z.of_nat (length es)) es ++ names_of es.
Fixpoint dirents_ok (o : Z) (es : list (Z * Z * name)) : Prop :=
  match es with
  | [] => True
  | e :: es => 0 ≤ e.1.2 < 2 ^ 32 ∧ 0 ≤ o < 2 ^ 16 ∧ Z.of_nat (length e.2) + 1 < 2 ^ 8 ∧ dirents_ok (o + Z.of_nat (length e.2) + 1) es
  end.
Lemma length_dirent_bytes o e : length (dirent_bytes o e) = 16%nat.
Proof. unfold dirent_bytes. by rewrite !length_app, !length_le_bytes. Qed.
Lemma length_dirents_of o es : length (dirents_of o es) = (16 * length es)%nat.
Proof. revert o. induction es as [|e es IH]; intros o; cbn [dirents_of length]; [done|]. rewrite length_app, length_dirent_bytes, IH. lia. Qed.
Lemma names_cons e es : names_of (e :: es) = e.2 ++ [0] ++ names_of es.
Proof. unfold names_of. cbn [fmap list_fmap concat]. by rewrite <-(assoc_L (++)). Qed.
Lemma make_dirents_spec es : ∀ data strings so u s, make_dirents es data strings so = Done (u, s) →
  u = data ++ dirents_of (so + Z.of_nat (length strings)) es ∧ s = strings ++ names_of es ∧ dirents_ok (so + Z.of_nat (length strings)) es.
Proof.
  induction es as [|[[t i] n] es IH]; intros data strings so u s; cbn [make_dirents dirents_of dirents_ok fst snd].
  - intros [= <- <-]. unfold names_of. cbn. by rewrite !app_nil_r.
  - unfold make_dirent. destruct (pack 4 i) as [b1| | |] eqn:E1; try done. cbn [mbind outcome_bind]. destruct (pack 2 _) as [b2| | |] eqn:E2; try done. cbn [mbind outcome_bind].
    destruct (pack 1 t) as [b3| | |] eqn:E3; try done. cbn [mbind outcome_bind]. destruct (pack 1 (_ + _)) as [b4| | |] eqn:E4; try done. cbn [mbind outcome_bind].
    destruct (pack 8 _) as [b5| | |] eqn:E5; try done. cbn [mbind outcome_bind]. intros H. apply IH in H as (-> & -> & H3).
    apply pack_inv in E1 as [R1 ->], E2 as [R2 ->], E3 as [R3 ->], E4 as [R4 ->], E5 as [R5 ->]. rewrite !length_app in *. cbn [length] in *.
    replace (so + Z.of_nat (length strings + (length n + 1))) with (so + Z.of_nat (length strings) + Z.of_nat (length n) + 1) in * by lia.
    split; [unfold dirent_bytes; cbn [fst snd]; by rewrite <-!(assoc_L (++))|]. split; [rewrite names_cons; cbn [snd]; by rewrite <-!(assoc_L (++))|].
    split; [exact R1|]. split; [exact R2|]. split; [apply R4|exact H3].
Qed.
(** The offsets of names are small, and so is the directory. *)
Lemma dirents_small o es : dirents_ok o es → es ≠ [] → o + Z.of_nat (length (names_of es)) < 2 ^ 16 + 2 ^ 8.
Proof.
  revert o. induction es as [|e es IH]; [done|]. intros o (_ & Ho & Hn & H) _. rewrite names_cons, !length_app. cbn [length].
  destruct (decide (es = [])) as [->|Hne]; [unfold names_of; cbn; lia|]. specialize (IH _ H Hne). lia.
Qed.

Lemma align_spec f : f = File (content f) (length (content f)) → ∃ k, align f 0x10 = File (content f) (length (content f) + k) ∧ (k < 16)%nat.
Proof.
  intros E. unfold align, tell. rewrite E. cbn [content pos]. pose proof (Z.mod_pos_bound (Z.of_nat (length (content f))) 16 ltac:(lia)).
  destruct (Z.eqb_spec (Z.of_nat (length (content f)) mod 16) 0); [exists O; rewrite Nat.add_0_r; split; [done|lia]|].
  eexists (Z.to_nat (16 - Z.of_nat (length (content f)) mod 16)). unfold seek_on. cbn [content pos]. split; [f_equal; lia|lia].
Qed.
(** The entries for the directories in a directory. *)
Definition dir_link (dir_inodes : gmap path Z) (x : name * path) (e : Z * Z * name) : Prop := e.1.1 = type_dir ∧ dir_inodes !! x.2 = Some e.1.2 ∧ e.2 = x.1.
Lemma dir_entries_spec dir_inodes ds es : dir_entries dir_inodes ds = Done es → Forall2 (dir_link dir_inodes) ds es.
Proof.
  revert es. induction ds as [|[n p] ds IH]; intros es; cbn [dir_entries]; [intros [= <-]; constructor|]. destruct (dir_inodes !! p) eqn:E; try done. cbn [mbind outcome_bind].
  destruct (dir_entries dir_inodes ds) as [es'| | |]; try done. cbn [mbind outcome_bind]. intros [= <-]. constructor; [done|by apply IH].
Qed.
Record entries_of (dir_inodes : gmap path Z) (d : directory) (all : list (Z * Z * name)) : Prop := {
  eo_parts : ∃ es, Forall2 (dir_link dir_inodes) (d_dirs d) es ∧ all = es ++ ((λ x, (type_file, x.2, x.1)) <$> d_files d);
  eo_ok : dirents_ok (dirent_size * Z.of_nat (length all)) all;
}.
(** A directory gets an inode for the bytes of its entries. *)
Lemma add_dir_spec dir_inodes b bl d b' : builder_ok b bl → add_dir compress dir_inodes b d = Done b' → d_dirs d ≠ [] → ∃ all,
  entries_of dir_inodes d all ∧ builder_ok b' (bl ++ [(type_dir, dir_data all)]).
Proof.
  intros [He Hh Hi] H Hne. unfold add_dir in H. destruct (align_spec _ He) as (k & Hk & _). rewrite Hk in H.
  destruct (dir_entries dir_inodes (d_dirs d)) as [es| | |] eqn:E; try done. cbn [mbind outcome_bind] in H. set (all := es ++ _) in *.
  assert (Hes : length es = length (d_dirs d)) by (by apply dir_entries_spec, Forall2_length in E).
  assert (Hlen : length all = (length (d_dirs d) + length (d_files d))%nat) by (unfold all; rewrite length_app, length_fmap; lia).
  destruct (make_dirents all [] [] _) as [[u s]| | |] eqn:Em; try done. cbn [mbind outcome_bind] in H. apply make_dirents_spec in Em as (-> & -> & Hok). cbn [app length] in *.
  rewrite Z.add_0_r, <-Nat2Z.inj_add, <-Hlen in *. fold (dir_data all) in H. injection H as <-. exists all. split; [split; [exists es; split; [by apply dir_entries_spec|done]|done]|].
  assert (Hall : all ≠ []) by (intros Hn; rewrite Hn in Hlen; cbn in Hlen; destruct (d_dirs d); [done|cbn in Hlen; lia]).
  assert (Hdd : dir_data all ≠ []) by (intros Hn; apply (f_equal length) in Hn; unfold dir_data in Hn; rewrite length_app, length_dirents_of in Hn; destruct all; [done|cbn in Hn; lia]).
  rewrite write_gap by (by apply stored_nonempty). rewrite write_end. unfold tell. cbn [pos]. rewrite <-(length_replicate k 0) at 3. rewrite <-length_app.
  apply (append_inode (content (out b)) _ _ k type_dir (dir_data all) Hh Hi). pose proof (stored_le (dir_data all)) as Hle. pose proof (dirents_small _ _ Hok Hall) as Hsm.
  unfold dir_data at 2 in Hle. rewrite length_app, length_dirents_of in Hle. unfold dirent_size in Hsm. lia.
Qed.

Lemma add_all_dirs_spec dir_inodes dirs : ∀ b bl b', builder_ok b bl → add_all_dirs compress dir_inodes b dirs = Done b' → Forall (λ d, d_dirs d ≠ []) dirs →
  ∃ ess, Forall2 (entries_of dir_inodes) dirs ess ∧ builder_ok b' (bl ++ ((λ all, (type_dir, dir_data all)) <$> ess)).
Proof.
  induction dirs as [|d dirs IH]; intros b bl b' Hb; cbn [add_all_dirs].
  - intros [= <-] _. exists []. cbn. rewrite app_nil_r. split; [constructor|done].
  - destruct (add_dir compress dir_inodes b d) as [b1| | |] eqn:E; try done. cbn [mbind outcome_bind]. intros H [Hd Hds]%Forall_cons.
    destruct (add_dir_spec _ _ _ _ _ Hb E Hd) as (all & Ha & H1). destruct (IH _ _ _ H1 H Hds) as (ess & He & H2). exists (all :: ess).
    split; [by constructor|]. cbn [fmap list_fmap]. by rewrite <-(assoc_L (++)) in H2.
Qed.

(** The table of the inodes. *)
Definition inode_ranges (x : inode) : Prop := is_u32 (i_size x) ∧ is_u32 (Z.lor (Z.land (i_comp x) 0xffffff) (Z.shiftl (i_type x) 24)) ∧ is_u64 (i_offset x).
Definition table_entry (x : inode) : list Z :=
  le_bytes 4 (i_size x) ++ le_bytes 4 (Z.lor (Z.land (i_comp x) 0xffffff) (Z.shiftl (i_type x) 24)) ++ le_bytes 8 (i_offset x).
Definition table (l : list inode) : list Z := concat (table_entry <$> l).
Lemma inode_bytes_inv x bs : inode_bytes x = Done bs → bs = table_entry x ∧ inode_ranges x.
Proof.
  unfold inode_bytes. destruct (pack 4 (i_size x)) as [b1| | |] eqn:E1; try done. cbn [mbind outcome_bind]. destruct (pack 4 (Z.lor _ _)) as [b2| | |] eqn:E2; try done. cbn [mbind outcome_bind].
  destruct (pack 8 (i_offset x)) as [b3| | |] eqn:E3; try done. cbn [mbind outcome_bind]. intros [= <-]. apply pack_inv in E1 as [R1 ->], E2 as [R2 ->], E3 as [R3 ->]. done.
Qed.
Lemma write_inodes_spec l : ∀ c f, write_inodes (File c (length c)) l = Done f → f = File (c ++ table l) (length (c ++ table l)) ∧ Forall inode_ranges l.
Proof.
  induction l as [|x l IH]; intros c f; cbn [write_inodes]; [intros [= <-]; unfold table; cbn; by rewrite app_nil_r|].
  destruct (inode_bytes x) as [bs| | |] eqn:E; try done. cbn [mbind outcome_bind]. apply inode_bytes_inv in E as [-> Hr]. rewrite write_end. intros H.
  apply IH in H as [-> Hl]. unfold table. cbn [fmap list_fmap concat]. rewrite (assoc_L (++)). split; [done|by constructor].
Qed.
Lemma length_table_entry x : length (table_entry x) = 16%nat.
Proof. unfold table_entry. by rewrite !length_app, !length_le_bytes. Qed.
Lemma table_lookup c l : ∀ o, data_at c o (table l) → ∀ k x, l !! k = Some x → data_at c (o + 16 * k) (table_entry x).
Proof.
  induction l as [|y l IH]; intros o H k x Hk; [done|]. unfold table in H. cbn [fmap list_fmap concat] in H. destruct k as [|k].
  - injection Hk as ->. intros i b Hi. rewrite Nat.mul_0_r, Nat.add_0_r. apply H. by apply lookup_app_l_Some.
  - replace (o + 16 * S k)%nat with (o + 16 + 16 * k)%nat by lia. apply IH; [|done]. intros i b Hi.
    rewrite <-Nat.add_assoc. apply H. rewrite lookup_app_r by (rewrite length_table_entry; lia). rewrite length_table_entry. by replace (16 + i - 16)%nat with i by lia.
Qed.

(** ** The image *)

(** Everything the reader needs of an image: the header, the inodes and their data. *)
Record image (c : list Z) (io : nat) (bl : list (Z * list Z)) : Prop := {
  im_count : bl ≠ [];
  im_offset : data_at c 8 (le_bytes 8 (Z.of_nat io)) ∧ Z.of_nat io < 2 ^ 64;
  im_root : data_at c 20 (le_bytes 4 (Z.of_nat (length bl - 1))) ∧ Z.of_nat (length bl) ≤ 2 ^ 32;
  im_len : (io + 16 * length bl <= length c)%nat;
  im_inodes : ∀ k blob, bl !! k = Some blob → ∃ x, inode_ok c x blob ∧ inode_ranges x ∧ data_at c (io + 16 * k) (table_entry x);
}.
Lemma data_at_mid a bs c : data_at (a ++ bs ++ c) (length a) bs.
Proof. rewrite (assoc_L (++)). apply data_at_app, data_at_end. Qed.
Definition header (id io n root : Z) : list Z := romfs_magic ++ le_bytes 8 io ++ le_bytes 4 n ++ le_bytes 4 root ++ le_bytes 1 id ++ replicate 7 0.
Lemma length_header id io n root : length (header id io n root) = 32%nat.
Proof. unfold header. by rewrite !length_app, !length_le_bytes. Qed.
Lemma header_bytes_inv id io n root h : header_bytes id io n root = Done h → h = header id io n root ∧ 0 ≤ io < 2 ^ 64 ∧ 0 ≤ n < 2 ^ 32.
Proof.
  unfold header_bytes. destruct (pack 8 io) as [b1| | |] eqn:E1; try done. cbn [mbind outcome_bind]. destruct (pack 4 n) as [b2| | |] eqn:E2; try done. cbn [mbind outcome_bind].
  destruct (pack 4 root) as [b3| | |] eqn:E3; try done. cbn [mbind outcome_bind]. destruct (pack 1 id) as [b4| | |] eqn:E4; try done. cbn [mbind outcome_bind]. intros [= <-].
  apply pack_inv in E1 as [R1 ->], E2 as [R2 ->], E3 as [R3 ->], E4 as [R4 ->]. done.
Qed.
Lemma inode_ok_header h h' c x blob : length h = 32%nat → length h' = 32%nat → inode_ok (h ++ c) x blob → inode_ok (h' ++ c) x blob.
Proof.
  intros Hh Hh' [H1 H2 H3 H4 (o & H5 & H6 & H7 & H8)]. split; try done. exists o. split; [done|]. split; [done|].
  split; [rewrite length_app, Hh in H7; by rewrite length_app, Hh'|]. eapply data_at_header; [by rewrite Hh, Hh'|by rewrite Hh|exact H8].
Qed.
(** The end of [make_image]: the inodes, and the header over the first one. *)
Lemma finish_image b bl id f h : builder_ok b bl → bl ≠ [] → write_inodes (align (out b) 0x10) (inode_data b) = Done f →
  header_bytes id (tell (align (out b) 0x10)) (Z.of_nat (length (inode_data b))) (Z.of_nat (length (inode_data b)) - 1) = Done h →
  ∃ io, image (content (write (seek f 0) h)) io bl.
Proof.
  intros Hb Hne Hw Hh. pose proof (builder_length _ _ Hb) as Hlen. destruct Hb as [He Hc Hi]. destruct (align_spec _ He) as (k & Hk & _). rewrite Hk in Hw, Hh. set (c := content (out b)) in *.
  assert (Hg : write_inodes (File c (length c + k)) (inode_data b) = write_inodes (File (c ++ replicate k 0) (length (c ++ replicate k 0))) (inode_data b)).
  { destruct (inode_data b) as [|x l]; [destruct bl; [done|cbn in Hlen; lia]|]. cbn [write_inodes]. destruct (inode_bytes x) as [bs| | |] eqn:E; try done. cbn [mbind outcome_bind].
    apply inode_bytes_inv in E as [-> _]. rewrite write_gap; [done|]. intros Hn. apply (f_equal length) in Hn. rewrite length_table_entry in Hn. done. }
  rewrite Hg in Hw. apply write_inodes_spec in Hw as [-> Hr]. unfold tell in Hh. cbn [pos] in Hh. apply header_bytes_inv in Hh as (-> & Hio & Hn). rewrite Hlen in *.
  exists (length c + k)%nat. set (h0 := take 32 c). set (rest := drop 32 c ++ replicate k 0 ++ table (inode_data b)).
  assert (Hh0 : length h0 = 32%nat) by (unfold h0; rewrite length_take; lia).
  assert (Hc' : (c ++ replicate k 0) ++ table (inode_data b) = h0 ++ rest) by (unfold rest, h0; rewrite !(assoc_L (++)), take_drop; done).
  unfold seek. cbn [content]. rewrite Hc'. change (Z.to_nat 0) with O. rewrite write_start by (by rewrite Hh0, length_header). cbn [content]. set (h' := header _ _ _ _).
  assert (Hlc : length (h0 ++ rest) = (length c + k + 16 * length bl)%nat).
  { rewrite <-Hc', !length_app, length_replicate. unfold table. rewrite <-Hlen. clear. induction (inode_data b) as [|x l IH]; [cbn; lia|]. cbn [fmap list_fmap concat length]. rewrite length_app, length_table_entry. lia. }
  split.
  - done.
  - split; [|lia]. unfold h', header. rewrite <-!(assoc_L (++)). apply (data_at_mid romfs_magic).
  - split; [|lia]. unfold h', header. replace (Z.of_nat (length bl - 1)) with (Z.of_nat (length bl) - 1) by (destruct bl; [done|cbn; lia]).
    pose proof (data_at_mid (romfs_magic ++ le_bytes 8 (Z.of_nat (length c + k)) ++ le_bytes 4 (Z.of_nat (length bl))) (le_bytes 4 (Z.of_nat (length bl) - 1))
      (le_bytes 1 id ++ replicate 7 0 ++ rest)) as Hd. rewrite !length_app, !length_le_bytes, <-!(assoc_L (++)) in Hd. rewrite <-!(assoc_L (++)). exact Hd.
  - rewrite length_app. unfold h'. rewrite length_header. rewrite length_app, Hh0 in Hlc. lia.
  - intros j blob Hj. destruct (Forall2_lookup_r _ _ _ _ _ Hi Hj) as (x & Hx & Hok). exists x. split; [|split].
    + apply (inode_ok_header h0); [done|apply length_header|]. rewrite <-Hc'. by apply inode_ok_app, inode_ok_app.
    + rewrite Forall_lookup in Hr. by eapply Hr.
    + apply (data_at_header h0); [unfold h'; by rewrite length_header|rewrite Hh0; lia|]. rewrite <-Hc'. eapply table_lookup; [|exact Hx].
      pose proof (data_at_end (c ++ replicate k 0) (table (inode_data b))) as Hd. by rewrite length_app, length_replicate in Hd.
Qed.
Lemma walk_nonempty p t : walk p t ≠ [].
Proof. destruct t as [ds fs]. cbn [walk]. intros H. by apply app_nil in H as [_ ?]. Qed.
Definition blobs_of (vs : list visit) (ess : list (list (Z * Z * name))) : list (Z * list Z) := all_blobs vs ++ ((λ all, (type_dir, dir_data all)) <$> ess).
(** What [make_image] writes: an image of the files and the directories. *)
Lemma make_image_spec id root f : make_image compress id root = Done f → ∃ io dirs ess,
  image (content f) io (blobs_of (walk [] root) ess) ∧ Forall2 (dir_ok (all_blobs (walk [] root))) (walk [] root) dirs ∧
  Forall2 (entries_of (dir_index (Z.of_nat (length (all_blobs (walk [] root)))) dirs)) dirs ess.
Proof.
  unfold make_image. destruct (header_bytes id 0 0 0) as [h| | |] eqn:Eh; try done. cbn [mbind outcome_bind]. apply header_bytes_inv in Eh as (-> & _).
  change (seek new_file 0) with (File [] (length (@nil Z))). rewrite write_end, app_nil_l. set (b0 := Builder _ []).
  assert (H0 : builder_ok b0 []) by (split; cbn [out content pos inode_data b0]; [done|by rewrite length_header|constructor]).
  destruct (add_all_files compress b0 (walk [] root)) as [[b1 dirs]| | |] eqn:E1; try done. cbn [mbind outcome_bind].
  destruct (add_all_files_spec _ _ _ _ _ H0 E1) as [H1 Hd]. rewrite app_nil_l in H1, Hd. rewrite (builder_length _ _ H1).
  destruct (add_all_dirs compress _ b1 dirs) as [b2| | |] eqn:E2; try done. cbn [mbind outcome_bind].
  assert (Hne : Forall (λ d, d_dirs d ≠ []) dirs) by (apply (Forall2_Forall_r _ _ _ _ Hd), Forall_true; intros v d Hv; by rewrite (do_dirs _ _ _ Hv)).
  destruct (add_all_dirs_spec _ _ _ _ _ H1 E2 Hne) as (ess & He & H2).
  destruct (write_inodes (align (out b2) 16) (inode_data b2)) as [f2| | |] eqn:E3; try done. cbn [mbind outcome_bind].
  destruct (header_bytes id (tell (align (out b2) 16)) _ _) as [h| | |] eqn:E4; try done. cbn [mbind outcome_bind]. intros [= <-].
  assert (Hbl : all_blobs (walk [] root) ++ ((λ all, (type_dir, dir_data all)) <$> ess) ≠ []); [|destruct (finish_image _ _ _ _ _ H2 Hbl E3 E4) as [io Hio]; by exists io, dirs, ess].
  intros Hn. apply app_nil in Hn as [_ Hn]. apply fmap_nil_inv in Hn. rewrite Hn in He. apply Forall2_nil_inv_r in He. rewrite He in Hd. apply Forall2_nil_inv_r in Hd.
  by apply walk_nonempty in Hd.
Qed.
End images.

(** ** What the reader finds *)

Lemma py_hash64_eq bs : py_hash64 bs = hash64 bs.
Proof.
  unfold py_hash64, hash64. change 14695981039346656037 with val_64. generalize val_64. induction bs as [|b bs IH]; intros h; cbn [foldl]; [done|]. rewrite IH.
  do 2 f_equal. change (2 ^ 64 - 1) with (Z.ones 64). rewrite Z.land_ones by lia. done.
Qed.
Lemma hash64_word bs : is_u64 (hash64 bs).
Proof.
  unfold hash64. assert (H : is_u64 val_64) by (unfold is_word, val_64; lia). revert H. generalize val_64. induction bs as [|b bs IH]; intros h H; cbn [foldl]; [done|]. apply IH.
  unfold is_word, wrap. apply Z.mod_pos_bound. lia.
Qed.
Lemma hash64_ascii bs : Forall (λ b, 0 ≤ b < 128) bs → hash64_string (Some bs) = hash64 bs.
Proof.
  cbn [hash64_string]. unfold hash64. generalize val_64. intros h H. revert h. induction H as [|b bs Hb _ IH]; intros h; cbn [foldl]; [done|]. rewrite IH.
  do 3 f_equal. unfold char_bits. rewrite (proj2 (Z.ltb_lt _ _)) by lia. rewrite wrap_small by (unfold is_word; lia). done.
Qed.

Lemma field_at pre n v post : 0 ≤ v < 256 ^ Z.of_nat n → field (pre ++ le_bytes n v ++ post) (Z.of_nat (length pre)) n = Done v.
Proof.
  intros Hv. unfold field. rewrite (proj2 (Z.leb_le _ _)) by (rewrite !length_app, length_le_bytes; lia). rewrite Nat2Z.id, drop_app_length.
  rewrite take_app_le, take_ge by (rewrite length_le_bytes; lia). by rewrite of_le_bytes.
Qed.
Lemma dirents_of_app o es1 es2 : dirents_of o (es1 ++ es2) = dirents_of o es1 ++ dirents_of (o + Z.of_nat (length (names_of es1))) es2.
Proof.
  revert o. induction es1 as [|e es1 IH]; intros o; cbn [app dirents_of]; [unfold names_of; cbn; by rewrite Z.add_0_r|]. rewrite IH, <-(assoc_L (++)). do 3 f_equal.
  rewrite names_cons, !length_app. cbn [length]. lia.
Qed.
Lemma dirents_ok_app o es1 es2 : dirents_ok o (es1 ++ es2) → dirents_ok (o + Z.of_nat (length (names_of es1))) es2.
Proof.
  revert o. induction es1 as [|e es1 IH]; intros o; cbn [app dirents_ok]; [unfold names_of; cbn; by rewrite Z.add_0_r|]. intros (_ & _ & _ & H). apply IH in H.
  rewrite names_cons, !length_app. cbn [length]. by replace (o + Z.of_nat (length e.2 + (1 + length (names_of es1)))) with (o + Z.of_nat (length e.2) + 1 + Z.of_nat (length (names_of es1))) by lia.
Qed.
(** The fields of an entry. *)
Lemma dirent_fields es1 e es2 : let es := es1 ++ e :: es2 in dirents_ok (16 * Z.of_nat (length es)) es → let i := 16 * Z.of_nat (length es1) in
  field (dir_data es) i 4 = Done e.1.2 ∧ field (dir_data es) (i + 4) 2 = Done (16 * Z.of_nat (length es) + Z.of_nat (length (names_of es1))) ∧
  field (dir_data es) (i + 8) 8 = Done (hash64 e.2).
Proof.
  intros es Hok i. pose proof (dirents_ok_app _ _ _ Hok) as (R1 & R2 & _ & _). set (o := 16 * Z.of_nat (length es) + Z.of_nat (length (names_of es1))) in *.
  assert (Hd : ∃ post, dir_data es = dirents_of (16 * Z.of_nat (length es)) es1 ++ dirent_bytes o e ++ post).
  { eexists. unfold dir_data, dirent_size, es at 2. rewrite dirents_of_app, <-(assoc_L (++)). fold o. cbn [dirents_of]. by rewrite <-(assoc_L (++)). }
  destruct Hd as [post Hd]. set (pre := dirents_of _ es1) in *. assert (Hp : Z.of_nat (length pre) = i) by (unfold pre; rewrite length_dirents_of; lia).
  unfold dirent_bytes in Hd. rewrite py_hash64_eq in Hd. rewrite Hd, <-Hp. split; [|split].
  - rewrite <-(assoc_L (++)). by apply field_at.
  - pose proof (field_at (pre ++ le_bytes 4 e.1.2) 2 o (le_bytes 1 e.1.1 ++ le_bytes 1 (Z.of_nat (length e.2) + 1) ++ le_bytes 8 (hash64 e.2) ++ post) R2) as H.
    rewrite length_app, length_le_bytes, Nat2Z.inj_add, <-!(assoc_L (++)) in H. rewrite <-!(assoc_L (++)). exact H.
  - pose proof (field_at (pre ++ le_bytes 4 e.1.2 ++ le_bytes 2 o ++ le_bytes 1 e.1.1 ++ le_bytes 1 (Z.of_nat (length e.2) + 1)) 8 (hash64 e.2) post (hash64_word _)) as H.
    rewrite !length_app, !length_le_bytes, Nat2Z.inj_add, <-!(assoc_L (++)) in H. rewrite <-!(assoc_L (++)). exact H.
Qed.
(** The number of entries, which the offset of the first name tells. *)
Lemma next_max (es es1 : list (Z * Z * name)) max : Z.of_nat (length es) ≤ max → (es1 ≠ [] → max = Z.of_nat (length es)) →
  let o := (16 * Z.of_nat (length es) + Z.of_nat (length (names_of es1))) / 16 in
  Z.of_nat (length es) ≤ (if o <? max then o else max) ∧ (if o <? max then o else max) = Z.of_nat (length es).
Proof.
  intros Hmax Hm o. assert (Ho : Z.of_nat (length es) ≤ o) by (apply Z.div_le_lower_bound; lia). destruct (decide (es1 = [])) as [->|Hn1].
  - assert (Ho1 : o = Z.of_nat (length es)) by (unfold o, names_of; cbn; rewrite Z.add_0_r, Z.mul_comm; by apply Z.div_mul). destruct (Z.ltb_spec o max); lia.
  - specialize (Hm Hn1). destruct (Z.ltb_spec o max); lia.
Qed.
Lemma find_dirent_spec es h : dirents_ok (16 * Z.of_nat (length es)) es → es ≠ [] → ∀ es2 es1 max fuel, es = es1 ++ es2 → Z.of_nat (length es) ≤ max →
  (es1 ≠ [] → max = Z.of_nat (length es)) → (length es2 < fuel)%nat →
  find_dirent fuel (dir_data es) h (Z.of_nat (length es1)) max = Done (option_map (λ e, e.1.2) (find (λ e, hash64 e.2 =? h) es2)).
Proof.
  intros Hok Hne. assert (Hsmall : 16 * Z.of_nat (length es) < 2 ^ 16) by (destruct es as [|e es']; [done|]; destruct Hok as (_ & ? & _); lia).
  induction es2 as [|e es2 IH]; intros es1 max fuel Hes Hmax Hm Hf; (destruct fuel as [|fuel]; [cbn in Hf; lia|]); cbn [find_dirent find option_map].
  - rewrite app_nil_r in Hes. subst es1. rewrite Hm, Z.ltb_irrefl by done. done.
  - assert (Hl : length es = (length es1 + S (length es2))%nat) by (rewrite Hes, length_app; done). rewrite (proj2 (Z.ltb_lt _ _)) by lia.
    pose proof (dirent_fields es1 e es2) as Hfd. cbn zeta in Hfd. rewrite <-Hes in Hfd. destruct (Hfd Hok) as (F1 & F2 & F3). rewrite F3. cbn [mbind outcome_bind].
    destruct (hash64 e.2 =? h) eqn:Eh; [by rewrite F1|]. rewrite F2. cbn [mbind outcome_bind]. rewrite (wrap_small 32) by (unfold is_word; lia).
    replace (Z.of_nat (length es1) + 1) with (Z.of_nat (length (es1 ++ [e]))) by (rewrite length_app; cbn; lia).
    destruct (next_max es es1 max Hmax Hm) as [Hm1 Hm2]. apply IH; [by rewrite <-(assoc_L (++))|exact Hm1|intros _; exact Hm2|cbn in Hf; lia].
Qed.

Lemma c_string_spec s l : 0 ∉ s → c_string (s ++ 0 :: l) = Done s.
Proof.
  induction s as [|x s IH]; intros H; [done|]. apply not_elem_of_cons in H as [Hx H]. cbn [app c_string]. rewrite (proj2 (Z.eqb_neq x 0)) by congruence. by rewrite IH.
Qed.
Lemma names_app es1 es2 : names_of (es1 ++ es2) = names_of es1 ++ names_of es2.
Proof. unfold names_of. by rewrite fmap_app, concat_app. Qed.
Lemma dirent_name es1 e es2 : let es := es1 ++ e :: es2 in 0 ∉ e.2 →
  c_string (drop (Z.to_nat (16 * Z.of_nat (length es) + Z.of_nat (length (names_of es1)))) (dir_data es)) = Done e.2.
Proof.
  intros es Hn. unfold dir_data. rewrite drop_app_ge by (rewrite length_dirents_of; lia). rewrite length_dirents_of.
  replace (Z.to_nat _ - _)%nat with (length (names_of es1)) by lia. unfold es. rewrite names_app, drop_app_length, names_cons. by apply c_string_spec.
Qed.
Lemma for_each_spec r es : dirents_ok (16 * Z.of_nat (length es)) es → es ≠ [] → Forall (λ e, 0 ∉ e.2) es → ∀ es2 es1 max fuel, es = es1 ++ es2 → Z.of_nat (length es) ≤ max →
  (es1 ≠ [] → max = Z.of_nat (length es)) → (length es2 < fuel)%nat →
  for_each_loop fuel r (dir_data es) (Z.of_nat (length es1)) max = Done ((λ e, (u64 (m_inodes r + 16 * e.1.2), e.2)) <$> es2).
Proof.
  intros Hok Hne Hz. assert (Hsmall : 16 * Z.of_nat (length es) < 2 ^ 16) by (destruct es as [|e es']; [done|]; destruct Hok as (_ & ? & _); lia).
  induction es2 as [|e es2 IH]; intros es1 max fuel Hes Hmax Hm Hf; (destruct fuel as [|fuel]; [cbn in Hf; lia|]); cbn [for_each_loop fmap list_fmap].
  - rewrite app_nil_r in Hes. subst es1. rewrite Hm, Z.ltb_irrefl by done. done.
  - assert (Hl : length es = (length es1 + S (length es2))%nat) by (rewrite Hes, length_app; done). rewrite (proj2 (Z.ltb_lt _ _)) by lia.
    pose proof (dirent_fields es1 e es2) as Hfd. cbn zeta in Hfd. rewrite <-Hes in Hfd. destruct (Hfd Hok) as (F1 & F2 & _). rewrite F1, F2. cbn [mbind outcome_bind].
    pose proof (dirent_name es1 e es2) as Hnm. cbn zeta in Hnm. rewrite <-Hes in Hnm. rewrite Hnm by (rewrite Hes in Hz; by apply Forall_app in Hz as [_ [Hz _]%Forall_cons]).
    cbn [mbind outcome_bind]. rewrite (wrap_small 64 (_ + 1)) by (unfold is_word; lia).
    replace (Z.of_nat (length es1) + 1) with (Z.of_nat (length (es1 ++ [e]))) by (rewrite length_app; cbn; lia).
    destruct (next_max es es1 max Hmax Hm) as [Hm1 Hm2]. rewrite IH; [done|by rewrite <-(assoc_L (++))|exact Hm1|intros _; exact Hm2|cbn in Hf; lia].
Qed.

(** A word of a 24-bit field and an 8-bit field. *)
Lemma le_bytes_fields comp t : 0 ≤ comp < 2 ^ 24 → 0 ≤ t < 256 → le_bytes 4 (Z.lor (Z.land comp 0xffffff) (Z.shiftl t 24)) = le_bytes 3 comp ++ le_bytes 1 t.
Proof.
  intros Hc Ht. change 0xffffff with (Z.ones 24). rewrite Z.land_ones, Z.mod_small by lia. rewrite Z.shiftl_mul_pow2 by lia.
  assert (E : Z.lor comp (t * 2 ^ 24) = comp + t * 2 ^ 24).
  { rewrite <-Z.lxor_lor, <-Z.add_nocarry_lxor; [done| |]; apply Z.bits_inj'; intros i Hi; rewrite Z.land_spec, Z.bits_0, Z.mul_pow2_bits by lia;
    (destruct (Z.ltb_spec i 24); [rewrite (Z.testbit_neg_r t) by lia; apply andb_false_r|rewrite (word_testbit_high 24 comp) by (unfold is_word; lia); done]). }
  rewrite E. cbn [le_bytes app]. change (2 ^ 24) with 16777216 in *. replace (t * 16777216) with (t * 256 * 256 * 256) by lia.
  rewrite !Z.div_add, !Z.mod_add by lia. rewrite (Z.div_small (comp / 256 / 256)) by (rewrite !Z.div_div by lia; split; [apply Z.div_pos; lia|apply Z.div_lt_upper_bound; lia]). done.
Qed.

Section reader.
Context (compress : list Z → list Z) (decompress : Z → list Z → option (list Z)).
Context (Hdec : ∀ d cap, Z.of_nat (length d) ≤ cap → decompress cap (compress d) = Some d).
Context (pm : physical) (base : Z) (c : list Z) (io : nat) (bl : list (Z * list Z)).
Context (Him : image compress c io bl) (Hpm : bytes_at pm base c) (Hbase : 0 < base ∧ base + Z.of_nat (length c) < 2 ^ 64) (Hsize : Z.of_nat (length c) < 2 ^ 32).
Context (Htypes : Forall (λ x, x.1 = type_dir ∨ x.1 = type_file) bl).

Definition inode_addr (k : nat) : Z := base + Z.of_nat io + 16 * Z.of_nat k.
Definition the_fs : romfs := Fs (Buffer base (Z.of_nat (length c))) (base + Z.of_nat io) (inode_addr (length bl - 1)).
Lemma fs_new_spec : fs_new pm (Buffer base (Z.of_nat (length c))) = Done the_fs.
Proof.
  destruct Him as [Hne [H1 H2] [H3 H4] H5 _]. unfold fs_new. cbn [b_pointer].
  pose proof (read_le_at _ _ _ _ (data_at_bytes _ _ _ 8 _ Hpm H1) ltac:(lia)) as E1. change (Z.of_nat 8) with 8 in E1. rewrite E1. cbn [mbind outcome_bind].
  assert (Hlb : (0 < length bl)%nat) by (destruct bl; [done|cbn; lia]).
  pose proof (read_le_at _ _ _ _ (data_at_bytes _ _ _ 20 _ Hpm H3) ltac:(lia)) as E2. change (Z.of_nat 20) with 20 in E2. rewrite E2.
  cbn [mbind outcome_bind]. unfold the_fs, inode_addr. rewrite !(wrap_small 64) by (unfold is_word; lia). done.
Qed.
Lemma read_inode k t d : bl !! k = Some (t, d) →
  inode_size pm (inode_addr k) = Done (Z.of_nat (length d)) ∧ inode_type pm (inode_addr k) = Done t ∧
  ∀ dest, Z.of_nat (length d) ≤ dest → load_inode_data decompress pm the_fs (inode_addr k) dest = Done d.
Proof.
  intros Hk. destruct (im_inodes _ _ _ _ Him k _ Hk) as (x & [I1 I2 I3 I4 (o & I5 & I6 & I7 & I8)] & (R1 & R2 & R3) & Hx). cbn [fst snd] in *.
  assert (Ht : 0 ≤ t < 256) by (rewrite Forall_lookup in Htypes; destruct (Htypes _ _ Hk) as [E|E]; cbn in E; rewrite E; unfold type_dir, type_file; lia).
  apply (data_at_bytes pm base _ _ _ Hpm) in Hx. replace (base + Z.of_nat (io + 16 * k)) with (inode_addr k) in Hx by (unfold inode_addr; lia). set (a := inode_addr k) in *.
  unfold table_entry in Hx. rewrite le_bytes_fields in Hx by (rewrite ?I3, ?I1; lia). rewrite I1, I2, I3, I5 in *. rewrite !bytes_at_app, !length_app, !length_le_bytes in Hx. destruct Hx as (B1 & (B2 & B3) & B4).
  change (Z.of_nat 4) with 4 in *. replace (a + 4 + Z.of_nat 3) with (a + 7) in B3 by lia. replace (a + 4 + Z.of_nat (3 + 1)) with (a + 8) in B4 by lia.
  assert (Es : inode_size pm a = Done (Z.of_nat (length d))) by (by apply read_le_at). split; [done|]. split; [by apply read_le_at|]. intros dest Hdest.
  unfold load_inode_data. rewrite (read_le_at _ _ _ _ B4 R3). cbn [mbind outcome_bind]. rewrite Es. cbn [mbind outcome_bind]. unfold inode_compressed. rewrite (read_le_at _ _ _ _ B2) by lia. cbn [mbind outcome_bind].
  assert (Ea : advance (m_data the_fs) (Z.of_nat o) = Buffer (base + Z.of_nat o) (Z.of_nat (length c) - Z.of_nat o)).
  { unfold advance. cbn [m_data the_fs b_count b_pointer]. rewrite (wrap_small 32 (Z.of_nat o)) by (unfold is_word; lia). rewrite (proj2 (Z.ltb_ge _ _)) by lia.
    by rewrite !(wrap_small 64) by (unfold is_word; lia). }
  rewrite Ea. cbn [b_pointer b_count]. rewrite (proj2 (Z.leb_le _ _) Hdest), (proj2 (Z.leb_le _ _)) by lia. cbn [kassert mbind outcome_bind]. rewrite Nat2Z.id.
  rewrite (read_bytes_at _ _ _ (data_at_bytes _ _ _ _ _ Hpm I8)). cbn [mbind outcome_bind]. unfold stored. destruct (Z.leb_spec (Z.of_nat (length d)) (Z.of_nat (length (compress d)))).
  - by rewrite Z.eqb_refl.
  - rewrite (proj2 (Z.eqb_neq _ _)) by lia. by rewrite Hdec.
Qed.
Lemma inode_addr_word k : (k < length bl)%nat → u64 (m_inodes the_fs + 16 * Z.of_nat k) = inode_addr k.
Proof. intros Hk. unfold inode_addr. cbn [m_inodes the_fs]. apply wrap_small. pose proof (im_len _ _ _ _ Him). unfold is_word. lia. Qed.
(** The lookup of a name in a directory: the first entry with its hash. *)
Lemma lookup_in_dir k es n : bl !! k = Some (type_dir, dir_data es) → dirents_ok (dirent_size * Z.of_nat (length es)) es → es ≠ [] → Forall (λ e, ∃ j, e.1.2 = Z.of_nat j ∧ (j < length bl)%nat) es →
  lookup_inode_in_dir decompress pm the_fs (inode_addr k) n = Done (option_map (λ e, inode_addr (Z.to_nat e.1.2)) (find (λ e, hash64 e.2 =? hash64_string (Some n)) es)).
Proof.
  intros Hk Hok Hne Hj. destruct (read_inode _ _ _ Hk) as (E1 & _ & E2). unfold lookup_inode_in_dir. rewrite E1. cbn [mbind outcome_bind]. rewrite E2 by lia. cbn [mbind outcome_bind].
  assert (Hlen : (16 * length es <= length (dir_data es))%nat) by (unfold dir_data; rewrite length_app, length_dirents_of; lia).
  assert (Hmax : Z.of_nat (length es) ≤ Z.of_nat (length (dir_data es)) / 16) by (apply Z.div_le_lower_bound; lia).
  rewrite (find_dirent_spec es _ Hok Hne es [] _ _ eq_refl Hmax) by (done || lia). cbn [mbind outcome_bind]. f_equal.
  destruct (find _ es) as [e|] eqn:Ef; [|done]. cbn [option_map]. f_equal. apply find_some in Ef as [Hin _]. rewrite Forall_forall in Hj. apply list_elem_of_In in Hin.
  destruct (Hj e Hin) as (j & -> & Hjl). rewrite Nat2Z.id. by apply inode_addr_word.
Qed.
End reader.

(** ** The tree *)

Definition assoc {A} (n : name) (l : list (name * A)) : option A := option_map snd (find (λ x, bool_decide (x.1 = n)) l).
Fixpoint subtree (t : tree) (p : path) : option tree :=
  match p with [] => Some t | n :: p => match t with Dir ds _ => match assoc n ds with Some t => subtree t p | None => None end end end.
(** What a path leads to: a directory or the data of a file. *)
Fixpoint resolve (t : tree) (p : path) : option (tree + list Z) :=
  match p with
  | [] => Some (inl t)
  | n :: p =>
      match t with
      | Dir ds fs =>
          match assoc n ds with
          | Some t => resolve t p
          | None => match p with [] => option_map inr (assoc n fs) | _ => None end
          end
      end
  end.
(** The names of a directory differ, and none is a name that the script adds. *)
Definition good_visit (v : visit) : Prop := NoDup (dot :: dotdot :: v_dirs v ++ (v_files v).*1).
Definition good_tree (t : tree) : Prop := Forall good_visit (walk [] t).

Lemma tree_induction (P : tree → Prop) : (∀ ds fs, Forall (λ x, P x.2) ds → P (Dir ds fs)) → ∀ t, P t.
Proof.
  intros H. fix IH 1. intros [ds fs]. apply H. induction ds as [|[n t] ds IHds]; constructor; [apply IH|exact IHds].
Qed.
Lemma assoc_in {A} n (l : list (name * A)) x : assoc n l = Some x → (n, x) ∈ l.
Proof.
  unfold assoc. destruct (find _ l) as [[m y]|] eqn:E; [|done]. cbn. intros [= <-]. apply find_some in E as [Hin Hb]. apply bool_decide_eq_true in Hb. cbn in Hb. subst m.
  by apply list_elem_of_In.
Qed.
Lemma walk_subtree p : ∀ t q ds fs, subtree t p = Some (Dir ds fs) → Visit (q ++ p) ds.*1 fs ∈ walk q t.
Proof.
  induction p as [|n p IH]; intros [ds0 fs0] q ds fs; cbn [subtree walk].
  - intros [= -> ->]. rewrite app_nil_r. apply elem_of_app. right. by left.
  - destruct (assoc n ds0) as [t|] eqn:E; [|done]. intros H. apply (IH t (q ++ [n])) in H. rewrite <-(assoc_L (++)) in H. cbn [app] in H. apply elem_of_app. left.
    apply list_elem_of_In, in_concat. exists (walk (q ++ [n]) t). split; [|by apply list_elem_of_In]. apply in_map_iff. exists (n, t). split; [done|].
    by apply list_elem_of_In, assoc_in.
Qed.
Lemma subtree_app p q : ∀ t t', subtree t p = Some t' → subtree t (p ++ q) = subtree t' q.
Proof.
  induction p as [|n p IH]; intros [ds fs] t'; cbn [app subtree]; [by intros [= <-]|]. destruct (assoc n ds) as [t|]; [|done]. apply IH.
Qed.
Lemma walk_prefix t : ∀ q v, v ∈ walk q t → ∃ p, v_path v = q ++ p.
Proof.
  induction t as [ds fs IH] using tree_induction. intros q v. cbn [walk]. rewrite elem_of_app, list_elem_of_singleton. intros [H| ->]; [|exists []; cbn; by rewrite app_nil_r].
  apply list_elem_of_In, in_concat in H as (l & Hl & Hv). apply in_map_iff in Hl as ([n t] & <- & Hin). rewrite Forall_forall in IH. apply list_elem_of_In in Hin, Hv.
  destruct (IH _ Hin _ _ Hv) as [p Hp]. exists (n :: p). by rewrite Hp, <-(assoc_L (++)).
Qed.
(** No path is visited twice. *)
Lemma walk_nodup t : ∀ q, Forall good_visit (walk q t) → NoDup (v_path <$> walk q t).
Proof.
  induction t as [ds fs IH] using tree_induction. intros q. cbn [walk]. rewrite Forall_app, fmap_app. intros [Hg Hl]. apply Forall_cons in Hl as [Hn _]. unfold good_visit in Hn. cbn [v_dirs v_files] in Hn.
  apply NoDup_cons_1_2, NoDup_cons_1_2, NoDup_app in Hn as (Hn & _ & _). apply NoDup_app. split; [|split].
  - revert IH Hg Hn. induction ds as [|[n t] ds IHds]; intros IH Hg Hn; cbn [map concat] in *; [constructor|]. apply Forall_cons in IH as [IH1 IH2]. apply Forall_app in Hg as [Hg1 Hg2].
    cbn [fmap list_fmap] in Hn. apply NoDup_cons in Hn as [Hn1 Hn2]. rewrite fmap_app. apply NoDup_app. split; [by apply IH1|]. split; [|by apply IHds].
    intros x (v & -> & Hv)%list_elem_of_fmap (w & Hw & Hin)%list_elem_of_fmap. destruct (walk_prefix _ _ _ Hv) as [p Hp].
    apply list_elem_of_In, in_concat in Hin as (l & Hl & Hwl). apply in_map_iff in Hl as ([m t'] & <- & Hin). apply list_elem_of_In in Hwl. destruct (walk_prefix _ _ _ Hwl) as [p' Hp'].
    rewrite Hw, Hp', <-!(assoc_L (++)) in Hp. apply app_inv_head in Hp. injection Hp as -> _. apply Hn1. apply list_elem_of_fmap. exists (n, t'). split; [done|by apply list_elem_of_In].
  - intros x (v & -> & Hv)%list_elem_of_fmap Hx. apply list_elem_of_singleton in Hx. cbn [v_path] in Hx. apply list_elem_of_In, in_concat in Hv as (l & Hl & Hv).
    apply in_map_iff in Hl as ([n t] & <- & _). apply list_elem_of_In, walk_prefix in Hv as [p Hp]. rewrite Hp, <-(assoc_L (++)) in Hx. apply (f_equal length) in Hx. rewrite !length_app in Hx. cbn in Hx. lia.
  - apply NoDup_singleton.
Qed.
Lemma dir_index_lookup n dirs i d : NoDup (d_path <$> dirs) → dirs !! i = Some d → dir_index n dirs !! d_path d = Some (n + Z.of_nat i).
Proof.
  intros Hnd Hi. unfold dir_index. apply elem_of_list_to_map_1.
  - rewrite fmap_reverse, (reverse_Permutation _), fmap_imap. rewrite (imap_ext _ (λ _ d, d_path d)) by done. change (NoDup (imap (const d_path) dirs)). by rewrite imap_const.
  - apply elem_of_reverse, list_elem_of_lookup. exists i. rewrite list_lookup_imap, Hi. done.
Qed.

(** ** Names in the directories of an image *)

Lemma find_app {A} (q : A → bool) l l' : find q (l ++ l') = match find q l with Some x => Some x | None => find q l' end.
Proof. induction l as [|x l IH]; [done|]. cbn [app find]. by destruct (q x). Qed.
Lemma find_same {A} (q r : A → bool) l : (∀ x, x ∈ l → q x = r x) → find q l = find r l.
Proof.
  induction l as [|x l IH]; intros H; [done|]. cbn [find]. rewrite (H x) by left. rewrite IH; [done|]. intros y Hy. apply H. by right.
Qed.
Definition named (el : name) (e : Z * Z * name) : bool := bool_decide (e.2 = el).
Lemma find_dirs m p el ds es : Forall2 (dir_link m) ((λ n, (n, p ++ [n])) <$> ds.*1) es →
  match assoc (A := tree) el ds with Some _ => ∃ e, find (named el) es = Some e ∧ m !! (p ++ [el]) = Some e.1.2 | None => find (named el) es = None end.
Proof.
  revert es. induction ds as [|[n t] ds IH]; intros es H; cbn [fmap list_fmap fst] in H; [apply Forall2_nil_inv_l in H; by subst es|].
  apply Forall2_cons_inv_l in H as (e & es' & (H1 & H2 & H3) & H & ->). cbn [fst snd] in *. unfold assoc. cbn [find fst]. unfold named at 1 3. rewrite H3.
  destruct (decide (n = el)) as [->|Hne].
  - rewrite bool_decide_eq_true_2 by done. cbn. by exists e.
  - rewrite bool_decide_eq_false_2 by done. apply (IH _ H).
Qed.
Lemma find_files bl el fs l : links bl fs l →
  match assoc el fs with
  | Some d => ∃ e k, find (named el) ((λ x, (type_file, x.2, x.1)) <$> l) = Some e ∧ e.1.2 = Z.of_nat k ∧ bl !! k = Some (type_file, d)
  | None => find (named el) ((λ x, (type_file, x.2, x.1)) <$> l) = None
  end.
Proof.
  induction 1 as [|[n d] [n' i] fs l (H1 & k & H2 & H3) _ IH]; [done|]. cbn [fst snd] in *. subst n' i. unfold assoc. cbn [find fst fmap list_fmap]. unfold named at 1 3. cbn [snd].
  destruct (decide (n = el)) as [->|Hne].
  - rewrite bool_decide_eq_true_2 by done. cbn. eexists _, k. by split.
  - rewrite bool_decide_eq_false_2 by done. exact IH.
Qed.

Lemma dir_ok_paths bl vs dirs : Forall2 (dir_ok bl) vs dirs → v_path <$> vs = d_path <$> dirs.
Proof. induction 1 as [|v d vs dirs Hd _ IH]; [done|]. cbn [fmap list_fmap]. by rewrite IH, (do_path _ _ _ Hd). Qed.
Lemma dir_link_names m ds es : Forall2 (dir_link m) ds es → es.*2 = ds.*1.
Proof. induction 1 as [|x e ds es (_ & _ & H) _ IH]; [done|]. cbn [fmap list_fmap]. by rewrite IH, H. Qed.
Lemma links_names bl fs l : links bl fs l → l.*1 = fs.*1.
Proof. induction 1 as [|f x fs l [H _] _ IH]; [done|]. cbn [fmap list_fmap]. by rewrite IH, H. Qed.
(** The names of the entries of a directory. *)
Lemma entry_names bl m v d all : dir_ok bl v d → entries_of m d all → all.*2 = dot :: dotdot :: v_dirs v ++ (v_files v).*1.
Proof.
  intros [_ Hd Hf] [(es & Hes & ->) _]. rewrite fmap_app, (dir_link_names _ _ _ Hes), Hd, <-(links_names _ _ _ Hf). cbn [fmap list_fmap fst]. rewrite <-!list_fmap_compose.
  cbn [app]. do 3 f_equal. clear. induction (v_dirs v) as [|n l IH]; [done|]. cbn. by rewrite IH.
Qed.

Lemma walk_last p ds fs t : t = Dir ds fs → walk p t !! (length (walk p t) - 1)%nat = Some (Visit p ds.*1 fs).
Proof. intros ->. cbn [walk]. rewrite length_app. cbn [length]. rewrite lookup_app_r by lia. by replace (_ - _)%nat with O by lia. Qed.
(** The string of a path below the root, with a slash before each name. *)
Definition abs_path (ns : path) : list Z := concat ((λ n, 47 :: n) <$> ns).
Lemma abs_path_head ns : abs_path ns = [] ∨ head (abs_path ns) = Some 47.
Proof. destruct ns; [by left|by right]. Qed.
Lemma copy_chars_spec n : ∀ k rest, 47 ∉ n → (length n <= k)%nat → rest = [] ∨ head rest = Some 47 → copy_chars k (n ++ rest) = (n, rest).
Proof.
  induction n as [|x n IH]; intros k rest Hn Hl Hr; cbn [app length] in *.
  - destruct k as [|k]; [done|]. destruct rest as [|y rest]; [done|]. destruct Hr as [|[= ->]]; [done|]. done.
  - destruct k as [|k]; [lia|]. apply not_elem_of_cons in Hn as [Hx Hn]. cbn [copy_chars]. rewrite (proj2 (Z.eqb_neq x 47)) by congruence. rewrite IH by (done || lia). done.
Qed.
(** The first name of a path, which may start with a slash. *)
Lemma copy_path_element_spec (lead : bool) n ns : 47 ∉ n → n ≠ [] → (length n <= max_path)%nat →
  copy_path_element ((if lead then [47] else []) ++ n ++ abs_path ns) = (n, abs_path ns).
Proof.
  intros Hn Hne Hl. destruct lead; cbn [app copy_path_element].
  - cbn [Z.eqb Pos.eqb]. by apply copy_chars_spec; [..|apply abs_path_head].
  - destruct n as [|x n]; [done|]. cbn [app copy_path_element]. rewrite (proj2 (Z.eqb_neq x 47)) by (intros ->; apply Hn; left).
    apply (copy_chars_spec (x :: n)); [done|done|apply abs_path_head].
Qed.

Section lookup.
Context (root : tree) (Hgood : good_tree root).
Notation vs := (walk [] root).
Notation nf := (length (all_blobs vs)).
Context (dirs : list directory) (ess : list (list (Z * Z * name))).
Notation bl := (blobs_of vs ess).
Context (Hdirs : Forall2 (dir_ok (all_blobs vs)) vs dirs) (Hess : Forall2 (entries_of (dir_index (Z.of_nat nf) dirs)) dirs ess).
Lemma blob_types : Forall (λ x, x.1 = type_dir ∨ x.1 = type_file) bl.
Proof.
  apply Forall_app. split; apply Forall_forall; intros x Hx.
  - right. unfold all_blobs in Hx. apply list_elem_of_In, in_concat in Hx as (l & Hl & Hx). apply list_elem_of_In, list_elem_of_fmap in Hl as (v & -> & _).
    apply list_elem_of_In, list_elem_of_fmap in Hx as (y & -> & _). done.
  - left. apply list_elem_of_fmap in Hx as (y & -> & _). done.
Qed.
Lemma paths_nodup : NoDup (d_path <$> dirs).
Proof. rewrite <-(dir_ok_paths _ _ _ Hdirs). by apply walk_nodup. Qed.
Lemma dir_blob i v : vs !! i = Some v → ∃ d all, dirs !! i = Some d ∧ dir_ok (all_blobs vs) v d ∧ entries_of (dir_index (Z.of_nat nf) dirs) d all ∧
  bl !! (nf + i)%nat = Some (type_dir, dir_data all).
Proof.
  intros Hi. destruct (Forall2_lookup_l _ _ _ _ _ Hdirs Hi) as (d & Hd & Hok). destruct (Forall2_lookup_l _ _ _ _ _ Hess Hd) as (all & Ha & He). exists d, all.
  split; [done|]. split; [done|]. split; [done|]. unfold blobs_of. rewrite lookup_app_r by lia. replace (nf + i - nf)%nat with i by lia. by rewrite list_lookup_fmap, Ha.
Qed.
(** The inode of a directory by its path. *)
Lemma index_of_path i v : vs !! i = Some v → dir_index (Z.of_nat nf) dirs !! v_path v = Some (Z.of_nat (nf + i)).
Proof.
  intros Hi. destruct (dir_blob _ _ Hi) as (d & _ & Hd & Hok & _). rewrite <-(do_path _ _ _ Hok), (dir_index_lookup _ _ _ _ paths_nodup Hd). f_equal. lia.
Qed.
Lemma index_bound p z : dir_index (Z.of_nat nf) dirs !! p = Some z → ∃ j d, z = Z.of_nat j ∧ bl !! j = Some (type_dir, d).
Proof.
  intros H. unfold dir_index in H. apply elem_of_list_to_map_2 in H. rewrite elem_of_reverse in H. apply list_elem_of_lookup in H as (j & Hj). rewrite list_lookup_imap in Hj.
  destruct (dirs !! j) as [d|] eqn:E; [|done]. injection Hj as _ <-. destruct (Forall2_lookup_r _ _ _ _ _ Hdirs E) as (v & Hv & _).
  destruct (dir_blob _ _ Hv) as (_ & all & _ & _ & _ & Hb). exists (nf + j)%nat, (dir_data all). split; [lia|done].
Qed.
Context (compress : list Z → list Z) (decompress : Z → list Z → option (list Z)).
Context (Hdec : ∀ d cap, Z.of_nat (length d) ≤ cap → decompress cap (compress d) = Some d).
Context (pm : physical) (base : Z) (c : list Z) (io : nat).
Context (Him : image compress c io bl) (Hpm : bytes_at pm base c) (Hbase : 0 < base ∧ base + Z.of_nat (length c) < 2 ^ 64) (Hsize : Z.of_nat (length c) < 2 ^ 32).
Notation addr := (inode_addr base io).
Notation fs' := (the_fs base c io bl).

(** An element of a path: a name in ASCII, whose hash no other name of the tree has. *)
Record element (el : name) : Prop := {
  el_ascii : Forall (λ b, 0 ≤ b < 128) el;
  el_chars : 47 ∉ el ∧ el ≠ [];
  el_len : (length el <= max_path)%nat;
  el_dots : el ≠ dot ∧ el ≠ dotdot;
  el_hash : ∀ v n, v ∈ vs → n ∈ dot :: dotdot :: v_dirs v ++ (v_files v).*1 → hash64 n = hash64 el → n = el;
}.
Lemma dir_step i p ds fs el : vs !! i = Some (Visit p ds.*1 fs) → subtree root p = Some (Dir ds fs) → element el → ∃ r,
  lookup_inode_in_dir decompress pm fs' (addr (nf + i)) el = Done r ∧
  match assoc el ds with
  | Some (Dir ds' fs0) => ∃ i', vs !! i' = Some (Visit (p ++ [el]) ds'.*1 fs0) ∧ r = Some (addr (nf + i')) ∧ subtree root (p ++ [el]) = Some (Dir ds' fs0)
  | None => match assoc el fs with Some d => ∃ k, bl !! k = Some (type_file, d) ∧ r = Some (addr k) | None => r = None end
  end.
Proof.
  intros Hi Hs [Ha _ _ [Hd1 Hd2] Hh]. destruct (dir_blob _ _ Hi) as (d & all & Hd & Hdok & Hent & Hbl). pose proof (entry_names _ _ _ _ _ Hdok Hent) as Hnames.
  destruct Hdok as [Hp Hdd Hfl], Hent as [(es & Hes & Hall) Hok]. cbn [v_path v_dirs v_files] in *.
  rewrite (lookup_in_dir compress decompress Hdec pm base c io bl Him Hpm Hbase Hsize blob_types _ all el Hbl Hok); [|destruct all; [|done]; discriminate Hnames|].
  2: { rewrite Hall. apply Forall_app. split.
    - clear -Hes Hess Hdirs. induction Hes as [|x e ds' es' (_ & H & _) _ IH]; [constructor|]. constructor; [|exact IH]. destruct (index_bound x.2 _ H) as (j & dd & Hj & Hb). exists j. split; [done|by apply lookup_lt_Some in Hb].
    - apply Forall_fmap, (Forall2_Forall_r _ _ _ _ Hfl), Forall_true. intros f x (_ & k & Hk & Hb). exists k. cbn. split; [done|].
      apply lookup_lt_Some in Hb. unfold blobs_of. rewrite length_app. lia. }
  eexists. split; [reflexivity|].
  rewrite (find_same _ (named el)).
  2: { intros e He. unfold named. rewrite hash64_ascii by done. apply (list_elem_of_fmap_2 snd) in He. rewrite Hnames in He. specialize (Hh _ _ (list_elem_of_lookup_2 _ _ _ Hi) He).
    destruct (Z.eqb_spec (hash64 e.2) (hash64 el)) as [E|E]; [by rewrite bool_decide_eq_true_2 by auto|]. rewrite bool_decide_eq_false_2; [done|]. intros E'. apply E. by rewrite E'. }
  rewrite Hdd in Hes. apply Forall2_cons_inv_l in Hes as (e1 & es1 & (_ & _ & N1) & Hes & ->). apply Forall2_cons_inv_l in Hes as (e2 & es2 & (_ & _ & N2) & Hes & ->). cbn [fst snd] in *.
  assert (Hn1 : named el e1 = false) by (apply bool_decide_eq_false_2; congruence). assert (Hn2 : named el e2 = false) by (apply bool_decide_eq_false_2; congruence).
  rewrite Hall. cbn [app find]. rewrite Hn1, Hn2, find_app.
  pose proof (find_dirs _ _ el _ _ Hes) as H1. pose proof (find_files _ el _ _ Hfl) as H2.
  destruct (assoc el ds) as [[ds' fs0]|] eqn:E.
  - destruct H1 as (e & -> & He). cbn [option_map]. assert (Hs' : subtree root (p ++ [el]) = Some (Dir ds' fs0)) by (rewrite (subtree_app _ _ _ _ Hs); cbn [subtree]; by rewrite E).
    pose proof (walk_subtree _ _ [] _ _ Hs') as Hin. cbn [app] in Hin. apply list_elem_of_lookup in Hin as (i' & Hi'). exists i'. split; [done|]. split; [|done].
    pose proof (index_of_path _ _ Hi') as Hx. cbn [v_path] in Hx. rewrite Hx in He. injection He as He. by rewrite <-He, Nat2Z.id.
  - rewrite H1. destruct (assoc el fs) as [data|]; [|by rewrite H2]. destruct H2 as (e & k & -> & He & Hk). exists k. cbn [option_map]. rewrite He, Nat2Z.id. split; [|done].
    unfold blobs_of. by apply lookup_app_l_Some.
Qed.
(** A result of a lookup that is what a path leads to. *)
Definition is_result (x : option (tree + list Z)) (r : option Z) : Prop :=
  match x with
  | Some (inl (Dir ds fs)) => ∃ i p, r = Some (addr (nf + i)) ∧ vs !! i = Some (Visit p ds.*1 fs)
  | Some (inr d) => ∃ k, r = Some (addr k) ∧ bl !! k = Some (type_file, d)
  | None => r = None
  end.
Lemma type_of_blob k t d : bl !! k = Some (t, d) → inode_type pm (addr k) = Done t.
Proof. intros H. by apply (read_inode compress decompress Hdec pm base c io bl Him Hpm Hbase Hsize blob_types) in H as (_ & ? & _). Qed.
Lemma lookup_path ns : ∀ n p ds fs i fuel s, vs !! i = Some (Visit p ds.*1 fs) → subtree root p = Some (Dir ds fs) → Forall element (n :: ns) →
  s ≠ [] → copy_path_element s = (n, abs_path ns) → (length (abs_path ns) < length s)%nat → (length s < fuel)%nat →
  ∃ r, lookup_loop decompress fuel pm fs' (addr (nf + i)) s = Done r ∧ is_result (resolve (Dir ds fs) (n :: ns)) r.
Proof.
  induction ns as [|n' ns IH]; intros n p ds fs i fuel s Hi Hs Hel Hne Hc Hlen Hf; (destruct fuel as [|fuel]; [lia|]); apply Forall_cons in Hel as [Hn Hel];
    destruct (dir_step i p ds fs n Hi Hs Hn) as (r & Er & Hr); cbn [lookup_loop]; (destruct s as [|x s]; [done|]); rewrite Hc, Er; cbn [mbind outcome_bind resolve].
  - destruct (assoc n ds) as [[ds' fs0]|].
    + destruct Hr as (i' & Hi' & -> & _). exists (Some (addr (nf + i'))). split; [done|]. cbn [resolve is_result]. by exists i', (p ++ [n]).
    + destruct (assoc n fs) as [d|]; [|exists None; by rewrite Hr]. destruct Hr as (k & Hk & ->). exists (Some (addr k)). split; [done|]. by exists k.
  - change (abs_path (n' :: ns)) with (47 :: n' ++ abs_path ns). destruct (assoc n ds) as [[ds' fs0]|].
    + destruct Hr as (i' & Hi' & -> & Hs'). destruct (dir_blob _ _ Hi') as (_ & all & _ & _ & _ & Hb). rewrite (type_of_blob _ _ _ Hb). cbn [mbind outcome_bind].
      change (type_dir =? type_file) with false. cbn [negb]. destruct (Forall_inv Hel) as [_ [Hn1 Hn2] Hn3 _ _].
      apply (IH n' (p ++ [n])); try done; [exact (copy_path_element_spec true n' ns Hn1 Hn2 Hn3)|cbn [length]; rewrite length_app; lia|].
      change (abs_path (n' :: ns)) with (47 :: n' ++ abs_path ns) in Hlen. cbn [length] in Hlen, Hf |- *. lia.
    + destruct (assoc n fs) as [d|]; [|exists None; by rewrite Hr]. destruct Hr as (k & Hk & ->). exists None. rewrite (type_of_blob _ _ _ Hk). done.
Qed.
(** The path from the root. *)
Lemma lookup_root (lead : bool) n ns : Forall element (n :: ns) →
  ∃ r, lookup_inode decompress pm fs' ((if lead then [47] else []) ++ n ++ abs_path ns) = Done r ∧ is_result (resolve root (n :: ns)) r.
Proof.
  intros Hel. destruct (Forall_inv Hel) as [_ [Hn1 Hn2] Hn3 _ _]. unfold lookup_inode. cbn [m_root the_fs].
  assert (Hl : vs ≠ []) by apply walk_nonempty.
  assert (Hb : (length bl - 1 = nf + (length vs - 1))%nat).
  { unfold blobs_of. rewrite length_app, length_fmap. apply Forall2_length in Hdirs, Hess. destruct vs as [|v l]; [done|]. cbn [length] in *. lia. }
  assert (Hroot : ∃ ds fs, root = Dir ds fs) by (destruct root as [ds fs]; by exists ds, fs). destruct Hroot as (ds & fs & Hroot).
  rewrite Hb. replace (resolve root (n :: ns)) with (resolve (Dir ds fs) (n :: ns)) by (by rewrite Hroot). eapply (lookup_path ns n [] ds fs).
  - by apply walk_last.
  - cbn. by rewrite Hroot.
  - done.
  - destruct lead; [done|]. destruct n; done.
  - by apply copy_path_element_spec.
  - rewrite !length_app. destruct n; [done|]. cbn [length]. lia.
  - lia.
Qed.

(** The entries of a directory as the reader gets them. *)
Lemma entries_listed i p (ds : list (name * tree)) (fs : list (name * list Z)) : vs !! i = Some (Visit p ds.*1 fs) → Forall (λ n, 0 ∉ n) (ds.*1 ++ fs.*1) → ∃ l d,
  load_inode_data decompress pm fs' (addr (nf + i)) (Z.of_nat (length d)) = Done d ∧ inode_size pm (addr (nf + i)) = Done (Z.of_nat (length d)) ∧
  inode_type pm (addr (nf + i)) = Done type_dir ∧ for_each_loop (S (Z.to_nat (Z.of_nat (length d) / 16))) fs' d 0 (Z.of_nat (length d) / 16) = Done l ∧
  l.*2 = dot :: dotdot :: ds.*1 ++ fs.*1 ∧ Forall (λ x, inode_type pm x.1 = Done type_dir) (take (2 + length ds) l) ∧
  Forall2 (λ x f, inode_type pm x.1 = Done type_file ∧ load_inode_data decompress pm fs' x.1 (Z.of_nat (length f.2)) = Done f.2) (drop (2 + length ds) l) fs.
Proof.
  intros Hi Hz. destruct (dir_blob _ _ Hi) as (d & all & Hd & Hdok & Hent & Hbl). pose proof (entry_names _ _ _ _ _ Hdok Hent) as Hnames.
  pose proof (read_inode compress decompress Hdec pm base c io bl Him Hpm Hbase Hsize blob_types) as Hri. destruct (Hri _ _ _ Hbl) as (E1 & E2 & E3).
  destruct Hdok as [Hp Hdd Hfl], Hent as [(es & Hes & Hall) Hok]. cbn [v_path v_dirs v_files] in *.
  assert (Hlen : (16 * length all <= length (dir_data all))%nat) by (unfold dir_data; rewrite length_app, length_dirents_of; lia).
  assert (Hmax : Z.of_nat (length all) ≤ Z.of_nat (length (dir_data all)) / 16) by (apply Z.div_le_lower_bound; lia).
  assert (Hz' : Forall (λ e, 0 ∉ e.2) all).
  { apply Forall_forall. intros e He. apply (list_elem_of_fmap_2 snd) in He. rewrite Hnames, !elem_of_cons in He. rewrite Forall_forall in Hz.
    destruct He as [->|[->|He]]; [by vm_compute; set_solver|by vm_compute; set_solver|by apply Hz]. }
  eexists _, (dir_data all). split; [by apply E3|]. split; [done|]. split; [done|].
  split; [apply (for_each_spec fs' all Hok ltac:(by destruct all) Hz' all [] _ _ eq_refl Hmax); [done|lia]|].
  assert (Hles : length es = (2 + length ds)%nat) by (apply Forall2_length in Hes; rewrite Hdd in Hes; cbn [length] in Hes; rewrite !length_fmap in Hes; lia).
  assert (Hw : ∀ k t x, bl !! k = Some (t, x) → u64 (m_inodes fs' + 16 * Z.of_nat k) = addr k)
    by (intros k t x Hk; apply lookup_lt_Some in Hk; by apply (inode_addr_word compress base c io bl Him Hbase)).
  rewrite <-Hles, Hall, fmap_app, take_app_length', drop_app_length' by (by rewrite length_fmap). split; [|split].
  - rewrite <-fmap_app, <-Hall, <-list_fmap_compose. exact Hnames.
  - apply Forall_fmap, Forall_forall. intros e He. apply list_elem_of_lookup in He as (j & Hj). destruct (Forall2_lookup_r _ _ _ _ _ Hes Hj) as (x & _ & (_ & Hx & _)).
    destruct (index_bound _ _ Hx) as (k & dd & Hk & Hb). cbn [compose fst]. rewrite Hk, (Hw _ _ _ Hb). by apply (Hri _ _ _ Hb).
  - clear -Hfl Hri Hw. rewrite <-list_fmap_compose. induction Hfl as [|f x fs l (_ & k & Hk & Hb) _ IH]; [constructor|]. constructor; [|exact IH]. cbn [compose fst snd].
    assert (Hb' : bl !! k = Some (type_file, f.2)) by (unfold blobs_of; by apply lookup_app_l_Some). rewrite Hk, (Hw _ _ _ Hb'). destruct (Hri _ _ _ Hb') as (_ & H1 & H2).
    split; [done|by apply H2].
Qed.
End lookup.


(** A file system image in memory: an image that the script wrote, smaller than 4 GiB. *)
Record image_in (compress : list Z → list Z) (root : tree) (pm : physical) (data : buffer) : Prop := {
  ii_image : ∃ id f, make_image compress id root = Done f ∧ holds_bytes pm data (content f) ∧ Z.of_nat (length (content f)) < 2 ^ 32;
  ii_good : good_tree root;
}.
(** What the code uses of the compressor: what is decompressed is what was compressed, and that is not empty. *)
Record compressor_ok (compress : list Z → list Z) (decompress : Z → list Z → option (list Z)) : Prop := {
  co_inverse : ∀ d cap, Z.of_nat (length d) ≤ cap → decompress cap (compress d) = Some d;
  co_nonempty : ∀ d, d ≠ [] → compress d ≠ [];
}.

(** Files survive their image: in an image that the script wrote, a path of the tree leads to the inode of its
    directory or file, a file that is loaded has the bytes it had when the image was made, compressed or not, and a path that
    is not in the tree leads to nothing.  The names of the path are ASCII, and no other name of the tree has their hash. *)
Theorem image_roundtrip compress decompress root pm data (lead : bool) n ns : compressor_ok compress decompress → image_in compress root pm data →
  Forall (element root) (n :: ns) → ∃ r, fs_new pm data = Done r ∧ let s := (if lead then [47] else []) ++ n ++ abs_path ns in
  match resolve root (n :: ns) with
  | Some (inl _) => ∃ i, lookup_inode decompress pm r s = Done (Some i) ∧ inode_type pm i = Done type_dir ∧ load_simple decompress pm r s = Done None
  | Some (inr d) => ∃ i, lookup_inode decompress pm r s = Done (Some i) ∧ inode_type pm i = Done type_file ∧ load_simple decompress pm r s = Done (Some d)
  | None => lookup_inode decompress pm r s = Done None ∧ load_simple decompress pm r s = Done None
  end.
Proof.
  intros [Hdec Hne] [(id & f & Hf & [Hb Hc Hr] & Hs) Hg] Hel. destruct data as [base count]. cbn [b_pointer b_count] in *. subst count.
  destruct (make_image_spec compress Hne id root f Hf) as (io & dirs & ess & Him & Hd & He). set (bl := blobs_of (walk [] root) ess) in *.
  pose proof (blob_types root ess) as Ht. exists (the_fs base (content f) io bl). split; [by apply (fs_new_spec compress)|]. cbn zeta.
  destruct (lookup_root root Hg dirs ess Hd He compress decompress Hdec pm base (content f) io Him Hb Hr Hs lead n ns Hel) as (r & Er & Hres).
  unfold load_simple. fold bl in Er, Hres. rewrite Er. cbn [mbind outcome_bind]. unfold is_result in Hres. fold bl in Hres.
  pose proof (read_inode compress decompress Hdec pm base (content f) io bl Him Hb Hr Hs Ht) as Hri.
  destruct (resolve root (n :: ns)) as [[t|d]|].
  - destruct t as [ds fs]. destruct Hres as (i & p & -> & Hi). destruct (dir_blob root dirs ess Hd He i _ Hi) as (_ & all & _ & _ & _ & Hk). destruct (Hri _ _ _ Hk) as (_ & E & _). eexists. split; [reflexivity|]. split; [exact E|]. by rewrite E.
  - destruct Hres as (k & -> & Hk). destruct (Hri k _ _ Hk) as (E1 & E & E2). eexists. split; [reflexivity|]. split; [exact E|]. rewrite E. cbn [mbind outcome_bind].
    change (type_file =? type_file) with true. cbn [negb]. rewrite E1. cbn [mbind outcome_bind]. by rewrite E2 by lia.
  - by rewrite Hres.
Qed.

(** A directory lists its entries: the callback of [for_each] on the path of a directory is called for the directory
    itself, its parent, its directories and its files, in this order and no more, with their names and inodes, and the inode of a
    file loads the bytes of the file. *)
Theorem for_each_lists compress decompress root pm data (lead : bool) n ns ds fs : compressor_ok compress decompress → image_in compress root pm data →
  Forall (element root) (n :: ns) → resolve root (n :: ns) = Some (inl (Dir ds fs)) → Forall (λ n, 0 ∉ n) (ds.*1 ++ fs.*1) →
  ∃ r l, fs_new pm data = Done r ∧ for_each decompress pm r ((if lead then [47] else []) ++ n ++ abs_path ns) = Done l ∧ l.*2 = dot :: dotdot :: ds.*1 ++ fs.*1 ∧
    Forall (λ x, inode_type pm x.1 = Done type_dir) (take (2 + length ds) l) ∧
    Forall2 (λ x f, inode_type pm x.1 = Done type_file ∧ load_inode_data decompress pm r x.1 (Z.of_nat (length f.2)) = Done f.2) (drop (2 + length ds) l) fs.
Proof.
  intros [Hdec Hne] [(id & f & Hf & [Hb Hc Hr] & Hs) Hg] Hel Hres Hz. destruct data as [base count]. cbn [b_pointer b_count] in *. subst count.
  destruct (make_image_spec compress Hne id root f Hf) as (io & dirs & ess & Him & Hd & He).
  destruct (lookup_root root Hg dirs ess Hd He compress decompress Hdec pm base (content f) io Him Hb Hr Hs lead n ns Hel) as (r & Er & Hi).
  rewrite Hres in Hi. cbn [is_result] in Hi. destruct Hi as (i & p & -> & Hi).
  destruct (entries_listed root Hg dirs ess Hd He compress decompress Hdec pm base (content f) io Him Hb Hr Hs i p ds fs Hi Hz) as (l & d & L1 & L2 & L3 & L4 & L5).
  pose proof (blob_types root ess) as Ht.
  exists (the_fs base (content f) io (blobs_of (walk [] root) ess)), l. split; [by apply (fs_new_spec compress)|]. split; [|exact L5]. unfold for_each. rewrite Er. cbn [mbind outcome_bind]. rewrite L3. cbn [mbind outcome_bind].
  change (type_dir =? type_dir) with true. cbn [negb]. rewrite L2. cbn [mbind outcome_bind]. rewrite L1. exact L4.
Qed.

(** ** Names that are not ASCII *)

(** The name of one letter, an e with an acute accent, in UTF-8. *)
Definition accented : name := [0xc3; 0xa9].
Definition accented_tree : tree := Dir [] [(accented, [1])].
Definition no_compressor (d : list Z) : list Z := d.
Definition no_decompressor (cap : Z) (d : list Z) : option (list Z) := Some d.

(** A file whose name is not ASCII is lost: the script writes an image of a directory with a file of such a name, and the
    reader finds nothing under that name, since its hash widens the signed characters of the name. *)
Theorem non_ascii_lost : ∃ f r, make_image no_compressor 0 accented_tree = Done f ∧
  fs_new (put_bytes ∅ 0x10000 (content f)) (Buffer 0x10000 (Z.of_nat (length (content f)))) = Done r ∧
  resolve accented_tree [accented] = Some (inr [1]) ∧ lookup_inode no_decompressor (put_bytes ∅ 0x10000 (content f)) r (47 :: accented) = Done None.
Proof. eexists _, _. split; [vm_compute; reflexivity|]. split; [vm_compute; reflexivity|]. split; vm_compute; reflexivity. Qed.

(** ** Witnesses *)

(** A compressor that knows one file. *)
Definition seven : list Z := replicate 100 7.
Definition tiny_compress (d : list Z) : list Z := if decide (d = seven) then [1] else 2 :: d.
Definition tiny_decompress (cap : Z) (d : list Z) : option (list Z) := match d with [] => None | x :: d => if x =? 1 then Some seven else Some d end.
Lemma tiny_ok : compressor_ok tiny_compress tiny_decompress.
Proof. split; [|intros d _]; unfold tiny_compress; [intros d cap _|]; by case_decide; subst. Qed.
Definition sample_tree : tree := Dir [([97], Dir [] [([98], seven); ([100], [1; 2; 3])])] [([99], [5])].
Definition sample_image : outcome file := make_image tiny_compress 1 sample_tree.
Lemma sample_element el : el ∈ [[97]; [98]; [120]] → element sample_tree el.
Proof.
  intros H. split.
  - revert el H. apply Forall_forall. apply (bool_decide_eq_true_1 _). by vm_compute.
  - revert el H. apply Forall_forall. apply (bool_decide_eq_true_1 _). by vm_compute.
  - revert el H. apply Forall_forall. apply (bool_decide_eq_true_1 _). by vm_compute.
  - revert el H. apply Forall_forall. apply (bool_decide_eq_true_1 _). by vm_compute.
  - assert (Hall : Forall (λ el, Forall (λ v, Forall (λ n, hash64 n = hash64 el → n = el) (dot :: dotdot :: v_dirs v ++ (v_files v).*1)) (walk [] sample_tree)) [[97]; [98]; [120]])
      by (apply (bool_decide_eq_true_1 _); by vm_compute).
    intros v n Hv Hn. rewrite Forall_forall in Hall. specialize (Hall el H). cbn beta in Hall. rewrite Forall_forall in Hall. specialize (Hall v Hv). cbn beta in Hall.
    rewrite Forall_forall in Hall. exact (Hall n Hn).
Qed.
Lemma sample_image_in f : sample_image = Done f → image_in tiny_compress sample_tree (put_bytes ∅ 0x10000 (content f)) (Buffer 0x10000 (Z.of_nat (length (content f)))).
Proof.
  intros E. assert (Hl : (length (content f) < 1000)%nat) by (vm_compute in E; injection E as <-; vm_compute; lia). split.
  - exists 1, f. split; [exact E|]. split; [|lia]. split; cbn [b_pointer b_count]; [apply put_bytes_in|done|lia].
  - apply (bool_decide_eq_true_1 _). by vm_compute.
Qed.

Lemma image_roundtrip_witness : ∃ f r, sample_image = Done f ∧ fs_new (put_bytes ∅ 0x10000 (content f)) (Buffer 0x10000 (Z.of_nat (length (content f)))) = Done r ∧
  load_simple tiny_decompress (put_bytes ∅ 0x10000 (content f)) r [47; 97; 47; 98] = Done (Some seven).
Proof.
  destruct sample_image as [f| | |] eqn:E; try (vm_compute in E; discriminate E).
  destruct (image_roundtrip tiny_compress tiny_decompress sample_tree _ _ true [97] [[98]] tiny_ok (sample_image_in f E)) as (r & Hr & i & _ & _ & H).
  - apply Forall_cons_2; [apply sample_element; left|apply Forall_cons_2; [apply sample_element; right; left|apply Forall_nil_2]].
  - exists f, r. split; [reflexivity|]. split; [exact Hr|exact H].
Defined.
Lemma for_each_lists_witness : ∃ f r l, sample_image = Done f ∧ fs_new (put_bytes ∅ 0x10000 (content f)) (Buffer 0x10000 (Z.of_nat (length (content f)))) = Done r ∧
  for_each tiny_decompress (put_bytes ∅ 0x10000 (content f)) r [47; 97] = Done l ∧ l.*2 = [dot; dotdot; [98]; [100]].
Proof.
  destruct sample_image as [f| | |] eqn:E; try (vm_compute in E; discriminate E).
  destruct (for_each_lists tiny_compress tiny_decompress sample_tree _ _ true [97] [] [] [([98], seven); ([100], [1; 2; 3])] tiny_ok (sample_image_in f E)) as (r & l & Hr & Hl & Hn & _).
  - apply Forall_cons_2; [apply sample_element; left|apply Forall_nil_2].
  - reflexivity.
  - apply (bool_decide_eq_true_1 _). by vm_compute.
  - exists f, r, l. split; [reflexivity|]. split; [exact Hr|]. split; [exact Hl|exact Hn].
Defined.
