(* ===== verification/Format.v ===== *)
(** * Formatted output

    Models src/libraries/util/format.cpp: [vformat] writes a format string, with its conversions of
    integers and strings, to a buffer, cut to what the buffer holds.  Characters are their codes; a
    format is the list of its characters with the terminating 0, and reading past it is [Undef], as is
    writing past the end of the output or of the buffer for digits.  The variable arguments are a list
    of values with their types.

    The theorem [vformat_correct] is that the output is that of a reference: the format is parsed into
    literal characters and conversions, each conversion is rendered, and the result is cut.  Printed
    numbers are read back as themselves. *)
From S2P Require Import Prelude.

(** ** Characters *)

Definition ch_0 : Z := 48.
Definition ch_9 : Z := 57.
Definition ch_per : Z := 37.
Definition ch_space : Z := 32.
Definition ch_d : Z := 100.
Definition ch_l : Z := 108.
Definition ch_s : Z := 115.
Definition ch_u : Z := 117.
Definition ch_x : Z := 120.
(** [chars::digits[d]] *)
Definition digit (d : Z) : Z := if d <? 10 then 48 + d else 87 + d.

(** A string argument is its characters before the final 0, or the null pointer. *)
Inductive arg :=
  | A_int (v : Z)
  | A_long (v : Z)
  | A_str (s : option (list Z)).

(** ** The code *)

(** [*out++ = c], with [w] written so far and room for [cap] characters. *)
Definition put (cap : Z) (w : list Z) (c : Z) : outcome (list Z) :=
  if Z.of_nat (length w) <? cap then Done (w ++ [c]) else Undef.

(** The loop that fills the buffer for digits from its end; [ds] are the characters from [p + 1] on. *)
Fixpoint digits_loop (fuel : nat) (bufsize N value num_digits min_width pad : Z) (ds : list Z)
    : outcome (list Z) :=
  match fuel with
  | O => Diverge
  | S fuel =>
      if bufsize <=? num_digits then Undef
      else
        let c := if negb (value =? 0) then digit (value mod N) else if negb (num_digits =? 0) then pad else ch_0 in
        let value := if negb (value =? 0) then value / N else value in
        let num_digits := num_digits + 1 in
        if negb (value =? 0) || (num_digits <? min_width)
        then digits_loop fuel bufsize N value num_digits min_width pad (c :: ds)
        else Done (c :: ds)
  end.
(** The copy to the output, up to [max]. *)
Fixpoint copy_digits (cap max : Z) (w ds : list Z) : outcome (list Z) :=
  match ds with
  | [] => Done w
  | c :: ds =>
      let* w := put cap w c in
      if Z.of_nat (length w) =? max then Done w else copy_digits cap max w ds
  end.
Definition append_int (cap max : Z) (w : list Z) (bytes N value min_width pad : Z) : outcome (list Z) :=
  let bufsize := bytes * 4 in
  let* ds := digits_loop (S (Z.to_nat bufsize)) bufsize N value 0 min_width pad [] in
  copy_digits cap max w ds.

Fixpoint copy_string (cap max : Z) (w : list Z) (width : Z) (s : list Z) : outcome (list Z * Z) :=
  match s with
  | [] => Done (w, width)
  | c :: s =>
      if Z.of_nat (length w) <? max then
        let* w := put cap w c in
        copy_string cap max w (if negb (width =? 0) then width - 1 else width) s
      else Done (w, width)
  end.
Fixpoint pad_string (n : nat) (cap max : Z) (w : list Z) : outcome (list Z) :=
  match n with
  | O => Done w
  | S n => if Z.of_nat (length w) <? max then let* w := put cap w ch_space in pad_string n cap max w else Done w
  end.
Definition append_string (cap max : Z) (w : list Z) (width : Z) (s : option (list Z)) : outcome (list Z) :=
  let* (w, width) := copy_string cap max w width (default [] s) in
  pad_string (Z.to_nat width) cap max w.

(** The inner loop, at the character [spec]. *)
Fixpoint spec_loop (cap max : Z) (fmt : list Z) (spec : Z) (long_type : bool) (width pad : Z) (args : list arg)
    (w : list Z) : outcome (list Z * list arg * list Z) :=
  if spec =? 0 then Done (fmt, args, w)
  else if (ch_0 <=? spec) && (spec <=? ch_9) then
    match fmt with
    | [] => Undef
    | c :: fmt =>
        if (spec =? ch_0) && (width =? 0) then spec_loop cap max fmt c long_type width ch_0 args w
        else spec_loop cap max fmt c long_type (u32 (width * 10 + (spec - ch_0))) pad args w
    end
  else if (spec =? ch_x) || (spec =? ch_d) || (spec =? ch_u) then
    let N := if spec =? ch_x then 16 else 10 in
    match long_type, args with
    | true, A_long v :: args => let* w := append_int cap max w 8 N v width pad in Done (fmt, args, w)
    | false, A_int v :: args => let* w := append_int cap max w 4 N v width pad in Done (fmt, args, w)
    | _, _ => Undef
    end
  else if spec =? ch_s then
    match args with
    | A_str s :: args => let* w := append_string cap max w width s in Done (fmt, args, w)
    | _ => Undef
    end
  else
    match fmt with
    | [] => Undef
    | c :: fmt => spec_loop cap max fmt c (if spec =? ch_l then true else long_type) width pad args w
    end.

Fixpoint vformat_loop (fuel : nat) (cap max : Z) (fmt : list Z) (args : list arg) (w : list Z)
    : outcome (list Z) :=
  match fuel with
  | O => Diverge
  | S fuel =>
      match fmt with
      | [] => Undef
      | c :: fmt =>
          if (c =? 0) || negb (Z.of_nat (length w) <? max) then Done w
          else if negb (c =? ch_per) then
            let* w := put cap w c in vformat_loop fuel cap max fmt args w
          else
            match fmt with
            | [] => Undef
            | spec :: fmt =>
                if spec =? ch_per then
                  let* w := put cap w ch_per in vformat_loop fuel cap max fmt args w
                else
                  let* (fmt, args, w) := spec_loop cap max fmt spec false 0 ch_space args w in
                  vformat_loop fuel cap max fmt args w
            end
      end
  end.

(** [vformat] to a buffer of [cap] characters: what precedes the final 0, whose length is returned. *)
Definition vformat (cap : Z) (fmt : list Z) (args : list arg) : outcome (list Z) :=
  let* w := vformat_loop (S (length fmt)) cap (u64 (cap - 1)) fmt args [] in
  if Z.of_nat (length w) <? cap then Done w else Undef.

(** ** The reference *)

Inductive conversion := Hex | Dec | Str.
Inductive item :=
  | Lit (c : Z)
  | Conv (long_type : bool) (width pad : Z) (k : conversion).

Fixpoint parse_spec (fmt : list Z) (long_type : bool) (width pad : Z) : option (item * list Z) :=
  match fmt with
  | [] => None
  | c :: fmt =>
      if c =? 0 then None
      else if (ch_0 <=? c) && (c <=? ch_9) then
        if (c =? ch_0) && (width =? 0) then parse_spec fmt long_type width ch_0
        else parse_spec fmt long_type (u32 (width * 10 + (c - ch_0))) pad
      else if c =? ch_x then Some (Conv long_type width pad Hex, fmt)
      else if (c =? ch_d) || (c =? ch_u) then Some (Conv long_type width pad Dec, fmt)
      else if c =? ch_s then Some (Conv long_type width pad Str, fmt)
      else parse_spec fmt (if c =? ch_l then true else long_type) width pad
  end.
(** The items of a format; [None] when it ends inside a conversion. *)
Fixpoint parse (fuel : nat) (fmt : list Z) : option (list item) :=
  match fuel, fmt with
  | O, _ | _, [] => None
  | S fuel, c :: fmt =>
      if c =? 0 then Some []
      else if negb (c =? ch_per) then cons (Lit c) <$> parse fuel fmt
      else
        match fmt with
        | [] => None
        | d :: r =>
            if d =? ch_per then cons (Lit ch_per) <$> parse fuel r
            else
              match parse_spec fmt false 0 ch_space with
              | Some (i, r) => cons i <$> parse fuel r
              | None => None
              end
        end
  end.

(** A number in base [N], without and with its padding. *)
Fixpoint number_digits (fuel : nat) (N v : Z) : list Z :=
  match fuel with
  | O => []
  | S fuel => if v =? 0 then [] else number_digits fuel N (v / N) ++ [digit (v mod N)]
  end.
Definition show (N v : Z) : list Z := if v =? 0 then [ch_0] else number_digits 64 N v.
Definition show_padded (N v width pad : Z) : list Z :=
  replicate (Z.to_nat width - length (show N v)) pad ++ show N v.
Definition show_string (s : option (list Z)) (width : Z) : list Z :=
  default [] s ++ replicate (Z.to_nat width - length (default [] s)) ch_space.

(** The text of a conversion; a padding wider than the buffer for digits is left out. *)
Definition convert (long_type : bool) (width pad : Z) (k : conversion) (a : arg) : option (list Z) :=
  match k, a, long_type with
  | Hex, A_long v, true => if width <=? 32 then Some (show_padded 16 v width pad) else None
  | Hex, A_int v, false => if width <=? 16 then Some (show_padded 16 v width pad) else None
  | Dec, A_long v, true => if width <=? 32 then Some (show_padded 10 v width pad) else None
  | Dec, A_int v, false => if width <=? 16 then Some (show_padded 10 v width pad) else None
  | Str, A_str s, _ => Some (show_string s width)
  | _, _, _ => None
  end.
Fixpoint render (is_ : list item) (args : list arg) : option (list Z) :=
  match is_, args with
  | [], _ => Some []
  | Lit c :: is_, _ => cons c <$> render is_ args
  | Conv long_type width pad k :: is_, a :: args =>
      match convert long_type width pad k a, render is_ args with
      | Some t, Some u => Some (t ++ u)
      | _, _ => None
      end
  | Conv _ _ _ _ :: _, [] => None
  end.
Definition arg_ok (a : arg) : Prop :=
  match a with A_int v => is_u32 v | A_long v => is_u64 v | A_str _ => True end.

(** ** Digits *)

Lemma number_digits_enough N fuel : ∀ v fuel',
  2 ≤ N → 0 ≤ v < N ^ Z.of_nat fuel → (fuel ≤ fuel')%nat → number_digits fuel' N v = number_digits fuel N v.
Proof.
  induction fuel as [|fuel IH]; intros v fuel' HN Hv Hf.
  - assert (v = 0) by (change (N ^ Z.of_nat 0) with 1 in Hv; lia). subst. by destruct fuel'.
  - destruct fuel' as [|fuel']; [lia|]. cbn [number_digits]. destruct (Z.eqb_spec v 0); [done|]. f_equal.
    apply IH; [done| |lia]. rewrite Nat2Z.inj_succ, Z.pow_succ_r in Hv by lia.
    split; [apply Z.div_pos; lia|apply Z.div_lt_upper_bound; lia].
Qed.

(** Filling the buffer from the end writes the number's digits, then the padding. *)
Lemma digits_loop_pad fuel bufsize N nd width pad : ∀ ds,
  0 < nd → nd < width → width ≤ bufsize → (Z.to_nat (width - nd) ≤ fuel)%nat →
  digits_loop fuel bufsize N 0 nd width pad ds = Done (replicate (Z.to_nat (width - nd)) pad ++ ds).
Proof.
  revert nd. induction fuel as [|fuel IH]; intros nd ds Hnd Hw Hb Hf; [lia|]. cbn [digits_loop].
  rewrite (proj2 (Z.leb_gt bufsize nd)) by lia. change (0 =? 0) with true. cbn [negb orb].
  rewrite (proj2 (Z.eqb_neq nd 0)) by lia. cbn [negb].
  destruct (Z.ltb_spec (nd + 1) width).
  - rewrite IH by lia. replace (Z.to_nat (width - nd)) with (S (Z.to_nat (width - (nd + 1)))) by lia.
    by rewrite replicate_S_end, <-app_assoc.
  - by replace (Z.to_nat (width - nd)) with 1%nat by lia.
Qed.

Lemma digits_loop_value fuel bufsize N width pad : ∀ n v nd ds,
  2 ≤ N → 0 < v < N ^ Z.of_nat n → 0 ≤ nd → nd + Z.of_nat n ≤ bufsize → width ≤ bufsize →
  (Z.to_nat (bufsize - nd) < fuel)%nat →
  digits_loop fuel bufsize N v nd width pad ds
    = Done (replicate (Z.to_nat (width - nd - Z.of_nat (length (number_digits n N v)))) pad ++ number_digits n N v ++ ds).
Proof.
  induction fuel as [|fuel IH]; intros n v nd ds HN Hv Hnd Hb Hw Hf; [lia|].
  destruct n as [|n]; [change (N ^ Z.of_nat 0) with 1 in Hv; lia|].
  rewrite Nat2Z.inj_succ, Z.pow_succ_r in Hv by lia. cbn [digits_loop number_digits].
  rewrite (proj2 (Z.leb_gt bufsize nd)) by lia. rewrite (proj2 (Z.eqb_neq v 0)) by lia. cbn [negb].
  assert (Hd : 0 ≤ v / N < N ^ Z.of_nat n) by (split; [apply Z.div_pos; lia|apply Z.div_lt_upper_bound; lia]).
  rewrite length_app. cbn [length]. destruct (Z.eqb_spec (v / N) 0) as [E|E]; cbn [negb orb].
  - rewrite E. assert (E0 : number_digits n N 0 = []) by (by destruct n). rewrite E0. cbn [app length].
    destruct (Z.ltb_spec (nd + 1) width).
    + rewrite digits_loop_pad by lia. do 3 f_equal. lia.
    + by replace (Z.to_nat (width - nd - Z.of_nat (0 + 1))) with 0%nat by lia.
  - rewrite (IH n) by lia. rewrite <-app_assoc. cbn [app]. do 3 f_equal. lia.
Qed.

Lemma number_digits_nonempty n N v : 0 < v → (0 < n)%nat → (0 < length (number_digits n N v))%nat.
Proof.
  intros Hv Hn. destruct n; [lia|]. cbn [number_digits]. rewrite (proj2 (Z.eqb_neq v 0)) by lia.
  rewrite length_app. cbn. lia.
Qed.

(** The digits of a word of [bytes] bytes in base 10 or 16. *)
Lemma digits_spec bytes N v width pad :
  bytes = 4 ∧ is_u32 v ∨ bytes = 8 ∧ is_u64 v → N = 10 ∨ N = 16 → 0 ≤ width ≤ bytes * 4 →
  digits_loop (S (Z.to_nat (bytes * 4))) (bytes * 4) N v 0 width pad [] = Done (show_padded N v width pad).
Proof.
  intros Hv HN Hw. assert (Hbound : 0 ≤ v < N ^ Z.of_nat (Z.to_nat (bytes * 4))).
  { unfold is_word in Hv. rewrite Z2Nat.id by lia.
    destruct Hv as [[-> Hv]|[-> Hv]], HN as [-> | ->]; (split; [lia|]); (eapply Z.lt_le_trans; [apply Hv|]); by vm_compute. }
  assert (0 < bytes ≤ 8) by lia. unfold show_padded, show. destruct (Z.eqb_spec v 0) as [->|Hv0].
  - cbn [digits_loop length]. rewrite (proj2 (Z.leb_gt (bytes * 4) 0)) by lia. change (0 =? 0) with true. cbn [negb orb].
    change (0 + 1) with 1. destruct (Z.ltb_spec 1 width).
    + rewrite digits_loop_pad by lia. do 3 f_equal. lia.
    + by replace (Z.to_nat width - 1)%nat with 0%nat by lia.
  - rewrite (digits_loop_value _ _ _ _ _ (Z.to_nat (bytes * 4))) by lia. rewrite app_nil_r.
    rewrite (number_digits_enough N (Z.to_nat (bytes * 4)) v 64) by lia. do 3 f_equal. lia.
Qed.

(** *** Reading numbers back *)

Definition digit_value (c : Z) : Z := if c <? 97 then c - 48 else c - 87.
Definition read_number (N : Z) (s : list Z) : Z := foldl (λ n c, N * n + digit_value c) 0 s.

Lemma digit_value_digit d : 0 ≤ d < 16 → digit_value (digit d) = d.
Proof. intros Hd. unfold digit_value, digit. zcases; lia. Qed.
Lemma read_number_digits N fuel : ∀ v, 2 ≤ N ≤ 16 → 0 ≤ v < N ^ Z.of_nat fuel → read_number N (number_digits fuel N v) = v.
Proof.
  unfold read_number. induction fuel as [|fuel IH]; intros v HN Hv; [change (N ^ Z.of_nat 0) with 1 in Hv; cbn; lia|].
  cbn [number_digits]. destruct (Z.eqb_spec v 0) as [->|]; [done|]. rewrite foldl_app. cbn [foldl].
  rewrite Nat2Z.inj_succ, Z.pow_succ_r in Hv by lia. pose proof (Z.mod_pos_bound v N).
  rewrite IH, digit_value_digit by first [lia|split; [apply Z.div_pos; lia|apply Z.div_lt_upper_bound; lia]].
  pose proof (Z.div_mod v N). lia.
Qed.

(** ** The output *)

Section output.
Context (cap max : Z) (Hcap : max < cap).
Notation full w := (Z.of_nat (length w) = max).

Lemma put_Done w c : Z.of_nat (length w) < cap → put cap w c = Done (w ++ [c]).
Proof. intros. unfold put. by rewrite (proj2 (Z.ltb_lt _ _)). Qed.
Lemma take_full (w t : list Z) : full w → take (Z.to_nat max) (w ++ t) = w.
Proof. intros. apply take_app_length'. lia. Qed.

Lemma copy_digits_spec ds : ∀ w, Z.of_nat (length w) < max → copy_digits cap max w ds = Done (take (Z.to_nat max) (w ++ ds)).
Proof.
  induction ds as [|c ds IH]; intros w Hw; cbn [copy_digits].
  - by rewrite app_nil_r, take_ge by lia.
  - rewrite put_Done by lia. cbn [mbind outcome_bind]. rewrite length_app. cbn [length].
    rewrite (cons_middle c w ds), app_assoc.
    destruct (Z.eqb_spec (Z.of_nat (length w + 1)) max).
    + by rewrite take_full by (rewrite length_app; cbn; lia).
    + by rewrite IH by (rewrite length_app; cbn; lia).
Qed.

Lemma copy_string_spec s : ∀ w width,
  0 ≤ width → Z.of_nat (length w) ≤ max →
  ∃ width', copy_string cap max w width s = Done (take (Z.to_nat max) (w ++ s), width') ∧
    (full (take (Z.to_nat max) (w ++ s)) ∨ Z.to_nat width' = (Z.to_nat width - length s)%nat).
Proof.
  induction s as [|c s IH]; intros w width Hwd Hw; cbn [copy_string].
  - exists width. rewrite app_nil_r, take_ge by lia. split; [done|]. right. cbn. lia.
  - destruct (Z.ltb_spec (Z.of_nat (length w)) max).
    + rewrite put_Done by lia. cbn [mbind outcome_bind]. rewrite (cons_middle c w s), app_assoc.
      destruct (IH (w ++ [c]) (if negb (width =? 0) then width - 1 else width)) as (width' & Hrun & Hor);
        [destruct (Z.eqb_spec width 0); cbn; lia|rewrite length_app; cbn; lia|].
      exists width'. split; [done|]. destruct Hor as [?|Hor]; [by left|right]. rewrite Hor. cbn [length].
      destruct (Z.eqb_spec width 0); cbn; lia.
    + exists width. rewrite take_full by lia. split; [done|]. left. lia.
Qed.
Lemma pad_string_spec n : ∀ w,
  Z.of_nat (length w) ≤ max → pad_string n cap max w = Done (take (Z.to_nat max) (w ++ replicate n ch_space)).
Proof.
  induction n as [|n IH]; intros w Hw; cbn [pad_string replicate]; [by rewrite app_nil_r, take_ge by lia|].
  destruct (Z.ltb_spec (Z.of_nat (length w)) max).
  - rewrite put_Done by lia. cbn [mbind outcome_bind]. rewrite IH by (rewrite length_app; cbn; lia).
    by rewrite <-app_assoc.
  - by rewrite take_full by lia.
Qed.
Lemma append_string_spec w width s :
  0 ≤ width → Z.of_nat (length w) ≤ max →
  append_string cap max w width s = Done (take (Z.to_nat max) (w ++ show_string s width)).
Proof.
  intros Hwd Hw. unfold append_string. destruct (copy_string_spec (default [] s) w width Hwd Hw) as (width' & -> & Hor).
  cbn [mbind outcome_bind]. rewrite pad_string_spec by (rewrite length_take; lia). f_equal. unfold show_string.
  rewrite app_assoc. set (u := w ++ default [] s) in *. destruct Hor as [Hfull|Hor].
  - rewrite take_full by done. rewrite length_take in Hfull. rewrite take_app_le by lia. done.
  - rewrite Hor. destruct (decide (Z.to_nat max ≤ length u)%nat).
    + rewrite take_app_le, take_take by (rewrite length_take; lia). rewrite take_app_le by lia. f_equal. lia.
    + by rewrite (take_ge u) by lia.
Qed.

Lemma append_int_spec bytes N v w width pad :
  bytes = 4 ∧ is_u32 v ∨ bytes = 8 ∧ is_u64 v → N = 10 ∨ N = 16 → 0 ≤ width ≤ bytes * 4 → Z.of_nat (length w) < max →
  append_int cap max w bytes N v width pad = Done (take (Z.to_nat max) (w ++ show_padded N v width pad)).
Proof.
  intros Hv HN Hwd Hw. unfold append_int. rewrite digits_spec by done. cbn [mbind outcome_bind]. by apply copy_digits_spec.
Qed.

(** A conversion character. *)
Lemma conversion_step w args a t fmt c long_type width pad k :
  Z.of_nat (length w) < max → 0 ≤ width → arg_ok a → convert long_type width pad k a = Some t →
  match k with Hex => c = ch_x | Dec => c = ch_d ∨ c = ch_u | Str => c = ch_s end →
  spec_loop cap max fmt c long_type width pad (a :: args) w = Done (fmt, args, take (Z.to_nat max) (w ++ t)).
Proof.
  intros Hw Hwd Ha Ht Hk. unfold convert in Ht. destruct k, a as [v|v|s], long_type; try discriminate.
  all: try (destruct (Z.leb_spec width 16) in Ht; [|discriminate]).
  all: try (destruct (Z.leb_spec width 32) in Ht; [|discriminate]).
  all: injection Ht as <-; destruct fmt as [|d fmt].
  all: (destruct Hk as [-> | ->] || subst c); cbn [spec_loop].
  all: cbv [ch_0 ch_9 ch_x ch_d ch_u ch_s Z.eqb Z.leb Z.compare Pos.compare Pos.compare_cont Pos.eqb andb orb].
  all: first [rewrite append_int_spec by (cbn in Ha; auto; lia)|rewrite append_string_spec by lia]; done.
Qed.

Lemma parse_spec_conv fmt : ∀ long_type width pad c r, parse_spec fmt long_type width pad ≠ Some (Lit c, r).
Proof.
  induction fmt as [|d fmt IH]; intros long_type width pad c r; cbn [parse_spec]; [done|].
  repeat case_match; try done; apply IH.
Qed.

Lemma spec_loop_spec w args a t l' wd p k r fmt : ∀ c long_type width pad,
  Z.of_nat (length w) < max → 0 ≤ width → arg_ok a →
  parse_spec (c :: fmt) long_type width pad = Some (Conv l' wd p k, r) → convert l' wd p k a = Some t →
  spec_loop cap max fmt c long_type width pad (a :: args) w = Done (r, args, take (Z.to_nat max) (w ++ t)).
Proof.
  induction fmt as [|d fmt IH]; intros c long_type width pad Hw Hwd Ha Hp Ht.
  1: cbn [parse_spec] in Hp. 2: remember (d :: fmt) as r' eqn:Er; cbn [parse_spec] in Hp; subst r'.
  all: destruct (c =? 0) eqn:E0; [discriminate|].
  all: destruct ((ch_0 <=? c) && (c <=? ch_9)) eqn:Ed.
  - by destruct ((c =? ch_0) && (width =? 0)).
  - destruct (Z.eqb_spec c ch_x); [simplify_eq; by eapply conversion_step|].
    destruct ((c =? ch_d) || (c =? ch_u)) eqn:Edu; [simplify_eq; eapply conversion_step; [done..|]; by rewrite orb_true_iff, !Z.eqb_eq in Edu|].
    destruct (Z.eqb_spec c ch_s); [simplify_eq; by eapply conversion_step|]. discriminate.
  - cbn [spec_loop]. rewrite E0, Ed. destruct ((c =? ch_0) && (width =? 0)); apply IH; try done.
    by apply wrap_range.
  - destruct (Z.eqb_spec c ch_x) as [|Ex]; [simplify_eq; by eapply conversion_step|].
    destruct ((c =? ch_d) || (c =? ch_u)) eqn:Edu; [simplify_eq; eapply conversion_step; [done..|]; by rewrite orb_true_iff, !Z.eqb_eq in Edu|].
    destruct (Z.eqb_spec c ch_s) as [|Es]; [simplify_eq; by eapply conversion_step|].
    apply orb_false_iff in Edu as [Ed1 Ed2]. cbn [spec_loop]. rewrite E0, Ed, Ed1, Ed2, (proj2 (Z.eqb_neq c ch_x)), (proj2 (Z.eqb_neq c ch_s)) by done.
    cbn [orb]. by apply IH.
Qed.

(** The whole format. *)
Lemma vformat_loop_spec fuel : ∀ fmt args w is_ t,
  Z.of_nat (length w) ≤ max → Forall arg_ok args →
  parse fuel fmt = Some is_ → render is_ args = Some t →
  vformat_loop fuel cap max fmt args w = Done (take (Z.to_nat max) (w ++ t)).
Proof.
  induction fuel as [|fuel IH]; intros fmt args w is_ t Hw Ha Hp Ht; [done|]. destruct fmt as [|c fmt]; [done|].
  cbn [parse vformat_loop] in *. destruct (c =? 0) eqn:E0.
  { injection Hp as <-. cbn in Ht. injection Ht as <-. cbn [orb]. by rewrite app_nil_r, take_ge by lia. }
  cbn [orb]. destruct (Z.ltb_spec (Z.of_nat (length w)) max) as [Hlt|Hge]; cbn [negb]; [|by rewrite take_full by lia].
  assert (Hlit : ∀ c' r is_', is_ = Lit c' :: is_' → parse fuel r = Some is_' →
    (let* w := put cap w c' in vformat_loop fuel cap max r args w) = Done (take (Z.to_nat max) (w ++ t))).
  { intros c' r is_' -> Hr. cbn in Ht. apply fmap_Some in Ht as (t' & Ht' & ->). rewrite put_Done by lia. cbn [mbind outcome_bind].
    rewrite (IH r args (w ++ [c']) is_' t') by (done || rewrite length_app; cbn; lia). by rewrite <-app_assoc. }
  destruct (c =? ch_per) eqn:Ep; cbn [negb] in *.
  - destruct fmt as [|d r]; [done|]. destruct (d =? ch_per) eqn:Edp.
    + apply fmap_Some in Hp as (is_' & Hr & ->). by eapply Hlit.
    + destruct (parse_spec (d :: r) false 0 ch_space) as [[i r']|] eqn:Hps; [|done].
      apply fmap_Some in Hp as (is_' & Hr & ->). destruct i as [c'|l' wd p k]; [by apply parse_spec_conv in Hps|].
      cbn [render] in Ht. destruct args as [|a args]; [done|]. apply Forall_cons in Ha as [Ha Has].
      destruct (convert l' wd p k a) as [t1|] eqn:Hc; [|done]. destruct (render is_' args) as [t2|] eqn:Ht2; [|done].
      injection Ht as <-. rewrite (spec_loop_spec w args a t1 l' wd p k r' r) by done. cbn [mbind outcome_bind].
      rewrite (IH r' args _ is_' t2) by (done || rewrite length_take; lia).
      f_equal. rewrite app_assoc. set (u := w ++ t1). destruct (decide (length u ≤ Z.to_nat max)%nat).
      * by rewrite (take_ge u) by done.
      * rewrite (take_full (take _ u)) by (rewrite length_take; lia). by rewrite take_app_le by lia.
  - apply fmap_Some in Hp as (is_' & Hr & ->). by eapply Hlit.
Qed.
End output.

Lemma vformat_spec (cap : Z) (fmt : list Z) (args : list arg) (is_ : list item) (t : list Z) :
  1 ≤ cap < 2 ^ 64 → Forall arg_ok args → parse (S (length fmt)) fmt = Some is_ → render is_ args = Some t →
  vformat cap fmt args = Done (take (Z.to_nat (cap - 1)) t).
Proof.
  intros Hcap Ha Hp Ht. unfold vformat. rewrite wrap_small by (unfold is_word; lia).
  rewrite (vformat_loop_spec cap (cap - 1) ltac:(lia) _ fmt args [] is_ t) by (done || cbn; lia). cbn [mbind outcome_bind app].
  by rewrite (proj2 (Z.ltb_lt _ _)) by (rewrite length_take; lia).
Qed.

(** ** Theorems *)

(** for every format whose conversions are complete, and arguments of their types, [vformat] reads
    nothing past the format, writes nothing past the buffer, and its output is the rendered format,
    cut to what the buffer holds beside the final 0. *)
Theorem vformat_correct (cap : Z) (fmt : list Z) (args : list arg) (is_ : list item) (t : list Z) :
  1 ≤ cap < 2 ^ 64 → Forall arg_ok args → parse (S (length fmt)) fmt = Some is_ → render is_ args = Some t →
  vformat cap fmt args = Done (take (Z.to_nat (cap - 1)) t).
Proof. apply vformat_spec. Qed.

(** a printed number is read back as itself: %d, %u and %x of any word, in a buffer with room for its
    digits, give a text that is the number in base 10 or 16. *)
Theorem format_number_roundtrip (cap c v : Z) :
  65 < cap < 2 ^ 64 → c = ch_d ∨ c = ch_u ∨ c = ch_x → is_u64 v →
  ∃ s, vformat cap [ch_per; ch_l; c; 0] [A_long v] = Done s ∧ read_number (if c =? ch_x then 16 else 10) s = v.
Proof.
  intros Hcap Hc Hv. set (N := if c =? ch_x then 16 else 10).
  assert (HN : 2 ≤ N ≤ 16 ∧ 0 ≤ v < N ^ Z.of_nat 64).
  { unfold is_word in Hv. unfold N. destruct (c =? ch_x); (split; [lia|]); (split; [lia|]);
      (eapply Z.lt_le_trans; [apply Hv|]); by vm_compute. }
  assert (Hlen : ∀ fuel x, (length (number_digits fuel N x) ≤ fuel)%nat).
  { induction fuel as [|fuel IH]; intros x; cbn [number_digits]; [done|]. case_match; [cbn; lia|].
    rewrite length_app. specialize (IH (x / N)). cbn [length]. lia. }
  exists (show N v). split.
  - rewrite (vformat_spec cap _ _ [Conv true 0 ch_space (if c =? ch_x then Hex else Dec)] (show N v)); [|lia| | |].
    + rewrite take_ge; [done|]. unfold show. case_match; [cbn; lia|]. specialize (Hlen 64%nat v). lia.
    + by constructor.
    + by destruct Hc as [->|[-> | ->]].
    + unfold N. by destruct Hc as [->|[-> | ->]]; cbn -[show]; rewrite app_nil_r.
  - unfold show. destruct (Z.eqb_spec v 0) as [->|]; [unfold N; by case_match|]. apply read_number_digits; lia.
Qed.

(** a format that ends in a percent sign is read past its end: the
    conversion takes the final 0 as its character and the loop goes on behind it. *)
Theorem trailing_percent_overruns (cap : Z) (s : list Z) (args : list arg) :
  Z.of_nat (length s) + 1 < cap < 2 ^ 64 → Forall (λ c, c ≠ 0 ∧ c ≠ ch_per) s →
  vformat cap (s ++ [ch_per; 0]) args = Undef.
Proof.
  intros Hcap Hs. unfold vformat. rewrite wrap_small by (unfold is_word; lia).
  assert (Hloop : ∀ w fuel, (length s + 1 < fuel)%nat → Z.of_nat (length w + length s) < cap - 1 →
    vformat_loop fuel cap (cap - 1) (s ++ [ch_per; 0]) args w = Undef).
  { clear Hcap. induction Hs as [|c s [Hc0 Hcp] _ IH]; intros w fuel Hf Hl; (destruct fuel as [|fuel]; [lia|]); cbn [app length] in *.
    - cbn [vformat_loop]. change (ch_per =? 0) with false. cbn [orb]. rewrite (proj2 (Z.ltb_lt _ _)) by lia. cbn [negb].
      change (ch_per =? ch_per) with true. cbn [negb]. change (0 =? ch_per) with false. cbn. by destruct fuel; [lia|].
    - cbn [vformat_loop]. rewrite (proj2 (Z.eqb_neq c 0)), (proj2 (Z.eqb_neq c ch_per)) by done. cbn [orb negb].
      rewrite (proj2 (Z.ltb_lt _ _)) by lia. cbn [negb]. rewrite put_Done by lia. cbn [mbind outcome_bind].
      apply IH; [lia|]. rewrite length_app. cbn. lia. }
  rewrite Hloop; [done|rewrite length_app; cbn; lia|cbn; lia].
Qed.

(** ** Witnesses *)

(** [format("a%04d %s", 42, "hi")] to eight characters *)
Definition demo_format : list Z := [97; ch_per; ch_0; 52; ch_d; ch_space; ch_per; ch_s; 0].
Lemma vformat_correct_witness :
  vformat 8 demo_format [A_int 42; A_str (Some [104; 105])] = Done [97; 48; 48; 52; 50; 32; 104].
Proof.
  apply (vformat_correct 8 demo_format [A_int 42; A_str (Some [104; 105])]
    [Lit 97; Conv false 4 ch_0 Dec; Lit ch_space; Conv false 0 ch_space Str] [97; 48; 48; 52; 50; 32; 104; 105]).
  - lia.
  - repeat (apply Forall_cons; split; [done|]). by apply Forall_nil.
  - reflexivity.
  - reflexivity.
Defined.
Lemma format_number_roundtrip_witness :
  ∃ s, vformat 100 [ch_per; ch_l; ch_x; 0] [A_long 0xdeadbeef] = Done s ∧ read_number 16 s = 0xdeadbeef.
Proof. apply (format_number_roundtrip 100 ch_x 0xdeadbeef); [lia|by right; right|by split; vm_compute]. Defined.
Lemma trailing_percent_overruns_witness : vformat 80 ([53; 48] ++ [ch_per; 0]) [] = Undef.
Proof. apply trailing_percent_overruns; [cbn; lia|by repeat constructor]. Defined.
