(* ===== verification/Xoroshiro.v ===== *)
(** * Random numbers

    Models src/libraries/util/xoroshiro.cpp, the generator xoshiro256++: a state of four words that
    [next] changes linearly over the field of two elements, and [jump] and [long_jump], which xor the
    states that the bits of a polynomial choose.

    The theorem [jump_equals_calls] is what xoroshiro.h documents: a jump is 2^128 calls of [next] and
    a long jump 2^192.  A linear step has a polynomial that annihilates it (here [annihilator], of
    degree 256, checked on the states with one bit in the last word, whose images span the rest); the
    step's power 2^k is then the power of [x] modulo that polynomial, which is computed by squaring.
    Bits of polynomials are lists, the lowest coefficient first. *)
From S2P Require Import Prelude Bits.

(** ** The code *)

Record xoroshiro256pp := Xo { m0 : Z; m1 : Z; m2 : Z; m3 : Z }.

Definition rotl (x k : Z) : Z := Z.lor (u64 (Z.shiftl x k)) (Z.shiftr x (64 - k)).

Definition from_seed (seed : Z) : xoroshiro256pp :=
  let s0 := seed in
  let s1 := splitmix64 s0 in
  let s2 := splitmix64 s1 in
  let s3 := splitmix64 s2 in
  Xo s0 s1 s2 s3.

Definition next (x : xoroshiro256pp) : Z * xoroshiro256pp :=
  let '(Xo s0 s1 s2 s3) := x in
  let result := u64 (rotl (u64 (s0 + s3)) 23 + s0) in
  let t := u64 (Z.shiftl s1 17) in
  let s2 := Z.lxor s2 s0 in
  let s3 := Z.lxor s3 s1 in
  let s1 := Z.lxor s1 s2 in
  let s0 := Z.lxor s0 s3 in
  let s2 := Z.lxor s2 t in
  let s3 := rotl s3 45 in
  (result, Xo s0 s1 s2 s3).

Definition xor_state (a b : xoroshiro256pp) : xoroshiro256pp :=
  Xo (Z.lxor (m0 a) (m0 b)) (Z.lxor (m1 a) (m1 b)) (Z.lxor (m2 a) (m2 b)) (Z.lxor (m3 a) (m3 b)).
Definition zero_state : xoroshiro256pp := Xo 0 0 0 0.

(** The loop over the bits [b], with [n] left; [s] is what was collected, [x] the generator. *)
Fixpoint jump_bits (n : nat) (word b : Z) (s x : xoroshiro256pp) : xoroshiro256pp * xoroshiro256pp :=
  match n with
  | O => (s, x)
  | S n =>
      let s := if negb (Z.land word (u64 (Z.shiftl 1 b)) =? 0) then xor_state s x else s in
      let x := (next x).2 in
      jump_bits n word (b + 1) s x
  end.
Fixpoint jump_words (poly : list Z) (s x : xoroshiro256pp) : xoroshiro256pp :=
  match poly with
  | [] => s
  | word :: poly => let '(s, x) := jump_bits 64 word 0 s x in jump_words poly s x
  end.
Definition do_jump (poly : list Z) (x : xoroshiro256pp) : xoroshiro256pp := jump_words poly zero_state x.

Definition jump_poly : list Z :=
  [0x180ec6d33cfd0aba; 0xd5a61266f0c9392c; 0xa9582618e03fc9aa; 0x39abdc4529b1661c].
Definition longjump_poly : list Z :=
  [0x76e15d3efefdcbbf; 0xc5004e441c522fb3; 0x77710069854ee241; 0x39109bb02acbe635].
Definition jump (x : xoroshiro256pp) : xoroshiro256pp := do_jump jump_poly x.
Definition long_jump (x : xoroshiro256pp) : xoroshiro256pp := do_jump longjump_poly x.

(** The generator after [n] calls of [next]. *)
Definition after_calls (n : N) (x : xoroshiro256pp) : xoroshiro256pp := N.iter n (λ x, (next x).2) x.

Definition state_ok (x : xoroshiro256pp) : Prop := is_u64 (m0 x) ∧ is_u64 (m1 x) ∧ is_u64 (m2 x) ∧ is_u64 (m3 x).

(** ** The states as a vector space *)

Declare Scope xoro_scope.
Notation "a ⊕ b" := (xor_state a b) (at level 50, left associativity) : xoro_scope.
Open Scope xoro_scope.

Lemma state_ext a b : m0 a = m0 b → m1 a = m1 b → m2 a = m2 b → m3 a = m3 b → a = b.
Proof. destruct a, b. cbn. by intros -> -> -> ->. Qed.

(** Equations of xors, bit by bit. *)
Ltac xor_solve :=
  repeat match goal with x : xoroshiro256pp |- _ => destruct x end;
  apply state_ext; cbn; apply Z.bits_inj'; intros ??; autorewrite with zbits; btauto.

Lemma xor_comm a b : a ⊕ b = b ⊕ a.
Proof. xor_solve. Qed.
Lemma xor_assoc a b c : a ⊕ (b ⊕ c) = a ⊕ b ⊕ c.
Proof. xor_solve. Qed.
Lemma xor_self a : a ⊕ a = zero_state.
Proof. xor_solve. Qed.
Lemma xor_zero_l a : zero_state ⊕ a = a.
Proof. xor_solve. Qed.
Lemma xor_zero_r a : a ⊕ zero_state = a.
Proof. xor_solve. Qed.
Lemma xor_cancel a b c : a ⊕ b ⊕ (b ⊕ c) = a ⊕ c.
Proof. xor_solve. Qed.
Lemma xor_swap a b c d : a ⊕ b ⊕ (c ⊕ d) = a ⊕ c ⊕ (b ⊕ d).
Proof. xor_solve. Qed.

(** The step of [next] as a linear map, the same on words. *)
Definition low64 (z : Z) : Z := Z.land z 0xffffffffffffffff.
Definition turn (x k : Z) : Z := Z.lxor (low64 (Z.shiftl x k)) (Z.shiftr x (64 - k)).
Definition step (x : xoroshiro256pp) : xoroshiro256pp :=
  let '(Xo a b c d) := x in
  Xo (Z.lxor a (Z.lxor d b)) (Z.lxor b (Z.lxor c a))
     (Z.lxor (Z.lxor c a) (low64 (Z.shiftl b 17))) (turn (Z.lxor d b) 45).

Lemma low64_wrap z : low64 z = u64 z.
Proof. unfold low64, wrap. change 0xffffffffffffffff with (Z.ones 64). by rewrite Z.land_ones. Qed.
Lemma turn_rotl x k : is_u64 x → 0 < k < 64 → turn x k = rotl x k.
Proof.
  intros Hx Hk. unfold turn, rotl. rewrite low64_wrap. apply Z.bits_inj'. intros i Hi. autorewrite with zbits.
  destruct (decide (i < k)).
  - rewrite (Z.testbit_neg_r x (i - k)) by lia. by rewrite andb_false_r.
  - rewrite (word_testbit_high 64 x (i + (64 - k))) by (done || lia). by rewrite xorb_false_r, orb_false_r.
Qed.
Lemma step_next x : state_ok x → (next x).2 = step x.
Proof.
  destruct x as [a b c d]. intros (Ha & Hb & Hc & Hd). cbn in *. f_equal.
  - by rewrite low64_wrap.
  - rewrite turn_rotl; [done| |lia]. auto with words lia.
Qed.
Lemma low64_word z : is_u64 (low64 z).
Proof. rewrite low64_wrap. by apply wrap_word. Qed.
Lemma turn_word x k : is_u64 x → 0 < k < 64 → is_u64 (turn x k).
Proof. intros. apply lxor_word; [lia|apply low64_word|apply shiftr_word; [lia..|done]]. Qed.
Lemma step_ok x : state_ok x → state_ok (step x).
Proof.
  destruct x as [a b c d]. intros (Ha & Hb & Hc & Hd). unfold state_ok. cbn -[low64 turn] in *.
  refine (conj _ (conj _ (conj _ _))); repeat first [done|lia|apply low64_word|apply turn_word|apply lxor_word].
Qed.
Lemma step_xor a b : step (a ⊕ b) = step a ⊕ step b.
Proof.
  destruct a, b. apply state_ext; cbn -[low64 turn]; unfold turn; rewrite ?low64_wrap;
    apply Z.bits_inj'; intros; autorewrite with zbits; btauto.
Qed.
Lemma step_zero : step zero_state = zero_state.
Proof. reflexivity. Qed.
Lemma xor_ok a b : state_ok a → state_ok b → state_ok (a ⊕ b).
Proof. intros (?&?&?&?) (?&?&?&?). refine (conj _ (conj _ (conj _ _))); cbn; apply lxor_word; (done || lia). Qed.

(** ** Polynomials of the step *)

(** The sum of the powers of [step] that the bits choose. *)
Fixpoint eval (q : list bool) (x : xoroshiro256pp) : xoroshiro256pp :=
  match q with
  | [] => zero_state
  | b :: q => (if b then x else zero_state) ⊕ eval q (step x)
  end.
Definition steps (n : nat) (x : xoroshiro256pp) : xoroshiro256pp := Nat.iter n step x.

Lemma eval_xor q : ∀ a b, eval q (a ⊕ b) = eval q a ⊕ eval q b.
Proof.
  induction q as [|[] q IH]; intros a b; cbn [eval]; rewrite ?step_xor, ?IH.
  - by rewrite xor_zero_l.
  - apply xor_swap.
  - by rewrite !xor_zero_l.
Qed.
Lemma eval_step q : ∀ x, eval q (step x) = step (eval q x).
Proof.
  induction q as [|b q IH]; intros x; cbn [eval]; [done|]. rewrite step_xor, IH. by destruct b.
Qed.
Lemma eval_zero q : eval q zero_state = zero_state.
Proof. induction q as [|[] q IH]; cbn [eval]; rewrite ?step_zero, ?IH; done. Qed.
Lemma steps_step n x : steps n (step x) = step (steps n x).
Proof. apply Nat.iter_swap. Qed.
Lemma eval_app q r x : eval (q ++ r) x = eval q x ⊕ eval r (steps (length q) x).
Proof.
  revert x. induction q as [|b q IH]; intros x; cbn [eval app length]; [by rewrite xor_zero_l|].
  rewrite IH. change (steps (S (length q)) x) with (step (steps (length q) x)). by rewrite steps_step, xor_assoc.
Qed.

(** The sum of polynomials. *)
Fixpoint padd (q r : list bool) : list bool :=
  match q, r with
  | [], _ => r
  | _, [] => q
  | b :: q, c :: r => xorb b c :: padd q r
  end.
Lemma eval_padd q : ∀ r x, eval (padd q r) x = eval q x ⊕ eval r x.
Proof.
  induction q as [|b q IH]; intros r x; cbn [padd eval]; [by rewrite xor_zero_l|].
  destruct r as [|c r]; cbn [eval]; [by rewrite xor_zero_r|]. rewrite IH.
  rewrite xor_swap. f_equal. by destruct b, c; cbn [xorb]; rewrite ?xor_self, ?xor_zero_l, ?xor_zero_r.
Qed.
Lemma length_padd q : ∀ r, length (padd q r) = (length q `max` length r)%nat.
Proof. induction q as [|b q IH]; intros [|c r]; cbn [padd length]; [done..|]. by rewrite IH. Qed.

(** Squaring a polynomial doubles the powers. *)
Lemma eval_square q : ∀ x, eval q (eval q x) = foldr (λ b y, (if b : bool then x else zero_state) ⊕ step (step y)) zero_state q.
Proof.
  induction q as [|b q IH]; intros x; cbn [eval foldr]; [done|]. rewrite <-IH. rewrite !eval_step.
  rewrite !eval_xor, !step_xor, !eval_step. destruct b.
  - set (u := step (eval q x)). rewrite <-xor_assoc. f_equal. by rewrite xor_assoc, xor_self, xor_zero_l.
  - by rewrite !xor_zero_l, eval_zero, step_zero, xor_zero_l.
Qed.

(** ** The annihilator *)

Definition bits_of (n : nat) (z : Z) : list bool := (λ i, Z.testbit z (Z.of_nat i)) <$> seq 0 n.
(** x^256 modulo the characteristic polynomial of the step. *)
Definition remainder : list bool :=
  bits_of 256 0x3c03c3f3ecb1904b4edcf26259f850280002bcefd1a5e9d116f2bb0f0f001.
Definition annihilator : list bool := remainder ++ [true].

Lemma annihilates_bits : Forall (λ i, eval annihilator (Xo 0 0 0 (bit i)) = zero_state) (seqZ 0 64).
Proof.
  assert (H : forallb (λ i, match eval annihilator (Xo 0 0 0 (bit i)) with Xo 0 0 0 0 => true | _ => false end) (seqZ 0 64) = true)
    by (vm_compute; reflexivity).
  apply Forall_forall. intros i Hi. rewrite forallb_forall in H. specialize (H i (proj1 (list_elem_of_In _ _) Hi)). cbv beta in H.
  destruct (eval annihilator (Xo 0 0 0 (bit i))) as [a b c d]. by destruct a, b, c, d.
Qed.

(** Words are sums of bits. *)
Lemma word_sum_ind (P : Z → Prop) :
  P 0 → (∀ a b, P a → P b → P (Z.lxor a b)) → (∀ i, 0 ≤ i < 64 → P (bit i)) → ∀ w, is_u64 w → P w.
Proof.
  intros H0 Hx Hb. assert (Hn : ∀ n : nat, (n ≤ 64)%nat → ∀ w, is_word (Z.of_nat n) w → P w).
  { induction n as [|n IH]; intros Hle w Hw.
    - unfold is_word in Hw. change (2 ^ Z.of_nat 0) with 1 in Hw. by replace w with 0 by lia.
    - assert (Hlow : P (wrap (Z.of_nat n) w)) by (apply IH; [lia|apply wrap_word; lia]).
      destruct (Z.testbit w (Z.of_nat n)) eqn:E.
      + replace w with (Z.lxor (wrap (Z.of_nat n) w) (bit (Z.of_nat n))); [apply Hx; [done|apply Hb; lia]|].
        apply (word_ext (Z.of_nat (S n))); [lia| |done|].
        * apply lxor_word; [lia| |apply bit_word; lia]. pose proof (wrap_word (Z.of_nat n) w) as [??]; [lia|].
          split; [done|]. rewrite Nat2Z.inj_succ, Z.pow_succ_r by lia. lia.
        * intros i Hi. rewrite Z.lxor_spec, wrap_testbit, bit_testbit by lia. case_bool_decide; [subst i; by rewrite Z.ltb_irrefl, E|].
          rewrite (proj2 (Z.ltb_lt i _)) by lia. by rewrite xorb_false_r.
      + replace w with (wrap (Z.of_nat n) w); [done|]. apply (word_ext (Z.of_nat (S n))); [lia| |done|].
        * pose proof (wrap_word (Z.of_nat n) w) as [??]; [lia|]. split; [done|]. rewrite Nat2Z.inj_succ, Z.pow_succ_r by lia. lia.
        * intros i Hi. rewrite wrap_testbit by lia. destruct (Z.ltb_spec i (Z.of_nat n)); [done|].
          by replace i with (Z.of_nat n) by lia. }
  intros w Hw. by apply (Hn 64%nat).
Qed.

(** Undoing [w ^ (w << 17)]. *)
Definition unshift17 (v : Z) : Z :=
  Z.lxor v (Z.lxor (low64 (Z.shiftl v 17)) (Z.lxor (low64 (Z.shiftl v 34)) (low64 (Z.shiftl v 51)))).
Lemma unshift17_word v : is_u64 v → is_u64 (unshift17 v).
Proof. intros Hv. repeat (apply lxor_word; [lia|done || apply low64_word|]). apply low64_word. Qed.
Lemma shift17_unshift v : is_u64 v → Z.lxor (unshift17 v) (low64 (Z.shiftl (unshift17 v) 17)) = v.
Proof.
  intros Hv. apply (word_ext 64); [lia|apply lxor_word; [lia|by apply unshift17_word|apply low64_word]|done|].
  intros i Hi. unfold unshift17. rewrite !low64_wrap. autorewrite with zbits.
  rewrite !(proj2 (Z.ltb_lt i 64)) by lia. destruct (decide (i < 17)).
  - rewrite !(Z.testbit_neg_r _ (i - _)) by lia. btauto.
  - autorewrite with zbits. rewrite !(proj2 (Z.ltb_lt (i - 17) 64)) by lia. rewrite (Z.testbit_neg_r v (i - 17 - 51)) by lia.
    replace (i - 17 - 17) with (i - 34) by lia. replace (i - 17 - 34) with (i - 51) by lia. btauto.
Qed.

Lemma annihilator_app : annihilator = remainder ++ [true].
Proof. reflexivity. Qed.
Lemma length_remainder : length remainder = 256%nat.
Proof. reflexivity. Qed.
#[local] Opaque annihilator remainder.

(** The states that the polynomial maps to zero: closed under sums and steps. *)
Definition annihilated (x : xoroshiro256pp) : Prop := eval annihilator x = zero_state.

Lemma annihilated_xor a b : annihilated a → annihilated b → annihilated (a ⊕ b).
Proof. unfold annihilated. intros Ha Hb. by rewrite eval_xor, Ha, Hb. Qed.
Lemma annihilated_step a : annihilated a → annihilated (step a).
Proof. unfold annihilated. intros Ha. by rewrite eval_step, Ha. Qed.
Lemma annihilated_cancel a b : annihilated (a ⊕ b) → annihilated b → annihilated a.
Proof.
  intros Hab Hb. replace a with (a ⊕ b ⊕ b); [by apply annihilated_xor|]. by rewrite <-xor_assoc, xor_self, xor_zero_r.
Qed.


(** The steps of states of one word. *)
Lemma xor_words a b c d a' b' c' d' :
  Xo a b c d ⊕ Xo a' b' c' d' = Xo (Z.lxor a a') (Z.lxor b b') (Z.lxor c c') (Z.lxor d d').
Proof. reflexivity. Qed.
Lemma step_word3 w : step (Xo 0 0 0 w) = Xo w 0 0 0 ⊕ Xo 0 0 0 (turn w 45).
Proof. rewrite xor_words. unfold step. by rewrite !Z.lxor_0_r, !Z.lxor_0_l. Qed.
Lemma step_word0 w : step (Xo w 0 0 0) = Xo 0 w w 0 ⊕ Xo w 0 0 0.
Proof. rewrite xor_words. unfold step. by rewrite !Z.lxor_0_r, !Z.lxor_0_l. Qed.
Lemma step_word12 w :
  step (Xo 0 w w 0) = Xo 0 0 (Z.lxor w (low64 (Z.shiftl w 17))) 0 ⊕ Xo w 0 0 0 ⊕ Xo 0 0 0 (turn w 45).
Proof. rewrite !xor_words. unfold step. by rewrite !Z.lxor_0_r, !Z.lxor_0_l, Z.lxor_nilpotent. Qed.

Lemma annihilated_word3 w : is_u64 w → annihilated (Xo 0 0 0 w).
Proof.
  revert w. apply word_sum_ind.
  - apply eval_zero.
  - intros a b Ha Hb. replace (Xo 0 0 0 (Z.lxor a b)) with (Xo 0 0 0 a ⊕ Xo 0 0 0 b) by done. by apply annihilated_xor.
  - intros i Hi. pose proof annihilates_bits as H. rewrite Forall_forall in H.
    unfold annihilated. by apply (H i), elem_of_seqZ.
Qed.
Lemma annihilated_word0 w : is_u64 w → annihilated (Xo w 0 0 0).
Proof.
  intros Hw. apply (annihilated_cancel _ (Xo 0 0 0 (turn w 45))).
  - rewrite <-step_word3. by apply annihilated_step, annihilated_word3.
  - apply annihilated_word3, turn_word; [done|lia].
Qed.
Lemma annihilated_word12 w : is_u64 w → annihilated (Xo 0 w w 0).
Proof.
  intros Hw. apply (annihilated_cancel _ (Xo w 0 0 0)); [|by apply annihilated_word0].
  rewrite <-step_word0. by apply annihilated_step, annihilated_word0.
Qed.
Lemma annihilated_word2 w : is_u64 w → annihilated (Xo 0 0 w 0).
Proof.
  intros Hw. rewrite <-(shift17_unshift w) by done. pose proof (unshift17_word w Hw) as Hu.
  apply (annihilated_cancel _ (Xo (unshift17 w) 0 0 0)); [|by apply annihilated_word0].
  apply (annihilated_cancel _ (Xo 0 0 0 (turn (unshift17 w) 45))); [|apply annihilated_word3, turn_word; [done|lia]].
  rewrite <-step_word12. by apply annihilated_step, annihilated_word12.
Qed.
Lemma annihilated_all x : state_ok x → annihilated x.
Proof.
  destruct x as [a b c d]. intros (Ha & Hb & Hc & Hd). cbn in *.
  replace (Xo a b c d) with (Xo a 0 0 0 ⊕ (Xo 0 b b 0 ⊕ (Xo 0 0 (Z.lxor b c) 0 ⊕ Xo 0 0 0 d))).
  - apply annihilated_xor; [by apply annihilated_word0|].
    apply annihilated_xor; [by apply annihilated_word12|].
    apply annihilated_xor; [apply annihilated_word2, lxor_word; (done || lia)|by apply annihilated_word3].
  - rewrite !xor_words, !Z.lxor_0_r, !Z.lxor_0_l. by rewrite <-Z.lxor_assoc, Z.lxor_nilpotent, Z.lxor_0_l.
Qed.

(** So 256 steps are the remainder. *)
Lemma steps_256 x : state_ok x → steps 256 x = eval remainder x.
Proof.
  intros Hx. pose proof (annihilated_all x Hx) as H. unfold annihilated in H. rewrite annihilator_app, eval_app in H.
  cbn [eval] in H. rewrite !xor_zero_r, length_remainder in H.
  rewrite <-(xor_zero_r (eval remainder x)), <-(xor_self (steps 256 x)), xor_assoc, H. by rewrite xor_zero_l.
Qed.

(** ** Powers of the step by squaring *)

(** [x * q] modulo the annihilator. *)
Definition reduce (q : list bool) : list bool :=
  match drop 256 q with
  | true :: _ => padd (take 256 q) remainder
  | _ => take 256 q
  end.
Definition times_x (q : list bool) : list bool := reduce (false :: q).
(** 1, x^2, x^4, ... *)
Fixpoint even_powers (n : nat) (q : list bool) : list (list bool) :=
  match n with
  | O => []
  | S n => q :: even_powers n (times_x (times_x q))
  end.
Fixpoint combine (q : list bool) (table : list (list bool)) : list bool :=
  match q, table with
  | b :: q, t :: table => if b then padd t (combine q table) else combine q table
  | _, _ => []
  end.
Definition square_table : list (list bool) := even_powers 256 [true].
Fixpoint square_n (table : list (list bool)) (n : nat) (q : list bool) : list bool :=
  match n with
  | O => q
  | S n => square_n table n (combine q table)
  end.

Lemma reduce_spec q x : state_ok x → (length q ≤ 257)%nat → eval (reduce q) x = eval q x ∧ (length (reduce q) ≤ 256)%nat.
Proof.
  intros Hx Hl. unfold reduce.
  assert (Hsplit : eval q x = eval (take 256 q) x ⊕ eval (drop 256 q) (steps (length (take 256 q)) x))
    by (by rewrite <-eval_app, take_drop). rewrite Hsplit. clear Hsplit.
  assert (Hd : (length (drop 256 q) ≤ 1)%nat) by (rewrite length_drop; lia).
  destruct (drop 256 q) as [|b [|]] eqn:E; cbn [length] in Hd; [..|lia].
  - cbn [eval]. rewrite xor_zero_r, length_take. split; [done|lia].
  - assert (H256 : length (take 256 q) = 256%nat).
    { rewrite length_take. pose proof (f_equal length E) as HE. rewrite length_drop in HE. cbn in HE. lia. }
    rewrite H256. cbn [eval]. rewrite xor_zero_r. destruct b.
    + rewrite eval_padd, steps_256 by done. split; [done|]. rewrite length_padd, H256, length_remainder. lia.
    + rewrite xor_zero_r. split; [done|lia].
Qed.
Lemma times_x_spec q x : state_ok x → (length q ≤ 256)%nat → eval (times_x q) x = step (eval q x) ∧ (length (times_x q) ≤ 256)%nat.
Proof.
  intros Hx Hl. destruct (reduce_spec (false :: q) x Hx) as [He Hlen]; [cbn; lia|]. unfold times_x. rewrite He. split; [|done].
  cbn [eval]. by rewrite xor_zero_l, eval_step.
Qed.

(** The sum of the chosen entries of a table that starts at [t]. *)
Lemma combine_spec n x : state_ok x → ∀ q t, (length q ≤ n)%nat → (length t ≤ 256)%nat →
  eval (combine q (even_powers n t)) x = foldr (λ b y, (if b : bool then eval t x else zero_state) ⊕ step (step y)) zero_state q.
Proof.
  intros Hx. induction n as [|n IH]; intros q t Hq Ht; (destruct q as [|b q]; [done|cbn [length] in Hq]); [lia|].
  destruct (times_x_spec t x Hx Ht) as [E1 L1]. destruct (times_x_spec (times_x t) x Hx L1) as [E2 L2].
  assert (Hrec : eval (combine q (even_powers n (times_x (times_x t)))) x =
    step (step (foldr (λ b y, (if b : bool then eval t x else zero_state) ⊕ step (step y)) zero_state q))).
  { rewrite IH by (done || lia). rewrite E2, E1. clear. induction q as [|b q IHq]; [done|]. cbn [foldr]. rewrite IHq, !step_xor. by destruct b. }
  cbn [even_powers combine foldr]. destruct b; [rewrite eval_padd|]; rewrite Hrec; [done|by rewrite xor_zero_l].
Qed.

(** Squaring [k] times gives the step's power 2^k. *)
Lemma square_spec q x :
  state_ok x → (length q ≤ 256)%nat → eval (combine q square_table) x = eval q (eval q x).
Proof.
  intros Hx Hq. unfold square_table. rewrite combine_spec by (done || cbn; lia). rewrite eval_square.
  cbn [eval]. by rewrite xor_zero_r.
Qed.
Lemma length_combine : ∀ q n t, (length t ≤ 256)%nat → (length (combine q (even_powers n t)) ≤ 256)%nat.
Proof.
  assert (Hred : ∀ q, (length q ≤ 257)%nat → (length (reduce q) ≤ 256)%nat).
  { intros q Hq. exact (proj2 (reduce_spec q zero_state ltac:(by repeat split) Hq)). }
  induction q as [|b q IH]; intros [|n] t Ht; cbn [even_powers combine length]; [lia..|].
  assert (length (combine q (even_powers n (times_x (times_x t)))) ≤ 256)%nat.
  { apply IH, Hred. cbn [length]. apply le_n_S, Hred. cbn [length]. lia. }
  destruct b; [rewrite length_padd; lia|done].
Qed.

Lemma after_calls_add n m x : after_calls (n + m) x = after_calls n (after_calls m x).
Proof. apply N.iter_add. Qed.
Lemma after_calls_ok n x : state_ok x → state_ok (after_calls n x).
Proof.
  intros Hx. unfold after_calls. apply N.iter_invariant; [|done]. intros y Hy. rewrite step_next by done. by apply step_ok.
Qed.
Lemma square_n_spec k : ∀ q j, (length q ≤ 256)%nat →
  (∀ x, state_ok x → after_calls (2 ^ N.of_nat j) x = eval q x) →
  ∀ x, state_ok x → after_calls (2 ^ N.of_nat (j + k)) x = eval (square_n square_table k q) x.
Proof.
  induction k as [|k IH]; intros q j Hl Hq x Hx; cbn [square_n]; [by rewrite Nat.add_0_r, Hq|].
  replace (j + S k)%nat with (S j + k)%nat by lia. apply IH; [by apply length_combine; cbn; lia| |done].
  intros y Hy. rewrite square_spec by done. rewrite Nat2N.inj_succ, N.pow_succ_r by lia.
  replace (2 * 2 ^ N.of_nat j)%N with (2 ^ N.of_nat j + 2 ^ N.of_nat j)%N by lia.
  rewrite after_calls_add, <-!Hq; [done|done|]. rewrite <-Hq by done. by apply after_calls_ok.
Qed.
Lemma powers_of_step k x :
  state_ok x → after_calls (2 ^ N.of_nat k) x = eval (square_n square_table k [false; true]) x.
Proof.
  apply (square_n_spec k [false; true] 0); [cbn; lia|]. intros y Hy. cbn [eval]. rewrite xor_zero_l, xor_zero_r.
  change (2 ^ N.of_nat 0)%N with 1%N. unfold after_calls. cbn. by apply step_next.
Qed.

(** ** A jump evaluates its polynomial *)

Lemma jump_bits_spec n word : ∀ b s x,
  state_ok x → 0 ≤ b → b + Z.of_nat n ≤ 64 →
  jump_bits n word b s x = (s ⊕ eval ((λ i, Z.testbit word (b + Z.of_nat i)) <$> seq 0 n) x, steps n x).
Proof.
  induction n as [|n IH]; intros b s x Hx Hb Hn; cbn [jump_bits]; [cbn; by rewrite xor_zero_r|].
  rewrite step_next by done. rewrite IH by (lia || by apply step_ok).
  rewrite (wrap_small 64 (Z.shiftl 1 b)) by (apply (bit_word 64); lia). fold (bit b).
  replace (negb (Z.land word (bit b) =? 0)) with (Z.testbit word b).
  - cbn [seq fmap list_fmap eval]. rewrite Z.add_0_r, <-fmap_S_seq, <-list_fmap_compose. rewrite steps_step. f_equal.
    rewrite xor_assoc. f_equal; [by destruct (Z.testbit word b); rewrite ?xor_zero_r|].
    f_equal. apply list_fmap_ext. intros ? i _. cbn. f_equal. lia.
  - destruct (Z.testbit word b) eqn:E; symmetry.
    + apply negb_true_iff, Z.eqb_neq. intros E0. apply (f_equal (λ z, Z.testbit z b)) in E0.
      rewrite Z.land_spec, bit_testbit, E, bool_decide_eq_true_2, Z.bits_0 in E0 by (done || lia). done.
    + apply negb_false_iff, Z.eqb_eq, word_zero_bits. intros i Hi. rewrite Z.land_spec, bit_testbit by lia.
      case_bool_decide; [by subst; rewrite E|apply andb_false_r].
Qed.
Lemma length_bits_of n z : length (bits_of n z) = n.
Proof. unfold bits_of. by rewrite length_fmap, length_seq. Qed.
Definition poly_bits (poly : list Z) : list bool := poly ≫= bits_of 64.
Lemma steps_ok n x : state_ok x → state_ok (steps n x).
Proof. intros Hx. induction n as [|n IH]; [done|by apply step_ok]. Qed.
Lemma jump_words_spec poly : ∀ s x, state_ok x → jump_words poly s x = s ⊕ eval (poly_bits poly) x.
Proof.
  induction poly as [|word poly IH]; intros s x Hx; [cbn; by rewrite xor_zero_r|]. cbn [jump_words].
  rewrite jump_bits_spec by (done || lia). rewrite IH by by apply steps_ok. unfold poly_bits. cbn [mbind list_bind].
  rewrite eval_app, xor_assoc. by rewrite (length_bits_of 64).
Qed.

Lemma do_jump_spec poly k x :
  square_n square_table k [false; true] = poly_bits poly → state_ok x →
  do_jump poly x = after_calls (2 ^ N.of_nat k) x.
Proof.
  intros Hk Hx. unfold do_jump. rewrite jump_words_spec, xor_zero_l, powers_of_step by done. by rewrite Hk.
Qed.
Lemma jump_power : square_n square_table 128 [false; true] = poly_bits jump_poly.
Proof. vm_compute. reflexivity. Qed.
Lemma long_jump_power : square_n square_table 64 (poly_bits jump_poly) = poly_bits longjump_poly.
Proof. vm_compute. reflexivity. Qed.
Lemma square_n_add table n m q : square_n table (n + m) q = square_n table m (square_n table n q).
Proof. revert q. induction n as [|n IH]; intros q; [done|]. apply IH. Qed.

(** ** The step can be undone *)

Definition unstep (x : xoroshiro256pp) : xoroshiro256pp :=
  let '(Xo a b c d) := x in
  let d2 := turn d 19 in
  let a0 := Z.lxor a d2 in
  let c1 := unshift17 (Z.lxor c (low64 (Z.shiftl b 17))) in
  let b0 := Z.lxor b c1 in
  Xo a0 b0 (Z.lxor c1 a0) (Z.lxor d2 b0).

Lemma turn_turn w : is_u64 w → turn (turn w 45) 19 = w.
Proof.
  intros Hw. apply (word_ext 64); [lia|apply turn_word; [by apply turn_word; [done|lia]|lia]|done|]. intros i Hi. unfold turn.
  rewrite !low64_wrap. autorewrite with zbits. rewrite (proj2 (Z.ltb_lt i 64)) by lia. destruct (decide (i < 19)).
  - rewrite !(Z.testbit_neg_r _ (i - 19)) by lia. rewrite (proj2 (Z.ltb_lt (i + (64 - 19)) 64)) by lia.
    rewrite Z.shiftl_spec, Z.shiftr_spec by lia.
    replace (i + (64 - 19) - 45) with i by lia. rewrite (word_testbit_high 64 w (_ + (64 - 45))) by (done || lia). btauto.
  - autorewrite with zbits. rewrite (proj2 (Z.ltb_lt (i - 19) 64)) by lia. rewrite (Z.testbit_neg_r _ (i - 19 - 45)) by lia.
    rewrite (proj2 (Z.ltb_ge (i + (64 - 19)) 64)) by lia. replace (i - 19 + (64 - 45)) with i by lia.
    rewrite (word_testbit_high 64 w (i + (64 - 19) + (64 - 45))) by (done || lia). btauto.
Qed.
Lemma unshift17_shift w : is_u64 w → unshift17 (Z.lxor w (low64 (Z.shiftl w 17))) = w.
Proof.
  intros Hw. apply (word_ext 64); [lia|apply unshift17_word, lxor_word; [lia|done|apply low64_word]|done|].
  intros i Hi. unfold unshift17. rewrite !low64_wrap.
  assert (Hsh : ∀ k, 0 < k < 64 → Z.testbit (u64 (Z.shiftl (Z.lxor w (u64 (Z.shiftl w 17))) k)) i
    = xorb (Z.testbit w (i - k)) (Z.testbit w (i - k - 17))).
  { intros k Hk. rewrite wrap_testbit, Z.shiftl_spec, Z.lxor_spec, wrap_testbit by lia. rewrite (proj2 (Z.ltb_lt i 64)) by lia.
    destruct (decide (i - k < 0)); [by rewrite !Z.testbit_neg_r by lia; rewrite andb_false_r|].
    rewrite Z.shiftl_spec by lia. by rewrite (proj2 (Z.ltb_lt (i - k) 64)) by lia. }
  rewrite !Z.lxor_spec, !Hsh, wrap_testbit, Z.shiftl_spec by lia. rewrite (proj2 (Z.ltb_lt i 64)) by lia.
  rewrite (Z.testbit_neg_r w (i - 51 - 17)) by lia.
  replace (i - 17 - 17) with (i - 34) by lia. replace (i - 34 - 17) with (i - 51) by lia. btauto.
Qed.
Lemma unstep_step x : state_ok x → unstep (step x) = x.
Proof.
  destruct x as [a b c d]. intros (Ha & Hb & Hc & Hd). cbn [m0 m1 m2 m3] in *. unfold step, unstep.
  assert (Hc1 : is_u64 (Z.lxor c a)) by (apply lxor_word; (done || lia)).
  rewrite turn_turn by (apply lxor_word; (done || lia)).
  replace (Z.lxor (Z.lxor (Z.lxor c a) (low64 (Z.shiftl b 17))) (low64 (Z.shiftl (Z.lxor b (Z.lxor c a)) 17)))
    with (Z.lxor (Z.lxor c a) (low64 (Z.shiftl (Z.lxor c a) 17))).
  - rewrite unshift17_shift by done. f_equal; apply Z.bits_inj'; intros i Hi; rewrite !Z.lxor_spec; btauto.
  - rewrite !low64_wrap. apply Z.bits_inj'. intros i Hi. autorewrite with zbits. btauto.
Qed.
Lemma step_nonzero x : state_ok x → x ≠ zero_state → step x ≠ zero_state.
Proof. intros Hx Hnz E. apply Hnz. rewrite <-(unstep_step x Hx), E. reflexivity. Qed.

(** ** Theorems *)

(** C29: [jump] returns the generator that 2^128 calls of [next] lead to, and [long_jump] the one after
    2^192 calls, from every state. *)
Theorem jump_equals_calls (x : xoroshiro256pp) :
  state_ok x → jump x = after_calls (2 ^ 128) x ∧ long_jump x = after_calls (2 ^ 192) x.
Proof.
  intros Hx. split; [by apply (do_jump_spec _ 128 x jump_power)|]. apply (do_jump_spec _ 192); [|done].
  rewrite (square_n_add _ 128 64), jump_power. apply long_jump_power.
Qed.

(** a generator made from a seed other than 0 never reaches the state of four zeros, from which
    every number would be 0, and the state before a call is determined by the one after it. *)
Theorem seeded_never_zero (seed : Z) (n : N) :
  is_u64 seed → seed ≠ 0 →
  let x := after_calls n (from_seed seed) in
  state_ok x ∧ x ≠ zero_state ∧ unstep (next x).2 = x.
Proof.
  intros Hs Hnz x. assert (H0 : state_ok (from_seed seed)).
  { unfold from_seed. refine (conj _ (conj _ (conj _ _))); cbn; repeat apply splitmix64_word; done. }
  assert (H : state_ok x ∧ x ≠ zero_state).
  { unfold x, after_calls. apply N.iter_invariant.
    - intros y [Hy Hny]. rewrite step_next by done. split; [by apply step_ok|by apply step_nonzero].
    - split; [done|]. unfold from_seed, zero_state. congruence. }
  destruct H as [Hx Hn]. split; [done|]. split; [done|]. rewrite step_next by done. by apply unstep_step.
Qed.

(** ** Witnesses *)

Lemma jump_equals_calls_witness :
  jump (from_seed 0x123456) = after_calls (2 ^ 128) (from_seed 0x123456) ∧
  long_jump (from_seed 0x123456) = after_calls (2 ^ 192) (from_seed 0x123456).
Proof. apply (jump_equals_calls (from_seed 0x123456)). repeat split; by vm_compute. Defined.
Lemma seeded_never_zero_witness :
  let x := after_calls 1000 (from_seed 0x123456) in state_ok x ∧ x ≠ zero_state ∧ unstep (next x).2 = x.
Proof. apply (seeded_never_zero 0x123456 1000); [by split; vm_compute|lia]. Defined.
