(* ===== verification/LibcMemory.v ===== *)
(** * Filling and copying memory

    Models src/libraries/j6/memutils.cpp and copy.h: [memset], which writes whole words between the
    unaligned ends, and [memmove] with the direction it chooses; [memcpy] is the forward copy of bytes
    of memutils.s.  Memory is a finite map from addresses to bytes, and an access outside it is
    [Undef].

    [memset_correct] shows that the word-wise routine sets exactly the bytes asked for.
    [memmove_dispatch_correct] shows that overlapping ranges are copied right in both directions, but
    [memmove] hands its destination to it twice, so it never copies anything
    ([memmove_copies_nothing]). *)
From S2P Require Import Prelude.

Abbreviation memory := (gmap Z Z).

(** ** Accesses *)

Definition load8 (m : memory) (a : Z) : outcome Z :=
  match m !! a with Some b => Done b | None => Undef end.
Definition store8 (m : memory) (a b : Z) : outcome memory :=
  match m !! a with Some _ => Done (<[a := b]> m) | None => Undef end.

(** A word is stored lowest byte first. *)
Fixpoint store_bytes (n : nat) (m : memory) (a v : Z) : outcome memory :=
  match n with
  | O => Done m
  | S n => let* m := store8 m a (u8 v) in store_bytes n m (a + 1) (Z.shiftr v 8)
  end.
Definition store64 (m : memory) (a v : Z) : outcome memory := store_bytes 8 m a v.

(** ** memset *)

Definition word_bytes : Z := 8.
Definition word_align_mask : Z := word_bytes - 1.
Fixpoint log2_loop (fuel : nat) (n : Z) : Z :=
  match fuel with
  | O => 0
  | S fuel => if n <? 2 then 0 else 1 + log2_loop fuel (n / 2)
  end.
Definition word_shift : Z := log2_loop 64 word_bytes.
Definition is_aligned (a : Z) : bool := Z.land a (word_bytes - 1) =? 0.

Definition repval (c : Z) : Z :=
  let r := c in
  let r := Z.lor r (u64 (Z.shiftl r 8)) in
  let r := Z.lor r (u64 (Z.shiftl r 16)) in
  Z.lor r (u64 (Z.shiftl r 32)).

(** The unaligned bytes at the start: at most seven. *)
Fixpoint set_unaligned (fuel : nat) (m : memory) (b bval n : Z) : outcome (memory * Z * Z) :=
  match fuel with
  | O => Diverge
  | S fuel =>
      if negb (n =? 0) && negb (is_aligned b) then
        let* m := store8 m b bval in set_unaligned fuel m (b + 1) bval (n - 1)
      else Done (m, b, n)
  end.
Fixpoint set_words (words : nat) (m : memory) (p pval : Z) : outcome (memory * Z) :=
  match words with
  | O => Done (m, p)
  | S words => let* m := store64 m p pval in set_words words m (p + word_bytes) pval
  end.
Fixpoint set_bytes (remainder : nat) (m : memory) (b bval : Z) : outcome memory :=
  match remainder with
  | O => Done m
  | S remainder => let* m := store8 m b bval in set_bytes remainder m (b + 1) bval
  end.
(** [memset]: the pointer it returns, null when it was given null, and the memory. *)
Definition memset (m : memory) (s c n : Z) : outcome (Z * memory) :=
  if s =? 0 then Done (0, m)
  else
    let bval := Z.land c 0xff in
    let* (m, b, n) := set_unaligned 8 m s bval n in
    let words := Z.shiftr n word_shift in
    let pval := repval (u8 c) in
    let* (m, p) := set_words (Z.to_nat words) m b pval in
    let remainder := Z.land n word_align_mask in
    let* m := set_bytes (Z.to_nat remainder) m p bval in
    Done (s, m).

(** ** memcpy and memmove *)

Fixpoint copy_forward (n : nat) (m : memory) (s1 s2 : Z) : outcome memory :=
  match n with
  | O => Done m
  | S n =>
      let* b := load8 m s2 in
      let* m := store8 m s1 b in
      copy_forward n m (s1 + 1) (s2 + 1)
  end.
Definition memcpy (m : memory) (s1 s2 n : Z) : outcome memory := copy_forward (Z.to_nat n) m s1 s2.
(** The loop from [i = n - 1] down. *)
Fixpoint do_backward_copy (n : nat) (m : memory) (s1 s2 : Z) : outcome memory :=
  match n with
  | O => Done m
  | S i =>
      let* b := load8 m (s2 + Z.of_nat i) in
      let* m := store8 m (s1 + Z.of_nat i) b in
      do_backward_copy i m s1 s2
  end.
Definition memmove_dispatch (m : memory) (s1 s2 n : Z) : outcome memory :=
  if s1 =? s2 then Done m
  else if (s1 <? s2) || (s2 + n <? s1) then memcpy m s1 s2 n
  else do_backward_copy (Z.to_nat n) m s1 s2.
Definition memmove (m : memory) (s1 s2 n : Z) : outcome (Z * memory) :=
  let* m := memmove_dispatch m s1 s1 n in
  Done (s1, m).

(** ** Ranges of bytes *)

Definition mapped (m : memory) (a n : Z) : Prop := ∀ x, a ≤ x < a + n → is_Some (m !! x).
(** [m'] is [m] with byte [f x] at each address [x] of the range. *)
Definition updated (m m' : memory) (a n : Z) (f : Z → option Z) : Prop :=
  ∀ x, m' !! x = if decide (a ≤ x < a + n) then f x else m !! x.

Lemma updated_mapped m m' a n f b k :
  updated m m' a n f → (∀ x, a ≤ x < a + n → is_Some (f x)) → mapped m b k → mapped m' b k.
Proof. intros Hu Hf Hm x Hx. rewrite Hu. case_decide; [by apply Hf|by apply Hm]. Qed.
Lemma updated_nil m a n f : n ≤ 0 → updated m m a n f.
Proof. intros Hn x. by rewrite decide_False by lia. Qed.
Lemma updated_app m m1 m2 a n k f :
  0 ≤ n → 0 ≤ k → updated m m1 a n f → updated m1 m2 (a + n) k f → updated m m2 a (n + k) f.
Proof. intros Hn Hk H1 H2 x. rewrite H2, H1. repeat case_decide; (done || lia). Qed.
Lemma store8_updated m a b :
  is_Some (m !! a) → ∃ m', store8 m a b = Done m' ∧ updated m m' a 1 (λ _, Some b).
Proof.
  intros [c Hc]. unfold store8. rewrite Hc. eexists. split; [done|]. intros x.
  case_decide; [replace x with a by lia; by rewrite lookup_insert_eq|by rewrite lookup_insert_ne by lia].
Qed.

(** ** Each part of memset sets its bytes *)

(** What the parts have in common: [k] bytes from [a] become [b]. *)
Abbreviation filled m m' a k b := (updated m m' a k (λ _, Some b)).
Lemma filled_mapped m m' a k b c n : filled m m' a k b → mapped m c n → mapped m' c n.
Proof. intros Hf Hm. eapply updated_mapped; [exact Hf| |done]. intros. by eexists. Qed.
Lemma mapped_sub m a n b k : mapped m a n → a ≤ b → b + k ≤ a + n → mapped m b k.
Proof. intros Hm H1 H2 x Hx. apply Hm. lia. Qed.

Lemma set_bytes_filled k b : ∀ m a,
  mapped m a (Z.of_nat k) → ∃ m', set_bytes k m a b = Done m' ∧ filled m m' a (Z.of_nat k) b.
Proof.
  induction k as [|k IH]; intros m a Hm; cbn [set_bytes]; [eexists; split; [done|by apply updated_nil]|].
  destruct (store8_updated m a b) as (m1 & -> & H1); [apply Hm; lia|]. cbn [mbind outcome_bind].
  destruct (IH m1 (a + 1)) as (m2 & -> & H2); [eapply filled_mapped; [done|]; eapply mapped_sub; [done|lia..]|].
  exists m2. split; [done|]. replace (Z.of_nat (S k)) with (1 + Z.of_nat k) by lia. by apply (updated_app m m1); [lia..| |].
Qed.
Lemma store_same n b v : ∀ m a,
  mapped m a (Z.of_nat n) → (∀ i, (i < n)%nat → u8 (Z.shiftr v (8 * Z.of_nat i)) = b) →
  store_bytes n m a v = set_bytes n m a b.
Proof.
  revert v. induction n as [|n IH]; intros v m a Hm Hv; cbn [store_bytes set_bytes]; [done|].
  pose proof (Hv 0%nat ltac:(lia)) as H0. rewrite Z.shiftr_0_r in H0. rewrite H0.
  destruct (store8_updated m a b) as (m1 & -> & H1); [apply Hm; lia|]. cbn [mbind outcome_bind]. apply IH.
  - eapply filled_mapped; [done|]. eapply mapped_sub; [done|lia..].
  - intros i Hi. rewrite Z.shiftr_shiftr by lia. replace (8 + 8 * Z.of_nat i) with (8 * Z.of_nat (S i)) by lia. apply Hv. lia.
Qed.

Lemma repval_bytes c i : 0 ≤ c < 256 → (i < 8)%nat → u8 (Z.shiftr (repval c) (8 * Z.of_nat i)) = c.
Proof.
  intros Hc Hi.
  assert (H : forallb (λ c, forallb (λ i, u8 (Z.shiftr (repval c) (8 * Z.of_nat i)) =? c) (seq 0 8)) (seqZ 0 256) = true)
    by (vm_compute; reflexivity).
  rewrite forallb_forall in H. specialize (H c ltac:(apply list_elem_of_In, elem_of_seqZ; lia)).
  rewrite forallb_forall in H. apply Z.eqb_eq, H, in_seq. lia.
Qed.
Lemma store64_filled m a c :
  0 ≤ c < 256 → mapped m a 8 → ∃ m', store64 m a (repval c) = Done m' ∧ filled m m' a 8 c.
Proof.
  intros Hc Hm. unfold store64. rewrite (store_same 8 c) by (done || intros; by apply repval_bytes).
  by apply (set_bytes_filled 8 c).
Qed.
Lemma set_words_filled k c : ∀ m a,
  0 ≤ c < 256 → mapped m a (8 * Z.of_nat k) →
  ∃ m', set_words k m a (repval c) = Done (m', a + 8 * Z.of_nat k) ∧ filled m m' a (8 * Z.of_nat k) c.
Proof.
  induction k as [|k IH]; intros m a Hc Hm; cbn [set_words].
  - exists m. split; [f_equal; f_equal; lia|by apply updated_nil].
  - destruct (store64_filled m a c Hc) as (m1 & -> & H1); [eapply mapped_sub; [done|lia..]|]. cbn [mbind outcome_bind].
    unfold word_bytes. destruct (IH m1 (a + 8) Hc) as (m2 & -> & H2);
      [eapply filled_mapped; [done|]; eapply mapped_sub; [done|lia..]|].
    exists m2. split; [f_equal; f_equal; lia|]. replace (8 * Z.of_nat (S k)) with (8 + 8 * Z.of_nat k) by lia.
    by apply (updated_app m m1); [lia..| |].
Qed.

Lemma is_aligned_mod a : is_aligned a = (a mod 8 =? 0).
Proof. unfold is_aligned, word_bytes. change (8 - 1) with (Z.ones 3). by rewrite Z.land_ones. Qed.
Lemma set_unaligned_filled fuel b : ∀ m a n,
  0 ≤ n → (-a) mod 8 < Z.of_nat fuel → mapped m a n →
  ∃ m' k, set_unaligned fuel m a b n = Done (m', a + k, n - k) ∧ 0 ≤ k ≤ n ∧ filled m m' a k b.
Proof.
  induction fuel as [|fuel IH]; intros m a n Hn Hf Hm; [pose proof (Z.mod_pos_bound (-a) 8); lia|]. cbn [set_unaligned].
  destruct (negb (n =? 0) && negb (is_aligned a)) eqn:E.
  - rewrite is_aligned_mod in E. apply andb_true_iff in E as [E1%negb_true_iff%Z.eqb_neq E2%negb_true_iff%Z.eqb_neq].
    destruct (store8_updated m a b) as (m1 & -> & H1); [apply Hm; lia|]. cbn [mbind outcome_bind].
    assert (Hmod : (-(a + 1)) mod 8 < Z.of_nat fuel).
    { pose proof (Z.div_mod (-a) 8). pose proof (Z.mod_pos_bound (-a) 8). pose proof (Z.div_mod a 8). pose proof (Z.mod_pos_bound a 8).
      rewrite <-(Zmod_unique (-(a + 1)) 8 ((-a) / 8) ((-a) mod 8 - 1)); lia. }
    destruct (IH m1 (a + 1) (n - 1)) as (m2 & k & -> & Hk & H2); [lia|done|eapply filled_mapped; [done|]; eapply mapped_sub; [done|lia..]|].
    exists m2, (1 + k). split; [f_equal; f_equal; [f_equal|]; lia|]. split; [lia|]. by apply (updated_app m m1); [lia..| |].
  - exists m, 0. rewrite Z.add_0_r, Z.sub_0_r. split; [done|]. split; [lia|by apply updated_nil].
Qed.

(** ** Copies *)

Lemma copy_forward_updated k : ∀ m d s,
  mapped m d (Z.of_nat k) → mapped m s (Z.of_nat k) → d ≤ s ∨ s + Z.of_nat k ≤ d →
  ∃ m', copy_forward k m d s = Done m' ∧ updated m m' d (Z.of_nat k) (λ x, m !! (s + (x - d))).
Proof.
  induction k as [|k IH]; intros m d s Hd Hs Hdir; cbn [copy_forward]; [eexists; split; [done|by apply updated_nil]|].
  destruct (Hs s ltac:(lia)) as [b Hb]. unfold load8. rewrite Hb. cbn [mbind outcome_bind].
  destruct (store8_updated m d b) as (m1 & -> & H1); [apply Hd; lia|]. cbn [mbind outcome_bind].
  destruct (IH m1 (d + 1) (s + 1)) as (m2 & -> & H2);
    [eapply filled_mapped; [done|]; eapply mapped_sub; [exact Hd|lia..]|eapply filled_mapped; [done|]; eapply mapped_sub; [exact Hs|lia..]|lia|].
  exists m2. split; [done|]. intros x. rewrite H2, !H1. repeat case_decide; try lia; try done.
  - f_equal. lia.
  - replace x with d by lia. rewrite Z.sub_diag, Z.add_0_r. done.
Qed.
Lemma do_backward_copy_updated k : ∀ m d s,
  mapped m d (Z.of_nat k) → mapped m s (Z.of_nat k) → s ≤ d →
  ∃ m', do_backward_copy k m d s = Done m' ∧ updated m m' d (Z.of_nat k) (λ x, m !! (s + (x - d))).
Proof.
  induction k as [|k IH]; intros m d s Hd Hs Hdir; cbn [do_backward_copy]; [eexists; split; [done|by apply updated_nil]|].
  destruct (Hs (s + Z.of_nat k) ltac:(lia)) as [b Hb]. unfold load8. rewrite Hb. cbn [mbind outcome_bind].
  destruct (store8_updated m (d + Z.of_nat k) b) as (m1 & -> & H1); [apply Hd; lia|]. cbn [mbind outcome_bind].
  destruct (IH m1 d s) as (m2 & -> & H2);
    [eapply filled_mapped; [done|]; eapply mapped_sub; [exact Hd|lia..]|eapply filled_mapped; [done|]; eapply mapped_sub; [exact Hs|lia..]|lia|].
  exists m2. split; [done|]. intros x. rewrite H2, !H1. repeat case_decide; try lia; try done.
  replace x with (d + Z.of_nat k) by lia. by replace (s + (d + Z.of_nat k - d)) with (s + Z.of_nat k) by lia.
Qed.

(** ** Theorems *)

(** [memset] sets exactly the [n] bytes from its address, whatever its alignment, to the low byte
    of the value, touches nothing outside them, and returns the address. *)
Theorem memset_correct (m : memory) (s c n : Z) :
  0 < s → 0 ≤ n → mapped m s n →
  ∃ m', memset m s c n = Done (s, m') ∧
    ∀ x, m' !! x = if decide (s ≤ x < s + n) then Some (c mod 256) else m !! x.
Proof.
  intros Hs Hn Hm. unfold memset. rewrite (proj2 (Z.eqb_neq s 0)) by lia.
  assert (Hc : Z.land c 0xff = c mod 256) by (change 0xff with (Z.ones 8); by rewrite Z.land_ones). rewrite Hc.
  change (u8 c) with (c mod 256). assert (Hb : 0 ≤ c mod 256 < 256) by (apply Z.mod_pos_bound; lia). set (b := c mod 256) in *.
  destruct (set_unaligned_filled 8 b m s n) as (m1 & k & -> & Hk & H1); [done|apply Z.mod_pos_bound; lia|done|]. cbn [mbind outcome_bind].
  change word_shift with 3. change word_align_mask with (Z.ones 3). rewrite Z.shiftr_div_pow2, Z.land_ones by lia. change (2 ^ 3) with 8.
  pose proof (Z.div_mod (n - k) 8) as Hdm. pose proof (Z.mod_pos_bound (n - k) 8) as Hmb. pose proof (Z.div_pos (n - k) 8) as Hdp.
  set (q := (n - k) / 8) in *. set (r := (n - k) mod 8) in *.
  destruct (set_words_filled (Z.to_nat q) b m1 (s + k) Hb) as (m2 & -> & H2);
    [eapply filled_mapped; [done|]; eapply mapped_sub; [done|lia..]|]. cbn [mbind outcome_bind].
  rewrite Z2Nat.id in * by lia.
  destruct (set_bytes_filled (Z.to_nat r) b m2 (s + k + 8 * q)) as (m3 & -> & H3);
    [do 2 (eapply filled_mapped; [done|]); eapply mapped_sub; [done|lia..]|]. cbn [mbind outcome_bind].
  exists m3. split; [done|]. rewrite Z2Nat.id in H3 by lia. replace n with (k + (8 * q + r)) by lia.
  apply (updated_app m m1); [lia..|done|]. by apply (updated_app m1 m2); [lia..| |].
Qed.

(** [memmove_dispatch] copies a range right even where source and destination overlap, forwards
    or backwards as needed, and touches nothing else. *)
Theorem memmove_dispatch_correct (m : memory) (s1 s2 n : Z) :
  0 ≤ n → mapped m s1 n → mapped m s2 n →
  ∃ m', memmove_dispatch m s1 s2 n = Done m' ∧
    ∀ x, m' !! x = if decide (s1 ≤ x < s1 + n) then m !! (s2 + (x - s1)) else m !! x.
Proof.
  intros Hn H1 H2. unfold memmove_dispatch.
  destruct (Z.eqb_spec s1 s2) as [->|Hne].
  { exists m. split; [done|]. intros x. case_decide; [|done]. f_equal. lia. }
  destruct ((s1 <? s2) || (s2 + n <? s1)) eqn:E.
  - unfold memcpy. rewrite <-(Z2Nat.id n) in H1, H2 by done. destruct (copy_forward_updated (Z.to_nat n) m s1 s2 H1 H2) as (m' & -> & Hu).
    + apply orb_true_iff in E as [E%Z.ltb_lt|E%Z.ltb_lt]; lia.
    + exists m'. split; [done|]. by rewrite Z2Nat.id in Hu.
  - apply orb_false_iff in E as [E1%Z.ltb_ge E2]. rewrite <-(Z2Nat.id n) in H1, H2 by done.
    destruct (do_backward_copy_updated (Z.to_nat n) m s1 s2 H1 H2 E1) as (m' & -> & Hu).
    exists m'. split; [done|]. by rewrite Z2Nat.id in Hu.
Qed.

(** [memmove] gives its destination to the copy as the source, so it never changes memory: it
    moves nothing whenever source and destination differ. *)
Theorem memmove_copies_nothing (m : memory) (s1 s2 n : Z) : memmove m s1 s2 n = Done (s1, m).
Proof. unfold memmove, memmove_dispatch. by rewrite Z.eqb_refl. Qed.

(** ** Witnesses *)

Definition demo_memory : memory := list_to_map ((λ a, (a, a mod 256)) <$> seqZ 4093 30).
Lemma demo_mapped a n : bool_decide (Forall (λ x, is_Some (demo_memory !! x)) (seqZ a n)) = true → mapped demo_memory a n.
Proof. intros H%bool_decide_eq_true. rewrite Forall_forall in H. intros x Hx. apply H, elem_of_seqZ. lia. Qed.
Lemma memset_correct_witness :
  ∃ m', memset demo_memory 4093 0x1ff 29 = Done (4093, m') ∧ m' !! 4093 = Some 255 ∧ m' !! 4122 = Some 26.
Proof.
  destruct (memset_correct demo_memory 4093 0x1ff 29) as (m' & H1 & H2); [lia|lia|by apply demo_mapped; vm_compute|].
  exists m'. split; [exact H1|]. rewrite !H2. split; reflexivity.
Defined.
Lemma memmove_dispatch_correct_witness :
  ∃ m', memmove_dispatch demo_memory 4096 4094 20 = Done m' ∧ m' !! 4098 = Some 0 ∧ m' !! 4115 = Some 17.
Proof.
  destruct (memmove_dispatch_correct demo_memory 4096 4094 20) as (m' & H1 & H2);
    [lia|by apply demo_mapped; vm_compute|by apply demo_mapped; vm_compute|].
  exists m'. split; [exact H1|]. rewrite !H2. split; reflexivity.
Defined.
