(* ===== verification/LibcString.v ===== *)
(** * Strings of the C library

    Models the functions of src/libraries/libc/string and the character classes of
    src/libraries/libc/ctype.  A character is the value of a (signed) [char]; a pointer is the list of
    the characters from where it points to the end of its object, or [None] when it is null, and a
    pointer that is returned is an offset.  Reading past the object is [Undef].

    The searches, [strncpy] and, for ASCII, [strncmp] do what the C standard says.  [strcmp], [strncat],
    [strcspn], [strpbrk], the order of [memcmp] and the character classes do not, as the last theorems
    show. *)
From S2P Require Import Prelude.

Abbreviation cptr := (option (list Z)).

(** [*p], and the rest of the object behind it. *)
Definition next_char {A} (s : list Z) (k : Z → list Z → outcome A) : outcome A :=
  match s with [] => Undef | c :: s => k c s end.

(** ** Length and searches *)

Fixpoint strlen_loop (s : list Z) (len : Z) : outcome Z :=
  match s with
  | [] => Undef
  | c :: s => if c =? 0 then Done len else strlen_loop s (u64 (len + 1))
  end.
Definition strlen (s : cptr) : outcome Z :=
  match s with None => Done 0 | Some s => strlen_loop s 0 end.

Fixpoint strchr_loop (s : list Z) (c i : Z) : outcome (option Z) :=
  match s with
  | [] => Undef
  | d :: s =>
      if negb (d =? 0) && negb (d =? c) then strchr_loop s c (i + 1)
      else Done (if negb (d =? 0) then Some i else None)
  end.
Definition strchr (s : cptr) (c : Z) : outcome (option Z) :=
  match s with None => Done None | Some s => strchr_loop s c 0 end.

Fixpoint strrchr_loop (s : list Z) (c i : Z) (p : option Z) : outcome (option Z) :=
  match s with
  | [] => Undef
  | d :: s => if d =? 0 then Done p else strrchr_loop s c (i + 1) (if d =? c then Some i else p)
  end.
Definition strrchr (s : cptr) (c : Z) : outcome (option Z) :=
  match s with None => Done None | Some s => strrchr_loop s c 0 None end.

Fixpoint memchr_loop (n : nat) (b : list Z) (c i : Z) : outcome (option Z) :=
  match n with
  | O => Done None
  | S n =>
      next_char b (λ d b,
        if negb (d =? 0) && negb (d =? c) then memchr_loop n b c (i + 1)
        else Done (if negb (d =? 0) then Some i else None))
  end.
Definition memchr (s : cptr) (c n : Z) : outcome (option Z) :=
  match s with
  | None => Done None
  | Some s => if n =? 0 then Done None else memchr_loop (Z.to_nat n) s c 0
  end.

(** ** Comparisons *)

(** [while ( *c1 && *c2 && *c1++ == *c2++);]: where the pointers end up. *)
Fixpoint strcmp_loop (c1 c2 : list Z) : outcome (list Z * list Z) :=
  match c1 with
  | [] => Undef
  | a :: r1 =>
      if a =? 0 then Done (c1, c2)
      else
        match c2 with
        | [] => Undef
        | b :: r2 =>
            if b =? 0 then Done (c1, c2)
            else if a =? b then strcmp_loop r1 r2
            else Done (r1, r2)
        end
  end.
(** What the comparisons return for the characters they stop at. *)
Definition order_of (a b : Z) : Z :=
  if a =? b then 0 else if (b =? 0) || (b <? a) then 1 else -1.
Definition strcmp (s1 s2 : cptr) : outcome Z :=
  match s1, s2 with
  | Some s1, Some s2 =>
      let* (c1, c2) := strcmp_loop s1 s2 in
      next_char c1 (λ a _, next_char c2 (λ b _, Done (order_of a b)))
  | _, _ => Done 0
  end.

Fixpoint strncmp_loop (n : nat) (c1 c2 : list Z) : outcome Z :=
  match n with
  | O => Done 0
  | S n =>
      next_char c1 (λ a r1, next_char c2 (λ b r2,
        if negb (a =? 0) && negb (b =? 0) && (a =? b) then strncmp_loop n r1 r2
        else Done (order_of a b)))
  end.
Definition strncmp (s1 s2 : cptr) (n : Z) : outcome Z :=
  match s1, s2 with
  | Some s1, Some s2 => strncmp_loop (Z.to_nat n) s1 s2
  | _, _ => Done 0
  end.

(** The bytes at two addresses; the result compares the addresses the pointers end at. *)
Fixpoint memcmp_loop (n : nat) (p1 p2 : Z) (c1 c2 : list Z) : outcome Z :=
  match n with
  | O => Done 0
  | S n =>
      next_char c1 (λ a r1, next_char c2 (λ b r2,
        if a =? b then memcmp_loop n (p1 + 1) (p2 + 1) r1 r2
        else Done (if p2 + 1 <? p1 + 1 then 1 else -1)))
  end.
Definition memcmp (s1 s2 : option (Z * list Z)) (n : Z) : outcome Z :=
  match s1, s2 with
  | Some (p1, c1), Some (p2, c2) => memcmp_loop (Z.to_nat n) p1 p2 c1 c2
  | _, _ => Done 0
  end.

Definition strcoll (s1 s2 : cptr) : outcome Z := strcmp s1 s2.

(** ** Copies *)

(** Copying to [dest], the characters written first and the object behind them. *)
Fixpoint strncpy_loop (n : nat) (dest src : list Z) : outcome (list Z) :=
  match n with
  | O => Done dest
  | S n' =>
      next_char src (λ c src,
        if c =? 0 then
          if (n <=? length dest)%nat then Done (replicate n 0 ++ drop n dest) else Undef
        else
          next_char dest (λ _ dest, let* d := strncpy_loop n' dest src in Done (c :: d)))
  end.
(** [strncpy]: the object [s1] points to, after the call. *)
Definition strncpy (s1 s2 : cptr) (n : Z) : outcome cptr :=
  match s1, s2 with
  | Some s1', Some s2' => if n =? 0 then Done s1 else let* d := strncpy_loop (Z.to_nat n) s1' s2' in Done (Some d)
  | _, _ => Done s1
  end.

(** [strxfrm]: what it returns, and the object [s1] points to.  [memcpy] reads and writes [l]
    characters. *)
Definition strxfrm (s1 : list Z) (s2 : cptr) (n : Z) : outcome (Z * list Z) :=
  let* len := strlen s2 in
  let l := u64 (len + 1) in
  let l := if n <? l then n else l in
  let* src := match s2 with Some s2 => Done s2 | None => if l =? 0 then Done [] else Undef end in
  if (Z.to_nat l <=? length src)%nat && (Z.to_nat l <=? length s1)%nat then
    let* d := arr_set (take (Z.to_nat l) src ++ drop (Z.to_nat l) s1) (u64 (l - 1)) 0 in
    Done (l, d)
  else Undef.

(** [while ( *dest++);]: what lies before and behind where [dest] stops. *)
Fixpoint skip_string (dest : list Z) : outcome (list Z * list Z) :=
  match dest with
  | [] => Undef
  | c :: dest => if c =? 0 then Done ([c], dest) else let* (before, rest) := skip_string dest in Done (c :: before, rest)
  end.
Fixpoint strncat_loop (n : nat) (dest src : list Z) : outcome (list Z) :=
  next_char src (λ c src,
    if c =? 0 then next_char dest (λ _ rest, Done (0 :: rest))
    else
      match n with
      | O => next_char dest (λ _ rest, Done (0 :: rest))
      | S n => next_char dest (λ _ rest, let* d := strncat_loop n rest src in Done (c :: d))
      end).
Definition strncat (s1 s2 : cptr) (n : Z) : outcome cptr :=
  match s1, s2 with
  | Some s1', Some s2' =>
      if n =? 0 then Done s1
      else
        let* (before, rest) := skip_string s1' in
        let* d := strncat_loop (Z.to_nat n) rest s2' in
        Done (Some (before ++ d))
  | _, _ => Done s1
  end.

(** ** Spans *)

(** [for (i < s2len) if (c == s2[i])] *)
Definition occurs (c : Z) (s2 : list Z) (s2len : Z) : bool :=
  bool_decide (c ∈ take (Z.to_nat s2len) s2).
(** The outer loop of [strcspn]: its pointer never moves. *)
Fixpoint strcspn_loop (fuel : nat) (p s2 : list Z) (s2len total : Z) : outcome Z :=
  match fuel with
  | O => Diverge
  | S fuel =>
      next_char p (λ c _,
        if c =? 0 then Done total
        else if occurs c s2 s2len then Done total
        else strcspn_loop fuel p s2 s2len (u64 (total + 1)))
  end.
Definition strcspn (fuel : nat) (s1 s2 : cptr) : outcome Z :=
  match s1, s2 with
  | Some s1, Some s2 => let* s2len := strlen (Some s2) in strcspn_loop fuel s1 s2 s2len 0
  | _, _ => Done 0
  end.
Fixpoint strpbrk_loop (fuel : nat) (p s2 : list Z) (s2len : Z) : outcome (option Z) :=
  match fuel with
  | O => Diverge
  | S fuel =>
      next_char p (λ c _,
        if c =? 0 then Done None
        else if occurs c s2 s2len then Done (Some 0)
        else strpbrk_loop fuel p s2 s2len)
  end.
Definition strpbrk (fuel : nat) (s1 s2 : cptr) : outcome (option Z) :=
  match s1, s2 with
  | Some s1, Some s2 => let* s2len := strlen (Some s2) in strpbrk_loop fuel s1 s2 s2len
  | _, _ => Done None
  end.

(** ** Character classes *)

(** One row of [locale_c_table] per sixteen characters, from -128 on. *)
Definition ctype_row (c : Z) : list Z :=
  match Z.div c 16 with
  | 0 => [0x200;0x200;0x200;0x200;0x200;0x200;0x200;0x200;0x200;0x1a0;0x0a0;0x0a0;0x0a0;0x0a0;0x200;0x200]
  | 1 => [0x200;0x200;0x200;0x200;0x200;0x200;0x200;0x200;0x200;0x200;0x200;0x200;0x200;0x200;0x200;0x200]
  | 2 => [0x160;0x4a0;0x4a0;0x4a0;0x4a0;0x4a0;0x4a0;0x4a0;0x4a0;0x4a0;0x4a0;0x4a0;0x4a0;0x4a0;0x4a0;0x4a0]
  | 3 => [0x8d8;0x8d8;0x8d8;0x8d8;0x8d8;0x8d8;0x8d8;0x8d8;0x8d8;0x8d8;0x4a0;0x4a0;0x4a0;0x4a0;0x4a0;0x4a0]
  | 4 => [0x4a0;0x8d5;0x8d5;0x8d5;0x8d5;0x8d5;0x8d5;0x8c5;0x8c5;0x8c5;0x8c5;0x8c5;0x8c5;0x8c5;0x8c5;0x8c5]
  | 5 => [0x8c5;0x8c5;0x8c5;0x8c5;0x8c5;0x8c5;0x8c5;0x8c5;0x8c5;0x8c5;0x8c5;0x4a0;0x4a0;0x4a0;0x4a0;0x4a0]
  | 6 => [0x4a0;0x8d6;0x8d6;0x8d6;0x8d6;0x8d6;0x8d6;0x8c6;0x8c6;0x8c6;0x8c6;0x8c6;0x8c6;0x8c6;0x8c6;0x8c6]
  | 7 => [0x8c6;0x8c6;0x8c6;0x8c6;0x8c6;0x8c6;0x8c6;0x8c6;0x8c6;0x8c6;0x8c6;0x4a0;0x4a0;0x4a0;0x4a0;0x200]
  | _ => replicate 16 0
  end.
Definition ctype_b (ch : Z) : outcome Z :=
  if (-128 <=? ch) && (ch <? 256) then arr_get (ctype_row ch) (ch mod 16) else Undef.
Inductive ctype := upper | lower | alpha | digit | xdigit | space | print | graph | blank | cntrl | punct | alnum.
Definition flag (t : ctype) : Z :=
  match t with
  | upper => 0x001 | lower => 0x002 | alpha => 0x004 | digit => 0x008 | xdigit => 0x010 | space => 0x020
  | print => 0x040 | graph => 0x080 | blank => 0x100 | cntrl => 0x200 | punct => 0x400 | alnum => 0x800
  end.
(** [isupper], [islower] and so on. *)
Definition is_ctype (t : ctype) (ch : Z) : outcome Z :=
  let* b := ctype_b ch in Done (Z.lor b (flag t)).
Definition toupper (c : Z) : Z := if (97 <=? c) && (c <=? 122) then c - 0x20 else c.
Definition tolower (c : Z) : Z := if (65 <=? c) && (c <=? 90) then c + 0x20 else c.

(** ** C strings *)

(** The object begins with the string [t] and its terminator. *)
Definition cstring (s t : list Z) : Prop := Forall (λ c, c ≠ 0) t ∧ ∃ rest, s = t ++ 0 :: rest.
(** The order of the C standard: lexicographic, a prefix first. *)
Fixpoint lex_order (t1 t2 : list Z) : Z :=
  match t1, t2 with
  | [], [] => 0
  | [], _ => -1
  | _, [] => 1
  | a :: t1, b :: t2 => if a =? b then lex_order t1 t2 else if a <? b then -1 else 1
  end.

Lemma cstring_nil s : cstring s [] → ∃ rest, s = 0 :: rest.
Proof. by intros [_ H]. Qed.
Lemma cstring_cons s c t : cstring s (c :: t) → ∃ s', s = c :: s' ∧ c ≠ 0 ∧ cstring s' t.
Proof. intros [[Hc Ht]%Forall_cons (rest & ->)]. eexists. split; [done|]. split; [done|]. split; [done|by eexists]. Qed.

(** Takes the next character of every string that is known to have one. *)
Ltac next_chars :=
  repeat match goal with
  | H : cstring ?s [] |- _ => is_var s; apply cstring_nil in H as (? & ->)
  | H : cstring ?s (_ :: _) |- _ => is_var s; apply cstring_cons in H as (? & -> & ? & H)
  end; cbn [next_char].

Lemma strlen_loop_spec t : ∀ s len,
  cstring s t → 0 ≤ len → len + Z.of_nat (length t) < 2 ^ 64 → strlen_loop s len = Done (len + Z.of_nat (length t)).
Proof.
  induction t as [|c t IH]; intros s len Hs Hl Hb; cbn [length] in *; next_chars; cbn [strlen_loop].
  - by rewrite Z.add_0_r.
  - rewrite (proj2 (Z.eqb_neq c 0)) by done. rewrite wrap_small by (unfold is_word; lia). rewrite IH by (done || lia). f_equal. lia.
Qed.
Lemma strchr_loop_spec c t : ∀ s i,
  cstring s t → strchr_loop s c i = Done ((λ k, i + Z.of_nat k.1) <$> list_find (c =.) t).
Proof.
  induction t as [|d t IH]; intros s i Hs; next_chars; cbn [strchr_loop list_find]; [done|].
  rewrite (proj2 (Z.eqb_neq d 0)) by done. cbn [negb andb]. destruct (Z.eqb_spec d c) as [->|Hne]; cbn [negb].
  - rewrite decide_True by done. cbn. by rewrite Z.add_0_r.
  - rewrite decide_False by done. rewrite IH by done. rewrite <-option_fmap_compose. f_equal.
    apply option_fmap_ext. intros [k y]. cbn. lia.
Qed.
(** The offset of the last occurrence. *)
Definition last_index (c : Z) (t : list Z) : option Z :=
  (λ k, Z.of_nat (length t) - 1 - Z.of_nat k.1) <$> list_find (c =.) (reverse t).
Lemma strrchr_loop_spec c t : ∀ s i p,
  cstring s t → c ≠ 0 → strrchr_loop s c i p =
    Done (match last_index c t with Some k => Some (i + k) | None => p end).
Proof.
  unfold last_index. induction t as [|d t IH]; intros s i p Hs Hc; next_chars; cbn [strrchr_loop]; [done|].
  rewrite (proj2 (Z.eqb_neq d 0)) by done. rewrite IH by done. rewrite reverse_cons.
  destruct (list_find (c =.) (reverse t)) as [[k y]|] eqn:E.
  - rewrite (list_find_app_l _ _ _ _ _ E). cbn [fmap option_fmap option_map fst]. do 2 f_equal. cbn [length]. lia.
  - rewrite (list_find_app_r _ _ _ E). cbn [list_find fmap option_fmap option_map].
    destruct (Z.eqb_spec d c) as [->|Hne].
    + rewrite decide_True by done. cbn [fmap option_fmap option_map fst prod_map]. do 2 f_equal. cbn [length].
      rewrite length_reverse. lia.
    + by rewrite decide_False by done.
Qed.

(** ** Theorems *)

(** on C strings, [strlen] is the length, [strchr] the first and [strrchr] the last place of a
    character other than 0, or null, and none reads past the terminator. *)
Theorem string_searches_correct (s t : list Z) (c : Z) :
  cstring s t → Z.of_nat (length t) < 2 ^ 64 → c ≠ 0 →
  strlen (Some s) = Done (Z.of_nat (length t)) ∧
  strchr (Some s) c = Done ((λ k, Z.of_nat k.1) <$> list_find (c =.) t) ∧
  strrchr (Some s) c = Done (last_index c t).
Proof.
  intros Hs Hl Hc. split; [apply (strlen_loop_spec t s 0); (done || lia)|]. split; [apply (strchr_loop_spec c t s 0); done|].
  unfold strrchr. rewrite (strrchr_loop_spec c t s 0 None) by done. by destruct (last_index c t).
Qed.

Lemma strncmp_loop_spec n : ∀ s1 s2 t1 t2,
  cstring s1 t1 → cstring s2 t2 → Forall (λ c, 0 < c) t1 → Forall (λ c, 0 < c) t2 →
  strncmp_loop n s1 s2 = Done (lex_order (take n t1) (take n t2)).
Proof.
  induction n as [|n IH]; intros s1 s2 t1 t2 H1 H2 P1 P2; [by cbn; rewrite !take_0|]. cbn [strncmp_loop].
  destruct t1 as [|a t1], t2 as [|b t2]; next_chars; cbn [take lex_order]; unfold order_of.
  - done.
  - apply Forall_cons in P2 as [Hb P2]. cbn [negb andb]. rewrite (proj2 (Z.eqb_neq 0 b)), (proj2 (Z.eqb_neq b 0)) by lia.
    by rewrite (proj2 (Z.ltb_ge b 0)) by lia.
  - rewrite (proj2 (Z.eqb_neq a 0)) by done. by cbn.
  - apply Forall_cons in P1 as [Ha P1], P2 as [Hb P2]. rewrite (proj2 (Z.eqb_neq a 0)), (proj2 (Z.eqb_neq b 0)) by lia. cbn [negb andb].
    destruct (Z.eqb_spec a b); [by apply IH|]. cbn [orb]. destruct (Z.ltb_spec b a), (Z.ltb_spec a b); (done || lia).
Qed.

(** [strncmp] orders C strings of ASCII characters as the C standard does: lexicographically by
    their first [n] characters. *)
Theorem strncmp_orders (s1 s2 t1 t2 : list Z) (n : Z) :
  cstring s1 t1 → cstring s2 t2 → Forall (λ c, 0 < c) t1 → Forall (λ c, 0 < c) t2 →
  strncmp (Some s1) (Some s2) n = Done (lex_order (take (Z.to_nat n) t1) (take (Z.to_nat n) t2)).
Proof. apply strncmp_loop_spec. Qed.

Lemma strncpy_loop_spec n : ∀ dest src t,
  cstring src t → (n ≤ length dest)%nat →
  strncpy_loop n dest src = Done (take n (t ++ replicate n 0) ++ drop n dest).
Proof.
  induction n as [|n IH]; intros dest src t Hs Hd; [done|]. cbn [strncpy_loop]. destruct t as [|c t]; next_chars.
  - change (0 =? 0) with true. cbn iota. rewrite (proj2 (Nat.leb_le _ _)) by done.
    by rewrite app_nil_l, take_ge by (rewrite length_replicate; lia).
  - rewrite (proj2 (Z.eqb_neq c 0)) by done. destruct dest as [|d dest]; [cbn in Hd; lia|]. cbn [next_char].
    rewrite (IH dest _ t) by (done || cbn in Hd; lia). cbn [mbind outcome_bind take drop app]. f_equal. f_equal. f_equal.
    rewrite replicate_S_end, app_assoc. symmetry. apply take_app_le. rewrite length_app, length_replicate. lia.
Qed.

(** [strncpy] writes exactly [n] characters: those of the source up to its end, then zeros. *)
Theorem strncpy_correct (dest src t : list Z) (n : Z) :
  cstring src t → 0 ≤ n ≤ Z.of_nat (length dest) →
  strncpy (Some dest) (Some src) n
    = Done (Some (take (Z.to_nat n) (t ++ replicate (Z.to_nat n) 0) ++ drop (Z.to_nat n) dest)).
Proof.
  intros Hs Hn. unfold strncpy. destruct (Z.eqb_spec n 0) as [->|]; [by cbn; rewrite take_0, drop_0|].
  rewrite (strncpy_loop_spec _ dest src t) by (done || lia). done.
Qed.

(** [strxfrm] returns the size of the string with its end, or [n] if that is less, writes that many
    characters, of which the last is 0, and leaves the rest of the object as it is. *)
Theorem strxfrm_correct (dest src t : list Z) (n : Z) :
  cstring src t → 0 < n ≤ Z.of_nat (length dest) → n < 2 ^ 64 → Z.of_nat (length t) + 1 < 2 ^ 64 →
  let l := Z.min n (Z.of_nat (length t) + 1) in
  strxfrm dest (Some src) n = Done (l, take (Z.to_nat (l - 1)) t ++ 0 :: drop (Z.to_nat l) dest).
Proof.
  intros Hs Hn Hnw Ht l. unfold strxfrm, strlen. rewrite (strlen_loop_spec t src 0) by (done || lia). cbn [mbind outcome_bind].
  rewrite Z.add_0_l, wrap_small by (unfold is_word; lia).
  assert (El : (if n <? Z.of_nat (length t) + 1 then n else Z.of_nat (length t) + 1) = l) by (destruct (Z.ltb_spec n (Z.of_nat (length t) + 1)); lia).
  rewrite El. destruct Hs as [_ [rest ->]].
  rewrite !(proj2 (Nat.leb_le _ _)) by (rewrite ?length_app; cbn [length]; lia). cbn [andb].
  rewrite wrap_small by (unfold is_word; lia). replace (Z.to_nat l) with (S (Z.to_nat (l - 1))) by lia. set (k := Z.to_nat (l - 1)).
  assert (Hx : ∃ x, take (S k) (t ++ 0 :: rest) = take k t ++ [x]).
  { assert (Hk : is_Some ((t ++ 0 :: rest) !! k)) by (apply lookup_lt_is_Some; rewrite length_app; cbn; lia). destruct Hk as [x Hx]. exists x.
    rewrite (take_S_r _ _ _ Hx). by rewrite take_app_le by lia. }
  destruct Hx as [x ->]. rewrite arr_set_Done by (rewrite !length_app, length_drop, length_take; cbn; lia). cbn [mbind outcome_bind].
  fold k. rewrite <-app_assoc. do 2 f_equal. assert (Hk : k = (length (take k t) + 0)%nat) by (rewrite length_take; lia).
  rewrite Hk at 1. by rewrite insert_app_r.
Qed.

(** [strcmp] steps over the first difference before it compares, so strings that differ in one
    character are reported equal. *)
Theorem strcmp_misses_difference (p u : list Z) (a b : Z) :
  Forall (λ c, c ≠ 0) p → a ≠ 0 → b ≠ 0 → a ≠ b → Forall (λ c, c ≠ 0) u →
  strcmp (Some (p ++ a :: u ++ [0])) (Some (p ++ b :: u ++ [0])) = Done 0.
Proof.
  intros Hp Ha Hb Hab Hu. unfold strcmp.
  assert (H : strcmp_loop (p ++ a :: u ++ [0]) (p ++ b :: u ++ [0]) = Done (u ++ [0], u ++ [0])).
  { induction Hp as [|c p Hc _ IH]; cbn [app strcmp_loop].
    - by rewrite (proj2 (Z.eqb_neq a 0)), (proj2 (Z.eqb_neq b 0)), (proj2 (Z.eqb_neq a b)).
    - by rewrite (proj2 (Z.eqb_neq c 0)), Z.eqb_refl. }
  rewrite H. cbn [mbind outcome_bind]. destruct u as [|c u]; cbn [app next_char]; unfold order_of; by rewrite Z.eqb_refl.
Qed.

(** [strcspn] and [strpbrk] never advance: when the first character is not one they look for, they
    do not return, with any amount of fuel. *)
Theorem strcspn_diverges (fuel : nat) (s1 s2 : list Z) (t1 t2 : list Z) (c : Z) :
  cstring s1 (c :: t1) → cstring s2 t2 → Z.of_nat (length t2) < 2 ^ 64 → c ∉ t2 →
  strcspn fuel (Some s1) (Some s2) = Diverge ∧ strpbrk fuel (Some s1) (Some s2) = Diverge.
Proof.
  intros H1 H2 Hl Hc. assert (Hocc : occurs c s2 (Z.of_nat (length t2)) = false).
  { unfold occurs. destruct H2 as [_ [rest ->]]. rewrite Nat2Z.id, take_app_length. by apply bool_decide_eq_false. }
  unfold strcspn, strpbrk, strlen. rewrite (strlen_loop_spec t2 s2 0) by (done || lia). rewrite Z.add_0_l. cbn [mbind outcome_bind].
  apply cstring_cons in H1 as (s1' & -> & Hc0 & _).
  split; [generalize 0|]; induction fuel as [|fuel IH]; try done; [intros z|]; cbn [strcspn_loop strpbrk_loop next_char];
    rewrite (proj2 (Z.eqb_neq c 0)) by done; rewrite Hocc; apply IH.
Qed.

Lemma skip_string_spec t : ∀ rest, Forall (λ c, c ≠ 0) t → skip_string (t ++ 0 :: rest) = Done (t ++ [0], rest).
Proof.
  induction t as [|c t IH]; intros rest Ht; [done|]. apply Forall_cons in Ht as [Hc Ht]. cbn [app skip_string].
  rewrite (proj2 (Z.eqb_neq c 0)) by done. by rewrite IH.
Qed.
(** [strncat] writes behind the terminator of its destination, so whatever it is given to append
    the destination is the same string as before. *)
Theorem strncat_appends_nothing (s1 s2 t1 : list Z) (n : Z) (d : list Z) :
  cstring s1 t1 → strncat (Some s1) (Some s2) n = Done (Some d) → cstring d t1.
Proof.
  intros [Ht [rest ->]] Hd. unfold strncat in Hd. destruct (n =? 0).
  - injection Hd as <-. by split; [|eexists].
  - rewrite skip_string_spec in Hd by done. cbn [mbind outcome_bind] in Hd.
    destruct (strncat_loop _ _ _) as [d'| | |]; [|done..]. cbn in Hd. injection Hd as <-.
    split; [done|]. exists d'. by rewrite <-app_assoc.
Qed.

Lemma memcmp_loop_spec n : ∀ p1 p2 c1 c2,
  (n ≤ length c1)%nat → (n ≤ length c2)%nat →
  memcmp_loop n p1 p2 c1 c2 = Done (if bool_decide (take n c1 = take n c2) then 0 else if p2 <? p1 then 1 else -1).
Proof.
  induction n as [|n IH]; intros p1 p2 c1 c2 H1 H2; cbn [memcmp_loop].
  { by rewrite !take_0, bool_decide_eq_true_2. }
  destruct c1 as [|a c1], c2 as [|b c2]; cbn [length] in *; try lia. cbn [next_char take].
  destruct (Z.eqb_spec a b) as [->|Hne].
  - rewrite IH by lia. replace (p2 + 1 <? p1 + 1) with (p2 <? p1)
      by (destruct (Z.ltb_spec p2 p1), (Z.ltb_spec (p2 + 1) (p1 + 1)); (done || lia)).
    f_equal. repeat case_bool_decide; congruence.
  - rewrite bool_decide_eq_false_2 by congruence. f_equal.
    destruct (Z.ltb_spec p2 p1), (Z.ltb_spec (p2 + 1) (p1 + 1)); (done || lia).
Qed.
(** [memcmp] is 0 exactly when the bytes are equal, but for different bytes the sign is that of
    the addresses, whatever the bytes are. *)
Theorem memcmp_compares_addresses (p1 p2 n : Z) (c1 c2 : list Z) :
  0 ≤ n ≤ Z.of_nat (length c1) → n ≤ Z.of_nat (length c2) →
  memcmp (Some (p1, c1)) (Some (p2, c2)) n
    = Done (if bool_decide (take (Z.to_nat n) c1 = take (Z.to_nat n) c2) then 0 else if p2 <? p1 then 1 else -1).
Proof. intros H1 H2. apply memcmp_loop_spec; lia. Qed.

(** every character is in every class: the classes join the flag to the table's entry instead of
    testing it. *)
Theorem ctype_always_true (t : ctype) (ch : Z) :
  -128 ≤ ch < 256 → ∃ v, is_ctype t ch = Done v ∧ v ≠ 0.
Proof.
  intros Hch.
  assert (H : forallb (λ t, forallb (λ ch, match is_ctype t ch with Done v => negb (v =? 0) | _ => false end) (seqZ (-128) 384))
    [upper; lower; alpha; digit; xdigit; space; print; graph; blank; cntrl; punct; alnum] = true) by (vm_compute; reflexivity).
  rewrite forallb_forall in H. specialize (H t ltac:(destruct t; cbn; tauto)).
  rewrite forallb_forall in H. specialize (H ch ltac:(apply list_elem_of_In, elem_of_seqZ; lia)). cbv beta in H.
  destruct (is_ctype t ch) as [v| | |]; [|done..]. exists v. split; [done|]. by apply negb_true_iff, Z.eqb_neq in H.
Qed.

(** ** Witnesses *)

(** The string of characters [t] in an object with something behind it. *)
Definition c_str (t : list Z) : list Z := t ++ 0 :: [7; 7].
Lemma c_str_cstring t : forallb (λ c, negb (c =? 0)) t = true → cstring (c_str t) t.
Proof.
  intros H. split; [|by eexists]. apply Forall_forall. intros c Hc. rewrite forallb_forall in H.
  by apply Z.eqb_neq, negb_true_iff, H, list_elem_of_In.
Qed.
Lemma string_searches_correct_witness :
  strlen (Some (c_str [97; 98; 97])) = Done 3 ∧ strchr (Some (c_str [97; 98; 97])) 97 = Done (Some 0) ∧
  strrchr (Some (c_str [97; 98; 97])) 97 = Done (Some 2).
Proof. apply (string_searches_correct (c_str [97; 98; 97]) [97; 98; 97] 97); [by apply c_str_cstring|cbn; lia|lia]. Defined.
Lemma strncmp_orders_witness : strncmp (Some (c_str [97; 98; 97])) (Some (c_str [97; 99])) 2 = Done (-1).
Proof. apply (strncmp_orders (c_str [97; 98; 97]) (c_str [97; 99]) [97; 98; 97] [97; 99] 2); first [by apply c_str_cstring|by repeat constructor]. Defined.
Lemma strncpy_correct_witness :
  strncpy (Some [1; 2; 3; 4; 5]) (Some (c_str [97; 98])) 4 = Done (Some [97; 98; 0; 0; 5]).
Proof. apply (strncpy_correct [1; 2; 3; 4; 5] (c_str [97; 98]) [97; 98] 4); [by apply c_str_cstring|cbn; lia]. Defined.
Lemma strxfrm_correct_witness : strxfrm [1; 2; 3; 4] (Some (c_str [97; 98; 99])) 3 = Done (3, [97; 98; 0; 4]).
Proof. apply (strxfrm_correct [1; 2; 3; 4] (c_str [97; 98; 99]) [97; 98; 99] 3); first [by apply c_str_cstring|cbn; lia]. Defined.
Lemma strcmp_misses_difference_witness : strcmp (Some [97; 99; 0]) (Some [98; 99; 0]) = Done 0.
Proof. apply (strcmp_misses_difference [] [99] 97 98); [by apply Forall_nil|lia|lia|lia|by repeat constructor]. Defined.
Lemma strcspn_diverges_witness :
  strcspn 1000 (Some (c_str [97; 98])) (Some (c_str [98])) = Diverge ∧
  strpbrk 1000 (Some (c_str [97; 98])) (Some (c_str [98])) = Diverge.
Proof.
  apply (strcspn_diverges 1000 _ _ [98] [98] 97); [by apply c_str_cstring|by apply c_str_cstring|cbn; lia|].
  by intros [H|H%not_elem_of_nil]%elem_of_cons.
Defined.
Lemma strncat_appends_nothing_witness :
  strncat (Some [97; 0; 5; 5; 5]) (Some (c_str [98])) 3 = Done (Some [97; 0; 98; 0; 5]) ∧ cstring [97; 0; 98; 0; 5] [97].
Proof.
  assert (H : strncat (Some [97; 0; 5; 5; 5]) (Some (c_str [98])) 3 = Done (Some [97; 0; 98; 0; 5])) by reflexivity.
  split; [exact H|]. apply (strncat_appends_nothing [97; 0; 5; 5; 5] (c_str [98]) [97] 3); [|exact H].
  split; [by repeat constructor|by exists [5; 5; 5]].
Defined.
Lemma memcmp_compares_addresses_witness : memcmp (Some (4096, [9; 9])) (Some (8192, [1; 1])) 2 = Done (-1).
Proof. apply (memcmp_compares_addresses 4096 8192 2 [9; 9] [1; 1]); cbn; lia. Defined.
Lemma ctype_always_true_witness : ∃ v, is_ctype upper 97 = Done v ∧ v ≠ 0.
Proof. apply (ctype_always_true upper 97). lia. Defined.
