(* ===== verification/LibcExit.v ===== *)
(** * Callbacks at exit

    Models src/libraries/libc/stdlib/exit.cpp: the two tables of callbacks, registration, and running
    them when a program exits.  A callback is a function and its argument; calling one is a parameter
    that says what the callback registers itself, since a callback may call [atexit].  [_Exit] is the
    system call that ends the process, with the status it is given.

    [exit_runs_callbacks] shows that [exit] runs the callbacks of the table, the last one first, each
    once, and ends with the status it got; [quick_exit] does so with its own table.
    [registration_bounded] shows that a table never overflows and keeps what it has. *)
From S2P Require Import Prelude.

Definition max_atexit : Z := 64.
Record atexit_item := Item { cb : Z; arg : Z }.
(** The tables; the entries above a count are what was there before. *)
Record exit_state := ExitState {
  atexit_count : Z;
  atexit_array : list atexit_item;
  quick_exit_count : Z;
  quick_exit_array : list atexit_item;
}.
(** The program's memory at its start. *)
Definition empty_item : atexit_item := Item 0 0.
Definition initial : exit_state := ExitState 0 (replicate 64 empty_item) 0 (replicate 64 empty_item).

Section exit.
(** The address of [bare_callback]. *)
Context (bare_callback : Z).

Definition cxa_atexit (s : exit_state) (f a : Z) : outcome (Z * exit_state) :=
  if atexit_count s =? max_atexit then Done (-1, s)
  else
    let* l := arr_set (atexit_array s) (atexit_count s) (Item f a) in
    Done (0, ExitState (atexit_count s + 1) l (quick_exit_count s) (quick_exit_array s)).
Definition atexit (s : exit_state) (func : Z) : outcome (Z * exit_state) := cxa_atexit s bare_callback func.
Definition at_quick_exit (s : exit_state) (func : Z) : outcome (Z * exit_state) :=
  if quick_exit_count s =? max_atexit then Done (-1, s)
  else
    let* l := arr_set (quick_exit_array s) (quick_exit_count s) (Item bare_callback func) in
    Done (0, ExitState (atexit_count s) (atexit_array s) (quick_exit_count s + 1) l).

(** A registration of any kind. *)
Inductive registration := Cxa (f a : Z) | AtExit (func : Z) | AtQuickExit (func : Z).
Definition register (s : exit_state) (r : registration) : outcome (Z * exit_state) :=
  match r with
  | Cxa f a => cxa_atexit s f a
  | AtExit func => atexit s func
  | AtQuickExit func => at_quick_exit s func
  end.
Fixpoint registers (s : exit_state) (rs : list registration) : outcome exit_state :=
  match rs with
  | [] => Done s
  | r :: rs => let* (_, s) := register s r in registers s rs
  end.

(** What a callback registers while it runs. *)
Context (calls : atexit_item → list registration).

(** [exit_with_callbacks], from index [i - 1] down: the callbacks run, in order. *)
Fixpoint callbacks_loop (array : exit_state → list atexit_item) (i : nat) (s : exit_state) : outcome (list atexit_item * exit_state) :=
  match i with
  | O => Done ([], s)
  | S i =>
      let* item := arr_get (array s) (Z.of_nat i) in
      let* s := registers s (calls item) in
      let* (run, s) := callbacks_loop array i s in
      Done (item :: run, s)
  end.
(** The callbacks run and the status the process ends with. *)
Definition exit (s : exit_state) (status : Z) : outcome (list atexit_item * Z) :=
  let* (run, _) := callbacks_loop atexit_array (Z.to_nat (atexit_count s)) s in Done (run, status).
Definition quick_exit (s : exit_state) (status : Z) : outcome (list atexit_item * Z) :=
  let* (run, _) := callbacks_loop quick_exit_array (Z.to_nat (quick_exit_count s)) s in Done (run, status).
Definition abort : Z := - 2 ^ 63.

(** ** The tables as lists *)

(** The callbacks of a table that are registered. *)
Definition table_of (n : Z) (l : list atexit_item) : list atexit_item := take (Z.to_nat n) l.
Definition at_exit (s : exit_state) : list atexit_item := table_of (atexit_count s) (atexit_array s).
Definition at_quick (s : exit_state) : list atexit_item := table_of (quick_exit_count s) (quick_exit_array s).
Record exit_wf (s : exit_state) : Prop := {
  ew_count : 0 ≤ atexit_count s ≤ 64;
  ew_array : length (atexit_array s) = 64%nat;
  ew_quick_count : 0 ≤ quick_exit_count s ≤ 64;
  ew_quick_array : length (quick_exit_array s) = 64%nat;
}.
Lemma initial_wf : exit_wf initial.
Proof. by split. Qed.

(** An item added to a table, if there is room. *)
Definition add_item (l : list atexit_item) (i : atexit_item) : list atexit_item :=
  if bool_decide (length l < 64)%nat then l ++ [i] else l.
Definition item_of (r : registration) : atexit_item :=
  match r with Cxa f a => Item f a | AtExit func | AtQuickExit func => Item bare_callback func end.
Definition is_quick (r : registration) : bool := match r with AtQuickExit _ => true | _ => false end.

Lemma table_of_length n l : 0 ≤ n ≤ 64 → length l = 64%nat → length (table_of n l) = Z.to_nat n.
Proof. intros Hn Hl. unfold table_of. rewrite length_take. lia. Qed.
Lemma table_of_insert n l i :
  0 ≤ n < 64 → length l = 64%nat → table_of (n + 1) (<[Z.to_nat n := i]> l) = add_item (table_of n l) i.
Proof.
  intros Hn Hl. unfold add_item. rewrite table_of_length by lia. rewrite bool_decide_eq_true_2 by lia. unfold table_of.
  replace (Z.to_nat (n + 1)) with (S (Z.to_nat n)) by lia.
  rewrite (take_S_r _ _ i) by (apply list_lookup_insert_eq; lia). by rewrite take_insert_ge by lia.
Qed.
Lemma table_of_full n l i : n = 64 → length l = 64%nat → add_item (table_of n l) i = table_of n l.
Proof. intros -> Hl. unfold add_item. rewrite table_of_length by lia. by rewrite bool_decide_eq_false_2 by lia. Qed.

Lemma exit_register_spec s r :
  exit_wf s → ∃ v s', register s r = Done (v, s') ∧ exit_wf s' ∧
    at_exit s' = (if is_quick r then at_exit s else add_item (at_exit s) (item_of r)) ∧
    at_quick s' = (if is_quick r then add_item (at_quick s) (item_of r) else at_quick s) ∧
    (v = 0 ↔ (length (if is_quick r then at_quick s else at_exit s) < 64)%nat).
Proof.
  intros [H1 H2 H3 H4]. unfold at_exit, at_quick. destruct r as [f a|func|func]; cbn [register is_quick item_of]; unfold atexit, cxa_atexit, at_quick_exit, max_atexit.
  1, 2: rewrite table_of_length by lia; destruct (Z.eqb_spec (atexit_count s) 64) as [E|E];
    [eexists _, s; split; [done|]; split; [by split|]; split; [by rewrite table_of_full|]; split; [done|]; split; lia|];
    rewrite arr_set_Done by lia; eexists 0, _; split; [done|];
    split; [split; cbn; rewrite ?length_insert; lia|]; split; [cbn; by rewrite table_of_insert by lia|]; split; [done|]; split; lia.
  rewrite table_of_length by lia. destruct (Z.eqb_spec (quick_exit_count s) 64) as [E|E].
  - eexists _, s. split; [done|]. split; [by split|]. split; [done|]. split; [by rewrite table_of_full|]. split; lia.
  - rewrite arr_set_Done by lia. eexists 0, _. split; [done|]. split; [split; cbn; rewrite ?length_insert; lia|]. split; [done|].
    split; [cbn; by rewrite table_of_insert by lia|]. split; lia.
Qed.
Lemma add_item_prefix l i : l `prefix_of` add_item l i.
Proof. unfold add_item. case_bool_decide; [by apply prefix_app_r|done]. Qed.
Lemma registers_spec rs : ∀ s,
  exit_wf s → ∃ s', registers s rs = Done s' ∧ exit_wf s' ∧ at_exit s `prefix_of` at_exit s' ∧ at_quick s `prefix_of` at_quick s' ∧
    at_exit s' = foldl add_item (at_exit s) (item_of <$> filter (λ r, is_quick r = false) rs) ∧
    at_quick s' = foldl add_item (at_quick s) (item_of <$> filter (λ r, is_quick r = true) rs).
Proof.
  induction rs as [|r rs IH]; intros s W; [by exists s|]. cbn [registers].
  destruct (exit_register_spec s r W) as (v & s1 & -> & W1 & E1 & E2 & _). cbn [mbind outcome_bind].
  destruct (IH s1 W1) as (s2 & -> & W2 & P1 & P2 & F1 & F2). exists s2. split; [done|]. split; [done|]. rewrite F1, F2, E1, E2.
  rewrite E1, F1 in P1. rewrite E2, F2 in P2. destruct (is_quick r) eqn:Eq.
  - rewrite (filter_cons_False (λ r, is_quick r = false)) by congruence. rewrite (filter_cons_True (λ r, is_quick r = true)) by done.
    cbn [fmap list_fmap foldl]. rewrite E1, E2 in *. split; [done|]. split; [|done]. etrans; [apply add_item_prefix|exact P2].
  - rewrite (filter_cons_True (λ r, is_quick r = false)) by done. rewrite (filter_cons_False (λ r, is_quick r = true)) by congruence.
    cbn [fmap list_fmap foldl]. rewrite E1, E2 in *. split; [|done]. etrans; [apply add_item_prefix|exact P1].
Qed.

(** The loop runs a prefix of the table backwards, whatever the callbacks add to it. *)
Lemma callbacks_loop_spec (array : exit_state → list atexit_item) (tbl : exit_state → list atexit_item) l :
  (∀ s, tbl s `prefix_of` array s) →
  (∀ s rs s', exit_wf s → registers s rs = Done s' → tbl s `prefix_of` tbl s') →
  ∀ s, exit_wf s → l `prefix_of` tbl s →
  ∃ s', callbacks_loop array (length l) s = Done (reverse l, s').
Proof.
  intros Htbl Hgrow. induction l as [|x l IH] using rev_ind; intros s W Hl; [by eexists|].
  rewrite length_app, Nat.add_1_r. cbn [callbacks_loop].
  assert (Hx : arr_get (array s) (Z.of_nat (length l)) = Done x).
  { apply arr_get_Done. split; [lia|]. rewrite Nat2Z.id. destruct (transitivity Hl (Htbl s)) as [k ->]. rewrite <-app_assoc.
    by apply list_lookup_middle. }
  rewrite Hx. cbn [mbind outcome_bind]. destruct (registers_spec (calls x) s W) as (s1 & Hs1 & W1 & _). rewrite Hs1. cbn [mbind outcome_bind].
  destruct (IH s1 W1) as (s' & ->); [|by eexists; rewrite reverse_snoc].
  etrans; [|apply (Hgrow s (calls x) s1 W Hs1)]. etrans; [by apply prefix_app_r|exact Hl].
Qed.
End exit.

(** ** Theorems *)

(** registrations return 0 while there is room in their table and are refused with -1 after 64;
    each table holds what was registered for it, in order, and is never written past its end. *)
Theorem registration_bounded (bare : Z) (rs : list registration) (r : registration) :
  ∃ s, registers bare initial rs = Done s ∧ exit_wf s ∧
    at_exit s = take 64 (item_of bare <$> filter (λ r, is_quick r = false) rs) ∧
    at_quick s = take 64 (item_of bare <$> filter (λ r, is_quick r = true) rs) ∧
    ∃ v s', register bare s r = Done (v, s') ∧
      (v = 0 ↔ (length (if is_quick r then at_quick s else at_exit s) < 64)%nat).
Proof.
  destruct (registers_spec bare rs initial initial_wf) as (s & Hs & W & _ & _ & F1 & F2). exists s. split; [done|]. split; [done|].
  assert (Hadd : ∀ l acc, (length acc ≤ 64)%nat → foldl add_item acc l = take 64 (acc ++ l)).
  { induction l as [|x l IH]; intros acc Hacc; cbn [foldl]; [rewrite app_nil_r; by rewrite take_ge by lia|]. unfold add_item at 2. case_bool_decide as Hlt.
    - rewrite IH by (rewrite length_app; cbn; lia). by rewrite <-app_assoc.
    - rewrite IH by done. by rewrite !take_app_le by lia. }
  rewrite F1, F2. rewrite !Hadd by (vm_compute; lia). split; [done|]. split; [done|].
  destruct (exit_register_spec bare s r W) as (v & s' & Hr & _ & _ & _ & Hv). exists v, s'. split; [done|].
  rewrite F1, F2, !Hadd in Hv by (vm_compute; lia). exact Hv.
Qed.

(** [exit] runs the callbacks registered before it, the last one first and each once, whatever they
    register themselves, and ends the process with its status; [quick_exit] does so with its table. *)
Theorem exit_runs_callbacks (bare : Z) (calls : atexit_item → list registration) (rs : list registration) (status : Z) (s : exit_state) :
  registers bare initial rs = Done s →
  exit bare calls s status = Done (reverse (at_exit s), status) ∧
  quick_exit bare calls s status = Done (reverse (at_quick s), status).
Proof.
  intros Hs. destruct (registers_spec bare rs initial initial_wf) as (s0 & Hs0 & W & _). rewrite Hs in Hs0. injection Hs0 as <-.
  unfold exit, quick_exit. destruct W as [H1 H2 H3 H4] eqn:EW.
  destruct (callbacks_loop_spec bare calls atexit_array at_exit (at_exit s)) with (s := s) as [s1 E1]; [..|done|].
  { intros t. apply prefix_take. }
  { intros t rs' t' Wt Ht. destruct (registers_spec bare rs' t Wt) as (t1 & Ht1 & _ & P & _). congruence. }
  { done. }
  destruct (callbacks_loop_spec bare calls quick_exit_array at_quick (at_quick s)) with (s := s) as [s2 E2]; [..|done|].
  { intros t. apply prefix_take. }
  { intros t rs' t' Wt Ht. destruct (registers_spec bare rs' t Wt) as (t1 & Ht1 & _ & _ & P & _). congruence. }
  { done. }
  unfold at_exit, at_quick in *. rewrite !table_of_length in E1, E2 by done. by rewrite E1, E2.
Qed.

(** ** Witnesses *)

(** Two callbacks, of which the second registers a third. *)
Lemma exit_runs_callbacks_witness :
  ∃ s, registers 9 initial [AtExit 1; Cxa 2 7; AtQuickExit 3] = Done s ∧
    exit 9 (λ i, if cb i =? 2 then [AtExit 5] else []) s 4 = Done ([Item 2 7; Item 9 1], 4).
Proof.
  eexists. split; [reflexivity|]. rewrite (proj1 (exit_runs_callbacks 9 (λ i, if cb i =? 2 then [AtExit 5] else []) [AtExit 1; Cxa 2 7; AtQuickExit 3] 4 _ eq_refl)).
  vm_compute. reflexivity.
Defined.
