(* ===== verification/LineEdit.v ===== *)
(** * Line editing

    Models src/libraries/edit/line.cpp: [read] takes characters from a source, chunk by chunk, echoes
    them, removes them at a backspace and returns the line at a carriage return.  A call of the
    source's [read] gives what was not consumed of the last chunk and the next one; the chunks are the
    input of the model.  Writing past the line's buffer or the command's is [Undef].

    [read_line_correct] shows that, without escape sequences and with room for the characters, the line
    is the input with its backspaces applied, however it is cut into chunks.  [chunk_overruns_buffer]
    shows that a chunk longer than the room left is written past the buffer. *)
From S2P Require Import Prelude.

Definition ESC : Z := 0x1b.
Definition BACKSPACE : Z := 0x08.
Definition DEL : Z := 0x7f.
Definition CR : Z := 13.
Definition init_line : list Z := [0x1b; 91; 57; 57; 57; 68; 0x1b; 91; 75].
Definition backspace : list Z := [0x1b; 91; 68; 0x1b; 91; 75].

(** [parse_command], from index [i] on, with [p] characters in its buffer of 60. *)
Fixpoint parse_loop (data : list Z) (i p : Z) : outcome Z :=
  match data with
  | [] => Done 0
  | c :: data =>
      if ((48 <=? c) && (c <=? 57)) || (c =? 59) then
        if p <? 60 then parse_loop data (i + 1) (p + 1) else Undef
      else if p + 1 <? 60 then Done i else Undef
  end.
Definition parse_command (data : list Z) : outcome Z := parse_loop (drop 2 data) 2 0.

(** What the loop over a chunk ends with: a line, or how much of the chunk is consumed and the line's
    length so far. *)
Inductive chunk_result :=
  | Line (n : Z)
  | Consumed (i n : Z).
(** The state of the terminal and the line: what was written to the source, and the buffer. *)
Record line_state := LineState { out : list Z; buffer : list Z }.
Definition echo (s : line_state) (cs : list Z) : line_state := LineState (out s ++ cs) (buffer s).
Definition put_char (s : line_state) (n c : Z) : outcome line_state :=
  let* b := arr_set (buffer s) n c in Done (LineState (out s) b).

(** [while (i < inlen)], at offset [i] of a chunk of which [input] is left; [n] is [in]. *)
Fixpoint chunk_loop (fuel : nat) (s : line_state) (input : list Z) (i n : Z) : outcome (line_state * chunk_result) :=
  match fuel with
  | O => Diverge
  | S fuel =>
      match input with
      | [] => Done (s, Consumed i n)
      | c :: rest =>
          if c =? ESC then
            let* sub_len := parse_command input in
            if sub_len =? 0 then Done (s, Consumed i n)
            else chunk_loop fuel s (drop (Z.to_nat sub_len) input) (i + sub_len) n
          else if (c =? BACKSPACE) || (c =? DEL) then
            if 0 <? n then chunk_loop fuel (echo s backspace) rest (i + 1) (n - 1)
            else chunk_loop fuel s rest (i + 1) n
          else if c =? CR then
            let* s := put_char (echo s [10]) n 0 in
            Done (s, Line n)
          else
            let* s := put_char (echo s [c]) n c in
            chunk_loop fuel s rest (i + 1) (n + 1)
      end
  end.
(** [while (in < size)]; [None] when the chunks end and the call waits for more. *)
Fixpoint read_loop (s : line_state) (left : list Z) (chunks : list (list Z)) (n size : Z) : outcome (line_state * option Z) :=
  if negb (n <? size) then Done (s, Some 0)
  else
    match chunks with
    | [] => Done (s, None)
    | chunk :: chunks =>
        let input := left ++ chunk in
        let* (s, r) := chunk_loop (S (length input)) s input 0 n in
        match r with
        | Line n => Done (s, Some n)
        | Consumed i n => read_loop s (drop (Z.to_nat i) input) chunks n size
        end
    end.
Definition read (buf : list Z) (size : Z) (prompt : list Z) (chunks : list (list Z)) : outcome (line_state * option Z) :=
  read_loop (LineState (init_line ++ prompt) buf) [] chunks 0 size.

(** ** The edited line *)

(** The characters up to the carriage return with the backspaces applied, on top of a line kept
    reversed; [None] when there is no carriage return. *)
Fixpoint edited (acc : list Z) (input : list Z) : option (list Z) :=
  match input with
  | [] => None
  | c :: input =>
      if (c =? BACKSPACE) || (c =? DEL) then edited (tail acc) input
      else if c =? CR then Some (reverse acc)
      else edited (c :: acc) input
  end.
(** The line after input without a carriage return. *)
Fixpoint edit_line (acc : list Z) (input : list Z) : list Z :=
  match input with
  | [] => acc
  | c :: input => edit_line (if (c =? BACKSPACE) || (c =? DEL) then tail acc else c :: acc) input
  end.
Definition plain (input : list Z) : Prop := Forall (λ c, c ≠ ESC) input.

Lemma edited_app input input' : ∀ acc, CR ∉ input → edited acc (input ++ input') = edited (edit_line acc input) input'.
Proof.
  induction input as [|c input IH]; intros acc Hcr; [done|]. apply not_elem_of_cons in Hcr as [Hc Hcr]. cbn [app edited edit_line].
  destruct ((c =? BACKSPACE) || (c =? DEL)); [by apply IH|]. rewrite (proj2 (Z.eqb_neq c CR)) by done. by apply IH.
Qed.
Lemma edit_line_length input : ∀ acc, (length (edit_line acc input) ≤ length acc + length input)%nat.
Proof.
  induction input as [|c input IH]; intros acc; cbn [edit_line length]; [lia|].
  destruct ((c =? BACKSPACE) || (c =? DEL)).
  - specialize (IH (tail acc)). destruct acc; cbn in *; lia.
  - specialize (IH (c :: acc)). cbn in IH. lia.
Qed.

(** The buffer begins with the line. *)
Definition holds_line (s : line_state) (acc : list Z) : Prop := reverse acc `prefix_of` buffer s.

Lemma put_char_holds s acc c :
  holds_line s acc → (length acc < length (buffer s))%nat →
  ∃ s', put_char s (Z.of_nat (length acc)) c = Done s' ∧ holds_line s' (c :: acc) ∧ length (buffer s') = length (buffer s) ∧ out s' = out s.
Proof.
  intros [k Hk] Hl. unfold put_char. rewrite arr_set_Done by lia. cbn [mbind outcome_bind]. eexists. split; [done|].
  rewrite Nat2Z.id. split; [|by cbn; rewrite length_insert]. unfold holds_line. cbn [buffer]. rewrite Hk, reverse_cons in *.
  destruct k as [|x k]; [rewrite app_nil_r, length_reverse in Hl; lia|].
  exists k. rewrite <-(length_reverse acc). rewrite insert_app_r_alt by lia. by rewrite Nat.sub_diag, <-app_assoc.
Qed.
Lemma holds_tail s acc : holds_line s acc → holds_line s (tail acc).
Proof.
  intros [k Hk]. destruct acc as [|c acc]; [by exists k|]. unfold holds_line. cbn [tail]. rewrite Hk, reverse_cons, <-app_assoc. by eexists.
Qed.
Lemma holds_echo s acc cs : holds_line s acc → holds_line (echo s cs) acc.
Proof. done. Qed.

(** A chunk without escapes and with room: the rest of a line, or its end. *)
Lemma chunk_loop_spec fuel : ∀ input s acc i,
  plain input → holds_line s acc → (length acc + length input ≤ length (buffer s))%nat → (length input < fuel)%nat →
  ∃ s' r, chunk_loop fuel s input i (Z.of_nat (length acc)) = Done (s', r) ∧ length (buffer s') = length (buffer s) ∧
    match r with
    | Line n => ∃ t k, edited acc input = Some t ∧ n = Z.of_nat (length t) ∧ buffer s' = t ++ 0 :: k
    | Consumed i' n => CR ∉ input ∧ i' = i + Z.of_nat (length input) ∧ n = Z.of_nat (length (edit_line acc input)) ∧
        holds_line s' (edit_line acc input)
    end.
Proof.
  induction fuel as [|fuel IH]; intros input s acc i Hp Hh Hl Hf; [lia|]. cbn [chunk_loop]. destruct input as [|c input].
  { eexists _, _. split; [done|]. split; [done|]. split; [apply not_elem_of_nil|]. cbn. split; [lia|done]. }
  apply Forall_cons in Hp as [Hc Hp]. cbn [length] in *. rewrite (proj2 (Z.eqb_neq c ESC)) by done. cbn [edited edit_line].
  destruct ((c =? BACKSPACE) || (c =? DEL)) eqn:Eb.
  - assert (Hbcr : c ≠ CR) by (apply orb_true_iff in Eb as [->%Z.eqb_eq| ->%Z.eqb_eq]; done).
    assert (Hstep : ∀ s1, length (buffer s1) = length (buffer s) → holds_line s1 (tail acc) →
      ∃ s' r, chunk_loop fuel s1 input (i + 1) (Z.of_nat (length (tail acc))) = Done (s', r) ∧ length (buffer s') = length (buffer s) ∧
        match r with
        | Line n => ∃ t k, edited (tail acc) input = Some t ∧ n = Z.of_nat (length t) ∧ buffer s' = t ++ 0 :: k
        | Consumed i' n => CR ∉ c :: input ∧ i' = i + Z.of_nat (S (length input)) ∧ n = Z.of_nat (length (edit_line (tail acc) input)) ∧
            holds_line s' (edit_line (tail acc) input)
        end).
    { intros s1 Hs1 Hh1. destruct (IH input s1 (tail acc) (i + 1) Hp Hh1) as (s' & r & Hr & Hls & Hres);
        [rewrite Hs1; destruct acc; cbn in *; lia|lia|]. exists s', r. split; [done|]. split; [by rewrite Hls|].
      destruct r as [n|i' n]; [done|]. destruct Hres as (H1 & H2 & H3). split; [apply not_elem_of_cons; split; [congruence|done]|]. split; [lia|done]. }
    destruct acc as [|a acc]; cbn [length tail] in *; [by apply Hstep|]. rewrite (proj2 (Z.ltb_lt _ _)) by lia.
    replace (Z.of_nat (S (length acc)) - 1) with (Z.of_nat (length acc)) by lia. by apply Hstep; [|apply holds_echo, (holds_tail s (a :: acc))].
  - destruct (Z.eqb_spec c CR) as [->|Hcr].
    + destruct (put_char_holds (echo s [10]) acc 0) as (s' & -> & Hh' & Hls & _); [done|cbn; lia|]. cbn [mbind outcome_bind].
      exists s', (Line (Z.of_nat (length acc))). split; [done|]. split; [done|]. destruct Hh' as [k Hk]. rewrite reverse_cons, <-app_assoc in Hk.
      exists (reverse acc), k. split; [done|]. split; [by rewrite length_reverse|done].
    + destruct (put_char_holds (echo s [c]) acc c) as (s1 & -> & Hh1 & Hls & _); [done|cbn; lia|]. cbn [mbind outcome_bind].
      replace (Z.of_nat (length acc) + 1) with (Z.of_nat (length (c :: acc))) by (cbn; lia).
      destruct (IH input s1 (c :: acc) (i + 1) Hp Hh1) as (s' & r & Hr & Hls' & Hres); [rewrite Hls; cbn in *; lia|lia|].
      exists s', r. split; [done|]. split; [rewrite Hls', Hls; done|]. destruct r as [n|i' n]; [done|]. destruct Hres as (H1 & H2 & H3).
      split; [apply not_elem_of_cons; split; [congruence|done]|]. split; [lia|done].
Qed.

(** The steps of the loop over a chunk on an ordinary character and on an escape sequence. *)
Definition ordinary (c : Z) : Prop := c ≠ ESC ∧ c ≠ BACKSPACE ∧ c ≠ DEL ∧ c ≠ CR.
#[global] Instance ordinary_dec c : Decision (ordinary c).
Proof. unfold ordinary. apply _. Defined.
Lemma chunk_loop_char fuel s c rest i n :
  ordinary c →
  chunk_loop (S fuel) s (c :: rest) i n = (let* s := put_char (echo s [c]) n c in chunk_loop fuel s rest (i + 1) (n + 1)).
Proof.
  intros (H1 & H2 & H3 & H4). cbn [chunk_loop].
  by rewrite (proj2 (Z.eqb_neq c ESC)), (proj2 (Z.eqb_neq c BACKSPACE)), (proj2 (Z.eqb_neq c DEL)), (proj2 (Z.eqb_neq c CR)).
Qed.
Lemma chunk_loop_escape fuel s c rest i n :
  65 ≤ c ≤ 90 → chunk_loop (S fuel) s (ESC :: 91 :: c :: rest) i n = chunk_loop fuel s (c :: rest) (i + 2) n.
Proof.
  intros Hc. cbn [chunk_loop]. unfold parse_command. cbn [drop parse_loop].
  by rewrite (proj2 (Z.leb_gt c 57)), andb_false_r, (proj2 (Z.eqb_neq c 59)) by lia.
Qed.

(** ** Theorems *)

(** input without escape sequences that is shorter than the buffer gives, however it is cut into
    chunks, the line with its backspaces applied: its length is returned and its characters and a 0 are
    in the buffer.  Without a carriage return the call waits for more. *)
Theorem read_line_correct (buf prompt : list Z) (chunks : list (list Z)) :
  plain (concat chunks) → (length (concat chunks) < length buf)%nat →
  ∃ s r, read buf (Z.of_nat (length buf)) prompt chunks = Done (s, r) ∧
    match edited [] (concat chunks) with
    | Some t => r = Some (Z.of_nat (length t)) ∧ ∃ k, buffer s = t ++ 0 :: k
    | None => r = None
    end.
Proof.
  intros Hp Hl. unfold read. set (s0 := LineState (init_line ++ prompt) buf).
  assert (H : ∀ chunks s acc, plain (concat chunks) → holds_line s acc → length (buffer s) = length buf →
    (length acc + length (concat chunks) < length buf)%nat →
    ∃ s' r, read_loop s [] chunks (Z.of_nat (length acc)) (Z.of_nat (length buf)) = Done (s', r) ∧
      match edited acc (concat chunks) with
      | Some t => r = Some (Z.of_nat (length t)) ∧ ∃ k, buffer s' = t ++ 0 :: k
      | None => r = None
      end).
  { clear. induction chunks as [|chunk chunks IH]; intros s acc Hp Hh Hb Hl; cbn [read_loop concat] in *;
      rewrite (proj2 (Z.ltb_lt _ _)) by lia; cbn [negb]; [by eexists _, _|].
    apply Forall_app in Hp as [Hpc Hp]. rewrite length_app in Hl.
    destruct (chunk_loop_spec (S (length chunk)) chunk s acc 0 Hpc Hh) as (s1 & r & Hrun & Hls & Hres); [lia..|].
    cbn [app]. rewrite Hrun. cbn [mbind outcome_bind]. destruct r as [n|i n].
    - destruct Hres as (t & k & Ht & -> & Hk). eexists _, _. split; [done|].
      assert (He : edited acc (chunk ++ concat chunks) = Some t).
      { revert Ht. clear. revert acc. induction chunk as [|c chunk IH]; intros acc Ht; [done|]. cbn [app edited] in *.
        destruct ((c =? BACKSPACE) || (c =? DEL)); [by apply IH|]. destruct (c =? CR); [done|by apply IH]. }
      rewrite He. split; [done|]. by exists k.
    - destruct Hres as (Hcr & -> & -> & Hh1). rewrite Z.add_0_l, Nat2Z.id, drop_all. rewrite edited_app by done.
      pose proof (edit_line_length chunk acc). apply IH; [done|done|congruence|lia]. }
  apply (H chunks s0 []); [done| |done|cbn; lia]. exists buf. done.
Qed.

(** a chunk of plain characters longer than the buffer is written past its end: only the loop over
    chunks looks at the room left. *)
Theorem chunk_overruns_buffer (buf prompt chunk : list Z) (chunks : list (list Z)) :
  buf ≠ [] → Forall ordinary chunk → (length buf < length chunk)%nat →
  read buf (Z.of_nat (length buf)) prompt (chunk :: chunks) = Undef.
Proof.
  intros Hne Hc Hl. unfold read. cbn [read_loop]. destruct buf as [|b buf]; [done|]. cbn [length Z.of_nat Z.ltb Z.compare negb app].
  assert (H : ∀ fuel s i n, length (buffer s) = length (b :: buf) → 0 ≤ n ≤ Z.of_nat (length (buffer s)) →
    Z.of_nat (length (buffer s)) < n + Z.of_nat (length chunk) → (length chunk < fuel)%nat →
    chunk_loop fuel s chunk i n = Undef).
  { clear Hl Hne. induction Hc as [|c chunk Hord _ IH]; intros fuel s i n Hb Hn Hlt Hf; [cbn in Hlt; lia|].
    destruct fuel as [|fuel]; [lia|]. rewrite chunk_loop_char by done. cbn [length] in *.
    unfold put_char. cbn [buffer echo]. destruct (decide (n < Z.of_nat (length (buffer s)))).
    - rewrite arr_set_Done by lia. cbn [mbind outcome_bind]. apply IH; cbn [buffer]; rewrite ?length_insert; (done || lia).
    - unfold arr_set. by rewrite (proj2 (Z.ltb_ge _ _)), andb_false_r by lia. }
  rewrite H; [done|done|cbn; lia|cbn [buffer] in *; cbn; cbn in Hl; lia|lia].
Qed.
(** the last character of an escape sequence is not consumed with it and becomes part of the line:
    a cursor key enters a letter. *)
Theorem escape_enters_letter (prompt buf : list Z) (c : Z) :
  65 ≤ c ≤ 90 → (1 < length buf)%nat →
  ∃ s, read buf (Z.of_nat (length buf)) prompt [[ESC; 91; c; CR]] = Done (s, Some 1) ∧ ∃ k, buffer s = c :: 0 :: k.
Proof.
  intros Hc Hl. destruct buf as [|b [|b' buf]]; [cbn in Hl; lia..|]. unfold read. cbn [read_loop].
  rewrite (proj2 (Z.ltb_lt _ _)) by (cbn; lia). cbn [negb app length]. rewrite chunk_loop_escape by done.
  rewrite chunk_loop_char by (unfold ordinary, ESC, BACKSPACE, DEL, CR; lia). unfold put_char at 1. rewrite arr_set_Done by (cbn; lia).
  cbn [mbind outcome_bind chunk_loop CR ESC BACKSPACE DEL Z.eqb Pos.eqb orb]. unfold put_char. rewrite arr_set_Done by (cbn [buffer echo length insert list_insert Z.to_nat]; rewrite ?length_insert; cbn [length]; lia).
  eexists. split; [done|]. by exists buf.
Qed.

(** ** Witnesses *)

(** [ax] typed, the [x] removed with a backspace and replaced by [b], in two chunks. *)
Lemma read_line_correct_witness :
  ∃ s r, read (replicate 8 7) 8 [62] [[97; 120; 8]; [98; 13]] = Done (s, r) ∧ r = Some 2 ∧ ∃ k, buffer s = [97; 98] ++ 0 :: k.
Proof.
  apply (read_line_correct (replicate 8 7) [62] [[97; 120; 8]; [98; 13]]).
  - apply (proj1 (bool_decide_eq_true _)). vm_compute. reflexivity.
  - cbn. lia.
Defined.
Lemma chunk_overruns_buffer_witness : read [0; 0] 2 [] [[97; 98; 99]] = Undef.
Proof.
  apply (chunk_overruns_buffer [0; 0] [] [97; 98; 99] []); [done| |cbn; lia].
  apply (proj1 (bool_decide_eq_true _)). vm_compute. reflexivity.
Defined.
Lemma escape_enters_letter_witness :
  ∃ s, read [0; 0; 0; 0] 4 [] [[ESC; 91; 68; CR]] = Done (s, Some 1) ∧ ∃ k, buffer s = 68 :: 0 :: k.
Proof. apply (escape_enters_letter [] [0; 0; 0; 0] 68); [lia|cbn; lia]. Defined.
