(* ===== verification/Vector.v ===== *)
(** * util::vector

    Models src/libraries/util/include/util/vector.h: a growable array.  [m_elements] is a list of
    slots as long as the allocation; a slot holds [Some] of a live item, or [None] when the memory
    is raw or its item was destroyed.  Reading a slot without a live item, or any slot outside of
    the allocation, is undefined.  Counts are words of [w] bits (the template parameter [S]); the
    top bit of [m_capacity] marks a static backing array.  Allocation is taken to succeed.
    [is_vector v xs] says the vector object [v] holds the items [xs]. *)
From stdpp Require Import sorting.
From S2P Require Import Prelude Bits.

Record vector (T : Type) := Vector {
  m_size : Z;
  m_capacity : Z;
  m_elements : list (option T);
}.
Arguments Vector {T} _ _ _.
Arguments m_size {T} _.
Arguments m_capacity {T} _.
Arguments m_elements {T} _.

Section operations.
Context (w : Z) {T : Type}.
Implicit Types (v : vector T) (x : T).

Definition min_capacity : Z := 4.
(** [static_cast<S>(-1) >> 1] and its complement. *)
Definition cap_mask : Z := Z.ones (w - 1).
Definition static_flag : Z := wnot w cap_mask.

Definition capacity v : Z := Z.land (m_capacity v) cap_mask.
Definition was_static v : bool := negb (Z.land (m_capacity v) static_flag =? 0).

Definition empty_vector : vector T := Vector 0 0 [].

(** The static array constructor: [data] is the backing array. *)
Definition static_vector (data : list (option T)) (size cap : Z) : vector T :=
  Vector size (Z.lor cap static_flag) data.

(** Reading, writing and destroying the slot [i]. *)
Definition get_slot (es : list (option T)) (i : Z) : outcome T :=
  let* o := arr_get es i in deref o.
Definition at_ v (i : Z) : outcome T := get_slot (m_elements v) i.

Definition remove_last v : outcome (vector T) :=
  let* _ := kassert (negb (m_size v =? 0)) in
  let size := wrap w (m_size v - 1) in
  let* es := arr_set (m_elements v) size None in
  Done (Vector size (m_capacity v) es).

(** [while (capacity < m_size) remove();] *)
Fixpoint shrink_to (fuel : nat) (cap : Z) v : outcome (vector T) :=
  if cap <? m_size v then
    match fuel with
    | O => Diverge
    | S fuel => let* v := remove_last v in shrink_to fuel cap v
    end
  else Done v.

(** [alloc::realloc] of the default allocator: a new array of [cap] slots into which the whole old
    array is copied; more than fits is written past its end. *)
Definition realloc (es : list (option T)) (oldcap cap : Z) : outcome (list (option T)) :=
  if cap <? oldcap then Undef
  else Done (take (Z.to_nat oldcap) es ++ replicate (Z.to_nat (cap - oldcap)) None).

Definition set_capacity v (cap : Z) : outcome (vector T) :=
  let* v := shrink_to (Z.to_nat (m_size v)) cap v in
  let* es :=
    if was_static v then
      if cap <? m_size v then Undef
      else Done (take (Z.to_nat (m_size v)) (m_elements v) ++ replicate (Z.to_nat (cap - m_size v)) None)
    else realloc (m_elements v) (m_capacity v) cap in
  Done (Vector (m_size v) cap es).

Definition ensure_capacity v (size : Z) : outcome (vector T) :=
  if capacity v >=? size then Done v
  else
    let* lg := log2 size in
    let* one := shl64 1 lg in
    let cap := wrap w one in
    let cap := if cap <? min_capacity then min_capacity else cap in
    set_capacity v cap.

(** [append] and [emplace]. *)
Definition append v x : outcome (vector T) :=
  let* v := ensure_capacity v (wrap w (m_size v + 1)) in
  let* es := arr_set (m_elements v) (m_size v) (Some x) in
  Done (Vector (wrap w (m_size v + 1)) (m_capacity v) es).

(** The loop of [insert]: [n] moves, the first one into slot [j]. *)
Fixpoint shift_up (n : nat) (es : list (option T)) (j : Z) : outcome (list (option T)) :=
  match n with
  | O => Done es
  | S n =>
      let* y := get_slot es (j - 1) in
      let* es := arr_set es j (Some y) in
      shift_up n es (j - 1)
  end.

Definition insert v (i : Z) x : outcome (vector T) :=
  if i >=? m_size v then append v x
  else
    let* v := ensure_capacity v (wrap w (m_size v + 1)) in
    let* es := shift_up (Z.to_nat (m_size v - i)) (m_elements v) (m_size v) in
    let* es := arr_set es i (Some x) in
    Done (Vector (wrap w (m_size v + 1)) (m_capacity v) es).

(** The first loop of [remove_at]: destroys [n] items, or reports that it met the end. *)
Fixpoint destroy_items (n : nat) (es : list (option T)) (j size : Z) : outcome (bool * list (option T)) :=
  match n with
  | O => Done (true, es)
  | S n =>
      if j >=? size then Done (false, es)
      else let* es := arr_set es j None in destroy_items n es (j + 1) size
  end.
(** Its second loop: [n] moves by [d] slots, the first one into slot [i]. *)
Fixpoint shift_down (n : nat) (es : list (option T)) (i d : Z) : outcome (list (option T)) :=
  match n with
  | O => Done es
  | S n =>
      let* y := get_slot es (i + d) in
      let* es := arr_set es i (Some y) in
      shift_down n es (i + 1) d
  end.

(** [remove_at], for [i + n] that does not overflow [S]. *)
Definition remove_at v (i n : Z) : outcome (vector T) :=
  let* (whole, es) := destroy_items (Z.to_nat n) (m_elements v) i (m_size v) in
  if (whole : bool) then
    let last := wrap w (m_size v - n) in
    let* es := shift_down (Z.to_nat (last - i)) es i n in
    Done (Vector last (m_capacity v) es)
  else Done (Vector (m_size v) (m_capacity v) es).

Definition remove_front v : outcome (vector T) :=
  let* _ := kassert (negb (m_size v =? 0)) in remove_at v 0 1.

Definition remove_swap_at v (i : Z) : outcome (vector T) :=
  if i >=? m_size v then Done v
  else
    let* es := arr_set (m_elements v) i None in
    let* es :=
      if i <? wrap w (m_size v - 1) then
        let* y := get_slot es (wrap w (m_size v - 1)) in arr_set es i (Some y)
      else Done es in
    Done (Vector (wrap w (m_size v - 1)) (m_capacity v) es).

Definition pop v : outcome (T * vector T) :=
  let* _ := kassert (negb (m_size v =? 0)) in
  let* x := at_ v (m_size v - 1) in
  let* v := remove_last v in
  Done (x, v).

Definition pop_front v : outcome (T * vector T) :=
  let* _ := kassert (negb (m_size v =? 0)) in
  let* x := at_ v 0 in
  let* v := remove_front v in
  Done (x, v).

(** The searches of [remove(item)] and [remove_swap(item)]: the first index that holds the item. *)
Fixpoint find_item `{EqDecision T} (n : nat) (es : list (option T)) (i : Z) x : outcome (option Z) :=
  match n with
  | O => Done None
  | S n =>
      let* y := get_slot es i in
      if decide (y = x) then Done (Some i) else find_item n es (i + 1) x
  end.
Definition remove_item `{EqDecision T} v x : outcome (vector T) :=
  let* _ := kassert (negb (m_size v =? 0)) in
  let* o := find_item (Z.to_nat (m_size v)) (m_elements v) 0 x in
  match o with Some i => remove_at v i 1 | None => Done v end.
Definition remove_swap `{EqDecision T} v x : outcome (vector T) :=
  let* o := find_item (Z.to_nat (m_size v)) (m_elements v) 0 x in
  match o with Some i => remove_swap_at v i | None => Done v end.

(** [int compare(const T &other)] is a method the item type supplies. *)
Context (compare : T → T → Z).

(** The binary search of [sorted_insert]. *)
Fixpoint search (fuel : nat) (es : list (option T)) x (start end_ : Z) : outcome Z :=
  if end_ >? start then
    match fuel with
    | O => Diverge
    | S fuel =>
        let m := start + (end_ - start) / 2 in
        let* y := get_slot es m in
        if compare x y <? 0 then search fuel es x start m else search fuel es x (m + 1) end_
    end
  else Done start.
Definition sorted_insert v x : outcome (Z * vector T) :=
  let* start := search (Z.to_nat (m_size v)) (m_elements v) x 0 (m_size v) in
  let* v := insert v start x in
  Done (start, v).

End operations.

(** ** The items a vector holds *)
Section items.
Context (w : Z) {T : Type} (Hw : 4 ≤ w ≤ 64).
Implicit Types (v : vector T) (x : T) (xs ys zs : list T) (es rest : list (option T)).

Record is_vector v xs : Prop := {
  vv_size : m_size v = Z.of_nat (length xs);
  vv_items : take (length xs) (m_elements v) = Some <$> xs;
  vv_cap : Z.of_nat (length (m_elements v)) = capacity w v;
  vv_word : is_word w (m_capacity v);
}.

Lemma is_vector_split v xs :
  is_vector v xs → ∃ rest, m_elements v = (Some <$> xs) ++ rest ∧
    length rest = (length (m_elements v) - length xs)%nat ∧ (length xs ≤ length (m_elements v))%nat.
Proof.
  intros [_ Hi _ _]. exists (drop (length xs) (m_elements v)). rewrite <- Hi, take_drop, length_drop.
  split; [done|]. split; [done|]. apply (f_equal length) in Hi. rewrite length_take, length_fmap in Hi. lia.
Qed.

Lemma is_vector_make size cap xs rest :
  size = Z.of_nat (length xs) → Z.of_nat (length xs + length rest) = Z.land cap (cap_mask w) → is_word w cap →
  is_vector (Vector size cap ((Some <$> xs) ++ rest)) xs.
Proof.
  intros Hs Hc Hcw. split; simpl; [done| |by rewrite length_app, length_fmap|done].
  rewrite take_app_length' by by rewrite length_fmap. done.
Qed.

Lemma get_slot_at ys x rest i :
  i = Z.of_nat (length ys) → get_slot ((Some <$> ys) ++ Some x :: rest) i = Done x.
Proof.
  intros ->. unfold get_slot, arr_get. rewrite (proj2 (Z.leb_le _ _)), Nat2Z.id by lia.
  by rewrite list_lookup_middle by by rewrite length_fmap.
Qed.

Lemma get_slot_mid es x rest i :
  i = Z.of_nat (length es) → get_slot (es ++ Some x :: rest) i = Done x.
Proof.
  intros ->. unfold get_slot, arr_get. rewrite (proj2 (Z.leb_le _ _)), Nat2Z.id by lia.
  by rewrite list_lookup_middle.
Qed.

Lemma set_slot_mid es o o' rest i :
  i = Z.of_nat (length es) → arr_set (es ++ o :: rest) i o' = Done (es ++ o' :: rest).
Proof.
  intros ->. rewrite arr_set_Done by (rewrite length_app; simpl; lia). rewrite Nat2Z.id. f_equal.
  rewrite <- (Nat.add_0_r (length es)), insert_app_r. done.
Qed.

(** *** Capacity *)
Lemma cap_small c : 0 ≤ c < 2 ^ (w - 1) → Z.land c (cap_mask w) = c ∧ Z.land c (static_flag w) = 0.
Proof.
  intros Hc. assert (is_word w c) as Hcw.
  { split; [lia|]. assert (2 ^ (w - 1) ≤ 2 ^ w) by (apply Z.pow_le_mono_r; lia). lia. }
  unfold static_flag, cap_mask. split.
  - rewrite Z.land_ones by lia. apply Z.mod_small. lia.
  - apply word_zero_bits. intros i Hi. rewrite Z.land_spec, wnot_testbit, Z.testbit_ones_nonneg by lia.
    destruct (Z.ltb_spec i (w - 1)); [by rewrite !andb_false_r|].
    rewrite (word_testbit_high (w - 1) c) by (lia || done). done.
Qed.

Lemma not_static_cap v : is_word w (m_capacity v) → was_static w v = false → capacity w v = m_capacity v.
Proof.
  unfold was_static, capacity. intros Hc Hs. apply negb_false_iff, Z.eqb_eq in Hs.
  apply (word_ext w); [lia|apply land_word; [lia|done|unfold cap_mask; rewrite Z.ones_equiv; lia]|done|].
  intros i Hi. unfold cap_mask. rewrite Z.land_spec, Z.testbit_ones_nonneg by lia.
  destruct (Z.ltb_spec i (w - 1)); [by rewrite andb_true_r|].
  apply (f_equal (λ z, Z.testbit z i)) in Hs. unfold static_flag, cap_mask in Hs.
  rewrite Z.land_spec, wnot_testbit, Z.testbit_ones_nonneg, Z.bits_0 in Hs by lia.
  rewrite (proj2 (Z.ltb_lt i w)), (proj2 (Z.ltb_ge i (w - 1))) in Hs by lia. simpl in Hs.
  rewrite andb_true_r in Hs. by rewrite Hs.
Qed.

Lemma vec_set_capacity_spec v xs c :
  is_vector v xs → capacity w v ≤ c → 0 ≤ c < 2 ^ (w - 1) →
  ∃ v', set_capacity w v c = Done v' ∧ is_vector v' xs ∧ Z.of_nat (length (m_elements v')) = c ∧
    m_size v' = m_size v.
Proof.
  intros Hv Hc Hb. destruct (is_vector_split v xs Hv) as (rest & He & Hr & Hl).
  pose proof Hv as [Hs Hi Hcap Hcw]. unfold set_capacity.
  assert (shrink_to w (Z.to_nat (m_size v)) c v = Done v) as ->.
  { destruct (Z.to_nat (m_size v)); simpl; by rewrite (proj2 (Z.ltb_ge _ _)) by lia. }
  rewrite bind_Done. destruct (cap_small c Hb) as [Hland _].
  assert (∀ es', take (length xs) es' = Some <$> xs → Z.of_nat (length es') = c →
    is_vector (Vector (m_size v) c es') xs) as Hmk.
  { intros es' H1 H2. split; simpl; [done|done|unfold capacity; simpl; lia|].
    split; [lia|]. assert (2 ^ (w - 1) ≤ 2 ^ w) by (apply Z.pow_le_mono_r; lia). lia. }
  destruct (was_static w v) eqn:Est.
  - rewrite (proj2 (Z.ltb_ge _ _)) by lia. simpl. eexists. split; [done|].
    assert (Z.of_nat (length (take (Z.to_nat (m_size v)) (m_elements v) ++
      replicate (Z.to_nat (c - m_size v)) None)) = c) as Hlen
      by (rewrite length_app, length_take, length_replicate; lia).
    split; [|done]. apply Hmk; [|done]. rewrite Hs, Nat2Z.id, Hi.
    by rewrite take_app_length' by by rewrite length_fmap.
  - rewrite <- (not_static_cap v Hcw Est). unfold realloc. rewrite (proj2 (Z.ltb_ge _ _)) by lia. simpl.
    eexists. split; [done|].
    rewrite take_ge by lia.
    assert (Z.of_nat (length (m_elements v ++ replicate (Z.to_nat (c - capacity w v)) None)) = c) as Hlen
      by (rewrite length_app, length_replicate; lia).
    split; [|done]. apply Hmk; [|done]. rewrite take_app_le by done. done.
Qed.

Lemma ensure_capacity_spec v xs size :
  is_vector v xs → Z.of_nat (length xs) ≤ size ≤ 2 ^ (w - 2) →
  ∃ v', ensure_capacity w v size = Done v' ∧ is_vector v' xs ∧
    size ≤ Z.of_nat (length (m_elements v')).
Proof.
  intros Hv Hs. pose proof (vv_cap _ _ Hv) as Hc. unfold ensure_capacity. rewrite Z.geb_leb.
  destruct (Z.leb_spec size (capacity w v)); [exists v; split; [done|]; split; [done|lia]|].
  assert (0 ≤ capacity w v) by lia.
  assert (2 ^ (w - 2) < 2 ^ 64) by (apply Z.pow_lt_mono_r; lia).
  rewrite log2_spec by (unfold is_word; lia). rewrite bind_Done.
  assert (0 ≤ Z.log2_up size ≤ w - 2) as Hlg.
  { split; [apply Z.log2_up_nonneg|]. rewrite <- (Z.log2_up_pow2 (w - 2)) by lia. apply Z.log2_up_le_mono; lia. }
  rewrite shl64_Done, bind_Done, Z.shiftl_1_l by lia.
  assert (0 < 2 ^ Z.log2_up size ≤ 2 ^ (w - 2)) as Hp.
  { split; [lia|]. apply Z.pow_le_mono_r; lia. }
  assert (2 ^ (w - 2) < 2 ^ (w - 1) ∧ 2 ^ (w - 1) < 2 ^ w ∧ 2 ^ 2 < 2 ^ (w - 1)) as (Hp1 & Hp2 & Hp3)
    by (split; [|split]; apply Z.pow_lt_mono_r; lia).
  rewrite !wrap_small by (unfold is_word; rewrite ?wrap_small; unfold is_word; lia).
  assert (size ≤ 2 ^ Z.log2_up size) as Hge.
  { destruct (decide (size ≤ 1)); [|apply Z.log2_up_spec; lia]. lia. }
  edestruct (vec_set_capacity_spec v xs) as (v' & Hset & Hv' & Hl & _); [done| | |].
  3:{ exists v'. split; [exact Hset|]. split; [done|]. rewrite Hl. unfold min_capacity. zcases; lia. }
  - unfold min_capacity. zcases; lia.
  - unfold min_capacity. zcases; lia.
Qed.

(** *** Operations *)
Lemma vector_bound v xs rest :
  is_vector v xs → m_elements v = (Some <$> xs) ++ rest →
  Z.of_nat (length xs + length rest) = Z.land (m_capacity v) (cap_mask w) ∧ is_word w (m_capacity v).
Proof.
  intros [_ _ Hc Hcw] He. rewrite He, length_app, length_fmap in Hc. done.
Qed.

Lemma append_spec v xs x :
  is_vector v xs → Z.of_nat (length xs) + 1 ≤ 2 ^ (w - 2) →
  ∃ v', append w v x = Done v' ∧ is_vector v' (xs ++ [x]).
Proof.
  intros Hv Hb. unfold append. pose proof (vv_size _ _ Hv) as Hs.
  assert (2 ^ (w - 2) < 2 ^ w) by (apply Z.pow_lt_mono_r; lia).
  rewrite Hs, wrap_small by (unfold is_word; lia).
  destruct (ensure_capacity_spec v xs (Z.of_nat (length xs) + 1) Hv) as (v' & -> & Hv' & Hl); [lia|].
  rewrite bind_Done, (vv_size _ _ Hv'). destruct (is_vector_split v' xs Hv') as (rest & He & Hr & _).
  destruct (vector_bound v' xs rest Hv' He) as [Hc Hcw].
  destruct rest as [|o rest]; [simpl in Hr; lia|]. rewrite He, set_slot_mid by by rewrite length_fmap.
  rewrite bind_Done, wrap_small by (unfold is_word; lia). eexists. split; [done|].
  replace ((Some <$> xs) ++ Some x :: rest) with ((Some <$> (xs ++ [x])) ++ rest)
    by by rewrite fmap_app, <- app_assoc.
  apply is_vector_make; [rewrite length_app; simpl; lia| |done].
  rewrite length_app. simpl in *. lia.
Qed.

Lemma shift_up_spec ys zs o rest :
  ∃ h, shift_up (length zs) ((Some <$> ys) ++ (Some <$> zs) ++ o :: rest) (Z.of_nat (length ys + length zs))
    = Done ((Some <$> ys) ++ h :: (Some <$> zs) ++ rest).
Proof.
  revert o rest. induction zs as [|z zs IH] using rev_ind; intros o rest.
  { exists o. simpl. done. }
  rewrite length_app, Nat.add_1_r. cbn [shift_up].
  replace ((Some <$> ys) ++ (Some <$> (zs ++ [z])) ++ o :: rest) with
    (((Some <$> ys) ++ (Some <$> zs)) ++ Some z :: o :: rest)
    by by rewrite fmap_app, <- !app_assoc.
  rewrite (get_slot_mid _ z) by (rewrite length_app, !length_fmap; lia). rewrite bind_Done.
  replace (((Some <$> ys) ++ (Some <$> zs)) ++ Some z :: o :: rest) with
    (((Some <$> ys) ++ (Some <$> zs) ++ [Some z]) ++ o :: rest) by by rewrite <- !app_assoc.
  rewrite set_slot_mid by (rewrite !length_app, !length_fmap; simpl; lia). rewrite bind_Done.
  destruct (IH (Some z) (Some z :: rest)) as [h Hh]. exists h.
  replace (Z.of_nat (length ys + S (length zs)) - 1) with (Z.of_nat (length ys + length zs)) by lia.
  rewrite <- !app_assoc. cbn [app]. rewrite Hh, fmap_app, <- app_assoc. done.
Qed.

Lemma vec_insert_spec v xs i x :
  is_vector v xs → Z.of_nat (length xs) + 1 ≤ 2 ^ (w - 2) → 0 ≤ i →
  ∃ v', insert w v i x = Done v' ∧ is_vector v' (take (Z.to_nat i) xs ++ x :: drop (Z.to_nat i) xs).
Proof.
  intros Hv Hb Hi. unfold insert. pose proof (vv_size _ _ Hv) as Hs. rewrite Z.geb_leb.
  destruct (Z.leb_spec (m_size v) i).
  { rewrite take_ge, drop_ge by lia. by apply append_spec. }
  assert (2 ^ (w - 2) < 2 ^ w) by (apply Z.pow_lt_mono_r; lia).
  rewrite Hs, wrap_small by (unfold is_word; lia).
  destruct (ensure_capacity_spec v xs (Z.of_nat (length xs) + 1) Hv) as (v' & -> & Hv' & Hl); [lia|].
  rewrite bind_Done, (vv_size _ _ Hv'). destruct (is_vector_split v' xs Hv') as (rest & He & Hr & _).
  destruct (vector_bound v' xs rest Hv' He) as [Hc Hcw].
  destruct rest as [|o rest]; [simpl in Hr; lia|].
  set (ys := take (Z.to_nat i) xs) in *. set (zs := drop (Z.to_nat i) xs) in *.
  assert (xs = ys ++ zs) as Hxs by (subst ys zs; by rewrite take_drop).
  assert (length ys = Z.to_nat i) as Hly by (subst ys; rewrite length_take; lia).
  assert (length xs = length ys + length zs)%nat as Hlx by (rewrite Hxs, length_app; done).
  assert (Some <$> xs = (Some <$> ys) ++ (Some <$> zs)) as Hf by by rewrite <- fmap_app, <- Hxs.
  rewrite He, Hf, <- app_assoc.
  destruct (shift_up_spec ys zs o rest) as [h Hh].
  replace (Z.to_nat (Z.of_nat (length xs) - i)) with (length zs) by lia.
  replace (Z.of_nat (length xs)) with (Z.of_nat (length ys + length zs)) by lia. rewrite Hh, bind_Done.
  rewrite set_slot_mid by (rewrite length_fmap; lia). rewrite bind_Done, wrap_small by (unfold is_word; lia).
  eexists. split; [done|].
  replace ((Some <$> ys) ++ Some x :: (Some <$> zs) ++ rest) with ((Some <$> (ys ++ x :: zs)) ++ rest)
    by by rewrite fmap_app, <- app_assoc.
  apply is_vector_make; [rewrite length_app; simpl; lia| |done].
  rewrite length_app. simpl in *. lia.
Qed.

Lemma destroy_spec es ds rest size :
  Z.of_nat (length es + length ds) ≤ size →
  destroy_items (length ds) (es ++ (Some <$> ds) ++ rest) (Z.of_nat (length es)) size =
    Done (true, es ++ replicate (length ds) (@None T) ++ rest).
Proof.
  revert es. induction ds as [|d ds IH]; intros es Hs; [done|]. cbn [length destroy_items fmap list_fmap app].
  rewrite Z.geb_leb, (proj2 (Z.leb_gt _ _)) by (simpl in Hs; lia).
  rewrite set_slot_mid by done. rewrite bind_Done.
  specialize (IH (es ++ [None])). rewrite length_app in IH. simpl in IH, Hs.
  replace (Z.of_nat (length es) + 1) with (Z.of_nat (length es + 1)) by lia.
  rewrite <- !app_assoc in IH. cbn [app] in IH. rewrite IH by lia. done.
Qed.

Lemma shift_down_spec es hs zs rest :
  hs ≠ [] →
  ∃ hs', shift_down (length zs) (es ++ hs ++ (Some <$> zs) ++ rest) (Z.of_nat (length es)) (Z.of_nat (length hs))
    = Done (es ++ (Some <$> zs) ++ hs' ++ rest) ∧ length hs' = length hs.
Proof.
  revert es hs. induction zs as [|z zs IH]; intros es hs Hh; [by exists hs|].
  cbn [length shift_down fmap list_fmap app].
  rewrite app_assoc, (get_slot_mid (es ++ hs) z) by (rewrite length_app; lia). rewrite bind_Done.
  destruct hs as [|h hs]; [done|]. rewrite <- app_assoc. cbn [app]. rewrite set_slot_mid by done.
  rewrite bind_Done.
  destruct (IH (es ++ [Some z]) (hs ++ [Some z])) as (hs' & Hr & Hl); [by destruct hs|].
  rewrite !length_app in Hr. rewrite !length_app in Hl. simpl in Hl, Hr.
  exists hs'. split; [|simpl; lia].
  replace (Z.of_nat (length es) + 1) with (Z.of_nat (length es + 1)) by lia.
  replace (Z.of_nat (length (h :: hs))) with (Z.of_nat (length hs + 1)) by (simpl; lia).
  rewrite <- !app_assoc in Hr. cbn [app] in Hr. rewrite Hr. done.
Qed.

Lemma remove_at_spec v ys ds zs :
  is_vector v (ys ++ ds ++ zs) → ds ≠ [] →
  ∃ v', remove_at w v (Z.of_nat (length ys)) (Z.of_nat (length ds)) = Done v' ∧ is_vector v' (ys ++ zs).
Proof.
  intros Hv Hd. pose proof Hv as [Hs Hi Hc Hcw]. destruct (is_vector_split _ _ Hv) as (rest & He & Hr & Hl).
  unfold remove_at. rewrite Nat2Z.id, He, !fmap_app, <- !app_assoc. rewrite !length_app in *.
  pose proof (destroy_spec (Some <$> ys) ds ((Some <$> zs) ++ rest) (m_size v)) as Hds.
  rewrite length_fmap in Hds. rewrite Hds by lia. clear Hds.
  rewrite bind_Done.
  assert (Z.of_nat (length (m_elements v)) < 2 ^ w) as Hle.
  { rewrite Hc. unfold capacity. assert (is_word w (Z.land (m_capacity v) (cap_mask w))) as [_ ?]; [|done].
    apply land_word; [lia|done|]. unfold cap_mask. rewrite Z.ones_equiv. lia. }
  rewrite wrap_small by (unfold is_word; lia).
  replace (Z.to_nat (m_size v - Z.of_nat (length ds) - Z.of_nat (length ys))) with (length zs) by lia.
  destruct (shift_down_spec (Some <$> ys) (replicate (length ds) None) zs rest) as (hs' & Hsh & Hlh).
  { destruct ds; [done|by simpl]. }
  rewrite length_fmap, length_replicate in *. rewrite Hsh, bind_Done. eexists. split; [done|].
  rewrite app_assoc, <- fmap_app. apply is_vector_make; [rewrite length_app; lia| |done].
  rewrite He, length_app, length_fmap, !length_app in Hc. unfold capacity in Hc. rewrite <- Hc, !length_app. lia.
Qed.

Lemma vector_size_word v xs : is_vector v xs → Z.of_nat (length xs) < 2 ^ w.
Proof.
  intros Hv. destruct (is_vector_split v xs Hv) as (rest & _ & _ & Hl). pose proof Hv as [_ _ Hc Hcw].
  assert (is_word w (capacity w v)) as [_ ?]; [|lia].
  apply land_word; [lia|done|]. unfold cap_mask. rewrite Z.ones_equiv. lia.
Qed.

Lemma remove_last_spec v xs x :
  is_vector v (xs ++ [x]) → ∃ v', remove_last w v = Done v' ∧ is_vector v' xs.
Proof.
  intros Hv. pose proof (vector_size_word _ _ Hv) as Hlt. pose proof Hv as [Hs Hi Hc Hcw].
  destruct (is_vector_split _ _ Hv) as (rest & He & Hr & Hl). unfold remove_last. rewrite length_app in *. simpl in *.
  rewrite (proj2 (Z.eqb_neq _ _)) by lia. simpl. rewrite wrap_small by (unfold is_word; lia).
  rewrite He, fmap_app, <- app_assoc. simpl. rewrite set_slot_mid by (rewrite length_fmap; lia). simpl.
  eexists. split; [done|]. apply is_vector_make; [lia| |done].
  rewrite He, length_app, length_fmap, length_app in Hc. unfold capacity in Hc. simpl in *. lia.
Qed.

Lemma at_spec v xs i x : is_vector v xs → xs !! i = Some x → at_ v (Z.of_nat i) = Done x.
Proof.
  intros Hv Hx. destruct (is_vector_split v xs Hv) as (rest & He & _). unfold at_, get_slot, arr_get.
  rewrite (proj2 (Z.leb_le _ _)), Nat2Z.id, He by lia.
  rewrite lookup_app_l by (rewrite length_fmap; by eapply lookup_lt_Some).
  by rewrite list_lookup_fmap, Hx.
Qed.

Lemma pop_spec v xs x : is_vector v (xs ++ [x]) → ∃ v', pop w v = Done (x, v') ∧ is_vector v' xs.
Proof.
  intros Hv. pose proof (vv_size _ _ Hv) as Hs. rewrite length_app in Hs. simpl in Hs. unfold pop.
  rewrite (proj2 (Z.eqb_neq _ _)) by lia. cbn [negb kassert]. rewrite bind_Done.
  replace (m_size v - 1) with (Z.of_nat (length xs)) by lia.
  rewrite (at_spec v (xs ++ [x]) _ x) by (done || by apply list_lookup_middle). rewrite bind_Done.
  destruct (remove_last_spec v xs x Hv) as (v' & -> & Hv'). by exists v'.
Qed.

Lemma vec_pop_front_spec v xs x : is_vector v (x :: xs) → ∃ v', pop_front w v = Done (x, v') ∧ is_vector v' xs.
Proof.
  intros Hv. pose proof (vv_size _ _ Hv) as Hs. simpl in Hs. unfold pop_front, remove_front.
  rewrite (proj2 (Z.eqb_neq _ _)) by lia. cbn [negb kassert]. rewrite bind_Done.
  rewrite (at_spec v (x :: xs) 0 x : _ → _ → at_ v 0 = _) by done. rewrite !bind_Done.
  destruct (remove_at_spec v [] [x] xs Hv) as (v' & E & Hv'); [done|]. change (remove_at w v 0 1 = Done v') in E. rewrite E. by exists v'.
Qed.

Lemma remove_swap_at_spec v xs i :
  is_vector v xs → 0 ≤ i →
  ∃ v' xs', remove_swap_at w v i = Done v' ∧ is_vector v' xs' ∧
    match xs !! Z.to_nat i with Some x => Permutation (x :: xs') xs | None => xs' = xs end.
Proof.
  intros Hv Hi. pose proof (vector_size_word _ _ Hv) as Hlt. pose proof Hv as [Hs _ Hc Hcw].
  destruct (is_vector_split v xs Hv) as (rest & He & Hr & Hl). unfold remove_swap_at. rewrite Z.geb_leb.
  destruct (Z.leb_spec (m_size v) i).
  { exists v, xs. rewrite lookup_ge_None_2 by lia. done. }
  destruct (lookup_lt_is_Some_2 xs (Z.to_nat i)) as [x Hx]; [lia|]. rewrite Hx.
  apply list_elem_of_split_length in Hx as (ys & zs & -> & Hy). rewrite length_app in *. cbn [length] in *.
  rewrite wrap_small by (unfold is_word; lia). rewrite He, fmap_app, <- app_assoc. cbn [fmap list_fmap app].
  rewrite set_slot_mid by (rewrite length_fmap; lia). rewrite bind_Done.
  destruct zs as [|z zs _] using rev_ind.
  - rewrite (proj2 (Z.ltb_ge _ _)) by (simpl in *; lia). rewrite bind_Done. eexists _, ys. split; [done|].
    simpl in *. split; [|apply Permutation_cons_append].
    apply is_vector_make; [lia| |done].
    rewrite He, length_app, length_fmap, length_app in Hc. unfold capacity in Hc. simpl in *. lia.
  - rewrite length_app in *. cbn [length] in *. rewrite (proj2 (Z.ltb_lt _ _)) by lia.
    assert ((Some <$> ys) ++ None :: (Some <$> (zs ++ [z])) ++ rest
      = ((Some <$> ys) ++ None :: (Some <$> zs)) ++ Some z :: rest) as ->
      by (rewrite fmap_app, <- !app_assoc; done).
    rewrite get_slot_mid by (rewrite length_app; simpl; rewrite !length_fmap; lia). rewrite bind_Done.
    rewrite <- app_assoc. cbn [app]. rewrite set_slot_mid by (rewrite length_fmap; lia). rewrite bind_Done.
    eexists _, (ys ++ z :: zs). split; [done|]. split.
    + replace ((Some <$> ys) ++ Some z :: (Some <$> zs) ++ Some z :: rest) with
        ((Some <$> (ys ++ z :: zs)) ++ Some z :: rest) by (rewrite fmap_app, <- app_assoc; done).
      apply is_vector_make; [rewrite length_app; simpl; lia| |done].
      rewrite He, length_app, length_fmap, length_app in Hc. unfold capacity in Hc. simpl in *.
      rewrite !length_app in *. simpl in *. lia.
    + etrans; [apply Permutation_middle|].
      apply Permutation_app_head, perm_skip, Permutation_cons_append.
Qed.

(** *** The binary search of sorted_insert *)
Lemma search_spec (compare : T → T → Z) v xs x fuel start end_ :
  is_vector v xs →
  (∀ i j a b, (i < j)%nat → xs !! i = Some a → xs !! j = Some b → compare x a < 0 → compare x b < 0) →
  0 ≤ start ≤ end_ → end_ ≤ Z.of_nat (length xs) → end_ - start ≤ Z.of_nat fuel →
  (∀ i a, xs !! i = Some a → Z.of_nat i < start → 0 ≤ compare x a) →
  (∀ i a, xs !! i = Some a → end_ ≤ Z.of_nat i → compare x a < 0) →
  ∃ p, search compare fuel (m_elements v) x start end_ = Done p ∧ 0 ≤ p ≤ Z.of_nat (length xs) ∧
    (∀ i a, xs !! i = Some a → Z.of_nat i < p → 0 ≤ compare x a) ∧
    (∀ i a, xs !! i = Some a → p ≤ Z.of_nat i → compare x a < 0).
Proof.
  intros Hv Hmono. revert start end_. induction fuel as [|fuel IH]; intros start end_ Hse He Hf Hlo Hhi; simpl.
  { rewrite Z.gtb_ltb, (proj2 (Z.ltb_ge _ _)) by lia. exists start. split; [done|]. split; [lia|].
    split; [done|]. intros i a Ha Hi. apply (Hhi i a Ha). lia. }
  rewrite Z.gtb_ltb. destruct (Z.ltb_spec start end_).
  2:{ exists start. split; [done|]. split; [lia|]. split; [done|]. intros i a Ha Hi. apply (Hhi i a Ha). lia. }
  set (m := start + (end_ - start) / 2).
  assert (start ≤ m < end_) as Hm.
  { unfold m. pose proof (Z.div_pos (end_ - start) 2). pose proof (Z.div_lt (end_ - start) 2). lia. }
  destruct (lookup_lt_is_Some_2 xs (Z.to_nat m)) as [y Hy]; [lia|].
  pose proof (at_spec v xs (Z.to_nat m) y Hv Hy) as Hat. rewrite Z2Nat.id in Hat by lia.
  unfold at_ in Hat. rewrite Hat, bind_Done. destruct (Z.ltb_spec (compare x y) 0).
  - apply IH; [lia|lia|lia|done|]. intros i a Ha Hi.
    destruct (decide (i = Z.to_nat m)) as [->|]; [congruence|].
    apply (Hmono (Z.to_nat m) i y a); [lia|done|done|done].
  - apply IH; [lia|lia|lia| |done]. intros i a Ha Hi.
    destruct (decide (i = Z.to_nat m)) as [->|]; [congruence|].
    destruct (Z.lt_ge_cases (compare x a) 0) as [Hlt|]; [|done].
    assert (compare x y < 0); [|lia]. apply (Hmono i (Z.to_nat m) a y); [lia|done|done|done].
Qed.

(** ** Operation sequences *)
Inductive vec_op :=
  | VAppend (x : T)
  | VInsert (i : nat) (x : T)
  | VRemoveAt (i n : nat)
  | VPop
  | VPopFront.

Definition vec_run1 v (op : vec_op) : outcome (list T * vector T) :=
  match op with
  | VAppend x => let* v := append w v x in Done ([], v)
  | VInsert i x => let* v := insert w v (Z.of_nat i) x in Done ([], v)
  | VRemoveAt i n => let* v := remove_at w v (Z.of_nat i) (Z.of_nat n) in Done ([], v)
  | VPop => let* (x, v) := pop w v in Done ([x], v)
  | VPopFront => let* (x, v) := pop_front w v in Done ([x], v)
  end.
Fixpoint vec_run v (ops : list vec_op) : outcome (list T * vector T) :=
  match ops with
  | [] => Done ([], v)
  | op :: ops => let* (r, v) := vec_run1 v op in let* (rs, v) := vec_run v ops in Done (r ++ rs, v)
  end.

(** The same operations on a list.  Popping from an empty vector fails its assertion; removing a
    range that is empty or reaches past the end breaks [remove_at]'s contract ([Undef]). *)
Definition seq_run1 xs (op : vec_op) : outcome (list T * list T) :=
  match op with
  | VAppend x => Done ([], xs ++ [x])
  | VInsert i x => Done ([], take i xs ++ x :: drop i xs)
  | VRemoveAt i n =>
      if decide (0 < n ∧ i + n ≤ length xs)%nat then Done ([], take i xs ++ drop (i + n) xs) else Undef
  | VPop => match last xs with Some x => Done ([x], removelast xs) | None => Panic end
  | VPopFront => match xs with x :: xs => Done ([x], xs) | [] => Panic end
  end.
Fixpoint seq_run xs (ops : list vec_op) : outcome (list T * list T) :=
  match ops with
  | [] => Done ([], xs)
  | op :: ops => let* (r, xs) := seq_run1 xs op in let* (rs, xs) := seq_run xs ops in Done (r ++ rs, xs)
  end.

Lemma vec_run1_spec v xs op r xs' :
  is_vector v xs → Z.of_nat (length xs) + 1 ≤ 2 ^ (w - 2) → seq_run1 xs op = Done (r, xs') →
  (∃ v', vec_run1 v op = Done (r, v') ∧ is_vector v' xs') ∧ (length xs' ≤ length xs + 1)%nat.
Proof.
  intros Hv Hb Hop. destruct op as [x|i x|i n| |]; cbn [seq_run1 vec_run1] in *.
  - simplify_eq. split; [|rewrite length_app; simpl; lia].
    destruct (append_spec v xs x Hv Hb) as (v' & -> & ?). by exists v'.
  - simplify_eq. split; [|rewrite length_app, length_take; simpl; rewrite length_drop; lia].
    destruct (vec_insert_spec v xs (Z.of_nat i) x Hv Hb) as (v' & -> & Hv'); [lia|].
    rewrite Nat2Z.id in Hv'. by exists v'.
  - case_decide as Hd; simplify_eq. split; [|rewrite length_app, length_take, length_drop; lia].
    assert (xs = take i xs ++ take n (drop i xs) ++ drop (i + n) xs) as Hxs
      by (rewrite <- drop_drop, take_drop, take_drop; done).
    assert (length (take i xs) = i) as H1 by (rewrite length_take; lia).
    assert (length (take n (drop i xs)) = n) as H2 by (rewrite length_take, length_drop; lia).
    rewrite Hxs in Hv. destruct (remove_at_spec v _ _ _ Hv) as (v' & E & Hv').
    { intros Hn. apply (f_equal length) in Hn. rewrite H2 in Hn. simpl in Hn. lia. }
    rewrite H1, H2 in E. rewrite E. by exists v'.
  - destruct xs as [|x xs _] using rev_ind; [done|]. rewrite last_snoc, removelast_last in Hop. simplify_eq.
    split; [|rewrite length_app; lia]. destruct (pop_spec v xs' x Hv) as (v' & -> & ?). by exists v'.
  - destruct xs as [|x xs]; simplify_eq. split; [|simpl; lia].
    destruct (vec_pop_front_spec v xs' x Hv) as (v' & -> & ?). by exists v'.
Qed.

Lemma empty_vector_spec : is_vector empty_vector [].
Proof. split; simpl; try done; unfold is_word; lia. Qed.

(** ** Properties *)

(** a vector refines the list of its items.  Every sequence of appends, inserts, removals and
    pops that stays in contract runs without undefined behaviour: the array grows before it is
    written past its capacity, the moves of [insert] and [remove_at] read live items only, items
    keep their order, and the pops return what the list operations return.  This holds for static
    backing arrays too, and up to the 2^(w-2) items the capacity field can describe. *)
Theorem vec_run_refines v xs ops rs xs' :
  is_vector v xs → Z.of_nat (length xs) + Z.of_nat (length ops) ≤ 2 ^ (w - 2) →
  seq_run xs ops = Done (rs, xs') →
  ∃ v', vec_run v ops = Done (rs, v') ∧ is_vector v' xs'.
Proof.
  revert v xs rs. induction ops as [|op ops IH]; intros v xs rs Hv Hb Hs; cbn [seq_run vec_run length] in *.
  { simplify_eq. by exists v. }
  apply bind_Done_inv in Hs as ([r xs1] & H1 & H2). apply bind_Done_inv in H2 as ([rs1 xs2] & H2 & H3).
  simplify_eq. destruct (vec_run1_spec v xs op r xs1 Hv ltac:(lia) H1) as [(v1 & -> & Hv1) Hl].
  rewrite bind_Done. destruct (IH v1 xs1 rs1 Hv1 ltac:(lia) H2) as (v' & -> & Hv'). by exists v'.
Qed.

Lemma strongly_sorted_lookup (R : T → T → Prop) xs i j a b :
  StronglySorted R xs → (i < j)%nat → xs !! i = Some a → xs !! j = Some b → R a b.
Proof.
  intros Hs Hij Ha Hb. apply list_elem_of_split_length in Ha as (ys & zs & -> & ->).
  rewrite lookup_app_r in Hb by lia.
  replace (j - length ys)%nat with (S (j - length ys - 1))%nat in Hb by lia. simpl in Hb.
  apply StronglySorted_app_1_r, StronglySorted_cons in Hs as [Hs _].
  rewrite Forall_forall in Hs. apply Hs. by eapply list_elem_of_lookup_2.
Qed.

Lemma insert_sorted_at (R : T → T → Prop) xs x p :
  StronglySorted R xs →
  (∀ i a, xs !! i = Some a → (i < p)%nat → R a x) → (∀ i a, xs !! i = Some a → (p ≤ i)%nat → R x a) →
  StronglySorted R (take p xs ++ x :: drop p xs).
Proof.
  intros Hs Hlo Hhi. rewrite <- (take_drop p xs) in Hs. apply StronglySorted_app in Hs as (Hx & H1 & H2).
  assert (∀ a, a ∈ take p xs → R a x) as Hlo'.
  { intros a [i Hi]%list_elem_of_lookup_1. apply lookup_take_Some in Hi as [Hi Hp]. by eapply Hlo. }
  assert (∀ a, a ∈ drop p xs → R x a) as Hhi'.
  { intros a [i Hi]%list_elem_of_lookup_1. rewrite lookup_drop in Hi. eapply Hhi; [done|lia]. }
  apply StronglySorted_app_2; [|done|].
  - intros a b Ha [->|Hb]%elem_of_cons; [by apply Hlo'|]. by apply Hx.
  - apply StronglySorted_cons. split; [|done]. apply Forall_forall. intros. by apply Hhi'.
Qed.

(** [sorted_insert] finds its place by a binary search that terminates, behind every item that
    does not exceed the new one, and keeps a sorted vector sorted (for a [compare] that is a total
    preorder). *)
Theorem sorted_insert_sorted (compare : T → T → Z) v xs x :
  (∀ a b, compare a b < 0 ↔ 0 < compare b a) →
  (∀ a b c, compare a b ≤ 0 → compare b c ≤ 0 → compare a c ≤ 0) →
  is_vector v xs → Z.of_nat (length xs) + 1 ≤ 2 ^ (w - 2) →
  StronglySorted (λ a b, compare a b ≤ 0) xs →
  ∃ p v' xs', sorted_insert w compare v x = Done (p, v') ∧ is_vector v' xs' ∧
    xs' = take (Z.to_nat p) xs ++ x :: drop (Z.to_nat p) xs ∧
    StronglySorted (λ a b, compare a b ≤ 0) xs' ∧
    (∀ i a, xs !! i = Some a → Z.of_nat i < p ↔ 0 ≤ compare x a).
Proof.
  intros Hanti Htrans Hv Hb Hsort.
  assert (∀ a b, 0 ≤ compare a b → compare b a ≤ 0) as Hflip.
  { intros a b Hab. destruct (Z.lt_ge_cases 0 (compare b a)) as [Hp|]; [|done]. apply Hanti in Hp. lia. }
  assert (∀ a b, compare x a < 0 → compare a b ≤ 0 → compare x b < 0) as Hlt.
  { intros a b Ha Hab. destruct (Z.lt_ge_cases (compare x b) 0) as [|Hge]; [done|exfalso].
    apply Hflip in Hge. assert (compare a x ≤ 0) by by eapply Htrans. apply Hanti in Ha. lia. }
  unfold sorted_insert. rewrite (vv_size _ _ Hv), Nat2Z.id.
  destruct (search_spec compare v xs x (length xs) 0 (Z.of_nat (length xs)) Hv) as (p & -> & Hp & Hlo & Hhi);
    [|lia..| |].
  { intros i j a b Hlt' Ha Hb' Hc. apply (Hlt a b Hc). by eapply strongly_sorted_lookup in Hsort. }
  { intros i a Ha Hi. apply lookup_lt_Some in Ha. lia. }
  rewrite bind_Done. destruct (vec_insert_spec v xs p x Hv Hb) as (v' & -> & Hv'); [lia|]. rewrite bind_Done.
  eexists p, v', _. split; [done|]. split; [done|]. split; [done|]. split.
  - apply insert_sorted_at; [done| |].
    + intros i a Ha Hi. apply Hflip, (Hlo i a Ha). lia.
    + intros i a Ha Hi. assert (compare x a < 0) by (apply (Hhi i a Ha); lia). lia.
  - intros i a Ha. split; [by apply Hlo|]. intros Hc. destruct (Z.lt_ge_cases (Z.of_nat i) p) as [|Hge]; [done|].
    apply (Hhi i a Ha) in Hge. lia.
Qed.

(** [remove_at] with a range that reaches past the end destroys the items it still finds and
    returns without removing them: the size is unchanged, and the last items of the vector are dead. *)
Theorem remove_at_past_end v ys ds n :
  is_vector v (ys ++ ds) → ds ≠ [] → Z.of_nat (length ds) < n →
  ∃ v', remove_at w v (Z.of_nat (length ys)) n = Done v' ∧ m_size v' = m_size v ∧
    (∀ i, (length ys ≤ i < length ys + length ds)%nat → at_ v' (Z.of_nat i) = Undef).
Proof.
  intros Hv Hd Hn. pose proof (vv_size _ _ Hv) as Hs. destruct (is_vector_split _ _ Hv) as (rest & He & _).
  unfold remove_at.
  assert (∀ ds es k, (length ds < k)%nat → Z.of_nat (length es + length ds) = m_size v →
    destroy_items k (es ++ (Some <$> ds) ++ rest) (Z.of_nat (length es)) (m_size v)
      = Done (false, es ++ replicate (length ds) (@None T) ++ rest)) as Hdes.
  { clear. induction ds as [|d ds IH]; intros es k Hk Hz; (destruct k as [|k]; [simpl in Hk; lia|]); cbn [destroy_items].
    - rewrite Z.geb_leb, (proj2 (Z.leb_le _ _)) by (simpl in Hz; lia). done.
    - rewrite Z.geb_leb, (proj2 (Z.leb_gt _ _)) by (simpl in Hz; lia). cbn [fmap list_fmap app].
      rewrite set_slot_mid by done. rewrite bind_Done. specialize (IH (es ++ [None]) k).
      rewrite length_app in IH. simpl in IH, Hz, Hk. rewrite <- !app_assoc in IH. cbn [app] in IH.
      replace (Z.of_nat (length es) + 1) with (Z.of_nat (length es + 1)) by lia. rewrite IH by lia. done. }
  specialize (Hdes ds (Some <$> ys) (Z.to_nat n)). rewrite length_fmap in Hdes.
  rewrite length_app in Hs. rewrite He, fmap_app, <- app_assoc, Hdes by lia. rewrite bind_Done.
  eexists. split; [done|]. split; [done|]. intros i Hi. unfold at_, get_slot, arr_get. simpl.
  rewrite (proj2 (Z.leb_le _ _)), Nat2Z.id by lia.
  rewrite lookup_app_r by (rewrite length_fmap; lia). rewrite length_fmap.
  rewrite lookup_app_l by (rewrite length_replicate; lia). by rewrite lookup_replicate_2 by lia.
Qed.

(** Shrinking the capacity of a heap-backed vector copies the whole old array into the smaller new
    one: a write past its end. *)
Lemma set_capacity_shrink_undefined v xs c :
  is_vector v xs → was_static w v = false → Z.of_nat (length xs) ≤ c < m_capacity v →
  set_capacity w v c = Undef.
Proof.
  intros Hv Hst Hc. unfold set_capacity.
  assert (shrink_to w (Z.to_nat (m_size v)) c v = Done v) as ->.
  { pose proof (vv_size _ _ Hv). destruct (Z.to_nat (m_size v)); simpl; by rewrite (proj2 (Z.ltb_ge _ _)) by lia. }
  rewrite bind_Done, Hst. unfold realloc. by rewrite (proj2 (Z.ltb_lt _ _)) by lia.
Qed.
End items.

(** *** Instances *)
Lemma w32 : 4 ≤ 32 ≤ 64. Proof. lia. Qed.

Lemma vec_run_refines_witness :
  ∃ v', vec_run 32 empty_vector [VAppend 1; VAppend 2; VInsert 1 3; VAppend 4; VAppend 5; VRemoveAt 0 2; VPop]
    = Done ([5], v') ∧ is_vector 32 v' [2; 4].
Proof.
  apply (vec_run_refines 32 w32 empty_vector []
    [VAppend 1; VAppend 2; VInsert 1 3; VAppend 4; VAppend 5; VRemoveAt 0 2; VPop] [5] [2; 4]).
  - apply empty_vector_spec, w32.
  - simpl. lia.
  - reflexivity.
Defined.

Definition vector_1_5 : vector Z := Vector 2 4 [Some 1; Some 5; None; None].
Lemma vector_1_5_spec : is_vector 32 vector_1_5 [1; 5].
Proof. split; try reflexivity. unfold is_word. simpl. lia. Qed.

Lemma sorted_insert_sorted_witness :
  ∃ p v' xs', sorted_insert 32 Z.sub vector_1_5 3 = Done (p, v') ∧ is_vector 32 v' xs' ∧
    StronglySorted (λ a b, a - b ≤ 0) xs'.
Proof.
  destruct (sorted_insert_sorted 32 w32 Z.sub vector_1_5 [1; 5] 3) as (p & v' & xs' & H1 & H2 & _ & H3 & _).
  - lia.
  - lia.
  - apply vector_1_5_spec.
  - simpl. lia.
  - repeat constructor. lia.
  - exists p, v', xs'. exact (conj H1 (conj H2 H3)).
Defined.

Lemma remove_at_past_end_witness :
  ∃ v', remove_at 32 vector_1_5 1 2 = Done v' ∧ m_size v' = 2 ∧ at_ v' 1 = Undef.
Proof.
  destruct (remove_at_past_end 32 vector_1_5 [1] [5] 2) as (v' & H1 & H2 & H3).
  - apply vector_1_5_spec.
  - discriminate.
  - simpl. lia.
  - exists v'. split; [exact H1|]. split; [exact H2|]. apply (H3 1%nat). simpl. lia.
Defined.
