(* ===== verification/RobinHood.v ===== *)
(** * Open addressing with Robin Hood displacement

    The core shared by util::base_map (map.h) and util::node_map (node_map.h): a table of
    [capacity] slots, a power of two, in which an entry sits at its hash's home slot or after it,
    its probe sequence length (PSL) being the distance.  [rh_ok] is the invariant both classes keep:
    an entry away from home follows an entry that is at least as far from its own home, less one.
    This file has the loops of map.h ([insert_node], and the backward shift of [erase]) on tables of
    an arbitrary entry type, and the lemmas on probing that both maps use. *)
From S2P Require Import Prelude.

Section table.
Context {E : Type} (hash : E → Z).
Implicit Types (tbl : list (option E)) (e : E).

(** [mod] and [offset] ([psl]) of the classes. *)
Definition mod_ (capacity i : Z) : Z := Z.land i (capacity - 1).
Definition offset (capacity h i : Z) : Z := mod_ capacity (u64 (i + capacity - mod_ capacity h)).

(** The loop of [base_map::insert_node]. *)
Fixpoint rh_insert (fuel : nat) (capacity : Z) tbl e (i dist : Z) : outcome (list (option E)) :=
  match fuel with
  | O => Diverge
  | S fuel =>
      let* elem := arr_get tbl i in
      match elem with
      | None => arr_set tbl i (Some e)
      | Some elem =>
          let elem_dist := offset capacity (hash elem) i in
          if elem_dist <? dist then
            let* tbl := arr_set tbl i (Some e) in
            rh_insert fuel capacity tbl elem (mod_ capacity (i + 1)) (elem_dist + 1)
          else rh_insert fuel capacity tbl e (mod_ capacity (i + 1)) (dist + 1)
      end
  end.

(** The backward shift of [base_map::erase]: the slot [i] was vacated. *)
Fixpoint rh_shift (fuel : nat) (capacity : Z) tbl (i : Z) : outcome (list (option E)) :=
  match fuel with
  | O => Diverge
  | S fuel =>
      let next := mod_ capacity (i + 1) in
      let* m := arr_get tbl next in
      match m with
      | None => Done tbl
      | Some m =>
          if mod_ capacity (hash m) =? next then Done tbl
          else
            let* tbl := arr_set tbl i (Some m) in
            let* tbl := arr_set tbl next None in
            rh_shift fuel capacity tbl next
      end
  end.

(** ** Cyclic tables *)
Context (C : Z) (HC : ∃ k, 0 ≤ k ≤ 62 ∧ C = 2 ^ k).

Lemma capacity_bounds : 0 < C ≤ 2 ^ 62.
Proof. destruct HC as (k & Hk & ->). split; [lia|]. apply Z.pow_le_mono_r; lia. Qed.

Lemma mod_spec i : mod_ C i = i mod C.
Proof.
  destruct HC as (k & Hk & ->). unfold mod_.
  replace (2 ^ k - 1) with (Z.ones k) by (rewrite Z.ones_equiv; lia). by rewrite Z.land_ones by lia.
Qed.

Lemma offset_spec h i : 0 ≤ i < C → offset C h i = (i - h) mod C.
Proof.
  intros Hi. pose proof capacity_bounds. unfold offset. rewrite !mod_spec.
  pose proof (Z.mod_pos_bound h C). rewrite wrap_small by (unfold is_word; lia).
  rewrite <- (Z.mod_add (i - h) (1 + h / C)) by lia. f_equal. rewrite (Z.div_mod h C) at 2 by lia. lia.
Qed.

(** The slot of a position of the ring, and the PSL of an entry there. *)
Definition cell tbl (i : Z) : option E :=
  match tbl !! Z.to_nat (i mod C) with Some o => o | None => None end.
Definition psl e (i : Z) : Z := (i - hash e) mod C.

Definition rh_ok tbl : Prop :=
  ∀ i e, cell tbl (i + 1) = Some e → 0 < psl e (i + 1) →
    ∃ e', cell tbl i = Some e' ∧ psl e (i + 1) - 1 ≤ psl e' i.

Definition entries tbl : list E := omap id tbl.

Lemma psl_bound e i : 0 ≤ psl e i < C.
Proof. pose proof capacity_bounds. apply Z.mod_pos_bound. lia. Qed.

Lemma psl_mod e i j : i mod C = j mod C → psl e i = psl e j.
Proof. intros H. unfold psl. by rewrite Zminus_mod, H, <- Zminus_mod. Qed.

Lemma psl_home e i : psl e i = 0 ↔ hash e mod C = i mod C.
Proof.
  pose proof capacity_bounds. unfold psl. split.
  - intros Hz. apply Z.mod_divide in Hz as [q Hq]; [|lia].
    replace i with (hash e + q * C) by lia. by rewrite Z.mod_add by lia.
  - intros He. rewrite Zminus_mod, He, Z.sub_diag. apply Z.mod_0_l. lia.
Qed.

Lemma psl_succ e i : psl e (i + 1) = if decide (psl e i + 1 = C) then 0 else psl e i + 1.
Proof.
  pose proof capacity_bounds. pose proof (psl_bound e i) as Hb. unfold psl in *.
  replace (i + 1 - hash e) with ((i - hash e) + 1) by lia. rewrite <- Zplus_mod_idemp_l.
  case_decide as Hd; [rewrite Hd; apply Z.mod_same; lia|]. apply Z.mod_small. lia.
Qed.

Lemma cell_mod tbl i j : i mod C = j mod C → cell tbl i = cell tbl j.
Proof. intros H. unfold cell. by rewrite H. Qed.

Lemma cell_get tbl i :
  Z.of_nat (length tbl) = C → 0 ≤ i < C → arr_get tbl i = Done (cell tbl i).
Proof.
  intros Hl Hi. unfold arr_get, cell. rewrite (proj2 (Z.leb_le _ _)), Z.mod_small by lia.
  destruct (lookup_lt_is_Some_2 tbl (Z.to_nat i)) as [o Ho]; [lia|]. by rewrite Ho.
Qed.

Lemma cell_insert tbl i j o :
  Z.of_nat (length tbl) = C → 0 ≤ i < C →
  cell (<[Z.to_nat i := o]> tbl) j = if decide (j mod C = i) then o else cell tbl j.
Proof.
  intros Hl Hi. pose proof (Z.mod_pos_bound j C). unfold cell. case_decide.
  - subst i. by rewrite list_lookup_insert_eq by lia.
  - by rewrite list_lookup_insert_ne by lia.
Qed.

(** Some slot is free. *)
Definition has_open tbl : Prop := ∃ i, cell tbl i = None.

(** *** Entries as a multiset *)
Lemma entries_split tbl (i : nat) o :
  tbl !! i = Some o → ∃ t1 t2, tbl = t1 ++ o :: t2 ∧
    (∀ o', <[i := o']> tbl = t1 ++ o' :: t2) ∧
    (∀ o', entries (t1 ++ o' :: t2) ≡ₚ option_list o' ++ entries t1 ++ entries t2).
Proof.
  intros Ho. apply list_elem_of_split_length in Ho as (t1 & t2 & -> & ->).
  exists t1, t2. split; [done|]. split.
  - intros o'. rewrite <- (Nat.add_0_r (length t1)), insert_app_r. done.
  - intros o'. unfold entries. rewrite omap_app. destruct o' as [e|]; simpl; [|done].
    symmetry. apply Permutation_middle.
Qed.

Lemma cell_lookup tbl i o :
  Z.of_nat (length tbl) = C → 0 ≤ i < C → cell tbl i = o → tbl !! Z.to_nat i = Some o.
Proof.
  intros Hl Hi Hc. unfold cell in Hc. rewrite Z.mod_small in Hc by lia.
  destruct (lookup_lt_is_Some_2 tbl (Z.to_nat i)) as [o' Ho']; [lia|]. rewrite Ho' in *. by subst.
Qed.

Lemma entries_set tbl i o o' :
  Z.of_nat (length tbl) = C → 0 ≤ i < C → cell tbl i = o →
  option_list o ++ entries (<[Z.to_nat i := o']> tbl) ≡ₚ option_list o' ++ entries tbl.
Proof.
  intros Hl Hi Hc. apply (cell_lookup _ _ _ Hl Hi) in Hc.
  destruct (entries_split tbl _ o Hc) as (t1 & t2 & Ht & Hins & Hent). rewrite Hins, Ht.
  rewrite !Hent. rewrite !app_assoc. f_equiv. f_equiv. apply Permutation_app_comm.
Qed.

Lemma cell_entries tbl e :
  Z.of_nat (length tbl) = C → e ∈ entries tbl ↔ ∃ i, 0 ≤ i < C ∧ cell tbl i = Some e.
Proof.
  intros Hl. unfold entries. rewrite list_elem_of_omap. split.
  - intros (o & Ho & He). simpl in He. subst. apply list_elem_of_lookup_1 in Ho as [n Hn].
    pose proof (lookup_lt_Some _ _ _ Hn). exists (Z.of_nat n). split; [lia|].
    unfold cell. rewrite Z.mod_small, Nat2Z.id, Hn by lia. done.
  - intros (i & Hi & Hc). exists (Some e). split; [|done].
    apply (cell_lookup _ _ _ Hl Hi) in Hc. by eapply list_elem_of_lookup_2.
Qed.

Lemma entries_length tbl : (length (entries tbl) ≤ length tbl)%nat.
Proof. induction tbl as [|[e|] tbl IH]; simpl; lia. Qed.

(** A table with fewer entries than slots has an open one. *)
Lemma open_slot tbl :
  Z.of_nat (length tbl) = C → (length (entries tbl) < length tbl)%nat → has_open tbl.
Proof.
  intros Hl Hlt. assert (∃ i, tbl !! i = Some None) as [i Hi].
  { clear Hl. induction tbl as [|[e|] tbl IH]; simpl in *; [lia| |by exists 0%nat].
    destruct IH as [i Hi]; [lia|]. by exists (S i). }
  exists (Z.of_nat i). pose proof (lookup_lt_Some _ _ _ Hi). unfold cell.
  by rewrite Z.mod_small, Nat2Z.id, Hi by lia.
Qed.

(** ** Probing *)

(** The slots before an entry, back to its home, hold entries that are far enough from theirs. *)
Lemma run_back tbl i e (d : nat) :
  rh_ok tbl → cell tbl i = Some e → Z.of_nat d ≤ psl e i →
  ∃ e', cell tbl (i - Z.of_nat d) = Some e' ∧ psl e i - Z.of_nat d ≤ psl e' (i - Z.of_nat d).
Proof.
  intros Hok He. induction d as [|d IH]; intros Hd.
  { exists e. rewrite Z.sub_0_r. split; [done|lia]. }
  destruct IH as (e1 & H1 & H2); [lia|].
  replace (i - Z.of_nat d) with ((i - Z.of_nat (S d)) + 1) in * by lia.
  destruct (Hok _ _ H1) as (e2 & H3 & H4); [lia|]. exists e2. split; [done|lia].
Qed.

Lemma probe_reaches tbl i e t :
  rh_ok tbl → cell tbl i = Some e → 0 ≤ t ≤ psl e i →
  ∃ e', cell tbl (hash e + t) = Some e' ∧ t ≤ psl e' (hash e + t).
Proof.
  intros Hok He Ht. destruct (run_back tbl i e (Z.to_nat (psl e i - t)) Hok He) as (e' & H1 & H2); [lia|].
  rewrite Z2Nat.id in * by lia.
  assert ((i - (psl e i - t)) mod C = (hash e + t) mod C) as Hm.
  { pose proof capacity_bounds. unfold psl.
    replace (i - ((i - hash e) mod C - t)) with ((i + t) - (i - hash e) mod C) by lia.
    rewrite Zminus_mod_idemp_r. f_equal. lia. }
  exists e'. rewrite <- (cell_mod _ _ _ Hm), <- (psl_mod _ _ _ Hm). split; [done|lia].
Qed.


Lemma home_plus_psl e i : (hash e + psl e i) mod C = i mod C.
Proof. unfold psl. rewrite Zplus_mod_idemp_r. f_equal. lia. Qed.

(** A run that fills the ring contradicts an open slot. *)
Lemma run_bound tbl i e d :
  rh_ok tbl → has_open tbl → cell tbl (i - 1) = Some e → d - 1 ≤ psl e (i - 1) → d < C.
Proof.
  intros Hok [j Hj] He Hd. pose proof capacity_bounds. destruct (Z.lt_ge_cases d C) as [|Hge]; [done|exfalso].
  pose proof (psl_bound e (i - 1)). set (m := (i - 1 - j) mod C).
  assert (0 ≤ m < C) as Hm by (apply Z.mod_pos_bound; lia).
  destruct (run_back tbl (i - 1) e (Z.to_nat m) Hok He) as (e' & H1 & _); [lia|].
  rewrite Z2Nat.id in H1 by lia. rewrite (cell_mod _ _ j) in H1; [congruence|].
  unfold m. rewrite Zminus_mod_idemp_r. f_equal. lia.
Qed.

(** ** Insertion *)

(** What the loop knows of the entry it carries to slot [i] at distance [d]. *)
Definition carried tbl e (i d : Z) : Prop :=
  0 ≤ i < C ∧ psl e i = d ∧
  (0 < d → ∃ e', cell tbl (i - 1) = Some e' ∧ d - 1 ≤ psl e' (i - 1)).

Lemma cell_here tbl i j o :
  Z.of_nat (length tbl) = C → 0 ≤ i < C → j mod C = i → cell (<[Z.to_nat i := o]> tbl) j = o.
Proof. intros. rewrite cell_insert by done. by rewrite decide_True. Qed.

(** Putting the carried entry into an open slot. *)
Lemma rh_ok_fill tbl e i d :
  Z.of_nat (length tbl) = C → rh_ok tbl → carried tbl e i d → cell tbl i = None →
  rh_ok (<[Z.to_nat i := Some e]> tbl).
Proof.
  intros Hl Hok (Hi & Hp & Hpred) Hopen j e1 Hc Hpos.
  rewrite cell_insert in Hc by done. destruct (decide ((j + 1) mod C = i)) as [Hj|Hj].
  - injection Hc as <-. rewrite (psl_mod _ (j + 1) i) in Hpos |- * by (rewrite Hj; symmetry; by apply Z.mod_small).
    destruct (Hpred ltac:(lia)) as (e' & He' & Hd).
    assert (j mod C = (i - 1) mod C) as Hji by (rewrite <- Hj, Zminus_mod_idemp_l; f_equal; lia).
    exists e'. rewrite (psl_mod _ _ _ Hji). split; [|lia]. rewrite cell_insert by done.
    rewrite (cell_mod _ _ _ Hji), decide_False; [done|]. intros He.
    rewrite (cell_mod _ _ i) in He'; [congruence|]. rewrite <- Hji, He. symmetry. by apply Z.mod_small.
  - destruct (Hok j e1 Hc Hpos) as (e' & He' & Hd). exists e'. split; [|done].
    rewrite cell_insert by done. rewrite decide_False; [done|]. intros He.
    rewrite (cell_mod _ _ i) in He'; [congruence|]. rewrite He. symmetry. by apply Z.mod_small.
Qed.

(** Putting it in place of an entry closer to its home. *)
Lemma rh_ok_swap tbl e i d elem :
  Z.of_nat (length tbl) = C → rh_ok tbl → carried tbl e i d → cell tbl i = Some elem → psl elem i < d →
  rh_ok (<[Z.to_nat i := Some e]> tbl).
Proof.
  intros Hl Hok (Hi & Hp & Hpred) Hel Hlt j e1 Hc Hpos. pose proof capacity_bounds.
  rewrite cell_insert in Hc by done. destruct (decide ((j + 1) mod C = i)) as [Hj|Hj].
  - injection Hc as <-. rewrite (psl_mod _ (j + 1) i) in Hpos |- * by (rewrite Hj; symmetry; by apply Z.mod_small).
    destruct (Hpred ltac:(lia)) as (e' & He' & Hd).
    assert (j mod C = (i - 1) mod C) as Hji by (rewrite <- Hj, Zminus_mod_idemp_l; f_equal; lia).
    rewrite cell_insert by done. rewrite (cell_mod _ _ _ Hji). case_decide as Hs.
    + exists e. rewrite (psl_mod _ j i); [split; [done|lia]|]. rewrite Hs. symmetry. by apply Z.mod_small.
    + exists e'. rewrite (psl_mod _ _ _ Hji). split; [done|lia].
  - destruct (Hok j e1 Hc Hpos) as (e' & He' & Hd). rewrite cell_insert by done. case_decide as Hs.
    + exists e. split; [done|]. assert (j mod C = i mod C) as Hji by (rewrite Hs; symmetry; by apply Z.mod_small).
      rewrite (psl_mod e _ _ Hji). rewrite (cell_mod _ _ _ Hji) in He'.
      assert (e' = elem) as -> by congruence. rewrite (psl_mod elem _ _ Hji) in Hd. lia.
    + by exists e'.
Qed.

Lemma rh_insert_spec fuel tbl e i d (n : Z) :
  Z.of_nat (length tbl) = C → rh_ok tbl → carried tbl e i d →
  0 ≤ n < Z.of_nat fuel → cell tbl (i + n) = None →
  ∃ tbl', rh_insert fuel C tbl e i d = Done tbl' ∧ length tbl' = length tbl ∧ rh_ok tbl' ∧
    entries tbl' ≡ₚ e :: entries tbl.
Proof.
  revert tbl e i d n. induction fuel as [|fuel IH]; intros tbl e i d n Hl Hok Hcar Hn Hopen; [lia|].
  pose proof capacity_bounds as HCb. pose proof Hcar as (Hi & Hp & Hpred). cbn [rh_insert].
  rewrite cell_get, bind_Done by done. destruct (cell tbl i) as [elem|] eqn:Hel.
  2:{ rewrite arr_set_Done by lia. eexists. split; [done|]. split; [apply length_insert|].
      split; [by eapply rh_ok_fill|]. apply (entries_set tbl i None (Some e) Hl Hi Hel). }
  assert (n ≠ 0) by (intros ->; rewrite Z.add_0_r in Hopen; congruence).
  assert ((i + 1) mod C = mod_ C (i + 1)) as Hmod by by rewrite mod_spec.
  assert (0 ≤ mod_ C (i + 1) < C) as Hnext by (rewrite mod_spec; apply Z.mod_pos_bound; lia).
  assert (∀ t, cell t (mod_ C (i + 1) + (n - 1)) = cell t (i + n)) as Hshift.
  { intros t. apply cell_mod. rewrite mod_spec, Zplus_mod_idemp_l. f_equal. lia. }
  assert (∀ t, cell t (mod_ C (i + 1) - 1) = cell t i) as Hprev.
  { intros t. apply cell_mod. rewrite mod_spec, Zminus_mod_idemp_l. f_equal. lia. }
  assert (∀ e0, psl e0 (mod_ C (i + 1)) = psl e0 (i + 1)) as Hpn.
  { intros e0. apply psl_mod. rewrite mod_spec, Z.mod_mod by lia. done. }
  assert (∀ e0, psl e0 (mod_ C (i + 1) - 1) = psl e0 i) as Hpp.
  { intros e0. apply psl_mod. rewrite mod_spec, Zminus_mod_idemp_l. f_equal. lia. }
  assert (has_open tbl) as Hho by (eexists; done).
  rewrite offset_spec by done. fold (psl elem i). destruct (Z.ltb_spec (psl elem i) d).
  - rewrite arr_set_Done, bind_Done by lia.
    assert ((i + n) mod C ≠ i) as Hin.
    { intros He. rewrite (cell_mod _ _ i) in Hopen; [congruence|]. rewrite He. symmetry. by apply Z.mod_small. }
    destruct (IH (<[Z.to_nat i := Some e]> tbl) elem (mod_ C (i + 1)) (psl elem i + 1) (n - 1))
      as (tbl' & Hr & Hl' & Hok' & Hent).
    + by rewrite length_insert.
    + by eapply rh_ok_swap.
    + pose proof (psl_bound elem i). pose proof (psl_bound e i). split; [done|]. split.
      * rewrite Hpn, psl_succ, decide_False by lia. done.
      * intros _. exists e. rewrite Hprev, Hpp, cell_here by (done || by apply Z.mod_small). split; [done|lia].
    + lia.
    + rewrite Hshift, cell_insert by done. by rewrite decide_False.
    + exists tbl'. split; [done|]. split; [by rewrite Hl', length_insert|]. split; [done|].
      rewrite Hent. apply (entries_set tbl i (Some elem) (Some e) Hl Hi Hel).
  - assert (psl e i + 1 < C).
    { apply (run_bound tbl (i + 1) elem); [done|done|by rewrite Z.add_simpl_r|].
      rewrite !Z.add_simpl_r. lia. }
    apply (IH tbl e (mod_ C (i + 1)) (d + 1) (n - 1)); [done|done| |lia|by rewrite Hshift].
    split; [done|]. split; [rewrite Hpn, psl_succ, decide_False by lia; lia|].
    intros _. exists elem. rewrite Hprev, Hpp. split; [done|lia].
Qed.

(** ** Backward shift *)

(** The slot [i] is vacant, and the invariant holds everywhere but for the entry after it, which
    could stand there. *)
Record hole_at tbl (i : Z) : Prop := {
  ha_pos : 0 ≤ i < C;
  ha_open : cell tbl i = None;
  ha_ok : ∀ j e, j mod C ≠ i → cell tbl (j + 1) = Some e → 0 < psl e (j + 1) →
    ∃ e', cell tbl j = Some e' ∧ psl e (j + 1) - 1 ≤ psl e' j;
  ha_next : ∀ e, cell tbl (i + 1) = Some e → 1 < psl e (i + 1) →
    ∃ e', cell tbl (i - 1) = Some e' ∧ psl e (i + 1) - 2 ≤ psl e' (i - 1);
}.

(** Vacating a slot of a good table. *)
Lemma hole_at_erase tbl i e :
  Z.of_nat (length tbl) = C → rh_ok tbl → has_open tbl → 0 ≤ i < C → cell tbl i = Some e →
  hole_at (<[Z.to_nat i := None]> tbl) i.
Proof.
  intros Hl Hok Ho Hi He. pose proof capacity_bounds.
  assert (∀ j, j mod C ≠ i → cell (<[Z.to_nat i := None]> tbl) j = cell tbl j) as Hne.
  { intros j Hj. rewrite cell_insert by done. by rewrite decide_False. }
  assert (i mod C = i) as Hii by by apply Z.mod_small.
  split; [done|by apply cell_here| |].
  - intros j e1 Hj Hc Hp. rewrite cell_insert in Hc by done. destruct (decide ((j + 1) mod C = i)); [done|].
    rewrite Hne by done. by apply Hok.
  - intros e1 Hc Hp. rewrite cell_insert in Hc by done. destruct (decide ((i + 1) mod C = i)); [done|].
    destruct (Hok i e1 Hc ltac:(lia)) as (e2 & He2 & Hd). assert (e2 = e) as -> by congruence.
    replace i with ((i - 1) + 1) in He2 at 1 by lia.
    destruct (Hok (i - 1) e He2) as (e3 & He3 & Hd3).
    { replace (i - 1 + 1) with i by lia. lia. }
    replace (i - 1 + 1) with i in Hd3 by lia. exists e3. split; [|lia].
    rewrite Hne; [done|]. intros Hm.
    (* a ring of one or two slots *)
    assert (psl e3 (i - 1) = psl e3 i) as Hp3 by (apply psl_mod; by rewrite Hii).
    rewrite (cell_mod _ _ i) in He3 by by rewrite Hm, Hii. assert (e3 = e) as -> by congruence.
    pose proof (psl_succ e (i - 1)) as Hs. replace (i - 1 + 1) with i in Hs by lia. rewrite Hp3 in Hs.
    pose proof (psl_bound e i). case_decide; [|lia].
    assert (C = 1) as HC1 by lia. rewrite HC1 in *. rewrite Z.mod_1_r in *. done.
Qed.

Lemma hole_closed tbl i :
  hole_at tbl i → (∀ e, cell tbl (i + 1) = Some e → psl e (i + 1) = 0) → rh_ok tbl.
Proof.
  intros [Hi Ho Hok _] Hn j e Hc Hp. destruct (decide (j mod C = i)) as [Hj|]; [|by apply Hok].
  assert ((j + 1) mod C = (i + 1) mod C) as Hm by (rewrite <- Hj, Zplus_mod_idemp_l; done).
  rewrite (cell_mod _ _ _ Hm) in Hc. rewrite (psl_mod _ _ _ Hm) in Hp. apply Hn in Hc. lia.
Qed.

(** Moving the entry after the hole into it moves the hole on. *)
Lemma hole_moves tbl i m :
  let next := (i + 1) mod C in
  Z.of_nat (length tbl) = C → hole_at tbl i → cell tbl next = Some m → 0 < psl m next →
  hole_at (<[Z.to_nat next := None]> (<[Z.to_nat i := Some m]> tbl)) next.
Proof.
  intros next Hl [Hi Ho Hok Hj] Hm Hp. pose proof capacity_bounds as HCb.
  assert (0 ≤ next < C) as Hn by (apply Z.mod_pos_bound; lia).
  assert (i mod C = i) as Hii by by apply Z.mod_small.
  assert (next mod C = next) as Hnn by by apply Z.mod_small.
  assert (next ≠ i) as Hne by (intros He; rewrite He in Hm; congruence).
  assert (psl m next = psl m (i + 1)) as Hpn by (apply psl_mod; done).
  assert (psl m i = psl m next - 1) as Hpi.
  { pose proof (psl_succ m i) as Hs. rewrite <- Hpn in Hs. case_decide; lia. }
  set (tbl' := <[Z.to_nat next := None]> (<[Z.to_nat i := Some m]> tbl)).
  assert (∀ j, cell tbl' j = if decide (j mod C = next) then None
    else if decide (j mod C = i) then Some m else cell tbl j) as Hcell.
  { intros j. unfold tbl'. rewrite cell_insert by (rewrite ?length_insert; done). case_decide; [done|].
    by rewrite cell_insert. }
  assert (∀ j, j mod C = next ↔ (j - 1) mod C = i) as Hback.
  { intros j. unfold next. rewrite <- Hii at 2. split; intros He.
    - rewrite <- Zminus_mod_idemp_l, He, Zminus_mod_idemp_l. f_equal. lia.
    - replace j with (j - 1 + 1) by lia. rewrite <- Zplus_mod_idemp_l, He, Zplus_mod_idemp_l. done. }
  split; [done|rewrite Hcell; by rewrite decide_True| |].
  - intros j e Hjn Hc Hpe. rewrite Hcell in Hc |- *. rewrite (decide_False (P := j mod C = next)) by done.
    destruct (decide ((j + 1) mod C = next)) as [|Hj1]; [done|].
    assert (j mod C ≠ i) as Hji.
    { intros He. apply Hj1. apply Hback. by rewrite Z.add_simpl_r. }
    rewrite (decide_False (P := j mod C = i)) by done.
    destruct (decide ((j + 1) mod C = i)) as [Hj2|]; [|by apply Hok].
    injection Hc as <-. assert (psl m (j + 1) = psl m i) as Hpj by (apply psl_mod; congruence).
    rewrite Hpj in Hpe |- *.
    destruct (Hj m) as (e' & He' & Hd); [by rewrite <- (cell_mod _ next (i + 1))|lia|].
    assert (j mod C = (i - 1) mod C) as Hjm by (rewrite <- Hj2, Zminus_mod_idemp_l; f_equal; lia).
    exists e'. rewrite (cell_mod _ _ _ Hjm), (psl_mod _ _ _ Hjm). split; [done|lia].
  - intros e Hc Hpe. rewrite Hcell in Hc |- *.
    assert ((next - 1) mod C = i) as Hprev by (by apply Hback).
    rewrite (decide_False (P := (next - 1) mod C = next)) by congruence.
    rewrite (decide_True (P := (next - 1) mod C = i)) by done.
    exists m. split; [done|]. assert (psl m (next - 1) = psl m i) as -> by (apply psl_mod; congruence).
    destruct (decide ((next + 1) mod C = next)); [done|].
    destruct (decide ((next + 1) mod C = i)) as [Hc2|].
    + injection Hc as <-. assert (psl m (next + 1) = psl m i) as -> by (apply psl_mod; congruence). lia.
    + destruct (Hok next e) as (e' & He' & Hd); [congruence|done|lia|]. assert (e' = m) as -> by congruence. lia.
Qed.

Lemma hole_moves_entries tbl i m :
  let next := (i + 1) mod C in
  Z.of_nat (length tbl) = C → hole_at tbl i → cell tbl next = Some m →
  entries (<[Z.to_nat next := None]> (<[Z.to_nat i := Some m]> tbl)) ≡ₚ entries tbl.
Proof.
  intros next Hl Hh Hm. pose proof capacity_bounds. pose proof Hh as [Hi Ho _ _].
  assert (0 ≤ next < C) as Hn by (apply Z.mod_pos_bound; lia).
  assert (next ≠ i) as Hne by (intros He; rewrite He in Hm; congruence).
  apply (Permutation_cons_inv (a := m)).
  rewrite <- (entries_set tbl i None (Some m) Hl Hi Ho : entries _ ≡ₚ m :: entries tbl).
  apply (entries_set (<[Z.to_nat i := Some m]> tbl) next (Some m) None).
  - by rewrite length_insert.
  - done.
  - rewrite cell_insert by done. rewrite decide_False; [done|]. rewrite Z.mod_small by done. done.
Qed.

Lemma rh_shift_spec fuel tbl i (n : Z) :
  Z.of_nat (length tbl) = C → hole_at tbl i → 0 < n ≤ Z.of_nat fuel → n < C → cell tbl (i + n) = None →
  ∃ tbl', rh_shift fuel C tbl i = Done tbl' ∧ length tbl' = length tbl ∧ rh_ok tbl' ∧
    entries tbl' ≡ₚ entries tbl.
Proof.
  revert tbl i n. induction fuel as [|fuel IH]; intros tbl i n Hl Hh Hn HnC Hopen; [lia|].
  pose proof capacity_bounds as HCb. cbn [rh_shift]. rewrite mod_spec.
  set (next := (i + 1) mod C). assert (0 ≤ next < C) as Hnext by (apply Z.mod_pos_bound; lia).
  assert (next mod C = (i + 1) mod C) as Hnm by (unfold next; rewrite Z.mod_mod by lia; done).
  rewrite cell_get, bind_Done by done. destruct (cell tbl next) as [m|] eqn:Hm.
  2:{ exists tbl. split; [done|]. split; [done|]. split; [|done]. apply (hole_closed tbl i Hh).
      intros e He. rewrite <- (cell_mod _ _ _ Hnm) in He. congruence. }
  assert (psl m next = 0 ↔ mod_ C (hash m) = next) as Hhome.
  { rewrite mod_spec, psl_home. by rewrite (Z.mod_small next) by done. }
  destruct (Z.eqb_spec (mod_ C (hash m)) next) as [Hz|Hz].
  { exists tbl. split; [done|]. split; [done|]. split; [|done]. apply (hole_closed tbl i Hh).
    intros e He. rewrite <- (cell_mod _ _ _ Hnm) in He. rewrite <- (psl_mod _ _ _ Hnm).
    assert (e = m) as -> by congruence. by apply Hhome. }
  pose proof (psl_bound m next). pose proof (ha_pos _ _ Hh).
  rewrite arr_set_Done, bind_Done by lia. rewrite arr_set_Done, bind_Done by (rewrite length_insert; lia).
  assert (n ≠ 1) by (intros ->; rewrite <- (cell_mod _ _ _ Hnm) in Hopen; congruence).
  assert (0 < psl m next) as Hpos by (destruct (decide (psl m next = 0)) as [?%Hhome|]; [done|lia]).
  destruct (IH (<[Z.to_nat next := None]> (<[Z.to_nat i := Some m]> tbl)) next (n - 1))
    as (tbl' & Hr & Hl' & Hok' & Hent).
  - by rewrite !length_insert.
  - by apply hole_moves.
  - lia.
  - lia.
  - assert ((next + (n - 1)) mod C = (i + n) mod C) as Hmm
      by (unfold next; rewrite Zplus_mod_idemp_l; f_equal; lia).
    rewrite cell_insert by (rewrite ?length_insert; done). case_decide; [done|].
    rewrite cell_insert by done. rewrite decide_False; [by rewrite (cell_mod _ _ _ Hmm)|].
    rewrite Hmm. rewrite <- (Z.mod_small i C) at 2 by done. intros He.
    assert (n mod C = 0) as Hn0.
    { replace n with ((i + n) - i) by lia. rewrite Zminus_mod, He, Z.sub_diag. apply Z.mod_0_l. lia. }
    rewrite Z.mod_small in Hn0 by lia. lia.
  - exists tbl'. split; [done|]. split; [by rewrite Hl', !length_insert|]. split; [done|].
    rewrite Hent. by apply hole_moves_entries.
Qed.

(** ** Search

    A probe for the hash [hk] that stops at distance [t], at an open slot or at an entry closer to
    its home, has passed every entry with that hash. *)
Lemma probe_complete tbl hk t i e :
  rh_ok tbl → 0 ≤ t → (∀ e', cell tbl (hk + t) = Some e' → psl e' (hk + t) < t) →
  cell tbl i = Some e → hash e mod C = hk mod C → psl e i < t ∧ cell tbl (hk + psl e i) = Some e.
Proof.
  intros Hok Ht Hstop He Hh. pose proof (psl_bound e i).
  assert (∀ u, (hash e + u) mod C = (hk + u) mod C) as Hm
    by (intros u; by rewrite Zplus_mod, Hh, <- Zplus_mod).
  split.
  - destruct (Z.lt_ge_cases (psl e i) t) as [|Hge]; [done|exfalso].
    destruct (probe_reaches tbl i e t Hok He) as (e' & Hc & Hd); [lia|].
    rewrite (cell_mod _ _ _ (Hm t)) in Hc. rewrite (psl_mod _ _ _ (Hm t)) in Hd. apply Hstop in Hc. lia.
  - rewrite <- (cell_mod _ _ _ (Hm (psl e i))). rewrite (cell_mod _ _ i); [done|]. apply home_plus_psl.
Qed.

(** Every walk over the ring meets the open slot within [C] steps. *)
Lemma open_within tbl i : has_open tbl → ∃ n, 0 ≤ n < C ∧ cell tbl (i + n) = None.
Proof.
  intros [j Hj]. pose proof capacity_bounds. exists ((j - i) mod C). split; [apply Z.mod_pos_bound; lia|].
  rewrite <- Hj. apply cell_mod. rewrite Zplus_mod_idemp_r. f_equal. lia.
Qed.

(** The start of an insertion. *)
Lemma carried_home tbl e : carried tbl e (mod_ C (hash e)) 0.
Proof.
  pose proof capacity_bounds. rewrite mod_spec. split; [apply Z.mod_pos_bound; lia|]. split; [|lia].
  apply psl_home. by rewrite Z.mod_mod by lia.
Qed.

Lemma rh_insert_home tbl e :
  Z.of_nat (length tbl) = C → rh_ok tbl → has_open tbl →
  ∃ tbl', rh_insert (Z.to_nat C) C tbl e (mod_ C (hash e)) 0 = Done tbl' ∧ length tbl' = length tbl ∧
    rh_ok tbl' ∧ entries tbl' ≡ₚ e :: entries tbl.
Proof.
  intros Hl Hok Ho. pose proof capacity_bounds.
  destruct (open_within tbl (mod_ C (hash e)) Ho) as (n & Hn & Hc).
  eapply rh_insert_spec; [done|done|apply carried_home| |done]. lia.
Qed.

(** Removing the entry at [i] and closing the gap. *)
Lemma rh_erase tbl i e :
  Z.of_nat (length tbl) = C → rh_ok tbl → has_open tbl → 0 ≤ i < C → cell tbl i = Some e →
  ∃ tbl', rh_shift (Z.to_nat C) C (<[Z.to_nat i := None]> tbl) i = Done tbl' ∧
    length tbl' = length tbl ∧ rh_ok tbl' ∧ entries tbl ≡ₚ e :: entries tbl'.
Proof.
  intros Hl Hok Ho Hi He. pose proof capacity_bounds.
  destruct (open_within tbl i Ho) as (n & Hn & Hc).
  assert (n ≠ 0) by (intros ->; rewrite Z.add_0_r in Hc; congruence).
  destruct (rh_shift_spec (Z.to_nat C) (<[Z.to_nat i := None]> tbl) i n) as (tbl' & Hr & Hl' & Hok' & Hp).
  - by rewrite length_insert.
  - by eapply hole_at_erase.
  - lia.
  - lia.
  - rewrite cell_insert by done. case_decide; done.
  - exists tbl'. split; [done|]. split; [by rewrite Hl', length_insert|]. split; [done|]. rewrite Hp.
    symmetry. apply (entries_set tbl i (Some e) None Hl Hi He).
Qed.
End table.
