(* ===== verification/Map.v ===== *)
(** * util::map

    Models src/libraries/util/include/util/map.h: an open addressing hash map that stores the hash
    of each key in its node, a node whose hash is 0 being free.  A slot is [None] when its hash is
    0.  The key's hash function ([util::hash]) is a parameter: the source specializes it per type,
    and the integer instances are those of Bits.v.  [is_map m M] says the object [m] stands for the
    finite map [M]; every operation refines the finite map's. *)
From S2P Require Import Prelude Bits RobinHood.

Record hash_node (K V : Type) := HashNode { h : Z; key : K; val : V }.
Arguments HashNode {K V} _ _ _.
Arguments h {K V} _.
Arguments key {K V} _.
Arguments val {K V} _.

Record base_map (K V : Type) := BaseMap {
  m_count : Z;
  m_capacity : Z;
  m_nodes : list (option (hash_node K V));
}.
Arguments BaseMap {K V} _ _ _.
Arguments m_count {K V} _.
Arguments m_capacity {K V} _.
Arguments m_nodes {K V} _.

Section operations.
Context {K V : Type} `{EqDecision K} (hash : K → Z).
Implicit Types (m : base_map K V) (k : K) (v : V).

Definition min_capacity : Z := 8.
Definition max_load : Z := 90.
Definition threshold m : Z := u64 (m_capacity m * max_load) / 100.

Definition set_capacity m (capacity : Z) : outcome (base_map K V) :=
  let* _ := kassert (Z.land capacity (u64 (capacity - 1)) =? 0) in
  Done (BaseMap (m_count m) capacity (replicate (Z.to_nat capacity) None)).

Definition new_map (capacity : Z) : outcome (base_map K V) :=
  let m := BaseMap 0 0 [] in
  if capacity =? 0 then Done m
  else
    let* lg := log2 capacity in
    let* c := shl64 1 lg in
    set_capacity m c.

(** [insert_node]: the probe visits each slot at most once. *)
Definition insert_node m (e : hash_node K V) : outcome (base_map K V) :=
  let* _ := kassert (negb (h e =? 0)) in
  let* nodes := rh_insert h (Z.to_nat (m_capacity m)) (m_capacity m) (m_nodes m) e
                  (mod_ (m_capacity m) (h e)) 0 in
  Done (BaseMap (m_count m) (m_capacity m) nodes).

(** The loop of [grow] over the old array. *)
Fixpoint reinsert m (old : list (option (hash_node K V))) : outcome (base_map K V) :=
  match old with
  | [] => Done m
  | None :: old => reinsert m old
  | Some e :: old => let* m := insert_node m e in reinsert m old
  end.

Definition grow m : outcome (base_map K V) :=
  let old := m_nodes m in
  let cap := u64 (m_capacity m * 2) in
  let cap := if cap <? min_capacity then min_capacity else cap in
  let* m := set_capacity m cap in
  reinsert m old.

Definition insert m k v : outcome (base_map K V) :=
  let m := BaseMap (u64 (m_count m + 1)) (m_capacity m) (m_nodes m) in
  let* m := if m_count m >? threshold m then grow m else Done m in
  insert_node m (HashNode (hash k) k v).

(** The loop of [lookup]: the index of the node. *)
Fixpoint lookup_from (fuel : nat) m k (hk i dist : Z) : outcome (option Z) :=
  match fuel with
  | O => Diverge
  | S fuel =>
      let* n := arr_get (m_nodes m) i in
      match n with
      | None => Done None
      | Some n =>
          if dist >? offset (m_capacity m) (h n) i then Done None
          else if (h n =? hk) && bool_decide (key n = k) then Done (Some i)
          else lookup_from fuel m k hk (mod_ (m_capacity m) (i + 1)) (dist + 1)
      end
  end.

Definition lookup_node m k : outcome (option Z) :=
  if m_count m =? 0 then Done None
  else lookup_from (Z.to_nat (m_capacity m)) m k (hash k) (mod_ (m_capacity m) (hash k)) 0.

Definition erase_node m (i : Z) : outcome (base_map K V) :=
  let* nodes := arr_set (m_nodes m) i None in
  let* nodes := rh_shift h (Z.to_nat (m_capacity m)) (m_capacity m) nodes i in
  Done (BaseMap (u64 (m_count m - 1)) (m_capacity m) nodes).

Definition erase m k : outcome (bool * base_map K V) :=
  let* n := lookup_node m k in
  match n with
  | None => Done (false, m)
  | Some i => let* m := erase_node m i in Done (true, m)
  end.

Definition find m k : outcome (option V) :=
  let* n := lookup_node m k in
  match n with
  | None => Done None
  | Some i => let* n := arr_get (m_nodes m) i in let* n := deref n in Done (Some (val n))
  end.
End operations.

(** ** The finite map behind a map object *)
Section model.
Context {K V : Type} `{Countable K} (hash : K → Z).
Implicit Types (m : base_map K V) (M : gmap K V) (k : K) (v : V) (tbl : list (option (hash_node K V))).

Definition pairs (es : list (hash_node K V)) : list (K * V) := (λ e, (key e, val e)) <$> es.

(** A table of capacity [C] with the entries [es]. *)
Record table_inv (C : Z) tbl (es : list (hash_node K V)) : Prop := {
  ti_cap : ∃ lg, 0 ≤ lg ≤ 62 ∧ C = 2 ^ lg;
  ti_len : Z.of_nat (length tbl) = C;
  ti_ok : rh_ok h C tbl;
  ti_entries : entries tbl ≡ₚ es;
}.

(** Nodes carry the hashes of their keys, and no key twice. *)
Record nodes_ok (es : list (hash_node K V)) : Prop := {
  no_hash : ∀ e, e ∈ es → h e = hash (key e) ∧ h e ≠ 0;
  no_nodup : NoDup (key <$> es);
}.

Inductive is_map m M : Prop :=
  | is_map_none : m_capacity m = 0 → m_nodes m = [] → m_count m = 0 → M = ∅ → is_map m M
  | is_map_table es : table_inv (m_capacity m) (m_nodes m) es → nodes_ok es → M = list_to_map (pairs es) →
      m_count m = Z.of_nat (length es) → m_count m ≤ threshold m → is_map m M.

Lemma pairs_fst es : (pairs es).*1 = key <$> es.
Proof. unfold pairs. rewrite <- list_fmap_compose. done. Qed.

Lemma nodes_lookup es k v :
  nodes_ok es → (list_to_map (pairs es) : gmap K V) !! k = Some v ↔ ∃ e, e ∈ es ∧ key e = k ∧ val e = v.
Proof.
  intros [_ Hnd]. rewrite <- elem_of_list_to_map by by rewrite pairs_fst.
  unfold pairs. rewrite list_elem_of_fmap. naive_solver.
Qed.

Lemma nodes_lookup_None es k :
  (list_to_map (pairs es) : gmap K V) !! k = None ↔ ∀ e, e ∈ es → key e ≠ k.
Proof.
  rewrite <- not_elem_of_list_to_map, pairs_fst, list_elem_of_fmap. naive_solver.
Qed.

Lemma nodes_ok_perm es es' : es ≡ₚ es' → nodes_ok es → nodes_ok es'.
Proof. intros Hp [H1 H2]. split; [intros e; rewrite <- Hp; apply H1|by rewrite <- Hp]. Qed.

Lemma pairs_perm es es' :
  nodes_ok es → es ≡ₚ es' → (list_to_map (pairs es) : gmap K V) = list_to_map (pairs es').
Proof.
  intros [_ Hnd] Hp. apply list_to_map_proper; [by rewrite pairs_fst|]. unfold pairs. by rewrite Hp.
Qed.

Lemma threshold_lt m : 0 < m_capacity m ≤ 2 ^ 62 → threshold m < m_capacity m.
Proof.
  intros Hc. unfold threshold, max_load, wrap.
  pose proof (Z.mod_le (m_capacity m * 90) (2 ^ 64)). apply Z.div_lt_upper_bound; lia.
Qed.

Lemma table_open C tbl es : table_inv C tbl es → Z.of_nat (length es) < C → has_open C tbl.
Proof.
  intros [Hc Hl _ Hp] Hlt. apply open_slot; [done|]. rewrite Hp. lia.
Qed.

(** ** Lookup *)
Lemma lookup_from_spec m es k fuel t n :
  table_inv (m_capacity m) (m_nodes m) es → nodes_ok es →
  0 ≤ t → 0 ≤ n < Z.of_nat fuel → cell (m_capacity m) (m_nodes m) (hash k + t + n) = None →
  (∀ u e, 0 ≤ u < t → cell (m_capacity m) (m_nodes m) (hash k + u) = Some e → key e ≠ k) →
  ∃ r, lookup_from fuel m k (hash k) ((hash k + t) mod m_capacity m) t = Done r ∧
    match r with
    | Some i => 0 ≤ i < m_capacity m ∧ ∃ e, cell (m_capacity m) (m_nodes m) i = Some e ∧ key e = k
    | None => ∀ e, e ∈ es → key e ≠ k
    end.
Proof.
  intros Ht Hn. pose proof Ht as [HC Hl Hok Hp]. pose proof (capacity_bounds _ HC) as HCb.
  set (C := m_capacity m) in *. revert t n. induction fuel as [|fuel IH]; intros t n Ht0 Hfu Hop Hseen; [lia|].
  set (i := (hash k + t) mod C). assert (0 ≤ i < C) as Hi by (apply Z.mod_pos_bound; lia).
  assert (i mod C = (hash k + t) mod C) as Him by (unfold i; rewrite Z.mod_mod by lia; done).
  assert (∀ e, e ∈ es → key e = k →
    (∀ e', cell C (m_nodes m) (hash k + t) = Some e' → psl h C e' (hash k + t) < t) → False) as Hmiss.
  { intros e He Hk Hstop. rewrite <- Hp in He. apply (cell_entries C HC) in He as (j & Hj & Hcj); [|done].
    destruct (probe_complete h C HC (m_nodes m) (hash k) t j e Hok Ht0 Hstop Hcj) as [Hlt Hcell].
    { destruct (no_hash _ Hn e) as [-> _]; [|by rewrite Hk]. rewrite <- Hp. apply (cell_entries C HC); eauto. }
    eapply Hseen; [|exact Hcell|done]. pose proof (psl_bound h C HC e j). lia. }
  cbn [lookup_from]. fold C. rewrite (cell_get C) by done. rewrite bind_Done.
  rewrite (cell_mod _ _ _ _ Him). destruct (cell C (m_nodes m) (hash k + t)) as [e|] eqn:Hc.
  2:{ exists None. split; [done|]. intros e He Hk. by eapply Hmiss. }
  rewrite offset_spec, Z.gtb_ltb by done. fold (psl h C e i). rewrite (psl_mod h C e _ _ Him).
  destruct (Z.ltb_spec (psl h C e (hash k + t)) t).
  { exists None. split; [done|]. intros e0 He Hk. eapply Hmiss; [done|done|]. intros e' [= <-]. done. }
  destruct (Z.eqb_spec (h e) (hash k)) as [Eh|Eh], (bool_decide_reflect (key e = k)) as [Ek|Ek]; simpl.
  { exists (Some i). split; [done|]. split; [done|]. exists e. by rewrite (cell_mod _ _ _ _ Him). }
  2:{ exfalso. apply Eh. destruct (no_hash _ Hn e) as [-> _]; [|by rewrite Ek].
      rewrite <- Hp. apply (cell_entries C HC); [done|]. exists i. by rewrite (cell_mod _ _ _ _ Him). }
  all: rewrite mod_spec by done; assert (n ≠ 0) by (intros ->; rewrite Z.add_0_r in Hop; congruence).
  all: assert ((i + 1) mod C = (hash k + (t + 1)) mod C) as -> 
    by (unfold i; rewrite Zplus_mod_idemp_l; f_equal; lia).
  all: apply (IH (t + 1) (n - 1)); [lia|lia|by replace (hash k + (t + 1) + (n - 1)) with (hash k + t + n) by lia|].
  all: intros u e1 Hu Hc1; destruct (decide (u = t)) as [->|]; [congruence|]; apply (Hseen u e1); [lia|done].
Qed.

Lemma lookup_node_spec m M k :
  is_map m M →
  ∃ r, lookup_node hash m k = Done r ∧
    match r with
    | Some i => 0 ≤ i < m_capacity m ∧
        ∃ e, cell (m_capacity m) (m_nodes m) i = Some e ∧ key e = k ∧ M !! k = Some (val e)
    | None => M !! k = None
    end.
Proof.
  intros [Hc Hn Hcnt ->|es Ht Hn -> Hcnt Hth]; unfold lookup_node.
  { rewrite Hcnt. by exists None. }
  destruct (Z.eqb_spec (m_count m) 0) as [E|E].
  { exists None. split; [done|]. destruct es; [done|]. simpl in Hcnt. lia. }
  pose proof (capacity_bounds _ (ti_cap _ _ _ Ht)) as HCb. pose proof (threshold_lt m HCb).
  destruct (open_within _ (ti_cap _ _ _ Ht) (m_nodes m) (hash k + 0)) as (n & Hnb & Hnc).
  { eapply table_open; [done|lia]. }
  rewrite (mod_spec _ (ti_cap _ _ _ Ht)). replace (hash k mod m_capacity m) with ((hash k + 0) mod m_capacity m)
    by (f_equal; lia).
  destruct (lookup_from_spec m es k (Z.to_nat (m_capacity m)) 0 n Ht Hn) as (r & Hr & Hspec); [lia|lia|done|lia|].
  exists r. split; [done|]. destruct r as [i|]; [|by apply nodes_lookup_None].
  destruct Hspec as (Hi & e & He & Hk). split; [done|]. exists e. split; [done|]. split; [done|].
  apply nodes_lookup; [done|]. exists e. split; [|done].
  rewrite <- (ti_entries _ _ _ Ht). apply (cell_entries _ (ti_cap _ _ _ Ht)); [apply Ht|eauto].
Qed.

(** ** Insertion and growth *)
Lemma insert_node_spec m es e :
  table_inv (m_capacity m) (m_nodes m) es → Z.of_nat (length es) < m_capacity m → h e ≠ 0 →
  ∃ m', insert_node m e = Done m' ∧ m_count m' = m_count m ∧ m_capacity m' = m_capacity m ∧
    table_inv (m_capacity m) (m_nodes m') (e :: es).
Proof.
  intros Ht Hlt He. unfold insert_node. rewrite (proj2 (Z.eqb_neq _ _)) by done. cbn [negb kassert].
  rewrite bind_Done. destruct (rh_insert_home h _ (ti_cap _ _ _ Ht) (m_nodes m) e) as (tbl' & -> & Hl & Hok & Hp).
  - apply Ht.
  - apply Ht.
  - by eapply table_open.
  - rewrite bind_Done. eexists. split; [done|]. split; [done|]. split; [done|].
    split; simpl; [apply Ht|rewrite Hl; apply Ht|done|]. by rewrite Hp, (ti_entries _ _ _ Ht).
Qed.

Lemma reinsert_spec old m es :
  table_inv (m_capacity m) (m_nodes m) es →
  Z.of_nat (length es) + Z.of_nat (length (entries old)) < m_capacity m →
  (∀ e, e ∈ entries old → h e ≠ 0) →
  ∃ m' es', reinsert m old = Done m' ∧ m_count m' = m_count m ∧ m_capacity m' = m_capacity m ∧
    table_inv (m_capacity m) (m_nodes m') es' ∧ es' ≡ₚ entries old ++ es.
Proof.
  revert m es. induction old as [|[e|] old IH]; intros m es Ht Hlen Hh; cbn [reinsert].
  - by exists m, es.
  - change (entries (Some e :: old)) with (e :: entries old) in *. simpl in Hlen.
    destruct (insert_node_spec m es e Ht) as (m1 & -> & Hc1 & Hcap1 & Ht1); [lia|apply Hh; left|].
    rewrite bind_Done. rewrite <- Hcap1 in Ht1.
    destruct (IH m1 (e :: es) Ht1) as (m' & es' & -> & Hc & Hcap & Ht' & Hp).
    + simpl. rewrite Hcap1. lia.
    + intros e' He'. apply Hh. by right.
    + exists m', es'. rewrite <- Hcap1. split; [done|]. split; [congruence|]. split; [congruence|].
      split; [done|]. rewrite Hp. simpl. symmetry. apply Permutation_middle.
  - change (entries (None :: old)) with (entries old) in *. apply IH; auto.
Qed.

Lemma map_set_capacity_spec m lg :
  0 ≤ lg ≤ 62 →
  ∃ m', set_capacity m (2 ^ lg) = Done m' ∧ m_count m' = m_count m ∧ m_capacity m' = 2 ^ lg ∧
    table_inv (2 ^ lg) (m_nodes m') [].
Proof.
  intros Hlg. unfold set_capacity.
  assert (is_pow2 (2 ^ lg) = true) as Hp.
  { apply is_pow2_spec; [|right; exists lg; split; [lia|done]].
    split; [lia|]. apply Z.pow_lt_mono_r; lia. }
  unfold is_pow2 in Hp. rewrite Hp. cbn [kassert]. rewrite bind_Done. eexists. split; [done|].
  split; [done|]. split; [done|]. simpl. split.
  - by exists lg.
  - rewrite length_replicate. lia.
  - intros i e Hc. exfalso. unfold cell in Hc.
    destruct (replicate _ _ !! _) as [o|] eqn:E; [|done]. apply lookup_replicate_1 in E as [-> _]. done.
  - unfold entries. assert (∀ n, omap id (replicate n (@None (hash_node K V))) = []) as ->; [|done].
    induction n; [done|]. simpl. done.
Qed.

Lemma threshold_eq m : 0 ≤ m_capacity m ≤ 2 ^ 57 → threshold m = m_capacity m * 90 / 100.
Proof. intros. unfold threshold, max_load. by rewrite wrap_small by (unfold is_word; lia). Qed.

(** The state behind either kind of map object. *)
Record backing m (es : list (hash_node K V)) : Prop := {
  bk_ok : nodes_ok es;
  bk_entries : entries (m_nodes m) ≡ₚ es;
  bk_table : m_capacity m = 0 ∧ es = [] ∨ table_inv (m_capacity m) (m_nodes m) es;
  bk_load : Z.of_nat (length es) * 100 ≤ m_capacity m * 90;
}.

Lemma is_map_backing m M :
  is_map m M → m_capacity m ≤ 2 ^ 57 →
  ∃ es, backing m es ∧ M = list_to_map (pairs es) ∧ m_count m = Z.of_nat (length es).
Proof.
  intros [Hc Hn Hcnt ->|es Ht Hn -> Hcnt Hth] Hcap.
  - exists []. split; [|done]. split; [split; [set_solver|constructor]|by rewrite Hn|by left|].
    rewrite Hc. simpl. lia.
  - exists es. split; [|done]. split; [done|apply Ht|by right|].
    pose proof (capacity_bounds _ (ti_cap _ _ _ Ht)). rewrite threshold_eq in Hth by lia.
    pose proof (Z.mul_div_le (m_capacity m * 90) 100). lia.
Qed.

Lemma grow_spec m es :
  backing m es → m_capacity m ≤ 2 ^ 56 →
  ∃ m' es', grow m = Done m' ∧ m_count m' = m_count m ∧ table_inv (m_capacity m') (m_nodes m') es' ∧
    es' ≡ₚ es ∧ (Z.of_nat (length es) + 1) * 100 ≤ m_capacity m' * 90 ∧ m_capacity m' ≤ 2 ^ 57.
Proof.
  intros [Hok Hent Ht Hload] Hcap. unfold grow.
  assert (∃ lg, 0 ≤ lg ≤ 57 ∧ (let cap := u64 (m_capacity m * 2) in
    if cap <? min_capacity then min_capacity else cap) = 2 ^ lg ∧ m_capacity m * 2 ≤ 2 ^ lg ∧ 8 ≤ 2 ^ lg)
    as (lg & Hlg & Hnew & Hdbl & H8).
  { destruct Ht as [[Hz _]|Ht].
    - rewrite Hz. exists 3. done.
    - destruct (ti_cap _ _ _ Ht) as (k & Hk & Hck). simpl. rewrite Hck.
      assert (2 ^ k * 2 = 2 ^ (k + 1)) as Hsh by (rewrite Z.pow_add_r; lia).
      assert (k ≤ 56) as Hk56 by (rewrite Hck in Hcap; by apply (Z.pow_le_mono_r_iff 2)).
      assert (2 ^ (k + 1) ≤ 2 ^ 57) by (apply Z.pow_le_mono_r; lia).
      rewrite Hsh, wrap_small by (unfold is_word; lia). unfold min_capacity.
      destruct (Z.ltb_spec (2 ^ (k + 1)) 8); [exists 3|exists (k + 1)]; split; try lia. }
  cbn zeta in Hnew. cbn zeta. rewrite Hnew. clear Hnew.
  assert (2 ^ lg ≤ 2 ^ 57) by (apply Z.pow_le_mono_r; lia).
  destruct (map_set_capacity_spec m lg) as (m1 & -> & Hc1 & Hcap1 & Ht1); [lia|]. rewrite bind_Done.
  rewrite <- Hcap1 in Ht1. destruct (reinsert_spec (m_nodes m) m1 [] Ht1) as (m2 & es2 & -> & Hc2 & Hcap2 & Ht2 & Hp2).
  - rewrite Hent, Hcap1. simpl. lia.
  - intros e He. rewrite Hent in He. by apply Hok.
  - exists m2, es2. rewrite app_nil_r, Hent in Hp2. split; [done|]. split; [congruence|].
    split; [by rewrite Hcap2|]. split; [done|]. rewrite Hcap2, Hcap1. split; [|done]. lia.
Qed.

Lemma nodes_ok_cons es k v :
  nodes_ok es → hash k ≠ 0 → (list_to_map (pairs es) : gmap K V) !! k = None →
  nodes_ok (HashNode (hash k) k v :: es).
Proof.
  intros Hno Hh Hk. split.
  - intros e' [->|He']%elem_of_cons; [done|]. by apply Hno.
  - apply NoDup_cons. split; [|apply Hno]. intros (e' & Hk' & He')%list_elem_of_fmap.
    apply nodes_lookup_None with (e := e') in Hk; [|done]. by simpl in Hk'.
Qed.

Lemma map_insert_spec m M k v :
  is_map m M → M !! k = None → hash k ≠ 0 → m_capacity m ≤ 2 ^ 56 →
  ∃ m', insert hash m k v = Done m' ∧ is_map m' (<[k := v]> M).
Proof.
  intros Hm Hk Hh Hcap.
  destruct (is_map_backing m M Hm ltac:(lia)) as (es & Hb & -> & Hcnt).
  pose proof (nodes_ok_cons es k v (bk_ok _ _ Hb) Hh Hk) as Hno. set (e := HashNode (hash k) k v) in *.
  assert (0 ≤ m_capacity m) as Hc0.
  { destruct (bk_table _ _ Hb) as [[-> _]|Ht]; [done|]. pose proof (capacity_bounds _ (ti_cap _ _ _ Ht)). lia. }
  pose proof (bk_load _ _ Hb) as Hload.
  unfold insert. fold e. rewrite Hcnt, wrap_small by (unfold is_word; lia). cbn [m_count].
  set (m0 := BaseMap (Z.of_nat (length es) + 1) (m_capacity m) (m_nodes m)).
  assert (∃ m1 es1, (if Z.of_nat (length es) + 1 >? threshold m0 then grow m0 else Done m0) = Done m1 ∧
    m_count m1 = Z.of_nat (length es) + 1 ∧ table_inv (m_capacity m1) (m_nodes m1) es1 ∧ es1 ≡ₚ es ∧
    (Z.of_nat (length es) + 1) * 100 ≤ m_capacity m1 * 90 ∧ m_capacity m1 ≤ 2 ^ 57)
    as (m1 & es1 & -> & Hc1 & Ht1 & Hp1 & Hl1 & Hcap1).
  { rewrite Z.gtb_ltb. destruct (Z.ltb_spec (threshold m0) (Z.of_nat (length es) + 1)) as [Hlt|Hge].
    - destruct (grow_spec m0 es) as (m1 & es1 & H1 & H2); [destruct Hb; by split|done|]. by exists m1, es1.
    - exists m0, es. rewrite threshold_eq in Hge by (simpl; lia). simpl in *.
      pose proof (Z.mul_div_le (m_capacity m * 90) 100).
      destruct (bk_table _ _ Hb) as [[Hz ->]|Ht]; [rewrite Hz in *; simpl in *; lia|].
      split; [done|]. split; [done|]. split; [done|]. split; [done|]. split; lia. }
  rewrite bind_Done. assert (length es1 = length es) as Hlen by by rewrite Hp1.
  destruct (insert_node_spec m1 es1 e Ht1) as (m2 & -> & Hc2 & Hcap2 & Ht2); [lia|done|].
  exists m2. split; [done|]. eapply (is_map_table _ _ (e :: es1)).
  - by rewrite Hcap2.
  - eapply nodes_ok_perm; [|exact Hno]. by rewrite Hp1.
  - rewrite (pairs_perm es es1); [done|apply Hb|done].
  - rewrite Hc2, Hc1. simpl. lia.
  - rewrite Hc2, Hc1, threshold_eq by (rewrite Hcap2; pose proof (capacity_bounds _ (ti_cap _ _ _ Ht1)); lia).
    rewrite Hcap2. apply Z.div_le_lower_bound; lia.
Qed.

(** ** Erasure *)
Lemma map_erase_spec m M k :
  is_map m M →
  ∃ m', erase hash m k = Done (bool_decide (is_Some (M !! k)), m') ∧ is_map m' (delete k M).
Proof.
  intros Hm. destruct (lookup_node_spec m M k Hm) as (r & Hr & Hspec). unfold erase. rewrite Hr, bind_Done.
  destruct r as [i|].
  2:{ exists m. rewrite Hspec, delete_id by done. done. }
  destruct Hspec as (Hi & e & He & Hk & HM). rewrite HM.
  destruct Hm as [Hc Hn Hcnt ->|es Ht Hn -> Hcnt Hth]; [by rewrite lookup_empty in HM|].
  pose proof (capacity_bounds _ (ti_cap _ _ _ Ht)) as HCb. pose proof (threshold_lt m HCb).
  unfold erase_node. rewrite arr_set_Done, bind_Done by (rewrite (ti_len _ _ _ Ht); lia).
  destruct (rh_erase h _ (ti_cap _ _ _ Ht) (m_nodes m) i e) as (tbl' & -> & Hl' & Hok' & Hp');
    [apply Ht|apply Ht|eapply table_open; [done|lia]|done|done|].
  rewrite !bind_Done. eexists. split; [done|].
  assert (es ≡ₚ e :: entries tbl') as Hp by by rewrite <- (ti_entries _ _ _ Ht).
  assert (nodes_ok (e :: entries tbl')) as Hno by by eapply nodes_ok_perm.
  assert (length es = S (length (entries tbl'))) as Hlen by (rewrite Hp; done).
  eapply (is_map_table _ _ (entries tbl')); simpl.
  - split; [apply Ht|rewrite Hl'; apply Ht|done|done].
  - destruct Hno as [H1 H2]. split; [intros e' He'; apply H1; by right|]. by apply NoDup_cons in H2 as [_ ?].
  - rewrite (pairs_perm es _ Hn Hp). simpl. rewrite <- Hk. apply delete_insert_id.
    apply nodes_lookup_None. intros e' He' Hke. destruct Hno as [_ [Hnin _]%NoDup_cons].
    apply Hnin. rewrite <- Hke. by apply list_elem_of_fmap_2.
  - rewrite Hcnt, Hlen, wrap_small by (unfold is_word; lia). lia.
  - rewrite wrap_small by (unfold is_word; lia). unfold threshold in *. simpl in *. lia.
Qed.

Lemma map_find_spec m M k : is_map m M → find hash m k = Done (M !! k).
Proof.
  intros Hm. destruct (lookup_node_spec m M k Hm) as (r & Hr & Hspec). unfold find. rewrite Hr, bind_Done.
  destruct r as [i|]; [|by rewrite Hspec]. destruct Hspec as (Hi & e & He & Hk & ->).
  destruct Hm as [Hc Hn Hcnt ->|es Ht Hn -> Hcnt Hth]; [rewrite Hc in Hi; lia|].
  rewrite (cell_get (m_capacity m)), He by (done || apply Ht). done.
Qed.

(** ** Operation sequences *)
Inductive map_op := MInsert (k : K) (v : V) | MErase (k : K) | MFind (k : K).
Inductive map_result := RNone | RErased (found : bool) | RFound (v : option V).

Definition map_run1 m (op : map_op) : outcome (map_result * base_map K V) :=
  match op with
  | MInsert k v => let* m := insert hash m k v in Done (RNone, m)
  | MErase k => let* (b, m) := erase hash m k in Done (RErased b, m)
  | MFind k => let* o := find hash m k in Done (RFound o, m)
  end.
Fixpoint map_run m (ops : list map_op) : outcome (list map_result * base_map K V) :=
  match ops with
  | [] => Done ([], m)
  | op :: ops => let* (r, m) := map_run1 m op in let* (rs, m) := map_run m ops in Done (r :: rs, m)
  end.

(** The same on finite maps; inserting a key that is present, or one whose hash is the free marker,
    is outside of the contract. *)
Definition fin_run1 M (op : map_op) : option (map_result * gmap K V) :=
  match op with
  | MInsert k v =>
      if decide (M !! k = None ∧ hash k ≠ 0) then Some (RNone, <[k := v]> M) else None
  | MErase k => Some (RErased (bool_decide (is_Some (M !! k))), delete k M)
  | MFind k => Some (RFound (M !! k), M)
  end.
Fixpoint fin_run M (ops : list map_op) : option (list map_result * gmap K V) :=
  match ops with
  | [] => Some ([], M)
  | op :: ops =>
      match fin_run1 M op with
      | Some (r, M) => match fin_run M ops with Some (rs, M) => Some (r :: rs, M) | None => None end
      | None => None
      end
  end.

Lemma is_map_count m M : is_map m M → m_count m = Z.of_nat (size M).
Proof.
  intros [Hc Hn Hcnt ->|es Ht Hn -> Hcnt Hth]; [by rewrite map_size_empty|].
  rewrite Hcnt, map_size_list_to_map by (rewrite pairs_fst; apply Hn).
  unfold pairs. by rewrite length_fmap.
Qed.

Lemma new_map_spec :
  new_map 0 = Done (BaseMap 0 0 [] : base_map K V) ∧ is_map (BaseMap 0 0 []) ∅.
Proof. split; [done|]. by apply is_map_none. Qed.
End model.

Section capacity.
Context {K V : Type} `{Countable K} (hash : K → Z).
Implicit Types (m : base_map K V).

(** Growing doubles the capacity; the other operations keep it. *)
Lemma reinsert_capacity m old m' : reinsert m old = Done m' → m_capacity m' = m_capacity m.
Proof.
  revert m. induction old as [|[e|] old IH]; intros m Hr; cbn [reinsert] in Hr; [by simplify_eq| |by apply IH].
  apply bind_Done_inv in Hr as (m1 & H1 & H2). apply IH in H2. rewrite H2. unfold insert_node in H1.
  apply bind_Done_inv in H1 as (? & _ & H1). apply bind_Done_inv in H1 as (? & _ & H1). by simplify_eq.
Qed.

Lemma map_run1_capacity m op r m' :
  0 ≤ m_capacity m ≤ 2 ^ 56 → 0 ≤ m_count m < 2 ^ 56 → map_run1 hash m op = Done (r, m') →
  0 ≤ m_capacity m' ≤ Z.max (m_capacity m) (3 * m_count m + 8).
Proof.
  intros Hc Hn Hr. destruct op as [k v|k|k]; cbn [map_run1] in Hr.
  - apply bind_Done_inv in Hr as (m1 & H1 & H2). simplify_eq. unfold insert in H1.
    apply bind_Done_inv in H1 as (m2 & H1 & H2). unfold insert_node in H2.
    apply bind_Done_inv in H2 as (? & _ & H2). apply bind_Done_inv in H2 as (? & _ & H2). simplify_eq. simpl.
    rewrite Z.gtb_ltb in H1. cbn [m_count] in H1. rewrite wrap_small, threshold_eq in H1 by (unfold is_word; simpl; lia).
    cbn [m_capacity] in H1. destruct (Z.ltb_spec (m_capacity m * 90 / 100) (m_count m + 1)); simplify_eq; simpl; [|lia].
    unfold grow in H1. apply bind_Done_inv in H1 as (m3 & H1 & H2).
    apply reinsert_capacity in H2. rewrite H2. unfold set_capacity in H1.
    apply bind_Done_inv in H1 as (? & _ & H1). simplify_eq. simpl.
    pose proof (Z.mul_succ_div_gt (m_capacity m * 90) 100).
    rewrite wrap_small by (unfold is_word; lia). unfold min_capacity. zcases; lia.
  - apply bind_Done_inv in Hr as ([b m1] & H1 & H2). simplify_eq. unfold erase in H1.
    apply bind_Done_inv in H1 as (o & _ & H1). destruct o; [|simplify_eq; lia].
    apply bind_Done_inv in H1 as (m2 & H1 & H2). simplify_eq. unfold erase_node in H1.
    apply bind_Done_inv in H1 as (? & _ & H1). apply bind_Done_inv in H1 as (? & _ & H1). simplify_eq. simpl. lia.
  - apply bind_Done_inv in Hr as (v & _ & H2). simplify_eq. lia.
Qed.

Lemma fin_run1_size (M : gmap K V) op r M' : fin_run1 hash M op = Some (r, M') → (size M' ≤ S (size M))%nat.
Proof.
  destruct op as [k v|k|k]; cbn [fin_run1]; [case_decide as Hd|..]; intros; simplify_eq; [| |lia].
  - by rewrite map_size_insert_None by apply Hd.
  - rewrite map_size_delete. destruct (M !! k); simpl; lia.
Qed.
End capacity.

(** ** Properties *)

(** a map object refines a finite map.  From any state that stands for the finite map [M], every
    sequence of inserts of new keys, erasures and lookups terminates without undefined behaviour and
    without failing an assertion, returns what the finite map returns, and ends in a state that stands
    for the resulting finite map, with the right count: through collisions, displacement of entries,
    growth and rehashing, and the backward shift of erasure across the end of the array.  The bound
    keeps the load computation of [threshold] within 64 bits. *)
Theorem map_run_refines {K V} `{Countable K} (hash : K → Z) (m : base_map K V) M ops rs M' :
  is_map hash m M → 0 ≤ m_capacity m ≤ 2 ^ 56 →
  3 * (Z.of_nat (size M) + Z.of_nat (length ops)) + 8 ≤ 2 ^ 56 →
  fin_run hash M ops = Some (rs, M') →
  ∃ m', map_run hash m ops = Done (rs, m') ∧ is_map hash m' M' ∧ m_count m' = Z.of_nat (size M').
Proof.
  revert m M rs. induction ops as [|op ops IH]; intros m M rs Hm H0 Hcap Hf; cbn [fin_run map_run] in *.
  { simplify_eq. exists m. split; [done|]. split; [done|]. by eapply is_map_count. }
  destruct (fin_run1 hash M op) as [[r M1]|] eqn:E1; [|done].
  destruct (fin_run hash M1 ops) as [[rs1 M2]|] eqn:E2; simplify_eq. simpl length in Hcap.
  assert (∃ m1, map_run1 hash m op = Done (r, m1) ∧ is_map hash m1 M1) as (m1 & Hr & Hm1).
  { destruct op as [k v|k|k]; cbn [fin_run1 map_run1] in *.
    - case_decide as Hd; simplify_eq. destruct (map_insert_spec hash m M k v Hm) as (m1 & -> & ?);
        [naive_solver|naive_solver|lia|]. by exists m1.
    - simplify_eq. destruct (map_erase_spec hash m M k Hm) as (m1 & -> & ?). by exists m1.
    - simplify_eq. rewrite (map_find_spec hash m M1 k Hm). by exists m. }
  rewrite Hr, bind_Done. pose proof (fin_run1_size hash M op r M1 E1). pose proof (is_map_count _ _ _ Hm) as Hcnt.
  pose proof (map_run1_capacity hash m op r m1 H0 ltac:(lia) Hr) as Hc1.
  destruct (IH m1 M1 rs1 Hm1) as (m' & -> & Hm' & Hcnt'); [lia|lia|done|]. by exists m'.
Qed.

(** integer maps cannot hold the key 0.  [util::hash] of 0 is 0, the marker of a free node, so
    inserting the key 0 into any map object over unsigned integer keys fails the assertion of
    [insert_node]. *)
Theorem insert_key_zero {V} (m : base_map Z V) M v :
  is_map hash_uint m M → 0 ≤ m_capacity m ≤ 2 ^ 56 → insert hash_uint m 0 v = Panic.
Proof.
  intros Hm Hc. destruct (is_map_backing _ m M Hm ltac:(lia)) as (es & Hb & -> & Hcnt).
  unfold insert. assert (hash_uint 0 = 0) as -> by reflexivity. cbn [m_count].
  case_match; [|done]. destruct (grow_spec hash_uint (BaseMap (u64 (m_count m + 1)) (m_capacity m) (m_nodes m)) es)
    as (m1 & es1 & -> & _); [destruct Hb; by split|simpl; lia|]. done.
Qed.

(** *** Instances *)
Lemma map_run_refines_witness :
  ∃ m', map_run hash_uint (BaseMap 0 0 []) [MInsert 1 10; MInsert 2 20; MErase 1; MFind 2; MFind 1]
    = Done ([RNone; RNone; RErased true; RFound (Some 20); RFound None], m') ∧
    is_map hash_uint m' (delete 1 (<[2 := 20]> (<[1 := 10]> ∅))).
Proof.
  destruct (map_run_refines hash_uint (BaseMap 0 0 []) ∅
    [MInsert 1 10; MInsert 2 20; MErase 1; MFind 2; MFind 1]
    [RNone; RNone; RErased true; RFound (Some 20); RFound None] (delete 1 (<[2 := 20]> (<[1 := 10]> ∅))))
    as (m' & H1 & H2 & _).
  - apply new_map_spec.
  - simpl. lia.
  - rewrite map_size_empty. simpl. lia.
  - vm_compute. reflexivity.
  - exists m'. exact (conj H1 H2).
Defined.

Lemma insert_key_zero_witness : insert hash_uint (BaseMap 0 0 []) 0 7 = Panic.
Proof. apply (insert_key_zero (BaseMap 0 0 []) ∅ 7); [apply new_map_spec|simpl; lia]. Defined.
