(* ===== verification/NodeMap.v ===== *)
(** * util::node_map and util::node_set (libraries/util/include/util/node_map.h)

    A Robin Hood table whose slots are the nodes themselves: the key is a field of the node
    ([get_map_key]) and a slot is open when its key is [invalid_id].  [m_nodes] has one element per
    slot, [None] for an open one (what else is in a dead node is never read).  The loops are the ones
    of the class, with the array bounds checked by [arr_get] and [arr_set]; [hash] is the key's hash.
    The finite map [is_nmap] gives a node_map is keyed by the nodes' keys. *)
From S2P Require Import Prelude Bits RobinHood.

Record node_map (V : Type) := NodeMap {
  m_count : Z;
  m_capacity : Z;
  m_nodes : list (option V);
}.
Arguments NodeMap {V} _ _ _.
Arguments m_count {V} _.
Arguments m_capacity {V} _.
Arguments m_nodes {V} _.

Section operations.
Context {K V : Type} `{EqDecision K} (hash : K → Z) (get_map_key : V → K) (invalid_id : K).
Implicit Types (m : node_map V) (k : K) (v : V) (tbl : list (option V)).

Definition max_load : Z := 90.
Definition min_capacity : Z := 16.
Definition threshold m : Z := u64 (m_capacity m * max_load) / 100.

(** What a slot looks like to the class once [v] is stored in it, and the key read from a slot. *)
Definition slot_of v : option V := if bool_decide (get_map_key v = invalid_id) then None else Some v.
Definition key_at (o : option V) : K := match o with Some v => get_map_key v | None => invalid_id end.

Definition nm_hash v : Z := hash (get_map_key v).
Definition nm_psl (capacity : Z) v (slot : Z) : Z := offset capacity (nm_hash v) slot.

Definition new_node_map (capacity : Z) : outcome (node_map V) :=
  if capacity =? 0 then Done (NodeMap 0 0 [])
  else
    let* lg := log2 capacity in
    let* c := shl64 1 lg in
    Done (NodeMap 0 c (replicate (Z.to_nat c) None)).

(** [lookup]: the slot of the key, if found. *)
Fixpoint lookup_loop (fuel : nat) m k (slot dist : Z) : outcome (option Z) :=
  match fuel with
  | O => Diverge
  | S fuel =>
      let* at_slot := arr_get (m_nodes m) slot in
      if bool_decide (key_at at_slot = k) then Done (Some slot)
      else
        match at_slot with
        | None => Done None
        | Some n =>
            if dist >? nm_psl (m_capacity m) n slot then Done None
            else lookup_loop fuel m k (mod_ (m_capacity m) (slot + 1)) (dist + 1)
        end
  end.

Definition nm_lookup m k : outcome (option Z) :=
  if m_count m =? 0 then Done None
  else lookup_loop (Z.to_nat (m_capacity m)) m k (mod_ (m_capacity m) (hash k)) 0.

(** [find], as what the pointer it returns points to; following a pointer to an open slot reads a node
    whose destructor has run. *)
Definition nm_find m k : outcome (option V) :=
  let* slot := nm_lookup m k in
  match slot with
  | None => Done None
  | Some slot =>
      let* o := arr_get (m_nodes m) slot in
      let* v := deref o in Done (Some v)
  end.

(** [find] and a write through the pointer it returned. *)
Definition nm_update m k (f : V → V) : outcome (node_map V) :=
  let* slot := nm_lookup m k in
  match slot with
  | None => Undef
  | Some slot =>
      let* o := arr_get (m_nodes m) slot in
      let* v := deref o in
      let* tbl := arr_set (m_nodes m) slot (slot_of (f v)) in
      Done (NodeMap (m_count m) (m_capacity m) tbl)
  end.

(** The loop of [insert].  The node being placed, [node], is a reference: when [grow] passes a node
    of the table itself ([ref]), each swap also writes the displaced node into that slot. *)
Definition write_ref (ref : option Z) tbl v : outcome (list (option V)) :=
  match ref with None => Done tbl | Some r => arr_set tbl r (slot_of v) end.

Fixpoint insert_loop (fuel : nat) (capacity : Z) (ref : option Z) tbl (node : V) (slot dist : Z)
    (inserted_at : option Z) : outcome (list (option V) * Z) :=
  match fuel with
  | O => Diverge
  | S fuel =>
      let* at_slot := arr_get tbl slot in
      match at_slot with
      | None =>
          let* tbl := arr_set tbl slot (slot_of node) in
          Done (tbl, match inserted_at with Some i => i | None => slot end)
      | Some other =>
          let psl_at_slot := nm_psl capacity other slot in
          if dist >? psl_at_slot then
            let* tbl := arr_set tbl slot (slot_of node) in
            let* tbl := write_ref ref tbl other in
            insert_loop fuel capacity ref tbl other (mod_ capacity (slot + 1)) (psl_at_slot + 1)
              (match inserted_at with Some i => Some i | None => Some slot end)
          else insert_loop fuel capacity ref tbl node (mod_ capacity (slot + 1)) (dist + 1) inserted_at
      end
  end.

Definition insert_probe m (ref : option Z) (node : V) : outcome (Z * node_map V) :=
  let* (tbl, at_) := insert_loop (Z.to_nat (m_capacity m)) (m_capacity m) ref (m_nodes m) node
                       (mod_ (m_capacity m) (nm_hash node)) 0 None in
  Done (at_, NodeMap (m_count m) (m_capacity m) tbl).

(** [fixup]: the slot [slot] was vacated.  [++slot] is not reduced modulo the capacity. *)
Fixpoint fixup (fuel : nat) (capacity : Z) tbl (slot : Z) : outcome (list (option V)) :=
  match fuel with
  | O => Diverge
  | S fuel =>
      let next_slot := mod_ capacity (slot + 1) in
      let* next := arr_get tbl next_slot in
      match next with
      | None => Done tbl
      | Some n =>
          if nm_psl capacity n next_slot =? 0 then Done tbl
          else
            let* tbl := arr_set tbl slot (Some n) in
            let* tbl := arr_set tbl next_slot None in
            fixup fuel capacity tbl (slot + 1)
      end
  end.

Definition nm_erase m k : outcome (bool * node_map V) :=
  let* slot := nm_lookup m k in
  match slot with
  | None => Done (false, m)
  | Some slot =>
      let* tbl := arr_set (m_nodes m) slot None in
      let* tbl := fixup (Z.to_nat (m_capacity m)) (m_capacity m) tbl slot in
      Done (true, NodeMap (u64 (m_count m - 1)) (m_capacity m) tbl)
  end.

(** The two loops of [grow], over the slots [slot .. slot + n - 1] and down from [slot]; [ins] is the
    recursive call of [insert] on a node of the table. *)
Fixpoint move_up (ins : node_map V → option Z → V → outcome (Z * node_map V)) (n : nat) m (slot : Z) :
    outcome (node_map V) :=
  match n with
  | O => Done m
  | S n =>
      let* o := arr_get (m_nodes m) slot in
      match o with
      | None => move_up ins n m (slot + 1)
      | Some v =>
          if mod_ (m_capacity m) (nm_hash v) <=? slot then move_up ins n m (slot + 1)
          else
            let* (_, m) := ins (NodeMap (u64 (m_count m - 1)) (m_capacity m) (m_nodes m)) (Some slot) v in
            let* tbl := arr_set (m_nodes m) slot None in
            move_up ins n (NodeMap (m_count m) (m_capacity m) tbl) (slot + 1)
      end
  end.

Fixpoint fixup_down (n : nat) m : outcome (node_map V) :=
  match n with
  | O => Done m
  | S n =>
      let* o := arr_get (m_nodes m) (Z.of_nat n) in
      match o with
      | Some _ => fixup_down n m
      | None =>
          let* tbl := fixup (Z.to_nat (m_capacity m)) (m_capacity m) (m_nodes m) (Z.of_nat n) in
          fixup_down n (NodeMap (m_count m) (m_capacity m) tbl)
      end
  end.

Definition grow (ins : node_map V → option Z → V → outcome (Z * node_map V)) m : outcome (node_map V) :=
  let old_capacity := m_capacity m in
  let new_capacity := u64 (m_capacity m * 2) in
  let new_capacity := if new_capacity <? min_capacity then min_capacity else new_capacity in
  let tbl := m_nodes m ++ replicate (Z.to_nat (new_capacity - old_capacity)) None in
  let* m := move_up ins (Z.to_nat old_capacity) (NodeMap (m_count m) new_capacity tbl) 0 in
  fixup_down (Z.to_nat old_capacity) m.

(** [insert] and [grow] call each other; a growth inside a growth is at a capacity twice as large, so
    64 levels are more than there are capacities. *)
Fixpoint insert_node (depth : nat) m (ref : option Z) (node : V) : outcome (Z * node_map V) :=
  let m := NodeMap (u64 (m_count m + 1)) (m_capacity m) (m_nodes m) in
  if m_count m >? threshold m then
    match depth with
    | O => Diverge
    | S depth => let* m := grow (insert_node depth) m in insert_probe m ref node
    end
  else insert_probe m ref node.

Definition nm_insert m (node : V) : outcome (Z * node_map V) := insert_node 64 m None node.

(** [operator[]]: the slot of the key's node, made from a new node ([blank k]) when there is none. *)
Definition nm_index m k (blank : K → V) : outcome (Z * node_map V) :=
  let* slot := nm_lookup m k in
  match slot with
  | Some slot => Done (slot, m)
  | None => nm_insert m (blank k)
  end.

(** The nodes an iteration from [begin] to [end] visits.  (The last increment also reads the key one
    past the array, and stops there whatever it finds.) *)
Definition nm_items m : list V := if m_count m =? 0 then [] else omap id (m_nodes m).
End operations.

(** [node_set]: a node_map whose nodes are the items. *)
Section node_set.
Context {T : Type} `{EqDecision T} (hash : T → Z) (invalid_id : T).
Definition set_contains (s : node_map T) (item : T) : outcome bool :=
  let* p := nm_lookup hash id invalid_id s item in
  Done (match p with Some _ => true | None => false end).
Definition set_add (s : node_map T) (item : T) : outcome (bool * node_map T) :=
  let* (there : bool) := set_contains s item in
  if there then Done (false, s)
  else let* (_, s) := nm_insert hash id invalid_id s item in Done (true, s).
Definition set_remove (s : node_map T) (item : T) : outcome (bool * node_map T) :=
  nm_erase hash id invalid_id s item.
End node_set.

(** ** The finite map behind a node_map *)
Section model.
Context {K V : Type} `{Countable K} (hash : K → Z) (get_map_key : V → K) (invalid_id : K).
Implicit Types (m : node_map V) (M : gmap K V) (k : K) (v : V) (tbl : list (option V)) (es : list V).
Notation nhash := (nm_hash hash get_map_key).
Notation key := get_map_key.

Definition by_key es : gmap K V := list_to_map ((λ v, (key v, v)) <$> es).

Record nm_table m es : Prop := {
  nt_cap : ∃ lg, 0 ≤ lg ≤ 62 ∧ m_capacity m = 2 ^ lg;
  nt_len : Z.of_nat (length (m_nodes m)) = m_capacity m;
  nt_ok : rh_ok nhash (m_capacity m) (m_nodes m);
  nt_entries : entries (m_nodes m) ≡ₚ es;
  nt_count : m_count m = Z.of_nat (length es);
  nt_load : m_count m ≤ threshold m;
}.

Record nm_keys es : Prop := {
  nk_valid : ∀ v, v ∈ es → key v ≠ invalid_id;
  nk_nodup : NoDup (key <$> es);
}.

Inductive is_nmap m M : Prop :=
  | is_nmap_none : m_capacity m = 0 → m_nodes m = [] → m_count m = 0 → M = ∅ → is_nmap m M
  | is_nmap_table es : nm_table m es → nm_keys es → M = by_key es → is_nmap m M.

Lemma by_key_Some es k v : nm_keys es → by_key es !! k = Some v ↔ v ∈ es ∧ key v = k.
Proof.
  intros [_ Hnd]. unfold by_key. rewrite <- elem_of_list_to_map.
  - rewrite list_elem_of_fmap. naive_solver.
  - by rewrite <- list_fmap_compose.
Qed.

Lemma by_key_None es k : by_key es !! k = None ↔ ∀ v, v ∈ es → key v ≠ k.
Proof.
  unfold by_key. rewrite <- not_elem_of_list_to_map, <- list_fmap_compose, list_elem_of_fmap. naive_solver.
Qed.

Lemma by_key_perm es es' : nm_keys es → es ≡ₚ es' → by_key es = by_key es'.
Proof.
  intros [_ Hnd] Hp. apply list_to_map_proper; [by rewrite <- list_fmap_compose|]. by rewrite Hp.
Qed.

Lemma nm_keys_perm es es' : es ≡ₚ es' → nm_keys es → nm_keys es'.
Proof. intros Hp [H1 H2]. split; [intros v; rewrite <- Hp; apply H1|by rewrite <- Hp]. Qed.

Lemma by_key_cons v es : by_key (v :: es) = <[key v := v]> (by_key es).
Proof. done. Qed.

Lemma nm_keys_cons v es :
  nm_keys (v :: es) ↔ key v ≠ invalid_id ∧ nm_keys es ∧ by_key es !! key v = None.
Proof.
  rewrite by_key_None. split.
  - intros [H1 [Hn H2]%NoDup_cons]. split; [apply H1; left|]. split; [split; [intros; apply H1; by right|done]|].
    intros w Hw E. apply Hn. rewrite <- E. apply list_elem_of_fmap. eauto.
  - intros (H1 & [H2 H3] & H4). split; [intros w [->|Hw]%elem_of_cons; [done|by apply H2]|].
    simpl. apply NoDup_cons. split; [|done]. intros (w & Hw & Hin)%list_elem_of_fmap. by apply (H4 w).
Qed.

Lemma nm_threshold_lt m : 0 < m_capacity m ≤ 2 ^ 62 → threshold m < m_capacity m.
Proof.
  intros Hc. unfold threshold, max_load, wrap.
  pose proof (Z.mod_le (m_capacity m * 90) (2 ^ 64)). apply Z.div_lt_upper_bound; lia.
Qed.

Lemma nm_open m es : nm_table m es → has_open (m_capacity m) (m_nodes m).
Proof.
  intros [Hc Hl _ Hp Hcnt Hld]. pose proof (capacity_bounds _ Hc). pose proof (nm_threshold_lt m).
  apply open_slot; [done|]. rewrite Hp. lia.
Qed.

Lemma key_valid m es i v :
  nm_table m es → nm_keys es → cell (m_capacity m) (m_nodes m) i = Some v → v ∈ es ∧ key v ≠ invalid_id.
Proof.
  intros [Hc Hl _ Hp _ _] Hk He. assert (v ∈ es) as Hv; [|by split; [|apply Hk]].
  rewrite <- Hp. apply (cell_entries _ Hc); [done|]. pose proof (capacity_bounds _ Hc).
  exists (i mod m_capacity m). split; [apply Z.mod_pos_bound; lia|]. rewrite <- He. apply cell_mod.
  by rewrite Z.mod_mod by lia.
Qed.

(** ** Lookup *)
Lemma lookup_loop_spec m es k fuel t n :
  nm_table m es → nm_keys es → k ≠ invalid_id →
  0 ≤ t → 0 ≤ n < Z.of_nat fuel → cell (m_capacity m) (m_nodes m) (hash k + t + n) = None →
  (∀ u v, 0 ≤ u < t → cell (m_capacity m) (m_nodes m) (hash k + u) = Some v → key v ≠ k) →
  ∃ r, lookup_loop hash key invalid_id fuel m k ((hash k + t) mod m_capacity m) t = Done r ∧
    match r with
    | Some i => 0 ≤ i < m_capacity m ∧ ∃ v, cell (m_capacity m) (m_nodes m) i = Some v ∧ key v = k
    | None => ∀ v, v ∈ es → key v ≠ k
    end.
Proof.
  intros Ht Hn Hk. pose proof Ht as [HC Hl Hok Hp _ _]. pose proof (capacity_bounds _ HC) as HCb.
  set (C := m_capacity m) in *. revert t n. induction fuel as [|fuel IH]; intros t n Ht0 Hfu Hop Hseen; [lia|].
  set (i := (hash k + t) mod C). assert (0 ≤ i < C) as Hi by (apply Z.mod_pos_bound; lia).
  assert (i mod C = (hash k + t) mod C) as Him by (unfold i; rewrite Z.mod_mod by lia; done).
  assert (∀ v, v ∈ es → key v = k →
    (∀ e', cell C (m_nodes m) (hash k + t) = Some e' → psl nhash C e' (hash k + t) < t) → False) as Hmiss.
  { intros v He Hkv Hstop. rewrite <- Hp in He. apply (cell_entries C HC) in He as (j & Hj & Hcj); [|done].
    destruct (probe_complete nhash C HC (m_nodes m) (hash k) t j v Hok Ht0 Hstop Hcj) as [Hlt Hcell].
    { unfold nm_hash. by rewrite Hkv. }
    eapply Hseen; [|exact Hcell|done]. pose proof (psl_bound nhash C HC v j). lia. }
  cbn [lookup_loop]. fold C. rewrite (cell_get C) by done. rewrite bind_Done.
  rewrite (cell_mod _ _ _ _ Him). destruct (cell C (m_nodes m) (hash k + t)) as [e|] eqn:Hc.
  2:{ cbn [key_at]. rewrite bool_decide_false by congruence.
      exists None. split; [done|]. intros e He Hke. by eapply Hmiss. }
  cbn [key_at]. case_bool_decide as Hke.
  { exists (Some i). split; [done|]. split; [done|]. exists e. by rewrite (cell_mod _ _ _ _ Him). }
  unfold nm_psl. rewrite offset_spec, Z.gtb_ltb by done. fold (psl nhash C e i). rewrite (psl_mod nhash C e _ _ Him).
  destruct (Z.ltb_spec (psl nhash C e (hash k + t)) t).
  { exists None. split; [done|]. intros e0 He Hke'. eapply Hmiss; [done|done|]. intros e' [= <-]. done. }
  rewrite mod_spec by done; assert (n ≠ 0) by (intros ->; rewrite Z.add_0_r in Hop; congruence).
  assert ((i + 1) mod C = (hash k + (t + 1)) mod C) as ->
    by (unfold i; rewrite Zplus_mod_idemp_l; f_equal; lia).
  apply (IH (t + 1) (n - 1)); [lia|lia|by replace (hash k + (t + 1) + (n - 1)) with (hash k + t + n) by lia|].
  intros u e1 Hu Hc1; destruct (decide (u = t)) as [->|]; [congruence|]; apply (Hseen u e1); [lia|done].
Qed.

Lemma nm_lookup_spec m M k :
  is_nmap m M → k ≠ invalid_id →
  ∃ r, nm_lookup hash key invalid_id m k = Done r ∧
    match r with
    | Some i => 0 ≤ i < m_capacity m ∧
        ∃ v, cell (m_capacity m) (m_nodes m) i = Some v ∧ key v = k ∧ M !! k = Some v
    | None => M !! k = None
    end.
Proof.
  intros Hm Hk. unfold nm_lookup. destruct Hm as [Hc Hn Hcnt ->|es Ht Hn ->].
  { rewrite Hcnt. by exists None. }
  destruct (Z.eqb_spec (m_count m) 0) as [E|E].
  { exists None. split; [done|]. rewrite (nt_count _ _ Ht) in E. destruct es; [done|]. simpl in E. lia. }
  pose proof (capacity_bounds _ (nt_cap _ _ Ht)) as HCb.
  destruct (open_within _ (nt_cap _ _ Ht) (m_nodes m) (hash k + 0)) as (n & Hnb & Hnc); [by eapply nm_open|].
  rewrite (mod_spec _ (nt_cap _ _ Ht)). replace (hash k mod m_capacity m) with ((hash k + 0) mod m_capacity m)
    by (f_equal; lia).
  destruct (lookup_loop_spec m es k (Z.to_nat (m_capacity m)) 0 n Ht Hn Hk) as (r & Hr & Hspec);
    [lia|lia|done|lia|].
  exists r. split; [done|]. destruct r as [i|]; [|by apply by_key_None].
  destruct Hspec as (Hi & e & He & Hke). split; [done|]. exists e. split; [done|]. split; [done|].
  apply by_key_Some; [done|]. split; [|done]. by eapply key_valid.
Qed.

Lemma nm_find_spec m M k :
  is_nmap m M → k ≠ invalid_id → nm_find hash key invalid_id m k = Done (M !! k).
Proof.
  intros Hm Hk. unfold nm_find. destruct (nm_lookup_spec m M k Hm Hk) as ([i|] & -> & Hr); rewrite bind_Done.
  - destruct Hr as (Hi & v & Hc & _ & ->). destruct Hm as [? ? ? ?|es Ht _ _]; [lia|].
    rewrite (cell_get (m_capacity m)) by (done || apply Ht). by rewrite Hc, bind_Done.
  - by rewrite Hr.
Qed.

(** ** Insertion without growth *)
Definition slots_valid tbl : Prop := ∀ i v, tbl !! i = Some (Some v) → key v ≠ invalid_id.

Lemma slot_of_valid v : key v ≠ invalid_id → slot_of key invalid_id v = Some v.
Proof. intros. unfold slot_of. by rewrite bool_decide_false. Qed.

Lemma slots_valid_set tbl i v : slots_valid tbl → key v ≠ invalid_id → slots_valid (<[i := Some v]> tbl).
Proof. intros Ht Hv j w [(_ & [= <-] & _)|[_ Hj]]%list_lookup_insert_Some; [done|by eapply Ht]. Qed.

(** The loop of [insert] and the one of [base_map::insert_node] build the same table. *)
Lemma insert_loop_rh fuel C tbl e i d ia tbl' :
  slots_valid tbl → key e ≠ invalid_id → 0 ≤ i → rh_insert nhash fuel C tbl e i d = Done tbl' →
  ∃ idx, insert_loop hash key invalid_id fuel C None tbl e i d ia = Done (tbl', idx).
Proof.
  revert tbl e i d ia. induction fuel as [|fuel IH]; intros tbl e i d ia Hv He Hi Hr; [done|].
  cbn [rh_insert insert_loop] in *. revert Hr.
  destruct (arr_get tbl i) as [[elem|]| | |] eqn:Hg; intros Hr; try done.
  all: rewrite bind_Done in Hr; rewrite bind_Done; rewrite (slot_of_valid _ He).
  - assert (key elem ≠ invalid_id) as Hel.
    { apply (Hv (Z.to_nat i)). unfold arr_get in Hg. rewrite (proj2 (Z.leb_le 0 i)) in Hg by lia.
      destruct (tbl !! Z.to_nat i); naive_solver. }
    assert (0 ≤ mod_ C (i + 1)) as Hm by (apply Z.land_nonneg; lia).
    unfold nm_psl. rewrite Z.gtb_ltb. case_match.
    + apply bind_Done_inv in Hr as (tbl1 & Hs & Hr). rewrite Hs, bind_Done.
      cbn [write_ref]. rewrite bind_Done. apply IH; try done.
      apply arr_set_Done_inv in Hs as [_ ->]. by apply slots_valid_set.
    + by apply IH.
  - rewrite Hr, bind_Done. eauto.
Qed.

(** ... and returns the slot the new node is in: the slots behind the probe are not written again. *)
Lemma insert_loop_at fuel C tbl e i d ia tbl' idx n :
  (∃ lg, 0 ≤ lg ≤ 62 ∧ C = 2 ^ lg) → Z.of_nat (length tbl) = C → slots_valid tbl → key e ≠ invalid_id →
  0 ≤ i < C → 0 ≤ n < C → cell C tbl (i + n) = None →
  insert_loop hash key invalid_id fuel C None tbl e i d ia = Done (tbl', idx) →
  (∀ j, (∀ t, 0 ≤ t ≤ n → (i + t) mod C ≠ j mod C) → cell C tbl' j = cell C tbl j) ∧
  match ia with Some i0 => idx = i0 | None => 0 ≤ idx < C ∧ cell C tbl' idx = Some e end.
Proof.
  intros HC. pose proof (capacity_bounds _ HC) as HCb.
  revert tbl e i d ia n. induction fuel as [|fuel IH]; intros tbl e i d ia n Hl Hv He Hi Hn Ho Hr; [done|].
  cbn [insert_loop] in Hr. rewrite (cell_get C) in Hr by done. rewrite bind_Done in Hr.
  assert (i mod C = i) as Hii by by apply Z.mod_small.
  rewrite (slot_of_valid _ He) in Hr. rewrite arr_set_Done in Hr by lia. rewrite !bind_Done in Hr.
  destruct (cell C tbl i) as [elem|] eqn:Hel.
  2:{ injection Hr as <- <-. split.
      - intros j Hj. rewrite cell_insert, decide_False by (done || (specialize (Hj 0); rewrite Z.add_0_r in Hj; lia)). done.
      - destruct ia; [done|]. split; [done|]. by apply cell_here. }
  assert (n ≠ 0) as Hn0 by (intros ->; rewrite Z.add_0_r in Ho; congruence).
  assert (key elem ≠ invalid_id) as Helv.
  { apply (Hv (Z.to_nat i)). unfold cell in Hel. rewrite Hii in Hel. destruct (tbl !! Z.to_nat i); naive_solver. }
  rewrite (mod_spec C HC) in Hr. assert (0 ≤ (i + 1) mod C < C) as Hm by (apply Z.mod_pos_bound; lia).
  assert (∀ t, ((i + 1) mod C + t) mod C = (i + (t + 1)) mod C) as Hadd
    by (intros; rewrite Zplus_mod_idemp_l; f_equal; lia).
  rewrite Z.gtb_ltb in Hr. destruct (_ <? d).
  - cbn [write_ref] in Hr. rewrite bind_Done in Hr.
    assert ((i + n) mod C ≠ i) as Hin.
    { intros E. rewrite (cell_mod _ _ _ i) in Ho by congruence. congruence. }
    apply (IH _ _ _ _ _ (n - 1)) in Hr as [Hr1 Hr2]; try done; [|by rewrite length_insert|by apply slots_valid_set|lia|].
    + split.
      * intros j Hj. rewrite Hr1; [|intros t Ht; rewrite Hadd; apply Hj; lia].
        rewrite cell_insert, decide_False by (done || (specialize (Hj 0); rewrite Z.add_0_r in Hj; lia)). done.
      * destruct ia; [done|]. subst idx. split; [done|]. rewrite Hr1; [by apply cell_here|].
        intros t Ht. rewrite Hadd, Hii. intros E.
        assert (t + 1 = 0) as Hz; [|lia]. rewrite <- (Z.mod_small (t + 1) C) by lia.
        replace (t + 1) with (i + (t + 1) - i) by lia. rewrite Zminus_mod, E, Hii, Z.sub_diag. apply Z.mod_0_l. lia.
    + rewrite (cell_mod _ _ _ (i + n)) by (rewrite Hadd; f_equal; lia).
      rewrite cell_insert, decide_False by done. done.
  - apply (IH _ _ _ _ _ (n - 1)) in Hr as [Hr1 Hr2]; try done; [|lia|].
    + split; [|done]. intros j Hj. apply Hr1. intros t Ht. rewrite Hadd. apply Hj. lia.
    + rewrite (cell_mod _ _ _ (i + n)) by (rewrite Hadd; f_equal; lia). done.
Qed.

Lemma nm_table_valid m es : nm_table m es → nm_keys es → slots_valid (m_nodes m).
Proof.
  intros [_ _ _ Hp _ _] [Hv _] i v Hi. apply Hv. rewrite <- Hp. unfold entries.
  apply list_elem_of_omap. exists (Some v). split; [by eapply list_elem_of_lookup_2|done].
Qed.

Lemma nm_insert_spec m M v :
  is_nmap m M → key v ≠ invalid_id → M !! key v = None → m_count m + 1 ≤ threshold m →
  ∃ i m', nm_insert hash key invalid_id m v = Done (i, m') ∧ is_nmap m' (<[key v := v]> M) ∧
    m_capacity m' = m_capacity m ∧ arr_get (m_nodes m') i = Done (Some v).
Proof.
  intros Hm Hk Hfresh Hroom. destruct Hm as [Hc _ Hcnt _|es Ht Hn ->].
  { unfold threshold in Hroom. rewrite Hcnt, Hc in Hroom. done. }
  pose proof Ht as [HC Hl Hok Hp Hcnt Hld]. pose proof (capacity_bounds _ HC) as HCb.
  pose proof (nm_threshold_lt m HCb). unfold nm_insert. cbn [insert_node].
  rewrite wrap_small by (unfold is_word; lia). cbn [m_count].
  rewrite Z.gtb_ltb, (proj2 (Z.ltb_ge _ _)) by (change (threshold _) with (threshold m); lia).
  unfold insert_probe. cbn [m_capacity m_nodes m_count].
  destruct (rh_insert_home nhash _ HC (m_nodes m) v Hl Hok (nm_open _ _ Ht)) as (tbl & Hr & Hlt & Hok' & Hp').
  assert (0 ≤ mod_ (m_capacity m) (nhash v) < m_capacity m) as Hi by (rewrite (mod_spec _ HC); apply Z.mod_pos_bound; lia).
  destruct (insert_loop_rh _ _ _ _ _ _ None _ (nm_table_valid _ _ Ht Hn) Hk (proj1 Hi) Hr) as [idx Hins].
  destruct (open_within _ HC (m_nodes m) (mod_ (m_capacity m) (nhash v)) (nm_open _ _ Ht)) as (n & Hnb & Hno).
  destruct (insert_loop_at _ _ _ _ _ _ _ _ _ n HC Hl (nm_table_valid _ _ Ht Hn) Hk Hi Hnb Hno Hins) as [_ [Hidx Hcell]].
  rewrite Hins, bind_Done. exists idx. eexists. split; [done|]. split; [|split; [done|]].
  - apply is_nmap_table with (v :: es).
    + split; cbn [m_count m_capacity m_nodes]; [done|by rewrite Hlt|done|by rewrite Hp', Hp|simpl; lia|].
      change (threshold _) with (threshold m). lia.
    + by apply nm_keys_cons.
    + by rewrite by_key_cons.
  - cbn [m_nodes]. rewrite (cell_get (m_capacity m)), Hcell by (done || by rewrite Hlt). done.
Qed.

(** ** Removal *)
(** The node at position [j] of the ring is away from its home slot, so [fixup] would move it. *)
Definition displaced (C : Z) tbl (j : Z) : bool :=
  match cell C tbl j with Some v => negb (psl nhash C v j =? 0) | None => false end.

(** The shift that starts at slot [i] would go on past the end of the array to the node at slot 1. *)
Definition wraps (C : Z) tbl (i : Z) : bool :=
  (2 <=? i) && forallb (displaced C tbl) (seqZ (i + 1) (C + 1 - i)).

Lemma displaced_mod C tbl i j : i mod C = j mod C → displaced C tbl i = displaced C tbl j.
Proof. intros E. unfold displaced. rewrite (cell_mod _ _ _ _ E). case_match; [|done]. by rewrite (psl_mod _ _ _ _ _ E). Qed.

Lemma displaced_other C tbl i j o :
  Z.of_nat (length tbl) = C → 0 ≤ i < C → j mod C ≠ i → displaced C (<[Z.to_nat i := o]> tbl) j = displaced C tbl j.
Proof. intros. unfold displaced. by rewrite cell_insert, decide_False by done. Qed.

(** One turn of [fixup]. *)
Lemma fixup_step fuel C tbl i :
  (∃ lg, 0 ≤ lg ≤ 62 ∧ C = 2 ^ lg) → Z.of_nat (length tbl) = C →
  fixup hash key (S fuel) C tbl i =
    let next := (i + 1) mod C in
    if displaced C tbl next then
      match cell C tbl next with
      | Some n => let* tbl := arr_set tbl i (Some n) in
          let* tbl := arr_set tbl next None in fixup hash key fuel C tbl (i + 1)
      | None => Done tbl
      end
    else Done tbl.
Proof.
  intros HC Hl. pose proof (capacity_bounds _ HC). cbn [fixup]. rewrite (mod_spec _ HC).
  assert (0 ≤ (i + 1) mod C < C) as Hm by (apply Z.mod_pos_bound; lia).
  rewrite (cell_get C), bind_Done by done. unfold displaced. cbv zeta.
  destruct (cell C tbl ((i + 1) mod C)) as [n|]; [|done]. unfold nm_psl. rewrite offset_spec by done.
  unfold psl. by destruct (_ =? 0).
Qed.

Lemma rh_shift_step fuel C tbl i :
  (∃ lg, 0 ≤ lg ≤ 62 ∧ C = 2 ^ lg) → Z.of_nat (length tbl) = C →
  rh_shift nhash (S fuel) C tbl i =
    let next := (i + 1) mod C in
    if displaced C tbl next then
      match cell C tbl next with
      | Some n => let* tbl := arr_set tbl i (Some n) in
          let* tbl := arr_set tbl next None in rh_shift nhash fuel C tbl next
      | None => Done tbl
      end
    else Done tbl.
Proof.
  intros HC Hl. pose proof (capacity_bounds _ HC). cbn [rh_shift]. rewrite !(mod_spec _ HC).
  assert (0 ≤ (i + 1) mod C < C) as Hm by (apply Z.mod_pos_bound; lia).
  rewrite (cell_get C), bind_Done by done. unfold displaced. cbv zeta.
  destruct (cell C tbl ((i + 1) mod C)) as [n|]; [|done]. rewrite (mod_spec _ HC).
  destruct (Z.eqb_spec (psl nhash C n ((i + 1) mod C)) 0) as [E|E], (Z.eqb_spec (nhash n mod C) ((i + 1) mod C)) as [E'|E'];
    try done; exfalso; rewrite psl_home, Z.mod_mod in E by (done || lia); congruence.
Qed.

Lemma mod_range_ne C i j : 0 ≤ i < C → i < j < i + C → j mod C ≠ i.
Proof.
  intros Hi Hj E. destruct (Z.lt_ge_cases j C).
  - rewrite Z.mod_small in E by lia. lia.
  - rewrite <- (Z.mod_add j (-1)), Z.mod_small in E by lia. lia.
Qed.

(** Unless it has to go on past slot 0, [fixup] is the backward shift of [base_map::erase]. *)
Lemma fixup_rh fuel C tbl i :
  (∃ lg, 0 ≤ lg ≤ 62 ∧ C = 2 ^ lg) → Z.of_nat (length tbl) = C → 0 ≤ i < C →
  (∃ j, i < j ≤ C + 1 ∧ j < i + C ∧ displaced C tbl j = false) →
  fixup hash key fuel C tbl i = rh_shift nhash fuel C tbl i.
Proof.
  intros HC. pose proof (capacity_bounds _ HC) as HCb. revert tbl i.
  induction fuel as [|fuel IH]; intros tbl i Hl Hi (j & Hj & HjC & Hd); [done|].
  rewrite fixup_step, rh_shift_step by done. cbv zeta. destruct (displaced C tbl ((i + 1) mod C)) eqn:Hnd; [|done].
  destruct (cell C tbl ((i + 1) mod C)) as [n|] eqn:Hcn; [|done].
  assert (j ≠ i + 1) as Hj1.
  { intros ->. rewrite (displaced_mod _ _ (i + 1) ((i + 1) mod C)) in Hd by (rewrite Z.mod_mod by lia; done). congruence. }
  rewrite arr_set_Done by lia. rewrite !bind_Done.
  assert (0 ≤ (i + 1) mod C < C) as Hm by (apply Z.mod_pos_bound; lia).
  rewrite arr_set_Done by (rewrite length_insert; lia). rewrite !bind_Done.
  set (tbl' := <[Z.to_nat ((i + 1) mod C) := None]> (<[Z.to_nat i := Some n]> tbl)).
  assert (Z.of_nat (length tbl') = C) as Hl' by (unfold tbl'; by rewrite !length_insert).
  assert (displaced C tbl' j = false) as Hd'.
  { unfold tbl'. rewrite displaced_other; [|by rewrite length_insert|done|].
    - rewrite displaced_other by (done || apply mod_range_ne; lia). done.
    - destruct (decide (i + 1 = C)) as [E|].
      + rewrite E, Z.mod_same in * by lia. assert (j = C + 1) as -> by lia.
        replace (C + 1) with (1 + 1 * C) by lia. rewrite Z.mod_add, Z.mod_small by lia. lia.
      + rewrite (Z.mod_small (i + 1)) by lia. apply mod_range_ne; lia. }
  destruct (decide (i + 1 = C)) as [E|Hlt].
  - assert (j = C + 1) as -> by lia. rewrite E, Z.mod_same by lia. destruct fuel as [|fuel]; [done|].
    rewrite fixup_step, rh_shift_step by done. cbv zeta.
    replace ((C + 1) mod C) with ((0 + 1) mod C) by (rewrite <- (Z.mod_add (0 + 1) 1) by lia; f_equal; lia).
    rewrite (displaced_mod _ _ ((0 + 1) mod C) (C + 1)), Hd'; [done|].
    rewrite Z.mod_mod by lia. rewrite <- (Z.mod_add (0 + 1) 1) by lia. f_equal. lia.
  - rewrite (Z.mod_small (i + 1)) by lia. apply IH; [done|lia|]. exists j. repeat split; try lia. done.
Qed.

(** A shift that has to go on writes past the end of the array. *)
Lemma fixup_wraps fuel C tbl i :
  (∃ lg, 0 ≤ lg ≤ 62 ∧ C = 2 ^ lg) → Z.of_nat (length tbl) = C → 2 ≤ i ≤ C →
  (∀ j, i < j ≤ C + 1 → displaced C tbl j = true) → C + 1 - i ≤ Z.of_nat fuel →
  fixup hash key fuel C tbl i = Undef.
Proof.
  intros HC. pose proof (capacity_bounds _ HC) as HCb. revert tbl i.
  induction fuel as [|fuel IH]; intros tbl i Hl Hi Hd Hf; [lia|]. rewrite fixup_step by done. cbv zeta.
  assert (displaced C tbl ((i + 1) mod C) = true) as Hn.
  { rewrite (displaced_mod _ _ _ (i + 1)) by (by rewrite Z.mod_mod by lia). apply Hd. lia. }
  rewrite Hn. pose proof Hn as Hn'. unfold displaced in Hn'.
  destruct (cell C tbl ((i + 1) mod C)) as [n|] eqn:Hcn; [|done].
  destruct (decide (i = C)) as [->|Hne].
  { unfold arr_set. rewrite Hl, Z.ltb_irrefl, andb_false_r. done. }
  rewrite arr_set_Done, bind_Done by lia. assert (0 ≤ (i + 1) mod C < C) as Hm by (apply Z.mod_pos_bound; lia).
  rewrite arr_set_Done, bind_Done by (rewrite length_insert; lia).
  apply IH; [by rewrite !length_insert|lia| |lia]. intros j Hj.
  rewrite displaced_other; [|by rewrite length_insert|done|].
  - rewrite displaced_other by (done || lia || apply mod_range_ne; lia). apply Hd. lia.
  - destruct (decide (i + 1 = C)) as [E|].
    + rewrite E, Z.mod_same by lia. assert (j = C + 1) as -> by lia.
      replace (C + 1) with (1 + 1 * C) by lia. rewrite Z.mod_add, Z.mod_small by lia. lia.
    + rewrite (Z.mod_small (i + 1)) by lia. apply mod_range_ne; lia.
Qed.

(** Erasing this key does not run [fixup] past the end of the array. *)
Definition erase_safe m k : bool :=
  match nm_lookup hash key invalid_id m k with
  | Done (Some i) => negb (wraps (m_capacity m) (m_nodes m) i)
  | _ => true
  end.

Lemma nm_table_drop m es v es' tbl :
  nm_table m es → nm_keys es → es ≡ₚ v :: es' → length tbl = length (m_nodes m) →
  rh_ok nhash (m_capacity m) tbl → entries tbl ≡ₚ es' →
  is_nmap (NodeMap (u64 (m_count m - 1)) (m_capacity m) tbl) (delete (key v) (by_key es)).
Proof.
  intros [HC Hl Hok Hp Hcnt Hld] Hk Hes Hlt Hok' Hp'. pose proof (capacity_bounds _ HC) as HCb.
  pose proof (nm_threshold_lt m HCb). pose proof (nm_keys_perm _ _ Hes Hk) as (Hv & Hk' & Hf)%nm_keys_cons.
  assert (length es = S (length es')) as Hle by (rewrite Hes; done).
  apply is_nmap_table with es'.
  - split; cbn [m_count m_capacity m_nodes]; [done|by rewrite Hlt|done|done|..].
    + rewrite wrap_small by (unfold is_word; lia). lia.
    + change (threshold _) with (threshold m). rewrite wrap_small by (unfold is_word; lia). lia.
  - done.
  - rewrite (by_key_perm _ _ Hk Hes), by_key_cons. by rewrite delete_insert_id.
Qed.

(** [erase] removes the key and nothing else, or, when the shift it starts wraps past slot 0, is
    undefined: it never returns a wrong map. *)
Lemma nm_erase_spec m M k :
  is_nmap m M → k ≠ invalid_id →
  if erase_safe m k then
    ∃ m', nm_erase hash key invalid_id m k = Done (bool_decide (is_Some (M !! k)), m') ∧
      is_nmap m' (delete k M) ∧ m_capacity m' = m_capacity m
  else is_Some (M !! k) ∧ nm_erase hash key invalid_id m k = Undef.
Proof.
  intros Hm Hk. unfold erase_safe, nm_erase.
  destruct (nm_lookup_spec m M k Hm Hk) as ([i|] & -> & Hr); rewrite bind_Done.
  2:{ exists m. rewrite bool_decide_false, delete_id by (rewrite ?Hr; try inversion 1; done). done. }
  destruct Hr as (Hi & v & Hc & Hkv & HM). rewrite HM.
  destruct Hm as [? ? ? ?|es Ht Hn ->]; [lia|].
  pose proof Ht as [HC Hl Hok Hp Hcnt Hld]. pose proof (capacity_bounds _ HC) as HCb.
  set (C := m_capacity m) in *. rewrite arr_set_Done, bind_Done by lia.
  set (tbl := <[Z.to_nat i := None]> (m_nodes m)).
  assert (Z.of_nat (length tbl) = C) as Hlt by (unfold tbl; by rewrite length_insert).
  destruct (wraps C (m_nodes m) i) eqn:Hw; cbn [negb].
  - split; [eauto|]. apply andb_true_iff in Hw as [H2%Z.leb_le Hw]. rewrite forallb_forall in Hw.
    rewrite fixup_wraps; [done|done|done|lia| |lia]. intros j Hj. unfold tbl.
    rewrite displaced_other by (done || apply mod_range_ne; lia). apply Hw, list_elem_of_In, elem_of_seqZ. lia.
  - destruct (open_within _ HC (m_nodes m) i (nm_open _ _ Ht)) as (n & Hnb & Hno).
    rewrite fixup_rh; [|done|done|done|].
    + destruct (rh_erase nhash _ HC (m_nodes m) i v Hl Hok (nm_open _ _ Ht) Hi Hc) as (tbl' & Hrs & Hlt' & Hok' & Hp').
      unfold tbl. fold C in Hrs. rewrite Hrs, bind_Done. rewrite bool_decide_true by eauto.
      eexists. split; [done|]. split; [|done]. rewrite <- Hkv. eapply nm_table_drop; try done. by rewrite <- Hp, Hp'.
    + assert (n ≠ 0) by (intros ->; rewrite Z.add_0_r in Hno; congruence). unfold wraps in Hw.
      destruct (Z.leb_spec 2 i); cbn [andb] in Hw.
      * apply not_true_iff_false in Hw. rewrite forallb_forall in Hw.
        destruct (decide (Exists (λ j, displaced C (m_nodes m) j = false) (seqZ (i + 1) (C + 1 - i)))) as [He|He].
        -- apply Exists_exists in He as (j & Hj%elem_of_seqZ & Hd). exists j. split; [lia|]. split; [lia|].
           unfold tbl. rewrite displaced_other by (done || apply mod_range_ne; lia). done.
        -- exfalso. apply Hw. intros j Hj. apply not_false_iff_true. intros Hd. apply He, Exists_exists.
           exists j. split; [by apply list_elem_of_In|done].
      * exists (i + n). split; [lia|]. split; [lia|]. unfold tbl.
        rewrite displaced_other by (done || apply mod_range_ne; lia). unfold displaced. by rewrite Hno.
Qed.

Lemma nm_update_spec m M k v f :
  is_nmap m M → k ≠ invalid_id → M !! k = Some v → key (f v) = k →
  ∃ m', nm_update hash key invalid_id m k f = Done m' ∧ is_nmap m' (<[k := f v]> M) ∧ m_capacity m' = m_capacity m ∧
    m_count m' = m_count m.
Proof.
  intros Hm Hk HM Hf. unfold nm_update.
  destruct (nm_lookup_spec m M k Hm Hk) as ([i|] & -> & Hr); rewrite bind_Done; [|congruence].
  destruct Hr as (Hi & w & Hc & Hkw & HM'). assert (w = v) as -> by congruence.
  destruct Hm as [? ? ? ?|es Ht Hn ->]; [lia|].
  pose proof Ht as [HC Hl Hok Hp Hcnt Hld].
  rewrite (cell_get (m_capacity m)) by done. rewrite Hc, bind_Done. cbn [deref]. rewrite bind_Done.
  rewrite slot_of_valid by congruence. rewrite arr_set_Done, bind_Done by lia.
  eexists. split; [done|]. split; [|done].
  assert (v ∈ es) as (es1 & es2 & ->)%list_elem_of_split by by eapply key_valid.
  assert (entries (<[Z.to_nat i:=Some (f v)]> (m_nodes m)) ≡ₚ f v :: es1 ++ es2) as Hp'.
  { apply (Permutation_cons_inv (a := v)). pose proof (entries_set _ HC (m_nodes m) i (Some v) (Some (f v)) Hl Hi Hc) as He.
    simpl in He. rewrite He, Hp. rewrite <- Permutation_middle. apply Permutation_swap. }
  assert (es1 ++ v :: es2 ≡ₚ v :: es1 ++ es2) as Hpe by by rewrite Permutation_middle.
  pose proof (nm_keys_perm _ _ Hpe Hn) as (Hv & Hk' & Hfr)%nm_keys_cons.
  apply is_nmap_table with (f v :: es1 ++ es2).
  - split; cbn [m_count m_capacity m_nodes]; [done|by rewrite length_insert| |done|..].
    + intros j e Hj Hpos. rewrite cell_insert in Hj |- * by done.
      assert (∀ x, psl nhash (m_capacity m) (f v) x = psl nhash (m_capacity m) v x) as Hpsl
        by (intros; unfold psl, nm_hash; by rewrite Hf, Hkw).
      destruct (decide ((j + 1) mod m_capacity m = i)) as [E|E].
      * injection Hj as <-. rewrite Hpsl in Hpos |- *.
        destruct (Hok j v) as (e' & H1 & H2); [|done|].
        { rewrite <- Hc. apply cell_mod. rewrite E. symmetry. by apply Z.mod_small. }
        case_decide as E2; [|eauto]. exists (f v). rewrite Hpsl. split; [done|].
        assert (e' = v) as ->; [|done]. rewrite (cell_mod _ _ _ i) in H1 by (rewrite E2; symmetry; by apply Z.mod_small).
        congruence.
      * destruct (Hok j e Hj Hpos) as (e' & H1 & H2). case_decide as E2; [|eauto].
        exists (f v). rewrite Hpsl. split; [done|]. assert (e' = v) as ->; [|done].
        rewrite (cell_mod _ _ _ i) in H1 by (rewrite E2; symmetry; by apply Z.mod_small). congruence.
    + rewrite Hcnt, Hpe. done.
    + by change (threshold _) with (threshold m).
  - apply nm_keys_cons. rewrite Hf, <- Hkw. done.
  - rewrite (by_key_perm _ _ Hn Hpe), !by_key_cons, Hf, Hkw. by rewrite insert_insert_eq.
Qed.

Lemma new_node_map_spec lg :
  0 ≤ lg ≤ 62 → ∃ m, @new_node_map V (2 ^ lg) = Done m ∧ is_nmap m ∅ ∧ m_capacity m = 2 ^ lg.
Proof.
  intros Hlg. assert (0 < 2 ^ lg < 2 ^ 64) by (split; [lia|apply Z.pow_lt_mono_r; lia]).
  unfold new_node_map. rewrite (proj2 (Z.eqb_neq _ _)) by lia.
  rewrite log2_spec by (unfold is_word; lia). rewrite bind_Done, Z.log2_up_pow2 by lia.
  rewrite shl64_Done by lia. rewrite bind_Done, Z.shiftl_1_l, wrap_small by (unfold is_word; lia).
  eexists. split; [done|]. split; [|done]. apply is_nmap_table with []; [|split; [set_solver|constructor]|done].
  assert (∀ n, entries (replicate n (@None V)) = []) as He by (induction n; [done|by simpl]).
  split; cbn [m_count m_capacity m_nodes]; [eauto|by rewrite length_replicate; lia| |by rewrite He|done|].
  - intros i e Hc. exfalso. unfold cell in Hc.
    destruct (replicate _ _ !! _) as [o|] eqn:E; [|done]. apply lookup_replicate_1 in E as [-> _]. done.
  - unfold threshold, max_load, wrap. pose proof (Z.mod_pos_bound (2 ^ lg * 90) (2 ^ 64)).
    apply Z.div_pos; simpl; lia.
Qed.

(** ** Sequences of operations *)
Inductive nm_op := NInsert (v : V) | NErase (k : K) | NFind (k : K).
Inductive nm_result := NNone | NErased (found : bool) | NFound (v : option V).

Definition nm_run1 m (op : nm_op) : outcome (nm_result * node_map V) :=
  match op with
  | NInsert v => let* (_, m) := nm_insert hash key invalid_id m v in Done (NNone, m)
  | NErase k => let* (b, m) := nm_erase hash key invalid_id m k in Done (NErased b, m)
  | NFind k => let* r := nm_find hash key invalid_id m k in Done (NFound r, m)
  end.
Fixpoint nm_run m (ops : list nm_op) : outcome (list nm_result * node_map V) :=
  match ops with
  | [] => Done ([], m)
  | op :: ops => let* (r, m) := nm_run1 m op in let* (rs, m) := nm_run m ops in Done (r :: rs, m)
  end.

(** The same on finite maps; [None] when a call breaks the contract: the invalid key, or a second
    insertion of a key. *)
Definition fm_run1 M (op : nm_op) : option (nm_result * gmap K V) :=
  match op with
  | NInsert v => if decide (key v ≠ invalid_id ∧ M !! key v = None) then Some (NNone, <[key v := v]> M) else None
  | NErase k => if decide (k ≠ invalid_id) then Some (NErased (bool_decide (is_Some (M !! k))), delete k M) else None
  | NFind k => if decide (k ≠ invalid_id) then Some (NFound (M !! k), M) else None
  end.
Fixpoint fm_run M (ops : list nm_op) : option (list nm_result * gmap K V) :=
  match ops with
  | [] => Some ([], M)
  | op :: ops =>
      match fm_run1 M op with
      | Some (r, M) => match fm_run M ops with Some (rs, M) => Some (r :: rs, M) | None => None end
      | None => None
      end
  end.

(** No insertion has to grow the table, and no erasure wraps. *)
Fixpoint nm_safe m (ops : list nm_op) : bool :=
  match ops with
  | [] => true
  | op :: ops =>
      match op with
      | NInsert _ => m_count m + 1 <=? threshold m
      | NErase k => erase_safe m k
      | NFind _ => true
      end && match nm_run1 m op with Done (_, m) => nm_safe m ops | _ => true end
  end.

Lemma is_nmap_count m M : is_nmap m M → m_count m = Z.of_nat (size M).
Proof.
  intros [_ _ -> ->|es Ht Hn ->]; [by rewrite map_size_empty|]. rewrite (nt_count _ _ Ht). unfold by_key.
  rewrite map_size_list_to_map; [by rewrite length_fmap|]. rewrite <- list_fmap_compose. apply Hn.
Qed.

Lemma nm_run1_spec m M op r M' :
  is_nmap m M → nm_safe m [op] = true → fm_run1 M op = Some (r, M') →
  ∃ m', nm_run1 m op = Done (r, m') ∧ is_nmap m' M'.
Proof.
  intros Hm Hs Hf. destruct op as [v|k|k]; cbn [nm_safe fm_run1 nm_run1] in *; case_decide as Hd; simplify_eq;
    apply andb_true_iff in Hs as [Hs _].
  - destruct (nm_insert_spec m M v Hm) as (i & m' & -> & Hm' & _); [naive_solver|naive_solver|lia|].
    by exists m'.
  - pose proof (nm_erase_spec m M k Hm Hd) as He. rewrite Hs in He. destruct He as (m' & -> & Hm' & _). by exists m'.
  - rewrite (nm_find_spec m M' k Hm Hd). by exists m.
Qed.

Lemma nm_run_spec m M ops rs M' :
  is_nmap m M → nm_safe m ops = true → fm_run M ops = Some (rs, M') →
  ∃ m', nm_run m ops = Done (rs, m') ∧ is_nmap m' M'.
Proof.
  revert m M rs. induction ops as [|op ops IH]; intros m M rs Hm Hs Hf; cbn [fm_run nm_run nm_safe] in *.
  { simplify_eq. by exists m. }
  destruct (fm_run1 M op) as [[r M1]|] eqn:E1; [|done].
  destruct (fm_run M1 ops) as [[rs1 M2]|] eqn:E2; simplify_eq.
  apply andb_true_iff in Hs as [Hs1 Hs2].
  destruct (nm_run1_spec m M op r M1 Hm) as (m1 & Hr & Hm1); [|done|].
  { cbn [nm_safe]. rewrite Hs1. by destruct (nm_run1 _ _) as [[]| | |]. }
  rewrite Hr in Hs2 |- *. rewrite bind_Done. destruct (IH m1 M1 rs1 Hm1 Hs2 E2) as (m' & -> & ?).
  by exists m'.
Qed.
End model.

(** ** Properties *)

(** C8: a node_map refines the finite map of its nodes by key.  Every sequence of insertions of new
    keys, erasures and lookups that neither grows the table nor wraps a removal past the end of the
    array terminates without undefined behaviour, returns what the finite map returns, and ends in a
    table for the resulting finite map with the right count. *)
Theorem nm_run_refines {K V} `{Countable K} (hash : K → Z) (key : V → K) (invalid_id : K) m M ops rs M' :
  is_nmap hash key invalid_id m M → nm_safe hash key invalid_id m ops = true →
  fm_run key invalid_id M ops = Some (rs, M') →
  ∃ m', nm_run hash key invalid_id m ops = Done (rs, m') ∧ is_nmap hash key invalid_id m' M' ∧
    m_count m' = Z.of_nat (size M').
Proof.
  intros Hm Hs Hf. destruct (nm_run_spec hash key invalid_id m M ops rs M' Hm Hs Hf) as (m' & ? & Hm').
  exists m'. split; [done|]. split; [done|]. by eapply is_nmap_count.
Qed.

(** exactly when [erase] works.  If the backward shift it starts stays within the array or ends at
    slot 0, [erase] reports whether the key was there and leaves the map without it; if the shift
    reaches the node at slot 1 from before the end of the array, [fixup] indexes one past the end. *)
Theorem nm_erase_exact {K V} `{Countable K} (hash : K → Z) (key : V → K) (invalid_id : K) m M k :
  is_nmap hash key invalid_id m M → k ≠ invalid_id →
  if erase_safe hash key invalid_id m k then
    ∃ m', nm_erase hash key invalid_id m k = Done (bool_decide (is_Some (M !! k)), m') ∧
      is_nmap hash key invalid_id m' (delete k M)
  else is_Some (M !! k) ∧ nm_erase hash key invalid_id m k = Undef.
Proof.
  intros Hm Hk. pose proof (nm_erase_spec hash key invalid_id m M k Hm Hk) as He.
  destruct (erase_safe _ _ _ _ _); [|done]. destruct He as (m' & ? & ? & _). eauto.
Qed.

(** erasing the invalid key hides nodes.  When the home slot of [invalid_id] is open, [lookup]
    takes it for a match: [erase] reports success and lowers the count of a map it has not changed.
    With one node in the map the count is then 0, and no key is found any more. *)
Theorem nm_erase_invalid {K V} `{Countable K} (hash : K → Z) (key : V → K) (invalid_id : K) m M :
  is_nmap hash key invalid_id m M → M ≠ ∅ → cell (m_capacity m) (m_nodes m) (hash invalid_id) = None →
  ∃ m', nm_erase hash key invalid_id m invalid_id = Done (true, m') ∧
    m_nodes m' = m_nodes m ∧ m_count m' = Z.of_nat (size M) - 1 ∧
    (size M = 1%nat → ∀ k, nm_find hash key invalid_id m' k = Done None).
Proof.
  intros Hm HM Hc. pose proof (is_nmap_count _ _ _ _ _ Hm) as Hcnt.
  assert (size M ≠ 0%nat) as Hsz by by rewrite map_size_empty_iff.
  destruct Hm as [_ _ _ ?|es Ht Hn _]; [done|].
  pose proof Ht as [HC Hl Hok Hp _ Hld]. pose proof (capacity_bounds _ HC) as HCb. pose proof (nm_threshold_lt m HCb).
  unfold nm_erase, nm_lookup. rewrite (proj2 (Z.eqb_neq _ _)) by lia.
  set (i := mod_ (m_capacity m) (hash invalid_id)).
  assert (0 ≤ i < m_capacity m) as Hi by (unfold i; rewrite (mod_spec _ HC); apply Z.mod_pos_bound; lia).
  assert (i mod m_capacity m = hash invalid_id mod m_capacity m) as Him
    by (unfold i; rewrite (mod_spec _ HC), Z.mod_mod by lia; done).
  rewrite <- (cell_mod _ _ _ _ Him) in Hc.
  assert (Z.to_nat (m_capacity m) = S (Z.to_nat (m_capacity m - 1))) as -> by lia. cbn [lookup_loop].
  rewrite (cell_get (m_capacity m)), Hc, bind_Done by done. cbn [key_at].
  rewrite bool_decide_true, bind_Done, arr_set_Done, bind_Done by (done || lia).
  assert (<[Z.to_nat i := None]> (m_nodes m) = m_nodes m) as ->.
  { apply list_insert_id. unfold cell in Hc. rewrite Z.mod_small in Hc by done.
    destruct (lookup_lt_is_Some_2 (m_nodes m) (Z.to_nat i)) as [o Ho]; [lia|]. rewrite Ho in Hc. by subst. }
  rewrite fixup_step by done. cbv zeta. assert (displaced hash key (m_capacity m) (m_nodes m) ((i + 1) mod m_capacity m) = false) as ->.
  { rewrite (displaced_mod _ _ _ _ _ (i + 1)) by (by rewrite Z.mod_mod by lia). unfold displaced.
    destruct (cell _ _ (i + 1)) as [v|] eqn:Hv; [|done]. destruct (Z.eqb_spec (psl (nm_hash hash key) (m_capacity m) v (i + 1)) 0) as [|Hne]; [done|].
    destruct (Hok i v Hv) as (e' & ? & _); [|congruence].
    pose proof (psl_bound (nm_hash hash key) _ HC v (i + 1)). lia. }
  eexists. split; [done|]. cbn [m_nodes m_count]. split; [done|]. rewrite wrap_small by (unfold is_word; lia).
  split; [lia|]. intros Hone k. unfold nm_find, nm_lookup. cbn [m_count]. by rewrite Hcnt, Hone.
Qed.

(** *** Instances: capacity 16, nodes that are pairs of a key and a value, the identity as hash *)
Definition run_14 : outcome (list (@nm_result (Z * Z)) * node_map (Z * Z)) :=
  nm_run id fst 0 (NodeMap 0 16 (replicate 16 None)) [NInsert (14, 1); NInsert (30, 2); NInsert (46, 3); NInsert (62, 4)].
Definition map_14 : node_map (Z * Z) :=
  match run_14 with Done (_, m) => m | _ => NodeMap 0 0 [] end.

Lemma empty_16 : is_nmap id (fst : Z * Z → Z) 0 (NodeMap 0 16 (replicate 16 None)) ∅.
Proof.
  destruct (new_node_map_spec (V := Z * Z) id fst 0 4) as (m & Hm & Hi & _); [lia|].
  vm_compute in Hm. injection Hm as <-. exact Hi.
Qed.

Lemma map_14_spec :
  is_nmap id (fst : Z * Z → Z) 0 map_14 (<[62 := (62, 4)]> (<[46 := (46, 3)]> (<[30 := (30, 2)]> (<[14 := (14, 1)]> ∅)))).
Proof.
  destruct (nm_run_spec id (fst : Z * Z → Z) 0 _ ∅ [NInsert (14, 1); NInsert (30, 2); NInsert (46, 3); NInsert (62, 4)]
    _ _ empty_16 eq_refl eq_refl) as (m & H1 & Hm).
  vm_compute in H1. injection H1 as <-. exact Hm.
Qed.

Lemma nm_run_refines_witness :
  ∃ m', nm_run id (fst : Z * Z → Z) 0 map_14 [NErase 46; NFind 30; NFind 46; NInsert (5, 7)]
    = Done ([NErased true; NFound (Some (30, 2)); NFound None; NNone], m') ∧ m_count m' = 4.
Proof.
  destruct (nm_run_refines id (fst : Z * Z → Z) 0 _ _ [NErase 46; NFind 30; NFind 46; NInsert (5, 7)]
    [NErased true; NFound (Some (30, 2)); NFound None; NNone]
    (<[5 := (5, 7)]> (delete 46 (<[62 := (62, 4)]> (<[46 := (46, 3)]> (<[30 := (30, 2)]> (<[14 := (14, 1)]> ∅))))))
    map_14_spec eq_refl eq_refl) as (m' & H1 & _ & H2).
  exists m'. exact (conj H1 H2).
Defined.

(** Four keys of home slot 14: erasing the first shifts the nodes of slots 15, 0 and 1. *)
Lemma nm_erase_exact_witness :
  nm_erase id (fst : Z * Z → Z) 0 map_14 14 = Undef ∧
  ∃ m', nm_erase id (fst : Z * Z → Z) 0 map_14 62 = Done (true, m') ∧
    is_nmap id fst 0 m' (delete 62 (<[62 := (62, 4)]> (<[46 := (46, 3)]> (<[30 := (30, 2)]> (<[14 := (14, 1)]> ∅))))).
Proof.
  assert (14 ≠ 0) as H1 by discriminate. assert (62 ≠ 0) as H2 by discriminate. split.
  - exact (proj2 (nm_erase_exact id (fst : Z * Z → Z) 0 _ _ 14 map_14_spec H1)).
  - exact (nm_erase_exact id (fst : Z * Z → Z) 0 _ _ 62 map_14_spec H2).
Defined.

Lemma map_one : is_nmap id (fst : Z * Z → Z) 0 (NodeMap 1 16 (<[5%nat := Some (5, 7)]> (replicate 16 None))) (<[5 := (5, 7)]> ∅).
Proof.
  destruct (nm_run_spec id (fst : Z * Z → Z) 0 _ ∅ [NInsert (5, 7)] _ _ empty_16 eq_refl eq_refl) as (m & H1 & Hm).
  vm_compute in H1. injection H1 as <-. exact Hm.
Qed.

Lemma nm_erase_invalid_witness :
  ∃ m', nm_erase id (fst : Z * Z → Z) 0 (NodeMap 1 16 (<[5%nat := Some (5, 7)]> (replicate 16 None))) 0 = Done (true, m') ∧
    m_count m' = 0 ∧ ∀ k, nm_find id (fst : Z * Z → Z) 0 m' k = Done None.
Proof.
  assert ((<[5 := (5, 7)]> ∅ : gmap Z (Z * Z)) ≠ ∅) as Hne by discriminate.
  destruct (nm_erase_invalid id (fst : Z * Z → Z) 0 _ _ map_one Hne eq_refl) as (m' & H1 & _ & H2 & H3).
  exists m'. exact (conj H1 (conj H2 (H3 eq_refl))).
Defined.
