(* ===== verification/KObject.v ===== *)
(** * Kernel objects (kernel/objects/kobject.h, kobject.cpp)

    The base class of everything a handle can refer to: the object's type and id, the koid that
    combines them, and the count of handles that decides when the object is deleted.  Live objects are
    in a heap [gmap loc kobject]; [delete this] removes the object, and touching a removed one is
    [Undef]. *)
From S2P Require Import Prelude.

(** [kobject::type], in the order of j6/tables/object_types.inc. *)
Inductive obj_type := t_none | t_system | t_event | t_endpoint | t_mailbox | t_vma | t_process | t_thread.

#[global] Instance obj_type_eq_dec : EqDecision obj_type.
Proof. solve_decision. Defined.

Definition type_int (t : obj_type) : Z :=
  match t with
  | t_none => 0 | t_system => 1 | t_event => 2 | t_endpoint => 3
  | t_mailbox => 4 | t_vma => 5 | t_process => 6 | t_thread => 7
  end.

Definition types_count : nat := 8.
Definition koid_type_bits : Z := 4.
Definition koid_type_mask : Z := Z.shiftl 1 koid_type_bits - 1.
Definition koid_type_shift : Z := 8 * 8 - koid_type_bits.

(** [m_spaces] is vm_area's count of the address spaces that map the area, which its override of
    [on_no_handles] looks at; other objects do not have it. *)
Record kobject := KObject {
  m_handle_count : Z;
  m_type : obj_type;
  m_obj_id : Z;
  m_spaces : Z;
}.

(** [next_oids] is the array of the next object id of each type. *)
Definition oid_generate (next_oids : list Z) (t : obj_type) : outcome (Z * list Z) :=
  let* oid := arr_get next_oids (type_int t) in
  let* next_oids := arr_set next_oids (type_int t) (u32 (oid + 1)) in
  Done (oid, next_oids).

Definition new_kobject (next_oids : list Z) (t : obj_type) : outcome (kobject * list Z) :=
  let* (oid, next_oids) := oid_generate next_oids t in
  Done (KObject 0 t oid 0, next_oids).

Definition koid (k : kobject) : Z := Z.lor (u64 (Z.shiftl (type_int (m_type k)) koid_type_shift)) (m_obj_id k).
Definition koid_type (id : Z) : Z := Z.land (Z.shiftr id koid_type_shift) koid_type_mask.

Abbreviation loc := positive.
Abbreviation heap := (gmap loc kobject).

Definition set_handle_count (k : kobject) (n : Z) : kobject :=
  KObject n (m_type k) (m_obj_id k) (m_spaces k).

(** [on_no_handles] and its overrides in process, system and vm_area. *)
Definition on_no_handles (h : heap) (o : loc) (k : kobject) : heap :=
  match m_type k with
  | t_process | t_system => h
  | t_vma => if m_spaces k =? 0 then delete o h else h
  | _ => delete o h
  end.

Definition handle_retain (h : heap) (o : loc) : outcome heap :=
  let* k := deref (h !! o) in
  Done (<[o := set_handle_count k (u16 (m_handle_count k + 1))]> h).

Definition handle_release (h : heap) (o : loc) : outcome heap :=
  let* k := deref (h !! o) in
  let k := set_handle_count k (u16 (m_handle_count k - 1)) in
  let h := <[o := k]> h in
  if m_handle_count k =? 0 then Done (on_no_handles h o k) else Done h.

(** ** Ids *)
Lemma type_int_range t : 0 ≤ type_int t < 8.
Proof. destruct t; simpl; lia. Qed.

Lemma type_int_inj t t' : type_int t = type_int t' → t = t'.
Proof. destruct t, t'; simpl; intros; done. Qed.

Lemma koid_type_koid k : is_u32 (m_obj_id k) → koid_type (koid k) = type_int (m_type k).
Proof.
  intros Hid. pose proof (type_int_range (m_type k)) as Ht. unfold koid_type, koid.
  rewrite (wrap_small 64) by (unfold is_word, koid_type_shift, koid_type_bits; rewrite Z.shiftl_mul_pow2; lia).
  rewrite Z.shiftr_lor, Z.shiftr_shiftl_l by (unfold koid_type_shift, koid_type_bits; lia).
  rewrite Z.sub_diag, Z.shiftl_0_r.
  assert (Z.shiftr (m_obj_id k) koid_type_shift = 0) as ->.
  { unfold koid_type_shift, koid_type_bits. rewrite Z.shiftr_div_pow2 by lia. apply Z.div_small.
    unfold is_word in Hid. lia. }
  rewrite Z.lor_0_r. change koid_type_mask with (Z.ones 4). rewrite Z.land_ones by lia. apply Z.mod_small. lia.
Qed.

Lemma koid_id k : is_u32 (m_obj_id k) → u32 (koid k) = m_obj_id k.
Proof.
  intros Hid. pose proof (type_int_range (m_type k)) as Ht. unfold koid.
  rewrite (wrap_small 64) by (unfold is_word, koid_type_shift, koid_type_bits; rewrite Z.shiftl_mul_pow2; lia).
  apply (word_ext 32); [lia|apply wrap_range; lia|done|]. intros i Hi.
  rewrite wrap_testbit, (proj2 (Z.ltb_lt i 32)), Z.lor_spec, Z.shiftl_spec_low by (unfold koid_type_shift, koid_type_bits; lia).
  done.
Qed.

(** Objects made one after the other, [next_oids] threaded through. *)
Fixpoint make_objects (next_oids : list Z) (ts : list obj_type) : outcome (list kobject * list Z) :=
  match ts with
  | [] => Done ([], next_oids)
  | t :: ts =>
      let* (k, next_oids) := new_kobject next_oids t in
      let* (ks, next_oids) := make_objects next_oids ts in
      Done (k :: ks, next_oids)
  end.

Lemma make_objects_spec ts next_oids :
  length next_oids = types_count → Forall is_u32 next_oids →
  (∀ i x, next_oids !! i = Some x → x + Z.of_nat (length ts) ≤ 2 ^ 32) →
  ∃ ks oids', make_objects next_oids ts = Done (ks, oids') ∧ m_type <$> ks = ts ∧
    (∀ k, k ∈ ks → is_u32 (m_obj_id k) ∧ m_handle_count k = 0 ∧
       ∃ x, next_oids !! Z.to_nat (type_int (m_type k)) = Some x ∧ x ≤ m_obj_id k) ∧
    NoDup ((λ k, (m_type k, m_obj_id k)) <$> ks).
Proof.
  revert next_oids. induction ts as [|t ts IH]; intros oids Hlen Hw Hb; cbn [make_objects].
  { exists [], oids. repeat split; try done; [set_solver..|constructor]. }
  pose proof (type_int_range t) as Ht. unfold types_count in Hlen.
  destruct (lookup_lt_is_Some_2 oids (Z.to_nat (type_int t))) as [x Hx]; [lia|].
  pose proof (Hb _ _ Hx) as Hbx. pose proof (Forall_lookup_1 _ _ _ _ Hw Hx) as Hwx. simpl in Hbx. unfold is_word in Hwx.
  unfold new_kobject, oid_generate, arr_get. rewrite (proj2 (Z.leb_le 0 (type_int t))), Hx by lia. cbn [deref].
  rewrite bind_Done, arr_set_Done by lia. rewrite !bind_Done.
  destruct (decide (ts = [])) as [->|Hne].
  { simpl. eexists _, _. split; [done|]. split; [done|]. split; [|repeat constructor; set_solver].
    intros k ->%list_elem_of_singleton. simpl. split; [done|]. split; [done|]. exists x. split; [done|lia]. }
  assert (length ts ≠ 0%nat) by by destruct ts.
  assert (u32 (x + 1) = x + 1) as Hu by (apply wrap_small; unfold is_word; lia). rewrite Hu.
  destruct (IH (<[Z.to_nat (type_int t) := x + 1]> oids)) as (ks & oids' & -> & Hty & Hks & Hnd).
  - by rewrite length_insert.
  - apply Forall_insert; [done|]. unfold is_word. lia.
  - intros i y [(_ & <- & _)|[_ Hy]]%list_lookup_insert_Some; [lia|]. apply Hb in Hy. simpl in Hy. lia.
  - rewrite bind_Done. eexists _, _. split; [done|]. split; [by rewrite fmap_cons, Hty|]. split.
    + intros k [->|Hk]%elem_of_cons; simpl.
      * split; [done|]. split; [done|]. exists x. split; [done|lia].
      * destruct (Hks k Hk) as (H1 & H2 & y & Hy & H3). split; [done|]. split; [done|].
        apply list_lookup_insert_Some in Hy as [(E & <- & _)|[_ Hy]]; [rewrite <- E; exists x; split; [done|lia]|eauto].
    + simpl. apply NoDup_cons. split; [|done]. intros (k & [= E1 E2] & Hk)%list_elem_of_fmap.
      destruct (Hks k Hk) as (_ & _ & y & Hy & H3). rewrite <- E1, list_lookup_insert_eq in Hy by lia.
      simplify_eq. lia.
Qed.

(** ** Reference counts *)
Lemma handle_retain_spec h o k :
  h !! o = Some k → is_word 16 (m_handle_count k + 1) →
  handle_retain h o = Done (<[o := set_handle_count k (m_handle_count k + 1)]> h).
Proof. intros Hk Hw. unfold handle_retain. rewrite Hk. simpl. by rewrite wrap_small. Qed.

Lemma handle_release_spec h o k :
  h !! o = Some k → is_word 16 (m_handle_count k - 1) →
  ∃ h', handle_release h o = Done h' ∧
    (∀ q, q ≠ o → h' !! q = h !! q) ∧
    (m_handle_count k ≠ 1 → h' !! o = Some (set_handle_count k (m_handle_count k - 1))) ∧
    (h' !! o = None ∨ h' !! o = Some (set_handle_count k (m_handle_count k - 1))).
Proof.
  intros Hk Hw. unfold handle_release. rewrite Hk. cbn [deref]. rewrite bind_Done, wrap_small by done.
  cbn [m_handle_count set_handle_count]. destruct (Z.eqb_spec (m_handle_count k - 1) 0) as [E|E].
  - unfold on_no_handles. cbn [m_type m_spaces set_handle_count].
    eexists. split; [done|].
    split; [intros q Hq; repeat case_match; by simplify_map_eq|].
    split; [lia|]. repeat case_match; rewrite ?lookup_delete_eq, ?lookup_insert_eq; eauto.
  - eexists. split; [done|]. split; [intros q Hq; by rewrite lookup_insert_ne by auto|].
    rewrite lookup_insert_eq. eauto.
Qed.

(** ** Properties *)

(** koids identify objects.  The type can be read back from a koid, and of the objects created
    since boot (as long as no type has had more than 2^32 of them) no two have the same koid. *)
Theorem koid_unique ts :
  Z.of_nat (length ts) ≤ 2 ^ 32 →
  ∃ ks oids', make_objects (replicate types_count 0) ts = Done (ks, oids') ∧ m_type <$> ks = ts ∧
    (∀ k, k ∈ ks → koid_type (koid k) = type_int (m_type k)) ∧ NoDup (koid <$> ks).
Proof.
  intros Hlen. destruct (make_objects_spec ts (replicate types_count 0)) as (ks & oids' & Hr & Hty & Hks & Hnd).
  - done.
  - apply Forall_replicate. unfold is_word. lia.
  - intros i x [-> _]%lookup_replicate_1. lia.
  - exists ks, oids'. split; [done|]. split; [done|]. split; [intros k Hk; by apply koid_type_koid, Hks|].
    clear Hr Hty Hlen. induction ks as [|k ks IH]; simpl; [constructor|]. apply NoDup_cons in Hnd as [Hn Hnd].
    apply NoDup_cons. split; [|apply IH; [intros; apply Hks; by right|done]].
    intros (k' & E & Hk')%list_elem_of_fmap. apply Hn, list_elem_of_fmap. exists k'. split; [|done].
    destruct (Hks k) as (Hi & _); [left|]. destruct (Hks k') as (Hi' & _); [by right|]. f_equal.
    + apply type_int_inj. by rewrite <- !koid_type_koid, E by done.
    + by rewrite <- (koid_id k), <- (koid_id k'), E by done.
Qed.

Lemma koid_unique_witness :
  ∃ ks oids', make_objects (replicate types_count 0) [t_event; t_thread; t_event] = Done (ks, oids') ∧
    NoDup (koid <$> ks).
Proof.
  destruct (koid_unique [t_event; t_thread; t_event]) as (ks & oids' & H1 & _ & _ & H2); [simpl; lia|].
  exists ks, oids'. exact (conj H1 H2).
Defined.
