(* ===== verification/Capabilities.v ===== *)
(** * The capability table (kernel/capabilities.h, capabilities.cpp)

    A node_map from handles to capabilities.  Each operation holds the table's spinlock throughout, so
    the model takes it as one atomic step on the table and the object heap.  A pointer to a capability
    is the index of its slot: [derive] keeps one across the insertion of the new capability, which may
    move nodes, and what it then reads is what the slot holds after the insertion. *)
From S2P Require Import Prelude Bits RobinHood NodeMap KObject.

Definition j6_handle_invalid : Z := 0.

Record capability := Capability {
  cap_id : Z;
  parent : Z;
  holders : Z;
  caps : Z;
  type : obj_type;
  object : option loc;
}.

Record cap_table := CapTable {
  m_caps : node_map capability;
  m_made : Z;                     (* m_count, the source of handles *)
}.

Notation find_slot m i := (nm_lookup hash_uint cap_id j6_handle_invalid m i).
Notation find_cap m i := (nm_find hash_uint cap_id j6_handle_invalid m i).
Notation insert_cap m c := (nm_insert hash_uint cap_id j6_handle_invalid m c).
Notation update_cap m i f := (nm_update hash_uint cap_id j6_handle_invalid m i f).
Notation erase_cap m i := (nm_erase hash_uint cap_id j6_handle_invalid m i).
Notation is_caps m X := (is_nmap hash_uint cap_id j6_handle_invalid m X).

(** sizeof(capability) is 32: two handles, the count, the rights, the type and the pointer. *)
Definition one_page_worth : Z := 4096 / 32.

Definition new_cap_table : cap_table :=
  CapTable (NodeMap 0 one_page_worth (replicate (Z.to_nat one_page_worth) None)) 0.

Definition make_handle (counter : Z) : Z := u64 (counter + 1).

Definition create (t : cap_table) (h : heap) (target : option loc) (cs : Z) :
    outcome (Z * cap_table * heap) :=
  let new_handle := make_handle (m_made t) in
  let* o := deref target in
  let* k := deref (h !! o) in
  let* (_, m) := insert_cap (m_caps t) (Capability new_handle j6_handle_invalid 0 cs (m_type k) target) in
  let* h := handle_retain h o in
  Done (new_handle, CapTable m new_handle, h).

Definition retain_object (h : heap) (o : option loc) : outcome heap :=
  match o with Some o => handle_retain h o | None => Done h end.

Definition derive (t : cap_table) (h : heap) (base : Z) (cs : Z) : outcome (Z * cap_table * heap) :=
  let* slot := find_slot (m_caps t) base in
  match slot with
  | None => Done (j6_handle_invalid, t, h)
  | Some existing =>
      let* o := arr_get (m_nodes (m_caps t)) existing in
      let* c := deref o in
      let cs := Z.land cs (caps c) in
      let new_handle := make_handle (m_made t) in
      let* (_, m) := insert_cap (m_caps t) (Capability new_handle base 0 cs (type c) (object c)) in
      let* o := arr_get (m_nodes m) existing in
      let* c := deref o in
      let* h := retain_object h (object c) in
      Done (new_handle, CapTable m new_handle, h)
  end.

Definition find_without_retain (t : cap_table) (i : Z) : outcome (option capability) := find_cap (m_caps t) i.

Definition set_holders (n : Z) (c : capability) : capability :=
  Capability (cap_id c) (parent c) n (caps c) (type c) (object c).

Definition retain (t : cap_table) (i : Z) : outcome (option capability * cap_table) :=
  let* cap := find_cap (m_caps t) i in
  match cap with
  | None => Done (None, t)
  | Some c =>
      let c := set_holders (u32 (holders c + 1)) c in
      let* m := update_cap (m_caps t) i (λ _, c) in
      Done (Some c, CapTable m (m_made t))
  end.

Definition release_object (h : heap) (o : option loc) : outcome heap :=
  match o with Some o => handle_release h o | None => Done h end.

Definition release (t : cap_table) (h : heap) (i : Z) : outcome (cap_table * heap) :=
  let* cap := find_cap (m_caps t) i in
  match cap with
  | None => Done (t, h)
  | Some c =>
      let c := set_holders (u32 (holders c - 1)) c in
      let* m := update_cap (m_caps t) i (λ _, c) in
      if holders c =? 0 then
        let* h := release_object h (object c) in
        let* (_, m) := erase_cap m i in
        Done (CapTable m (m_made t), h)
      else Done (CapTable m (m_made t), h)
  end.

(** ** The table as a finite map of capabilities *)
Implicit Types (t : cap_table) (h : heap) (X : gmap Z capability) (c : capability) (k : kobject).

(** The number of capabilities that refer to an object. *)
Definition refers (o : loc) c : bool := bool_decide (object c = Some o).
Definition refs X (o : loc) : Z := map_count (refers o) X.

(** [is_attenuated c p]: the rights of [c] are among those of [p], on the same object. *)
Definition is_attenuated c p : Prop :=
  Z.land (caps c) (caps p) = caps c ∧ object c = object p ∧ type c = type p.

Record cap_inv t h X : Prop := {
  ci_map : is_caps (m_caps t) X;
  ci_made : is_u64 (m_made t);
  ci_ids : ∀ i c, X !! i = Some c → cap_id c = i ∧ 0 < i ≤ m_made t ∧ 0 ≤ parent c < i;
  ci_objects : ∀ i c, X !! i = Some c → ∃ o k, object c = Some o ∧ h !! o = Some k ∧ type c = m_type k;
  ci_counts : ∀ o k, h !! o = Some k → refs X o ≤ m_handle_count k < 2 ^ 16;
  ci_parents : ∀ i c p, X !! i = Some c → X !! parent c = Some p → is_attenuated c p;
}.

Lemma is_caps_id m X i c : is_caps m X → X !! i = Some c → cap_id c = i.
Proof. intros [? ? ? ->|es _ Hk ->] Hi; [done|]. by apply (by_key_Some hash_uint _ _ _ _ _ Hk) in Hi as [_ ?]. Qed.

Lemma refs_other X i c o : X !! i = None → object c ≠ Some o → refs (<[i := c]> X) o = refs X o.
Proof.
  intros Hi Ho. unfold refs. rewrite map_count_insert by done. unfold refers at 2.
  rewrite bool_decide_false by done. lia.
Qed.

Lemma refs_same X i c o : X !! i = None → object c = Some o → refs (<[i := c]> X) o = refs X o + 1.
Proof.
  intros Hi Ho. unfold refs. rewrite map_count_insert by done. unfold refers at 2.
  by rewrite bool_decide_true by done.
Qed.

Lemma refs_update X i c c' o :
  X !! i = Some c → object c' = object c → refs (<[i := c']> X) o = refs X o.
Proof.
  intros Hi Ho. unfold refs. rewrite (map_count_update _ _ _ _ _ Hi). unfold refers. rewrite Ho. lia.
Qed.

Lemma refs_delete X i c o :
  X !! i = Some c → refs (delete i X) o = refs X o - (if refers o c then 1 else 0).
Proof. intros Hi. unfold refs. by rewrite (map_count_delete _ _ _ _ Hi). Qed.

(** A new capability for a live object, its rights within those of its parent if that is there. *)
Lemma cap_inv_add t h X m o k c :
  cap_inv t h X → m_made t + 1 < 2 ^ 64 →
  h !! o = Some k → m_handle_count k + 1 < 2 ^ 16 →
  cap_id c = m_made t + 1 → object c = Some o → type c = m_type k → 0 ≤ parent c ≤ m_made t →
  (∀ p, X !! parent c = Some p → is_attenuated c p) →
  is_caps m (<[cap_id c := c]> X) →
  cap_inv (CapTable m (m_made t + 1)) (<[o := set_handle_count k (m_handle_count k + 1)]> h) (<[cap_id c := c]> X).
Proof.
  intros [Hm Hmade Hids Hobj Hcnt Hpar] Hb Hk Hkb Hid Ho Hty Hp Hatt Hm'. unfold is_word in Hmade.
  assert (X !! cap_id c = None) as Hfresh.
  { destruct (X !! cap_id c) as [c'|] eqn:E; [|done]. apply Hids in E. lia. }
  split; cbn [m_caps m_made]; [done|unfold is_word; lia|..].
  - intros i c' [[<- <-]|[Hne Hi]]%lookup_insert_Some; [split; [done|lia]|]. apply Hids in Hi. lia.
  - intros i c' [[<- <-]|[Hne Hi]]%lookup_insert_Some.
    + exists o. eexists. rewrite lookup_insert_eq. done.
    + destruct (Hobj i c' Hi) as (o' & k' & H1 & H2 & H3). exists o'.
      destruct (decide (o = o')) as [<-|]; [rewrite lookup_insert_eq|rewrite lookup_insert_ne by done]; eauto.
      eexists. split; [done|]. split; [done|]. by simplify_eq.
  - intros o' k' [[<- <-]|[Hne Hi]]%lookup_insert_Some.
    + rewrite refs_same by done. cbn [m_handle_count set_handle_count]. specialize (Hcnt _ _ Hk). lia.
    + rewrite refs_other by (done || congruence). by apply Hcnt.
  - intros i c' p [[<- <-]|[Hne Hi]]%lookup_insert_Some Hpp.
    + apply lookup_insert_Some in Hpp as [[E <-]|[_ Hpp]]; [lia|by apply Hatt].
    + apply lookup_insert_Some in Hpp as [[E <-]|[_ Hpp]]; [apply Hids in Hi; lia|by eapply Hpar].
Qed.

(** A changed count of holders. *)
Lemma cap_inv_holders t h X m i c n :
  cap_inv t h X → X !! i = Some c → is_caps m (<[i := set_holders n c]> X) →
  cap_inv (CapTable m (m_made t)) h (<[i := set_holders n c]> X).
Proof.
  intros [Hm Hmade Hids Hobj Hcnt Hpar] Hi Hm'. split; cbn [m_caps m_made]; try done.
  - intros j c' [[<- <-]|[_ Hj]]%lookup_insert_Some; [exact (Hids _ _ Hi)|by apply Hids].
  - intros j c' [[<- <-]|[_ Hj]]%lookup_insert_Some; [exact (Hobj _ _ Hi)|by apply (Hobj j)].
  - intros o k Ho. rewrite (refs_update _ _ _ _ _ Hi) by done. by apply Hcnt.
  - assert (∀ j c', <[i := set_holders n c]> X !! j = Some c' →
      ∃ c0, X !! j = Some c0 ∧ parent c' = parent c0 ∧ caps c' = caps c0 ∧ object c' = object c0 ∧ type c' = type c0) as Hold.
    { intros j c' [[<- <-]|[_ Hj]]%lookup_insert_Some; eauto 10. }
    intros j c' p Hj Hp. apply Hold in Hj as (c0 & Hj & E1 & E2 & E3 & E4), Hp as (p0 & Hp & _ & F2 & F3 & F4).
    rewrite E1 in Hp. unfold is_attenuated. rewrite E2, E3, E4, F2, F3, F4. by eapply Hpar.
Qed.

(** A capability given up, and with it one of its object's handles. *)
Lemma cap_inv_remove t h h' X m i c o k :
  cap_inv t h X → X !! i = Some c → object c = Some o → h !! o = Some k →
  (∀ q, q ≠ o → h' !! q = h !! q) →
  (m_handle_count k ≠ 1 → h' !! o = Some (set_handle_count k (m_handle_count k - 1))) →
  (h' !! o = None ∨ h' !! o = Some (set_handle_count k (m_handle_count k - 1))) →
  is_caps m (delete i X) → cap_inv (CapTable m (m_made t)) h' (delete i X).
Proof.
  intros [Hm Hmade Hids Hobj Hcnt Hpar] Hi Ho Hk Hq Hone Ho' Hm'.
  pose proof (Hcnt _ _ Hk) as Hc. split; cbn [m_caps m_made]; try done.
  - intros j c' [_ Hj]%lookup_delete_Some. by apply Hids.
  - intros j c' [Hne Hj]%lookup_delete_Some. destruct (Hobj j c' Hj) as (o2 & k2 & H1 & H2 & H3).
    destruct (decide (o2 = o)) as [->|Hno]; [|exists o2, k2; by rewrite Hq].
    exists o. eexists. split; [done|]. assert (m_handle_count k ≠ 1) as H1'.
    { pose proof (map_count_pos (refers o) (delete i X) j c') as Hpos.
      pose proof (refs_delete X i c o Hi) as Hd. unfold refs, refers in *. rewrite bool_decide_true in Hd by done.
      rewrite lookup_delete_ne, bool_decide_true in Hpos by done. specialize (Hpos Hj eq_refl). lia. }
    split; [by apply Hone|]. simplify_eq. done.
  - intros o2 k2 H2. rewrite (refs_delete _ _ _ _ Hi). unfold refers. destruct (decide (o2 = o)) as [->|Hno].
    + rewrite bool_decide_true by done. destruct Ho' as [Ho'|Ho']; rewrite Ho' in H2; simplify_eq.
      cbn [m_handle_count set_handle_count]. lia.
    + rewrite bool_decide_false by congruence. rewrite Z.sub_0_r. apply Hcnt. by rewrite <- Hq.
  - intros j c' p [_ Hj]%lookup_delete_Some [_ Hp]%lookup_delete_Some. by eapply Hpar.
Qed.

(** ** The operations *)

(** One more capability fits without growing the table, and there is a handle for it. *)
Definition cap_room t : bool :=
  (m_count (m_caps t) + 1 <=? threshold (m_caps t)) && (m_made t + 1 <? 2 ^ 64).

(** The insertion of a capability derived from [base] leaves a capability for the same object in the
    slot that [derive] keeps a pointer to. *)
Definition derive_stable t (base cs : Z) : bool :=
  match find_slot (m_caps t) base with
  | Done (Some existing) =>
      match arr_get (m_nodes (m_caps t)) existing with
      | Done (Some c) =>
          match insert_cap (m_caps t) (Capability (make_handle (m_made t)) base 0 (Z.land cs (caps c)) (type c) (object c)) with
          | Done (_, m) =>
              match arr_get (m_nodes m) existing with
              | Done (Some c') => bool_decide (object c' = object c)
              | _ => false
              end
          | _ => true
          end
      | _ => true
      end
  | _ => true
  end.

(** The removal of the capability, if this is its last release, does not wrap around the table. *)
Definition release_safe t (i : Z) : bool :=
  match find_cap (m_caps t) i with
  | Done (Some c) =>
      match update_cap (m_caps t) i (λ _, set_holders (u32 (holders c - 1)) c) with
      | Done m => erase_safe hash_uint cap_id j6_handle_invalid m i
      | _ => true
      end
  | _ => true
  end.

Lemma cap_room_spec t : cap_room t = true → m_count (m_caps t) + 1 ≤ threshold (m_caps t) ∧ m_made t + 1 < 2 ^ 64.
Proof. unfold cap_room. rewrite andb_true_iff, Z.leb_le, Z.ltb_lt. done. Qed.

Lemma fresh_handle t h X : cap_inv t h X → X !! (m_made t + 1) = None.
Proof. intros Hi. destruct (X !! _) as [c|] eqn:E; [|done]. apply (ci_ids _ _ _ Hi) in E. lia. Qed.

Lemma create_spec t h X o k cs :
  cap_inv t h X → cap_room t = true → h !! o = Some k → m_handle_count k + 1 < 2 ^ 16 →
  let n := m_made t + 1 in
  let c := Capability n j6_handle_invalid 0 cs (m_type k) (Some o) in
  ∃ t' h', create t h (Some o) cs = Done (n, t', h') ∧ cap_inv t' h' (<[n := c]> X).
Proof.
  intros Hi [Hr Hm]%cap_room_spec Hk Hkb n c. pose proof (ci_made _ _ _ Hi) as Hw.
  pose proof (ci_counts _ _ _ Hi _ _ Hk) as Hc. pose proof (map_count_nonneg (refers o) X) as Hnn. unfold refs in Hc.
  unfold create, make_handle. unfold is_word in Hw. rewrite (wrap_small 64) by (unfold is_word; lia). fold n.
  cbn [deref]. rewrite bind_Done, Hk. cbn [deref]. rewrite bind_Done. fold c.
  destruct (nm_insert_spec hash_uint cap_id j6_handle_invalid (m_caps t) X c (ci_map _ _ _ Hi)) as (idx & m & -> & Hm' & _).
  - simpl. unfold j6_handle_invalid. lia.
  - by apply (fresh_handle t h).
  - done.
  - rewrite bind_Done, (handle_retain_spec h o k Hk) by (unfold is_word; lia). rewrite bind_Done.
    eexists _, _. split; [done|]. apply (cap_inv_add t h X m o k c); try done.
    + unfold c, j6_handle_invalid. simpl. lia.
    + intros p Hp. apply (ci_ids _ _ _ Hi) in Hp. unfold c, j6_handle_invalid in Hp. simpl in Hp. lia.
Qed.

Lemma derive_spec t h X base c cs o k :
  cap_inv t h X → cap_room t = true → X !! base = Some c → object c = Some o →
  h !! o = Some k → m_handle_count k + 1 < 2 ^ 16 → derive_stable t base cs = true →
  let n := m_made t + 1 in
  let c' := Capability n base 0 (Z.land cs (caps c)) (type c) (object c) in
  ∃ t' h', derive t h base cs = Done (n, t', h') ∧ cap_inv t' h' (<[n := c']> X).
Proof.
  intros Hi [Hr Hm]%cap_room_spec Hb Ho Hk Hkb Hst n c'. pose proof (ci_made _ _ _ Hi) as Hw. unfold is_word in Hw.
  pose proof (ci_counts _ _ _ Hi _ _ Hk) as Hc. pose proof (map_count_nonneg (refers o) X) as Hnn. unfold refs in Hc.
  pose proof (ci_ids _ _ _ Hi _ _ Hb) as (Hid & Hbr & Hp).
  destruct (ci_objects _ _ _ Hi _ _ Hb) as (o2 & k2 & Ho2 & Hk2 & Hty). simplify_eq.
  unfold derive, derive_stable, make_handle in *. rewrite (wrap_small 64) in Hst |- * by (unfold is_word; lia). fold n in Hst |- *.
  destruct (nm_lookup_spec hash_uint cap_id j6_handle_invalid (m_caps t) X (cap_id c) (ci_map _ _ _ Hi)) as (r & Hlk & Hlr);
    [unfold j6_handle_invalid; lia|]. rewrite Hlk in Hst |- *. rewrite bind_Done.
  destruct r as [i|]; [|congruence]. destruct Hlr as (Hir & v & Hcell & Hkv & HX). rewrite HX in Hb. simplify_eq.
  destruct (ci_map _ _ _ Hi) as [Hcap ? ? ?|es Ht Hks Hes] eqn:Eim; [lia|].
  assert (arr_get (m_nodes (m_caps t)) i = Done (Some c)) as Hget.
  { rewrite (cell_get (m_capacity (m_caps t))) by (done || apply Ht). by rewrite Hcell. }
  rewrite Hget in Hst |- *. rewrite bind_Done. cbn [deref]. rewrite bind_Done. fold c' in Hst |- *.
  destruct (nm_insert_spec hash_uint cap_id j6_handle_invalid (m_caps t) X c' (ci_map _ _ _ Hi)) as (idx & m & Hins & Hm' & _).
  - simpl. unfold j6_handle_invalid. lia.
  - by apply (fresh_handle t h).
  - done.
  - rewrite Hins in Hst |- *. rewrite bind_Done. destruct (arr_get (m_nodes m) i) as [[c2|]| | |]; try done.
    apply bool_decide_eq_true in Hst. rewrite bind_Done. cbn [deref]. rewrite bind_Done, Hst, Ho. cbn [retain_object].
    rewrite (handle_retain_spec h o k Hk) by (unfold is_word; lia). rewrite bind_Done.
    eexists _, _. split; [done|]. apply (cap_inv_add t h X m o k c'); try done.
    + simpl. lia.
    + intros p Hpp. simpl in Hpp. simplify_eq. split; [|done]. simpl.
      by rewrite <- Z.land_assoc, Z.land_diag.
Qed.

Lemma retain_spec t h X i c :
  cap_inv t h X → X !! i = Some c → is_u32 (holders c + 1) →
  let c' := set_holders (holders c + 1) c in
  ∃ t', retain t i = Done (Some c', t') ∧ cap_inv t' h (<[i := c']> X).
Proof.
  intros Hi Hc Hb c'. pose proof (ci_ids _ _ _ Hi _ _ Hc) as (Hid & Hr & _). unfold retain.
  rewrite (nm_find_spec _ _ _ _ X i (ci_map _ _ _ Hi)), Hc by (unfold j6_handle_invalid; lia).
  rewrite bind_Done, wrap_small by done. fold c'.
  destruct (nm_update_spec hash_uint cap_id j6_handle_invalid (m_caps t) X i c (λ _, c') (ci_map _ _ _ Hi)) as (m & -> & Hm & _);
    [unfold j6_handle_invalid; lia|done|done|]. rewrite bind_Done. eexists. split; [done|].
  by apply cap_inv_holders.
Qed.

Lemma retain_none t h X i :
  cap_inv t h X → i ≠ j6_handle_invalid → X !! i = None → retain t i = Done (None, t).
Proof.
  intros Hi Hi0 Hn. unfold retain. by rewrite (nm_find_spec _ _ _ _ X i (ci_map _ _ _ Hi)), Hn by done.
Qed.

Lemma release_spec t h X i c :
  cap_inv t h X → X !! i = Some c → is_u32 (holders c - 1) → release_safe t i = true →
  ∃ t' h', release t h i = Done (t', h') ∧
    if holders c =? 1 then cap_inv t' h' (delete i X)
    else h' = h ∧ cap_inv t' h (<[i := set_holders (holders c - 1) c]> X).
Proof.
  intros Hi Hc Hb Hsafe. pose proof (ci_ids _ _ _ Hi _ _ Hc) as (Hid & Hr & _). unfold release, release_safe in *.
  assert (i ≠ j6_handle_invalid) as Hi0 by (unfold j6_handle_invalid; lia).
  rewrite (nm_find_spec _ _ _ _ X i (ci_map _ _ _ Hi) Hi0), Hc in Hsafe |- *.
  rewrite bind_Done. rewrite (wrap_small 32) in Hsafe |- * by done. set (c' := set_holders (holders c - 1) c) in *.
  destruct (nm_update_spec hash_uint cap_id j6_handle_invalid (m_caps t) X i c (λ _, c') (ci_map _ _ _ Hi)) as (m & Hu & Hm & _);
    [done..|]. rewrite Hu in Hsafe |- *. rewrite bind_Done. cbn [holders set_holders c'].
  destruct (Z.eqb_spec (holders c - 1) 0) as [E|E].
  2:{ rewrite (proj2 (Z.eqb_neq (holders c) 1)) by lia. eexists _, h. split; [done|]. split; [done|]. by apply cap_inv_holders. }
  rewrite (proj2 (Z.eqb_eq (holders c) 1)) by lia.
  destruct (ci_objects _ _ _ Hi _ _ Hc) as (o & k & Ho & Hk & Hty). cbn [object]. change (object c') with (object c).
  pose proof (ci_counts _ _ _ Hi _ _ Hk) as Hcnt.
  assert (1 ≤ refs X o) as Hpos by (apply (map_count_pos _ _ i c Hc); by apply bool_decide_true).
  rewrite Ho. cbn [release_object].
  destruct (handle_release_spec h o k Hk) as (h' & -> & Hq & Hone & Hor); [unfold is_word; lia|]. rewrite bind_Done.
  pose proof (nm_erase_spec hash_uint cap_id j6_handle_invalid m _ i Hm Hi0) as He. rewrite Hsafe in He.
  destruct He as (m' & -> & Hm' & _). rewrite bind_Done. eexists _, _. split; [done|].
  rewrite delete_insert_eq in Hm'. by eapply cap_inv_remove.
Qed.
