(* ===== verification/Process.v ===== *)
(** * Handles of processes (kernel/objects/process.cpp, kernel/syscalls/helpers.h, handle.cpp, process.cpp)

    A process object has a set of the handles it may use; the capabilities themselves are in the global
    table, whose [holders] field counts the processes that have the handle and the system calls that
    are using it.  The state [kstate] is the table, the heap of kernel objects and the handle sets.  The
    sets are used through the interface [HandleSet]; util::node_set implements it. *)
From S2P Require Import Prelude Bits RobinHood NodeMap KObject Capabilities.

(** ** The interface of handle sets *)
Class HandleSet (S : Type) := {
  hs_contains : S → Z → outcome bool;
  hs_add : S → Z → outcome (bool * S);
  hs_remove : S → Z → outcome (bool * S);
  hs_items : S → list Z;
  hs_count : S → Z;
}.

(** What a set promises: it stands for a finite set of handles; adding and removing work on valid
    handles while the implementation's limits ([hs_add_fits], [hs_remove_fits]) are kept. *)
Class HandleSetLaws (S : Type) `{HandleSet S} := {
  hs_repr : S → gset Z → Prop;
  hs_add_fits : S → Z → bool;
  hs_remove_fits : S → Z → bool;
  hs_contains_law s H i : hs_repr s H → i ≠ j6_handle_invalid → hs_contains s i = Done (bool_decide (i ∈ H));
  hs_add_law s H i : hs_repr s H → i ≠ j6_handle_invalid → hs_add_fits s i = true →
    ∃ s', hs_add s i = Done (bool_decide (i ∉ H), s') ∧ hs_repr s' ({[i]} ∪ H);
  hs_remove_law s H i : hs_repr s H → i ≠ j6_handle_invalid → hs_remove_fits s i = true →
    ∃ s', hs_remove s i = Done (bool_decide (i ∈ H), s') ∧ hs_repr s' (H ∖ {[i]});
  hs_items_law s H : hs_repr s H → NoDup (hs_items s) ∧ (∀ i, i ∈ hs_items s ↔ i ∈ H) ∧
    hs_count s = Z.of_nat (size H) ∧ j6_handle_invalid ∉ H;
}.

(** util::node_set<j6_handle_t> as a handle set. *)
#[global] Instance node_set_handles : HandleSet (node_map Z) := {
  hs_contains := set_contains hash_uint j6_handle_invalid;
  hs_add := set_add hash_uint j6_handle_invalid;
  hs_remove := set_remove hash_uint j6_handle_invalid;
  hs_items := nm_items;
  hs_count := m_count;
}.

Definition set_repr (s : node_map Z) (H : gset Z) : Prop :=
  ∃ M, is_nmap hash_uint id j6_handle_invalid s M ∧ dom M = H.

Definition set_add_fits (s : node_map Z) (i : Z) : bool :=
  match set_contains hash_uint j6_handle_invalid s i with
  | Done true => true
  | _ => m_count s + 1 <=? threshold s
  end.

Lemma set_contains_spec s M i :
  is_nmap hash_uint id j6_handle_invalid s M → i ≠ j6_handle_invalid →
  set_contains hash_uint j6_handle_invalid s i = Done (bool_decide (i ∈ dom M)).
Proof.
  intros Hm Hi. unfold set_contains.
  destruct (nm_lookup_spec _ _ _ _ _ _ Hm Hi) as ([j|] & -> & Hr); rewrite bind_Done.
  - destruct Hr as (_ & v & _ & _ & HM). rewrite bool_decide_true; [done|]. apply elem_of_dom. eauto.
  - rewrite bool_decide_false; [done|]. by apply not_elem_of_dom.
Qed.

Lemma nm_items_spec s M :
  is_nmap hash_uint id j6_handle_invalid s M →
  NoDup (nm_items s) ∧ (∀ i, i ∈ nm_items s ↔ i ∈ dom M) ∧ j6_handle_invalid ∉ dom M.
Proof.
  intros [Hc Hn Hcnt ->|es Ht Hk ->]; unfold nm_items.
  { rewrite Hcnt. split; [constructor|]. set_solver. }
  assert (dom (by_key id es) = list_to_set es) as ->.
  { apply set_eq. intros i. rewrite elem_of_list_to_set, elem_of_dom. split.
    - intros [v Hv]. by apply (by_key_Some hash_uint _ _ _ _ _ Hk) in Hv as [? <-].
    - intros Hi. exists i. by apply (by_key_Some hash_uint _ _ _ _ _ Hk). }
  assert (entries (m_nodes s) ≡ₚ es) as Hp by apply Ht.
  assert (NoDup es) as Hnd by (pose proof (nk_nodup _ _ _ Hk) as Hnd; by rewrite list_fmap_id in Hnd).
  destruct (Z.eqb_spec (m_count s) 0) as [E|E].
  - rewrite (nt_count _ _ _ _ Ht) in E. destruct es; [|done]. split; [constructor|]. set_solver.
  - change (omap id (m_nodes s)) with (entries (m_nodes s)). rewrite Hp. split; [done|].
    split; [intros i; by rewrite elem_of_list_to_set, Hp|]. rewrite elem_of_list_to_set.
    intros Hi. by apply (nk_valid _ _ _ Hk) in Hi.
Qed.

#[global] Program Instance node_set_laws : HandleSetLaws (node_map Z) := {
  hs_repr := set_repr;
  hs_add_fits := set_add_fits;
  hs_remove_fits := erase_safe hash_uint id j6_handle_invalid;
}.
Next Obligation. intros s H i (M & Hm & <-) Hi. by apply set_contains_spec. Qed.
Next Obligation.
  intros s H i (M & Hm & <-) Hi Hf. cbn [hs_add node_set_handles]. unfold set_add, set_add_fits in *.
  rewrite (set_contains_spec _ _ _ Hm Hi) in Hf |- *. rewrite bind_Done. destruct (bool_decide_reflect (i ∈ dom M)) as [Hin|Hin].
  - rewrite bool_decide_false by auto. exists s. split; [done|]. exists M. split; [done|]. set_solver.
  - rewrite (bool_decide_true (i ∉ dom M)) by done.
    destruct (nm_insert_spec hash_uint id j6_handle_invalid s M i Hm) as (idx & s' & -> & Hm' & _);
      [done|by apply not_elem_of_dom|lia|].
    exists s'. split; [done|]. exists (<[i := i]> M). split; [done|]. by rewrite dom_insert_L.
Qed.
Next Obligation.
  intros s H i (M & Hm & <-) Hi Hf. cbn [hs_remove node_set_handles]. unfold set_remove.
  pose proof (nm_erase_spec _ _ _ _ _ _ Hm Hi) as He. rewrite Hf in He. destruct He as (s' & -> & Hm' & _).
  exists s'. split; [do 2 f_equal; apply bool_decide_ext; by rewrite elem_of_dom|].
  exists (delete i M). split; [done|]. by rewrite dom_delete_L.
Qed.
Next Obligation.
  intros s H (M & Hm & <-). destruct (nm_items_spec s M Hm) as (H1 & H2 & H3). split; [done|]. split; [done|].
  split; [|done]. cbn [hs_count node_set_handles]. rewrite (is_nmap_count _ _ _ _ _ Hm). by rewrite size_dom.
Qed.

(** ** Processes and system calls *)
Definition j6_status_error : Z := 0x8000000000000000.
Definition j6_err (x : Z) : Z := Z.lor x j6_status_error.
Definition j6_status_ok : Z := 0.
Definition j6_err_invalid_arg : Z := j6_err 3.
Definition j6_err_insufficient : Z := j6_err 5.
Definition j6_err_denied : Z := j6_err 7.

(** j6_handle_descriptor *)
Record handle_descriptor := HandleDescriptor { d_handle : Z; d_caps : Z; d_type : obj_type }.

Section processes.
Context {S : Type} `{HandleSet S}.

(** A process is named by the location of its object. *)
Record kstate := KState {
  kt : cap_table;
  kh : heap;
  kp : gmap loc S;
}.
Implicit Types (st : kstate) (p : loc) (i : Z).

Definition with_handles st p (s : S) : kstate := KState (kt st) (kh st) (<[p := s]> (kp st)).

(** The two locked sections of [add_handle] and [remove_handle] that use the set. *)
Definition set_add_handle st p i : outcome (bool * kstate) :=
  let* s := deref (kp st !! p) in
  let* (added, s) := hs_add s i in
  Done (added, with_handles st p s).
Definition set_remove_handle st p i : outcome (bool * kstate) :=
  let* s := deref (kp st !! p) in
  let* (removed, s) := hs_remove s i in
  Done (removed, with_handles st p s).

Definition add_handle st p i : outcome kstate :=
  if i =? j6_handle_invalid then Done st
  else
    let* (c, t) := retain (kt st) i in
    let st := KState t (kh st) (kp st) in
    let* _ := kassert (match c with Some _ => true | None => false end) in
    let* (_, st) := set_add_handle st p i in
    Done st.

Definition cap_release st i : outcome kstate :=
  let* (t, h) := release (kt st) (kh st) i in
  Done (KState t h (kp st)).

Definition remove_handle st p i : outcome (bool * kstate) :=
  let* (removed, st) := set_remove_handle st p i in
  if (removed : bool) then let* st := cap_release st i in Done (true, st) else Done (false, st).

Definition has_handle st p i : outcome bool :=
  let* s := deref (kp st !! p) in hs_contains s i.

(** [list_handles]: [buf] is the caller's array. *)
Fixpoint list_loop (t : cap_table) (items : list Z) (buf : list (option handle_descriptor)) (count len : Z) :
    outcome (list (option handle_descriptor)) :=
  match items with
  | [] => Done buf
  | i :: items =>
      let* cap := find_without_retain t i in
      match cap with
      | None => Panic
      | Some c =>
          let* buf := arr_set buf count (Some (HandleDescriptor i (caps c) (type c))) in
          if count + 1 =? len then Done buf else list_loop t items buf (count + 1) len
      end
  end.

Definition list_handles st p (buf : list (option handle_descriptor)) (len : Z) :
    outcome (Z * list (option handle_descriptor)) :=
  let* s := deref (kp st !! p) in
  let* buf := list_loop (kt st) (hs_items s) buf 0 len in
  Done (hs_count s, buf).

(** [get_handle<T>]: [want] is T's object type, [None] for the kobject specialisation. *)
Definition get_handle st (p : loc) (want : option obj_type) i (cs : Z) (optional : bool) :
    outcome (Z * option loc * kstate) :=
  if i =? j6_handle_invalid then
    Done (if optional then j6_status_ok else j6_err_invalid_arg, None, st)
  else
    let* (capdata, t) := retain (kt st) i in
    let st := KState t (kh st) (kp st) in
    match capdata with
    | None => Done (j6_err_invalid_arg, None, st)
    | Some c =>
        if match want with Some ty => bool_decide (type c ≠ ty) | None => false end
        then Done (j6_err_invalid_arg, None, st)
        else
          let* has := has_handle st p i in
          if negb has || negb (Z.land (caps c) cs =? cs) then Done (j6_err_denied, None, st)
          else Done (j6_status_ok, object c, st)
    end.

(** [construct_handle]: the new object was made at [o]. *)
Definition construct_handle st (p o : loc) (creation_caps : Z) : outcome (Z * kstate) :=
  let* (i, t, h) := create (kt st) (kh st) (Some o) creation_caps in
  let* st := add_handle (KState t h (kp st)) p i in
  Done (i, st).

(** The handle of [thread_create], for the thread made at [o]: it is not added to the process. *)
Definition thread_create_handle st (o : loc) (creation_caps : Z) : outcome (Z * kstate) :=
  let* (i, t, h) := create (kt st) (kh st) (Some o) creation_caps in
  Done (i, KState t h (kp st)).

(** The system calls of handle.cpp, and process_give_handle; [p] is the calling process. *)
Definition handle_list st p (buf : list (option handle_descriptor)) (handles_len : Z) :
    outcome (Z * Z * list (option handle_descriptor)) :=
  let* (n, buf) := list_handles st p buf handles_len in
  Done (if n >? handles_len then j6_err_insufficient else j6_status_ok, n, buf).

Definition handle_clone st p (orig mask : Z) : outcome (Z * Z * kstate) :=
  let* (clone, t, h) := derive (kt st) (kh st) orig (u16 mask) in
  let* st := add_handle (KState t h (kp st)) p clone in
  Done (j6_status_ok, clone, st).

Definition handle_close st p (hnd : Z) : outcome (Z * kstate) :=
  let* (_, st) := remove_handle st p hnd in
  Done (j6_status_ok, st).

Definition process_give_handle st (self : loc) (target : Z) : outcome (Z * kstate) :=
  let* st := add_handle st self target in
  Done (j6_status_ok, st).
End processes.
Arguments kstate : clear implicits.

(** ** Handles stay valid under every interleaving of the kernel's locked sections

    System calls run on several processors at once; what is atomic are the sections under the lock of
    the table or of a handle set.  [kstep] is one such section.  The uses that are in flight between
    sections, of each handle, are counted in [R]: a system call may release a capability or put its
    handle into a set only after it has retained it. *)
Inductive kop :=
  | OCreate (o : loc) (cs : Z)
  | ODerive (base cs : Z)
  | ORetain (i : Z)
  | ORelease (i : Z)
  | OSetAdd (p : loc) (i : Z)
  | OSetRemove (p : loc) (i : Z).

Section interleaving.
Context {S : Type} {HS : HandleSet S} {HL : HandleSetLaws S}.
Implicit Types (st : kstate S) (p : loc) (i : Z) (X : gmap Z capability) (P : gmap loc (gset Z)) (R : Z → Z).

Definition kstep st (op : kop) : outcome (Z * kstate S) :=
  match op with
  | OCreate o cs => let* (i, t, h) := create (kt st) (kh st) (Some o) cs in Done (i, KState t h (kp st))
  | ODerive base cs => let* (i, t, h) := derive (kt st) (kh st) base cs in Done (i, KState t h (kp st))
  | ORetain i =>
      let* (c, t) := retain (kt st) i in
      Done (match c with Some _ => 1 | None => 0 end, KState t (kh st) (kp st))
  | ORelease i => let* st := cap_release st i in Done (0, st)
  | OSetAdd p i => let* (b, st) := set_add_handle st p i in Done (if (b : bool) then 1 else 0, st)
  | OSetRemove p i => let* (b, st) := set_remove_handle st p i in Done (if (b : bool) then 1 else 0, st)
  end.

Definition adjust R i (d : Z) : Z → Z := λ j, if j =? i then R j + d else R j.

(** How a section with the result [r] changes the uses in flight. *)
Definition uses R (op : kop) (r : Z) : Z → Z :=
  match op with
  | ORetain i => adjust R i r
  | ORelease i => adjust R i (-1)
  | OSetAdd _ i => adjust R i (- r)
  | OSetRemove _ i => adjust R i r
  | _ => R
  end.

(** The caller's part: objects given to [create] are alive, handles are not the invalid one, and what is
    released or put into a set was retained. *)
Definition kop_ok st R (op : kop) : bool :=
  match op with
  | OCreate o _ => bool_decide (is_Some (kh st !! o))
  | ODerive base _ => negb (base =? j6_handle_invalid)
  | ORetain i => negb (i =? j6_handle_invalid)
  | ORelease i => 0 <? R i
  | OSetAdd p i => (0 <? R i) && bool_decide (is_Some (kp st !! p))
  | OSetRemove p i => negb (i =? j6_handle_invalid) && bool_decide (is_Some (kp st !! p))
  end.

(** The limits of the implementation: the counters do not overflow, the tables need not grow or wrap
    a removal, and a derivation does not move the node it derives from. *)
Definition count_fits (h : heap) (o : option loc) : bool :=
  match o with
  | Some o => match h !! o with Some k => m_handle_count k + 1 <? 2 ^ 16 | None => true end
  | None => true
  end.
Definition kop_fits st (op : kop) : bool :=
  match op with
  | OCreate o _ => cap_room (kt st) && count_fits (kh st) (Some o)
  | ODerive base cs =>
      match find_without_retain (kt st) base with
      | Done (Some c) => cap_room (kt st) && derive_stable (kt st) base cs && count_fits (kh st) (object c)
      | _ => true
      end
  | ORetain i =>
      match find_without_retain (kt st) i with Done (Some c) => holders c + 1 <? 2 ^ 32 | _ => true end
  | ORelease i => release_safe (kt st) i
  | OSetAdd p i => match kp st !! p with Some s => hs_add_fits s i | None => true end
  | OSetRemove p i => match kp st !! p with Some s => hs_remove_fits s i | None => true end
  end.

Definition owners P i : Z := map_count (λ H : gset Z, bool_decide (i ∈ H)) P.

Record kinv st R X P : Prop := {
  ki_caps : cap_inv (kt st) (kh st) X;
  ki_sets : ∀ p, option_Forall2 hs_repr (kp st !! p) (P !! p);
  ki_owned : ∀ p (H : gset Z) i, P !! p = Some H → i ∈ H → is_Some (X !! i);
  ki_uses : ∀ i, 0 ≤ R i ∧ (0 < R i → is_Some (X !! i));
  ki_holders : ∀ i c, X !! i = Some c → owners P i + R i ≤ holders c < 2 ^ 32;
}.

Lemma find_spec st R X P i :
  kinv st R X P → i ≠ j6_handle_invalid → find_without_retain (kt st) i = Done (X !! i).
Proof. intros Hk Hi. apply nm_find_spec; [apply (ci_map _ _ _ (ki_caps _ _ _ _ Hk))|done]. Qed.

Lemma owned_valid st R X P i : kinv st R X P → is_Some (X !! i) → i ≠ j6_handle_invalid.
Proof. intros Hk [c Hc]. apply (ci_ids _ _ _ (ki_caps _ _ _ _ Hk)) in Hc. unfold j6_handle_invalid. lia. Qed.

Lemma owners_set P p (H H' : gset Z) i :
  P !! p = Some H →
  owners (<[p := H']> P) i = owners P i - (if bool_decide (i ∈ H) then 1 else 0) + (if bool_decide (i ∈ H') then 1 else 0).
Proof. intros Hp. unfold owners. by rewrite (map_count_update _ _ _ _ _ Hp). Qed.

Lemma owners_none st R X P i : kinv st R X P → X !! i = None → owners P i = 0 ∧ R i = 0.
Proof.
  intros Hk Hn. split.
  - pose proof (map_count_nonneg (λ H : gset Z, bool_decide (i ∈ H)) P) as Hp. fold (owners P i) in Hp.
    destruct (decide (owners P i = 0)) as [|Hne]; [done|exfalso]. unfold owners, map_count in Hne.
    destruct (map_choose (filter (λ kv : loc * gset Z, bool_decide (i ∈ kv.2) = true) P)) as (p & H1 & Hf).
    { intros Hz. apply Hne. by rewrite Hz, map_size_empty. }
    apply map_lookup_filter_Some in Hf as [Hf Hb%bool_decide_eq_true].
    destruct (ki_owned _ _ _ _ Hk p H1 i Hf Hb) as [c Hc]. congruence.
  - destruct (ki_uses _ _ _ _ Hk i) as [H1 H2]. destruct (decide (0 < R i)); [|lia].
    destruct H2 as [c Hc]; [done|]. congruence.
Qed.

(** A section that only adds a capability or changes one, with the sets as they are. *)
Lemma kinv_new st R X P t h i c :
  kinv st R X P → cap_inv t h (<[i := c]> X) → X !! i = None → holders c = 0 →
  kinv (KState t h (kp st)) R (<[i := c]> X) P.
Proof.
  intros Hk Hc Hn Hh. destruct (owners_none _ _ _ _ _ Hk Hn) as [Ho HR].
  destruct Hk as [_ Hs Ho' Hu Hhd]. split; cbn [kt kh kp]; try done.
  - intros p H1 j Hp Hj. destruct (Ho' p H1 j Hp Hj) as [c' Hc']. apply lookup_insert_is_Some. destruct (decide (i = j)); eauto.
  - intros j. destruct (Hu j) as [H1 H2]. split; [done|]. intros Hj. apply lookup_insert_is_Some.
    destruct (decide (i = j)); eauto.
  - intros j c' [[<- <-]|[_ Hj]]%lookup_insert_Some; [lia|]. by apply Hhd.
Qed.

(** Changing the holders of a capability by as much as its uses. *)
Lemma kinv_adjust st R X P t i c (d : Z) :
  kinv st R X P → X !! i = Some c → cap_inv t (kh st) (<[i := set_holders (holders c + d) c]> X) →
  0 ≤ R i + d → holders c + d < 2 ^ 32 →
  kinv (KState t (kh st) (kp st)) (adjust R i d) (<[i := set_holders (holders c + d) c]> X) P.
Proof.
  intros [_ Hs Ho Hu Hh] Hi Hc HR Hb. split; cbn [kt kh kp]; try done.
  - intros p H1 j Hp Hj. destruct (Ho p H1 j Hp Hj) as [c' Hc']. apply lookup_insert_is_Some. destruct (decide (i = j)); eauto.
  - intros j. unfold adjust. destruct (Hu j) as [H1 H2]. destruct (Z.eqb_spec j i) as [->|].
    + split; [done|]. intros _. rewrite lookup_insert_eq. eauto.
    + split; [done|]. intros Hj. rewrite lookup_insert_ne by auto. by apply H2.
  - intros j c' [[<- <-]|[Hne Hj]]%lookup_insert_Some; unfold adjust.
    + rewrite Z.eqb_refl. specialize (Hh _ _ Hi). simpl. lia.
    + rewrite (proj2 (Z.eqb_neq _ _)) by done. by apply Hh.
Qed.

Lemma kstep_retain st R X P i :
  kinv st R X P → kop_ok st R (ORetain i) = true → kop_fits st (ORetain i) = true →
  ∃ r st' X', kstep st (ORetain i) = Done (r, st') ∧ kinv st' (uses R (ORetain i) r) X' P.
Proof.
  intros Hk Hok Hf. cbn [kop_ok kop_fits kstep uses] in *. apply negb_true_iff, Z.eqb_neq in Hok.
  rewrite (find_spec _ _ _ _ _ Hk Hok) in Hf. destruct (X !! i) as [c|] eqn:Hc.
  - apply Z.ltb_lt in Hf. pose proof (ki_holders _ _ _ _ Hk _ _ Hc) as Hh. pose proof (ki_uses _ _ _ _ Hk i) as [HR _].
    pose proof (map_count_nonneg (λ H : gset Z, bool_decide (i ∈ H)) P) as Hp. fold (owners P i) in Hp.
    destruct (retain_spec _ _ _ _ _ (ki_caps _ _ _ _ Hk) Hc) as (t & -> & Ht); [unfold is_word; lia|].
    rewrite bind_Done. eexists _, _, _. split; [done|]. apply kinv_adjust; try done; lia.
  - rewrite (retain_none _ _ _ _ (ki_caps _ _ _ _ Hk) Hok Hc), bind_Done. eexists _, _, X. split; [done|].
    destruct Hk as [H1 H2 H3 H4 H5]. split; try done; unfold adjust; intros j; case_match; try rewrite Z.add_0_r; auto.
Qed.

(** The last release takes the capability out; nobody has its handle any more. *)
Lemma kinv_dropped st R X P t h i c :
  kinv st R X P → X !! i = Some c → 0 < R i → holders c = 1 → cap_inv t h (delete i X) →
  kinv (KState t h (kp st)) (adjust R i (-1)) (delete i X) P.
Proof.
  intros Hk Hc HR H1 Ht. pose proof (ki_holders _ _ _ _ Hk _ _ Hc) as Hh.
  pose proof (map_count_nonneg (λ H : gset Z, bool_decide (i ∈ H)) P) as Hp. fold (owners P i) in Hp.
  assert (owners P i = 0) as Ho by lia. destruct Hk as [_ Hs Howned Hu Hhd].
  split; cbn [kt kh kp]; try done.
  - intros p H2 j Hpp Hj. rewrite lookup_delete_ne; [by eapply Howned|]. intros <-.
    pose proof (map_count_zero _ _ Ho p H2 Hpp) as Hz. by apply bool_decide_eq_false in Hz.
  - intros j. unfold adjust. destruct (Hu j) as [H2 H3]. destruct (Z.eqb_spec j i) as [->|Hne].
    + split; [lia|]. lia.
    + split; [done|]. intros Hj. rewrite lookup_delete_ne by done. by apply H3.
  - intros j c' [Hne Hj]%lookup_delete_Some. unfold adjust. rewrite (proj2 (Z.eqb_neq _ _)) by done. by apply Hhd.
Qed.

Lemma kstep_release st R X P i :
  kinv st R X P → kop_ok st R (ORelease i) = true → kop_fits st (ORelease i) = true →
  ∃ r st' X', kstep st (ORelease i) = Done (r, st') ∧ kinv st' (uses R (ORelease i) r) X' P.
Proof.
  intros Hk Hok Hf. cbn [kop_ok kop_fits kstep uses] in *. apply Z.ltb_lt in Hok.
  destruct (ki_uses _ _ _ _ Hk i) as [_ [c Hc]]; [done|]. pose proof (ki_holders _ _ _ _ Hk _ _ Hc) as Hh.
  pose proof (map_count_nonneg (λ H : gset Z, bool_decide (i ∈ H)) P) as Hp. fold (owners P i) in Hp. unfold cap_release.
  destruct (release_spec _ _ _ _ _ (ki_caps _ _ _ _ Hk) Hc) as (t & h & -> & Ht); [unfold is_word; lia|done|].
  rewrite !bind_Done. destruct (Z.eqb_spec (holders c) 1).
  - eexists _, _, _. split; [done|]. by eapply kinv_dropped.
  - destruct Ht as [-> Ht]. eexists _, _, _. split; [done|].
    apply (kinv_adjust st R X P t i c (-1)); try done; lia.
Qed.

(** A section on a handle set. *)
Lemma kinv_set st R X P p s s' (H H' : gset Z) i d :
  kinv st R X P → kp st !! p = Some s → P !! p = Some H → hs_repr s' H' → is_Some (X !! i) →
  (∀ j, j ≠ i → j ∈ H' ↔ j ∈ H) →
  (if bool_decide (i ∈ H') then 1 else 0) + d = (if bool_decide (i ∈ H) then 1 else 0) → 0 ≤ R i + d →
  kinv (with_handles st p s') (adjust R i d) X (<[p := H']> P).
Proof.
  intros [Hc Hs Ho Hu Hh] Hp HP Hr Hi Hj Hd HR. split; cbn [with_handles kt kh kp]; try done.
  - intros q. destruct (decide (p = q)) as [<-|]; [rewrite !lookup_insert_eq; by constructor|].
    by rewrite !lookup_insert_ne by done.
  - intros q H2 j [[<- <-]|[_ Hq]]%lookup_insert_Some Hin; [|by eapply Ho].
    destruct (decide (j = i)) as [->|Hne]; [done|]. eapply Ho; [done|]. by apply Hj.
  - intros j. unfold adjust. destruct (Z.eqb_spec j i) as [->|]; [split; [done|]; done|apply Hu].
  - intros j c Hjc. unfold adjust. rewrite (owners_set _ _ _ _ _ HP). specialize (Hh _ _ Hjc).
    destruct (Z.eqb_spec j i) as [->|Hne]; [lia|]. rewrite (bool_decide_ext _ _ (Hj j Hne)). lia.
Qed.

Lemma kstep_sets st R X P op p i :
  op = OSetAdd p i ∨ op = OSetRemove p i →
  kinv st R X P → kop_ok st R op = true → kop_fits st op = true →
  ∃ r st' P', kstep st op = Done (r, st') ∧ kinv st' (uses R op r) X P'.
Proof.
  intros Hop Hk Hok Hf. pose proof (ki_sets _ _ _ _ Hk p) as Hs. pose proof (ki_uses _ _ _ _ Hk i) as [HR0 HR].
  destruct Hop as [-> | ->]; cbn [kop_ok kop_fits kstep uses] in *; unfold set_add_handle, set_remove_handle;
    apply andb_true_iff in Hok as [Hok [s Hp]%bool_decide_eq_true]; rewrite Hp in Hs, Hf |- *; inversion Hs as [s0 H1 Hr E0 EP|]; subst s0; symmetry in EP;
    cbn [deref]; rewrite bind_Done.
  - apply Z.ltb_lt in Hok. specialize (HR Hok).
    destruct (hs_add_law s H1 i Hr (owned_valid _ _ _ _ _ Hk HR) Hf) as (s' & -> & Hr'). rewrite !bind_Done.
    eexists _, _, _. split; [done|]. eapply (kinv_set st R X P p s s' H1 ({[i]} ∪ H1) i); try done; [set_solver| |].
    + rewrite (bool_decide_true (i ∈ {[i]} ∪ H1)) by set_solver. destruct (bool_decide_reflect (i ∈ H1)).
      * by rewrite bool_decide_false by auto.
      * by rewrite bool_decide_true by auto.
    + case_match; lia.
  - apply negb_true_iff, Z.eqb_neq in Hok.
    destruct (hs_remove_law s H1 i Hr Hok Hf) as (s' & -> & Hr'). rewrite !bind_Done.
    destruct (bool_decide_reflect (i ∈ H1)) as [Hin|Hin].
    + eexists _, _, _. split; [done|]. eapply (kinv_set st R X P p s s' H1 (H1 ∖ {[i]}) i); try done; [|set_solver| |lia].
      * by eapply (ki_owned _ _ _ _ Hk).
      * rewrite (bool_decide_false (i ∈ H1 ∖ {[i]})) by set_solver. by rewrite bool_decide_true.
    + eexists _, _, P. split; [done|]. assert (H1 ∖ {[i]} = H1) as E by set_solver. rewrite E in Hr'.
      destruct Hk as [Hc Hs' Ho Hu Hh]. split; cbn [with_handles kt kh kp]; try done.
      * intros q. destruct (decide (p = q)) as [<-|]; [|by rewrite lookup_insert_ne].
        rewrite lookup_insert_eq, EP. by constructor.
      * intros j. unfold adjust. rewrite Z.add_0_r. case_match; apply Hu.
      * intros j c Hj. unfold adjust. rewrite Z.add_0_r. case_match; by apply Hh.
Qed.

Lemma kstep_spec st R X P op :
  kinv st R X P → kop_ok st R op = true → kop_fits st op = true →
  ∃ r st' X' P', kstep st op = Done (r, st') ∧ kinv st' (uses R op r) X' P'.
Proof.
  intros Hk Hok Hf. pose proof (ki_caps _ _ _ _ Hk) as Hc.
  pose proof (fresh_handle _ _ _ Hc) as Hfresh. destruct op as [o cs|base cs|i|i|p i|p i].
  - cbn [kop_ok kop_fits kstep uses] in *. apply bool_decide_eq_true in Hok as [k Hko].
    apply andb_true_iff in Hf as [Hr Hb]. cbn [count_fits] in Hb. rewrite Hko in Hb. apply Z.ltb_lt in Hb.
    destruct (create_spec _ _ _ _ _ cs Hc Hr Hko Hb) as (t & h & -> & Ht). rewrite bind_Done.
    eexists _, _, _, _. split; [done|]. by apply (kinv_new st).
  - cbn [kop_ok kop_fits kstep uses] in *. apply negb_true_iff, Z.eqb_neq in Hok.
    rewrite (find_spec _ _ _ _ _ Hk Hok) in Hf. destruct (X !! base) as [c|] eqn:Hb.
    + apply andb_true_iff in Hf as [[Hr Hst]%andb_true_iff Hcf].
      destruct (ci_objects _ _ _ Hc _ _ Hb) as (o & k & Ho & Hko & _). rewrite Ho in Hcf. cbn [count_fits] in Hcf.
      rewrite Hko in Hcf. apply Z.ltb_lt in Hcf.
      destruct (derive_spec _ _ _ _ _ _ _ _ Hc Hr Hb Ho Hko Hcf Hst) as (t & h & -> & Ht). rewrite bind_Done.
      eexists _, _, _, _. split; [done|]. by apply (kinv_new st).
    + unfold derive. destruct (nm_lookup_spec _ _ _ _ _ _ (ci_map _ _ _ Hc) Hok) as ([j|] & -> & Hj).
      { destruct Hj as (_ & v & _ & _ & Hv). congruence. }
      rewrite !bind_Done. eexists _, _, X, P. split; [done|]. by destruct st.
  - destruct (kstep_retain _ _ _ _ _ Hk Hok Hf) as (r & st' & X' & ? & ?). by exists r, st', X', P.
  - destruct (kstep_release _ _ _ _ _ Hk Hok Hf) as (r & st' & X' & ? & ?). by exists r, st', X', P.
  - destruct (kstep_sets _ _ _ _ _ p i (or_introl eq_refl) Hk Hok Hf) as (r & st' & P' & ? & ?). by exists r, st', X, P'.
  - destruct (kstep_sets _ _ _ _ _ p i (or_intror eq_refl) Hk Hok Hf) as (r & st' & P' & ? & ?). by exists r, st', X, P'.
Qed.

(** A schedule of sections, and that each is called as it may be and stays within the limits. *)
Fixpoint krun st R (ops : list kop) : outcome (kstate S * (Z → Z)) :=
  match ops with
  | [] => Done (st, R)
  | op :: ops => let* (r, st) := kstep st op in krun st (uses R op r) ops
  end.
Fixpoint kallowed st R (ops : list kop) : bool :=
  match ops with
  | [] => true
  | op :: ops =>
      kop_ok st R op && kop_fits st op &&
      match kstep st op with Done (r, st) => kallowed st (uses R op r) ops | _ => true end
  end.

Lemma krun_spec ops st R X P :
  kinv st R X P → kallowed st R ops = true →
  ∃ st' R' X' P', krun st R ops = Done (st', R') ∧ kinv st' R' X' P'.
Proof.
  revert st R X P. induction ops as [|op ops IH]; intros st R X P Hk Ha; cbn [krun kallowed] in *.
  { by exists st, R, X, P. }
  apply andb_true_iff in Ha as [[Hok Hf]%andb_true_iff Ha].
  destruct (kstep_spec _ _ _ _ _ Hk Hok Hf) as (r & st1 & X1 & P1 & E & Hk1). rewrite E in Ha |- *.
  rewrite bind_Done. by eapply IH.
Qed.

Lemma has_handle_spec st R X P p i :
  kinv st R X P → i ≠ j6_handle_invalid → is_Some (kp st !! p) →
  ∃ H : gset Z, P !! p = Some H ∧ has_handle st p i = Done (bool_decide (i ∈ H)).
Proof.
  intros Hk Hi [s Hs]. pose proof (ki_sets _ _ _ _ Hk p) as Hr. rewrite Hs in Hr. inversion Hr as [s0 H1 Hr1 E0 EP|]; subst s0.
  exists H1. split; [done|]. unfold has_handle. rewrite Hs. cbn [deref]. rewrite bind_Done. by apply hs_contains_law.
Qed.

(** What [get_handle] does to the state: it retains the capability, if there is one. *)
Lemma get_handle_spec st R X P p want i cs opt :
  kinv st R X P → is_Some (kp st !! p) → kop_fits st (ORetain i) = true →
  ∃ res o st' X', get_handle st p want i cs opt = Done (res, o, st') ∧
    (if i =? j6_handle_invalid then st' = st ∧ X' = X ∧ o = None ∧ res = (if opt then j6_status_ok else j6_err_invalid_arg)
     else match X !! i with
       | None => st' = st ∧ X' = X ∧ res = j6_err_invalid_arg ∧ o = None
       | Some c =>
           kinv st' (adjust R i 1) X' P ∧ X' = <[i := set_holders (holders c + 1) c]> X ∧
           (if decide (want = None ∨ want = Some (type c)) then
              if decide (has_handle st p i = Done true ∧ Z.land (caps c) cs = cs)
              then res = j6_status_ok ∧ o = object c else res = j6_err_denied ∧ o = None
            else res = j6_err_invalid_arg ∧ o = None)
       end).
Proof.
  intros Hk Hp Hf. unfold get_handle. destruct (Z.eqb_spec i j6_handle_invalid) as [Ei|Hi].
  { eexists _, _, st, X. split; [done|]. by destruct opt. }
  destruct (X !! i) as [c|] eqn:Hc.
  2:{ rewrite (retain_none _ _ _ _ (ki_caps _ _ _ _ Hk) Hi Hc), bind_Done.
      eexists _, _, st, X. split; [by destruct st|]. done. }
  assert (kop_ok st R (ORetain i) = true) as Hok by (cbn [kop_ok]; by apply negb_true_iff, Z.eqb_neq).
  cbn [kop_fits] in Hf. rewrite (find_spec _ _ _ _ _ Hk Hi), Hc in Hf. apply Z.ltb_lt in Hf.
  pose proof (ki_holders _ _ _ _ Hk _ _ Hc) as Hh. pose proof (ki_uses _ _ _ _ Hk i) as [HR _].
  pose proof (map_count_nonneg (λ H : gset Z, bool_decide (i ∈ H)) P) as Hpn. fold (owners P i) in Hpn.
  destruct (retain_spec _ _ _ _ _ (ki_caps _ _ _ _ Hk) Hc) as (t & -> & Ht); [unfold is_word; lia|].
  rewrite bind_Done. cbv zeta. set (st' := KState t (kh st) (kp st)).
  assert (kinv st' (adjust R i 1) (<[i := set_holders (holders c + 1) c]> X) P) as Hk' by (apply kinv_adjust; try done; lia).
  change (type (set_holders (holders c + 1) c)) with (type c). change (caps (set_holders (holders c + 1) c)) with (caps c).
  change (object (set_holders (holders c + 1) c)) with (object c). change (has_handle st' p i) with (has_handle st p i).
  destruct (has_handle_spec _ _ _ _ _ _ Hk Hi Hp) as (H1 & HP & ->).
  assert (match want with Some ty => bool_decide (type c ≠ ty) | None => false end
    = negb (bool_decide (want = None ∨ want = Some (type c)))) as ->.
  { destruct want as [ty|]; [|by rewrite bool_decide_true by auto]. rewrite <- bool_decide_not.
    apply bool_decide_ext. naive_solver. }
  destruct (decide (want = None ∨ want = Some (type c))) as [Hw|Hw];
    [rewrite bool_decide_true by done|rewrite bool_decide_false by done]; cbn [negb].
  2:{ eexists _, _, st', _. done. }
  rewrite bind_Done. destruct (bool_decide_reflect (i ∈ H1)) as [Hin|Hin], (Z.eqb_spec (Z.land (caps c) cs) cs) as [Hcs|Hcs]; cbn [negb orb].
  all: eexists _, _, st', _; split; [done|]; split; [done|]; split; [done|].
  all: first [rewrite decide_True by done; done|rewrite decide_False by naive_solver; done].
Qed.
End interleaving.

(** ** The list of handles *)
Section listing.
Context {S : Type} {HS : HandleSet S} {HL : HandleSetLaws S}.
Implicit Types (st : kstate S) (p : loc) (X : gmap Z capability) (P : gmap loc (gset Z)) (R : Z → Z).

Definition describe X (i : Z) : option handle_descriptor :=
  (λ c, HandleDescriptor i (caps c) (type c)) <$> X !! i.

Lemma list_loop_spec t X items buf (count len : Z) :
  is_nmap hash_uint cap_id j6_handle_invalid (m_caps t) X →
  (∀ i, i ∈ items → i ≠ j6_handle_invalid ∧ is_Some (X !! i)) →
  0 ≤ count < len → Z.of_nat (length buf) = len →
  ∃ buf', list_loop t items buf count len = Done buf' ∧ length buf' = length buf ∧
    take (Z.to_nat count) buf' = take (Z.to_nat count) buf ∧
    ∀ n i, items !! n = Some i → count + Z.of_nat n < len →
      buf' !! (Z.to_nat count + n)%nat = Some (describe X i).
Proof.
  intros Hm. revert buf count. induction items as [|i items IH]; intros buf count Hin Hc Hl; cbn [list_loop].
  { exists buf. split; [done|]. split; [done|]. split; [done|]. intros n i Hn. done. }
  destruct (Hin i) as [Hi [c Hx]]; [left|]. unfold find_without_retain.
  rewrite (nm_find_spec _ _ _ _ _ _ Hm Hi), Hx, bind_Done, arr_set_Done, bind_Done by lia.
  set (d := Some (HandleDescriptor i (caps c) (type c))). set (buf1 := <[Z.to_nat count := d]> buf).
  assert (buf1 !! Z.to_nat count = Some (describe X i)) as H1.
  { unfold buf1, describe. rewrite Hx, list_lookup_insert_eq by lia. done. }
  destruct (Z.eqb_spec (count + 1) len) as [E|E].
  - exists buf1. split; [done|]. split; [by unfold buf1; rewrite length_insert|].
    split; [unfold buf1; apply take_insert_ge; lia|].
    intros n i' Hn Hlt. assert (n = 0%nat) as -> by lia. simpl in Hn. simplify_eq. by rewrite Nat.add_0_r.
  - destruct (IH buf1 (count + 1)) as (buf' & -> & Hl' & Ht & Hd); [|lia|unfold buf1; rewrite length_insert; lia|].
    { intros j Hj. apply Hin. by right. }
    exists buf'. split; [done|]. split; [rewrite Hl'; unfold buf1; apply length_insert|].
    assert (∀ m : nat, (m < Z.to_nat (count + 1))%nat → buf' !! m = buf1 !! m) as Hm'.
    { intros m Hlt. rewrite <- (lookup_take_lt buf' (Z.to_nat (count + 1))), Ht, lookup_take_lt by lia. done. }
    split.
    + apply list_eq. intros m. destruct (decide (m < Z.to_nat count)%nat) as [Hlt|Hge].
      * rewrite !lookup_take_lt, Hm' by lia. unfold buf1. by rewrite list_lookup_insert_ne by lia.
      * by rewrite !lookup_take_ge by lia.
    + intros [|n] i' Hn Hlt; simpl in Hn.
      * simplify_eq. rewrite Nat.add_0_r, Hm' by lia. done.
      * replace (Z.to_nat count + Datatypes.S n)%nat with (Z.to_nat (count + 1) + n)%nat by lia. apply Hd; [done|lia].
Qed.
End listing.

(** ** Properties *)
Section properties.
Context {S : Type} {HS : HandleSet S} {HL : HandleSetLaws S}.
Implicit Types (st : kstate S) (p : loc) (i : Z) (X : gmap Z capability) (P : gmap loc (gset Z)) (R : Z → Z).


(** [get_handle] is the access check of every system call.  For a valid handle it returns an object
    exactly when the table has the capability, the calling process has the handle, the object has the
    type asked for and all the rights asked for are there; the object is then the capability's, alive,
    and the capability is held for the time of the call.  In every other case it returns an error and
    no object. *)
Theorem get_handle_checks st R X P p want i cs opt :
  kinv st R X P → is_Some (kp st !! p) → kop_fits st (ORetain i) = true → i ≠ j6_handle_invalid →
  ∃ res o st', get_handle st p want i cs opt = Done (res, o, st') ∧
    (res = j6_status_ok ↔ ∃ c, X !! i = Some c ∧ has_handle st p i = Done true ∧
       (want = None ∨ want = Some (type c)) ∧ Z.land (caps c) cs = cs) ∧
    (res = j6_status_ok → ∃ c ob k, X !! i = Some c ∧ o = Some ob ∧ object c = Some ob ∧ kh st' !! ob = Some k ∧
       find_without_retain (kt st') i = Done (Some (set_holders (holders c + 1) c))) ∧
    (res ≠ j6_status_ok → o = None).
Proof.
  intros Hk Hp Hf Hi. destruct (get_handle_spec _ _ _ _ p want i cs opt Hk Hp Hf) as (res & o & st' & X' & Hg & Hr).
  exists res, o, st'. split; [done|]. rewrite (proj2 (Z.eqb_neq _ _)) in Hr by done.
  destruct (X !! i) as [c|] eqn:Hc.
  2:{ destruct Hr as (_ & _ & -> & ->). split; [|split; [done|done]]. split; [done|]. intros (c & Hc' & _). done. }
  destruct Hr as (Hk' & -> & Hr). destruct (decide (want = None ∨ want = Some (type c))) as [Hw|Hw].
  2:{ destruct Hr as [-> ->]. split; [|split; [done|done]]. split; [done|]. intros (c' & [= <-] & _ & Hw' & _). done. }
  destruct (decide _) as [[Hh Hcs]|Hd]; destruct Hr as [-> ->].
  - split; [split; [eauto|done]|]. split; [|done]. intros _.
    destruct (ci_objects _ _ _ (ki_caps _ _ _ _ Hk') i (set_holders (holders c + 1) c)) as (ob & k & H1 & H2 & _);
      [by rewrite lookup_insert_eq|]. exists c, ob, k. rewrite (find_spec _ _ _ _ _ Hk' Hi), lookup_insert_eq. done.
  - split; [|split; [done|done]]. split; [done|]. intros (c' & [= <-] & Hh & _ & Hcs). by destruct Hd.
Qed.

(** a refused system call keeps the capability alive for ever.  When [get_handle] refuses a handle
    after it has found the capability, because of the type, the rights, or because the process does not
    have the handle, it returns an error with the capability still retained: its count of holders is
    one higher, and the caller, which got an error, does not release it. *)
Theorem get_handle_refusal_leaks st R X P p want i cs opt c :
  kinv st R X P → is_Some (kp st !! p) → kop_fits st (ORetain i) = true → i ≠ j6_handle_invalid →
  X !! i = Some c →
  (∀ res o st', get_handle st p want i cs opt = Done (res, o, st') → res ≠ j6_status_ok →
    find_without_retain (kt st') i = Done (Some (set_holders (holders c + 1) c)) ∧
    kinv st' (adjust R i 1) (<[i := set_holders (holders c + 1) c]> X) P).
Proof.
  intros Hk Hp Hf Hi Hc res o st' Hg Hne.
  destruct (get_handle_spec _ _ _ _ p want i cs opt Hk Hp Hf) as (res2 & o2 & st2 & X2 & Hg2 & Hr).
  rewrite Hg in Hg2. injection Hg2 as <- <- <-. rewrite (proj2 (Z.eqb_neq _ _)), Hc in Hr by done.
  destruct Hr as (Hk' & -> & _). split; [|done]. by rewrite (find_spec _ _ _ _ _ Hk' Hi), lookup_insert_eq.
Qed.

(** [list_handles] with room for at least one descriptor fills the caller's array with the rights
    and types of the process's handles, as many as there is room for, never writes outside of it, and
    returns how many handles there are; called with no room for a process that has a handle, it still
    writes the first descriptor. *)
Theorem list_handles_correct st R X P p s buf :
  kinv st R X P → kp st !! p = Some s →
  (buf ≠ [] →
   ∃ buf', list_handles st p buf (Z.of_nat (length buf)) = Done (hs_count s, buf') ∧ length buf' = length buf ∧
     ∀ n i, (n < length buf)%nat → hs_items s !! n = Some i → buf' !! n = Some (describe X i) ∧ is_Some (describe X i)) ∧
  (hs_items s ≠ [] → list_handles st p [] 0 = Undef).
Proof.
  intros Hk Hs. pose proof (ki_sets _ _ _ _ Hk p) as Hr. rewrite Hs in Hr. inversion Hr as [s0 H1 Hr1 E0 EP|]; subst s0.
  destruct (hs_items_law s H1 Hr1) as (_ & Hit & _ & H0).
  assert (∀ i, i ∈ hs_items s → i ≠ j6_handle_invalid ∧ is_Some (X !! i)) as Hin.
  { intros i Hi%Hit. split; [by intros ->|]. by eapply (ki_owned _ _ _ _ Hk). }
  pose proof (ci_map _ _ _ (ki_caps _ _ _ _ Hk)) as Hm. unfold list_handles. rewrite Hs. cbn [deref]. rewrite !bind_Done. split.
  - intros Hne. assert (length buf ≠ 0%nat) by by destruct buf.
    destruct (list_loop_spec (kt st) X (hs_items s) buf 0 (Z.of_nat (length buf)) Hm Hin) as (buf' & -> & Hl & _ & Hd); [lia|done|].
    exists buf'. split; [done|]. split; [done|]. intros n i Hn Hi. split; [apply (Hd n i Hi); lia|].
    unfold describe. apply fmap_is_Some. apply Hin. by eapply list_elem_of_lookup_2.
  - intros Hne. destruct (hs_items s) as [|i items] eqn:E; [done|]. cbn [list_loop].
    destruct (Hin i) as [Hi [c Hx]]; [left|]. unfold find_without_retain.
    by rewrite (nm_find_spec _ _ _ _ _ _ Hm Hi), Hx.
Qed.

(** the handle that [thread_create] returns is of no use: every system call of any process that names it,
    whatever rights it asks for, is denied. *)
Theorem created_thread_denied st R X P o k cs :
  kinv st R X P → kh st !! o = Some k → kop_fits st (OCreate o cs) = true →
  ∃ i st', thread_create_handle st o cs = Done (i, st') ∧
    ∀ p rights opt, is_Some (kp st !! p) → ∃ st'', get_handle st' p (Some (m_type k)) i rights opt = Done (j6_err_denied, None, st'').
Proof.
  intros Hk Ho [Hr Hb]%andb_true_iff. cbn [count_fits] in Hb. rewrite Ho in Hb. apply Z.ltb_lt in Hb. pose proof (ki_caps _ _ _ _ Hk) as Hc.
  pose proof (fresh_handle _ _ _ Hc) as Hfresh. destruct (create_spec _ _ _ _ _ cs Hc Hr Ho Hb) as (t & h & Hrun & Ht).
  set (i := m_made (kt st) + 1) in *. set (c := Capability _ _ _ _ _ _) in Ht. pose proof (kinv_new _ _ _ _ _ _ i c Hk Ht Hfresh eq_refl) as Hk'.
  unfold thread_create_handle. rewrite Hrun, bind_Done. eexists i, _. split; [done|]. intros p rights opt Hp.
  assert (Hi : i ≠ j6_handle_invalid) by (apply (owned_valid _ _ _ _ _ Hk'); rewrite lookup_insert_eq; eauto).
  destruct (get_handle_spec _ _ _ _ p (Some (m_type k)) i rights opt Hk' Hp) as (res & ob & st'' & X' & Hg & Hres).
  { cbn [kop_fits]. by rewrite (find_spec _ _ _ _ _ Hk' Hi), lookup_insert_eq. }
  exists st''. rewrite Hg. rewrite (proj2 (Z.eqb_neq _ _)), lookup_insert_eq in Hres by done. destruct Hres as (_ & _ & Hres).
  rewrite decide_True in Hres by (by right). rewrite decide_False in Hres; [by destruct Hres as [-> ->]|].
  intros [Hh _]. destruct (has_handle_spec _ _ _ _ p i Hk' Hi Hp) as (H1 & HP & Hh'). rewrite Hh in Hh'. injection Hh' as Hin.
  symmetry in Hin. apply bool_decide_eq_true in Hin. destruct (ki_owned _ _ _ _ Hk p H1 i HP Hin) as [c' Hc']. congruence.
Qed.
End properties.

(** *** Instances: 33 event objects and one process *)
Definition boot_heap : heap :=
  list_to_map ((λ n, (Pos.of_nat n, KObject 0 t_event (Z.of_nat n) 0)) <$> seq 1 33).
Definition boot : kstate (node_map Z) :=
  KState new_cap_table boot_heap {[1%positive := NodeMap 0 16 (replicate 16 None)]}.

Lemma boot_inv : kinv boot (λ _, 0) ∅ {[1%positive := ∅]}.
Proof.
  destruct (new_node_map_spec (V := capability) hash_uint cap_id j6_handle_invalid 7) as (m & Hm & Hi & _); [lia|].
  destruct (new_node_map_spec (V := Z) hash_uint id j6_handle_invalid 4) as (s & Hs & Hsi & _); [lia|].
  vm_compute in Hm, Hs. injection Hm as <-. injection Hs as <-.
  split; [split|..]; cbn [kt kh kp boot m_caps m_made new_cap_table]; try done.
  - intros o k Ho. apply elem_of_list_to_map_2, list_elem_of_fmap in Ho as (n & [= -> ->] & _).
    unfold refs. rewrite map_count_empty. simpl. lia.
  - intros p. destruct (decide (p = 1%positive)) as [->|]; [|rewrite !lookup_singleton_ne by done; constructor].
    rewrite !lookup_singleton_eq. constructor. exists ∅. split; [exact Hsi|]. by rewrite dom_empty_L.
  - intros p H i [<- <-]%lookup_singleton_Some Hin. set_solver.
Qed.

(** A capability for event 1 in the hands of process 1, and one derived from it with fewer rights. *)
Definition two_handles : list kop :=
  [OCreate 1 7; ORetain 1; OSetAdd 1 1; ODerive 1 3; ORetain 2; OSetAdd 1 2].
Definition after_two : kstate (node_map Z) :=
  match krun boot (λ _, 0) two_handles with Done (st, _) => st | _ => boot end.

Lemma after_two_inv : ∃ R X P, kinv after_two R X P ∧ X !! 2 = Some (Capability 2 1 1 3 t_event (Some 1%positive)).
Proof.
  destruct (krun_spec two_handles _ _ _ _ boot_inv) as (st & R & X & P & Hr & Hk); [vm_compute; reflexivity|].
  assert (after_two = st) as Es by (unfold after_two; by rewrite Hr).
  exists R, X, P. rewrite Es. split; [done|].
  pose proof (find_spec _ _ _ _ 2 Hk ltac:(done)) as Hf. rewrite <- Es in Hf.
  assert (find_without_retain (kt after_two) 2 = Done (Some (Capability 2 1 1 3 t_event (Some 1%positive)))) as Hv
    by (vm_compute; reflexivity).
  rewrite Hv in Hf. by injection Hf as <-.
Qed.


Lemma get_handle_checks_witness :
  ∃ o st', get_handle after_two 1%positive (Some t_event) 2 1 false = Done (j6_status_ok, o, st') ∧ o = Some 1%positive.
Proof.
  destruct after_two_inv as (R & X & P & Hk & Hc).
  destruct (get_handle_checks after_two R X P 1%positive (Some t_event) 2 1 false Hk) as (res & o & st' & Hg & Hiff & Ho & _);
    [vm_compute; eauto|vm_compute; reflexivity|discriminate|].
  assert (res = j6_status_ok) as -> by (apply Hiff; exists (Capability 2 1 1 3 t_event (Some 1%positive)); split; [exact Hc|];
    split; [vm_compute; reflexivity|]; split; [right; reflexivity|reflexivity]).
  exists o, st'. split; [exact Hg|]. destruct (Ho eq_refl) as (c & ob & k & H1 & H2 & H3 & _). rewrite Hc in H1.
  injection H1 as <-. rewrite H2. symmetry. exact H3.
Defined.

Lemma get_handle_refusal_leaks_witness :
  ∃ st', get_handle after_two 1%positive (Some t_event) 2 4 false = Done (j6_err_denied, None, st') ∧
    find_without_retain (kt st') 2 = Done (Some (Capability 2 1 2 3 t_event (Some 1%positive))).
Proof.
  destruct after_two_inv as (R & X & P & Hk & Hc).
  set (g := get_handle after_two 1%positive (Some t_event) 2 4 false).
  assert (∃ st', g = Done (j6_err_denied, None, st')) as [st' Hg] by (eexists; vm_compute; reflexivity).
  exists st'. split; [exact Hg|].
  destruct (get_handle_refusal_leaks after_two R X P 1%positive (Some t_event) 2 4 false _ Hk ltac:(vm_compute; eauto)
    ltac:(vm_compute; reflexivity) ltac:(discriminate) Hc _ _ _ Hg ltac:(discriminate)) as [H1 _].
  exact H1.
Defined.

Lemma created_thread_denied_witness :
  ∃ st' st'', thread_create_handle boot 3%positive 7 = Done (1, st') ∧
    get_handle st' 1%positive (Some t_event) 1 0 false = Done (j6_err_denied, None, st'').
Proof.
  destruct (created_thread_denied boot (λ _, 0) ∅ _ 3%positive (KObject 0 t_event 3 0) 7 boot_inv) as (i & st' & H1 & H2); [reflexivity|vm_compute; reflexivity|].
  destruct (H2 1%positive 0 false) as [st'' H3]; [vm_compute; eauto|]. assert (i = 1) as -> by (vm_compute in H1; injection H1 as <- _; reflexivity).
  exists st', st''. exact (conj H1 H3).
Defined.

Lemma list_handles_correct_witness :
  (∃ buf', list_handles after_two 1%positive [None] 1 = Done (2, buf') ∧ length buf' = 1%nat) ∧
  list_handles after_two 1%positive [] 0 = Undef.
Proof.
  destruct after_two_inv as (R & X & P & Hk & Hc).
  assert (∃ s, kp after_two !! 1%positive = Some s ∧ hs_count s = 2 ∧ hs_items s ≠ []) as (s & Hs & Hn & Hi).
  { eexists. split; [vm_compute; reflexivity|]. split; [reflexivity|]. vm_compute. discriminate. }
  destruct (list_handles_correct after_two R X P 1%positive s [None] Hk Hs) as [H1 H2]. split.
  - destruct (H1 ltac:(discriminate)) as (buf' & H3 & H4 & _). rewrite Hn in H3. exists buf'. exact (conj H3 H4).
  - exact (H2 Hi).
Defined.

