(* ===== verification/HeapAllocator.v ===== *)
(** * The kernel heap (kernel/heap_allocator.h, heap_allocator.cpp)

    A buddy allocator: blocks of 2^5 to 2^22 bytes, aligned to their size, a doubly linked list of the
    free blocks of each size threaded through the blocks themselves, and a map from a block's offset to
    its size and state.  Addresses are words, [None] is the null pointer.  [mem] holds the headers of
    the blocks that are not handed out; when a block goes to a caller its header is removed, so reading
    or writing a header in a caller's block is [Undef].  The map is the finite map that NodeMap.v shows
    util::node_map to be.  Each public operation holds the heap's lock. *)
From S2P Require Import Prelude Bits.

Record free_header := FreeHeader {
  prev : option Z;
  next : option Z;
  horder : Z;
}.

Record block_info := BlockInfo {
  order : Z;
  is_free : bool;
}.

Definition min_order : Z := 5.
Definition max_order : Z := 22.

Record heap_allocator := HeapAllocator {
  m_start : Z;
  m_end : Z;
  m_maxsize : Z;
  m_free : list (option Z);
  m_allocated_size : Z;
  m_map : gmap Z block_info;
  mem : gmap Z free_header;
}.

Implicit Types (st : heap_allocator) (b : Z) (ord : Z).

Definition set_end st v := HeapAllocator (m_start st) v (m_maxsize st) (m_free st) (m_allocated_size st) (m_map st) (mem st).
Definition set_free st v := HeapAllocator (m_start st) (m_end st) (m_maxsize st) v (m_allocated_size st) (m_map st) (mem st).
Definition set_allocated st v := HeapAllocator (m_start st) (m_end st) (m_maxsize st) (m_free st) v (m_map st) (mem st).
Definition set_map st v := HeapAllocator (m_start st) (m_end st) (m_maxsize st) (m_free st) (m_allocated_size st) v (mem st).
Definition set_mem st v := HeapAllocator (m_start st) (m_end st) (m_maxsize st) (m_free st) (m_allocated_size st) (m_map st) v.

Definition new_heap (start size : Z) : heap_allocator :=
  HeapAllocator start start size (replicate 18 None) 0 ∅ ∅.

Definition map_key st b : Z := u32 (Z.shiftr (u64 (b - m_start st)) min_order).

Definition address_order (addr : Z) : outcome Z :=
  if addr =? 0 then Undef
  else let tz := tzcnt64 addr in Done (if tz >? max_order then max_order else tz).

(** [get_free(order)], read and written. *)
Definition get_free st ord : outcome (option Z) := arr_get (m_free st) (ord - min_order).
Definition put_free st ord (head : option Z) : outcome heap_allocator :=
  let* l := arr_set (m_free st) (ord - min_order) head in Done (set_free st l).

(** Assignments to both fields of [m_map[key]], which makes the node when there is none, and to one
    field of a node that must be there (the fields of a new node have no value). *)
Definition put_info st b (i : block_info) : heap_allocator := set_map st (<[map_key st b := i]> (m_map st)).
Definition put_order st b ord : outcome heap_allocator :=
  let* i := deref (m_map st !! map_key st b) in Done (put_info st b (BlockInfo ord (is_free i))).
Definition put_is_free st b (f : bool) : outcome heap_allocator :=
  let* i := deref (m_map st !! map_key st b) in Done (put_info st b (BlockInfo (order i) f)).

(** The methods of [free_header]. *)
Definition buddy (b ord : Z) : Z := Z.lxor b (Z.shiftl 1 ord).

Definition hdr_clear st b ord (new_next : option Z) : heap_allocator :=
  set_mem st (<[b := FreeHeader None new_next ord]> (mem st)).

Definition hdr_set_order st b ord : outcome heap_allocator :=
  let* h := deref (mem st !! b) in
  Done (set_mem st (<[b := FreeHeader (prev h) (next h) ord]> (mem st))).

Definition set_prev (m : gmap Z free_header) (p : option Z) (v : option Z) : outcome (gmap Z free_header) :=
  match p with
  | None => Done m
  | Some p => let* h := deref (m !! p) in Done (<[p := FreeHeader v (next h) (horder h)]> m)
  end.
Definition set_next (m : gmap Z free_header) (p : option Z) (v : option Z) : outcome (gmap Z free_header) :=
  match p with
  | None => Done m
  | Some p => let* h := deref (m !! p) in Done (<[p := FreeHeader (prev h) v (horder h)]> m)
  end.

Definition hdr_remove st b : outcome heap_allocator :=
  let* h := deref (mem st !! b) in
  let* m := set_prev (mem st) (next h) (prev h) in
  let* m := set_next m (prev h) (next h) in
  let* h := deref (m !! b) in
  Done (set_mem st (<[b := FreeHeader None None (horder h)]> m)).

Definition pop_free st ord : outcome (option Z * heap_allocator) :=
  let* head := get_free st ord in
  match head with
  | None => Done (None, st)
  | Some block =>
      let* h := deref (mem st !! block) in
      let* _ := kassert (match prev h with None => true | Some _ => false end) in
      let* st := put_free st ord (next h) in
      let* st := hdr_remove st block in
      Done (Some block, st)
  end.

Definition register_free_block st b ord : outcome heap_allocator :=
  let st := put_info st b (BlockInfo ord true) in
  let* head := get_free st ord in
  let* m := set_prev (mem st) head (Some b) in
  let st := hdr_clear (set_mem st m) b ord head in
  put_free st ord (Some b).

(** [merge_block]: the loop, with [ord] the order so far. *)
Fixpoint merge_loop (fuel : nat) st block ord : outcome (Z * heap_allocator) :=
  if max_order <=? ord then Done (block, st)
  else
    match fuel with
    | O => Diverge
    | S fuel =>
        let* h := deref (mem st !! block) in
        let bud := buddy block (horder h) in
        match m_map st !! map_key st bud with
        | Some (BlockInfo o true) =>
            if negb (o =? ord) then Done (block, st)
            else
              let* head := get_free st ord in
              let* st := if bool_decide (head = Some bud)
                         then let* (_, st) := pop_free st ord in Done st
                         else hdr_remove st bud in
              let block := if block <? bud then block else bud in
              let* h := deref (mem st !! block) in
              let st := set_map st (delete (map_key st (buddy block (horder h))) (m_map st)) in
              let* st := put_order st block (ord + 1) in
              let* st := hdr_set_order st block (ord + 1) in
              merge_loop fuel st block (ord + 1)
        | _ => Done (block, st)
        end
    end.

Definition merge_block st block : outcome (Z * heap_allocator) :=
  let* h := deref (mem st !! block) in
  merge_loop 18 st block (horder h).

(** [new_block]: the loop that fills up to an aligned address, then the block. *)
Fixpoint fill_to (fuel : nat) st ord : outcome heap_allocator :=
  match fuel with
  | O => Diverge
  | S fuel =>
      let* current := address_order (m_end st) in
      if current <? ord then
        let* st := register_free_block st (m_end st) current in
        fill_to fuel (set_end st (u64 (m_end st + Z.shiftl 1 current))) ord
      else Done st
  end.

Definition new_block st ord : outcome (Z * heap_allocator) :=
  let* st := fill_to 64 st ord in
  let block := m_end st in
  let st := set_end st (u64 (m_end st + Z.shiftl 1 ord)) in
  Done (block, put_info st block (BlockInfo ord false)).

(** [split_off]: recursion on the orders above [ord]. *)
Fixpoint split_off (fuel : nat) st ord : outcome (option Z * heap_allocator) :=
  if max_order <? ord + 1 then Done (None, st)
  else
    match fuel with
    | O => Diverge
    | S fuel =>
        let* (block, st) := pop_free st (ord + 1) in
        let* (block, st) := match block with
                            | Some b => Done (Some b, st)
                            | None => split_off fuel st (ord + 1)
                            end in
        match block with
        | None => Done (None, st)
        | Some b =>
            let* st := hdr_set_order st b ord in
            let* st := register_free_block st (buddy b ord) ord in
            let* st := put_order st b ord in
            Done (Some b, st)
        end
    end.

(** The block goes to the caller, its header with it. *)
Definition hand_out st block : outcome (option Z * heap_allocator) :=
  let* st := put_is_free st block false in
  Done (Some block, set_mem st (delete block (mem st))).

Definition allocate st (length : Z) : outcome (option Z * heap_allocator) :=
  if length =? 0 then Done (None, st)
  else
    let* ord := log2 length in
    let ord := if ord <? min_order then min_order else ord in
    let* _ := kassert (ord <=? max_order) in
    let st := set_allocated st (u64 (m_allocated_size st + Z.shiftl 1 ord)) in
    let* (block, st) := pop_free st ord in
    match block with
    | Some block => hand_out st block
    | None =>
        let* (block, st) := split_off 18 st ord in
        match block with
        | Some block => hand_out st block
        | None => let* (block, st) := new_block st ord in Done (Some block, st)
        end
    end.

Definition free st (p : option Z) : outcome heap_allocator :=
  match p with
  | None => Done st
  | Some addr =>
      let* _ := kassert ((m_start st <=? addr) && (addr <? m_end st)) in
      match m_map st !! map_key st addr with
      | None => Panic
      | Some info =>
          let st := set_allocated st (u64 (m_allocated_size st - Z.shiftl 1 (order info))) in
          let st := hdr_clear st addr (order info) None in
          let* (block, st) := merge_block st addr in
          let* h := deref (mem st !! block) in
          register_free_block st block (horder h)
      end
  end.

(** [reallocate], as far as addresses go: the copy of the contents is not modelled. *)
Definition reallocate st (p : option Z) (old_length new_length : Z) : outcome (option Z * heap_allocator) :=
  match p with
  | None => let* _ := kassert (old_length =? 0) in allocate st new_length
  | Some addr =>
      match m_map st !! map_key st addr with
      | None => Panic
      | Some info =>
          if new_length <=? Z.shiftl 1 (order info) then Done (Some addr, st)
          else
            let* (reallocated, st) := allocate st new_length in
            let* st := free st (Some addr) in
            Done (reallocated, st)
      end
  end.

(** ** Buddies and tilings *)
Lemma pow_split o : 0 ≤ o → 2 ^ (o + 1) = 2 * 2 ^ o.
Proof. intros. rewrite Z.pow_add_r by lia. lia. Qed.

Lemma mod_pow_weaken a o : 0 ≤ o → a mod 2 ^ (o + 1) = 0 → a mod 2 ^ o = 0.
Proof.
  intros Ho Ha. rewrite pow_split in Ha by done. apply Z.mod_divide in Ha as [q Hq]; [|lia].
  apply Z.mod_divide; [lia|]. exists (2 * q). lia.
Qed.

Lemma mod_pow_bit a o : 0 ≤ o → a mod 2 ^ o = 0 →
  if Z.testbit a o then (a - 2 ^ o) mod 2 ^ (o + 1) = 0 else a mod 2 ^ (o + 1) = 0.
Proof.
  intros Ho Ha. apply Z.mod_divide in Ha as [q ->]; [|lia].
  assert (Z.testbit (q * 2 ^ o) o = Z.odd q) as ->
    by (rewrite <- Z.shiftl_mul_pow2, Z.shiftl_spec, Z.sub_diag by lia; apply Z.bit0_odd).
  rewrite pow_split by done. destruct (Z.odd q) eqn:E.
  - apply Z.odd_spec in E as [r ->]. apply Z.mod_divide; [lia|]. exists r. lia.
  - assert (Z.even q = true) as [r ->]%Z.even_spec by (rewrite <- Z.negb_odd, E; done).
    apply Z.mod_divide; [lia|]. exists r. lia.
Qed.

Lemma mod_pow_testbit a o : 0 ≤ o → a mod 2 ^ (o + 1) = 0 → Z.testbit a o = false.
Proof.
  intros Ho Ha. rewrite <- (Z.mod_pow2_bits_low a (o + 1) o) by lia. rewrite Ha. apply Z.bits_0.
Qed.

Lemma buddy_low a o : 0 ≤ o → a mod 2 ^ (o + 1) = 0 → buddy a o = a + 2 ^ o.
Proof.
  intros Ho Ha. unfold buddy. rewrite Z.shiftl_1_l, Z.add_nocarry_lxor; [done|].
  apply Z.bits_inj'. intros n Hn. rewrite Z.land_spec, Z.pow2_bits_eqb, Z.bits_0 by lia.
  destruct (Z.eqb_spec o n) as [<-|]; [|by rewrite andb_false_r]. by rewrite mod_pow_testbit.
Qed.

Lemma buddy_high a o : 0 ≤ o → (a - 2 ^ o) mod 2 ^ (o + 1) = 0 → buddy a o = a - 2 ^ o.
Proof.
  intros Ho Ha. pose proof (buddy_low (a - 2 ^ o) o Ho Ha) as Hl. unfold buddy in *.
  rewrite Z.sub_add in Hl. rewrite <- Hl at 1. rewrite Z.lxor_assoc, Z.lxor_nilpotent. apply Z.lxor_0_r.
Qed.

(** A block of order [o + 1] and its lower half are aligned blocks; the two cases of a buddy. *)
Lemma buddy_cases a o : 0 ≤ o → a mod 2 ^ o = 0 →
  (a mod 2 ^ (o + 1) = 0 ∧ buddy a o = a + 2 ^ o) ∨ ((a - 2 ^ o) mod 2 ^ (o + 1) = 0 ∧ buddy a o = a - 2 ^ o).
Proof.
  intros Ho Ha. pose proof (mod_pow_bit a o Ho Ha) as Hb.
  destruct (Z.testbit a o); [right|left]; (split; [done|]); [by apply buddy_high|by apply buddy_low].
Qed.

(** [B] cuts the range from [lo] to [hi] into aligned blocks. *)
Record tiles (lo hi : Z) (B : gmap Z block_info) : Prop := {
  tl_block : ∀ a i, B !! a = Some i → 5 ≤ order i ≤ 22 ∧ a mod 2 ^ order i = 0 ∧ lo ≤ a ∧ a + 2 ^ order i ≤ hi;
  tl_disj : ∀ a i c j, B !! a = Some i → B !! c = Some j → a < c → a + 2 ^ order i ≤ c;
  tl_cover : ∀ x, lo ≤ x < hi → ∃ a i, B !! a = Some i ∧ a ≤ x < a + 2 ^ order i;
}.

Lemma tiles_flag lo hi B a i f : tiles lo hi B → B !! a = Some i → tiles lo hi (<[a := BlockInfo (order i) f]> B).
Proof.
  intros [Hb Hd Hc] Hi.
  assert (∀ c j, <[a := BlockInfo (order i) f]> B !! c = Some j → ∃ j0, B !! c = Some j0 ∧ order j0 = order j) as Hold.
  { intros c j [[<- <-]|[_ Hj]]%lookup_insert_Some; eauto. }
  split.
  - intros c j Hj. apply Hold in Hj as (j0 & Hj & <-). by apply Hb.
  - intros c j d k Hj Hk. apply Hold in Hj as (j0 & Hj & <-), Hk as (k0 & Hk & _). by eapply Hd.
  - intros x Hx. destruct (Hc x Hx) as (c & j & Hj & Hr). exists c. destruct (decide (a = c)) as [<-|].
    + simplify_eq. eexists. rewrite lookup_insert_eq. done.
    + exists j. by rewrite lookup_insert_ne.
Qed.

Lemma tiles_extend lo hi B o f :
  tiles lo hi B → lo ≤ hi → 5 ≤ o ≤ 22 → hi mod 2 ^ o = 0 → tiles lo (hi + 2 ^ o) (<[hi := BlockInfo o f]> B).
Proof.
  intros [Hb Hd Hc] Hlh Ho Ha. assert (B !! hi = None) as Hn.
  { destruct (B !! hi) as [i|] eqn:E; [|done]. apply Hb in E as (? & _ & _ & ?). lia. }
  assert (0 < 2 ^ o) by lia. split.
  - intros a i [[<- <-]|[_ Hi]]%lookup_insert_Some; [simpl; lia|]. apply Hb in Hi. lia.
  - intros a i c j [[<- <-]|[_ Hi]]%lookup_insert_Some [[<- <-]|[_ Hj]]%lookup_insert_Some Hlt; simpl.
    + lia.
    + apply Hb in Hj as (? & _ & _ & ?). lia.
    + apply Hb in Hi as (_ & _ & _ & ?). lia.
    + by eapply Hd.
  - intros x Hx. destruct (decide (x < hi)) as [Hlt|Hge].
    + destruct (Hc x) as (a & i & Hi & Hr); [lia|]. exists a, i. rewrite lookup_insert_ne; [done|]. intros <-. congruence.
    + exists hi, (BlockInfo o f). rewrite lookup_insert_eq. simpl. split; [done|lia].
Qed.

Lemma tiles_split lo hi B a o f f' g :
  tiles lo hi B → B !! a = Some (BlockInfo (o + 1) f) → 5 ≤ o →
  B !! (a + 2 ^ o) = None ∧ tiles lo hi (<[a := BlockInfo o f']> (<[a + 2 ^ o := BlockInfo o g]> B)).
Proof.
  intros [Hb Hd Hc] Hi Ho. pose proof (Hb _ _ Hi) as (Ho' & Ha & Hlo & Hhi). simpl in *.
  assert (0 < 2 ^ o) as Hp by lia. pose proof (pow_split o ltac:(lia)) as Hs.
  assert (B !! (a + 2 ^ o) = None) as Hn.
  { destruct (B !! (a + 2 ^ o)) as [j|] eqn:E; [|done]. pose proof (Hd _ _ _ _ Hi E) as Hlt. simpl in Hlt. lia. }
  split; [done|].
  assert (∀ c j, <[a := BlockInfo o f']> (<[a + 2 ^ o := BlockInfo o g]> B) !! c = Some j →
    (order j = o ∧ (c = a ∨ c = a + 2 ^ o)) ∨ (c ≠ a ∧ B !! c = Some j)) as Hold.
  { intros c j [[<- <-]|[Hne Hj]]%lookup_insert_Some; [by left; eauto|].
    apply lookup_insert_Some in Hj as [[<- <-]|[_ Hj]]; [by left; eauto|]. by right. }
  split.
  - intros c j [[-> Hca]|[_ Hj]]%Hold; [|by apply Hb]. split; [lia|].
    assert ((a + 2 ^ o) mod 2 ^ o = 0) as Hm.
    { rewrite <- Z.add_mod_idemp_r, Z.mod_same, Z.add_0_r by lia. by apply mod_pow_weaken; [lia|]. }
    destruct Hca as [-> | ->]; (split; [first [done|by apply mod_pow_weaken; [lia|]]|lia]).
  - intros c j d k [[-> Hca]|[Hca Hj]]%Hold [[Ek Hda]|[Hda Hk]]%Hold Hlt.
    + lia.
    + destruct (decide (a < d)) as [Had|].
      * pose proof (Hd _ _ _ _ Hi Hk Had) as Hdd. simpl in Hdd. lia.
      * lia.
    + assert (c < a) as Hlt'.
      { destruct (decide (c < a)); [done|]. pose proof (Hd _ _ _ _ Hi Hj) as Hdd. simpl in Hdd. lia. }
      pose proof (Hd _ _ _ _ Hj Hi Hlt'). lia.
    + by eapply Hd.
  - intros x Hx. destruct (Hc x Hx) as (c & j & Hj & Hr). destruct (decide (c = a)) as [->|Hne].
    + simplify_eq. simpl in Hr. destruct (decide (x < a + 2 ^ o)).
      * exists a, (BlockInfo o f'). rewrite lookup_insert_eq. simpl. split; [done|lia].
      * exists (a + 2 ^ o), (BlockInfo o g). rewrite lookup_insert_ne, lookup_insert_eq by lia. simpl. split; [done|lia].
    + exists c, j. rewrite lookup_insert_ne by done. rewrite lookup_insert_ne; [done|]. intros <-. congruence.
Qed.

Lemma tiles_merge lo hi B a o f g f' :
  tiles lo hi B → B !! a = Some (BlockInfo o f) → B !! (a + 2 ^ o) = Some (BlockInfo o g) →
  a mod 2 ^ (o + 1) = 0 → o < 22 →
  tiles lo hi (<[a := BlockInfo (o + 1) f']> (delete (a + 2 ^ o) B)).
Proof.
  intros [Hb Hd Hc] Hi Hj Ha Ho. pose proof (Hb _ _ Hi) as (Ho' & _ & Hlo & _). pose proof (Hb _ _ Hj) as (_ & _ & _ & Hhi).
  simpl in *. pose proof (pow_split o ltac:(lia)) as Hs. assert (0 < 2 ^ o) as Hp by lia.
  assert (∀ c k, <[a := BlockInfo (o + 1) f']> (delete (a + 2 ^ o) B) !! c = Some k →
    (c = a ∧ order k = o + 1) ∨ (c ≠ a ∧ c ≠ a + 2 ^ o ∧ B !! c = Some k)) as Hold.
  { intros c k [[<- <-]|[Hne Hk]]%lookup_insert_Some; [by left|]. apply lookup_delete_Some in Hk as [? ?]. right. auto. }
  split.
  - intros c k [[-> ->]|(_ & _ & Hk)]%Hold; [|by apply Hb]. split; [lia|]. split; [done|lia].
  - intros c k d l [[-> ->]|(Hca & Hcb & Hk)]%Hold [[-> _]|(Hda & Hdb & Hl)]%Hold Hlt.
    + lia.
    + destruct (decide (a + 2 ^ o < d)) as [H1|H1].
      * pose proof (Hd _ _ _ _ Hj Hl H1) as H2. simpl in H2. lia.
      * pose proof (Hd _ _ _ _ Hi Hl Hlt) as H2. simpl in H2. lia.
    + by eapply Hd.
    + by eapply Hd.
  - intros x Hx. destruct (Hc x Hx) as (c & k & Hk & Hr).
    destruct (decide (c = a)) as [->|Hca]; [|destruct (decide (c = a + 2 ^ o)) as [->|Hcb]].
    + simplify_eq. exists a, (BlockInfo (o + 1) f'). rewrite lookup_insert_eq. simpl in *. split; [done|lia].
    + simplify_eq. exists a, (BlockInfo (o + 1) f'). rewrite lookup_insert_eq. simpl in *. split; [done|lia].
    + exists c, k. rewrite lookup_insert_ne, lookup_delete_ne by auto. done.
Qed.

(** ** Free lists

    [seg m ord pv p xs l nx]: following [next] from [p] visits the headers [xs] of order [ord], the first
    of which has [prev = pv]; [l] is the last of them ([pv] if there is none) and [nx] its [next]. *)
Implicit Types (m : gmap Z free_header) (xs ys : list Z).

Fixpoint seg m ord (pv p : option Z) xs (l nx : option Z) : Prop :=
  match xs with
  | [] => l = pv ∧ p = nx
  | x :: xs => p = Some x ∧ ∃ n, m !! x = Some (FreeHeader pv n ord) ∧ seg m ord (Some x) n xs l nx
  end.

Lemma fseg_app m ord pv p xs ys l nx :
  seg m ord pv p (xs ++ ys) l nx ↔ ∃ l1 n1, seg m ord pv p xs l1 n1 ∧ seg m ord l1 n1 ys l nx.
Proof.
  revert pv p. induction xs as [|x xs IH]; intros pv p; simpl.
  - split; [intros H; exists pv, p; done|]. intros (l1 & n1 & [-> ->] & H). done.
  - split.
    + intros [-> (n & Hn & H)]. apply IH in H as (l1 & n1 & H1 & H2). eauto 10.
    + intros (l1 & n1 & [-> (n & Hn & H1)] & H2). split; [done|]. exists n. split; [done|]. apply IH. eauto.
Qed.

Lemma seg_frame m m' ord pv p xs l nx :
  (∀ x, x ∈ xs → m' !! x = m !! x) → seg m ord pv p xs l nx → seg m' ord pv p xs l nx.
Proof.
  revert pv p. induction xs as [|x xs IH]; intros pv p Hf; simpl; [done|].
  intros [-> (n & Hn & H)]. split; [done|]. exists n. rewrite Hf by left. split; [done|].
  apply IH; [|done]. intros y Hy. apply Hf. by right.
Qed.

Lemma fseg_in m ord pv p xs l nx x : seg m ord pv p xs l nx → x ∈ xs → ∃ q n, m !! x = Some (FreeHeader q n ord).
Proof.
  revert pv p. induction xs as [|y xs IH]; intros pv p; simpl; [set_solver|].
  intros [-> (n & Hn & H)] [->|Hx]%elem_of_cons; eauto.
Qed.

(** Another [next] for the last header, another [prev] for the first. *)
Lemma seg_set_next m ord pv p xs l nx nx' :
  seg m ord pv p xs l nx → NoDup xs → xs ≠ [] →
  ∃ z h, l = Some z ∧ z ∈ xs ∧ m !! z = Some h ∧ horder h = ord ∧
    seg (<[z := FreeHeader (prev h) nx' (horder h)]> m) ord pv p xs l nx'.
Proof.
  intros Hs Hnd Hne. destruct xs as [|z xs _] using rev_ind; [done|]. apply fseg_app in Hs as (l1 & n1 & H1 & H2).
  simpl in H2. destruct H2 as [-> (n & Hn & -> & ->)]. exists z. eexists.
  split; [done|]. split; [set_solver|]. split; [done|]. split; [done|]. simpl.
  apply NoDup_app in Hnd as (_ & Hd & _). apply fseg_app. exists l1, (Some z). split.
  - eapply seg_frame; [|done]. intros x Hx. rewrite lookup_insert_ne; [done|]. intros <-. apply (Hd z Hx). set_solver.
  - simpl. split; [done|]. exists nx'. by rewrite lookup_insert_eq.
Qed.

Lemma seg_set_prev m ord pv p xs l nx pv' :
  seg m ord pv p xs l nx → NoDup xs → xs ≠ [] →
  ∃ z h, p = Some z ∧ z ∈ xs ∧ m !! z = Some h ∧ horder h = ord ∧
    seg (<[z := FreeHeader pv' (next h) (horder h)]> m) ord pv' p xs l nx.
Proof.
  intros Hs Hnd Hne. destruct xs as [|z xs]; [done|]. destruct Hs as [-> (n & Hn & Hs)].
  apply NoDup_cons in Hnd as [Hz Hnd]. exists z. eexists. split; [done|]. split; [left|]. split; [done|]. split; [done|].
  simpl. split; [done|]. exists n. rewrite lookup_insert_eq. split; [done|]. eapply seg_frame; [|done].
  intros x Hx. rewrite lookup_insert_ne; [done|]. by intros <-.
Qed.

Notation flist m ord head xs := (∃ l, seg m ord None head xs l None).

(** Pushing a block in front. *)
Lemma flist_push m ord head xs b :
  flist m ord head xs → NoDup xs → b ∉ xs →
  ∃ m', set_prev m head (Some b) = Done m' ∧ (∀ q, q ∉ xs → m' !! q = m !! q) ∧
    flist (<[b := FreeHeader None head ord]> m') ord (Some b) (b :: xs).
Proof.
  intros [l Hs] Hnd Hb. destruct (decide (xs = [])) as [->|Hne].
  - destruct Hs as [-> ->]. exists m. split; [done|]. split; [done|]. exists (Some b). simpl.
    split; [done|]. exists None. by rewrite lookup_insert_eq.
  - destruct (seg_set_prev _ _ _ _ _ _ _ (Some b) Hs Hnd Hne) as (z & h & -> & Hz & Hm & Ho & Hs').
    cbn [set_prev]. rewrite Hm. cbn [deref]. rewrite bind_Done. eexists. split; [done|]. split.
    + intros q Hq. rewrite lookup_insert_ne; [done|]. by intros ->.
    + exists l. cbn [seg]. split; [done|]. exists (Some z). rewrite lookup_insert_eq. split; [done|].
      eapply seg_frame; [|exact Hs']. intros x Hx. rewrite lookup_insert_ne; [done|]. by intros <-.
Qed.

(** Unlinking a block, wherever it is in the list. *)
Lemma hdr_remove_spec st ord head xs ys b :
  flist (mem st) ord head (xs ++ b :: ys) → NoDup (xs ++ b :: ys) →
  ∃ m' h, hdr_remove st b = Done (set_mem st m') ∧ mem st !! b = Some h ∧
    m' !! b = Some (FreeHeader None None ord) ∧ (∀ q, q ∉ xs ++ b :: ys → m' !! q = mem st !! q) ∧
    flist m' ord (if decide (xs = []) then next h else head) (xs ++ ys) ∧ (xs = [] ↔ prev h = None).
Proof.
  intros [l Hs] Hnd. apply fseg_app in Hs as (l1 & n1 & H1 & H2). cbn [seg] in H2. destruct H2 as [-> (n & Hb & H2)].
  pose proof Hnd as (Hnx & Hd & [Hby Hny]%NoDup_cons)%NoDup_app.
  unfold hdr_remove. rewrite Hb. cbn [deref]. rewrite bind_Done. cbn [next prev].
  assert (∃ m1, set_prev (mem st) n l1 = Done m1 ∧ seg m1 ord l1 n ys (if decide (ys = []) then l1 else l) None ∧
    (∀ q, q ∉ ys → m1 !! q = mem st !! q)) as (m1 & -> & Hs2 & Hf1).
  { destruct (decide (ys = [])) as [->|Hne].
    - destruct H2 as [-> ->]. exists (mem st). done.
    - destruct (seg_set_prev _ _ _ _ _ _ _ l1 H2 Hny Hne) as (z & h & -> & Hz & Hm & Ho & Hs').
      cbn [set_prev]. rewrite Hm. cbn [deref]. rewrite bind_Done. eexists. split; [done|]. split; [done|].
      intros q Hq. rewrite lookup_insert_ne; [done|]. by intros ->. }
  rewrite bind_Done.
  assert (seg m1 ord None head xs l1 (Some b)) as H1'.
  { eapply seg_frame; [|done]. intros x Hx. apply Hf1. intros Hy. apply (Hd x Hx). by right. }
  assert (∃ m2, set_next m1 l1 n = Done m2 ∧ seg m2 ord None (if decide (xs = []) then n else head) xs l1 n ∧
    (∀ q, q ∉ xs → m2 !! q = m1 !! q)) as (m2 & -> & Hs1 & Hf2).
  { destruct (decide (xs = [])) as [->|Hne].
    - destruct H1' as [-> _]. exists m1. done.
    - destruct (seg_set_next _ _ _ _ _ _ _ n H1' Hnx Hne) as (z & h & -> & Hz & Hm & Ho & Hs').
      cbn [set_next]. rewrite Hm. cbn [deref]. rewrite bind_Done. eexists. split; [done|]. split; [done|].
      intros q Hq. rewrite lookup_insert_ne; [done|]. by intros ->. }
  rewrite bind_Done. assert (b ∉ xs) as Hbx by (intros Hx; apply (Hd b Hx); left).
  rewrite Hf2, Hf1, Hb by done. cbn [deref]. rewrite bind_Done. eexists _, _. split; [done|]. split; [done|].
  split; [by rewrite lookup_insert_eq|]. split; [|split].
  - intros q Hq. rewrite lookup_insert_ne by set_solver. rewrite Hf2, Hf1 by set_solver. done.
  - eexists. apply fseg_app. exists l1, n. split.
    + eapply seg_frame; [|exact Hs1]. intros x Hx. rewrite lookup_insert_ne; [done|]. by intros <-.
    + eapply seg_frame; [|exact Hs2]. intros x Hx. rewrite lookup_insert_ne by (by intros <-).
      apply Hf2. intros Hxx. apply (Hd x Hxx). by right.
  - cbn [prev]. split; [intros ->; by destruct H1|]. intros ->. destruct xs as [|z xs _] using rev_ind; [done|].
    apply fseg_app in H1 as (? & ? & _ & H1). simpl in H1. destruct H1 as [_ (? & _ & H3 & _)]. done.
Qed.

(** ** The invariant

    [B] gives the blocks by address; [FL o] is the free list of order [o], in order.  [core] ties the
    map and the lists to them; between the steps of an operation one block may be in flight, in no list. *)
Implicit Types (B : gmap Z block_info) (FL : Z → list Z).

Definition good st a : Prop := m_start st ≤ a < m_start st + 2 ^ 36 ∧ a mod 32 = 0.
Definition upd FL ord xs : Z → list Z := λ o, if o =? ord then xs else FL o.
Definition unlisted FL b : Prop := ∀ o, 5 ≤ o ≤ 22 → b ∉ FL o.

(** The fields an operation on the lists and the map leaves alone. *)
Definition same st st' : Prop :=
  m_start st' = m_start st ∧ m_end st' = m_end st ∧ m_maxsize st' = m_maxsize st ∧
  m_allocated_size st' = m_allocated_size st.

Record core st B FL : Prop := {
  co_start : 0 < m_start st ∧ m_start st mod 2 ^ 22 = 0 ∧ m_start st + 2 ^ 36 < 2 ^ 64;
  co_map : ∀ a, good st a → m_map st !! map_key st a = B !! a;
  co_len : length (m_free st) = 18%nat;
  co_lists : ∀ o, 5 ≤ o ≤ 22 → ∃ head, m_free st !! Z.to_nat (o - 5) = Some head ∧
    flist (mem st) o head (FL o) ∧ NoDup (FL o) ∧ (∀ a, a ∈ FL o → B !! a = Some (BlockInfo o true));
}.

(** Every free block is in its list, but for the one in flight. *)
Definition settled B FL (x : option Z) : Prop :=
  ∀ a o, B !! a = Some (BlockInfo o true) → Some a ≠ x → a ∈ FL o.

Lemma start_mod32 st B FL : core st B FL → m_start st mod 32 = 0.
Proof.
  intros [(_ & Hs & _) _ _ _]. apply Z.mod_divide in Hs as [q Hq]; [|lia].
  apply Z.mod_divide; [lia|]. exists (q * 2 ^ 17). lia.
Qed.

Lemma map_key_good st B FL a : core st B FL → good st a → map_key st a = (a - m_start st) / 32.
Proof.
  intros Hc [Ha Hm]. destruct (co_start _ _ _ Hc) as (H0 & _ & Hb). unfold map_key, min_order.
  rewrite (wrap_small 64) by (unfold is_word; lia). rewrite Z.shiftr_div_pow2 by lia.
  change (2 ^ 5) with 32. apply wrap_small. unfold is_word. split; [apply Z.div_pos; lia|].
  apply Z.div_lt_upper_bound; lia.
Qed.

Lemma map_key_inj st B FL a c : core st B FL → good st a → good st c → map_key st a = map_key st c → a = c.
Proof.
  intros Hc Ha Hg E. rewrite !(map_key_good _ _ _ _ Hc) in E by done. pose proof (start_mod32 _ _ _ Hc) as Hs.
  destruct Ha as [_ Ha], Hg as [_ Hg].
  assert (∀ x, x mod 32 = 0 → (x - m_start st) = 32 * ((x - m_start st) / 32)) as Hd.
  { intros x Hx. apply Z_div_exact_full_2; [lia|]. by rewrite Zminus_mod, Hx, Hs. }
  pose proof (Hd a Ha). pose proof (Hd c Hg). lia.
Qed.

Lemma core_put_info st B FL b i :
  core st B FL → good st b → unlisted FL b → core (put_info st b i) (<[b := i]> B) FL.
Proof.
  intros Hc Hg Hu. pose proof Hc as [Hs Hm Hl Hf]. split; try done.
  - intros a Ha. cbn [put_info set_map m_map]. change (map_key (put_info st b i) a) with (map_key st a).
    destruct (decide (b = a)) as [->|Hne]; [by rewrite !lookup_insert_eq|]. rewrite !lookup_insert_ne; [by apply Hm|done|].
    intros E. apply Hne. by eapply map_key_inj.
  - intros o Ho. destruct (Hf o Ho) as (head & H1 & H2 & H3 & H4). exists head. split; [done|]. split; [done|]. split; [done|].
    intros a Ha. rewrite lookup_insert_ne; [by apply H4|]. intros <-. by apply (Hu o Ho).
Qed.

Lemma core_delete st B FL b :
  core st B FL → good st b → unlisted FL b →
  core (set_map st (delete (map_key st b) (m_map st))) (delete b B) FL.
Proof.
  intros Hc Hg Hu. pose proof Hc as [Hs Hm Hl Hf]. split; try done.
  - intros a Ha. cbn [set_map m_map]. change (map_key (set_map st _) a) with (map_key st a).
    destruct (decide (b = a)) as [->|Hne]; [by rewrite !lookup_delete_eq|]. rewrite !lookup_delete_ne; [by apply Hm|done|].
    intros E. apply Hne. by eapply map_key_inj.
  - intros o Ho. destruct (Hf o Ho) as (head & H1 & H2 & H3 & H4). exists head. split; [done|]. split; [done|]. split; [done|].
    intros a Ha. rewrite lookup_delete_ne; [by apply H4|]. intros <-. by apply (Hu o Ho).
Qed.

Lemma core_mem st B FL m' :
  core st B FL → (∀ o a, 5 ≤ o ≤ 22 → a ∈ FL o → m' !! a = mem st !! a) → core (set_mem st m') B FL.
Proof.
  intros [Hs Hm Hl Hf] Hfr. split; try done. intros o Ho. destruct (Hf o Ho) as (head & H1 & [l H2] & H3).
  exists head. split; [done|]. split; [|done]. exists l. eapply seg_frame; [|exact H2]. intros x Hx. by eapply Hfr.
Qed.

(** A new list for one order, the others untouched. *)
Lemma core_relist st B FL ord head xs m' :
  core st B FL → 5 ≤ ord ≤ 22 → flist m' ord head xs → NoDup xs → (∀ a, a ∈ xs → B !! a = Some (BlockInfo ord true)) →
  (∀ o a, 5 ≤ o ≤ 22 → o ≠ ord → a ∈ FL o → m' !! a = mem st !! a) →
  core (set_mem (set_free st (<[Z.to_nat (ord - 5) := head]> (m_free st))) m') B (upd FL ord xs).
Proof.
  intros [Hs Hm Hl Hf] Ho Hx Hnd HB Hfr. split; cbn [set_mem set_free m_free m_map mem]; try done.
  - by rewrite length_insert.
  - intros o Ho'. unfold upd. destruct (Z.eqb_spec o ord) as [->|Hne].
    + exists head. rewrite list_lookup_insert_eq by lia. done.
    + destruct (Hf o Ho') as (hd & H1 & [l H2] & H3). exists hd. rewrite list_lookup_insert_ne by lia.
      split; [done|]. split; [|done]. exists l. eapply seg_frame; [|exact H2]. intros x Hxx. by eapply Hfr.
Qed.

Lemma other_list st B FL o ord a b :
  core st B FL → 5 ≤ o ≤ 22 → 5 ≤ ord ≤ 22 → o ≠ ord → a ∈ FL o → b ∈ FL ord → a ≠ b.
Proof.
  intros Hc Ho Ho' Hne Ha Hb ->. destruct (co_lists _ _ _ Hc o Ho) as (_ & _ & _ & _ & H1).
  destruct (co_lists _ _ _ Hc ord Ho') as (_ & _ & _ & _ & H2). apply H1 in Ha. apply H2 in Hb. congruence.
Qed.

Lemma get_free_spec st B FL ord :
  core st B FL → 5 ≤ ord ≤ 22 → ∃ head, get_free st ord = Done head ∧
    m_free st !! Z.to_nat (ord - 5) = Some head ∧ flist (mem st) ord head (FL ord) ∧ NoDup (FL ord) ∧
    (∀ a, a ∈ FL ord → B !! a = Some (BlockInfo ord true)).
Proof.
  intros Hc Ho. destruct (co_lists _ _ _ Hc ord Ho) as (head & H1 & H2). exists head. split; [|done].
  unfold get_free, min_order. apply arr_get_Done. split; [lia|done].
Qed.

Lemma put_free_spec st ord head :
  length (m_free st) = 18%nat → 5 ≤ ord ≤ 22 →
  put_free st ord head = Done (set_free st (<[Z.to_nat (ord - 5) := head]> (m_free st))).
Proof. intros Hl Ho. unfold put_free, min_order. by rewrite arr_set_Done by lia. Qed.

(** ** The list operations *)
Lemma pop_free_empty st B FL ord :
  core st B FL → 5 ≤ ord ≤ 22 → FL ord = [] → pop_free st ord = Done (None, st).
Proof.
  intros Hc Ho He. destruct (get_free_spec _ _ _ _ Hc Ho) as (head & Hg & _ & [l Hl] & _). rewrite He in Hl.
  destruct Hl as [_ ->]. unfold pop_free. by rewrite Hg.
Qed.

(** What is true after block [a] was taken out of its list. *)
Definition taken st B FL ord a ys st' : Prop :=
  core st' B (upd FL ord ys) ∧ same st st' ∧ m_map st' = m_map st ∧
  mem st' !! a = Some (FreeHeader None None ord) ∧ (∀ q, q ∉ FL ord → mem st' !! q = mem st !! q).

Lemma hdr_remove_set_free st l b :
  hdr_remove (set_free st l) b = let* st := hdr_remove st b in Done (set_free st l).
Proof.
  unfold hdr_remove. cbn [mem set_free]. destruct (deref (mem st !! b)) as [h| | |]; try done. rewrite !bind_Done.
  destruct (set_prev _ _ _) as [m1| | |]; try done. rewrite !bind_Done.
  destruct (set_next _ _ _) as [m2| | |]; try done. rewrite !bind_Done. by destruct (deref (m2 !! b)).
Qed.

Lemma pop_free_spec st B FL ord a ys :
  core st B FL → 5 ≤ ord ≤ 22 → FL ord = a :: ys →
  ∃ st', pop_free st ord = Done (Some a, st') ∧ taken st B FL ord a ys st'.
Proof.
  intros Hc Ho He. destruct (get_free_spec _ _ _ _ Hc Ho) as (head & Hg & Hf & Hl & Hnd & HB). rewrite He in Hl, Hnd, HB.
  unfold pop_free. rewrite Hg, bind_Done.
  destruct (hdr_remove_spec st ord head [] ys a Hl Hnd) as (m' & h & Hr & Hh & Ha & Hfr & Hl' & Hp).
  assert (head = Some a) as -> by (by destruct Hl as [l [-> _]]).
  rewrite Hh. cbn [deref]. rewrite bind_Done, (proj1 Hp eq_refl). cbn [kassert]. rewrite bind_Done.
  rewrite put_free_spec by (done || apply Hc). rewrite bind_Done.
  assert (hdr_remove (set_free st (<[Z.to_nat (ord - 5) := next h]> (m_free st))) a
    = Done (set_mem (set_free st (<[Z.to_nat (ord - 5) := next h]> (m_free st))) m')) as ->.
  { rewrite hdr_remove_set_free, Hr. done. }
  rewrite bind_Done. eexists. split; [done|]. split; [|split; [done|]; split; [done|]; split; [done|rewrite He; exact Hfr]].
  apply core_relist; try done.
  - by apply NoDup_cons in Hnd as [_ ?].
  - intros c Hcc. apply HB. by right.
  - intros o c Ho' Hne Hcc. apply Hfr. intros Hin. rewrite <- (app_nil_l (a :: ys)), <- He in Hin.
    by eapply (other_list _ _ _ o ord c c Hc).
Qed.

Lemma hdr_remove_taken st B FL ord xs a ys :
  core st B FL → 5 ≤ ord ≤ 22 → FL ord = xs ++ a :: ys → xs ≠ [] →
  ∃ st', hdr_remove st a = Done st' ∧ taken st B FL ord a (xs ++ ys) st'.
Proof.
  intros Hc Ho He Hne. destruct (get_free_spec _ _ _ _ Hc Ho) as (head & Hg & Hf & Hl & Hnd & HB). rewrite He in Hl, Hnd, HB.
  destruct (hdr_remove_spec st ord head xs ys a Hl Hnd) as (m' & h & Hr & Hh & Ha & Hfr & Hl' & Hp).
  rewrite decide_False in Hl' by done. eexists. split; [done|].
  split; [|split; [done|]; split; [done|]; split; [done|rewrite He; exact Hfr]].
  assert (set_mem st m' = set_mem (set_free st (<[Z.to_nat (ord - 5) := head]> (m_free st))) m') as ->.
  { unfold set_mem, set_free. cbn. f_equal. symmetry. by apply list_insert_id. }
  apply core_relist; try done.
  - apply NoDup_app in Hnd as (H1 & H2 & [H3 H4]%NoDup_cons). apply NoDup_app. split; [done|]. split; [|done]. set_solver.
  - intros c Hcc. apply HB. set_solver.
  - intros o c Ho' Hno Hcc. apply Hfr. intros Hin. rewrite <- He in Hin. by eapply (other_list _ _ _ o ord c c Hc).
Qed.

Lemma register_spec st B FL b ord :
  core st B FL → 5 ≤ ord ≤ 22 → good st b → unlisted FL b →
  ∃ st', register_free_block st b ord = Done st' ∧
    core st' (<[b := BlockInfo ord true]> B) (upd FL ord (b :: FL ord)) ∧ same st st' ∧
    (∀ q, q ≠ b → q ∉ FL ord → mem st' !! q = mem st !! q).
Proof.
  intros Hc Ho Hg Hu. unfold register_free_block. pose proof (core_put_info _ _ _ b (BlockInfo ord true) Hc Hg Hu) as Hc1.
  set (st1 := put_info st b (BlockInfo ord true)) in *.
  destruct (get_free_spec _ _ _ _ Hc1 Ho) as (head & Hgf & Hf & Hl & Hnd & HB). rewrite Hgf, bind_Done.
  destruct (flist_push (mem st1) ord head (FL ord) b Hl Hnd (Hu ord Ho)) as (m' & Hsp & Hfr & Hl'). rewrite Hsp, bind_Done.
  unfold hdr_clear. rewrite put_free_spec by (done || apply Hc1). eexists. split; [done|]. split; [|split; [done|]].
  - apply (core_relist st1 _ FL ord (Some b) (b :: FL ord) (<[b := FreeHeader None head ord]> m')); try done.
    + apply NoDup_cons. split; [by apply Hu|done].
    + intros a [->|Ha]%elem_of_cons; [by rewrite lookup_insert_eq|by apply HB].
    + intros o a Ho' Hne Ha. rewrite lookup_insert_ne by (intros <-; by apply (Hu o Ho')).
      apply Hfr. intros Hin. by eapply (other_list _ _ _ o ord a a Hc1).
  - intros q Hq Hn. cbn [set_free set_mem mem]. rewrite lookup_insert_ne by done. by apply Hfr.
Qed.

Lemma same_trans st1 st2 st3 : same st1 st2 → same st2 st3 → same st1 st3.
Proof. unfold same. intros (-> & -> & -> & ->) (-> & -> & -> & ->). done. Qed.

Lemma good_same st st' a : same st st' → good st a → good st' a.
Proof. unfold good. intros (-> & _). done. Qed.

Lemma hdr_set_order_spec st B FL b ord h :
  core st B FL → unlisted FL b → mem st !! b = Some h →
  ∃ st', hdr_set_order st b ord = Done st' ∧ core st' B FL ∧ same st st' ∧ m_map st' = m_map st ∧
    mem st' = <[b := FreeHeader (prev h) (next h) ord]> (mem st).
Proof.
  intros Hc Hu Hh. unfold hdr_set_order. rewrite Hh. cbn [deref]. rewrite bind_Done. eexists. split; [done|].
  split; [|done]. apply core_mem; [done|]. intros o a Ho Ha. rewrite lookup_insert_ne; [done|]. intros <-. by apply (Hu o Ho).
Qed.

Lemma put_order_spec st B FL b ord i :
  core st B FL → good st b → unlisted FL b → B !! b = Some i →
  ∃ st', put_order st b ord = Done st' ∧ core st' (<[b := BlockInfo ord (is_free i)]> B) FL ∧ same st st' ∧ mem st' = mem st.
Proof.
  intros Hc Hg Hu Hi. unfold put_order. rewrite (co_map _ _ _ Hc b Hg), Hi. cbn [deref]. rewrite bind_Done.
  eexists. split; [done|]. split; [|done]. by apply core_put_info.
Qed.

(** ** Splitting and merging *)
(** The block [b] of order [o] is in flight, its map entry saying [f] about it being free. *)
Record flight st B FL b (o : Z) (f : bool) : Prop := {
  fl_core : core st B FL;
  fl_tiles : tiles (m_start st) (m_end st) B;
  fl_end : m_end st ≤ m_start st + 2 ^ 35;
  fl_block : B !! b = Some (BlockInfo o f);
  fl_unlisted : unlisted FL b;
  fl_settled : settled B FL (Some b);
  fl_hdr : mem st !! b = Some (FreeHeader None None o);
}.

(** The blocks handed out, [x] aside. *)
Definition same_live B B' (x x' : option Z) : Prop :=
  ∀ a p, (Some a ≠ x' ∧ B' !! a = Some (BlockInfo p false)) ↔ (Some a ≠ x ∧ B !! a = Some (BlockInfo p false)).

Lemma pow2_mod32 o : 5 ≤ o → 2 ^ o mod 32 = 0.
Proof.
  intros Ho. apply Z.mod_divide; [lia|]. exists (2 ^ (o - 5)). change 32 with (2 ^ 5). rewrite <- Z.pow_add_r by lia.
  f_equal. lia.
Qed.

Lemma block_mod32 a o : 5 ≤ o → a mod 2 ^ o = 0 → a mod 32 = 0.
Proof.
  intros Ho Ha. apply Z.mod_divide in Ha as [q ->]; [|lia]. rewrite Zmult_mod, pow2_mod32, Z.mul_0_r by done. done.
Qed.

Lemma tiles_good st B FL a i :
  core st B FL → tiles (m_start st) (m_end st) B → m_end st ≤ m_start st + 2 ^ 35 → B !! a = Some i → good st a.
Proof.
  intros Hc Ht He Hi. apply (tl_block _ _ _ Ht) in Hi as (Ho & Ha & H1 & H2). split; [lia|]. eapply block_mod32; [|done]. lia.
Qed.

Lemma flight_taken st B FL o a xs ys st' :
  core st B FL → tiles (m_start st) (m_end st) B → m_end st ≤ m_start st + 2 ^ 35 → settled B FL None → 5 ≤ o ≤ 22 →
  FL o = xs ++ a :: ys → taken st B FL o a (xs ++ ys) st' → flight st' B (upd FL o (xs ++ ys)) a o true.
Proof.
  intros Hc Ht He Hst Ho HF (Hc' & (E1 & E2 & _) & _ & Hh & _).
  destruct (co_lists _ _ _ Hc o Ho) as (_ & _ & _ & Hnd & HB). rewrite HF in Hnd, HB.
  assert (B !! a = Some (BlockInfo o true)) as Ha by (apply HB; set_solver).
  split; rewrite ?E1, ?E2; try done.
  - intros p Hp Hin. unfold upd in Hin. destruct (Z.eqb_spec p o) as [->|Hne].
    + apply NoDup_app in Hnd as (_ & H2 & [H3 _]%NoDup_cons). set_solver.
    + destruct (co_lists _ _ _ Hc p Hp) as (_ & _ & _ & _ & HBp). apply HBp in Hin. congruence.
  - intros c p Hcp Hne. unfold upd. destruct (Z.eqb_spec p o) as [->|]; [|by apply Hst].
    assert (c ∈ FL o) as Hin by by apply Hst. rewrite HF in Hin. assert (c ≠ a) by congruence. set_solver.
Qed.

Lemma split_step st B FL b o :
  flight st B FL b (o + 1) true → 5 ≤ o →
  ∃ st' B' FL', (let* st := hdr_set_order st b o in
       let* st := register_free_block st (buddy b o) o in
       let* st := put_order st b o in Done (Some b, st)) = Done (Some b, st') ∧
    flight st' B' FL' b o true ∧ same st st' ∧ same_live B B' None None.
Proof.
  intros [Hc Ht He Hb Hu Hst Hh] Ho. pose proof (tl_block _ _ _ Ht _ _ Hb) as (Ho' & Ha & Hlo & Hhi). simpl in *.
  rewrite (buddy_low b o) by (lia || done). pose proof (tiles_split _ _ _ _ _ _ true true Ht Hb Ho) as [Hn Ht'].
  pose proof (pow_split o ltac:(lia)) as Hp2. assert (0 < 2 ^ o) as Hpos by lia.
  destruct (hdr_set_order_spec _ _ _ _ o _ Hc Hu Hh) as (st1 & -> & Hc1 & Hs1 & _ & Hm1). rewrite bind_Done. cbn [prev next] in Hm1.
  pose proof (tiles_good _ _ _ _ _ Hc Ht He Hb) as Hgb.
  assert (good st1 (b + 2 ^ o)) as Hg1.
  { apply (good_same st st1); [done|]. destruct Hgb as [H1 H2]. split; [lia|]. by rewrite Zplus_mod, H2, pow2_mod32. }
  assert (unlisted FL (b + 2 ^ o)) as Hu1.
  { intros p Hp Hin. destruct (co_lists _ _ _ Hc p Hp) as (_ & _ & _ & _ & HB). apply HB in Hin. congruence. }
  destruct (register_spec st1 B FL (b + 2 ^ o) o Hc1 ltac:(lia) Hg1 Hu1) as (st2 & -> & Hc2 & Hs2 & Hf2). rewrite bind_Done.
  assert (unlisted (upd FL o (b + 2 ^ o :: FL o)) b) as Hu2.
  { intros p Hp. unfold upd. destruct (Z.eqb_spec p o) as [->|]; [|by apply Hu]. intros [?|Hin]%elem_of_cons; [lia|by apply (Hu o Hp)]. }
  destruct (put_order_spec st2 _ _ b o (BlockInfo (o + 1) true) Hc2) as (st3 & -> & Hc3 & Hs3 & Hm3).
  { apply (good_same st1 st2); [done|]. by apply (good_same st st1). }
  { done. }
  { rewrite lookup_insert_ne by lia. done. }
  rewrite bind_Done. pose proof (same_trans _ _ _ (same_trans _ _ _ Hs1 Hs2) Hs3) as Hs. pose proof Hs as (E1 & E2 & _).
  eexists _, _, _. split; [done|]. split; [|split; [done|]].
  - split; rewrite ?E1, ?E2; try done.
    + by rewrite lookup_insert_eq.
    + intros c p Hcp Hne. apply lookup_insert_Some in Hcp as [[<- _]|[_ Hcp]]; [done|]. unfold upd.
      apply lookup_insert_Some in Hcp as [[<- [= <-]]|[Hne2 Hcp]]; [rewrite Z.eqb_refl; left|].
      assert (c ∈ FL p) by by apply Hst. destruct (Z.eqb_spec p o) as [->|]; [by right|done].
    + rewrite Hm3, Hf2; [|lia|by apply Hu; lia]. rewrite Hm1. by rewrite lookup_insert_eq.
  - intros c p. split; (intros [_ Hcp]; split; [done|]).
    + apply lookup_insert_Some in Hcp as [[_ ?]|[_ Hcp]]; [done|]. by apply lookup_insert_Some in Hcp as [[_ ?]|[_ Hcp]].
    + rewrite lookup_insert_ne by (intros <-; congruence). by rewrite lookup_insert_ne by (intros <-; congruence).
Qed.

Lemma same_live_trans B1 B2 B3 x1 x2 x3 :
  same_live B1 B2 x1 x2 → same_live B2 B3 x2 x3 → same_live B1 B3 x1 x3.
Proof. intros H1 H2 a p. rewrite (H2 a p). apply H1. Qed.

Lemma split_off_spec fuel st B FL o :
  core st B FL → tiles (m_start st) (m_end st) B → m_end st ≤ m_start st + 2 ^ 35 → settled B FL None →
  5 ≤ o ≤ 22 → 22 - o ≤ Z.of_nat fuel →
  ∃ r st', split_off fuel st o = Done (r, st') ∧
    match r with
    | None => st' = st
    | Some b => ∃ B' FL', flight st' B' FL' b o true ∧ same st st' ∧ same_live B B' None None
    end.
Proof.
  intros Hc Ht He Hst. revert o. induction fuel as [|fuel IH]; intros o Ho Hf; cbn [split_off]; unfold max_order.
  { rewrite (proj2 (Z.ltb_lt _ _)) by lia. by eexists _, _. }
  destruct (Z.ltb_spec 22 (o + 1)) as [Hlt|Hge]; [by eexists _, _|].
  destruct (FL (o + 1)) as [|a ys] eqn:HF.
  - rewrite (pop_free_empty _ _ _ _ Hc) by (done || lia). rewrite bind_Done.
    destruct (IH (o + 1)) as (r & st1 & -> & Hr); [lia|lia|]. rewrite bind_Done. destruct r as [b|].
    + destruct Hr as (B1 & FL1 & Hfl & Hs1 & Hl1).
      destruct (split_step _ _ _ _ _ Hfl ltac:(lia)) as (st2 & B2 & FL2 & -> & Hfl2 & Hs2 & Hl2).
      eexists _, _. split; [done|]. exists B2, FL2. split; [done|]. split; [by eapply same_trans|by eapply same_live_trans].
    + subst st1. by eexists _, _.
  - destruct (pop_free_spec _ _ _ (o + 1) a ys Hc ltac:(lia) HF) as (st1 & -> & Htk). rewrite !bind_Done.
    pose proof (flight_taken st B FL (o + 1) a [] ys st1 Hc Ht He Hst ltac:(lia) HF Htk) as Hfl.
    destruct (split_step _ _ _ _ _ Hfl ltac:(lia)) as (st2 & B2 & FL2 & -> & Hfl2 & Hs2 & Hl2).
    eexists _, _. split; [done|]. exists B2, FL2. split; [done|]. split; [|done]. eapply same_trans; [apply Htk|done].
Qed.

Lemma buddy_good st B FL b o f :
  flight st B FL b o f → o < 22 →
  good st b ∧ good st (buddy b o) ∧ buddy b o ≠ b ∧
  ∃ low, (if b <? buddy b o then b else buddy b o) = low ∧ low mod 2 ^ (o + 1) = 0 ∧ buddy low o = low + 2 ^ o ∧
    ((low = b ∧ low + 2 ^ o = buddy b o) ∨ (low = buddy b o ∧ low + 2 ^ o = b)).
Proof.
  intros Hfl Ho. pose proof (fl_core _ _ _ _ _ _ Hfl) as Hc. pose proof (fl_end _ _ _ _ _ _ Hfl) as He.
  pose proof (tl_block _ _ _ (fl_tiles _ _ _ _ _ _ Hfl) _ _ (fl_block _ _ _ _ _ _ Hfl)) as (Ho' & Ha & Hlo & Hhi). simpl in *.
  assert (0 < 2 ^ o) as Hp by lia. assert (2 ^ o ≤ 2 ^ 22) as Hp22 by (apply Z.pow_le_mono_r; lia).
  pose proof (pow_split o ltac:(lia)) as Hs. assert (b mod 32 = 0) as Hb32 by (eapply block_mod32; [|done]; lia).
  pose proof (pow2_mod32 o ltac:(lia)) as Hp32. split; [split; [lia|done]|].
  destruct (buddy_cases b o ltac:(lia) Ha) as [[Hm Hbd]|[Hm Hbd]]; rewrite Hbd.
  - rewrite (proj2 (Z.ltb_lt _ _)) by lia. split; [split; [lia|by rewrite Zplus_mod, Hb32, Hp32]|]. split; [lia|].
    exists b. split; [done|]. split; [done|]. split; [by rewrite Hbd|]. left. done.
  - rewrite (proj2 (Z.ltb_ge _ _)) by lia. destruct (co_start _ _ _ Hc) as (_ & Hst & _).
    assert (m_start st ≤ b - 2 ^ o) as Hge.
    { apply Z.mod_divide in Hm as [q Hq]; [|lia]. apply Z.mod_divide in Hst as [r Hr]; [|lia].
      assert (2 ^ 22 = 2 ^ (21 - o) * 2 ^ (o + 1)) as E by (rewrite <- Z.pow_add_r by lia; f_equal; lia).
      rewrite E, Z.mul_assoc in Hr. set (R := r * 2 ^ (21 - o)) in *. set (P := 2 ^ (o + 1)) in *.
      assert (R ≤ q) by (destruct (Z.le_gt_cases R q); [done|]; assert ((q + 1) * P ≤ R * P) by (apply Z.mul_le_mono_nonneg_r; lia); lia).
      assert (R * P ≤ q * P) by (apply Z.mul_le_mono_nonneg_r; lia). lia. }
    split; [split; [lia|]|]. { by rewrite Zminus_mod, Hb32, Hp32. }
    split; [lia|]. exists (b - 2 ^ o). split; [done|]. split; [done|].
    split; [by apply buddy_low; [lia|]|]. right. split; [done|lia].
Qed.

(** Taking the free buddy out of its list, at the head or inside. *)
Lemma take_buddy st B FL o bud xs ys :
  core st B FL → 5 ≤ o ≤ 22 → FL o = xs ++ bud :: ys →
  ∃ st', (let* head := get_free st o in
      if bool_decide (head = Some bud) then let* (_, st) := pop_free st o in Done st else hdr_remove st bud)
    = Done st' ∧ taken st B FL o bud (xs ++ ys) st'.
Proof.
  intros Hc Ho HF. destruct (get_free_spec _ _ _ _ Hc Ho) as (head & -> & _ & [l Hl] & Hnd & _). rewrite bind_Done.
  rewrite HF in Hl, Hnd. destruct xs as [|x xs].
  - destruct Hl as [-> _]. rewrite bool_decide_true by done.
    destruct (pop_free_spec _ _ _ _ _ _ Hc Ho HF) as (st' & -> & Htk). exists st'. done.
  - destruct Hl as [-> _]. rewrite bool_decide_false.
    + by apply hdr_remove_taken.
    + intros [= ->]. apply NoDup_cons in Hnd as [Hn _]. apply Hn. set_solver.
Qed.

Lemma merge_step st B FL b o f xs ys :
  flight st B FL b o f → o < 22 → B !! buddy b o = Some (BlockInfo o true) → FL o = xs ++ buddy b o :: ys →
  let low := if b <? buddy b o then b else buddy b o in
  ∃ st1 st' B' FL' f', (let* head := get_free st o in
      if bool_decide (head = Some (buddy b o)) then let* (_, st) := pop_free st o in Done st else hdr_remove st (buddy b o))
      = Done st1 ∧
    (let* h := deref (mem st1 !! low) in
     let st := set_map st1 (delete (map_key st1 (buddy low (horder h))) (m_map st1)) in
     let* st := put_order st low (o + 1) in hdr_set_order st low (o + 1)) = Done st' ∧
    flight st' B' FL' low (o + 1) f' ∧ same st st' ∧ same_live B B' (Some b) (Some low).
Proof.
  intros Hfl Ho Hbud HF low0. destruct (buddy_good _ _ _ _ _ _ Hfl Ho) as (Hgb & Hgd & Hne & low & El & Hlm & Hlb & Hcase).
  unfold low0. rewrite El. clear low0 El. pose proof Hfl as [Hc Ht He Hb Hu Hst Hh]. set (bud := buddy b o) in *.
  pose proof (tl_block _ _ _ Ht _ _ Hb) as (Ho' & _). simpl in Ho'. assert (0 < 2 ^ o) as Hp by lia.
  destruct (take_buddy st B FL o bud xs ys Hc ltac:(lia) HF) as (st1 & Hr1 & Hc1 & Hs1 & Hm1 & Hh1 & Hf1).
  set (FL1 := upd FL o (xs ++ ys)) in *. destruct (co_lists _ _ _ Hc o ltac:(lia)) as (_ & _ & _ & Hnd & _). rewrite HF in Hnd.
  assert (∀ p c, c ∈ FL1 p → c ∈ FL p) as Hsub.
  { intros p c. unfold FL1, upd. destruct (Z.eqb_spec p o) as [->|]; [rewrite HF; set_solver|done]. }
  assert (unlisted FL1 b) as Hub by (intros p Hpp Hin%Hsub; by apply (Hu p)).
  assert (unlisted FL1 bud) as Hubd.
  { intros p Hpp Hin. destruct (co_lists _ _ _ Hc p Hpp) as (_ & _ & _ & _ & HB). pose proof (HB _ (Hsub _ _ Hin)) as E.
    rewrite Hbud in E. injection E as <-. unfold FL1, upd in Hin. rewrite Z.eqb_refl in Hin.
    apply NoDup_app in Hnd as (_ & H2 & [H3 _]%NoDup_cons). set_solver. }
  assert (mem st1 !! b = Some (FreeHeader None None o)) as Hhb.
  { rewrite Hf1; [done|]. apply Hu. lia. }
  assert (mem st1 !! low = Some (FreeHeader None None o)) as Hhl by (destruct Hcase as [[-> _]|[-> _]]; done).
  assert (∃ fl, B !! low = Some (BlockInfo o fl)) as [fl Hlow] by (destruct Hcase as [[-> _]|[-> _]]; eauto).
  assert (∃ fh, B !! (low + 2 ^ o) = Some (BlockInfo o fh)) as [fh Hhigh] by (destruct Hcase as [[_ ->]|[_ ->]]; eauto).
  assert (good st1 low ∧ unlisted FL1 low) as [Hgl Hul] by (destruct Hcase as [[-> _]|[-> _]]; split; try done; by apply (good_same st)).
  assert (good st1 (low + 2 ^ o) ∧ unlisted FL1 (low + 2 ^ o)) as [Hgh Huh]
    by (destruct Hcase as [[_ ->]|[_ ->]]; split; try done; by apply (good_same st)).
  eexists st1. rewrite Hhl. cbn [deref]. rewrite bind_Done. cbn [horder]. rewrite Hlb.
  pose proof (core_delete st1 B FL1 (low + 2 ^ o) Hc1 Hgh Huh) as Hc2.
  set (st2 := set_map st1 (delete (map_key st1 (low + 2 ^ o)) (m_map st1))) in *.
  destruct (put_order_spec st2 _ _ low (o + 1) (BlockInfo o fl) Hc2) as (st3 & -> & Hc3 & Hs3 & Hm3);
    [done|done|by rewrite lookup_delete_ne by lia|]. rewrite bind_Done. cbn [is_free] in Hc3.
  destruct (hdr_set_order_spec st3 _ _ low (o + 1) (FreeHeader None None o) Hc3 Hul) as (st4 & -> & Hc4 & Hs4 & Hm4 & Hmem4);
    [by rewrite Hm3|].
  assert (same st st4) as Hs by (eapply same_trans; [exact Hs1|]; eapply same_trans; [exact (Hs3 : same st1 st3)|done]).
  pose proof Hs as (E1 & E2 & _). eexists st4, _, FL1, fl. split; [done|]. split; [done|]. split; [|split; [done|]].
  - split; rewrite ?E1, ?E2; try done.
    + by eapply tiles_merge.
    + by rewrite lookup_insert_eq.
    + intros c p Hcp Hcn. apply lookup_insert_Some in Hcp as [[<- _]|[Hcl Hcp]]; [done|].
      apply lookup_delete_Some in Hcp as [Hch Hcp].
      assert (c ≠ b ∧ c ≠ bud) as [Hcb Hcbd] by (destruct Hcase as [[E3 E4]|[E3 E4]]; split; congruence).
      assert (c ∈ FL p) as Hin by (apply Hst; [done|congruence]). unfold FL1, upd.
      destruct (Z.eqb_spec p o) as [->|]; [|done]. rewrite HF in Hin. set_solver.
    + rewrite Hmem4. by rewrite lookup_insert_eq.
  - intros c p. split.
    + intros [Hcn Hcp]. apply lookup_insert_Some in Hcp as [[<- _]|[Hcl Hcp]]; [done|].
      apply lookup_delete_Some in Hcp as [Hch Hcp]. split; [|done]. destruct Hcase as [[E3 E4]|[E3 E4]]; congruence.
    + intros [Hcn Hcp]. assert (c ≠ bud) by congruence.
      assert (c ≠ low ∧ c ≠ low + 2 ^ o) as [? ?] by (destruct Hcase as [[E3 E4]|[E3 E4]]; split; congruence).
      split; [congruence|]. by rewrite lookup_insert_ne, lookup_delete_ne by auto.
Qed.

Lemma merge_loop_spec fuel st B FL b o f :
  flight st B FL b o f → 22 - o ≤ Z.of_nat fuel →
  ∃ b' o' f' st' B' FL', merge_loop fuel st b o = Done (b', st') ∧ flight st' B' FL' b' o' f' ∧ same st st' ∧
    same_live B B' (Some b) (Some b').
Proof.
  revert st B FL b o f. induction fuel as [|fuel IH]; intros st B FL b o f Hfl Hf; cbn [merge_loop]; unfold max_order.
  { rewrite (proj2 (Z.leb_le _ _)) by lia. by eexists _, _, _, _, _, _. }
  destruct (Z.leb_spec 22 o) as [Hge|Hlt]; [by eexists _, _, _, _, _, _|].
  pose proof Hfl as [Hc Ht He Hb Hu Hst Hh]. rewrite Hh. cbn [deref]. rewrite bind_Done. cbn [horder].
  destruct (buddy_good _ _ _ _ _ _ Hfl Hlt) as (_ & Hgd & Hne & _). rewrite (co_map _ _ _ Hc _ Hgd).
  destruct (B !! buddy b o) as [[ob [|]]|] eqn:Hbud; [|by eexists _, _, _, _, _, _..].
  destruct (Z.eqb_spec ob o) as [->|]; cbn [negb]; [|by eexists _, _, _, _, _, _].
  assert (buddy b o ∈ FL o) as (xs & ys & HF)%list_elem_of_split by (apply Hst; [done|congruence]).
  destruct (merge_step st B FL b o f xs ys Hfl Hlt Hbud HF) as (st1 & st' & B' & FL' & f' & Hr1 & Hr2 & Hfl' & Hs' & Hl').
  destruct (get_free st o) as [head| | |]; try done. rewrite !bind_Done in *. rewrite Hr1, bind_Done.
  set (low := if b <? buddy b o then b else buddy b o) in *. cbv zeta in Hr2.
  apply bind_Done_inv in Hr2 as (h & Hh2 & Hr2). rewrite Hh2, bind_Done. cbv zeta.
  apply bind_Done_inv in Hr2 as (st2 & Hp2 & Hr2). rewrite Hp2, bind_Done, Hr2, bind_Done.
  destruct (IH _ _ _ _ _ _ Hfl' ltac:(lia)) as (b2 & o2 & f2 & st3 & B3 & FL3 & -> & Hfl3 & Hs3 & Hl3).
  eexists _, _, _, _, _, _. split; [done|]. split; [done|]. split; [by eapply same_trans|by eapply same_live_trans].
Qed.

(** ** Growing the heap *)
Lemma address_order_spec e :
  0 < e < 2 ^ 64 → ∃ c, address_order e = Done c ∧ 0 ≤ c ≤ 22 ∧ e mod 2 ^ c = 0 ∧ (c < 22 → Z.testbit e c = true).
Proof.
  intros He. destruct (tzcnt64_spec e) as (H0 & H1 & H2); [lia|]. unfold address_order.
  rewrite (proj2 (Z.eqb_neq _ _)), Z.gtb_ltb by lia. eexists. split; [done|]. unfold max_order.
  assert (∀ c, 0 ≤ c ≤ tzcnt64 e → e mod 2 ^ c = 0) as Hm.
  { intros c Hc. apply Z.bits_inj'. intros n Hn. rewrite Z.bits_0, Z.testbit_mod_pow2 by lia.
    destruct (Z.ltb_spec n c); [|done]. rewrite H2 by lia. done. }
  destruct (Z.ltb_spec 22 (tzcnt64 e)); split; try lia; (split; [apply Hm; lia|]); [lia|done].
Qed.

Lemma aligned_order e c j : 0 ≤ j ≤ 22 → 0 ≤ c → e mod 2 ^ j = 0 → (c < 22 → Z.testbit e c = true) → c ≤ 22 → j ≤ c.
Proof.
  intros Hj Hc0 Hm Ht Hc. destruct (Z.le_gt_cases j c) as [|Hlt]; [done|exfalso].
  rewrite <- (Z.mod_pow2_bits_low e j c), Hm, Z.bits_0 in Ht by lia. specialize (Ht ltac:(lia)). done.
Qed.

(** At rest, with the end of the heap at a multiple of 32. *)
Record rest st B FL : Prop := {
  rs_core : core st B FL;
  rs_tiles : tiles (m_start st) (m_end st) B;
  rs_settled : settled B FL None;
  rs_end : m_start st ≤ m_end st ≤ m_start st + 2 ^ 35 ∧ m_end st mod 32 = 0;
}.

Lemma fill_step st B FL c :
  rest st B FL → m_end st mod 2 ^ c = 0 → 5 ≤ c ≤ 22 → m_end st + 2 ^ c ≤ m_start st + 2 ^ 35 →
  ∃ st' B' FL', register_free_block st (m_end st) c = Done st' ∧
    rest (set_end st' (u64 (m_end st' + Z.shiftl 1 c))) B' FL' ∧ same st st' ∧ same_live B B' None None ∧
    u64 (m_end st' + Z.shiftl 1 c) = m_end st + 2 ^ c.
Proof.
  intros [Hc Ht Hst [He He32]] Hm Hcr Hb. destruct (co_start _ _ _ Hc) as (Hs0 & _ & Hs64).
  assert (0 < 2 ^ c) as Hp by lia.
  assert (B !! m_end st = None) as Hn.
  { destruct (B !! m_end st) as [i|] eqn:E; [|done]. apply (tl_block _ _ _ Ht) in E as (? & _ & _ & ?). lia. }
  assert (good st (m_end st)) as Hg by (split; [lia|done]).
  assert (unlisted FL (m_end st)) as Hu.
  { intros o Ho Hin. destruct (co_lists _ _ _ Hc o Ho) as (_ & _ & _ & _ & HB). apply HB in Hin. congruence. }
  destruct (register_spec st B FL (m_end st) c Hc Hcr Hg Hu) as (st' & Hr & Hc' & Hs & _).
  pose proof Hs as (E1 & E2 & _).
  assert (u64 (m_end st' + Z.shiftl 1 c) = m_end st + 2 ^ c) as E3.
  { rewrite E2, Z.shiftl_1_l. apply wrap_small. unfold is_word. lia. }
  eexists _, _, _. split; [done|]. split; [|split; [done|]; split; [|done]].
  - rewrite E3. split; cbn [set_end m_start m_end]; rewrite ?E1.
    + destruct Hc' as [H1 H2 H3 H4]. by split.
    + apply tiles_extend; try done. lia.
    + intros a o Ha _. unfold upd. apply lookup_insert_Some in Ha as [[<- [= <-]]|[Hne Ha]]; [rewrite Z.eqb_refl; left|].
      assert (a ∈ FL o) by by apply Hst. destruct (Z.eqb_spec o c) as [->|]; [by right|done].
    + split; [lia|]. by rewrite Zplus_mod, He32, pow2_mod32 by lia.
  - intros a p. split; (intros [_ Ha]; split; [done|]).
    + by apply lookup_insert_Some in Ha as [[_ ?]|[_ Ha]].
    + rewrite lookup_insert_ne; [done|]. intros <-. congruence.
Qed.

Lemma fill_to_spec fuel st B FL ord E :
  rest st B FL → 5 ≤ ord ≤ 22 → m_end st ≤ E → E mod 2 ^ ord = 0 → E ≤ m_start st + 2 ^ 35 →
  (∀ c, address_order (m_end st) = Done c → ord - c < Z.of_nat fuel) → (0 < fuel)%nat →
  ∃ st' B' FL', fill_to fuel st ord = Done st' ∧ rest st' B' FL' ∧ same_live B B' None None ∧
    m_start st' = m_start st ∧ m_allocated_size st' = m_allocated_size st ∧ m_end st' mod 2 ^ ord = 0 ∧ m_end st' ≤ E.
Proof.
  revert st B FL. induction fuel as [|fuel IH]; intros st B FL Hr Ho HE HEm HEb Hf H0; [lia|]. cbn [fill_to].
  destruct (co_start _ _ _ (rs_core _ _ _ Hr)) as (Hs0 & _ & Hs64). pose proof (rs_end _ _ _ Hr) as [He He32].
  destruct (address_order_spec (m_end st)) as (c & Hc & Hcr & Hm & Ht); [lia|]. rewrite Hc, bind_Done.
  specialize (Hf c Hc). assert (5 ≤ c) as Hc5 by (apply (aligned_order (m_end st) c 5); try lia; done).
  destruct (Z.ltb_spec c ord) as [Hlt|Hge].
  - pose proof (mod_pow_bit (m_end st) c ltac:(lia) Hm) as Hbit. rewrite Ht in Hbit by lia.
    pose proof (pow_split c ltac:(lia)) as Hps. assert (0 < 2 ^ c) as Hpos by lia.
    assert ((m_end st + 2 ^ c) mod 2 ^ (c + 1) = 0) as Hm'.
    { replace (m_end st + 2 ^ c) with ((m_end st - 2 ^ c) + 1 * 2 ^ (c + 1)) by lia. by rewrite Z.mod_add by lia. }
    assert (m_end st + 2 ^ c ≤ E) as HE'.
    { assert (m_end st ≠ E) as Hne.
      { intros EE. rewrite <- EE in HEm. pose proof (aligned_order (m_end st) c ord ltac:(lia) ltac:(lia) HEm Ht ltac:(lia)). lia. }
      assert (E mod 2 ^ c = 0) as HEc.
      { apply Z.mod_divide in HEm as [q Hq]; [|lia]. apply Z.mod_divide; [lia|].
        exists (q * 2 ^ (ord - c)). rewrite <- Z.mul_assoc, <- Z.pow_add_r by lia. by replace (ord - c + c) with ord by lia. }
      apply Z.mod_divide in HEc as [q Hq]; [|lia]. apply Z.mod_divide in Hm as [r Hr']; [|lia].
      assert (r < q) by nia. assert ((r + 1) * 2 ^ c ≤ q * 2 ^ c) by (apply Z.mul_le_mono_nonneg_r; lia). lia. }
    destruct (fill_step st B FL c Hr Hm ltac:(lia) ltac:(lia)) as (st1 & B1 & FL1 & -> & Hr1 & (E1 & E2 & _ & E4) & Hl1 & E3).
    rewrite bind_Done. set (st2 := set_end st1 (u64 (m_end st1 + Z.shiftl 1 c))) in *.
    assert (m_start st2 = m_start st) as E5 by exact E1.
    assert (m_end st2 = m_end st + 2 ^ c) as E6 by exact E3.
    destruct (IH st2 B1 FL1 Hr1 Ho) as (st' & B' & FL' & -> & Hr' & Hl' & Hs' & Ha' & Hm2 & Hle); try rewrite E5; try rewrite E6; try done.
    + intros c' Hc'. destruct (address_order_spec (m_end st + 2 ^ c)) as (c2 & Hc2 & Hcr2 & Hm3 & Ht3); [lia|].
      rewrite Hc2 in Hc'. injection Hc' as <-.
      pose proof (aligned_order _ c2 (c + 1) ltac:(lia) ltac:(lia) Hm' Ht3 ltac:(lia)). lia.
    + lia.
    + eexists _, _, _. split; [done|]. split; [done|]. split; [by eapply same_live_trans|]. split; [congruence|].
      split; [by rewrite Ha'|]. done.
  - eexists _, _, _. split; [done|]. split; [done|]. split; [done|]. split; [done|]. split; [done|]. split; [|done].
    apply Z.mod_divide in Hm as [q Hq]; [|lia]. apply Z.mod_divide; [lia|]. exists (q * 2 ^ (c - ord)).
    rewrite <- Z.mul_assoc, <- Z.pow_add_r by lia. by replace (c - ord + ord) with c by lia.
Qed.

(** ** Allocation and release *)
Implicit Types (L : gmap Z Z).

Definition heap_bytes L : Z := map_fold (λ _ o acc, 2 ^ o + acc) 0 L.

Lemma heap_bytes_insert L p o : L !! p = None → heap_bytes (<[p := o]> L) = 2 ^ o + heap_bytes L.
Proof. intros Hp. unfold heap_bytes. rewrite map_fold_insert_L; [done| |done]. intros. lia. Qed.

Lemma heap_bytes_delete L p o : L !! p = Some o → heap_bytes (delete p L) = heap_bytes L - 2 ^ o.
Proof.
  intros Hp. rewrite <- (insert_delete_id L p o Hp) at 2. rewrite heap_bytes_insert by apply lookup_delete_eq. lia.
Qed.

(** The heap stands for the blocks it has handed out: [L] gives their orders by address. *)
Definition live_is B L : Prop := ∀ a p, L !! a = Some p ↔ B !! a = Some (BlockInfo p false).
Definition heap_inv st L : Prop :=
  ∃ B FL, rest st B FL ∧ live_is B L ∧ m_allocated_size st = u64 (heap_bytes L).

Lemma hand_out_spec st B FL b o L n :
  flight st B FL b o true → m_start st ≤ m_end st ∧ m_end st mod 32 = 0 → live_is B L →
  n = 2 ^ o + heap_bytes L → m_allocated_size st = u64 n →
  ∃ st', hand_out st b = Done (Some b, st') ∧ heap_inv st' (<[b := o]> L) ∧ L !! b = None ∧ b mod 2 ^ o = 0.
Proof.
  intros [Hc Ht He Hb Hu Hst Hh] [He1 He2] Hl -> Hn. unfold hand_out, put_is_free.
  pose proof (tiles_good _ _ _ _ _ Hc Ht He Hb) as Hg. rewrite (co_map _ _ _ Hc b Hg), Hb. cbn [deref]. rewrite !bind_Done.
  cbn [order]. assert (L !! b = None) as HLb.
  { destruct (L !! b) as [p|] eqn:E; [|done]. apply Hl in E. congruence. }
  eexists. split; [done|]. split; [|split; [done|]; by apply (tl_block _ _ _ Ht) in Hb as (_ & ? & _)].
  exists (<[b := BlockInfo o false]> B), FL. split; [|split].
  - split; cbn [set_mem put_info set_map m_start m_end]; try done.
    + apply core_mem; [by apply core_put_info|]. intros o' a Ho' Ha. cbn [put_info set_map mem].
      rewrite lookup_delete_ne; [done|]. intros <-. by apply (Hu o' Ho').
    + apply (tiles_flag _ _ _ _ _ false Ht Hb).
    + intros a p [[_ ?]|[Hne Ha]]%lookup_insert_Some _; [done|]. apply Hst; [done|congruence].
  - intros a p. destruct (decide (b = a)) as [<-|]; [rewrite !lookup_insert_eq; split; congruence|].
    rewrite !lookup_insert_ne by done. apply Hl.
  - cbn [set_mem put_info set_map m_allocated_size]. by rewrite heap_bytes_insert.
Qed.

Lemma same_live_is B B' L : same_live B B' None None → live_is B L → live_is B' L.
Proof. intros Hs Hl a p. rewrite (Hl a p). specialize (Hs a p). naive_solver. Qed.

Lemma new_block_spec st B FL o L n :
  rest st B FL → 5 ≤ o ≤ 22 → m_end st + 2 ^ 23 ≤ m_start st + 2 ^ 35 → live_is B L →
  n = 2 ^ o + heap_bytes L → m_allocated_size st = u64 n →
  ∃ b st', new_block st o = Done (b, st') ∧ heap_inv st' (<[b := o]> L) ∧ L !! b = None ∧ b mod 2 ^ o = 0.
Proof.
  intros Hr Ho Hb Hl -> Hn. destruct (co_start _ _ _ (rs_core _ _ _ Hr)) as (Hs0 & _ & Hs64). pose proof (rs_end _ _ _ Hr) as [He He32].
  assert (0 < 2 ^ o ≤ 2 ^ 22) as Hp by (split; [lia|apply Z.pow_le_mono_r; lia]).
  set (E := (m_end st + 2 ^ o - 1) / 2 ^ o * 2 ^ o).
  assert (m_end st ≤ E ≤ m_end st + 2 ^ o - 1) as HE.
  { unfold E. pose proof (Z.div_mod (m_end st + 2 ^ o - 1) (2 ^ o)). pose proof (Z.mod_pos_bound (m_end st + 2 ^ o - 1) (2 ^ o)). lia. }
  unfold new_block. destruct (fill_to_spec 64 st B FL o E Hr Ho) as (st1 & B1 & FL1 & -> & Hr1 & Hl1 & Hs1 & Ha1 & Hm1 & Hle);
    [lia|unfold E; apply Z.mod_mul; lia|lia| |lia|].
  { intros c Hc. destruct (address_order_spec (m_end st)) as (c' & Hc' & ? & _); [lia|]. rewrite Hc in Hc'. simplify_eq. lia. }
  rewrite bind_Done, Z.shiftl_1_l. pose proof Hr1 as [Hc1 Ht1 Hst1 [He1 He132]].
  rewrite (wrap_small 64) by (unfold is_word; lia). set (b := m_end st1) in *.
  assert (B1 !! b = None) as Hnb.
  { destruct (B1 !! b) as [i|] eqn:Ei; [|done]. apply (tl_block _ _ _ Ht1) in Ei as (? & _ & _ & ?). unfold b in *. lia. }
  pose proof (same_live_is _ _ _ Hl1 Hl) as Hl'.
  assert (L !! b = None) as HLb.
  { destruct (L !! b) as [p|] eqn:Ei; [|done]. apply Hl' in Ei. congruence. }
  eexists _, _. split; [done|]. split; [|split; [done|done]]. exists (<[b := BlockInfo o false]> B1), FL1. split; [|split].
  - assert (core (set_end st1 (b + 2 ^ o)) B1 FL1) as Hc2 by (destruct Hc1; by split).
    split; cbn [put_info set_map set_end m_start m_end].
    + apply core_put_info; [done|split; [unfold b in *; cbn [set_end m_start]; lia|done]|].
      intros p Hpp Hin. destruct (co_lists _ _ _ Hc1 p Hpp) as (_ & _ & _ & _ & HB). apply HB in Hin. congruence.
    + unfold b. apply tiles_extend; done || lia.
    + intros a p [[_ ?]|[Hne Ha]]%lookup_insert_Some _; [done|]. by apply Hst1.
    + unfold b in *. split; [lia|]. by rewrite Zplus_mod, He132, pow2_mod32 by lia.
  - intros a p. destruct (decide (b = a)) as [<-|]; [rewrite !lookup_insert_eq; split; congruence|].
    rewrite !lookup_insert_ne by done. apply Hl'.
  - cbn [put_info set_map set_end m_allocated_size]. by rewrite Ha1, heap_bytes_insert.
Qed.

(** The order of the block that serves a request. *)
Definition order_for (length : Z) : Z := Z.max 5 (Z.log2_up length).

Lemma allocate_spec st L length :
  heap_inv st L → 0 < length ≤ 2 ^ 22 → m_end st + 2 ^ 23 ≤ m_start st + 2 ^ 35 →
  ∃ b st', allocate st length = Done (Some b, st') ∧ heap_inv st' (<[b := order_for length]> L) ∧
    L !! b = None ∧ b mod 2 ^ order_for length = 0.
Proof.
  intros (B & FL & Hr & Hl & Hn) Hlen Hroom. unfold allocate. rewrite (proj2 (Z.eqb_neq _ _)) by lia.
  rewrite log2_spec by (unfold is_word; lia). rewrite bind_Done.
  assert (0 ≤ Z.log2_up length ≤ 22) as Hlg.
  { split; [apply Z.log2_up_nonneg|]. rewrite <- (Z.log2_up_pow2 22) by lia. apply Z.log2_up_le_mono. lia. }
  unfold min_order. assert ((if Z.log2_up length <? 5 then 5 else Z.log2_up length) = order_for length) as ->
    by (unfold order_for; destruct (Z.ltb_spec (Z.log2_up length) 5); lia).
  set (o := order_for length). assert (5 ≤ o ≤ 22) as Ho by (unfold o, order_for; lia).
  unfold max_order. rewrite (proj2 (Z.leb_le _ _)) by lia. cbn [kassert]. rewrite bind_Done, Z.shiftl_1_l.
  set (st1 := set_allocated st (u64 (m_allocated_size st + 2 ^ o))).
  assert (rest st1 B FL) as Hr1 by (destruct Hr as [[]]; split; [by split|done..]).
  assert (m_allocated_size st1 = u64 (2 ^ o + heap_bytes L)) as Hn1.
  { unfold st1. cbn [set_allocated m_allocated_size]. rewrite Hn, wrap_add_l by lia. f_equal. lia. }
  pose proof Hr1 as [Hc1 Ht1 Hst1 [He1 He132]].
  destruct (FL o) as [|a ys] eqn:HF.
  - rewrite (pop_free_empty _ _ _ _ Hc1 Ho HF), bind_Done.
    destruct (split_off_spec 18 st1 B FL o Hc1 Ht1 (proj2 He1) Hst1 Ho ltac:(lia)) as (r & st2 & -> & Hr2). rewrite bind_Done.
    destruct r as [b|].
    + destruct Hr2 as (B2 & FL2 & Hfl & (E1 & E2 & _ & E4) & Hl2).
      destruct (hand_out_spec st2 B2 FL2 b o L (2 ^ o + heap_bytes L) Hfl) as (st3 & -> & H3); [rewrite E1, E2; split; [lia|done]|by eapply same_live_is|done|by rewrite E4|].
      by eexists _, _.
    + subst st2. destruct (new_block_spec st1 B FL o L _ Hr1 Ho Hroom Hl eq_refl Hn1) as (b & st3 & -> & H3). by eexists _, _.
  - destruct (pop_free_spec _ _ _ _ _ _ Hc1 Ho HF) as (st2 & -> & Htk). rewrite bind_Done.
    pose proof (flight_taken st1 B FL o a [] ys st2 Hc1 Ht1 (proj2 He1) Hst1 Ho HF Htk) as Hfl.
    destruct Htk as (_ & (E1 & E2 & _ & E4) & _).
    destruct (hand_out_spec st2 B _ a o L (2 ^ o + heap_bytes L) Hfl) as (st3 & -> & H3); [rewrite E1, E2; split; [lia|done]|done|done|by rewrite E4|].
    by eexists _, _.
Qed.

Lemma free_spec st L p o :
  heap_inv st L → L !! p = Some o →
  ∃ st', free st (Some p) = Done st' ∧ heap_inv st' (delete p L) ∧ m_end st' = m_end st ∧ m_start st' = m_start st.
Proof.
  intros (B & FL & Hr & Hl & Hn) Hp. pose proof Hr as [Hc Ht Hst [He He32]]. pose proof (proj1 (Hl _ _) Hp) as HBp.
  pose proof (tl_block _ _ _ Ht _ _ HBp) as (Ho & _ & Hlo & Hhi). simpl in *. assert (0 < 2 ^ o) as Hpos by lia.
  pose proof (tiles_good _ _ _ _ _ Hc Ht (proj2 He) HBp) as Hg.
  unfold free. rewrite (proj2 (Z.leb_le _ _)), (proj2 (Z.ltb_lt _ _)) by lia. cbn [andb kassert]. rewrite bind_Done.
  rewrite (co_map _ _ _ Hc p Hg), HBp. cbn [order]. rewrite Z.shiftl_1_l.
  set (st1 := set_allocated st (u64 (m_allocated_size st - 2 ^ o))).
  assert (unlisted FL p) as Hu.
  { intros o' Ho' Hin. destruct (co_lists _ _ _ Hc o' Ho') as (_ & _ & _ & _ & HB). apply HB in Hin. congruence. }
  assert (flight (hdr_clear st1 p o None) B FL p o false) as Hfl.
  { split; cbn [hdr_clear set_mem st1 set_allocated m_start m_end mem]; try done; try lia.
    - apply core_mem; [destruct Hc; by split|]. intros o' a Ho' Ha. cbn [st1 set_allocated mem]. rewrite lookup_insert_ne; [done|].
      intros <-. by apply (Hu o' Ho').
    - intros a q Ha _. by apply Hst.
    - by rewrite lookup_insert_eq. }
  unfold merge_block. rewrite (fl_hdr _ _ _ _ _ _ Hfl). cbn [deref]. rewrite bind_Done. cbn [horder].
  destruct (merge_loop_spec 18 _ _ _ _ _ _ Hfl ltac:(lia)) as (b & o' & f' & st2 & B2 & FL2 & -> & Hfl2 & (E1 & E2 & _ & E4) & Hl2).
  rewrite bind_Done, (fl_hdr _ _ _ _ _ _ Hfl2). cbn [deref]. rewrite bind_Done. cbn [horder].
  pose proof Hfl2 as [Hc2 Ht2 He2 Hb2 Hu2 Hst2 Hh2]. pose proof (tl_block _ _ _ Ht2 _ _ Hb2) as (Ho2 & _). simpl in Ho2.
  destruct (register_spec st2 B2 FL2 b o' Hc2 Ho2 (tiles_good _ _ _ _ _ Hc2 Ht2 He2 Hb2) Hu2) as (st3 & -> & Hc3 & (F1 & F2 & _ & F4) & _).
  cbn [hdr_clear set_mem set_allocated m_start m_end m_allocated_size st1] in E1, E2, E4.
  eexists. split; [done|]. split; [|split; congruence]. eexists _, _. split; [split; [done|..]|split].
  - rewrite F1, F2. apply (tiles_flag _ _ _ _ _ true Ht2 Hb2).
  - intros a q [[<- [= <-]]|[Hne Ha]]%lookup_insert_Some _; unfold upd; [rewrite Z.eqb_refl; left|].
    assert (a ∈ FL2 q) by (apply Hst2; congruence). destruct (Z.eqb_spec q o') as [->|]; [by right|done].
  - rewrite F1, F2, E1, E2. done.
  - intros a q. specialize (Hl2 a q). split.
    + intros [Hne Ha]%lookup_delete_Some. apply Hl in Ha. destruct (proj2 Hl2) as [H1 H2]; [split; [congruence|done]|].
      rewrite lookup_insert_ne by congruence. done.
    + intros [[_ ?]|[Hne Ha]]%lookup_insert_Some; [done|]. destruct (proj1 Hl2) as [H1 H2]; [split; [congruence|done]|].
      apply lookup_delete_Some. split; [congruence|by apply Hl].
  - rewrite F4, E4, Hn, (heap_bytes_delete _ _ _ Hp). unfold wrap. by rewrite Zminus_mod_idemp_l.
Qed.

Lemma new_heap_spec start size :
  0 < start → start mod 2 ^ 22 = 0 → start + 2 ^ 36 < 2 ^ 64 → heap_inv (new_heap start size) ∅.
Proof.
  intros H0 Hm Hb. exists ∅, (λ _, []). split; [|split].
  - split.
    + split; try done. intros o Ho. exists None. split; [|split; [by exists None|]].
      * cbn [new_heap m_free]. apply lookup_replicate_2. lia.
      * split; [constructor|set_solver].
    + split; try done. intros x Hx. cbn in Hx. lia.
    + intros a o Ha. done.
    + cbn [new_heap m_start m_end]. split; [lia|]. apply Z.mod_divide in Hm as [q ->]; [|lia].
      apply Z.mod_divide; [lia|]. exists (q * 2 ^ 17). lia.
  - intros a p. rewrite !lookup_empty. done.
  - done.
Qed.

(** ** Sequences of operations *)
Inductive heap_op := HAlloc (length : Z) | HFree (p : Z).

Fixpoint heap_run st L (ops : list heap_op) : outcome (heap_allocator * gmap Z Z) :=
  match ops with
  | [] => Done (st, L)
  | HAlloc length :: ops =>
      let* (r, st) := allocate st length in
      heap_run st (match r with Some b => <[b := order_for length]> L | None => L end) ops
  | HFree p :: ops => let* st := free st (Some p) in heap_run st (delete p L) ops
  end.

(** Requests are for up to the largest block, while the reserved range has room for one more, and only
    blocks that are handed out are freed. *)
Fixpoint heap_ok st L (ops : list heap_op) : bool :=
  match ops with
  | [] => true
  | HAlloc length :: ops =>
      (0 <=? length) && (length <=? 2 ^ 22) && (m_end st + 2 ^ 23 <=? m_start st + 2 ^ 35) &&
      match allocate st length with
      | Done (r, st) => heap_ok st (match r with Some b => <[b := order_for length]> L | None => L end) ops
      | _ => true
      end
  | HFree p :: ops =>
      bool_decide (is_Some (L !! p)) && match free st (Some p) with Done st => heap_ok st (delete p L) ops | _ => true end
  end.

Lemma heap_run_inv ops st L :
  heap_inv st L → heap_ok st L ops = true → ∃ st' L', heap_run st L ops = Done (st', L') ∧ heap_inv st' L'.
Proof.
  revert st L. induction ops as [|[length|p] ops IH]; intros st L Hi Hok; cbn [heap_run heap_ok] in *.
  - by exists st, L.
  - apply andb_true_iff in Hok as [[[H1%Z.leb_le H2%Z.leb_le]%andb_true_iff H3%Z.leb_le]%andb_true_iff Hok].
    destruct (decide (length = 0)) as [->|Hne].
    + change (allocate st 0) with (Done (@None Z, st)) in *. rewrite bind_Done. by apply IH.
    + destruct (allocate_spec st L length Hi) as (b & st1 & Ha & Hi1 & _); [lia|lia|]. rewrite Ha in Hok |- *.
      rewrite bind_Done. by apply IH.
  - apply andb_true_iff in Hok as [[o Ho]%bool_decide_eq_true Hok].
    destruct (free_spec st L p o Hi Ho) as (st1 & Hf & Hi1 & _). rewrite Hf in Hok |- *. rewrite bind_Done. by apply IH.
Qed.

Lemma heap_inv_blocks st L :
  heap_inv st L →
  (∀ a p, L !! a = Some p → 5 ≤ p ≤ 22 ∧ a mod 2 ^ p = 0 ∧ m_start st ≤ a ∧ a + 2 ^ p ≤ m_end st) ∧
  (∀ a p c q, L !! a = Some p → L !! c = Some q → a < c → a + 2 ^ p ≤ c).
Proof.
  intros (B & FL & [Hc Ht Hst He] & Hl & _). split.
  - intros a p Ha%Hl. by apply (tl_block _ _ _ Ht) in Ha.
  - intros a p c q Ha%Hl Hq%Hl Hlt. by eapply (tl_disj _ _ _ Ht a _ c _ Ha Hq).
Qed.

(** ** Properties *)

(** [allocate] returns a new block: large enough for the request, aligned to its size, inside the
    heap, and disjoint from every block handed out before, which all stay as they were. *)
Theorem heap_allocate_fresh st L length :
  heap_inv st L → 0 < length ≤ 2 ^ 22 → m_end st + 2 ^ 23 ≤ m_start st + 2 ^ 35 →
  ∃ b st' o, allocate st length = Done (Some b, st') ∧ heap_inv st' (<[b := o]> L) ∧
    length ≤ 2 ^ o ∧ b mod 2 ^ o = 0 ∧ m_start st' ≤ b ∧ b + 2 ^ o ≤ m_end st' ∧
    (∀ a p, L !! a = Some p → a + 2 ^ p ≤ b ∨ b + 2 ^ o ≤ a).
Proof.
  intros Hi Hlen Hroom. destruct (allocate_spec st L length Hi Hlen Hroom) as (b & st' & Ha & Hi' & Hn & Hm).
  destruct (heap_inv_blocks _ _ Hi') as [Hin Hdis].
  exists b, st', (order_for length). split; [done|]. split; [done|].
  destruct (Hin b (order_for length)) as (Ho & _ & H1 & H2); [by rewrite lookup_insert_eq|].
  split; [|split; [done|]; split; [done|]; split; [done|]].
  - unfold order_for. transitivity (2 ^ Z.log2_up length).
    + destruct (decide (length = 1)) as [->|]; [done|]. apply Z.log2_up_spec. lia.
    + apply Z.pow_le_mono_r; lia.
  - intros a p Hap. assert (a ≠ b) by congruence. destruct (Z.lt_ge_cases a b).
    + left. apply (Hdis a p b (order_for length)); [by rewrite lookup_insert_ne|by rewrite lookup_insert_eq|done].
    + right. apply (Hdis b (order_for length) a p); [by rewrite lookup_insert_eq|by rewrite lookup_insert_ne|lia].
Qed.


(** *** Instances: a heap at 4 GiB *)
Definition heap_4g : heap_allocator := new_heap (2 ^ 32) (2 ^ 35).
Lemma heap_4g_inv : heap_inv heap_4g ∅.
Proof. by apply new_heap_spec. Qed.

Lemma heap_allocate_fresh_witness :
  ∃ b st' o, allocate heap_4g 100 = Done (Some b, st') ∧ 100 ≤ 2 ^ o ∧ b mod 2 ^ o = 0 ∧ m_start st' ≤ b.
Proof.
  destruct (heap_allocate_fresh heap_4g ∅ 100 heap_4g_inv) as (b & st' & o & H1 & _ & H2 & H3 & H4 & _);
    [lia|vm_compute; discriminate|]. exists b, st', o. exact (conj H1 (conj H2 (conj H3 H4))).
Defined.

