(* ===== verification/PageTable.v ===== *)
(** * Page tables

    Models src/kernel/page_table.h and page_table.cpp: the four-level x86-64 page tables, the
    iterator that walks and extends them, and the cache of pages to build tables from.  A table is
    a page of 512 words in the linearly mapped memory [mem]; a [page_table *] is its address.  The
    pages of the cache are linked through their first word, as [free_page_header] overlays a table.
    Frames come from an allocator behind the interface of Frames.v.

    [pte] is what the processor finds for an address.  The theorems show that the iterator's
    entry is that entry, that making room for it changes the translation of no address, and that
    the iterator's arithmetic is address arithmetic. *)
From S2P Require Import Prelude Frames.

Abbreviation frame_size := FrameAllocator.frame_size.

(** ** Levels, flags and addresses *)

Inductive level := pml4 | pdp | pd | pt | page.

Definition to_un (l : level) : Z :=
  match l with pml4 => 0 | pdp => 1 | pd => 2 | pt => 3 | page => 4 end.

(** [page_flags] *)
Definition fl_none : Z := 0x0000.
Definition fl_present : Z := 0x0001.
Definition fl_write : Z := 0x0002.
Definition fl_user : Z := 0x0004.
Definition fl_pat0 : Z := 0x0008.
Definition fl_pat1 : Z := 0x0010.
Definition fl_accessed : Z := 0x0020.
Definition fl_pat2 : Z := 0x0080.
Definition fl_wc : Z := Z.lor (Z.lor fl_pat0 fl_pat1) fl_pat2.

Definition table_flags : Z := Z.lor fl_present fl_write.
Definition entry_sizes : list Z := [0x8000000000; 0x40000000; 0x200000; 0x1000].
Definition table_entries : Z := 512.
Definition kernel_root_index : Z := table_entries / 2.
Definition linear_offset : Z := 0xffffc00000000000.

Definition to_virtual (a : Z) : Z := Z.lor a linear_offset.
Definition present (e : Z) : bool := Z.testbit e 0.
Definition large (l e : Z) : bool := ((l =? 1) || (l =? 2)) && Z.testbit e 7.

(** [if (address & (1ull<<47)) address |= (0xffffull<<48)] *)
Definition canonicalize (address : Z) : Z :=
  if Z.testbit address 47 then Z.lor address (Z.shiftl 0xffff 48) else address.

(** ** Iterators *)

Record iterator := Iterator { m_table : list Z; m_index : list Z }.

Definition set_table (it : iterator) (l p : Z) : outcome iterator :=
  let* ts := arr_set (m_table it) l p in Done (Iterator ts (m_index it)).
Definition set_index (it : iterator) (l i : Z) : outcome iterator :=
  let* js := arr_set (m_index it) l i in Done (Iterator (m_table it) js).

Definition new_iterator (virt root : Z) : iterator :=
  Iterator [root; 0; 0; 0]
    ((λ i, u16 (Z.land (Z.shiftr virt (12 + 9 * (3 - i))) 0x1ff)) <$> seqZ 0 4).

(** A [for] loop over levels that collects an address. *)
Fixpoint or_levels (f : Z → outcome Z) (js : list Z) (address : Z) : outcome Z :=
  match js with
  | [] => Done address
  | i :: js => let* x := f i in or_levels f js (Z.lor address (u64 (Z.shiftl x (12 + 9 * (3 - i)))))
  end.

Definition start (it : iterator) (l : level) : outcome Z :=
  let* address := or_levels (arr_get (m_index it)) (seqZ 0 (to_un l + 1)) 0 in
  Done (canonicalize address).

Definition end_ (it : iterator) (l : level) : outcome Z :=
  let* _ := kassert (negb (to_un l =? 0)) in
  let* address := or_levels (λ i, let* x := arr_get (m_index it) i in
                                  Done (x + (if i =? to_un l then 1 else 0)))
                            (seqZ 0 (to_un l)) 0 in
  Done (canonicalize address).

Definition vaddress (it : iterator) : outcome Z := start it pt.

(** [for (int i = 4; i > 0; --i) if (m_index[i-1]) return level(i)] *)
Fixpoint align_loop (it : iterator) (i : nat) : outcome Z :=
  match i with
  | O => Done 0
  | S j => let* x := arr_get (m_index it) (Z.of_nat j) in
           if x =? 0 then align_loop it j else Done (Z.of_nat i)
  end.
Definition align (it : iterator) : outcome Z := align_loop it 4.

(** The reset of the indices from level [l] down. *)
Fixpoint clear_levels (it : iterator) (js : list Z) : outcome iterator :=
  match js with
  | [] => Done it
  | i :: js => let* it := set_index it i 0 in clear_levels it js
  end.

(** [while (++index(--l) == 512)]: [k] is [l] before its decrement. *)
Fixpoint carry (it : iterator) (k : nat) : outcome iterator :=
  match k with
  | O => Undef
  | S j =>
      let* x := arr_get (m_index it) (Z.of_nat j) in
      let x := u16 (x + 1) in
      let* it := set_index it (Z.of_nat j) x in
      if x =? 512 then
        let* _ := kassert (negb (Z.of_nat j =? 0)) in
        let* it := set_index it (Z.of_nat j) 0 in
        carry it j
      else Done it
  end.

Definition next (it : iterator) (l : level) : outcome iterator :=
  let* _ := kassert (negb (to_un l =? 0)) in
  let* _ := kassert (to_un l <=? to_un page) in
  let* it := clear_levels it (seqZ (to_un l) (4 - to_un l)) in
  carry it (Z.to_nat (to_un l)).

Definition increment (it : iterator) : outcome iterator := next it page.

(** [operator!=]: the indices, then the roots. *)
Definition it_ne (a b : iterator) : outcome bool :=
  if bool_decide (m_index a = m_index b) then
    let* ra := arr_get (m_table a) 0 in
    let* rb := arr_get (m_table b) 0 in
    Done (negb (ra =? rb))
  else Done true.

(** ** Reading tables *)

Abbreviation pages := (gmap Z (list Z)).

Definition rd (m : pages) (p i : Z) : outcome Z :=
  let* t := deref (m !! p) in arr_get t i.
Definition wr (m : pages) (p i v : Z) : outcome pages :=
  let* t := deref (m !! p) in
  let* t := arr_set t i v in
  Done (<[p := t]> m).

(** The table an entry points to. *)
Definition child (e : Z) : Z := Z.lor linear_offset (Z.land e page_mask).

(** The loops over the levels above [l] of the two [entry] functions. *)
Fixpoint check_levels (check : iterator → Z → outcome (bool * iterator)) (it : iterator)
    (js : list Z) : outcome (bool * iterator) :=
  match js with
  | [] => Done (true, it)
  | i :: js => let* (ok, it) := check it i in
               if (ok : bool) then check_levels check it js else Done (false, it)
  end.

Definition entry_with (check : iterator → Z → outcome (bool * iterator)) (m : pages)
    (it : iterator) (l : Z) : outcome (Z * iterator) :=
  let* (ok, it) := check_levels check it (seqZ 1 l) in
  if (ok : bool) then
    let* p := arr_get (m_table it) l in
    let* i := arr_get (m_index it) l in
    let* e := rd m p i in
    Done (e, it)
  else Done (0, it).

(** [check_table] calls [entry(l - 1)], which calls [check_table] for the levels up to [l - 1]:
    a recursion of depth at most 4. *)
Fixpoint check_table_n (n : nat) (m : pages) (it : iterator) (l : Z)
    : outcome (bool * iterator) :=
  match n with
  | O => Diverge
  | S n =>
      if (l =? 0) || (to_un pt <? l) then Done (l =? 0, it)
      else
        let* (parent, it) := entry_with (check_table_n n m) m it (l - 1) in
        if Z.testbit parent 0 then
          let* it := set_table it l (child parent) in
          Done (true, it)
        else Done (false, it)
  end.
Definition check_table (m : pages) (it : iterator) (l : Z) : outcome (bool * iterator) :=
  check_table_n 4 m it l.

(** [entry(l) const] *)
Definition entry (m : pages) (it : iterator) (l : level) : outcome (Z * iterator) :=
  entry_with (check_table m) m it (to_un l).

(** [depth]: the first level whose entry is not present. *)
Fixpoint depth_loop (m : pages) (it : iterator) (ls : list level) : outcome (level * iterator) :=
  match ls with
  | [] => Done (pt, it)
  | l :: ls => let* (e, it) := entry m it l in
               if Z.testbit e 0 then depth_loop m it ls else Done (l, it)
  end.
Definition depth (m : pages) (it : iterator) : outcome (level * iterator) :=
  depth_loop m it [pml4; pdp; pd; pt].

(** ** Entries of one table as table pointers *)

Definition get (m : pages) (p i : Z) : outcome (option (Z * Z)) :=
  let* e := rd m p i in
  if Z.land e 1 =? 0 then Done None
  else Done (Some (u64 (Z.land e page_mask + linear_offset), Z.land e 0xfff)).

Definition set (m : pages) (p i q flags : Z) : outcome pages :=
  wr m p i (Z.lor (u64 (q - linear_offset)) (Z.land flags 0xfff)).

Definition is_large_page (m : pages) (p : Z) (l : level) (i : Z) : outcome bool :=
  let* e := rd m p i in Done (large (to_un l) e).
Definition is_present (m : pages) (p i : Z) : outcome bool :=
  let* e := rd m p i in Done (present e).
Definition is_page (m : pages) (p : Z) (l : level) (i : Z) : outcome bool :=
  if to_un l =? 3 then Done true else is_large_page m p l i.

(** ** The page cache and the operations that change tables *)

Section Tables.
  Context {F : Type} {FS : FrameSource F}.

Record pt_state := PtState {
  mem : pages;
  s_page_cache : Z;
  frames : F;
}.

Definition set_mem (st : pt_state) (m : pages) : pt_state :=
  PtState m (s_page_cache st) (frames st).
Definition set_cache (st : pt_state) (c : Z) : pt_state :=
  PtState (mem st) c (frames st).

(** [page->next], the first word of a cached page. *)
Definition page_next (m : pages) (p : Z) : outcome Z := rd m p 0.
Definition set_page_next (m : pages) (p q : Z) : outcome pages := wr m p 0 q.

Definition request_pages : Z := 32.

(** [for (int i = 0; i < n - 1; ++i) pages[i].next = &pages[i + 1]], with [n - 1] in [size_t]. *)
Fixpoint link_pages (fuel : nat) (m : pages) (ps i n : Z) : outcome pages :=
  if i <? u64 (n - 1) then
    match fuel with
    | O => Diverge
    | S fuel =>
        let* m := set_page_next m (ps + i * frame_size) (ps + (i + 1) * frame_size) in
        link_pages fuel m ps (i + 1) n
    end
  else Done m.

Definition fill_table_page_cache (st : pt_state) : outcome pt_state :=
  let* (n, phys, f) := fa_allocate (frames st) request_pages in
  let ps := to_virtual phys in
  let* m := link_pages (Z.to_nat request_pages) (mem st) ps 0 n in
  let* m := set_page_next m (u64 (ps + (n - 1) * frame_size)) (s_page_cache st) in
  Done (PtState m ps f).

Definition get_table_page (st : pt_state) : outcome (Z * pt_state) :=
  let* st := if s_page_cache st =? 0 then fill_table_page_cache st else Done st in
  let* _ := kassert (negb (s_page_cache st =? 0)) in
  let p := s_page_cache st in
  let* n := page_next (mem st) p in
  Done (p, PtState (<[p := replicate 512 0]> (mem st)) n (frames st)).

Definition free_table_page (st : pt_state) (p : Z) : outcome pt_state :=
  let* m := set_page_next (mem st) p (s_page_cache st) in
  Done (PtState m p (frames st)).

(** [entry(l)]: the location of the entry, with the tables above made to exist. *)
Fixpoint ensure_levels (ensure : iterator → pt_state → Z → outcome (iterator * pt_state))
    (it : iterator) (st : pt_state) (js : list Z) : outcome (iterator * pt_state) :=
  match js with
  | [] => Done (it, st)
  | i :: js => let* (it, st) := ensure it st i in ensure_levels ensure it st js
  end.

Definition entry_ref_with (ensure : iterator → pt_state → Z → outcome (iterator * pt_state))
    (it : iterator) (st : pt_state) (l : Z) : outcome (Z * Z * iterator * pt_state) :=
  let* (it, st) := ensure_levels ensure it st (seqZ 1 l) in
  let* p := arr_get (m_table it) l in
  let* i := arr_get (m_index it) l in
  Done (p, i, it, st).

(** [ensure_table] calls the non-const [entry(l - 1)], which calls it for the levels above. *)
Fixpoint ensure_table_n (n : nat) (it : iterator) (st : pt_state) (l : Z)
    : outcome (iterator * pt_state) :=
  match n with
  | O => Diverge
  | S n =>
      if (l =? 0) || (to_un pt <? l) then Done (it, st)
      else
        let* (ok, it) := check_table (mem st) it l in
        if (ok : bool) then Done (it, st)
        else
          let* (table, st) := get_table_page st in
          let phys := Z.land table (wnot 64 linear_offset) in
          let* (p, i, it, st) := entry_ref_with (ensure_table_n n) it st (l - 1) in
          let* root_index := arr_get (m_index it) 0 in
          let flags := if root_index <? kernel_root_index then Z.lor table_flags fl_user
                       else table_flags in
          let* it := set_table it l table in
          let* m := wr (mem st) p i (Z.lor (Z.land phys page_mask) flags) in
          Done (it, set_mem st m)
  end.
Definition ensure_table (it : iterator) (st : pt_state) (l : Z) : outcome (iterator * pt_state) :=
  ensure_table_n 4 it st l.

Definition entry_ref (it : iterator) (st : pt_state) (l : level)
    : outcome (Z * Z * iterator * pt_state) :=
  entry_ref_with ensure_table it st (to_un l).

(** [page_table::free]: the loop over the entries below [last], then the table itself.  [n] counts
    the levels from here down. *)
Fixpoint free_entries (free_child : pt_state → Z → outcome pt_state) (l p : Z) (js : list Z)
    (st : pt_state) : outcome pt_state :=
  match js with
  | [] => Done st
  | i :: js =>
      let* e := rd (mem st) p i in
      let* st :=
        if negb (present e) then Done st
        else if (l =? 3) || large l e then
          let* size := arr_get entry_sizes l in
          let* f := fa_free (frames st) (Z.land e page_mask) (page_count size) in
          Done (PtState (mem st) (s_page_cache st) f)
        else
          let* c := get (mem st) p i in
          let* c := deref c in
          free_child st (fst c) in
      free_entries free_child l p js st
  end.

Fixpoint free_n (n : nat) (l p : Z) (st : pt_state) : outcome pt_state :=
  match n with
  | O => Diverge
  | S n =>
      let last := if l =? 0 then kernel_root_index else table_entries in
      let* st := free_entries (λ st c, free_n n (l + 1) c st) l p (seqZ 0 last) st in
      free_table_page st p
  end.
Definition free (l : level) (p : Z) (st : pt_state) : outcome pt_state := free_n 5 (to_un l) p st.

End Tables.
Arguments pt_state : clear implicits.

(** ** The iterator's arithmetic *)

Record it_wf (it : iterator) : Prop := {
  iw_table : length (m_table it) = 4%nat;
  iw_index : length (m_index it) = 4%nat;
  iw_range : Forall (λ i, 0 ≤ i < 512) (m_index it);
}.

(** The number of the page the iterator stands at, counted through all tables. *)
Definition page_number (it : iterator) : Z := foldl (λ a i, 512 * a + i) 0 (m_index it).

(** The number of pages a step of level [l] skips: the reach of one entry of the table above. *)
Definition step_pages (l : level) : Z := 512 ^ (4 - to_un l).

Lemma it_wf_split it :
  it_wf it → ∃ ts i0 i1 i2 i3, it = Iterator ts [i0; i1; i2; i3] ∧ length ts = 4%nat ∧
    0 ≤ i0 < 512 ∧ 0 ≤ i1 < 512 ∧ 0 ≤ i2 < 512 ∧ 0 ≤ i3 < 512.
Proof.
  destruct it as [ts ix]. intros [Ht Hi Hr]. simpl in *.
  destruct ix as [|i0 [|i1 [|i2 [|i3 [|? ?]]]]]; try done.
  exists ts, i0, i1, i2, i3. repeat (apply Forall_cons in Hr as [? Hr]). done.
Qed.

Lemma it_wf_make ts i0 i1 i2 i3 :
  length ts = 4%nat → 0 ≤ i0 < 512 → 0 ≤ i1 < 512 → 0 ≤ i2 < 512 → 0 ≤ i3 < 512 →
  it_wf (Iterator ts [i0; i1; i2; i3]).
Proof. intros. split; simpl; [done..|]. repeat constructor; lia. Qed.

(** Evaluates accesses to the four cells of an iterator. *)
Ltac eval_cells :=
  unfold set_index, set_table, arr_get, arr_set;
  change (Z.to_nat 0) with 0%nat; change (Z.to_nat 1) with 1%nat;
  change (Z.to_nat 2) with 2%nat; change (Z.to_nat 3) with 3%nat;
  change (Z.to_nat 4) with 4%nat;
  cbn -[Z.lor Z.shiftl Z.mul Z.add Z.sub Z.pow Z.eqb Z.ltb Z.div page_number Z.to_nat carry].

(** Joining the index of one more level to an address. *)
Lemma or_index_add A i k :
  0 ≤ i < 512 → 0 ≤ k ≤ 39 → Z.lor (A * 2 ^ (k + 9)) (u64 (Z.shiftl i k)) = (512 * A + i) * 2 ^ k.
Proof.
  intros Hi Hk. pose proof (Z.pow_le_mono_r 2 k 39). pose proof (Z.pow_pos_nonneg 2 k).
  rewrite Z.shiftl_mul_pow2 by lia. assert (i * 2 ^ k < 2 ^ (k + 9)).
  { rewrite Z.pow_add_r by lia. nia. }
  rewrite wrap_small by (unfold is_word; nia). rewrite lor_add_low by nia.
  rewrite Z.pow_add_r by lia. ring.
Qed.

Lemma or_levels_index ts i0 i1 i2 i3 :
  0 ≤ i0 < 512 → 0 ≤ i1 < 512 → 0 ≤ i2 < 512 → 0 ≤ i3 < 512 →
  let get := arr_get (m_index (Iterator ts [i0; i1; i2; i3])) in
  or_levels get [0] 0 = Done (i0 * 2 ^ 39) ∧
  or_levels get [0; 1] 0 = Done ((512 * i0 + i1) * 2 ^ 30) ∧
  or_levels get [0; 1; 2] 0 = Done ((512 * (512 * i0 + i1) + i2) * 2 ^ 21) ∧
  or_levels get [0; 1; 2; 3] 0 =
    Done (page_number (Iterator ts [i0; i1; i2; i3]) * 2 ^ 12).
Proof.
  intros H0 H1 H2 H3. cbn [or_levels m_index]. eval_cells.
  pose proof (or_index_add 0 i0 39 H0) as E0. pose proof (or_index_add i0 i1 30 H1) as E1.
  pose proof (or_index_add (512 * i0 + i1) i2 21 H2) as E2.
  pose proof (or_index_add (512 * (512 * i0 + i1) + i2) i3 12 H3) as E3.
  change (12 + 9 * (3 - 0)) with 39. change (12 + 9 * (3 - 1)) with 30.
  change (12 + 9 * (3 - 2)) with 21. change (12 + 9 * (3 - 3)) with 12.
  change (30 + 9) with 39 in E1. change (21 + 9) with 30 in E2. change (12 + 9) with 21 in E3.
  rewrite Z.mul_0_l, Z.mul_0_r, Z.add_0_l in E0 by lia.
  rewrite E0, E1, E2, E3 by lia. repeat split.
Qed.

Lemma vaddress_spec it :
  it_wf it → vaddress it = Done (canonicalize (page_number it * frame_size)).
Proof.
  intros (ts & i0 & i1 & i2 & i3 & -> & Ht & H0 & H1 & H2 & H3)%it_wf_split.
  unfold vaddress, start. change (seqZ 0 (to_un pt + 1)) with [0; 1; 2; 3].
  by destruct (or_levels_index ts i0 i1 i2 i3) as (_ & _ & _ & ->).
Qed.

Lemma new_iterator_spec virt root :
  it_wf (new_iterator virt root) ∧ m_table (new_iterator virt root) !! 0%nat = Some root ∧
  page_number (new_iterator virt root) = (virt / frame_size) mod 512 ^ 4.
Proof.
  assert (∀ k, 0 ≤ k → u16 (Z.land (Z.shiftr virt k) 0x1ff) = (virt / 2 ^ k) mod 512) as E.
  { intros k Hk. change 0x1ff with (Z.ones 9). rewrite Z.land_ones, Z.shiftr_div_pow2 by lia.
    change (2 ^ 9) with 512. apply wrap_small. unfold is_word.
    pose proof (Z.mod_pos_bound (virt / 2 ^ k) 512). lia. }
  unfold new_iterator. change (seqZ 0 4) with [0; 1; 2; 3]. cbn [fmap list_fmap].
  rewrite !E by lia. change (12 + 9 * (3 - 0)) with 39. change (12 + 9 * (3 - 1)) with 30.
  change (12 + 9 * (3 - 2)) with 21. change (12 + 9 * (3 - 3)) with 12.
  split; [apply it_wf_make; try done; apply Z.mod_pos_bound; lia|]. split; [done|].
  unfold page_number, FrameAllocator.frame_size. simpl. change (Z.pow_pos 2 39) with (2 ^ 39).
  change (Z.pow_pos 2 30) with (2 ^ 30).  change (Z.pow_pos 2 21) with (2 ^ 21).
  change (Z.pow_pos 2 12) with (2 ^ 12). change (Z.pow_pos 512 4) with (2 ^ 36).
  replace (virt / 2 ^ 21) with (virt / 2 ^ 12 / 512) by (rewrite Z.div_div by lia; done).
  replace (virt / 2 ^ 30) with (virt / 2 ^ 12 / 512 / 512) by (rewrite !Z.div_div by lia; done).
  replace (virt / 2 ^ 39) with (virt / 2 ^ 12 / 512 / 512 / 512) by (rewrite !Z.div_div by lia; done).
  change 4096 with (2 ^ 12). generalize (virt / 2 ^ 12). intros q. Z.div_mod_to_equations; lia.
Qed.

(** One [++] of the carry loop. *)
Lemma carry_S ts ix j x :
  ix !! j = Some x → 0 ≤ x < 512 →
  carry (Iterator ts ix) (S j) =
    if x =? 511 then
      if (j =? 0)%nat then Panic else carry (Iterator ts (<[j := 0]> ix)) j
    else Done (Iterator ts (<[j := x + 1]> ix)).
Proof.
  intros Hj Hx. pose proof (lookup_lt_Some _ _ _ Hj). cbn [carry m_index].
  rewrite (proj2 (arr_get_Done _ _ x)) by (rewrite Nat2Z.id; split; [lia|done]).
  rewrite bind_Done. rewrite wrap_small by (unfold is_word; lia). unfold set_index. cbn [m_index m_table].
  rewrite arr_set_Done, Nat2Z.id by lia. cbn [mbind outcome_bind m_index].
  destruct (Z.eqb_spec (x + 1) 512), (Z.eqb_spec x 511); try lia; [|done].
  rewrite arr_set_Done, Nat2Z.id by (rewrite ?length_insert; lia).
  rewrite list_insert_insert_eq. by destruct j; [|rewrite (proj2 (Z.eqb_neq _ _)) by lia].
Qed.

(** [next(l)] goes to the start of what the next entry of the table above [l] maps, and panics at
    the end of memory. *)
Lemma next_spec it l :
  it_wf it → l ≠ pml4 →
  let n := (page_number it / step_pages l + 1) * step_pages l in
  if bool_decide (n < 512 ^ 4)
  then ∃ it', next it l = Done it' ∧ it_wf it' ∧ m_table it' = m_table it ∧ page_number it' = n
  else next it l = Panic.
Proof.
  intros (ts & i0 & i1 & i2 & i3 & -> & Ht & H0 & H1 & H2 & H3)%it_wf_split Hl.
  assert (∀ j0 j1 j2 j3, page_number (Iterator ts [j0; j1; j2; j3]) =
    512 * (512 * (512 * j0 + j1) + j2) + j3) as En.
  { intros. unfold page_number. cbn [m_index foldl]. ring. }
  unfold next. destruct l; [done|..]; cbn [to_un];
    [change (clear_levels _ _) with (Done (Iterator ts [i0; 0; 0; 0]))
    |change (clear_levels _ _) with (Done (Iterator ts [i0; i1; 0; 0]))
    |change (clear_levels _ _) with (Done (Iterator ts [i0; i1; i2; 0]))
    |change (clear_levels _ _) with (Done (Iterator ts [i0; i1; i2; i3]))];
    match goal with |- context [kassert (?k <=? 4)] =>
      change (kassert (negb (k =? 0))) with (Done ()); change (kassert (k <=? 4)) with (Done ())
    end; rewrite !bind_Done;
    match goal with |- context [Z.to_nat ?k] =>
      let n := eval vm_compute in (Z.to_nat k) in change (Z.to_nat k) with n end;
    repeat (erewrite carry_S; [|reflexivity|lia];
            match goal with |- context [?x =? 511] => destruct (Z.eqb_spec x 511); subst end;
            cbn [Nat.eqb list_insert insert]);
    rewrite En; unfold step_pages in *; cbn [to_un] in *;
    change (512 ^ (4 - 1)) with 134217728 in *; change (512 ^ (4 - 2)) with 262144 in *;
    change (512 ^ (4 - 3)) with 512 in *; change (512 ^ (4 - 4)) with 1 in *;
    change (512 ^ 4) with 68719476736 in *;
    case_bool_decide as Hn; try reflexivity.
 all: try (exfalso; Z.div_mod_to_equations; lia).
  all: eexists; split; [reflexivity|]; split; [apply it_wf_make; [done|lia..]|];
    split; [done|]; rewrite En; Z.div_mod_to_equations; lia.
Qed.

Lemma canonicalize_low x : 0 ≤ x < 2 ^ 47 → canonicalize x = x.
Proof. intros Hx. unfold canonicalize. by rewrite (word_testbit_high 47) by (done || lia). Qed.

Lemma canonicalize_high x : 2 ^ 47 ≤ x < 2 ^ 48 → canonicalize x = x + (2 ^ 64 - 2 ^ 48).
Proof.
  intros Hx. unfold canonicalize. rewrite (proj2 (Z.testbit_true x 47 ltac:(lia))).
  - rewrite Z.lor_comm, Z.shiftl_mul_pow2, lor_add_low by lia. lia.
  - replace (x / 2 ^ 47) with 1; [done|]. Z.div_mod_to_equations; lia.
Qed.

(** [k] times [++it]. *)
Fixpoint increments (k : nat) (it : iterator) : outcome iterator :=
  match k with O => Done it | S k => let* it := increment it in increments k it end.

Lemma increments_spec k it :
  it_wf it →
  if bool_decide (page_number it + Z.of_nat k < 512 ^ 4)
  then ∃ it', increments k it = Done it' ∧ it_wf it' ∧ m_table it' = m_table it ∧
    page_number it' = page_number it + Z.of_nat k
  else page_number it < 512 ^ 4 → increments k it = Panic.
Proof.
  revert it. induction k as [|k IH]; intros it Hwf; cbn [increments].
  - case_bool_decide; [|lia]. exists it. by rewrite Z.add_0_r.
  - pose proof (next_spec it page Hwf ltac:(done)) as Hn. cbv zeta in Hn.
    change (step_pages page) with 1 in Hn.
    rewrite Z.div_1_r, Z.mul_1_r in Hn. unfold increment.
    destruct (bool_decide_reflect (page_number it + Z.of_nat (S k) < 512 ^ 4)) as [Hk|Hk].
    + rewrite bool_decide_eq_true_2 in Hn by lia. destruct Hn as (it1 & -> & Hwf1 & Et & En).
      specialize (IH it1 Hwf1). rewrite bool_decide_eq_true_2 in IH by lia.
      destruct IH as (it2 & E2 & Hwf2 & Et2 & En2). exists it2. rewrite bind_Done.
      split; [done|]. split; [done|]. split; [by rewrite Et2|lia].
    + intros Hlt. destruct (bool_decide_reflect (page_number it + 1 < 512 ^ 4)) as [Hone|Hone].
      * destruct Hn as (it1 & -> & Hwf1 & Et & En). specialize (IH it1 Hwf1).
        rewrite bool_decide_eq_false_2 in IH by lia. rewrite bind_Done. apply IH. lia.
      * by rewrite Hn.
Qed.

(** an iterator made for a canonical address and incremented [k] times stands at the page
    [k] pages after the page of that address, in the lower as in the upper half of memory:
    splitting an address into indices, carrying between levels and joining them again with the
    sign extension is address arithmetic.  Running off the end of memory panics. *)
Theorem iterator_visits virt root k :
  0 ≤ virt < 2 ^ 64 →
  (virt + Z.of_nat k * frame_size < 2 ^ 47 ∨
   (2 ^ 64 - 2 ^ 47 ≤ virt ∧ virt + Z.of_nat k * frame_size < 2 ^ 64) →
   ∃ it, increments k (new_iterator virt root) = Done it ∧ it_wf it ∧
     m_table it !! 0%nat = Some root ∧
     vaddress it = Done (virt - virt mod frame_size + Z.of_nat k * frame_size)) ∧
  (2 ^ 64 - 2 ^ 47 ≤ virt → 2 ^ 64 ≤ virt + Z.of_nat k * frame_size →
   increments k (new_iterator virt root) = Panic).
Proof.
  intros Hv. destruct (new_iterator_spec virt root) as (Hwf & Hr & Hn).
  pose proof (increments_spec k _ Hwf) as Hk. rewrite Hn in Hk.
  unfold FrameAllocator.frame_size in *. split.
  - intros Hhalf. rewrite bool_decide_eq_true_2 in Hk by (Z.div_mod_to_equations; lia).
    destruct Hk as (it & E & Hwf' & Et & Ep). exists it. split; [done|]. split; [done|].
    split; [by rewrite Et|]. rewrite vaddress_spec by done. rewrite Ep. f_equal.
    unfold FrameAllocator.frame_size.
    destruct Hhalf as [Hlo|[Hhi Hend]].
    + rewrite canonicalize_low; Z.div_mod_to_equations; lia.
    + rewrite canonicalize_high; Z.div_mod_to_equations; lia.
  - intros Hhi Hend. rewrite bool_decide_eq_false_2 in Hk by (Z.div_mod_to_equations; lia).
    apply Hk. Z.div_mod_to_equations; lia.
Qed.

Lemma iterator_visits_witness :
  increments 3 (new_iterator 0xffffffffffffe123 5) = Panic.
Proof. apply (iterator_visits 0xffffffffffffe123 5 3); unfold FrameAllocator.frame_size; lia. Defined.

Lemma or_levels_ext f g js a :
  (∀ i, i ∈ js → f i = g i) → or_levels f js a = or_levels g js a.
Proof.
  revert a. induction js as [|i js IH]; intros a Hfg; [done|]. simpl. rewrite Hfg by left.
  destruct (g i); [|done..]. simpl. apply IH. intros. apply Hfg. by right.
Qed.

(** [end(l)] never adds the 1 it means to, since its loop stops before level [l]: it returns
    the address the entry above starts at, [start] of the level above, not an ending address. *)
Theorem end_is_start it l l' :
  to_un l = to_un l' + 1 → end_ it l = start it l'.
Proof.
  intros E. unfold end_, start. rewrite E. rewrite (proj2 (Z.eqb_neq _ _)) by (destruct l'; simpl; lia).
  simpl. rewrite (or_levels_ext _ (arr_get (m_index it))); [done|].
  intros i Hi%elem_of_seqZ. rewrite (proj2 (Z.eqb_neq i _)) by lia.
  destruct (arr_get (m_index it) i); [|done..]. simpl. by rewrite Z.add_0_r.
Qed.

Lemma end_is_start_witness :
  end_ (new_iterator 0x40201000 5) pt = Done 0x40200000 ∧
  start (new_iterator 0x40201000 5) pd = Done 0x40200000.
Proof. rewrite (end_is_start _ pt pd eq_refl). split; vm_compute; reflexivity. Defined.

(** ** What the tables say *)

(** The number of a level as an index into a path. *)
Abbreviation lv l := (Z.to_nat (to_un l)).

Definition ent (m : pages) (p i : Z) : Z := znth (default [] (m !! p)) i.

Definition is_table (m : pages) (p : Z) : Prop := ∃ t, m !! p = Some t ∧ length t = 512%nat.

(** The table reached from [p] along a list of indices. *)
Fixpoint table_at (m : pages) (p : Z) (path : list Z) : option Z :=
  match path with
  | [] => Some p
  | i :: path => if present (ent m p i) then table_at m (child (ent m p i)) path else None
  end.

(** The entry the processor uses for the address with the indices [path], from a table of level
    [l]: a large page ends the walk early, and 0 stands for no entry. *)
Fixpoint pte (m : pages) (l p : Z) (path : list Z) : Z :=
  match path with
  | [] => 0
  | [i] => ent m p i
  | i :: path =>
      let e := ent m p i in
      if present e then if large l e then e else pte m (l + 1) (child e) path else 0
  end.

(** No large page is met on the way. *)
Fixpoint no_large (m : pages) (l p : Z) (path : list Z) : bool :=
  match path with
  | [] | [_] => true
  | i :: path =>
      let e := ent m p i in
      if present e then negb (large l e) && no_large m (l + 1) (child e) path else true
  end.

Lemma rd_ent m p i : is_table m p → 0 ≤ i < 512 → rd m p i = Done (ent m p i).
Proof.
  intros (t & Ht & Hl) Hi. unfold rd, ent. rewrite Ht. simpl. apply arr_get_znth. lia.
Qed.

Lemma wr_Done m p i v t :
  m !! p = Some t → length t = 512%nat → 0 ≤ i < 512 →
  wr m p i v = Done (<[p := <[Z.to_nat i := v]> t]> m).
Proof. intros Ht Hl Hi. unfold wr. rewrite Ht. simpl. by rewrite arr_set_Done by lia. Qed.

Lemma ent_write m p i v t q j :
  m !! p = Some t → length t = 512%nat → 0 ≤ i < 512 →
  ent (<[p := <[Z.to_nat i := v]> t]> m) q j =
    if decide (q = p ∧ j = i) then v else ent m q j.
Proof.
  intros Ht Hl Hi. unfold ent. destruct (decide (q = p)) as [->|Hne].
  - rewrite lookup_insert_eq, Ht. simpl. rewrite znth_insert by lia. repeat case_decide; naive_solver.
  - rewrite lookup_insert_ne by done. by rewrite decide_False by tauto.
Qed.

Lemma ent_zero m p i : m !! p = Some (replicate 512 0) → ent m p i = 0.
Proof.
  intros Hz. unfold ent. rewrite Hz. apply (znth_Forall (λ x, x = 0)); [done|].
  by apply Forall_replicate.
Qed.

Lemma table_at_app m p a b :
  table_at m p (a ++ b) = match table_at m p a with Some q => table_at m q b | None => None end.
Proof.
  revert p. induction a as [|i a IH]; intros p; [done|]. simpl. by case_match; [rewrite IH|].
Qed.

Lemma arr_get_nat {A} (l : list A) j x : l !! j = Some x → arr_get l (Z.of_nat j) = Done x.
Proof. intros. apply arr_get_Done. rewrite Nat2Z.id. split; [lia|done]. Qed.

Lemma take_snoc {A} (l : list A) j x : l !! j = Some x → take (S j) l = take j l ++ [x].
Proof. apply take_S_r. Qed.

(** ** Reading an entry *)

Section Walk.
  Context (m : pages) (r : Z) (ix : list Z).
  Context (Hix : length ix = 4%nat) (Hrange : Forall (λ i, 0 ≤ i < 512) ix).
  Context (Htab : ∀ j p, (j <= 3)%nat → table_at m r (take j ix) = Some p → is_table m p).

(** The iterator stands at the indices [ix] of the tables under [r]. *)
Definition at_root (it : iterator) : Prop :=
  m_index it = ix ∧ length (m_table it) = 4%nat ∧ m_table it !! 0%nat = Some r.

(** The iterator's pointers are right down to level [l]. *)
Definition synced (it : iterator) (l : nat) : Prop :=
  ∀ j, (j <= l)%nat → ∃ p, m_table it !! j = Some p ∧ table_at m r (take j ix) = Some p.

Definition entry_at (l : nat) : Z :=
  match table_at m r (take l ix) with
  | Some p => ent m p (nth l ix 0)
  | None => 0
  end.

Definition check_ok (check : iterator → Z → outcome (bool * iterator)) (l : nat) : Prop :=
  ∀ j it, (1 <= j <= l)%nat → at_root it → ∃ b it',
    check it (Z.of_nat j) = Done (b, it') ∧ at_root it' ∧
    if (b : bool) then synced it' j else table_at m r (take j ix) = None.

Lemma synced_0 it : at_root it → synced it 0.
Proof. intros (_ & _ & Hr) j Hj. replace j with 0%nat by lia. by exists r. Qed.

Lemma table_at_None_le j k :
  (j <= k)%nat → table_at m r (take j ix) = None → table_at m r (take k ix) = None.
Proof.
  intros Hjk Hn. replace (take k ix) with (take j ix ++ take (k - j) (drop j ix)).
  - by rewrite table_at_app, Hn.
  - rewrite take_take_drop. f_equal. lia.
Qed.

Lemma index_at l : (l <= 3)%nat → ix !! l = Some (nth l ix 0) ∧ 0 ≤ nth l ix 0 < 512.
Proof.
  intros Hl. destruct (lookup_lt_is_Some_2 ix l) as [x Hx]; [lia|].
  rewrite (nth_lookup_Some _ _ _ _ Hx). split; [done|]. by eapply Forall_lookup_1 in Hrange.
Qed.

Lemma table_at_S l :
  (l < 3)%nat → table_at m r (take (S l) ix) =
    if present (entry_at l) then Some (child (entry_at l)) else None.
Proof.
  intros Hl. destruct (index_at l) as [Hx _]; [lia|]. unfold entry_at.
  rewrite (take_snoc _ _ _ Hx), table_at_app.
  destruct (table_at m r (take l ix)); [|done]. simpl. done.
Qed.

Lemma check_levels_spec check l it :
  check_ok check l → at_root it → ∃ b it',
    check_levels check it (seqZ 1 (Z.of_nat l)) = Done (b, it') ∧ at_root it' ∧
    if (b : bool) then synced it' l else table_at m r (take l ix) = None.
Proof.
  intros Hc Hit. enough (∀ k a it, (a + k = l)%nat → at_root it → synced it a → ∃ b it',
    check_levels check it (seqZ (Z.of_nat a + 1) (Z.of_nat k)) = Done (b, it') ∧ at_root it' ∧
    if (b : bool) then synced it' l else table_at m r (take l ix) = None) as Hgen.
  { apply (Hgen l 0%nat it); [lia|done|by apply synced_0]. }
  clear it Hit. induction k as [|k IH]; intros a it Hak Hit Hs.
  - exists true, it. split; [done|]. split; [done|]. by replace l with a by lia.
  - rewrite seqZ_cons by lia. cbn [check_levels].
    destruct (Hc (S a) it) as (b & it1 & E & Hit1 & Hb); [lia|done|].
    replace (Z.of_nat a + 1) with (Z.of_nat (S a)) by lia. rewrite E, bind_Done.
    destruct b.
    + replace (Z.succ (Z.of_nat (S a))) with (Z.of_nat (S a) + 1) by lia.
      replace (Z.pred (Z.of_nat (S k))) with (Z.of_nat k) by lia. apply IH; [lia|done..].
    + exists false, it1. split; [done|]. split; [done|]. by apply (table_at_None_le (S a)); [lia|].
Qed.

Lemma entry_with_spec check l it :
  (l <= 3)%nat → check_ok check l → at_root it → ∃ it',
    entry_with check m it (Z.of_nat l) = Done (entry_at l, it') ∧ at_root it' ∧
    (table_at m r (take l ix) ≠ None → synced it' l).
Proof.
  intros Hl Hc Hit. unfold entry_with, entry_at.
  destruct (check_levels_spec check l it Hc Hit) as (b & it' & -> & Hit' & Hb).
  rewrite bind_Done. destruct b.
  - destruct (Hb l) as (p & Hp & Et); [done|]. destruct (index_at l Hl) as [Hx Hr].
    pose proof Hit' as (Ei & _ & _). rewrite Ei, Et.
    rewrite (arr_get_nat _ _ _ Hp), (arr_get_nat _ _ _ Hx), !bind_Done.
    rewrite rd_ent by (try done; by eapply Htab). by exists it'.
  - rewrite Hb. exists it'. done.
Qed.

Lemma set_table_spec it l p :
  at_root it → (1 <= l <= 3)%nat → ∃ it',
    set_table it (Z.of_nat l) p = Done it' ∧ at_root it' ∧ m_table it' !! l = Some p ∧
    ∀ j, j ≠ l → m_table it' !! j = m_table it !! j.
Proof.
  intros (Hi & Hl & Hr) Hj. unfold set_table. rewrite arr_set_Done, Nat2Z.id by lia.
  eexists. split; [done|]. simpl. split; [|split].
  - split; [done|]. simpl. rewrite length_insert. split; [done|]. by rewrite list_lookup_insert_ne by lia.
  - apply list_lookup_insert_eq. lia.
  - intros j Hne. by rewrite list_lookup_insert_ne.
Qed.

Lemma check_table_n_spec n l : (l <= 3)%nat → (l <= n)%nat → check_ok (check_table_n n m) l.
Proof.
  revert l. induction n as [|n IH]; intros l Hl Hln j it Hj Hit; [lia|].
  cbn [check_table_n]. change (to_un pt) with 3.
  rewrite (proj2 (Z.eqb_neq _ 0)), (proj2 (Z.ltb_ge _ _)) by lia. cbn [orb].
  destruct (entry_with_spec (check_table_n n m) (j - 1) it) as (it1 & E & Hit1 & Hs);
    [lia|apply IH; lia|done|].
  replace (Z.of_nat j - 1) with (Z.of_nat (j - 1)) by lia. rewrite E, bind_Done.
  pose proof (table_at_S (j - 1) ltac:(lia)) as Hj1. replace (S (j - 1)) with j in Hj1 by lia.
  unfold present in Hj1. destruct (Z.testbit (entry_at (j - 1)) 0) eqn:Eb.
  - destruct (set_table_spec it1 j (child (entry_at (j - 1))) Hit1) as (it2 & -> & Hit2 & Hp & Ho); [lia|].
    exists true, it2. split; [done|]. split; [done|]. intros k Hk.
    destruct (decide (k = j)) as [->|Hne]; [by eexists|]. rewrite Ho by done. apply Hs; [|lia].
    intros Hn. by rewrite (table_at_None_le (j - 1) j) in Hj1 by (done || lia).
  - by exists false, it1.
Qed.

Lemma check_table_spec l : (l <= 3)%nat → check_ok (check_table m) l.
Proof. intros. apply check_table_n_spec; lia. Qed.

Lemma entry_spec it l :
  at_root it → to_un l ≤ 3 → ∃ it',
    entry m it l = Done (entry_at (Z.to_nat (to_un l)), it') ∧ at_root it'.
Proof.
  intros Hit Hl. unfold entry. assert (0 ≤ to_un l) by (destruct l; simpl; lia).
  destruct (entry_with_spec (check_table m) (Z.to_nat (to_un l)) it) as (it' & E & Hit' & _);
    [lia|apply check_table_spec; lia|done|]. rewrite Z2Nat.id in E by done. by exists it'.
Qed.

Lemma depth_loop_spec ls it :
  at_root it → Forall (λ l, to_un l ≤ 3) ls → ∃ l it',
    depth_loop m it ls = Done (l, it') ∧ at_root it' ∧
    ((∃ pre post, ls = pre ++ l :: post ∧
        (∀ k, k ∈ pre → present (entry_at (lv k)) = true) ∧ present (entry_at (lv l)) = false) ∨
     (l = pt ∧ ∀ k, k ∈ ls → present (entry_at (lv k)) = true)).
Proof.
  revert it. induction ls as [|l ls IH]; intros it Hit Hls; cbn [depth_loop].
  - exists pt, it. split; [done|]. split; [done|]. right. split; [done|]. by intros k ?%not_elem_of_nil.
  - apply Forall_cons in Hls as [Hl Hls].
    destruct (entry_spec it l Hit Hl) as (it1 & -> & Hit1). rewrite bind_Done.
    change (Z.testbit (entry_at (Z.to_nat (to_un l))) 0) with (present (entry_at (lv l))).
    destruct (present (entry_at (lv l))) eqn:E.
    + destruct (IH it1 Hit1 Hls) as (l' & it' & -> & Hit' & Hd). exists l', it'.
      split; [done|]. split; [done|]. destruct Hd as [(pre & post & -> & Hpre & Hl')|[-> Hall]].
      * left. exists (l :: pre), post. split; [done|]. split; [|done].
        by intros k [->|?]%elem_of_cons; auto.
      * right. split; [done|]. by intros k [->|?]%elem_of_cons; auto.
    + exists l, it1. split; [done|]. split; [done|]. left. exists [], ls.
      split; [done|]. split; [|done]. by intros k ?%not_elem_of_nil.
Qed.

End Walk.

(** Without large pages on the way, the processor's entry is the one the iterator finds. *)
Lemma pte_entry_at m r ix :
  length ix = 4%nat → no_large m 0 r ix = true → pte m 0 r ix = entry_at m r ix 3.
Proof.
  intros Hl. destruct ix as [|i0 [|i1 [|i2 [|i3 [|? ?]]]]]; try done. unfold entry_at.
  cbn [pte no_large take table_at nth]. change (0 + 1) with 1. change (1 + 1) with 2.
  destruct (present (ent m r i0)); [|done].
  destruct (large 0 (ent m r i0)); [done|]. cbn [negb andb].
  destruct (present (ent m _ i1)); [|done]. destruct (large 1 _); [done|]. cbn [negb andb].
  destruct (present (ent m _ i2)); [|done]. by destruct (large 2 _).
Qed.

(** ** Addresses of tables *)

Definition table_addr (p : Z) : Prop :=
  ∃ a, 0 ≤ a < phys_limit ∧ a mod frame_size = 0 ∧ p = linear_offset + a.

Lemma to_virtual_add a : 0 ≤ a < phys_limit → to_virtual a = linear_offset + a.
Proof.
  intros Ha. unfold to_virtual. rewrite Z.lor_comm.
  change linear_offset with (262143 * 2 ^ 46). by apply lor_add_low.
Qed.

(** The entry [ensure_table] makes for a table at physical address [a]. *)
Lemma new_entry_spec l a flags :
  0 ≤ a < phys_limit → a mod frame_size = 0 → flags = table_flags ∨ flags = Z.lor table_flags fl_user →
  let e := Z.lor (Z.land (Z.land (linear_offset + a) (wnot 64 linear_offset)) page_mask) flags in
  present e = true ∧ large l e = false ∧ child e = linear_offset + a.
Proof.
  intros Ha Hal Hf. assert (0 ≤ flags < 2 ^ 12) as Hf12 by (destruct Hf; subst; done).
  assert (Z.land (linear_offset + a) (wnot 64 linear_offset) = a) as ->.
  { rewrite <- to_virtual_add by done. unfold to_virtual. apply Z.bits_inj'. intros i Hi.
    rewrite Z.land_spec, Z.lor_spec, wnot_testbit by lia.
    change linear_offset with (Z.shiftl (Z.ones 18) 46). rewrite Z.shiftl_spec by done.
    destruct (Z.ltb_spec i 46).
    - rewrite (Z.testbit_neg_r _ (i - 46)), orb_false_r by lia.
      rewrite (proj2 (Z.ltb_lt i 64)) by lia. by rewrite andb_true_r.
    - rewrite (word_testbit_high 46 a), Z.testbit_ones_nonneg by (done || lia).
      zcases; simpl; try lia; done. }
  assert (is_u64 a) by (unfold is_word, phys_limit in *; lia).
  replace (Z.land a page_mask) with a by (by rewrite <- (mask_aligned a 0), Z.lor_0_r at 1).
  cbv zeta. unfold present, large, child. rewrite !Z.lor_spec, mask_aligned by done.
  rewrite (aligned_low a 0), (aligned_low a 7) by (done || lia). split; [destruct Hf; by subst|]. split.
  - destruct Hf; subst; apply andb_false_r.
  - rewrite Z.lor_comm. by apply to_virtual_add.
Qed.

(** ** The invariant

    [own] gives each page in use as a table the indices that lead to it; pages with the empty list
    are roots.  Several roots may share tables at the same place, as all address spaces share the
    kernel's.  [L] is the list of cached pages. *)

Section Invariant.
  Context {F : Type} {FS : FrameSource F} {FL : FrameLaws F}.
  Implicit Types (st : pt_state F) (own : gmap Z (list Z)).

Fixpoint chain (m : pages) (c : Z) (L : list Z) : Prop :=
  match L with
  | [] => c = 0
  | p :: L => c = p ∧ is_table m p ∧ chain m (ent m p 0) L
  end.

Record own_ok (own : gmap Z (list Z)) (m : pages) : Prop := {
  oo_table : ∀ p path, own !! p = Some path → table_addr p ∧ is_table m p ∧ (length path <= 3)%nat;
  oo_child : ∀ p path i, own !! p = Some path → (length path < 3)%nat → 0 ≤ i < 512 →
    present (ent m p i) = true → large (Z.of_nat (length path)) (ent m p i) = false →
    own !! child (ent m p i) = Some (path ++ [i]);
}.

Record pt_inv own (L : list Z) st : Prop := {
  pi_own : own_ok own (mem st);
  pi_chain : chain (mem st) (s_page_cache st) L;
  pi_nodup : NoDup L;
  pi_cached : ∀ p, p ∈ L → table_addr p ∧ own !! p = None;
  pi_ok : fa_ok (frames st);
  pi_avail : ∀ a, fa_avail (frames st) a →
    is_table (mem st) (linear_offset + a) ∧ own !! (linear_offset + a) = None ∧
    linear_offset + a ∉ L;
}.

Lemma table_addr_pos p : table_addr p → 0 < p < 2 ^ 64.
Proof. intros (a & Ha & _ & ->). unfold linear_offset, phys_limit in *. lia. Qed.

Lemma is_table_insert m p t q : length t = 512%nat → is_table m q → is_table (<[p := t]> m) q.
Proof.
  intros Hl (u & Hu & Hul). destruct (decide (q = p)) as [->|].
  - exists t. by rewrite lookup_insert_eq.
  - exists u. by rewrite lookup_insert_ne.
Qed.

Lemma ent_insert_ne m p t q i : q ≠ p → ent (<[p := t]> m) q i = ent m q i.
Proof. intros. unfold ent. by rewrite lookup_insert_ne. Qed.

(** A change of pages that are not in use as tables keeps the tables as they are. *)
Lemma own_ok_same own m m' :
  own_ok own m → (∀ p, own !! p ≠ None → m' !! p = m !! p) → own_ok own m'.
Proof.
  intros [Ht Hc] Hsame. assert (∀ p path i, own !! p = Some path → ent m' p i = ent m p i) as He.
  { intros p path i Hp. unfold ent. by rewrite Hsame by congruence. }
  split.
  - intros p path Hp. destruct (Ht _ _ Hp) as (? & Htab & ?). split; [done|]. split; [|done].
    unfold is_table. by rewrite Hsame by congruence.
  - intros p path i Hp. rewrite (He _ _ i Hp). by apply Hc.
Qed.

Lemma chain_same m m' c L :
  chain m c L → (∀ p, p ∈ L → m' !! p = m !! p) → chain m' c L.
Proof.
  revert c. induction L as [|p L IH]; intros c Hc Hs; [done|]. destruct Hc as (-> & Ht & Hc). simpl.
  assert (m' !! p = m !! p) as E by (apply Hs; left). split; [done|]. unfold ent, is_table in *.
  rewrite E. split; [done|]. apply IH; [done|]. intros. apply Hs. by right.
Qed.

Lemma chain_tables m c L p : chain m c L → p ∈ L → is_table m p.
Proof.
  revert c. induction L as [|q L IH]; intros c Hc Hp; [by apply not_elem_of_nil in Hp|].
  destruct Hc as (_ & Ht & Hc). apply elem_of_cons in Hp as [->|Hp]; [done|by eapply IH].
Qed.

(** ** The page cache *)

(** Page [k] of a run of pages. *)
Definition pg (ps k : Z) : Z := ps + k * frame_size.

Lemma pg_inj ps j k : pg ps j = pg ps k → j = k.
Proof. unfold pg, FrameAllocator.frame_size. lia. Qed.

Lemma set_next_spec m p q :
  is_table m p → ∃ m', set_page_next m p q = Done m' ∧ ent m' p 0 = q ∧ is_table m' p ∧
    ∀ x, x ≠ p → m' !! x = m !! x.
Proof.
  intros (t & Ht & Hl). unfold set_page_next. rewrite (wr_Done _ _ _ _ t) by (done || lia).
  eexists. split; [done|]. split; [|split].
  - rewrite (ent_write _ _ _ _ t) by (done || lia). by rewrite decide_True.
  - eexists. rewrite lookup_insert_eq. split; [done|]. by rewrite length_insert.
  - intros x Hx. by rewrite lookup_insert_ne.
Qed.

Lemma same_table m m' p : m' !! p = m !! p → is_table m p → is_table m' p.
Proof. intros E (t & Ht & Hl). exists t. by rewrite E. Qed.

Lemma same_ent m m' p i : m' !! p = m !! p → ent m' p i = ent m p i.
Proof. intros E. unfold ent. by rewrite E. Qed.

Lemma link_pages_spec fuel m ps i n :
  0 ≤ i ≤ n - 1 → n - 1 - i ≤ Z.of_nat fuel → n < 64 →
  (∀ k, 0 ≤ k < n → is_table m (pg ps k)) →
  ∃ m', link_pages fuel m ps i n = Done m' ∧
    (∀ x, (∀ k, i ≤ k < n - 1 → x ≠ pg ps k) → m' !! x = m !! x) ∧
    (∀ k, i ≤ k < n - 1 → is_table m' (pg ps k) ∧ ent m' (pg ps k) 0 = pg ps (k + 1)).
Proof.
  revert m i. induction fuel as [|fuel IH]; intros m i Hi Hf Hn Ht; simpl;
    rewrite (wrap_small 64 (n - 1)) by (unfold is_word; lia); destruct (Z.ltb_spec i (n - 1)); try lia.
  1, 3: exists m; split; [done|]; split; [done|]; intros; lia.
  destruct (set_next_spec m (pg ps i) (pg ps (i + 1))) as (m1 & E1 & He & Ht1 & Hs1); [apply Ht; lia|].
  fold (pg ps i) (pg ps (i + 1)). rewrite E1, bind_Done.
  destruct (IH m1 (i + 1)) as (m2 & E2 & Hs2 & Hk2); [lia..| |].
  { intros k Hk. destruct (decide (k = i)) as [->|Hne]; [done|].
    eapply same_table; [apply Hs1; by intros ?%pg_inj|by apply Ht]. }
  exists m2. split; [done|]. split.
  - intros x Hx. rewrite Hs2, Hs1; [done|apply Hx; lia|intros; apply Hx; lia].
  - intros k Hk. destruct (decide (k = i)) as [->|]; [|apply Hk2; lia].
    assert (m2 !! pg ps i = m1 !! pg ps i) as E by (apply Hs2; intros k' ? ?%pg_inj; lia).
    by rewrite (same_ent _ _ _ _ E); split; [eapply same_table|].
Qed.

Lemma chain_run m ps i n c L :
  0 ≤ i < n → (∀ k, i ≤ k < n → is_table m (pg ps k)) →
  (∀ k, i ≤ k < n - 1 → ent m (pg ps k) 0 = pg ps (k + 1)) → ent m (pg ps (n - 1)) 0 = c →
  chain m c L → chain m (pg ps i) ((pg ps <$> seqZ i (n - i)) ++ L).
Proof.
  intros Hi Ht Hk Hl Hc. remember (Z.to_nat (n - 1 - i)) as d eqn:Ed.
  revert i Hi Ht Hk Ed. induction d as [|d IH]; intros i Hi Ht Hk Ed; rewrite seqZ_cons by lia.
  - replace (Z.pred (n - i)) with 0 by lia. simpl. split; [done|]. split; [apply Ht; lia|].
    by replace i with (n - 1) by lia; rewrite Hl.
  - cbn [fmap list_fmap app chain]. split; [done|]. split; [apply Ht; lia|]. rewrite Hk by lia.
    replace (Z.pred (n - i)) with (n - (i + 1)) by lia. replace (Z.succ i) with (i + 1) by lia.
    apply IH; [lia| | |lia]; intros; [apply Ht|apply Hk]; lia.
Qed.

Lemma fill_pages m ps n c L :
  0 < n < 33 → (∀ k, 0 ≤ k < n → is_table m (pg ps k)) → chain m c L →
  (∀ k, 0 ≤ k < n → pg ps k ∉ L) →
  ∃ m1 m', link_pages (Z.to_nat request_pages) m ps 0 n = Done m1 ∧
    set_page_next m1 (pg ps (n - 1)) c = Done m' ∧
    (∀ x, (∀ k, 0 ≤ k < n → x ≠ pg ps k) → m' !! x = m !! x) ∧
    chain m' ps ((pg ps <$> seqZ 0 n) ++ L).
Proof.
  intros Hn Ht Hc HL. destruct (link_pages_spec (Z.to_nat request_pages) m ps 0 n)
    as (m1 & E1 & Hs1 & Hk1); [lia|unfold request_pages; lia..|done|].
  destruct (set_next_spec m1 (pg ps (n - 1)) c) as (m2 & E2 & He & Ht2 & Hs2).
  { eapply same_table; [apply Hs1; intros k ? ?%pg_inj; lia|apply Ht; lia]. }
  exists m1, m2. split; [done|]. split; [done|].
  assert (∀ x, (∀ k, 0 ≤ k < n → x ≠ pg ps k) → m2 !! x = m !! x) as Hs.
  { intros x Hx. rewrite Hs2 by (apply Hx; lia). apply Hs1. intros. apply Hx. lia. }
  split; [done|]. replace ps with (pg ps 0) at 1 by (unfold pg; lia).
  assert (∀ k, 0 ≤ k < n - 1 → m2 !! pg ps k = m1 !! pg ps k) as Hs2'.
  { intros k Hk. apply Hs2. intros ?%pg_inj. lia. }
  rewrite <- (Z.sub_0_r n). apply (chain_run _ _ _ n c); [lia| | |done|].
  - intros k Hk. destruct (decide (k = n - 1)) as [->|]; [done|].
    eapply same_table; [apply Hs2'; lia|apply Hk1; lia].
  - intros k Hk. rewrite (same_ent _ _ _ _ (Hs2' k ltac:(lia))). apply Hk1. lia.
  - eapply chain_same; [done|]. intros p Hp. apply Hs. intros k Hk ->. by apply (HL k).
Qed.

Lemma fill_spec own L st :
  pt_inv own L st →
  (fill_table_page_cache st = Panic ∧ ∀ a, ¬ fa_avail (frames st) a) ∨
  (∃ st' L', fill_table_page_cache st = Done st' ∧ pt_inv own (L' ++ L) st' ∧ L' ≠ [] ∧
    ∀ p, own !! p ≠ None → mem st' !! p = mem st !! p).
Proof.
  intros [Ho Hc Hnd Hca Hok Hav]. unfold fill_table_page_cache.
  destruct (fa_allocate_law (frames st) request_pages Hok)
    as [[-> Hno]|(n & a & f' & -> & Hok' & Hn & Hk & Hx)]; [done|by left|]. right.
  unfold request_pages in Hn. rewrite bind_Done.
  assert (∀ k, 0 ≤ k < n → pg (linear_offset + a) k = linear_offset + (a + k * frame_size)) as Epg.
  { intros. unfold pg. lia. }
  destruct (fa_avail_range (frames st) a) as [Ha Hal]; [done|by rewrite <- (Z.add_0_r a); apply (Hk 0); lia|].
  destruct (fa_avail_range (frames st) (a + (n - 1) * frame_size)) as [Han _]; [done|apply Hk; lia|].
  rewrite to_virtual_add by done.
  destruct (fill_pages (mem st) (linear_offset + a) n (s_page_cache st) L)
    as (m1 & m' & E1 & E2 & Hs & Hch); [lia| |done| |].
  { intros k Hkn. rewrite Epg by done. by apply Hav, Hk. }
  { intros k Hkn. rewrite Epg by done. by apply Hav, Hk. }
  rewrite E1, bind_Done, wrap_small by
    (unfold is_word, linear_offset, phys_limit, FrameAllocator.frame_size in *; lia).
  fold (pg (linear_offset + a) (n - 1)). rewrite E2, bind_Done.
  assert (∀ p, own !! p ≠ None → m' !! p = mem st !! p) as Hsame.
  { intros p Hp. apply Hs. intros k Hkn ->. rewrite Epg in Hp by done. by apply Hp, Hav, Hk. }
  eexists _, _. split; [done|]. split; [|split; [|done]].
  - split; simpl; [by eapply own_ok_same|done|..|done|].
    + apply NoDup_app. split; [|split; [|done]].
      * apply NoDup_fmap_2_strong; [intros; by eapply pg_inj|apply NoDup_seqZ].
      * intros p (k & -> & Hkn%elem_of_seqZ)%list_elem_of_fmap. rewrite Epg by lia. apply Hav, Hk. lia.
    + intros p [(k & -> & Hkn%elem_of_seqZ)%list_elem_of_fmap|Hp]%elem_of_app; [|by apply Hca].
      rewrite Epg by lia. destruct (fa_avail_range (frames st) (a + k * frame_size)); [done|apply Hk; lia|].
      split; [by eexists|]. apply Hav, Hk. lia.
    + intros x Hx'. destruct (Hx x Hx') as [Hav' Hne]. destruct (Hav x Hav') as (T & O & NL).
      assert (∀ k, 0 ≤ k < n → linear_offset + x ≠ pg (linear_offset + a) k) as Hpg.
      { intros k Hkn E. rewrite Epg in E by done. apply (Hne k Hkn). lia. }
      split; [eapply same_table; [by apply Hs|done]|]. split; [done|].
      rewrite elem_of_app, list_elem_of_fmap. intros [(k & E & Hkn%elem_of_seqZ)|?]; [|done].
      by apply (Hpg k); [lia|].
  - by rewrite seqZ_cons by lia.
Qed.

(** A page in hand: zeroed, and neither in use, cached nor available. *)
Record fresh_page own (L : list Z) st (t : Z) : Prop := {
  fp_addr : table_addr t;
  fp_zero : mem st !! t = Some (replicate 512 0);
  fp_own : own !! t = None;
  fp_cache : t ∉ L;
  fp_avail : ∀ a, fa_avail (frames st) a → linear_offset + a ≠ t;
}.

Lemma get_table_page_spec own L st :
  pt_inv own L st →
  (get_table_page st = Panic ∧ L = [] ∧ ∀ a, ¬ fa_avail (frames st) a) ∨
  (∃ t st' L', get_table_page st = Done (t, st') ∧ pt_inv own L' st' ∧ fresh_page own L' st' t ∧
    (length L <= S (length L'))%nat ∧ ∀ p, own !! p ≠ None → mem st' !! p = mem st !! p).
Proof.
  intros Hinv. unfold get_table_page.
  assert (∀ st1 p L1, pt_inv own (p :: L1) st1 → ∃ st', 
    (let* _ := kassert (negb (s_page_cache st1 =? 0)) in
     let* n := page_next (mem st1) (s_page_cache st1) in
     Done (s_page_cache st1, PtState (<[s_page_cache st1 := replicate 512 0]> (mem st1)) n (frames st1)))
      = Done (p, st') ∧ pt_inv own L1 st' ∧ fresh_page own L1 st' p ∧
    ∀ q, own !! q ≠ None → mem st' !! q = mem st1 !! q) as Hpop.
  { intros st1 p L1 [Ho (Ec & Ht & Hc) [Hp Hnd]%NoDup_cons Hca Hok Hav].
    destruct (Hca p) as [Hta Hop]; [left|]. pose proof (table_addr_pos p Hta).
    rewrite Ec, (proj2 (Z.eqb_neq p 0)) by lia. cbn [negb kassert]. rewrite bind_Done.
    unfold page_next. rewrite rd_ent, bind_Done by (done || lia).
    assert (∀ q, q ≠ p → <[p := replicate 512 0]> (mem st1) !! q = mem st1 !! q) as Hs.
    { intros. by rewrite lookup_insert_ne. }
    eexists. split; [done|]. split; [split; simpl|split; [split; simpl|simpl]].
    - eapply own_ok_same; [done|]. intros q Hq. apply Hs. by intros ->.
    - eapply chain_same; [done|]. intros q Hq. apply Hs. by intros ->.
    - done.
    - intros q Hq. apply Hca. by right.
    - done.
    - intros a Ha. destruct (Hav a Ha) as (T & O & N). apply not_elem_of_cons in N as [N1 N2].
      split; [by eapply same_table; [apply Hs|]|done].
    - done.
    - by rewrite lookup_insert_eq.
    - done.
    - done.
    - intros a Ha E. destruct (Hav a Ha) as (_ & _ & N). apply N. rewrite E. left.
    - intros q Hq. apply Hs. by intros ->. }
  destruct L as [|p L].
  - assert (s_page_cache st = 0) as -> by apply (pi_chain _ _ _ Hinv). change (0 =? 0) with true.
    destruct (fill_spec own [] st Hinv) as [[-> Hno]|(st1 & [|p L1] & -> & Hinv1 & Hne & Hs1)];
      [by left|done|]. right. rewrite bind_Done. rewrite app_nil_r in Hinv1.
    destruct (Hpop st1 p L1 Hinv1) as (st' & -> & Hinv' & Hf & Hs).
    exists p, st', L1. split; [done|]. split; [done|]. split; [done|]. split; [simpl; lia|].
    intros q Hq. rewrite Hs, Hs1 by done. done.
  - right. pose proof Hinv as [_ (Ec & _) _ Hca _ _]. destruct (Hca p) as [Hta _]; [left|].
    pose proof (table_addr_pos p Hta). rewrite (proj2 (Z.eqb_neq (s_page_cache st) 0)) by lia.
    rewrite bind_Done. destruct (Hpop st p L Hinv) as (st' & E & Hinv' & Hf & Hs).
    exists p, st', L. split; [done|]. split; [done|]. split; [done|]. split; [simpl; lia|done].
Qed.

(** ** Making room for an entry *)

Lemma pte_zero m l p path : m !! p = Some (replicate 512 0) → pte m l p path = 0.
Proof.
  intros Hz. destruct path as [|i [|j path]]; [done|by apply ent_zero|].
  simpl. by rewrite ent_zero.
Qed.

Lemma no_large_zero m l p path : m !! p = Some (replicate 512 0) → no_large m l p path = true.
Proof. intros Hz. destruct path as [|i [|j path]]; [done..|]. simpl. by rewrite ent_zero. Qed.

Abbreviation in_table := (Forall (λ i, 0 ≤ i < 512)).

Lemma pte_cons2 m l p i j path :
  pte m l p (i :: j :: path) =
    if present (ent m p i) then
      if large l (ent m p i) then ent m p i else pte m (l + 1) (child (ent m p i)) (j :: path)
    else 0.
Proof. reflexivity. Qed.

Lemma no_large_cons2 m l p i j path :
  no_large m l p (i :: j :: path) =
    if present (ent m p i) then
      negb (large l (ent m p i)) && no_large m (l + 1) (child (ent m p i)) (j :: path)
    else true.
Proof. reflexivity. Qed.

Lemma no_large_cons m l q i path x rest :
  no_large m l q ((i :: path) ++ x :: rest) = true → present (ent m q i) = true →
  large l (ent m q i) = false ∧ no_large m (l + 1) (child (ent m q i)) (path ++ x :: rest) = true.
Proof.
  intros Hn Hp. destruct path; cbn [app no_large] in Hn; rewrite Hp in Hn;
    by apply andb_prop in Hn as [?%negb_true_iff ?].
Qed.

(** A walk through tables in use, without large pages, ends in the table for its indices. *)
Lemma table_at_own own m q pq path x rest p :
  own_ok own m → own !! q = Some pq → (length pq + length path <= 3)%nat → in_table path →
  no_large m (Z.of_nat (length pq)) q (path ++ x :: rest) = true →
  table_at m q path = Some p → own !! p = Some (pq ++ path).
Proof.
  intros Ho. revert q pq. induction path as [|i path IH]; intros q pq Hq Hl Hr Hn Ht.
  - simplify_eq/=. by rewrite app_nil_r.
  - apply Forall_cons in Hr as [Hi Hr]. cbn [table_at] in Ht.
    destruct (present (ent m q i)) eqn:Ep; [|done].
    apply no_large_cons in Hn as [Elg Hn]; [|done]. simpl in Hl. pose proof (oo_child _ _ Ho q pq i Hq ltac:(lia) Hi Ep Elg) as Hc.
    rewrite (cons_middle i pq path), app_assoc. eapply IH; [done|..|done].
    + rewrite length_app; simpl; lia.
    + done.
    + by rewrite length_app, Nat2Z.inj_add.
Qed.

(** Memory that agrees on the entries of all tables in use has the same walks, except where an
    empty entry was given an empty table. *)
Lemma walk_same own m m' q pq path :
  own_ok own m → own !! q = Some pq → in_table path → (length pq + length path = 4)%nat →
  (∀ x px i, own !! x = Some px → 0 ≤ i < 512 → ent m' x i = ent m x i ∨
     ((length px < 3)%nat ∧ present (ent m x i) = false ∧ present (ent m' x i) = true ∧
      (∀ l, large l (ent m' x i) = false) ∧ m' !! child (ent m' x i) = Some (replicate 512 0))) →
  pte m' (Z.of_nat (length pq)) q path = pte m (Z.of_nat (length pq)) q path ∧
  no_large m' (Z.of_nat (length pq)) q path = no_large m (Z.of_nat (length pq)) q path.
Proof.
  intros Ho Hq Hr Hl Hw. revert q pq Hq Hr Hl. induction path as [|i path IH]; intros q pq Hq Hr Hl; [done|].
  apply Forall_cons in Hr as [Hi Hr]. simpl in Hl.
  destruct (Hw q pq i Hq Hi) as [He|(Hp & Hn & Hn' & Hlg & Hz)].
  - destruct path as [|j path]; [by simpl; rewrite He|].
    rewrite !pte_cons2, !no_large_cons2, He. destruct (present (ent m q i)) eqn:Epr; [|done].
    destruct (large (Z.of_nat (length pq)) (ent m q i)) eqn:Elg; [done|]. cbn [negb andb].
    simpl in Hl. pose proof (oo_child _ _ Ho q pq i Hq ltac:(lia) Hi Epr Elg) as Hc.
    replace (Z.of_nat (length pq) + 1) with (Z.of_nat (length (pq ++ [i])))
      by (rewrite length_app; simpl; lia).
    apply (IH _ (pq ++ [i])); [done..|rewrite length_app; simpl; lia].
  - destruct path as [|j path]; [simpl in *; lia|]. rewrite !pte_cons2, !no_large_cons2.
    by rewrite Hn, Hn', Hlg, pte_zero, no_large_zero.
Qed.

Lemma table_at_same own m m' q pq path x rest :
  own_ok own m → own !! q = Some pq → (length pq + length path <= 3)%nat → in_table path →
  no_large m (Z.of_nat (length pq)) q (path ++ x :: rest) = true →
  (∀ y py, own !! y = Some py → (length py < length pq + length path)%nat → m' !! y = m !! y) →
  table_at m' q path = table_at m q path.
Proof.
  intros Ho. revert q pq. induction path as [|i path IH]; intros q pq Hq Hl Hr Hn Hs; [done|]. apply Forall_cons in Hr as [Hi Hr]. cbn [table_at].
  rewrite (same_ent m m' q i) by (apply (Hs _ pq); simpl; [done|lia]).
  destruct (present (ent m q i)) eqn:Ep; [|done].
  apply no_large_cons in Hn as [Elg Hn]; [|done]. simpl in Hl.
  apply (IH _ (pq ++ [i])); [by apply (oo_child _ _ Ho); [done|lia|..]|..].
  - rewrite length_app; simpl; lia.
  - done.
  - by rewrite length_app, Nat2Z.inj_add.
  - intros y py Hy. rewrite length_app. simpl. intros. apply (Hs y py Hy). simpl. lia.
Qed.

(** All address spaces translate every address as before. *)
Definition same_view own (m m' : pages) : Prop :=
  ∀ q ix, own !! q = Some [] → in_table ix → length ix = 4%nat →
    pte m' 0 q ix = pte m 0 q ix ∧ no_large m' 0 q ix = no_large m 0 q ix.

Lemma same_view_trans own own' m1 m2 m3 :
  own ⊆ own' → same_view own m1 m2 → same_view own' m2 m3 → same_view own m1 m3.
Proof.
  intros Hsub H1 H2 q ix Hq Hix Hl. destruct (H1 q ix Hq Hix Hl) as [<- <-].
  apply H2; [by eapply lookup_weaken|done..].
Qed.

Lemma same_view_tables own m m' :
  own_ok own m → (∀ p, own !! p ≠ None → m' !! p = m !! p) → same_view own m m'.
Proof.
  intros Ho Hs q ix Hq Hix Hl. apply (walk_same own m m' q [] ix); try done.
  intros x px i Hx _. left. apply same_ent, Hs. congruence.
Qed.

(** Putting a fresh table into an empty entry of the table at [path]. *)
Lemma link_inv own L st t p path i e :
  pt_inv own L st → fresh_page own L st t → own !! p = Some path → (length path < 3)%nat →
  0 ≤ i < 512 → present (ent (mem st) p i) = false →
  present e = true → (∀ l, large l e = false) → child e = t →
  ∃ m', wr (mem st) p i e = Done m' ∧
    pt_inv (<[t := path ++ [i]]> own) L (set_mem st m') ∧ same_view own (mem st) m' ∧
    (∀ x, x ≠ p → m' !! x = mem st !! x) ∧ ent m' p i = e.
Proof.
  intros [Ho Hch Hnd Hca Hok Hav] [Fa Fz Fo Fc Fv] Hp Hlen Hi Hnp Hpr Hlg Hct.
  destruct (oo_table _ _ Ho p path Hp) as (_ & (tp & Htp & Hltp) & _).
  assert (p ≠ t) as Hpt by congruence. eexists. split; [by apply wr_Done|].
  set (m' := <[p := _]> (mem st)). assert (∀ x, x ≠ p → m' !! x = mem st !! x) as Hs.
  { intros. unfold m'. by rewrite lookup_insert_ne. }
  assert (∀ x j, ent m' x j = if decide (x = p ∧ j = i) then e else ent (mem st) x j) as He.
  { intros. by apply ent_write. }
  assert (∀ x, is_table (mem st) x → is_table m' x) as Ht'.
  { intros. apply is_table_insert; [by rewrite length_insert|done]. }
  assert (∀ j, ent m' t j = 0) as Ez by (intros; apply ent_zero; by rewrite Hs).
  split; [split; simpl; [split|..]|].
  - intros x px. rewrite lookup_insert_Some. intros [[<- <-]|[Hne Hx]].
    + split; [done|]. split; [apply Ht'; by exists (replicate 512 0)|]. rewrite length_app; simpl; lia.
    + destruct (oo_table _ _ Ho x px Hx) as (? & ? & ?). auto.
  - intros x px j. rewrite lookup_insert_Some. intros [[<- <-]|[Hne Hx]] Hl Hj; [by rewrite Ez|].
    rewrite He. case_decide as D.
    + destruct D as [-> ->]. intros _ _. rewrite Hct, lookup_insert_eq. congruence.
    + intros Hpj Hlj. pose proof (oo_child _ _ Ho x px j Hx Hl Hj Hpj Hlj) as Hc.
      rewrite lookup_insert_ne; [done|]. intros E. congruence.
  - eapply chain_same; [done|]. intros x Hx. apply Hs. intros ->. destruct (Hca p Hx). congruence.
  - done.
  - intros x Hx. split; [by apply Hca|]. rewrite lookup_insert_ne; [by apply Hca|]. by intros ->.
  - done.
  - intros a Ha. destruct (Hav a Ha) as (? & ? & ?). split; [auto|]. split; [|done].
    rewrite lookup_insert_ne; [done|]. intros E. by apply (Fv a Ha).
  - split; [|split; [done|rewrite He; by rewrite decide_True]].
    intros q ix Hq Hix Hl. apply (walk_same own (mem st) m' q [] ix); try done.
    intros x px j Hx Hj. rewrite He. case_decide as D; [right|by left]. destruct D as [-> ->].
    assert (px = path) as -> by congruence. rewrite Hct, Hs by congruence. done.
Qed.

(** ** [ensure_table] and the non-const [entry] *)

Section Ensure.
  Context (r : Z) (ix : list Z) (Hix : length ix = 4%nat) (Hr : in_table ix).

(** The state an iterator at root [r] works in. *)
Record ready own L st it : Prop := {
  rd_inv : pt_inv own L st;
  rd_root : own !! r = Some [];
  rd_small : no_large (mem st) 0 r ix = true;
  rd_it : at_root r ix it;
}.

Lemma ix_split j : (j <= 3)%nat → ∃ x rest, ix = take j ix ++ x :: rest.
Proof.
  intros Hj. destruct (drop j ix) as [|x rest] eqn:E.
  - apply (f_equal length) in E. rewrite length_drop in E. simpl in E. lia.
  - exists x, rest. by rewrite <- E, take_drop.
Qed.

Lemma ready_table own L st it j p :
  ready own L st it → (j <= 3)%nat → table_at (mem st) r (take j ix) = Some p →
  own !! p = Some (take j ix) ∧ is_table (mem st) p.
Proof.
  intros [[Ho _ _ _ _ _] Hroot Hn _] Hj Ht. destruct (ix_split j Hj) as (x & rest & Es).
  assert (own !! p = Some ([] ++ take j ix)) as Hp.
  { eapply (table_at_own own (mem st) r [] (take j ix) x rest); [done..| | |by rewrite <- Es|done].
    - simpl. rewrite length_take. lia.
    - by apply Forall_take. }
  split; [done|]. by destruct (oo_table _ _ Ho _ _ Hp) as (_ & ? & _).
Qed.

Lemma ready_check own L st it l :
  ready own L st it → (1 <= l <= 3)%nat → ∃ b it',
    check_table (mem st) it (Z.of_nat l) = Done (b, it') ∧ at_root r ix it' ∧
    if (b : bool) then synced (mem st) r ix it' l else table_at (mem st) r (take l ix) = None.
Proof.
  intros Hrd Hl. eapply (check_table_spec (mem st) r ix Hix Hr); [| |done|apply Hrd].
  - intros j p Hj Ht. by eapply ready_table.
  - lia.
Qed.

(** A level that exists is found, whatever the fuel. *)
Lemma ensure_present own L st it l n :
  ready own L st it → (1 <= l <= 3)%nat → table_at (mem st) r (take l ix) ≠ None → ∃ it',
    ensure_table_n (S n) it st (Z.of_nat l) = Done (it', st) ∧ at_root r ix it' ∧
    synced (mem st) r ix it' l.
Proof.
  intros Hrd Hl Ht. cbn [ensure_table_n]. change (to_un pt) with 3.
  rewrite (proj2 (Z.eqb_neq _ 0)), (proj2 (Z.ltb_ge _ _)) by lia. cbn [orb].
  destruct (ready_check own L st it l Hrd Hl) as (b & it' & -> & Hit' & Hb).
  rewrite bind_Done. destruct b; [by exists it'|done].
Qed.

Lemma ensure_levels_present own L st it n l :
  ready own L st it → (l <= 3)%nat → table_at (mem st) r (take l ix) ≠ None → ∃ it',
    ensure_levels (ensure_table_n (S n)) it st (seqZ 1 (Z.of_nat l)) = Done (it', st) ∧
    at_root r ix it' ∧ synced (mem st) r ix it' l.
Proof.
  intros Hrd Hl Ht. enough (∀ k a it, (a + k = l)%nat → ready own L st it →
    synced (mem st) r ix it a → ∃ it',
    ensure_levels (ensure_table_n (S n)) it st (seqZ (Z.of_nat a + 1) (Z.of_nat k)) = Done (it', st) ∧
    at_root r ix it' ∧ synced (mem st) r ix it' l) as Hgen.
  { apply (Hgen l 0%nat it); [lia|done|]. by eapply synced_0, rd_it. }
  clear it Hrd. induction k as [|k IH]; intros a it Hak Hrd Hs.
  - exists it. split; [done|]. split; [apply Hrd|]. by replace l with a by lia.
  - rewrite seqZ_cons by lia. cbn [ensure_levels]. replace (Z.of_nat a + 1) with (Z.of_nat (S a)) by lia.
    destruct (ensure_present own L st it (S a) n) as (it1 & -> & Hit1 & Hs1); [done|lia| |].
    { intros Hn. apply Ht. eapply (table_at_None_le (mem st) r ix Hix (S a)); [lia|done]. }
    rewrite bind_Done. replace (Z.succ (Z.of_nat (S a))) with (Z.of_nat (S a) + 1) by lia.
    replace (Z.pred (Z.of_nat (S k))) with (Z.of_nat k) by lia. apply IH; [lia| |done].
    by destruct Hrd.
Qed.

Lemma ready_walk own L st it m' j :
  ready own L st it → (j <= 3)%nat →
  (∀ y py, own !! y = Some py → (length py < j)%nat → m' !! y = mem st !! y) →
  table_at m' r (take j ix) = table_at (mem st) r (take j ix).
Proof.
  intros [[Ho _ _ _ _ _] Hroot Hn _] Hj Hs. destruct (ix_split j Hj) as (x & rest & Es).
  assert (length (take j ix) = j) as El by (rewrite length_take; lia).
  eapply (table_at_same own (mem st) m' r [] (take j ix) x rest); [done..| | |by rewrite <- Es|].
  - simpl. lia.
  - by apply Forall_take.
  - intros y py Hy. rewrite El. by apply Hs.
Qed.

Lemma ready_page own L st L1 st1 it it1 :
  ready own L st it → pt_inv own L1 st1 → at_root r ix it1 →
  (∀ p, own !! p ≠ None → mem st1 !! p = mem st !! p) → ready own L1 st1 it1.
Proof.
  intros [Hinv Hroot Hn _] Hinv1 Hit Hs. split; try done.
  destruct (same_view_tables own (mem st) (mem st1) (pi_own _ _ _ Hinv) Hs r ix) as [_ ->]; done.
Qed.

(** The tail of [ensure_table], once it has a page. *)
Lemma ensure_link own L st it l t p i flags :
  ready own L st it → fresh_page own L st t → (1 <= l <= 3)%nat →
  table_at (mem st) r (take (l - 1) ix) = Some p → nth (l - 1) ix 0 = i →
  table_at (mem st) r (take l ix) = None → synced (mem st) r ix it (l - 1) →
  flags = table_flags ∨ flags = Z.lor table_flags fl_user →
  ∃ it' m', set_table it (Z.of_nat l) t = Done it' ∧
    wr (mem st) p i (Z.lor (Z.land (Z.land t (wnot 64 linear_offset)) page_mask) flags) = Done m' ∧
    ready (<[t := take l ix]> own) L (set_mem st m') it' ∧ same_view own (mem st) m' ∧
    synced m' r ix it' l.
Proof.
  intros Hrd Hf Hl Hp Hi Hnone Hsy Hfl. pose proof (fp_addr _ _ _ _ Hf) as (a & Ha & Hal & Et).
  destruct (ready_table own L st it (l - 1) p) as [Hop _]; [done|lia|done|].
  destruct (index_at ix Hix Hr (l - 1)) as [Hx Hrange]; [lia|]. rewrite Hi in Hx, Hrange.
  pose proof (take_snoc _ _ _ Hx) as Htk. replace (S (l - 1)) with l in Htk by lia.
  assert (present (ent (mem st) p i) = false) as Hnp.
  { rewrite Htk, table_at_app, Hp in Hnone. simpl in Hnone. by destruct (present _). }
  pose proof (λ l, new_entry_spec l a flags Ha Hal Hfl) as He. rewrite <- Et in He. cbv zeta in He.
  set (e := Z.lor _ flags) in *.
  destruct (link_inv own L st t p (take (l - 1) ix) i e) as (m' & Hw & Hinv' & Hv & Hs & Hent);
    [apply Hrd|done|done|rewrite length_take; lia|done|done|apply (He 0)|apply He|apply (He 0)|].
  destruct (set_table_spec r ix Hix it l t) as (it' & Hst & Hit' & Hm & Ho);
    [apply Hrd|done|]. exists it', m'. split; [done|]. split; [done|].
  split; [split|split; [done|]].
  - by rewrite Htk.
  - rewrite lookup_insert_ne; [apply Hrd|]. intros ->. pose proof (fp_own _ _ _ _ Hf).
    pose proof (rd_root _ _ _ _ Hrd). congruence.
  - simpl. destruct (Hv r ix) as [_ ->]; [apply Hrd|done..|apply Hrd].
  - done.
  - assert (∀ j, (j < l)%nat → table_at m' r (take j ix) = table_at (mem st) r (take j ix)) as Hw'.
    { intros j Hj. eapply ready_walk; [done|lia|]. intros y py Hy Hlt. apply Hs. intros ->.
      assert (py = take (l - 1) ix) as -> by congruence. rewrite length_take in Hlt. lia. }
    intros j Hj. destruct (decide (j = l)) as [->|].
    + exists t. split; [done|]. rewrite Htk, table_at_app, Hw', Hp by lia. simpl. rewrite Hent.
      by destruct (He 0) as (-> & _ & ->).
    + rewrite Hw', Ho by lia. apply Hsy. lia.
Qed.

Lemma synced_entry m it l :
  synced m r ix it l → at_root r ix it → (l <= 3)%nat → ∃ p,
    table_at m r (take l ix) = Some p ∧ arr_get (m_table it) (Z.of_nat l) = Done p ∧
    arr_get (m_index it) (Z.of_nat l) = Done (nth l ix 0).
Proof.
  intros Hs (Ei & _ & _) Hl. destruct (Hs l) as (p & Hp & Ht); [lia|]. exists p.
  split; [done|]. rewrite Ei. destruct (index_at ix Hix Hr l Hl) as [Hx _].
  split; by apply arr_get_nat.
Qed.

Lemma ensure_table_S n it st l :
  ensure_table_n (S n) it st l =
    if (l =? 0) || (to_un pt <? l) then Done (it, st)
    else
      let* (ok, it) := check_table (mem st) it l in
      if (ok : bool) then Done (it, st)
      else
        let* (table, st) := get_table_page st in
        let* (p, i, it, st) := entry_ref_with (ensure_table_n n) it st (l - 1) in
        let* root_index := arr_get (m_index it) 0 in
        let* it := set_table it l table in
        let* m := wr (mem st) p i
          (Z.lor (Z.land (Z.land table (wnot 64 linear_offset)) page_mask)
            (if root_index <? kernel_root_index then Z.lor table_flags fl_user else table_flags)) in
        Done (it, set_mem st m).
Proof. reflexivity. Qed.

(** What an operation that may extend the tables leaves behind. *)
Definition extended own (L : list Z) st st' (it' : iterator) (l : nat) : Prop :=
  ∃ own' L', ready own' L' st' it' ∧ own ⊆ own' ∧ same_view own (mem st) (mem st') ∧
    synced (mem st') r ix it' l ∧ (length L <= S (length L'))%nat.

Lemma ensure_step own L st it l :
  ready own L st it → (1 <= l <= 3)%nat → table_at (mem st) r (take (l - 1) ix) ≠ None →
  (ensure_table it st (Z.of_nat l) = Panic ∧ L = [] ∧ table_at (mem st) r (take l ix) = None) ∨
  (∃ it' st', ensure_table it st (Z.of_nat l) = Done (it', st') ∧ extended own L st st' it' l).
Proof.
  intros Hrd Hl Hpar. change (ensure_table it st) with (ensure_table_n (S (S 2)) it st).
  rewrite ensure_table_S. change (to_un pt) with 3.
  rewrite (proj2 (Z.eqb_neq _ 0)), (proj2 (Z.ltb_ge _ _)) by lia. cbn [orb].
  destruct (ready_check own L st it l Hrd Hl) as (b & it1 & -> & Hit1 & Hb). rewrite bind_Done.
  destruct b.
  { right. exists it1, st. split; [done|]. exists own, L.
    split; [by destruct Hrd|]. by repeat split; [..|lia]. }
  destruct (get_table_page_spec own L st (rd_inv _ _ _ _ Hrd))
    as [(-> & -> & _)|(t & st1 & L1 & -> & Hinv1 & Hf & HL & Hs)]; [by left|right].
  rewrite bind_Done. pose proof (ready_page own L st L1 st1 it it1 Hrd Hinv1 Hit1 Hs) as Hrd1.
  assert (∀ j, (j <= 3)%nat → table_at (mem st1) r (take j ix) = table_at (mem st) r (take j ix)) as Hw.
  { intros j Hj. eapply ready_walk; [done..|]. intros y py Hy _. apply Hs. congruence. }
  unfold entry_ref_with. replace (Z.of_nat l - 1) with (Z.of_nat (l - 1)) by lia.
  destruct (ensure_levels_present own L1 st1 it1 2 (l - 1)) as (it2 & -> & Hit2 & Hs2);
    [done|lia|by rewrite Hw by lia|]. rewrite bind_Done.
  destruct (synced_entry (mem st1) it2 (l - 1) Hs2 Hit2) as (p & Hp & -> & ->); [lia|].
  rewrite !bind_Done. pose proof Hit2 as (Ei & _ & _).
  destruct (index_at ix Hix Hr 0) as [Hx0 _]; [lia|]. rewrite Ei.
  change (arr_get ix 0) with (arr_get ix (Z.of_nat 0)). rewrite (arr_get_nat ix 0 _ Hx0), bind_Done.
  set (flags := if _ <? _ then _ else _).
  destruct (ensure_link own L1 st1 it2 l t p (nth (l - 1) ix 0) flags)
    as (it' & m' & -> & E & Hrd' & Hv & Hsy); try done.
  { by destruct Hrd1. }
  { by rewrite Hw by lia. }
  { unfold flags. case_match; auto. }
  rewrite bind_Done, E, bind_Done. eexists _, _. split; [done|].
  exists (<[t := take l ix]> own), L1. split; [done|].
  split; [apply insert_subseteq, Hf|]. split; [|done].
  eapply (same_view_trans own own); [done| |done]. apply same_view_tables; [apply Hrd|done].
Qed.

Lemma entry_ref_levels own L st it l :
  ready own L st it → (l <= 3)%nat →
  (ensure_levels ensure_table it st (seqZ 1 (Z.of_nat l)) = Panic ∧ (length L < l)%nat ∧
    pte (mem st) 0 r ix = 0) ∨
  (∃ it' st' own' L', ensure_levels ensure_table it st (seqZ 1 (Z.of_nat l)) = Done (it', st') ∧
    ready own' L' st' it' ∧ own ⊆ own' ∧ same_view own (mem st) (mem st') ∧
    synced (mem st') r ix it' l ∧ (length L <= l + length L')%nat).
Proof.
  intros Hrd Hl. enough (∀ k a own L st it, (a + k = l)%nat → ready own L st it →
    synced (mem st) r ix it a →
    (ensure_levels ensure_table it st (seqZ (Z.of_nat a + 1) (Z.of_nat k)) = Panic ∧
      (length L < k)%nat ∧ pte (mem st) 0 r ix = 0) ∨
    (∃ it' st' own' L',
      ensure_levels ensure_table it st (seqZ (Z.of_nat a + 1) (Z.of_nat k)) = Done (it', st') ∧
      ready own' L' st' it' ∧ own ⊆ own' ∧ same_view own (mem st) (mem st') ∧
      synced (mem st') r ix it' l ∧ (length L <= k + length L')%nat)) as Hgen.
  { apply (Hgen l 0%nat own L st it); [lia|done|]. by eapply synced_0, rd_it. }
  clear own L st it Hrd. induction k as [|k IH]; intros a own L st it Hak Hrd Hs.
  - right. exists it, st, own, L. replace l with a by lia.
    split; [done|]. split; [done|]. split; [done|]. split; [done|]. split; [done|lia].
  - rewrite seqZ_cons by lia. cbn [ensure_levels].
    replace (Z.of_nat a + 1) with (Z.of_nat (S a)) by lia.
    destruct (ensure_step own L st it (S a)) as [(-> & -> & Hno)|(it1 & st1 & -> & Hext)];
      [done|lia| |left; split; [done|split; [simpl; lia|]]|].
    2:{ rewrite pte_entry_at by (done || apply Hrd). unfold entry_at.
        by rewrite (table_at_None_le (mem st) r ix Hix (S a) 3) by (done || lia). }
    { replace (S a - 1)%nat with a by lia. by destruct (Hs a) as (p & _ & ->). }
    destruct Hext as (own1 & L1 & Hrd1 & Hsub1 & Hv1 & Hs1 & HL1). rewrite bind_Done.
    replace (Z.succ (Z.of_nat (S a))) with (Z.of_nat (S a) + 1) by lia.
    replace (Z.pred (Z.of_nat (S k))) with (Z.of_nat k) by lia.
    destruct (IH (S a) own1 L1 st1 it1) as [(-> & Hlt & H0)|(it2 & st2 & own2 & L2 & -> & Hrd2 & Hsub2 & Hv2 & Hs2 & HL2)];
      [lia|done..|left; split; [done|split; [lia|]]|].
    { destruct (Hv1 r ix) as [<- _]; [apply Hrd|done..]. }
    right. exists it2, st2, own2, L2. split; [done|]. split; [done|].
    split; [by etrans|]. split; [|split; [done|lia]]. by eapply same_view_trans.
Qed.

Lemma entry_ref_spec own L st it :
  ready own L st it →
  (entry_ref it st pt = Panic ∧ (length L < 3)%nat ∧ pte (mem st) 0 r ix = 0) ∨
  (∃ p it' st' own' L', entry_ref it st pt = Done (p, nth 3 ix 0, it', st') ∧
    ready own' L' st' it' ∧ own ⊆ own' ∧ same_view own (mem st) (mem st') ∧
    table_at (mem st') r (take 3 ix) = Some p ∧ (length L <= 3 + length L')%nat).
Proof.
  intros Hrd. unfold entry_ref, entry_ref_with. change (to_un pt) with (Z.of_nat 3).
  destruct (entry_ref_levels own L st it 3 Hrd)
    as [(-> & ? & ?)|(it' & st' & own' & L' & -> & Hrd' & Hsub & Hv & Hs & HL)]; [lia|by left|right].
  rewrite bind_Done. destruct (synced_entry (mem st') it' 3 Hs) as (p & Hp & -> & ->);
    [apply Hrd'|lia|]. rewrite !bind_Done. by exists p, it', st', own', L'.
Qed.
End Ensure.

(** ** Writing an entry *)

(** Writing the entry of a page changes the translation of that page only. *)
Lemma leaf_other own m p path i v q pq rest :
  own_ok own m → own !! p = Some path → length path = 3%nat → 0 ≤ i < 512 →
  own !! q = Some pq → in_table rest → (length pq + length rest = 4)%nat →
  pq ++ rest ≠ path ++ [i] →
  ∀ m', wr m p i v = Done m' →
  pte m' (Z.of_nat (length pq)) q rest = pte m (Z.of_nat (length pq)) q rest.
Proof.
  intros Ho Hp Hl Hi Hq Hr Hlen Hne m' Hw.
  destruct (oo_table _ _ Ho _ _ Hp) as (_ & (t & Ht & Hlt) & _).
  rewrite (wr_Done _ _ _ _ t) in Hw by done. injection Hw as <-.
  revert q pq Hq Hr Hlen Hne. induction rest as [|j rest IH]; intros q pq Hq Hr Hlen Hne; [done|].
  apply Forall_cons in Hr as [Hj Hr]. simpl in Hlen.
  assert (ent (<[p := <[Z.to_nat i := v]> t]> m) q j = ent m q j) as He.
  { rewrite (ent_write _ _ _ _ t) by done. rewrite decide_False; [done|]. intros [-> ->].
    assert (pq = path) as -> by congruence. destruct rest; [done|simpl in *; lia]. }
  destruct rest as [|k rest]; [done|]. rewrite !pte_cons2, He.
  destruct (present (ent m q j)) eqn:Ep; [|done].
  destruct (large (Z.of_nat (length pq)) (ent m q j)) eqn:El; [done|]. simpl in Hlen.
  replace (Z.of_nat (length pq) + 1) with (Z.of_nat (length (pq ++ [j])))
    by (rewrite length_app; simpl; lia).
  apply (IH _ (pq ++ [j])); [|done|rewrite length_app; simpl; lia|by rewrite <- app_assoc].
  apply (oo_child _ _ Ho); [done|lia|done..].
Qed.

Lemma leaf_own own m p path i v m' :
  own_ok own m → own !! p = Some path → length path = 3%nat → 0 ≤ i < 512 →
  wr m p i v = Done m' → own_ok own m' ∧ (∀ x, x ≠ p → m' !! x = m !! x) ∧
    (∀ x, is_table m x → is_table m' x) ∧ ent m' p i = v ∧
    ∀ x j, x ≠ p → ent m' x j = ent m x j.
Proof.
  intros Ho Hp Hl Hi Hw. destruct (oo_table _ _ Ho _ _ Hp) as (_ & (t & Ht & Hlt) & _).
  rewrite (wr_Done _ _ _ _ t) in Hw by done. injection Hw as <-.
  assert (∀ x, is_table m x → is_table (<[p := <[Z.to_nat i := v]> t]> m) x) as Hkeep.
  { intros. apply is_table_insert; [by rewrite length_insert|done]. }
  assert (∀ x j, x ≠ p → ent (<[p := <[Z.to_nat i := v]> t]> m) x j = ent m x j) as He.
  { intros. by apply ent_insert_ne. }
  split; [split|split; [|split; [|split]]]; [..|done|by rewrite (ent_write _ _ _ _ t), decide_True|done].
  - intros x px Hx. destruct (oo_table _ _ Ho _ _ Hx) as (? & ? & ?). auto.
  - intros x px j Hx Hlx Hj. assert (x ≠ p) by (intros ->; simplify_eq; lia).
    rewrite He by done. by apply (oo_child _ _ Ho).
  - intros x Hx. by rewrite lookup_insert_ne.
Qed.

Lemma leaf_no_large own m m' p path q pq rest :
  own_ok own m → own !! p = Some path → length path = 3%nat →
  (∀ x j, x ≠ p → ent m' x j = ent m x j) →
  own !! q = Some pq → in_table rest → (length pq + length rest = 4)%nat →
  no_large m' (Z.of_nat (length pq)) q rest = no_large m (Z.of_nat (length pq)) q rest.
Proof.
  intros Ho Hp Hl He. revert q pq. induction rest as [|j rest IH]; intros q pq Hq Hr Hlen; [done|].
  apply Forall_cons in Hr as [Hj Hr]. destruct rest as [|k rest]; [done|]. simpl in Hlen.
  rewrite !no_large_cons2, He by (intros ->; simplify_eq; lia).
  destruct (present (ent m q j)) eqn:Ep; [|done].
  destruct (large (Z.of_nat (length pq)) (ent m q j)) eqn:El; [done|]. f_equal.
  replace (Z.of_nat (length pq) + 1) with (Z.of_nat (length (pq ++ [j])))
    by (rewrite length_app; simpl; lia).
  apply (IH _ (pq ++ [j])); [|done|rewrite length_app; simpl; lia].
  apply (oo_child _ _ Ho); [done|lia|done..].
Qed.

(** Writing through the reference an iterator at [r] got. *)
Lemma entry_write_spec r ix own L st it p v :
  length ix = 4%nat → in_table ix → ready r ix own L st it →
  table_at (mem st) r (take 3 ix) = Some p →
  ∃ m', wr (mem st) p (nth 3 ix 0) v = Done m' ∧ ready r ix own L (set_mem st m') it ∧
    pte m' 0 r ix = v ∧
    (∀ q ix', own !! q = Some [] → in_table ix' → length ix' = 4%nat → ix' ≠ ix →
      pte m' 0 q ix' = pte (mem st) 0 q ix') ∧
    (∀ q ix', own !! q = Some [] → in_table ix' → length ix' = 4%nat →
      no_large m' 0 q ix' = no_large (mem st) 0 q ix').
Proof.
  intros Hix Hr Hrd Hp. pose proof Hrd as [[Ho Hc Hnd Hca Hok Hav] Hroot Hn Hit].
  destruct (ready_table r ix Hix Hr own L st it 3 p) as [Hop (t & Ht & Hlt)]; [done|lia|done|].
  assert (length (take 3 ix) = 3%nat) as Hl3 by (rewrite length_take; lia).
  destruct (index_at ix Hix Hr 3) as [Hx Hi]; [lia|].
  assert (ix = take 3 ix ++ [nth 3 ix 0]) as Eix.
  { rewrite <- (take_snoc _ _ _ Hx). by rewrite take_ge by lia. }
  pose proof (wr_Done (mem st) p (nth 3 ix 0) v t Ht Hlt Hi) as Hw. eexists. split; [done|].
  destruct (leaf_own own (mem st) p _ _ v _ Ho Hop Hl3 Hi Hw) as (Ho' & Hs & Hk & He & Heo).
  set (m' := <[p := _]> (mem st)) in *.
  assert (∀ j, (j <= 3)%nat → table_at m' r (take j ix) = table_at (mem st) r (take j ix)) as Hwk.
  { intros j Hj. eapply ready_walk; [done..|]. intros y py Hy Hlt'. apply Hs. intros ->.
    assert (py = take 3 ix) as -> by congruence. lia. }
  assert (no_large m' 0 r ix = true) as Hn'.
  { rewrite <- Hn. by apply (leaf_no_large own (mem st) m' p (take 3 ix) r [] ix). }
  split; [split; [split; simpl|..]|split; [|split]]; try done.
  - eapply chain_same; [done|]. intros x Hx'. apply Hs. intros ->. destruct (Hca p Hx'). congruence.
  - intros a Ha. destruct (Hav a Ha) as (? & ? & ?). auto.
  - rewrite pte_entry_at by done. unfold entry_at. by rewrite Hwk, Hp by lia.
  - intros q ix' Hq Hr' Hl' Hne. apply (leaf_other own (mem st) p (take 3 ix) (nth 3 ix 0) v q [] ix');
      try done. simpl. by rewrite <- Eix.
  - intros q ix' Hq Hr' Hl'. by apply (leaf_no_large own (mem st) m' p (take 3 ix) q [] ix').
Qed.

(** C5: the iterator's [entry(level::pt)], which makes the missing tables on the way, gives the
    location of the entry the processor uses for the iterator's address.  Making room changes the
    translation of no address in any address space; writing [v] there makes [v] the entry of that
    address and changes the translation of no other address in any address space, and the
    tables stay well formed.  It can only fail, by panicking, when fewer than three pages are
    cached and the frame allocator has none. *)
Theorem entry_write_correct own L st it r v :
  pt_inv own L st → own !! r = Some [] → it_wf it → m_table it !! 0%nat = Some r →
  no_large (mem st) 0 r (m_index it) = true →
  (entry_ref it st pt = Panic ∧ (length L < 3)%nat) ∨
  (∃ p i it' st' own' L' m',
    entry_ref it st pt = Done (p, i, it', st') ∧ m_index it' = m_index it ∧
    own ⊆ own' ∧ same_view own (mem st) (mem st') ∧
    rd (mem st') p i = Done (pte (mem st) 0 r (m_index it)) ∧
    wr (mem st') p i v = Done m' ∧ pt_inv own' L' (set_mem st' m') ∧
    pte m' 0 r (m_index it) = v ∧
    ∀ q ix, own !! q = Some [] → in_table ix → length ix = 4%nat → ix ≠ m_index it →
      pte m' 0 q ix = pte (mem st) 0 q ix).
Proof.
  intros Hinv Hroot [Hit Hil Hir] Hr Hn.
  assert (ready r (m_index it) own L st it) as Hrd by (by split; [..|repeat split]).
  destruct (entry_ref_spec r _ Hil Hir own L st it Hrd)
    as [(? & ? & _)|(p & it' & st' & own' & L' & E & Hrd' & Hsub & Hv & Hp & _)]; [by left|right].
  destruct (entry_write_spec r _ own' L' st' it' p v Hil Hir Hrd' Hp) as (m' & Hw & Hrw & Hpte & Ho & _).
  destruct (ready_table r _ Hil Hir own' L' st' it' 3 p Hrd') as [_ Ht]; [lia|done|].
  destruct (index_at _ Hil Hir 3) as [_ Hi]; [lia|]. pose proof Hrd' as [_ _ Hn' (Ei & _)].
  exists p, (nth 3 (m_index it) 0), it', st', own', L', m'.
  split; [done|]. split; [done|]. split; [done|]. split; [done|]. split; [|split; [done|]].
  - rewrite rd_ent by done. destruct (Hv r (m_index it)) as [<- _]; try done.
    rewrite pte_entry_at by done. unfold entry_at. by rewrite Hp.
  - split; [apply Hrw|]. split; [done|]. intros q ix Hq Hix Hl Hne.
    rewrite Ho; [|by eapply lookup_weaken|done..]. by apply Hv.
Qed.

(** reading through a const iterator agrees with the processor's walk: [entry(level::pt)] is
    the entry the address translates by, and [depth] is the level of the first entry on the way
    that is not present, or [pt] when all are. *)
Theorem entry_reads_translation own L st it r :
  pt_inv own L st → own !! r = Some [] → it_wf it → m_table it !! 0%nat = Some r →
  no_large (mem st) 0 r (m_index it) = true →
  (∃ it', entry (mem st) it pt = Done (pte (mem st) 0 r (m_index it), it') ∧
     m_index it' = m_index it) ∧
  (∃ l it', depth (mem st) it = Done (l, it') ∧ m_index it' = m_index it ∧ l ≠ page ∧
     (∀ k, to_un k < to_un l → present (entry_at (mem st) r (m_index it) (lv k)) = true) ∧
     (present (entry_at (mem st) r (m_index it) (lv l)) = false ∨ l = pt)).
Proof.
  intros Hinv Hroot [Hit Hil Hir] Hr Hn.
  assert (ready r (m_index it) own L st it) as Hrd by (by split; [..|repeat split]).
  assert (∀ j p, (j <= 3)%nat → table_at (mem st) r (take j (m_index it)) = Some p →
    is_table (mem st) p) as Htab.
  { intros j p Hj Ht. by eapply ready_table. }
  assert (at_root r (m_index it) it) as Hat by apply Hrd. split.
  - destruct (entry_spec (mem st) r (m_index it) Hil Hir Htab it pt Hat) as (it' & E & (Ei & _)); [done|].
    exists it'. split; [|done]. by rewrite pte_entry_at.
  - destruct (depth_loop_spec (mem st) r (m_index it) Hil Hir Htab [pml4; pdp; pd; pt] it Hat)
      as (l & it' & E & (Ei & _) & Hd); [by repeat constructor|].
    exists l, it'. split; [done|]. split; [done|]. destruct Hd as [(pre & post & Es & Hpre & Hl)|[-> Hall]].
    + destruct pre as [|? [|? [|? [|? [|? ?]]]]]; simplify_eq/=;
        (split; [done|]; split; [|by left]; intros [] Hk; simpl in Hk; try lia);
        apply Hpre; set_solver.
    + split; [done|]. split; [|by right]. intros [] Hk; simpl in Hk; try lia; apply Hall; set_solver.
Qed.
End Invariant.

(** ** A concrete machine *)

(** A root table and three cached pages. *)
Definition page_at (k : Z) : Z := linear_offset + k * frame_size.
Definition cached (n : Z) : list Z := n :: replicate 511 0.
Definition small_state : pt_state (list FrameAllocator.frame_block) :=
  PtState (list_to_map [(page_at 1, replicate 512 0); (page_at 2, cached (page_at 3));
                        (page_at 3, cached (page_at 4)); (page_at 4, cached 0)])
    (page_at 2) [].

Lemma page_at_addr k : 0 ≤ k < 2 ^ 34 → table_addr (page_at k).
Proof.
  intros Hk. exists (k * frame_size). unfold phys_limit, FrameAllocator.frame_size.
  split; [lia|]. split; [by rewrite Z.mod_mul|done].
Qed.

Lemma small_state_inv :
  pt_inv {[page_at 1 := []]} [page_at 2; page_at 3; page_at 4] small_state.
Proof.
  assert (∀ k, k ∈ [1; 2; 3; 4] → is_table (mem small_state) (page_at k)) as Ht.
  { intros k Hk. repeat (apply elem_of_cons in Hk as [->|Hk]); [..|by apply not_elem_of_nil in Hk];
      eexists; (split; [vm_compute; reflexivity|reflexivity]). }
  assert (∀ i, ent (mem small_state) (page_at 1) i = 0) as Hz.
  { intros. by apply ent_zero. }
  split.
  - split.
    + intros p path [<- <-]%lookup_singleton_Some. split; [by apply page_at_addr|].
      split; [apply Ht; set_solver|simpl; lia].
    + intros p path i [<- <-]%lookup_singleton_Some. by rewrite Hz.
  - repeat split; first [apply Ht; set_solver | vm_compute; reflexivity].
  - apply (bool_decide_unpack _). vm_compute. exact I.
  - intros p Hp. repeat (apply elem_of_cons in Hp as [->|Hp]); [..|by apply not_elem_of_nil in Hp];
      (split; [by apply page_at_addr|by apply lookup_singleton_ne]).
  - split; try done; by apply Forall_nil.
  - intros a (i & b & f & Hb & _). cbn in Hb. by rewrite lookup_nil in Hb.
Qed.

Lemma entry_write_correct_witness :
  ∃ p i it' st' m',
    entry_ref (new_iterator 0x40201000 (page_at 1)) small_state pt = Done (p, i, it', st') ∧
    wr (mem st') p i 0x7003 = Done m' ∧
    pte m' 0 (page_at 1) [0; 1; 1; 1] = 0x7003.
Proof.
  destruct (entry_write_correct _ _ _ (new_iterator 0x40201000 (page_at 1)) (page_at 1) 0x7003 small_state_inv)
    as [[_ Hl]|(p & i & it' & st' & own' & L' & m' & E & _ & _ & _ & _ & Hw & _ & Hp & _)].
  - vm_compute. reflexivity.
  - apply new_iterator_spec.
  - vm_compute. reflexivity.
  - vm_compute. reflexivity.
  - exfalso. simpl in Hl. lia.
  - exists p, i, it', st', m'. split; [exact E|]. split; [exact Hw|]. exact Hp.
Defined.

Lemma entry_reads_translation_witness :
  ∃ l it', depth (mem small_state) (new_iterator 0x40201000 (page_at 1)) = Done (l, it').
Proof.
  destruct (entry_reads_translation _ _ _ (new_iterator 0x40201000 (page_at 1)) (page_at 1)
    small_state_inv) as [_ (l & it' & E & _)].
  - vm_compute. reflexivity.
  - apply new_iterator_spec.
  - vm_compute. reflexivity.
  - vm_compute. reflexivity.
  - exists l, it'. exact E.
Defined.
