(* ===== verification/BootPaging.v ===== *)
(** * The boot loader's page tables

    Models src/boot/paging.cpp and paging.h: the tables that the kernel starts with, made of pages from a
    cache that the loader allocates once.  Tables are the pages of PageTable.v, here at their physical
    addresses; the iterator is a template over the number of levels, which is a parameter.  An error
    that the loader raises ([error::raise]) does not return and is a [Panic].

    [map_pages_maps] shows that the pages asked for are mapped with the flags asked for and that every
    other address keeps its translation, if the cache has as many pages as new tables can be needed.
    [linear_map_complete] shows that the tables of a new pager map 64 TiB of physical memory at the
    linear offset.  [current_mappings_added] is about the mappings taken over from the firmware, and
    [boot_tables_suit_kernel] shows that the kernel's invariant of page tables holds when it starts. *)
From S2P Require Import Prelude Frames PageTable.

(** ** State *)

Record pager := Pager { pmem : pages; table_ptr : Z; table_count : Z; m_pml4 : Z }.
Definition with_pmem (st : pager) (m : pages) : pager := Pager m (table_ptr st) (table_count st) (m_pml4 st).

Definition page_size : Z := 0x1000.
Definition page_flags : Z := 0x101.
Definition huge_page_flags : Z := 0x18b.
Definition boot_table_flags : Z := 0x003.
Definition pd_tables : Z := 256.
Definition extra_tables : Z := 64.
Definition GiB : Z := 0x40000000.

Definition pop_pages (st : pager) (count : Z) : outcome (Z * pager) :=
  if table_count st <? count then Panic
  else Done (table_ptr st, Pager (pmem st) (u64 (table_ptr st + count * page_size)) (table_count st - count) (m_pml4 st)).

(** ** The iterator over [D] levels *)

Definition ensure_table (D : nat) (it : iterator) (st : pager) (level : nat) : outcome (iterator * pager) :=
  match level with
  | O => Done (it, st)
  | S parent =>
      if (D <=? level)%nat then Done (it, st)
      else
        let* p := arr_get (m_table it) (Z.of_nat parent) in
        let* i := arr_get (m_index it) (Z.of_nat parent) in
        let* parent_ent := rd (pmem st) p i in
        if negb (Z.testbit parent_ent 0) then
          let* (table, st) := pop_pages st 1 in
          let* m := wr (pmem st) p i (Z.lor (Z.land table page_mask) boot_table_flags) in
          let* it := set_table it (Z.of_nat level) table in
          Done (it, with_pmem st m)
        else
          let* it := set_table it (Z.of_nat level) (Z.land parent_ent page_mask) in
          Done (it, st)
  end.
Fixpoint ensure_tables (D : nat) (it : iterator) (st : pager) (levels : list nat) : outcome (iterator * pager) :=
  match levels with
  | [] => Done (it, st)
  | l :: ls => let* (it, st) := ensure_table D it st l in ensure_tables D it st ls
  end.

(** The index of an address at a level, with the shifts of four levels for every [D]. *)
Definition index_of (virt : Z) (i : nat) : Z := u16 (Z.land (Z.shiftr virt (12 + 9 * (3 - Z.of_nat i))) 0x1ff).
(** The loop of the constructor. *)
Fixpoint init_levels (D : nat) (virt : Z) (it : iterator) (st : pager) (levels : list nat) : outcome (iterator * pager) :=
  match levels with
  | [] => Done (it, st)
  | i :: ls =>
      let* it := set_index it (Z.of_nat i) (index_of virt i) in
      let* (it, st) := ensure_table D it st i in
      init_levels D virt it st ls
  end.
Definition entry_iterator (D : nat) (virt : Z) (st : pager) : outcome (iterator * pager) :=
  init_levels D virt (Iterator (m_pml4 st :: replicate (D - 1) 0) (replicate D 0)) st (seq 0 D).

(** [increment]: the level is unsigned, so a carry out of the first level goes on below zero. *)
Fixpoint inc_loop (D : nat) (k : nat) (it : iterator) (st : pager) : outcome (iterator * pager) :=
  match k with
  | O => Undef
  | S i =>
      let* x := arr_get (m_index it) (Z.of_nat i) in
      let x := u16 (x + 1) in
      if x <=? 511 then
        let* it := set_index it (Z.of_nat i) x in
        ensure_tables D it st (seq (S i) (D - S i))
      else
        let* it := set_index it (Z.of_nat i) 0 in
        inc_loop D i it st
  end.
Definition boot_increment (D : nat) (it : iterator) (st : pager) : outcome (iterator * pager) := inc_loop D D it st.
(** [*iterator = v] *)
Definition write_entry (D : nat) (it : iterator) (st : pager) (v : Z) : outcome pager :=
  let* p := arr_get (m_table it) (Z.of_nat (D - 1)) in
  let* i := arr_get (m_index it) (Z.of_nat (D - 1)) in
  let* m := wr (pmem st) p i v in
  Done (with_pmem st m).

(** The loops of [map_pages] and of the linear map: [n] entries from the iterator's place on. *)
Fixpoint map_loop (D : nat) (n : nat) (it : iterator) (st : pager) (phys step flags : Z) : outcome pager :=
  match n with
  | O => Done st
  | S n =>
      let* st := write_entry D it st (Z.lor phys flags) in
      match n with
      | O => Done st
      | _ =>
          let* (it, st) := boot_increment D it st in
          map_loop D n it st (u64 (phys + step)) step flags
      end
  end.

(** ** The pager *)

Definition flags_for (write_flag exe_flag : bool) : Z :=
  let flags := if exe_flag then page_flags else Z.lor page_flags (Z.shiftl 1 63) in
  if write_flag then Z.lor flags 2 else flags.
Definition map_pages (st : pager) (phys virt count : Z) (write_flag exe_flag : bool) : outcome pager :=
  if count =? 0 then Done st
  else
    let* (it, st) := entry_iterator 4 virt st in
    map_loop 4 (Z.to_nat count) it st phys page_size (flags_for write_flag exe_flag).

(** [page_table::set] *)
Definition table_set (m : pages) (p i q flags : Z) : outcome pages := wr m p i (Z.lor q (Z.land flags 0xfff)).
Fixpoint set_pds (m : pages) (root pds : Z) (is_ : list Z) : outcome pages :=
  match is_ with
  | [] => Done m
  | i :: is_ =>
      let* m := table_set m root i (u64 (pds + (i - kernel_root_index) * page_size)) boot_table_flags in
      set_pds m root pds is_
  end.
Definition create_kernel_tables (st : pager) : outcome pager :=
  let* (root, st) := pop_pages st 1 in
  let st := Pager (pmem st) (table_ptr st) (table_count st) root in
  let* (pds, st) := pop_pages st pd_tables in
  let* m := set_pds (pmem st) root pds (seqZ kernel_root_index (table_entries - kernel_root_index)) in
  let* (it, st) := entry_iterator 2 linear_offset (with_pmem st m) in
  map_loop 2 (Z.to_nat (64 * 1024)) it st 0 GiB huge_page_flags.
Definition tables_needed : Z := pd_tables + extra_tables + 1.
(** The constructor: [addr] is what the allocator returns, for as many pages filled with zeros. *)
Definition pager_new (addr : Z) (m : pages) : outcome pager :=
  let m := foldl (λ m k, <[addr + Z.of_nat k * page_size := replicate 512 0]> m) m (seq 0 (Z.to_nat tables_needed)) in
  create_kernel_tables (Pager m addr tables_needed 0).

(** [update_kernel_args]: the fields [pml4] and [page_tables] of the kernel's arguments. *)
Record table_args := TableArgs { a_pml4 : Z; a_page_tables : Z; a_table_count : Z }.
Definition update_kernel_args (st : pager) : table_args := TableArgs (m_pml4 st) (table_ptr st) (table_count st).

(** [add_current_mappings], with the firmware's table [old]. *)
Fixpoint copy_present (m : pages) (root : Z) (old : list Z) (is_ : list Z) : outcome pages :=
  match is_ with
  | [] => Done m
  | i :: is_ =>
      let* entry := arr_get old i in
      let* m := if Z.testbit entry 0 then wr m root i entry else Done m in
      copy_present m root old is_
  end.
Definition add_current_mappings (st : pager) (old : list Z) : outcome pager :=
  let* m := copy_present (pmem st) (m_pml4 st) old (seqZ 0 kernel_root_index) in Done (with_pmem st m).

(** ** What the tables say *)

Definition bchild (e : Z) : Z := Z.land e page_mask.
(** The table reached from [p], of level [l], along a list of indices. *)
Fixpoint btable_at (m : pages) (l : nat) (p : Z) (path : list Z) : option Z :=
  match path with
  | [] => Some p
  | i :: path =>
      let e := ent m p i in
      if present e && negb (large (Z.of_nat l) e) then btable_at m (S l) (bchild e) path else None
  end.
(** The entry that the processor uses for the indices [path]; 0 stands for no entry. *)
Fixpoint bpte (m : pages) (l : nat) (p : Z) (path : list Z) : Z :=
  match path with
  | [] => 0
  | [i] => ent m p i
  | i :: path =>
      let e := ent m p i in
      if present e then if large (Z.of_nat l) e then e else bpte m (S l) (bchild e) path else 0
  end.
(** No large page is met on the way. *)
Fixpoint bno_large (m : pages) (l : nat) (p : Z) (path : list Z) : bool :=
  match path with
  | [] | [_] => true
  | i :: path =>
      let e := ent m p i in
      if present e then negb (large (Z.of_nat l) e) && bno_large m (S l) (bchild e) path else true
  end.

Abbreviation in_table := (Forall (λ i, 0 ≤ i < 512)).

Section tree.
(** [fresh] says that tables may be missing; without it, those on the way are there already. *)
Context (D : nat) (fresh : bool).
Implicit Types (own : gmap Z (list Z)) (st : pager).

(** [own] gives each table the indices that lead to it, and to it alone. *)
Record tree own (m : pages) (root : Z) : Prop := {
  tr_root : own !! root = Some [];
  tr_table : ∀ p path, own !! p = Some path → is_table m p ∧ (length path < D)%nat ∧ in_table path;
  tr_addr : ∀ p path, own !! p = Some path → 0 ≤ p < phys_limit ∧ p mod page_size = 0;
  tr_child : ∀ p path i, own !! p = Some path → (S (length path) < D)%nat → 0 ≤ i < 512 →
    present (ent m p i) = true → large (Z.of_nat (length path)) (ent m p i) = false →
    own !! bchild (ent m p i) = Some (path ++ [i]);
  tr_reach : ∀ p path, own !! p = Some path → btable_at m 0 root path = Some p;
}.
(** The pages of the cache are empty and in use nowhere. *)
Record cache own st : Prop := {
  ca_page : ∀ k, 0 ≤ k < table_count st →
    pmem st !! (table_ptr st + k * page_size) = Some (replicate 512 0) ∧ own !! (table_ptr st + k * page_size) = None;
  ca_ptr : 0 ≤ table_ptr st ∧ table_ptr st mod page_size = 0;
  ca_end : 0 ≤ table_count st ∧ table_ptr st + table_count st * page_size ≤ phys_limit;
}.
Record inv own st : Prop := { inv_tree : tree own (pmem st) (m_pml4 st); inv_cache : cache own st }.
(** On the indices [ix] no large page hides the tables below. *)
Definition clear own (m : pages) (ix : list Z) : Prop :=
  ∀ k t i, (S k < D)%nat → own !! t = Some (take k ix) → ix !! k = Some i →
    present (ent m t i) = true → large (Z.of_nat k) (ent m t i) = false.
(** New tables are pages of the cache, which are taken from its start. *)
Record grown own st own' st' : Prop := {
  gr_own : own ⊆ own';
  gr_count : table_count st' ≤ table_count st;
  gr_ptr : table_ptr st' = table_ptr st + (table_count st - table_count st') * page_size;
  gr_new : ∀ p path, own' !! p = Some path → own !! p = Some path ∨ ∃ k, 0 ≤ k < table_count st ∧ p = table_ptr st + k * page_size;
}.
(** The state changed by at most [n] new tables, and no translation. *)
Record extends own st own' st' (n : Z) : Prop := {
  ex_inv : inv own' st';
  ex_grown : grown own st own' st';
  ex_root : m_pml4 st' = m_pml4 st;
  ex_keeps : ∀ ix, length ix = D → in_table ix → bpte (pmem st') 0 (m_pml4 st) ix = bpte (pmem st) 0 (m_pml4 st) ix;
  ex_clear : ∀ ix, clear own (pmem st) ix → clear own' (pmem st') ix;
  ex_count : table_count st ≤ table_count st' + n;
}.

Definition ready own (ix : list Z) : Prop := ∀ k, (k < D)%nat → ∃ t, own !! t = Some (take k ix).
(** There are [n] pages, if tables may be missing; then [n] is also the number of new ones. *)
Definition room own st (ix : list Z) (n : Z) : Prop := if fresh then n ≤ table_count st else ready own ix.
Definition cost (n : Z) : Z := if fresh then n else 0.
Lemma cost_add a b : cost (a + b) = cost a + cost b.
Proof. unfold cost. by destruct fresh. Qed.
Lemma cost_le a b : a ≤ b → cost a ≤ cost b.
Proof. unfold cost. by destruct fresh. Qed.

Lemma grown_refl own st st' : table_count st' = table_count st → table_ptr st' = table_ptr st → grown own st own st'.
Proof. intros Hc Hp. split; [done|lia|lia|auto]. Qed.
Lemma grown_trans own st own1 st1 own2 st2 : 0 ≤ table_count st2 → grown own st own1 st1 → grown own1 st1 own2 st2 → grown own st own2 st2.
Proof.
  intros H0 [H1 H2 H3 H4] [G1 G2 G3 G4]. split; [by etrans|lia|lia|]. intros p path [Hp|(k & Hk & ->)]%G4; [by apply H4|].
  right. exists (table_count st - table_count st1 + k). split; [lia|]. rewrite H3. lia.
Qed.
Lemma extends_none own st n : inv own st → 0 ≤ n → extends own st own st (cost n).
Proof. intros H Hn. split; try done; [by apply grown_refl|]. unfold cost. destruct fresh; lia. Qed.
Lemma room_le own st ix a b : a ≤ b → room own st ix b → room own st ix a.
Proof. unfold room. destruct fresh; [lia|done]. Qed.
Lemma extends_weaken own st own' st' n n' : n ≤ n' → extends own st own' st' n → extends own st own' st' n'.
Proof. intros H []. split; try done. lia. Qed.
Lemma extends_trans own st own1 st1 own2 st2 n1 n2 :
  extends own st own1 st1 n1 → extends own1 st1 own2 st2 n2 → extends own st own2 st2 (n1 + n2).
Proof.
  intros [_ H1 H2 H3 H4 H5] [G0 G1 G2 G3 G4 G5]. split; [done|eapply grown_trans; [apply G0|done..]|congruence| |by auto|lia].
  intros ix Hl Hi. rewrite <- H3 by done. rewrite <- H2. by apply G3.
Qed.
Lemma room_extends own st own' st' ix a b : extends own st own' st' (cost a) → room own st ix (a + b) → room own' st' ix b.
Proof.
  intros [_ [Hs _ _ _] _ _ _ Hc]. unfold room, cost in *. destruct fresh; [lia|]. intros H k Hk. destruct (H k Hk) as [t Ht]. exists t. by eapply lookup_weaken.
Qed.

Lemma bpte_reach m l q path p i : btable_at m l q path = Some p → bpte m l q (path ++ [i]) = ent m p i.
Proof.
  revert l q. induction path as [|j path IH]; intros l q; cbn [btable_at]; [by intros [= ->]|].
  destruct (present (ent m q j)) eqn:Ep; cbn [andb]; [|done]. destruct (large (Z.of_nat l) (ent m q j)) eqn:El; [done|]. cbn [negb]. intros H.
  specialize (IH _ _ H). destruct path as [|j2 path]; cbn [app bpte] in *; by rewrite Ep, El.
Qed.
Lemma btable_at_app m l q a b :
  btable_at m l q (a ++ b) = match btable_at m l q a with Some r => btable_at m (l + length a) r b | None => None end.
Proof.
  revert l q. induction a as [|j a IH]; intros l q; cbn [app btable_at length]; [by rewrite Nat.add_0_r|].
  case_match; [|done]. rewrite IH. by replace (S l + length a)%nat with (l + S (length a))%nat by lia.
Qed.
Lemma bpte_zero m l p path : m !! p = Some (replicate 512 0) → bpte m l p path = 0.
Proof. intros H. destruct path as [|i [|j path]]; cbn [bpte]; [done|by apply ent_zero|]. by rewrite (ent_zero _ _ _ H). Qed.
(** Hidden pages, along the walk and by the owners of tables. *)
Lemma bno_large_reach m l q a p i j b : bno_large m l q (a ++ i :: j :: b) = true → btable_at m l q a = Some p →
  present (ent m p i) = true → large (Z.of_nat (l + length a)) (ent m p i) = false.
Proof.
  revert l q. induction a as [|x a IH]; intros l q; cbn [app btable_at length].
  - intros H [= ->] Hp. cbn [bno_large] in H. rewrite Hp in H. apply andb_true_iff in H as [H _]. rewrite Nat.add_0_r. by destruct (large _ _).
  - destruct (present (ent m q x)) eqn:Ep; [|done]. destruct (large (Z.of_nat l) (ent m q x)) eqn:El; [done|]. cbn [andb negb]. intros H Ht Hp.
    replace (l + S (length a))%nat with (S l + length a)%nat by lia. apply (IH (S l) _) with (2 := Ht); [|done].
    destruct a; cbn [app bno_large] in *; rewrite Ep, El in H; exact H.
Qed.
Lemma clear_no_large own m root ix : tree own m root → length ix = D → bno_large m 0 root ix = true → clear own m ix.
Proof.
  intros Ht Hl Hn k t i Hk Hown Hi Hp. apply (tr_reach _ _ _ Ht) in Hown.
  assert (E : ∃ j b, ix = take k ix ++ i :: j :: b).
  { destruct (ix !! S k) as [j|] eqn:Ej; [|apply lookup_ge_None in Ej; lia]. exists j, (drop (S (S k)) ix).
    rewrite <- (drop_S ix j (S k)), <- (drop_S ix i k) by done. by rewrite take_drop. }
  destruct E as (j & b & E). rewrite E in Hn. pose proof (bno_large_reach _ _ _ _ _ _ _ _ Hn Hown Hp) as H.
  rewrite length_take_le in H by lia. exact H.
Qed.

(** A table that is reached is owned. *)
Lemma reach_own own m root path q pq p : tree own m root → own !! q = Some pq → in_table path → (length pq + length path < D)%nat →
  btable_at m (length pq) q path = Some p → own !! p = Some (pq ++ path).
Proof.
  intros Htree. revert q pq. induction path as [|i path IH]; intros q pq Hq Hin Hl; cbn [btable_at].
  - intros [= <-]. by rewrite app_nil_r.
  - apply Forall_cons in Hin as [Hi Hin]. cbn [length] in Hl. destruct (present (ent m q i)) eqn:Ep; [|done]. destruct (large _ _) eqn:El; [done|]. cbn [andb negb]. intros H.
    pose proof (tr_child _ _ _ Htree _ _ _ Hq ltac:(lia) Hi Ep El) as Hc. specialize (IH _ _ Hc Hin). rewrite length_app, <- (assoc_L (++)) in IH. cbn [length] in IH.
    rewrite Nat.add_1_r in IH. apply IH; [lia|done].
Qed.

Lemma no_large_clear own m root ix q pq : tree own m root → own !! q = Some pq → (length pq + length ix)%nat = D → in_table ix →
  clear own m (pq ++ ix) → bno_large m (length pq) q ix = true.
Proof.
  intros Htree. revert q pq. induction ix as [|i ix IH]; intros q pq Hq Hl Hin Hcl; [done|]. destruct ix as [|j ix]; [done|].
  apply Forall_cons in Hin as [Hi Hin]. cbn [length] in Hl.
  change (bno_large m ?l q (i :: j :: ix)) with (if present (ent m q i) then negb (large (Z.of_nat l) (ent m q i)) && bno_large m (S l) (bchild (ent m q i)) (j :: ix) else true).
  destruct (present (ent m q i)) eqn:Ep; [|done].
  assert (El : large (Z.of_nat (length pq)) (ent m q i) = false).
  { apply (Hcl (length pq) q i); [lia|by rewrite take_app_length|by rewrite list_lookup_middle|done]. }
  rewrite El. cbn [negb andb]. pose proof (tr_child _ _ _ Htree _ _ _ Hq ltac:(lia) Hi Ep El) as Hc. specialize (IH _ _ Hc).
  rewrite length_app, <- (assoc_L (++)) in IH. cbn [length app] in IH. rewrite Nat.add_1_r in IH. apply IH; [lia|done|done].
Qed.

(** ** A new table *)

Lemma table_entry_spec t l : is_u64 t → t mod page_size = 0 →
  let e := Z.lor (Z.land t page_mask) boot_table_flags in present e = true ∧ large l e = false ∧ bchild e = t.
Proof.
  intros Ht Ha. replace (Z.land t page_mask) with t by (by rewrite <- (mask_aligned t 0), Z.lor_0_r at 1).
  cbv zeta. unfold present, large, bchild. rewrite !Z.lor_spec, mask_aligned by done.
  rewrite (aligned_low t 0), (aligned_low t 7) by (done || lia). split; [done|]. split; [apply andb_false_r|done].
Qed.

Section link.
Context (own : gmap Z (list Z)) (m : pages) (root p : Z) (path : list Z) (i t e : Z) (tp : list Z).
Context (Htree : tree own m root) (Hp : own !! p = Some path) (Hlen : (S (length path) < D)%nat) (Hi : 0 ≤ i < 512).
Context (Hmp : m !! p = Some tp) (Htp : length tp = 512%nat) (Habs : present (ent m p i) = false).
Context (Hmt : m !! t = Some (replicate 512 0)) (Hot : own !! t = None) (Hta : 0 ≤ t < phys_limit ∧ t mod page_size = 0).
Context (He : present e = true) (Hel : ∀ l, large l e = false) (Hec : bchild e = t).
Abbreviation m' := (<[p := <[Z.to_nat i := e]> tp]> m).
Abbreviation own' := (<[t := path ++ [i]]> own).

Lemma link_ent q j : ent m' q j = if decide (q = p ∧ j = i) then e else ent m q j.
Proof. by apply ent_write. Qed.
Lemma link_zero : m' !! t = Some (replicate 512 0).
Proof. rewrite lookup_insert_ne; [done|]. intros ->. congruence. Qed.
Lemma link_reach_old l q ix r : btable_at m l q ix = Some r → btable_at m' l q ix = Some r.
Proof.
  revert l q. induction ix as [|j ix IH]; intros l q; cbn [btable_at]; [done|]. rewrite link_ent.
  destruct (decide _) as [[-> ->]|_]; [by rewrite Habs|]. case_match; [apply IH|done].
Qed.
Lemma link_tree : tree own' m' root.
Proof.
  assert (Hne : ∀ q pq, own !! q = Some pq → t ≠ q) by congruence. destruct Htree as [Hr Ht Hta' Hc Hrc]. split.
  - rewrite lookup_insert_ne; [done|]. by eapply Hne.
  - intros q pq. destruct (decide (q = t)) as [->|Hq].
    + rewrite lookup_insert_eq. intros [= <-]. split; [exists (replicate 512 0); by rewrite link_zero|]. rewrite length_app; cbn [length]. split; [lia|].
      apply Forall_app. split; [by apply (Ht _ _ Hp)|by constructor].
    + rewrite lookup_insert_ne by done. intros Hown. destruct (Ht _ _ Hown) as (Htab & ?). split; [|done].
      apply is_table_insert; [by rewrite length_insert|done].
  - intros q pq. destruct (decide (q = t)) as [->|Hq]; [done|]. rewrite lookup_insert_ne by done. apply Hta'.
  - intros q pq j. destruct (decide (q = t)) as [->|Hq]; [by rewrite (ent_zero _ _ _ link_zero)|].
    rewrite lookup_insert_ne, link_ent by done. destruct (decide (q = p ∧ j = i)) as [[-> ->]|_].
    + intros Hown _ _ _ _. rewrite Hec, lookup_insert_eq. congruence.
    + intros Hown Hlq Hj Hpr Hlg. pose proof (Hc _ _ _ Hown Hlq Hj Hpr Hlg) as E. rewrite lookup_insert_ne; [done|]. by eapply Hne.
  - intros q pq. destruct (decide (q = t)) as [->|Hq].
    + rewrite lookup_insert_eq. intros [= <-]. rewrite btable_at_app, (link_reach_old _ _ _ p) by (by apply Hrc). cbn [btable_at].
      rewrite link_ent, decide_True by done. rewrite He, Hel. cbn [andb negb]. by rewrite Hec.
    + rewrite lookup_insert_ne by done. intros. by apply link_reach_old, Hrc.
Qed.
Lemma link_pte ix q pq : own !! q = Some pq → (length pq + length ix)%nat = D → in_table ix → bpte m' (length pq) q ix = bpte m (length pq) q ix.
Proof.
  revert q pq. induction ix as [|j ix IH]; intros q pq Hq Hl Hix; [done|]. apply Forall_cons in Hix as [Hj Hix]. destruct ix as [|j2 ix].
  - cbn [bpte length] in *. rewrite link_ent, decide_False; [done|]. intros [-> ->]. assert (pq = path) as -> by congruence. lia.
  - change (bpte ?m ?l q (j :: j2 :: ix)) with (if present (ent m q j) then if large (Z.of_nat l) (ent m q j) then ent m q j else bpte m (S l) (bchild (ent m q j)) (j2 :: ix) else 0).
    rewrite link_ent. destruct (decide (q = p ∧ j = i)) as [[-> ->]|_].
    + rewrite He, Hel, Hec, Habs. apply bpte_zero, link_zero.
    + destruct (present (ent m q j)) eqn:Ep; [|done]. destruct (large _ _) eqn:El; [done|].
      pose proof (tr_child _ _ _ Htree _ _ _ Hq ltac:(cbn [length] in Hl; lia) Hj Ep El) as Hc.
      specialize (IH _ _ Hc). rewrite length_app in IH. cbn [length] in IH, Hl. rewrite Nat.add_1_r in IH. apply IH; [lia|done].
Qed.
Lemma link_clear ix : clear own m ix → clear own' m' ix.
Proof.
  intros H k q j Hk. destruct (decide (q = t)) as [->|Hq]; [by rewrite (ent_zero _ _ _ link_zero)|].
  rewrite lookup_insert_ne, link_ent by done. destruct (decide _); [intros; apply Hel|by apply H].
Qed.
End link.

Section leaf.
Context (own : gmap Z (list Z)) (m : pages) (root p : Z) (path : list Z) (i v : Z) (tp : list Z).
Context (Htree : tree own m root) (Hp : own !! p = Some path) (Hlen : S (length path) = D) (Hi : 0 ≤ i < 512).
Context (Hmp : m !! p = Some tp) (Htp : length tp = 512%nat).
Abbreviation m' := (<[p := <[Z.to_nat i := v]> tp]> m).

Lemma leaf_ent q j : ent m' q j = if decide (q = p ∧ j = i) then v else ent m q j.
Proof. by apply ent_write. Qed.
Lemma leaf_ent_inner q pq j : own !! q = Some pq → (S (length pq) < D)%nat → ent m' q j = ent m q j.
Proof. intros Hq Hl. rewrite leaf_ent, decide_False; [done|]. intros [-> _]. assert (pq = path) as -> by congruence. lia. Qed.
Lemma leaf_reach ix q pq : own !! q = Some pq → (length pq + length ix < D)%nat → in_table ix → btable_at m' (length pq) q ix = btable_at m (length pq) q ix.
Proof.
  revert q pq. induction ix as [|j ix IH]; intros q pq Hq Hl Hix; [done|]. apply Forall_cons in Hix as [Hj Hix]. cbn [btable_at length] in *.
  rewrite (leaf_ent_inner _ _ _ Hq) by lia. destruct (present (ent m q j)) eqn:Ep; [|done]. destruct (large _ _) eqn:El; [done|]. cbn [andb negb].
  pose proof (tr_child _ _ _ Htree _ _ _ Hq ltac:(lia) Hj Ep El) as Hc. specialize (IH _ _ Hc). rewrite length_app in IH. cbn [length] in IH.
  rewrite Nat.add_1_r in IH. apply IH; [lia|done].
Qed.
Lemma leaf_tree : tree own m' root.
Proof.
  pose proof Htree as [Hr Ht Hta Hc Hrc]. split; [done| |done| |].
  - intros q pq Hq. destruct (Ht _ _ Hq) as (Htab & ?). split; [|done]. apply is_table_insert; [by rewrite length_insert|done].
  - intros q pq j Hq Hl. rewrite (leaf_ent_inner _ _ _ Hq Hl). by apply Hc.
  - intros q pq Hq. destruct (Ht _ _ Hq) as (_ & Hl & Hin). rewrite <- (Hrc _ _ Hq). apply (leaf_reach _ _ [] Hr); [done|done].
Qed.
Lemma leaf_pte_other ix q pq : own !! q = Some pq → (length pq + length ix)%nat = D → in_table ix → pq ++ ix ≠ path ++ [i] →
  bpte m' (length pq) q ix = bpte m (length pq) q ix.
Proof.
  revert q pq. induction ix as [|j ix IH]; intros q pq Hq Hl Hix Hne; [done|]. apply Forall_cons in Hix as [Hj Hix]. destruct ix as [|j2 ix].
  - cbn [bpte length] in *. rewrite leaf_ent, decide_False; [done|]. intros [-> ->]. apply Hne. congruence.
  - change (bpte ?m ?l q (j :: j2 :: ix)) with (if present (ent m q j) then if large (Z.of_nat l) (ent m q j) then ent m q j else bpte m (S l) (bchild (ent m q j)) (j2 :: ix) else 0).
    cbn [length] in Hl. rewrite (leaf_ent_inner _ _ _ Hq) by lia. destruct (present (ent m q j)) eqn:Ep; [|done]. destruct (large _ _) eqn:El; [done|].
    pose proof (tr_child _ _ _ Htree _ _ _ Hq ltac:(lia) Hj Ep El) as Hc.
    specialize (IH _ _ Hc). rewrite length_app in IH. cbn [length] in IH. rewrite Nat.add_1_r in IH. apply IH; [lia|done|]. by rewrite <- (assoc_L (++)).
Qed.
Lemma leaf_pte ix : length ix = D → in_table ix →
  bpte m' 0 root ix = if decide (ix = path ++ [i]) then v else bpte m 0 root ix.
Proof.
  intros Hl Hix. destruct (decide _) as [->|Hne].
  - rewrite (bpte_reach _ _ _ _ p) by (by apply (tr_reach _ _ _ leaf_tree)). by rewrite leaf_ent, decide_True.
  - by apply (leaf_pte_other ix root [] (tr_root _ _ _ Htree)).
Qed.
Lemma leaf_clear ix : clear own m ix → clear own m' ix.
Proof.
  intros H k q j Hk Hq Hj. rewrite (leaf_ent_inner _ _ _ Hq); [by apply H|]. rewrite length_take. lia.
Qed.
End leaf.

(** ** The iterator follows the tables *)

(** The first [a] tables of the iterator are those on the way to [ix]. *)
Definition on_path own (it : iterator) (ix : list Z) (a : nat) : Prop :=
  length (m_table it) = D ∧ ∀ k, (k < a)%nat → ∃ t, m_table it !! k = Some t ∧ own !! t = Some (take k ix).

Lemma on_path_mono own own' it ix a : own ⊆ own' → on_path own it ix a → on_path own' it ix a.
Proof. intros Hs [Hl H]. split; [done|]. intros k Hk. destruct (H k Hk) as (t & ? & ?). exists t. split; [done|]. by eapply lookup_weaken. Qed.
Lemma set_table_at it k t : (k < length (m_table it))%nat → set_table it (Z.of_nat k) t = Done (Iterator (<[k := t]> (m_table it)) (m_index it)).
Proof. intros Hk. unfold set_table. rewrite arr_set_Done by lia. cbn [mbind outcome_bind]. by rewrite Nat2Z.id. Qed.

Lemma pop_page own st : inv own st → 0 < table_count st →
  pop_pages st 1 = Done (table_ptr st, Pager (pmem st) (table_ptr st + page_size) (table_count st - 1) (m_pml4 st)).
Proof.
  intros [_ [Hpg Hptr Hend]] Hc. unfold pop_pages. rewrite (proj2 (Z.ltb_ge _ _)) by lia. rewrite wrap_small; [by rewrite Z.mul_1_l|].
  unfold is_word, page_size, phys_limit in *. lia.
Qed.
Lemma boot_link_inv own st p path i tp : inv own st → 0 < table_count st → own !! p = Some path → (S (length path) < D)%nat → 0 ≤ i < 512 →
  pmem st !! p = Some tp → length tp = 512%nat → present (ent (pmem st) p i) = false →
  let t := table_ptr st in
  let m' := <[p := <[Z.to_nat i := Z.lor (Z.land t page_mask) boot_table_flags]> tp]> (pmem st) in
  extends own st (<[t := path ++ [i]]> own) (Pager m' (t + page_size) (table_count st - 1) (m_pml4 st)) 1.
Proof.
  intros [Htree [Hpg [Hp0 Hpa] Hend]] Hc Hp Hl Hi Hmp Htp Habs t m'. subst t.
  assert (Ht : is_u64 (table_ptr st)) by (unfold is_word, page_size, phys_limit in *; lia).
  assert (Hta : 0 ≤ table_ptr st < phys_limit ∧ table_ptr st mod page_size = 0) by (unfold page_size in *; lia).
  destruct (Hpg 0) as [Hz Ho]; [lia|]. rewrite Z.add_0_r in Hz, Ho.
  pose proof (λ l, table_entry_spec (table_ptr st) l Ht Hpa) as Hs. destruct (Hs 0) as (He & _ & Hec).
  pose proof (λ l, proj1 (proj2 (Hs l))) as Hel.
  split; cbn [pmem table_ptr table_count m_pml4]; [split; cbn [pmem table_ptr table_count m_pml4]|..].
  - by apply link_tree.
  - split; cbn [pmem table_ptr table_count].
    + intros k Hk. destruct (Hpg (k + 1)) as [Hz1 Ho1]; [lia|]. replace (table_ptr st + page_size + k * page_size) with (table_ptr st + (k + 1) * page_size) by lia.
      assert (table_ptr st + (k + 1) * page_size ≠ table_ptr st) by (unfold page_size; lia).
      subst m'. rewrite !lookup_insert_ne by congruence. done.
    + split; [unfold page_size; lia|]. by rewrite <- (Z.mul_1_l page_size) at 1; rewrite Z.mod_add.
    + unfold page_size in *. lia.
  - split; cbn [pmem table_ptr table_count].
    + by apply insert_subseteq.
    + lia.
    + lia.
    + intros q pq. destruct (decide (q = table_ptr st)) as [->|Hq]; [|rewrite lookup_insert_ne by done; by left]. right. exists 0. split; lia.
  - done.
  - intros ix Hlx Hix. subst m'. by eapply (link_pte _ _ _ _ _ _ _ _ _ Htree Hp Hl Hi Hmp Htp Habs Hz Ho He Hel Hec ix (m_pml4 st) []); [apply Htree| |].
  - intros ix. subst m'. by apply link_clear.
  - lia.
Qed.

Lemma boot_ensure_step own st it ix k i : inv own st → in_table ix → clear own (pmem st) ix → room own st ix 1 → (S k < D)%nat →
  on_path own it ix (S k) → m_index it !! k = Some i → ix !! k = Some i →
  ∃ it' st' own', ensure_table D it st (S k) = Done (it', st') ∧ extends own st own' st' (cost 1) ∧ on_path own' it' ix (S (S k)) ∧ m_index it' = m_index it.
Proof.
  intros Hinv Hix Hcl Hc HD [Hlen Hon] Hi Hixk. destruct (Hon k) as (p & Hp & Hown); [lia|].
  assert (Hir : 0 ≤ i < 512) by (by eapply (Forall_lookup_1 _ _ _ _ Hix)).
  assert (Hlk : length (take k ix) = k) by (apply lookup_lt_Some in Hixk; rewrite length_take; lia).
  destruct (tr_table _ _ _ (inv_tree _ _ Hinv) _ _ Hown) as ((tp & Htp & Hl5) & _ & _). pose proof Hinv as [Htree Hcache].
  unfold ensure_table. rewrite (proj2 (Nat.leb_gt D (S k))) by lia. rewrite (arr_get_nat _ _ _ Hp), (arr_get_nat _ _ _ Hi).
  cbn [mbind outcome_bind]. rewrite rd_ent by (done || by exists tp). cbn [mbind outcome_bind]. fold (present (ent (pmem st) p i)).
  assert (Hon' : ∀ own1 t, own ⊆ own1 → own1 !! t = Some (take k ix ++ [i]) →
    on_path own1 (Iterator (<[S k := t]> (m_table it)) (m_index it)) ix (S (S k))).
  { intros own1 t Hs Ht. split; cbn [m_table]; [by rewrite length_insert|]. intros j Hj. destruct (decide (j = S k)) as [->|Hne].
    - exists t. rewrite list_lookup_insert_eq by lia. by rewrite (take_snoc _ _ _ Hixk).
    - destruct (Hon j) as (u & Hu & Hou); [lia|]. exists u. rewrite list_lookup_insert_ne by done. split; [done|]. by eapply lookup_weaken. }
  destruct (present (ent (pmem st) p i)) eqn:Ep; cbn [negb].
  - rewrite set_table_at by lia. cbn [mbind outcome_bind]. eexists _, st, own. split; [reflexivity|].
    split; [by apply extends_none|]. split; [|done]. apply Hon'; [done|]. fold (bchild (ent (pmem st) p i)).
    apply (tr_child _ _ _ Htree); [done|lia|done|done|]. rewrite Hlk. by apply (Hcl k p i).
  - unfold room, cost in *. destruct fresh.
    2: { destruct (Hc (S k) HD) as [t Ht]. apply (tr_reach _ _ _ Htree) in Ht. rewrite (take_snoc _ _ _ Hixk), btable_at_app in Ht.
         rewrite (tr_reach _ _ _ Htree _ _ Hown) in Ht. cbn [btable_at] in Ht. by rewrite Ep in Ht. }
    rewrite (pop_page own) by (done || lia). cbn [mbind outcome_bind pmem]. rewrite (wr_Done _ _ _ _ tp) by done. cbn [mbind outcome_bind].
    rewrite set_table_at by lia. cbn [mbind outcome_bind]. unfold with_pmem. cbn [table_ptr table_count m_pml4].
    eexists _, _, _. split; [reflexivity|]. split; [apply boot_link_inv; try done; lia|]. split; [|done]. apply Hon'; [|by rewrite lookup_insert_eq].
    apply insert_subseteq. destruct (ca_page _ _ Hcache 0) as [_ Ho]; [lia|]. by rewrite Z.add_0_r in Ho.
Qed.
Lemma ensure_tables_spec n own st it ix a : inv own st → in_table ix → clear own (pmem st) ix → length ix = D → (0 < a)%nat → (a + n)%nat = D →
  room own st ix (Z.of_nat n) → on_path own it ix a → m_index it = ix →
  ∃ it' st' own', ensure_tables D it st (seq a n) = Done (it', st') ∧ extends own st own' st' (cost (Z.of_nat n)) ∧ on_path own' it' ix D ∧ m_index it' = ix.
Proof.
  revert own st it a. induction n as [|n IH]; intros own st it a Hinv Hix Hcl Hl Ha Han Hc Hon Hi; cbn [seq ensure_tables].
  - replace a with D in Hon by lia. eexists it, st, own. split; [done|]. split; [by apply extends_none|done].
  - destruct a as [|k]; [lia|]. destruct (ix !! k) as [i|] eqn:Ei; [|apply lookup_ge_None in Ei; lia].
    destruct (boot_ensure_step own st it ix k i) as (it1 & st1 & own1 & -> & Hex & Hon1 & Hi1); [done|done|done|eapply room_le; [|done]; lia|lia|done|congruence|done|].
    cbn [mbind outcome_bind]. destruct (IH own1 st1 it1 (S (S k))) as (it2 & st2 & own2 & E2 & Hex2 & Hon2 & Hi2);
      [apply Hex|done|by apply (ex_clear _ _ _ _ _ Hex)|done|lia|lia|eapply room_extends; [done|]; eapply room_le; [|done]; lia|done|congruence|].
    eexists it2, st2, own2. split; [done|]. split; [|done]. rewrite Nat2Z.inj_succ. replace (Z.succ (Z.of_nat n)) with (1 + Z.of_nat n) by lia.
    rewrite cost_add. by eapply extends_trans.
Qed.

Lemma set_index_at it k i : (k < length (m_index it))%nat → set_index it (Z.of_nat k) i = Done (Iterator (m_table it) (<[k := i]> (m_index it))).
Proof. intros Hk. unfold set_index. rewrite arr_set_Done by lia. cbn [mbind outcome_bind]. by rewrite Nat2Z.id. Qed.
Lemma init_levels_spec n virt own st it ix k : inv own st → in_table ix → clear own (pmem st) ix → length ix = D → (S k + n)%nat = D →
  (∀ j, (j < D)%nat → ix !! j = Some (index_of virt j)) →
  room own st ix (Z.of_nat n) → on_path own it ix (S k) → length (m_index it) = D → take (S k) (m_index it) = take (S k) ix →
  ∃ it' st' own', init_levels D virt it st (seq (S k) n) = Done (it', st') ∧ extends own st own' st' (cost (Z.of_nat n)) ∧ on_path own' it' ix D ∧ m_index it' = ix.
Proof.
  revert own st it k. induction n as [|n IH]; intros own st it k Hinv Hix Hcl Hl Hkn Hv Hc Hon Hil Hi; cbn [seq init_levels].
  - replace (S k) with D in * by lia. eexists it, st, own. split; [done|]. split; [by apply extends_none|]. split; [done|].
    by rewrite !take_ge in Hi by lia.
  - rewrite set_index_at by lia. cbn [mbind outcome_bind]. set (it0 := Iterator _ _).
    assert (Hk0 : m_index it0 !! k = Some (index_of virt k)).
    { subst it0. cbn [m_index]. rewrite list_lookup_insert_ne by lia. rewrite <- (lookup_take_lt _ (S k)) by lia. rewrite Hi, lookup_take_lt by lia. apply Hv. lia. }
    destruct (boot_ensure_step own st it0 ix k (index_of virt k)) as (it1 & st1 & own1 & -> & Hex & Hon1 & Hi1); [done|done|done|eapply room_le; [|done]; lia|lia|done|done|apply Hv; lia|].
    cbn [mbind outcome_bind]. destruct (IH own1 st1 it1 (S k)) as (it2 & st2 & own2 & E2 & Hex2 & Hon2 & Hi2);
      [apply Hex|done|by apply (ex_clear _ _ _ _ _ Hex)|done|lia|done|eapply room_extends; [done|]; eapply room_le; [|done]; lia|done| | |].
    { rewrite Hi1. subst it0. cbn [m_index]. by rewrite length_insert. }
    { rewrite Hi1. subst it0. cbn [m_index]. rewrite (take_S_r _ _ (index_of virt (S k))) by (apply list_lookup_insert_eq; lia).
      rewrite (take_S_r ix _ (index_of virt (S k))) by (apply Hv; lia). rewrite take_insert_ge by lia. by rewrite Hi. }
    eexists it2, st2, own2. split; [done|]. split; [|done]. rewrite Nat2Z.inj_succ. replace (Z.succ (Z.of_nat n)) with (1 + Z.of_nat n) by lia.
    rewrite cost_add. by eapply extends_trans.
Qed.
Lemma entry_iterator_spec virt own st ix : (0 < D)%nat → inv own st → in_table ix → clear own (pmem st) ix → length ix = D →
  (∀ j, (j < D)%nat → ix !! j = Some (index_of virt j)) → room own st ix (Z.of_nat (D - 1)) →
  ∃ it st' own', entry_iterator D virt st = Done (it, st') ∧ extends own st own' st' (cost (Z.of_nat (D - 1))) ∧ on_path own' it ix D ∧ m_index it = ix.
Proof.
  intros HD Hinv Hix Hcl Hl Hv Hc. unfold entry_iterator. replace (seq 0 D) with (0%nat :: seq 1 (D - 1)) by (destruct D; [lia|]; cbn; by rewrite Nat.sub_0_r).
  cbn [init_levels]. change 0 with (Z.of_nat 0) at 1. rewrite set_index_at by (cbn [m_index]; rewrite length_replicate; lia).
  cbn [mbind outcome_bind ensure_table m_index m_table]. apply init_levels_spec; try done; cbn [m_index m_table]; [lia| | |].
  - split; cbn [m_table]; [cbn [length]; rewrite length_replicate; lia|]. intros k Hk. assert (k = 0%nat) as -> by lia. exists (m_pml4 st). split; [done|]. apply Hinv.
  - by rewrite length_insert, length_replicate.
  - rewrite (take_S_r _ 0 (index_of virt 0)) by (apply list_lookup_insert_eq; rewrite length_replicate; lia). by rewrite (take_S_r ix 0 (index_of virt 0)) by (apply Hv; lia).
Qed.

(** ** Pages by number *)

Definition digit (N : Z) (k : nat) : Z := N / 512 ^ Z.of_nat (D - 1 - k) mod 512.
Definition path_of (N : Z) : list Z := digit N <$> seq 0 D.
Lemma path_of_length N : length (path_of N) = D.
Proof. unfold path_of. by rewrite length_fmap, length_seq. Qed.
Lemma path_of_lookup N k : (k < D)%nat → path_of N !! k = Some (digit N k).
Proof. intros Hk. unfold path_of. by rewrite list_lookup_fmap, lookup_seq_lt by done. Qed.
Lemma digit_range N k : 0 ≤ digit N k < 512.
Proof. unfold digit. by apply Z.mod_pos_bound. Qed.
Lemma path_of_in_table N : in_table (path_of N).
Proof. apply Forall_fmap, Forall_true. intros k. apply digit_range. Qed.
Lemma boot_pow_split a b : 512 ^ Z.of_nat (a + b) = 512 ^ Z.of_nat a * 512 ^ Z.of_nat b.
Proof. rewrite Nat2Z.inj_add. apply Z.pow_add_r; lia. Qed.
Lemma pow_pos a : 0 < 512 ^ Z.of_nat a.
Proof. apply Z.pow_pos_nonneg; lia. Qed.
(** Numbers with the same quotient share the upper digits. *)
Lemma take_path N N' k : N / 512 ^ Z.of_nat (D - k) = N' / 512 ^ Z.of_nat (D - k) → take k (path_of N) = take k (path_of N').
Proof.
  intros E. apply list_eq. intros j. destruct (decide (j < k)%nat) as [Hj|Hj]; [|by rewrite !lookup_take_ge by lia].
  rewrite !lookup_take_lt by done. destruct (decide (j < D)%nat) as [HjD|HjD]; [|by rewrite !lookup_ge_None_2 by (rewrite path_of_length; lia)].
  rewrite !path_of_lookup by done. f_equal. unfold digit.
  destruct (decide (k <= D)%nat); [|by replace (D - k)%nat with 0%nat in E by lia; cbn [Z.of_nat] in E; rewrite !Z.div_1_r in E; subst].
  replace (D - 1 - j)%nat with ((D - k) + (k - 1 - j))%nat by lia. pose proof (pow_pos (D - k)). pose proof (pow_pos (k - 1 - j)).
  rewrite boot_pow_split, <- !Z.div_div, E by lia. done.
Qed.
Lemma path_of_inj N N' : (0 < D)%nat → 0 ≤ N < 512 ^ Z.of_nat D → 0 ≤ N' < 512 ^ Z.of_nat D → path_of N = path_of N' → N = N'.
Proof.
  intros HD HN HN' E. cut (∀ k, (k <= D)%nat → N / 512 ^ Z.of_nat (D - k) = N' / 512 ^ Z.of_nat (D - k)).
  { intros H. specialize (H D (le_n _)). rewrite Nat.sub_diag in H. by rewrite !Z.div_1_r in H. }
  induction k as [|k IH]; intros Hk; [by rewrite Nat.sub_0_r, !Z.div_small by lia|]. specialize (IH ltac:(lia)).
  assert (Ed : digit N k = digit N' k). { assert (H : path_of N !! k = path_of N' !! k) by by rewrite E. rewrite !path_of_lookup in H by lia. congruence. }
  unfold digit in Ed. replace (D - k)%nat with ((D - S k) + 1)%nat in IH by lia. replace (D - 1 - k)%nat with (D - S k)%nat in Ed by lia.
  pose proof (pow_pos (D - S k)). rewrite boot_pow_split, <- !Z.div_div in IH by lia. change (512 ^ Z.of_nat 1) with 512 in IH.
  rewrite (Z.div_mod (N / 512 ^ Z.of_nat (D - S k)) 512), (Z.div_mod (N' / 512 ^ Z.of_nat (D - S k)) 512) by lia. lia.
Qed.

(** ** The increment *)

(** What adding one does to the digit [i] when all digits below carry. *)
Lemma carry_digit N i : (i < D)%nat → (N + 1) mod 512 ^ Z.of_nat (D - S i) = 0 → 0 ≤ N →
  if digit N i + 1 <=? 511 then path_of (N + 1) = <[i := digit N i + 1]> (take i (path_of N) ++ replicate (D - i) 0) ∧
    N / 512 ^ Z.of_nat (D - i) = (N + 1) / 512 ^ Z.of_nat (D - i)
  else (N + 1) mod 512 ^ Z.of_nat (D - i) = 0.
Proof.
  intros Hi Hm HN. set (P := 512 ^ Z.of_nat (D - S i)) in *. assert (HP : 0 < P) by apply pow_pos. set (q := (N + 1) / P).
  assert (Hq : N + 1 = P * q) by (subst q; rewrite (Z.div_mod (N + 1) P) at 1 by lia; lia).
  assert (Eq : N / P = q - 1). { symmetry. apply (Z.div_unique _ _ _ (P - 1)); lia. }
  assert (Ep : 512 ^ Z.of_nat (D - i) = P * 512). { subst P. replace (D - i)%nat with ((D - S i) + 1)%nat by lia. by rewrite boot_pow_split. }
  assert (Ed : digit N i = (q - 1) mod 512). { unfold digit. replace (D - 1 - i)%nat with (D - S i)%nat by lia. fold P. by rewrite Eq. }
  rewrite Ep, Ed. destruct (Z.leb_spec ((q - 1) mod 512 + 1) 511) as [Hx|Hx].
  - assert (Eqd : (q - 1) / 512 = q / 512). { apply (Z.div_unique _ _ _ ((q - 1) mod 512 + 1)); [pose proof (Z.mod_pos_bound (q - 1) 512); lia|]. pose proof (Z.div_mod (q - 1) 512). lia. }
    assert (E2 : N / (P * 512) = (N + 1) / (P * 512)). { rewrite <- !Z.div_div by lia. rewrite Eq, Hq, (Z.mul_comm P), Z.div_mul by lia. done. }
    split; [|done]. assert (Et : take i (path_of N) = take i (path_of (N + 1))) by (by apply take_path; rewrite Ep).
    assert (Hlt : length (take i (path_of N)) = i) by (rewrite length_take, path_of_length; lia).
    apply list_eq. intros j. destruct (decide (j < i)%nat) as [Hj|Hj].
    { rewrite list_lookup_insert_ne, lookup_app_l, Et, lookup_take_lt by lia. done. }
    destruct (decide (j = i)) as [->|Hne].
    { rewrite list_lookup_insert_eq by (rewrite length_app, length_replicate; lia). rewrite path_of_lookup by done. f_equal. unfold digit.
      replace (D - 1 - i)%nat with (D - S i)%nat by lia. fold P. rewrite Hq, (Z.mul_comm P), Z.div_mul by lia.
      pose proof (Z.div_mod (q - 1) 512). symmetry. apply (Z.mod_unique _ _ ((q - 1) / 512)); pose proof (Z.mod_pos_bound (q - 1) 512); lia. }
    rewrite list_lookup_insert_ne, lookup_app_r, Hlt by lia. destruct (decide (j < D)%nat) as [HjD|HjD].
    + rewrite path_of_lookup, lookup_replicate_2 by lia. f_equal. unfold digit. rewrite Hq. subst P.
      replace (D - S i)%nat with ((D - 1 - j) + (1 + (j - S i)))%nat by lia. rewrite !boot_pow_split. pose proof (pow_pos (D - 1 - j)).
      rewrite <- Z.mul_assoc, (Z.mul_comm (512 ^ Z.of_nat (D - 1 - j))), Z.div_mul by lia. change (512 ^ Z.of_nat 1) with 512.
      rewrite <- Z.mul_assoc, Z.mul_comm. apply Z.mod_mul. lia.
    + rewrite !lookup_ge_None_2; rewrite ?length_replicate, ?path_of_length; lia || done.
  - assert (E512 : q mod 512 = 0). { pose proof (Z.div_mod (q - 1) 512). pose proof (Z.mod_pos_bound (q - 1) 512). symmetry. apply (Z.mod_unique _ _ ((q - 1) / 512 + 1)); lia. }
    apply Z.mod_divide; [lia|]. exists (q / 512). pose proof (Z.div_mod q 512). nia.
Qed.

(** The number of times that the quotients of numbers from [N] to [M] change: the tables that a run
    of pages can enter. *)
Fixpoint crossings (k : nat) (N M : Z) : Z :=
  match k with
  | O => 0
  | S j => M / 512 ^ Z.of_nat k - N / 512 ^ Z.of_nat k + crossings j N M
  end.
Lemma crossings_split k N M R : crossings k N R = crossings k N M + crossings k M R.
Proof. induction k as [|k IH]; cbn [crossings]; [done|]. rewrite IH. lia. Qed.
Lemma crossings_carry k c N : 0 ≤ N → (N + 1) mod 512 ^ Z.of_nat c = 0 → Z.of_nat (c `min` k) ≤ crossings k N (N + 1).
Proof.
  intros HN Hc. induction k as [|k IH]; cbn [crossings]; [lia|]. pose proof (pow_pos (S k)) as Hp.
  assert (N / 512 ^ Z.of_nat (S k) ≤ (N + 1) / 512 ^ Z.of_nat (S k)) by (apply Z.div_le_mono; lia).
  destruct (decide (S k <= c)%nat) as [Hle|]; [|lia]. cut (N / 512 ^ Z.of_nat (S k) < (N + 1) / 512 ^ Z.of_nat (S k)); [lia|].
  apply Z.mod_divide in Hc as [z Hz]; [|pose proof (pow_pos c); lia]. replace c with (S k + (c - S k))%nat in Hz by lia. rewrite boot_pow_split in Hz.
  rewrite Hz. replace N with (z * (512 ^ Z.of_nat (S k) * 512 ^ Z.of_nat (c - S k)) - 1) by lia.
  set (P := 512 ^ Z.of_nat (S k)) in *. replace (z * (P * 512 ^ Z.of_nat (c - S k))) with (z * 512 ^ Z.of_nat (c - S k) * P) by lia.
  rewrite Z.div_mul by lia. apply Z.div_lt_upper_bound; lia.
Qed.
Lemma crossings_nonneg k N M : N ≤ M → 0 ≤ crossings k N M.
Proof.
  intros H. induction k as [|k IH]; cbn [crossings]; [done|]. pose proof (pow_pos (S k)).
  pose proof (Z.div_le_mono N M (512 ^ Z.of_nat (S k)) ltac:(lia) H). lia.
Qed.

Lemma inc_loop_spec k own st it N : (k <= D)%nat → 0 ≤ N → N + 1 < 512 ^ Z.of_nat D →
  m_index it = take k (path_of N) ++ replicate (D - k) 0 → (N + 1) mod 512 ^ Z.of_nat (D - k) = 0 →
  inv own st → clear own (pmem st) (path_of (N + 1)) → on_path own it (path_of N) D → room own st (path_of (N + 1)) (crossings (D - 1) N (N + 1)) →
  ∃ it' st' own', inc_loop D k it st = Done (it', st') ∧ extends own st own' st' (cost (crossings (D - 1) N (N + 1))) ∧
    on_path own' it' (path_of (N + 1)) D ∧ m_index it' = path_of (N + 1).
Proof.
  revert it. induction k as [|i IH]; intros it Hk HN HN1 Hidx Hm Hinv Hcl Hon Hc.
  { rewrite Nat.sub_0_r, Z.mod_small in Hm by lia. lia. }
  pose proof (carry_digit N i ltac:(lia) Hm HN) as Hd. pose proof (digit_range N i) as Hr. cbn [inc_loop].
  assert (Hlt : length (take i (path_of N)) = i) by (rewrite length_take, path_of_length; lia).
  rewrite (take_snoc _ _ (digit N i)) in Hidx by (apply path_of_lookup; lia).
  assert (Hx : m_index it !! i = Some (digit N i)) by (rewrite Hidx, <- (assoc_L (++)), lookup_app_r, Hlt, Nat.sub_diag by lia; done).
  assert (Hins : ∀ x, <[i := x]> (m_index it) = <[i := x]> (take i (path_of N) ++ replicate (D - i) 0)).
  { intros x. rewrite Hidx, <- (assoc_L (++)). replace (D - i)%nat with (S (D - S i)) by lia. cbn [app]. rewrite !insert_app_r_alt, Hlt, Nat.sub_diag by lia. done. }
  assert (Hli : length (m_index it) = D) by (rewrite Hidx, !length_app, Hlt, length_replicate; cbn [length]; lia).
  rewrite (arr_get_nat _ _ _ Hx). cbn [mbind outcome_bind]. rewrite wrap_small by (unfold is_word; lia).
  destruct (Z.leb_spec (digit N i + 1) 511) as [Hle|Hgt]; rewrite set_index_at by lia; cbn [mbind outcome_bind].
  - destruct Hd as [Hp Hq]. rewrite Hins, <- Hp. pose proof (crossings_carry (D - 1) (D - S i) N HN Hm) as Hcr. rewrite Nat.min_l in Hcr by lia.
    destruct (ensure_tables_spec (D - S i) own st (Iterator (m_table it) (path_of (N + 1))) (path_of (N + 1)) (S i)) as (it' & st' & own' & E & Hex & Hon' & Hi');
      [done|apply path_of_in_table|done|apply path_of_length|lia|lia|by eapply room_le| |done|].
    { destruct Hon as [Hl Hon]. split; [done|]. intros k Hk'. destruct (Hon k) as (t & ? & Ht); [lia|]. exists t. split; [done|]. rewrite Ht. f_equal.
      apply take_path. replace (D - k)%nat with ((D - i) + (i - k))%nat by lia. pose proof (pow_pos (D - i)). pose proof (pow_pos (i - k)).
      rewrite boot_pow_split, <- !Z.div_div, Hq by lia. done. }
    exists it', st', own'. split; [done|]. split; [|done]. eapply extends_weaken; [|done]. by apply cost_le.
  - rewrite Hins. apply IH; try done; [lia|]. cbn [m_index]. replace (D - i)%nat with (S (D - S i)) by lia. cbn [replicate].
    by rewrite insert_app_r_alt, Hlt, Nat.sub_diag by lia.
Qed.

(** ** Runs of entries *)

Lemma write_entry_spec own st it N v : (0 < D)%nat → 0 ≤ N < 512 ^ Z.of_nat D → inv own st → on_path own it (path_of N) D → m_index it = path_of N →
  ∃ st', write_entry D it st v = Done st' ∧ inv own st' ∧ m_pml4 st' = m_pml4 st ∧ (table_count st' = table_count st ∧ table_ptr st' = table_ptr st) ∧
    (∀ ix, clear own (pmem st) ix → clear own (pmem st') ix) ∧
    ∀ M, 0 ≤ M < 512 ^ Z.of_nat D → bpte (pmem st') 0 (m_pml4 st) (path_of M) = if decide (M = N) then v else bpte (pmem st) 0 (m_pml4 st) (path_of M).
Proof.
  intros HD HN [Htree Hca] [Hl Hon] Hi. destruct (Hon (D - 1)%nat) as (p & Hp & Hown); [lia|].
  assert (Hd : path_of N !! (D - 1)%nat = Some (digit N (D - 1))) by (apply path_of_lookup; lia). pose proof (digit_range N (D - 1)) as Hr.
  assert (Hlen : S (length (take (D - 1) (path_of N))) = D) by (rewrite length_take, path_of_length; lia).
  destruct (tr_table _ _ _ Htree _ _ Hown) as ((tp & Htp & Hl5) & _). unfold write_entry. rewrite (arr_get_nat _ _ _ Hp), Hi, (arr_get_nat _ _ _ Hd).
  cbn [mbind outcome_bind]. rewrite (wr_Done _ _ _ _ tp) by done. cbn [mbind outcome_bind]. eexists. split; [reflexivity|].
  unfold with_pmem. cbn [pmem m_pml4 table_count]. split; [|split; [done|split; [done|split]]].
  - split; cbn [pmem m_pml4]; [by eapply leaf_tree|]. destruct Hca as [Hpg Hp1 Hp2]. split; cbn [pmem table_ptr table_count]; [|done..].
    intros k Hk. destruct (Hpg k Hk) as [? Hno]. split; [|done]. rewrite lookup_insert_ne; [done|]. intros ->. congruence.
  - intros ix. by eapply leaf_clear.
  - intros M HM. rewrite (leaf_pte own) with (path := take (D - 1) (path_of N)); try done; [|apply path_of_length|apply path_of_in_table].
    assert (E : take (D - 1) (path_of N) ++ [digit N (D - 1)] = path_of N).
    { rewrite <- take_snoc by done. apply take_ge. rewrite path_of_length. lia. }
    rewrite E. destruct (decide (path_of M = path_of N)) as [Heq|Hne].
    + apply path_of_inj in Heq as ->; [|done..]. by rewrite decide_True.
    + rewrite decide_False; [done|]. intros ->. done.
Qed.

(** The value of page [M] of a run that starts with [N]. *)
Definition run_entry (N phys step flags M : Z) : Z := Z.lor (u64 (phys + (M - N) * step)) flags.
(** The pages for a run of [n] more entries. *)
Definition room_run own st (N n : Z) : Prop :=
  if fresh then crossings (D - 1) N (N + n) ≤ table_count st else ∀ j, 0 ≤ j ≤ n → ready own (path_of (N + j)).
Lemma room_run_next own st N n : 0 < n → room_run own st N n → room own st (path_of (N + 1)) (crossings (D - 1) N (N + 1)).
Proof.
  intros Hn. unfold room_run, room. destruct fresh; [|intros H; apply H; lia]. rewrite (crossings_split _ _ (N + 1)).
  pose proof (crossings_nonneg (D - 1) (N + 1) (N + n)). lia.
Qed.
Lemma room_run_extends own st own' st' N n : 0 < n → extends own st own' st' (cost (crossings (D - 1) N (N + 1))) → room_run own st N n → room_run own' st' (N + 1) (n - 1).
Proof.
  intros Hn [_ [Hs _ _ _] _ _ _ Hc]. unfold room_run, cost in *. replace (N + 1 + (n - 1)) with (N + n) by lia. destruct fresh.
  - rewrite (crossings_split _ _ (N + 1)). lia.
  - intros H j Hj k Hk. replace (N + 1 + j) with (N + (j + 1)) by lia. destruct (H (j + 1) ltac:(lia) k Hk) as [t Ht]. exists t. by eapply lookup_weaken.
Qed.
Lemma map_loop_spec n own st it N phys step flags : (0 < D)%nat → 0 ≤ N → N + Z.of_nat (S n) ≤ 512 ^ Z.of_nat D → is_u64 phys →
  inv own st → on_path own it (path_of N) D → m_index it = path_of N →
  (∀ j, 0 ≤ j ≤ Z.of_nat n → clear own (pmem st) (path_of (N + j))) → room_run own st N (Z.of_nat n) →
  ∃ st' own', map_loop D (S n) it st phys step flags = Done st' ∧ inv own' st' ∧ m_pml4 st' = m_pml4 st ∧ grown own st own' st' ∧ (∀ ix, clear own (pmem st) ix → clear own' (pmem st') ix) ∧
    table_count st ≤ table_count st' + cost (crossings (D - 1) N (N + Z.of_nat n)) ∧
    ∀ M, 0 ≤ M < 512 ^ Z.of_nat D → bpte (pmem st') 0 (m_pml4 st) (path_of M) =
      if decide (N ≤ M ≤ N + Z.of_nat n) then run_entry N phys step flags M else bpte (pmem st) 0 (m_pml4 st) (path_of M).
Proof.
  intros HD. revert own st it N phys. induction n as [|n IH]; intros own st it N phys HN HNn Hph Hinv Hon Hi Hcl Hc.
  - cbn [map_loop]. destruct (write_entry_spec own st it N (Z.lor phys flags)) as (st1 & -> & Hinv1 & Hr1 & [Hc1 Hp1] & Hcl1 & Hm1); [done|lia|done|done|done|].
    cbn [mbind outcome_bind]. exists st1, own. split; [done|]. split; [done|]. split; [done|]. split; [by apply grown_refl|]. split; [done|].
    split; [pose proof (cost_le _ _ (crossings_nonneg (D - 1) N (N + Z.of_nat 0) ltac:(lia))) as H; unfold cost in *; destruct fresh; lia|].
    intros M HM. rewrite Hm1 by done. destruct (decide (M = N)) as [->|].
    + rewrite decide_True by lia. unfold run_entry. replace (phys + (N - N) * step) with phys by lia. by rewrite wrap_small.
    + by rewrite decide_False by lia.
  - change (map_loop D (S (S n)) it st phys step flags) with
      (let* st := write_entry D it st (Z.lor phys flags) in let* (it, st) := boot_increment D it st in map_loop D (S n) it st (u64 (phys + step)) step flags).
    destruct (write_entry_spec own st it N (Z.lor phys flags)) as (st1 & -> & Hinv1 & Hr1 & [Hc1 Hp1] & Hcl1 & Hm1); [done|lia|done|done|done|].
    cbn [mbind outcome_bind]. assert (Hc' : room_run own st1 N (Z.of_nat (S n))) by (unfold room_run in *; destruct fresh; [lia|done]).
    destruct (inc_loop_spec D own st1 it N) as (it2 & st2 & own2 & E2 & Hex & Hon2 & Hi2); try done; [lia| | |apply Hcl1, Hcl; lia|by eapply room_run_next; [|done]; lia|].
    { rewrite Nat.sub_diag. cbn [replicate]. rewrite app_nil_r, take_ge; [done|]. by rewrite path_of_length. }
    { rewrite Nat.sub_diag. apply Z.mod_1_r. }
    unfold boot_increment. rewrite E2. cbn [mbind outcome_bind]. pose proof (ex_count _ _ _ _ _ Hex). pose proof (ex_root _ _ _ _ _ Hex) as Hr2.
    destruct (IH own2 st2 it2 (N + 1) (u64 (phys + step))) as (st3 & own3 & E3 & Hinv3 & Hr3 & Hs3 & Hcl3 & Hc3 & Hm3); try done;
      [lia|lia|apply wrap_range; lia|apply Hex| | |].
    { intros j Hj. replace (N + 1 + j) with (N + (j + 1)) by lia. apply (ex_clear _ _ _ _ _ Hex), Hcl1, Hcl. lia. }
    { replace (Z.of_nat n) with (Z.of_nat (S n) - 1) by lia. by eapply room_run_extends; [lia|..]. }
    replace (N + 1 + Z.of_nat n) with (N + Z.of_nat (S n)) in * by lia.
    exists st3, own3. split; [done|]. split; [done|]. split; [congruence|]. split; [eapply grown_trans; [apply Hinv3|by apply (grown_refl own st st1)|]; eapply grown_trans; [apply Hinv3|apply Hex|done]|].
    split; [intros ix Hx; by apply Hcl3, (ex_clear _ _ _ _ _ Hex), Hcl1|].
    split; [rewrite (crossings_split _ _ (N + 1)), cost_add; lia|]. intros M HM. rewrite Hr2, Hr1 in Hm3. rewrite Hm3 by done.
    pose proof (ex_keeps _ _ _ _ _ Hex (path_of M) (path_of_length _) (path_of_in_table _)) as Hk. rewrite Hr1 in Hk. rewrite Hk, Hm1 by done.
    destruct (decide (M = N)) as [->|HMN].
    + rewrite decide_False, decide_True by lia. unfold run_entry. replace (phys + (N - N) * step) with phys by lia. by rewrite wrap_small.
    + destruct (decide (N + 1 ≤ M ≤ N + Z.of_nat (S n))).
      * rewrite decide_True by lia. unfold run_entry. f_equal. rewrite wrap_add_l by lia. f_equal. lia.
      * by rewrite decide_False by lia.
Qed.
End tree.

(** ** Mapping pages *)

Definition pager_ok (st : pager) : Prop := ∃ own, inv 4 own st.
(** The number of the page of an address, its indices, and the entry that the processor uses for it. *)
Definition vpage (v : Z) : Z := v / page_size mod 2 ^ 36.
Definition indices (v : Z) : list Z := index_of v <$> seq 0 4.
Definition translation (st : pager) (v : Z) : Z := bpte (pmem st) 0 (m_pml4 st) (indices v).

Lemma index_of_div v i : (i <= 3)%nat → index_of v i = v / 2 ^ (12 + 9 * (3 - Z.of_nat i)) mod 512.
Proof.
  intros Hi. unfold index_of. change 0x1ff with (Z.ones 9). rewrite Z.land_ones, Z.shiftr_div_pow2 by lia. apply wrap_small.
  unfold is_word. pose proof (Z.mod_pos_bound (v / 2 ^ (12 + 9 * (3 - Z.of_nat i))) 512). lia.
Qed.
(** The indices of an address are the digits of the number of its page, of any of the levels. *)
Lemma index_digit D v k : (D <= 4)%nat → (k < D)%nat → digit D (v / 2 ^ (12 + 9 * (4 - Z.of_nat D)) mod 512 ^ Z.of_nat D) k = index_of v k.
Proof.
  intros HD Hk. rewrite index_of_div by lia. unfold digit. set (a := 12 + 9 * (4 - Z.of_nat D)).
  replace (512 ^ Z.of_nat (D - 1 - k)) with (2 ^ (9 * (Z.of_nat D - 1 - Z.of_nat k))).
  2: { rewrite Z.pow_mul_r by lia. change (2 ^ 9) with 512. f_equal. lia. }
  change 512 with (2 ^ 9). rewrite <- Z.pow_mul_r by lia. apply Z.bits_inj'. intros b Hb.
  destruct (Z.ltb_spec b 9); [|by rewrite !Z.mod_pow2_bits_high by lia].
  rewrite !(Z.mod_pow2_bits_low _ 9), !Z.div_pow2_bits, Z.mod_pow2_bits_low, Z.div_pow2_bits by lia. f_equal. lia.
Qed.
Lemma indices_path v : indices v = path_of 4 (vpage v).
Proof.
  unfold indices, path_of. apply list_fmap_ext. intros i k [-> Hi]%lookup_seq. symmetry. by apply (index_digit 4).
Qed.
Lemma vpage_range v : 0 ≤ vpage v < 2 ^ 36.
Proof. apply Z.mod_pos_bound. lia. Qed.
Lemma vpage_address N : 0 ≤ N < 2 ^ 36 → is_u64 (N * page_size) ∧ vpage (N * page_size) = N.
Proof. intros H. unfold is_word, vpage, page_size in *. rewrite Z.div_mul, Z.mod_small by lia. lia. Qed.

(** What a run of pages needs: no address past the end, no large page on the way, and pages for tables. *)
Record can_map (st : pager) (virt count : Z) : Prop := {
  cm_count : 0 < count ∧ vpage virt + count ≤ 2 ^ 36;
  cm_large : ∀ v, is_u64 v → vpage virt ≤ vpage v < vpage virt + count → bno_large (pmem st) 0 (m_pml4 st) (indices v) = true;
  cm_room : 3 + crossings 3 (vpage virt) (vpage virt + (count - 1)) ≤ table_count st;
}.
Lemma map_pages_spec own st phys virt count write_flag exe_flag : inv 4 own st → is_u64 phys → can_map st virt count →
  ∃ st' own', map_pages st phys virt count write_flag exe_flag = Done st' ∧ inv 4 own' st' ∧ m_pml4 st' = m_pml4 st ∧ grown own st own' st' ∧
    (∃ t, own' !! t = Some (take 3 (indices virt))) ∧
    (∀ v, bno_large (pmem st) 0 (m_pml4 st) (indices v) = true → bno_large (pmem st') 0 (m_pml4 st') (indices v) = true) ∧
    table_count st ≤ table_count st' + 3 + crossings 3 (vpage virt) (vpage virt + (count - 1)) ∧
    ∀ v, translation st' v =
      if decide (vpage virt ≤ vpage v < vpage virt + count)
      then Z.lor (u64 (phys + (vpage v - vpage virt) * page_size)) (flags_for write_flag exe_flag)
      else translation st v.
Proof.
  intros Hinv Hph [[Hc Htop] Hnl Hroom]. set (N := vpage virt) in *. pose proof (vpage_range virt) as HN. fold N in HN.
  assert (Hclear : ∀ M, N ≤ M < N + count → clear 4 own (pmem st) (path_of 4 M)).
  { intros M HM. destruct (vpage_address M) as [Hu HMv]; [lia|]. apply (clear_no_large 4 own _ (m_pml4 st)); [apply Hinv|apply path_of_length|].
    specialize (Hnl _ Hu). rewrite indices_path, HMv in Hnl. by apply Hnl. }
  unfold map_pages. rewrite (proj2 (Z.eqb_neq _ _)) by lia.
  pose proof (crossings_nonneg 3 N (N + (count - 1)) ltac:(lia)) as Hcn.
  destruct (entry_iterator_spec 4 true virt own st (path_of 4 N)) as (it & st1 & own1 & -> & Hex & Hon & Hi);
    [lia|done|apply path_of_in_table|apply Hclear; lia|apply path_of_length| |unfold room; cbn; lia|].
  { intros j Hj. rewrite path_of_lookup by done. f_equal. apply (index_digit 4); lia. }
  cbn [mbind outcome_bind]. pose proof (ex_count _ _ _ _ _ _ Hex) as Hc1. cbn in Hc1. pose proof (ex_root _ _ _ _ _ _ Hex) as Hr1.
  destruct (Z.to_nat count) as [|n] eqn:En; [lia|]. assert (Hn : Z.of_nat n = count - 1) by lia.
  destruct (map_loop_spec 4 true n own1 st1 it N phys page_size (flags_for write_flag exe_flag)) as (st2 & own2 & -> & Hinv2 & Hr2 & Hg2 & Hcl2 & Hc2 & Hm2);
    [lia|lia|change (512 ^ Z.of_nat 4) with (2 ^ 36); lia|done|apply Hex|done|done| | |].
  { intros j Hj. apply (ex_clear _ _ _ _ _ _ Hex), Hclear. lia. }
  { unfold room_run. rewrite Hn. cbn [Nat.sub]. lia. }
  exists st2, own2. split; [done|]. split; [done|]. split; [congruence|]. split; [eapply grown_trans; [apply Hinv2|apply Hex|done]|]. split.
  { destruct (proj2 Hon 3%nat) as (t & _ & Ht); [lia|]. exists t. rewrite indices_path. eapply lookup_weaken; [done|apply Hg2]. }
  split.
  { intros v Hv. rewrite indices_path in *. apply (no_large_clear 4 own2 _ _ _ _ [] (inv_tree _ _ _ Hinv2)); [apply Hinv2|apply path_of_length|apply path_of_in_table|].
    apply Hcl2, (ex_clear _ _ _ _ _ _ Hex), (clear_no_large 4 own _ (m_pml4 st)); [apply Hinv|apply path_of_length|done]. }
  rewrite Hn in Hc2, Hm2. cbn [cost Nat.sub] in Hc2. split; [lia|].
  intros v. unfold translation. rewrite Hr2, indices_path. pose proof (vpage_range v). rewrite (Hm2 (vpage v)) by done.
  rewrite Hr1, (ex_keeps _ _ _ _ _ _ Hex) by (apply path_of_length || apply path_of_in_table). by repeat case_decide; try lia.
Qed.

(** When the pages of a range of addresses are mapped, each gets the entry for its page of
    physical memory with the flags asked for, and every other address keeps the entry it had.  The
    call returns: three tables and one for each border of a table that the range crosses are enough. *)
Theorem map_pages_maps st phys virt count write_flag exe_flag :
  pager_ok st → is_u64 phys → can_map st virt count →
  ∃ st', map_pages st phys virt count write_flag exe_flag = Done st' ∧ pager_ok st' ∧ m_pml4 st' = m_pml4 st ∧
    table_count st ≤ table_count st' + 3 + crossings 3 (vpage virt) (vpage virt + (count - 1)) ∧
    ∀ v, translation st' v =
      if decide (vpage virt ≤ vpage v < vpage virt + count)
      then Z.lor (u64 (phys + (vpage v - vpage virt) * page_size)) (flags_for write_flag exe_flag)
      else translation st v.
Proof.
  intros [own Hinv] Hph Hcm. destruct (map_pages_spec own st phys virt count write_flag exe_flag Hinv Hph Hcm) as (st' & own' & -> & Hinv' & Hr & _ & _ & _ & Hc & Ht).
  exists st'. split; [done|]. split; [by exists own'|]. by split.
Qed.

(** A table that a mapping needs and that was not there is a page of the cache as it was before. *)
Lemma new_table_from_cache own st phys virt count write_flag exe_flag : inv 4 own st → is_u64 phys → can_map st virt count →
  btable_at (pmem st) 0 (m_pml4 st) (take 3 (indices virt)) = None →
  ∃ st' own' k, map_pages st phys virt count write_flag exe_flag = Done st' ∧ inv 4 own' st' ∧ 0 ≤ k < table_count st ∧
    btable_at (pmem st') 0 (m_pml4 st') (take 3 (indices virt)) = Some (table_ptr st + k * page_size).
Proof.
  intros Hinv Hph Hcm Hno. destruct (map_pages_spec own st phys virt count write_flag exe_flag Hinv Hph Hcm) as (st' & own' & E & Hinv' & Hr & Hg & (t & Ht) & _).
  pose proof (tr_reach _ _ _ _ (inv_tree _ _ _ Hinv') _ _ Ht) as Hreach. destruct (gr_new _ _ _ _ Hg _ _ Ht) as [Hold|(k & Hk & ->)].
  - apply (tr_reach _ _ _ _ (inv_tree _ _ _ Hinv)) in Hold. congruence.
  - by exists st', own', k.
Qed.

(** ** The tables of a new pager *)

(** A tree whose second level has large pages only is a tree of four levels. *)
Lemma tree_widen own m root : tree 2 own m root →
  (∀ ix, length ix = 2%nat → in_table ix → present (bpte m 0 root ix) = true → large 1 (bpte m 0 root ix) = true) → tree 4 own m root.
Proof.
  intros [Hr Ht Hta Hc Hrc] Hlg. split; [done| |done| |done].
  - intros p path Hp. destruct (Ht _ _ Hp) as (? & ? & ?). split; [done|]. split; [lia|done].
  - intros p path i Hp Hl Hi Hpr Hnl. destruct (Ht _ _ Hp) as (_ & Hl2 & Hin). destruct path as [|j [|? ?]]; cbn [length] in *; [|exfalso|lia].
    + apply (Hc p []); try done. cbn [length]. lia.
    + pose proof (bpte_reach _ _ _ _ _ i (Hrc _ _ Hp)) as E. cbn [app] in E. specialize (Hlg [j; i] eq_refl). rewrite E in Hlg.
      change (Z.of_nat 1) with 1 in Hnl. rewrite Hlg in Hnl; [done| |done]. apply Forall_cons in Hin as [? _]. by apply Forall_cons_2, Forall_cons_2, Forall_nil_2.
Qed.
(** Four levels of which the second ends the walk. *)
Lemma bpte_two m root i j r : r ≠ [] → let e := bpte m 0 root [i; j] in (present e = true → large 1 e = true) → (present e = false → e = 0) → bpte m 0 root (i :: j :: r) = e.
Proof.
  intros Hr e Hlg Hz. destruct r as [|a r]; [done|]. subst e. cbn [bpte] in *. change (Z.of_nat 1) with 1 in *. destruct (present (ent m root i)); [|done].
  destruct (large (Z.of_nat 0) (ent m root i)) eqn:E; [by unfold large in E|]. destruct (present (ent m (bchild (ent m root i)) j)) eqn:Ep.
  - by rewrite Hlg.
  - symmetry. by apply Hz.
Qed.

Section new_pager.
Context (addr : Z) (m : pages).
Definition pd (i : Z) : Z := addr + page_size + (i - kernel_root_index) * page_size.
Definition own0 : gmap Z (list Z) := list_to_map ((addr, []) :: ((λ i, (pd i, [i])) <$> seqZ 256 256)).
Abbreviation cleared := (λ (m : pages) k, <[addr + Z.of_nat k * page_size := replicate 512 0]> m).

Lemma pd_inj i j : pd i = pd j → i = j.
Proof. unfold pd, page_size. lia. Qed.
Lemma own0_spec p path : own0 !! p = Some path ↔ p = addr ∧ path = [] ∨ ∃ i, 256 ≤ i < 512 ∧ p = pd i ∧ path = [i].
Proof.
  unfold own0. rewrite <- elem_of_list_to_map.
  - rewrite elem_of_cons, list_elem_of_fmap. split; (intros [?|(i & ? & ?)]; [left|right; exists i]); [naive_solver| |naive_solver|].
    + rewrite elem_of_seqZ in *. split; [lia|naive_solver].
    + rewrite elem_of_seqZ. split; [naive_solver|lia].
  - cbn [fmap list_fmap]. constructor.
    + rewrite <- list_fmap_compose. intros (i & Hi & Hin)%list_elem_of_fmap. apply elem_of_seqZ in Hin. unfold compose, pd, page_size in Hi. cbn [fst] in Hi. change kernel_root_index with 256 in Hi. lia.
    + rewrite <- list_fmap_compose. apply NoDup_fmap_2; [|apply NoDup_seqZ]. intros i j. apply pd_inj.
Qed.
Lemma cleared_pages n k : (k < n)%nat → foldl cleared m (seq 0 n) !! (addr + Z.of_nat k * page_size) = Some (replicate 512 0).
Proof.
  induction n as [|n IH]; intros Hk; [lia|]. rewrite seq_S, foldl_app. cbn [foldl]. destruct (decide (k = n)) as [->|]; [by rewrite lookup_insert_eq|].
  rewrite lookup_insert_ne by (unfold page_size; lia). apply IH. lia.
Qed.
Context (Haddr : 0 ≤ addr ∧ addr mod page_size = 0) (Hend : addr + tables_needed * page_size ≤ phys_limit).
Lemma set_pds_spec is_ m0 t : m0 !! addr = Some t → length t = 512%nat → Forall (λ i, 256 ≤ i < 512) is_ →
  ∃ t', set_pds m0 addr (addr + page_size) is_ = Done (<[addr := t']> m0) ∧ length t' = 512%nat ∧
    ∀ j, znth t' j = if decide (j ∈ is_) then Z.lor (pd j) boot_table_flags else znth t j.
Proof.
  revert m0 t. induction is_ as [|i is_ IH]; intros m0 t Ht Hl Hf; cbn [set_pds].
  - exists t. rewrite insert_id by done. split; [done|]. split; [done|]. intros j. by rewrite decide_False by apply not_elem_of_nil.
  - apply Forall_cons in Hf as [Hi Hf]. unfold table_set. rewrite (wr_Done _ _ _ _ t) by (done || lia). cbn [mbind outcome_bind].
    destruct (IH (<[addr := <[Z.to_nat i := Z.lor (pd i) boot_table_flags]> t]> m0) (<[Z.to_nat i := Z.lor (pd i) boot_table_flags]> t)) as (t' & E & Hl' & Hz);
      [by rewrite lookup_insert_eq|by rewrite length_insert|done|].
    exists t'. split; [|split; [done|]].
    + rewrite insert_insert_eq in E. rewrite <- E. repeat f_equal. rewrite wrap_small; [done|]. unfold is_word, phys_limit, page_size, tables_needed, pd_tables, extra_tables in *. change kernel_root_index with 256. lia.
    + intros j. rewrite Hz, znth_insert by lia. destruct (decide (j ∈ is_)) as [Hj|Hj].
      * by rewrite (decide_True (P := j ∈ i :: is_)) by (apply elem_of_cons; by right).
      * destruct (decide (j = i)) as [->|Hne].
        { rewrite (decide_True (P := i ∈ i :: is_)) by (apply elem_of_cons; by left). by rewrite decide_True. }
        rewrite (decide_False (P := i = j)) by congruence. rewrite (decide_False (P := j ∈ i :: is_)) by (rewrite not_elem_of_cons; naive_solver). done.
Qed.

Lemma start_inv t m0 : (∀ k, (k < Z.to_nat tables_needed)%nat → k ≠ 0%nat → m0 !! (addr + Z.of_nat k * page_size) = Some (replicate 512 0)) →
  m0 !! addr = Some t → length t = 512%nat → (∀ j, znth t j = if decide (j ∈ seqZ 256 256) then Z.lor (pd j) boot_table_flags else 0) →
  inv 2 own0 (Pager m0 (addr + 257 * page_size) extra_tables addr).
Proof.
  intros Hz Ht Hl Hn. change (Z.to_nat tables_needed) with 321%nat in Hz. unfold tables_needed, pd_tables, extra_tables in Hend. destruct Haddr as [Ha0 Ham].
  assert (Hpd : ∀ i, 256 ≤ i < 512 → pd i ≠ addr ∧ m0 !! pd i = Some (replicate 512 0) ∧ is_u64 (pd i) ∧ 0 ≤ pd i < phys_limit ∧ pd i mod page_size = 0).
  { intros i Hi. assert (E : pd i = addr + Z.of_nat (Z.to_nat (i - 255)) * page_size) by (unfold pd; change kernel_root_index with 256; lia).
    rewrite E. split; [unfold page_size; lia|]. split; [apply Hz; lia|]. split; [unfold is_word, phys_limit, page_size in *; lia|]. split; [unfold page_size in *; lia|]. by rewrite Z.mod_add. }
  assert (He : ∀ i, ent m0 addr i = if decide (i ∈ seqZ 256 256) then Z.lor (pd i) boot_table_flags else 0) by (intros i; unfold ent; by rewrite Ht).
  assert (Hent : ∀ i, 256 ≤ i < 512 → present (ent m0 addr i) = true ∧ large 0 (ent m0 addr i) = false ∧ bchild (ent m0 addr i) = pd i).
  { intros i Hi. destruct (Hpd i Hi) as (_ & _ & Hu & _ & Hm). pose proof (table_entry_spec (pd i) 0 Hu Hm) as Hs.
    replace (Z.land (pd i) page_mask) with (pd i) in Hs by (by rewrite <- (mask_aligned (pd i) 0), Z.lor_0_r at 1).
    rewrite He, decide_True by (rewrite elem_of_seqZ; lia). exact Hs. }
  split; cbn [pmem m_pml4].
  - split.
    + apply own0_spec. by left.
    + intros p path [[-> ->]|(i & Hi & -> & ->)]%own0_spec.
      * split; [by exists t|]. split; [cbn; lia|done].
      * split; [exists (replicate 512 0); split; [by apply Hpd|done]|]. split; [cbn; lia|]. apply Forall_cons_2, Forall_nil_2. lia.
    + intros p path [[-> ->]|(i & Hi & -> & ->)]%own0_spec; [|by apply Hpd]. split; [unfold page_size in *; lia|done].
    + intros p path i [[-> ->]|(j & Hj & -> & ->)]%own0_spec Hlen Hi Hp _; [|cbn in Hlen; lia]. rewrite He in Hp |- *.
      destruct (decide (i ∈ seqZ 256 256)) as [Hin%elem_of_seqZ|]; [|done]. rewrite own0_spec. right. exists i. split; [lia|]. split; [|done].
      destruct (Hent i ltac:(lia)) as (_ & _ & E). rewrite He, decide_True in E by (rewrite elem_of_seqZ; lia). exact E.
    + intros p path [[-> ->]|(i & Hi & -> & ->)]%own0_spec; [done|]. cbn [btable_at]. destruct (Hent i Hi) as (-> & E & ->). change (Z.of_nat 0) with 0. by rewrite E.
  - split; cbn [pmem table_ptr table_count].
    + intros k Hk. replace (addr + 257 * page_size + k * page_size) with (addr + Z.of_nat (Z.to_nat (257 + k)) * page_size) by lia. unfold extra_tables in Hk.
      split; [apply Hz; lia|]. apply eq_None_not_Some. intros [path [[E _]|(i & Hi & E & _)]%own0_spec]; unfold pd, page_size in E; [lia|].
      change kernel_root_index with 256 in E. lia.
    + split; [unfold page_size; lia|]. by rewrite Z.mod_add.
    + unfold extra_tables, page_size in *. lia.
Qed.
End new_pager.

Lemma path_of_upper N : 0 ≤ N → ∃ r, r ≠ [] ∧ path_of 4 N = path_of 2 (N / 2 ^ 18) ++ r.
Proof.
  intros HN. exists [digit 4 N 2; digit 4 N 3]. split; [done|]. unfold path_of. cbn [seq fmap list_fmap app]. f_equal; [|f_equal]; unfold digit; cbn [Nat.sub].
  - change (512 ^ Z.of_nat 3) with (2 ^ 18 * 512). by rewrite <- Z.div_div.
  - change (512 ^ Z.of_nat 2) with (2 ^ 18). change (512 ^ Z.of_nat 0) with 1. by rewrite Z.div_1_r.
Qed.
(** Two levels, as the linear map leaves them. *)
Definition linear_entry (M : Z) : Z := if decide (196608 ≤ M) then run_entry 196608 0 GiB huge_page_flags M else 0.
Lemma linear_entry_large M : (present (linear_entry M) = true → large 1 (linear_entry M) = true) ∧ (present (linear_entry M) = false → linear_entry M = 0).
Proof.
  unfold linear_entry. case_decide; [|done]. unfold run_entry, present, large. rewrite !Z.lor_spec. change (Z.testbit huge_page_flags 0) with true.
  change (Z.testbit huge_page_flags 7) with true. by rewrite !orb_true_r.
Qed.
Lemma path_of_two ix : length ix = 2%nat → in_table ix → ∃ M, 0 ≤ M < 2 ^ 18 ∧ ix = path_of 2 M.
Proof.
  intros Hl Hin. destruct ix as [|a [|b [|? ?]]]; try done. apply Forall_cons in Hin as [Ha [Hb _]%Forall_cons]. exists (a * 512 + b). split; [lia|].
  unfold path_of. cbn [seq fmap list_fmap]. unfold digit. cbn [Nat.sub]. change (512 ^ Z.of_nat 1) with 512. change (512 ^ Z.of_nat 0) with 1.
  rewrite Z.div_1_r, Z.div_add_l, (Z.div_small b), Z.add_0_r, (Z.mod_small a) by lia. rewrite Z.add_comm, Z.mod_add, Z.mod_small by lia. done.
Qed.
(** An absent entry hides nothing. *)
Lemma bno_large_absent m root i j r : bpte m 0 root [i; j] = 0 → bno_large m 0 root (i :: j :: r) = true.
Proof.
  cbn [bpte bno_large]. destruct (present (ent m root i)) eqn:Ep; [|done]. destruct (large (Z.of_nat 0) (ent m root i)) eqn:El; [by unfold large in El|].
  cbn [negb andb]. intros E. destruct r; [done|]. by rewrite E.
Qed.
Section linear.
Context (addr : Z) (m : pages).
Context (Ha0 : 0 ≤ addr) (Ham : addr mod page_size = 0) (Hend : addr + tables_needed * page_size ≤ phys_limit).
(** The state when the linear map is written. *)
Definition start_state (m1 : pages) : pager := Pager m1 (addr + 257 * page_size) extra_tables addr.

Lemma new_pager_start : ∃ m1, inv 2 (own0 addr) (start_state m1) ∧ (∀ i, 256 ≤ i < 512 → m1 !! pd addr i = Some (replicate 512 0)) ∧
  pager_new addr m = (let* (it, st) := entry_iterator 2 linear_offset (start_state m1) in map_loop 2 (Z.to_nat (64 * 1024)) it st 0 GiB huge_page_flags).
Proof.
  unfold pager_new. set (m0 := foldl _ m _). set (n := Z.to_nat tables_needed) in *.
  assert (Hz : ∀ k, (k < n)%nat → m0 !! (addr + Z.of_nat k * page_size) = Some (replicate 512 0)) by (intros k Hk; by apply cleared_pages).
  assert (Hroot : m0 !! addr = Some (replicate 512 0)) by (specialize (Hz 0%nat ltac:(change n with 321%nat; lia)); by rewrite Z.add_0_r in Hz).
  destruct (set_pds_spec addr (conj Ha0 Ham) Hend (seqZ 256 256) m0 _ Hroot eq_refl) as (t & Eset & Hlt & Hent); [apply Forall_forall; intros i; rewrite elem_of_seqZ; lia|].
  assert (Hz1 : ∀ k, (k < n)%nat → k ≠ 0%nat → <[addr := t]> m0 !! (addr + Z.of_nat k * page_size) = Some (replicate 512 0)).
  { intros k Hk Hk0. rewrite lookup_insert_ne by (unfold page_size; lia). by apply Hz. }
  exists (<[addr := t]> m0). split; [|split].
  - apply (start_inv addr (conj Ha0 Ham) Hend t); [done|by rewrite lookup_insert_eq|done|].
    intros j. rewrite Hent. destruct (decide _); [done|]. apply (znth_Forall (λ x, x = 0)); [done|by apply Forall_replicate].
  - intros i Hi. assert (E : pd addr i = addr + Z.of_nat (Z.to_nat (i - 255)) * page_size) by (unfold pd; change kernel_root_index with 256; lia).
    rewrite E. apply Hz1; [change n with 321%nat|]; lia.
  - unfold create_kernel_tables, pop_pages. cbn [table_ptr table_count pmem m_pml4]. change (tables_needed <? 1) with false.
    cbn [mbind outcome_bind table_ptr table_count pmem m_pml4].
    change (tables_needed - 1 <? pd_tables) with false. cbn [mbind outcome_bind table_ptr table_count pmem m_pml4].
    rewrite Z.mul_1_l. rewrite (wrap_small 64 (addr + page_size)) by (unfold is_word, phys_limit, page_size, tables_needed, pd_tables, extra_tables in *; lia).
    change (seqZ kernel_root_index (table_entries - kernel_root_index)) with (seqZ 256 256). rewrite Eset. cbn [mbind outcome_bind].
    change (tables_needed - 1 - pd_tables) with extra_tables.
    replace (u64 (addr + page_size + pd_tables * page_size)) with (addr + 257 * page_size)
      by (rewrite wrap_small; unfold is_word, phys_limit, page_size, tables_needed, pd_tables, extra_tables in *; lia).
    done.
Qed.
Lemma start_zero m1 : inv 2 (own0 addr) (start_state m1) → (∀ i, 256 ≤ i < 512 → m1 !! pd addr i = Some (replicate 512 0)) →
  ∀ M, bpte m1 0 addr (path_of 2 M) = 0.
Proof.
  intros [Htree _] Hz M. unfold start_state in Htree. cbn [pmem m_pml4] in Htree. unfold path_of. cbn [seq fmap list_fmap bpte]. destruct (present _) eqn:Ep; [|done]. destruct (large _ _) eqn:El; [by unfold large in El|].
  pose proof (tr_child _ _ _ _ Htree addr [] (digit 2 M 0) (tr_root _ _ _ _ Htree) ltac:(cbn; lia) (digit_range _ _ _) Ep El) as Hc.
  apply own0_spec in Hc as [[_ ?]|(i & Hi & -> & _)]; [done|]. by apply ent_zero, Hz.
Qed.
Lemma start_ready M : 196608 ≤ M < 2 ^ 18 → ready 2 (own0 addr) (path_of 2 M).
Proof.
  intros HM k Hk. destruct k as [|[|k]]; [exists addr|exists (pd addr (digit 2 M 0))|lia]; apply own0_spec; [by left|right].
  exists (digit 2 M 0). split; [|done]. unfold digit. cbn [Nat.sub]. change (512 ^ Z.of_nat 1) with 512.
  assert (384 ≤ M / 512 < 512) by (split; [apply Z.div_le_lower_bound|apply Z.div_lt_upper_bound]; lia). rewrite Z.mod_small; lia.
Qed.
Lemma new_pager_entries : ∃ st own, pager_new addr m = Done st ∧ inv 2 own st ∧ extra_tables ≤ table_count st ∧
  ∀ M, 0 ≤ M < 2 ^ 18 → bpte (pmem st) 0 (m_pml4 st) (path_of 2 M) = linear_entry M.
Proof.
  destruct new_pager_start as (m1 & Hinv0 & Hz & ->). pose proof (start_zero m1 Hinv0 Hz) as Hzero.
  assert (Hclear : ∀ own' m' ix, clear 2 own' m' ix). { intros own' m' ix k q i Hk. assert (k = 0%nat) as -> by lia. done. }
  destruct (entry_iterator_spec 2 false linear_offset (own0 addr) (start_state m1) (path_of 2 196608)) as (it & st1 & own1 & -> & Hex & Hon & Hi);
    [lia|done|apply path_of_in_table|done|apply path_of_length| |by apply start_ready|].
  { intros j Hj. rewrite path_of_lookup by done. f_equal. apply (index_digit 2 linear_offset); lia. }
  cbn [mbind outcome_bind]. pose proof (ex_count _ _ _ _ _ _ Hex) as Hc1. pose proof (ex_root _ _ _ _ _ _ Hex) as Hr1.
  remember (Z.to_nat 65535) as n eqn:En. assert (Hn : Z.of_nat n = 65535) by lia. replace (Z.to_nat (64 * 1024)) with (S n) by lia. clear En.
  destruct (map_loop_spec 2 false n own1 st1 it 196608 0 GiB huge_page_flags) as (st2 & own2 & -> & Hinv2 & Hr2 & _ & _ & Hc2 & Hm2);
    [lia|lia|change (512 ^ Z.of_nat 2) with (2 ^ 18); lia|done|apply Hex|done|done|done| |].
  { intros j Hj k Hk. destruct (start_ready (196608 + j) ltac:(lia) k Hk) as [q Hq]. exists q. eapply lookup_weaken; [done|apply Hex]. }
  exists st2, own2. split; [done|]. split; [done|]. cbn [cost] in Hc1, Hc2. unfold start_state in *. cbn [table_count m_pml4] in *. split; [lia|].
  intros M HM. rewrite Hr2, Hm2 by done. rewrite Hr1, (ex_keeps _ _ _ _ _ _ Hex) by (apply path_of_length || apply path_of_in_table). cbn [m_pml4 pmem].
  rewrite Hzero, Hn. unfold linear_entry. by repeat case_decide; try lia.
Qed.
End linear.

(** The tables of a new pager map the first 64 TiB of physical memory at the linear offset and
    nothing below it, and leave the extra pages for later mappings: the assumptions of [map_pages]
    hold at every address below the linear map. *)
Theorem linear_map_complete addr m : 0 ≤ addr → addr mod page_size = 0 → addr + tables_needed * page_size ≤ phys_limit →
  ∃ st, pager_new addr m = Done st ∧ pager_ok st ∧ extra_tables ≤ table_count st ∧
    (∀ p, 0 ≤ p < 2 ^ 46 → translation st (linear_offset + p) = Z.lor (p / GiB * GiB) huge_page_flags) ∧
    ∀ v, vpage v < vpage linear_offset → translation st v = 0 ∧ bno_large (pmem st) 0 (m_pml4 st) (indices v) = true.
Proof.
  intros Ha0 Ham Hend. destruct (new_pager_entries addr m Ha0 Ham Hend) as (st & own & E & [Htree Hca] & Hc & He).
  assert (Ht : ∀ v, ∃ i j r, r ≠ [] ∧ indices v = i :: j :: r ∧ bpte (pmem st) 0 (m_pml4 st) [i; j] = linear_entry (vpage v / 2 ^ 18)).
  { intros v. pose proof (vpage_range v) as Hv. rewrite indices_path. destruct (path_of_upper (vpage v)) as (r & Hr & ->); [lia|].
    exists (digit 2 (vpage v / 2 ^ 18) 0), (digit 2 (vpage v / 2 ^ 18) 1), r. split; [done|]. split; [done|]. rewrite <- He; [done|].
    split; [apply Z.div_pos; lia|apply Z.div_lt_upper_bound; lia]. }
  exists st. split; [done|]. split; [|split; [done|split]].
  - exists own. split; [|done]. apply tree_widen; [done|]. intros ix Hl Hin. destruct (path_of_two ix Hl Hin) as (M & HM & ->). rewrite He by done. apply linear_entry_large.
  - intros p Hp. unfold translation. destruct (Ht (linear_offset + p)) as (i & j & r & Hr & -> & E2).
    destruct (linear_entry_large (vpage (linear_offset + p) / 2 ^ 18)) as [Hl1 Hl2]. rewrite bpte_two by (by rewrite ?E2). rewrite E2.
    assert (Ev : vpage (linear_offset + p) = 384 * 2 ^ 27 + p / page_size).
    { unfold vpage. change linear_offset with ((2 ^ 36 * 65535 + 384 * 2 ^ 27) * page_size). rewrite Z.div_add_l by done. replace (2 ^ 36 * 65535 + 384 * 2 ^ 27 + p / page_size) with (384 * 2 ^ 27 + p / page_size + 65535 * 2 ^ 36) by lia.
      rewrite Z.mod_add by done. apply Z.mod_small. assert (0 ≤ p / page_size < 2 ^ 34) by (unfold page_size; split; [apply Z.div_pos|apply Z.div_lt_upper_bound]; lia). lia. }
    assert (Eq : vpage (linear_offset + p) / 2 ^ 18 = 196608 + p / GiB).
    { rewrite Ev. change (384 * 2 ^ 27) with (196608 * 2 ^ 18). rewrite Z.div_add_l by done. by rewrite Z.div_div. }
    assert (0 ≤ p / GiB < 2 ^ 16) by (unfold GiB; split; [apply Z.div_pos|apply Z.div_lt_upper_bound]; lia).
    unfold linear_entry, run_entry. rewrite Eq, decide_True by lia. f_equal. replace (0 + (196608 + p / GiB - 196608) * GiB) with (p / GiB * GiB) by lia.
    apply wrap_small. unfold is_word, GiB in *. lia.
  - intros v Hv. destruct (Ht v) as (i & j & r & Hr & Ei & E2). rewrite Ei. unfold translation. rewrite Ei.
    assert (E0 : linear_entry (vpage v / 2 ^ 18) = 0).
    { unfold linear_entry. rewrite decide_False; [done|]. change (vpage linear_offset) with (196608 * 2 ^ 18) in Hv. apply Z.lt_nge, Z.div_lt_upper_bound; lia. }
    rewrite E0 in E2. split; [|by apply bno_large_absent]. by rewrite bpte_two; rewrite ?E2.
Qed.

(** ** The mappings of the firmware *)

Lemma copy_present_spec is_ m root old t : m !! root = Some t → length t = 512%nat → length old = 512%nat → Forall (λ i, 0 ≤ i < 512) is_ →
  ∃ t', copy_present m root old is_ = Done (<[root := t']> m) ∧ length t' = 512%nat ∧
    ∀ j, znth t' j = if decide (j ∈ is_ ∧ present (znth old j) = true) then znth old j else znth t j.
Proof.
  revert m t. induction is_ as [|i is_ IH]; intros m t Ht Hl Ho Hf; cbn [copy_present].
  - exists t. rewrite insert_id by done. split; [done|]. split; [done|]. intros j. rewrite decide_False; [done|]. intros [?%not_elem_of_nil _]. done.
  - apply Forall_cons in Hf as [Hi Hf]. rewrite arr_get_znth by lia. cbn [mbind outcome_bind]. fold (present (znth old i)).
    destruct (present (znth old i)) eqn:Ep.
    + rewrite (wr_Done _ _ _ _ t) by done. cbn [mbind outcome_bind].
      destruct (IH (<[root := <[Z.to_nat i := znth old i]> t]> m) (<[Z.to_nat i := znth old i]> t)) as (t' & E & Hl' & Hz); [by rewrite lookup_insert_eq|by rewrite length_insert|done|done|].
      exists t'. rewrite insert_insert_eq in E. split; [done|]. split; [done|]. intros j. rewrite Hz, znth_insert by lia.
      repeat case_decide; subst; try done; exfalso; set_solver.
    + cbn [mbind outcome_bind]. destruct (IH m t) as (t' & E & Hl' & Hz); [done..|]. exists t'. split; [done|]. split; [done|]. intros j. rewrite Hz.
      repeat case_decide; try done; exfalso; [set_solver|]. match goal with H : _ ∈ i :: _ ∧ _ |- _ => destruct H as [[->|?]%elem_of_cons ?] end; [congruence|set_solver].
Qed.
(** A walk sees a change of a page only if it comes to that page. *)
Lemma bpte_same m l p ix root t : (∀ a b r, ix = a ++ b → b ≠ [] → btable_at m l p a = Some r → r ≠ root) → bpte (<[root := t]> m) l p ix = bpte m l p ix.
Proof.
  revert l p. induction ix as [|i ix IH]; intros l p Hne; [done|].
  assert (E : ent (<[root := t]> m) p i = ent m p i) by (apply ent_insert_ne; by apply (Hne [] (i :: ix) p)).
  destruct ix as [|j ix]; [cbn [bpte]; exact E|].
  change (bpte ?m ?l p (i :: j :: ix)) with (if present (ent m p i) then if large (Z.of_nat l) (ent m p i) then ent m p i else bpte m (S l) (bchild (ent m p i)) (j :: ix) else 0).
  rewrite E. destruct (present (ent m p i)) eqn:Ep; [|done]. destruct (large (Z.of_nat l) (ent m p i)) eqn:El; [done|].
  apply IH. intros a b r Ha Hb Hr. apply (Hne (i :: a) b r); [by rewrite Ha|done|]. cbn [btable_at]. by rewrite Ep, El.
Qed.

(** After the mappings of the firmware are added, an address of the lower half that the firmware
    has an entry for is translated as by the firmware, and every other address as before. *)
Theorem current_mappings_added st old oldt :
  pager_ok st → pmem st !! old = Some oldt → length oldt = 512%nat →
  (∀ a r, btable_at (pmem st) 0 old a = Some r → r ≠ m_pml4 st) →
  ∃ st', add_current_mappings st oldt = Done st' ∧ m_pml4 st' = m_pml4 st ∧
    ∀ v, translation st' v =
      if decide (index_of v 0 < 256 ∧ present (ent (pmem st) old (index_of v 0)) = true)
      then bpte (pmem st) 0 old (indices v) else translation st v.
Proof.
  intros [own [Htree _]] Hold Hlo Hne. destruct (tr_table _ _ _ _ Htree _ _ (tr_root _ _ _ _ Htree)) as ((t & Ht & Hl) & _).
  destruct (copy_present_spec (seqZ 0 256) (pmem st) (m_pml4 st) oldt t Ht Hl Hlo) as (t' & E & Hl' & Hz); [apply Forall_forall; intros i; rewrite elem_of_seqZ; lia|].
  unfold add_current_mappings. change kernel_root_index with 256. rewrite E. cbn [mbind outcome_bind]. eexists. split; [reflexivity|]. split; [done|].
  intros v. unfold translation, with_pmem. cbn [pmem m_pml4]. unfold indices. cbn [seq fmap list_fmap]. set (i := index_of v 0). set (r := [_; _; _]).
  pose proof (index_of_div v 0 ltac:(lia)) as Hi. fold i in Hi. pose proof (Z.mod_pos_bound (v / 2 ^ (12 + 9 * (3 - Z.of_nat 0))) 512 ltac:(lia)) as Hib. rewrite <- Hi in Hib.
  assert (He : ent (<[m_pml4 st := t']> (pmem st)) (m_pml4 st) i = if decide (i < 256 ∧ present (ent (pmem st) old i) = true) then ent (pmem st) old i else ent (pmem st) (m_pml4 st) i).
  { assert (Eo : ent (pmem st) old i = znth oldt i) by (unfold ent; by rewrite Hold). assert (Er : ent (pmem st) (m_pml4 st) i = znth t i) by (unfold ent; by rewrite Ht).
    rewrite Eo, Er. unfold ent. rewrite lookup_insert_eq. change (default [] (Some t')) with t'. rewrite Hz. destruct (decide (i < 256 ∧ _)) as [[? ?]|Hn].
    - rewrite decide_True; [done|]. rewrite elem_of_seqZ. split; [lia|done].
    - rewrite decide_False; [done|]. rewrite elem_of_seqZ. intros [? ?]. apply Hn. split; [lia|done]. }
  change (bpte ?m 0 ?p (i :: r)) with (if present (ent m p i) then if large (Z.of_nat 0) (ent m p i) then ent m p i else bpte m 1 (bchild (ent m p i)) r else 0). rewrite He.
  destruct (decide _) as [[_ Hp]|_]; (destruct (present _) eqn:Ep; [|done]); (destruct (large (Z.of_nat 0) _) eqn:El; [by unfold large in El|]); apply bpte_same; intros a b q Hab Hb Ha.
  - apply (Hne (i :: a)). cbn [btable_at]. by rewrite Ep, El.
  - intros ->. assert (Hin : in_table (i :: r)).
    { change (i :: r) with (indices v). rewrite indices_path. apply path_of_in_table. }
    apply Forall_cons in Hin as [_ Hin]. rewrite Hab in Hin. apply Forall_app in Hin as [Hin _].
    assert (Hl3 : (length a < 3)%nat). { assert (Hr : length r = 3%nat) by done. rewrite Hab, length_app in Hr. destruct b; [done|]. cbn [length] in Hr. lia. }
    pose proof (reach_own 4 own _ _ (i :: a) (m_pml4 st) [] (m_pml4 st) Htree (tr_root _ _ _ _ Htree)) as Hc. rewrite (tr_root _ _ _ _ Htree) in Hc.
    discriminate Hc; [by apply Forall_cons_2|cbn [length]; lia|]. cbn [btable_at length]. by rewrite Ep, El.
Qed.

(** ** What the kernel finds *)

#[local] Instance linear_inj : Inj (=) (=) (Z.add linear_offset).
Proof. intros x y. lia. Qed.
(** Memory as the kernel sees it, through the linear map. *)
Definition kernel_view {A} (m : gmap Z A) : gmap Z A := kmap (Z.add linear_offset) m.
Lemma view_lookup {A} (m : gmap Z A) p : kernel_view m !! (linear_offset + p) = m !! p.
Proof. apply (lookup_kmap (Z.add linear_offset)). Qed.
Lemma view_ent m p i : ent (kernel_view m) (linear_offset + p) i = ent m p i.
Proof. unfold ent. by rewrite view_lookup. Qed.
Lemma child_view e : 0 ≤ bchild e < phys_limit → child e = linear_offset + bchild e.
Proof. intros H. unfold child. rewrite Z.lor_comm. by apply to_virtual_add. Qed.
Lemma pte_view own m root ix q pq : tree 4 own m root → own !! q = Some pq → (length pq + length ix)%nat = 4%nat → in_table ix →
  pte (kernel_view m) (Z.of_nat (length pq)) (linear_offset + q) ix = bpte m (length pq) q ix.
Proof.
  intros Htree. revert q pq. induction ix as [|i ix IH]; intros q pq Hq Hl Hin; [done|]. apply Forall_cons in Hin as [Hi Hin].
  destruct ix as [|j ix]; [apply view_ent|]. cbn [length] in Hl.
  change (pte ?m ?l ?p (i :: j :: ix)) with (let e := ent m p i in if present e then if large l e then e else pte m (l + 1) (child e) (j :: ix) else 0).
  change (bpte ?m ?l q (i :: j :: ix)) with (let e := ent m q i in if present e then if large (Z.of_nat l) e then e else bpte m (S l) (bchild e) (j :: ix) else 0).
  cbv zeta. rewrite view_ent. destruct (present (ent m q i)) eqn:Ep; [|done]. destruct (large _ (ent m q i)) eqn:El; [done|].
  pose proof (tr_child _ _ _ _ Htree _ _ _ Hq ltac:(lia) Hi Ep El) as Hc. rewrite child_view by apply (tr_addr _ _ _ _ Htree _ _ Hc).
  specialize (IH _ _ Hc). rewrite length_app in IH. cbn [length] in IH. rewrite Nat2Z.inj_add, Nat.add_1_r in IH. apply IH; [lia|done].
Qed.

(** The tables that the loader hands over are tables as the kernel expects them: through the linear
    map they satisfy the invariant of the kernel's page tables, and the kernel reads from them the
    translations that the loader made. *)
Theorem boot_tables_suit_kernel st : pager_ok st →
  ∃ own, own_ok own (kernel_view (pmem st)) ∧ own !! (linear_offset + m_pml4 st) = Some [] ∧
    ∀ v, pte (kernel_view (pmem st)) 0 (linear_offset + m_pml4 st) (indices v) = translation st v.
Proof.
  intros [own [Htree _]]. exists (kernel_view own). split; [|split].
  - assert (Hown : ∀ p path, kernel_view own !! p = Some path → ∃ q, p = linear_offset + q ∧ own !! q = Some path).
    { intros p path Hp. apply (lookup_kmap_Some (Z.add linear_offset)) in Hp as (q & ? & ?). by exists q. }
    split.
    + intros p path (q & -> & Hq)%Hown. destruct (tr_table _ _ _ _ Htree _ _ Hq) as ((t & Ht & Hl) & Hlen & _).
      destruct (tr_addr _ _ _ _ Htree _ _ Hq) as [? ?]. split; [by exists q|]. split; [exists t; by rewrite view_lookup|lia].
    + intros p path i (q & -> & Hq)%Hown Hlen Hi. rewrite view_ent. intros Hp Hlg. pose proof (tr_child _ _ _ _ Htree _ _ _ Hq ltac:(lia) Hi Hp Hlg) as Hc.
      rewrite child_view by apply (tr_addr _ _ _ _ Htree _ _ Hc). by rewrite view_lookup.
  - rewrite view_lookup. apply Htree.
  - intros v. unfold translation. apply (pte_view own _ _ _ _ [] Htree); [apply Htree|done|]. rewrite indices_path. apply path_of_in_table.
Qed.

(** ** Examples *)

Definition zero_page : list Z := replicate 512 0.
Definition demo : pager :=
  Pager (list_to_map ((λ k, (k * page_size, zero_page)) <$> seqZ 1 10)) 0x3000 8 0x1000.
Lemma demo_root : pmem demo !! 0x1000 = Some (replicate 512 0).
Proof. by vm_compute. Qed.
Lemma demo_ok : pager_ok demo.
Proof.
  exists {[0x1000 := []]}. split; split; try done.
  - intros p path [<- <-]%lookup_singleton_Some. split; [exists zero_page; by split; [vm_compute|]|]. split; [cbn; lia|done].
  - by intros p path [<- <-]%lookup_singleton_Some.
  - intros p path i [<- <-]%lookup_singleton_Some _ _. by rewrite (ent_zero _ _ _ demo_root).
  - by intros p path [<- <-]%lookup_singleton_Some.
  - intros k Hk. cbn [table_ptr table_count demo pmem] in *. split; [|apply lookup_singleton_ne; unfold page_size; lia].
    assert (Hk' : Forall (λ k, pmem demo !! (0x3000 + k * page_size) = Some zero_page) (seqZ 0 8)) by (apply (bool_decide_eq_true_1 _); by vm_compute).
    rewrite Forall_forall in Hk'. apply (Hk' k). apply elem_of_seqZ. lia.
Qed.
Lemma demo_empty : ∀ l ix, bno_large (pmem demo) l (m_pml4 demo) ix = true.
Proof. intros l [|i [|j ix]]; [done..|]. cbn [bno_large]. by rewrite (ent_zero _ _ _ demo_root). Qed.
Lemma map_pages_maps_witness : ∃ st', map_pages demo 0x5000 0x400000 3 true true = Done st' ∧ translation st' 0x401000 = 0x6103 ∧ translation st' 0x403000 = 0.
Proof.
  destruct (map_pages_maps demo 0x5000 0x400000 3 true true demo_ok) as (st' & E & _ & _ & _ & Ht);
    [by vm_compute|split; [by vm_compute|intros; apply demo_empty|by vm_compute]|].
  exists st'. split; [exact E|]. split; rewrite Ht; by vm_compute.
Defined.
Lemma linear_map_complete_witness : ∃ st, pager_new 0x100000 ∅ = Done st ∧ translation st (linear_offset + 0x123456789) = 0x10000018b.
Proof.
  destruct (linear_map_complete 0x100000 ∅) as (st & E & _ & _ & Hl & _); [lia|by vm_compute|by vm_compute|].
  exists st. split; [exact E|]. rewrite Hl; [by vm_compute|lia].
Defined.
Lemma current_mappings_added_witness : ∃ st', add_current_mappings demo zero_page = Done st' ∧ m_pml4 st' = 0x1000 ∧ translation st' 0x400000 = 0.
Proof.
  destruct (current_mappings_added demo 0x2000 zero_page demo_ok) as (st' & E & Hr & Ht); [by vm_compute|by vm_compute| |].
  - intros a r. destruct a as [|i a]; [by intros [= <-]|]. cbn [btable_at].
    assert (Hz : pmem demo !! 0x2000 = Some (replicate 512 0)) by (by vm_compute). by rewrite (ent_zero _ _ _ Hz).
  - exists st'. split; [exact E|]. split; [exact Hr|]. rewrite Ht. by vm_compute.
Defined.
Lemma boot_tables_suit_kernel_witness : ∃ own, own_ok own (kernel_view (pmem demo)) ∧ own !! (linear_offset + 0x1000) = Some [].
Proof. destruct (boot_tables_suit_kernel demo demo_ok) as (own & H1 & H2 & _). by exists own. Defined.
