(* ===== verification/RadixTree.v ===== *)
(** * The radix tree and the page tree

    Models util/radix_tree.h at the instance page_tree uses (64 entries a node, [max_level] 5,
    [extra_shift] 12) and src/kernel/page_tree.cpp.  A tree maps byte offsets, page by page, to
    words.  Nodes own their children, so a tree is an inductive value; a node of level 0 has
    [entries] and a deeper one [children], the two views of the union [m_entries].  The reference
    [find_or_add] returns is modelled by the update its caller makes through it.

    The theorems show that the tree, with its levels left out where only one key lives and its
    intermediate nodes put in later, behaves as a map from page numbers to words. *)
From S2P Require Import Prelude Frames.

Inductive node :=
  | Leaf (m_base : Z) (entries : list Z)
  | Inner (m_base m_level : Z) (children : list (option node)).

Definition m_base (n : node) : Z := match n with Leaf b _ | Inner b _ _ => b end.
Definition m_level (n : node) : Z := match n with Leaf _ _ => 0 | Inner _ l _ => l end.

Definition max_level : nat := 5.
Definition extra_shift : Z := 12.
Definition bits_per_level : Z := 6.

Definition level_shift (level : Z) : Z := level * bits_per_level + extra_shift.
Definition level_mask (level : Z) : outcome Z := shl64 (2 ^ 64 - 1) (level_shift level).
Definition index_for (key level : Z) : outcome Z :=
  let* k := shr64 key (level_shift level) in Done (Z.land k 63).

(** The constructor: an empty node of the level for the key. *)
Definition new_node (key level : Z) : outcome node :=
  let* mask := level_mask (level + 1) in
  let b := Z.land key mask in
  Done (if level =? 0 then Leaf b (replicate 64 0) else Inner b level (replicate 64 None)).

(** [contains]: the index for the key when the node's range has it. *)
Definition contains (n : node) (key : Z) : outcome (option Z) :=
  let* mask := level_mask (m_level n + 1) in
  if Z.land key mask =? m_base n then let* i := index_for key (m_level n) in Done (Some i)
  else Done None.

(** [find]: the loop down the tree; a value when there is a leaf for the key.  The first overload,
    for const nodes, assigns its own copy of the pointer [entry]: its caller learns only whether
    there is a leaf. *)
Fixpoint find_loop (fuel : nat) (n : option node) (key : Z) : outcome (option Z) :=
  match fuel with
  | O => Diverge
  | S fuel =>
      match n with
      | None => Done None
      | Some nd =>
          let* c := contains nd key in
          match c with
          | None => Done None
          | Some i =>
              match nd with
              | Leaf _ es => let* e := arr_get es i in Done (Some e)
              | Inner _ _ cs => let* n := arr_get cs i in find_loop fuel n key
              end
          end
      end
  end.

(** The levels are at most [max_level + 1], so a walk visits at most 7 nodes and a null. *)
Definition walk_fuel : nat := 8.
Definition find (root : option node) (key : Z) : outcome (option Z) := find_loop walk_fuel root key.

(** [while (index_for(key, lcl) == index_for(other, lcl)) --lcl]; below level 0 the 8-bit counter
    wraps to 255, whose shift is undefined. *)
Fixpoint find_lcl (lcl : nat) (key other : Z) : outcome Z :=
  let* a := index_for key (Z.of_nat lcl) in
  let* b := index_for other (Z.of_nat lcl) in
  if a =? b then match lcl with O => Undef | S l => find_lcl l key other end
  else Done (Z.of_nat lcl).

Section FindOrAdd.
  Context {A : Type}.

(** The caller's use of the reference to the entry: its new value and what else comes of it. *)
Definition use_entry (nd : node) (key : Z) (upd : Z → outcome (Z * A)) : outcome (node * A) :=
  match nd with
  | Leaf b es =>
      let* i := index_for key 0 in
      let* e := arr_get es i in
      let* (v, a) := upd e in
      let* es := arr_set es i v in
      Done (Leaf b es, a)
  | Inner _ _ _ => Undef
  end.

(** [find_or_add] from the pointer [*parent] down; the result is what [*parent] becomes. *)
Fixpoint add_loop (fuel : nat) (n : option node) (key : Z) (upd : Z → outcome (Z * A))
    : outcome (node * A) :=
  match fuel with
  | O => Diverge
  | S fuel =>
      match n with
      | None =>
          let* leaf := new_node key 0 in
          use_entry leaf key upd
      | Some nd =>
          let* c := contains nd key in
          match c with
          | None =>
              let other := m_base nd in
              let* lcl := find_lcl (S max_level) key other in
              let* inter := new_node key lcl in
              let* other_index := index_for other lcl in
              let* leaf := new_node key 0 in
              let* key_index := index_for key lcl in
              let* (leaf, a) := use_entry leaf key upd in
              match inter with
              | Leaf _ _ => Undef
              | Inner b l cs =>
                  let* cs := arr_set cs other_index (Some nd) in
                  let* cs := arr_set cs key_index (Some leaf) in
                  Done (Inner b l cs, a)
              end
          | Some i =>
              match nd with
              | Leaf _ _ => use_entry nd key upd
              | Inner b l cs =>
                  let* c := arr_get cs i in
                  let* (c, a) := add_loop fuel c key upd in
                  let* cs := arr_set cs i (Some c) in
                  Done (Inner b l cs, a)
              end
          end
      end
  end.

Definition find_or_add (root : option node) (key : Z) (upd : Z → outcome (Z * A))
    : outcome (node * A) := add_loop walk_fuel root key upd.
End FindOrAdd.

(** ** page_tree *)

Section PageTree.
  Context {F : Type} {FS : FrameSource F}.

(** [page_tree::find_or_add]: the page's physical address, or [None] for false. *)
Definition pt_find_or_add (root : option node) (offset : Z) (f : F)
    : outcome (option node * option Z * F) :=
  let* (nd, r) := find_or_add root offset (λ ent,
    if Z.testbit ent 0 then Done (ent, (Some (Z.land ent page_mask), f))
    else
      let* (n, phys, f) := fa_allocate f 1 in
      let ent := if n =? 0 then ent else phys in
      if n =? 0 then Done (ent, (None, f))
      else let ent := Z.lor ent 1 in Done (ent, (Some (Z.land ent page_mask), f))) in
  Done (Some nd, fst r, snd r).

(** [page_tree::add_existing] *)
Definition add_existing (root : option node) (offset page : Z) : outcome (option node) :=
  let* (nd, _) := find_or_add root offset (λ ent,
    let* _ := kassert (negb (Z.testbit ent 0)) in Done (Z.lor page 1, ())) in
  Done (Some nd).
End PageTree.

(** ** Keys and prefixes

    Keys are below 2^54, what levels 0 to 6 can tell apart; offsets into a memory area are below
    2^48.  [prefix l k] is what the nodes of level [l - 1] below one slot have in common. *)

Definition is_key (k : Z) : Prop := 0 ≤ k < 2 ^ 54.
Definition prefix (l k : Z) : Z := k / 2 ^ level_shift l.
Definition slot (l k : Z) : Z := prefix l k mod 64.

Lemma level_shift_range l : 0 ≤ l ≤ 7 → 12 ≤ level_shift l ≤ 54.
Proof. unfold level_shift, bits_per_level, extra_shift. lia. Qed.

Lemma prefix_S l k : 0 ≤ l → prefix (l + 1) k = prefix l k / 64.
Proof.
  intros Hl. unfold prefix. rewrite Z.div_div by (unfold level_shift, bits_per_level, extra_shift; lia).
  f_equal. replace (level_shift (l + 1)) with (level_shift l + 6)
    by (unfold level_shift, bits_per_level; lia).
  rewrite Z.pow_add_r by (unfold level_shift, bits_per_level, extra_shift; lia). done.
Qed.

Lemma prefix_slot l k : 0 ≤ l → prefix l k = 64 * prefix (l + 1) k + slot l k.
Proof. intros Hl. rewrite prefix_S by done. unfold slot. apply Z.div_mod. lia. Qed.

Lemma slot_range l k : 0 ≤ slot l k < 64.
Proof. apply Z.mod_pos_bound. lia. Qed.

Lemma prefix_7 k : is_key k → prefix 7 k = 0.
Proof. intros Hk. unfold prefix. change (level_shift 7) with 54. by apply Z.div_small. Qed.

Lemma prefix_mono l l' a b : 0 ≤ l ≤ l' → prefix l a = prefix l b → prefix l' a = prefix l' b.
Proof.
  intros Hl E. unfold prefix in *. assert (level_shift l ≤ level_shift l').
  { unfold level_shift, bits_per_level. lia. }
  assert (0 ≤ level_shift l) by (unfold level_shift, bits_per_level, extra_shift; lia).
  replace (level_shift l') with (level_shift l + (level_shift l' - level_shift l)) by lia.
  rewrite Z.pow_add_r, <- !Z.div_div by lia. by rewrite E.
Qed.

Lemma index_for_spec k l : 0 ≤ l ≤ 6 → index_for k l = Done (slot l k).
Proof.
  intros Hl. unfold index_for. pose proof (level_shift_range l). rewrite shr64_Done, bind_Done by lia.
  rewrite Z.shiftr_div_pow2 by lia. change 63 with (Z.ones 6). by rewrite Z.land_ones.
Qed.

Lemma level_mask_spec l :
  0 ≤ l ≤ 7 → ∃ m, level_mask l = Done m ∧
    ∀ k, is_key k → Z.land k m = prefix l k * 2 ^ level_shift l.
Proof.
  intros Hl. pose proof (level_shift_range l Hl). unfold level_mask. rewrite shl64_Done by lia.
  eexists. split; [done|]. intros k Hk. unfold prefix.
  rewrite <- Z.shiftl_mul_pow2, <- Z.shiftr_div_pow2 by lia.
  apply Z.bits_inj'. intros i Hi. rewrite Z.land_spec, wrap_testbit, !Z.shiftl_spec by lia.
  change (2 ^ 64 - 1) with (Z.ones 64). destruct (Z.ltb_spec i (level_shift l)).
  - rewrite (Z.testbit_neg_r _ (i - level_shift l)), (Z.testbit_neg_r (Z.shiftr _ _)) by lia.
    by rewrite !andb_false_r.
  - rewrite Z.shiftr_spec by lia. replace (i - level_shift l + level_shift l) with i by lia.
    destruct (Z.ltb_spec i 64).
    + rewrite Z.testbit_ones_nonneg by lia. rewrite (proj2 (Z.ltb_lt _ _)) by lia. by rewrite andb_true_r.
    + by rewrite (word_testbit_high 54 k) by (done || lia).
Qed.

(** ** Well-formed trees *)

(** A base is a multiple of the node's range. *)
Definition base_ok (b l : Z) : Prop :=
  is_key b ∧ b = prefix (l + 1) b * 2 ^ level_shift (l + 1).

Inductive wf : node → Prop :=
  | wf_leaf b es : base_ok b 0 → length es = 64%nat → wf (Leaf b es)
  | wf_inner b l cs :
      1 ≤ l ≤ 6 → base_ok b l → length cs = 64%nat →
      (∀ i c, cs !! i = Some (Some c) →
        wf c ∧ m_level c < l ∧ prefix l (m_base c) = prefix l b + Z.of_nat i) →
      wf (Inner b l cs).

Definition wf_opt (o : option node) : Prop := match o with Some n => wf n | None => True end.
Definition height (o : option node) : Z := match o with Some n => m_level n | None => 0 end.

(** The node fits in a slot of level [l] whose keys have the prefix [q]. *)
Definition fits (l q : Z) (n : node) : Prop := m_level n < l ∧ prefix l (m_base n) = q.

Lemma wf_level n : wf n → 0 ≤ m_level n ≤ 6 ∧ base_ok (m_base n) (m_level n).
Proof. intros []; simpl; [split; [lia|done]|split; [lia|done]]. Qed.

Lemma contains_spec n k :
  wf n → is_key k →
  contains n k = Done (if prefix (m_level n + 1) k =? prefix (m_level n + 1) (m_base n)
                       then Some (slot (m_level n) k) else None).
Proof.
  intros Hwf Hk. destruct (wf_level n Hwf) as [Hl [_ Hb]]. unfold contains.
  destruct (level_mask_spec (m_level n + 1)) as (m & -> & Hm); [lia|]. rewrite bind_Done, Hm by done.
  rewrite Hb at 1. pose proof (level_shift_range (m_level n + 1) ltac:(lia)).
  destruct (Z.eqb_spec (prefix (m_level n + 1) k) (prefix (m_level n + 1) (m_base n))) as [->|Hne].
  - rewrite Z.eqb_refl. by rewrite index_for_spec by lia.
  - rewrite (proj2 (Z.eqb_neq _ _)); [done|]. intros E. apply Hne.
    apply Z.mul_cancel_r in E; [done|]. lia.
Qed.

(** The prefix of the keys of one slot of an inner node. *)
Lemma slot_prefix b l k :
  base_ok b l → 0 ≤ l ≤ 6 → prefix (l + 1) k = prefix (l + 1) b → prefix l k = prefix l b + slot l k.
Proof.
  intros [Hk Hb] Hl E. rewrite (prefix_slot l k), E by lia. enough (prefix l b = 64 * prefix (l + 1) b) by lia.
  rewrite (prefix_slot l b) by lia. enough (slot l b = 0) by lia. unfold slot, prefix at 1. rewrite Hb.
  pose proof (level_shift_range l). replace (level_shift (l + 1)) with (6 + level_shift l)
    by (unfold level_shift, bits_per_level; lia).
  rewrite Z.pow_add_r, Z.mul_assoc, Z.div_mul by lia. by rewrite Z.mod_mul.
Qed.

(** ** Reading *)

Lemma find_loop_leaf fuel b es k :
  wf (Leaf b es) → is_key k →
  find_loop (S fuel) (Some (Leaf b es)) k =
    Done (if prefix 1 k =? prefix 1 b then Some (znth es (slot 0 k)) else None).
Proof.
  intros Hwf Hk. cbn [find_loop]. rewrite contains_spec by done. rewrite bind_Done.
  cbn [m_level m_base]. change (0 + 1) with 1. inversion Hwf; subst. pose proof (slot_range 0 k).
  destruct (prefix 1 k =? prefix 1 b); [|done]. by rewrite arr_get_znth by lia.
Qed.

Lemma find_loop_inner fuel b l cs k :
  wf (Inner b l cs) → is_key k →
  find_loop (S fuel) (Some (Inner b l cs)) k =
    if prefix (l + 1) k =? prefix (l + 1) b
    then find_loop fuel (nth (Z.to_nat (slot l k)) cs None) k else Done None.
Proof.
  intros Hwf Hk. cbn [find_loop]. rewrite contains_spec by done. rewrite bind_Done.
  cbn [m_level m_base]. inversion Hwf; subst. pose proof (slot_range l k).
  destruct (prefix (l + 1) k =? prefix (l + 1) b); [|done].
  destruct (lookup_lt_is_Some_2 cs (Z.to_nat (slot l k))) as [c Hc]; [lia|].
  rewrite (proj2 (arr_get_Done cs _ c)) by (split; [lia|done]).
  by rewrite (nth_lookup_Some _ _ _ _ Hc), bind_Done.
Qed.

Lemma wf_child b l cs i :
  wf (Inner b l cs) → (i < 64)%nat →
  wf_opt (nth i cs None) ∧ height (nth i cs None) < l ∧
  (∀ c, nth i cs None = Some c → fits l (prefix l b + Z.of_nat i) c).
Proof.
  intros Hwf Hi. inversion Hwf as [|b' l' cs' Hl Hb Hlen Hch]; subst.
  destruct (lookup_lt_is_Some_2 cs i) as [c Hc]; [lia|]. rewrite (nth_lookup_Some _ _ _ _ Hc).
  destruct c as [c|]; simpl; [|split; [done|split; [lia|done]]].
  destruct (Hch _ _ Hc) as (Hw & Hlt & Hp). split; [done|]. split; [lia|]. intros ? [= <-]. done.
Qed.

(** The walk ends, and its result does not depend on the fuel. *)
Lemma find_loop_total fuel fuel' o k :
  wf_opt o → is_key k → height o < Z.of_nat fuel → height o < Z.of_nat fuel' →
  (∃ r, find_loop fuel o k = Done r) ∧ find_loop fuel' o k = find_loop fuel o k.
Proof.
  intros Hwf Hk. revert fuel' o Hwf. induction fuel as [|fuel IH]; intros fuel' o Hwf Hf Hf'.
  { destruct o as [n|]; simpl in *; [pose proof (wf_level n Hwf)|]; lia. }
  destruct fuel' as [|fuel'].
  { destruct o as [n|]; simpl in *; [pose proof (wf_level n Hwf)|]; lia. }
  destruct o as [[b es|b l cs]|]; [..|by eauto].
  - rewrite !find_loop_leaf by done. eauto.
  - rewrite !find_loop_inner by done. pose proof (slot_range l k).
    destruct (wf_child b l cs (Z.to_nat (slot l k)) Hwf) as (Hw & Hh & _); [lia|]. simpl in Hf, Hf'.
    destruct (prefix (l + 1) k =? prefix (l + 1) b); [|by eauto]. apply IH; [done|lia..].
Qed.

(** The tree as a map: the value at a key, 0 where there is none. *)
Definition value (o : option node) (k : Z) : Z :=
  match find o k with Done (Some v) => v | _ => 0 end.

Lemma height_small o : wf_opt o → height o < 8.
Proof. destruct o as [n|]; simpl; [|lia]. intros Hwf. pose proof (wf_level n Hwf). lia. Qed.

Lemma find_value fuel o k :
  wf_opt o → is_key k → height o < Z.of_nat fuel →
  ∃ r, find_loop fuel o k = Done r ∧ value o k = default 0 r.
Proof.
  intros Hwf Hk Hf. destruct (find_loop_total fuel walk_fuel o k Hwf Hk Hf) as [(r & Hr) E].
  { by apply height_small. }
  exists r. split; [done|]. unfold value, find. rewrite E, Hr. by destruct r.
Qed.

Lemma value_leaf b es k :
  wf (Leaf b es) → is_key k →
  value (Some (Leaf b es)) k = if prefix 1 k =? prefix 1 b then znth es (slot 0 k) else 0.
Proof.
  intros Hwf Hk. unfold value, find, walk_fuel. rewrite find_loop_leaf by done. by destruct (prefix 1 k =? prefix 1 b).
Qed.

Lemma value_inner b l cs k :
  wf (Inner b l cs) → is_key k →
  value (Some (Inner b l cs)) k =
    if prefix (l + 1) k =? prefix (l + 1) b then value (nth (Z.to_nat (slot l k)) cs None) k else 0.
Proof.
  intros Hwf Hk. unfold value at 1, find, walk_fuel. rewrite find_loop_inner by done.
  destruct (prefix (l + 1) k =? prefix (l + 1) b); [|done].
  destruct (wf_child b l cs (Z.to_nat (slot l k)) Hwf) as (Hw & Hh & _).
  { pose proof (slot_range l k). lia. }
  destruct (find_value 7 (nth (Z.to_nat (slot l k)) cs None) k Hw Hk) as (r & -> & ->).
  - inversion Hwf; lia.
  - by destruct r.
Qed.

(** ** Adding *)

Lemma find_lcl_spec n k other :
  (n <= 6)%nat → prefix (Z.of_nat n + 1) k = prefix (Z.of_nat n + 1) other →
  prefix 0 k ≠ prefix 0 other →
  ∃ l, find_lcl n k other = Done l ∧ 0 ≤ l ≤ Z.of_nat n ∧ slot l k ≠ slot l other ∧
    prefix (l + 1) k = prefix (l + 1) other.
Proof.
  intros Hn Hp Hne. induction n as [|n IH]; cbn [find_lcl];
    rewrite !index_for_spec, !bind_Done by lia; (case_match eqn:E; [apply Z.eqb_eq in E|apply Z.eqb_neq in E]).
  - exfalso. apply Hne. rewrite (prefix_slot 0 k), (prefix_slot 0 other) by lia.
    change (Z.of_nat 0) with 0 in *. lia.
  - exists 0. split; [done|]. split; [lia|done].
  - assert (prefix (Z.of_nat (S n)) k = prefix (Z.of_nat (S n)) other) as Hp'.
    { rewrite (prefix_slot _ k), (prefix_slot _ other) by lia. lia. }
    destruct IH as (l & -> & Hl & Hs & Hpl); [lia| |].
    { by replace (Z.of_nat n + 1) with (Z.of_nat (S n)) by lia. }
    exists l. split; [done|]. split; [lia|done].
  - eexists. split; [done|]. split; [lia|done].
Qed.

Lemma base_ok_prefix k l : is_key k → 0 ≤ l ≤ 6 →
  base_ok (prefix (l + 1) k * 2 ^ level_shift (l + 1)) l ∧
  ∀ j, l + 1 ≤ j ≤ 7 → prefix j (prefix (l + 1) k * 2 ^ level_shift (l + 1)) = prefix j k.
Proof.
  intros Hk Hl. pose proof (level_shift_range (l + 1) ltac:(lia)).
  assert (prefix (l + 1) (prefix (l + 1) k * 2 ^ level_shift (l + 1)) = prefix (l + 1) k) as E.
  { unfold prefix at 1. rewrite Z.div_mul by lia. done. }
  split; [split|].
  - unfold is_key, prefix in *. pose proof (Z.mul_div_le k (2 ^ level_shift (l + 1))).
    pose proof (Z.div_pos k (2 ^ level_shift (l + 1))). nia.
  - by rewrite E.
  - intros j Hj. by apply (prefix_mono (l + 1)); [lia|].
Qed.

Lemma new_node_spec k l : is_key k → 0 ≤ l ≤ 6 →
  new_node k l = Done (if l =? 0 then Leaf (prefix (l + 1) k * 2 ^ level_shift (l + 1)) (replicate 64 0)
    else Inner (prefix (l + 1) k * 2 ^ level_shift (l + 1)) l (replicate 64 None)).
Proof.
  intros Hk Hl. unfold new_node. destruct (level_mask_spec (l + 1)) as (m & -> & Hm); [lia|].
  by rewrite bind_Done, Hm by done.
Qed.

Lemma znth_zero i : znth (replicate 64 0) i = 0.
Proof. apply (znth_Forall (λ x, x = 0)); [done|]. by apply Forall_replicate. Qed.

Section AddSpec.
  Context {A : Type} (k : Z) (Hk : is_key k) (upd : Z → outcome (Z * A)) (v : Z) (a : A).

(** The keys of one page. *)
Definition same_page (j : Z) : bool := prefix 0 j =? prefix 0 k.

Lemma same_page_up j l : 0 ≤ l → same_page j = true → prefix l j = prefix l k ∧ slot l j = slot l k.
Proof.
  intros Hl E%Z.eqb_eq. assert (prefix l j = prefix l k) as El by (by apply (prefix_mono 0); [lia|]).
  split; [done|]. unfold slot. by rewrite El.
Qed.

(** The tree has a leaf for [k]. *)
Definition found (n : node) : Prop := ∃ r, find (Some n) k = Done (Some r).

Lemma found_leaf n : wf n → m_level n = 0 → prefix 1 (m_base n) = prefix 1 k → found n.
Proof.
  intros Hwf Hl Hp. destruct n as [b es|b l cs]; [|inversion Hwf; simpl in *; lia]. unfold found, find, walk_fuel.
  rewrite find_loop_leaf by done. simpl in Hp. rewrite (proj2 (Z.eqb_eq _ _) (eq_sym Hp)). eauto.
Qed.

Lemma found_inner b l cs c :
  wf (Inner b l cs) → prefix (l + 1) k = prefix (l + 1) b →
  cs !! Z.to_nat (slot l k) = Some (Some c) → found c → found (Inner b l cs).
Proof.
  intros Hwf Hp Hc (r & Hr). exists r. unfold find, walk_fuel in *.
  rewrite find_loop_inner, (proj2 (Z.eqb_eq _ _) Hp), (nth_lookup_Some _ _ _ _ Hc) by done.
  inversion Hwf as [|? ? ? Hl _ _ Hch]; subst. destruct (Hch _ _ Hc) as (Hw & Hlt & _).
  rewrite <- Hr. apply (find_loop_total 8 7); [done..|simpl; lia|simpl; lia].
Qed.

(** What [*parent] has to become for the update at [k]. *)
Definition updated (o : option node) (n : node) : Prop :=
  wf n ∧ found n ∧ (∀ j, is_key j → value (Some n) j = if same_page j then v else value o j) ∧
  (∀ l q, 0 ≤ l ≤ 6 → (∀ c, o = Some c → fits l q c) → prefix l k = q → 0 < l → fits l q n).

Lemma use_entry_spec b es :
  wf (Leaf b es) → prefix 1 k = prefix 1 b → upd (value (Some (Leaf b es)) k) = Done (v, a) →
  ∃ n, use_entry (Leaf b es) k upd = Done (n, a) ∧ wf n ∧ m_level n = 0 ∧ m_base n = b ∧
    ∀ j, is_key j → value (Some n) j = if same_page j then v else value (Some (Leaf b es)) j.
Proof.
  intros Hwf Hp Hu. rewrite value_leaf, (proj2 (Z.eqb_eq _ _) Hp) in Hu by done.
  inversion Hwf as [? ? Hb Hlen|]; subst. pose proof (slot_range 0 k). cbn [use_entry].
  rewrite index_for_spec, bind_Done, arr_get_znth, bind_Done, Hu, bind_Done by lia.
  rewrite arr_set_Done, bind_Done by lia. eexists. split; [done|].
  assert (wf (Leaf b (<[Z.to_nat (slot 0 k) := v]> es))) as Hwf'.
  { constructor; [done|by rewrite length_insert]. }
  split; [done|]. split; [done|]. split; [done|]. intros j Hj. rewrite !value_leaf by done.
  rewrite znth_insert by lia. destruct (same_page j) eqn:Ej.
  - destruct (same_page_up j 0) as [_ ->]; [lia|done|]. destruct (same_page_up j 1) as [-> _]; [lia|done|].
    rewrite (proj2 (Z.eqb_eq _ _) Hp). by rewrite decide_True.
  - destruct (Z.eqb_spec (prefix 1 j) (prefix 1 b)) as [E|]; [|done]. rewrite decide_False; [done|].
    intros Es. unfold same_page in Ej. apply Z.eqb_neq in Ej. apply Ej.
    rewrite (prefix_slot 0 j), (prefix_slot 0 k) by lia. change (0 + 1) with 1. lia.
Qed.

Lemma new_leaf_spec :
  upd 0 = Done (v, a) →
  ∃ n, (let* leaf := new_node k 0 in use_entry leaf k upd) = Done (n, a) ∧ wf n ∧ m_level n = 0 ∧
    prefix 1 (m_base n) = prefix 1 k ∧
    ∀ j, is_key j → value (Some n) j = if same_page j then v else 0.
Proof.
  intros Hu. rewrite new_node_spec, bind_Done by (done || lia). change (0 =? 0) with true.
  destruct (base_ok_prefix k 0) as [Hb Hp]; [done|lia|]. change (0 + 1) with 1 in *.
  set (b := prefix 1 k * 2 ^ level_shift 1) in *.
  assert (wf (Leaf b (replicate 64 0))) as Hwf by (by constructor).
  assert (∀ j, is_key j → value (Some (Leaf b (replicate 64 0))) j = 0) as Hz.
  { intros j Hj. rewrite value_leaf, znth_zero by done. by case_match. }
  destruct (use_entry_spec b (replicate 64 0)) as (n & -> & Hn & Hl & Hbn & Hv);
    [done|symmetry; apply Hp; lia|by rewrite Hz|].
  exists n. split; [done|]. split; [done|]. split; [done|]. split; [rewrite Hbn; apply Hp; lia|].
  intros j Hj. rewrite Hv, Hz by done. done.
Qed.

Lemma value_outside n j :
  wf n → is_key j → prefix (m_level n + 1) j ≠ prefix (m_level n + 1) (m_base n) →
  value (Some n) j = 0.
Proof.
  intros Hwf Hj Hne%Z.eqb_neq. destruct n; cbn [m_level m_base] in Hne;
    [rewrite value_leaf by done; change (0 + 1) with 1 in Hne|rewrite value_inner by done];
    by rewrite Hne.
Qed.

(** An intermediate node over the node that was in the way and a new leaf. *)
Lemma inter_spec nd leaf l :
  wf nd → wf leaf → m_level leaf = 0 → prefix 1 (m_base leaf) = prefix 1 k →
  (∀ j, is_key j → value (Some leaf) j = if same_page j then v else 0) →
  m_level nd < l ≤ 6 → slot l k ≠ slot l (m_base nd) → prefix (l + 1) k = prefix (l + 1) (m_base nd) →
  found leaf →
  updated (Some nd) (Inner (prefix (l + 1) k * 2 ^ level_shift (l + 1)) l
    (<[Z.to_nat (slot l k) := Some leaf]> (<[Z.to_nat (slot l (m_base nd)) := Some nd]> (replicate 64 None)))).
Proof.
  intros Hnd Hleaf Hl0 Hlb Hlv Hl Hs Hp Hfd. destruct (wf_level nd Hnd) as [Hln [Hkn Hbn]].
  destruct (base_ok_prefix k l Hk) as [Hb Hpb]; [lia|].
  set (b := prefix (l + 1) k * 2 ^ level_shift (l + 1)) in *.
  pose proof (slot_range l k). pose proof (slot_range l (m_base nd)).
  set (cs := <[_ := _]> _). assert (wf (Inner b l cs)) as Hwf.
  { constructor; [lia|done|by unfold cs; rewrite !length_insert|].
    intros i c Hc. unfold cs in Hc.
    apply list_lookup_insert_Some in Hc as [(<- & [= <-] & _)|[Hne Hc]].
    { split; [done|]. split; [lia|]. rewrite Z2Nat.id by lia.
      rewrite <- slot_prefix; [apply (prefix_mono 1); [lia|done]|done|lia|symmetry; apply Hpb; lia]. }
    apply list_lookup_insert_Some in Hc as [(<- & [= <-] & _)|[Hne' Hc]].
    - split; [done|]. split; [lia|]. rewrite Z2Nat.id by lia. apply slot_prefix; [done|lia|].
      rewrite Hpb by lia. done.
    - apply lookup_replicate_1 in Hc as [? _]. done. }
  split; [done|]. split; [|split].
  - eapply found_inner; [done|symmetry; apply Hpb; lia|apply list_lookup_insert_eq|done].
    rewrite length_insert, length_replicate. lia.
  - intros j Hj. rewrite value_inner, Hpb by (done || lia). pose proof (slot_range l j).
    assert (prefix l j ≠ prefix l (m_base nd) → value (Some nd) j = 0) as Hout.
    { intros Hne. apply value_outside; [done..|]. intros E. apply Hne.
      by apply (prefix_mono (m_level nd + 1)); [lia|]. }
    assert (prefix l j = prefix l (m_base nd) → same_page j = false) as Hin.
    { intros E. destruct (same_page j) eqn:Ej; [|done]. exfalso. apply Hs.
      destruct (same_page_up j l) as [_ <-]; [lia|done|]. unfold slot. by rewrite E. }
    destruct (Z.eqb_spec (prefix (l + 1) j) (prefix (l + 1) k)) as [Ej|Nj].
    2:{ rewrite Hout. { destruct (same_page j) eqn:E; [|done].
          by destruct (same_page_up j (l + 1)) as [? _]; [lia|done|]. }
        intros E. apply Nj. rewrite Hp. by apply (prefix_mono l); [lia|]. }
    rewrite nth_lookup. unfold cs. destruct (decide (slot l j = slot l k)) as [Ek|Nk].
    + rewrite Ek, list_lookup_insert_eq by (rewrite length_insert, length_replicate; lia). simpl.
      rewrite Hlv, Hout by (try done; unfold slot in *; congruence). done.
    + rewrite list_lookup_insert_ne by lia. destruct (decide (slot l j = slot l (m_base nd))) as [Eo|No].
      * rewrite Eo, list_lookup_insert_eq by (rewrite length_replicate; lia). simpl.
        rewrite Hin; [done|]. rewrite (prefix_slot l j), (prefix_slot l (m_base nd)) by lia. congruence.
      * rewrite list_lookup_insert_ne, lookup_replicate_2 by lia. simpl.
        rewrite Hout by (unfold slot in *; congruence). destruct (same_page j) eqn:E; [|done].
        by destruct (same_page_up j l) as [_ ?]; [lia|done|].
  - intros L q HL Hfit Hq HL0. destruct (Hfit nd eq_refl) as [Hlt Hpn]. simpl.
    assert (l < L). { destruct (decide (l < L)); [done|]. exfalso. apply Hs. unfold slot. f_equal.
      apply (prefix_mono L); [lia|congruence]. }
    split; simpl; [done|]. rewrite Hpb by lia. done.
Qed.

(** Adding below a slot of an inner node. *)
Lemma add_inner fuel b l cs :
  (∀ o, wf_opt o → height o < Z.of_nat fuel → upd (value o k) = Done (v, a) →
    ∃ n, add_loop fuel o k upd = Done (n, a) ∧ updated o n) →
  wf (Inner b l cs) → l < Z.of_nat (S fuel) → prefix (l + 1) k = prefix (l + 1) b →
  upd (value (Some (Inner b l cs)) k) = Done (v, a) →
  ∃ n, (let* c := arr_get cs (slot l k) in
        let* (c, a) := add_loop fuel c k upd in
        let* cs := arr_set cs (slot l k) (Some c) in
        Done (Inner b l cs, a)) = Done (n, a) ∧ updated (Some (Inner b l cs)) n.
Proof.
  intros IH Hwf Hf Hp Hu. pose proof (slot_range l k) as Hsl.
  pose proof Hwf as Hw. inversion Hw as [|b' l' cs' Hl Hb Hlen Hch]; subst.
  rewrite value_inner, (proj2 (Z.eqb_eq _ _) Hp) in Hu by done.
  destruct (wf_child b l cs (Z.to_nat (slot l k)) Hwf) as (Hwc & Hhc & Hfc); [lia|].
  destruct (lookup_lt_is_Some_2 cs (Z.to_nat (slot l k))) as [c Hc]; [lia|].
  rewrite (proj2 (arr_get_Done cs _ c)), bind_Done by (split; [lia|done]).
  rewrite (nth_lookup_Some _ _ _ _ Hc) in Hwc, Hhc, Hfc, Hu.
  destruct (IH c) as (n & -> & Hn & Hfd & Hv & Hfit); [done|lia|done|]. rewrite bind_Done.
  rewrite arr_set_Done, bind_Done by lia. eexists. split; [done|].
  assert (prefix l k = prefix l b + slot l k) as Hpk by (apply slot_prefix; [done|lia|done]).
  rewrite Z2Nat.id in Hfc by lia. destruct (Hfit l (prefix l b + slot l k)) as [Hnl Hnp]; [lia|done..|lia|].
  set (cs' := <[_ := _]> cs). assert (wf (Inner b l cs')) as Hwf'.
  { constructor; [done|done|by unfold cs'; rewrite length_insert|]. intros i d Hd. unfold cs' in Hd.
    apply list_lookup_insert_Some in Hd as [(<- & [= <-] & _)|[Hne Hd]]; [|by apply Hch].
    rewrite Z2Nat.id by lia. done. }
  split; [done|]. split; [|split; [|by intros L q _ Hfo _ _; apply (Hfo _ eq_refl)]].
  { eapply found_inner; [done|done|apply list_lookup_insert_eq; lia|done]. }
  intros j Hj. rewrite !value_inner by done. destruct (Z.eqb_spec (prefix (l + 1) j) (prefix (l + 1) b)) as [Ej|Nj].
  - rewrite !nth_lookup. unfold cs'. pose proof (slot_range l j). destruct (decide (slot l j = slot l k)) as [->|Nk].
    + rewrite list_lookup_insert_eq, Hc by lia. simpl. by apply Hv.
    + rewrite list_lookup_insert_ne by lia. destruct (same_page j) eqn:E; [|done].
      by destruct (same_page_up j l) as [_ ?]; [lia|done|].
  - destruct (same_page j) eqn:E; [|done].
    destruct (same_page_up j (l + 1)) as [? _]; [lia|done|]. congruence.
Qed.

Lemma add_loop_spec fuel o :
  wf_opt o → height o < Z.of_nat fuel → upd (value o k) = Done (v, a) →
  ∃ n, add_loop fuel o k upd = Done (n, a) ∧ updated o n.
Proof.
  revert o. induction fuel as [|fuel IH]; intros o Hwf Hf Hu.
  { destruct o as [n|]; simpl in *; [pose proof (wf_level n Hwf)|]; lia. }
  cbn [add_loop]. destruct o as [nd|].
  2:{ destruct new_leaf_spec as (n & -> & Hn & Hl & Hb & Hv); [done|]. exists n.
      split; [done|]. split; [done|]. split; [by apply found_leaf|]. split; [done|].
      intros l q Hl6 _ Hq Hl0. split; [lia|].
      rewrite <- Hq. by apply (prefix_mono 1); [lia|]. }
  rewrite contains_spec, bind_Done by done.
  destruct (Z.eqb_spec (prefix (m_level nd + 1) k) (prefix (m_level nd + 1) (m_base nd))) as [E|Hne].
  - destruct nd as [b es|b l cs].
    + destruct (use_entry_spec b es) as (n & -> & Hn & Hl & Hb & Hv); [done..|]. exists n.
      split; [done|]. split; [done|]. split; [apply found_leaf; [done..|by rewrite Hb]|]. split; [done|].
      intros l q Hl6 Hfit Hq Hl0.
      destruct (Hfit _ eq_refl) as [_ ?]. split; [lia|]. by rewrite Hb.
    + by apply add_inner.
  - destruct (wf_level nd Hwf) as [Hln [Hkn _]]. change (S max_level) with 6%nat.
    destruct (find_lcl_spec 6 k (m_base nd)) as (l & -> & Hl & Hs & Hp); [lia|..].
    { change (Z.of_nat 6 + 1) with 7. by rewrite !prefix_7. }
    { intros E. apply Hne. by apply (prefix_mono 0); [lia|]. }
    assert (m_level nd < l).
    { destruct (decide (m_level nd < l)); [done|]. exfalso. apply Hne.
      apply (prefix_mono (l + 1)); [lia|done]. }
    rewrite bind_Done, (new_node_spec k l), bind_Done by (done || lia).
    rewrite (index_for_spec (m_base nd)), bind_Done by lia.
    destruct new_leaf_spec as (leaf & El & Hleaf & Hl0 & Hlb & Hlv).
    { rewrite <- Hu. f_equal. symmetry. by apply value_outside. }
    rewrite (new_node_spec k 0), bind_Done in El by (done || lia).
    rewrite (new_node_spec k 0), bind_Done by (done || lia).
    rewrite (index_for_spec k l), bind_Done, El, bind_Done, (proj2 (Z.eqb_neq l 0)) by lia.
    pose proof (slot_range l k). pose proof (slot_range l (m_base nd)).
    rewrite arr_set_Done, bind_Done, arr_set_Done, bind_Done
      by (rewrite ?length_insert, length_replicate; lia).
    eexists. split; [done|]. apply inter_spec; try done; [lia|by apply found_leaf].
Qed.
End AddSpec.

Lemma value_same_page o j k : wf_opt o → is_key j → is_key k → prefix 0 j = prefix 0 k → value o j = value o k.
Proof.
  intros Hwf Hj Hk E. unfold value, find. enough (find_loop walk_fuel o j = find_loop walk_fuel o k) as -> by done.
  assert (∀ l, 0 ≤ l → prefix l j = prefix l k) as Hp by (intros; by apply (prefix_mono 0); [lia|]).
  generalize walk_fuel as fuel. intros fuel. revert o Hwf.
  induction fuel as [|fuel IH]; intros o Hwf; [done|]. destruct o as [[b es|b l cs]|]; [..|done].
  - rewrite !find_loop_leaf by done. unfold slot. by rewrite !Hp.
  - inversion Hwf; subst. rewrite !find_loop_inner by done. unfold slot. rewrite !Hp by lia.
    case_match; [|done]. apply IH. apply (wf_child b l); [done|].
    pose proof (Z.mod_pos_bound (prefix l k) 64). lia.
Qed.

(** A panic of the caller while it uses the entry is a panic of the whole. *)
Lemma add_loop_panic {A} k (upd : Z → outcome (Z * A)) fuel o :
  is_key k → wf_opt o → height o < Z.of_nat fuel → upd (value o k) = Panic →
  add_loop fuel o k upd = Panic.
Proof.
  intros Hk. assert (∀ b es, wf (Leaf b es) → prefix 1 k = prefix 1 b →
    upd (value (Some (Leaf b es)) k) = Panic → use_entry (Leaf b es) k upd = Panic) as Hleaf.
  { intros b es Hwf Hp Hu. rewrite value_leaf, (proj2 (Z.eqb_eq _ _) Hp) in Hu by done.
    inversion Hwf; subst. pose proof (slot_range 0 k). cbn [use_entry].
    rewrite index_for_spec, bind_Done, arr_get_znth, bind_Done, Hu by lia. done. }
  assert (upd 0 = Panic → (let* leaf := new_node k 0 in use_entry leaf k upd) = Panic) as Hnew.
  { intros Hu. rewrite new_node_spec, bind_Done by (done || lia).
    destruct (base_ok_prefix k 0) as [Hb Hp]; [done|lia|]. change (0 + 1) with 1 in *. simpl.
    apply Hleaf; [by constructor|symmetry; apply Hp; lia|].
    rewrite value_leaf, znth_zero by (done || by constructor). by case_match. }
  revert o. induction fuel as [|fuel IH]; intros o Hwf Hf Hu.
  { destruct o as [n|]; simpl in *; [pose proof (wf_level n Hwf)|]; lia. }
  cbn [add_loop]. destruct o as [nd|]; [|by apply Hnew]. rewrite contains_spec, bind_Done by done.
  destruct (Z.eqb_spec (prefix (m_level nd + 1) k) (prefix (m_level nd + 1) (m_base nd))) as [E|Hne].
  - destruct nd as [b es|b l cs]; [by apply Hleaf|]. cbn [m_level m_base] in E |- *.
    pose proof (slot_range l k). inversion Hwf; subst.
    rewrite value_inner, (proj2 (Z.eqb_eq _ _) E) in Hu by done.
    destruct (wf_child b l cs (Z.to_nat (slot l k)) Hwf) as (Hwc & Hhc & _); [lia|].
    destruct (lookup_lt_is_Some_2 cs (Z.to_nat (slot l k))) as [c Hc]; [lia|].
    rewrite (proj2 (arr_get_Done cs _ c)), bind_Done by (split; [lia|done]).
    rewrite (nth_lookup_Some _ _ _ _ Hc) in *. simpl in Hf. by rewrite IH by (done || lia).
  - destruct (wf_level nd Hwf) as [Hln [Hkn _]]. change (S max_level) with 6%nat.
    destruct (find_lcl_spec 6 k (m_base nd)) as (l & -> & Hl & Hs & Hp); [lia|..].
    { change (Z.of_nat 6 + 1) with 7. by rewrite !prefix_7. }
    { intros E. apply Hne. by apply (prefix_mono 0); [lia|]. }
    rewrite bind_Done, (new_node_spec k l), bind_Done by (done || lia).
    rewrite (index_for_spec (m_base nd)), bind_Done by lia.
    rewrite (new_node_spec k 0), bind_Done, (index_for_spec k l), bind_Done by (done || lia).
    rewrite value_outside in Hu by done. specialize (Hnew Hu).
    rewrite (new_node_spec k 0), bind_Done in Hnew by (done || lia). by rewrite Hnew.
Qed.

(** ** The tree as a map *)

(** [find_or_add] gives the entry for a key whatever shape the tree has, a new one with value 0
    when there was none: an update through it changes the value of exactly the keys of that page,
    and [find] returns the updated value.  The nodes keep their places: every node lies in the slot
    of its parent its base calls for. *)
Theorem find_or_add_correct {A} o k (upd : Z → outcome (Z * A)) v a :
  wf_opt o → is_key k → upd (value o k) = Done (v, a) →
  ∃ n, find_or_add o k upd = Done (n, a) ∧ wf n ∧ find (Some n) k = Done (Some v) ∧
    ∀ j, is_key j → value (Some n) j = if decide (j / 4096 = k / 4096) then v else value o j.
Proof.
  intros Hwf Hk Hu. destruct (add_loop_spec k Hk upd v a walk_fuel o Hwf) as (n & E & Hn & (r & Hr) & Hv & _).
  { by apply height_small. } { done. }
  exists n. split; [done|]. split; [done|].
  assert (∀ j, same_page k j = bool_decide (j / 4096 = k / 4096)) as Hs.
  { intros j. unfold same_page, prefix. change (2 ^ level_shift 0) with 4096.
    case_bool_decide; [by apply Z.eqb_eq|by apply Z.eqb_neq]. }
  split.
  - rewrite Hr. do 2 f_equal. specialize (Hv k Hk). unfold value at 1 in Hv.
    rewrite Hr, Hs in Hv. by rewrite bool_decide_eq_true_2 in Hv.
  - intros j Hj. rewrite Hv, Hs by done. by case_bool_decide; [rewrite decide_True|rewrite decide_False].
Qed.

(** The map a list of updates makes, as the program sees it and as a finite map. *)
Fixpoint run_sets (o : option node) (ops : list (Z * Z)) : outcome (option node) :=
  match ops with
  | [] => Done o
  | (k, v) :: ops => let* (n, _) := find_or_add o k (λ _, Done (v, ())) in run_sets (Some n) ops
  end.
Definition sets_map (m : gmap Z Z) (ops : list (Z * Z)) : gmap Z Z :=
  foldl (λ m kv, <[kv.1 / 4096 := kv.2]> m) m ops.

(** C11: any sequence of updates through [find_or_add], from the null root on, leaves a tree that
    [find] reads as the finite map from page numbers the updates make. *)
Theorem radix_tree_refines_map ops :
  Forall (λ kv, is_key kv.1) ops →
  ∃ o, run_sets None ops = Done o ∧ wf_opt o ∧
    ∀ j, is_key j → value o j = default 0 (sets_map ∅ ops !! (j / 4096)).
Proof.
  intros Hops. enough (∀ o m, wf_opt o → (∀ j, is_key j → value o j = default 0 (m !! (j / 4096))) →
    ∃ o', run_sets o ops = Done o' ∧ wf_opt o' ∧
      ∀ j, is_key j → value o' j = default 0 (sets_map m ops !! (j / 4096))) as Hgen.
  { apply Hgen; [done|]. intros j _. by rewrite lookup_empty. }
  induction Hops as [|[k v] ops Hk Hops IH]; intros o m Hwf Hm; [by exists o|]. simpl in Hk.
  assert (∃ n, find_or_add o k (λ _, Done (v, ())) = Done (n, ()) ∧ updated k v o n) as (n & E & Hn & _ & Hv & _).
  { apply add_loop_spec; [done..|by apply height_small|done]. }
  cbn [run_sets]. rewrite E, bind_Done. apply (IH (Some n)); [done|]. intros j Hj. rewrite Hv by done.
  unfold same_page, prefix. change (2 ^ level_shift 0) with 4096.
  destruct (Z.eqb_spec (j / 4096) (k / 4096)) as [->|Hne].
  - by rewrite lookup_insert_eq.
  - by rewrite lookup_insert_ne, Hm.
Qed.

(** ** Pages of an area *)

Section Pages.
  Context {F : Type} {FS : FrameSource F} {FL : FrameLaws F}.

Definition page_of (o : option node) (j : Z) : option Z :=
  if Z.testbit (value o j) 0 then Some (Z.land (value o j) page_mask) else None.

(** The pages a tree holds are not available any more, and no two offsets share one. *)
Record pages_ok (o : option node) (f : F) : Prop := {
  po_wf : wf_opt o;
  po_fa : fa_ok f;
  po_used : ∀ j p, is_key j → page_of o j = Some p → ¬ fa_avail f p;
  po_inj : ∀ i j p, is_key i → is_key j → page_of o i = Some p → page_of o j = Some p →
    i / 4096 = j / 4096;
}.

(** Adding the frame an allocation gave. *)
Lemma pages_ok_add o f f' n k p :
  pages_ok o f → is_key k → wf n → fa_ok f' → fa_avail f p → p mod 4096 = 0 → is_u64 p →
  (∀ x, fa_avail f' x → fa_avail f x ∧ x ≠ p) →
  (∀ j, is_key j → value (Some n) j = if same_page k j then Z.lor p 1 else value o j) →
  pages_ok (Some n) f' ∧ page_of (Some n) k = Some p ∧
  ∀ j, is_key j → j / 4096 ≠ k / 4096 → page_of (Some n) j = page_of o j.
Proof.
  intros [Hwf Hfa Hu Hinj] Hk Hn Hfa' Hav Hal Hp Hx Hv.
  assert (∀ j, is_key j → page_of (Some n) j = if same_page k j then Some p else page_of o j) as Hpg.
  { intros j Hj. unfold page_of. rewrite Hv by done. destruct (same_page k j); [|done].
    rewrite Z.lor_spec, (mask_aligned p 1) by (done || lia). by rewrite orb_true_r. }
  assert (∀ j, same_page k j = true ↔ j / 4096 = k / 4096) as Hsp by (intros; apply Z.eqb_eq).
  split; [split; [done..| |]|split].
  - intros j q Hj. rewrite Hpg by done. destruct (same_page k j).
    + intros [= <-] Hq. by destruct (Hx p Hq).
    + intros Hq Hqa. destruct (Hx q Hqa). by eapply Hu.
  - intros i j q Hi Hj. rewrite !Hpg by done.
    destruct (same_page k i) eqn:Ei, (same_page k j) eqn:Ej; rewrite ?Hsp in *; try congruence.
    + intros [= <-] Hq. by destruct (Hu j p Hj Hq).
    + intros Hq [= <-]. by destruct (Hu i p Hi Hq).
    + by apply Hinj.
  - rewrite Hpg by done. by rewrite (proj2 (Hsp k)).
  - intros j Hj Hne. rewrite Hpg by done. destruct (same_page k j) eqn:E; [|done]. by apply Hsp in E.
Qed.

Lemma page_tree_spec o f k :
  pages_ok o f → is_key k →
  (pt_find_or_add o k f = Panic ∧ page_of o k = None ∧ ∀ a, ¬ fa_avail f a) ∨
  (∃ o' p f', pt_find_or_add o k f = Done (o', Some p, f') ∧ pages_ok o' f' ∧
    page_of o' k = Some p ∧ (page_of o k = None ∧ fa_avail f p ∨ page_of o k = Some p ∧ f' = f) ∧
    (∀ j, is_key j → j / 4096 ≠ k / 4096 → page_of o' j = page_of o j) ∧
    ∀ x, fa_avail f' x → fa_avail f x).
Proof.
  intros Hok Hk. pose proof Hok as [Hwf Hfa Hu Hinj]. unfold pt_find_or_add, find_or_add.
  match goal with |- context [add_loop _ _ _ ?u] => set (upd := u) end.
  destruct (Z.testbit (value o k) 0) eqn:Eb.
  - right. set (p := Z.land (value o k) page_mask).
    destruct (add_loop_spec k Hk upd (value o k) (Some p, f) walk_fuel o Hwf) as (n & -> & Hn & _ & Hv & _).
    { by apply height_small. } { unfold upd. by rewrite Eb. }
    assert (∀ j, is_key j → value (Some n) j = value o j) as Hsame.
    { intros j Hj. rewrite Hv by done. destruct (same_page k j) eqn:E; [|done].
      apply Z.eqb_eq in E. by apply value_same_page. }
    assert (∀ j, is_key j → page_of (Some n) j = page_of o j) as Hpg.
    { intros j Hj. unfold page_of. by rewrite Hsame. }
    exists (Some n), p, f. split; [done|]. split; [split; [done..| |]|].
    + intros j q Hj. rewrite Hpg by done. by apply Hu.
    + intros i j q Hi Hj. rewrite !Hpg by done. by apply Hinj.
    + assert (page_of o k = Some p) as Ek by (unfold page_of; by rewrite Eb).
      rewrite Hpg by done. split; [done|]. split; [by right|]. split; [|done]. intros j Hj _. by apply Hpg.
  - assert (page_of o k = None) as Ek by (unfold page_of; by rewrite Eb).
    destruct (fa_allocate_law f 1 Hfa) as [[Hp Hno]|(n & a & f' & Ha & Hfa' & Hn & Hav & Hx)]; [lia|left|right].
    + split; [|done]. rewrite add_loop_panic; [done..|by apply height_small|].
      unfold upd. by rewrite Eb, Hp.
    + assert (n = 1) as -> by lia. specialize (Hav 0 ltac:(lia)) as Hav0. rewrite Z.mul_0_l, Z.add_0_r in Hav0.
      destruct (fa_avail_range f a Hfa Hav0) as [Hr Hal].
      assert (is_u64 a) as Ha64 by (unfold is_word, phys_limit in *; lia).
      destruct (add_loop_spec k Hk upd (Z.lor a 1) (Some a, f') walk_fuel o Hwf) as (nd & -> & Hnd & _ & Hv & _).
      { by apply height_small. }
      { unfold upd. rewrite Eb, Ha, bind_Done. change (1 =? 0) with false. simpl.
        by rewrite (mask_aligned a 1) by (done || lia). }
      destruct (pages_ok_add o f f' nd k a) as (Hok' & Hpk & Hoth); try done.
      { intros x Hxa. destruct (Hx x Hxa) as [? Hne]. split; [done|]. specialize (Hne 0). lia. }
      exists (Some nd), a, f'. split; [done|]. split; [done|]. split; [done|]. split; [by left|]. split; [done|].
      intros x Hxa. by apply Hx.
Qed.

(** Asking for the pages at a list of offsets, in order. *)
Fixpoint run_pages (o : option node) (f : F) (offs : list Z) : outcome (list (option Z) * option node * F) :=
  match offs with
  | [] => Done ([], o, f)
  | k :: offs =>
      let* (o, p, f) := pt_find_or_add o k f in
      let* (ps, o, f) := run_pages o f offs in
      Done (p :: ps, o, f)
  end.

Lemma run_pages_spec offs o f :
  pages_ok o f → Forall is_key offs →
  run_pages o f offs = Panic ∨
  ∃ ps o' f', run_pages o f offs = Done (ps, o', f') ∧ pages_ok o' f' ∧ length ps = length offs ∧
    (∀ i k, offs !! i = Some k → ∃ p, ps !! i = Some (Some p) ∧ page_of o' k = Some p) ∧
    (∀ k p, is_key k → page_of o k = Some p → page_of o' k = Some p).
Proof.
  intros Hok Hoffs. revert o f Hok. induction Hoffs as [|k offs Hk Hoffs IH]; intros o f Hok.
  { right. exists [], o, f. split; [done|]. split; [done|]. split; [done|]. split; [|done].
    intros i k Hi. by rewrite lookup_nil in Hi. }
  cbn [run_pages]. destruct (page_tree_spec o f k Hok Hk) as [(-> & _)|(o1 & p & f1 & -> & Hok1 & Hp & Hwas & Hoth & _)];
    [by left|]. rewrite bind_Done.
  destruct (IH o1 f1 Hok1) as [->|(ps & o2 & f2 & -> & Hok2 & Hlen & Hat & Hkeep)]; [by left|right].
  rewrite bind_Done. exists (Some p :: ps), o2, f2. split; [done|]. split; [done|]. split; [simpl; lia|].
  split.
  - intros [|i] k' Hi; simpl in *; [|by apply Hat]. injection Hi as <-. exists p. split; [done|]. by apply Hkeep.
  - intros j q Hj Hq. apply Hkeep; [done|]. destruct (decide (j / 4096 = k / 4096)) as [E|Hne]; [|by rewrite Hoth].
    assert (page_of o j = page_of o k) as Ej.
    { unfold page_of. rewrite (value_same_page o j k); [done|apply Hok|done..]. }
    assert (page_of o1 j = page_of o1 k) as Ej1.
    { unfold page_of. rewrite (value_same_page o1 j k); [done|apply Hok1|done..]. }
    rewrite Ej1, Hp. destruct Hwas as [[E0 _]|[E0 _]]; congruence.
Qed.

(** the pages [page_tree::find_or_add] gives over any sequence of offsets are the same exactly
    for offsets of the same page: a page once given stays, and no frame is given to two pages.
    The only failure is the panic of a frame allocator without free frames. *)
Theorem page_tree_pages_distinct o f offs :
  pages_ok o f → Forall is_key offs →
  run_pages o f offs = Panic ∨
  ∃ ps o' f', run_pages o f offs = Done (ps, o', f') ∧ length ps = length offs ∧
    ∀ i j a b, offs !! i = Some a → offs !! j = Some b →
      ∃ p q, ps !! i = Some (Some p) ∧ ps !! j = Some (Some q) ∧ (p = q ↔ a / 4096 = b / 4096).
Proof.
  intros Hok Hoffs. destruct (run_pages_spec offs o f Hok Hoffs)
    as [?|(ps & o' & f' & E & Hok' & Hlen & Hat & _)]; [by left|right].
  exists ps, o', f'. split; [done|]. split; [done|]. intros i j a b Hi Hj.
  destruct (Hat i a Hi) as (p & Hp & Epa), (Hat j b Hj) as (q & Hq & Eqb).
  assert (is_key a ∧ is_key b) as [Hka Hkb] by (split; by eapply Forall_lookup_1).
  exists p, q. split; [done|]. split; [done|]. split.
  - intros ->. by eapply (po_inj _ _ Hok').
  - intros Hab. assert (page_of o' a = page_of o' b); [|congruence]. unfold page_of.
    rewrite (value_same_page o' a b); [done|apply Hok'|done..].
Qed.
End Pages.

Lemma find_or_add_correct_witness :
  ∃ n, find_or_add None 0x5000 (λ e, Done (e + 7, ())) = Done (n, ()) ∧
    find (Some n) 0x5000 = Done (Some 7).
Proof.
  destruct (find_or_add_correct None 0x5000 (λ e, Done (e + 7, ())) 7 ()) as (n & E & _ & Hf & _).
  - exact I.
  - unfold is_key. lia.
  - vm_compute. reflexivity.
  - exists n. split; [exact E|exact Hf].
Defined.

Lemma radix_tree_refines_map_witness :
  ∃ o, run_sets None [(0x5000, 1); (0x40005000, 2); (0x6000, 3)] = Done o ∧
    value o 0x40005abc = 2.
Proof.
  destruct (radix_tree_refines_map [(0x5000, 1); (0x40005000, 2); (0x6000, 3)]) as (o & E & _ & Hv).
  - repeat constructor; simpl; lia.
  - exists o. split; [exact E|]. rewrite Hv by (unfold is_key; lia). vm_compute. reflexivity.
Defined.

Lemma blocks_66_ok : blocks_ok [FrameAllocator.block_66].
Proof.
  pose proof FrameAllocator.block_66_wf. split.
  - by constructor.
  - constructor; [|done]. by vm_compute.
  - constructor; [|done]. by vm_compute.
  - intros [|i] b f Hb; simpl in Hb; [|by rewrite lookup_nil in Hb]. injection Hb as <-. intros Hf Hfree.
    change (FrameAllocator.count FrameAllocator.block_66) with 4224.
    destruct (decide (f < 4224)); [done|]. unfold FrameAllocator.frame_free in Hfree.
    rewrite znth_oob, Z.bits_0 in Hfree; [done|].
    change (Z.of_nat (length (FrameAllocator.bitmap FrameAllocator.block_66))) with 66.
    Z.div_mod_to_equations; lia.
  - intros [|i] [|j] b c Hne Hb Hc; simpl in *; try done; by rewrite lookup_nil in *.
Qed.

Lemma empty_pages_ok : pages_ok None [FrameAllocator.block_66].
Proof. split; [done|apply blocks_66_ok|done|done]. Qed.

Lemma page_tree_pages_distinct_witness :
  ∃ ps o f, run_pages None [FrameAllocator.block_66] [0x5000; 0x40005000; 0x5abc] = Done (ps, o, f) ∧
    length ps = 3%nat.
Proof.
  destruct (page_tree_pages_distinct None [FrameAllocator.block_66] [0x5000; 0x40005000; 0x5abc])
    as [E|(ps & o & f & E & Hl & _)].
  - exact empty_pages_ok.
  - repeat constructor; lia.
  - vm_compute in E. discriminate E.
  - exists ps, o, f. split; [exact E|exact Hl].
Defined.
