(* ===== verification/VmArea.v ===== *)
(** * Virtual memory areas

    Models src/kernel/block_allocator.h and src/kernel/objects/vm_area.cpp: the areas of memory a
    kernel object stands for, with the classes fixed, untracked, open, guarded and ring as kinds
    whose virtual functions are cases of one definition.  An area's pages are a page_tree
    (RadixTree.v); frames come from an allocator behind the interface of Frames.v.  A vector is
    the list of its items, which Vector.v shows util::vector to be.

    The theorems are about what [get_page] hands out and about the sections of guarded areas. *)
From S2P Require Import Prelude Frames RadixTree.

Abbreviation frame_size := FrameAllocator.frame_size.

(** ** block_allocator *)

Record block_allocator := BlockAllocator {
  m_next_block : Z;
  m_block_size : Z;
  m_free : list Z;
}.

Definition new_block_allocator (start size : Z) : block_allocator := BlockAllocator start size [].

(** [m_free.pop()] takes the last item; the fetch-and-add wraps. *)
Definition ba_allocate (b : block_allocator) : Z * block_allocator :=
  match last (m_free b) with
  | Some p => (p, BlockAllocator (m_next_block b) (m_block_size b) (take (length (m_free b) - 1) (m_free b)))
  | None => (m_next_block b,
             BlockAllocator (u64 (m_next_block b + m_block_size b)) (m_block_size b) (m_free b))
  end.
Definition ba_free (b : block_allocator) (p : Z) : block_allocator :=
  BlockAllocator (m_next_block b) (m_block_size b) (m_free b ++ [p]).
Definition ba_end (b : block_allocator) : Z := m_next_block b.

(** ** The areas *)

(** [vm_flags], by bit. *)
Definition flag_write : Z := 0.
Definition flag_write_combine : Z := 8.
Definition flag_mmio : Z := 12.
Definition flag_exact : Z := 16.

Inductive kind :=
  | Fixed (m_start : Z)
  | Untracked
  | Open (m_mapped : option node)
  | Guarded (m_pages : Z) (m_stacks : block_allocator) (m_mapped : option node)
  | Ring (m_bufsize : Z) (m_mapped : option node).

Record vm_area := VmArea {
  m_size : Z;
  m_flags : Z;
  m_spaces : list Z;
  m_handle_count : Z;
  m_kind : kind;
}.

(** The constructors. *)
Definition new_vm_area (size flags : Z) (k : kind) : vm_area :=
  VmArea (u64 (page_count size * frame_size)) flags [] 0 k.
Definition new_fixed (start size flags : Z) : vm_area := new_vm_area size flags (Fixed start).
Definition new_untracked (size flags : Z) : vm_area := new_vm_area size flags Untracked.
Definition new_open (size flags : Z) : vm_area := new_vm_area size flags (Open None).
Definition new_guarded (start buf_pages size flags : Z) : vm_area :=
  let pages := u64 (buf_pages + 1) in
  new_vm_area size flags (Guarded pages (new_block_allocator start (u64 (pages * frame_size))) None).
Definition new_ring (size flags : Z) : vm_area :=
  new_vm_area (u64 (size * 2)) flags (Ring size None).

Definition set_kind (a : vm_area) (k : kind) : vm_area :=
  VmArea (m_size a) (m_flags a) (m_spaces a) (m_handle_count a) k.
Definition set_spaces (a : vm_area) (ss : list Z) : vm_area :=
  VmArea (m_size a) (m_flags a) ss (m_handle_count a) (m_kind a).
Definition set_handles (a : vm_area) (n : Z) : vm_area :=
  VmArea (m_size a) (m_flags a) (m_spaces a) n (m_kind a).
Definition set_size (a : vm_area) (n : Z) : vm_area :=
  VmArea n (m_flags a) (m_spaces a) (m_handle_count a) (m_kind a).

(** [add_to], with the override of untracked areas. *)
Definition base_add_to (a : vm_area) (space : Z) : bool * vm_area :=
  if bool_decide (space ∈ m_spaces a) then (true, a)
  else (true, set_spaces a (m_spaces a ++ [space])).
Definition untracked_add_to (a : vm_area) (space : Z) : bool * vm_area :=
  match m_spaces a with
  | [] => base_add_to a space
  | s :: _ => (s =? space, a)
  end.
Definition add_to (a : vm_area) (space : Z) : bool * vm_area :=
  match m_kind a with
  | Untracked => untracked_add_to a space
  | _ => base_add_to a space
  end.

(** [m_spaces.remove_swap(space)]: the last item takes the place of the first one found. *)
Definition remove_swap (ss : list Z) (space : Z) : list Z :=
  match list_find (eq space) ss, last ss with
  | Some (i, _), Some l => take (length ss - 1) (<[i := l]> ss)
  | _, _ => ss
  end.

Section GetPage.
  Context {F : Type} {FS : FrameSource F}.

(** The destructors: [delete this].  A tree is deleted with its nodes. *)
Definition fixed_destroy (start : Z) (a : vm_area) (f : F) : outcome F :=
  if Z.testbit (m_flags a) flag_mmio then Done f
  else fa_free f start (page_count (m_size a)).
Definition untracked_destroy (f : F) : outcome F := let* _ := kassert false in Done f.
Definition destroy (a : vm_area) (f : F) : outcome F :=
  match m_kind a with
  | Fixed start => fixed_destroy start a f
  | Untracked => untracked_destroy f
  | Open _ | Guarded _ _ _ | Ring _ _ => Done f
  end.

(** [remove_from] and [on_no_handles]: the area is gone, [None], when nothing keeps it. *)
Definition remove_from (a : vm_area) (space : Z) (f : F) : outcome (option vm_area * F) :=
  let a := set_spaces a (remove_swap (m_spaces a) space) in
  if bool_decide (m_spaces a = []) && (m_handle_count a =? 0)
  then let* f := destroy a f in Done (None, f)
  else Done (Some a, f).
Definition on_no_handles (a : vm_area) (f : F) : outcome (option vm_area * F) :=
  if bool_decide (m_spaces a = []) then let* f := destroy a f in Done (None, f)
  else Done (Some a, f).

Definition handle_retain (a : vm_area) : vm_area := set_handles a (u16 (m_handle_count a + 1)).
Definition handle_release (a : vm_area) (f : F) : outcome (option vm_area * F) :=
  let a := set_handles a (u16 (m_handle_count a - 1)) in
  if m_handle_count a =? 0 then on_no_handles a f else Done (Some a, f).

(** [can_resize] asks each space; [resize], with the override of fixed areas. *)
Definition can_resize (space_can : Z → Z → bool) (a : vm_area) (size : Z) : bool :=
  forallb (λ space, space_can space size) (m_spaces a).
Definition base_resize (space_can : Z → Z → bool) (a : vm_area) (size : Z) : Z * vm_area :=
  let a := if can_resize space_can a size then set_size a size else a in (m_size a, a).
Definition fixed_resize (a : vm_area) (size : Z) : Z * vm_area := (m_size a, a).
Definition resize (space_can : Z → Z → bool) (a : vm_area) (size : Z) : Z * vm_area :=
  match m_kind a with
  | Fixed _ => fixed_resize a size
  | _ => base_resize space_can a size
  end.

(** [vm_area_open::get_page] on the tree: the result is false for [None]. *)
Definition open_get_page (t : option node) (offset : Z) (alloc : bool) (f : F)
    : outcome (option Z * option node * F) :=
  if alloc then
    let* (t, p, f) := pt_find_or_add t offset f in Done (p, t, f)
  else
    let* p := find t offset in Done (p, t, f).

(** [get_page] of the other classes; [None] is false. *)
Definition fixed_get_page (start size offset : Z) : option Z :=
  if offset >? size then None else Some (u64 (start + offset)).

Definition untracked_get_page (size offset : Z) (alloc : bool) (f : F) : outcome (option Z * F) :=
  if offset >? size then Done (None, f)
  else if negb alloc then Done (Some 0, f)
  else
    let* (n, phys, f) := fa_allocate f 1 in
    Done (if n =? 0 then None else Some phys, f).

Definition guarded_get_page (pages : Z) (stacks : block_allocator) (t : option node) (offset : Z)
    (alloc : bool) (f : F) : outcome (option Z * option node * F) :=
  if offset >=? ba_end stacks then Done (None, t, f)
  else if pages =? 0 then Undef
  else if (Z.shiftr offset 12) mod pages =? 0 then Done (None, t, f)
  else open_get_page t offset alloc f.

Definition ring_get_page (bufsize : Z) (t : option node) (offset : Z) (alloc : bool) (f : F)
    : outcome (option Z * option node * F) :=
  let offset := if offset >? bufsize then offset - bufsize else offset in
  open_get_page t offset alloc f.

(** The virtual call. *)
Definition get_page (a : vm_area) (offset : Z) (alloc : bool) (f : F)
    : outcome (option Z * vm_area * F) :=
  match m_kind a with
  | Fixed start => Done (fixed_get_page start (m_size a) offset, a, f)
  | Untracked => let* (p, f) := untracked_get_page (m_size a) offset alloc f in Done (p, a, f)
  | Open t => let* (p, t, f) := open_get_page t offset alloc f in Done (p, set_kind a (Open t), f)
  | Guarded pages stacks t =>
      let* (p, t, f) := guarded_get_page pages stacks t offset alloc f in
      Done (p, set_kind a (Guarded pages stacks t), f)
  | Ring bufsize t =>
      let* (p, t, f) := ring_get_page bufsize t offset alloc f in
      Done (p, set_kind a (Ring bufsize t), f)
  end.
End GetPage.

(** [vm_area_guarded::get_section] and [return_section] *)
Definition get_section (stacks : block_allocator) : Z * block_allocator :=
  let (p, stacks) := ba_allocate stacks in (u64 (p + frame_size), stacks).
Definition return_section (stacks : block_allocator) (addr : Z) : block_allocator :=
  ba_free stacks (u64 (addr - frame_size)).

(** ** Sections of guarded areas *)

Inductive section_op := GetSection | ReturnSection (addr : Z).

(** Sections in use after a run of calls, newest first. *)
Fixpoint run_sections (ops : list section_op) (b : block_allocator) (live : list Z)
    : block_allocator * list Z :=
  match ops with
  | [] => (b, live)
  | GetSection :: ops => let (a, b) := get_section b in run_sections ops b (a :: live)
  | ReturnSection a :: ops =>
      run_sections ops (return_section b a) (list_difference live [a])
  end.

(** Only sections in use are returned, and the addresses do not run past the end of memory. *)
Fixpoint sections_allowed (ops : list section_op) (b : block_allocator) (live : list Z) : bool :=
  match ops with
  | [] => true
  | GetSection :: ops =>
      (m_next_block b + m_block_size b <? 2 ^ 64) &&
      let (a, b) := get_section b in sections_allowed ops b (a :: live)
  | ReturnSection a :: ops =>
      bool_decide (a ∈ live) &&
      sections_allowed ops (return_section b a) (list_difference live [a])
  end.

Section Sections.
  Context (start pages : Z) (Hstart : 0 ≤ start) (Hpages : 1 < pages).

Definition section_addr (k : Z) : Z := start + (k * pages + 1) * frame_size.

(** All sections below the next block are in use or free, none twice. *)
Record sections_ok (b : block_allocator) (live : list Z) : Prop := {
  so_size : m_block_size b = pages * frame_size;
  so_end : 0 ≤ m_next_block b < 2 ^ 64;
  so_all : ∃ n, 0 ≤ n ∧ m_next_block b = start + n * (pages * frame_size) ∧
    ((λ p, p + frame_size) <$> m_free b) ++ live ≡ₚ section_addr <$> seqZ 0 n;
}.

Lemma section_addr_inj j k : section_addr j = section_addr k → j = k.
Proof. unfold section_addr, FrameAllocator.frame_size. nia. Qed.

Lemma sections_nodup b live : sections_ok b live → NoDup (((λ p, p + frame_size) <$> m_free b) ++ live).
Proof.
  intros [_ _ (n & _ & _ & Hp)]. rewrite Hp.
  apply NoDup_fmap_2_strong; [intros; by apply section_addr_inj|apply NoDup_seqZ].
Qed.

Lemma section_bound b live a :
  sections_ok b live → a ∈ ((λ p, p + frame_size) <$> m_free b) ++ live →
  ∃ k, 0 ≤ k ∧ a = section_addr k ∧ a + (pages - 1) * frame_size ≤ m_next_block b.
Proof.
  intros [_ _ (n & Hn & En & Hp)] Ha. rewrite Hp in Ha.
  apply list_elem_of_fmap in Ha as (k & -> & Hk%elem_of_seqZ). exists k. split; [lia|]. split; [done|].
  unfold section_addr, FrameAllocator.frame_size in *. nia.
Qed.

Lemma get_section_ok b live :
  sections_ok b live → m_next_block b + m_block_size b < 2 ^ 64 →
  let (a, b') := get_section b in sections_ok b' (a :: live).
Proof.
  intros Hok Hb. pose proof Hok as [Hs He (n & Hn & En & Hp)]. unfold get_section, ba_allocate.
  destruct (last (m_free b)) as [p|] eqn:El.
  - destruct (proj1 (last_Some _ _) El) as [fs Ef].
    destruct (section_bound b live (p + frame_size) Hok) as (k & Hk & Ek & Hle).
    { rewrite Ef, fmap_app. set_solver. }
    assert (0 ≤ p + frame_size < 2 ^ 64).
    { unfold section_addr, FrameAllocator.frame_size in *. nia. }
    rewrite wrap_small by done. split; simpl; [done..|]. exists n. split; [done|]. split; [done|].
    rewrite <- Hp. rewrite Ef, length_app. simpl. replace (length fs + 1 - 1)%nat with (length fs) by lia.
    rewrite take_app_length, fmap_app. simpl. rewrite <- app_assoc. simpl. done.
  - apply last_None in El. rewrite El in *. simpl in *.
    rewrite !wrap_small by (unfold is_word, FrameAllocator.frame_size in *; nia).
    rewrite Hs in Hb |- *. split; simpl; [done|unfold FrameAllocator.frame_size in *; nia|].
    exists (n + 1). split; [lia|]. split; [unfold FrameAllocator.frame_size in *; lia|].
    rewrite seqZ_app, fmap_app, <- Hp by lia. change (seqZ (0 + n) 1) with [0 + (0 + n)].
    cbn [fmap list_fmap]. rewrite <- Permutation_cons_append.
    replace (section_addr (0 + (0 + n))) with (m_next_block b + frame_size); [done|].
    unfold section_addr, FrameAllocator.frame_size in *. lia.
Qed.

Lemma return_section_ok b live a :
  sections_ok b live → a ∈ live → sections_ok (return_section b a) (list_difference live [a]).
Proof.
  intros Hok Ha. pose proof (sections_nodup b live Hok) as Hnd. apply NoDup_app in Hnd as (_ & _ & Hnd).
  destruct (section_bound b live a Hok) as (k & Hk & -> & Hle); [set_solver|].
  destruct Hok as [Hs He (n & Hn & En & Hp)].
  split; simpl; [done..|]. exists n. split; [done|]. split; [done|]. rewrite <- Hp, fmap_app. simpl.
  rewrite wrap_small by (unfold is_word, section_addr, FrameAllocator.frame_size in *; nia).
  rewrite Z.sub_add, <- app_assoc. f_equiv. apply NoDup_Permutation; [|done|].
  - apply NoDup_cons. split; [|by apply NoDup_list_difference]. rewrite list_elem_of_difference. set_solver.
  - intros x. simpl. rewrite elem_of_cons, list_elem_of_difference, list_elem_of_singleton.
    destruct (decide (x = section_addr k)) as [->|]; naive_solver.
Qed.

Lemma run_sections_ok ops b live :
  sections_ok b live → sections_allowed ops b live = true →
  let (b', live') := run_sections ops b live in sections_ok b' live'.
Proof.
  revert b live. induction ops as [|op ops IH]; intros b live Hok Hal; [done|].
  destruct op as [|a]; simpl in *; apply andb_prop in Hal as [Hc Hal].
  - apply Z.ltb_lt in Hc. pose proof (get_section_ok b live Hok Hc) as Hg.
    destruct (get_section b) as [a b']. by apply IH.
  - apply bool_decide_eq_true in Hc. apply IH; [by apply return_section_ok|done].
Qed.
End Sections.

(** over any sequence of [get_section] and [return_section] calls that returns only sections in
    use, the sections in use are distinct; each starts right behind a guard page, which [get_page]
    refuses, while every page of the section is left to the area's tree, and the sections with
    their guard pages do not overlap. *)
Theorem guarded_sections {F} {FS : FrameSource F} start pages ops b live :
  0 ≤ start → 1 < pages → pages * frame_size < 2 ^ 64 → start < 2 ^ 64 →
  let b0 := new_block_allocator start (u64 (pages * frame_size)) in
  sections_allowed ops b0 [] = true → run_sections ops b0 [] = (b, live) →
  NoDup live ∧
  ∀ a, a ∈ live →
    (∃ k, a = start + (k * pages + 1) * frame_size) ∧
    ∀ (area : vm_area) t alloc (f : F), m_kind area = Guarded pages b t →
      get_page area (a - start - frame_size) alloc f = Done (None, set_kind area (Guarded pages b t), f) ∧
      ∀ i, 0 ≤ i < pages - 1 →
        get_page area (a - start + i * frame_size) alloc f =
          (let* (p, t, f) := open_get_page t (a - start + i * frame_size) alloc f in
           Done (p, set_kind area (Guarded pages b t), f)).
Proof.
  intros Hstart Hpages Hsz Hst b0 Hal Hrun.
  assert (sections_ok start pages b0 []) as Hok0.
  { split; simpl; [rewrite wrap_small; [done|unfold is_word, FrameAllocator.frame_size in *; lia]|lia|].
    exists 0. split; [done|]. split; [lia|done]. }
  pose proof (run_sections_ok start pages Hstart Hpages ops b0 [] Hok0 Hal) as Hok. rewrite Hrun in Hok.
  pose proof (sections_nodup start pages Hpages b live Hok) as Hnd.
  apply NoDup_app in Hnd as (_ & _ & Hnd). split; [done|]. intros a Ha.
  destruct (section_bound start pages Hpages b live a Hok) as (k & Hk & -> & Hle); [set_solver|].
  split; [by exists k|]. intros area t alloc f Ekind. unfold get_page, guarded_get_page. rewrite Ekind.
  unfold section_addr, ba_end, FrameAllocator.frame_size in *.
  assert (∀ x, Z.shiftr (x * 4096) 12 = x) as Hsh.
  { intros x. rewrite Z.shiftr_div_pow2 by lia. by apply Z.div_mul. }
  rewrite (proj2 (Z.eqb_neq pages 0)) by lia. split.
  - replace (start + (k * pages + 1) * 4096 - start - 4096) with (k * pages * 4096) by lia.
    rewrite Z.geb_leb, (proj2 (Z.leb_gt _ _)) by nia. rewrite Hsh, Z.mod_mul by lia. done.
  - intros i Hi. replace (start + (k * pages + 1) * 4096 - start + i * 4096)
      with ((1 + i + k * pages) * 4096) by lia.
    rewrite Z.geb_leb, (proj2 (Z.leb_gt _ _)) by nia.
    rewrite Hsh, Z.mod_add, Z.mod_small, (proj2 (Z.eqb_neq _ 0)) by lia. done.
Qed.

(** ** Rings *)

(** the second mapping of a ring starts at offset [m_bufsize], but [get_page] folds back only
    offsets beyond it: the first page of the second copy is a frame of its own, not the first page
    of the buffer, so a read or write that wraps around there does not see the buffer. *)
Theorem ring_wrap_page_not_shared {F} {FS : FrameSource F} {FL : FrameLaws F} a size t f o1 p1 t1 f1 :
  m_kind a = Ring size t → pages_ok t f → is_key size → 0 < size → size mod 4096 = 0 →
  0 ≤ o1 < 4096 → get_page a o1 true f = Done (Some p1, set_kind a (Ring size t1), f1) →
  get_page (set_kind a (Ring size t1)) size true f1 = Panic ∨
  ∃ p2 a2 f2, get_page (set_kind a (Ring size t1)) size true f1 = Done (Some p2, a2, f2) ∧ p2 ≠ p1.
Proof.
  intros Ek Hok Hsk Hs0 Hal Ho1. assert (4096 ≤ size) by (Z.div_mod_to_equations; lia).
  assert (is_key o1) as Hk1 by (unfold is_key in *; lia). unfold get_page, ring_get_page. rewrite Ek. simpl.
  rewrite !Z.gtb_ltb, (proj2 (Z.ltb_ge size o1)), Z.ltb_irrefl by lia. unfold open_get_page.
  destruct (page_tree_spec t f o1 Hok Hk1) as [(-> & _)|(t1' & p1' & f1' & -> & Hok1 & Hp1 & _)]; [done|].
  rewrite !bind_Done. intros E. injection E as -> -> ->.
  destruct (page_tree_spec t1 f1 size Hok1 Hsk) as [(-> & _)|(t2 & p2 & f2 & -> & Hok2 & Hp2 & _ & Hoth & _)]; [by left|].
  right. rewrite !bind_Done. eexists _, _, _. split; [done|]. intros ->.
  assert (o1 / 4096 ≠ size / 4096) as Hne by (Z.div_mod_to_equations; lia).
  rewrite <- (Hoth o1 Hk1 Hne) in Hp1. apply Hne. by eapply (po_inj _ _ Hok2).
Qed.

(** [vm_area_open::get_page] without [alloc] passes on the tree's word as it is, so for a page
    that [alloc] had given at [p] it reports [p] with the tree's own mark in bit 0. *)
Theorem open_get_page_unmasked {F} {FS : FrameSource F} {FL : FrameLaws F} a t f o p a1 f1 :
  m_kind a = Open t → pages_ok t f → is_key o → get_page a o true f = Done (Some p, a1, f1) →
  ∃ w, get_page a1 o false f1 = Done (Some w, a1, f1) ∧ Z.testbit w 0 = true ∧
    Z.land w page_mask = p.
Proof.
  intros Ek Hok Ho. unfold get_page at 1. rewrite Ek. unfold open_get_page.
  destruct (page_tree_spec t f o Hok Ho) as [(-> & _)|(t1 & p1 & f1' & -> & Hok1 & Hp1 & _)]; [done|].
  rewrite !bind_Done. intros E. injection E as -> <- ->. unfold get_page. simpl.
  destruct (find_value walk_fuel t1 o) as (r & Hf & Hv); [apply Hok1|done|by apply height_small, Hok1|].
  unfold find. rewrite Hf, !bind_Done. unfold page_of in Hp1.
  destruct (Z.testbit (value t1 o) 0) eqn:Eb; [|done]. injection Hp1 as <-.
  destruct r as [w|]; simpl in Hv; [|by rewrite Hv in Eb].
  rewrite Hv in Eb |- *. by exists w.
Qed.

(** ** Frames and areas *)

(** The pages of an area with a tree are its own, none of them available. *)
Definition area_ok {F} {FS : FrameSource F} {FL : FrameLaws F} (a : vm_area) (f : F) : Prop :=
  fa_ok f ∧
  match m_kind a with
  | Open t => pages_ok t f
  | Guarded pages _ t => pages ≠ 0 ∧ pages_ok t f
  | Ring size t => 0 ≤ size ∧ pages_ok t f
  | Fixed _ | Untracked => True
  end.

(** [get_page] with [alloc] takes frames only from the allocator and keeps the area's books. *)
Lemma get_page_ok {F} {FS : FrameSource F} {FL : FrameLaws F} a offset (f : F) :
  area_ok a f → is_key offset →
  get_page a offset true f = Panic ∨
  ∃ p a' f', get_page a offset true f = Done (p, a', f') ∧ area_ok a' f' ∧
    m_size a' = m_size a ∧ m_flags a' = m_flags a ∧ ∀ x, fa_avail f' x → fa_avail f x.
Proof.
  intros [Hfa Hk] Ho. assert (∀ t o, pages_ok t f → is_key o → open_get_page t o true f = Panic ∨
    ∃ p t' f', open_get_page t o true f = Done (p, t', f') ∧ pages_ok t' f' ∧ ∀ x, fa_avail f' x → fa_avail f x) as Hopen.
  { intros t o Hok Hko. unfold open_get_page.
    destruct (page_tree_spec t f o Hok Hko) as [(-> & _)|(t' & p & f' & -> & Hok' & _ & _ & _ & Hav)]; [by left|].
    right. rewrite bind_Done. by exists (Some p), t', f'. }
  unfold get_page. destruct (m_kind a) as [s| |t|pages stacks t|size t] eqn:Ek.
  - right. eexists _, a, f. split; [done|]. unfold area_ok. by rewrite Ek.
  - unfold untracked_get_page. cbn [negb]. destruct (offset >? m_size a).
    { right. eexists _, a, f. split; [done|]. unfold area_ok. by rewrite Ek. }
    destruct (fa_allocate_law f 1 Hfa) as [[-> _]|(n & x & f' & -> & Hfa' & _ & _ & Hx)]; [lia|by left|right].
    rewrite !bind_Done. eexists _, a, f'. split; [done|]. unfold area_ok. rewrite Ek.
    split; [done|]. split; [done|]. split; [done|]. intros y Hy. by apply Hx.
  - destruct (Hopen t offset Hk Ho) as [->|(p & t' & f' & -> & Hok' & Hav)]; [by left|right].
    rewrite bind_Done. eexists _, _, f'. split; [done|]. split; [split; [apply Hok'|done]|done].
  - destruct Hk as [Hp Hok]. unfold guarded_get_page. rewrite (proj2 (Z.eqb_neq pages 0)) by done.
    destruct (_ >=? _); [right; rewrite bind_Done; by eexists _, _, f|].
    destruct (_ =? 0); [right; rewrite bind_Done; by eexists _, _, f|].
    destruct (Hopen t offset Hok Ho) as [->|(p & t' & f' & -> & Hok' & Hav)]; [by left|right].
    rewrite bind_Done. eexists _, _, f'. split; [done|]. split; [split; [apply Hok'|done]|done].
  - destruct Hk as [Hs Hok]. unfold ring_get_page. rewrite Z.gtb_ltb.
    destruct (Hopen t (if size <? offset then offset - size else offset) Hok)
      as [->|(p & t' & f' & -> & Hok' & Hav)]; [unfold is_key in *; zcases; lia|by left|right].
    rewrite bind_Done. eexists _, _, f'. split; [done|]. split; [split; [apply Hok'|done]|done].
Qed.

Definition witness_area (k : kind) : vm_area := VmArea 0x20000 1 [] 1 k.

Lemma guarded_sections_witness :
  NoDup [0xffff800000005000; 0xffff800000001000].
Proof.
  apply (guarded_sections (F:=list FrameAllocator.frame_block) 0xffff800000000000 4
    [GetSection; GetSection; GetSection; ReturnSection 0xffff800000009000]
    (BlockAllocator 0xffff80000000c000 0x4000 [0xffff800000008000])
    [0xffff800000005000; 0xffff800000001000]); unfold FrameAllocator.frame_size;
    first [lia | vm_compute; reflexivity].
Defined.

Lemma ring_wrap_page_not_shared_witness :
  ∃ p1 p2 a1 f1 a2 f2,
    get_page (witness_area (Ring 0x4000 None)) 0 true [FrameAllocator.block_66] = Done (Some p1, a1, f1) ∧
    get_page a1 0x4000 true f1 = Done (Some p2, a2, f2) ∧ p2 ≠ p1.
Proof.
  assert (∃ p1 t1 f1, get_page (witness_area (Ring 0x4000 None)) 0 true [FrameAllocator.block_66] =
    Done (Some p1, set_kind (witness_area (Ring 0x4000 None)) (Ring 0x4000 t1), f1)) as (p1 & t1 & f1 & E).
  { eexists _, _, _. vm_compute. reflexivity. }
  destruct (ring_wrap_page_not_shared (witness_area (Ring 0x4000 None)) 0x4000 None
    [FrameAllocator.block_66] 0 p1 t1 f1 eq_refl empty_pages_ok) as [H|(p2 & a2 & f2 & E2 & Hne)];
    [unfold is_key; lia|lia|reflexivity|lia|exact E| |].
  - exfalso. vm_compute in E. injection E as <- <- <-. vm_compute in H. discriminate H.
  - eexists p1, p2, _, f1, a2, f2. split; [exact E|]. split; [exact E2|exact Hne].
Defined.

Lemma open_get_page_unmasked_witness :
  ∃ a1 f1 w,
    get_page a1 0x5000 false f1 = Done (Some w, a1, f1) ∧ Z.testbit w 0 = true.
Proof.
  assert (∃ p a1 f1, get_page (witness_area (Open None)) 0x5000 true [FrameAllocator.block_66] =
    Done (Some p, a1, f1)) as (p & a1 & f1 & E).
  { eexists _, _, _. vm_compute. reflexivity. }
  destruct (open_get_page_unmasked (witness_area (Open None)) None [FrameAllocator.block_66] 0x5000 p a1 f1
    eq_refl empty_pages_ok) as (w & Hw & Hb & _); [unfold is_key; lia|exact E|].
  exists a1, f1, w. split; [exact Hw|exact Hb].
Defined.
