(* ===== verification/VmSpace.v ===== *)
(** * Address spaces

    Models src/kernel/vm_space.cpp: the areas mapped into an address space, kept in a vector
    sorted by base address, and the operations that change its page tables (PageTable.v) on
    behalf of areas (VmArea.v).  The areas of all spaces live in one map by their addresses;
    the frame allocator is the one in the page tables' state.  The vector of areas is the list of
    its items; [sorted_insert] puts an item behind all that do not exceed it, which Vector.v shows.

    The theorems show that [add] keeps the areas of a space apart, that [page_in] and [clear]
    change exactly the translations asked for, and that a handled page fault maps the page the
    area gives for the faulting address. *)
From Stdlib Require Import Sorted.
From S2P Require Import Prelude Frames RadixTree VmArea PageTable.

Abbreviation frame_size := FrameAllocator.frame_size.

Record vm_space := VmSpace {
  m_kernel : bool;
  m_pml4 : Z;
  m_areas : list (Z * Z);
}.

Definition min_auto_address : Z := 16 * 1024 * 1024.
Definition locked_page_tag : Z := 0xbadfe11a.

(** [vm_space::area::compare], by base. *)
Definition compare (a b : Z * Z) : Z :=
  if a.1 >? b.1 then 1 else if a.1 <? b.1 then -1 else 0.

Fixpoint sorted_insert (x : Z * Z) (xs : list (Z * Z)) : list (Z * Z) :=
  match xs with
  | [] => [x]
  | y :: ys => if compare x y <? 0 then x :: xs else y :: sorted_insert x ys
  end.

Abbreviation areas := (gmap Z vm_area).

Definition area_size (ar : areas) (p : Z) : outcome Z := let* a := deref (ar !! p) in Done (m_size a).

(** The loop of [add]: the base the area gets, [None] for the early [return 0]. *)
Fixpoint place (ar : areas) (xs : list (Z * Z)) (base size : Z) (exact : bool) : outcome (option Z) :=
  match xs with
  | [] => Done (Some base)
  | (cur_base, cur_area) :: xs =>
      let* cur_size := area_size ar cur_area in
      let cur_end := u64 (cur_base + cur_size) in
      if base >=? cur_end then place ar xs base size exact
      else if u64 (base + size) <=? cur_base then Done (Some base)
      else if exact then Done None
      else place ar xs cur_end size exact
  end.

(** [add]; [self] is the space's address.  What [add_to] returns is not looked at. *)
Definition add (sp : vm_space) (self base new_area flags : Z) (ar : areas)
    : outcome (Z * vm_space * areas) :=
  let base := if base =? 0 then min_auto_address else base in
  let* size := area_size ar new_area in
  let* r := place ar (m_areas sp) base size (Z.testbit flags flag_exact) in
  match r with
  | None => Done (0, sp, ar)
  | Some base =>
      let* a := deref (ar !! new_area) in
      let a := handle_retain (snd (add_to a self)) in
      Done (base, VmSpace (m_kernel sp) (m_pml4 sp) (sorted_insert (base, new_area) (m_areas sp)),
            <[new_area := a]> ar)
  end.

(** [get] and [find_vma]: the first area with the address, the first base of the area. *)
Fixpoint get (ar : areas) (xs : list (Z * Z)) (addr : Z) : outcome (option (Z * Z)) :=
  match xs with
  | [] => Done None
  | (b, p) :: xs =>
      let* size := area_size ar p in
      if (addr >=? b) && (addr <? u64 (b + size)) then Done (Some (b, p)) else get ar xs addr
  end.

Fixpoint find_vma (xs : list (Z * Z)) (vma : Z) : option Z :=
  match xs with
  | [] => None
  | (b, p) :: xs => if p =? vma then Some b else find_vma xs vma
  end.

(** [can_resize]: the loop [for (unsigned i = 1; i < n - 1; ++i)], and the last base it saw. *)
Fixpoint can_resize_loop (xs : list (Z * Z)) (vma size : Z) (is_ : list Z) (base : Z)
    : outcome (option Z) :=
  match is_ with
  | [] => Done (Some base)
  | i :: is_ =>
      let* prev := arr_get xs (i - 1) in
      if negb (prev.2 =? vma) then can_resize_loop xs vma size is_ base
      else
        let* next := arr_get xs i in
        if u64 (prev.1 + size) >? next.1 then Done None
        else can_resize_loop xs vma size is_ prev.1
  end.
Definition can_resize (sp : vm_space) (vma size : Z) : outcome bool :=
  let n := Z.of_nat (length (m_areas sp)) in
  let* r := can_resize_loop (m_areas sp) vma size (seqZ 1 (u32 (n - 1) - 1)) 0 in
  match r with
  | None => Done false
  | Some base =>
      let space_end := if m_kernel sp then 2 ^ 64 - 1 else 0x7fffffffffff in
      Done (u64 (base + size) <=? space_end)
  end.

Definition lookup (sp : vm_space) (vma offset : Z) : Z :=
  match find_vma (m_areas sp) vma with
  | None => 0
  | Some base => u64 (base + offset)
  end.

Section Mapping.
  Context {F : Type} {FS : FrameSource F}.
  Implicit Types st : pt_state F.

(** The flags [page_in] gives to the entries of an area. *)
Definition page_in_flags (sp : vm_space) (vma : vm_area) : Z :=
  Z.lor (Z.lor (Z.lor fl_present (if m_kernel sp then fl_none else fl_user))
    (if Z.testbit (m_flags vma) flag_write then fl_write else fl_none))
    (if Z.testbit (m_flags vma) flag_write_combine then fl_wc else fl_none).

Fixpoint page_in_loop (n : nat) (i : Z) (it : iterator) (st : pt_state F) (phys flags : Z)
    : outcome (pt_state F) :=
  match n with
  | O => Done st
  | S n =>
      let* (p, x, it, st) := entry_ref it st pt in
      let* m := wr (mem st) p x (Z.lor (u64 (phys + i * frame_size)) flags) in
      let* it := increment it in
      page_in_loop n (i + 1) it (set_mem st m) phys flags
  end.

Definition page_in (sp : vm_space) (ar : areas) (vma offset phys count : Z) (st : pt_state F)
    : outcome (pt_state F) :=
  match find_vma (m_areas sp) vma with
  | None => Done st
  | Some base =>
      let virt := u64 (base + offset) in
      let* a := deref (ar !! vma) in
      page_in_loop (Z.to_nat count) 0 (new_iterator virt (m_pml4 sp)) st phys (page_in_flags sp a)
  end.

(** The loop of [clear]: runs of contiguous frames are freed together.  The invalidations of the
    TLB are not modelled. *)
Fixpoint clear_loop (n : nat) (it : iterator) (st : pt_state F) (free_start free_count : Z) (free : bool)
    : outcome (pt_state F) :=
  match n with
  | O =>
      if free && negb (free_count =? 0) then
        let* f := fa_free (frames st) free_start free_count in
        Done (PtState (mem st) (s_page_cache st) f)
      else Done st
  | S n =>
      let* (p, x, it, st) := entry_ref it st pt in
      let* e := rd (mem st) p x in
      let phys := Z.land e page_mask in
      if Z.testbit e 0 then
        let* m := wr (mem st) p x 0 in
        let st := set_mem st m in
        if negb (free_count =? 0) && (phys =? u64 (free_start + free_count * frame_size)) then
          let* it := increment it in
          clear_loop n it st free_start (free_count + 1) free
        else
          let* st :=
            if free && negb (free_count =? 0) then
              let* f := fa_free (frames st) free_start free_count in
              Done (PtState (mem st) (s_page_cache st) f)
            else Done st in
          let* it := increment it in
          clear_loop n it st phys 1 free
      else
        let* it := increment it in
        clear_loop n it st free_start free_count free
  end.

Definition clear (sp : vm_space) (vma offset count : Z) (free : bool) (st : pt_state F)
    : outcome (pt_state F) :=
  match find_vma (m_areas sp) vma with
  | None => Done st
  | Some base =>
      clear_loop (Z.to_nat count) (new_iterator (u64 (base + offset)) (m_pml4 sp)) st 0 0 free
  end.

(** [lock]: each present entry becomes the tag, and its frame is freed. *)
Fixpoint lock_loop (n : nat) (it : iterator) (st : pt_state F) : outcome (pt_state F) :=
  match n with
  | O => Done st
  | S n =>
      let* (p, x, it, st) := entry_ref it st pt in
      let* e := rd (mem st) p x in
      let phys := Z.land e page_mask in
      let* st :=
        if Z.testbit e 0 then
          let* m := wr (mem st) p x locked_page_tag in
          let* f := fa_free (frames st) phys 1 in
          Done (PtState m (s_page_cache st) f)
        else Done st in
      let* it := increment it in
      lock_loop n it st
  end.
Definition lock (sp : vm_space) (vma offset count : Z) (st : pt_state F) : outcome (pt_state F) :=
  match find_vma (m_areas sp) vma with
  | None => Done st
  | Some base => lock_loop (Z.to_nat count) (new_iterator (u64 (base + offset)) (m_pml4 sp)) st
  end.

(** [copy_from]: the loop steps neither iterator. *)
Fixpoint copy_loop (n : nat) (dit sit : iterator) (st : pt_state F) : outcome (pt_state F) :=
  match n with
  | O => Done st
  | S n =>
      let* (p, x, dit, st) := entry_ref dit st pt in
      let* (p', x', sit, st) := entry_ref sit st pt in
      let* e := rd (mem st) p' x' in
      let* m := wr (mem st) p x e in
      copy_loop n dit sit (set_mem st m)
  end.
Definition copy_from (sp source : vm_space) (ar : areas) (vma : Z) (st : pt_state F)
    : outcome (pt_state F) :=
  match find_vma (m_areas sp) vma, find_vma (m_areas source) vma with
  | Some _, Some from =>
      let* size := area_size ar vma in
      copy_loop (Z.to_nat (page_count size)) (new_iterator 0 (m_pml4 sp))
        (new_iterator from (m_pml4 source)) st
  | _, _ => Done st
  end.

(** [remove_area] and [remove] *)
Definition remove_area (sp : vm_space) (self area : Z) (ar : areas) (st : pt_state F)
    : outcome (areas * pt_state F) :=
  let* a := deref (ar !! area) in
  let* (r, f) := remove_from a self (frames st) in
  let st := PtState (mem st) (s_page_cache st) f in
  let* a := deref r in
  let* st := clear sp area 0 (page_count (m_size a)) false st in
  let* (r, f) := handle_release a (frames st) in
  let st := PtState (mem st) (s_page_cache st) f in
  Done (match r with Some a => <[area := a]> ar | None => delete area ar end, st).

Fixpoint remove_pair (xs : list (Z * Z)) (x : Z * Z) : list (Z * Z) :=
  match xs with
  | [] => []
  | y :: ys => if bool_decide (x = y) then ys else y :: remove_pair ys x
  end.
Definition remove (sp : vm_space) (self area : Z) (ar : areas) (st : pt_state F)
    : outcome (bool * vm_space * areas * pt_state F) :=
  match find_vma (m_areas sp) area with
  | None => Done (false, sp, ar, st)
  | Some base =>
      let* (ar, st) := remove_area sp self area ar st in
      Done (true, VmSpace (m_kernel sp) (m_pml4 sp) (remove_pair (m_areas sp) (base, area)), ar, st)
  end.

(** [handle_fault]; [fault] bit 0 is [fault_type::present]. *)
Definition handle_fault (sp : vm_space) (addr fault : Z) (ar : areas) (st : pt_state F)
    : outcome (bool * areas * pt_state F) :=
  if Z.testbit fault 0 then Done (false, ar, st)
  else
    let page := Z.land addr page_mask in
    let* r := get ar (m_areas sp) addr in
    match r with
    | None => Done (false, ar, st)
    | Some (base, area) =>
        let offset := u64 (page - base) in
        let* a := deref (ar !! area) in
        let* (p, a, f) := get_page a offset true (frames st) in
        let ar := <[area := a]> ar in
        let st := PtState (mem st) (s_page_cache st) f in
        match p with
        | None => Done (false, ar, st)
        | Some phys =>
            let* st := page_in sp ar area offset phys 1 st in
            Done (true, ar, st)
        end
    end.

(** [find_physical] *)
Definition find_physical (sp : vm_space) (virt : Z) (ar : areas) (f : F) : outcome Z :=
  let* r := get ar (m_areas sp) virt in
  match r with
  | None => Done 0
  | Some (base, area) =>
      let* a := deref (ar !! area) in
      let* (p, _, _) := get_page a (u64 (virt - base)) false f in
      Done (default 0 p)
  end.

(** The constructor of user spaces, without the area for sysconf it then adds: a new root whose
    kernel half is the kernel root's. *)
Fixpoint copy_entries (m : pages) (root kroot : Z) (is_ : list Z) : outcome pages :=
  match is_ with
  | [] => Done m
  | i :: is_ =>
      let* e := rd m kroot i in
      let* m := wr m root i e in
      copy_entries m root kroot is_
  end.
Definition new_root (kroot : Z) (st : pt_state F) : outcome (Z * pt_state F) :=
  let* (root, st) := get_table_page st in
  let* m := copy_entries (mem st) root kroot (seqZ kernel_root_index (table_entries - kernel_root_index)) in
  Done (root, set_mem st m).
End Mapping.

(** ** Adding areas *)

Definition size_of (ar : areas) (p : Z) : Z := match ar !! p with Some a => m_size a | None => 0 end.

(** The end of a mapped area. *)
Definition area_end (ar : areas) (x : Z * Z) : Z := x.1 + size_of ar x.2.

(** The areas of a space exist, are not empty, do not wrap, and lie behind one another. *)
Record areas_ok (ar : areas) (xs : list (Z * Z)) : Prop := {
  ao_each : Forall (λ x, is_Some (ar !! x.2) ∧ 0 ≤ x.1 ∧ 0 < size_of ar x.2 ∧ area_end ar x < 2 ^ 64) xs;
  ao_apart : StronglySorted (λ x y, area_end ar x ≤ y.1) xs;
}.

(** Two ranges of addresses have none in common. *)
Definition apart (b e b' e' : Z) : Prop := e ≤ b' ∨ e' ≤ b.

Lemma area_size_Some ar p : is_Some (ar !! p) → area_size ar p = Done (size_of ar p).
Proof. intros [a Ha]. unfold area_size, size_of. by rewrite Ha. Qed.

Lemma place_spec ar xs base size exact :
  areas_ok ar xs → 0 ≤ base → 0 < size → base + size < 2 ^ 64 →
  Forall (λ x, area_end ar x + size < 2 ^ 64) xs →
  (place ar xs base size exact = Done None ∧ exact = true ∧
    ∃ x, x ∈ xs ∧ ¬ apart base (base + size) x.1 (area_end ar x)) ∨
  (∃ r, place ar xs base size exact = Done (Some r) ∧ base ≤ r ∧ r + size < 2 ^ 64 ∧
    (∀ x, x ∈ xs → apart r (r + size) x.1 (area_end ar x)) ∧
    (r = base ∨ exact = false ∧ ∃ x, x ∈ xs ∧ ¬ apart base (base + size) x.1 (area_end ar x))).
Proof.
  intros [He Ha]. revert base. induction xs as [|[b p] xs IH]; intros base Hb Hs Hw Hend; simpl.
  { right. exists base. split; [done|]. split; [lia|]. split; [done|]. split; [|by left].
    by intros x ?%not_elem_of_nil. }
  apply Forall_cons in He as [(Hp & Hb0 & Hs0 & Hend0) He]. apply Forall_cons in Hend as [Hw0 Hend].
  apply StronglySorted_inv in Ha as [Ha Ha0]. rewrite area_size_Some, bind_Done by done.
  unfold area_end in Hend0, Hw0. simpl in *. rewrite (wrap_small 64 (b + _)) by (unfold is_word; lia).
  rewrite (wrap_small 64 (base + _)) by (unfold is_word; lia). rewrite Z.geb_leb.
  assert (∀ P, (∃ x, x ∈ xs ∧ P x) → ∃ x : Z * Z, x ∈ (b, p) :: xs ∧ P x) as Hmore.
  { intros P (x & Hx & HP). exists x. split; [by right|done]. }
  destruct (Z.leb_spec (b + size_of ar p) base) as [Hge|Hlt].
  - destruct (IH He Ha base) as [(-> & -> & Hx)|(r & -> & Hr & Hrw & Hap & Hwhy)]; [done..| |].
    + left. auto.
    + right. exists r. split; [done|]. split; [done|]. split; [done|]. split.
      * intros x [->|Hx]%elem_of_cons; [|by apply Hap]. right. unfold area_end. simpl. lia.
      * destruct Hwhy as [?|[? ?]]; auto.
  - destruct (Z.leb_spec (base + size) b) as [Hle|Hgt].
    + right. exists base. split; [done|]. split; [lia|]. split; [done|]. split; [|by left].
      intros x [->|Hx]%elem_of_cons; left; [done|]. rewrite Forall_forall in Ha0, He.
      specialize (Ha0 x Hx). unfold area_end in Ha0. simpl in Ha0. lia.
    + assert (¬ apart base (base + size) b (area_end ar (b, p))) as Hno.
      { unfold apart, area_end. simpl. lia. }
      destruct exact.
      * left. split; [done|]. split; [done|]. exists (b, p). split; [left|done].
      * right. destruct (IH He Ha (b + size_of ar p)) as [(_ & [=] & _)|(r & -> & Hr & Hrw & Hap & Hwhy)];
          [lia..|done|]. exists r. split; [done|]. split; [lia|]. split; [done|]. split.
        -- intros x [->|Hx]%elem_of_cons; [|by apply Hap]. right. unfold area_end. simpl. lia.
        -- right. split; [done|]. exists (b, p). split; [left|done].
Qed.

Lemma sorted_insert_elem x y xs : y ∈ sorted_insert x xs ↔ y = x ∨ y ∈ xs.
Proof.
  induction xs as [|z xs IH]; simpl; [set_solver|]. case_match; [set_solver|].
  rewrite !elem_of_cons, IH. naive_solver.
Qed.

Lemma compare_lt x y : compare x y < 0 ↔ x.1 < y.1.
Proof. unfold compare. rewrite Z.gtb_ltb. zcases; lia. Qed.

Lemma sorted_insert_ok ar r p xs :
  areas_ok ar xs → is_Some (ar !! p) → 0 ≤ r → 0 < size_of ar p → r + size_of ar p < 2 ^ 64 →
  (∀ x, x ∈ xs → apart r (r + size_of ar p) x.1 (area_end ar x)) →
  areas_ok ar (sorted_insert (r, p) xs).
Proof.
  intros [He Ha] Hp Hr Hs Hw Hap. split.
  - apply Forall_forall. intros y [->|Hy]%sorted_insert_elem; [done|]. by rewrite Forall_forall in He; apply He.
  - induction Ha as [|y ys Ha IH Hy]; simpl.
    { constructor; constructor. }
    apply Forall_cons in He as [(Hys & Hy0 & Hy1 & Hy2) He].
    assert (apart r (r + size_of ar p) y.1 (area_end ar y)) as Hapy by (apply Hap; left).
    unfold area_end in Hy2, Hapy.
    destruct (Z.ltb_spec (compare (r, p) y) 0) as [Hc|Hc].
    + apply compare_lt in Hc. simpl in Hc. assert (area_end ar (r, p) ≤ y.1).
      { unfold area_end. simpl. destruct Hapy; lia. }
      constructor; [by constructor|]. constructor; [done|]. eapply Forall_impl; [exact Hy|].
      intros z Hz. unfold area_end in Hz at 1. lia.
    + assert (y.1 ≤ r) as Hle. { destruct (Z.lt_ge_cases r y.1); [|done]. exfalso.
        assert (compare (r, p) y < 0) by (by apply compare_lt). lia. }
      constructor; [apply IH; [done|]; intros; apply Hap; by right|].
      apply Forall_forall. intros z [->|Hz]%sorted_insert_elem; simpl; [unfold area_end; destruct Hapy; lia|].
      by rewrite Forall_forall in Hy; apply Hy.
Qed.

(** A change of areas that keeps their sizes. *)
Lemma areas_ok_sizes ar ar' xs :
  (∀ p, is_Some (ar !! p) → is_Some (ar' !! p)) → (∀ p, size_of ar' p = size_of ar p) →
  areas_ok ar xs → areas_ok ar' xs.
Proof.
  intros Hp Hs [He Ha]. assert (∀ x, area_end ar' x = area_end ar x) as Hend.
  { intros x. unfold area_end. by rewrite Hs. }
  split.
  - eapply Forall_impl; [exact He|]. intros x (? & ? & ? & ?). rewrite Hs, Hend. auto.
  - clear He. induction Ha as [|x xs Ha IH Hx]; constructor; [done|].
    eapply Forall_impl; [exact Hx|]. intros y. by rewrite Hend.
Qed.

Lemma add_to_keeps a s : m_size (handle_retain (snd (add_to a s))) = m_size a.
Proof.
  unfold add_to, untracked_add_to, base_add_to. destruct (m_kind a), (m_spaces a); simpl; try done;
    by case_bool_decide.
Qed.

(** [vm_space::add] keeps the areas of a space in order and apart: it maps the area at the base
    asked for when that range is free, otherwise, unless [exact] is set, at a higher base whose
    range is free, and with [exact] it refuses exactly when the range overlaps a mapped area,
    changing nothing. *)
Theorem add_keeps_areas_apart sp self base p flags ar a :
  areas_ok ar (m_areas sp) → ar !! p = Some a → 0 ≤ base → 0 < m_size a →
  (if base =? 0 then min_auto_address else base) + m_size a < 2 ^ 64 →
  Forall (λ x, area_end ar x + m_size a < 2 ^ 64) (m_areas sp) →
  let want := if base =? 0 then min_auto_address else base in
  let free := ∀ x, x ∈ m_areas sp → apart want (want + m_size a) x.1 (area_end ar x) in
  ∃ r sp' ar', add sp self base p flags ar = Done (r, sp', ar') ∧ areas_ok ar' (m_areas sp') ∧
    ((r = 0 ∧ sp' = sp ∧ ar' = ar ∧ Z.testbit flags flag_exact = true ∧ ¬ free) ∨
     (want ≤ r ∧ m_areas sp' = sorted_insert (r, p) (m_areas sp) ∧
      (free → r = want) ∧ (Z.testbit flags flag_exact = true → r = want))).
Proof.
  intros Hok Hp Hb Hs Hw Hend want free. unfold add. fold want.
  assert (size_of ar p = m_size a) as Es by (unfold size_of; by rewrite Hp).
  assert (0 < want) by (unfold want, min_auto_address; zcases; lia).
  rewrite area_size_Some, Es, bind_Done by done.
  destruct (place_spec ar (m_areas sp) want (m_size a) (Z.testbit flags flag_exact) Hok)
    as [(-> & Hex & (x & Hx & Hno))|(r & -> & Hr & Hrw & Hap & Hwhy)]; [lia|done..| |].
  - rewrite bind_Done. exists 0, sp, ar. split; [done|]. split; [done|]. left.
    repeat (split; [done|]). intros Hfree. by apply Hno, Hfree.
  - rewrite bind_Done, Hp. cbn [deref]. rewrite bind_Done. set (a' := handle_retain _). eexists r, _, _. split; [done|].
    assert (∀ q, size_of (<[p := a']> ar) q = size_of ar q) as Hsz.
    { intros q. unfold size_of. destruct (decide (q = p)) as [->|].
      - rewrite lookup_insert_eq, Hp. apply add_to_keeps.
      - by rewrite lookup_insert_ne. }
    split; cbn [m_areas].
    + apply (areas_ok_sizes ar); [|done|].
      { intros q Hq. destruct (decide (q = p)) as [->|]; [by rewrite lookup_insert_eq|by rewrite lookup_insert_ne]. }
      apply sorted_insert_ok; rewrite ?Es; try done. lia.
    + right. split; [done|]. split; [done|]. split.
      * intros Hfree. destruct Hwhy as [?|(_ & x & Hx & Hno)]; [done|]. by destruct Hno; apply Hfree.
      * intros Hex. destruct Hwhy as [?|[Hf _]]; [done|by rewrite Hex in Hf].
Qed.

(** ** Changing a range of pages *)

(** The number of the page with the given indices, and of the page of an address. *)
Definition num (ix : list Z) : Z := foldl (λ a i, 512 * a + i) 0 ix.
Definition page_no (va : Z) : Z := (va / frame_size) mod 512 ^ 4.

(** The entry an address translates by. *)
Definition translate (m : pages) (root va : Z) : Z := pte m 0 root (m_index (new_iterator va root)).

Record indices (ix : list Z) : Prop := { ix_len : length ix = 4%nat; ix_range : Forall (λ i, 0 ≤ i < 512) ix }.

Lemma num_inj ix ix' : indices ix → indices ix' → num ix = num ix' → ix = ix'.
Proof.
  intros [Hl Hr] [Hl' Hr']. destruct ix as [|a [|b [|c [|d [|? ?]]]]]; try done.
  destruct ix' as [|a' [|b' [|c' [|d' [|? ?]]]]]; try done.
  repeat (apply Forall_cons in Hr as [? Hr]). repeat (apply Forall_cons in Hr' as [? Hr']).
  unfold num. cbn [foldl]. intros E. assert (a = a' ∧ b = b' ∧ c = c' ∧ d = d') as (-> & -> & -> & ->) by lia.
  done.
Qed.

Lemma it_indices it : it_wf it → indices (m_index it).
Proof. by intros [_ Hl Hr]. Qed.

Lemma new_indices va root : indices (m_index (new_iterator va root)) ∧ num (m_index (new_iterator va root)) = page_no va.
Proof. destruct (new_iterator_spec va root) as (Hwf & _ & Hn). split; [by apply it_indices|exact Hn]. Qed.

Section Changes.
  Context {F : Type} {FS : FrameSource F} {FL : FrameLaws F}.
  Implicit Types (st : pt_state F) (own : gmap Z (list Z)) (g : Z → Z → Z).

(** From [m] to [m'] the entries of the [n] pages from [N] in the space of root [r] change as [g]
    says, and no other translation changes in any space. *)
Record changed own (m m' : pages) (r N n : Z) g : Prop := {
  ch_in : ∀ ix, indices ix → N ≤ num ix < N + n → pte m' 0 r ix = g (num ix) (pte m 0 r ix);
  ch_out : ∀ q ix, own !! q = Some [] → indices ix → ¬ (N ≤ num ix < N + n) →
    pte m' 0 q ix = pte m 0 q ix;
  ch_large : ∀ q ix, own !! q = Some [] → indices ix → no_large m' 0 q ix = no_large m 0 q ix;
}.

Lemma changed_none own m r N g : changed own m m r N 0 g.
Proof. split; try done. intros; lia. Qed.

Lemma changed_cons own own1 m m1 m2 r N n g :
  0 ≤ n → own !! r = Some [] → own ⊆ own1 → changed own m m1 r N 1 g →
  changed own1 m1 m2 r (N + 1) n g → changed own m m2 r N (n + 1) g.
Proof.
  intros Hn Hr Hsub [I1 O1 L1] [I2 O2 L2].
  assert (∀ q, own !! q = Some [] → own1 !! q = Some []) as Hq by (intros; by eapply lookup_weaken).
  split.
  - intros ix Hix Hrg. destruct (decide (num ix = N)) as [E|Hne].
    + rewrite O2, I1 by (auto || lia). done.
    + rewrite I2, O1 by (auto || lia). done.
  - intros q ix Hqo Hix Hrg. rewrite O2, O1 by (auto || lia). done.
  - intros q ix Hqo Hix. rewrite L2, L1 by auto. done.
Qed.

(** One step of the loops over pages: the reference to the entry, what it reads, either
    continuation, and the next page. *)
Lemma touch_spec own L st it r :
  pt_inv own L st → own !! r = Some [] → it_wf it → m_table it !! 0%nat = Some r →
  no_large (mem st) 0 r (m_index it) = true → page_number it + 1 < 512 ^ 4 →
  (entry_ref it st pt = Panic ∧ (length L < 3)%nat ∧ pte (mem st) 0 r (m_index it) = 0) ∨
  ∃ p x it1 st1 own1 L1 it2,
    entry_ref it st pt = Done (p, x, it1, st1) ∧
    increment it1 = Done it2 ∧ it_wf it2 ∧ m_table it2 !! 0%nat = Some r ∧
    page_number it2 = page_number it + 1 ∧
    rd (mem st1) p x = Done (pte (mem st) 0 r (m_index it)) ∧
    own ⊆ own1 ∧ (length L <= 3 + length L1)%nat ∧
    (pt_inv own1 L1 st1 ∧ changed own (mem st) (mem st1) r (page_number it) 1 (λ _ e, e)) ∧
    ∀ v, ∃ m', wr (mem st1) p x v = Done m' ∧ pt_inv own1 L1 (set_mem st1 m') ∧
      changed own (mem st) m' r (page_number it) 1 (λ _ _, v).
Proof.
  intros Hinv Hroot Hwf Hr Hn Hend. pose proof Hwf as [Hit Hil Hir].
  assert (ready r (m_index it) own L st it) as Hrd by (by split; [..|repeat split]).
  destruct (entry_ref_spec r _ Hil Hir own L st it Hrd)
    as [?|(p & it1 & st1 & own1 & L1 & E & Hrd1 & Hsub & Hv & Hp & HL)]; [by left|right].
  pose proof Hrd1 as [Hinv1 Hroot1 Hn1 (Ei & Hl1 & Ht1)].
  assert (it_wf it1) as Hwf1 by (split; rewrite ?Ei; done).
  assert (page_number it1 = page_number it) as En by (unfold page_number; by rewrite Ei).
  pose proof (next_spec it1 page Hwf1 ltac:(done)) as Hnx. cbv zeta in Hnx.
  change (step_pages page) with 1 in Hnx. rewrite Z.div_1_r, Z.mul_1_r, En in Hnx.
  rewrite bool_decide_eq_true_2 in Hnx by done. destruct Hnx as (it2 & E2 & Hwf2 & Et2 & Ep2).
  exists p, (nth 3 (m_index it) 0), it1, st1, own1, L1, it2. split; [done|]. split; [done|].
  split; [done|]. split; [by rewrite Et2|]. split; [done|].
  assert (∀ q ix, own !! q = Some [] → indices ix → pte (mem st1) 0 q ix = pte (mem st) 0 q ix ∧
    no_large (mem st1) 0 q ix = no_large (mem st) 0 q ix) as Hsame.
  { intros q ix Hq [Hix1 Hix2]. by apply Hv. }
  assert (∀ ix, indices ix → page_number it ≤ num ix < page_number it + 1 → ix = m_index it) as Hone.
  { intros ix Hix Hrg. apply num_inj; [done|by apply it_indices|]. change (num (m_index it)) with (page_number it). lia. }
  split; [|split; [done|split; [done|split; [split; [done|]|]]]].
  - destruct (ready_table r _ Hil Hir own1 L1 st1 it1 3 p Hrd1) as [_ Htab]; [lia|done|].
    destruct (index_at _ Hil Hir 3) as [_ Hi]; [lia|]. rewrite rd_ent by done.
    destruct (Hsame r (m_index it)) as [<- _]; [done|by apply it_indices|].
    rewrite pte_entry_at by done. unfold entry_at. by rewrite Hp.
  - split; [|intros; by apply Hsame..]. intros ix Hix _. by apply Hsame.
  - intros v. destruct (entry_write_spec r _ own1 L1 st1 it1 p v Hil Hir Hrd1 Hp) as (m' & Hw & Hrw & Hpte & Ho & Hlg).
    exists m'. split; [done|]. split; [apply Hrw|].
    assert (∀ q, own !! q = Some [] → own1 !! q = Some []) as Hq by (intros; by eapply lookup_weaken).
    split.
    + intros ix Hix Hrg. by rewrite (Hone ix Hix Hrg).
    + intros q ix Hqo Hix Hrg. destruct Hix as [Hix1 Hix2]. rewrite Ho; [|auto..|].
      * by apply Hv.
      * intros ->. apply Hrg. change (num (m_index it)) with (page_number it). lia.
    + intros q ix Hqo [Hix1 Hix2]. rewrite Hlg by auto. by apply Hv.
Qed.

(** What the loops over [n] pages from the iterator's on need. *)
Record range_ok own L st it (r : Z) (n : nat) : Prop := {
  ra_inv : pt_inv own L st;
  ra_root : own !! r = Some [];
  ra_wf : it_wf it;
  ra_it : m_table it !! 0%nat = Some r;
  ra_small : ∀ ix, indices ix → page_number it ≤ num ix < page_number it + Z.of_nat n →
    no_large (mem st) 0 r ix = true;
  ra_end : page_number it + Z.of_nat n < 512 ^ 4;
}.

(** The range the next round of a loop works on. *)
Lemma range_step own L st it r n g own1 L1 st1 it2 :
  range_ok own L st it r (S n) → own ⊆ own1 → pt_inv own1 L1 st1 → it_wf it2 →
  m_table it2 !! 0%nat = Some r → page_number it2 = page_number it + 1 →
  changed own (mem st) (mem st1) r (page_number it) 1 g → range_ok own1 L1 st1 it2 r n.
Proof.
  intros [Hinv Hroot Hwf Hr Hs He] Hsub Hinv1 Hwf2 Ht2 Ep Hch.
  split; try done; [by eapply lookup_weaken| |lia].
  intros ix Hix Hrg. rewrite (ch_large _ _ _ _ _ _ _ Hch) by done. apply Hs; [done|lia].
Qed.

Lemma range_touch own L st it r n :
  range_ok own L st it r (S n) → no_large (mem st) 0 r (m_index it) = true ∧ page_number it + 1 < 512 ^ 4.
Proof.
  intros [Hinv Hroot Hwf Hr Hs He]. split; [|lia]. apply Hs; [by apply it_indices|].
  change (num (m_index it)) with (page_number it). lia.
Qed.

(** What the loops over pages do: all [n] entries change as [g] says, unless pages to build tables
    from run out. *)
Definition range_done own (L : list Z) st it (r : Z) (n : nat) g (res : outcome (pt_state F)) : Prop :=
  (res = Panic ∧ (length L < 3 * n)%nat ∧
    ∃ ix, indices ix ∧ page_number it ≤ num ix < page_number it + Z.of_nat n ∧ pte (mem st) 0 r ix = 0) ∨
  ∃ st' own' L', res = Done st' ∧ pt_inv own' L' st' ∧ own ⊆ own' ∧
    changed own (mem st) (mem st') r (page_number it) (Z.of_nat n) g.

Lemma range_done_cons own L st it r n g own1 L1 st1 it2 res :
  own !! r = Some [] → own ⊆ own1 → (length L <= 3 + length L1)%nat →
  page_number it2 = page_number it + 1 →
  changed own (mem st) (mem st1) r (page_number it) 1 g →
  range_done own1 L1 st1 it2 r n g res → range_done own L st it r (S n) g res.
Proof.
  intros Hroot Hsub HL Ep Hch
    [(-> & Hlt & ix & Hix & Hrg & H0)|(st' & own' & L' & -> & Hinv & Hsub' & Hch')].
  { left. split; [done|]. split; [lia|]. exists ix. split; [done|]. split; [lia|].
    rewrite (ch_out _ _ _ _ _ _ _ Hch) in H0; [done..|lia]. }
  right. exists st', own', L'. split; [done|]. split; [done|]. split; [by etrans|].
  replace (Z.of_nat (S n)) with (Z.of_nat n + 1) by lia. rewrite Ep in Hch'.
  eapply changed_cons; [lia|done..].
Qed.

Lemma range_stuck own L st it r n g :
  range_ok own L st it r (S n) → (length L < 3)%nat → pte (mem st) 0 r (m_index it) = 0 →
  range_done own L st it r (S n) g Panic.
Proof.
  intros Hra HL H0. left. split; [done|]. split; [lia|]. exists (m_index it).
  split; [by apply it_indices, Hra|]. split; [|done].
  change (num (m_index it)) with (page_number it). lia.
Qed.

Lemma changed_ext own m m' r N n g g' :
  (∀ k e, N ≤ k < N + n → g k e = g' k e) → changed own m m' r N n g → changed own m m' r N n g'.
Proof. intros Hg [I O Lg]. split; [|done..]. intros ix Hix Hrg. rewrite <- Hg by done. by apply I. Qed.

Lemma page_in_loop_spec n i it st phys flags own L r :
  range_ok own L st it r n →
  range_done own L st it r n
    (λ k _, Z.lor (u64 (phys + (i + (k - page_number it)) * frame_size)) flags)
    (page_in_loop n i it st phys flags).
Proof.
  revert i it st own L. induction n as [|n IH]; intros i it st own L Hra.
  { right. exists st, own, L. split; [done|]. split; [apply Hra|]. split; [done|]. apply changed_none. }
  destruct (range_touch _ _ _ _ _ _ Hra) as [Hlg He]. cbn [page_in_loop].
  destruct (touch_spec own L st it r) as [(-> & Hlt & H0)|(p & x & it1 & st1 & own1 & L1 & it2 & -> & Hinc &
    Hwf2 & Ht2 & Ep & _ & Hsub & HL & _ & Hw)]; [apply Hra..|done|done|by eapply range_stuck|].
  rewrite bind_Done. destruct (Hw (Z.lor (u64 (phys + i * frame_size)) flags)) as (m' & -> & Hinv' & Hch).
  rewrite bind_Done, Hinc, bind_Done.
  eapply (range_done_cons _ _ _ _ _ _ _ own1 L1 (set_mem st1 m') it2); [apply Hra|done..| |].
  - eapply changed_ext; [|exact Hch]. intros k e Hk. by replace (i + (k - page_number it)) with i by lia.
  - assert (range_ok own1 L1 (set_mem st1 m') it2 r n) as Hra2 by (by eapply range_step).
    destruct (IH (i + 1) it2 (set_mem st1 m') own1 L1 Hra2) as [?|(st' & own' & L' & E & Hi & Hs & Hc)];
      [by left|]. right. exists st', own', L'. split; [done|]. split; [done|]. split; [done|].
    eapply changed_ext; [|exact Hc]. intros k e Hk. cbv beta.
    by replace (i + 1 + (k - page_number it2)) with (i + (k - page_number it)) by lia.
Qed.

(** What [clear] leaves of an entry. *)
Definition cleared (e : Z) : Z := if present e then 0 else e.

Lemma clear_loop_spec n it st fs fc own L r :
  range_ok own L st it r n →
  range_done own L st it r n (λ _ e, cleared e) (clear_loop n it st fs fc false).
Proof.
  revert it st fs fc own L. induction n as [|n IH]; intros it st fs fc own L Hra.
  { right. exists st, own, L. split; [done|]. split; [apply Hra|]. split; [done|]. apply changed_none. }
  destruct (range_touch _ _ _ _ _ _ Hra) as [Hlg He]. cbn [clear_loop].
  destruct (touch_spec own L st it r) as [(-> & Hlt & H0)|(p & x & it1 & st1 & own1 & L1 & it2 & -> & Hinc &
    Hwf2 & Ht2 & Ep & Hrd & Hsub & HL & [Hinv1 Hsame] & Hw)]; [apply Hra..|done|done|by eapply range_stuck|].
  rewrite bind_Done, Hrd, bind_Done. set (e := pte (mem st) 0 r (m_index it)) in *.
  assert (∀ ix, indices ix → page_number it ≤ num ix < page_number it + 1 → pte (mem st) 0 r ix = e) as Hone.
  { intros ix Hix Hrg. unfold e. f_equal. apply num_inj; [done|by apply it_indices, Hra|].
    change (num (m_index it)) with (page_number it). lia. }
  destruct (Z.testbit e 0) eqn:Eb.
  - destruct (Hw 0) as (m' & -> & Hinv' & Hch). rewrite bind_Done. cbn [andb].
    assert (changed own (mem st) m' r (page_number it) 1 (λ _ e, cleared e)) as Hch'.
    { destruct Hch as [I O Lg]. split; [|done..]. intros ix Hix Hrg. rewrite I, Hone by done.
      unfold cleared, present. by rewrite Eb. }
    assert (range_ok own1 L1 (set_mem st1 m') it2 r n) as Hra2 by (by eapply range_step).
    destruct (negb (fc =? 0) && _); rewrite ?bind_Done, Hinc, bind_Done;
      (eapply (range_done_cons _ _ _ _ _ _ _ own1 L1 (set_mem st1 m') it2);
        [apply Hra|done..|exact Hch'|by apply IH]).
  - assert (changed own (mem st) (mem st1) r (page_number it) 1 (λ _ e, cleared e)) as Hch'.
    { destruct Hsame as [I O Lg]. split; [|done..]. intros ix Hix Hrg. rewrite I, Hone by done.
      unfold cleared, present. by rewrite Eb. }
    rewrite Hinc, bind_Done. eapply range_done_cons; [apply Hra|done..|exact Hch'|].
    apply IH. by eapply range_step.
Qed.

(** ** Mapping and unmapping *)

Lemma page_in_flags_present sp a : present (page_in_flags sp a) = true.
Proof. unfold page_in_flags. by destruct (m_kernel sp), (Z.testbit _ flag_write), (Z.testbit _ flag_write_combine). Qed.

(** The [count] pages from [virt] on can be worked on in the space of root [r]. *)
Record space_range own L st (r virt count : Z) : Prop := {
  sr_inv : pt_inv own L st;
  sr_root : own !! r = Some [];
  sr_count : 0 ≤ count;
  sr_end : page_no virt + count < 512 ^ 4;
  sr_small : ∀ ix, indices ix → page_no virt ≤ num ix < page_no virt + count →
    no_large (mem st) 0 r ix = true;
}.

Lemma space_range_ok own L st r virt count :
  space_range own L st r virt count →
  range_ok own L st (new_iterator virt r) r (Z.to_nat count) ∧ page_number (new_iterator virt r) = page_no virt.
Proof.
  intros [Hinv Hroot Hc He Hs]. destruct (new_iterator_spec virt r) as (Hwf & Hr & Hn).
  assert (page_number (new_iterator virt r) = page_no virt) as En by exact Hn.
  split; [|done]. split; rewrite ?En, ?Z2Nat.id by done; done.
Qed.

(** A finished loop, in terms of addresses. *)
Definition translated own m m' (r virt count : Z) g : Prop :=
  (∀ va, page_no virt ≤ page_no va < page_no virt + count →
     translate m' r va = g (page_no va) (translate m r va)) ∧
  (∀ q va, own !! q = Some [] → ¬ (page_no virt ≤ page_no va < page_no virt + count) →
     translate m' q va = translate m q va).

Lemma changed_translated own m m' r virt count g :
  changed own m m' r (page_no virt) count g → translated own m m' r virt count g.
Proof.
  intros [I O _]. split.
  - intros va Hrg. destruct (new_indices va r) as [Hix Hn]. unfold translate. rewrite <- Hn in Hrg |- *.
    by apply I.
  - intros q va Hq Hrg. destruct (new_indices va q) as [Hix Hn]. unfold translate.
    rewrite <- Hn in Hrg. by apply O.
Qed.

(** What [page_in] puts into the entries, by page number. *)
Definition paged (virt phys flags : Z) (k _ : Z) : Z :=
  Z.lor (u64 (phys + (k - page_no virt) * frame_size)) flags.

Lemma paged_present sp a virt phys k e : present (paged virt phys (page_in_flags sp a) k e) = true.
Proof.
  unfold paged, present. rewrite Z.lor_spec.
  change (Z.testbit (page_in_flags sp a) 0) with (present (page_in_flags sp a)).
  by rewrite page_in_flags_present, orb_true_r.
Qed.

Lemma page_in_spec sp ar vma a base offset phys count st own L :
  find_vma (m_areas sp) vma = Some base → ar !! vma = Some a →
  let virt := u64 (base + offset) in
  space_range own L st (m_pml4 sp) virt count →
  (page_in sp ar vma offset phys count st = Panic ∧ Z.of_nat (length L) < 3 * count) ∨
  ∃ st' own' L', page_in sp ar vma offset phys count st = Done st' ∧ pt_inv own' L' st' ∧ own ⊆ own' ∧
    changed own (mem st) (mem st') (m_pml4 sp) (page_no virt) count
      (paged virt phys (page_in_flags sp a)).
Proof.
  intros Hb Ha virt Hsr. destruct (space_range_ok _ _ _ _ _ _ Hsr) as [Hra En]. pose proof (sr_count _ _ _ _ _ _ Hsr).
  unfold page_in. rewrite Hb, Ha. cbn [deref]. rewrite bind_Done. fold virt.
  destruct (page_in_loop_spec (Z.to_nat count) 0 _ st phys (page_in_flags sp a) own L _ Hra)
    as [(-> & ? & _)|(st' & own' & L' & -> & Hinv & Hsub & Hch)]; [left; split; [done|lia]|right].
  exists st', own', L'. split; [done|]. split; [done|]. split; [done|].
  rewrite En, Z2Nat.id in Hch by done. eapply changed_ext; [|exact Hch]. intros k e Hk. unfold paged. cbv beta.
  by rewrite Z.add_0_l.
Qed.

(** [page_in] maps exactly the pages asked for: the [count] pages from the area's base plus
    [offset] on translate to consecutive frames from [phys] on, present, with the rights the area
    and the space call for, and no other page of this or any other address space changes.  It can
    only panic for want of pages to build tables from. *)
Theorem page_in_maps sp ar vma a base offset phys count st own L :
  find_vma (m_areas sp) vma = Some base → ar !! vma = Some a →
  let virt := u64 (base + offset) in
  space_range own L st (m_pml4 sp) virt count →
  (page_in sp ar vma offset phys count st = Panic ∧ Z.of_nat (length L) < 3 * count) ∨
  ∃ st' own' L', page_in sp ar vma offset phys count st = Done st' ∧ pt_inv own' L' st' ∧ own ⊆ own' ∧
    translated own (mem st) (mem st') (m_pml4 sp) virt count (λ k _,
      Z.lor (u64 (phys + (k - page_no virt) * frame_size)) (page_in_flags sp a)) ∧
    present (page_in_flags sp a) = true.
Proof.
  intros Hb Ha virt Hsr. destruct (page_in_spec sp ar vma a base offset phys count st own L Hb Ha Hsr)
    as [?|(st' & own' & L' & E & Hinv & Hsub & Hch)]; [by left|right].
  exists st', own', L'. split; [done|]. split; [done|]. split; [done|].
  split; [by apply changed_translated in Hch|]. apply page_in_flags_present.
Qed.

End Changes.

(** ** Page faults *)

Section Faults.
  Context {F : Type} {FS : FrameSource F} {FL : FrameLaws F}.
  Implicit Types (st : pt_state F) (own : gmap Z (list Z)).

Lemma pt_inv_frames own L st f :
  pt_inv own L st → fa_ok f → (∀ x, fa_avail f x → fa_avail (frames st) x) →
  pt_inv own L (PtState (mem st) (s_page_cache st) f).
Proof. intros [? ? ? ? ? Hav] Hok Hsub. split; simpl; try done. intros a Ha. by apply Hav, Hsub. Qed.

(** [get] finds the area whose range has the address. *)
Lemma get_spec ar xs addr :
  areas_ok ar xs → 0 ≤ addr →
  ∃ r, get ar xs addr = Done r ∧
    match r with
    | None => ∀ x, x ∈ xs → ¬ (x.1 ≤ addr < area_end ar x)
    | Some x => x ∈ xs ∧ x.1 ≤ addr < area_end ar x
    end.
Proof.
  intros [He _] Ha. induction He as [|[b p] xs (Hp & Hb & Hs & Hw) He IH]; simpl.
  { exists None. split; [done|]. by intros x ?%not_elem_of_nil. }
  rewrite area_size_Some, bind_Done by done. unfold area_end in Hw. simpl in *.
  rewrite wrap_small by (unfold is_word; lia). rewrite Z.geb_leb.
  destruct (Z.leb_spec b addr), (Z.ltb_spec addr (b + size_of ar p)); simpl.
  { exists (Some (b, p)). split; [done|]. split; [left|]. unfold area_end. simpl. lia. }
  all: destruct IH as (r & -> & Hr); exists r; (split; [done|]); destruct r as [x|];
    [destruct Hr; split; [by right|done]|];
    intros y [->|Hy]%elem_of_cons; [unfold area_end; simpl; lia|by apply Hr].
Qed.

Lemma find_vma_spec xs b p : NoDup xs.*2 → (b, p) ∈ xs → find_vma xs p = Some b.
Proof.
  induction xs as [|[b' p'] xs IH]; intros Hnd Hin; [by apply not_elem_of_nil in Hin|]. simpl in *.
  apply NoDup_cons in Hnd as [Hn Hnd]. apply elem_of_cons in Hin as [[= -> ->]|Hin]; [by rewrite Z.eqb_refl|].
  rewrite (proj2 (Z.eqb_neq _ _)); [by apply IH|]. intros ->. apply Hn.
  apply list_elem_of_fmap. by exists (b, p).
Qed.

Lemma page_no_align addr : is_u64 addr → page_no (Z.land addr page_mask) = page_no addr.
Proof.
  intros Ha. unfold page_no. rewrite mask_page by done. unfold FrameAllocator.frame_size. f_equal.
  Z.div_mod_to_equations; lia.
Qed.

(** The state a fault is handled in: the areas of the space are apart, each mapped once, at
    page-aligned bases and of sizes that page trees can hold. *)
Record fault_ok own L st sp ar addr : Prop := {
  fo_areas : areas_ok ar (m_areas sp);
  fo_once : NoDup (m_areas sp).*2;
  fo_each : ∀ x a, x ∈ m_areas sp → ar !! x.2 = Some a →
    x.1 mod 4096 = 0 ∧ m_size a < 2 ^ 54 ∧ area_ok a (frames st);
  fo_range : space_range own L st (m_pml4 sp) addr 1;
  fo_addr : is_u64 addr;
}.

End Faults.

(** ** Resizing *)

Lemma can_resize_skips pre rest vma size k base :
  (∀ x, x ∈ pre → x.2 ≠ vma) → (k <= length pre)%nat →
  can_resize_loop (pre ++ rest) vma size (seqZ (Z.of_nat k + 1) (Z.of_nat (length pre) - Z.of_nat k)) base =
    Done (Some base).
Proof.
  intros Hne. remember (length pre - k)%nat as d eqn:Ed. revert k Ed.
  induction d as [|d IH]; intros k Ed Hk.
  - replace (Z.of_nat (length pre) - Z.of_nat k) with 0 by lia. done.
  - rewrite seqZ_cons by lia. cbn [can_resize_loop]. replace (Z.of_nat k + 1 - 1) with (Z.of_nat k) by lia.
    destruct (lookup_lt_is_Some_2 pre k) as [x Hx]; [lia|].
    rewrite (arr_get_nat _ k x) by (by apply lookup_app_l_Some). rewrite bind_Done.
    rewrite (proj2 (Z.eqb_neq _ _)) by (apply Hne; by eapply list_elem_of_lookup_2). cbn [negb].
    replace (Z.succ (Z.of_nat k + 1)) with (Z.of_nat (S k) + 1) by lia.
    replace (Z.pred (Z.of_nat (length pre) - Z.of_nat k)) with (Z.of_nat (length pre) - Z.of_nat (S k)) by lia.
    apply IH; lia.
Qed.

(** [can_resize] stops its loop one area early: for the area before the last one it compares
    the size with the end of memory only, whatever area follows, so growing it over its neighbour
    is allowed. *)
Theorem can_resize_misses_last sp pre x y size :
  m_areas sp = pre ++ [x; y] → (∀ z, z ∈ pre → z.2 ≠ x.2) → is_u64 size →
  Z.of_nat (length (m_areas sp)) < 2 ^ 32 →
  can_resize sp x.2 size = Done (size <=? (if m_kernel sp then 2 ^ 64 - 1 else 0x7fffffffffff)).
Proof.
  intros E Hne Hs Hlen. unfold can_resize. rewrite E in *. rewrite length_app in *. simpl length in *.
  rewrite wrap_small by (unfold is_word; lia).
  replace (Z.of_nat (length pre + 2) - 1 - 1) with (Z.of_nat (length pre) - Z.of_nat 0) by lia.
  pose proof (can_resize_skips pre [x; y] x.2 size 0 0 Hne ltac:(lia)) as Hk.
  change (Z.of_nat 0 + 1) with 1 in Hk. rewrite Hk, bind_Done, Z.add_0_l, wrap_small by done. done.
Qed.

Lemma can_resize_misses_last_witness :
  can_resize (VmSpace false 0 [(0x1000000, 1); (0x1004000, 2)]) 1 0x100000 = Done true.
Proof.
  apply (can_resize_misses_last (VmSpace false 0 [(0x1000000, 1); (0x1004000, 2)]) []
    (0x1000000, 1) (0x1004000, 2) 0x100000); [reflexivity| |unfold is_word; lia|simpl; lia].
  intros z Hz. apply not_elem_of_nil in Hz. destruct Hz.
Defined.

(** ** A concrete space *)

Definition one_area : areas := {[7 := witness_area (Open None)]}.
Definition space_1 : vm_space := VmSpace false (page_at 1) [(0x1000000, 7)].

Lemma one_area_ok : areas_ok one_area [(0x1000000, 7)].
Proof.
  split.
  - constructor; [|constructor]. split; [by eexists|]. vm_compute. done.
  - constructor; constructor.
Qed.

Lemma add_keeps_areas_apart_witness :
  ∃ r sp' ar', add space_1 1 0x1000000 7 0 one_area = Done (r, sp', ar') ∧ areas_ok ar' (m_areas sp').
Proof.
  destruct (add_keeps_areas_apart space_1 1 0x1000000 7 0 one_area (witness_area (Open None)))
    as (r & sp' & ar' & E & Hok & _).
  - exact one_area_ok.
  - vm_compute. reflexivity.
  - lia.
  - vm_compute. reflexivity.
  - vm_compute. reflexivity.
  - constructor; [vm_compute; reflexivity|constructor].
  - exists r, sp', ar'. split; [exact E|exact Hok].
Defined.

(** The machine of [small_state] with frames to hand out: the memory of the frames is mapped. *)
Lemma small_range va :
  page_no va = 4098 →
  space_range {[page_at 1 := []]} [page_at 2; page_at 3; page_at 4] small_state (page_at 1) va 1.
Proof.
  intros Hva. split; [apply small_state_inv|vm_compute; reflexivity|lia|rewrite Hva; lia|].
  - intros ix [Hl Hr] _. destruct ix as [|a [|b ix]]; [done..|]. rewrite no_large_cons2.
    rewrite ent_zero by (vm_compute; reflexivity). reflexivity.
Qed.

Lemma page_in_maps_witness :
  ∃ st', page_in space_1 one_area 7 0x2000 0x55000 1 small_state = Done st' ∧
    translate (mem st') (page_at 1) 0x1002abc = 0x55007.
Proof.
  destruct (page_in_maps space_1 one_area 7 (witness_area (Open None)) 0x1000000 0x2000 0x55000 1 small_state
    _ _ eq_refl eq_refl (small_range 0x1002000 eq_refl)) as [[_ H]|(st' & own' & L' & E & _ & _ & [I _] & _)].
  - exfalso. simpl in H. lia.
  - exists st'. split; [exact E|]. etransitivity; [apply (I 0x1002abc)|vm_compute; reflexivity].
    split; vm_compute; congruence.
Defined.


(** The fault happens in a fixed area, which needs no frames. *)
Definition fixed_area : areas := {[7 := VmArea 0x20000 1 [] 1 (Fixed 0x800000)]}.

