(* ===== verification/Scheduler.v ===== *)
(** * The scheduler

    Models src/kernel/scheduler.cpp with the thread states of src/kernel/objects/thread.h: each CPU
    has a run queue with a list of ready threads for each of the eight priorities and a list of
    blocked ones.  A thread and its TCB are one record, found by its address; the intrusive lists
    are lists of addresses, which LinkedList.v shows them to be.  Each operation runs under the
    lock of its queue, so it is a function on the state; the timer, the clock and the switch of
    stacks are the arguments [remaining] and [now] and the new [current].

    The theorems show that no thread is ever lost or queued twice, that the scheduler always finds
    a thread to run, and that it is one of the most urgent ready ones. *)
From S2P Require Import Prelude.

(** ** Threads *)

Definition st_ready : Z := 0x01.
Definition st_exited : Z := 0x02.
Definition st_constant : Z := 0x80.

Record thread := Thread {
  priority : Z;
  time_left : Z;
  last_ran : Z;
  cpu : Z;
  m_state : Z;
  m_wake_timeout : Z;
  m_handle_count : Z;
}.

Definition has_state (t : thread) (s : Z) : bool := negb (Z.land (m_state t) s =? 0).
Definition set_state (t : thread) (s : Z) : thread :=
  Thread (priority t) (time_left t) (last_ran t) (cpu t) (Z.lor (m_state t) s) (m_wake_timeout t)
    (m_handle_count t).
Definition clear_state (t : thread) (s : Z) : thread :=
  Thread (priority t) (time_left t) (last_ran t) (cpu t) (Z.land (m_state t) (wnot 8 s))
    (m_wake_timeout t) (m_handle_count t).
Definition set_wake_timeout (t : thread) (time : Z) : thread :=
  Thread (priority t) (time_left t) (last_ran t) (cpu t) (m_state t) time (m_handle_count t).
Definition wake_only (t : thread) : thread := set_state (set_wake_timeout t 0) st_ready.
Definition set_priority (t : thread) (p : Z) : thread :=
  if has_state t st_constant then t
  else Thread p (time_left t) (last_ran t) (cpu t) (m_state t) (m_wake_timeout t) (m_handle_count t).

(** Assignments to the fields of a TCB. *)
Definition put_priority (t : thread) (p : Z) : thread :=
  Thread p (time_left t) (last_ran t) (cpu t) (m_state t) (m_wake_timeout t) (m_handle_count t).
Definition put_time (t : thread) (x : Z) : thread :=
  Thread (priority t) x (last_ran t) (cpu t) (m_state t) (m_wake_timeout t) (m_handle_count t).
Definition put_ran (t : thread) (x : Z) : thread :=
  Thread (priority t) (time_left t) x (cpu t) (m_state t) (m_wake_timeout t) (m_handle_count t).
Definition put_cpu (t : thread) (x : Z) : thread :=
  Thread (priority t) (time_left t) (last_ran t) x (m_state t) (m_wake_timeout t) (m_handle_count t).
Definition put_handles (t : thread) (x : Z) : thread :=
  Thread (priority t) (time_left t) (last_ran t) (cpu t) (m_state t) (m_wake_timeout t) x.

Abbreviation threads := (gmap Z thread).

(** ** Queues *)

Definition num_priorities : Z := 8.
Definition idle_priority : Z := num_priorities - 1.
Definition max_priority : Z := idle_priority - 1.
Definition promote_limit : Z := 1.
Definition quantum_micros : Z := 500.
Definition promote_frequency : Z := 100.
Definition steal_frequency : Z := 10.

Record run_queue := RunQueue {
  current : Z;
  ready : list (list Z);
  blocked : list Z;
  last_promotion : Z;
  last_steal : Z;
}.

Record scheduler := Scheduler {
  tcbs : threads;
  m_run_queues : list run_queue;
  m_add_index : Z;
  m_steal_turn : Z;
}.

Definition quantum (p : Z) : Z := u32 (Z.shiftl quantum_micros p).

Definition put_ready (q : run_queue) (r : list (list Z)) : run_queue :=
  RunQueue (current q) r (blocked q) (last_promotion q) (last_steal q).
Definition put_blocked (q : run_queue) (b : list Z) : run_queue :=
  RunQueue (current q) (ready q) b (last_promotion q) (last_steal q).

(** [list.remove(node)] and [list.push_back(node)] on the ready list of a priority. *)
Definition drop_item (t : Z) (l : list Z) : list Z := filter (λ x, x ≠ t) l.
Definition push_ready (q : run_queue) (p t : Z) : outcome run_queue :=
  let* l := arr_get (ready q) p in
  let* r := arr_set (ready q) p (l ++ [t]) in
  Done (put_ready q r).
Definition remove_ready (q : run_queue) (p t : Z) : outcome run_queue :=
  let* l := arr_get (ready q) p in
  let* r := arr_set (ready q) p (drop_item t l) in
  Done (put_ready q r).

(** ** Operations *)

(** [add_thread]: the next CPU in turn, of [g_num_cpus], whose number is its queue's. *)
Definition add_thread (s : scheduler) (t : Z) : outcome scheduler :=
  let n := Z.of_nat (length (m_run_queues s)) in
  if n =? 0 then Undef
  else
    let k := m_add_index s mod n in
    let* q := arr_get (m_run_queues s) k in
    let* th := deref (tcbs s !! t) in
    let th := put_handles th (u16 (m_handle_count th + 1)) in
    let th := put_time (put_cpu th k) (quantum (priority th)) in
    let* qs := arr_set (m_run_queues s) k (put_blocked q (blocked q ++ [t])) in
    Done (Scheduler (<[t := th]> (tcbs s)) qs (u32 (m_add_index s + 1)) (m_steal_turn s)).

(** The loop of [prune], over the items [blocked] had: [next()] is read before an item is moved.
    A thread whose last handle is released is deleted. *)
Fixpoint prune_loop (ts : threads) (q : run_queue) (now : Z) (l : list Z)
    : outcome (threads * run_queue) :=
  match l with
  | [] => Done (ts, q)
  | t :: l =>
      let* th := deref (ts !! t) in
      let th := if negb (m_wake_timeout th =? 0) && (m_wake_timeout th <=? now) then wake_only th else th in
      let ts := <[t := th]> ts in
      let is_ready := has_state th st_ready in
      let exited := has_state th st_exited in
      if negb exited && negb is_ready then prune_loop ts q now l
      else if exited then
        if t =? current q then prune_loop ts q now l
        else
          let q := put_blocked q (drop_item t (blocked q)) in
          let th := put_handles th (u16 (m_handle_count th - 1)) in
          let ts := if m_handle_count th =? 0 then delete t ts else <[t := th]> ts in
          prune_loop ts q now l
      else
        let q := put_blocked q (drop_item t (blocked q)) in
        let* q := push_ready q (priority th) t in
        prune_loop ts q now l
  end.
Definition prune (ts : threads) (q : run_queue) (now : Z) : outcome (threads * run_queue) :=
  prune_loop ts q now (blocked q).

(** The inner loop of [check_promotions]: a promoted thread becomes the last item of another list,
    where the iteration, following its [next()], ends. *)
Fixpoint promote_list (ts : threads) (q : run_queue) (now : Z) (l : list Z)
    : outcome (threads * run_queue) :=
  match l with
  | [] => Done (ts, q)
  | t :: l =>
      let* th := deref (ts !! t) in
      if has_state th st_constant then promote_list ts q now l
      else
        let age := u64 (now - last_ran th) in
        let p := priority th in
        if (u32 (quantum p * 2) <? age) && (promote_limit <? p) then
          let* q := remove_ready q p t in
          let th := put_priority th (u8 (p - 1)) in
          let th := put_time th (quantum (priority th)) in
          let* q := push_ready q (priority th) t in
          Done (<[t := th]> ts, q)
        else promote_list ts q now l
  end.
Fixpoint promote_lists (ts : threads) (q : run_queue) (now : Z) (ps : list Z)
    : outcome (threads * run_queue) :=
  match ps with
  | [] => Done (ts, q)
  | p :: ps =>
      let* l := arr_get (ready q) p in
      let* (ts, q) := promote_list ts q now l in
      promote_lists ts q now ps
  end.
Definition check_promotions (ts : threads) (q : run_queue) (now : Z) : outcome (threads * run_queue) :=
  let* (ts, q) := promote_lists ts q now (seqZ 0 num_priorities) in
  Done (ts, RunQueue (current q) (ready q) (blocked q) now (last_steal q)).

(** [balance_lists]: [steal] times the front of [from] to the front of [to]. *)
Fixpoint steal_items (n : nat) (ts : threads) (to from : list Z) (k : Z)
    : outcome (threads * list Z * list Z) :=
  match n with
  | O => Done (ts, to, from)
  | S n =>
      match from with
      | [] => Undef
      | t :: from =>
          let* th := deref (ts !! t) in
          steal_items n (<[t := put_cpu th k]> ts) (t :: to) from k
      end
  end.
Definition balance_lists (ts : threads) (to from : list Z) (k : Z)
    : outcome (threads * list Z * list Z) :=
  let to_len := Z.of_nat (length to) in
  let from_len := Z.of_nat (length from) in
  if from_len <=? to_len then Done (ts, to, from)
  else steal_items (Z.to_nat ((from_len - to_len) / 2)) ts to from k.

Fixpoint steal_ready (ts : threads) (mine other : run_queue) (k : Z) (ps : list Z)
    : outcome (threads * run_queue * run_queue) :=
  match ps with
  | [] => Done (ts, mine, other)
  | p :: ps =>
      let* to := arr_get (ready mine) p in
      let* from := arr_get (ready other) p in
      let* (ts, to, from) := balance_lists ts to from k in
      let* rm := arr_set (ready mine) p to in
      let* ro := arr_set (ready other) p from in
      steal_ready ts (put_ready mine rm) (put_ready other ro) k ps
  end.
Definition steal_from (ts : threads) (mine other : run_queue) (k : Z)
    : outcome (threads * run_queue * run_queue) :=
  let* (ts, mine, other) := steal_ready ts mine other k (seqZ 0 idle_priority) in
  let* (ts, to, from) := balance_lists ts (blocked mine) (blocked other) k in
  Done (ts, put_blocked mine to, put_blocked other from).

(** [steal_work], over the other queues in turn. *)
Fixpoint steal_loop (ts : threads) (qs : list run_queue) (k : Z) (js : list Z)
    : outcome (threads * list run_queue) :=
  match js with
  | [] => Done (ts, qs)
  | j :: js =>
      if j =? k then steal_loop ts qs k js
      else
        let* mine := arr_get qs k in
        let* other := arr_get qs j in
        let* (ts, mine, other) := steal_from ts mine other k in
        let* qs := arr_set qs k mine in
        let* qs := arr_set qs j other in
        steal_loop ts qs k js
  end.
Definition steal_work (ts : threads) (qs : list run_queue) (k : Z) : outcome (threads * list run_queue) :=
  steal_loop ts qs k (seqZ 0 (Z.of_nat (length qs))).

(** The charge of the thread that was running. *)
Definition charge (th : thread) (remaining : Z) : thread :=
  let p := priority th in
  if remaining =? 0 then
    let th := if (p <? max_priority) && negb (has_state th st_constant)
              then put_priority th (p + 1) else th in
    put_time th (quantum (priority th))
  else put_time th (u32 (remaining + Z.shiftr (quantum p) 4)).

(** [while (queue.ready[priority].empty())] *)
Fixpoint find_ready (fuel : nat) (r : list (list Z)) (p : Z) : outcome Z :=
  match fuel with
  | O => Diverge
  | S fuel =>
      let* l := arr_get r p in
      match l with
      | [] => let* _ := kassert (p + 1 <? num_priorities) in find_ready fuel r (p + 1)
      | _ => Done p
      end
  end.

(** The part of [schedule] that works on the CPU's own queue: the running thread goes back to a list
    and the next one is taken. *)
Definition switch (ts : threads) (q : run_queue) (remaining now : Z) : outcome (threads * run_queue) :=
  let cur := current q in
  let* th := deref (ts !! cur) in
  let th := charge th remaining in
  let ts := <[cur := th]> ts in
  let* q :=
    if has_state th st_ready then push_ready q (priority th) cur
    else Done (put_blocked q (blocked q ++ [cur])) in
  let* (ts, q) := prune ts q now in
  let* (ts, q) := if promote_frequency <? u64 (now - last_promotion q) then check_promotions ts q now
                  else Done (ts, q) in
  let* p := find_ready (Z.to_nat num_priorities) (ready q) 0 in
  let* th := deref (ts !! cur) in
  let ts := <[cur := put_ran th now]> ts in
  let* l := arr_get (ready q) p in
  let* nxt := deref (head l) in
  let* r := arr_set (ready q) p (tail l) in
  let* th := deref (ts !! nxt) in
  let ts := <[nxt := put_ran th now]> ts in
  Done (ts, RunQueue nxt r (blocked q) (last_promotion q) (last_steal q)).

(** [schedule] on CPU [k]: the state when the lock is released, with the next thread [current]. *)
Definition schedule (s : scheduler) (k remaining now : Z) : outcome scheduler :=
  let* q := arr_get (m_run_queues s) k in
  let turn := (m_steal_turn s =? k) && (steal_frequency <? u64 (now - last_steal q)) in
  let* (ts, qs) := if turn then steal_work (tcbs s) (m_run_queues s) k else Done (tcbs s, m_run_queues s) in
  let steal_turn := if turn then u32 (m_steal_turn s + 1) mod Z.of_nat (length qs) else m_steal_turn s in
  let* q := arr_get qs k in
  let q := if turn then RunQueue (current q) (ready q) (blocked q) (last_promotion q) now else q in
  let* (ts, q) := switch ts q remaining now in
  let* qs := arr_set qs k q in
  Done (Scheduler ts qs (m_add_index s) steal_turn).

(** [maybe_schedule]: whether the thread's CPU is sent the interrupt to schedule. *)
Definition maybe_schedule (s : scheduler) (t : Z) : outcome bool :=
  let* th := deref (tcbs s !! t) in
  let* q := arr_get (m_run_queues s) (cpu th) in
  let* cur := deref (tcbs s !! current q) in
  Done (negb (priority cur <=? priority th)).

(** ** Queues of threads *)

Section join.
Context {A : Type}.
Implicit Types (l : list A) (ls : list (list A)).

Lemma delete_insert_same {B} (ls : list B) i x : delete i (<[i := x]> ls) = delete i ls.
Proof. revert i. induction ls as [|y ls IH]; intros [|i]; cbn; [done..|]. by rewrite IH. Qed.

Lemma join_at ls i l :
  ls !! i = Some l → ∃ rest, mjoin ls ≡ₚ l ++ rest ∧ ∀ l', mjoin (<[i := l']> ls) ≡ₚ l' ++ rest.
Proof.
  intros Hi. exists (mjoin (delete i ls)). split; [by rewrite (delete_Permutation ls i l Hi) at 1|].
  intros l'. assert (Hl : <[i := l']> ls !! i = Some l') by (apply list_lookup_insert_eq; by eapply lookup_lt_Some).
  rewrite (delete_Permutation _ i l' Hl) at 1. by rewrite delete_insert_same.
Qed.

Lemma elem_join ls i l x : ls !! i = Some l → x ∈ l → x ∈ mjoin ls.
Proof. intros Hi Hx. apply list_elem_of_join. exists l. split; [done|]. by eapply list_elem_of_lookup_2. Qed.
End join.

Lemma elem_drop_item t x l : x ∈ drop_item t l ↔ x ≠ t ∧ x ∈ l.
Proof. unfold drop_item. by rewrite list_elem_of_filter. Qed.
Lemma drop_item_perm t l : NoDup l → t ∈ l → l ≡ₚ t :: drop_item t l.
Proof.
  intros Hn Ht. apply NoDup_Permutation; [done|..].
  - constructor; [rewrite elem_drop_item; naive_solver|by apply NoDup_filter].
  - intros x. rewrite elem_of_cons, elem_drop_item. destruct (decide (x = t)); naive_solver.
Qed.

(** The threads of a queue other than the running one, and of all queues. *)
Definition placed (q : run_queue) : list Z := mjoin (ready q) ++ blocked q.
Definition members (q : run_queue) : list Z := current q :: placed q.
Definition all_members (qs : list run_queue) : list Z := mjoin (members <$> qs).

(** A thread that belongs to CPU [k]. *)
Definition good (k : Z) (P : thread → Prop) (ts : threads) (t : Z) : Prop :=
  ∃ th, ts !! t = Some th ∧ P th ∧ cpu th = k.
Definition any_thread (th : thread) : Prop := 0 ≤ priority th < num_priorities.
Definition has_priority (p : nat) (th : thread) : Prop := priority th = Z.of_nat p.

(** A queue of CPU [k]: a thread is in the list of its priority. *)
Record queue_ok (k : Z) (ts : threads) (q : run_queue) : Prop := {
  qo_len : length (ready q) = 8%nat;
  qo_ready : ∀ p l t, ready q !! p = Some l → t ∈ l → good k (has_priority p) ts t;
  qo_blocked : ∀ t, t ∈ blocked q → good k any_thread ts t;
}.

Lemma good_mono k P ts ts' t :
  ts' !! t = ts !! t → good k P ts t → good k P ts' t.
Proof. intros He (th & ? & ?). exists th. by rewrite He. Qed.
Lemma good_weaken k (P Q : thread → Prop) ts t : (∀ th, P th → Q th) → good k P ts t → good k Q ts t.
Proof. intros HPQ (th & ? & ? & ?). exists th. auto. Qed.

Lemma elem_ready p l t q : ready q !! p = Some l → t ∈ l → t ∈ placed q.
Proof. intros Hp Ht. apply elem_of_app. left. by eapply elem_join. Qed.
Lemma elem_blocked t q : t ∈ blocked q → t ∈ placed q.
Proof. intros. apply elem_of_app. by right. Qed.
#[local] Hint Resolve elem_ready elem_blocked : core.

Lemma queue_ok_mono k ts ts' q :
  (∀ t, t ∈ placed q → ts' !! t = ts !! t) → queue_ok k ts q → queue_ok k ts' q.
Proof. intros He [Hl Hr Hb]. split; [done|..]; intros; (eapply good_mono; [apply He|]); eauto. Qed.

(** A change of a thread that keeps its priority and its CPU. *)
Lemma good_insert k (P : thread → Prop) ts t th th' x :
  ts !! t = Some th → cpu th' = cpu th → (P th → P th') → good k P ts x → good k P (<[t := th']> ts) x.
Proof.
  intros Ht Hc HP (tx & Hx & HPx & Hcx). destruct (decide (x = t)) as [->|].
  - rewrite Ht in Hx. injection Hx as <-. exists th'. rewrite lookup_insert_eq. split_and!; [done|auto|congruence].
  - exists tx. by rewrite lookup_insert_ne.
Qed.
Lemma queue_ok_insert k ts q t th th' :
  ts !! t = Some th → cpu th' = cpu th → priority th' = priority th →
  queue_ok k ts q → queue_ok k (<[t := th']> ts) q.
Proof.
  intros Ht Hc Hp [Hl Hr Hb].
  split; [done|..]; intros; eapply good_insert; eauto; unfold has_priority, any_thread; congruence.
Qed.

(** *** Moving a thread between lists *)

Lemma push_ready_spec k ts q p t :
  queue_ok k ts q → 0 ≤ p < num_priorities → good k (has_priority (Z.to_nat p)) ts t →
  ∃ l, ready q !! Z.to_nat p = Some l ∧
    let q' := put_ready q (<[Z.to_nat p := l ++ [t]]> (ready q)) in
    push_ready q p t = Done q' ∧ queue_ok k ts q' ∧ placed q' ≡ₚ t :: placed q.
Proof.
  intros [Hl Hr Hb] Hp Ht. unfold num_priorities in Hp.
  destruct (lookup_lt_is_Some_2 (ready q) (Z.to_nat p)) as [l Hlp]; [lia|]. exists l. split; [done|].
  cbv zeta. split_and!.
  - unfold push_ready. rewrite (proj2 (arr_get_Done _ _ l)) by (split; [lia|done]).
    cbn. rewrite arr_set_Done by lia. done.
  - split; cbn; [by rewrite length_insert| |done]. intros p' l' x [(<- & <- & _)|[Hne Hp']]%list_lookup_insert_Some.
    + intros [Hx| ->%list_elem_of_singleton]%elem_of_app; eauto.
    + eauto.
  - destruct (join_at _ _ _ Hlp) as (rest & H1 & H2). unfold placed. cbn. rewrite H1, H2.
    by rewrite <-!app_assoc, Permutation_middle.
Qed.

Lemma remove_ready_spec k ts q p t l :
  queue_ok k ts q → ready q !! p = Some l → t ∈ l → NoDup l →
  let q' := put_ready q (<[p := drop_item t l]> (ready q)) in
  remove_ready q (Z.of_nat p) t = Done q' ∧ queue_ok k ts q' ∧ placed q ≡ₚ t :: placed q'.
Proof.
  intros [Hl Hr Hb] Hlp Ht Hn. pose proof (lookup_lt_Some _ _ _ Hlp).
  cbv zeta. split_and!.
  - unfold remove_ready. rewrite (proj2 (arr_get_Done _ _ l)) by (split; [lia|by rewrite Nat2Z.id]).
    cbn. rewrite arr_set_Done by lia. by rewrite Nat2Z.id.
  - split; cbn; [by rewrite length_insert| |done].
    intros p' l' x [(<- & <- & _)|[Hne Hp']]%list_lookup_insert_Some; [|eauto].
    intros [_ Hx]%elem_drop_item. eauto.
  - destruct (join_at _ _ _ Hlp) as (rest & H1 & H2). unfold placed. cbn. rewrite H1, H2.
    by rewrite (drop_item_perm t l) at 1.
Qed.

Lemma drop_blocked_spec k ts q t :
  queue_ok k ts q → t ∈ blocked q → NoDup (placed q) →
  let q' := put_blocked q (drop_item t (blocked q)) in
  queue_ok k ts q' ∧ placed q ≡ₚ t :: placed q'.
Proof.
  intros [Hl Hr Hb] Ht (_ & _ & Hn)%NoDup_app. cbv zeta. split.
  - split; cbn; [done..|]. intros x [_ ?]%elem_drop_item. auto.
  - unfold placed. cbn. rewrite (drop_item_perm t (blocked q)) at 1 by done.
    by rewrite <-Permutation_middle.
Qed.

(** ** [prune] *)

(** Of a thread, what decides how long it lives; and that the threads [gone] lost one handle each, which
    deleted those that had no other. *)
Definition core (th : thread) : bool * Z := (has_state th st_exited, m_handle_count th).
Definition core_released (c : option (bool * Z)) : option (bool * Z) :=
  c ≫= λ '(x, n), if u16 (n - 1) =? 0 then None else Some (x, u16 (n - 1)).
Definition dropped (gone : list Z) (ts ts' : threads) : Prop :=
  ∀ t, core <$> ts' !! t = if decide (t ∈ gone) then core_released (core <$> ts !! t) else core <$> ts !! t.
Lemma dropped_app g1 g2 ts ts1 ts2 :
  (∀ t, t ∈ g1 → t ∉ g2) → dropped g1 ts ts1 → dropped g2 ts1 ts2 → dropped (g1 ++ g2) ts ts2.
Proof.
  intros Hd H1 H2 t. rewrite H2, H1. specialize (Hd t).
  destruct (decide (t ∈ g1 ++ g2)) as [[]%elem_of_app|Hn]; [..|rewrite elem_of_app in Hn];
    repeat case_decide; naive_solver.
Qed.
Lemma dropped_nil ts : dropped [] ts ts.
Proof. intros t. by case_decide as Hx; [apply not_elem_of_nil in Hx|]. Qed.
Lemma dropped_insert ts t th th' : ts !! t = Some th → core th' = core th → dropped [] ts (<[t := th']> ts).
Proof.
  intros Ht Hc x. case_decide as Hx; [by apply not_elem_of_nil in Hx|]. destruct (decide (x = t)) as [->|].
  - rewrite lookup_insert_eq, Ht. cbn. by rewrite Hc.
  - by rewrite lookup_insert_ne.
Qed.

(** What may stay in the blocked list: a thread that is not ready, or the running one if it exited. *)
Definition settled (cur t : Z) (th : thread) : Prop :=
  if has_state th st_exited then t = cur else has_state th st_ready = false.

(** [prune] from [ts] and [q] to [ts'] and [q'], having looked at the threads [l]. *)
Record pruned (k : Z) (l : list Z) (ts : threads) (q : run_queue) (ts' : threads) (q' : run_queue)
    (gone : list Z) : Prop := {
  pr_ok : queue_ok k ts' q';
  pr_perm : placed q ≡ₚ gone ++ placed q';
  pr_gone : ∀ t, t ∈ gone → t ∈ l ∧ t ≠ current q ∧ ∃ th, ts !! t = Some th ∧ has_state th st_exited = true;
  pr_current : current q' = current q;
  pr_out : ∀ t, t ∉ l → ts' !! t = ts !! t;
  pr_ext : ∀ p r, ready q !! p = Some r → ∃ e, ready q' !! p = Some (r ++ e);
  pr_sub : ∀ t, t ∈ blocked q' → t ∈ blocked q;
  pr_settled : ∀ t, t ∈ l → t ∈ blocked q' → ∃ th, ts' !! t = Some th ∧ settled (current q) t th;
  pr_core : dropped gone ts ts';
}.

(** The thread after its timeout was looked at. *)
Definition timed (now : Z) (th : thread) : thread :=
  if negb (m_wake_timeout th =? 0) && (m_wake_timeout th <=? now) then wake_only th else th.
Lemma timed_exited now th : has_state (timed now th) st_exited = has_state th st_exited.
Proof.
  unfold timed. case_match; [|done]. unfold has_state, wake_only, set_state, set_wake_timeout. cbn [m_state].
  by rewrite Z.land_lor_distr_l, Z.lor_0_r.
Qed.
Lemma timed_core now th : core (timed now th) = core th.
Proof. unfold core. rewrite timed_exited. f_equal. unfold timed. by case_match. Qed.
Lemma timed_same now th :
  priority (timed now th) = priority th ∧ cpu (timed now th) = cpu th.
Proof. unfold timed. by case_match. Qed.

(** One thread, then the others. *)
Lemma pruned_cons k t l ts q ts1 q1 g1 ts' q' g :
  t ∉ l → current q1 = current q →
  placed q ≡ₚ g1 ++ placed q1 →
  (∀ x, x ≠ t → ts1 !! x = ts !! x) →
  (∀ x, x ∈ g1 → x = t ∧ t ≠ current q ∧ ∃ th, ts !! t = Some th ∧ has_state th st_exited = true) →
  (∀ p r, ready q !! p = Some r → ∃ e, ready q1 !! p = Some (r ++ e)) →
  (∀ x, x ∈ blocked q1 → x ∈ blocked q) →
  (t ∈ blocked q1 → ∃ th, ts1 !! t = Some th ∧ settled (current q) t th) →
  dropped g1 ts ts1 →
  pruned k l ts1 q1 ts' q' g → pruned k (t :: l) ts q ts' q' (g1 ++ g).
Proof.
  intros Htl Hcur Hperm Hout Hg1 Hext Hsub Hset Hd []. split.
  - done.
  - by rewrite Hperm, pr_perm0, app_assoc.
  - intros x [Hx|Hx]%elem_of_app.
    + destruct (Hg1 x Hx) as (-> & ? & ?). split_and!; [left|done..].
    + destruct (pr_gone0 x Hx) as (Hxl & ? & th & Hth & ?). rewrite Hcur in *.
      split_and!; [by right|done|]. exists th. rewrite Hout in Hth by (intros ->; done). done.
  - congruence.
  - intros x [? ?]%not_elem_of_cons. rewrite pr_out0 by done. auto.
  - intros p r Hp. destruct (Hext p r Hp) as [e He]. destruct (pr_ext0 p _ He) as [e' He'].
    exists (e ++ e'). by rewrite app_assoc.
  - eauto.
  - intros x [->|Hx]%elem_of_cons Hb.
    + rewrite pr_out0 by done. eauto.
    + rewrite <-Hcur. eauto.
  - apply (dropped_app _ _ _ ts1); [|done..]. intros x (-> & _)%Hg1 (? & _)%pr_gone0. done.
Qed.

Lemma prune_loop_spec k now l : ∀ ts q,
  queue_ok k ts q → NoDup (placed q) → NoDup l → (∀ t, t ∈ l → t ∈ blocked q) →
  ∃ ts' q' gone, prune_loop ts q now l = Done (ts', q') ∧ pruned k l ts q ts' q' gone.
Proof.
  induction l as [|t l IH]; intros ts q Hq Hn Hl Hsub.
  { exists ts, q, []. split; [done|]. split; try done; [by intros ? ?%not_elem_of_nil|..].
    - intros p r ->. exists []. by rewrite app_nil_r.
    - by intros ? ?%not_elem_of_nil. }
  apply NoDup_cons in Hl as [Htl Hl]. assert (Hlb : ∀ x, x ∈ l → x ∈ blocked q) by (intros; apply Hsub; by right).
  assert (Htb : t ∈ blocked q) by (apply Hsub; left).
  destruct (qo_blocked _ _ _ Hq t Htb) as (th & Hth & Hany & Hcpu).
  destruct (timed_same now th) as [Hp1 Hc1]. pose proof (timed_exited now th) as Hx1.
  set (th1 := timed now th) in *. set (ts1 := <[t := th1]> ts).
  assert (Hq1 : queue_ok k ts1 q) by (by eapply queue_ok_insert).
  assert (Hout1 : ∀ x, x ≠ t → ts1 !! x = ts !! x) by (intros; by apply lookup_insert_ne).
  assert (Hts1 : ts1 !! t = Some th1) by apply lookup_insert_eq.
  assert (Hd1 : dropped [] ts ts1) by (apply (dropped_insert _ _ th); [done|apply timed_core]).
  assert (Hnil : ∀ p r, ready q !! p = Some r → ∃ e, ready q !! p = Some (r ++ e))
    by (intros p r ->; exists []; by rewrite app_nil_r).
  assert (Hstay : settled (current q) t th1 → ∃ ts' q' gone,
    prune_loop ts1 q now l = Done (ts', q') ∧ pruned k (t :: l) ts q ts' q' gone).
  { intros Hs. destruct (IH ts1 q Hq1 Hn Hl Hlb) as (ts' & q' & g & -> & Hpr).
    exists ts', q', ([] ++ g). split; [done|]. eapply pruned_cons; eauto. by intros ? ?%not_elem_of_nil. }
  cbn [prune_loop]. rewrite Hth. cbn. fold (timed now th). fold th1. fold ts1. unfold settled in Hstay.
  destruct (has_state th1 st_exited) eqn:Hex; cbn.
  - destruct (Z.eqb_spec t (current q)) as [Hc|Hc]; [by apply Hstay|]. clear Hstay.
    destruct (drop_blocked_spec k ts1 q t Hq1 Htb Hn) as [Hq2 Hp2]. set (q2 := put_blocked _ _) in *.
    set (ts2 := if _ : bool then _ else _).
    assert (Hout2 : ∀ x, x ≠ t → ts2 !! x = ts1 !! x)
      by (intros; unfold ts2; case_match; [by apply lookup_delete_ne|by apply lookup_insert_ne]).
    assert (Hd2 : dropped [t] ts1 ts2).
    { intros x. destruct (decide (x = t)) as [->|Hx].
      2:{ rewrite Hout2 by done. case_decide as Hxt; [by apply list_elem_of_singleton in Hxt|done]. }
      rewrite decide_True by (by left). rewrite Hts1. unfold ts2.
      cbn [fmap option_fmap option_map core core_released mbind option_bind m_handle_count put_handles].
      case_match; [by rewrite lookup_delete_eq|by rewrite lookup_insert_eq]. }
    assert (Hn2 : NoDup (t :: placed q2)) by (by rewrite <-Hp2).
    apply NoDup_cons in Hn2 as [Ht2 Hn2].
    destruct (IH ts2 q2) as (ts' & q' & g & -> & Hpr); [|done..| |].
    + eapply queue_ok_mono; [|done]. intros x Hx. apply Hout2. by intros ->.
    + intros x Hx. apply elem_drop_item. split; [by intros ->|auto].
    + exists ts', q', ([t] ++ g). split; [done|]. apply (pruned_cons k t l ts q ts2 q2); eauto.
      * intros x Hx. by rewrite Hout2, Hout1.
      * intros x ->%list_elem_of_singleton. split; [done|]. split; [done|]. exists th. split; [done|congruence].
      * by intros x [_ ?]%elem_drop_item.
      * by intros [? _]%elem_drop_item.
      * apply (dropped_app [] [t] _ ts1); [by intros ? ?%not_elem_of_nil|done..].
  - destruct (has_state th1 st_ready) eqn:Hrd; cbn; [|by apply Hstay]. clear Hstay.
    destruct (drop_blocked_spec k ts1 q t Hq1 Htb Hn) as [Hq2 Hp2]. set (q2 := put_blocked _ _) in *.
    destruct (push_ready_spec k ts1 q2 (priority th1) t Hq2) as (r & Hr & Hpush & Hq3 & Hp3).
    { rewrite Hp1. exact Hany. }
    { exists th1. unfold any_thread in Hany. split_and!; [done|red; lia|congruence]. }
    rewrite Hpush. cbn. set (q3 := put_ready _ _) in *.
    destruct (IH ts1 q3 Hq3) as (ts' & q' & g & -> & Hpr); [by rewrite Hp3, <-Hp2|done| |].
    + intros x Hx. apply elem_drop_item. split; [by intros ->|auto].
    + exists ts', q', ([] ++ g). split; [done|]. apply (pruned_cons k t l ts q ts1 q3); eauto.
      * by rewrite Hp3, <-Hp2.
      * by intros ? ?%not_elem_of_nil.
      * intros p l0 Hp0. destruct (decide (p = Z.to_nat (priority th1))) as [->|].
        -- exists [t]. cbn. cbn in Hr. rewrite Hr in Hp0. injection Hp0 as ->.
           apply list_lookup_insert_eq. by eapply lookup_lt_Some.
        -- cbn. rewrite list_lookup_insert_ne by done. auto.
      * by intros x [_ ?]%elem_drop_item.
      * by intros [? _]%elem_drop_item.
Qed.

(** ** [check_promotions] *)

Record promoted (k : Z) (ts : threads) (q : run_queue) (ts' : threads) (q' : run_queue) : Prop := {
  pm_ok : queue_ok k ts' q';
  pm_perm : placed q' ≡ₚ placed q;
  pm_current : current q' = current q;
  pm_blocked : blocked q' = blocked q;
  pm_out : ∀ t, t ∉ placed q → ts' !! t = ts !! t;
  pm_thread : ∀ t th, ts !! t = Some th →
    ∃ th', ts' !! t = Some th' ∧ m_state th' = m_state th ∧ (has_state th st_constant = true → th' = th);
  pm_constant : ∀ p l t th, ts !! t = Some th → has_state th st_constant = true →
    ready q !! p = Some l → t ∈ l → ∃ l', ready q' !! p = Some l' ∧ t ∈ l';
  pm_core : dropped [] ts ts';
}.

Lemma promoted_refl k ts q : queue_ok k ts q → promoted k ts q ts q.
Proof. intros. split; eauto using dropped_nil. Qed.
Lemma promoted_trans k ts q ts1 q1 ts2 q2 :
  promoted k ts q ts1 q1 → promoted k ts1 q1 ts2 q2 → promoted k ts q ts2 q2.
Proof.
  intros [] []. split; [done|by etrans|congruence|congruence|..].
  - intros t Ht. rewrite pm_out1; [auto|]. by rewrite pm_perm0.
  - intros t th Hth. destruct (pm_thread0 t th Hth) as (th1 & Hth1 & Hs1 & Hc1).
    destruct (pm_thread1 t th1 Hth1) as (th2 & Hth2 & Hs2 & Hc2). exists th2. split_and!; [done|congruence|].
    intros Hc. rewrite (Hc1 Hc) in *. auto.
  - intros p l t th Hth Hc Hp Ht. destruct (pm_constant0 p l t th Hth Hc Hp Ht) as (l1 & Hl1 & Ht1).
    destruct (pm_thread0 t th Hth) as (th1 & Hth1 & _ & Hc1). rewrite (Hc1 Hc) in Hth1. eauto.
  - by apply (dropped_app [] [] _ ts1); [intros ? ?%not_elem_of_nil|..].
Qed.

(** The promotion of one thread, from the list [p] to the one before. *)
Lemma promote_one k ts q p lp t th :
  queue_ok k ts q → NoDup (placed q) → ready q !! p = Some lp → t ∈ lp → ts !! t = Some th →
  has_state th st_constant = false → promote_limit < priority th →
  let th' := put_time (put_priority th (u8 (priority th - 1))) (quantum (u8 (priority th - 1))) in
  ∃ q', (let* q := remove_ready q (priority th) t in push_ready q (priority th') t) = Done q' ∧
    promoted k ts q (<[t := th']> ts) q'.
Proof.
  intros Hq Hn Hlp Ht Hth Hnc Hlim. cbv zeta. set (th' := put_time _ _).
  pose proof (lookup_lt_Some _ _ _ Hlp) as Hp8. rewrite (qo_len _ _ _ Hq) in Hp8.
  destruct (qo_ready _ _ _ Hq p lp t Hlp Ht) as (th0 & Hth0 & Hpri & Hcpu). unfold has_priority in Hpri.
  rewrite Hth in Hth0. injection Hth0 as <-. unfold promote_limit in Hlim.
  assert (Hp' : priority th' = priority th - 1) by (apply wrap_small; unfold is_word; lia).
  assert (Hnl : NoDup lp).
  { destruct (join_at _ _ _ Hlp) as (rest & H1 & _). unfold placed in Hn. rewrite H1, <-app_assoc in Hn.
    by apply NoDup_app in Hn as (? & _ & _). }
  destruct (remove_ready_spec k ts q p t lp Hq Hlp Ht Hnl) as (Hrm & Hq1 & Hp1). set (q1 := put_ready _ _) in *.
  rewrite Hpri, Hrm. cbn [mbind outcome_bind].
  assert (Ht1 : t ∉ placed q1) by (rewrite Hp1 in Hn; by apply NoDup_cons in Hn as [? _]).
  assert (Hq1' : queue_ok k (<[t := th']> ts) q1).
  { eapply queue_ok_mono; [|exact Hq1]. intros x Hx. apply lookup_insert_ne. by intros ->. }
  destruct (push_ready_spec k (<[t := th']> ts) q1 (priority th') t Hq1') as (r & Hr & Hpush & Hq2 & Hp2).
  { unfold num_priorities. lia. }
  { exists th'. rewrite lookup_insert_eq. split_and!; [done|red; lia|done]. }
  rewrite Hpush. eexists. split; [done|]. split; [done|by rewrite Hp2, <-Hp1|done|done|..].
  - intros x Hx. apply lookup_insert_ne. intros ->. eauto.
  - intros x tx Hx. destruct (decide (x = t)) as [->|].
    + rewrite Hth in Hx. injection Hx as <-. exists th'. rewrite lookup_insert_eq. split_and!; [done..|congruence].
    + exists tx. by rewrite lookup_insert_ne.
  - intros p2 l2 x tx Hx Hcx Hp2' Hxl. assert (x ≠ t) by (intros ->; congruence). cbn -[Z.to_nat].
    assert (Hin : ∃ l1, ready q1 !! p2 = Some l1 ∧ x ∈ l1).
    { destruct (decide (p2 = p)) as [->|].
      - exists (drop_item t lp). cbn. rewrite list_lookup_insert_eq by (rewrite (qo_len _ _ _ Hq); lia).
        rewrite Hlp in Hp2'. injection Hp2' as <-. by rewrite elem_drop_item.
      - exists l2. cbn. by rewrite list_lookup_insert_ne. }
    destruct Hin as (l1 & Hl1 & Hx1). destruct (decide (p2 = Z.to_nat (priority th'))) as [->|].
    + exists (r ++ [t]). rewrite Hr in Hl1. injection Hl1 as <-. split; [|set_solver].
      apply list_lookup_insert_eq. by eapply lookup_lt_Some.
    + exists l1. cbn in Hl1. by rewrite list_lookup_insert_ne.
  - by apply (dropped_insert _ _ th).
Qed.

Lemma promote_list_spec k now p lp l : ∀ ts q,
  queue_ok k ts q → NoDup (placed q) → ready q !! p = Some lp → (∀ t, t ∈ l → t ∈ lp) →
  ∃ ts' q', promote_list ts q now l = Done (ts', q') ∧ promoted k ts q ts' q'.
Proof.
  induction l as [|t l IH]; intros ts q Hq Hn Hlp Hsub.
  { exists ts, q. split; [done|by apply promoted_refl]. }
  assert (Hl : ∀ x, x ∈ l → x ∈ lp) by (intros; apply Hsub; by right).
  assert (Ht : t ∈ lp) by (apply Hsub; left).
  destruct (qo_ready _ _ _ Hq p lp t Hlp Ht) as (th & Hth & _ & _).
  cbn [promote_list]. rewrite Hth. cbn [deref mbind outcome_bind].
  destruct (has_state th st_constant) eqn:Hc; [by apply IH|]. cbv zeta.
  destruct (Z.ltb_spec promote_limit (priority th)) as [Hlim|];
    [|by rewrite andb_false_r; apply IH]. rewrite andb_true_r. case_match; [|by apply IH].
  destruct (promote_one k ts q p lp t th Hq Hn Hlp Ht Hth Hc Hlim) as (q' & Hrun & Hpm).
  apply bind_Done_inv in Hrun as (q1 & -> & Hrun). cbn [mbind outcome_bind].
  change (priority (put_time _ _)) with (u8 (priority th - 1)) in Hrun |- *.
  change (priority (put_priority _ _)) with (u8 (priority th - 1)) in Hrun |- *. rewrite Hrun. eauto.
Qed.

Lemma promote_lists_spec k now ps : ∀ ts q,
  queue_ok k ts q → NoDup (placed q) → (∀ p, p ∈ ps → 0 ≤ p < num_priorities) →
  ∃ ts' q', promote_lists ts q now ps = Done (ts', q') ∧ promoted k ts q ts' q'.
Proof.
  induction ps as [|p ps IH]; intros ts q Hq Hn Hps.
  { exists ts, q. split; [done|by apply promoted_refl]. }
  assert (Hp : 0 ≤ p < num_priorities) by (apply Hps; left). unfold num_priorities in Hp.
  destruct (lookup_lt_is_Some_2 (ready q) (Z.to_nat p)) as [lp Hlp]; [rewrite (qo_len _ _ _ Hq); lia|].
  cbn [promote_lists]. rewrite (proj2 (arr_get_Done _ _ lp)) by (split; [lia|done]). cbn [mbind outcome_bind].
  destruct (promote_list_spec k now _ lp lp ts q Hq Hn Hlp) as (ts1 & q1 & -> & Hpm); [done|].
  cbn. destruct (IH ts1 q1) as (ts' & q' & -> & Hpm'); [apply Hpm|by rewrite (pm_perm _ _ _ _ _ Hpm)|set_solver|].
  exists ts', q'. split; [done|by eapply promoted_trans].
Qed.

Lemma check_promotions_spec k now ts q :
  queue_ok k ts q → NoDup (placed q) →
  ∃ ts' q', check_promotions ts q now = Done (ts', q') ∧ promoted k ts q ts' q'.
Proof.
  intros Hq Hn. destruct (promote_lists_spec k now (seqZ 0 num_priorities) ts q Hq Hn) as (ts' & q' & Hrun & Hpm).
  { intros p. rewrite elem_of_seqZ. lia. }
  unfold check_promotions. rewrite Hrun. cbn. eexists _, _. split; [done|].
  destruct Hpm as [[] ? ? ? ? ? ? ?]. by repeat split.
Qed.

(** ** [steal_work] *)

(** Equality up to the CPU of the threads. *)
Definition same_threads (ts ts' : threads) : Prop :=
  ∀ t, (λ th, put_cpu th 0) <$> ts' !! t = (λ th, put_cpu th 0) <$> ts !! t.
#[global] Instance same_threads_equiv : Equivalence same_threads.
Proof. split; unfold same_threads; [done|congruence|congruence]. Qed.

Lemma same_threads_get ts ts' t th :
  same_threads ts ts' → ts !! t = Some th →
  ∃ th', ts' !! t = Some th' ∧ put_cpu th' 0 = put_cpu th 0.
Proof.
  intros Hs Ht. specialize (Hs t). rewrite Ht in Hs. apply fmap_Some in Hs as (th' & ? & ?). eauto.
Qed.
(** Two threads that differ in their CPU. *)
Lemma put_cpu_fields th th' :
  put_cpu th' 0 = put_cpu th 0 → priority th' = priority th ∧ m_state th' = m_state th ∧ th' = put_cpu th (cpu th').
Proof. destruct th, th'. unfold put_cpu. cbn. intros [=]. by subst. Qed.

(** The threads [X] moved to CPU [k]. *)
Definition moved (k : Z) (X : list Z) (ts ts' : threads) : Prop :=
  ∀ t, ts' !! t = if decide (t ∈ X) then (λ th, put_cpu th k) <$> ts !! t else ts !! t.
Lemma moved_same k X ts ts' : moved k X ts ts' → same_threads ts ts'.
Proof. intros Hm t. rewrite (Hm t). case_decide; [|done]. by destruct (ts !! t). Qed.
Lemma moved_out k X ts ts' t : moved k X ts ts' → t ∉ X → ts' !! t = ts !! t.
Proof. intros Hm Ht. rewrite (Hm t). by rewrite decide_False. Qed.
Lemma moved_good k j P X ts ts' t :
  (∀ th c, P th → P (put_cpu th c)) → moved k X ts ts' → t ∈ X → good j P ts t → good k P ts' t.
Proof.
  intros HP Hm Ht (th & Hth & ? & ?). exists (put_cpu th k). rewrite (Hm t), decide_True, Hth by done.
  split_and!; [done|auto|done].
Qed.

Lemma steal_items_spec k n : ∀ ts to from,
  (n ≤ length from)%nat → NoDup from → (∀ t, t ∈ from → is_Some (ts !! t)) →
  ∃ ts', steal_items n ts to from k = Done (ts', reverse (take n from) ++ to, drop n from) ∧
    moved k (take n from) ts ts'.
Proof.
  induction n as [|n IH]; intros ts to from Hlen Hn Hin.
  { exists ts. split; [done|]. intros t. by rewrite decide_False by apply not_elem_of_nil. }
  destruct from as [|t from]; cbn in Hlen; [lia|]. apply NoDup_cons in Hn as [Ht Hn].
  destruct (Hin t) as [th Hth]; [left|]. cbn [steal_items]. rewrite Hth. cbn [deref mbind outcome_bind].
  destruct (IH (<[t := put_cpu th k]> ts) (t :: to) from) as (ts' & -> & Hm); [lia|done|..].
  { intros x Hx. rewrite lookup_insert_ne by (by intros ->). apply Hin. by right. }
  exists ts'. rewrite firstn_cons, skipn_cons, reverse_cons, <-app_assoc. split; [done|]. intros x. rewrite (Hm x).
  assert (t ∉ take n from) by (intros ?%elem_of_take; naive_solver eauto using list_elem_of_lookup_2).
  destruct (decide (x = t)) as [->|].
  - rewrite decide_False, decide_True, lookup_insert_eq, Hth by (done || left). done.
  - rewrite lookup_insert_ne by done. by destruct (decide (x ∈ take n from)), (decide (x ∈ t :: take n from)); set_solver.
Qed.

(** The two lists share their threads more evenly, in the priority class [P] of the lists. *)
Lemma balance_lists_spec k j P ts to from :
  (∀ th c, P th → P (put_cpu th c)) → NoDup (to ++ from) →
  (∀ t, t ∈ to → good k P ts t) → (∀ t, t ∈ from → good j P ts t) →
  ∃ ts' to' from' X, balance_lists ts to from k = Done (ts', to', from') ∧ moved k X ts ts' ∧
    (∀ t, t ∈ X → t ∈ from) ∧ (∀ t, t ∈ from' → t ∈ from) ∧ to' ++ from' ≡ₚ to ++ from ∧
    (∀ t, t ∈ to' → good k P ts' t) ∧ (∀ t, t ∈ from' → good j P ts' t).
Proof.
  intros HP Hn Hto Hfrom. assert (Hid : moved k [] ts ts).
  { intros t. by rewrite decide_False by apply not_elem_of_nil. }
  unfold balance_lists. destruct (Z.leb_spec (Z.of_nat (length from)) (Z.of_nat (length to))).
  { exists ts, to, from, []. split_and!; try done. by intros ? ?%not_elem_of_nil. }
  set (n := Z.to_nat _). assert (Hle : (n ≤ length from)%nat).
  { unfold n. assert ((Z.of_nat (length from) - Z.of_nat (length to)) / 2 ≤ Z.of_nat (length from))
      by (apply Z.div_le_upper_bound; lia). lia. }
  apply NoDup_app in Hn as (Hn1 & Hdis & Hn2).
  destruct (steal_items_spec k n ts to from Hle Hn2) as (ts' & -> & Hm).
  { intros t Ht. destruct (Hfrom t Ht) as (th & ? & _). eauto. }
  assert (Hsub : ∀ t, t ∈ take n from → t ∈ from).
  { intros t Ht. rewrite <-(take_drop n from). apply elem_of_app. by left. }
  rewrite <-(take_drop n from) in Hn2. apply NoDup_app in Hn2 as (_ & Hdis2 & _).
  exists ts', (reverse (take n from) ++ to), (drop n from), (take n from).
  assert (Hsub2 : ∀ t, t ∈ drop n from → t ∈ from).
  { intros t Ht. rewrite <-(take_drop n from). apply elem_of_app. by right. }
  split_and!; [done..| | |].
  - rewrite reverse_Permutation. rewrite <-(take_drop n from) at 3.
    rewrite <-app_assoc, (Permutation_app_comm (take n from)), <-app_assoc.
    by rewrite (Permutation_app_comm (drop n from)).
  - intros t [Ht|Ht]%elem_of_app.
    + rewrite reverse_Permutation in Ht. eapply moved_good; [exact HP|exact Hm|exact Ht|apply Hfrom, Hsub, Ht].
    + eapply good_mono; [|by apply Hto]. eapply moved_out; [done|]. intros ?%Hsub. by eapply Hdis.
  - intros t Ht. eapply good_mono; [|by apply Hfrom, Hsub2].
    eapply moved_out; [done|]. intros ?. by eapply Hdis2.
Qed.

Record stolen (k j : Z) (ts : threads) (mine other : run_queue) (ts' : threads) (mine' other' : run_queue)
    : Prop := {
  sl_mine : queue_ok k ts' mine';
  sl_other : queue_ok j ts' other';
  sl_perm : placed mine' ++ placed other' ≡ₚ placed mine ++ placed other;
  sl_current : current mine' = current mine ∧ current other' = current other;
  sl_idle : ready mine' !! 7%nat = ready mine !! 7%nat ∧ ready other' !! 7%nat = ready other !! 7%nat;
  sl_sub : ∀ t, t ∈ placed other' → t ∈ placed other;
  sl_out : ∀ t, t ∉ placed other → ts' !! t = ts !! t;
  sl_same : same_threads ts ts';
}.

Lemma stolen_refl k j ts mine other : queue_ok k ts mine → queue_ok j ts other → stolen k j ts mine other ts mine other.
Proof. by split. Qed.
Lemma stolen_trans k j ts m o ts1 m1 o1 ts2 m2 o2 :
  stolen k j ts m o ts1 m1 o1 → stolen k j ts1 m1 o1 ts2 m2 o2 → stolen k j ts m o ts2 m2 o2.
Proof.
  intros [] []. split; [done|done|by etrans|naive_solver congruence|naive_solver congruence|auto|..].
  - intros t Ht. rewrite sl_out1 by auto. auto.
  - by etrans.
Qed.

Lemma has_priority_put_cpu p th c : has_priority p th → has_priority p (put_cpu th c).
Proof. done. Qed.
Lemma any_thread_put_cpu th c : any_thread th → any_thread (put_cpu th c).
Proof. done. Qed.

(** The threads [X] of the other queue were moved, of one list each. *)
Lemma stolen_mine k ts ts' X mine other (t : Z) :
  NoDup (placed mine ++ placed other) → moved k X ts ts' → (∀ x, x ∈ X → x ∈ placed other) →
  t ∈ placed mine → ts' !! t = ts !! t.
Proof.
  intros (_ & Hdis & _)%NoDup_app Hm HX Ht. eapply moved_out; [done|]. intros ?%HX. by eapply Hdis.
Qed.
Lemma perm_swap4 (a b c d : list Z) : (a ++ b) ++ (c ++ d) ≡ₚ (a ++ c) ++ (b ++ d).
Proof. rewrite <-!app_assoc. f_equiv. rewrite !app_assoc. f_equiv. apply Permutation_app_comm. Qed.

(** One ready list below the idle threads' is balanced. *)
Lemma steal_ready_step k j ts mine other p to from :
  queue_ok k ts mine → queue_ok j ts other → NoDup (placed mine ++ placed other) → (p < 7)%nat →
  ready mine !! p = Some to → ready other !! p = Some from →
  ∃ ts' to' from', balance_lists ts to from k = Done (ts', to', from') ∧
    stolen k j ts mine other ts' (put_ready mine (<[p := to']> (ready mine)))
      (put_ready other (<[p := from']> (ready other))).
Proof.
  intros Hqm Hqo Hn Hp Hto Hfrom.
  destruct (join_at _ _ _ Hto) as (r1 & Hm1 & Hm2). destruct (join_at _ _ _ Hfrom) as (r2 & Ho1 & Ho2).
  destruct (balance_lists_spec k j (has_priority p) ts to from) as (ts' & to' & from' & X & Hrun & Hm & HX & HF & Hperm & Hgk & Hgj).
  { apply has_priority_put_cpu. }
  { unfold placed in Hn. rewrite Hm1, Ho1, <-(app_assoc to), <-(app_assoc from), perm_swap4 in Hn.
    by apply NoDup_app in Hn as (Hn & _). }
  { intros. by eapply (qo_ready _ _ _ Hqm). }
  { intros. by eapply (qo_ready _ _ _ Hqo). }
  exists ts', to', from'. split; [done|].
  assert (HX' : ∀ x, x ∈ X → x ∈ placed other) by eauto.
  pose proof (λ t, stolen_mine k ts ts' X mine other t Hn Hm HX') as Hkeep.
  split; cbn.
  - split; cbn; [rewrite length_insert; apply Hqm| |].
    + intros p' l t [(<- & <- & _)|[Hne Hl]]%list_lookup_insert_Some Ht; [auto|].
      eapply good_mono; [by apply Hkeep; eauto|]. by eapply (qo_ready _ _ _ Hqm).
    + intros t Ht. eapply good_mono; [by apply Hkeep; eauto|]. by eapply (qo_blocked _ _ _ Hqm).
  - apply NoDup_app in Hn as (_ & _ & Hn). apply NoDup_app in Hn as (_ & Hrb & _).
    split; cbn; [rewrite length_insert; apply Hqo| |].
    + intros p' l t [(<- & <- & _)|[Hne Hl]]%list_lookup_insert_Some Ht; [auto|].
      eapply good_mono; [|by eapply (qo_ready _ _ _ Hqo)]. eapply moved_out; [done|]. intros Hx%HX.
      destruct (qo_ready _ _ _ Hqo p from t Hfrom Hx) as (th & Hth & Hpr & _).
      destruct (qo_ready _ _ _ Hqo p' l t Hl Ht) as (th2 & Hth2 & Hpr2 & _). unfold has_priority in *.
      rewrite Hth in Hth2. injection Hth2 as <-. lia.
    + intros t Ht. eapply good_mono; [|by eapply (qo_blocked _ _ _ Hqo)]. eapply moved_out; [done|].
      intros Hx%HX. eapply Hrb; [|exact Ht]. by eapply elem_join.
  - unfold placed. cbn. rewrite Hm1, Hm2, Ho1, Ho2, <-(app_assoc to'), <-(app_assoc from'), <-(app_assoc to), <-(app_assoc from).
    by rewrite (perm_swap4 to'), (perm_swap4 to), Hperm.
  - done.
  - by rewrite !list_lookup_insert_ne by lia.
  - intros t. unfold placed. cbn. rewrite Ho1, Ho2, !elem_of_app. naive_solver.
  - intros t Ht. eapply moved_out; [done|]. intros ?%HX'. done.
  - by eapply moved_same.
Qed.

Lemma steal_ready_spec k j ps : ∀ ts mine other,
  queue_ok k ts mine → queue_ok j ts other → NoDup (placed mine ++ placed other) →
  (∀ p, p ∈ ps → 0 ≤ p < idle_priority) →
  ∃ ts' mine' other', steal_ready ts mine other k ps = Done (ts', mine', other') ∧
    stolen k j ts mine other ts' mine' other'.
Proof.
  induction ps as [|p ps IH]; intros ts mine other Hqm Hqo Hn Hps.
  { exists ts, mine, other. split; [done|by apply stolen_refl]. }
  assert (Hp : 0 ≤ p < idle_priority) by (apply Hps; left). change idle_priority with 7 in Hp.
  pose proof (qo_len _ _ _ Hqm) as Hlm. pose proof (qo_len _ _ _ Hqo) as Hlo.
  destruct (lookup_lt_is_Some_2 (ready mine) (Z.to_nat p)) as [to Hto]; [lia|].
  destruct (lookup_lt_is_Some_2 (ready other) (Z.to_nat p)) as [from Hfrom]; [lia|].
  destruct (steal_ready_step k j ts mine other (Z.to_nat p) to from Hqm Hqo Hn) as (ts1 & to' & from' & Hb & Hst);
    [lia|exact Hto|exact Hfrom|].
  cbn [steal_ready]. rewrite (proj2 (arr_get_Done (ready mine) p to)), (proj2 (arr_get_Done (ready other) p from)) by (split; [lia|done]).
  cbn [mbind outcome_bind]. rewrite Hb. cbn [mbind outcome_bind]. rewrite !arr_set_Done by lia. cbn [mbind outcome_bind].
  edestruct IH as (ts' & m' & o' & Hrun & Hst'); [apply Hst|apply Hst| |set_solver|].
  { by rewrite (sl_perm _ _ _ _ _ _ _ _ Hst). }
  rewrite Hrun. eexists _, _, _. split; [done|by eapply stolen_trans].
Qed.

Lemma steal_blocked_step k j ts mine other :
  queue_ok k ts mine → queue_ok j ts other → NoDup (placed mine ++ placed other) →
  ∃ ts' to' from', balance_lists ts (blocked mine) (blocked other) k = Done (ts', to', from') ∧
    stolen k j ts mine other ts' (put_blocked mine to') (put_blocked other from').
Proof.
  intros Hqm Hqo Hn.
  destruct (balance_lists_spec k j any_thread ts (blocked mine) (blocked other))
    as (ts' & to' & from' & X & Hrun & Hm & HX & HF & Hperm & Hgk & Hgj).
  { apply any_thread_put_cpu. }
  { unfold placed in Hn. rewrite perm_swap4 in Hn. by apply NoDup_app in Hn as (_ & _ & Hn). }
  { apply Hqm. }
  { apply Hqo. }
  exists ts', to', from'. split; [done|].
  assert (HX' : ∀ x, x ∈ X → x ∈ placed other) by auto.
  pose proof (λ t, stolen_mine k ts ts' X mine other t Hn Hm HX') as Hkeep. split; cbn.
  - split; cbn; [apply Hqm| |done]. intros p l t Hl Ht. eapply good_mono; [by apply Hkeep; eauto|].
    by eapply (qo_ready _ _ _ Hqm).
  - apply NoDup_app in Hn as (_ & _ & Hn). apply NoDup_app in Hn as (_ & Hrb & _).
    split; cbn; [apply Hqo| |done]. intros p l t Hl Ht. eapply good_mono; [|by eapply (qo_ready _ _ _ Hqo)].
    eapply moved_out; [done|]. intros Hx%HX. eapply Hrb; [|exact Hx]. by eapply elem_join.
  - unfold placed. cbn. rewrite (perm_swap4 _ to'), (perm_swap4 _ (blocked mine)). by rewrite Hperm.
  - done.
  - done.
  - intros t. unfold placed. cbn. rewrite !elem_of_app. naive_solver.
  - intros t Ht. eapply moved_out; [done|]. intros ?%HX'. done.
  - by eapply moved_same.
Qed.

Lemma steal_from_spec k j ts mine other :
  queue_ok k ts mine → queue_ok j ts other → NoDup (placed mine ++ placed other) →
  ∃ ts' mine' other', steal_from ts mine other k = Done (ts', mine', other') ∧
    stolen k j ts mine other ts' mine' other'.
Proof.
  intros Hqm Hqo Hn.
  destruct (steal_ready_spec k j (seqZ 0 idle_priority) ts mine other Hqm Hqo Hn) as (ts1 & m1 & o1 & Hrun & Hst).
  { intros p. rewrite elem_of_seqZ. lia. }
  unfold steal_from. rewrite Hrun. cbn [mbind outcome_bind].
  destruct (steal_blocked_step k j ts1 m1 o1) as (ts' & to' & from' & -> & Hst').
  { apply Hst. } { apply Hst. } { by rewrite (sl_perm _ _ _ _ _ _ _ _ Hst). }
  eexists _, _, _. split; [done|by eapply stolen_trans].
Qed.

(** ** The invariant of the queues *)

Definition is_idle (th : thread) : Prop :=
  priority th = idle_priority ∧ has_state th st_ready = true ∧ has_state th st_constant = true.
(** The idle thread [i] runs or waits in the last list. *)
Definition idle_ok (i : Z) (ts : threads) (q : run_queue) : Prop :=
  (∃ th, ts !! i = Some th ∧ is_idle th) ∧
  (current q = i ∨ ∃ l, ready q !! 7%nat = Some l ∧ i ∈ l).

(** No thread is in two places; each queue and running thread is of its CPU; each CPU has its idle thread. *)
Record inv (idle : nat → Z) (ts : threads) (qs : list run_queue) : Prop := {
  inv_nodup : NoDup (all_members qs);
  inv_queue : ∀ k q, qs !! k = Some q → queue_ok (Z.of_nat k) ts q;
  inv_current : ∀ k q, qs !! k = Some q → good (Z.of_nat k) any_thread ts (current q);
  inv_idle : ∀ k q, qs !! k = Some q → idle_ok (idle k) ts q;
}.

Lemma all_members_at qs k q :
  qs !! k = Some q →
  ∃ rest, all_members qs ≡ₚ members q ++ rest ∧ ∀ q', all_members (<[k := q']> qs) ≡ₚ members q' ++ rest.
Proof.
  intros Hk. destruct (join_at (members <$> qs) k (members q)) as (rest & H1 & H2).
  { by rewrite list_lookup_fmap, Hk. }
  exists rest. split; [done|]. intros q'. unfold all_members. by rewrite list_fmap_insert.
Qed.

Lemma all_members_two qs k j q r :
  qs !! k = Some q → qs !! j = Some r → k ≠ j →
  ∃ rest, all_members qs ≡ₚ members q ++ members r ++ rest ∧
    ∀ q' r', all_members (<[j := r']> (<[k := q']> qs)) ≡ₚ members q' ++ members r' ++ rest.
Proof.
  intros Hk Hj Hne. set (ls := members <$> qs).
  assert (Hlk : ls !! k = Some (members q)) by (unfold ls; by rewrite list_lookup_fmap, Hk).
  assert (Hlj : ls !! j = Some (members r)) by (unfold ls; by rewrite list_lookup_fmap, Hj).
  destruct (join_at (<[k := []]> ls) j (members r)) as (rest & H1 & H2); [by rewrite list_lookup_insert_ne|].
  exists rest. unfold all_members. split.
  - fold ls. destruct (join_at ls k _ Hlk) as (r1 & H3 & Hr1). rewrite H3. f_equiv. by rewrite <-H1, Hr1.
  - intros q' r'. rewrite !list_fmap_insert. fold ls. rewrite (list_insert_insert_ne _ j k) by done.
    destruct (join_at (<[j := members r']> ls) k (members q)) as (r1 & _ & Hr1); [by rewrite list_lookup_insert_ne|].
    rewrite Hr1. f_equiv. rewrite <-H2, (list_insert_insert_ne _ j k) by done. by rewrite Hr1.
Qed.

Lemma members_disjoint qs k j q r t :
  NoDup (all_members qs) → qs !! k = Some q → qs !! j = Some r → k ≠ j → t ∈ members q → t ∉ members r.
Proof.
  intros Hn Hk Hj Hne Hq Hr. destruct (all_members_two qs k j q r Hk Hj Hne) as (rest & H1 & _).
  rewrite H1 in Hn. apply NoDup_app in Hn as (_ & Hd & _). eapply Hd; [done|]. apply elem_of_app. by left.
Qed.
Lemma members_nodup qs k q : NoDup (all_members qs) → qs !! k = Some q → NoDup (members q).
Proof.
  intros Hn Hk. destruct (all_members_at qs k q Hk) as (rest & H1 & _). rewrite H1 in Hn.
  by apply NoDup_app in Hn as (? & _).
Qed.

(** *** Stealing from the other CPUs *)

Record stole (ts : threads) (qs : list run_queue) (ts' : threads) (qs' : list run_queue) : Prop := {
  so_len : length qs' = length qs;
  so_perm : all_members qs' ≡ₚ all_members qs;
  so_current : ∀ k q', qs' !! k = Some q' → ∃ q, qs !! k = Some q ∧ current q' = current q;
  so_same : same_threads ts ts';
}.

Lemma idle_ok_same i ts q ts' q' :
  same_threads ts ts' → current q' = current q → ready q' !! 7%nat = ready q !! 7%nat →
  idle_ok i ts q → idle_ok i ts' q'.
Proof.
  intros Hs Hc Hr [(th & Hth & Hi) Hin]. split; [|by rewrite Hc, Hr].
  destruct (same_threads_get _ _ _ _ Hs Hth) as (th' & Hth' & He). exists th'. split; [done|].
  destruct (put_cpu_fields _ _ He) as (Hp & Hst & _). unfold is_idle, has_state in *. by rewrite Hp, Hst.
Qed.

Lemma steal_pair idle ts qs k j mine other :
  inv idle ts qs → qs !! k = Some mine → qs !! j = Some other → k ≠ j →
  ∃ ts' mine' other', steal_from ts mine other (Z.of_nat k) = Done (ts', mine', other') ∧
    let qs' := <[j := other']> (<[k := mine']> qs) in inv idle ts' qs' ∧ stole ts qs ts' qs'.
Proof.
  intros [Hn Hq Hc Hi] Hk Hj Hne. destruct (all_members_two qs k j _ _ Hk Hj Hne) as (rest & H1 & H2).
  assert (Hn' := Hn). rewrite H1 in Hn'. unfold members in Hn'. rewrite app_assoc in Hn'.
  apply NoDup_app in Hn' as (Hn' & _ & _). cbn in Hn'. rewrite <-Permutation_middle in Hn'.
  apply NoDup_cons in Hn' as [Hcm Hn']. apply NoDup_cons in Hn' as [Hco Hn'].
  destruct (steal_from_spec (Z.of_nat k) (Z.of_nat j) ts mine other) as (ts' & m' & o' & Hrun & [Hm Ho Hp [Hcm' Hco'] [Hrm Hro] Hsub Hout Hsame]);
    [by apply Hq|by apply Hq|done|].
  exists ts', m', o'. split; [done|]. cbv zeta.
  pose proof (lookup_lt_Some _ _ _ Hk) as Hlk. pose proof (lookup_lt_Some _ _ _ Hj) as Hlj.
  assert (Hall : all_members (<[j := o']> (<[k := m']> qs)) ≡ₚ all_members qs).
  { rewrite H1, H2, !app_assoc. f_equiv. unfold members. cbn. rewrite <-!Permutation_middle, Hcm', Hco'. by rewrite Hp. }
  assert (Hold : ∀ i q', <[j := o']> (<[k := m']> qs) !! i = Some q' →
    ∃ q, qs !! i = Some q ∧ current q' = current q ∧ ready q' !! 7%nat = ready q !! 7%nat ∧
      (i = k ∧ q' = m' ∨ i = j ∧ q' = o' ∨ i ≠ k ∧ i ≠ j ∧ q' = q)).
  { intros i q' [(<- & <- & _)|[Hij [(<- & <- & _)|[Hik Hiq]]%list_lookup_insert_Some]]%list_lookup_insert_Some; naive_solver. }
  assert (Hcur : ∀ i q, qs !! i = Some q → current q ∉ placed other).
  { intros i q Hiq. destruct (decide (i = j)) as [->|]; [|].
    - rewrite Hj in Hiq. injection Hiq as <-. intros ?. apply Hco. apply elem_of_app. by right.
    - intros Hx. eapply (members_disjoint qs i j q other); [done..|left|by right]. }
  split; split.
  - by rewrite Hall.
  - intros i q' (q & Hiq & _ & _ & [[-> ->]|[[-> ->]|(Hik & Hij & ->)]])%Hold; [done..|].
    eapply queue_ok_mono; [|by apply Hq]. intros t Ht. apply Hout. intros Hx.
    eapply (members_disjoint qs i j q other); [done..|by right|by right].
  - intros i q' (q & Hiq & -> & _ & _)%Hold. eapply good_mono; [|by apply Hc]. eauto.
  - intros i q' (q & Hiq & ? & ? & _)%Hold. eapply idle_ok_same; eauto.
  - by rewrite !length_insert.
  - done.
  - intros i q' (q & Hiq & ? & _)%Hold. eauto.
  - done.
Qed.

Lemma stole_trans ts qs ts1 qs1 ts2 qs2 : stole ts qs ts1 qs1 → stole ts1 qs1 ts2 qs2 → stole ts qs ts2 qs2.
Proof.
  intros [] []. split; [congruence|by etrans| |by etrans].
  intros k q2 (q1 & Hq1 & Hc1)%so_current1. destruct (so_current0 k q1 Hq1) as (q & Hq & Hc). exists q.
  split; [done|congruence].
Qed.

Lemma steal_loop_spec idle k js : ∀ ts qs,
  inv idle ts qs → (k < length qs)%nat → (∀ j, j ∈ js → 0 ≤ j < Z.of_nat (length qs)) →
  ∃ ts' qs', steal_loop ts qs (Z.of_nat k) js = Done (ts', qs') ∧ inv idle ts' qs' ∧ stole ts qs ts' qs'.
Proof.
  induction js as [|j js IH]; intros ts qs Hinv Hk Hjs.
  { exists ts, qs. split_and!; [done..|]. split; [done|done|eauto|done]. }
  assert (Hj : 0 ≤ j < Z.of_nat (length qs)) by (apply Hjs; left). cbn [steal_loop].
  destruct (Z.eqb_spec j (Z.of_nat k)) as [->|Hne]; [apply IH; [done..|set_solver]|].
  destruct (lookup_lt_is_Some_2 qs k) as [mine Hmine]; [lia|].
  destruct (lookup_lt_is_Some_2 qs (Z.to_nat j)) as [other Hother]; [lia|].
  rewrite (proj2 (arr_get_Done qs (Z.of_nat k) mine)) by (split; [lia|by rewrite Nat2Z.id]).
  rewrite (proj2 (arr_get_Done qs j other)) by (split; [lia|done]). cbn [mbind outcome_bind].
  destruct (steal_pair idle ts qs k (Z.to_nat j) mine other Hinv Hmine Hother) as (ts1 & m' & o' & Hrun & Hinv1 & Hst1); [lia|].
  rewrite Hrun. cbn [mbind outcome_bind]. rewrite (arr_set_Done qs) by lia. cbn [mbind outcome_bind].
  rewrite arr_set_Done by (rewrite length_insert; lia). cbn [mbind outcome_bind]. rewrite Nat2Z.id.
  destruct (IH ts1 (<[Z.to_nat j := o']> (<[k := m']> qs)) Hinv1) as (ts' & qs' & Hrun' & Hinv' & Hst').
  { by rewrite !length_insert. } { rewrite !length_insert. set_solver. }
  exists ts', qs'. split_and!; [done..|by eapply stole_trans].
Qed.

(** ** [schedule] *)

Lemma charge_keeps th r :
  any_thread th →
  any_thread (charge th r) ∧ cpu (charge th r) = cpu th ∧ m_state (charge th r) = m_state th ∧
  (has_state th st_constant = true → priority (charge th r) = priority th).
Proof.
  unfold charge, any_thread, num_priorities, max_priority, idle_priority, num_priorities. intros Hp.
  destruct (r =? 0); [|split_and!; done || apply Hp]. destruct (Z.ltb_spec (priority th) (8 - 1 - 1)), (has_state th st_constant) eqn:?;
    cbn; split_and!; done || lia || apply Hp.
Qed.

Lemma find_ready_spec r x rest : length r = 8%nat → r !! 7%nat = Some (x :: rest) →
  ∀ fuel p, 0 ≤ p < 8 → 8 - p ≤ Z.of_nat fuel →
  ∃ p' y l, find_ready fuel r p = Done p' ∧ p ≤ p' < 8 ∧ r !! Z.to_nat p' = Some (y :: l) ∧
    ∀ i, p ≤ Z.of_nat i < p' → r !! i = Some [].
Proof.
  intros Hlen H7. induction fuel as [|fuel IH]; intros p Hp Hf; [lia|]. cbn [find_ready].
  destruct (lookup_lt_is_Some_2 r (Z.to_nat p)) as [l Hl]; [lia|].
  rewrite (proj2 (arr_get_Done r p l)) by (split; [lia|done]). cbn [mbind outcome_bind].
  destruct l as [|y l].
  - assert (p ≠ 7) by (intros ->; change (Z.to_nat 7) with 7%nat in Hl; congruence).
    rewrite (proj2 (Z.ltb_lt (p + 1) num_priorities)) by (unfold num_priorities; lia). cbn [kassert mbind outcome_bind].
    destruct (IH (p + 1)) as (p' & y & l & Hrun & Hp' & Hl' & He); [lia..|].
    exists p', y, l. split_and!; [done|lia|lia|done|]. intros i Hi. destruct (decide (Z.of_nat i = p)) as [<-|].
    + by rewrite Nat2Z.id in Hl.
    + apply He. lia.
  - exists p, y, l. split_and!; [done|lia|lia|done|lia].
Qed.

Definition idle_queued (i : Z) (ts : threads) (q : run_queue) : Prop :=
  (∃ th, ts !! i = Some th ∧ is_idle th) ∧ ∃ l, ready q !! 7%nat = Some l ∧ i ∈ l.

(** The running thread goes back to the list of its priority or to the blocked ones. *)
Lemma requeue_spec k i ts q th r :
  queue_ok k ts q → good k any_thread ts (current q) → NoDup (members q) → idle_ok i ts q →
  ts !! current q = Some th →
  let th' := charge th r in let ts' := <[current q := th']> ts in
  ∃ q', (if has_state th' st_ready then push_ready q (priority th') (current q)
         else Done (put_blocked q (blocked q ++ [current q]))) = Done q' ∧
    queue_ok k ts' q' ∧ placed q' ≡ₚ members q ∧ current q' = current q ∧ idle_queued i ts' q'.
Proof.
  intros Hq (th0 & Hth0 & Hany & Hcpu) [Hcur Hn]%NoDup_cons [(ti & Hti & Hidle) Hin] Hth. cbv zeta.
  rewrite Hth in Hth0. injection Hth0 as <-. destruct (charge_keeps th r Hany) as (Hany' & Hcpu' & Hst & Hpc).
  set (th' := charge th r) in *. set (ts' := <[current q := th']> ts).
  assert (Hq' : queue_ok k ts' q).
  { eapply queue_ok_mono; [|done]. intros t Ht. apply lookup_insert_ne. intros <-. done. }
  assert (Hth' : ts' !! current q = Some th') by apply lookup_insert_eq.
  assert (Hti' : ∃ t', ts' !! i = Some t' ∧ is_idle t').
  { destruct (decide (i = current q)) as [->|]; [|exists ti; unfold ts'; by rewrite lookup_insert_ne].
    exists th'. split; [done|]. rewrite Hth in Hti. injection Hti as <-. destruct Hidle as (Hp & Hr & Hc).
    unfold is_idle, has_state in *. rewrite Hst. rewrite Hpc by done. done. }
  destruct (has_state th' st_ready) eqn:Hready.
  - destruct (push_ready_spec k ts' q (priority th') (current q) Hq' Hany') as (l & Hl & Hrun & Hq2 & Hp2).
    { exists th'. unfold any_thread in Hany'. split_and!; [done|red; lia|congruence]. }
    eexists. split_and!; [done..|]. split; [done|]. cbn -[Z.to_nat].
    destruct (decide (Z.to_nat (priority th') = 7%nat)) as [E|E].
    + rewrite E in *. exists (l ++ [current q]). split.
      { apply list_lookup_insert_eq. by eapply lookup_lt_Some. }
      apply elem_of_app. destruct Hin as [<-|(l' & Hl' & Hi)]; [right; by apply list_elem_of_singleton|].
      left. congruence.
    + destruct Hin as [Hi|(l' & Hl' & Hi)].
      * exfalso. destruct Hti' as (t' & Ht' & Hp' & _). rewrite <-Hi, Hth' in Ht'. injection Ht' as <-.
        rewrite Hp' in E. by apply E.
      * exists l'. by rewrite list_lookup_insert_ne.
  - eexists. split_and!; [done|..].
    + split; cbn; [apply Hq'|apply Hq'|]. intros t [Ht| ->%list_elem_of_singleton]%elem_of_app; [by apply Hq'|].
      exists th'. split_and!; [done..|congruence].
    + unfold placed, members. cbn. rewrite app_assoc. by rewrite <-Permutation_cons_append.
    + done.
    + split; [done|]. cbn. destruct Hin as [Hi|Hin]; [|done]. exfalso.
      destruct Hti' as (t' & Ht' & _ & Hr' & _). rewrite <-Hi, Hth' in Ht'. congruence.
Qed.

Lemma idle_prune k i l ts q ts' q' gone :
  NoDup (placed q) → (∀ t, t ∈ l → t ∈ blocked q) →
  pruned k l ts q ts' q' gone → idle_queued i ts q → idle_queued i ts' q'.
Proof.
  intros (_ & Hdis & _)%NoDup_app Hl [] [(th & Hth & Hi) (r & Hr & Hir)]. split.
  - exists th. rewrite pr_out0; [done|]. intros ?%Hl. eapply Hdis; [|done]. by eapply elem_join.
  - destruct (pr_ext0 _ _ Hr) as [e He]. exists (r ++ e). split; [done|]. apply elem_of_app. by left.
Qed.
Lemma idle_promote k i ts q ts' q' :
  promoted k ts q ts' q' → idle_queued i ts q → idle_queued i ts' q'.
Proof.
  intros [] [(th & Hth & Hi) (r & Hr & Hir)]. assert (Hi' := Hi). destruct Hi' as (_ & _ & Hc). split.
  - destruct (pm_thread0 _ _ Hth) as (th' & Hth' & _ & He). rewrite (He Hc) in Hth'. eauto.
  - eauto.
Qed.

Record switched (k i : Z) (ts : threads) (q : run_queue) (ts' : threads) (q' : run_queue) (gone : list Z)
    : Prop := {
  sw_ok : queue_ok k ts' q';
  sw_good : good k any_thread ts' (current q');
  sw_idle : idle_ok i ts' q';
  sw_perm : members q ≡ₚ gone ++ members q';
  sw_gone : ∀ t, t ∈ gone → t ≠ current q ∧ ∃ th, ts !! t = Some th ∧ has_state th st_exited = true;
  sw_out : ∀ t, t ∉ members q → ts' !! t = ts !! t;
  sw_urgent : ∃ th, ts' !! current q' = Some th ∧
    ∀ p l, Z.of_nat p < priority th → ready q' !! p = Some l → l = [];
  sw_settled : ∀ t, t ∈ blocked q' → ∃ th, ts' !! t = Some th ∧ settled (current q) t th;
  sw_core : dropped gone ts ts';
}.

(** Equality up to the times the threads last ran. *)
Definition same_ran (ts ts' : threads) : Prop :=
  ∀ t, (λ th, put_ran th 0) <$> ts' !! t = (λ th, put_ran th 0) <$> ts !! t.
#[global] Instance same_ran_equiv : Equivalence same_ran.
Proof. split; unfold same_ran; [done|congruence|congruence]. Qed.

Lemma same_ran_get ts ts' t th :
  same_ran ts ts' → ts !! t = Some th →
  ∃ th', ts' !! t = Some th' ∧ priority th' = priority th ∧ m_state th' = m_state th ∧ cpu th' = cpu th.
Proof.
  intros Hs Ht. specialize (Hs t). rewrite Ht in Hs. apply fmap_Some in Hs as (th' & ? & He).
  exists th'. split; [done|]. destruct th, th'. unfold put_ran in He. cbn in *. by injection He.
Qed.
Lemma same_ran_insert ts t th x : ts !! t = Some th → same_ran ts (<[t := put_ran th x]> ts).
Proof.
  intros Ht y. destruct (decide (y = t)) as [->|]; [|by rewrite lookup_insert_ne].
  by rewrite lookup_insert_eq, Ht.
Qed.
Lemma same_ran_good k (P : thread → Prop) ts ts' t :
  (∀ th th', priority th' = priority th → P th → P th') → same_ran ts ts' → good k P ts t → good k P ts' t.
Proof.
  intros HP Hs (th & Hth & ? & ?). destruct (same_ran_get _ _ _ _ Hs Hth) as (th' & ? & Hp & _ & ?).
  exists th'. split_and!; [done|by eapply HP|congruence].
Qed.
Lemma same_ran_idle i ts ts' :
  same_ran ts ts' → (∃ th, ts !! i = Some th ∧ is_idle th) → ∃ th, ts' !! i = Some th ∧ is_idle th.
Proof.
  intros Hs (th & Hth & Hi). destruct (same_ran_get _ _ _ _ Hs Hth) as (th' & ? & Hp & Hst & _).
  exists th'. split; [done|]. unfold is_idle, has_state in *. by rewrite Hp, Hst.
Qed.

Lemma same_ran_present ts ts' t : same_ran ts ts' → is_Some (ts !! t) → is_Some (ts' !! t).
Proof. intros Hs [th Hth]. destruct (same_ran_get _ _ _ _ Hs Hth) as (th' & ? & _). eauto. Qed.
Lemma queue_present k ts q t : queue_ok k ts q → t ∈ placed q → is_Some (ts !! t).
Proof.
  intros [_ Hr Hb] [(l & Ht & (p & Hp)%list_elem_of_lookup)%list_elem_of_join|Ht]%elem_of_app.
  - destruct (Hr p l t Hp Ht) as (th & ? & _). eauto.
  - destruct (Hb t Ht) as (th & ? & _). eauto.
Qed.

(** The front of the first list that is not empty runs next. *)
Lemma take_next k i ts q :
  queue_ok k ts q → idle_queued i ts q →
  ∃ p nxt l,
    find_ready (Z.to_nat num_priorities) (ready q) 0 = Done p ∧ arr_get (ready q) p = Done (nxt :: l) ∧
    let r := <[Z.to_nat p := l]> (ready q) in
    let q' := RunQueue nxt r (blocked q) (last_promotion q) (last_steal q) in
    arr_set (ready q) p l = Done r ∧ placed q ≡ₚ members q' ∧
    ∀ ts', same_ran ts ts' →
    queue_ok k ts' q' ∧ good k any_thread ts' nxt ∧ idle_ok i ts' q' ∧
    (∃ th, ts' !! nxt = Some th ∧ ∀ p l, Z.of_nat p < priority th → r !! p = Some l → l = []).
Proof.
  intros [Hlen Hr Hb] [Hti (l7 & H7 & Hi)]. destruct l7 as [|x7 l7]; [by apply not_elem_of_nil in Hi|].
  destruct (find_ready_spec (ready q) x7 l7 Hlen H7 (Z.to_nat num_priorities) 0) as (p & nxt & l & Hrun & Hp & Hl & He);
    [lia|unfold num_priorities; lia|].
  exists p, nxt, l. split; [done|]. split; [apply arr_get_Done; split; [lia|done]|]. cbv zeta.
  split; [apply arr_set_Done; lia|]. split.
  { destruct (join_at _ _ _ Hl) as (rest & H1 & H2). unfold placed, members, placed. cbn. by rewrite H1, H2. }
  intros ts' Hs. assert (Hgn : good k (has_priority (Z.to_nat p)) ts' nxt).
  { eapply same_ran_good; [|done|eapply Hr; [done|left]]. unfold has_priority. congruence. }
  split_and!.
  - split; cbn; [by rewrite length_insert|..].
    + intros p' l' t Hl' Ht. eapply same_ran_good; [|done|]; [unfold has_priority; congruence|].
      apply list_lookup_insert_Some in Hl' as [(<- & <- & _)|[_ Hl']]; [|by eapply Hr].
      eapply Hr; [done|by right].
    + intros t Ht. eapply same_ran_good; [|done|by apply Hb]. unfold any_thread. congruence.
  - eapply good_weaken; [|done]. unfold has_priority, any_thread, num_priorities. lia.
  - split; [by eapply same_ran_idle|]. cbn. destruct (decide (Z.to_nat p = 7%nat)) as [E|E].
    + rewrite E in *. rewrite Hl in H7. injection H7 as <- <-. apply elem_of_cons in Hi as [->|Hi]; [by left|].
      right. exists l. split; [|done]. apply list_lookup_insert_eq. lia.
    + right. eexists. by rewrite list_lookup_insert_ne.
  - destruct Hgn as (th & Hth & Hpr & _). exists th. split; [done|]. unfold has_priority in Hpr.
    intros p' l' Hp' Hl'. rewrite list_lookup_insert_ne, He in Hl' by lia. congruence.
Qed.

Lemma settled_state cur t th th' : m_state th' = m_state th → settled cur t th → settled cur t th'.
Proof. unfold settled, has_state. by intros ->. Qed.

(** What [prune] and [check_promotions] leave together. *)
Record tidied (k i : Z) (ts : threads) (q : run_queue) (ts' : threads) (q' : run_queue) (gone : list Z)
    : Prop := {
  td_ok : queue_ok k ts' q';
  td_perm : placed q ≡ₚ gone ++ placed q';
  td_gone : ∀ t, t ∈ gone → t ≠ current q ∧ ∃ th, ts !! t = Some th ∧ has_state th st_exited = true;
  td_out : ∀ t, t ∉ placed q → ts' !! t = ts !! t;
  td_idle : idle_queued i ts' q';
  td_settled : ∀ t, t ∈ blocked q' → ∃ th, ts' !! t = Some th ∧ settled (current q) t th;
  td_core : dropped gone ts ts';
}.
Lemma tidy_spec k i ts q now :
  queue_ok k ts q → NoDup (placed q) → idle_queued i ts q →
  ∃ ts1 q1 ts' q' gone, prune ts q now = Done (ts1, q1) ∧
    (if promote_frequency <? u64 (now - last_promotion q1) then check_promotions ts1 q1 now
     else Done (ts1, q1)) = Done (ts', q') ∧ tidied k i ts q ts' q' gone.
Proof.
  intros Hq Hn Hi. destruct (prune_loop_spec k now (blocked q) ts q Hq Hn) as (ts1 & q1 & gone & Hrun & Hpr);
    [by apply NoDup_app in Hn as (_ & _ & ?)|done|].
  assert (Hi1 : idle_queued i ts1 q1) by (by eapply idle_prune).
  destruct Hpr. assert (Hn1 : NoDup (placed q1)) by (rewrite pr_perm0 in Hn; by apply NoDup_app in Hn as (_ & _ & ?)).
  assert (H2 : ∃ ts' q', (if promote_frequency <? u64 (now - last_promotion q1) then check_promotions ts1 q1 now
    else Done (ts1, q1)) = Done (ts', q') ∧ promoted k ts1 q1 ts' q').
  { destruct (promote_frequency <? _); [by apply check_promotions_spec|].
    eexists _, _. split; [done|by apply promoted_refl]. }
  destruct H2 as (ts' & q' & Hrun' & Hpm). exists ts1, q1, ts', q', gone. split_and!; [done..|].
  assert (idle_queued i ts' q') by (by eapply idle_promote). destruct Hpm. split; [done|by rewrite pm_perm0| | |done| |].
  - intros t (_ & ? & ?)%pr_gone0. done.
  - intros t Ht. rewrite pm_out0, pr_out0; [done|auto|]. intros Hx. apply Ht. rewrite pr_perm0.
    apply elem_of_app. by right.
  - intros t. rewrite pm_blocked0. intros Ht. destruct (pr_settled0 t) as (th & Hth & Hs); [auto..|].
    destruct (pm_thread0 t th Hth) as (th' & ? & ? & _). exists th'. split; [done|by eapply settled_state].
  - rewrite <-(app_nil_r gone). by apply (dropped_app gone [] _ ts1); [intros ? _ ?%not_elem_of_nil|..].
Qed.

Lemma switch_spec k i ts q remaining now :
  queue_ok k ts q → good k any_thread ts (current q) → NoDup (members q) → idle_ok i ts q →
  ∃ ts' q' gone, switch ts q remaining now = Done (ts', q') ∧ switched k i ts q ts' q' gone.
Proof.
  intros Hq Hg Hn Hi. pose proof Hg as (th & Hth & _). unfold switch. rewrite Hth. cbn [deref mbind outcome_bind].
  destruct (requeue_spec k i ts q th remaining Hq Hg Hn Hi Hth) as (q1 & Hq1 & Hok1 & Hp1 & Hc1 & Hi1).
  set (ts1 := <[current q := charge th remaining]> ts) in *. rewrite Hq1. cbn [mbind outcome_bind].
  destruct (tidy_spec k i ts1 q1 now Hok1) as (ts2 & q2 & ts3 & q3 & gone & Hrun2 & Hrun3 & []); [by rewrite Hp1|done|].
  rewrite Hrun2. cbn [mbind outcome_bind]. rewrite Hrun3. cbn [mbind outcome_bind].
  assert (Hcur : current q ∈ placed q3).
  { assert (Hin : current q ∈ gone ++ placed q3) by (rewrite <-td_perm0, Hp1; left).
    apply elem_of_app in Hin as [Hin|]; [|done]. apply td_gone0 in Hin as (Hx & _). congruence. }
  destruct (queue_present _ _ _ _ td_ok0 Hcur) as [th3 Hth3].
  destruct (take_next k i ts3 q3 td_ok0 td_idle0) as (p & nxt & l & Hp & Hl & Hset & Hperm & Hfin).
  assert (Hnxt : nxt ∈ placed q3) by (rewrite Hperm; left).
  set (ts4 := <[current q := put_ran th3 now]> ts3). assert (Hs4 : same_ran ts3 ts4) by (by apply same_ran_insert).
  destruct (same_ran_present _ _ nxt Hs4) as [thn Hthn]; [by eapply queue_present|].
  set (ts5 := <[nxt := put_ran thn now]> ts4).
  assert (Hs5 : same_ran ts3 ts5) by (etrans; [exact Hs4|by apply same_ran_insert]).
  rewrite Hp. cbn [mbind outcome_bind]. rewrite Hth3. cbn [deref mbind outcome_bind]. fold ts4.
  rewrite Hl. cbn [mbind outcome_bind head deref tail]. rewrite Hset. cbn [mbind outcome_bind].
  rewrite Hthn. cbn [deref mbind outcome_bind]. fold ts5.
  eexists _, _, gone. split; [done|]. destruct (Hfin ts5 Hs5) as (Hok & Hgood & Hidle & Hurg).
  split; [done..| | | |done| |].
  - by rewrite <-Hperm, <-td_perm0, Hp1.
  - intros t (Hne & tt & Htt & ?)%td_gone0. rewrite Hc1 in Hne. split; [done|]. exists tt.
    unfold ts1 in Htt. by rewrite lookup_insert_ne in Htt.
  - intros t Ht. rewrite <-Hp1 in Ht. assert (Ht3 : t ∉ placed q3) by (intros ?; apply Ht; rewrite td_perm0; apply elem_of_app; by right).
    unfold ts5, ts4. rewrite !lookup_insert_ne, td_out0 by (done || intros <-; done).
    apply lookup_insert_ne. intros <-. apply Ht3, Hcur.
  - cbn. intros t (tt & Htt & Hset')%td_settled0. destruct (same_ran_get _ _ _ _ Hs5 Htt) as (tt' & ? & _ & ? & _).
    exists tt'. split; [done|]. rewrite <-Hc1. by eapply settled_state.
  - assert (Hnone : ∀ t, t ∈ gone → t ∉ @nil Z) by (by intros ? _ ?%not_elem_of_nil).
    rewrite <-(app_nil_r gone). apply (dropped_app _ _ _ ts3 _ Hnone).
    + apply (dropped_app [] gone _ ts1); [by intros ? ?%not_elem_of_nil| |done].
      apply (dropped_insert _ _ th); [done|]. unfold core, has_state, charge. repeat case_match; done.
    + apply (dropped_app [] [] _ ts4); [by intros ? ?%not_elem_of_nil|by apply (dropped_insert _ _ th3)|by apply (dropped_insert _ _ thn)].
Qed.

(** ** The scheduler as a transition system *)

(** What a call of [schedule] on CPU [k] does: the threads [gone] were exited ones and are dropped, and
    the thread that runs is as urgent as any that could. *)
Record scheduled (s : scheduler) (k : nat) (s' : scheduler) (gone : list Z) : Prop := {
  sd_len : length (m_run_queues s') = length (m_run_queues s);
  sd_perm : all_members (m_run_queues s) ≡ₚ gone ++ all_members (m_run_queues s');
  sd_gone : ∀ t, t ∈ gone → ∃ th, tcbs s !! t = Some th ∧ has_state th st_exited = true;
  sd_next : ∃ q q' th, m_run_queues s !! k = Some q ∧ m_run_queues s' !! k = Some q' ∧
    tcbs s' !! current q' = Some th ∧
    (∀ p l, Z.of_nat p < priority th → ready q' !! p = Some l → l = []) ∧
    (∀ t, t ∈ blocked q' → ∃ tt, tcbs s' !! t = Some tt ∧ settled (current q) t tt);
  sd_core : dropped gone (tcbs s) (tcbs s');
}.

Definition sinv (idle : nat → Z) (s : scheduler) : Prop := inv idle (tcbs s) (m_run_queues s).

(** One queue is replaced by what [switch] makes of it. *)
Lemma switch_inv idle ts qs k q r ts' q' gone :
  inv idle ts qs → qs !! k = Some q → members r = members q →
  switched (Z.of_nat k) (idle k) ts r ts' q' gone → inv idle ts' (<[k := q']> qs).
Proof.
  intros [Hn Hq Hc Hi] Hk Hr []. destruct (all_members_at qs k q Hk) as (rest & H1 & H2).
  pose proof (lookup_lt_Some _ _ _ Hk) as Hlt.
  assert (Hkeep : ∀ j x t, qs !! j = Some x → j ≠ k → t ∈ members x → ts' !! t = ts !! t).
  { intros j x t Hj Hne Ht. apply sw_out0. rewrite Hr. by eapply members_disjoint. }
  split.
  - rewrite H2. rewrite H1, <-Hr, sw_perm0, <-app_assoc in Hn. by apply NoDup_app in Hn as (_ & _ & ?).
  - intros j x [(<- & <- & _)|[Hne Hj]]%list_lookup_insert_Some; [done|].
    eapply queue_ok_mono; [|by apply Hq]. intros t Ht. eapply Hkeep; [done..|by right].
  - intros j x [(<- & <- & _)|[Hne Hj]]%list_lookup_insert_Some; [done|].
    eapply good_mono; [|by apply Hc]. eapply Hkeep; [done..|left].
  - intros j x [(<- & <- & _)|[Hne Hj]]%list_lookup_insert_Some; [done|].
    destruct (Hi j x Hj) as [(th & Hth & Hidle) Hin]. split; [|done]. exists th. split; [|done].
    rewrite <-Hth. eapply Hkeep; [done..|]. destruct Hin as [<-|(l & Hl & Hil)]; [left|right; eauto].
Qed.

Lemma schedule_spec idle s k remaining now :
  sinv idle s → (k < length (m_run_queues s))%nat →
  ∃ s' gone, schedule s (Z.of_nat k) remaining now = Done s' ∧ sinv idle s' ∧ scheduled s k s' gone.
Proof.
  intros Hinv Hk. destruct (lookup_lt_is_Some_2 _ _ Hk) as [q0 Hq0]. unfold schedule.
  rewrite (proj2 (arr_get_Done (m_run_queues s) (Z.of_nat k) q0)) by (split; [lia|by rewrite Nat2Z.id]).
  cbn [mbind outcome_bind]. set (turn := _ && _).
  assert (H1 : ∃ ts qs, (if turn then steal_work (tcbs s) (m_run_queues s) (Z.of_nat k) else
    Done (tcbs s, m_run_queues s)) = Done (ts, qs) ∧ inv idle ts qs ∧ stole (tcbs s) (m_run_queues s) ts qs).
  { destruct turn.
    - apply steal_loop_spec; [done..|]. intros j. rewrite elem_of_seqZ. lia.
    - eexists _, _. split_and!; [done..|]. split; [done|done|eauto|done]. }
  destruct H1 as (ts & qs & -> & Hinv1 & [Hlen Hperm Hcur Hsame]). cbn [mbind outcome_bind].
  destruct (lookup_lt_is_Some_2 qs k) as [q Hq]; [lia|].
  rewrite (proj2 (arr_get_Done qs (Z.of_nat k) q)) by (split; [lia|by rewrite Nat2Z.id]). cbn [mbind outcome_bind].
  set (r := if turn then _ else q). assert (Hr : members r = members q ∧ ready r = ready q ∧ blocked r = blocked q ∧ current r = current q)
    by (unfold r; by destruct turn). destruct Hr as (Hr & Hrr & Hrb & Hrc).
  pose proof Hinv1 as [Hn1 Hok1 Hc1 Hi1].
  destruct (switch_spec (Z.of_nat k) (idle k) ts r remaining now) as (ts' & q' & gone & -> & Hsw).
  { destruct (Hok1 k q Hq). split; by rewrite ?Hrr, ?Hrb. }
  { rewrite Hrc. by apply Hc1. }
  { rewrite Hr. by eapply members_nodup. }
  { unfold idle_ok. rewrite Hrc, Hrr. by apply Hi1. }
  cbn [mbind outcome_bind]. rewrite arr_set_Done by lia. cbn [mbind outcome_bind]. rewrite Nat2Z.id.
  eexists _, gone. split; [done|]. split; [by eapply switch_inv|].
  destruct (all_members_at qs k q Hq) as (rest & H1 & H2). destruct Hsw. split; cbn [m_run_queues tcbs].
  - by rewrite length_insert.
  - rewrite <-Hperm, H1, H2, <-Hr, sw_perm0. by rewrite app_assoc.
  - intros t (_ & th & Hth & Hx)%sw_gone0. symmetry in Hsame.
    destruct (same_threads_get _ _ _ _ Hsame Hth) as (th0 & ? & (_ & He & _)%put_cpu_fields). exists th0.
    split; [done|]. unfold has_state in *. by rewrite He.
  - destruct sw_urgent0 as (th & Hth & Hurg). destruct (Hcur k q Hq) as (q0' & Hq0' & Hqc).
    rewrite Hq0 in Hq0'. injection Hq0' as <-. exists q0, q', th. split_and!; [done| |done..|].
    + rewrite list_lookup_insert_eq by lia. done.
    + rewrite Hrc, Hqc in sw_settled0. done.
  - apply (dropped_app [] gone _ ts); [by intros ? ?%not_elem_of_nil| |done]. intros t.
    case_decide as Hx; [by apply not_elem_of_nil in Hx|]. specialize (Hsame t).
    destruct (ts !! t) as [th|], (tcbs s !! t) as [th0|]; try done. cbn in *. injection Hsame as E1 E2 E3 E4 E5 E6.
    unfold core, has_state. by rewrite E4, E6.
Qed.

Lemma add_thread_spec idle s t th :
  sinv idle s → tcbs s !! t = Some th → t ∉ all_members (m_run_queues s) → any_thread th →
  m_run_queues s ≠ [] →
  ∃ s', add_thread s t = Done s' ∧ sinv idle s' ∧
    all_members (m_run_queues s') ≡ₚ t :: all_members (m_run_queues s) ∧
    length (m_run_queues s') = length (m_run_queues s).
Proof.
  intros [Hn Hq Hc Hi] Hth Hout Hany Hne. unfold add_thread.
  set (n := Z.of_nat (length (m_run_queues s))).
  assert (Hpos : 0 < n) by (unfold n; destruct (m_run_queues s); [done|cbn; lia]).
  destruct (Z.eqb_spec n 0); [lia|]. pose proof (Z.mod_pos_bound (m_add_index s) n Hpos) as Hk.
  set (kz := m_add_index s mod n) in *. destruct (lookup_lt_is_Some_2 (m_run_queues s) (Z.to_nat kz)) as [q Hqk]; [lia|].
  rewrite (proj2 (arr_get_Done (m_run_queues s) kz q)) by (split; [lia|done]). cbn [mbind outcome_bind].
  rewrite Hth. cbn [deref mbind outcome_bind]. rewrite arr_set_Done by lia. cbn [mbind outcome_bind].
  set (th' := put_time _ _). set (q' := put_blocked _ _). eexists. split; [done|].
  destruct (all_members_at _ _ q Hqk) as (rest & H1 & H2).
  assert (Hall : all_members (<[Z.to_nat kz := q']> (m_run_queues s)) ≡ₚ t :: all_members (m_run_queues s)).
  { rewrite H1, H2. unfold q', members, placed. cbn. rewrite (app_assoc (mjoin _) (blocked q) [t]).
    rewrite <-(Permutation_cons_append (_ ++ blocked q) t). cbn. apply Permutation_swap. }
  assert (Hkeep : ∀ j x y, m_run_queues s !! j = Some x → y ∈ members x → <[t := th']> (tcbs s) !! y = tcbs s !! y).
  { intros j x y Hj Hy. apply lookup_insert_ne. intros <-. apply Hout. eapply elem_join; [|exact Hy].
    by rewrite list_lookup_fmap, Hj. }
  split_and!; [|done|cbn; by rewrite length_insert]. split; cbn.
  - rewrite Hall. by constructor.
  - intros j x [(<- & <- & _)|[_ Hj]]%list_lookup_insert_Some.
    + destruct (queue_ok_mono (Z.of_nat (Z.to_nat kz)) (tcbs s) (<[t := th']> (tcbs s)) q) as [? ? ?]; [|by apply Hq|].
      { intros y Hy. eapply Hkeep; [done|by right]. }
      split; [done..|]. unfold q'. cbn. intros y [Hy| ->%list_elem_of_singleton]%elem_of_app; [auto|].
      exists th'. rewrite lookup_insert_eq. split_and!; [done..|]. cbn. lia.
    + eapply queue_ok_mono; [|by apply Hq]. intros y Hy. eapply Hkeep; [done|by right].
  - intros j x [(<- & <- & _)|[_ Hj]]%list_lookup_insert_Some; cbn; (eapply good_mono; [eapply Hkeep; [done|left]|]); by apply Hc.
  - intros j x Hx. assert (Hx' : ∃ y, m_run_queues s !! j = Some y ∧ current x = current y ∧ ready x = ready y).
    { apply list_lookup_insert_Some in Hx as [(<- & <- & _)|[_ Hj]]; eauto. }
    destruct Hx' as (y & Hy & Hcy & Hry). destruct (Hi j y Hy) as [(ti & Hti & Hidle) Hin].
    unfold idle_ok. rewrite Hcy, Hry. split; [|done]. exists ti. split; [|done]. rewrite <-Hti.
    eapply Hkeep; [done|]. destruct Hin as [<-|(l & Hl & Hil)]; [left|right; eauto].
Qed.

(** What other code does to a thread: the state changes of [thread::wake], [block], [exit] and
    [set_wake_timeout]. *)
Inductive thread_op := Wake | Block | Exit | SetTimeout (time : Z).
Definition apply_op (o : thread_op) (th : thread) : thread :=
  match o with
  | Wake => if has_state th st_ready then th else wake_only th
  | Block => clear_state th st_ready
  | Exit => clear_state (set_state (set_wake_timeout th 0) st_exited) st_ready
  | SetTimeout time => set_wake_timeout th time
  end.

(** The steps: a CPU schedules, a thread is created, or a thread other than the idle ones changes state. *)
Inductive sched_step (idle : nat → Z) (s : scheduler) : scheduler → Prop :=
  | Step_schedule k remaining now s' :
      (k < length (m_run_queues s))%nat → schedule s (Z.of_nat k) remaining now = Done s' → sched_step idle s s'
  | Step_create t th s' :
      tcbs s !! t = None → any_thread th →
      add_thread (Scheduler (<[t := th]> (tcbs s)) (m_run_queues s) (m_add_index s) (m_steal_turn s)) t = Done s' →
      sched_step idle s s'
  | Step_thread t th o :
      tcbs s !! t = Some th → (∀ k, (k < length (m_run_queues s))%nat → idle k ≠ t) →
      sched_step idle s (Scheduler (<[t := apply_op o th]> (tcbs s)) (m_run_queues s) (m_add_index s) (m_steal_turn s)).

(** After [start] on [n] CPUs, each runs its idle thread. *)
Definition idle_thread (k : nat) : thread :=
  Thread idle_priority 0 0 (Z.of_nat k) (Z.lor st_constant st_ready) 0 1.
Definition started (idle : nat → Z) (n : nat) : scheduler :=
  Scheduler (list_to_map ((λ k, (idle k, idle_thread k)) <$> seq 0 n))
    ((λ k, RunQueue (idle k) (replicate 8 []) [] 0 0) <$> seq 0 n) 0 0.
Definition reachable (idle : nat → Z) (n : nat) (s : scheduler) : Prop := rtc (sched_step idle) (started idle n) s.

Lemma apply_op_keeps o th : priority (apply_op o th) = priority th ∧ cpu (apply_op o th) = cpu th.
Proof. destruct o; cbn; [by case_match|done..]. Qed.

Lemma started_inv idle n : (∀ i j, (i < n)%nat → (j < n)%nat → idle i = idle j → i = j) → sinv idle (started idle n).
Proof.
  intros Hinj. assert (Hq : ∀ k q, m_run_queues (started idle n) !! k = Some q →
    (k < n)%nat ∧ q = RunQueue (idle k) (replicate 8 []) [] 0 0).
  { intros k q. cbn [started m_run_queues]. rewrite list_lookup_fmap_Some. intros (j & -> & Hj).
    apply lookup_seq in Hj as [-> Hj]. done. }
  assert (Hnil : ∀ t, t ∉ mjoin (replicate 8 ([] : list Z))) by (intros t; cbn; apply not_elem_of_nil).
  assert (Hall : all_members (m_run_queues (started idle n)) = idle <$> seq 0 n).
  { unfold all_members. cbn [started m_run_queues]. rewrite <-list_fmap_compose.
    clear. induction (seq 0 n) as [|k l IH]; [done|]. cbn. f_equal. exact IH. }
  assert (Hts : ∀ k, (k < n)%nat → tcbs (started idle n) !! idle k = Some (idle_thread k)).
  { intros k Hk. cbn [started tcbs]. apply elem_of_list_to_map_1'.
    - intros y (j & [= He ->] & Hj)%list_elem_of_fmap. apply elem_of_seq in Hj. f_equal. apply Hinj; [lia..|done].
    - apply list_elem_of_fmap. exists k. split; [done|]. apply elem_of_seq. lia. }
  split.
  - rewrite Hall. apply NoDup_fmap_2_strong; [|apply NoDup_seq]. intros x y Hx%elem_of_seq Hy%elem_of_seq.
    apply Hinj; lia.
  - intros k q [Hk ->]%Hq. split; cbn [ready blocked]; [done|..].
    + intros p l t Hl Ht. exfalso. by eapply Hnil, elem_join.
    + by intros t ?%not_elem_of_nil.
  - intros k q [Hk ->]%Hq. exists (idle_thread k). cbn [current]. rewrite Hts by done. split_and!; done.
  - intros k q [Hk ->]%Hq. split; [|by left]. exists (idle_thread k). rewrite Hts by done. done.
Qed.

Lemma step_inv idle s s' :
  sinv idle s → sched_step idle s s' → sinv idle s' ∧ length (m_run_queues s') = length (m_run_queues s).
Proof.
  intros Hinv Hstep. destruct Hstep as [k r now s' Hk Hs|t th s' Ht Hany Hs|t th o Ht Hid].
  - destruct (schedule_spec idle s k r now Hinv Hk) as (s2 & g & Hs2 & ? & []). split; congruence.
  - assert (Hout : t ∉ all_members (m_run_queues s)).
    { intros Hin. apply list_elem_of_join in Hin as (l & Htl & (q & -> & (k & Hk)%list_elem_of_lookup)%list_elem_of_fmap).
      destruct Hinv as [_ Hq Hc _]. assert (is_Some (tcbs s !! t)) as [x Hx]; [|congruence].
      apply elem_of_cons in Htl as [->|Htl]; [|by eapply queue_present; eauto].
      destruct (Hc k q Hk) as (x & ? & _). eauto. }
    assert (Hne : m_run_queues s ≠ []).
    { intros He. unfold add_thread in Hs. cbn in Hs. rewrite He in Hs. done. }
    destruct (add_thread_spec idle (Scheduler (<[t := th]> (tcbs s)) (m_run_queues s) (m_add_index s) (m_steal_turn s)) t th)
      as (s2 & Hs2 & ? & _ & ?); [|apply lookup_insert_eq|done..|rewrite Hs in Hs2; by injection Hs2 as <-].
    assert (Hkeep : ∀ y, is_Some (tcbs s !! y) → <[t := th]> (tcbs s) !! y = tcbs s !! y).
    { intros y [x Hx]. apply lookup_insert_ne. intros <-. congruence. }
    destruct Hinv as [Hn Hq Hc Hi]. split; cbn; [done|..].
    + intros k q Hk. eapply queue_ok_mono; [|by apply Hq]. intros y Hy. apply Hkeep. by eapply queue_present; eauto.
    + intros k q Hk. destruct (Hc k q Hk) as (x & Hx & ?). exists x. by rewrite Hkeep by eauto.
    + intros k q Hk. destruct (Hi k q Hk) as [(x & Hx & ?) ?]. split; [|done]. exists x. by rewrite Hkeep by eauto.
  - split; [|done]. destruct (apply_op_keeps o th) as [Hp Hcpu]. destruct Hinv as [Hn Hq Hc Hi]. split; cbn; [done|..].
    + intros k q Hk. eapply queue_ok_insert; [done..|by apply Hq].
    + intros k q Hk. eapply good_insert; [done..| |by apply Hc]. unfold any_thread. by rewrite Hp.
    + intros k q Hk. destruct (Hi k q Hk) as [(x & Hx & ?) ?]. split; [|done]. exists x.
      rewrite lookup_insert_ne; [done|]. intros E. by eapply Hid; [eapply lookup_lt_Some|].
Qed.

Lemma sched_reachable_inv idle n s :
  (∀ i j, (i < n)%nat → (j < n)%nat → idle i = idle j → i = j) → reachable idle n s →
  sinv idle s ∧ length (m_run_queues s) = n.
Proof.
  intros Hinj Hr. revert s Hr. unfold reachable. apply rtc_ind_r.
  - split; [by apply started_inv|]. cbn. by rewrite length_fmap, length_seq.
  - intros s1 s2 Hr Hs [IH Hl]. destruct (step_inv idle s1 s2 IH Hs) as [? ?]. split; [done|congruence].
Qed.

(** ** Theorems *)

(** C2: in every state the scheduler can reach from its start, by CPUs scheduling in any order, threads
    being created and threads waking, blocking, sleeping and exiting at any time, a call of [schedule]
    on a CPU returns: the lists are never all empty, and no dead thread is touched.  No thread is lost
    but exited ones that are not running, none is queued twice, the thread that runs next has a
    priority no other thread waiting on that CPU beats, and no thread that could run stays among the
    blocked ones. *)
Theorem schedule_correct (idle : nat → Z) (n k : nat) (s : scheduler) (remaining now : Z) :
  (∀ i j, (i < n)%nat → (j < n)%nat → idle i = idle j → i = j) → reachable idle n s → (k < n)%nat →
  ∃ s' gone, schedule s (Z.of_nat k) remaining now = Done s' ∧ scheduled s k s' gone ∧
    NoDup (all_members (m_run_queues s')).
Proof.
  intros Hinj Hr Hk. destruct (sched_reachable_inv idle n s Hinj Hr) as [Hinv Hl].
  destruct (schedule_spec idle s k remaining now Hinv) as (s' & gone & Hs & [] & Hd); [lia|].
  exists s', gone. done.
Qed.

(** in every state the scheduler can reach, every thread that runs or waits on a CPU is alive, is in
    one place, waits in the list of its priority and records that CPU as its own, so that the
    interrupt a wake-up sends goes to the CPU whose queue holds the thread. *)
Theorem threads_know_their_queue (idle : nat → Z) (n k : nat) (s : scheduler) (q : run_queue) (t : Z) :
  (∀ i j, (i < n)%nat → (j < n)%nat → idle i = idle j → i = j) → reachable idle n s →
  m_run_queues s !! k = Some q → t ∈ members q →
  ∃ th, tcbs s !! t = Some th ∧ cpu th = Z.of_nat k ∧
    (∀ p l, ready q !! p = Some l → t ∈ l → priority th = Z.of_nat p) ∧
    (∀ j r, m_run_queues s !! j = Some r → t ∈ members r → j = k).
Proof.
  intros Hinj Hr Hk Ht. destruct (sched_reachable_inv idle n s Hinj Hr) as [[Hn Hq Hc _] _].
  assert (Hg : ∃ th, tcbs s !! t = Some th ∧ cpu th = Z.of_nat k).
  { apply elem_of_cons in Ht as [->|Ht].
    - destruct (Hc k q Hk) as (th & ? & _ & ?). eauto.
    - destruct (Hq k q Hk) as [_ Hr' Hb]. apply elem_of_app in Ht as [Ht|Ht].
      + apply list_elem_of_join in Ht as (l & Ht & (p & Hp)%list_elem_of_lookup).
        destruct (Hr' p l t Hp Ht) as (th & ? & _ & ?). eauto.
      + destruct (Hb t Ht) as (th & ? & _ & ?). eauto. }
  destruct Hg as (th & Hth & Hcpu). exists th. split_and!; [done..| |].
  - intros p l Hp Htl. destruct (qo_ready _ _ _ (Hq k q Hk) p l t Hp Htl) as (th' & Hth' & Hpr & _).
    rewrite Hth in Hth'. injection Hth' as <-. exact Hpr.
  - intros j r Hj Htr. destruct (decide (j = k)); [done|]. exfalso. by eapply (members_disjoint _ j k r q).
Qed.

(** ** Witnesses *)

(** Two CPUs; a thread of priority 1 is created, and the first CPU schedules it. *)
Definition demo_idle (k : nat) : Z := 100 + Z.of_nat k.
Definition demo_thread : thread := Thread 1 0 0 0 st_ready 0 1.
Definition demo_added : outcome scheduler :=
  add_thread (Scheduler (<[7 := demo_thread]> (tcbs (started demo_idle 2))) (m_run_queues (started demo_idle 2)) 0 0) 7.
Definition result (o : outcome scheduler) : scheduler := match o with Done s => s | _ => started demo_idle 2 end.
Definition demo1 : scheduler := result demo_added.
Definition demo : scheduler := result (schedule demo1 0 0 50).

Lemma demo_idle_inj i j : (i < 2)%nat → (j < 2)%nat → demo_idle i = demo_idle j → i = j.
Proof. unfold demo_idle. lia. Qed.
Lemma demo_reachable : reachable demo_idle 2 demo.
Proof.
  eapply rtc_l; [|eapply rtc_l; [|apply rtc_refl]].
  - apply (Step_create _ _ 7 demo_thread demo1); [vm_compute; reflexivity|by vm_compute|vm_compute; reflexivity].
  - apply (Step_schedule _ _ 0 0 50); [vm_compute; lia|vm_compute; reflexivity].
Qed.

Lemma schedule_correct_witness :
  ∃ s' gone, schedule demo 0 0 2000 = Done s' ∧ scheduled demo 0 s' gone ∧ NoDup (all_members (m_run_queues s')).
Proof. apply (schedule_correct demo_idle 2 0 demo 0 2000 demo_idle_inj demo_reachable). lia. Defined.

Lemma threads_know_their_queue_witness :
  ∃ q th, m_run_queues demo !! 0%nat = Some q ∧ current q = 7 ∧ tcbs demo !! 7 = Some th ∧ cpu th = 0.
Proof.
  assert (H : ∃ q, m_run_queues demo !! 0%nat = Some q ∧ current q = 7) by (eexists; split; vm_compute; reflexivity).
  destruct H as (q & Hq & Hc).
  destruct (threads_know_their_queue demo_idle 2 0 demo q 7 demo_idle_inj demo_reachable Hq) as (th & Hth & Hk & _).
  { unfold members. rewrite Hc. left. }
  exists q, th. exact (conj Hq (conj Hc (conj Hth Hk))).
Defined.
