(* ===== verification/WaitQueue.v ===== *)
(** * Blocking and waking

    Models src/kernel/wait_queue.cpp, the blocking of src/kernel/objects/thread.cpp ([block], [wake],
    [join], [exit]), objects/event.cpp and the futexes of syscalls/futex.cpp.  The threads are those
    of Scheduler.v; a wait queue is the list of the threads its deque holds (Deque.v).  An operation
    that blocks is split where the thread stops running: the part before it returns that the thread
    blocked.

    The theorems show that a queue gives out its waiting threads in the order they came, each once,
    and that an event wakes a thread that waits for it.  Run step by step against a signal on another
    CPU, waiting can miss its wake-up for good, which is shown by such a run. *)
From S2P Require Import Prelude Scheduler.

(** ** Threads *)

Record world := World {
  ths : threads;
  wake_values : gmap Z Z;
}.

Definition handle_retain (w : world) (t : Z) : outcome world :=
  let* th := deref (ths w !! t) in
  Done (World (<[t := put_handles th (u16 (m_handle_count th + 1))]> (ths w)) (wake_values w)).
Definition handle_release (w : world) (t : Z) : outcome world :=
  let* th := deref (ths w !! t) in
  let th := put_handles th (u16 (m_handle_count th - 1)) in
  Done (World (if m_handle_count th =? 0 then delete t (ths w) else <[t := th]> (ths w)) (wake_values w)).

(** [wake], without the interrupt that [maybe_schedule] may send. *)
Definition wake (w : world) (t value : Z) : outcome world :=
  let* th := deref (ths w !! t) in
  if has_state th st_ready then Done w
  else Done (World (<[t := wake_only th]> (ths w)) (<[t := value]> (wake_values w))).

(** [block] of the running thread, up to the call of [schedule]. *)
Definition block (w : world) (t : Z) : outcome world :=
  let* th := deref (ths w !! t) in
  Done (World (<[t := clear_state th st_ready]> (ths w)) (wake_values w)).

(** ** [wait_queue] *)

Definition wq_add_thread (w : world) (q : list Z) (t : Z) : outcome (world * list Z) :=
  let* _ := kassert (negb (t =? 0)) in
  let* w := handle_retain w t in
  Done (w, q ++ [t]).

(** [wait]: the lock is released after the thread stopped being ready. *)
Definition wq_wait (w : world) (q : list Z) (cur : Z) : outcome (world * list Z) :=
  let* w := handle_retain w cur in
  let* w := block w cur in
  Done (w, q ++ [cur]).

Fixpoint pop_exited (w : world) (q : list Z) : outcome (world * list Z) :=
  match q with
  | [] => Done (w, [])
  | t :: q' =>
      let* th := deref (ths w !! t) in
      if negb (has_state th st_exited) && negb (has_state th st_ready) then Done (w, q)
      else
        let* w := handle_release w t in
        pop_exited w q'
  end.

Definition pop_next (w : world) (q : list Z) : outcome (world * list Z * option Z) :=
  let* (w, q) := pop_exited w q in
  match q with
  | [] => Done (w, [], None)
  | t :: q =>
      let* _ := kassert (negb (t =? 0)) in
      let* w := handle_release w t in
      Done (w, q, Some t)
  end.

Fixpoint clear_loop (fuel : nat) (w : world) (q : list Z) (value : Z) : outcome (world * list Z) :=
  match fuel with
  | O => Diverge
  | S fuel =>
      let* (w, q, t) := pop_next w q in
      match t with
      | None => Done (w, q)
      | Some t =>
          let* w := wake w t value in
          clear_loop fuel w q value
      end
  end.
Definition clear (w : world) (q : list Z) (value : Z) : outcome (world * list Z) :=
  clear_loop (S (length q)) w q value.

(** ** [join] and [exit]; [q] is the thread's [m_join_queue] *)

(** [join] on [self] by [cur]: its status, or [None] when the caller blocks. *)
Definition j6_status_ok : Z := 0.
Definition j6_err_invalid_arg : Z := 0x8000000000000003.
Definition join (w : world) (self : Z) (q : list Z) (cur : Z) : outcome (world * list Z * option Z) :=
  let* th := deref (ths w !! self) in
  if has_state th st_exited then Done (w, q, Some j6_status_ok)
  else if cur =? self then Done (w, q, Some j6_err_invalid_arg)
  else
    let* (w, q) := wq_add_thread w q cur in
    let* w := block w cur in
    Done (w, q, None).

(** [exit], without the process's part. *)
Definition exit (w : world) (self : Z) (q : list Z) : outcome (world * list Z) :=
  let* th := deref (ths w !! self) in
  let w := World (<[self := set_state (set_wake_timeout th 0) st_exited]> (ths w)) (wake_values w) in
  let* (w, q) := clear w q 0 in
  let* w := block w self in
  Done (w, q).

(** ** Events *)

Record event := Event { m_signals : Z; m_queue : list Z }.

Definition read (e : event) : event * Z := (Event 0 (m_queue e), m_signals e).
Definition wake_observer (w : world) (e : event) : outcome (world * event) :=
  let* (w, q, t) := pop_next w (m_queue e) in
  let* w := match t with Some t => wake w t 0 | None => Done w end in
  Done (w, Event (m_signals e) q).
Definition signal (w : world) (e : event) (s : Z) : outcome (world * event) :=
  let e := Event (Z.lor (m_signals e) s) (m_queue e) in
  if m_signals e =? 0 then Done (w, e) else wake_observer w e.

(** [wait]: the pending signals, or the thread blocks; when it runs again it returns [read]. *)
Definition event_wait (w : world) (e : event) (cur : Z) : outcome (world * event * option Z) :=
  let (e, value) := read e in
  if negb (value =? 0) then Done (w, e, Some value)
  else
    let* (w, q) := wq_add_thread w (m_queue e) cur in
    let* w := block w cur in
    Done (w, Event (m_signals e) q, None).

(** ** Futexes *)

(** The map from a physical address to its waiting threads (NodeMap.v). *)
Abbreviation futexes := (gmap Z (list Z)).
Definition j6_status_futex_changed : Z := 0x1004.

(** [futex_wait] by [cur]: [v] is the word read, [phys] what [find_physical] gave; the thread blocks
    unless the word changed. *)
Definition futex_wait (w : world) (fs : futexes) (cur v expected phys timeout now : Z)
    : outcome (world * futexes * option Z) :=
  if negb (v =? expected) then Done (w, fs, Some j6_status_futex_changed)
  else
    let q := default [] (fs !! phys) in
    let* w :=
      if timeout =? 0 then Done w
      else
        let* th := deref (ths w !! cur) in
        Done (World (<[cur := set_wake_timeout th (u64 (timeout + now))]> (ths w)) (wake_values w)) in
    let* (w, q) := wq_wait w q cur in
    Done (w, <[phys := q]> fs, None).

Fixpoint wake_some (n : nat) (w : world) (q : list Z) : outcome (world * list Z) :=
  match n with
  | O => Done (w, q)
  | S n =>
      let* (w, q, t) := pop_next w q in
      match t with
      | None => Done (w, q)
      | Some t => let* w := wake w t 0 in wake_some n w q
      end
  end.
(** [futex_wake]; no more than the queue's length of the [count] iterations run. *)
Definition futex_wake (w : world) (fs : futexes) (phys count : Z) : outcome (world * futexes) :=
  match fs !! phys with
  | None => Done (w, fs)
  | Some q =>
      let* (w, q) := if count =? 0 then clear w q 0 else wake_some (Nat.min (Z.to_nat count) (S (length q))) w q in
      Done (w, match q with [] => delete phys fs | _ => <[phys := q]> fs end)
  end.

(** ** The waiting threads of a queue *)

Definition waits (th : thread) : bool := negb (has_state th st_exited) && negb (has_state th st_ready).
Definition is_waiting (w : world) (t : Z) : bool := match ths w !! t with Some th => waits th | None => false end.
Definition waiters (w : world) (q : list Z) : list Z := filter (λ t, is_waiting w t = true) q.

(** How often a queue holds a thread. *)
Definition held_by (q : list Z) (t : Z) : nat := length (filter (λ x, x = t) q).
(** The queue's handles are counted, and others keep its threads alive. *)
Definition held (w : world) (q : list Z) : Prop :=
  ∀ t, t ∈ q → t ≠ 0 ∧ ∃ th, ths w !! t = Some th ∧ Z.of_nat (held_by q t) < m_handle_count th < 2 ^ 16.

(** Worlds whose threads differ in their handle counts. *)
Definition same_states (w w' : world) : Prop :=
  wake_values w' = wake_values w ∧
  ∀ t, (λ th, put_handles th 0) <$> ths w' !! t = (λ th, put_handles th 0) <$> ths w !! t.
#[global] Instance same_states_equiv : Equivalence same_states.
Proof.
  split.
  - by split.
  - intros w w' [Hv Hs]. split; [done|]. intros t. by rewrite Hs.
  - intros w1 w2 w3 [Hv Hs] [Hv' Hs']. split; [congruence|]. intros t. by rewrite Hs', Hs.
Qed.

Lemma same_states_get w w' t th :
  same_states w w' → ths w !! t = Some th →
  ∃ th', ths w' !! t = Some th' ∧ put_handles th' 0 = put_handles th 0.
Proof.
  intros [_ Hs] Ht. specialize (Hs t). rewrite Ht in Hs. apply fmap_Some in Hs as (th' & ? & ?). eauto.
Qed.
Lemma put_handles_state th th' s : put_handles th' 0 = put_handles th 0 → has_state th' s = has_state th s.
Proof. destruct th, th'. unfold put_handles, has_state. cbn. by intros [=-> -> -> -> -> ->]. Qed.
Lemma same_states_waiting w w' t : same_states w w' → is_waiting w' t = is_waiting w t.
Proof.
  intros [_ Hs]. specialize (Hs t). unfold is_waiting, waits.
  destruct (ths w' !! t) as [a|], (ths w !! t) as [b|]; [|done..].
  apply (inj Some) in Hs. change (put_handles a 0 = put_handles b 0) in Hs. by rewrite !(put_handles_state _ _ _ Hs).
Qed.
Lemma same_states_waiters w w' q : same_states w w' → waiters w' q = waiters w q.
Proof. intros Hs. apply list_filter_iff. intros t. by rewrite (same_states_waiting w w'). Qed.

Lemma held_by_cons q t x : held_by (t :: q) x = ((if decide (t = x) then 1 else 0) + held_by q x)%nat.
Proof. unfold held_by. rewrite filter_cons. by destruct (decide (t = x)). Qed.
Lemma held_by_app q q' x : held_by (q ++ q') x = (held_by q x + held_by q' x)%nat.
Proof. unfold held_by. by rewrite filter_app, length_app. Qed.

Lemma wq_release_spec w t q :
  held w (t :: q) → ∃ w', handle_release w t = Done w' ∧ held w' q ∧ same_states w w'.
Proof.
  intros Hh. destruct (Hh t) as (_ & th & Hth & Hc); [left|]. unfold handle_release. rewrite Hth. cbn [deref mbind outcome_bind].
  rewrite held_by_cons, decide_True in Hc by done. rewrite wrap_small by (unfold is_word; lia). cbn [m_handle_count put_handles].
  destruct (Z.eqb_spec (m_handle_count th - 1) 0); [lia|]. eexists. split; [done|]. split.
  - intros x Hx. destruct (Hh x) as (Hx0 & thx & Hthx & Hcx); [by right|]. split; [done|]. rewrite held_by_cons in Hcx.
    destruct (decide (t = x)) as [->|]; cbn [ths].
    + rewrite Hth in Hthx. injection Hthx as <-. eexists. rewrite lookup_insert_eq. split; [done|]. cbn. lia.
    + exists thx. rewrite lookup_insert_ne by done. done.
  - split; [done|]. intros x. cbn [ths]. destruct (decide (x = t)) as [->|]; [|by rewrite lookup_insert_ne].
    by rewrite lookup_insert_eq, Hth.
Qed.

(** In these lemmas [f] are threads that other queues hold. *)
Lemma pop_exited_spec f w q :
  held w (q ++ f) →
  ∃ w' q', pop_exited w q = Done (w', q') ∧ held w' (q' ++ f) ∧ same_states w w' ∧
    waiters w q' = waiters w q ∧ (length q' ≤ length q)%nat ∧
    match q' with [] => True | t :: _ => is_waiting w t = true end.
Proof.
  revert w. induction q as [|t q IH]; intros w Hh; cbn [pop_exited]; [by exists w, []|].
  destruct (Hh t) as (_ & th & Hth & Hc); [left|]. rewrite Hth. cbn [deref mbind outcome_bind]. fold (waits th).
  assert (Hw : is_waiting w t = waits th) by (unfold is_waiting; by rewrite Hth).
  destruct (waits th) eqn:E.
  - exists w, (t :: q). split_and!; done.
  - destruct (wq_release_spec w t (q ++ f) Hh) as (w1 & -> & Hh1 & Hs1). cbn [mbind outcome_bind].
    destruct (IH w1 Hh1) as (w2 & q2 & -> & Hh2 & Hs2 & Hq2 & Hl2 & Hf2). exists w2, q2.
    rewrite !(same_states_waiters w w1) in Hq2 by done. split_and!; [done..|by etrans| |cbn; lia|].
    + rewrite Hq2. unfold waiters. rewrite filter_cons, decide_False by congruence. done.
    + destruct q2; [done|]. by rewrite <-(same_states_waiting w w1).
Qed.

(** [pop_next] takes the first waiting thread. *)
Lemma pop_next_frame f w q :
  held w (q ++ f) →
  ∃ w' q', pop_next w q = Done (w', q', head (waiters w q)) ∧ held w' (q' ++ f) ∧ same_states w w' ∧
    waiters w q' = tail (waiters w q) ∧
    match head (waiters w q) with
    | Some t => is_waiting w t = true ∧ t ∈ q ∧ (length q' < length q)%nat
    | None => q' = []
    end.
Proof.
  intros Hh. unfold pop_next. destruct (pop_exited_spec f w q Hh) as (w1 & q1 & -> & Hh1 & Hs1 & Hq1 & Hl1 & Hf1).
  cbn [mbind outcome_bind]. rewrite <-Hq1. destruct q1 as [|t q1]; [by exists w1, []|].
  destruct (Hh1 t) as (Ht0 & _); [left|]. rewrite (proj2 (Z.eqb_neq t 0)) by done. cbn [negb kassert mbind outcome_bind].
  destruct (wq_release_spec w1 t (q1 ++ f) Hh1) as (w2 & -> & Hh2 & Hs2). cbn [mbind outcome_bind].
  assert (E : waiters w (t :: q1) = t :: waiters w q1) by (unfold waiters; by rewrite filter_cons, decide_True).
  exists w2, q1. rewrite E. cbn [head tail]. split_and!; [done..|by etrans|done|done| |done].
  assert (Hin : t ∈ waiters w q) by (rewrite <-Hq1, E; left). apply list_elem_of_filter in Hin as [_ ?]. done.
Qed.
Lemma pop_next_spec w q :
  held w q →
  ∃ w' q', pop_next w q = Done (w', q', head (waiters w q)) ∧ held w' q' ∧ same_states w w' ∧
    waiters w q' = tail (waiters w q) ∧ (waiters w q = [] → q' = []).
Proof.
  rewrite <-(app_nil_r q) at 1. intros Hh. destruct (pop_next_frame [] w q Hh) as (w' & q' & ? & Hh' & ? & ? & Hm).
  rewrite app_nil_r in Hh'. exists w', q'. split_and!; [done..|]. intros E. by rewrite E in Hm.
Qed.

(** *** Waking *)

(** The threads [X], which waited, are ready and have the value [v]; no other thread changed. *)
Definition woken (X : list Z) (v : Z) (w w' : world) : Prop :=
  ∀ t,
    (λ th, put_handles th 0) <$> ths w' !! t
      = (λ th, put_handles (if decide (t ∈ X) then wake_only th else th) 0) <$> ths w !! t ∧
    wake_values w' !! t = if decide (t ∈ X) then Some v else wake_values w !! t.

Lemma wake_only_ready th : has_state (wake_only th) st_ready = true.
Proof.
  unfold has_state, wake_only, set_state, set_wake_timeout, st_ready. cbn [m_state].
  apply negb_true_iff, Z.eqb_neq. intros E. apply (f_equal (λ z, Z.testbit z 0)) in E.
  rewrite Z.land_spec, Z.lor_spec in E. change (Z.testbit 0x01 0) with true in E. by rewrite orb_true_r in E.
Qed.

Lemma woken_nil v w w' X : (∀ t, t ∉ X) → same_states w w' → woken X v w w'.
Proof. intros HX [Hv Hs] t. destruct (decide (t ∈ X)); [by destruct (HX t)|]. by rewrite Hs, Hv. Qed.

Lemma woken_waiting X v w w' t :
  woken X v w w' → is_waiting w' t = is_waiting w t && negb (bool_decide (t ∈ X)).
Proof.
  intros Hw. destruct (Hw t) as [Ht _]. unfold is_waiting.
  destruct (ths w' !! t) as [a|], (ths w !! t) as [b|]; [|done..].
  apply (inj Some) in Ht. cbv beta in Ht. unfold waits. rewrite !(put_handles_state _ _ _ Ht).
  destruct (decide (t ∈ X)) as [Hx|Hx].
  - rewrite wake_only_ready, bool_decide_true by done. by rewrite !andb_false_r.
  - by rewrite bool_decide_false, andb_true_r by done.
Qed.

Lemma wake_spec w t v q :
  held w q → is_waiting w t = true →
  ∃ w', wake w t v = Done w' ∧ held w' q ∧ woken [t] v w w'.
Proof.
  intros Hh Ht. unfold is_waiting in Ht. destruct (ths w !! t) as [th|] eqn:Hth; [|done].
  unfold waits in Ht. apply andb_true_iff in Ht as [_ Hr]. apply negb_true_iff in Hr.
  unfold wake. rewrite Hth. cbn [deref mbind outcome_bind]. rewrite Hr. eexists. split; [done|]. split.
  - intros x Hx. destruct (Hh x Hx) as (Hx0 & thx & Hthx & Hc). split; [done|]. cbn [ths].
    destruct (decide (x = t)) as [->|]; [|exists thx; by rewrite lookup_insert_ne].
    rewrite Hth in Hthx. injection Hthx as <-. exists (wake_only th). by rewrite lookup_insert_eq.
  - intros x. cbn [ths wake_values]. destruct (decide (x = t)) as [->|].
    + rewrite !lookup_insert_eq, Hth. by destruct (decide (t ∈ [t])); [|set_solver].
    + rewrite !lookup_insert_ne by done. by destruct (decide (x ∈ [t])); [set_solver|].
Qed.

Lemma woken_cons t X Y v w w1 w2 :
  woken [t] v w w1 → woken X v w1 w2 → t ∉ X → (∀ x, x ∈ Y ↔ x = t ∨ x ∈ X) → woken Y v w w2.
Proof.
  intros H1 H2 HX HY x. destruct (H1 x) as [Ht1 Hv1], (H2 x) as [Ht2 Hv2]. specialize (HY x).
  destruct (decide (x ∈ [t])) as [Hx|Hx]; rewrite list_elem_of_singleton in Hx.
  - subst x. destruct (decide (t ∈ X)); [done|]. destruct (decide (t ∈ Y)); [|tauto]. by rewrite Ht2, Hv2.
  - rewrite Ht2, Hv2, Hv1. destruct (decide (x ∈ X)), (decide (x ∈ Y)); [|tauto..|]; split; try done.
    destruct (ths w1 !! x) as [a|], (ths w !! x) as [b|]; [|done..]. apply (inj Some) in Ht1. cbv beta in Ht1.
    destruct a, b. unfold put_handles in Ht1. cbn in Ht1. by injection Ht1 as -> -> -> -> -> ->.
Qed.
Lemma woken_same_l X v w w1 w2 : same_states w w1 → woken X v w1 w2 → woken X v w w2.
Proof.
  intros [Hv Hs] Hw t. destruct (Hw t) as [Ht Hvt]. rewrite Ht, Hvt, Hv. split; [|done]. specialize (Hs t).
  destruct (ths w1 !! t) as [a|], (ths w !! t) as [b|]; [|done..]. apply (inj Some) in Hs. cbv beta in Hs. cbn.
  destruct a, b. unfold put_handles in Hs. cbn in Hs. injection Hs as -> -> -> -> -> ->. by case_decide.
Qed.

Lemma wake_only_exited th : has_state (wake_only th) st_exited = has_state th st_exited.
Proof.
  unfold has_state, wake_only, set_state, set_wake_timeout. cbn [m_state].
  by rewrite Z.land_lor_distr_l, Z.lor_0_r.
Qed.
Lemma woken_exited X v w w' t th :
  woken X v w w' → ths w !! t = Some th →
  ∃ th', ths w' !! t = Some th' ∧ has_state th' st_exited = has_state th st_exited.
Proof.
  intros Hw Hth. destruct (Hw t) as [Ht _]. rewrite Hth in Ht. apply fmap_Some in Ht as (th' & Hth' & He).
  exists th'. split; [done|]. rewrite <-(put_handles_state _ _ _ He). by case_decide; [rewrite wake_only_exited|].
Qed.

Lemma elem_waiters w q t : t ∈ waiters w q ↔ is_waiting w t = true ∧ t ∈ q.
Proof. unfold waiters. by rewrite list_elem_of_filter. Qed.

(** Taking a waiting thread from a queue and waking it. *)
Lemma pop_wake_frame f w q v t rest :
  held w (q ++ f) → waiters w q = t :: rest →
  ∃ w1 q1 w2, pop_next w q = Done (w1, q1, Some t) ∧ wake w1 t v = Done w2 ∧ held w2 (q1 ++ f) ∧
    woken [t] v w w2 ∧ (length q1 < length q)%nat ∧
    waiters w2 q1 = drop_item t rest.
Proof.
  intros Hh Hw. destruct (pop_next_frame f w q Hh) as (w1 & q1 & Hpop & Hh1 & Hs1 & Hq1 & Hm).
  rewrite Hw in Hpop, Hq1, Hm. cbn [head tail] in *. destruct Hm as (Hwt & Htq & Hlen).
  destruct (wake_spec w1 t v (q1 ++ f) Hh1) as (w2 & Hwake & Hh2 & Hwk); [by rewrite (same_states_waiting w w1)|].
  exists w1, q1, w2. split_and!; [done..|by eapply woken_same_l|done|].
  rewrite <-Hq1. unfold drop_item, waiters. rewrite list_filter_filter. apply list_filter_iff. intros x.
  rewrite (woken_waiting _ _ _ _ _ Hwk), (same_states_waiting w w1) by done.
  rewrite andb_true_iff, negb_true_iff, bool_decide_eq_false, list_elem_of_singleton. tauto.
Qed.

Lemma pop_wake w q v t rest :
  held w q → waiters w q = t :: rest →
  ∃ w1 q1 w2, pop_next w q = Done (w1, q1, Some t) ∧ wake w1 t v = Done w2 ∧ held w2 q1 ∧
    woken [t] v w w2 ∧ (length q1 < length q)%nat ∧ waiters w2 q1 = drop_item t rest.
Proof.
  rewrite <-(app_nil_r q) at 1. intros Hh Hw. destruct (pop_wake_frame [] w q v t rest Hh Hw) as (w1 & q1 & w2 & ? & ? & Hh2 & ?).
  rewrite app_nil_r in Hh2. by exists w1, q1, w2.
Qed.

Lemma wq_clear_spec v fuel : ∀ w q,
  held w q → (length q < fuel)%nat →
  ∃ w', clear_loop fuel w q v = Done (w', []) ∧ woken (waiters w q) v w w'.
Proof.
  induction fuel as [|fuel IH]; intros w q Hh Hf; [lia|]. cbn [clear_loop].
  destruct (waiters w q) as [|t rest] eqn:Hw.
  - destruct (pop_next_spec w q Hh) as (w1 & q1 & Hpop & _ & Hs & _ & Hm). rewrite Hw in Hpop. cbn [head] in *.
    rewrite (Hm Hw) in Hpop. rewrite Hpop. cbn [mbind outcome_bind]. exists w1. split; [done|].
    apply woken_nil; [apply not_elem_of_nil|done].
  - destruct (pop_wake w q v t rest Hh Hw) as (w1 & q1 & w2 & -> & Hwake & Hh2 & Hwk & Hlen & Hq1).
    cbn [mbind outcome_bind]. rewrite Hwake. cbn [mbind outcome_bind].
    destruct (IH w2 q1 Hh2) as (w' & Hrun & Hwk'); [lia|]. exists w'. split; [done|].
    eapply woken_cons; [exact Hwk|exact Hwk'|rewrite Hq1, elem_drop_item; tauto|]. intros x.
    rewrite elem_of_cons, Hq1, elem_drop_item. destruct (decide (x = t)); tauto.
Qed.

Lemma drop_item_id t l : t ∉ l → drop_item t l = l.
Proof.
  induction l as [|x l IH]; [done|]. intros [Hx Hl]%not_elem_of_cons. unfold drop_item.
  rewrite filter_cons, decide_True by congruence. fold (drop_item t l). by rewrite IH.
Qed.

(** The first [n] waiting threads, or all of them. *)
Lemma wake_some_spec n : ∀ w q,
  held w q → NoDup (waiters w q) →
  ∃ w' q', wake_some n w q = Done (w', q') ∧ woken (take n (waiters w q)) 0 w w' ∧
    waiters w' q' = drop n (waiters w q) ∧ (q' = [] → waiters w' q' = []).
Proof.
  induction n as [|n IH]; intros w q Hh Hn; cbn [wake_some].
  { exists w, q. split_and!; [done|apply woken_nil; [apply not_elem_of_nil|done]|done|by intros ->]. }
  destruct (waiters w q) as [|t rest] eqn:Hw.
  - destruct (pop_next_spec w q Hh) as (w1 & q1 & Hpop & _ & Hs & _ & Hm). rewrite Hw in Hpop. cbn [head] in *.
    rewrite (Hm Hw) in Hpop. rewrite Hpop. cbn [mbind outcome_bind]. exists w1, []. split_and!; [done| |done..].
    apply woken_nil; [apply not_elem_of_nil|done].
  - destruct (pop_wake w q 0 t rest Hh Hw) as (w1 & q1 & w2 & -> & Hwake & Hh2 & Hwk & Hlen & Hq1).
    apply NoDup_cons in Hn as [Ht Hn]. rewrite drop_item_id in Hq1 by done.
    cbn [mbind outcome_bind]. rewrite Hwake. cbn [mbind outcome_bind].
    destruct (IH w2 q1 Hh2) as (w' & q' & Hrun & Hwk' & Hd & He); [by rewrite Hq1|].
    rewrite Hq1 in Hwk', Hd. exists w', q'. rewrite firstn_cons, skipn_cons. split_and!; [done| |done|done].
    eapply woken_cons; [exact Hwk|exact Hwk'| |].
    + intros Hx. apply Ht. rewrite <-(take_drop n rest). apply elem_of_app. by left.
    + intros x. apply elem_of_cons.
Qed.

(** *** Blocking *)

Lemma clear_ready_state th :
  has_state (clear_state th st_ready) st_ready = false ∧
  has_state (clear_state th st_ready) st_exited = has_state th st_exited.
Proof.
  unfold has_state, clear_state. cbn [m_state]. rewrite <-!Z.land_assoc.
  change (Z.land (wnot 8 st_ready) st_ready) with 0. change (Z.land (wnot 8 st_ready) st_exited) with st_exited.
  by rewrite Z.land_0_r.
Qed.

(** A running thread, which others hold: it can be queued. *)
Definition can_block (w : world) (q : list Z) (cur : Z) : Prop :=
  cur ≠ 0 ∧ ∃ th, ths w !! cur = Some th ∧ has_state th st_exited = false ∧
    Z.of_nat (held_by q cur) < m_handle_count th < 2 ^ 16 - 1.

Lemma held_perm w q q' : q ≡ₚ q' → held w q → held w q'.
Proof.
  intros Hp Hh t Ht. destruct (Hh t) as (? & th & ? & Hc); [by rewrite Hp|]. split; [done|]. exists th. split; [done|].
  unfold held_by in *. by rewrite <-Hp.
Qed.

(** Queueing a thread; [q] are the threads all queues hold. *)
Lemma add_spec w q cur :
  held w q → can_block w q cur →
  ∃ w1, (∀ q', wq_add_thread w q' cur = Done (w1, q' ++ [cur])) ∧ held w1 (cur :: q) ∧ same_states w w1.
Proof.
  intros Hh (H0 & th & Hth & Hex & Hc). unfold wq_add_thread, handle_retain.
  rewrite (proj2 (Z.eqb_neq cur 0)) by done. cbn [negb kassert mbind outcome_bind]. rewrite Hth. cbn [deref mbind outcome_bind].
  rewrite wrap_small by (unfold is_word; lia). eexists. split; [done|]. split.
  - intros t Ht. cbn [ths]. rewrite held_by_cons. destruct (decide (cur = t)) as [<-|Hne].
    + split; [done|]. rewrite lookup_insert_eq. eexists. split; [done|]. cbn [m_handle_count put_handles]. lia.
    + apply elem_of_cons in Ht as [->|Ht]; [done|]. destruct (Hh t Ht) as (? & x & ? & ?). split; [done|].
      rewrite lookup_insert_ne by done. exists x. split; [done|]. lia.
  - split; [done|]. intros t. cbn [ths]. destruct (decide (t = cur)) as [->|]; [|by rewrite lookup_insert_ne].
    by rewrite lookup_insert_eq, Hth.
Qed.

(** A blocked thread that did not exit waits. *)
Lemma block_spec w q cur th :
  held w q → ths w !! cur = Some th → has_state th st_exited = false →
  ∃ w', block w cur = Done w' ∧ held w' q ∧ is_waiting w' cur = true ∧
    (∀ t, t ≠ cur → ths w' !! t = ths w !! t) ∧ wake_values w' = wake_values w.
Proof.
  intros Hh Hth Hex. unfold block. rewrite Hth. cbn [deref mbind outcome_bind]. eexists. split; [done|]. split_and!.
  - intros t Ht. destruct (Hh t Ht) as (? & x & Hx & ?). split; [done|]. cbn [ths].
    destruct (decide (t = cur)) as [->|]; [|exists x; by rewrite lookup_insert_ne].
    rewrite Hth in Hx. injection Hx as <-. eexists. by rewrite lookup_insert_eq.
  - unfold is_waiting. cbn [ths]. rewrite lookup_insert_eq. unfold waits.
    destruct (clear_ready_state th) as [-> ->]. by rewrite Hex.
  - intros t Ht. by apply lookup_insert_ne.
  - done.
Qed.

Lemma same_states_exited w w' t th :
  same_states w w' → ths w !! t = Some th →
  ∃ th', ths w' !! t = Some th' ∧ has_state th' st_exited = has_state th st_exited.
Proof.
  intros Hs Hth. destruct (same_states_get _ _ _ _ Hs Hth) as (th' & ? & ?). exists th'.
  split; [done|]. by apply put_handles_state.
Qed.

Lemma add_block_spec w q cur :
  held w q → can_block w q cur →
  ∃ w1 w2, wq_add_thread w q cur = Done (w1, q ++ [cur]) ∧ block w1 cur = Done w2 ∧ held w2 (q ++ [cur]) ∧
    is_waiting w2 cur = true ∧ (∀ t, t ≠ cur → is_waiting w2 t = is_waiting w t).
Proof.
  intros Hh Hc. destruct (add_spec w q cur Hh Hc) as (w1 & Hadd & Hh1 & Hs1).
  destruct Hc as (_ & th & Hth & Hex & _). destruct (same_states_exited _ _ _ _ Hs1 Hth) as (th1 & Hth1 & Hex1).
  destruct (block_spec w1 (cur :: q) cur th1 Hh1 Hth1) as (w2 & Hblk & Hh2 & Hw & Hout & _); [congruence|].
  exists w1, w2. split_and!; [done..| |done|].
  - eapply held_perm; [|exact Hh2]. apply Permutation_cons_append.
  - intros t Ht. rewrite <-(same_states_waiting w w1) by done. unfold is_waiting. by rewrite Hout.
Qed.

(** ** Events and signals step by step

    Each thread runs [signal] or [wait] in steps that are atomic in the code: an atomic operation on
    the signals, a call on the queue, a change of a thread's state.  [issued] and [received] record
    the signals sent and returned. *)

Inductive pc :=
  | W_read | W_add | W_block | W_blocked | W_done
  | S_or (s : Z) | S_pop | S_wake (t : Z) | S_done.

Record sys := Sys {
  sy_world : world;
  sy_event : event;
  sy_pcs : gmap Z pc;
  issued : Z;
  received : Z;
}.

(** A step of thread [t]; [None] when it has returned, or is blocked and not ready. *)
Definition read_step (s : sys) (t : Z) (again : bool) : sys :=
  let (e, v) := read (sy_event s) in
  let next := if (v =? 0) && negb again then W_add else W_done in
  Sys (sy_world s) e (<[t := next]> (sy_pcs s)) (issued s) (Z.lor (received s) v).
Definition thread_step (s : sys) (t : Z) : outcome (option sys) :=
  let goto w e next := Done (Some (Sys w e (<[t := next]> (sy_pcs s)) (issued s) (received s))) in
  let e := sy_event s in
  match sy_pcs s !! t with
  | Some W_read => Done (Some (read_step s t false))
  | Some W_add =>
      let* (w, q) := wq_add_thread (sy_world s) (m_queue e) t in
      goto w (Event (m_signals e) q) W_block
  | Some W_block => let* w := block (sy_world s) t in goto w e W_blocked
  | Some W_blocked =>
      let* th := deref (ths (sy_world s) !! t) in
      Done (if has_state th st_ready then Some (read_step s t true) else None)
  | Some (S_or x) =>
      let e := Event (Z.lor (m_signals e) x) (m_queue e) in
      let next := if m_signals e =? 0 then S_done else S_pop in
      Done (Some (Sys (sy_world s) e (<[t := next]> (sy_pcs s)) (Z.lor (issued s) x) (received s)))
  | Some S_pop =>
      let* (w, q, u) := pop_next (sy_world s) (m_queue e) in
      goto w (Event (m_signals e) q) (match u with Some u => S_wake u | None => S_done end)
  | Some (S_wake u) => let* w := wake (sy_world s) u 0 in goto w e S_done
  | Some W_done | Some S_done | None => Done None
  end.

(** A run in which the threads take their steps in the given order. *)
Fixpoint run_steps (s : sys) (ts : list Z) : outcome sys :=
  match ts with
  | [] => Done s
  | t :: ts =>
      let* r := thread_step s t in
      match r with Some s => run_steps s ts | None => run_steps s ts end
  end.

Definition conserved (s : sys) : Prop := Z.lor (received s) (m_signals (sy_event s)) = issued s.
Lemma thread_step_conserved s t s' : thread_step s t = Done (Some s') → conserved s → conserved s'.
Proof.
  unfold thread_step, conserved. destruct (sy_pcs s !! t) as [[]|]; intros Hs Hc; inv_done; try discriminate.
  all: try (destruct (has_state _ _); try discriminate).
  all: simplify_eq; cbn [received sy_event issued m_signals]; try done.
  all: try (unfold read_step, read; cbn [received sy_event issued m_signals]; by rewrite Z.lor_0_r).
  by rewrite Z.lor_assoc, Hc.
Qed.

(** ** Theorems *)

(** a wait queue is a first-in first-out queue of the threads that wait on it: [pop_next] returns the
    one that came first and leaves the others in order, skips and releases threads that exited or were
    woken otherwise, and touches no thread but for the handles the queue held. *)
Theorem wait_queue_fifo (w : world) (q : list Z) :
  held w q →
  ∃ w' q', pop_next w q = Done (w', q', head (waiters w q)) ∧ waiters w' q' = tail (waiters w q) ∧
    held w' q' ∧ same_states w w'.
Proof.
  intros Hh. destruct (pop_next_spec w q Hh) as (w' & q' & ? & ? & ? & Hq & _). exists w', q'.
  split_and!; [done| |done..]. by rewrite (same_states_waiters w w').
Qed.

(** when a thread exits, the loop over its join queue ends with the queue empty, every thread that
    waited to join it is made ready with status 0, no other thread is, and the thread is exited and
    no longer ready. *)
Theorem exit_wakes_joiners (w : world) (self : Z) (q : list Z) (th : thread) :
  held w q → ths w !! self = Some th → self ∉ q →
  ∃ w' th', exit w self q = Done (w', []) ∧
    (∀ t, t ∈ waiters w q → is_waiting w' t = false ∧ wake_values w' !! t = Some 0 ∧
      ∃ tt, ths w' !! t = Some tt ∧ has_state tt st_ready = true) ∧
    (∀ t, t ≠ self → t ∉ waiters w q →
      is_waiting w' t = is_waiting w t ∧ wake_values w' !! t = wake_values w !! t) ∧
    ths w' !! self = Some th' ∧ has_state th' st_exited = true ∧ has_state th' st_ready = false.
Proof.
  intros Hh Hth Hself. unfold exit. rewrite Hth. cbn [deref mbind outcome_bind].
  set (th1 := set_state _ _). set (w1 := World _ _).
  assert (Hout : ∀ t, t ≠ self → ths w1 !! t = ths w !! t) by (intros; by apply lookup_insert_ne).
  assert (Hh1 : held w1 q).
  { intros t Ht. destruct (Hh t Ht) as (? & x & ? & ?). split; [done|]. exists x. rewrite Hout by (by intros ->). done. }
  assert (Hiw : ∀ t, t ≠ self → is_waiting w1 t = is_waiting w t) by (intros t Ht; unfold is_waiting; by rewrite Hout).
  assert (Hq : ∀ t, t ∈ waiters w1 q ↔ t ∈ waiters w q).
  { intros t. rewrite !elem_waiters. destruct (decide (t = self)) as [->|]; [tauto|]. by rewrite Hiw. }
  destruct (wq_clear_spec 0 (S (length q)) w1 q Hh1) as (w2 & Hrun & Hwk); [lia|].
  unfold clear. rewrite Hrun. cbn [mbind outcome_bind].
  destruct (Hwk self) as [Hs2 _]. destruct (decide (self ∈ waiters w1 q)) as [Hx|_]; [by apply elem_waiters in Hx as [_ ?]|].
  cbn [w1 ths] in Hs2. rewrite lookup_insert_eq in Hs2. apply fmap_Some in Hs2 as (th2 & Hth2 & He).
  unfold block. rewrite Hth2. cbn [deref mbind outcome_bind]. destruct (clear_ready_state th2) as [Hr He2].
  eexists _, (clear_state th2 st_ready). split; [done|]. cbn [ths wake_values]. split_and!.
  - intros t Ht. assert (Hne : t ≠ self) by (intros ->; by apply elem_waiters in Ht as [_ ?]).
    destruct (Hwk t) as [Htt Hv]. rewrite decide_True in Hv by (by apply Hq).
    assert (Hnw : is_waiting w2 t = false) by (rewrite (woken_waiting _ _ _ _ _ Hwk), bool_decide_true by (by apply Hq); apply andb_false_r).
    split; [|split; [done|]]. { unfold is_waiting in *. cbn [ths]. by rewrite lookup_insert_ne. }
    apply elem_waiters in Ht as [Hw Hin]. destruct (Hh1 t Hin) as (_ & x & Hx & _). rewrite Hx in Htt.
    destruct (decide (t ∈ waiters w1 q)) as [_|Hn]; [|by rewrite Hq, elem_waiters in Hn; tauto].
    apply fmap_Some in Htt as (y & Hy & Hey). exists y. rewrite lookup_insert_ne by done. split; [done|].
    rewrite <-(put_handles_state y (wake_only x)) by done. apply wake_only_ready.
  - intros t Hne Ht. destruct (Hwk t) as [_ Hv]. rewrite decide_False in Hv by (by rewrite Hq). split; [|done].
    assert (Hnw : is_waiting w2 t = is_waiting w t)
      by (rewrite (woken_waiting _ _ _ _ _ Hwk), bool_decide_false, andb_true_r by (by rewrite Hq); auto).
    rewrite <-Hnw. unfold is_waiting. cbn [ths]. by rewrite lookup_insert_ne.
  - apply lookup_insert_eq.
  - rewrite He2. rewrite <-(put_handles_state th2 th1) by done. unfold th1, has_state, set_state. cbn [m_state].
    apply negb_true_iff, Z.eqb_neq. intros E. apply (f_equal (λ z, Z.testbit z 1)) in E.
    rewrite Z.land_spec, Z.lor_spec in E. change (Z.testbit st_exited 1) with true in E. by rewrite orb_true_r in E.
  - done.
Qed.

(** a thread that waits for an event with nothing pending is woken by the next signal, whatever its
    bits, as long as nobody waited before it, and then its [wait] returns exactly those bits. *)
Theorem signal_wakes_waiter (w : world) (e : event) (cur s : Z) :
  held w (m_queue e) → can_block w (m_queue e) cur → waiters w (m_queue e) = [] → m_signals e = 0 → s ≠ 0 →
  ∃ w1 e1 w2 e2, event_wait w e cur = Done (w1, e1, None) ∧ is_waiting w1 cur = true ∧
    signal w1 e1 s = Done (w2, e2) ∧ woken [cur] 0 w1 w2 ∧ (read e2).2 = s.
Proof.
  intros Hh Hc Hno H0 Hs. destruct (add_block_spec w (m_queue e) cur Hh Hc) as (w1 & w2 & Hadd & Hblk & Hh2 & Hw & Hout).
  unfold event_wait, read. rewrite H0. cbn [m_queue m_signals Z.eqb negb]. rewrite Hadd. cbn [mbind outcome_bind].
  rewrite Hblk. cbn [mbind outcome_bind]. exists w2, (Event 0 (m_queue e ++ [cur])). unfold signal. cbn [m_signals m_queue].
  rewrite Z.lor_0_l, (proj2 (Z.eqb_neq s 0)) by done. unfold wake_observer. cbn [m_signals m_queue].
  assert (Hwt : ∃ n, waiters w2 (m_queue e ++ [cur]) = replicate (S n) cur).
  { unfold waiters. rewrite filter_app, (filter_cons_True (λ t, is_waiting w2 t = true) cur []) by done.
    assert (Hall : ∀ t, t ∈ waiters w2 (m_queue e) → t = cur).
    { intros t [Htw Hin]%elem_waiters. destruct (decide (t = cur)); [done|]. exfalso.
      assert (Hx : t ∈ waiters w (m_queue e)) by (apply elem_waiters; split; [|done]; by rewrite <-Hout).
      rewrite Hno in Hx. by apply not_elem_of_nil in Hx. }
    fold (waiters w2 (m_queue e)). exists (length (waiters w2 (m_queue e))).
    change (S (length ?x)) with (1 + length x)%nat. rewrite Nat.add_comm, replicate_add. f_equal.
    symmetry. apply replicate_as_elem_of. split; [done|]. exact Hall. }
  destruct Hwt as [n Hwt].
  destruct (pop_wake w2 (m_queue e ++ [cur]) 0 cur (replicate n cur) Hh2 Hwt) as (w3 & q3 & w4 & -> & Hwake & _ & Hwk & _).
  cbn [mbind outcome_bind]. rewrite Hwake. cbn [mbind outcome_bind]. eexists w4, _. split_and!; done.
Qed.

(** C31: however threads that wait for an event and threads that signal it interleave their steps, every
    signal sent is pending or was returned by a [wait], and none is returned that was not sent. *)
Theorem event_signals_conserved (s s' : sys) (ts : list Z) :
  Z.lor (received s) (m_signals (sy_event s)) = issued s → run_steps s ts = Done s' →
  Z.lor (received s') (m_signals (sy_event s')) = issued s'.
Proof.
  change (conserved s → run_steps s ts = Done s' → conserved s').
  revert s. induction ts as [|t ts IH]; intros s Hc Hrun; cbn in Hrun; [by injection Hrun as <-|].
  apply bind_Done_inv in Hrun as ([s1|] & Hs1 & Hrun); [|by apply (IH s)].
  apply (IH s1); [by eapply thread_step_conserved|done].
Qed.

(** [futex_wake] wakes the [count] threads that waited longest on the address, or all with count 0, and
    no other; threads on other addresses stay. *)
Lemma futex_wake_oldest (w : world) (fs : futexes) (phys count : Z) (q : list Z) :
  fs !! phys = Some q → held w q → NoDup (waiters w q) → 0 ≤ count →
  let n := if count =? 0 then length q else Z.to_nat count in
  ∃ w' fs', futex_wake w fs phys count = Done (w', fs') ∧ woken (take n (waiters w q)) 0 w w' ∧
    waiters w' (default [] (fs' !! phys)) = drop n (waiters w q) ∧
    ∀ a, a ≠ phys → fs' !! a = fs !! a.
Proof.
  intros Hq Hh Hn Hcount. cbv zeta.
  assert (Hlen : (length (waiters w q) ≤ length q)%nat) by apply length_filter.
  assert (Hrun : ∃ w' q', (if count =? 0 then clear w q 0 else wake_some (Nat.min (Z.to_nat count) (S (length q))) w q) = Done (w', q') ∧
    woken (take (if count =? 0 then length q else Z.to_nat count) (waiters w q)) 0 w w' ∧
    waiters w' q' = drop (if count =? 0 then length q else Z.to_nat count) (waiters w q)).
  { destruct (count =? 0).
    - destruct (wq_clear_spec 0 (S (length q)) w q Hh) as (w' & Hrun & Hwk); [lia|]. exists w', [].
      rewrite take_ge, drop_ge by done. done.
    - destruct (wake_some_spec (Nat.min (Z.to_nat count) (S (length q))) w q Hh Hn) as (w' & q' & Hrun & Hwk & Hd & _).
      exists w', q'. destruct (Nat.min_spec (Z.to_nat count) (S (length q))) as [[? E]|[? E]]; rewrite E in *; [done|].
      rewrite !take_ge in Hwk |- * by lia. rewrite !drop_ge in Hd |- * by lia. done. }
  destruct Hrun as (w' & q' & Hrun & Hwk & Hd). unfold futex_wake. rewrite Hq, Hrun. cbn [mbind outcome_bind].
  eexists _, _. split; [done|]. split; [done|]. split.
  - rewrite <-Hd. destruct q'; [by rewrite lookup_delete_eq|by rewrite lookup_insert_eq].
  - intros a Ha. destruct q'; [by rewrite lookup_delete_ne|by rewrite lookup_insert_ne].
Qed.

(** Two threads: 1 waits for an event, 2 signals it. *)
Definition ready_thread : thread := Thread 1 0 0 0 st_ready 0 4.
Definition race_start : sys :=
  Sys (World {[1 := ready_thread; 2 := ready_thread]} ∅) (Event 0 []) {[1 := W_read; 2 := S_or 1]} 0 0.

Definition race_end : sys := match run_steps race_start [1; 1; 2; 2; 1] with Done s => s | _ => race_start end.

(** [wait] reads the signals, queues its thread and blocks in separate steps, and a signal from
    another CPU between the last two finds a thread that is still ready, drops it from the queue and
    wakes nobody.  The thread then blocks with its signal pending and neither it nor the signaller
    has a step left: the wake-up is lost. *)
Theorem event_wait_can_miss_signal :
  ∃ ts s, run_steps race_start ts = Done s ∧ sy_pcs s !! 1 = Some W_blocked ∧ sy_pcs s !! 2 = Some S_done ∧
    m_signals (sy_event s) = 1 ∧ m_queue (sy_event s) = [] ∧
    ∀ t, thread_step s t = Done None.
Proof.
  exists [1; 1; 2; 2; 1], race_end.
  assert (Hpcs : sy_pcs race_end = {[1 := W_blocked; 2 := S_done]}) by (vm_compute; reflexivity).
  split_and!; [vm_compute; reflexivity|by rewrite Hpcs|by rewrite Hpcs|reflexivity|reflexivity|].
  intros t. destruct (decide (t = 1)) as [->|]; [vm_compute; reflexivity|].
  destruct (decide (t = 2)) as [->|]; [vm_compute; reflexivity|].
  unfold thread_step. by rewrite Hpcs, lookup_insert_ne, lookup_singleton_ne by done.
Qed.

(** ** Witnesses *)

(** Thread 1 runs; 5 waits in the queue, 6 was woken by a timeout. *)
Definition blocked_thread : thread := Thread 1 0 0 0 0 0 4.
Definition demo_world : world := World {[1 := ready_thread; 5 := blocked_thread; 6 := ready_thread]} ∅.
Lemma demo_held : held demo_world [6; 5].
Proof. intros t [-> | ->%list_elem_of_singleton]%elem_of_cons; (split; [done|]); eexists; (split; [reflexivity|]); by vm_compute. Qed.

Lemma wait_queue_fifo_witness :
  ∃ w' q', pop_next demo_world [6; 5] = Done (w', q', Some 5) ∧ waiters w' q' = [].
Proof.
  destruct (wait_queue_fifo demo_world [6; 5] demo_held) as (w' & q' & H1 & H2 & _).
  exists w', q'. exact (conj H1 H2).
Defined.

Lemma exit_wakes_joiners_witness :
  ∃ w', exit demo_world 1 [6; 5] = Done (w', []) ∧ is_waiting w' 5 = false ∧ wake_values w' !! 5 = Some 0.
Proof.
  destruct (exit_wakes_joiners demo_world 1 [6; 5] ready_thread demo_held eq_refl) as (w' & th' & H1 & H2 & _); [set_solver|].
  exists w'. destruct (H2 5) as (H3 & H4 & _); [vm_compute; left|]. exact (conj H1 (conj H3 H4)).
Defined.

Lemma signal_wakes_waiter_witness :
  ∃ w1 e1 w2 e2, event_wait demo_world (Event 0 [6]) 1 = Done (w1, e1, None) ∧ signal w1 e1 12 = Done (w2, e2) ∧
    (read e2).2 = 12.
Proof.
  destruct (signal_wakes_waiter demo_world (Event 0 [6]) 1 12) as (w1 & e1 & w2 & e2 & H1 & _ & H2 & _ & H3).
  - intros t ->%list_elem_of_singleton. split; [done|]. eexists. split; [reflexivity|]. by vm_compute.
  - split; [done|]. eexists. split; [reflexivity|]. by vm_compute.
  - reflexivity.
  - reflexivity.
  - done.
  - exists w1, e1, w2, e2. exact (conj H1 (conj H2 H3)).
Defined.

Lemma event_signals_conserved_witness :
  Z.lor (received race_end) (m_signals (sy_event race_end)) = 1.
Proof. apply (event_signals_conserved race_start race_end [1; 1; 2; 2; 1]); vm_compute; reflexivity. Defined.
