(* ===== verification/IpcMessage.v ===== *)
(** * IPC messages

    Models src/kernel/ipc_message.h and ipc_message.cpp: a message holds its handles and, when they
    fit, its bytes in [content]; longer data is in a buffer of its own, whose address follows the
    handles.  The content is a list of bytes and the buffers are a map from their addresses, so that
    a copy past the end of either, or through a pointer to no buffer, is [Undef].

    The theorems show that what is set is what is read back, that messages do not leak or share
    buffers, and that more handles than the content has room for are written past its end. *)
From S2P Require Import Prelude.

(** ** Memory *)

(** [memcpy] into and out of a block of bytes, at a byte offset. *)
Definition write_at (l : list Z) (off : Z) (bs : list Z) : outcome (list Z) :=
  if (0 <=? off) && (off + Z.of_nat (length bs) <=? Z.of_nat (length l)) then
    Done (take (Z.to_nat off) l ++ bs ++ drop (Z.to_nat off + length bs) l)
  else Undef.
Definition read_at (l : list Z) (off len : Z) : outcome (list Z) :=
  if (0 <=? off) && (0 <=? len) && (off + len <=? Z.of_nat (length l)) then
    Done (take (Z.to_nat len) (drop (Z.to_nat off) l))
  else Undef.

(** Words as bytes and back. *)
Definition words_bytes (ws : list Z) : list Z := mjoin (le_bytes 8 <$> ws).
Fixpoint words_of (n : nat) (bs : list Z) : list Z :=
  match n with O => [] | S n => of_le (take 8 bs) :: words_of n (drop 8 bs) end.

(** ** Messages *)

Definition message_size : Z := 64.
Definition content_size : Z := message_size - 8.

Record message := Message {
  tag : Z;
  data_size : Z;
  handle_count : Z;
  out_of_band : bool;
  content : list Z;
}.

(** The buffers allocated for messages, by address. *)
Abbreviation buffers := (gmap Z (list Z)).

(** [message()]; the content is what the memory held. *)
Definition message_init (c : list Z) : message := Message 0 0 0 false c.

(** [reinterpret_cast<uint8_t**>(content)[handle_count]] *)
Definition oob_pointer (m : message) : outcome Z :=
  let* bs := read_at (content m) (handle_count m * 8) 8 in Done (of_le bs).

Definition clear_oob (h : buffers) (m : message) : outcome buffers :=
  if out_of_band m then
    let* p := oob_pointer m in
    let* _ := deref (h !! p) in
    Done (delete p h)
  else Done h.

(** The bytes of [data()] and the words of [handles()]. *)
Definition data (h : buffers) (m : message) : outcome (list Z) :=
  if out_of_band m then
    let* p := oob_pointer m in
    let* buf := deref (h !! p) in
    read_at buf 0 (data_size m)
  else read_at (content m) (handle_count m * 8) (data_size m).
Definition handles (m : message) : outcome (list Z) :=
  let* bs := read_at (content m) 0 (handle_count m * 8) in
  Done (words_of (Z.to_nat (handle_count m)) bs).
(** [handles() const], which takes [data_size] for the count. *)
Definition handles_const (m : message) : outcome (list Z) :=
  let* bs := read_at (content m) 0 (data_size m * 8) in
  Done (words_of (Z.to_nat (data_size m)) bs).

Definition put_content (m : message) (c : list Z) : message :=
  Message (tag m) (data_size m) (handle_count m) (out_of_band m) c.

(** The copy of the handles; [sizeof(content) / sizeof(j6_handle_t) - sizeof(void* )] is unsigned. *)
Definition copy_handles (m : message) (in_handles : list Z) : outcome message :=
  let hn := Z.of_nat (length in_handles) in
  if hn =? 0 then Done m
  else
    let* _ := kassert (hn <? u64 (content_size / 8 - 8)) in
    let* c := write_at (content m) 0 (words_bytes (take (Z.to_nat (handle_count m)) in_handles)) in
    Done (put_content m c).

(** [memcpy(data().pointer, src, data().count)] *)
Definition copy_data (h : buffers) (m : message) (src : list Z) : outcome (buffers * message) :=
  let bs := take (Z.to_nat (data_size m)) src in
  if out_of_band m then
    let* p := oob_pointer m in
    let* buf := deref (h !! p) in
    let* buf := write_at buf 0 bs in
    Done (<[p := buf]> h, m)
  else
    let* c := write_at (content m) (handle_count m * 8) bs in
    Done (h, put_content m c).

(** [set]; [buf] is the address that [new uint8_t[in_data.count]] returns. *)
Definition set (h : buffers) (m : message) (in_tag : Z) (in_data in_handles : list Z) (buf : Z)
    : outcome (buffers * message) :=
  let* h := clear_oob h m in
  let hn := Z.of_nat (length in_handles) in
  let dn := Z.of_nat (length in_data) in
  let m := Message in_tag (u16 dn) (wrap 4 hn) (out_of_band m) (content m) in
  let* m := copy_handles m in_handles in
  if dn =? 0 then Done (h, m)
  else if u64 (content_size - handle_count m * 8) <? dn then
    let m := Message (tag m) (data_size m) (handle_count m) true (content m) in
    let* c := write_at (content m) (handle_count m * 8) (le_bytes 8 buf) in
    copy_data (<[buf := replicate (length in_data) 0]> h) (put_content m c) in_data
  else copy_data h m in_data.

(** [message(in_tag, in_data, in_handles)] on memory that held [c]. *)
Definition message_make (h : buffers) (c : list Z) (in_tag : Z) (in_data in_handles : list Z) (buf : Z)
    : outcome (buffers * message) :=
  set h (message_init c) in_tag in_data in_handles buf.

(** [operator=(message &&)]: the buffers, the assigned message and the source. *)
Definition move_assign (h : buffers) (m other : message) : outcome (buffers * message * message) :=
  let* h := clear_oob h m in
  Done (h, Message (tag other) (data_size other) (handle_count other) (out_of_band other) (content other),
    Message 0 0 0 false (content other)).

(** ** Facts on bytes *)

Lemma words_bytes_cons w ws : words_bytes (w :: ws) = le_bytes 8 w ++ words_bytes ws.
Proof. done. Qed.
Lemma length_words_bytes ws : length (words_bytes ws) = (8 * length ws)%nat.
Proof.
  induction ws as [|w ws IH]; [done|]. rewrite words_bytes_cons, length_app, length_le_bytes, IH. cbn [length]. lia.
Qed.
Lemma words_roundtrip ws rest : Forall is_u64 ws → words_of (length ws) (words_bytes ws ++ rest) = ws.
Proof.
  induction 1 as [|w ws Hw _ IH]; [done|]. cbn [length words_of].
  rewrite words_bytes_cons, <-app_assoc, take_app_length', drop_app_length' by (by rewrite length_le_bytes). by rewrite IH, of_le_word.
Qed.

Lemma write_at_Done l off bs :
  0 ≤ off → off + Z.of_nat (length bs) ≤ Z.of_nat (length l) →
  write_at l off bs = Done (take (Z.to_nat off) l ++ bs ++ drop (Z.to_nat off + length bs) l).
Proof. intros. unfold write_at. by rewrite (proj2 (Z.leb_le 0 off)), (proj2 (Z.leb_le _ _)) by lia. Qed.
Lemma read_at_Done l off len :
  0 ≤ off → 0 ≤ len → off + len ≤ Z.of_nat (length l) →
  read_at l off len = Done (take (Z.to_nat len) (drop (Z.to_nat off) l)).
Proof. intros. unfold read_at. by rewrite !(proj2 (Z.leb_le _ _)) by lia. Qed.

(** A read of what an earlier write put there, after a write that begins where it ends. *)
Lemma write_at_length l off bs l' : write_at l off bs = Done l' → length l' = length l.
Proof.
  unfold write_at. zcases; cbn [andb]; [|done..]. intros [= <-]. rewrite !length_app, length_take, length_drop. lia.
Qed.
Lemma write_read l off bs l' :
  write_at l off bs = Done l' → read_at l' off (Z.of_nat (length bs)) = Done bs.
Proof.
  intros Hw. pose proof (write_at_length _ _ _ _ Hw) as Hlen. unfold write_at in Hw.
  destruct (Z.leb_spec 0 off), (Z.leb_spec (off + Z.of_nat (length bs)) (Z.of_nat (length l))); cbn [andb] in Hw; try done.
  injection Hw as <-. rewrite read_at_Done by lia. f_equal.
  rewrite drop_app_length' by (rewrite length_take; lia). rewrite Nat2Z.id. by apply take_app_length'.
Qed.
Lemma write_keeps_before l off bs l' n :
  write_at l off bs = Done l' → 0 ≤ n ≤ off → read_at l' 0 n = read_at l 0 n.
Proof.
  intros Hw Hn. pose proof (write_at_length _ _ _ _ Hw) as Hlen. unfold write_at in Hw.
  destruct (Z.leb_spec 0 off), (Z.leb_spec (off + Z.of_nat (length bs)) (Z.of_nat (length l))); cbn [andb] in Hw; try done.
  injection Hw as <-. rewrite !read_at_Done by lia. change (Z.to_nat 0) with 0%nat. rewrite !drop_0.
  rewrite take_app_le by (rewrite length_take; lia). rewrite take_take. f_equal. f_equal. lia.
Qed.

(** ** The round trip *)

(** What a caller of [set] keeps: the handles fit, and when the data does not fit beside them the
    address of its buffer does. *)
Definition fits (in_data in_handles : list Z) : Prop :=
  Z.of_nat (length in_data) < 2 ^ 16 ∧
  let room := content_size - 8 * Z.of_nat (length in_handles) in
  0 ≤ room ∧ (Z.of_nat (length in_data) ≤ room ∨ 8 ≤ room).

(** A message that carries [t], [ds] and [hs], its buffer, if it has one, being the only one
    beside those of [h]. *)
Record carries (h : buffers) (t : Z) (ds hs : list Z) (h' : buffers) (m : message) : Prop := {
  ca_tag : tag m = t;
  ca_size : data_size m = Z.of_nat (length ds);
  ca_count : handle_count m = Z.of_nat (length hs);
  ca_data : data h' m = Done ds;
  ca_handles : handles m = Done hs;
  ca_length : length (content m) = 56%nat;
  ca_clear : clear_oob h' m = Done h;
}.

Lemma copy_handles_spec m hs :
  length (content m) = 56%nat → handle_count m = Z.of_nat (length hs) → 8 * Z.of_nat (length hs) ≤ content_size →
  ∃ c, length c = 56%nat ∧ read_at c 0 (Z.of_nat (length hs) * 8) = Done (words_bytes hs) ∧
    copy_handles m hs = Done (put_content m c).
Proof.
  intros Hlen Hc Hfit. unfold copy_handles. unfold content_size, message_size in Hfit.
  destruct (Z.eqb_spec (Z.of_nat (length hs)) 0) as [E|E].
  - exists (content m). split; [done|]. destruct hs; [|done]. split; [by rewrite read_at_Done by lia|]. by destruct m.
  - change (u64 (content_size / 8 - 8)) with (2 ^ 64 - 1). rewrite (proj2 (Z.ltb_lt _ _)) by lia.
    cbn [kassert mbind outcome_bind]. rewrite Hc, Nat2Z.id, firstn_all. pose proof (length_words_bytes hs) as Hlb.
    destruct (write_at (content m) 0 (words_bytes hs)) as [c| | |] eqn:Hw;
      [|rewrite write_at_Done in Hw by lia; done..].
    exists c. split_and!; [|..|done].
    + by rewrite (write_at_length _ _ _ _ Hw).
    + apply write_read in Hw. rewrite <-Hw. f_equal. lia.
Qed.

Lemma handles_prefix m hs :
  Forall is_u64 hs → handle_count m = Z.of_nat (length hs) →
  read_at (content m) 0 (Z.of_nat (length hs) * 8) = Done (words_bytes hs) → handles m = Done hs.
Proof.
  intros Hw Hc Hr. unfold handles. rewrite Hc, Hr. cbn [mbind outcome_bind]. rewrite Nat2Z.id.
  by rewrite <-(app_nil_r (words_bytes hs)), words_roundtrip.
Qed.

Lemma make_spec h c t ds hs buf :
  length c = 56%nat → Forall is_u64 hs → fits ds hs → is_u64 buf → h !! buf = None →
  ∃ h' m, message_make h c t ds hs buf = Done (h', m) ∧ carries h t ds hs h' m.
Proof.
  intros Hlen Hhs (Hds & Hroom & Hor) Hbuf Hfresh. cbv zeta in Hroom, Hor. unfold content_size, message_size in *.
  unfold message_make, set. cbn [message_init clear_oob out_of_band mbind outcome_bind content].
  rewrite (wrap_small 16), (wrap_small 4) by (unfold is_word; lia).
  set (m0 := Message t _ _ false c).
  destruct (copy_handles_spec m0 hs) as (c1 & Hl1 & Hr1 & ->); [done..|unfold content_size, message_size; lia|].
  cbn [mbind outcome_bind put_content m0 tag data_size handle_count out_of_band content].
  destruct (Z.eqb_spec (Z.of_nat (length ds)) 0) as [E|E].
  { destruct ds; [|done]. eexists _, _. split; [done|]. split; try done; [|by eapply handles_prefix].
    unfold data. cbn. by rewrite read_at_Done by lia. }
  unfold content_size, message_size. rewrite (wrap_small 64) by (unfold is_word; cbn [m0 handle_count]; lia).
  cbn [m0 handle_count].
  destruct (Z.ltb_spec (64 - 8 - Z.of_nat (length hs) * 8) (Z.of_nat (length ds))) as [Hbig|Hsmall].
  - (* out of band *)
    destruct (write_at c1 (Z.of_nat (length hs) * 8) (le_bytes 8 buf)) as [c2| | |] eqn:Hw;
      [|rewrite write_at_Done in Hw by (rewrite ?length_le_bytes; lia); done..].
    cbn [mbind outcome_bind]. set (m2 := put_content _ _). set (h1 := <[buf := replicate _ 0]> h).
    assert (Hp : oob_pointer m2 = Done buf).
    { unfold oob_pointer. cbn [m2 put_content content handle_count].
      pose proof (write_read _ _ _ _ Hw) as Hr. rewrite length_le_bytes in Hr. change (Z.of_nat 8) with 8 in Hr.
      rewrite Hr. cbn [mbind outcome_bind]. by rewrite of_le_word. }
    unfold copy_data. change (out_of_band m2) with true. cbv iota. rewrite Hp. cbn [mbind outcome_bind].
    unfold h1. rewrite lookup_insert_eq. cbn [deref mbind outcome_bind m2 put_content data_size].
    rewrite Nat2Z.id, firstn_all, write_at_Done by (rewrite ?length_replicate; lia). cbn [mbind outcome_bind].
    rewrite insert_insert_eq, drop_ge, app_nil_r by (rewrite length_replicate; lia). change (Z.to_nat 0) with 0%nat. rewrite take_0. cbn [app].
    eexists _, _. split; [done|]. fold m2. split; try done.
    + unfold data. change (out_of_band m2) with true. cbv iota. rewrite Hp. cbn [mbind outcome_bind].
      rewrite lookup_insert_eq. cbn [deref mbind outcome_bind]. cbn [m2 put_content data_size].
      rewrite read_at_Done by lia. by rewrite Nat2Z.id, drop_0, firstn_all.
    + eapply handles_prefix; [done..|]. cbn [m2 put_content content].
      rewrite (write_keeps_before _ _ _ _ _ Hw) by lia. done.
    + cbn [m2 put_content content]. by rewrite (write_at_length _ _ _ _ Hw).
    + unfold clear_oob. change (out_of_band m2) with true. cbv iota. rewrite Hp. cbn [mbind outcome_bind].
      rewrite lookup_insert_eq. cbn [deref mbind outcome_bind]. by rewrite delete_insert_id.
  - (* beside the handles *)
    unfold copy_data. cbn [m0 put_content out_of_band data_size content handle_count]. rewrite Nat2Z.id, firstn_all.
    destruct (write_at c1 (Z.of_nat (length hs) * 8) ds) as [c2| | |] eqn:Hw;
      [|rewrite write_at_Done in Hw by lia; done..].
    cbn [mbind outcome_bind]. eexists _, _. split; [done|]. split; try done.
    + unfold data. cbn [put_content m0 out_of_band content handle_count data_size]. exact (write_read _ _ _ _ Hw).
    + eapply handles_prefix; [done..|]. cbn [put_content content].
      rewrite (write_keeps_before _ _ _ _ _ Hw) by lia. done.
    + cbn [put_content content]. by rewrite (write_at_length _ _ _ _ Hw).
Qed.

(** Moving a message leaves the source empty and the buffers where they are. *)
Lemma move_spec h0 h t ds hs m other :
  clear_oob h m = Done h → carries h0 t ds hs h other →
  ∃ m' other', move_assign h m other = Done (h, m', other') ∧ carries h0 t ds hs h m' ∧
    clear_oob h other' = Done h ∧ data h other' = Done [] ∧ handles other' = Done [].
Proof.
  intros Hm [Ht Hs Hc Hd Hh Hl Hclr]. unfold move_assign. rewrite Hm. cbn [mbind outcome_bind].
  eexists _, _. split; [done|]. split; [by destruct other|]. split; [done|].
  unfold data, handles. cbn. by rewrite !read_at_Done by lia.
Qed.

(** ** Theorems *)

(** a message carries what it was made with: whatever the tag, up to seven handles and up to 64K
    bytes of data whose buffer's address, if it needs one, fits beside the handles, the constructor
    returns, [data] and [handles] give back the bytes and the handles, a move of the message keeps
    them and leaves the source empty, and the destructor of the moved message frees its buffer and
    no other. *)
Theorem message_roundtrip (h : buffers) (c c' : list Z) (t buf : Z) (ds hs : list Z) :
  length c = 56%nat → Forall is_u64 hs → fits ds hs → is_u64 buf → h !! buf = None →
  ∃ h' m m' other', message_make h c t ds hs buf = Done (h', m) ∧
    move_assign h' (message_init c') m = Done (h', m', other') ∧
    tag m' = t ∧ data h' m' = Done ds ∧ handles m' = Done hs ∧ clear_oob h' m' = Done h ∧
    data h' other' = Done [] ∧ handles other' = Done [].
Proof.
  intros Hl Hhs Hfit Hbuf Hfresh. destruct (make_spec h c t ds hs buf Hl Hhs Hfit Hbuf Hfresh) as (h' & m & Hrun & Hcar).
  destruct (move_spec h h' t ds hs (message_init c') m) as (m' & o' & Hmv & [] & _ & Hd & Hh); [done..|].
  exists h', m, m', o'. done.
Qed.

(** the assertion that guards the copy of the handles compares with an unsigned difference below
    zero and so passes for every count; with eight to fifteen handles, a count a user chooses in
    [mailbox_call], the copy runs past the end of the content. *)
Theorem too_many_handles_overflow (h : buffers) (c : list Z) (t buf : Z) (ds hs : list Z) :
  length c = 56%nat → (8 ≤ length hs ≤ 15)%nat → message_make h c t ds hs buf = Undef.
Proof.
  intros Hl Hhs. unfold message_make, set. cbn [message_init clear_oob out_of_band mbind outcome_bind content].
  rewrite (wrap_small 4) by (unfold is_word; lia). unfold copy_handles.
  destruct (Z.eqb_spec (Z.of_nat (length hs)) 0); [lia|]. change (u64 (content_size / 8 - 8)) with (2 ^ 64 - 1).
  rewrite (proj2 (Z.ltb_lt _ _)) by lia. cbn [kassert mbind outcome_bind handle_count content].
  rewrite Nat2Z.id, firstn_all. unfold write_at. rewrite length_words_bytes, Hl.
  by rewrite (proj2 (Z.leb_gt (0 + Z.of_nat (8 * length hs)) (Z.of_nat 56))) by lia.
Qed.

(** ** Witnesses *)

Lemma message_roundtrip_witness :
  ∃ h' m m' other',
    message_make ∅ (replicate 56 0) 9 (replicate 60 5) [0x1122334455667788; 2] 0x4000 = Done (h', m) ∧
    move_assign h' (message_init (replicate 56 1)) m = Done (h', m', other') ∧
    data h' m' = Done (replicate 60 5) ∧ handles m' = Done [0x1122334455667788; 2].
Proof.
  destruct (message_roundtrip ∅ (replicate 56 0) (replicate 56 1) 9 0x4000 (replicate 60 5) [0x1122334455667788; 2])
    as (h' & m & m' & o' & H1 & H2 & _ & H3 & H4 & _);
    [reflexivity|repeat (apply Forall_cons; split; [by split; vm_compute|]); by apply Forall_nil|vm_compute; split_and!; try done; by right|done|reflexivity|].
  exists h', m, m', o'. exact (conj H1 (conj H2 (conj H3 H4))).
Defined.

Lemma too_many_handles_overflow_witness :
  message_make ∅ (replicate 56 0) 9 [1; 2] (replicate 10 3) 0x4000 = Undef.
Proof. apply too_many_handles_overflow; vm_compute; [reflexivity|lia]. Defined.
