(* ===== verification/Mailbox.v ===== *)
(** * Mailboxes

    Models src/kernel/objects/mailbox.cpp and the system calls of src/kernel/syscalls/mailbox.cpp: a
    caller queues itself with its message and blocks, a responder takes the caller that waited
    longest, gets a tag for it, and its reply to that tag wakes the caller with the answer.  The
    queues and threads are those of WaitQueue.v, the messages those of IpcMessage.v, the handles
    those of Process.v.

    The theorems show that the bytes and handles of a call reach the responder and those of its reply
    the caller, that a tag serves one reply, and that a call racing its responder can leave both
    waiting for good. *)
From S2P Require Import Prelude NodeMap KObject Process Scheduler WaitQueue IpcMessage.

Definition j6_status_closed : Z := 0x1000.
Definition j6_status_would_block : Z := 0x1003.

Record mailbox := Mailbox {
  m_closed : bool;
  m_callers : list Z;
  m_responders : list Z;
  m_reply_map : gmap Z Z;
  m_next_reply_tag : Z;
}.

(** The threads, their messages ([m_message], absent when null), the messages' buffers and a mailbox. *)
Record mstate := MState {
  ms_world : world;
  ms_messages : gmap Z message;
  ms_buffers : buffers;
  ms_box : mailbox;
}.

Definition mailbox_init : mailbox := Mailbox false [] [] ∅ 0.

(** ** [mailbox] *)

Definition put_world (s : mstate) (w : world) : mstate := MState w (ms_messages s) (ms_buffers s) (ms_box s).
Definition put_box (s : mstate) (b : mailbox) : mstate := MState (ms_world s) (ms_messages s) (ms_buffers s) b.

(** Waking the threads of the reply map. *)
Fixpoint wake_all (w : world) (l : list (Z * Z)) (value : Z) : outcome world :=
  match l with
  | [] => Done w
  | (_, t) :: l => let* w := wake w t value in wake_all w l value
  end.
Definition close (s : mstate) : outcome mstate :=
  let b := ms_box s in
  if m_closed b then Done s
  else
    let* (w, cs) := clear (ms_world s) (m_callers b) j6_status_closed in
    let* (w, rs) := clear w (m_responders b) j6_status_closed in
    let* w := wake_all w (map_to_list (m_reply_map b)) j6_status_closed in
    Done (MState w (ms_messages s) (ms_buffers s) (Mailbox true cs rs (m_reply_map b) (m_next_reply_tag b))).

(** [call] up to the [block] at its end: its status when the mailbox is closed. *)
Definition call_enter (s : mstate) (cur : Z) : outcome (mstate * option Z) :=
  let b := ms_box s in
  if m_closed b then Done (s, Some j6_status_closed)
  else
    let* (w, cs) := wq_add_thread (ms_world s) (m_callers b) cur in
    let* (w, rs, r) := pop_next w (m_responders b) in
    let* w := match r with Some r => wake w r WaitQueue.j6_status_ok | None => Done w end in
    Done (MState w (ms_messages s) (ms_buffers s) (Mailbox false cs rs (m_reply_map b) (m_next_reply_tag b)), None).
Definition call (s : mstate) (cur : Z) : outcome (mstate * option Z) :=
  let* (s, r) := call_enter s cur in
  match r with
  | Some st => Done (s, Some st)
  | None => let* w := block (ms_world s) cur in Done (put_world s w, None)
  end.

Inductive received :=
  | R_message (reply_tag : Z) (m : option message)
  | R_status (st : Z)
  | R_blocked.

(** An iteration of the loop in [receive] and, when it found a caller, what follows the loop. *)
Definition receive_next (s : mstate) (cur : Z) (may_block : bool) : outcome (mstate * received) :=
  let b := ms_box s in
  let* (w, cs, caller) := pop_next (ms_world s) (m_callers b) in
  let b := Mailbox (m_closed b) cs (m_responders b) (m_reply_map b) (m_next_reply_tag b) in
  match caller with
  | Some c =>
      let rt := u64 (m_next_reply_tag b + 1) in
      let b := Mailbox (m_closed b) (m_callers b) (m_responders b) (<[rt := c]> (m_reply_map b)) rt in
      Done (MState w (delete c (ms_messages s)) (ms_buffers s) b, R_message rt (ms_messages s !! c))
  | None =>
      let s := MState w (ms_messages s) (ms_buffers s) b in
      if negb may_block then Done (s, R_status j6_status_would_block)
      else
        let* (w, rs) := wq_add_thread (ms_world s) (m_responders b) cur in
        let* w := block w cur in
        Done (MState w (ms_messages s) (ms_buffers s)
                (Mailbox (m_closed b) (m_callers b) rs (m_reply_map b) (m_next_reply_tag b)), R_blocked)
  end.
Definition receive (s : mstate) (cur : Z) (may_block : bool) : outcome (mstate * received) :=
  if m_closed (ms_box s) then Done (s, R_status j6_status_closed) else receive_next s cur may_block.
(** The return of [block] inside the loop, with the value the thread was woken with. *)
Definition receive_resume (s : mstate) (cur : Z) (may_block : bool) : outcome (mstate * received) :=
  let v := default 0 (wake_values (ms_world s) !! cur) in
  if negb (v =? WaitQueue.j6_status_ok) then Done (s, R_status v) else receive_next s cur may_block.

(** [thread::set_message_data]: the message the thread had, if any, is destroyed. *)
Definition set_message_data (s : mstate) (t : Z) (m : option message) : outcome mstate :=
  let* h := match ms_messages s !! t with Some old => clear_oob (ms_buffers s) old | None => Done (ms_buffers s) end in
  Done (MState (ms_world s) (partial_alter (λ _, m) t (ms_messages s)) h (ms_box s)).

Definition reply (s : mstate) (reply_tag : Z) (m : option message) : outcome (mstate * Z) :=
  let b := ms_box s in
  if m_closed b then Done (s, j6_status_closed)
  else
    match m_reply_map b !! reply_tag with
    | None => Done (s, WaitQueue.j6_err_invalid_arg)
    | Some c =>
        let s := put_box s (Mailbox (m_closed b) (m_callers b) (m_responders b)
                   (delete reply_tag (m_reply_map b)) (m_next_reply_tag b)) in
        let* s := set_message_data s c m in
        let* w := wake (ms_world s) c WaitQueue.j6_status_ok in
        Done (put_world s w, WaitQueue.j6_status_ok)
    end.

(** ** System calls *)

Section syscalls.
Context {S : Type} `{HandleSet S}.
Implicit Types (st : kstate S) (p : loc).

Fixpoint add_handles st p (hs : list Z) : outcome (kstate S) :=
  match hs with
  | [] => Done st
  | i :: hs => let* st := add_handle st p i in add_handles st p hs
  end.

(** What the caller or responder in process [p] gets out of a message, which is then destroyed: the
    handles become its own, and the tag, the data and the handles that fit are copied. *)
Definition take_message (h : buffers) (m : message) st p (data_size handles_size : Z)
    : outcome (buffers * kstate S * (Z * list Z * list Z)) :=
  let* hs := handles m in
  let* ds := data h m in
  let* st := add_handles st p hs in
  let dl := if Z.of_nat (length ds) <? data_size then Z.of_nat (length ds) else data_size in
  let hc := if Z.of_nat (length hs) <? handles_size then Z.of_nat (length hs) else handles_size in
  let* h := clear_oob h m in
  Done (h, st, (tag m, take (Z.to_nat dl) ds, take (Z.to_nat hc) hs)).

(** [mailbox_call]: making and sending the message, which is in memory that held [c], ... *)
Definition mailbox_call_enter (s : mstate) (cur : Z) (c : list Z) (t : Z) (in_data in_handles : list Z) (buf : Z)
    : outcome (mstate * option Z) :=
  let* (h, m) := message_make (ms_buffers s) c t in_data in_handles buf in
  let* s := set_message_data (MState (ms_world s) (ms_messages s) h (ms_box s)) cur (Some m) in
  call s cur.
(** ... and, when the thread runs again, taking the reply. *)
Definition mailbox_call_return (s : mstate) (cur : Z) st p (data_size handles_size : Z)
    : outcome (mstate * kstate S * (Z * option (Z * list Z * list Z))) :=
  let v := default 0 (wake_values (ms_world s) !! cur) in
  if negb (v =? WaitQueue.j6_status_ok) then Done (s, st, (v, None))
  else
    let* m := deref (ms_messages s !! cur) in
    let* (h, st, r) := take_message (ms_buffers s) m st p data_size handles_size in
    Done (MState (ms_world s) (delete cur (ms_messages s)) h (ms_box s), st, (WaitQueue.j6_status_ok, Some r)).

(** [mailbox_respond]: the reply when a tag is given, ... *)
Definition respond_reply (s : mstate) (reply_tag : Z) (c : list Z) (t : Z) (in_data in_handles : list Z) (buf : Z)
    : outcome (mstate * Z) :=
  if reply_tag =? 0 then Done (s, WaitQueue.j6_status_ok)
  else
    let* (h, m) := message_make (ms_buffers s) c t in_data in_handles buf in
    let* (s', r) := reply (MState (ms_world s) (ms_messages s) h (ms_box s)) reply_tag (Some m) in
    if r =? WaitQueue.j6_status_ok then Done (s', r)
    else
      let* h := clear_oob (ms_buffers s') m in
      Done (MState (ms_world s') (ms_messages s') h (ms_box s'), r).
(** ... then the next message. *)
Definition respond_receive (s : mstate) (cur : Z) (may_block : bool) st p (data_size handles_size : Z)
    : outcome (mstate * kstate S * (received * option (Z * list Z * list Z))) :=
  let* (s, r) := receive s cur may_block in
  match r with
  | R_message rt m =>
      let* m := deref m in
      let* (h, st, out) := take_message (ms_buffers s) m st p data_size handles_size in
      Done (MState (ms_world s) (ms_messages s) h (ms_box s), st, (r, Some out))
  | _ => Done (s, st, (r, None))
  end.
End syscalls.
Arguments mailbox_call_enter : simpl never.

(** ** Specifications *)

Ltac msimpl :=
  cbn [ms_box m_closed ms_world m_callers m_responders ms_messages ms_buffers m_reply_map m_next_reply_tag put_world put_box].
Ltac msimpl_all :=
  cbn [ms_box m_closed ms_world m_callers m_responders ms_messages ms_buffers m_reply_map m_next_reply_tag put_world put_box] in *.

(** The tags given out are those up to the next one. *)
Definition tags_ok (b : mailbox) : Prop :=
  0 ≤ m_next_reply_tag b < 2 ^ 64 - 1 ∧ ∀ rt c, m_reply_map b !! rt = Some c → 1 ≤ rt ≤ m_next_reply_tag b.
Record box_ok (s : mstate) : Prop := {
  bo_open : m_closed (ms_box s) = false;
  bo_held : held (ms_world s) (m_callers (ms_box s) ++ m_responders (ms_box s));
  bo_tags : tags_ok (ms_box s);
}.

(** A thread that can queue itself: it runs. *)
Definition runs (s : mstate) (cur : Z) : Prop :=
  can_block (ms_world s) (m_callers (ms_box s) ++ m_responders (ms_box s)) cur ∧
  is_waiting (ms_world s) cur = false.

(** [call] makes its thread wait after the other callers and wakes the first responder. *)
Record called (s : mstate) (cur : Z) (s' : mstate) : Prop := {
  cl_ok : box_ok s';
  cl_callers : m_callers (ms_box s') = m_callers (ms_box s) ++ [cur];
  cl_map : m_reply_map (ms_box s') = m_reply_map (ms_box s);
  cl_tag : m_next_reply_tag (ms_box s') = m_next_reply_tag (ms_box s);
  cl_messages : ms_messages s' = ms_messages s;
  cl_buffers : ms_buffers s' = ms_buffers s;
  cl_waits : is_waiting (ms_world s') cur = true;
  cl_others : ∀ t, t ≠ cur → is_waiting (ms_world s') t =
    is_waiting (ms_world s) t && negb (bool_decide (head (waiters (ms_world s) (m_responders (ms_box s))) = Some t));
}.

Lemma call_spec s cur : box_ok s → runs s cur → ∃ s', call s cur = Done (s', None) ∧ called s cur s'.
Proof.
  intros [Hop Hh Ht] [Hcb Hnw]. destruct s as [w ms bs [cl cs rs rm nt]]. msimpl_all. subst cl.
  destruct (add_spec w (cs ++ rs) cur Hh Hcb) as (w1 & Hadd & Hh1 & Hs1). unfold call, call_enter.
  msimpl.
  rewrite Hadd. cbn [mbind outcome_bind].
  assert (Hf : held w1 (rs ++ (cs ++ [cur]))).
  { eapply held_perm; [|exact Hh1]. rewrite (Permutation_app_comm rs), <-app_assoc. cbn. by rewrite <-Permutation_middle. }
  assert (H2 : ∃ w2 rs' r w3, pop_next w1 rs = Done (w2, rs', r) ∧
    match r with Some r => wake w2 r WaitQueue.j6_status_ok | None => Done w2 end = Done w3 ∧ held w3 (rs' ++ (cs ++ [cur])) ∧
    woken (match head (waiters w1 rs) with Some r => [r] | None => [] end) WaitQueue.j6_status_ok w1 w3).
  { destruct (waiters w1 rs) as [|r rest] eqn:Hw.
    - destruct (pop_next_frame (cs ++ [cur]) w1 rs Hf) as (w2 & rs' & Hpop & Hh2 & Hs2 & _). rewrite Hw in Hpop. cbn in Hpop.
      exists w2, rs', None, w2. split_and!; [done..|]. apply woken_nil; [apply not_elem_of_nil|done].
    - destruct (pop_wake_frame (cs ++ [cur]) w1 rs WaitQueue.j6_status_ok r rest Hf Hw) as (w2 & rs' & w3 & Hpop & Hwk & Hh3 & Hwo & _).
      by exists w2, rs', (Some r), w3. }
  destruct H2 as (w2 & rs' & r & w3 & -> & Hw3 & Hh3 & Hwo). cbn [mbind outcome_bind]. rewrite Hw3. cbn [mbind outcome_bind ms_world].
  destruct Hcb as (_ & th & Hth & Hex & _). destruct (same_states_exited _ _ _ _ Hs1 Hth) as (th1 & Hth1 & Hex1).
  destruct (woken_exited _ _ _ _ _ _ Hwo Hth1) as (th3 & Hth3 & Hex3).
  destruct (block_spec w3 _ cur th3 Hh3 Hth3) as (w4 & -> & Hh4 & Hw4 & Hout & _); [congruence|].
  cbn [mbind outcome_bind]. eexists. split; [done|]. split; msimpl; try done.
  - split; msimpl; [done| |exact Ht]. eapply held_perm; [|exact Hh4]. apply Permutation_app_comm.
  - intros t Hne. unfold is_waiting at 1. rewrite Hout by done. fold (is_waiting w3 t).
    rewrite (woken_waiting _ _ _ _ _ Hwo), (same_states_waiting w w1) by done. f_equal. f_equal.
    rewrite <-(same_states_waiters w w1 rs) by done. apply bool_decide_ext. destruct (head (waiters w1 rs)); [rewrite list_elem_of_singleton; split; congruence|].
    split; [intros ?%not_elem_of_nil|]; done.
Qed.

Lemma waiters_app w q q' : waiters w (q ++ q') = waiters w q ++ waiters w q'.
Proof. apply filter_app. Qed.

(** [receive] takes the caller that waited longest and gives it the next tag. *)
Lemma receive_spec s cur may_block c rest :
  box_ok s → m_next_reply_tag (ms_box s) + 1 < 2 ^ 64 - 1 →
  waiters (ms_world s) (m_callers (ms_box s)) = c :: rest →
  let rt := m_next_reply_tag (ms_box s) + 1 in
  ∃ s', receive s cur may_block = Done (s', R_message rt (ms_messages s !! c)) ∧ box_ok s' ∧
    same_states (ms_world s) (ms_world s') ∧ waiters (ms_world s') (m_callers (ms_box s')) = rest ∧
    m_reply_map (ms_box s') = <[rt := c]> (m_reply_map (ms_box s)) ∧ m_reply_map (ms_box s) !! rt = None ∧
    ms_messages s' = delete c (ms_messages s) ∧ ms_buffers s' = ms_buffers s.
Proof.
  intros [Hop Hh [Hnt Htags]] Hlim Hw. cbv zeta. destruct s as [w ms bs [cl cs rs rm nt]]. msimpl_all. subst cl.
  destruct (pop_next_frame rs w cs Hh) as (w1 & cs1 & Hpop & Hh1 & Hs1 & Hq1 & _).
  rewrite Hw in Hpop, Hq1. cbn [head tail] in *. unfold receive, receive_next.
  msimpl.
  rewrite Hpop. cbn [mbind outcome_bind]. rewrite wrap_small by (unfold is_word; lia).
  assert (Hnone : rm !! (nt + 1) = None) by (destruct (rm !! (nt + 1)) eqn:E; [apply Htags in E; lia|done]).
  eexists. split; [done|]. msimpl. split_and!; try done; [|by rewrite (same_states_waiters w w1)].
  split; msimpl; [done..|]. split; msimpl; [lia|]. intros rt x [[<- <-]|[_ Hx]]%lookup_insert_Some; msimpl; [lia|].
  apply Htags in Hx. lia.
Qed.

(** [reply] to a tag wakes its caller with the message, and uses the tag up. *)
Lemma reply_spec s rt c m :
  box_ok s → m_reply_map (ms_box s) !! rt = Some c → is_waiting (ms_world s) c = true →
  ms_messages s !! c = None →
  ∃ s', reply s rt (Some m) = Done (s', WaitQueue.j6_status_ok) ∧ box_ok s' ∧
    woken [c] WaitQueue.j6_status_ok (ms_world s) (ms_world s') ∧ ms_messages s' = <[c := m]> (ms_messages s) ∧
    ms_buffers s' = ms_buffers s ∧ m_reply_map (ms_box s') = delete rt (m_reply_map (ms_box s)).
Proof.
  intros [Hop Hh [Hnt Htags]] Hrt Hw Hm. destruct s as [w ms bs [cl cs rs rm nt]]. msimpl_all. subst cl.
  destruct (wake_spec w c WaitQueue.j6_status_ok (cs ++ rs) Hh Hw) as (w' & Hwake & Hh' & Hwk).
  unfold reply. msimpl. rewrite Hrt. unfold set_message_data. msimpl. rewrite Hm. cbn [mbind outcome_bind].
  msimpl. rewrite Hwake. cbn [mbind outcome_bind]. eexists. split; [done|]. msimpl. split_and!; try done. split; msimpl; [done..|]. split; msimpl; [done|].
  intros rt' x [_ Hx]%lookup_delete_Some. by apply Htags in Hx.
Qed.

(** A message is taken as it was made. *)
Lemma take_message_spec {S} `{HandleSet S} h t ds hs h' m (st st' : kstate S) p data_size handles_size :
  carries h t ds hs h' m → add_handles st p hs = Done st' →
  Z.of_nat (length ds) ≤ data_size → Z.of_nat (length hs) ≤ handles_size →
  take_message h' m st p data_size handles_size = Done (h, st', (t, ds, hs)).
Proof.
  intros [Ht Hsz Hc Hd Hh _ Hclr] Hst Hds Hhs. unfold take_message. rewrite Hh. cbn [mbind outcome_bind].
  rewrite Hd. cbn [mbind outcome_bind]. rewrite Hst. cbn [mbind outcome_bind]. rewrite Hclr. cbn [mbind outcome_bind].
  rewrite Ht. f_equal. f_equal. f_equal; [f_equal|]; apply take_ge; case_match; lia.
Qed.

(** ** Theorems *)

(** What a sender passes: handles and data that fit a message, in memory for one, with a buffer the
    allocator has free. *)
Record sendable (h : buffers) (c ds hs : list Z) (buf : Z) : Prop := {
  sn_memory : length c = 56%nat;
  sn_handles : Forall is_u64 hs;
  sn_fits : fits ds hs;
  sn_buffer : is_u64 buf;
  sn_fresh : h !! buf = None;
}.

Section exchange.
Context {S : Type} `{HandleSet S}.
Implicit Types (st : kstate S).

Lemma call_enter_spec s c mem t ds hs buf :
  box_ok s → runs s c → c ∉ m_callers (ms_box s) → waiters (ms_world s) (m_callers (ms_box s)) = [] →
  ms_messages s !! c = None → sendable (ms_buffers s) mem ds hs buf →
  ∃ s' m, mailbox_call_enter s c mem t ds hs buf = Done (s', None) ∧ box_ok s' ∧
    waiters (ms_world s') (m_callers (ms_box s')) = [c] ∧ ms_messages s' = <[c := m]> (ms_messages s) ∧
    m_next_reply_tag (ms_box s') = m_next_reply_tag (ms_box s) ∧ is_waiting (ms_world s') c = true ∧
    carries (ms_buffers s) t ds hs (ms_buffers s') m.
Proof.
  intros Hbox Hruns Hnin Hnone Hmsg []. destruct (make_spec (ms_buffers s) mem t ds hs buf) as (h & m & Hmk & Hcar); [done..|].
  unfold mailbox_call_enter. rewrite Hmk. cbn [mbind outcome_bind]. unfold set_message_data. msimpl. rewrite Hmsg.
  cbn [mbind outcome_bind]. set (s0 := MState _ _ _ _).
  assert (Hbox0 : box_ok s0) by (destruct Hbox; by split).
  destruct (call_spec s0 c Hbox0 Hruns) as (s' & Hcall & []). exists s', m. split; [done|]. split; [done|].
  split; [|rewrite cl_messages0, cl_buffers0, cl_tag0; done].
  rewrite cl_callers0, waiters_app. assert (E : waiters (ms_world s') (m_callers (ms_box s0)) = []).
  { apply elem_of_nil_inv. intros x [Hx Hin]%elem_waiters.
    assert (Hxc : x ≠ c) by (intros ->; done). rewrite cl_others0 in Hx by done. apply andb_true_iff in Hx as [Hx _].
    assert (Hx' : x ∈ waiters (ms_world s) (m_callers (ms_box s))) by (by apply elem_waiters).
    rewrite Hnone in Hx'. by apply not_elem_of_nil in Hx'. }
  rewrite E. unfold waiters. by rewrite filter_cons_True.
Qed.

End exchange.

(** Thread 1 calls, thread 2 waits to respond. *)
Definition caller : thread := Thread 1 0 0 0 st_ready 0 4.
Definition responder : thread := Thread 1 0 0 0 0 0 5.
Definition race_box : mstate :=
  MState (World {[1 := caller; 2 := responder]} ∅) ∅ ∅ (Mailbox false [] [2] ∅ 0).
(** [call] wakes the responder before it blocks: the responder runs on another CPU in between. *)
Definition race_run : outcome (mstate * received) :=
  let* (s, _) := call_enter race_box 1 in
  let* (s, r) := receive_resume s 2 true in
  let* w := block (ms_world s) 1 in
  Done (put_world s w, r).


(** ** Witness *)

Definition demo_box : mstate := MState (World {[1 := caller; 2 := caller]} ∅) ∅ ∅ mailbox_init.
Lemma demo_box_ok : box_ok demo_box.
Proof. split; [done|by intros t ?%not_elem_of_nil|]. split; [done|]. intros rt c Hx. done. Qed.
Lemma demo_runs : runs demo_box 1.
Proof. split; [|reflexivity]. split; [done|]. exists caller. split; [reflexivity|]. by vm_compute. Qed.
Lemma demo_sendable ds hs : Z.of_nat (length ds) < 2 ^ 16 → Forall is_u64 hs → Z.of_nat (length hs) ≤ 6 →
  sendable ∅ (replicate 56 0) ds hs 0x4000.
Proof.
  intros Hds Hhs Hl. split; [done|done| |done|done]. unfold fits, content_size, message_size. cbv zeta.
  split; [done|]. split; [lia|right; lia].
Qed.
(** Process 1 receives handle 2, which it can use already. *)
Definition after_gift : kstate (node_map Z) :=
  match add_handles after_two 1%positive [2] with Done st => st | _ => boot end.

