(* ===== verification/ThreadLife.v ===== *)
(** * The life of threads and processes

    Models the process's part of src/kernel/objects/process.cpp ([create_thread], [thread_exited], [exit]),
    the constructor and [exit] of objects/thread.cpp, and the system calls of syscalls/thread.cpp and
    syscalls/process.cpp that start and end threads.  The three functions that end threads call each other;
    they are one recursion with fuel, and a call that ends the calling thread does not return.  The threads
    are those of the scheduler (Scheduler.v), with their wait queues (WaitQueue.v); a thread lives until its
    last handle is released.  Process objects are never deleted, so their handles are not counted.

    The handles of a thread are accounted for: one is its process's, until the thread exits, one is the run
    queue's, one belongs to each place in a join queue, and the others are capabilities and wait queues.
    [threads_never_dangle] shows that under all interleavings of the operations, with [schedule] on any CPU,
    a thread is deleted only when nothing refers to it and that a process which has exited has no thread
    left.  [killed_twice_dangles] shows that a second kill takes a handle that is not the process's. *)
From S2P Require Import Prelude Scheduler WaitQueue.

(** ** State *)

Inductive proc_state := running | exited.
#[global] Instance proc_state_eq_dec : EqDecision proc_state.
Proof. solve_decision. Defined.
Record process := Process { p_state : proc_state; m_return_code : Z; m_threads : list Z }.
(** The fields of a thread that neither the scheduler nor the wait queues use. *)
Record kthread := KThread { m_parent : Z; m_join_queue : list Z }.

Record life := Life {
  sch : scheduler;
  wakes : gmap Z Z;          (** [m_wake_value] *)
  kthreads : gmap Z kthread;
  procs : gmap Z process;
}.
Definition world_of (l : life) : world := World (tcbs (sch l)) (wakes l).
Definition with_tcbs (s : scheduler) (ts : threads) : scheduler := Scheduler ts (m_run_queues s) (m_add_index s) (m_steal_turn s).
Definition with_world (l : life) (w : world) : life := Life (with_tcbs (sch l) (ths w)) (wake_values w) (kthreads l) (procs l).
Definition put_thread (l : life) (t : Z) (th : thread) : life := with_world l (World (<[t := th]> (tcbs (sch l))) (wakes l)).
Definition put_queue (l : life) (t : Z) (kt : kthread) (q : list Z) : life :=
  Life (sch l) (wakes l) (<[t := KThread (m_parent kt) q]> (kthreads l)) (procs l).
Definition put_proc (l : life) (p : Z) (pr : process) : life := Life (sch l) (wakes l) (kthreads l) (<[p := pr]> (procs l)).

(** The members of a thread object, which is gone when the scheduler's map has no entry for it. *)
Definition the_thread (l : life) (t : Z) : outcome thread := deref (tcbs (sch l) !! t).
Definition the_kthread (l : life) (t : Z) : outcome kthread := let* _ := the_thread l t in deref (kthreads l !! t).

(** ** [create_thread] *)

Definition process_default_priority : Z := 0xff.
Definition default_priority : Z := 1.

(** The constructor of a thread at [t]; [junk] is what its memory held. *)
Definition new_thread (l : life) (t p pri : Z) (junk : thread) : life :=
  Life (with_tcbs (sch l) (<[t := Thread pri (time_left junk) (last_ran junk) (cpu junk) 0 0 0]> (tcbs (sch l))))
    (<[t := 0]> (wakes l)) (<[t := KThread p []]> (kthreads l)) (procs l).
Definition create_thread (l : life) (p t pri : Z) (junk : thread) : outcome (option Z * life) :=
  let* pr := deref (procs l !! p) in
  if decide (p_state pr = exited) then Done (None, l)
  else
    let pri := if pri =? process_default_priority then default_priority else pri in
    let l := new_thread l t p pri junk in
    let* w := handle_retain (world_of l) t in
    let l := with_world l w in
    let l := put_proc l p (Process (p_state pr) (m_return_code pr) (m_threads pr ++ [t])) in
    let* s := add_thread (sch l) t in
    Done (Some t, Life s (wakes l) (kthreads l) (procs l)).

(** ** Ending threads *)

(** [remove_swap]: the last item takes the place of the item, if it is there. *)
Fixpoint remove_swap (t : Z) (l : list Z) : list Z :=
  match l with
  | [] => []
  | x :: l => if x =? t then match last l with Some y => y :: removelast l | None => [] end else x :: remove_swap t l
  end.

(** A call returns to its caller, or it has stopped the thread that made it. *)
Inductive flow := Returns (l : life) | Stops (l : life).
Definition state_of (f : flow) : life := match f with Returns l | Stops l => l end.
Definition then_do (f : flow) (k : life → outcome flow) : outcome flow :=
  match f with Returns l => k l | Stops l => Done (Stops l) end.

(** The loop over the process's threads, other than the running one. *)
Fixpoint exit_loop (thread_exit : life → Z → outcome flow) (l : life) (cur : Z) (ts : list Z) : outcome flow :=
  match ts with
  | [] => Done (Returns l)
  | t :: ts =>
      if t =? cur then exit_loop thread_exit l cur ts
      else
        let* f := thread_exit l t in
        then_do f (λ l, exit_loop thread_exit l cur ts)
  end.

(** [thread::exit], [process::thread_exited] and [process::exit], run by the thread [cur]. *)
Fixpoint thread_exit (fuel : nat) (l : life) (cur t : Z) : outcome flow :=
  match fuel with
  | O => Diverge
  | S fuel =>
      let* th := the_thread l t in
      let l := put_thread l t (set_state (set_wake_timeout th 0) st_exited) in
      let* kt := the_kthread l t in
      let* f := thread_exited fuel l cur (m_parent kt) t in
      then_do f (λ l,
        let* kt := the_kthread l t in
        let* (w, q) := clear (world_of l) (m_join_queue kt) 0 in
        let l := put_queue (with_world l w) t kt q in
        let* w := block (world_of l) t in
        let l := with_world l w in
        Done (if cur =? t then Stops l else Returns l))
  end
with thread_exited (fuel : nat) (l : life) (cur p t : Z) : outcome flow :=
  match fuel with
  | O => Diverge
  | S fuel =>
      let* kt := the_kthread l t in
      let* _ := kassert (m_parent kt =? p) in
      let* pr := deref (procs l !! p) in
      let* f :=
        if decide (p_state pr = exited) then Done (Returns l)
        else
          let ts := remove_swap t (m_threads pr) in
          let l := put_proc l p (Process (p_state pr) (m_return_code pr) ts) in
          match ts with
          | [] => process_exit fuel l cur p (-1)
          | _ => Done (Returns l)
          end in
      then_do f (λ l,
        let* w := handle_release (world_of l) t in
        Done (Returns (with_world l w)))
  end
with process_exit (fuel : nat) (l : life) (cur p code : Z) : outcome flow :=
  match fuel with
  | O => Diverge
  | S fuel =>
      let* pr := deref (procs l !! p) in
      if decide (p_state pr = exited) then Done (Returns l)
      else
        let l := put_proc l p (Process exited code (m_threads pr)) in
        let* f := exit_loop (λ l t, thread_exit fuel l cur t) l cur (m_threads pr) in
        then_do f (λ l,
          let* kc := the_kthread l cur in
          if m_parent kc =? p then thread_exit fuel l cur cur else Done (Returns l))
  end.

(** [exit] of a thread calls [exit] of its process, which calls [exit] of another thread. *)
Definition exit_depth : nat := 5.

(** ** System calls *)

(** [thread_create], up to the new handle, which retains the thread. *)
Definition thread_create (l : life) (p t : Z) (junk : thread) : outcome life :=
  let* (child, l) := create_thread l p t process_default_priority junk in
  let* child := deref child in
  let* w := handle_retain (world_of l) child in
  let l := with_world l w in
  let* th := the_thread l child in
  Done (put_thread l child (set_state th st_ready)).
Definition thread_kill (l : life) (cur self : Z) : outcome flow := thread_exit exit_depth l cur self.
(** [thread_exit]: [th.exit()] does not return. *)
Definition thread_exit_call (l : life) (cur : Z) : outcome flow := thread_exit exit_depth l cur cur.
Definition thread_join (l : life) (cur self : Z) : outcome (option Z * life) :=
  let* kt := the_kthread l self in
  let* (w, q, r) := join (world_of l) self (m_join_queue kt) cur in
  Done (r, put_queue (with_world l w) self kt q).
Definition thread_sleep (l : life) (cur duration now : Z) : outcome life :=
  let* th := the_thread l cur in
  let l := put_thread l cur (set_wake_timeout th (u64 (now + duration))) in
  let* w := block (world_of l) cur in
  Done (with_world l w).
(** [-1u] is an unsigned number that is made wider. *)
Definition process_kill (l : life) (cur self : Z) : outcome flow := process_exit exit_depth l cur self (2 ^ 32 - 1).
Definition process_exit_call (l : life) (cur status : Z) : outcome flow :=
  let* kc := the_kthread l cur in
  process_exit exit_depth l cur (m_parent kc) status.

(** ** Handles *)

(** The sum of a function over a map. *)
Definition map_sum {A} (f : A → Z) (m : gmap Z A) : Z := map_fold (λ _ a s, f a + s) 0 m.
Lemma map_sum_new {A} (f : A → Z) m i a : m !! i = None → map_sum f (<[i := a]> m) = f a + map_sum f m.
Proof. intros Hi. unfold map_sum. rewrite (map_fold_insert_L (λ _ a s, f a + s)); [done| |done]. intros. lia. Qed.
Lemma map_sum_delete {A} (f : A → Z) m i a : m !! i = Some a → map_sum f m = f a + map_sum f (delete i m).
Proof. intros Hi. rewrite <-(insert_delete_id m i a Hi) at 1. apply map_sum_new, lookup_delete_eq. Qed.
Lemma map_sum_insert {A} (f : A → Z) m i a b : m !! i = Some a → map_sum f (<[i := b]> m) = map_sum f m - f a + f b.
Proof.
  intros Hi. rewrite (map_sum_delete f m i a Hi), (map_sum_delete f (<[i := b]> m) i b) by apply lookup_insert_eq.
  rewrite delete_insert_eq. lia.
Qed.
Lemma map_sum_nonneg {A} (f : A → Z) m : (∀ a, 0 ≤ f a) → 0 ≤ map_sum f m.
Proof.
  intros Hf. induction m as [|i a m Hi IH] using map_ind; [done|]. rewrite map_sum_new by done. specialize (Hf a). lia.
Qed.
Lemma map_sum_ge {A} (f : A → Z) m i a : (∀ a, 0 ≤ f a) → m !! i = Some a → f a ≤ map_sum f m.
Proof. intros Hf Hi. rewrite (map_sum_delete f m i a Hi). pose proof (map_sum_nonneg f (delete i m) Hf). lia. Qed.

Abbreviation members_of l := (all_members (m_run_queues (sch l))).
Abbreviation core_of l t := (@fmap option _ _ _ core (tcbs (sch l) !! t)).
(** The places of a thread in join queues, and the handles to it other than its process's. *)
Definition joins (ks : gmap Z kthread) (t : Z) : Z := map_sum (λ kt, Z.of_nat (held_by (m_join_queue kt) t)) ks.
Definition refs (R : Z → Z) (l : life) (t : Z) : Z :=
  (if decide (t ∈ members_of l) then 1 else 0) + joins (kthreads l) t + R t.
Definition alive (l : life) (t : Z) : Prop := ∃ n, core_of l t = Some (false, n).

(** [X] are threads of a process that has exited which are yet to exit themselves, [Y] threads that have
    exited and are yet to clear their queue, and [R] counts the handles of capabilities and wait queues. *)
Definition thread_ok (R : Z → Z) (X Y : list Z) (l : life) (t : Z) (kt : kthread) : Prop :=
  match core_of l t with
  | Some (x, n) =>
      n = (if x then 0 else 1) + refs R l t ∧ 0 < n < 2 ^ 16 ∧
      if x then m_join_queue kt = [] ∨ t ∈ Y
      else t ∈ members_of l ∧ (t ∈ X ∨ ∃ pr, procs l !! m_parent kt = Some pr ∧ p_state pr = running ∧ t ∈ m_threads pr)
  | None => refs R l t = 0 ∧ m_join_queue kt = []
  end.
Record linv (idle : nat → Z) (R : Z → Z) (X Y : list Z) (l : life) : Prop := {
  li_sch : sinv idle (sch l);
  li_R t : 0 ≤ R t;
  li_idle k : (k < length (m_run_queues (sch l)))%nat → kthreads l !! idle k = None;
  li_thread t kt : kthreads l !! t = Some kt → thread_ok R X Y l t kt;
  li_parent t kt : kthreads l !! t = Some kt → is_Some (procs l !! m_parent kt);
  li_queue t kt : kthreads l !! t = Some kt → Forall (λ x, x ≠ 0 ∧ is_Some (kthreads l !! x)) (m_join_queue kt);
  li_proc p pr : procs l !! p = Some pr → p_state pr = running →
    NoDup (m_threads pr) ∧ ∀ t, t ∈ m_threads pr → ∃ kt, kthreads l !! t = Some kt ∧ m_parent kt = p ∧ alive l t;
}.

Lemma joins_nonneg ks t : 0 ≤ joins ks t.
Proof. apply map_sum_nonneg. intros. lia. Qed.
Lemma joins_ge ks t kt x : ks !! t = Some kt → Z.of_nat (held_by (m_join_queue kt) x) ≤ joins ks x.
Proof. intros Hk. apply (map_sum_ge (λ kt, Z.of_nat (held_by (m_join_queue kt) x)) _ t kt); [intros; lia|done]. Qed.
Lemma refs_nonneg R l t : 0 ≤ R t → 0 ≤ refs R l t.
Proof. intros. unfold refs. pose proof (joins_nonneg (kthreads l) t). case_decide; lia. Qed.
Lemma refs_member R l t : 0 ≤ R t → t ∈ members_of l → 1 ≤ refs R l t.
Proof. intros. unfold refs. pose proof (joins_nonneg (kthreads l) t). rewrite decide_True by done. lia. Qed.

(** Changes of the threads that the run queues do not see. *)
Lemma sinv_same idle s ts' :
  sinv idle s →
  (∀ t th, t ∈ all_members (m_run_queues s) → tcbs s !! t = Some th →
    ∃ th', ts' !! t = Some th' ∧ priority th' = priority th ∧ cpu th' = cpu th) →
  (∀ k, (k < length (m_run_queues s))%nat → ts' !! idle k = tcbs s !! idle k) → sinv idle (with_tcbs s ts').
Proof.
  intros [Hn Hq Hc Hi] Hts Hidle.
  assert (Hin : ∀ k q t, m_run_queues s !! k = Some q → t ∈ members q → t ∈ all_members (m_run_queues s)).
  { intros k q t Hk Ht. apply (elem_join _ k (members q)); [by rewrite list_lookup_fmap, Hk|done]. }
  assert (Hg : ∀ k q j P t, (∀ th th', priority th' = priority th → P th → P th') → m_run_queues s !! k = Some q → t ∈ members q →
    good j P (tcbs s) t → good j P ts' t).
  { intros k q j P t HP Hk Ht (th & Hth & Hp & Hcpu). destruct (Hts t th) as (th' & ? & ? & ?); [by eapply Hin|done|].
    exists th'. split_and!; [done|by eapply HP|congruence]. }
  split; cbn [with_tcbs m_run_queues tcbs]; [done|..].
  - intros k q Hk. destruct (Hq k q Hk) as [Hl Hr Hb]. split; [done|..].
    + intros p lp t Hp Ht. apply (Hg k q); [|done|right; by eapply elem_ready|by eapply Hr].
      unfold has_priority. intros; congruence.
    + intros t Ht. apply (Hg k q); [|done|right; by apply elem_blocked|by apply Hb]. unfold any_thread. intros ? ? ->. done.
  - intros k q Hk. apply (Hg k q); [|done|left|by apply Hc]. unfold any_thread. intros ? ? ->. done.
  - intros k q Hk. destruct (Hi k q Hk) as [(th & Hth & ?) ?]. split; [|done]. exists th.
    rewrite Hidle by (by eapply lookup_lt_Some). done.
Qed.

(** The count of a thread changes by a number, and at 0 it is deleted. *)
Definition shift (d : Z) (c : option (bool * Z)) : option (bool * Z) :=
  c ≫= λ '(x, n), if n + d =? 0 then None else Some (x, n + d).
Lemma linv_shift idle R X Y l R' Y' l' :
  linv idle R X Y l → sinv idle (sch l') → length (m_run_queues (sch l')) = length (m_run_queues (sch l)) → procs l' = procs l →
  (∀ x, m_parent <$> kthreads l' !! x = m_parent <$> kthreads l !! x) →
  (∀ x kx, kthreads l' !! x = Some kx → Forall (λ y, y ≠ 0 ∧ is_Some (kthreads l !! y)) (m_join_queue kx) ∧
    (m_join_queue kx = [] ∨ x ∈ Y' ∨ alive l x)) →
  (∀ x, 0 ≤ R' x) → (∀ x, x ∈ Y' → x ∈ members_of l') →
  (∀ x, x ∈ members_of l → alive l x → x ∈ members_of l') →
  (∀ x, is_Some (kthreads l !! x) → let d := refs R' l' x - refs R l x in
    core_of l' x = shift d (core_of l x) ∧ match core_of l x with Some (_, n) => n + d < 2 ^ 16 | None => d ≤ 0 end) →
  linv idle R' X Y' l'.
Proof.
  intros [Hs HR Hid Hth Hpar Hqu Hpr] Hs' Hlen Hp Hks Hq HR' HY Hmem Hc.
  assert (Hk : ∀ x kx', kthreads l' !! x = Some kx' → ∃ kx, kthreads l !! x = Some kx ∧ m_parent kx' = m_parent kx).
  { intros x kx' Hx. specialize (Hks x). rewrite Hx in Hks. destruct (kthreads l !! x) as [kx|]; [|done]. injection Hks as ?. by exists kx. }
  assert (Hlive : ∀ x, is_Some (kthreads l !! x) → alive l x → alive l' x).
  { intros x [kx Hx] [n Hn]. destruct (Hc x ltac:(eauto)) as [E _]. specialize (Hth x kx Hx). unfold thread_ok in Hth. rewrite Hn in Hth, E.
    destruct Hth as (-> & _ & _). exists (1 + refs R' l' x). rewrite E. cbn. pose proof (refs_nonneg R' l' x (HR' x)).
    rewrite (proj2 (Z.eqb_neq _ _)) by lia. do 2 f_equal. lia. }
  split; [done|done|..].
  - intros k Hk'. rewrite Hlen in Hk'. specialize (Hks (idle k)). rewrite (Hid k Hk') in Hks. by destruct (kthreads l' !! idle k).
  - intros t kt' Ht'. destruct (Hk t kt' Ht') as (kt & Ht & Epar). destruct (Hc t ltac:(eauto)) as [E Hb].
    specialize (Hth t kt Ht). unfold thread_ok in *. pose proof (refs_nonneg R' l' t (HR' t)) as Hn0. pose proof (refs_nonneg R l t (HR t)).
    destruct (Hq t kt' Ht') as [_ Hq']. destruct (core_of l t) as [[x n]|] eqn:Ec; rewrite E; cbn [shift mbind option_bind].
    + destruct Hth as (-> & Hn & Hx). destruct (Z.eqb_spec ((if x then 0 else 1) + refs R l t + (refs R' l' t - refs R l t)) 0) as [Hz|Hz].
      * destruct x; [|lia]. split; [lia|]. destruct Hq' as [|[Hy|[m Hm]]]; [done| |congruence].
        pose proof (refs_member R' l' t (HR' t) (HY t Hy)). lia.
      * split; [lia|]. split; [destruct x; lia|]. destruct x.
        -- destruct Hq' as [|[|[m Hm]]]; [by left|by right|congruence].
        -- destruct Hx as [Hx1 Hx2]. split; [apply Hmem; [done|by exists (1 + refs R l t)]|]. by rewrite Epar, Hp.
    + destruct Hth as [H0 _]. split; [lia|]. destruct Hq' as [|[Hy|[m Hm]]]; [done| |congruence].
      pose proof (refs_member R' l' t (HR' t) (HY t Hy)). lia.
  - intros t kt' Ht'. destruct (Hk t kt' Ht') as (kt & Ht & ->). rewrite Hp. by apply (Hpar t kt).
  - intros t kt' Ht'. destruct (Hq t kt' Ht') as [Hf _]. eapply Forall_impl; [exact Hf|]. intros y [? [ky Hy]]. split; [done|].
    specialize (Hks y). rewrite Hy in Hks. by destruct (kthreads l' !! y).
  - intros p pr. rewrite Hp. intros Hpp Hrun. destruct (Hpr p pr Hpp Hrun) as [Hnd Hall]. split; [done|]. intros t Ht.
    destruct (Hall t Ht) as (kt & Hkt & Hpar' & Hal). specialize (Hks t). rewrite Hkt in Hks.
    destruct (kthreads l' !! t) as [kt'|] eqn:Ekt'; [|done]. injection Hks as Ek. exists kt'. split_and!; [done|congruence|]. apply Hlive; eauto.
Qed.

(** ** Clearing a queue *)

(** [clear], thread by thread. *)
Fixpoint drain (w : world) (q : list Z) (v : Z) : outcome world :=
  match q with
  | [] => Done w
  | t :: q =>
      let* th := deref (ths w !! t) in
      let* w :=
        if waits th then
          let* _ := kassert (negb (t =? 0)) in
          let* w := handle_release w t in
          wake w t v
        else handle_release w t in
      drain w q v
  end.
Lemma clear_loop_drain v q : ∀ fuel w, (length q < fuel)%nat → clear_loop fuel w q v = let* w := drain w q v in Done (w, []).
Proof.
  induction q as [|t q IH]; intros [|fuel] w Hf; cbn [length] in Hf; [lia|done|lia|]. cbn [clear_loop drain]. unfold pop_next. cbn [pop_exited].
  unfold waits. destruct (ths w !! t) as [th|]; [|done]. cbn [deref mbind outcome_bind].
  destruct (negb (has_state th st_exited) && negb (has_state th st_ready)); cbn [mbind outcome_bind].
  - destruct (kassert (negb (t =? 0))); [|done..]. cbn [mbind outcome_bind]. destruct (handle_release w t) as [w1| | |]; [|done..].
    cbn [mbind outcome_bind]. destruct (wake w1 t v) as [w2| | |]; [|done..]. cbn [mbind outcome_bind]. apply IH. lia.
  - destruct (handle_release w t) as [w1| | |]; [|done..]. cbn [mbind outcome_bind]. rewrite <-(IH (S fuel) w1) by lia. done.
Qed.

(** The thread of an entry in a queue of threads, which have [base] handles besides it. *)
Definition drained (base : Z → Z) (q : list Z) (t : Z) (o : option thread) : option thread :=
  if decide (t ∈ q) then
    if base t =? 0 then None else (λ th, put_handles (if waits th then wake_only th else th) (base t)) <$> o
  else o.
Lemma held_by_elem q t : t ∈ q ↔ (0 < held_by q t)%nat.
Proof.
  induction q as [|x q IH]; [split; [by intros ?%not_elem_of_nil|cbn; lia]|]. rewrite held_by_cons, elem_of_cons. case_decide as Hx; [split; [lia|by left]|].
  rewrite IH. split; [intros [->|]; [done|lia]|intros; right; lia].
Qed.
Lemma waits_put_handles th n : waits (put_handles th n) = waits th.
Proof. done. Qed.
Lemma waits_wake_only th : waits (wake_only th) = false.
Proof. unfold waits. rewrite wake_only_ready. apply andb_false_r. Qed.

Lemma drain_spec base v q : ∀ w,
  (∀ t, t ∈ q → t ≠ 0 ∧ 0 ≤ base t ∧ ∃ th, ths w !! t = Some th ∧ m_handle_count th = base t + Z.of_nat (held_by q t) ∧
    m_handle_count th < 2 ^ 16 ∧ (waits th = true → 0 < base t)) →
  ∃ w', drain w q v = Done w' ∧ (∀ t, ths w' !! t = drained base q t (ths w !! t)) ∧
    ∀ t, wake_values w' !! t = if decide (t ∈ q ∧ is_waiting w t = true) then Some v else wake_values w !! t.
Proof.
  induction q as [|t q IH]; intros w Hq.
  { exists w. split; [done|]. split; intros t; [unfold drained|]; rewrite decide_False; [done| |done|]; [by intros ?%not_elem_of_nil|by intros [?%not_elem_of_nil _]]. }
  destruct (Hq t) as (H0 & Hb & th & Hth & Hn & Hmax & Hw); [by left|]. rewrite held_by_cons, decide_True in Hn by done. cbn [drain].
  rewrite Hth. cbn [deref mbind outcome_bind].
  set (th1 := put_handles (if waits th then wake_only th else th) (m_handle_count th - 1)).
  set (ts1 := if base t + Z.of_nat (held_by q t) =? 0 then delete t (ths w) else <[t := th1]> (ths w)).
  set (w1 := World ts1 (if waits th then <[t := v]> (wake_values w) else wake_values w)).
  assert (Hrun : (if waits th then let* _ := kassert (negb (t =? 0)) in let* w := handle_release w t in wake w t v else handle_release w t) = Done w1).
  { unfold handle_release. rewrite Hth. cbn [deref mbind outcome_bind put_handles m_handle_count].
    rewrite wrap_small by (unfold is_word; lia). unfold w1, ts1, th1. replace (m_handle_count th - 1) with (base t + Z.of_nat (held_by q t)) by lia.
    destruct (waits th) eqn:Ew; [|by destruct (_ =? 0)]. rewrite (proj2 (Z.eqb_neq t 0)) by done. cbn [negb kassert mbind outcome_bind].
    specialize (Hw eq_refl). rewrite (proj2 (Z.eqb_neq (base t + _) 0)) by lia. unfold wake. cbn [ths]. rewrite lookup_insert_eq. cbn [deref mbind outcome_bind].
    unfold waits in Ew. apply andb_true_iff in Ew as [_ Er]. unfold has_state in *. cbn [m_state put_handles]. apply negb_true_iff in Er. rewrite Er.
    cbn [wake_values]. by rewrite insert_insert_eq. }
  rewrite Hrun. cbn [mbind outcome_bind].
  assert (Hts : ∀ x, x ≠ t → ts1 !! x = ths w !! x) by (intros x Hx; unfold ts1; destruct (base t + _ =? 0); [by apply lookup_delete_ne|by apply lookup_insert_ne]).
  destruct (IH w1) as (w' & Hw' & Hd & Hv).
  { intros x Hx. destruct (Hq x) as (? & ? & thx & Hthx & Hnx & ? & ?); [by right|]. split; [done|]. split; [done|]. rewrite held_by_cons in Hnx.
    destruct (decide (t = x)) as [<-|Hne].
    - apply held_by_elem in Hx. exists th1. cbn [w1 ths]. unfold ts1. rewrite (proj2 (Z.eqb_neq _ _)), lookup_insert_eq by lia.
      assert (m_handle_count th1 = m_handle_count th - 1) as -> by done. split_and!; [done|lia|lia|].
      intros Hw1. assert (Hf : waits th1 = false) by (unfold th1; rewrite waits_put_handles; destruct (waits th) eqn:E; [apply waits_wake_only|done]). congruence.
    - exists thx. cbn [w1 ths]. rewrite Hts by done. split_and!; [done|lia|done|done]. }
  exists w'. split; [done|]. split; intros x.
  - rewrite Hd. cbn [w1 ths]. unfold drained. destruct (decide (x = t)) as [->|Hne].
    + rewrite (decide_True (P := t ∈ t :: q)) by (by left). rewrite Hth. unfold ts1. destruct (decide (t ∈ q)) as [Hin|Hout].
      * apply held_by_elem in Hin as Hpos. rewrite (proj2 (Z.eqb_neq (base t + _) 0)), lookup_insert_eq by lia. destruct (base t =? 0); [done|]. cbn. f_equal.
        unfold th1. rewrite waits_put_handles. destruct (waits th) eqn:E; [rewrite waits_wake_only; done|by rewrite E].
      * assert (Hz : held_by q t = 0%nat) by (rewrite held_by_elem in Hout; lia). rewrite Hz, Z.add_0_r. rewrite Hz in Hn.
        destruct (base t =? 0); [apply lookup_delete_eq|]. rewrite lookup_insert_eq. cbn. f_equal. unfold th1. f_equal. rewrite Hn. lia.
    + rewrite Hts by done. by rewrite (decide_ext (x ∈ t :: q) (x ∈ q)) by (rewrite elem_of_cons; naive_solver).
  - rewrite Hv. unfold is_waiting. cbn [w1 ths wake_values]. destruct (decide (x = t)) as [->|Hne].
    + assert (Hf : match ts1 !! t with Some th => waits th | None => false end = false).
      { unfold ts1. destruct (base t + _ =? 0); [by rewrite lookup_delete_eq|]. rewrite lookup_insert_eq. unfold th1. rewrite waits_put_handles. destruct (waits th) eqn:E; [apply waits_wake_only|done]. }
      rewrite Hf, decide_False by naive_solver. rewrite Hth. destruct (waits th) eqn:E; [rewrite decide_True, lookup_insert_eq by (split; [by left|done]); done|].
      by rewrite decide_False by naive_solver.
    + rewrite Hts by done. assert (E : (if waits th then <[t:=v]> (wake_values w) else wake_values w) !! x = wake_values w !! x) by (destruct (waits th); [by apply lookup_insert_ne|done]).
      rewrite E. repeat case_decide; set_solver.
Qed.

(** ** The invariant under changes of the threads *)

(** The run queues stay, and each thread's count changes by its entries in join queues and the handles [R]. *)
Lemma linv_world idle R X Y l R' Y' ts' wv' ks' :
  linv idle R X Y l →
  (∀ x, m_parent <$> ks' !! x = m_parent <$> kthreads l !! x) →
  (∀ x kx, ks' !! x = Some kx → Forall (λ y, y ≠ 0 ∧ is_Some (kthreads l !! y)) (m_join_queue kx) ∧
    (m_join_queue kx = [] ∨ x ∈ Y' ∨ alive l x)) →
  (∀ x, 0 ≤ R' x) → (∀ x, x ∈ Y' → x ∈ members_of l) →
  (∀ x th th', tcbs (sch l) !! x = Some th → ts' !! x = Some th' → priority th' = priority th ∧ cpu th' = cpu th) →
  (∀ x, kthreads l !! x = None → ts' !! x = tcbs (sch l) !! x) →
  (∀ x, is_Some (kthreads l !! x) → let d := joins ks' x - joins (kthreads l) x + (R' x - R x) in
    core <$> ts' !! x = shift d (core_of l x) ∧ match core_of l x with Some (_, n) => n + d < 2 ^ 16 | None => d ≤ 0 end) →
  linv idle R' X Y' (Life (with_tcbs (sch l) ts') wv' ks' (procs l)).
Proof.
  intros Hl Hks Hq HR' HY Hpri Hout Hc. set (l' := Life _ _ _ _).
  assert (Hd : ∀ x, refs R' l' x - refs R l x = joins ks' x - joins (kthreads l) x + (R' x - R x)) by (intros x; unfold refs; change (members_of l') with (members_of l); change (kthreads l') with ks'; lia).
  apply (linv_shift idle R X Y l); [done| |done|done|done|done|done|done|done|].
  - apply sinv_same; [apply Hl| |].
    + intros t th Ht Hth. assert (He : ∃ th', ts' !! t = Some th'); [|destruct He as [th' Hth']; exists th'; split; [done|by apply (Hpri t)]].
      destruct (kthreads l !! t) as [kt|] eqn:Ek; [|exists th; by rewrite Hout].
      destruct (Hc t) as [E _]; [by rewrite Ek|]. pose proof (li_thread _ _ _ _ _ Hl t kt Ek) as Hok. unfold thread_ok in Hok.
      rewrite Hth in Hok, E. cbn [fmap option_fmap option_map core] in Hok, E. destruct Hok as (Hn & _ & _). rewrite <-Hd in E.
      assert (refs R l t ≤ m_handle_count th) by (rewrite Hn; case_match; lia).
      cbn [shift mbind option_bind] in E. unfold core at 2 in E. pose proof (refs_member R' l' t (HR' t) Ht). rewrite (proj2 (Z.eqb_neq _ _)) in E by lia.
      destruct (ts' !! t) as [th'|]; [by exists th'|done].
    + intros k Hk. by apply Hout, (li_idle _ _ _ _ _ Hl).
  - intros x Hx. cbv zeta. rewrite Hd. by apply Hc.
Qed.

Definition bump (t d : Z) (R : Z → Z) : Z → Z := λ x, if x =? t then R x + d else R x.
Lemma bump_eq t d R : bump t d R t = R t + d.
Proof. unfold bump. by rewrite Z.eqb_refl. Qed.
Lemma bump_ne t d R x : x ≠ t → bump t d R x = R x.
Proof. intros. unfold bump. by rewrite (proj2 (Z.eqb_neq x t)). Qed.
Lemma shift_0 c : (∀ x n, c = Some (x, n) → 0 < n) → shift 0 c = c.
Proof.
  intros Hc. destruct c as [[x n]|]; [|done]. cbn. specialize (Hc x n eq_refl). rewrite Z.add_0_r, (proj2 (Z.eqb_neq n 0)) by lia. done.
Qed.
Lemma linv_count idle R X Y l t kt x n :
  linv idle R X Y l → kthreads l !! t = Some kt → core_of l t = Some (x, n) → n = (if x then 0 else 1) + refs R l t ∧ 0 < n < 2 ^ 16.
Proof. intros Hl Hk Hc. pose proof (li_thread _ _ _ _ _ Hl t kt Hk) as Hok. unfold thread_ok in Hok. rewrite Hc in Hok. naive_solver. Qed.
(** The queues as they are satisfy what the lemma asks of them. *)
Lemma linv_queues idle R X Y l x kx :
  linv idle R X Y l → kthreads l !! x = Some kx → Forall (λ y, y ≠ 0 ∧ is_Some (kthreads l !! y)) (m_join_queue kx) ∧
    (m_join_queue kx = [] ∨ x ∈ Y ∨ alive l x).
Proof.
  intros Hl Hx. split; [by apply (li_queue _ _ _ _ _ Hl x)|]. pose proof (li_thread _ _ _ _ _ Hl x kx Hx) as Hok. unfold thread_ok, alive in *.
  destruct (core_of l x) as [[[] n]|] eqn:E; [naive_solver|right; right; by exists n|tauto].
Qed.

Section changes.
Context (idle : nat → Z) (R : Z → Z) (X Y : list Z) (l : life).
Context (Hl : linv idle R X Y l) (HY : ∀ x, x ∈ Y → x ∈ members_of l).

Lemma unchanged x : is_Some (kthreads l !! x) →
  core_of l x = shift 0 (core_of l x) ∧ match core_of l x with Some (_, n) => n + 0 < 2 ^ 16 | None => 0 ≤ 0 end.
Proof.
  intros [kx Hx]. destruct (core_of l x) as [[e n]|] eqn:Ec; [|done].
  pose proof (linv_count _ _ _ _ _ _ _ _ _ Hl Hx Ec) as [_ Hn]. rewrite shift_0 by (intros ? ? [=]; lia). split; [done|lia].
Qed.

(** States and timeouts. *)
Lemma linv_state t kt th th' wv :
  kthreads l !! t = Some kt → tcbs (sch l) !! t = Some th → core th' = core th → priority th' = priority th → cpu th' = cpu th →
  linv idle R X Y (with_world l (World (<[t := th']> (tcbs (sch l))) wv)).
Proof.
  intros Hk Ht Hc Hp Hcpu. apply (linv_world idle R X Y l); [done|done|intros; by eapply linv_queues|by apply Hl|done|..].
  - intros x y y' Hy. cbn [ths]. destruct (decide (x = t)) as [->|]; [rewrite lookup_insert_eq|rewrite lookup_insert_ne by done]; intros [=]; subst; [|by simplify_eq].
    by simplify_eq.
  - intros x Hx. cbn [ths]. rewrite lookup_insert_ne; [done|]. intros <-. congruence.
  - intros x Hx. cbn [ths]. cbv zeta. replace (joins (kthreads l) x - joins (kthreads l) x + (R x - R x)) with 0 by lia.
    destruct (unchanged x Hx) as [E1 E2]. split; [|done]. rewrite <-E1. destruct (decide (x = t)) as [->|]; [|by rewrite lookup_insert_ne].
    rewrite lookup_insert_eq, Ht. cbn. by rewrite Hc.
Qed.

(** A handle more, and a handle less. *)
Lemma linv_retain t kt th :
  kthreads l !! t = Some kt → tcbs (sch l) !! t = Some th → m_handle_count th + 1 < 2 ^ 16 →
  ∃ w, handle_retain (world_of l) t = Done w ∧ linv idle (bump t 1 R) X Y (with_world l w) ∧ wake_values w = wakes l ∧
    (∀ x, x ≠ t → ths w !! x = tcbs (sch l) !! x) ∧ ths w !! t = Some (put_handles th (m_handle_count th + 1)).
Proof.
  intros Hk Ht Hf. assert (Ec : core_of l t = Some (core th)) by (by rewrite Ht). destruct (core th) as [e n] eqn:Eth. injection Eth as He <-.
  pose proof (linv_count _ _ _ _ _ _ _ _ _ Hl Hk Ec) as [_ Hn].
  unfold handle_retain, world_of. cbn [ths wake_values]. rewrite Ht. cbn [deref mbind outcome_bind]. rewrite wrap_small by (unfold is_word; lia).
  eexists. split; [done|]. split; [|split; [done|]; split; [intros x Hx; by apply lookup_insert_ne|apply lookup_insert_eq]].
  apply (linv_world idle R X Y l); [done|done|intros; by eapply linv_queues| |done|..].
  - intros x. pose proof (li_R _ _ _ _ _ Hl x). unfold bump. case_match; lia.
  - intros x y y' Hy. cbn [ths]. destruct (decide (x = t)) as [->|]; [rewrite lookup_insert_eq|rewrite lookup_insert_ne by done]; intros [=]; subst; by simplify_eq.
  - intros x Hx. cbn [ths]. rewrite lookup_insert_ne; [done|]. intros <-. congruence.
  - intros x Hx. cbn [ths]. cbv zeta. destruct (decide (x = t)) as [->|Hne].
    + rewrite lookup_insert_eq, bump_eq, Ec. cbn [shift mbind option_bind fmap option_fmap option_map].
      replace (joins (kthreads l) t - joins (kthreads l) t + (R t + 1 - R t)) with 1 by lia. rewrite (proj2 (Z.eqb_neq _ _)) by lia.
      split; [|lia]. unfold core. cbn [m_handle_count put_handles]. by rewrite <-He.
    + rewrite bump_ne, lookup_insert_ne by done. replace (joins (kthreads l) x - joins (kthreads l) x + (R x - R x)) with 0 by lia. by apply unchanged.
Qed.

Lemma linv_release t kt th :
  kthreads l !! t = Some kt → tcbs (sch l) !! t = Some th → 0 < R t → 
  ∃ w, handle_release (world_of l) t = Done w ∧ linv idle (bump t (-1) R) X Y (with_world l w) ∧ wake_values w = wakes l ∧
    (∀ x, x ≠ t → ths w !! x = tcbs (sch l) !! x) ∧
    (t ∈ members_of l → ths w !! t = Some (put_handles th (m_handle_count th - 1))) ∧
    core <$> ths w !! t = shift (-1) (core_of l t).
Proof.
  intros Hk Ht Hr. assert (Ec : core_of l t = Some (core th)) by (by rewrite Ht). destruct (core th) as [e n] eqn:Eth. injection Eth as He <-.
  pose proof (linv_count _ _ _ _ _ _ _ _ _ Hl Hk Ec) as [Hn Hb].
  unfold handle_release, world_of. cbn [ths wake_values]. rewrite Ht. cbn [deref mbind outcome_bind put_handles m_handle_count]. rewrite wrap_small by (unfold is_word; lia).
  set (ts' := if _ : bool then _ else _).
  assert (Hout : ∀ x, x ≠ t → ts' !! x = tcbs (sch l) !! x) by (intros x Hx; unfold ts'; destruct (_ =? 0); [by apply lookup_delete_ne|by apply lookup_insert_ne]).
  assert (Hc : core <$> ts' !! t = shift (-1) (core_of l t)).
  { rewrite Ec. unfold ts'. cbn [shift mbind option_bind]. replace (m_handle_count th + -1) with (m_handle_count th - 1) by lia.
    destruct (m_handle_count th - 1 =? 0); [by rewrite lookup_delete_eq|]. rewrite lookup_insert_eq. unfold core. cbn. by rewrite <-He. }
  eexists. split; [done|]. cbn [ths wake_values]. split; [|split; [done|split; [done|split; [|by rewrite Ht in Hc]]]].
  - apply (linv_world idle R X Y l); [done|done|intros; by eapply linv_queues| |done|..].
    + intros x. pose proof (li_R _ _ _ _ _ Hl x). unfold bump. destruct (Z.eqb_spec x t) as [->|]; lia.
    + intros x y y' Hy. cbn [ths]. destruct (decide (x = t)) as [->|Hne]; [|rewrite Hout by done; intros; by simplify_eq].
      unfold ts'. destruct (_ =? 0); [by rewrite lookup_delete_eq|]. rewrite lookup_insert_eq. intros [=]. by simplify_eq.
    + intros x Hx. cbn [ths]. apply Hout. intros ->. congruence.
    + intros x Hx. cbn [ths]. cbv zeta. destruct (decide (x = t)) as [->|Hne].
      * rewrite bump_eq. replace (joins (kthreads l) t - joins (kthreads l) t + (R t + -1 - R t)) with (-1) by lia. split; [exact Hc|]. rewrite Ec. lia.
      * rewrite bump_ne, Hout by done. replace (joins (kthreads l) x - joins (kthreads l) x + (R x - R x)) with 0 by lia. by apply unchanged.
  - intros Hm. unfold ts'. assert (1 + R t ≤ refs R l t).
    { unfold refs. rewrite decide_True by done. pose proof (joins_nonneg (kthreads l) t). lia. }
    rewrite (proj2 (Z.eqb_neq _ _)) by (destruct e; lia). apply lookup_insert_eq.
Qed.
End changes.

(** The handles of a thread besides its entries in a queue. *)
Definition others (ts : threads) (q : list Z) (x : Z) : Z :=
  match ts !! x with Some th => m_handle_count th - Z.of_nat (held_by q x) | None => 0 end.
Lemma linv_clear idle R X Y l t kt v :
  linv idle R X (t :: Y) l → (∀ x, x ∈ Y → x ∈ members_of l) → kthreads l !! t = Some kt →
  ∃ w, clear (world_of l) (m_join_queue kt) v = Done (w, []) ∧ linv idle R X Y (put_queue (with_world l w) t kt []) ∧
    (∀ x, ths w !! x = drained (others (tcbs (sch l)) (m_join_queue kt)) (m_join_queue kt) x (tcbs (sch l) !! x)) ∧
    ∀ x, wake_values w !! x = if decide (x ∈ m_join_queue kt ∧ is_waiting (world_of l) x = true) then Some v else wakes l !! x.
Proof.
  intros Hl HY Hk. set (q := m_join_queue kt). set (base := others (tcbs (sch l)) q).
  assert (Hj : ∀ x, Z.of_nat (held_by q x) ≤ joins (kthreads l) x) by (intros x; by apply (joins_ge _ t kt)).
  assert (Hq : ∀ x, x ∈ q → x ≠ 0 ∧ ∃ kx th e, kthreads l !! x = Some kx ∧ tcbs (sch l) !! x = Some th ∧ core_of l x = Some (e, m_handle_count th) ∧
    has_state th st_exited = e ∧ base x = m_handle_count th - Z.of_nat (held_by q x) ∧ (if e then 0 else 1) ≤ base x ∧ m_handle_count th < 2 ^ 16).
  { intros x Hx. pose proof (li_queue _ _ _ _ _ Hl t kt Hk) as Hf. rewrite Forall_forall in Hf. destruct (Hf x Hx) as [H0 [kx Hkx]]. split; [done|].
    apply held_by_elem in Hx. specialize (Hj x). pose proof (li_R _ _ _ _ _ Hl x). pose proof (li_thread _ _ _ _ _ Hl x kx Hkx) as Hok.
    unfold thread_ok, refs in Hok. unfold base, others. destruct (tcbs (sch l) !! x) as [th|]; cbn [fmap option_fmap option_map] in *; [|repeat case_decide; lia].
    exists kx, th, (has_state th st_exited). split_and!; [done..| |]; destruct Hok as (Hn & ? & _); [|lia]. rewrite Hn. repeat case_decide; lia. }
  destruct (drain_spec base v q (world_of l)) as (w & Hrun & Hd & Hv).
  { intros x Hx. destruct (Hq x Hx) as (? & kx & th & e & _ & Hth & _ & He & Hb & Hlow & Hmax). split; [done|]. split; [destruct e; lia|].
    exists th. split_and!; [done|lia|done|]. unfold waits. rewrite He. destruct e; cbn; [done|lia]. }
  exists w. split; [unfold clear; rewrite clear_loop_drain, Hrun by lia; done|]. split; [|split; [exact Hd|exact Hv]].
  assert (Hjoin : ∀ x, joins (<[t := KThread (m_parent kt) []]> (kthreads l)) x = joins (kthreads l) x - Z.of_nat (held_by q x)).
  { intros x. unfold joins. rewrite (map_sum_insert _ _ _ kt) by done. cbn -[held_by Z.of_nat]. change (held_by [] x) with 0%nat. unfold q. lia. }
  cbn [put_queue with_world sch wakes procs kthreads].
  apply (linv_world idle R X (t :: Y) l); [done| | |apply Hl|done|..].
  - intros x. destruct (decide (x = t)) as [->|]; [by rewrite lookup_insert_eq, Hk|by rewrite lookup_insert_ne].
  - intros x kx. destruct (decide (x = t)) as [->|Hne]; [rewrite lookup_insert_eq; intros [= <-]; by split; [apply Forall_nil|left]|].
    rewrite lookup_insert_ne by done. intros Hx. destruct (linv_queues _ _ _ _ _ _ _ Hl Hx) as [? Hd']. split; [done|]. rewrite elem_of_cons in Hd'. naive_solver.
  - intros x th th' Hth. rewrite Hd. cbn [world_of ths]. unfold drained. rewrite Hth.
    destruct (decide (x ∈ q)); [|intros [=]; by subst]. destruct (base x =? 0); [done|]. intros [=]. subst th'. by destruct (waits th).
  - intros x Hx. rewrite Hd. unfold drained. rewrite decide_False; [done|]. intros Hxq. destruct (Hq x Hxq) as (_ & kx & _ & _ & ? & _). congruence.
  - intros x Hx. cbv zeta. rewrite Hjoin, Hd. cbn [world_of ths]. unfold drained. destruct (decide (x ∈ q)) as [Hxq|Hxq].
    + destruct (Hq x Hxq) as (_ & kx & th & e & _ & Hth & Hc & He & Hb & Hlow & Hmax). rewrite Hc, Hth. cbn [shift mbind option_bind]. split; [|lia].
      replace (m_handle_count th + _) with (base x) by lia. destruct (base x =? 0); [done|]. cbn. unfold core. cbn [m_handle_count put_handles].
      repeat f_equal. rewrite <-He. destruct (waits th); [apply wake_only_exited|done].
    + assert (held_by q x = 0%nat) as -> by (rewrite held_by_elem in Hxq; lia). replace (_ - Z.of_nat 0 - _ + _) with 0 by lia. by apply (unchanged idle R X (t :: Y)).
Qed.

(** ** The end of a thread *)

Lemma linv_ext idle R R' X Y l : (∀ x, R' x = R x) → linv idle R X Y l → linv idle R' X Y l.
Proof.
  intros HR [H1 H2 H3 H4 H5 H6 H7]. split; [done| |done| |done..].
  - intros t. rewrite HR. apply H2.
  - intros t kt Ht. specialize (H4 t kt Ht). unfold thread_ok, refs in *. by rewrite HR.
Qed.
Lemma bump_back t R x : bump t (-1) (bump t 1 R) x = R x.
Proof. unfold bump. destruct (x =? t); lia. Qed.

(** The threads [D] ended: they are exited and do not run again; of the others, those that waited in the
    queues [q] are ready with the value 0, and nothing else happened to them. *)
Record ended (D q : list Z) (l l' : life) : Prop := {
  en_queues : m_run_queues (sch l') = m_run_queues (sch l);
  en_parents x : m_parent <$> kthreads l' !! x = m_parent <$> kthreads l !! x;
  en_kthreads x : x ∉ D → kthreads l' !! x = kthreads l !! x;
  en_alive x : alive l' x → alive l x;
  en_gone x : x ∈ D → ∃ th, tcbs (sch l') !! x = Some th ∧ has_state th st_exited = true ∧ has_state th st_ready = false;
  en_state x th : x ∉ D → x ∈ members_of l → tcbs (sch l) !! x = Some th →
    ∃ th', tcbs (sch l') !! x = Some th' ∧ has_state th' st_exited = has_state th st_exited ∧
      if decide (x ∈ q ∧ waits th = true) then has_state th' st_ready = true ∧ wakes l' !! x = Some 0
      else m_state th' = m_state th ∧ wakes l' !! x = wakes l !! x;
}.
Lemma waits_state th th' : m_state th' = m_state th → waits th' = waits th.
Proof. intros E. unfold waits, has_state. by rewrite E. Qed.
Lemma ended_nil l l' :
  tcbs (sch l') = tcbs (sch l) → m_run_queues (sch l') = m_run_queues (sch l) → wakes l' = wakes l → kthreads l' = kthreads l → ended [] [] l l'.
Proof.
  intros E1 E2 E3 E4. split; unfold alive; rewrite ?E1, ?E3, ?E4; try done; [by intros x ?%not_elem_of_nil|].
  intros x th _ _ Hth. exists th. split; [done|]. split; [done|]. rewrite decide_False; [done|]. by intros [?%not_elem_of_nil _].
Qed.
Lemma ended_trans D1 q1 D2 q2 l l1 l2 :
  ended D1 q1 l l1 → ended D2 q2 l1 l2 → (∀ x, x ∈ D1 → x ∈ members_of l) → ended (D1 ++ D2) (q1 ++ q2) l l2.
Proof.
  intros [A1 A2 A3 A4 A5 A6] [B1 B2 B3 B4 B5 B6] Hm. split.
  - congruence.
  - intros x. by rewrite B2.
  - intros x [? ?]%not_elem_of_app. rewrite B3 by done. by apply A3.
  - intros x Hx. by apply A4, B4.
  - intros x Hx. destruct (decide (x ∈ D2)) as [|Hx2]; [by apply B5|]. apply elem_of_app in Hx as [Hx|]; [|done].
    destruct (A5 x Hx) as (th & Hth & He & Hr). destruct (B6 x th Hx2) as (th' & ? & He' & Hif); [by rewrite A1; apply Hm|done|]. exists th'.
    split; [done|]. split; [congruence|]. rewrite decide_False in Hif by (unfold waits; rewrite He; by intros [_ ?]).
    destruct Hif as [Es _]. unfold has_state in *. by rewrite Es.
  - intros x th [H1 H2]%not_elem_of_app Hmx Hth. destruct (A6 x th H1 Hmx Hth) as (th1 & Hth1 & He1 & Hif1).
    destruct (B6 x th1 H2) as (th2 & Hth2 & He2 & Hif2); [by rewrite A1|done|]. exists th2. split; [done|]. split; [congruence|].
    destruct (decide (x ∈ q1 ∧ waits th = true)) as [[Hq Hw]|Hn].
    + rewrite decide_True by (split; [apply elem_of_app; by left|done]). destruct Hif1 as [Hr Hv].
      assert (Hw1 : waits th1 = false) by (unfold waits; rewrite Hr; apply andb_false_r).
      rewrite decide_False in Hif2 by (rewrite Hw1; by intros [_ ?]). destruct Hif2 as [Es Ev]. split; [|congruence]. unfold has_state in *. by rewrite Es.
    + destruct Hif1 as [Es Ev]. rewrite (waits_state _ _ Es) in Hif2. destruct (decide (x ∈ q2 ∧ waits th = true)) as [[Hq Hw]|Hn2].
      * rewrite decide_True by (split; [apply elem_of_app; by right|done]). done.
      * rewrite decide_False by (rewrite elem_of_app; tauto). destruct Hif2. split; congruence.
Qed.

(** [thread_exited] from the release of the handle on, and the rest of [exit]. *)
Definition exit_tail (l : life) (cur t : Z) : outcome flow :=
  let* w := handle_release (world_of l) t in
  let l := with_world l w in
  let* kt := the_kthread l t in
  let* (w, q) := clear (world_of l) (m_join_queue kt) 0 in
  let l := put_queue (with_world l w) t kt q in
  let* w := block (world_of l) t in
  let l := with_world l w in
  Done (if cur =? t then Stops l else Returns l).
Definition flow_of (cur t : Z) (l : life) : flow := if cur =? t then Stops l else Returns l.
(** A state that differs in the thread [t], and in the processes. *)
Record same_but (t : Z) (l0 l : life) : Prop := {
  sb_tcbs x : x ≠ t → tcbs (sch l) !! x = tcbs (sch l0) !! x;
  sb_queues : m_run_queues (sch l) = m_run_queues (sch l0);
  sb_wakes : wakes l = wakes l0;
  sb_kthreads : kthreads l = kthreads l0;
}.

Lemma clear_ready_core th : core (clear_state th st_ready) = core th.
Proof. unfold core. f_equal. apply clear_ready_state. Qed.

(** A thread of a run queue survives the clearing of a join queue. *)
Lemma drained_member idle R X Y l t kt x y :
  linv idle R X Y l → kthreads l !! t = Some kt → x ∈ members_of l → tcbs (sch l) !! x = Some y →
  let q := m_join_queue kt in
  drained (others (tcbs (sch l)) q) q x (Some y)
    = Some (if decide (x ∈ q) then put_handles (if waits y then wake_only y else y) (others (tcbs (sch l)) q x) else y).
Proof.
  intros Hl Hk Hx Hy q. unfold drained. destruct (decide (x ∈ q)) as [Hxq|]; [|done].
  pose proof (li_queue _ _ _ _ _ Hl t kt Hk) as Hf. rewrite Forall_forall in Hf. destruct (Hf x Hxq) as [_ [kx Hkx]].
  assert (Hc : core_of l x = Some (has_state y st_exited, m_handle_count y)) by (by rewrite Hy).
  destruct (linv_count _ _ _ _ _ _ _ _ _ Hl Hkx Hc) as [Hn _]. unfold refs in Hn. rewrite decide_True in Hn by done.
  pose proof (joins_ge _ t kt x Hk) as Hj. fold q in Hj. pose proof (li_R _ _ _ _ _ Hl x).
  assert (others (tcbs (sch l)) q x ≠ 0) as ->%Z.eqb_neq; [|done]. unfold others. rewrite Hy. destruct (has_state y st_exited); lia.
Qed.

Lemma exit_tail_spec idle R X Y l0 l cur t kt th :
  linv idle (bump t 1 R) X (t :: Y) l → (∀ x, x ∈ t :: Y → x ∈ members_of l) → 0 ≤ R t →
  kthreads l !! t = Some kt → tcbs (sch l) !! t = Some th → has_state th st_exited = true → alive l0 t → same_but t l0 l →
  ∃ l', exit_tail l cur t = Done (flow_of cur t l') ∧ linv idle R X Y l' ∧ procs l' = procs l ∧ ended [t] (m_join_queue kt) l0 l'.
Proof.
  intros Hl HY HR Hk Ht He Hal [S1 S2 S3 S4]. assert (Hmt : t ∈ members_of l) by (apply HY; by left).
  destruct (linv_release idle (bump t 1 R) X (t :: Y) l Hl HY t kt th Hk Ht) as (w1 & Hrun1 & Hl1 & Ev1 & Hout1 & Hth1 & _); [rewrite bump_eq; lia|].
  specialize (Hth1 Hmt). unfold exit_tail. rewrite Hrun1. cbn [mbind outcome_bind]. set (l1 := with_world l w1) in *.
  apply (linv_ext _ _ R) in Hl1; [|intros x; by rewrite bump_back]. set (th1 := put_handles th _) in Hth1.
  assert (HY1 : ∀ x, x ∈ Y → x ∈ members_of l1) by (intros x Hx; apply HY; by right).
  destruct (linv_clear idle R X Y l1 t kt 0 Hl1 HY1 Hk) as (w2 & Hrun2 & Hl2 & Hd2 & Hv2). set (q := m_join_queue kt) in *.
  unfold the_kthread, the_thread. change (tcbs (sch l1)) with (ths w1) in *. rewrite Hth1. cbn [deref mbind outcome_bind].
  change (kthreads l1) with (kthreads l). rewrite Hk. cbn [deref mbind outcome_bind]. fold q. rewrite Hrun2. cbn [mbind outcome_bind].
  set (l2 := put_queue _ _ _ _) in *.
  assert (Hsurv : ∀ x y, x ∈ members_of l → ths w1 !! x = Some y →
    ths w2 !! x = Some (if decide (x ∈ q) then put_handles (if waits y then wake_only y else y) (others (ths w1) q x) else y)).
  { intros x y Hx Hy. rewrite Hd2, Hy. by apply (drained_member idle R X (t :: Y) l1 t kt). }
  pose proof (Hsurv t th1 Hmt Hth1) as Ht2. set (th2 := if decide (t ∈ q) then _ else _) in Ht2.
  assert (He2 : has_state th2 st_exited = true).
  { unfold th2, waits. change (has_state th1 st_exited) with (has_state th st_exited). rewrite He. cbn [negb andb]. by destruct (decide (t ∈ q)). }
  unfold block. change (ths (world_of l2)) with (ths w2). rewrite Ht2. cbn [deref mbind outcome_bind].
  set (l3 := with_world l2 _). exists l3. split; [done|].
  assert (Hk2 : kthreads l2 !! t = Some (KThread (m_parent kt) [])) by apply lookup_insert_eq.
  split.
  { apply (linv_state idle R X Y l2 Hl2 ltac:(done) t _ th2 (clear_state th2 st_ready) (wakes l2) Hk2); [done|apply clear_ready_core|done|done]. }
  split; [done|]. destruct (clear_ready_state th2) as [Hr3 He3]. rewrite He2 in He3.
  assert (Ho : ∀ x, x ≠ t → tcbs (sch l3) !! x = ths w2 !! x) by (intros x Hx; by apply lookup_insert_ne).
  split.
  - exact S2.
  - intros x. rewrite <-S4. cbn. destruct (decide (x = t)) as [->|]; [by rewrite lookup_insert_eq, Hk|by rewrite lookup_insert_ne].
  - intros x Hx. rewrite <-S4. apply lookup_insert_ne. intros ->. apply Hx. by left.
  - intros x [n Hn]. destruct (decide (x = t)) as [->|Hne]; [done|]. rewrite Ho, Hd2, Hout1, S1 in Hn by done. unfold drained, alive in *.
    destruct (tcbs (sch l0) !! x) as [y|]; [|by repeat case_match]. exists (m_handle_count y).
    assert (Hy : has_state y st_exited = false); [|by rewrite <-Hy]. destruct (decide (x ∈ q)); [|by injection Hn].
    destruct (_ =? 0); [done|]. injection Hn as Hn _. rewrite <-Hn. destruct (waits y); [symmetry; apply wake_only_exited|done].
  - intros x ->%list_elem_of_singleton. eexists. split; [apply lookup_insert_eq|]. done.
  - intros x y Hx Hm Hy. assert (Hne : x ≠ t) by (intros ->; apply Hx; by left). rewrite <-S2 in Hm. rewrite <-S1, <-Hout1 in Hy by done.
    pose proof (Hsurv x y Hm Hy) as Hx2. eexists. split; [rewrite Ho by done; exact Hx2|].
    specialize (Hv2 x). change (wakes l3) with (wake_values w2). rewrite <-S3, <-Ev1. unfold is_waiting in Hv2. change (ths (world_of l1)) with (ths w1) in Hv2. rewrite Hy in Hv2. cbv beta iota in Hv2.
    change (wakes l1) with (wake_values w1) in Hv2. destruct (decide (x ∈ q)) as [Hxq|Hxq].
    + destruct (waits y) eqn:Ew.
      * rewrite decide_True in Hv2 by done. rewrite decide_True by done. split; [apply (wake_only_exited y)|]. split; [apply (wake_only_ready y)|done].
      * rewrite decide_False in Hv2 by (by intros [_ ?]). rewrite decide_False by (by intros [_ ?]). done.
    + rewrite decide_False in Hv2 by (by intros [? _]). rewrite decide_False by (by intros [? _]). done.
Qed.

(** ** Marking *)

Lemma remove_swap_perm t l : t ∈ l → l ≡ₚ t :: remove_swap t l.
Proof.
  induction l as [|x l IH]; [by intros ?%not_elem_of_nil|]. intros Ht. cbn [remove_swap]. destruct (Z.eqb_spec x t) as [->|Hne].
  - f_equiv. destruct (last l) as [y|] eqn:El.
    + apply last_Some in El as [l' ->]. rewrite removelast_last. by rewrite <-Permutation_cons_append.
    + apply last_None in El as ->. done.
  - apply elem_of_cons in Ht as [->|Ht]; [done|]. rewrite Permutation_swap. f_equiv. by apply IH.
Qed.

(** The threads of a process that exits are yet to end. *)
Lemma linv_proc_exited idle R Y l p pr code :
  linv idle R [] Y l → procs l !! p = Some pr → p_state pr = running →
  linv idle R (m_threads pr) Y (put_proc l p (Process exited code (m_threads pr))).
Proof.
  intros [H1 H2 H3 H4 H5 H6 H7] Hp Hrun. split; [done|done|done| | |done|].
  - intros t kt Ht. specialize (H4 t kt Ht). unfold thread_ok in *. set (l' := put_proc _ _ _).
    change (refs R l' t) with (refs R l t). change (core_of l' t) with (core_of l t). change (members_of l') with (members_of l). destruct (core_of l t) as [[[] n]|]; [done| |done].
    destruct H4 as (? & ? & ? & [?%not_elem_of_nil|(pr' & Hp' & ? & ?)]); [done|]. do 3 (split; [done|]).
    destruct (decide (m_parent kt = p)) as [E|]; [left; congruence|right]. exists pr'. cbn. by rewrite lookup_insert_ne.
  - intros t kt Ht. cbn [put_proc procs]. apply lookup_insert_is_Some'. right. by apply (H5 t).
  - intros p' pr'. cbn [put_proc procs]. intros [[<- <-]|[_ ?]]%lookup_insert_Some; [done|]. by apply H7.
Qed.

(** A thread is marked as exited: the handle of its process is left over, and its queue is yet to be
    cleared.  The processes change so that they do not list it any more. *)
Lemma linv_mark idle R X X' Y l t kt th th' ps :
  linv idle R X Y l → kthreads l !! t = Some kt → tcbs (sch l) !! t = Some th → has_state th st_exited = false →
  core th' = (true, m_handle_count th) → priority th' = priority th → cpu th' = cpu th →
  (∀ p, is_Some (procs l !! p) → is_Some (ps !! p)) →
  (∀ x, x ≠ t → x ∈ X → x ∈ X') →
  (∀ x p pr, x ≠ t → procs l !! p = Some pr → p_state pr = running → x ∈ m_threads pr →
    ∃ pr', ps !! p = Some pr' ∧ p_state pr' = running ∧ x ∈ m_threads pr') →
  (∀ p pr', ps !! p = Some pr' → p_state pr' = running → ∃ pr, procs l !! p = Some pr ∧ p_state pr = running ∧
    (NoDup (m_threads pr) → NoDup (m_threads pr')) ∧ ∀ x, x ∈ m_threads pr' → x ∈ m_threads pr ∧ x ≠ t) →
  linv idle (bump t 1 R) X' (t :: Y) (Life (with_tcbs (sch l) (<[t := th']> (tcbs (sch l)))) (wakes l) (kthreads l) ps).
Proof.
  intros [H1 H2 H3 H4 H5 H6 H7] Hk Ht He Hc Hpri Hcpu Hps HX Hkeep Hback. set (l' := Life _ _ _ _).
  assert (Hcx : ∀ x, x ≠ t → core_of l' x = core_of l x) by (intros x Hx; cbn; by rewrite lookup_insert_ne).
  assert (Hct : core_of l' t = Some (true, m_handle_count th)) by (cbn; rewrite lookup_insert_eq; cbn; by rewrite Hc).
  assert (Hrx : ∀ x, x ≠ t → refs (bump t 1 R) l' x = refs R l x) by (intros x Hx; unfold refs; by rewrite bump_ne).
  assert (Hrt : refs (bump t 1 R) l' t = refs R l t + 1).
  { unfold refs. rewrite bump_eq. change (members_of l') with (members_of l). change (kthreads l') with (kthreads l). lia. }
  split; [| |done| | |done|].
  - apply sinv_same; [done| |].
    + intros x y _ Hy. destruct (decide (x = t)) as [->|]; [rewrite lookup_insert_eq|rewrite lookup_insert_ne by done; by exists y].
      exists th'. simplify_eq. done.
    + intros k Hk'. apply lookup_insert_ne. intros ->. specialize (H3 k Hk'). congruence.
  - intros x. specialize (H2 x). unfold bump. case_match; lia.
  - intros x kx Hx. specialize (H4 x kx Hx). unfold thread_ok in *. destruct (decide (x = t)) as [->|Hne].
    + rewrite Ht in H4. cbn [fmap option_fmap option_map core] in H4. rewrite He in H4. rewrite Hct, Hrt. destruct H4 as (-> & ? & ?).
      split_and!; [lia|lia|lia|]. right. by left.
    + rewrite Hcx, Hrx by done. destruct (core_of l x) as [[[] n]|]; [|..|done].
      * destruct H4 as (? & ? & H4). do 2 (split; [done|]). destruct H4; [by left|right; by right].
      * destruct H4 as (? & ? & ? & Hor). do 3 (split; [done|]). destruct Hor as [|(pr & Hp & Hr & Hin)]; [left; auto|right]. by apply (Hkeep x _ pr).
  - intros x kx Hx. by apply Hps, (H5 x).
  - intros p pr' Hp' Hr'. destruct (Hback p pr' Hp' Hr') as (pr & Hp & Hr & Hnd & Hall). destruct (H7 p pr Hp Hr) as [Hn Hm].
    split; [auto|]. intros x Hx. destruct (Hall x Hx) as [Hxp Hne]. destruct (Hm x Hxp) as (kx & ? & ? & [n Hal]). exists kx.
    split_and!; [done..|]. exists n. by rewrite Hcx.
Qed.

(** ** The functions that end threads *)

Definition mark (th : thread) : thread := set_state (set_wake_timeout th 0) st_exited.
Lemma mark_exited th : has_state (mark th) st_exited = true.
Proof.
  unfold mark, has_state, set_state. cbn [m_state]. apply negb_true_iff, Z.eqb_neq. intros E. apply (f_equal (λ z, Z.testbit z 1)) in E.
  rewrite Z.land_spec, Z.lor_spec in E. change (Z.testbit st_exited 1) with true in E. by rewrite orb_true_r in E.
Qed.
Lemma core_mark th : core (mark th) = (true, m_handle_count th).
Proof. unfold core. by rewrite mark_exited. Qed.
Lemma put_thread_lookup l t th : tcbs (sch (put_thread l t th)) !! t = Some th.
Proof. apply lookup_insert_eq. Qed.
Lemma put_thread_same l0 l t th : same_but t l0 l → same_but t l0 (put_thread l t th).
Proof. intros [S1 S2 S3 S4]. split; [|done..]. intros x Hx. rewrite <-S1 by done. by apply lookup_insert_ne. Qed.
Lemma same_but_refl t l : same_but t l l.
Proof. done. Qed.

Section exits.
Context (cur : Z) (l : life) (t : Z) (th : thread) (kt : kthread) (pr : process).
Context (Ht : tcbs (sch l) !! t = Some th) (Hk : kthreads l !! t = Some kt) (Hp : procs l !! m_parent kt = Some pr).
Let l1 : life := put_thread l t (mark th).

(** What [exit] does, by the state of the process. *)
Lemma thread_exit_dying n : p_state pr = exited → thread_exit (S (S n)) l cur t = exit_tail l1 cur t.
Proof.
  intros He. cbn [thread_exit thread_exited]. unfold the_kthread, the_thread. rewrite Ht. cbn [deref mbind outcome_bind]. fold (mark th). fold l1.
  change (tcbs (sch l1) !! t) with (<[t := mark th]> (tcbs (sch l)) !! t). rewrite lookup_insert_eq. cbn [deref mbind outcome_bind].
  change (kthreads l1) with (kthreads l). rewrite Hk. cbn [deref mbind outcome_bind]. rewrite Z.eqb_refl. cbn [kassert mbind outcome_bind].
  change (procs l1) with (procs l). rewrite Hp. cbn [deref mbind outcome_bind]. rewrite decide_True by done. cbn [mbind outcome_bind then_do].
  unfold exit_tail. by destruct (handle_release (world_of l1) t).
Qed.
Let l2 : life := put_proc l1 (m_parent kt) (Process running (m_return_code pr) (remove_swap t (m_threads pr))).
Lemma thread_exit_running n : p_state pr = running →
  thread_exit (S (S n)) l cur t =
  let* f := match remove_swap t (m_threads pr) with [] => process_exit n l2 cur (m_parent kt) (-1) | _ => Done (Returns l2) end in
  then_do f (λ l, exit_tail l cur t).
Proof.
  intros He. cbn [thread_exit thread_exited]. unfold the_kthread at 2 3, the_thread at 2 3. unfold the_thread at 1. rewrite Ht. cbn [deref mbind outcome_bind]. fold (mark th). fold l1.
  change (tcbs (sch l1) !! t) with (<[t := mark th]> (tcbs (sch l)) !! t). rewrite lookup_insert_eq. cbn [deref mbind outcome_bind].
  change (kthreads l1) with (kthreads l). rewrite Hk. cbn [deref mbind outcome_bind]. rewrite Z.eqb_refl. cbn [kassert mbind outcome_bind].
  change (procs l1) with (procs l). rewrite Hp. cbn [deref mbind outcome_bind]. rewrite decide_False by (by rewrite He). rewrite He. fold l2.
  set (o := match remove_swap _ _ with [] => _ | _ => _ end). destruct o as [[lo|lo]| | |]; [|done..]. cbn [mbind outcome_bind then_do].
  unfold exit_tail. by destruct (handle_release (world_of lo) t).
Qed.
End exits.

Lemma linv_pending idle R X X' Y l : (∀ x, x ∈ X → x ∈ X') → linv idle R X Y l → linv idle R X' Y l.
Proof.
  intros HX [H1 H2 H3 H4 H5 H6 H7]. split; [done..| |done|done|done]. intros t kt Ht. specialize (H4 t kt Ht). unfold thread_ok in *.
  destruct (core_of l t) as [[[] n]|]; naive_solver.
Qed.
Lemma alive_thread idle R X Y l t kt :
  linv idle R X Y l → kthreads l !! t = Some kt → alive l t →
  ∃ th, tcbs (sch l) !! t = Some th ∧ has_state th st_exited = false ∧ t ∈ members_of l.
Proof.
  intros Hl Hk [n Hn]. pose proof (li_thread _ _ _ _ _ Hl t kt Hk) as Hok. unfold thread_ok in Hok. rewrite Hn in Hok.
  destruct (tcbs (sch l) !! t) as [th|]; [|done]. injection Hn as He _. exists th. split; [done|]. split; [done|]. apply Hok.
Qed.
Lemma alive_in_process idle R Y l t kt :
  linv idle R [] Y l → kthreads l !! t = Some kt → alive l t →
  ∃ pr, procs l !! m_parent kt = Some pr ∧ p_state pr = running ∧ t ∈ m_threads pr.
Proof.
  intros Hl Hk [n Hn]. pose proof (li_thread _ _ _ _ _ Hl t kt Hk) as Hok. unfold thread_ok in Hok. rewrite Hn in Hok.
  destruct Hok as (_ & _ & _ & [?%not_elem_of_nil|?]); [done|]. done.
Qed.

(** A thread whose process has exited ends. *)
Lemma thread_exit_dying_spec idle R X X' Y l cur t kt pr n :
  linv idle R X Y l → (∀ x, x ∈ Y → x ∈ members_of l) → (∀ x, x ≠ t → x ∈ X → x ∈ X') →
  kthreads l !! t = Some kt → alive l t → procs l !! m_parent kt = Some pr → p_state pr = exited →
  ∃ l', thread_exit (S (S n)) l cur t = Done (flow_of cur t l') ∧ linv idle R X' Y l' ∧ procs l' = procs l ∧ ended [t] (m_join_queue kt) l l'.
Proof.
  intros Hl HY HX Hk Hal Hp Hex. destruct (alive_thread _ _ _ _ _ _ _ Hl Hk Hal) as (th & Ht & He & Hm).
  rewrite (thread_exit_dying cur l t th kt pr Ht Hk Hp n Hex).
  apply (exit_tail_spec idle R X' Y l (put_thread l t (mark th)) cur t kt (mark th)); [|intros x [->|Hx]%elem_of_cons; [done|by apply HY]|by apply Hl|done|apply put_thread_lookup|apply mark_exited|done|by apply put_thread_same].
  apply (linv_mark idle R X X' Y l t kt th); [done|done|done|done|apply core_mark|done|done|done|done|..].
  - intros x p pr' _ ? ? ?. by exists pr'.
  - intros p pr' Hp' Hr. exists pr'. split_and!; [done..|]. intros x Hx. split; [done|]. intros ->.
    destruct (li_proc _ _ _ _ _ Hl p pr' Hp' Hr) as [_ Hall]. destruct (Hall t Hx) as (kt' & ? & ? & _). simplify_eq; congruence.
Qed.

(** The join queues of some threads. *)
Definition queues (ks : gmap Z kthread) (ts : list Z) : list Z :=
  mjoin ((λ t, match ks !! t with Some kt => m_join_queue kt | None => [] end) <$> ts).
Lemma queues_same ks ks' ts : (∀ x, x ∈ ts → ks' !! x = ks !! x) → queues ks' ts = queues ks ts.
Proof.
  intros H. unfold queues. f_equal. apply list_fmap_ext. intros i x Hx. cbn. rewrite H; [done|]. by eapply list_elem_of_lookup_2.
Qed.
Lemma ended_alive D q l l' x kx idle R X Y :
  linv idle R X Y l → ended D q l l' → x ∉ D → kthreads l !! x = Some kx → alive l x → alive l' x.
Proof.
  intros Hl [_ _ _ _ _ Hst] Hx Hk Hal. destruct (alive_thread _ _ _ _ _ _ _ Hl Hk Hal) as (th & Ht & He & Hm).
  destruct (Hst x th Hx Hm Ht) as (th' & Ht' & He' & _). exists (m_handle_count th'). rewrite Ht'. cbn. unfold core. by rewrite He', He.
Qed.

(** The loop over the threads of a process that has exited. *)
Lemma exit_loop_spec idle R X cur p pr n ts : ∀ l,
  linv idle R (drop_item cur ts ++ X) [] l → NoDup ts → procs l !! p = Some pr → p_state pr = exited →
  (∀ t, t ∈ ts → alive l t ∧ ∃ kt, kthreads l !! t = Some kt ∧ m_parent kt = p) →
  ∃ l', exit_loop (λ l t, thread_exit (S (S n)) l cur t) l cur ts = Done (Returns l') ∧ linv idle R X [] l' ∧ procs l' = procs l ∧
    ended (drop_item cur ts) (queues (kthreads l) (drop_item cur ts)) l l'.
Proof.
  induction ts as [|t ts IH]; intros l Hl Hnd Hp Hex Hts.
  { exists l. split; [done|]. split; [done|]. split; [done|]. by apply ended_nil. }
  apply NoDup_cons in Hnd as [Htn Hnd]. cbn [exit_loop]. unfold drop_item in *. rewrite filter_cons in Hl |- *. destruct (Z.eqb_spec t cur) as [->|Hne].
  { rewrite decide_False in Hl |- * by tauto. apply IH; [done..|]. intros x Hx. apply Hts. by right. }
  rewrite decide_True in Hl |- * by done. destruct (Hts t) as (Hal & kt & Hk & Hpar); [by left|]. subst p.
  edestruct (thread_exit_dying_spec idle R _ (filter (λ x, x ≠ cur) ts ++ X) [] l cur t kt pr n Hl) as (l1 & Hrun & Hl1 & Hp1 & Hend1);
    [by intros x ?%not_elem_of_nil|intros x Hx; cbn [app]; by intros [?|?]%elem_of_cons|done..|].
  rewrite Hrun. cbn [mbind outcome_bind]. unfold flow_of. rewrite (proj2 (Z.eqb_neq cur t)) by congruence. cbn [then_do].
  assert (Hm : t ∈ members_of l) by (by destruct (alive_thread _ _ _ _ _ _ _ Hl Hk Hal) as (_ & _ & _ & ?)).
  destruct (IH l1 Hl1 Hnd) as (l2 & Hrun2 & Hl2 & Hp2 & Hend2); [by rewrite Hp1|done| |].
  { intros x Hx. destruct (Hts x) as (Hax & kx & Hkx & Hpx); [by right|]. assert (Hxt : x ∉ [t]) by (intros ->%list_elem_of_singleton; done).
    split; [by apply (ended_alive _ _ _ _ _ kx _ _ _ _ Hl Hend1)|]. exists kx. by rewrite (en_kthreads _ _ _ _ Hend1). }
  rewrite Hrun2. exists l2. split; [done|]. split; [done|]. split; [congruence|].
  assert (Eq : queues (kthreads l1) (filter (λ x, x ≠ cur) ts) = queues (kthreads l) (filter (λ x, x ≠ cur) ts)).
  { apply queues_same. intros x [_ Hx]%list_elem_of_filter. apply (en_kthreads _ _ _ _ Hend1). by intros ->%list_elem_of_singleton. }
  rewrite Eq in Hend2. unfold queues at 1. cbn [fmap list_fmap mjoin list_join]. rewrite Hk.
  apply (ended_trans [t] _ _ _ _ l1); [done|done|]. by intros x ->%list_elem_of_singleton.
Qed.

Lemma ended_ext D D' q q' l l' : (∀ x, x ∈ D' ↔ x ∈ D) → (∀ x, x ∈ q' ↔ x ∈ q) → ended D q l l' → ended D' q' l l'.
Proof.
  intros HD Hq [A1 A2 A3 A4 A5 A6]. split; [done|done| |done| |].
  - intros x Hx. apply A3. by rewrite <-HD.
  - intros x Hx. apply A5. by rewrite <-HD.
  - intros x th Hx Hm Ht. destruct (A6 x th) as (th' & ? & ? & Hif); [by rewrite <-HD|done|done|]. exists th'. split; [done|]. split; [done|].
    destruct (decide (x ∈ q ∧ waits th = true)) as [Hd|Hd]; [rewrite decide_True by (by rewrite Hq)|rewrite decide_False by (by rewrite Hq)]; done.
Qed.
Lemma elem_queues ks ts x : x ∈ queues ks ts ↔ ∃ t kt, t ∈ ts ∧ ks !! t = Some kt ∧ x ∈ m_join_queue kt.
Proof.
  unfold queues. rewrite list_elem_of_join. split.
  - intros (q & Hx & Hq). apply list_elem_of_fmap in Hq as (t & -> & Ht). destruct (ks !! t) as [kt|] eqn:E; [|by apply not_elem_of_nil in Hx]. eauto.
  - intros (t & kt & Ht & Hk & Hx). eexists. split; [exact Hx|]. apply list_elem_of_fmap. exists t. by rewrite Hk.
Qed.

(** The end of a process: all its threads end, the calling one last. *)
Lemma process_exit_spec idle R l cur kc p pr code n :
  linv idle R [] [] l → procs l !! p = Some pr → p_state pr = running → kthreads l !! cur = Some kc → alive l cur →
  ∃ l', process_exit (S (S (S n))) l cur p code = Done (if m_parent kc =? p then Stops l' else Returns l') ∧ linv idle R [] [] l' ∧
    procs l' = <[p := Process exited code (m_threads pr)]> (procs l) ∧ ended (m_threads pr) (queues (kthreads l) (m_threads pr)) l l'.
Proof.
  intros Hl Hp Hrun Hkc Hac. cbn [process_exit]. rewrite Hp. cbn [deref mbind outcome_bind]. rewrite decide_False by (by rewrite Hrun).
  pose proof (linv_proc_exited _ _ _ _ p pr code Hl Hp Hrun) as Hl1. set (l1 := put_proc _ _ _) in *.
  destruct (li_proc _ _ _ _ _ Hl p pr Hp Hrun) as [Hnd Hall].
  set (X := if m_parent kc =? p then [cur] else []).
  assert (Hcur : cur ∈ m_threads pr ↔ m_parent kc = p).
  { split; [intros Hin; destruct (Hall cur Hin) as (kc' & ? & ? & _); by simplify_eq|]. intros <-.
    destruct (alive_in_process _ _ _ _ _ _ Hl Hkc Hac) as (pr' & ? & _ & ?). by simplify_eq. }
  edestruct (exit_loop_spec idle R X cur p (Process exited code (m_threads pr)) n (m_threads pr) l1) as (l2 & Hrun2 & Hl2 & Hp2 & Hend2); [|done| |done| |].
  { apply (linv_pending _ _ (m_threads pr)); [|done]. intros x Hx. apply elem_of_app. destruct (decide (x = cur)) as [->|]; [right|left; by apply elem_drop_item].
    unfold X. apply Hcur in Hx as ->. rewrite Z.eqb_refl. by left. }
  { apply lookup_insert_eq. }
  { intros t Ht. destruct (Hall t Ht) as (kt & ? & ? & ?). eauto. }
  rewrite Hrun2. cbn [mbind outcome_bind then_do]. change (kthreads l1) with (kthreads l) in Hend2.
  assert (Hend : ended (drop_item cur (m_threads pr)) (queues (kthreads l) (drop_item cur (m_threads pr))) l l2) by (destruct Hend2; by split).
  assert (Hcd : cur ∉ drop_item cur (m_threads pr)) by (intros [? _]%elem_drop_item; done).
  assert (Hac2 : alive l2 cur) by (by apply (ended_alive _ _ _ _ _ kc _ _ _ _ Hl Hend)).
  assert (Hkc2 : kthreads l2 !! cur = Some kc) by (by rewrite (en_kthreads _ _ _ _ Hend)).
  destruct (alive_thread _ _ _ _ _ _ _ Hl2 Hkc2 Hac2) as (thc & Htc & _ & _). unfold the_kthread, the_thread. rewrite Htc. cbn [deref mbind outcome_bind].
  rewrite Hkc2. cbn [deref mbind outcome_bind]. unfold X in Hl2. destruct (Z.eqb_spec (m_parent kc) p) as [Epar|Epar].
  - edestruct (thread_exit_dying_spec idle R [cur] [] [] l2 cur cur kc (Process exited code (m_threads pr)) n Hl2) as (l3 & Hrun3 & Hl3 & Hp3 & Hend3);
      [by intros x ?%not_elem_of_nil|intros x Hx; by intros ->%list_elem_of_singleton|done|done|rewrite Hp2, Epar; apply lookup_insert_eq|done|].
    rewrite Hrun3. unfold flow_of. rewrite Z.eqb_refl. exists l3. split; [done|]. split; [done|]. split; [by rewrite Hp3, Hp2|].
    apply (ended_ext (drop_item cur (m_threads pr) ++ [cur]) _ (queues (kthreads l) (drop_item cur (m_threads pr)) ++ m_join_queue kc)).
    + intros x. rewrite elem_of_app, elem_drop_item, list_elem_of_singleton. destruct (decide (x = cur)) as [->|]; [|tauto]. tauto.
    + intros x. rewrite elem_of_app, !elem_queues. split.
      * intros (t & kt & Ht & Hkt & Hx). destruct (decide (t = cur)) as [->|]; [right; by simplify_eq|left]. exists t, kt. by rewrite elem_drop_item.
      * intros [(t & kt & [_ ?]%elem_drop_item & ? & ?)|Hx]; [eauto|]. exists cur, kc. by rewrite Hcur.
    + apply (ended_trans _ _ _ _ _ l2); [done|done|]. intros x [_ Hx]%elem_drop_item. destruct (Hall x Hx) as (kx & Hkx & _ & Hax).
      by destruct (alive_thread _ _ _ _ _ _ _ Hl Hkx Hax) as (_ & _ & _ & ?).
  - exists l2. split; [done|]. split; [done|]. split; [by rewrite Hp2|].
    assert (Hout : ∀ x, x ∈ m_threads pr ↔ x ∈ drop_item cur (m_threads pr)) by (intros x; rewrite elem_drop_item; split; [intros Hx; split; [intros ->; tauto|done]|tauto]).
    apply (ended_ext (drop_item cur (m_threads pr)) _ (queues (kthreads l) (drop_item cur (m_threads pr)))); [done| |done].
    intros x. rewrite !elem_queues. by setoid_rewrite Hout.
Qed.

(** A process without one of its threads; without its last one it has exited. *)
Definition without (t : Z) (pr : process) : process :=
  match remove_swap t (m_threads pr) with
  | [] => Process exited (-1) []
  | ts => Process running (m_return_code pr) ts
  end.
Lemma linv_leave idle R Y l t kt th pr :
  linv idle R [] Y l → kthreads l !! t = Some kt → tcbs (sch l) !! t = Some th → has_state th st_exited = false →
  procs l !! m_parent kt = Some pr → p_state pr = running → t ∈ m_threads pr →
  linv idle (bump t 1 R) [] (t :: Y)
    (put_proc (put_thread l t (mark th)) (m_parent kt) (Process running (m_return_code pr) (remove_swap t (m_threads pr)))).
Proof.
  intros Hl Hk Ht He Hp Hr Hin. pose proof (remove_swap_perm t _ Hin) as Hperm. destruct (li_proc _ _ _ _ _ Hl _ pr Hp Hr) as [Hnd _].
  rewrite Hperm in Hnd. apply NoDup_cons in Hnd as [Hout Hnd].
  apply (linv_mark idle R [] [] Y l t kt th); [done|done|done|done|apply core_mark|done|done| |done|..].
  - intros p [x Hx]. apply lookup_insert_is_Some'. right. by exists x.
  - intros x p pr' Hne Hp' Hr' Hx. destruct (decide (p = m_parent kt)) as [->|Hpk]; [|exists pr'; cbn; by rewrite lookup_insert_ne].
    eexists. split; [apply lookup_insert_eq|]. split; [done|]. cbn. simplify_eq. rewrite Hperm in Hx. by apply elem_of_cons in Hx as [?|?].
  - intros p pr'. cbn. intros [[<- <-]|[Hne Hp']]%lookup_insert_Some Hr'.
    + exists pr. split; [done|]. split; [done|]. split; [done|]. intros x Hx. cbn in Hx. split; [rewrite Hperm; by right|]. by intros ->.
    + exists pr'. split; [done|]. split; [done|]. split; [done|]. intros x Hx. split; [done|]. intros ->.
      destruct (li_proc _ _ _ _ _ Hl p pr' Hp' Hr') as [_ Hall]. destruct (Hall t Hx) as (kt' & ? & ? & _). by simplify_eq.
Qed.

Lemma thread_exit_spec idle R l cur kc t kt pr n :
  linv idle R [] [] l → kthreads l !! cur = Some kc → alive l cur → kthreads l !! t = Some kt → alive l t → procs l !! m_parent kt = Some pr →
  ∃ l', thread_exit (S (S (S (S (S n))))) l cur t = Done (flow_of cur t l') ∧ linv idle R [] [] l' ∧
    procs l' = <[m_parent kt := without t pr]> (procs l) ∧ ended [t] (m_join_queue kt) l l'.
Proof.
  intros Hl Hkc Hac Hk Hal Hp. destruct (alive_thread _ _ _ _ _ _ _ Hl Hk Hal) as (th & Ht & He & Hm).
  destruct (alive_in_process _ _ _ _ _ _ Hl Hk Hal) as (pr' & Hp' & Hr & Hin). rewrite Hp in Hp'. injection Hp' as <-.
  rewrite (thread_exit_running cur l t th kt pr Ht Hk Hp _ Hr). pose proof (linv_leave _ _ _ _ _ _ _ _ Hl Hk Ht He Hp Hr Hin) as Hl2.
  pose proof (remove_swap_perm t _ Hin) as Hperm. unfold without. set (ts := remove_swap t (m_threads pr)) in *. set (l2 := put_proc _ _ _) in *.
  assert (Hs2 : same_but t l l2) by (by destruct (put_thread_same l l t (mark th) (same_but_refl t l)); split).
  assert (HY : ∀ x, x ∈ [t] → x ∈ members_of l) by (by intros x ->%list_elem_of_singleton).
  assert (HR : 0 ≤ R t) by apply (li_R _ _ _ _ _ Hl).
  clearbody ts. destruct ts as [|y ts'].
  2:{ cbn [mbind outcome_bind then_do]. by apply (exit_tail_spec idle R [] [] l l2 cur t kt (mark th) Hl2 HY HR Hk (put_thread_lookup _ _ _) (mark_exited _) Hal Hs2). }
  cbn [process_exit]. change (procs l2 !! m_parent kt) with (<[m_parent kt := Process running (m_return_code pr) []]> (procs l) !! m_parent kt).
  rewrite lookup_insert_eq. cbn [deref mbind outcome_bind p_state m_threads]. rewrite decide_False by done. cbn [exit_loop mbind outcome_bind then_do].
  pose proof (linv_proc_exited _ _ _ l2 (m_parent kt) (Process running (m_return_code pr) []) (-1) Hl2 ltac:(apply lookup_insert_eq) eq_refl) as Hl3.
  cbn [m_threads] in Hl3. set (l3 := put_proc l2 _ _) in *.
  assert (Hs3 : same_but t l l3) by (by destruct Hs2; split).
  assert (Ht3 : tcbs (sch l3) !! t = Some (mark th)) by apply put_thread_lookup.
  assert (Hp3 : procs l3 = <[m_parent kt := Process exited (-1) []]> (procs l)) by (cbn; apply insert_insert_eq).
  assert (Htail : ∀ l4, linv idle (bump t 1 R) [] [t] l4 → same_but t l l4 → procs l4 = procs l3 → (∃ th4, tcbs (sch l4) !! t = Some th4 ∧ has_state th4 st_exited = true) →
    ∃ l', exit_tail l4 cur t = Done (flow_of cur t l') ∧ linv idle R [] [] l' ∧
      procs l' = <[m_parent kt := Process exited (-1) []]> (procs l) ∧ ended [t] (m_join_queue kt) l l').
  { intros l4 Hl4 Hs4 Hp4 (th4 & Ht4 & He4). rewrite <-Hp3, <-Hp4. pose proof (sb_queues _ _ _ Hs4) as Hq. pose proof (sb_kthreads _ _ _ Hs4) as Hks.
    apply (exit_tail_spec idle R [] [] l l4 cur t kt th4); try done; [by rewrite Hq|by rewrite Hks]. }
  unfold the_kthread, the_thread. destruct (decide (cur = t)) as [->|Hne].
  - rewrite Ht3. cbn [deref mbind outcome_bind]. change (kthreads l3) with (kthreads l). rewrite Hk. cbn [deref mbind outcome_bind]. rewrite Z.eqb_refl.
    rewrite (thread_exit_dying t l3 t (mark th) kt (Process exited (-1) []) Ht3 Hk) by (by rewrite ?Hp3, ?lookup_insert_eq).
    destruct (Htail (put_thread l3 t (mark (mark th)))) as (l' & -> & ? & ? & ?).
    + apply (linv_state idle (bump t 1 R) [] [t] l3 Hl3 HY t kt (mark th)); [done|done|by rewrite !core_mark|done|done].
    + by apply put_thread_same.
    + done.
    + eexists. split; [apply put_thread_lookup|apply mark_exited].
    + cbn [mbind outcome_bind]. unfold flow_of. rewrite Z.eqb_refl. cbn [then_do]. by exists l'.
  - destruct (alive_thread _ _ _ _ _ _ _ Hl Hkc Hac) as (thc & Htc & _ & _).
    rewrite (sb_tcbs _ _ _ Hs3), Htc by done. cbn [deref mbind outcome_bind]. change (kthreads l3) with (kthreads l). rewrite Hkc. cbn [deref mbind outcome_bind].
    destruct (Z.eqb_spec (m_parent kc) (m_parent kt)) as [E|_].
    { exfalso. destruct (alive_in_process _ _ _ _ _ _ Hl Hkc Hac) as (pr' & Hp' & _ & Hin'). rewrite E, Hp in Hp'. injection Hp' as <-.
      rewrite Hperm in Hin'. by apply list_elem_of_singleton in Hin'. }
    cbn [mbind outcome_bind then_do]. apply Htail; [done|done|done|]. exists (mark th). split; [done|apply mark_exited].
Qed.

(** ** New threads, joins and the scheduler *)

Definition create_kernel_task (l : life) (kernel t pri : Z) (constant : bool) (junk : thread) : outcome life :=
  let* (th, l) := create_thread l kernel t pri junk in
  let* t := deref th in
  let* th := the_thread l t in
  let th := put_time th (quantum pri) in
  let th := if constant then set_state th st_constant else th in
  Done (put_thread l t (set_state th st_ready)).

Lemma add_thread_tcbs s t s' th :
  add_thread s t = Done s' → tcbs s !! t = Some th →
  ∃ k, tcbs s' = <[t := put_time (put_cpu (put_handles th (u16 (m_handle_count th + 1))) k) (quantum (priority th))]> (tcbs s).
Proof.
  intros H Ht. unfold add_thread in H. destruct (_ =? 0); [done|]. apply bind_Done_inv in H as (q & _ & H). rewrite Ht in H.
  cbn [deref mbind outcome_bind] in H. apply bind_Done_inv in H as (qs & _ & H). injection H as <-. eexists. reflexivity.
Qed.
Lemma joins_none ks t : (∀ x kx, ks !! x = Some kx → t ∉ m_join_queue kx) → joins ks t = 0.
Proof.
  unfold joins. induction ks as [|i a m Hi IH] using map_ind; intros H; [done|]. rewrite map_sum_new by done. rewrite IH.
  - assert (Hn : t ∉ m_join_queue a) by (apply (H i), lookup_insert_eq). rewrite held_by_elem in Hn. lia.
  - intros x kx Hx. apply (H x). rewrite lookup_insert_ne; [done|]. intros ->. congruence.
Qed.
Lemma joins_new ks t kt x : ks !! t = None → joins (<[t := kt]> ks) x = Z.of_nat (held_by (m_join_queue kt) x) + joins ks x.
Proof. intros Hk. unfold joins. by rewrite map_sum_new. Qed.
Lemma member_exists idle s t : sinv idle s → t ∈ all_members (m_run_queues s) → is_Some (tcbs s !! t).
Proof.
  intros [Hn Hq Hc Hi] Ht. unfold all_members in Ht. apply list_elem_of_join in Ht as (lq & Hx & Hlq). apply list_elem_of_fmap in Hlq as (q & -> & Hq').
  apply list_elem_of_lookup in Hq' as [k Hk]. apply elem_of_cons in Hx as [->|Hx]; [|by apply (queue_present _ _ _ _ (Hq k q Hk))].
  destruct (Hc k q Hk) as (th & Hth & _). by exists th.
Qed.

(** A thread that did not exist, in a run queue and with the handles of its process and of the queue. *)
Lemma linv_new idle R l l' p t pr :
  linv idle R [] [] l → procs l !! p = Some pr → p_state pr = running → kthreads l !! t = None → R t = 0 → t ∉ members_of l →
  (∀ k, (k < length (m_run_queues (sch l)))%nat → idle k ≠ t) →
  sinv idle (sch l') → length (m_run_queues (sch l')) = length (m_run_queues (sch l)) →
  (∀ x, x ∈ members_of l' ↔ x = t ∨ x ∈ members_of l) → (∀ x, x ≠ t → tcbs (sch l') !! x = tcbs (sch l) !! x) →
  core_of l' t = Some (false, 2) → kthreads l' = <[t := KThread p []]> (kthreads l) →
  procs l' = <[p := Process running (m_return_code pr) (m_threads pr ++ [t])]> (procs l) →
  linv idle R [] [] l'.
Proof.
  intros [H1 H2 H3 H4 H5 H6 H7] Hp Hr Hk HR Hnm Hni Hs' Hlen Hmem Hcx Hct Ek Ep.
  assert (Hrx : ∀ x, x ≠ t → refs R l' x = refs R l x).
  { intros x Hx. unfold refs. rewrite Ek, joins_new by done. cbn [m_join_queue]. change (held_by [] x) with 0%nat.
    rewrite (decide_ext _ _ _ _ (Hmem x)). repeat case_decide; naive_solver lia. }
  assert (Hrt : refs R l' t = 1).
  { unfold refs. rewrite decide_True by (apply Hmem; by left). rewrite Ek, joins_new, joins_none; [cbn; lia| |done].
    intros x kx Hx Hin. pose proof (H6 x kx Hx) as Hf. rewrite Forall_forall in Hf. destruct (Hf t Hin) as [_ [? ?]]. congruence. }
  split; rewrite ?Ek, ?Ep; [done|done|..].
  - intros k' Hk'. rewrite Hlen in Hk'. rewrite lookup_insert_ne by (apply not_eq_sym, Hni, Hk'). by apply H3.
  - intros x kx [[<- <-]|[Hne Hx]]%lookup_insert_Some; unfold thread_ok; rewrite Ep.
    + rewrite Hct, Hrt. split; [lia|]. split; [lia|]. split; [apply Hmem; by left|]. right. eexists. cbn [m_parent].
      split; [apply lookup_insert_eq|]. split; [done|]. apply elem_of_app. right. by left.
    + specialize (H4 x kx Hx). unfold thread_ok in H4. rewrite Hrx, Hcx by done. destruct (core_of l x) as [[[] n]|]; [done| |done].
      destruct H4 as (? & ? & ? & [?%not_elem_of_nil|(pr' & Hp' & ? & ?)]); [done|]. do 2 (split; [done|]). split; [apply Hmem; by right|]. right.
      destruct (decide (m_parent kx = p)) as [E|]; [|exists pr'; by rewrite lookup_insert_ne]. rewrite E in *. assert (pr' = pr) as -> by congruence.
      eexists. split; [apply lookup_insert_eq|].
      split; [done|]. apply elem_of_app. by left.
  - intros x kx [[<- <-]|[Hne Hx]]%lookup_insert_Some; apply lookup_insert_is_Some'; [by left|right; by apply (H5 x)].
  - intros x kx [[<- <-]|[Hne Hx]]%lookup_insert_Some; [by apply Forall_nil|]. eapply Forall_impl; [by apply (H6 x)|].
    intros y [? ?]. split; [done|]. apply lookup_insert_is_Some'. by right.
  - assert (Hold : ∀ p' x, (∃ kx, kthreads l !! x = Some kx ∧ m_parent kx = p' ∧ alive l x) →
      ∃ kx, <[t := KThread p []]> (kthreads l) !! x = Some kx ∧ m_parent kx = p' ∧ alive l' x).
    { intros p' x (kx & Hkx & ? & [n Hn]). assert (x ≠ t) by (intros ->; congruence). exists kx. rewrite lookup_insert_ne by done.
      split; [done|]. split; [done|]. exists n. by rewrite Hcx. }
    intros p' pr' [[<- <-]|[Hne Hp']]%lookup_insert_Some Hr'; [|destruct (H7 p' pr' Hp' Hr') as [Hnd Hall]; split; [done|]; intros x Hx; by apply Hold, Hall].
    destruct (H7 p pr Hp Hr) as [Hnd Hall]. cbn [m_threads]. split.
    + apply NoDup_app. split; [done|]. split; [|apply NoDup_singleton]. intros x Hx ->%list_elem_of_singleton. destruct (Hall t Hx) as (? & ? & _). congruence.
    + intros x [Hx| ->%list_elem_of_singleton]%elem_of_app; [by apply Hold, Hall|]. eexists. split; [apply lookup_insert_eq|]. split; [done|]. by exists 2.
Qed.

Lemma create_thread_spec idle R l p t pri junk pr :
  linv idle R [] [] l → procs l !! p = Some pr → p_state pr = running → tcbs (sch l) !! t = None → kthreads l !! t = None → R t = 0 →
  m_run_queues (sch l) ≠ [] → pri = process_default_priority ∨ 0 ≤ pri < num_priorities →
  ∃ l' th, create_thread l p t pri junk = Done (Some t, l') ∧ linv idle R [] [] l' ∧ kthreads l' !! t = Some (KThread p []) ∧
    tcbs (sch l') !! t = Some th ∧ core th = (false, 2).
Proof.
  intros Hl Hp Hr Ht Hk HR Hq Hpri. pose proof (li_sch _ _ _ _ _ Hl) as H1. unfold create_thread. rewrite Hp. cbn [deref mbind outcome_bind].
  rewrite decide_False by (by rewrite Hr). rewrite Hr. set (pr1 := if _ : bool then _ else pri).
  assert (Hpr1 : 0 ≤ pr1 < num_priorities).
  { unfold pr1, process_default_priority, default_priority, num_priorities in *. destruct (Z.eqb_spec pri 255); [lia|]. destruct Hpri; lia. }
  set (th0 := Thread pr1 (time_left junk) (last_ran junk) (cpu junk) 0 0 0). set (th1 := put_handles th0 1).
  unfold handle_retain. cbn [new_thread world_of sch with_tcbs tcbs ths]. rewrite lookup_insert_eq. fold th0. cbn [deref mbind outcome_bind with_world sch put_proc wake_values wakes].
  change (put_handles th0 (u16 (m_handle_count th0 + 1))) with th1. rewrite insert_insert_eq. set (s1 := with_tcbs _ _).
  assert (Hnm : t ∉ members_of l) by (intros Hm; destruct (member_exists _ _ _ H1 Hm); congruence).
  assert (Hni : ∀ k, (k < length (m_run_queues (sch l)))%nat → idle k ≠ t).
  { intros k Hk' <-. destruct (lookup_lt_is_Some_2 _ _ Hk') as [q Hq']. destruct (inv_idle _ _ _ H1 k q Hq') as [(ti & Hti & _) _]. congruence. }
  assert (Hs1 : sinv idle s1).
  { apply (sinv_same idle (sch l) (<[t := th1]> (tcbs (sch l)))); [done| |].
    - intros x y Hx Hy. exists y. split; [|done]. rewrite lookup_insert_ne; [done|]. by intros <-.
    - intros k Hk'. apply lookup_insert_ne, not_eq_sym, Hni, Hk'. }
  assert (Ht1 : tcbs s1 !! t = Some th1) by apply lookup_insert_eq.
  destruct (add_thread_spec idle s1 t th1 Hs1 Ht1 Hnm Hpr1 Hq) as (s2 & Hadd & Hs2 & Hperm & Hlen).
  destruct (add_thread_tcbs s1 t s2 th1 Hadd Ht1) as [k Ets]. rewrite Hadd. cbn [mbind outcome_bind]. set (th2 := put_time _ _) in Ets.
  set (l' := Life _ _ _ _). assert (Ht2 : tcbs (sch l') !! t = Some th2) by (cbn [l' sch]; rewrite Ets; apply lookup_insert_eq).
  exists l', th2. split; [done|]. split; [|split; [apply lookup_insert_eq|split; [done|done]]].
  apply (linv_new idle R l l' p t pr); try done.
  - intros x. cbn [l' sch]. rewrite Hperm, elem_of_cons. done.
  - intros x Hx. cbn [l' sch]. rewrite Ets. change (tcbs s1) with (<[t := th1]> (tcbs (sch l))). by rewrite !lookup_insert_ne by done.
  - by rewrite Ht2.
Qed.

(** A thread of a join queue keeps the joining one alive. *)
Lemma thread_join_spec idle R l cur kc self ks :
  linv idle R [] [] l → kthreads l !! cur = Some kc → alive l cur → cur ≠ 0 → kthreads l !! self = Some ks → is_Some (tcbs (sch l) !! self) →
  (∀ th, tcbs (sch l) !! cur = Some th → m_handle_count th + 1 < 2 ^ 16) →
  ∃ r l', thread_join l cur self = Done (r, l') ∧ linv idle R [] [] l'.
Proof.
  intros Hl Hkc Hac H0 Hks [th Hth] Hfit. destruct (alive_thread _ _ _ _ _ _ _ Hl Hkc Hac) as (thc & Htc & Hec & Hmc). specialize (Hfit thc Htc).
  unfold thread_join, the_kthread, the_thread. rewrite Hth. cbn [deref mbind outcome_bind]. rewrite Hks. cbn [deref mbind outcome_bind].
  assert (Hid : put_queue (with_world l (world_of l)) self ks (m_join_queue ks) = l).
  { destruct l as [[] ? k p], ks. unfold put_queue, with_world, with_tcbs, world_of. cbn in *. by rewrite insert_id. }
  unfold join. cbn [world_of ths]. rewrite Hth. cbn [deref mbind outcome_bind]. destruct (has_state th st_exited) eqn:Eex; [eexists _, _; split; [done|]; by rewrite Hid|].
  destruct (Z.eqb_spec cur self) as [|Hne]; [eexists _, _; split; [done|]; by rewrite Hid|]. clear Hid.
  unfold wq_add_thread. rewrite (proj2 (Z.eqb_neq cur 0)) by done. cbn [negb kassert mbind outcome_bind]. unfold handle_retain. cbn [world_of ths wake_values]. rewrite Htc.
  cbn [deref mbind outcome_bind].
  assert (Hcc : core_of l cur = Some (false, m_handle_count thc)) by (rewrite Htc; cbn; unfold core; by rewrite Hec).
  pose proof (linv_count _ _ _ _ _ _ _ _ _ Hl Hkc Hcc) as [_ Hn]. rewrite wrap_small by (unfold is_word; lia).
  unfold block. cbn [ths wake_values]. rewrite lookup_insert_eq. cbn [deref mbind outcome_bind]. rewrite insert_insert_eq.
  set (th' := clear_state _ _). eexists None, _. split; [done|]. cbn [put_queue with_world sch wakes procs kthreads].
  assert (Hc' : core th' = (false, m_handle_count thc + 1)) by (unfold th'; rewrite clear_ready_core; unfold core; cbn; by rewrite <-Hec).
  apply (linv_world idle R [] [] l); [done| | |apply Hl|by intros x ?%not_elem_of_nil|..].
  - intros x. destruct (decide (x = self)) as [->|]; [by rewrite lookup_insert_eq, Hks|by rewrite lookup_insert_ne].
  - intros x kx. destruct (decide (x = self)) as [->|]; [|rewrite lookup_insert_ne by done; intros; by eapply linv_queues].
    rewrite lookup_insert_eq. intros [= <-]. cbn [m_join_queue]. destruct (linv_queues _ _ _ _ _ _ _ Hl Hks) as [Hf _]. split.
    + apply Forall_app. split; [done|]. apply Forall_singleton. by rewrite Hkc.
    + right. right. exists (m_handle_count th). rewrite Hth. cbn. unfold core. by rewrite Eex.
  - intros x y y' Hy. cbn [ths]. destruct (decide (x = cur)) as [->|]; [rewrite lookup_insert_eq|rewrite lookup_insert_ne by done]; intros [=]; subst; by simplify_eq.
  - intros x Hx. cbn [ths]. rewrite lookup_insert_ne; [done|]. intros <-. congruence.
  - intros x Hx. cbn [ths]. cbv zeta. assert (Hj : joins (<[self := KThread (m_parent ks) (m_join_queue ks ++ [cur])]> (kthreads l)) x
      = joins (kthreads l) x + (if decide (cur = x) then 1 else 0)).
    { unfold joins. rewrite (map_sum_insert _ _ _ ks) by done. cbn [m_join_queue]. unfold held_by. rewrite filter_app, length_app, filter_cons. case_decide; cbn; lia. }
    change (kthreads (with_world l _)) with (kthreads l). rewrite Hj. destruct (decide (cur = x)) as [<-|Hx'].
    + rewrite lookup_insert_eq, Hcc. cbn [fmap option_fmap option_map shift mbind option_bind]. rewrite Hc'. rewrite (proj2 (Z.eqb_neq _ _)) by lia.
      split; [do 2 f_equal; lia|lia].
    + rewrite lookup_insert_ne by done. replace (_ + 0 - _ + _) with 0 by lia. by apply (unchanged idle R [] []).
Qed.

(** Exited threads leave the run queues. *)
Lemma linv_schedule idle R l k remaining now :
  linv idle R [] [] l → (k < length (m_run_queues (sch l)))%nat →
  ∃ s', schedule (sch l) (Z.of_nat k) remaining now = Done s' ∧ linv idle R [] [] (Life s' (wakes l) (kthreads l) (procs l)).
Proof.
  intros Hl Hk. destruct (schedule_spec idle (sch l) k remaining now (li_sch _ _ _ _ _ Hl) Hk) as (s' & gone & Hrun & Hs' & [Hlen Hperm Hgone _ Hcore]).
  exists s'. split; [done|]. pose proof (inv_nodup _ _ _ (li_sch _ _ _ _ _ Hl)) as Hnd. rewrite Hperm in Hnd. apply NoDup_app in Hnd as (_ & Hdis & _).
  set (l' := Life _ _ _ _). assert (Hmem : ∀ x, x ∈ members_of l ↔ x ∈ gone ∨ x ∈ members_of l') by (intros x; by rewrite Hperm, elem_of_app).
  apply (linv_shift idle R [] [] l); [done|done|done|done|done|intros; by eapply linv_queues|apply Hl|by intros x ?%not_elem_of_nil|..].
  - intros x Hx [n Hn]. apply Hmem in Hx as [Hx|]; [|done]. destruct (Hgone x Hx) as (th & Hth & He). rewrite Hth in Hn. injection Hn as Hn _. congruence.
  - intros x Hx. cbv zeta. change (tcbs (sch l')) with (tcbs s'). rewrite (Hcore x). destruct (unchanged idle R [] [] l Hl x Hx) as [E1 E2].
    destruct (decide (x ∈ gone)) as [Hg|Hg].
    + assert (Hd : refs R l' x - refs R l x = -1).
      { unfold refs. rewrite (decide_False (P := x ∈ members_of l')) by (by apply Hdis). rewrite (decide_True (P := x ∈ members_of l)) by (apply Hmem; by left).
        change (kthreads l') with (kthreads l). lia. }
      rewrite Hd. destruct Hx as [kx Hx]. destruct (core_of l x) as [[e n]|] eqn:Ec; [|split; [done|lia]].
      destruct (linv_count _ _ _ _ _ _ _ _ _ Hl Hx Ec) as [_ Hn]. cbn [core_released shift mbind option_bind]. rewrite wrap_small by (unfold is_word; lia).
      split; [done|lia].
    + assert (Hd : refs R l' x - refs R l x = 0).
      { unfold refs. assert (Hi : x ∈ members_of l' ↔ x ∈ members_of l) by (rewrite Hmem; tauto). rewrite (decide_ext _ _ _ _ Hi).
        change (kthreads l') with (kthreads l). lia. }
      by rewrite Hd.
Qed.

(** ** Runs *)

Inductive lop :=
  | LProcess (p : Z)                              (** a new process *)
  | LCreate (p t : Z) (junk : thread)             (** [thread_create] in process [p] *)
  | LTask (kernel t pri : Z) (constant : bool) (junk : thread)
  | LExit (cur : Z)
  | LKill (cur t : Z)
  | LJoin (cur t : Z)
  | LSleep (cur duration now : Z)
  | LProcKill (cur p : Z)
  | LProcExit (cur status : Z)
  | LRetain (t : Z)                               (** a capability or a wait queue takes a handle *)
  | LRelease (t : Z)
  | LWake (t v : Z)
  | LBlock (t : Z)
  | LSchedule (k : nat) (remaining now : Z).

Definition lstep (l : life) (op : lop) : outcome life :=
  match op with
  | LProcess p => Done (put_proc l p (Process running 0 []))
  | LCreate p t junk => thread_create l p t junk
  | LTask kernel t pri c junk => create_kernel_task l kernel t pri c junk
  | LExit cur => let* f := thread_exit_call l cur in Done (state_of f)
  | LKill cur t => let* f := thread_kill l cur t in Done (state_of f)
  | LJoin cur t => let* (_, l) := thread_join l cur t in Done l
  | LSleep cur d now => thread_sleep l cur d now
  | LProcKill cur p => let* f := process_kill l cur p in Done (state_of f)
  | LProcExit cur status => let* f := process_exit_call l cur status in Done (state_of f)
  | LRetain t => let* w := handle_retain (world_of l) t in Done (with_world l w)
  | LRelease t => let* w := handle_release (world_of l) t in Done (with_world l w)
  | LWake t v => let* w := wake (world_of l) t v in Done (with_world l w)
  | LBlock t => let* w := block (world_of l) t in Done (with_world l w)
  | LSchedule k remaining now =>
      let* s := schedule (sch l) (Z.of_nat k) remaining now in Done (Life s (wakes l) (kthreads l) (procs l))
  end.
(** The handles of capabilities and wait queues. *)
Definition uses (R : Z → Z) (op : lop) : Z → Z :=
  match op with
  | LCreate _ t _ | LRetain t => bump t 1 R
  | LRelease t => bump t (-1) R
  | _ => R
  end.

Definition has_thread (l : life) (t : Z) : bool :=
  bool_decide (is_Some (tcbs (sch l) !! t)) && bool_decide (is_Some (kthreads l !! t)).
Definition live (l : life) (t : Z) : bool :=
  has_thread l t && match tcbs (sch l) !! t with Some th => negb (has_state th st_exited) | None => false end.
Definition fits (l : life) (t : Z) : bool :=
  match tcbs (sch l) !! t with Some th => m_handle_count th + 1 <? 2 ^ 16 | None => false end.
Definition fresh (l : life) (R : Z → Z) (t : Z) : bool :=
  bool_decide (tcbs (sch l) !! t = None) && bool_decide (kthreads l !! t = None) && (R t =? 0) && negb (bool_decide (m_run_queues (sch l) = [])).
Definition is_running (l : life) (p : Z) : bool :=
  match procs l !! p with Some pr => bool_decide (p_state pr = running) | None => false end.
(** What the operations ask for: a thread that acts, and one that is killed, has not exited; a process in
    which a thread is started has not exited; handles are released by who has them, and their count is
    not exceeded. *)
Definition lop_ok (l : life) (R : Z → Z) (op : lop) : bool :=
  match op with
  | LProcess p => bool_decide (procs l !! p = None)
  | LCreate p t _ => is_running l p && fresh l R t
  | LTask p t pri _ _ => is_running l p && fresh l R t && (0 <=? pri) && (pri <? num_priorities)
  | LExit cur | LSleep cur _ _ | LProcExit cur _ => live l cur
  | LKill cur t => live l cur && live l t
  | LJoin cur t => live l cur && has_thread l t && negb (cur =? 0) && fits l cur
  | LProcKill cur p => live l cur && bool_decide (is_Some (procs l !! p))
  | LRetain t => has_thread l t && fits l t
  | LRelease t => has_thread l t && (0 <? R t)
  | LWake t _ | LBlock t => has_thread l t
  | LSchedule k _ _ => (k <? length (m_run_queues (sch l)))%nat
  end.
Fixpoint lrun (l : life) (R : Z → Z) (ops : list lop) : outcome (life * (Z → Z)) :=
  match ops with
  | [] => Done (l, R)
  | op :: ops => let* l := lstep l op in lrun l (uses R op) ops
  end.
Fixpoint lallowed (l : life) (R : Z → Z) (ops : list lop) : bool :=
  match ops with
  | [] => true
  | op :: ops => lop_ok l R op && match lstep l op with Done l => lallowed l (uses R op) ops | _ => true end
  end.

Lemma has_thread_spec l t : has_thread l t = true → ∃ th kt, tcbs (sch l) !! t = Some th ∧ kthreads l !! t = Some kt.
Proof. unfold has_thread. rewrite andb_true_iff, !bool_decide_eq_true. intros [[th ?] [kt ?]]. eauto. Qed.
Lemma live_spec l t : live l t = true → ∃ th kt, tcbs (sch l) !! t = Some th ∧ kthreads l !! t = Some kt ∧ alive l t.
Proof.
  unfold live. intros [H1 H2]%andb_true_iff. destruct (has_thread_spec _ _ H1) as (th & kt & Ht & Hk). exists th, kt. split_and!; [done..|].
  rewrite Ht in H2. apply negb_true_iff in H2. exists (m_handle_count th). rewrite Ht. cbn. unfold core. by rewrite H2.
Qed.
Lemma fits_spec l t th : fits l t = true → tcbs (sch l) !! t = Some th → m_handle_count th + 1 < 2 ^ 16.
Proof. unfold fits. intros H Ht. rewrite Ht in H. by apply Z.ltb_lt. Qed.
Lemma is_running_spec l p : is_running l p = true → ∃ pr, procs l !! p = Some pr ∧ p_state pr = running.
Proof. unfold is_running. destruct (procs l !! p) as [pr|]; [|done]. rewrite bool_decide_eq_true. eauto. Qed.
Lemma fresh_spec l R t : fresh l R t = true → tcbs (sch l) !! t = None ∧ kthreads l !! t = None ∧ R t = 0 ∧ m_run_queues (sch l) ≠ [].
Proof. unfold fresh. rewrite !andb_true_iff, negb_true_iff, !bool_decide_eq_true, bool_decide_eq_false, Z.eqb_eq. tauto. Qed.

Section steps.
Context (idle : nat → Z) (R : Z → Z) (l : life) (Hl : linv idle R [] [] l).
Let none : ∀ x, x ∈ @nil Z → x ∈ members_of l.
Proof. by intros x ?%not_elem_of_nil. Qed.

(** A change of a thread's state. *)
Lemma linv_touch t kt th th' wv :
  kthreads l !! t = Some kt → tcbs (sch l) !! t = Some th → core th' = core th → priority th' = priority th → cpu th' = cpu th →
  linv idle R [] [] (with_world l (World (<[t := th']> (tcbs (sch l))) wv)).
Proof. intros. by apply (linv_state idle R [] [] l Hl none t kt th). Qed.

Lemma lstep_create p t junk :
  lop_ok l R (LCreate p t junk) = true → ∃ l', lstep l (LCreate p t junk) = Done l' ∧ linv idle (bump t 1 R) [] [] l'.
Proof.
  cbn [lop_ok lstep]. intros [(pr & Hp & Hr)%is_running_spec (Ht & Hk & HR & Hq)%fresh_spec]%andb_true_iff. unfold thread_create.
  destruct (create_thread_spec idle R l p t process_default_priority junk pr Hl Hp Hr Ht Hk HR Hq) as (l1 & th & -> & Hl1 & Hk1 & Ht1 & Hc); [by left|].
  injection Hc as He Hn. cbn [mbind outcome_bind deref].
  destruct (linv_retain idle R [] [] l1 Hl1 ltac:(by intros x ?%not_elem_of_nil) t _ th Hk1 Ht1) as (w & -> & Hl2 & _ & _ & Ht2); [lia|].
  cbn [mbind outcome_bind]. unfold the_thread. cbn [with_world sch with_tcbs tcbs]. rewrite Ht2. cbn [deref mbind outcome_bind]. eexists. split; [done|].
  apply (linv_state idle (bump t 1 R) [] [] (with_world l1 w) Hl2 ltac:(by intros x ?%not_elem_of_nil) t _ _ _ _ Hk1 Ht2); [|done|done].
  unfold core. f_equal. apply (wake_only_exited (put_handles th _)).
Qed.
Lemma lstep_task p t pri c junk :
  lop_ok l R (LTask p t pri c junk) = true → ∃ l', lstep l (LTask p t pri c junk) = Done l' ∧ linv idle R [] [] l'.
Proof.
  cbn [lop_ok lstep]. rewrite !andb_true_iff. intros [[[(pr & Hp & Hr)%is_running_spec (Ht & Hk & HR & Hq)%fresh_spec] H1%Z.leb_le] H2%Z.ltb_lt].
  unfold create_kernel_task.
  destruct (create_thread_spec idle R l p t pri junk pr Hl Hp Hr Ht Hk HR Hq) as (l1 & th & -> & Hl1 & Hk1 & Ht1 & Hc); [by right|].
  cbn [mbind outcome_bind deref]. unfold the_thread. rewrite Ht1. cbn [deref mbind outcome_bind]. eexists. split; [done|].
  apply (linv_state idle R [] [] l1 Hl1 ltac:(by intros x ?%not_elem_of_nil) t _ th _ _ Hk1 Ht1); [|by destruct c..].
  unfold core, has_state, set_state. destruct c; cbn [m_state put_time m_handle_count]; by rewrite !Z.land_lor_distr_l, ?Z.lor_0_r.
Qed.
Lemma lstep_inv op : lop_ok l R op = true → ∃ l', lstep l op = Done l' ∧ linv idle (uses R op) [] [] l'.
Proof.
  destruct op as [p|p t junk|p t pri c junk|cur|cur t|cur t|cur d now|cur p|cur st|t|t|t v|t|k rem now]; [|apply lstep_create|apply lstep_task|..]; cbn [lop_ok uses lstep].
  - intros Hp%bool_decide_eq_true. eexists. split; [done|]. destruct Hl as [H1 H2 H3 H4 H5 H6 H7]. split; [done..| | |done|].
    + intros t kt Ht. specialize (H4 t kt Ht). unfold thread_ok in *. change (refs R (put_proc l p _) t) with (refs R l t). cbn [put_proc sch procs].
      destruct (core_of l t) as [[[] n]|]; [done| |done]. destruct H4 as (? & ? & ? & [?|(pr & ? & ?)]); do 3 (split; [done|]); [by left|right].
      exists pr. rewrite lookup_insert_ne; [done|]. intros ->. congruence.
    + intros t kt Ht. apply lookup_insert_is_Some'. right. by apply (H5 t).
    + intros p' pr'. cbn [put_proc procs]. intros [[<- <-]|[_ ?]]%lookup_insert_Some; [|by apply H7]. intros _. split; [apply NoDup_nil_2|]. by intros t ?%not_elem_of_nil.
  - intros (th & kt & Ht & Hk & Ha)%live_spec. destruct (alive_in_process _ _ _ _ _ _ Hl Hk Ha) as (pr & Hp & _).
    destruct (thread_exit_spec idle R l cur kt cur kt pr 0 Hl Hk Ha Hk Ha Hp) as (l' & Hrun & Hl' & _). unfold thread_exit_call, exit_depth.
    rewrite Hrun. cbn [mbind outcome_bind]. eexists. split; [done|]. unfold flow_of. by destruct (cur =? cur).
  - intros [(thc & kc & Htc & Hkc & Hac)%live_spec (th & kt & Ht & Hk & Ha)%live_spec]%andb_true_iff.
    destruct (alive_in_process _ _ _ _ _ _ Hl Hk Ha) as (pr & Hp & _).
    destruct (thread_exit_spec idle R l cur kc t kt pr 0 Hl Hkc Hac Hk Ha Hp) as (l' & Hrun & Hl' & _). unfold thread_kill, exit_depth.
    rewrite Hrun. cbn [mbind outcome_bind]. eexists. split; [done|]. unfold flow_of. by destruct (cur =? t).
  - rewrite !andb_true_iff, negb_true_iff, Z.eqb_neq. intros [[[(thc & kc & Htc & Hkc & Hac)%live_spec (th & kt & Ht & Hk)%has_thread_spec] H0] Hf].
    destruct (thread_join_spec idle R l cur kc t kt Hl Hkc Hac H0 Hk) as (r & l' & -> & Hl'); [by rewrite Ht|intros; by eapply fits_spec|]. by exists l'.
  - intros (th & kt & Ht & Hk & Ha)%live_spec. unfold thread_sleep, the_thread, block. rewrite Ht. cbn [deref mbind outcome_bind put_thread world_of with_world with_tcbs sch tcbs ths wakes].
    rewrite lookup_insert_eq. cbn [deref mbind outcome_bind wake_values]. eexists. split; [done|]. rewrite insert_insert_eq.
    apply (linv_touch cur kt th); [done|done|by rewrite clear_ready_core|done|done].
  - intros [(thc & kc & Htc & Hkc & Hac)%live_spec [pr Hp]%bool_decide_eq_true]%andb_true_iff. unfold process_kill, exit_depth. destruct (p_state pr) eqn:Es.
    + destruct (process_exit_spec idle R l cur kc p pr (2 ^ 32 - 1) 2 Hl Hp Es Hkc Hac) as (l' & Hrun & Hl' & _). rewrite Hrun. cbn [mbind outcome_bind].
      eexists. split; [done|]. by destruct (m_parent kc =? p).
    + cbn [process_exit]. rewrite Hp. cbn [deref mbind outcome_bind]. rewrite decide_True by done. by eexists.
  - intros (th & kt & Ht & Hk & Ha)%live_spec. destruct (alive_in_process _ _ _ _ _ _ Hl Hk Ha) as (pr & Hp & Hr & _).
    unfold process_exit_call, the_kthread, the_thread, exit_depth. rewrite Ht. cbn [deref mbind outcome_bind]. rewrite Hk. cbn [deref mbind outcome_bind].
    destruct (process_exit_spec idle R l cur kt (m_parent kt) pr st 2 Hl Hp Hr Hk Ha) as (l' & Hrun & Hl' & _). rewrite Hrun. cbn [mbind outcome_bind].
    eexists. split; [done|]. by destruct (m_parent kt =? m_parent kt).
  - intros [(th & kt & Ht & Hk)%has_thread_spec Hf]%andb_true_iff.
    destruct (linv_retain idle R [] [] l Hl none t kt th Hk Ht) as (w & -> & Hl' & _); [by eapply fits_spec|]. by eexists.
  - intros [(th & kt & Ht & Hk)%has_thread_spec Hr%Z.ltb_lt]%andb_true_iff.
    destruct (linv_release idle R [] [] l Hl none t kt th Hk Ht Hr) as (w & -> & Hl' & _). by eexists.
  - intros (th & kt & Ht & Hk)%has_thread_spec. unfold wake. cbn [world_of ths]. rewrite Ht. cbn [deref mbind outcome_bind]. destruct (has_state th st_ready).
    + eexists. split; [done|]. destruct l as [[] ? ? ?]. done.
    + eexists. split; [done|]. apply (linv_touch t kt th); [done|done| |done|done]. unfold core. by rewrite wake_only_exited.
  - intros (th & kt & Ht & Hk)%has_thread_spec. unfold block. cbn [world_of ths]. rewrite Ht. cbn [deref mbind outcome_bind]. eexists. split; [done|].
    apply (linv_touch t kt th); [done|done|apply clear_ready_core|done|done].
  - intros Hk%Nat.ltb_lt. destruct (linv_schedule idle R l k rem now Hl Hk) as (s' & -> & ?). by eexists.
Qed.
End steps.

Lemma lrun_inv idle ops : ∀ R l, linv idle R [] [] l → lallowed l R ops = true → ∃ l' R', lrun l R ops = Done (l', R') ∧ linv idle R' [] [] l'.
Proof.
  induction ops as [|op ops IH]; intros R l Hl; cbn [lallowed lrun]; [intros _; eauto|]. intros [Hok Hrest]%andb_true_iff.
  destruct (lstep_inv idle R l Hl op Hok) as (l1 & Hrun & Hl1). rewrite Hrun in *. cbn [mbind outcome_bind]. by apply IH.
Qed.
(** The kernel when the scheduler has started on [n] CPUs. *)
Definition boot (idle : nat → Z) (n : nat) : life := Life (started idle n) ∅ ∅ ∅.
Lemma boot_linv idle n : (∀ i j, (i < n)%nat → (j < n)%nat → idle i = idle j → i = j) → linv idle (λ _, 0) [] [] (boot idle n).
Proof. intros Hi. split; [by apply started_inv|done|done|..]; intros ? ?; cbn [boot kthreads procs]; by rewrite lookup_empty. Qed.

(** ** Theorems *)



(** A thread in a process that has exited: the null pointer that [create_thread] returns is used. *)
Theorem thread_create_exited_undefined l p pr t junk :
  procs l !! p = Some pr → p_state pr = exited → thread_create l p t junk = Undef.
Proof. intros Hp He. unfold thread_create, create_thread. rewrite Hp. cbn [deref mbind outcome_bind]. by rewrite decide_True. Qed.

(** ** Witnesses, and a thread that exits twice *)

(** Two CPUs; thread 10 of process 1 waits to join thread 21 of process 2. *)
Definition junk_thread : thread := Thread 9 9 9 9 9 9 9.
Definition demo_start : list lop :=
  [LProcess 1; LProcess 2; LCreate 1 10 junk_thread; LCreate 2 20 junk_thread; LCreate 1 11 junk_thread; LCreate 2 21 junk_thread;
   LSchedule 0 0 50; LSchedule 1 0 50; LJoin 10 21].
Definition demo_end : list lop := demo_start ++ [LProcKill 11 2; LSchedule 1 0 100; LSchedule 1 0 150; LRelease 20; LExit 11].

Definition demo_state : life * (Z → Z) := match lrun (boot demo_idle 2) (λ _, 0) demo_start with Done x => x | _ => (boot demo_idle 2, λ _, 0) end.
Lemma demo_state_run : lrun (boot demo_idle 2) (λ _, 0) demo_start = Done (demo_state.1, demo_state.2).
Proof. unfold demo_state. by destruct (lrun (boot demo_idle 2) (λ _, 0) demo_start) as [[]| | |] eqn:E; [|vm_compute in E..]. Qed.
Lemma demo_state_waits : 10 ∈ queues (kthreads demo_state.1) [20; 21].
Proof. apply (bool_decide_eq_true_1 _). vm_compute. reflexivity. Qed.

(** Thread 20 runs on the second CPU when its process is killed, and then exits itself. *)
Definition twice_start : list lop :=
  [LProcess 1; LProcess 2; LCreate 1 10 junk_thread; LCreate 2 20 junk_thread; LSchedule 0 0 50; LSchedule 1 0 50].
