(* ===== verification/Apic.v ===== *)
(** * The interrupt controllers

    Models src/kernel/apic.cpp and apic.h: the controller of each processor, with its timer, its
    interrupts between processors and its local pins, and the controller of the devices, with its table
    of redirections behind a pair of select and data registers.  The registers are finite maps of what
    has been written; what only the hardware knows (the current count of the timer, the delivery status
    of an interrupt, the processor's id) is an argument of the calls that read it.

    [reset_timer_programs] shows that the timer is set to the interval asked for, as exactly as the
    divisor allows, and [reset_timer_bound] gives the intervals that it accepts.  [ioapic_routes] shows
    what the table of redirections says after any calls of [redirect] and [mask]; [dump_reads_low_twice]
    shows that the printed destination is not the one of the table. *)
From S2P Require Import Prelude.

(** ** The controller of a processor *)

Definition isrSpurious : Z := 0x28.
Definition irq00 : Z := 0x30.
Definition isrAPICError : Z := 0xe3.

Definition lapic_id : Z := 0x20.
Definition lapic_spurious : Z := 0xf0.
Definition lapic_icr_low : Z := 0x300.
Definition lapic_icr_high : Z := 0x310.
Definition lapic_lvt_timer : Z := 0x320.
Definition lapic_lvt_lint0 : Z := 0x350.
Definition lapic_lvt_lint1 : Z := 0x360.
Definition lapic_lvt_error : Z := 0x370.
Definition lapic_timer_init : Z := 0x380.
Definition lapic_timer_cur : Z := 0x390.
Definition lapic_timer_div : Z := 0x3e0.

Record lapic := Lapic { lregs : gmap Z Z; m_divisor : Z }.
(** A register that has not been written reads as zero. *)
Definition apic_read (l : lapic) (off : Z) : Z := default 0 (lregs l !! off).
Definition apic_write (l : lapic) (off v : Z) : lapic := Lapic (<[off := u32 v]> (lregs l)) (m_divisor l).

Definition lapic_new (hw : gmap Z Z) : lapic :=
  let l := apic_write (Lapic hw 0) lapic_lvt_error isrAPICError in
  apic_write l lapic_spurious isrSpurious.
Definition get_id (reg : Z) : Z := u8 (Z.shiftr reg 24).
Definition enable (l : lapic) : lapic := apic_write l lapic_spurious (Z.lor (apic_read l lapic_spurious) 0x100).
Definition disable (l : lapic) : lapic := apic_write l lapic_spurious (Z.land (apic_read l lapic_spurious) (wnot 32 0x100)).

(** [ipi_wait], with the values that the command register reads as. *)
Fixpoint ipi_wait (fuel : nat) (status : nat → Z) (i : nat) : outcome nat :=
  match fuel with
  | O => Diverge
  | S fuel => if Z.testbit (status i) 12 then ipi_wait fuel status (S i) else Done i
  end.
Definition send_ipi (fuel : nat) (status : nat → Z) (l : lapic) (mode vector dest : Z) : outcome lapic :=
  let* _ := ipi_wait fuel status 0 in
  let command := Z.lor vector mode in
  let l := apic_write l lapic_icr_high (Z.shiftl dest 24) in
  Done (apic_write l lapic_icr_low command).
Definition send_ipi_broadcast (fuel : nat) (status : nat → Z) (l : lapic) (mode : Z) (self : bool) (vector : Z) : outcome lapic :=
  let* _ := ipi_wait fuel status 0 in
  let command := Z.lor (Z.lor (Z.lor vector mode) (if self then 0 else Z.shiftl 1 18)) (Z.shiftl 1 19) in
  let l := apic_write l lapic_icr_high 0 in
  Done (apic_write l lapic_icr_low command).

Definition divisor_bits (divisor : Z) : option Z :=
  match divisor with
  | 1 => Some 0xb | 2 => Some 0x0 | 4 => Some 0x1 | 8 => Some 0x2
  | 16 => Some 0x3 | 32 => Some 0x8 | 64 => Some 0x9 | 128 => Some 0xa
  | _ => None
  end.
Definition set_divisor (l : lapic) (divisor : Z) : outcome lapic :=
  match divisor_bits divisor with
  | None => Panic
  | Some divbits => let l := apic_write l lapic_timer_div divbits in Done (Lapic (lregs l) divisor)
  end.
Definition enable_timer (l : lapic) (vector : Z) (repeat : bool) : lapic :=
  let lvte := u8 vector in
  apic_write l lapic_lvt_timer (if repeat then Z.lor lvte 0x20000 else lvte).

(** [calibrate_timer] with the count that is left after the wait; the rate it stores is the second result. *)
Definition calibrate_us : Z := 20000.
Definition calibrate_timer (l : lapic) (remaining : Z) : outcome (lapic * Z) :=
  let initial := u32 (-1) in
  let l := enable_timer l isrSpurious true in
  let* l := set_divisor l 1 in
  let l := apic_write l lapic_timer_init initial in
  Done (l, u32 (initial - remaining) / calibrate_us).

Definition ticks_to_us (rate ticks : Z) : outcome Z := if rate =? 0 then Undef else Done (ticks / rate).
Definition us_to_ticks (rate interval : Z) : Z := u64 (interval * rate).
(** The loop of [reset_timer]; the divisor is an int, whose overflow is taken to wrap. *)
Fixpoint scale (fuel : nat) (ticks divisor : Z) : outcome (Z * Z) :=
  match fuel with
  | O => Diverge
  | S fuel => if 0xffffffff <? ticks then scale fuel (Z.shiftr ticks 1) (u32 (Z.shiftl divisor 1)) else Done (ticks, divisor)
  end.
Definition scale_fuel : nat := 33.
Definition reset_timer (rate : Z) (l : lapic) (cur interval : Z) : outcome (Z * lapic) :=
  let* remaining := ticks_to_us rate cur in
  let ticks := us_to_ticks rate interval in
  let* (ticks, divisor) := scale scale_fuel ticks 1 in
  let* l := if negb (divisor =? m_divisor l) then set_divisor l (u8 divisor) else Done l in
  Done (u32 remaining, apic_write l lapic_timer_init ticks).

(** The bits of a pin or a redirection for the flags of the firmware's tables. *)
Definition pin_bits (flags : Z) : Z :=
  Z.lor (if Z.land flags 3 =? 3 then Z.shiftl 1 13 else 0) (if Z.land (Z.shiftr flags 2) 3 =? 3 then Z.shiftl 1 15 else 0).
Definition enable_lint (l : lapic) (num vector flags : Z) : outcome lapic :=
  let* _ := kassert ((num =? 0) || (num =? 1)) in
  let off := if num =? 0 then lapic_lvt_lint0 else lapic_lvt_lint1 in
  Done (apic_write l off (Z.lor (u8 vector) (pin_bits flags))).

(** ** The controller of the devices *)

Record ioapic := Ioapic { select : Z; data : gmap Z Z; m_num_gsi : Z }.
Definition ioapic_read (a : ioapic) (reg : Z) : Z * ioapic :=
  let a := Ioapic (u8 reg) (data a) (m_num_gsi a) in (default 0 (data a !! select a), a).
Definition ioapic_write (a : ioapic) (reg v : Z) : ioapic :=
  Ioapic (u8 reg) (<[u8 reg := u32 v]> (data a)) (m_num_gsi a).

Definition redirect (a : ioapic) (irq vector flags : Z) (masked : bool) : ioapic :=
  let entry := Z.lor (Z.lor vector (pin_bits flags)) (if masked then Z.shiftl 1 16 else 0) in
  let a := ioapic_write a (2 * irq + 0x10) (Z.land entry 0xffffffff) in
  ioapic_write a (2 * irq + 0x11) (Z.shiftr entry 32).
Definition mask (a : ioapic) (irq : Z) (masked : bool) : ioapic :=
  let (entry, a) := ioapic_read a (2 * irq + 0x10) in
  ioapic_write a (2 * irq + 0x10) (if masked then Z.lor entry (Z.shiftl 1 16) else Z.land entry (wnot 32 (Z.shiftl 1 16))).

(** The constructor, on the registers of the hardware. *)
Definition redirect_masked (a : ioapic) (i : nat) : ioapic :=
  let i := Z.of_nat i in redirect a i (u8 (irq00 + i)) (if i <? 0x10 then 0 else 0xf) true.
Definition ioapic_new (hw : gmap Z Z) : ioapic :=
  let (id, a) := ioapic_read (Ioapic 0 hw 0) 0 in
  let (version, a) := ioapic_read a 1 in
  let n := Z.land (Z.shiftr version 16) 0xff in
  foldl redirect_masked (Ioapic (select a) (data a) n) (seq 0 (Z.to_nat n)).
Definition mask_all (a : ioapic) : ioapic := foldl (λ a i, mask a (u8 (Z.of_nat i)) true) a (seq 0 (Z.to_nat (m_num_gsi a))).
Definition unmask_all (a : ioapic) : ioapic := foldl (λ a i, mask a (u8 (Z.of_nat i)) false) a (seq 0 (Z.to_nat (m_num_gsi a))).

(** A line of [dump_redirs]. *)
Record redir_line := Line {
  r_vector : Z; r_mode : Z; r_dest_mode : Z; r_polarity : Z; r_trigger : Z; r_mask : Z; r_dest : Z
}.
Definition line_of (redir : Z) : redir_line :=
  Line (Z.land redir 0xff) (Z.land (Z.shiftr redir 8) 0x7) (Z.land (Z.shiftr redir 11) 0x1) (Z.land (Z.shiftr redir 13) 0x1)
    (Z.land (Z.shiftr redir 15) 0x1) (Z.land (Z.shiftr redir 16) 0x1) (Z.land (Z.shiftr redir 56) 0xff).
Definition dump_redir (a : ioapic) (i : Z) : option redir_line :=
  let (low, a) := ioapic_read a (0x10 + 2 * i) in
  let (high, a) := ioapic_read a (0x10 + 2 * i) in
  let redir := Z.lor low (u64 (Z.shiftl high 32)) in
  if redir =? 0 then None else Some (line_of redir).
Definition dump_redirs (a : ioapic) : list redir_line :=
  omap (λ i, dump_redir a (Z.of_nat i)) (seq 0 (Z.to_nat (m_num_gsi a))).

(** ** The timer *)

Lemma scale_spec fuel ticks d :
  0 ≤ ticks < 2 ^ (32 + Z.of_nat fuel) → 0 ≤ d →
  ∃ k, 0 ≤ k ≤ Z.of_nat fuel ∧ scale (S fuel) ticks (u32 d) = Done (Z.shiftr ticks k, u32 (d * 2 ^ k)) ∧
    Z.shiftr ticks k < 2 ^ 32 ∧ (0 < k → 2 ^ 32 ≤ Z.shiftr ticks (k - 1)).
Proof.
  revert ticks d. induction fuel as [|fuel IH]; intros ticks d Ht Hd; cbn [scale]; destruct (Z.ltb_spec 0xffffffff ticks) as [Hl|Hl].
  - change (Z.of_nat 0) with 0 in Ht. lia.
  - exists 0. rewrite Z.shiftr_0_r, Z.mul_1_r. split_and!; (done || lia).
  - replace (u32 (Z.shiftl (u32 d) 1)) with (u32 (2 * d)); cycle 1.
    { rewrite Z.shiftl_mul_pow2 by lia. unfold wrap. rewrite Zmult_mod_idemp_l. f_equal. lia. }
    destruct (IH (Z.shiftr ticks 1) (2 * d)) as (k & Hk & E & H1 & H2); [|lia|].
    { rewrite Z.shiftr_div_pow2 by lia. split; [apply Z.div_pos; lia|]. apply Z.div_lt_upper_bound; [done|].
      rewrite <-Z.pow_add_r by lia. replace (1 + (32 + Z.of_nat fuel)) with (32 + Z.of_nat (S fuel)) by lia. lia. }
    exists (k + 1). rewrite Z.shiftr_shiftr in E, H1 by lia. replace (1 + k) with (k + 1) in * by lia.
    split; [lia|]. split; [|split; [done|]].
    + cbn [scale] in E. rewrite E. do 2 f_equal. rewrite Z.pow_add_r by lia. f_equal. lia.
    + intros _. replace (k + 1 - 1) with k by lia. destruct (Z.eq_dec k 0) as [->|]; [rewrite Z.shiftr_0_r; lia|].
      specialize (H2 ltac:(lia)). rewrite Z.shiftr_shiftr in H2 by lia. by replace (1 + (k - 1)) with k in H2 by lia.
  - exists 0. rewrite Z.shiftr_0_r, Z.mul_1_r. split_and!; (done || lia).
Qed.

(** The divisor that the object knows is the one in the register. *)
Definition timer_ok (l : lapic) : Prop := m_divisor l ≠ 0 → divisor_bits (m_divisor l) = Some (apic_read l lapic_timer_div).
Lemma timer_ok_divisor l : timer_ok l → 0 ≤ m_divisor l ≤ 128.
Proof.
  intros H. destruct (decide (m_divisor l = 0)) as [->|Hne]; [lia|]. specialize (H Hne). unfold divisor_bits in H.
  repeat case_match; simplify_eq/=; lia.
Qed.
Lemma divisor_power k : 0 ≤ k ≤ 7 → ∃ b, divisor_bits (2 ^ k) = Some b ∧ is_word 32 b.
Proof.
  intros Hk. assert (k = 0 ∨ k = 1 ∨ k = 2 ∨ k = 3 ∨ k = 4 ∨ k = 5 ∨ k = 6 ∨ k = 7) as Hc by lia.
  repeat destruct Hc as [->|Hc]; try subst k; eexists; (split; [reflexivity|by vm_compute]).
Qed.
Lemma apic_read_write l off off' v : apic_read (apic_write l off v) off' = if decide (off = off') then u32 v else apic_read l off'.
Proof. unfold apic_read, apic_write. cbn. case_decide; [subst; by rewrite lookup_insert_eq|by rewrite lookup_insert_ne]. Qed.

(** Changing to a divisor that there is. *)
Lemma change_divisor l k : 0 ≤ k ≤ 7 → timer_ok l →
  ∃ l1, (if negb (u32 (2 ^ k) =? m_divisor l) then set_divisor l (u8 (u32 (2 ^ k))) else Done l) = Done l1 ∧
    m_divisor l1 = 2 ^ k ∧ timer_ok l1.
Proof.
  intros Hk Hok. pose proof (Z.pow_le_mono_r 2 k 7 ltac:(lia) ltac:(lia)). pose proof (Z.pow_pos_nonneg 2 k ltac:(lia) ltac:(lia)).
  rewrite (wrap_small 32) by (unfold is_word; lia). destruct (Z.eqb_spec (2 ^ k) (m_divisor l)) as [Eq|Hne]; cbn [negb].
  - by exists l.
  - rewrite (wrap_small 8) by (unfold is_word; lia). unfold set_divisor. destruct (divisor_power k Hk) as (b & Eb & Hb). rewrite Eb.
    eexists. split; [reflexivity|]. split; [done|]. intros _. cbn [m_divisor]. unfold apic_read. cbn. rewrite lookup_insert_eq, Eb. cbn. by rewrite wrap_small.
Qed.
(** A byte holds none of the larger ones. *)
Lemma big_divisor k : 8 ≤ k ≤ 32 → u8 (u32 (2 ^ k)) = 0.
Proof.
  intros Hk. unfold wrap. rewrite <-(Znumtheory.Zmod_div_mod (2 ^ 8) (2 ^ 32)) by (lia || by exists (2 ^ 24)).
  replace k with (k - 8 + 8) by lia. rewrite Z.pow_add_r by lia. apply Z.mod_mul. lia.
Qed.

(** The interval in ticks, and the shift that makes it fit. *)
Lemma reset_timer_scale rate l cur interval : 0 < rate → 0 ≤ interval →
  ∃ k, 0 ≤ k ≤ 32 ∧ let T := us_to_ticks rate interval in
    Z.shiftr T k < 2 ^ 32 ∧ (0 < k → 2 ^ 32 ≤ Z.shiftr T (k - 1)) ∧
    reset_timer rate l cur interval =
      (let* l := if negb (u32 (2 ^ k) =? m_divisor l) then set_divisor l (u8 (u32 (2 ^ k))) else Done l in
       Done (u32 (cur / rate), apic_write l lapic_timer_init (Z.shiftr T k))).
Proof.
  intros Hr Hi. set (T := us_to_ticks rate interval). assert (HT : is_u64 T) by (apply wrap_word; lia).
  destruct (scale_spec 32 T 1) as (k & Hk & E & H1 & H2); [exact HT|lia|]. exists k. split; [done|]. cbn [T]. split; [done|]. split; [done|].
  unfold reset_timer, ticks_to_us. destruct (Z.eqb_spec rate 0); [lia|]. fold T. unfold scale_fuel. change (u32 1) with 1 in E.
  cbn [mbind outcome_bind]. rewrite E. cbn [mbind outcome_bind]. by rewrite Z.mul_1_l.
Qed.

(** C24: Setting the timer to an interval of less than 2^39 ticks succeeds: the count and the divisor in
    the registers multiply to the interval, up to less than one step of the divisor, the divisor is the
    smallest with which the count fits, and the register holds the code of that divisor. *)
Theorem reset_timer_programs rate l cur interval : 0 < rate → 0 ≤ interval → timer_ok l →
  us_to_ticks rate interval < 2 ^ 39 →
  ∃ l', reset_timer rate l cur interval = Done (u32 (cur / rate), l') ∧ timer_ok l' ∧
    let d := m_divisor l' in let n := apic_read l' lapic_timer_init in
    n * d ≤ us_to_ticks rate interval < (n + 1) * d ∧ n < 2 ^ 32 ∧ divisor_bits d = Some (apic_read l' lapic_timer_div) ∧
    (1 < d → 2 ^ 32 ≤ us_to_ticks rate interval / (d / 2)).
Proof.
  intros Hr Hi Hok HT. destruct (reset_timer_scale rate l cur interval Hr Hi) as (k & Hk & H1 & H2 & E).
  set (T := us_to_ticks rate interval) in *. assert (HT0 : is_u64 T) by (apply wrap_word; lia).
  assert (Hk7 : k ≤ 7).
  { destruct (Z.le_gt_cases k 7); [done|]. specialize (H2 ltac:(lia)). rewrite Z.shiftr_div_pow2 in H2 by lia.
    pose proof (Z.pow_le_mono_r 2 7 (k - 1) ltac:(lia) ltac:(lia)). assert (T / 2 ^ (k - 1) < 2 ^ 32); [|lia].
    apply Z.div_lt_upper_bound; lia. }
  destruct (change_divisor l k) as (l1 & E1 & Ed & Hok1); [lia|done|]. rewrite E, E1. cbn [mbind outcome_bind].
  eexists. split; [reflexivity|]. assert (Hw : is_word 32 (Z.shiftr T k)) by (split; [apply Z.shiftr_nonneg; apply HT0|done]).
  split; [intros Hd; unfold timer_ok in Hok1; rewrite apic_read_write, decide_False by done; by apply Hok1|]. cbv zeta. cbn [m_divisor apic_write]. rewrite Ed, !apic_read_write, decide_True, decide_False by done.
  rewrite (wrap_small 32 (Z.shiftr T k)) by done. rewrite Z.shiftr_div_pow2 in * by lia.
  pose proof (Z.div_mod T (2 ^ k) ltac:(lia)). pose proof (Z.mod_pos_bound T (2 ^ k) ltac:(lia)).
  split; [nia|]. split; [done|]. split; [rewrite <-Ed; apply Hok1; rewrite Ed; lia|].
  intros Hd. assert (0 < k) by (destruct (decide (k = 0)) as [->|]; [done|lia]). specialize (H2 ltac:(lia)).
  rewrite Z.shiftr_div_pow2 in H2 by lia. replace (2 ^ k / 2) with (2 ^ (k - 1)); [done|].
  rewrite Z.pow_sub_r by lia. done.
Qed.

(** C38: Setting the timer panics exactly when the interval is 2^39 ticks or more, 128 times what the
    count can hold: no divisor is left then.  The divisor has been set before, as the calibration and
    the start of the scheduler do. *)
Theorem reset_timer_bound rate l cur interval : 0 < rate → 0 ≤ interval → timer_ok l → m_divisor l ≠ 0 →
  reset_timer rate l cur interval = Panic ↔ 2 ^ 39 ≤ us_to_ticks rate interval.
Proof.
  intros Hr Hi Hok Hd0. destruct (reset_timer_scale rate l cur interval Hr Hi) as (k & Hk & H1 & H2 & E). rewrite E. clear E.
  set (T := us_to_ticks rate interval) in *. assert (HT0 : is_u64 T) by (apply wrap_word; lia). rewrite Z.shiftr_div_pow2 in H1 by lia.
  destruct (Z.le_gt_cases k 7) as [Hk7|Hk7].
  - destruct (change_divisor l k) as (l1 & E1 & _); [lia|done|]. rewrite E1. cbn [mbind outcome_bind]. split; [done|]. intros HT.
    pose proof (Z.pow_le_mono_r 2 k 7 ltac:(lia) ltac:(lia)). pose proof (Z.div_mod T (2 ^ k) ltac:(lia)).
    pose proof (Z.mod_pos_bound T (2 ^ k) ltac:(lia)). nia.
  - specialize (H2 ltac:(lia)). rewrite Z.shiftr_div_pow2 in H2 by lia. split.
    + intros _. pose proof (Z.pow_le_mono_r 2 7 (k - 1) ltac:(lia) ltac:(lia)).
      pose proof (Z.div_mod T (2 ^ (k - 1)) ltac:(lia)). pose proof (Z.mod_pos_bound T (2 ^ (k - 1)) ltac:(lia)). nia.
    + intros _. rewrite big_divisor by lia. pose proof (timer_ok_divisor l Hok). destruct (Z.eqb_spec (u32 (2 ^ k)) (m_divisor l)) as [Eq|_]; [|done].
      exfalso. destruct (Z.eq_dec k 32) as [->|]; [by change (u32 (2 ^ 32)) with 0 in Eq|].
      pose proof (Z.pow_le_mono_r 2 8 k ltac:(lia) ltac:(lia)). pose proof (Z.pow_lt_mono_r 2 k 32 ltac:(lia) ltac:(lia) ltac:(lia)).
      rewrite wrap_small in Eq by (unfold is_word; lia). lia.
Qed.

(** [ipi_wait] ends when the interrupt before has been delivered. *)
Lemma ipi_wait_ends status n i :
  (∀ j, (i ≤ j < i + n)%nat → Z.testbit (status j) 12 = true) → Z.testbit (status (i + n)%nat) 12 = false →
  ∀ fuel, (n < fuel)%nat → ipi_wait fuel status i = Done (i + n)%nat.
Proof.
  revert i. induction n as [|n IH]; intros i Hp Hn [|fuel] Hf; [lia| |lia|]; cbn [ipi_wait].
  - rewrite Nat.add_0_r in *. by rewrite Hn.
  - rewrite Hp by lia. replace (i + S n)%nat with (S i + n)%nat in * by lia. apply IH; [|done|lia]. intros j Hj. apply Hp. lia.
Qed.

(** ** The table of redirections *)

(** What an entry says: the vector, the two bits of the flags, and whether it is masked. *)
Record route := Route { rt_vector : Z; rt_flags : Z; rt_masked : bool }.
Definition entry_of (r : route) : Z :=
  Z.lor (Z.lor (rt_vector r) (pin_bits (rt_flags r))) (if rt_masked r then Z.shiftl 1 16 else 0).
(** The calls of [redirect] and [mask], and the table that they make. *)
Inductive io_call := Redirect (irq vector flags : Z) (masked : bool) | Mask (irq : Z) (masked : bool).
Definition io_run (a : ioapic) (c : io_call) : ioapic :=
  match c with Redirect irq v f m => redirect a irq v f m | Mask irq m => mask a irq m end.
Definition io_spec (t : gmap Z route) (c : io_call) : gmap Z route :=
  match c with
  | Redirect irq v f m => <[irq := Route v f m]> t
  | Mask irq m => alter (λ r, Route (rt_vector r) (rt_flags r) m) irq t
  end.
Definition io_call_ok (c : io_call) : Prop :=
  match c with Redirect irq v f m => 0 ≤ irq < 120 ∧ is_word 8 v | Mask irq m => 0 ≤ irq < 120 end.
Definition table_at (a : ioapic) (t : gmap Z route) : Prop :=
  ∀ irq r, t !! irq = Some r → 0 ≤ irq < 120 ∧ is_word 8 (rt_vector r) ∧
    data a !! (2 * irq + 0x10) = Some (entry_of r) ∧ data a !! (2 * irq + 0x11) = Some 0.
(** The routes of the constructor. *)
Definition initial_route (i : nat) : Z * route :=
  (Z.of_nat i, Route (u8 (irq00 + Z.of_nat i)) (if Z.of_nat i <? 0x10 then 0 else 0xf) true).
Definition initial_table (n : nat) : gmap Z route := list_to_map (initial_route <$> seq 0 n).

Lemma pin_bits_word f : is_word 16 (pin_bits f).
Proof. unfold pin_bits. do 2 case_match; by vm_compute. Qed.
Lemma route_low_word v f : is_word 8 v → is_word 16 (Z.lor v (pin_bits f)).
Proof. intros Hv. apply lor_word; [lia|unfold is_word in *; lia|apply pin_bits_word]. Qed.
Lemma entry_word r : is_word 8 (rt_vector r) → is_word 32 (entry_of r).
Proof.
  intros Hv. apply lor_word; [lia| |case_match; by vm_compute]. pose proof (route_low_word _ (rt_flags r) Hv). unfold is_word in *. lia.
Qed.
Lemma entry_masked r : is_word 8 (rt_vector r) →
  Z.lor (entry_of r) (Z.shiftl 1 16) = entry_of (Route (rt_vector r) (rt_flags r) true) ∧
  Z.land (entry_of r) (wnot 32 (Z.shiftl 1 16)) = entry_of (Route (rt_vector r) (rt_flags r) false).
Proof.
  intros Hv. unfold entry_of. cbn [rt_vector rt_flags rt_masked]. pose proof (route_low_word _ (rt_flags r) Hv) as Hb.
  set (b := Z.lor (rt_vector r) (pin_bits (rt_flags r))) in *. change (Z.shiftl 1 16) with (bit 16). split.
  - rewrite <-Z.lor_assoc. f_equal. by destruct (rt_masked r); [rewrite Z.lor_diag|rewrite Z.lor_0_l].
  - rewrite Z.lor_0_r. apply Z.bits_inj'. intros i Hi. rewrite Z.land_spec, Z.lor_spec, wnot_testbit, bit_testbit by lia.
    destruct (decide (i < 16)) as [Hl|Hl].
    + rewrite (bool_decide_false (16 = i)) by lia. replace (i <? 32) with true by lia. rewrite andb_true_r.
      destruct (rt_masked r); [rewrite bit_testbit, bool_decide_false by lia|rewrite Z.bits_0]; by rewrite orb_false_r.
    + rewrite (word_testbit_high 16 b i) by (done || lia). destruct (decide (i = 16)) as [->|Hne]; [by rewrite bool_decide_true, !andb_false_r by done|].
      destruct (rt_masked r); [rewrite bit_testbit, bool_decide_false by lia|rewrite Z.bits_0]; done.
Qed.

(** Registers of an entry. *)
Lemma reg_of irq : 0 ≤ irq < 120 → u8 (2 * irq + 0x10) = 2 * irq + 0x10 ∧ u8 (2 * irq + 0x11) = 2 * irq + 0x11.
Proof. intros H. split; apply wrap_small; unfold is_word; lia. Qed.
Lemma redirect_data a irq v f m : 0 ≤ irq < 120 → is_word 8 v →
  data (redirect a irq v f m) = <[2 * irq + 0x11 := 0]> (<[2 * irq + 0x10 := entry_of (Route v f m)]> (data a)).
Proof.
  intros Hi Hv. destruct (reg_of irq Hi) as [E1 E2]. pose proof (entry_word (Route v f m) Hv) as Hw. unfold entry_of in *. cbn [rt_vector rt_flags rt_masked] in *.
  unfold redirect, ioapic_write. cbn [data]. rewrite E1, E2. set (e := Z.lor _ _) in *.
  assert (Z.land e 0xffffffff = e) as -> by (change 0xffffffff with (Z.ones 32); rewrite Z.land_ones by lia; by apply Z.mod_small).
  rewrite (Z.shiftr_div_pow2 e) by lia. rewrite Z.div_small by exact Hw. by rewrite (wrap_small 32 e).
Qed.
Lemma mask_data a irq m r : 0 ≤ irq < 120 → is_word 8 (rt_vector r) → data a !! (2 * irq + 0x10) = Some (entry_of r) →
  data (mask a irq m) = <[2 * irq + 0x10 := entry_of (Route (rt_vector r) (rt_flags r) m)]> (data a).
Proof.
  intros Hi Hv Hd. destruct (reg_of irq Hi) as [E1 _]. unfold mask, ioapic_read, ioapic_write. cbn [data select]. rewrite E1, Hd. cbn [default].
  destruct (entry_masked r Hv) as [M1 M2]. cbn [data select m_num_gsi]. f_equal. destruct m; cbn [from_option id]; rewrite ?M1, ?M2; apply wrap_small, entry_word; done.
Qed.
Lemma mask_other a irq m : 0 ≤ irq < 120 → ∃ x, data (mask a irq m) = <[2 * irq + 0x10 := x]> (data a).
Proof. intros Hi. destruct (reg_of irq Hi) as [E1 _]. unfold mask, ioapic_read, ioapic_write. cbn [data select]. rewrite E1. by eexists. Qed.

Lemma io_run_table a t c : io_call_ok c → table_at a t → table_at (io_run a c) (io_spec t c).
Proof.
  intros Hc Ht. destruct c as [irq v f m|irq m]; cbn [io_run io_spec io_call_ok] in *.
  - destruct Hc as [Hi Hv]. intros j r Hj. rewrite redirect_data by done. apply lookup_insert_Some in Hj as [[<- <-]|[Hne Hj]].
    + split; [done|]. split; [done|]. split; [by rewrite lookup_insert_ne, lookup_insert_eq by lia|apply lookup_insert_eq].
    + destruct (Ht j r Hj) as (H1 & H2 & H3 & H4). by rewrite !lookup_insert_ne by lia.
  - intros j r Hj. destruct (decide (j = irq)) as [->|Hne].
    + rewrite lookup_alter_eq in Hj. destruct (t !! irq) as [r0|] eqn:E; [|done]. injection Hj as <-.
      destruct (Ht irq r0 E) as (H1 & H2 & H3 & H4). rewrite (mask_data a irq m r0) by done.
      split; [done|]. split; [done|]. split; [apply lookup_insert_eq|by rewrite lookup_insert_ne by lia].
    + rewrite lookup_alter_ne in Hj by done. destruct (Ht j r Hj) as (H1 & H2 & H3 & H4). destruct (mask_other a irq m Hc) as [x ->].
      by rewrite !lookup_insert_ne by lia.
Qed.
Lemma io_runs_table cs a t : Forall io_call_ok cs → table_at a t → table_at (foldl io_run a cs) (foldl io_spec t cs).
Proof. intros Hc. revert a t. induction Hc as [|c cs Hc Hcs IH]; intros a t Ht; cbn; [done|]. by apply IH, io_run_table. Qed.
Lemma initial_table_at n a : (n ≤ 120)%nat → table_at (foldl redirect_masked a (seq 0 n)) (initial_table n).
Proof.
  unfold initial_table. induction n as [|n IH]; intros Hn.
  { intros irq r Hr. cbn in Hr. by rewrite lookup_empty in Hr. }
  rewrite seq_S, foldl_snoc, fmap_app. cbn [fmap list_fmap plus]. unfold initial_route at 2. rewrite list_to_map_snoc.
  - apply (io_run_table _ _ (Redirect _ _ _ true)); [|apply IH; lia]. cbn [io_call_ok]. split; [lia|]. apply wrap_word. lia.
  - intros Hin. rewrite <-list_fmap_compose in Hin. apply list_elem_of_fmap in Hin as (i & E & Hi%elem_of_seq). cbn in E. lia.
Qed.

(** After the constructor, and after any calls of [redirect] and [mask] with it, the registers hold
    the table that the calls describe: each interrupt that the controller said it has goes to its own
    vector and is masked, until a call redirects it; masking changes the mask and nothing else. *)
Theorem ioapic_routes hw cs n :
  Z.land (Z.shiftr (default 0 (hw !! 1)) 16) 0xff = Z.of_nat n → (n ≤ 120)%nat → Forall io_call_ok cs →
  table_at (foldl io_run (ioapic_new hw) cs) (foldl io_spec (initial_table n) cs).
Proof.
  intros Hn Hb Hc. apply io_runs_table; [done|]. unfold ioapic_new, ioapic_read. cbn [data select]. change (u8 1) with 1. rewrite Hn, Nat2Z.id.
  by apply initial_table_at.
Qed.

(** [dump_redirs] prints the low half of an entry as its destination: it reads the same register
    twice, so an entry of an interrupt is printed with its upper byte, not the one of the high half. *)
Theorem dump_reads_low_twice a i low high :
  0 ≤ i < 120 → data a !! (2 * i + 0x10) = Some low → data a !! (2 * i + 0x11) = Some high → is_word 32 low → low ≠ 0 →
  ∃ line, dump_redir a i = Some line ∧ r_dest line = Z.shiftr low 24.
Proof.
  intros Hi Hl Hh Hw Hn. destruct (reg_of i Hi) as [E1 _]. unfold dump_redir, ioapic_read. cbn [data select]. replace (0x10 + 2 * i) with (2 * i + 0x10) by lia.
  rewrite E1, Hl. cbn [default from_option id].
  unfold is_word in Hw. rewrite Z.shiftl_mul_pow2, (wrap_small 64), Z.lor_comm, lor_add_low by (unfold is_word; lia).
  destruct (Z.eqb_spec (low * 2 ^ 32 + low) 0) as [E|_]; [lia|]. eexists. split; [reflexivity|]. cbn [r_dest line_of].
  change 0xff with (Z.ones 8). rewrite Z.land_ones, !Z.shiftr_div_pow2 by lia. change (2 ^ 56) with (2 ^ 32 * 2 ^ 24).
  rewrite <-Z.div_div, Z.div_add_l, (Z.div_small low (2 ^ 32)), Z.add_0_r by lia. apply Z.mod_small.
  split; [apply Z.div_pos; lia|]. apply Z.div_lt_upper_bound; lia.
Qed.

(** ** Examples *)

(** A timer of a hundred ticks each microsecond, after its calibration. *)
Definition calibrated : lapic := Lapic {[lapic_timer_div := 0xb]} 1.
Lemma reset_timer_programs_witness :
  ∃ l', reset_timer 100 calibrated 500 60000000 = Done (5, l') ∧ timer_ok l' ∧ m_divisor l' = 2 ∧ apic_read l' lapic_timer_init = 3000000000.
Proof.
  destruct (reset_timer_programs 100 calibrated 500 60000000) as (l' & E & Hok & _); [lia|lia|by intros _|by vm_compute|].
  exists l'. split; [exact E|]. split; [exact Hok|]. revert E. vm_compute. intros [= <-]. done.
Defined.
Lemma reset_timer_bound_witness : reset_timer 100 calibrated 500 6000000000 = Panic.
Proof. apply (reset_timer_bound 100 calibrated 500 6000000000); [lia|lia|by intros _|done|by vm_compute]. Defined.
(** A controller of 24 interrupts, one of which is unmasked and one sent elsewhere. *)
Lemma ioapic_routes_witness :
  table_at (foldl io_run (ioapic_new {[1 := 0x180011]}) [Mask 4 false; Redirect 9 0x50 0xf false])
    (foldl io_spec (initial_table 24) [Mask 4 false; Redirect 9 0x50 0xf false]) ∧
  foldl io_spec (initial_table 24) [Mask 4 false; Redirect 9 0x50 0xf false] !! 4 = Some (Route 0x34 0 false).
Proof.
  split; [|by vm_compute]. apply (ioapic_routes {[1 := 0x180011]} [Mask 4 false; Redirect 9 0x50 0xf false] 24); [by vm_compute|lia|].
  repeat constructor; cbn; by (lia || vm_compute).
Defined.
Lemma dump_reads_low_twice_witness :
  ∃ line, dump_redir (Ioapic 0 {[0x18 := 0xab010034; 0x19 := 0x05000000]} 24) 4 = Some line ∧ r_dest line = 0xab.
Proof.
  destruct (dump_reads_low_twice (Ioapic 0 {[0x18 := 0xab010034; 0x19 := 0x05000000]} 24) 4 0xab010034 0x05000000) as (line & E & Hd);
    [lia|by vm_compute|by vm_compute|by vm_compute|done|]. exists line. split; [exact E|]. exact Hd.
Defined.
