(* ===== verification/Acpi.v ===== *)
(** * The firmware's tables

    Models the part of src/kernel/device_manager.cpp that reads the tables of the firmware
    ([parse_acpi], [load_xsdt], [load_apic], [load_hpet] and the look-ups of what they stored), with
    src/libraries/acpi/include/acpi/tables.h, and src/kernel/hpet.cpp.  The tables are bytes in physical
    memory; a byte that is not there is undefined behaviour.  The interrupt controllers are those of
    Apic.v; their registers and those of the timers, by physical address, are parameters.

    [madt_roundtrip] shows that the controllers, overrides and lines that a well-formed table lists are
    what the device manager knows after reading it, in order; [parse_acpi_loads] carries this from the
    root pointer, through the checks of signatures and sums, to all tables.  [empty_entry_hangs] shows
    that an entry of length zero stops the kernel's start in an endless loop. *)
From S2P Require Import Prelude Bytes Apic.

(** [util::checksum] on memory *)
Fixpoint sum_from (pm : physical) (a : Z) (n : nat) (sum : Z) : outcome Z :=
  match n with
  | O => Done sum
  | S n => let* b := byte pm a in sum_from pm (a + 1) n (u8 (sum + b))
  end.
Definition checksum (pm : physical) (p len off : Z) : outcome Z := sum_from pm (p + off) (Z.to_nat (len - off)) 0.

(** ** tables.h *)

Definition header_size : Z := 36.
Definition xsdt_size : Z := 36.
Definition apic_size : Z := 44.
Definition rsdp1_size : Z := 20.
Definition rsdp2_size : Z := 36.
(** [byteswap32] of the four characters: their bytes in order. *)
Definition xsdt_type : Z := of_le [0x58; 0x53; 0x44; 0x54].
Definition apic_type : Z := of_le [0x41; 0x50; 0x49; 0x43].
Definition hpet_type : Z := of_le [0x48; 0x50; 0x45; 0x54].
Definition table_type (pm : physical) (h : Z) : outcome Z := read_le pm h 4.
Definition table_length (pm : physical) (h : Z) : outcome Z := read_le pm (h + 4) 4.
Definition validate (pm : physical) (h : Z) : outcome bool :=
  let* len := table_length pm h in let* s := checksum pm h len 0 in Done (s =? 0).
(** [table_entries]: the length is subtracted as a size_t. *)
Definition table_entries (pm : physical) (h base size : Z) : outcome Z :=
  let* len := table_length pm h in Done (u64 (len - base) / size).
(** [check_get_table] and the first use of its result: a table of another type is a null pointer. *)
Definition check_get_table (pm : physical) (h type : Z) : outcome unit :=
  let* t := table_type pm h in if t =? type then Done () else Undef.

(** ** hpet.cpp *)

(** The registers, as words of eight bytes. *)
Record hpet := Hpet { h_index : Z; m_timers : Z; m_period : Z; h_regs : gmap Z Z }.
Definition hpet_read (r : gmap Z Z) (i : Z) : Z := default 0 (r !! i).
Definition hpet_capabilities : Z := 0.
Definition hpet_configuration : Z := 2.
Definition hpet_counter : Z := 30.
Definition timer_config (i : Z) : Z := 0x20 + 4 * i.
Definition timer_comparator (i : Z) : Z := timer_config i + 1.
Definition femto_per_us : Z := 1000000000.
Definition setup_timer_interrupts (period : Z) (r : gmap Z Z) (timer irq interval : Z) (periodic : bool) : outcome (gmap Z Z) :=
  if period =? 0 then Undef
  else
    let r := <[timer_comparator timer := u64 (hpet_read r hpet_counter + u64 (interval * femto_per_us) / period)]> r in
    Done (<[timer_config timer := Z.lor (Z.shiftl irq 9) (Z.shiftl (if periodic then 1 else 0) 3)]> r).
Definition enable_timer (r : gmap Z Z) (timer : Z) : gmap Z Z :=
  <[timer_config timer := Z.lor (hpet_read r (timer_config timer)) (Z.shiftl 1 2)]> r.
Definition disable_timer (r : gmap Z Z) (timer : Z) : gmap Z Z :=
  <[timer_config timer := Z.land (hpet_read r (timer_config timer)) (wnot 64 (Z.shiftl 1 2))]> r.
Definition hpet_new (index : Z) (r : gmap Z Z) : outcome hpet :=
  let r := <[hpet_counter := 0]> (<[hpet_configuration := 0]> r) in
  let caps := hpet_read r hpet_capabilities in
  let timers := Z.land (Z.shiftr caps 8) 0x1f + 1 in
  let period := Z.shiftr caps 32 in
  let* r := setup_timer_interrupts period r 0 2 1000 true in
  Done (Hpet index timers period (foldl disable_timer r (seqZ 0 timers))).
Definition hpet_enable (h : hpet) : hpet :=
  Hpet (h_index h) (m_timers h) (m_period h)
    (<[hpet_configuration := Z.lor (Z.land (hpet_read (h_regs h) hpet_configuration) 0x3) 1]> (h_regs h)).
Definition hpet_rate (h : hpet) : outcome Z := if m_period h =? 0 then Undef else Done (1000000000 / m_period h).

(** ** The device manager's knowledge *)

Record irq_override := Override { o_source : Z; o_gsi : Z; o_flags : Z }.
Record apic_nmi := Nmi { n_cpu : Z; n_lint : Z; n_flags : Z }.
Record devices := Devices {
  lapic_base : Z;
  m_ioapics : list (Z * ioapic);   (** with the first number of their interrupts *)
  m_hpets : list hpet;
  m_apic_ids : list Z;
  m_nmis : list apic_nmi;
  m_overrides : list irq_override;
}.
Definition no_devices : devices := Devices 0 [] [] [] [] [].
Definition with_lapic_base (d : devices) (b : Z) : devices := Devices b (m_ioapics d) (m_hpets d) (m_apic_ids d) (m_nmis d) (m_overrides d).
Definition with_ioapics (d : devices) (l : list (Z * ioapic)) : devices := Devices (lapic_base d) l (m_hpets d) (m_apic_ids d) (m_nmis d) (m_overrides d).
Definition with_hpets (d : devices) (l : list hpet) : devices := Devices (lapic_base d) (m_ioapics d) l (m_apic_ids d) (m_nmis d) (m_overrides d).
Definition with_apic_ids (d : devices) (l : list Z) : devices := Devices (lapic_base d) (m_ioapics d) (m_hpets d) l (m_nmis d) (m_overrides d).
Definition with_nmis (d : devices) (l : list apic_nmi) : devices := Devices (lapic_base d) (m_ioapics d) (m_hpets d) (m_apic_ids d) l (m_overrides d).
Definition with_overrides (d : devices) (l : list irq_override) : devices := Devices (lapic_base d) (m_ioapics d) (m_hpets d) (m_apic_ids d) (m_nmis d) l.

Definition get_lapic_nmi (d : devices) (id : Z) : option apic_nmi :=
  list_find (λ n, n_cpu n = 0xff ∨ n_cpu n = id) (m_nmis d) ≫= λ x, Some x.2.
Definition get_irq_override (d : devices) (irq : Z) : option irq_override :=
  list_find (λ o, o_source o = irq) (m_overrides d) ≫= λ x, Some x.2.
Definition get_ioapic (d : devices) (i : nat) : option (Z * ioapic) := m_ioapics d !! i.

Section load.
(** The registers of the controllers and timers at a physical address. *)
Context (ioapic_hw hpet_hw : Z → gmap Z Z).
Context (pm : physical).

(** The first pass over the entries. *)
Record counts := Counts { num_lapics : Z; num_ioapics : Z; num_overrides : Z; num_nmis : Z }.
Definition count (c : counts) (type : Z) : counts :=
  match type with
  | 0 => Counts (num_lapics c + 1) (num_ioapics c) (num_overrides c) (num_nmis c)
  | 1 => Counts (num_lapics c) (num_ioapics c + 1) (num_overrides c) (num_nmis c)
  | 2 => Counts (num_lapics c) (num_ioapics c) (num_overrides c + 1) (num_nmis c)
  | 4 => Counts (num_lapics c) (num_ioapics c) (num_overrides c) (num_nmis c + 1)
  | _ => c
  end.
Fixpoint count_pass (fuel : nat) (p end_ : Z) (c : counts) : outcome counts :=
  match fuel with
  | O => Diverge
  | S fuel =>
      if p <? end_ then
        let* type := byte pm p in
        let* length := byte pm (p + 1) in
        count_pass fuel (p + length) end_ (count c type)
      else Done c
  end.

(** An entry of the second pass. *)
Definition load_entry (d : devices) (p type : Z) : outcome devices :=
  match type with
  | 0 =>
      let* uid := read_le pm (p + 2) 1 in
      let* id := read_le pm (p + 3) 1 in
      Done (with_apic_ids d (m_apic_ids d ++ [id]))
  | 1 =>
      let* base := read_le pm (p + 4) 4 in
      let* base_gsi := read_le pm (p + 8) 4 in
      Done (with_ioapics d (m_ioapics d ++ [(base_gsi, ioapic_new (ioapic_hw base))]))
  | 2 =>
      let* source := read_le pm (p + 3) 1 in
      let* gsi := read_le pm (p + 4) 4 in
      let* flags := read_le pm (p + 8) 2 in
      Done (with_overrides d (m_overrides d ++ [Override source gsi flags]))
  | 4 =>
      let* cpu := read_le pm (p + 2) 1 in
      let* lint := read_le pm (p + 5) 1 in
      let* flags := read_le pm (p + 3) 2 in
      Done (with_nmis d (m_nmis d ++ [Nmi cpu lint flags]))
  | _ => Done d
  end.
Fixpoint load_pass (fuel : nat) (p end_ : Z) (d : devices) : outcome devices :=
  match fuel with
  | O => Diverge
  | S fuel =>
      if p <? end_ then
        let* type := byte pm p in
        let* length := byte pm (p + 1) in
        let* d := load_entry d p type in
        load_pass fuel (p + length) end_ d
      else Done d
  end.
(** [m_ioapics[0].mask(irq, false)]; the vector's index is not checked. *)
Definition unmask_first (d : devices) (irq : Z) : outcome devices :=
  match m_ioapics d with
  | [] => Undef
  | (gsi, a) :: l => Done (with_ioapics d ((gsi, mask a irq false) :: l))
  end.
Definition load_apic (fuel : nat) (h : Z) (d : devices) : outcome devices :=
  let* _ := check_get_table pm h apic_type in
  let* local := read_le pm (h + header_size) 4 in
  let d := with_lapic_base d local in
  let* count := table_entries pm h apic_size 1 in
  let p := h + apic_size in
  let* _ := count_pass fuel p (p + count) (Counts 0 0 0 0) in
  let* d := load_pass fuel p (p + count) d in
  let* d := unmask_first d 3 in
  unmask_first d 4.
(** [acpi::hpet]: the address of the registers is behind the four bytes of its description. *)
Definition load_hpet (h : Z) (d : devices) : outcome devices :=
  let* _ := check_get_table pm h hpet_type in
  let* hwid := read_le pm (h + header_size) 4 in
  let* address := read_le pm (h + header_size + 8) 8 in
  let* index := read_le pm (h + header_size + 16) 1 in
  let* t := hpet_new index (hpet_hw address) in
  Done (with_hpets d (m_hpets d ++ [t])).

Definition load_table (fuel : nat) (h : Z) (d : devices) : outcome devices :=
  let* ok := validate pm h in
  let* _ := kassert ok in
  let* type := table_type pm h in
  if type =? apic_type then load_apic fuel h d
  else if type =? hpet_type then load_hpet h d
  else Done d.
Fixpoint load_tables (fuel : nat) (n : nat) (entry : Z) (d : devices) : outcome devices :=
  match n with
  | O => Done d
  | S n =>
      let* h := read_le pm entry 8 in
      let* d := load_table fuel h d in
      load_tables fuel n (entry + 8) d
  end.
Definition load_xsdt (fuel : nat) (h : Z) (d : devices) : outcome devices :=
  let* _ := check_get_table pm h xsdt_type in
  let* n := table_entries pm h xsdt_size 8 in
  load_tables fuel (Z.to_nat n) (h + xsdt_size) d.

(** The characters of the signature. *)
Definition expected_signature : list Z := [0x52; 0x53; 0x44; 0x20; 0x50; 0x54; 0x52; 0x20].
Fixpoint check_signature (a : Z) (s : list Z) : outcome unit :=
  match s with
  | [] => Done ()
  | c :: s => let* b := byte pm a in let* _ := kassert (b =? c) in check_signature (a + 1) s
  end.
Definition parse_acpi (fuel : nat) (root : Z) (d : devices) : outcome devices :=
  let* _ := kassert (negb (root =? 0)) in
  let* _ := check_signature root expected_signature in
  let* sum := checksum pm root rsdp1_size 0 in
  let* _ := kassert (sum =? 0) in
  let* revision := byte pm (root + 15) in
  let* _ := kassert (1 <? revision) in
  let* sum := checksum pm root rsdp2_size rsdp1_size in
  let* _ := kassert (sum =? 0) in
  let* xsdt := read_le pm (root + 24) 8 in
  let* ok := validate pm xsdt in
  let* _ := kassert ok in
  load_xsdt fuel xsdt d.
End load.

(** ** Entries *)

Inductive madt_entry :=
  | LocalApic (uid id flags : Z)
  | IoApic (id base gsi : Z)
  | SourceOverride (bus source gsi flags : Z)
  | LocalNmi (cpu flags lint : Z)
  | OtherEntry (type : Z) (payload : list Z).
Definition entry_bytes (e : madt_entry) : list Z :=
  match e with
  | LocalApic uid id flags => [0; 8; uid; id] ++ le_bytes 4 flags
  | IoApic id base gsi => [1; 12; id; 0] ++ le_bytes 4 base ++ le_bytes 4 gsi
  | SourceOverride bus source gsi flags => [2; 10; bus; source] ++ le_bytes 4 gsi ++ le_bytes 2 flags
  | LocalNmi cpu flags lint => [4; 6; cpu] ++ le_bytes 2 flags ++ [lint]
  | OtherEntry type payload => [type; 2 + Z.of_nat (length payload)] ++ payload
  end.
Definition entry_wf (e : madt_entry) : Prop :=
  match e with
  | LocalApic uid id flags => True
  | IoApic id base gsi => is_word 32 base ∧ is_word 32 gsi
  | SourceOverride bus source gsi flags => is_word 32 gsi ∧ is_word 16 flags
  | LocalNmi cpu flags lint => is_word 16 flags
  | OtherEntry type payload => type ∉ [0; 1; 2; 4]
  end.
(** What an entry adds. *)
Definition id_of (e : madt_entry) : option Z := match e with LocalApic _ id _ => Some id | _ => None end.
Definition ioapic_of (hw : Z → gmap Z Z) (e : madt_entry) : option (Z * ioapic) :=
  match e with IoApic _ base gsi => Some (gsi, ioapic_new (hw base)) | _ => None end.
Definition override_of (e : madt_entry) : option irq_override :=
  match e with SourceOverride _ source gsi flags => Some (Override source gsi flags) | _ => None end.
Definition nmi_of (e : madt_entry) : option apic_nmi := match e with LocalNmi cpu flags lint => Some (Nmi cpu lint flags) | _ => None end.
Definition add_entries (hw : Z → gmap Z Z) (d : devices) (es : list madt_entry) : devices :=
  Devices (lapic_base d) (m_ioapics d ++ omap (ioapic_of hw) es) (m_hpets d) (m_apic_ids d ++ omap id_of es)
    (m_nmis d ++ omap nmi_of es) (m_overrides d ++ omap override_of es).
Definition entry_type (e : madt_entry) : Z :=
  match e with LocalApic _ _ _ => 0 | IoApic _ _ _ => 1 | SourceOverride _ _ _ _ => 2 | LocalNmi _ _ _ => 4 | OtherEntry t _ => t end.

Section entries.
Context (ioapic_hw hpet_hw : Z → gmap Z Z) (pm : physical).

Lemma add_entries_cons d e es : add_entries ioapic_hw d (e :: es) = add_entries ioapic_hw (add_entries ioapic_hw d [e]) es.
Proof. unfold add_entries. destruct d. cbn. f_equal; destruct e; cbn; by rewrite ?app_nil_r, <-?app_assoc. Qed.

Lemma entry_head e p : bytes_at pm p (entry_bytes e) →
  pm !! p = Some (entry_type e) ∧ pm !! (p + 1) = Some (Z.of_nat (length (entry_bytes e))).
Proof.
  intros H. destruct e; cbn [entry_bytes app length] in *; rewrite ?length_app, ?length_le_bytes; apply bytes_at_cons in H as [H0 [H1 _]%bytes_at_cons];
    (split; [done|]); rewrite H1; f_equal; cbn; lia.
Qed.
Lemma load_entry_spec d e p : bytes_at pm p (entry_bytes e) → entry_wf e →
  load_entry ioapic_hw pm d p (entry_type e) = Done (add_entries ioapic_hw d [e]).
Proof.
  intros H Hw. destruct e as [uid id flags|id base gsi|bus source gsi flags|cpu flags lint|type payload]; cbn [entry_type load_entry] in *.
  - rewrite (read_byte_at _ (p + 2) uid) by exact (H 2%nat _ eq_refl). rewrite (read_byte_at _ (p + 3) id) by exact (H 3%nat _ eq_refl).
    cbn. unfold add_entries, with_apic_ids. by rewrite !app_nil_r.
  - destruct Hw as [Hb Hg]. cbn [entry_bytes] in H. apply bytes_at_app in H as [_ [Hb1 Hg1]%bytes_at_app]. rewrite length_le_bytes, <-Z.add_assoc in Hg1.
    rewrite (read_le_at _ (p + 4) 4 base), (read_le_at _ (p + 8) 4 gsi) by done. cbn. unfold add_entries, with_ioapics. by rewrite !app_nil_r.
  - destruct Hw as [Hg Hf]. rewrite (read_byte_at _ (p + 3) source) by exact (H 3%nat _ eq_refl). cbn [entry_bytes] in H.
    apply bytes_at_app in H as [_ [Hg1 Hf1]%bytes_at_app]. rewrite length_le_bytes, <-Z.add_assoc in Hf1.
    rewrite (read_le_at _ (p + 4) 4 gsi), (read_le_at _ (p + 8) 2 flags) by done. cbn. unfold add_entries, with_overrides. by rewrite !app_nil_r.
  - rewrite (read_byte_at _ (p + 2) cpu) by exact (H 2%nat _ eq_refl). rewrite (read_byte_at _ (p + 5) lint) by exact (H 5%nat _ eq_refl).
    cbn [entry_bytes] in H. apply bytes_at_app in H as [_ [Hf1 _]%bytes_at_app].
    rewrite (read_le_at _ (p + 3) 2 flags) by done. cbn. unfold add_entries, with_nmis. by rewrite !app_nil_r.
  - cbn in Hw. rewrite !not_elem_of_cons in Hw. destruct Hw as (T0 & T1 & T2 & T4 & _).
    transitivity (Done d); [|unfold add_entries; destruct d; cbn; by rewrite !app_nil_r].
    unfold load_entry. repeat case_match; congruence.
Qed.

Lemma passes_spec es : ∀ fuel p d c, bytes_at pm p (concat (entry_bytes <$> es)) → Forall entry_wf es → (length es < fuel)%nat →
  let end_ := p + Z.of_nat (length (concat (entry_bytes <$> es))) in
  (∃ c', count_pass pm fuel p end_ c = Done c') ∧ load_pass ioapic_hw pm fuel p end_ d = Done (add_entries ioapic_hw d es).
Proof.
  induction es as [|e es IH]; intros fuel p d c H Hw Hf; destruct fuel as [|fuel]; cbn [length] in Hf; try lia; cbv zeta.
  - cbn. rewrite Z.add_0_r, Z.ltb_irrefl. split; [by eexists|]. unfold add_entries. destruct d. cbn. by rewrite !app_nil_r.
  - cbn [fmap list_fmap concat] in *. apply bytes_at_app in H as [He H]. apply Forall_cons in Hw as [Hwe Hw].
    pose proof (entry_head e p He) as [H0 H1]. rewrite length_app. assert (2 ≤ Z.of_nat (length (entry_bytes e))).
    { destruct e; cbn [entry_bytes app length]; rewrite ?length_app, ?length_le_bytes; cbn; lia. }
    cbn [count_pass load_pass]. rewrite (proj2 (Z.ltb_lt p _)) by lia. unfold byte. rewrite H0, H1. cbn [deref mbind outcome_bind].
    rewrite (load_entry_spec d e p He Hwe). cbn [mbind outcome_bind].
    replace (p + Z.of_nat (length (entry_bytes e) + length (concat (entry_bytes <$> es)))) with
      (p + Z.of_nat (length (entry_bytes e)) + Z.of_nat (length (concat (entry_bytes <$> es)))) by lia.
    destruct (IH fuel (p + Z.of_nat (length (entry_bytes e))) (add_entries ioapic_hw d [e]) (count c (entry_type e)) H Hw ltac:(lia)) as [IH1 IH2].
    split; [exact IH1|]. rewrite IH2. by rewrite <-add_entries_cons.
Qed.
End entries.

(** ** Tables *)

(** The header of a table, the 28 bytes between its length and its contents in [rest]. *)
Definition table_bytes (type : Z) (rest contents : list Z) : list Z :=
  le_bytes 4 type ++ le_bytes 4 (36 + Z.of_nat (length contents)) ++ rest ++ contents.
Definition madt_contents (local flags : Z) (es : list madt_entry) : list Z :=
  le_bytes 4 local ++ le_bytes 4 flags ++ concat (entry_bytes <$> es).
(** The lines of the serial ports, 3 and 4, are let through at the first controller. *)
Definition unmask_serial (l : list (Z * ioapic)) : list (Z * ioapic) :=
  match l with [] => [] | (gsi, a) :: l => (gsi, mask (mask a 3 false) 4 false) :: l end.

Lemma table_head pm h type rest contents : bytes_at pm h (table_bytes type rest contents) → length rest = 28%nat → is_word 32 type →
  36 + Z.of_nat (length contents) < 2 ^ 32 →
  table_type pm h = Done type ∧ table_length pm h = Done (36 + Z.of_nat (length contents)) ∧ bytes_at pm (h + header_size) contents.
Proof.
  intros H Hr Ht Hl. apply bytes_at_app in H as [H1 [H2 [_ H3]%bytes_at_app]%bytes_at_app]. rewrite !length_le_bytes, ?Hr in *.
  split; [by apply read_le_at|]. split; [apply read_le_at; [done|]; change (256 ^ Z.of_nat 4) with (2 ^ 32); lia|].
  unfold header_size. replace (h + 36) with (h + Z.of_nat 4 + Z.of_nat 4 + Z.of_nat 28) by lia. done.
Qed.

(** C22: Reading a table of interrupt controllers with at least one for devices gives what it lists: the
    ids of the processors, the controllers with the first number of their interrupts, the overrides and
    the lines of non-maskable interrupts, each kind in the order of the table; entries of other types
    are passed over.  The lines of the serial ports are unmasked at the first controller. *)
Theorem madt_roundtrip ioapic_hw pm h rest local flags es fuel d :
  bytes_at pm h (table_bytes apic_type rest (madt_contents local flags es)) → length rest = 28%nat → is_word 32 local →
  Forall entry_wf es → Z.of_nat (length (concat (entry_bytes <$> es))) + apic_size < 2 ^ 32 → (length es < fuel)%nat →
  m_ioapics d ++ omap (ioapic_of ioapic_hw) es ≠ [] →
  load_apic ioapic_hw pm fuel h d =
    Done (Devices local (unmask_serial (m_ioapics d ++ omap (ioapic_of ioapic_hw) es)) (m_hpets d) (m_apic_ids d ++ omap id_of es)
      (m_nmis d ++ omap nmi_of es) (m_overrides d ++ omap override_of es)).
Proof.
  intros H Hr Hloc Hw Hlen Hf Hne. unfold apic_size in *.
  assert (Hcl : Z.of_nat (length (madt_contents local flags es)) = 8 + Z.of_nat (length (concat (entry_bytes <$> es)))).
  { unfold madt_contents. rewrite !length_app, !length_le_bytes. lia. }
  destruct (table_head pm h apic_type rest _ H Hr) as (Ht & Hl & Hc); [by vm_compute|lia|]. rewrite Hcl in Hl.
  apply bytes_at_app in Hc as [H1 [_ H2]%bytes_at_app]. rewrite !length_le_bytes in *.
  unfold load_apic, check_get_table. rewrite Ht. cbn [mbind outcome_bind]. rewrite Z.eqb_refl. cbn [mbind outcome_bind].
  rewrite (read_le_at pm (h + header_size) 4 local) by done. cbn [mbind outcome_bind]. unfold table_entries. rewrite Hl. cbn [mbind outcome_bind].
  unfold apic_size, header_size in *. rewrite Z.div_1_r, wrap_small by (unfold is_word; lia).
  replace (36 + (8 + Z.of_nat (length (concat (entry_bytes <$> es)))) - 44) with (Z.of_nat (length (concat (entry_bytes <$> es)))) by lia.
  replace (h + 36 + Z.of_nat 4 + Z.of_nat 4) with (h + 44) in H2 by lia.
  destruct (passes_spec ioapic_hw pm es fuel (h + 44) (with_lapic_base d local) (Counts 0 0 0 0) H2 Hw Hf) as [[c ->] ->].
  cbn [mbind outcome_bind]. unfold unmask_first, add_entries. cbn [m_ioapics with_lapic_base lapic_base].
  destruct (m_ioapics d ++ omap (ioapic_of ioapic_hw) es) as [|[gsi a] l]; [done|]. reflexivity.
Qed.

(** The first pass does not get past an entry of length zero. *)
Lemma count_pass_hangs pm es t : ∀ fuel p end_ c, bytes_at pm p (concat (entry_bytes <$> es) ++ [t; 0]) →
  p + Z.of_nat (length (concat (entry_bytes <$> es))) < end_ → count_pass pm fuel p end_ c = Diverge.
Proof.
  induction es as [|e es IH]; intros fuel p end_ c H He; cbn [fmap list_fmap concat app] in *.
  - apply bytes_at_cons in H as [H0 [H1 _]%bytes_at_cons]. rewrite Z.add_0_r in He. revert c. induction fuel as [|fuel IH]; intros c; cbn [count_pass]; [done|].
    rewrite (proj2 (Z.ltb_lt p end_)) by done. unfold byte. rewrite H0, H1. cbn [deref mbind outcome_bind]. by rewrite Z.add_0_r.
  - rewrite <-app_assoc in H. apply bytes_at_app in H as [Hh Hs]. rewrite length_app in He. destruct fuel as [|fuel]; cbn [count_pass]; [done|].
    destruct (entry_head pm e p Hh) as [H0 H1]. rewrite (proj2 (Z.ltb_lt p end_)) by lia. unfold byte. rewrite H0, H1. cbn [deref mbind outcome_bind].
    apply IH; [done|lia].
Qed.

(** The sum of a table's bytes is zero in its lowest byte. *)
Definition byte_sum (bs : list Z) : Z := foldr Z.add 0 bs.
Definition zero_sum (bs : list Z) : Prop := byte_sum bs mod 2 ^ 8 = 0.
Lemma sum_from_at pm bs : ∀ a s, bytes_at pm a bs → sum_from pm a (length bs) (u8 s) = Done (u8 (s + byte_sum bs)).
Proof.
  induction bs as [|b bs IH]; intros a s H; cbn [sum_from length byte_sum foldr]; [by rewrite Z.add_0_r|]. apply bytes_at_cons in H as [Hb Hs].
  unfold byte. rewrite Hb. cbn [deref mbind outcome_bind]. replace (u8 (u8 s + b)) with (u8 (s + b)); [|unfold wrap; by rewrite Zplus_mod_idemp_l].
  rewrite (IH (a + 1) (s + b) Hs). by replace (s + b + byte_sum bs) with (s + (b + byte_sum bs)) by lia.
Qed.
Lemma checksum_at pm p bs bs' : bytes_at pm p (bs ++ bs') → zero_sum bs' →
  checksum pm p (Z.of_nat (length (bs ++ bs'))) (Z.of_nat (length bs)) = Done 0.
Proof.
  intros [_ H]%bytes_at_app Hz. unfold checksum. rewrite length_app. replace (Z.to_nat _) with (length bs') by lia.
  change 0 with (u8 0) at 1. rewrite (sum_from_at pm bs' _ 0 H). f_equal. exact Hz.
Qed.
Lemma validate_table pm h type rest contents : bytes_at pm h (table_bytes type rest contents) → length rest = 28%nat → is_word 32 type →
  36 + Z.of_nat (length contents) < 2 ^ 32 → zero_sum (table_bytes type rest contents) → validate pm h = Done true.
Proof.
  intros H Hr Ht Hl Hz. destruct (table_head pm h type rest contents H Hr Ht Hl) as (_ & E & _). unfold validate. rewrite E. cbn [mbind outcome_bind].
  pose proof (checksum_at pm h [] _ H Hz) as Hc. cbn [app length] in Hc. change (Z.of_nat 0) with 0 in Hc.
  replace (36 + Z.of_nat (length contents)) with (Z.of_nat (length (table_bytes type rest contents))).
  - by rewrite Hc.
  - unfold table_bytes. rewrite !length_app, !length_le_bytes, Hr. lia.
Qed.
Lemma check_signature_at pm s : ∀ a, bytes_at pm a s → check_signature pm a s = Done ().
Proof.
  induction s as [|c s IH]; intros a H; cbn [check_signature]; [done|]. apply bytes_at_cons in H as [Hc Hs]. unfold byte. rewrite Hc.
  cbn [deref mbind outcome_bind]. rewrite Z.eqb_refl. cbn. by apply IH.
Qed.

Section parse.
Context (ioapic_hw hpet_hw : Z → gmap Z Z) (pm : physical) (fuel : nat).
(** The tables in the order of their addresses. *)
Abbreviation load_all d hs := (foldl (λ o h, o ≫= load_table ioapic_hw hpet_hw pm fuel h) (Done d) hs).

Lemma foldl_failed (hs : list Z) (f : Z → devices → outcome devices) o : (∀ d, o ≠ Done d) → foldl (λ o h, o ≫= f h) o hs = o.
Proof. intros Ho. induction hs as [|h hs IH]; [done|]. cbn [foldl]. replace (o ≫= f h) with o; [done|]. destruct o; [by edestruct Ho|done..]. Qed.
Lemma load_tables_spec hs : ∀ a d, bytes_at pm a (concat (le_bytes 8 <$> hs)) → Forall (is_word 64) hs →
  load_tables ioapic_hw hpet_hw pm fuel (length hs) a d = load_all d hs.
Proof.
  induction hs as [|h hs IH]; intros a d H Hh; cbn [load_tables length foldl]; [done|]. cbn [fmap list_fmap concat] in H.
  apply bytes_at_app in H as [H1 H2]. rewrite length_le_bytes in H2. apply Forall_cons in Hh as [Hh Hhs].
  rewrite (read_le_at pm a 8 h) by done. cbn [mbind outcome_bind]. destruct (load_table _ _ _ _ _ _) as [d'| | |] eqn:E.
  - by apply IH.
  - by rewrite foldl_failed.
  - by rewrite foldl_failed.
  - by rewrite foldl_failed.
Qed.
End parse.

(** From a root pointer of the second revision with the right signature and sums, [parse_acpi] goes
    to the table of tables and loads every table that it lists, in order, each if it is of a known type
    and after its own sum has been checked. *)
Theorem parse_acpi_loads ioapic_hw hpet_hw pm fuel root r1 rev r2 x r3 rest hs d :
  root ≠ 0 → bytes_at pm root ((expected_signature ++ r1 ++ [rev] ++ r2) ++ (le_bytes 4 36 ++ le_bytes 8 x ++ r3)) →
  length r1 = 7%nat → length r2 = 4%nat → length r3 = 4%nat → 1 < rev → is_u64 x →
  zero_sum (expected_signature ++ r1 ++ [rev] ++ r2) → zero_sum (le_bytes 4 36 ++ le_bytes 8 x ++ r3) →
  bytes_at pm x (table_bytes xsdt_type rest (concat (le_bytes 8 <$> hs))) → length rest = 28%nat →
  zero_sum (table_bytes xsdt_type rest (concat (le_bytes 8 <$> hs))) → Forall (is_word 64) hs → 36 + 8 * Z.of_nat (length hs) < 2 ^ 32 →
  parse_acpi ioapic_hw hpet_hw pm fuel root d = foldl (λ o h, o ≫= load_table ioapic_hw hpet_hw pm fuel h) (Done d) hs.
Proof.
  intros Hroot H L1 L2 L3 Hrev Hx Z1 Z2 Hxs Lr Zx Hhs Hn.
  assert (Hlen : Z.of_nat (length (concat (le_bytes 8 <$> hs))) = 8 * Z.of_nat (length hs)).
  { clear. induction hs as [|h hs IH]; [done|]. cbn [fmap list_fmap concat length]. rewrite length_app, length_le_bytes. lia. }
  assert (Lsig : length (expected_signature ++ r1 ++ [rev] ++ r2) = 20%nat) by (rewrite !length_app, L1, L2; done).
  assert (Hrv : bytes_at pm root (expected_signature ++ r1 ++ [rev] ++ r2) → pm !! (root + 15) = Some rev).
  { intros Ha. apply (Ha 15%nat). rewrite lookup_app_r by (cbn; lia). cbn [length expected_signature]. rewrite lookup_app_r by lia. by rewrite L1. }
  assert (Hsig : bytes_at pm root (expected_signature ++ r1 ++ [rev] ++ r2) → bytes_at pm root expected_signature) by (by intros [? _]%bytes_at_app).
  set (sig := expected_signature ++ r1 ++ [rev] ++ r2) in *.
  pose proof (checksum_at pm root [] sig) as C1. cbn [app length] in C1. rewrite Lsig in C1. change (Z.of_nat 20) with 20 in C1. change (Z.of_nat 0) with 0 in C1.
  pose proof (checksum_at pm root _ _ H Z2) as C2. rewrite length_app, Lsig, !length_app, !length_le_bytes, L3 in C2.
  pose proof H as [Ha Hb]%bytes_at_app. rewrite Lsig in Hb. apply bytes_at_app in Hb as [_ [Hxa _]%bytes_at_app]. rewrite length_le_bytes in Hxa.
  unfold parse_acpi. rewrite (proj2 (Z.eqb_neq root 0)) by done. cbn [negb kassert mbind outcome_bind].
  rewrite check_signature_at by (by apply Hsig). cbn [mbind outcome_bind]. unfold rsdp1_size, rsdp2_size.
  rewrite (C1 Ha Z1). cbn [mbind outcome_bind Z.eqb kassert]. unfold byte.
  rewrite (Hrv Ha). cbn [deref mbind outcome_bind]. rewrite (proj2 (Z.ltb_lt 1 rev)) by done. cbn [kassert mbind outcome_bind].
  change (Z.of_nat (20 + (4 + (8 + 4)))) with 36 in C2. change (Z.of_nat 20) with 20 in C2, Hxa. rewrite C2. cbn [mbind outcome_bind Z.eqb kassert].
  replace (root + 20 + Z.of_nat 4) with (root + 24) in Hxa by lia. rewrite (read_le_at pm (root + 24) 8 x) by done. cbn [mbind outcome_bind].
  rewrite (validate_table pm x xsdt_type rest _ Hxs Lr) by (done || lia). cbn [mbind outcome_bind kassert].
  destruct (table_head pm x xsdt_type rest _ Hxs Lr) as (T1 & T2 & T3); [done|lia|].
  unfold load_xsdt, check_get_table. rewrite T1. cbn [mbind outcome_bind]. rewrite Z.eqb_refl. cbn [mbind outcome_bind].
  unfold table_entries. rewrite T2. cbn [mbind outcome_bind]. unfold xsdt_size. rewrite Hlen, wrap_small by (unfold is_word; lia).
  replace (36 + 8 * Z.of_nat (length hs) - 36) with (Z.of_nat (length hs) * 8) by lia. rewrite Z.div_mul, Nat2Z.id by lia.
  by apply load_tables_spec.
Qed.

(** C40: An entry of length zero, after any well-formed ones, is never passed: reading the table of
    interrupt controllers does not end, however long it runs. *)
Theorem empty_entry_hangs ioapic_hw pm h rest local flags es t more fuel d :
  bytes_at pm h (table_bytes apic_type rest (madt_contents local flags es ++ [t; 0] ++ more)) → length rest = 28%nat → is_word 32 local →
  36 + Z.of_nat (length (madt_contents local flags es ++ [t; 0] ++ more)) < 2 ^ 32 →
  load_apic ioapic_hw pm fuel h d = Diverge.
Proof.
  intros H Hr Hloc Hlen. destruct (table_head pm h apic_type rest _ H Hr) as (Ht & Hl & Hc); [by vm_compute|lia|].
  unfold madt_contents in Hc. rewrite <-!app_assoc in Hc. apply bytes_at_app in Hc as [H1 [_ H2]%bytes_at_app]. rewrite !length_le_bytes in *.
  unfold load_apic, check_get_table. rewrite Ht. cbn [mbind outcome_bind]. rewrite Z.eqb_refl. cbn [mbind outcome_bind].
  rewrite (read_le_at pm (h + header_size) 4 local) by done. cbn [mbind outcome_bind]. unfold table_entries. rewrite Hl. cbn [mbind outcome_bind].
  unfold madt_contents in *. rewrite !length_app, !length_le_bytes in *. unfold apic_size, header_size in *.
  rewrite Z.div_1_r, wrap_small by (unfold is_word; cbn [length] in *; lia).
  replace (h + 36 + Z.of_nat 4 + Z.of_nat 4) with (h + 44) in H2 by lia. rewrite count_pass_hangs with (es := es) (t := t); [done| |cbn [length] in *; lia].
  rewrite app_assoc in H2. by apply bytes_at_app in H2 as [? _].
Qed.

(** ** Examples *)

(** Fields of a header, with the byte that makes the sum zero. *)
Definition rest_with (c : Z) : list Z := 1 :: c :: replicate 26 0.
Definition summing (type : Z) (contents : list Z) : list Z :=
  rest_with (- byte_sum (table_bytes type (rest_with 0) contents) mod 256).
(** Two processors, a controller of 24 interrupts, an override and an unknown entry. *)
Definition demo_entries : list madt_entry :=
  [LocalApic 0 0 1; LocalApic 1 1 1; IoApic 2 0xfec00000 0; SourceOverride 0 0 2 0; OtherEntry 5 [0; 0; 1; 2]; LocalNmi 0xff 0 1].
Definition demo_contents : list Z := madt_contents 0xfee00000 1 demo_entries.
Definition demo_rest : list Z := summing apic_type demo_contents.
Definition demo_madt : list Z := table_bytes apic_type demo_rest demo_contents.
Definition demo_hw (a : Z) : gmap Z Z := {[1 := 0x180011]}.

Lemma madt_roundtrip_witness :
  ∃ d, load_apic demo_hw (bytes_from 0x3000 demo_madt) 10 0x3000 no_devices = Done d ∧ m_apic_ids d = [0; 1] ∧
    m_overrides d = [Override 0 2 0] ∧ m_nmis d = [Nmi 0xff 1 0] ∧ lapic_base d = 0xfee00000.
Proof.
  rewrite (madt_roundtrip demo_hw (bytes_from 0x3000 demo_madt) 0x3000 demo_rest 0xfee00000 1 demo_entries 10 no_devices).
  - eexists. split; [reflexivity|]. by vm_compute.
  - apply bytes_at_read. by vm_compute.
  - reflexivity.
  - by vm_compute.
  - repeat constructor; try (by vm_compute). cbn. rewrite !not_elem_of_cons. split_and!; [done..|apply not_elem_of_nil].
  - by vm_compute.
  - cbn. lia.
  - done.
Defined.

(** The root pointer at 0x1000 and the table of tables at 0x2000. *)
Definition demo_r1 (c : Z) : list Z := c :: replicate 6 0.
Definition demo_rsdp1 (c : Z) : list Z := expected_signature ++ demo_r1 c ++ [2] ++ replicate 4 0.
Definition demo_rsdp2 (c : Z) : list Z := le_bytes 4 36 ++ le_bytes 8 0x2000 ++ [c; 0; 0; 0].
Definition demo_c1 : Z := - byte_sum (demo_rsdp1 0) mod 256.
Definition demo_c2 : Z := - byte_sum (demo_rsdp2 0) mod 256.
Definition demo_xsdt : list Z := concat (le_bytes 8 <$> [0x3000]).
Definition demo_xrest : list Z := summing xsdt_type demo_xsdt.
Definition demo_memory : physical :=
  bytes_from 0x1000 (demo_rsdp1 demo_c1 ++ demo_rsdp2 demo_c2) ∪ bytes_from 0x2000 (table_bytes xsdt_type demo_xrest demo_xsdt) ∪ bytes_from 0x3000 demo_madt.
Lemma parse_acpi_loads_witness :
  ∃ d, parse_acpi demo_hw demo_hw demo_memory 10 0x1000 no_devices = Done d ∧ m_apic_ids d = [0; 1].
Proof.
  rewrite (parse_acpi_loads demo_hw demo_hw demo_memory 10 0x1000 (demo_r1 demo_c1) 2 (replicate 4 0) 0x2000 [demo_c2; 0; 0; 0] demo_xrest [0x3000] no_devices).
  - eexists. split; [vm_compute; reflexivity|]. reflexivity.
  - done.
  - apply bytes_at_read. by vm_compute.
  - done.
  - done.
  - done.
  - lia.
  - by vm_compute.
  - by vm_compute.
  - by vm_compute.
  - apply bytes_at_read. by vm_compute.
  - done.
  - by vm_compute.
  - repeat constructor; by vm_compute.
  - by vm_compute.
Defined.
Definition demo_hang : list Z := madt_contents 0xfee00000 1 [LocalApic 0 0 1] ++ [9; 0] ++ [0].
Lemma empty_entry_hangs_witness :
  load_apic demo_hw (bytes_from 0x3000 (table_bytes apic_type (rest_with 0) demo_hang)) 1000 0x3000 no_devices = Diverge.
Proof.
  apply (empty_entry_hangs demo_hw (bytes_from 0x3000 (table_bytes apic_type (rest_with 0) demo_hang)) 0x3000 (rest_with 0) 0xfee00000 1 [LocalApic 0 0 1] 9 [0]).
  - apply bytes_at_read. by vm_compute.
  - done.
  - by vm_compute.
  - by vm_compute.
Defined.
