(* ===== verification/Descriptors.v ===== *)
(** * The processor's tables

    Models src/kernel/idt.cpp and idt.h, gdt.cpp and gdt.h, tss.cpp and tss.h, with the list of vectors in
    interrupt_isrs.inc and the segments that syscall.s gives to the processor.  The tables are built as
    the constructors build them and read the way the processor reads them.

    [idt_gates] shows that the vectors of the list, and no others, lead to their handlers.
    [ist_stacks_ready] shows that every gate that asks for a stack of its own finds one, which no other
    user of the guarded stacks has.  [gdt_segments] shows what the segments are and that a system call
    and its return use the right ones. *)
From S2P Require Import Prelude VmArea.

(** ** The vectors *)

Inductive isr_kind := ISR_ | EISR_ | NISR_ | IRQ_.
#[global] Instance isr_kind_eq_dec : EqDecision isr_kind.
Proof. solve_decision. Defined.
(** A line of interrupt_isrs.inc: the kind, the vector, and the stack or, for [IRQ], the number of the line. *)
Record isr_entry := Entry { e_kind : isr_kind; e_vector : Z; e_arg : Z }.

Definition exceptions : list isr_entry :=
  [Entry ISR_ 0x00 0; Entry ISR_ 0x01 0; Entry NISR_ 0x02 1; Entry ISR_ 0x03 0; Entry ISR_ 0x04 0; Entry ISR_ 0x05 0;
   Entry ISR_ 0x06 0; Entry ISR_ 0x07 0; Entry EISR_ 0x08 2; Entry ISR_ 0x09 0; Entry EISR_ 0x0a 0; Entry EISR_ 0x0b 0;
   Entry EISR_ 0x0c 0; Entry EISR_ 0x0d 0; Entry EISR_ 0x0e 3; Entry ISR_ 0x0f 0;
   Entry ISR_ 0x10 0; Entry EISR_ 0x11 0; Entry ISR_ 0x12 0; Entry ISR_ 0x13 0; Entry ISR_ 0x14 0; Entry EISR_ 0x15 0;
   Entry ISR_ 0x16 0; Entry ISR_ 0x17 0; Entry ISR_ 0x18 0; Entry ISR_ 0x19 0; Entry ISR_ 0x1a 0; Entry ISR_ 0x1b 0;
   Entry ISR_ 0x1c 0; Entry EISR_ 0x1d 0; Entry EISR_ 0x1e 0; Entry ISR_ 0x1f 0].
(** [isrIgnore0] to [isrIgnore7] and [isrSpurious] *)
Definition ignored : list isr_entry := (λ v, Entry ISR_ v 0) <$> [0x20; 0x21; 0x22; 0x23; 0x24; 0x25; 0x26; 0x27; 0x28].
(** [irq00] to [irq3F] *)
Definition irqs : list isr_entry := (λ i, Entry IRQ_ (0x30 + Z.of_nat i) (Z.of_nat i)) <$> seq 0 64.
(** [isrTimer], [isrLINT0], [isrLINT1], [isrAPICError], [ipiSchedule], [ipiShootdown] *)
Definition local_isrs : list isr_entry := (λ v, Entry ISR_ v 0) <$> [0xe0; 0xe1; 0xe2; 0xe3; 0xe4; 0xe5].
Definition interrupt_isrs : list isr_entry := exceptions ++ ignored ++ irqs ++ local_isrs.

(** ** The interrupt descriptor table *)

Record descriptor := Descriptor {
  base_low : Z; selector : Z; ist : Z; gate_flags : Z; base_mid : Z; base_high : Z; reserved : Z
}.
Definition zero_descriptor : descriptor := Descriptor 0 0 0 0 0 0 0.
(** [m_entries], zero where nothing is set. *)
Abbreviation idt := (gmap Z descriptor).
Definition idt_get (t : idt) (i : Z) : descriptor := default zero_descriptor (t !! i).
Definition idt_set (t : idt) (i handler selector flags : Z) : idt :=
  <[i := Descriptor (Z.land handler 0xffff) selector 0 flags (Z.land (Z.shiftr handler 16) 0xffff) (Z.land (Z.shiftr handler 32) 0xffffffff) 0]> t.
Definition with_ist (d : descriptor) (s : Z) : descriptor :=
  Descriptor (base_low d) (selector d) s (gate_flags d) (base_mid d) (base_high d) (reserved d).
Definition set_ist (t : idt) (i s : Z) : idt := <[i := with_ist (idt_get t i) s]> t.
Definition get_ist (t : idt) (i : Z) : Z * idt := (ist (idt_get t i), set_ist t i 0).
Definition return_ist (t : idt) (i s : Z) : outcome idt :=
  if s =? 0 then Done t
  else let* _ := kassert (ist (idt_get t i) =? 0) in Done (set_ist t i s).

(** The constructor, for the addresses [h] of the stubs and [nmi] of the NMI handler. *)
Definition idt_step (h : Z → Z) (nmi : Z) (t : idt) (e : isr_entry) : idt :=
  idt_set t (e_vector e) (if decide (e_kind e = NISR_) then nmi else h (e_vector e)) 0x08 0x8e.
Definition idt_new (h : Z → Z) (nmi : Z) : idt := foldl (idt_step h nmi) ∅ interrupt_isrs.
(** The stack that a line asks for; the second argument of [IRQ] is not one. *)
Definition wanted_ist (e : isr_entry) : Z := if decide (e_kind e = IRQ_) then 0 else e_arg e.
Definition ist_step (t : idt) (e : isr_entry) : idt := if wanted_ist e =? 0 then t else set_ist t (e_vector e) (wanted_ist e).
Definition add_ist_entries (t : idt) : idt := foldl ist_step t interrupt_isrs.
Definition used_ist_entries : Z :=
  u8 (foldl (λ a e, Z.lor a (if wanted_ist e =? 0 then 0 else Z.shiftl 1 (wanted_ist e))) 0 interrupt_isrs).

(** How the processor reads a gate. *)
Record gate := Gate { g_target : Z; g_selector : Z; g_ist : Z; g_type : Z; g_dpl : Z; g_present : bool }.
Definition gate_of (d : descriptor) : gate :=
  Gate (Z.lor (Z.lor (Z.shiftl (base_high d) 32) (Z.shiftl (base_mid d) 16)) (base_low d)) (selector d)
    (Z.land (ist d) 7) (Z.land (gate_flags d) 0xf) (Z.land (Z.shiftr (gate_flags d) 5) 3) (Z.testbit (gate_flags d) 7).

(** ** The task state segment *)

Record TSS := Tss { m_rsp : list Z; m_ist : list Z; m_iomap_offset : Z }.
Definition tss_size : Z := 104.
Definition tss_new : TSS := Tss (replicate 3 0) (replicate 8 0) tss_size.
(** [ring_stack(ring) = v] and [ist_stack(ist) = v] *)
Definition set_ring_stack (t : TSS) (ring v : Z) : outcome TSS :=
  let* _ := kassert (ring <? 3) in Done (Tss (<[Z.to_nat ring := v]> (m_rsp t)) (m_ist t) (m_iomap_offset t)).
Definition set_ist_stack (t : TSS) (i v : Z) : outcome TSS :=
  let* _ := kassert ((0 <? i) && (i <? 7)) in Done (Tss (m_rsp t) (<[Z.to_nat i := v]> (m_ist t)) (m_iomap_offset t)).
Definition ist_stack (t : TSS) (i : Z) : Z := default 0 (m_ist t !! Z.to_nat i).

Definition kernel_stack_pages : Z := 2.
Definition stack_bytes : Z := kernel_stack_pages * frame_size.
(** The loop of [create_ist_stacks]; the third result is the list of words that are written to make the
    pages of the stacks real. *)
Fixpoint create_loop (ists : list Z) (entries : Z) (t : TSS) (stacks : block_allocator) (touched : list Z)
    : outcome (TSS * block_allocator * list Z) :=
  match ists with
  | [] => Done (t, stacks, touched)
  | i :: ists =>
      if negb (Z.testbit entries i) then create_loop ists entries t stacks touched
      else
        let (stack_bottom, stacks) := get_section stacks in
        let stack_top := u64 (stack_bottom + stack_bytes - 2 * 8) in
        let* t' := set_ist_stack t i stack_top in
        create_loop ists entries t' stacks (touched ++ ((λ k, u64 (stack_bottom + k * frame_size)) <$> seqZ 0 kernel_stack_pages))
  end.
Definition create_ist_stacks (entries : Z) (t : TSS) (stacks : block_allocator) : outcome (TSS * block_allocator * list Z) :=
  create_loop (seqZ 1 7) entries t stacks [].

(** ** The global descriptor table *)

Definition type_of (bits : list Z) : Z := foldl (λ a i, Z.lor a (bit i)) 0 bits.
Definition ty_accessed : Z := 0.
Definition ty_read_write : Z := 1.
Definition ty_execute : Z := 3.
Definition ty_system : Z := 4.
Definition ty_ring1 : Z := 5.
Definition ty_ring2 : Z := 6.
Definition ty_present : Z := 7.
Definition ring3 : Z := type_of [ty_ring1; ty_ring2].
Definition rw : Z := type_of [ty_read_write].
Definition rwx : Z := type_of [ty_read_write; ty_execute].

(** [m_entries] as its bytes. *)
Record GDT := Gdt { gdt_bytes : list Z; m_tss : Z }.
Definition put_at (off : nat) (bs l : list Z) : list Z := take off l ++ bs ++ drop (off + length bs) l.
Definition gdt_set (i base limit : Z) (is64 : bool) (t : Z) (bytes : list Z) : list Z :=
  let size := Z.lor (Z.land (Z.shiftr limit 16) 0xf) (if is64 then 0xa0 else 0xc0) in
  put_at (Z.to_nat (8 * i))
    (le_bytes 2 (Z.land limit 0xffff) ++ le_bytes 2 (Z.land base 0xffff) ++
     [Z.land (Z.shiftr base 16) 0xff; Z.lor t (type_of [ty_system; ty_present]); size; Z.land (Z.shiftr base 24) 0xff]) bytes.
Definition set_tss (tss : Z) (bytes : list Z) : list Z :=
  let limit := tss_size in
  put_at 48
    (le_bytes 2 (Z.land limit 0xffff) ++ le_bytes 2 (Z.land tss 0xffff) ++
     [Z.land (Z.shiftr tss 16) 0xff; Z.lor ring3 (type_of [ty_accessed; ty_execute; ty_present]);
      Z.land (Z.shiftr limit 16) 0xf; Z.land (Z.shiftr tss 24) 0xff] ++
     le_bytes 4 (Z.land (Z.shiftr tss 32) 0xffffffff) ++ le_bytes 4 0) bytes.
(** The constructor sets [m_tss], then clears the object. *)
Definition gdt_new (tss : Z) : GDT :=
  let g := Gdt (replicate 64 0) 0 in
  let b := gdt_set 1 0 0xfffff true rwx (gdt_bytes g) in
  let b := gdt_set 2 0 0xfffff true rw b in
  let b := gdt_set 3 0 0xfffff false (Z.lor ring3 rwx) b in
  let b := gdt_set 4 0 0xfffff true (Z.lor ring3 rw) b in
  let b := gdt_set 5 0 0xfffff true (Z.lor ring3 rwx) b in
  Gdt (set_tss tss b) (m_tss g).
(** The selectors that [install] loads: code, data, task. *)
Definition installed_selectors : Z * Z * Z := (Z.shiftl 1 3, Z.shiftl 2 3, Z.shiftl 6 3).

(** How the processor reads a segment, and the segments that it uses for calls and returns. *)
Record segment := Segment {
  s_base : Z; s_limit : Z; s_code : bool; s_writable : bool; s_dpl : Z; s_present : bool; s_long : bool; s_big : bool; s_pages : bool
}.
Definition byte_at (bytes : list Z) (i : nat) : Z := default 0 (bytes !! i).
Definition segment_of (g : GDT) (sel : Z) : segment :=
  let o := Z.to_nat (8 * Z.shiftr sel 3) in
  let b k := byte_at (gdt_bytes g) (o + k) in
  Segment (of_le [b 2; b 3; b 4; b 7]%nat) (Z.lor (Z.shiftl (Z.land (b 6%nat) 0xf) 16) (of_le [b 0; b 1]%nat))
    (Z.testbit (b 5%nat) 3) (Z.testbit (b 5%nat) 1) (Z.land (Z.shiftr (b 5%nat) 5) 3) (Z.testbit (b 5%nat) 7)
    (Z.testbit (b 6%nat) 5) (Z.testbit (b 6%nat) 6) (Z.testbit (b 6%nat) 7).
Definition task_base (g : GDT) (sel : Z) : Z :=
  let o := Z.to_nat (8 * Z.shiftr sel 3) in
  let b k := byte_at (gdt_bytes g) (o + k) in of_le [b 2; b 3; b 4; b 7; b 8; b 9; b 10; b 11]%nat.
Definition task_type (g : GDT) (sel : Z) : Z := Z.land (byte_at (gdt_bytes g) (Z.to_nat (8 * Z.shiftr sel 3) + 5)) 0x1f.
(** STAR_HIGH of syscall.s: the call uses the low half, the return the high half plus 16 and plus 8. *)
Definition STAR_HIGH : Z := Z.lor (Z.lor (Z.shiftl 1 3) 0) (Z.shiftl (Z.lor (Z.shiftl 3 3) 3) 16).
Definition syscall_cs : Z := Z.land STAR_HIGH 0xfffc.
Definition syscall_ss : Z := syscall_cs + 8.
Definition sysret_cs : Z := Z.lor (Z.shiftr STAR_HIGH 16 + 16) 3.
Definition sysret_ss : Z := Z.lor (Z.shiftr STAR_HIGH 16 + 8) 3.

(** ** Building the table of gates *)

Lemma vectors_nodup : NoDup (e_vector <$> interrupt_isrs).
Proof. apply (bool_decide_eq_true_1 _). by vm_compute. Qed.

(** Steps that write their own vector only. *)
Lemma foldl_other (f : idt → isr_entry → idt) l t v :
  (∀ t e, e_vector e ≠ v → idt_get (f t e) v = idt_get t v) → v ∉ (e_vector <$> l) → idt_get (foldl f t l) v = idt_get t v.
Proof.
  intros Hf. revert t. induction l as [|e l IH]; intros t Hv; [done|]. apply not_elem_of_cons in Hv as [Hne Hv]. cbn [foldl].
  rewrite IH by done. apply Hf. by apply not_eq_sym.
Qed.
Lemma foldl_own (f : idt → isr_entry → idt) (g : descriptor → isr_entry → descriptor) l t e :
  (∀ t e v, e_vector e ≠ v → idt_get (f t e) v = idt_get t v) → (∀ t e, idt_get (f t e) (e_vector e) = g (idt_get t (e_vector e)) e) →
  NoDup (e_vector <$> l) → e ∈ l → idt_get (foldl f t l) (e_vector e) = g (idt_get t (e_vector e)) e.
Proof.
  intros Ho Hf. revert t. induction l as [|e' l IH]; intros t Hnd Hin; [by apply elem_of_nil in Hin|].
  apply NoDup_cons in Hnd as [Hn Hnd]. cbn [foldl]. apply elem_of_cons in Hin as [->|Hin].
  - rewrite foldl_other; [apply Hf|intros; by apply Ho|done].
  - rewrite IH by done. f_equal. apply Ho. intros E. apply Hn. rewrite E. by apply list_elem_of_fmap_2.
Qed.
Lemma idt_get_insert t i d v : idt_get (<[i := d]> t) v = if decide (i = v) then d else idt_get t v.
Proof. unfold idt_get. case_decide; [subst; by rewrite lookup_insert_eq|by rewrite lookup_insert_ne]. Qed.
Lemma idt_step_other h nmi t e v : e_vector e ≠ v → idt_get (idt_step h nmi t e) v = idt_get t v.
Proof. intros. unfold idt_step, idt_set. by rewrite idt_get_insert, decide_False. Qed.
Lemma ist_step_other t e v : e_vector e ≠ v → idt_get (ist_step t e) v = idt_get t v.
Proof. intros. unfold ist_step, set_ist. case_match; [done|]. by rewrite idt_get_insert, decide_False. Qed.

(** The three parts of an address. *)
Lemma base_parts a : is_u64 a →
  Z.lor (Z.lor (Z.shiftl (Z.land (Z.shiftr a 32) 0xffffffff) 32) (Z.shiftl (Z.land (Z.shiftr a 16) 0xffff) 16)) (Z.land a 0xffff) = a.
Proof.
  intros Ha. change 0xffffffff with (Z.ones 32). change 0xffff with (Z.ones 16). apply Z.bits_inj'. intros i Hi.
  rewrite !Z.lor_spec, !Z.shiftl_spec, !Z.land_spec by lia. rewrite (Z.testbit_ones_nonneg 16 i) by lia.
  destruct (decide (i < 16)) as [H1|H1].
  { replace (i <? 16) with true by lia. rewrite !(Z.testbit_neg_r _ (i - _)) by lia. by rewrite andb_true_r. }
  replace (i <? 16) with false by lia. rewrite (Z.testbit_ones_nonneg 16 (i - 16)), (Z.shiftr_spec a 16) by lia. replace (i - 16 + 16) with i by lia.
  destruct (decide (i < 32)) as [H2|H2].
  { replace (i - 16 <? 16) with true by lia. rewrite !(Z.testbit_neg_r _ (i - 32)) by lia. btauto. }
  replace (i - 16 <? 16) with false by lia. rewrite (Z.testbit_ones_nonneg 32 (i - 32)), (Z.shiftr_spec a 32) by lia. replace (i - 32 + 32) with i by lia.
  destruct (Z.ltb_spec (i - 32) 32) as [H3|H3]; [btauto|]. rewrite (word_testbit_high 64 a) by (done || lia). btauto.
Qed.

(** The handler of a line. *)
Definition handler_for (h : Z → Z) (nmi : Z) (e : isr_entry) : Z := if decide (e_kind e = NISR_) then nmi else h (e_vector e).

Lemma idt_entry h nmi e : e ∈ interrupt_isrs →
  let a := handler_for h nmi e in
  idt_get (add_ist_entries (idt_new h nmi)) (e_vector e) =
    Descriptor (Z.land a 0xffff) 0x08 (wanted_ist e) 0x8e (Z.land (Z.shiftr a 16) 0xffff) (Z.land (Z.shiftr a 32) 0xffffffff) 0.
Proof.
  intros He. cbv zeta. unfold add_ist_entries, idt_new.
  rewrite (foldl_own ist_step (λ d e, if wanted_ist e =? 0 then d else with_ist d (wanted_ist e))); [|by apply ist_step_other| |by apply vectors_nodup|done].
  2: { intros t' e'. unfold ist_step, set_ist. case_match; [done|]. by rewrite idt_get_insert, decide_True. }
  erewrite (foldl_own (idt_step h nmi) (λ _ e, let a := handler_for h nmi e in
    Descriptor (Z.land a 0xffff) 0x08 0 0x8e (Z.land (Z.shiftr a 16) 0xffff) (Z.land (Z.shiftr a 32) 0xffffffff) 0));
    [|by intros; apply idt_step_other| |by apply vectors_nodup|done].
  2: { intros t' e'. unfold idt_step, idt_set, handler_for. by rewrite idt_get_insert, decide_True. }
  cbv zeta. destruct (Z.eqb_spec (wanted_ist e) 0) as [->|E]; reflexivity.
Qed.
Lemma idt_no_entry h nmi v : v ∉ (e_vector <$> interrupt_isrs) → idt_get (add_ist_entries (idt_new h nmi)) v = zero_descriptor.
Proof.
  intros Hv. unfold add_ist_entries, idt_new. rewrite foldl_other by (try done; intros; by apply ist_step_other).
  rewrite foldl_other by (try done; intros; by apply idt_step_other). done.
Qed.

(** With the stacks added, the vectors of the list lead to their handlers, in the kernel's code
    segment, through interrupt gates that user code cannot call and with the stack that the list names;
    all other vectors have no gate. *)
Theorem idt_gates h nmi : (∀ v, is_u64 (h v)) → is_u64 nmi →
  let t := add_ist_entries (idt_new h nmi) in
  (∀ e, e ∈ interrupt_isrs → gate_of (idt_get t (e_vector e)) = Gate (handler_for h nmi e) 0x08 (wanted_ist e) 0xe 0 true) ∧
  (∀ v, v ∉ (e_vector <$> interrupt_isrs) → g_present (gate_of (idt_get t v)) = false).
Proof.
  intros Hh Hn t. unfold t. split; [|intros v Hv; by rewrite idt_no_entry].
  intros e He. rewrite idt_entry by done. cbv zeta. assert (Hu : is_u64 (handler_for h nmi e)) by (unfold handler_for; by case_decide).
  assert (Hw : Z.land (wanted_ist e) 7 = wanted_ist e).
  { apply (proj1 (Forall_forall (λ e, Z.land (wanted_ist e) 7 = wanted_ist e) interrupt_isrs)); [|done]. apply (bool_decide_eq_true_1 _). by vm_compute. }
  unfold gate_of. cbn [base_high base_mid base_low selector ist gate_flags]. by rewrite base_parts, Hw.
Qed.

(** ** The stacks of gates *)

Lemma get_section_next b p b' : get_section b = (p, b') → 0 ≤ m_next_block b → 0 ≤ m_block_size b →
  m_next_block b + m_block_size b < 2 ^ 64 → m_block_size b' = m_block_size b ∧ m_next_block b' ≤ m_next_block b + m_block_size b ∧ 0 ≤ m_next_block b'.
Proof.
  intros E H0 H1 Hb. unfold get_section, ba_allocate in E. destruct (last (m_free b)) as [x|]; injection E as <- <-; cbn; [lia|].
  rewrite wrap_small by (unfold is_word; lia). lia.
Qed.
Lemma get_section_step start pages b live : 0 ≤ start → 1 < pages → sections_ok start pages b live →
  m_next_block b + m_block_size b < 2 ^ 64 →
  ∃ s b', get_section b = (s, b') ∧ sections_ok start pages b' (s :: live) ∧ m_block_size b' = m_block_size b ∧
    m_next_block b' ≤ m_next_block b + m_block_size b.
Proof.
  intros Hs Hp Hok Hb. destruct (get_section b) as [s b'] eqn:E. pose proof (get_section_ok start pages Hs Hp b live Hok Hb) as Hok'. rewrite E in Hok'.
  exists s, b'. split; [done|]. split; [done|]. destruct (get_section_next b s b' E) as (H1 & H2 & _); [apply (so_end _ _ _ _ Hok)| |done|done].
  rewrite (so_size _ _ _ _ Hok). unfold FrameAllocator.frame_size. lia.
Qed.

Lemma create_take i ists entries t b touched s b' :
  Z.testbit entries i = true → get_section b = (s, b') → 0 < i < 7 →
  create_loop (i :: ists) entries t b touched =
    create_loop ists entries (Tss (m_rsp t) (<[Z.to_nat i := u64 (s + stack_bytes - 2 * 8)]> (m_ist t)) (m_iomap_offset t)) b'
      (touched ++ ((λ k, u64 (s + k * frame_size)) <$> seqZ 0 kernel_stack_pages)).
Proof.
  intros Hi E Hr. cbn [create_loop]. rewrite Hi, E. unfold set_ist_stack. rewrite (proj2 (Z.ltb_lt 0 i)), (proj2 (Z.ltb_lt i 7)) by lia. done.
Qed.
Lemma create_skip i ists entries t b touched :
  Z.testbit entries i = false → create_loop (i :: ists) entries t b touched = create_loop ists entries t b touched.
Proof. intros Hi. cbn [create_loop]. by rewrite Hi. Qed.
Lemma create_panics i ists entries t b touched :
  Z.testbit entries i = true → 7 ≤ i → i ∈ ists → create_loop ists entries t b touched = Panic.
Proof.
  intros Hi Hr. revert t b touched. induction ists as [|j ists IH]; intros t b touched Hin; [by apply elem_of_nil in Hin|].
  cbn [create_loop]. destruct (Z.testbit entries j) eqn:Hj; cbn [negb].
  - destruct (get_section b) as [s b']. unfold set_ist_stack. destruct ((0 <? j) && (j <? 7)) eqn:Hk; [|done]. cbn [kassert mbind outcome_bind].
    apply IH. apply elem_of_cons in Hin as [->|Hin]; [lia|done].
  - apply IH. apply elem_of_cons in Hin as [->|Hin]; [congruence|done].
Qed.

(** C23: The stacks that the table of gates needs are made: for the entries in use, [create_ist_stacks]
    takes three sections of the guarded stacks that nobody has, and the stack pointer of every gate
    with a stack of its own is the end of one of them, less two words; no two share one. *)
Theorem ist_stacks_ready start pages b live : 0 ≤ start → 1 < pages → sections_ok start pages b live →
  m_next_block b + 3 * m_block_size b < 2 ^ 64 →
  ∃ t b' touched s1 s2 s3, create_ist_stacks used_ist_entries tss_new b = Done (t, b', touched) ∧
    sections_ok start pages b' ([s3; s2; s1] ++ live) ∧ NoDup ([s3; s2; s1] ++ live) ∧
    ∀ e, e ∈ interrupt_isrs → wanted_ist e ≠ 0 →
      ∃ s, [s1; s2; s3] !! Z.to_nat (wanted_ist e - 1) = Some s ∧ ist_stack t (wanted_ist e) = u64 (s + stack_bytes - 16) ∧
        ∀ k, 0 ≤ k < kernel_stack_pages → u64 (s + k * frame_size) ∈ touched.
Proof.
  intros Hs Hp Hok Hb. assert (Hsz : 0 ≤ m_block_size b) by (rewrite (so_size _ _ _ _ Hok); unfold FrameAllocator.frame_size; lia).
  destruct (get_section_step start pages b live) as (s1 & b1 & E1 & Hok1 & Hz1 & Hn1); [done..|lia|].
  destruct (get_section_step start pages b1 (s1 :: live)) as (s2 & b2 & E2 & Hok2 & Hz2 & Hn2); [done..|lia|].
  destruct (get_section_step start pages b2 (s2 :: s1 :: live)) as (s3 & b3 & E3 & Hok3 & Hz3 & Hn3); [done..|lia|].
  unfold create_ist_stacks. change used_ist_entries with 14. change (seqZ 1 7) with [1; 2; 3; 4; 5; 6; 7].
  rewrite (create_take 1 _ _ _ _ _ s1 b1), (create_take 2 _ _ _ _ _ s2 b2), (create_take 3 _ _ _ _ _ s3 b3) by (done || lia).
  rewrite !create_skip by done. change (seqZ 0 kernel_stack_pages) with [0; 1]. cbn [create_loop app fmap list_fmap]. eexists _, _, _, s1, s2, s3. split; [reflexivity|]. split; [done|].
  split; [by eapply NoDup_app, (sections_nodup start pages)|].
  intros e He Hw. assert (Hc : wanted_ist e = 1 ∨ wanted_ist e = 2 ∨ wanted_ist e = 3).
  { revert Hw. apply (proj1 (Forall_forall (λ e, wanted_ist e ≠ 0 → wanted_ist e = 1 ∨ wanted_ist e = 2 ∨ wanted_ist e = 3) interrupt_isrs)); [|done].
    apply (bool_decide_eq_true_1 _). by vm_compute. }
  assert (Hk : ∀ k, 0 ≤ k < kernel_stack_pages → k = 0 ∨ k = 1) by (unfold kernel_stack_pages; lia).
  destruct Hc as [-> | [-> | ->]]; eexists; (split; [reflexivity|]); (split; [reflexivity|]); intros k [-> | ->]%Hk;
    rewrite !elem_of_cons; tauto.
Qed.

(** The last of the seven stacks that the processor has cannot be used: the loop goes up to seven,
    but the accessor refuses it, so making the stacks for a table that uses it stops the kernel. *)
Theorem ist_seven_panics entries t b : Z.testbit entries 7 = true → create_ist_stacks entries t b = Panic.
Proof. intros H7. apply (create_panics 7); [done|lia|]. by apply elem_of_seqZ. Qed.

(** ** Segments *)

Lemma part_byte t a n c : 0 ≤ a → 0 ≤ c → c + 8 ≤ n →
  Z.land (Z.shiftr t a) (Z.ones n) / 2 ^ c mod 2 ^ 8 = t / 2 ^ (a + c) mod 2 ^ 8.
Proof.
  intros Ha Hc Hn. rewrite <-!Z.shiftr_div_pow2, <-!Z.land_ones by lia. apply Z.bits_inj'. intros i Hi.
  rewrite !Z.land_spec, !Z.shiftr_spec, Z.land_spec, Z.shiftr_spec, !Z.testbit_ones_nonneg by lia.
  destruct (Z.ltb_spec i 8); [|by rewrite !andb_false_r]. rewrite (proj2 (Z.ltb_lt (i + c) n)), !andb_true_r by lia. f_equal. lia.
Qed.
Lemma task_base_spec tss : is_u64 tss → task_base (gdt_new tss) 0x30 = tss.
Proof.
  intros Ht. rewrite <-(of_le_word tss Ht) at 2. transitivity (of_le (le_bytes 2 (Z.land tss 0xffff) ++
    [Z.land (Z.shiftr tss 16) 0xff; Z.land (Z.shiftr tss 24) 0xff] ++ le_bytes 4 (Z.land (Z.shiftr tss 32) 0xffffffff))); [reflexivity|].
  f_equal. cbn [le_bytes app]. change 0xffff with (Z.ones 16). change 0xff with (Z.ones 8). change 0xffffffff with (Z.ones 32).
  rewrite !Z.div_div by lia. cbn [Z.mul Pos.mul]. rewrite <-(Z.shiftr_0_r tss) at 1 2.
  assert (Hb : ∀ a, 0 ≤ a → Z.land (Z.shiftr tss a) (Z.ones 8) = tss / 2 ^ a mod 2 ^ 8).
  { intros a Ha. by rewrite Z.land_ones, Z.shiftr_div_pow2 by lia. }
  rewrite !Hb by lia. pose proof (part_byte tss) as P.
  pose proof (P 0 16 0) as P0. pose proof (P 0 16 8) as P1. pose proof (P 32 32 0) as P4. pose proof (P 32 32 8) as P5.
  pose proof (P 32 32 16) as P6. pose proof (P 32 32 24) as P7. clear P. cbn [Z.add Pos.add Pos.succ] in *.
  rewrite ?Z.div_1_r in *.
  change (2 ^ 0) with 1 in *. change (2 ^ 8) with 256 in *. rewrite ?Z.div_1_r in *.
  repeat (apply f_equal2; [first [apply P0; lia | apply P1; lia | reflexivity | apply P4; lia | apply P5; lia | apply P6; lia | apply P7; lia]|]).
  reflexivity.
Qed.

(** The kernel's segments are flat, those of the processor's ring 0 and in long mode, the user's
    are those of ring 3; a system call runs in the kernel's, and its return in the user's 64-bit code
    and data segments.  The task register gets a descriptor with the address of the TSS, for every
    address. *)
Theorem gdt_segments tss : is_u64 tss →
  let g := gdt_new tss in
  let flat code dpl long big := Segment 0 0xfffff code true dpl true long big true in
  installed_selectors = (0x08, 0x10, 0x30) ∧ syscall_cs = 0x08 ∧ syscall_ss = 0x10 ∧
  segment_of g 0x08 = flat true 0 true false ∧ segment_of g 0x10 = flat false 0 true false ∧
  segment_of g (Z.shiftr STAR_HIGH 16) = flat true 3 false true ∧
  segment_of g sysret_ss = flat false 3 true false ∧ segment_of g sysret_cs = flat true 3 true false ∧
  task_base g 0x30 = tss ∧ task_type g 0x30 = 9 ∧ s_present (segment_of g 0x30) = true.
Proof. intros Ht. do 8 (split; [reflexivity|]). split; [by apply task_base_spec|]. split; reflexivity. Qed.

(** ** Examples *)

Lemma idt_gates_witness :
  gate_of (idt_get (add_ist_entries (idt_new (λ v, 0xffffffff80001000 + 16 * Z.land v 0xff) 0xffffffff80000500)) 0x0e) =
    Gate 0xffffffff800010e0 0x08 3 0xe 0 true.
Proof.
  apply (proj1 (idt_gates (λ v, 0xffffffff80001000 + 16 * Z.land v 0xff) 0xffffffff80000500
    ltac:(intros v; cbv beta; change 0xff with (Z.ones 8); rewrite Z.land_ones by lia; pose proof (Z.mod_pos_bound v (2 ^ 8)); unfold is_word; lia)
    ltac:(by vm_compute)) (Entry EISR_ 0x0e 3)).
  do 14 apply list_elem_of_further. apply list_elem_of_here.
Defined.
Lemma ist_stacks_ready_witness :
  ∃ t b' touched s1 s2 s3, create_ist_stacks used_ist_entries tss_new (BlockAllocator 0 0x4000 []) = Done (t, b', touched) ∧ NoDup [s3; s2; s1] ∧
    ist_stack t 3 = u64 (s3 + stack_bytes - 16).
Proof.
  destruct (ist_stacks_ready 0 4 (BlockAllocator 0 0x4000 []) []) as (t & b' & touched & s1 & s2 & s3 & E & _ & Hnd & Hs); [lia|lia| |by vm_compute|].
  - constructor; [done|by vm_compute|]. exists 0. split; [lia|]. split; [done|]. reflexivity.
  - exists t, b', touched, s1, s2, s3. split; [exact E|]. split; [exact Hnd|].
    destruct (Hs (Entry EISR_ 0x0e 3)) as (s & Hl & Hi & _); [do 14 apply list_elem_of_further; apply list_elem_of_here|done|].
    injection Hl as <-. exact Hi.
Defined.
Lemma ist_seven_panics_witness : create_ist_stacks 0x80 tss_new (BlockAllocator 0 0x4000 []) = Panic.
Proof. apply (ist_seven_panics 0x80 tss_new (BlockAllocator 0 0x4000 [])). reflexivity. Defined.
Lemma gdt_segments_witness : task_base (gdt_new 0xffffffff80123450) 0x30 = 0xffffffff80123450.
Proof. apply (gdt_segments 0xffffffff80123450). by vm_compute. Defined.
