(* ===== verification/Machine.v ===== *)
(** * The processor, as far as the kernel's assembly uses it

    The registers, the memory as words of eight bytes by address, CR3, the GS base and the extended
    state, with the instructions that src/kernel/task.s, syscall.s and interrupts.s and
    src/libraries/libc/setjmp/setjmp.s consist of.  Jumps of those files only go forward, so a jump
    skips a number of instructions and a run of a program is a structural recursion.  A word is found by the address of its first byte; the theorems ask for regions that are
    apart, so that words that are used never overlap.

    Calls of functions in C++ are a parameter of a run, a function from the machine before the call to
    the machine after it.  The extended state is a value per component; 0 stands for the initial
    configuration, which is what an area filled with zeros restores.  Component 0
    starts with the control word of the x87 unit and its status word, component 1 with MXCSR, each as
    the difference from its initial value. *)
From S2P Require Import Prelude.

(** ** State *)

Inductive reg := RAX | RBX | RCX | RDX | RSI | RDI | RBP | RSP | R8 | R9 | R10 | R11 | R12 | R13 | R14 | R15.
#[global] Instance reg_eq_dec : EqDecision reg.
Proof. solve_decision. Defined.
(** Registers that a function of the System V ABI keeps, beside the stack pointer. *)
Definition callee_saved : list reg := [RBX; RBP; R12; R13; R14; R15].

Definition set_reg (f : reg → Z) (r : reg) (v : Z) : reg → Z := λ r', if decide (r = r') then v else f r'.

Record machine := Machine {
  regs : reg → Z;
  mem : gmap Z Z;
  cr3 : Z;
  gs : Z;             (** the GS base in use *)
  other_gs : Z;       (** the one that [swapgs] brings in *)
  zero_flag : bool;
  less_flag : bool;   (** the last comparison was less, as signed numbers *)
  xstate : Z → Z;
  areas : gmap Z (Z → Z);
}.
Definition with_regs (m : machine) (f : reg → Z) : machine :=
  Machine f (mem m) (cr3 m) (gs m) (other_gs m) (zero_flag m) (less_flag m) (xstate m) (areas m).
Definition put (m : machine) (r : reg) (v : Z) : machine := with_regs m (set_reg (regs m) r v).
Definition with_mem (m : machine) (w : gmap Z Z) : machine :=
  Machine (regs m) w (cr3 m) (gs m) (other_gs m) (zero_flag m) (less_flag m) (xstate m) (areas m).
Definition with_cr3 (m : machine) (v : Z) : machine :=
  Machine (regs m) (mem m) v (gs m) (other_gs m) (zero_flag m) (less_flag m) (xstate m) (areas m).
Definition with_gs (m : machine) (a b : Z) : machine :=
  Machine (regs m) (mem m) (cr3 m) a b (zero_flag m) (less_flag m) (xstate m) (areas m).
Definition with_flags (m : machine) (z l : bool) : machine :=
  Machine (regs m) (mem m) (cr3 m) (gs m) (other_gs m) z l (xstate m) (areas m).
Definition with_xstate (m : machine) (x : Z → Z) (a : gmap Z (Z → Z)) : machine :=
  Machine (regs m) (mem m) (cr3 m) (gs m) (other_gs m) (zero_flag m) (less_flag m) x a.

(** ** Instructions *)

(** [[r + off]], [[gs:off]], [[rel a]] and [[r + r' * 8]] *)
Inductive operand := At (r : reg) (off : Z) | Gs (off : Z) | Rel (a : Z) | Indexed (r r' : reg).
Definition address (m : machine) (o : operand) : Z :=
  match o with
  | At r off => u64 (regs m r + off)
  | Gs off => u64 (gs m + off)
  | Rel a => a
  | Indexed r r' => u64 (regs m r + regs m r' * 8)
  end.

Inductive instr :=
  | Push (r : reg)
  | Pop (r : reg)
  | Mov (r r' : reg)
  | MovI (r : reg) (v : Z)
  | Load (r : reg) (o : operand)
  | Store (o : operand) (r : reg)
  | Lea (r : reg) (a : Z)
  | AndM (r : reg) (o : operand)
  | AddI (r : reg) (v : Z)
  | ShlI (r : reg) (n : Z)
  | Inc (o : operand)
  | Cmp (r r' : reg)
  | CmpI (r : reg) (v : Z)
  | Je (n : nat)
  | Jge (n : nat)
  | Jmp (n : nat)
  | FromCr3 (r : reg)
  | ToCr3 (r : reg)
  | Xsave (r : reg)
  | Xrstor (r : reg)
  | Swapgs
  | Call (f : Z)
  | CallR (r : reg)
  | Ret
  | Sysret
  | SubI (r : reg) (v : Z)
  | AndI (r : reg) (v : Z)
  | PushI (v : Z)
  | Jne (n : nat)
  | Iretq
  | Stmxcsr (o : operand)
  | Ldmxcsr (o : operand)
  | Fnstcw (o : operand)
  | Fldcw (o : operand)
  | Fnclex.

(** How a run ends: at the end of the program, by returning to an address, in user mode, or at the
    place that an interrupt came from. *)
Inductive ending := Fell | Returned (rip : Z) | User (rip rflags : Z) | Resumed (rip cs rflags ss : Z).

Definition signed64 (v : Z) : Z := if v <? 2 ^ 63 then v else v - 2 ^ 64.
(** The mask in edx:eax. *)
Definition xmask (m : machine) : Z := Z.lor (Z.shiftl (wrap 32 (regs m RDX)) 32) (wrap 32 (regs m RAX)).
Definition masked (mask : Z) (x y : Z → Z) : Z → Z := λ i, if Z.testbit mask i then x i else y i.

Definition load (m : machine) (a : Z) : outcome Z := deref (mem m !! a).
Definition store (m : machine) (a v : Z) : outcome machine :=
  let* _ := deref (mem m !! a) in Done (with_mem m (<[a := v]> (mem m))).
Definition pop (m : machine) : outcome (Z * machine) :=
  let* v := load m (regs m RSP) in Done (v, put m RSP (u64 (regs m RSP + 8))).
(** Parts of words: [n] bits at byte [a mod 8] of the word at the multiple of eight below [a]. *)
Definition word_of (a : Z) : Z := 8 * (a / 8).
Definition part_of (a : Z) : Z := 8 * (a mod 8).
Definition load_bits (m : machine) (a n : Z) : outcome Z :=
  let* v := load m (word_of a) in Done (wrap n (Z.shiftr v (part_of a))).
Definition part_put (v n x sh : Z) : Z := Z.lor (Z.ldiff v (Z.shiftl (Z.ones n) sh)) (Z.shiftl (wrap n x) sh).
Definition store_bits (m : machine) (a n x : Z) : outcome machine :=
  let* v := load m (word_of a) in store m (word_of a) (part_put v n x (part_of a)).
(** The control word and MXCSR, by their initial values. *)
Definition initial_fcw : Z := 0x37f.
Definition initial_mxcsr : Z := 0x1f80.
Definition fcw (m : machine) : Z := Z.lxor (wrap 16 (xstate m 0)) initial_fcw.
Definition mxcsr (m : machine) : Z := Z.lxor (wrap 32 (xstate m 1)) initial_mxcsr.
(** The low [n] bits of a component. *)
Definition set_component (m : machine) (c n v : Z) : machine :=
  with_xstate m (λ i, if i =? c then Z.lor (Z.ldiff (xstate m i) (Z.ones n)) (wrap n v) else xstate m i) (areas m).
Definition set_fcw (m : machine) (v : Z) : machine := set_component m 0 16 (Z.lxor v initial_fcw).
Definition set_mxcsr (m : machine) (v : Z) : machine := set_component m 1 32 (Z.lxor v initial_mxcsr).
(** The exception flags of the status word, and its busy flag. *)
Definition clear_exceptions (m : machine) : machine :=
  with_xstate m (λ i, if i =? 0 then Z.ldiff (xstate m i) (Z.shiftl 0x80ff 16) else xstate m i) (areas m).
Definition compare (m : machine) (a b : Z) : machine := with_flags m (a =? b) (signed64 a <? signed64 b).

Section run.
(** What a call of the function at an address does. *)
Context (callee : Z → machine → outcome machine).

(** A step: the machine after it, and how many instructions to skip or how the run ends. *)
Definition step (i : instr) (m : machine) : outcome (machine * (nat + ending)) :=
  let next m : outcome (machine * (nat + ending)) := Done (m, inl 0%nat) in
  match i with
  | Push r =>
      let sp := u64 (regs m RSP - 8) in
      let* m' := store m sp (regs m r) in next (put m' RSP sp)
  | Pop r => let* (v, m) := pop m in next (put m r v)
  | Mov r r' => next (put m r (regs m r'))
  | MovI r v => next (put m r v)
  | Load r o => let* v := load m (address m o) in next (put m r v)
  | Store o r => let* m := store m (address m o) (regs m r) in next m
  | Lea r a => next (put m r a)
  | AndM r o => let* v := load m (address m o) in next (put m r (Z.land (regs m r) v))
  | AddI r v => next (put m r (u64 (regs m r + v)))
  | ShlI r n => next (put m r (u64 (Z.shiftl (regs m r) n)))
  | Inc o => let* v := load m (address m o) in let* m := store m (address m o) (u64 (v + 1)) in next m
  | Cmp r r' => next (compare m (regs m r) (regs m r'))
  | CmpI r v => next (compare m (regs m r) v)
  | Je n => Done (m, inl (if zero_flag m then n else 0%nat))
  | Jge n => Done (m, inl (if less_flag m then 0%nat else n))
  | Jmp n => Done (m, inl n)
  | FromCr3 r => next (put m r (cr3 m))
  | ToCr3 r => next (with_cr3 m (regs m r))
  | Xsave r =>
      let* a := deref (areas m !! regs m r) in
      next (with_xstate m (xstate m) (<[regs m r := masked (xmask m) (xstate m) a]> (areas m)))
  | Xrstor r =>
      let* a := deref (areas m !! regs m r) in
      next (with_xstate m (masked (xmask m) a (xstate m)) (areas m))
  | Swapgs => next (with_gs m (other_gs m) (gs m))
  | Call f => let* m := callee f m in next m
  | CallR r => let* m := callee (regs m r) m in next m
  | Ret => let* (v, m) := pop m in Done (m, inr (Returned v))
  | Sysret => Done (m, inr (User (regs m RCX) (regs m R11)))
  | SubI r v => next (put m r (u64 (regs m r - v)))
  | AndI r v => next (put m r (Z.land (regs m r) v))
  | PushI v =>
      let sp := u64 (regs m RSP - 8) in
      let* m' := store m sp v in next (put m' RSP sp)
  | Jne n => Done (m, inl (if zero_flag m then 0%nat else n))
  | Iretq =>
      let* (rip, m) := pop m in
      let* (cs, m) := pop m in
      let* (flags, m) := pop m in
      let* (sp, m) := pop m in
      let* (ss, m) := pop m in
      Done (put m RSP sp, inr (Resumed rip cs flags ss))
  | Stmxcsr o => let* m := store_bits m (address m o) 32 (mxcsr m) in next m
  | Ldmxcsr o => let* v := load_bits m (address m o) 32 in next (set_mxcsr m v)
  | Fnstcw o => let* m := store_bits m (address m o) 16 (fcw m) in next m
  | Fldcw o => let* v := load_bits m (address m o) 16 in next (set_fcw m v)
  | Fnclex => next (clear_exceptions m)
  end.

(** A run of a program, skipping its first [skip] instructions. *)
Fixpoint exec (skip : nat) (code : list instr) (m : machine) : outcome (machine * ending) :=
  match code with
  | [] => Done (m, Fell)
  | i :: code =>
      match skip with
      | S skip => exec skip code m
      | O =>
          let* (m, r) := step i m in
          match r with
          | inl n => exec n code m
          | inr e => Done (m, e)
          end
      end
  end.

Lemma exec_skip code code' m : exec (length code) (code ++ code') m = exec 0 code' m.
Proof. induction code as [|i code IH]; [done|apply IH]. Qed.
End run.

(** ** Regions of memory *)

(** A region is an address and a size. *)
Definition region := (Z * Z)%type.
Definition region_ok (r : region) : Prop := 0 ≤ r.1 ∧ 0 ≤ r.2 ∧ r.1 + r.2 ≤ 2 ^ 64.
Definition disjoint (r r' : region) : Prop := r.1 + r.2 ≤ r'.1 ∨ r'.1 + r'.2 ≤ r.1.
Fixpoint pairwise_disjoint (l : list region) : Prop :=
  match l with [] => True | r :: l => Forall (disjoint r) l ∧ pairwise_disjoint l end.
Definition apart (l : list region) : Prop := Forall region_ok l ∧ pairwise_disjoint l.
Lemma apart_two r r' : apart [r; r'] ↔ region_ok r ∧ region_ok r' ∧ disjoint r r'.
Proof. unfold apart. cbn. rewrite !Forall_cons, !Forall_nil. tauto. Qed.
(** The words of a region are there. *)
Definition words_at (w : gmap Z Z) (a : Z) (vs : list Z) : Prop :=
  ∀ i v, vs !! i = Some v → w !! (a + 8 * Z.of_nat i) = Some v.
(** Nothing outside some regions changes. *)
Definition outside (l : list region) (a : Z) : Prop := Forall (λ r, a < r.1 ∨ r.1 + r.2 ≤ a) l.
Definition same_outside (l : list region) (w w' : gmap Z Z) : Prop := ∀ a, outside l a → w' !! a = w !! a.

Lemma outside_nil x : outside [] x ↔ True.
Proof. unfold outside. by rewrite Forall_nil. Qed.
Lemma outside_cons a n l x : outside ((a, n) :: l) x ↔ (x < a ∨ a + n ≤ x) ∧ outside l x.
Proof. unfold outside. by rewrite Forall_cons. Qed.
Lemma words_at_cons w a v vs : words_at w a (v :: vs) ↔ w !! a = Some v ∧ words_at w (a + 8) vs.
Proof.
  split.
  - intros H. split; [specialize (H 0%nat v eq_refl); by rewrite Z.add_0_r in H|].
    intros i x Hi. specialize (H (S i) x Hi). rewrite <-H. f_equal. lia.
  - intros [Hv Hs] [|i] x Hi; [injection Hi as <-; by rewrite Z.add_0_r|]. rewrite <-(Hs i x Hi). f_equal. lia.
Qed.
Lemma words_at_app w a vs vs' : words_at w a (vs ++ vs') ↔ words_at w a vs ∧ words_at w (a + 8 * Z.of_nat (length vs)) vs'.
Proof.
  revert a. induction vs as [|v vs IH]; intros a; cbn [app length].
  - rewrite Z.add_0_r. split; [intros H; split; [by intros [|i] x Hi|done]|by intros [_ H]].
  - rewrite !words_at_cons, IH. replace (a + 8 * Z.of_nat (S (length vs))) with (a + 8 + 8 * Z.of_nat (length vs)) by lia. tauto.
Qed.
Lemma words_at_same l w w' a vs :
  same_outside l w w' → (∀ i, (i < length vs)%nat → outside l (a + 8 * Z.of_nat i)) → words_at w a vs → words_at w' a vs.
Proof. intros Hs Ho Hw i v Hi. rewrite Hs by (apply Ho; by eapply lookup_lt_Some). by apply Hw. Qed.
Lemma same_outside_insert l w a v : ¬ outside l a → same_outside l w (<[a := v]> w).
Proof. intros Ha x Hx. apply lookup_insert_ne. by intros ->. Qed.
Lemma same_outside_trans l w1 w2 w3 : same_outside l w1 w2 → same_outside l w2 w3 → same_outside l w1 w3.
Proof. intros H1 H2 a Ha. rewrite H2 by done. by apply H1. Qed.

(** ** Single instructions *)

Lemma set_reg_eq f r v : set_reg f r v r = v.
Proof. unfold set_reg. by rewrite decide_True. Qed.
Lemma set_reg_ne f r r' v : r ≠ r' → set_reg f r v r' = f r'.
Proof. intros. unfold set_reg. by rewrite decide_False. Qed.

Lemma exec_load callee r o code m v :
  mem m !! address m o = Some v → exec callee 0 (Load r o :: code) m = exec callee 0 code (put m r v).
Proof. intros H. cbn [exec step]. unfold load. by rewrite H. Qed.
Lemma exec_store callee r o code m a :
  address m o = a → is_Some (mem m !! a) →
  exec callee 0 (Store o r :: code) m = exec callee 0 code (with_mem m (<[a := regs m r]> (mem m))).
Proof. intros <- [v H]. cbn [exec step]. unfold store. by rewrite H. Qed.
Lemma exec_andm callee r o code m v :
  mem m !! address m o = Some v → exec callee 0 (AndM r o :: code) m = exec callee 0 code (put m r (Z.land (regs m r) v)).
Proof. intros H. cbn [exec step]. unfold load. by rewrite H. Qed.
Lemma exec_next callee i code m m' n : step callee i m = Done (m', inl n) → exec callee 0 (i :: code) m = exec callee n code m'.
Proof. intros H. cbn [exec]. by rewrite H. Qed.
(** Addresses in memory do not wrap. *)
Lemma wrap_at x off n : region_ok (x, n) → 0 ≤ off < n → u64 (x + off) = x + off.
Proof. intros (H0 & _ & H1) Ho. cbn [fst snd] in *. apply wrap_small. unfold is_word. lia. Qed.

(** Registers of a machine after assignments. *)
Ltac reg_simp := cbn [regs put with_regs with_mem with_cr3 with_flags with_xstate with_gs mem cr3 gs other_gs xstate areas zero_flag less_flag];
  rewrite ?set_reg_eq; repeat (rewrite set_reg_ne by done); rewrite ?set_reg_eq.

(** ** Pushes and pops *)

Lemma exec_pops callee rs : ∀ vs m code,
  length vs = length rs → NoDup rs → RSP ∉ rs → words_at (mem m) (regs m RSP) vs →
  0 ≤ regs m RSP → regs m RSP + 8 * Z.of_nat (length rs) < 2 ^ 64 →
  ∃ f, exec callee 0 ((Pop <$> rs) ++ code) m = exec callee 0 code (with_regs m f) ∧
    f RSP = regs m RSP + 8 * Z.of_nat (length rs) ∧
    (∀ i r v, rs !! i = Some r → vs !! i = Some v → f r = v) ∧
    (∀ r, r ∉ RSP :: rs → f r = regs m r).
Proof.
  induction rs as [|r rs IH]; intros vs m code Hl Hnd Hsp Hw H0 Hb.
  { exists (regs m). split; [by destruct m|]. split; [cbn; lia|]. done. }
  destruct vs as [|v vs]; [done|]. apply words_at_cons in Hw as [Hv Hw]. apply NoDup_cons in Hnd as [Hr Hnd].
  apply not_elem_of_cons in Hsp as [Hne Hsp]. cbn [length] in *.
  cbn [fmap list_fmap app exec step]. unfold pop, load. rewrite Hv. cbn [deref mbind outcome_bind].
  rewrite wrap_small by (unfold is_word; lia). set (m1 := put (put m RSP (regs m RSP + 8)) r v).
  assert (E1 : regs m1 RSP = regs m RSP + 8) by (cbn; by rewrite set_reg_ne, set_reg_eq).
  destruct (IH vs m1 code) as (f & -> & Hf & Hrs & Hfr); [lia|done|done|by rewrite E1|lia|lia|].
  exists f. split; [done|]. split; [rewrite Hf, E1; lia|]. split.
  - intros [|i] r' v' Hi Hvi; [|by apply (Hrs i)]. injection Hi as <-. injection Hvi as <-.
    rewrite Hfr by (by apply not_elem_of_cons). cbn. apply set_reg_eq.
  - intros r' [H1 [H2 H3]%not_elem_of_cons]%not_elem_of_cons. rewrite Hfr by (by apply not_elem_of_cons). cbn. by rewrite !set_reg_ne.
Qed.

(** The words below the stack pointer are there. *)
Definition room (w : gmap Z Z) (sp : Z) (n : nat) : Prop := ∀ i, (i < n)%nat → is_Some (w !! (sp - 8 * Z.of_nat (S i))).
Lemma exec_pushes callee rs : ∀ m code,
  RSP ∉ rs → room (mem m) (regs m RSP) (length rs) → 8 * Z.of_nat (length rs) ≤ regs m RSP < 2 ^ 64 →
  ∃ f w, exec callee 0 ((Push <$> rs) ++ code) m = exec callee 0 code (with_mem (with_regs m f) w) ∧
    f RSP = regs m RSP - 8 * Z.of_nat (length rs) ∧ (∀ r, r ≠ RSP → f r = regs m r) ∧
    words_at w (f RSP) (reverse (regs m <$> rs)) ∧
    same_outside [(f RSP, 8 * Z.of_nat (length rs))] (mem m) w ∧ (∀ a, is_Some (mem m !! a) → is_Some (w !! a)).
Proof.
  induction rs as [|r rs IH]; intros m code Hsp Hroom Hb.
  { exists (regs m), (mem m). split; [by destruct m|]. split; [cbn; lia|]. split; [done|]. split; [by intros [|i] v Hi|]. done. }
  apply not_elem_of_cons in Hsp as [Hne Hsp]. cbn [length] in *. cbn [fmap list_fmap app exec step]. unfold store.
  rewrite wrap_small by (unfold is_word; lia).
  destruct (Hroom 0%nat ltac:(lia)) as [x Hx]. change (8 * Z.of_nat 1) with 8 in Hx. rewrite Hx. cbn [deref mbind outcome_bind].
  set (w1 := <[regs m RSP - 8 := regs m r]> (mem m)). set (m1 := put (with_mem m w1) RSP (regs m RSP - 8)).
  assert (E1 : regs m1 RSP = regs m RSP - 8) by (cbn; apply set_reg_eq).
  destruct (IH m1 code) as (f & w & -> & Hf & Hfr & Hw & Ho & Hk); [done| |lia|].
  { intros i Hi. rewrite E1. cbn [mem m1 with_mem put with_regs]. apply lookup_insert_is_Some'. right.
    destruct (Hroom (S i) ltac:(lia)) as [y Hy]. exists y. rewrite <-Hy. f_equal. lia. }
  exists f, w. split; [done|]. rewrite Hf, E1. split; [lia|].
  assert (Hregs : ∀ r', r' ≠ RSP → f r' = regs m r') by (intros r' Hr'; rewrite Hfr by done; cbn; by rewrite set_reg_ne).
  split; [done|]. rewrite Hf, E1 in Hw, Ho. replace (regs m RSP - 8 * Z.of_nat (S (length rs))) with (regs m RSP - 8 - 8 * Z.of_nat (length rs)) by lia.
  split; [|split].
  - assert (Ers : (regs m1 <$> rs) = regs m <$> rs).
    { apply list_fmap_ext. intros i r' Hr'. cbn. apply set_reg_ne. intros <-. apply Hsp. by eapply list_elem_of_lookup_2. }
    rewrite Ers in Hw. rewrite reverse_cons. intros i v Hi. rewrite lookup_app in Hi.
    destruct (reverse (regs m <$> rs) !! i) as [y|] eqn:Ey; [injection Hi as <-; by apply Hw|].
    apply lookup_ge_None in Ey. rewrite length_reverse, length_fmap in Ey. rewrite length_reverse, length_fmap in Hi.
    apply list_lookup_singleton_Some in Hi as [Hi <-]. replace i with (length rs) by lia.
    replace (regs m RSP - 8 - 8 * Z.of_nat (length rs) + 8 * Z.of_nat (length rs)) with (regs m RSP - 8) by lia.
    rewrite Ho; [apply lookup_insert_eq|]. rewrite outside_cons, outside_nil. lia.
  - intros a Ha. rewrite outside_cons, outside_nil in Ha. rewrite Ho by (rewrite outside_cons, outside_nil; lia). apply lookup_insert_ne. lia.
  - intros a Ha. apply Hk. by apply lookup_insert_is_Some'; right.
Qed.

(** ** Registers in a structure *)

(** [mov [b + o], r] and [mov r, [b + o]] for the fields of a structure. *)
Definition store_at (b : reg) (x : reg * Z) : instr := Store (At b x.2) x.1.
Definition load_at (b : reg) (x : reg * Z) : instr := Load x.1 (At b x.2).

Lemma exec_stores callee b n : ∀ l m code,
  region_ok (regs m b, n) → Forall (λ x, 0 ≤ x.2 < n ∧ is_Some (mem m !! (regs m b + x.2))) l → NoDup l.*2 →
  ∃ w, exec callee 0 ((store_at b <$> l) ++ code) m = exec callee 0 code (with_mem m w) ∧
    (∀ r o, (r, o) ∈ l → w !! (regs m b + o) = Some (regs m r)) ∧
    (∀ a, (∀ o, o ∈ l.*2 → a ≠ regs m b + o) → w !! a = mem m !! a) ∧ (∀ a, is_Some (mem m !! a) → is_Some (w !! a)).
Proof.
  induction l as [|[r o] l IH]; intros m code Hr Hl Hnd.
  { exists (mem m). split; [by destruct m|]. split; [by intros r o ?%elem_of_nil|]. done. }
  apply Forall_cons in Hl as [[Ho Hs] Hl]. apply NoDup_cons in Hnd as [Hno Hnd]. cbn [fst snd] in *.
  cbn [fmap list_fmap app]. unfold store_at at 1. cbn [fst snd].
  rewrite (exec_store _ _ _ _ _ (regs m b + o)) by (cbn [address]; by rewrite ?(wrap_at _ _ n)).
  set (m1 := with_mem _ _). destruct (IH m1 code) as (w & -> & Hw & Hk & Hd); [done| |done|].
  { eapply Forall_impl; [exact Hl|]. intros x [Hx Hx']. split; [done|]. by apply lookup_insert_is_Some'; right. }
  exists w. split; [done|]. split; [|split].
  - intros r' o' [E|Hin]%elem_of_cons; [|by apply Hw]. injection E as -> ->. rewrite Hk; [apply lookup_insert_eq|].
    intros o2 Ho2 E. apply Hno. by replace o with o2 by (cbn in E; lia).
  - intros a Ha. rewrite Hk; [|intros o2 Ho2; apply Ha; by right]. apply lookup_insert_ne. apply not_eq_sym, Ha. by left.
  - intros a Ha. apply Hd. by apply lookup_insert_is_Some'; right.
Qed.
Lemma exec_loads callee b n : ∀ l m code,
  region_ok (regs m b, n) → Forall (λ x, 0 ≤ x.2 < n ∧ is_Some (mem m !! (regs m b + x.2))) l → b ∉ l.*1 → NoDup l.*1 →
  ∃ f, exec callee 0 ((load_at b <$> l) ++ code) m = exec callee 0 code (with_regs m f) ∧
    (∀ r o, (r, o) ∈ l → mem m !! (regs m b + o) = Some (f r)) ∧ (∀ r, r ∉ l.*1 → f r = regs m r).
Proof.
  induction l as [|[r o] l IH]; intros m code Hr Hl Hb Hnd.
  { exists (regs m). split; [by destruct m|]. split; [by intros r o ?%elem_of_nil|]. done. }
  apply Forall_cons in Hl as [[Ho [v Hv]] Hl]. apply NoDup_cons in Hnd as [Hno Hnd]. apply not_elem_of_cons in Hb as [Hbr Hb].
  cbn [fst snd] in *. cbn [fmap list_fmap app]. unfold load_at at 1. cbn [fst snd].
  rewrite (exec_load _ _ _ _ _ v) by (cbn [address]; by rewrite (wrap_at _ _ n)).
  set (m1 := put m r v). assert (E1 : regs m1 b = regs m b) by (unfold m1; cbn; by rewrite set_reg_ne).
  destruct (IH m1 code) as (f & -> & Hf & Hk); [by rewrite E1|by rewrite E1|done|done|].
  rewrite E1 in Hf. exists f. split; [done|]. split.
  - intros r' o' [E|Hin]%elem_of_cons; [|by apply Hf]. injection E as -> ->. rewrite Hk by done. unfold m1. cbn. by rewrite set_reg_eq.
  - intros r' [H1 H2]%not_elem_of_cons. rewrite Hk by done. unfold m1. cbn. by rewrite set_reg_ne.
Qed.
