(* ===== verification/ContextSwitch.v ===== *)
(** * Switching between threads

    Models [task_switch] of src/kernel/task.s with the offsets of tasking.inc, the way into user mode of
    syscall.s, and the stacks that objects/thread.cpp prepares for a new thread ([setup_kernel_stack],
    [add_thunk_kernel], [add_thunk_user]).  The assembly is a program of Machine.v; the TCB of a thread,
    the data of the CPU and the TSS are words of memory at the offsets the assembly uses.

    [task_switch_roundtrip] shows that a thread that is switched away from and back to finds its
    registers, its stack, its extended state and its return address as they were, whatever ran in
    between.  [new_thread_enters_user] shows that the first switch to a new thread ends in user mode at
    its entry point, with its arguments, its stack and interrupts enabled. *)
From S2P Require Import Prelude Machine.

(** ** Offsets *)

Definition tcb_rsp : Z := 0.
Definition tcb_rsp0 : Z := 8.
Definition tcb_rsp3 : Z := 16.
Definition tcb_rflags3 : Z := 24.
Definition tcb_pml4 : Z := 32.
Definition tcb_xsave : Z := 40.
Definition cpu_rsp0 : Z := 16.
Definition cpu_rsp3 : Z := 24.
Definition cpu_rflags3 : Z := 32.
Definition cpu_tcb : Z := 40.
Definition cpu_tss : Z := 72.
Definition tss_rsp0 : Z := 4.

(** ** [task_switch], with the address of [xcr0_val] *)

Definition save_frame : list instr :=
  [Push RBP; Mov RBP RSP; Push RBX; Push R12; Push R13; Push R14; Push R15].
Definition save_tcb : list instr :=
  [Load R15 (Gs cpu_tcb); Store (At R15 tcb_rsp) RSP; Load RCX (Gs cpu_rsp3); Store (At R15 tcb_rsp3) RCX;
   Load RCX (Gs cpu_rflags3); Store (At R15 tcb_rflags3) RCX].
Definition save_xstate (xcr0 : Z) : list instr :=
  [Load RCX (At R15 tcb_xsave); CmpI RCX 0; Je 4; Load RAX (Rel xcr0); Mov RDX RAX; ShlI RDX 32; Xsave RCX].
Definition install_tcb : list instr :=
  [Store (Gs cpu_tcb) RDI; Load RSP (At RDI tcb_rsp); MovI R14 0x00003fffffffffff; AndM R14 (At RDI tcb_pml4);
   Load RCX (At RDI tcb_rsp0); Store (Gs cpu_rsp0) RCX; Load RDX (Gs cpu_tss); Store (At RDX tss_rsp0) RCX;
   Load RCX (At RDI tcb_rsp3); Store (Gs cpu_rsp3) RCX].
Definition load_xstate (xcr0 : Z) : list instr :=
  [Load RCX (At RDI tcb_xsave); CmpI RCX 0; Je 4; Load RAX (Rel xcr0); Mov RDX RAX; ShlI RDX 32; Xrstor RCX].
Definition load_space : list instr :=
  [Load RCX (At RDI tcb_rflags3); Store (Gs cpu_rflags3) RCX; FromCr3 RDX; Cmp R14 RDX; Je 1; ToCr3 R14].
Definition saved : list reg := [R15; R14; R13; R12; RBX; RBP].
Definition task_switch (xcr0 : Z) : list instr :=
  save_frame ++ save_tcb ++ save_xstate xcr0 ++ install_tcb ++ load_xstate xcr0 ++ load_space ++ (Pop <$> saved) ++ [Ret].

(** ** Into user mode *)

Definition kernel_to_user_trampoline : list instr :=
  (Pop <$> [R15; R14; R13; R12; RBX; RBP; RCX]) ++
  [Load R11 (Gs cpu_tss); Store (At R11 tss_rsp0) RSP; Store (Gs cpu_rsp0) RSP; Load RSP (Gs cpu_rsp3);
   Load R11 (Gs cpu_rflags3); Swapgs; Sysret].
(** [initialize_user_cpu], with the address of [cpu_initialize_thread_state]; it falls through to the
    trampoline. *)
Definition initialize_user_cpu (init_state : Z) : list instr :=
  [Call init_state; MovI RAX 0xaaaaaaaa; MovI RDX 0xdddddddd; MovI R8 0x08080808; MovI R9 0x09090909; MovI R10 0x10101010;
   MovI R11 0x11111111] ++ (Pop <$> [RDI; RSI]).

(** ** The stacks of a new thread *)

(** The fields that the assembly and the set-up of stacks use; those of the scheduler are in Scheduler.v. *)
Record TCB := Tcb { rsp : Z; rsp0 : Z; rsp3 : Z; rflags3 : Z; pml4 : Z; xsave : Z; kernel_stack : Z }.
Abbreviation words := (gmap Z Z).
Definition put_word (w : words) (a v : Z) : outcome words := let* _ := deref (w !! a) in Done (<[a := v]> w).
(** [stack[i] = v] for the words of a list. *)
Fixpoint put_words (w : words) (a : Z) (vs : list Z) : outcome words :=
  match vs with [] => Done w | v :: vs => let* w := put_word w a v in put_words w (u64 (a + 8)) vs end.

Definition frame_size : Z := 0x1000.
Definition kernel_stack_pages : Z := 2.
Definition stack_bytes : Z := kernel_stack_pages * frame_size.
Definition null_frame_entries : Z := 2.
Definition null_frame_size : Z := null_frame_entries * 8.
(** [setup_kernel_stack], with the section that [g_kernel_stacks] gives. *)
Definition setup_kernel_stack (t : TCB) (w : words) (stack_addr : Z) : outcome (TCB * words) :=
  let stack_end := u64 (stack_addr + stack_bytes) in
  let null_frame := u64 (stack_end - null_frame_size) in
  let* w := put_words w null_frame [0; 0] in
  Done (Tcb null_frame null_frame (rsp3 t) (rflags3 t) (pml4 t) (xsave t) stack_addr, w).
Definition add_thunk_kernel (t : TCB) (w : words) (rip : Z) : outcome (TCB * words) :=
  let sp := u64 (rsp t - 8 * 7) in
  let* w := put_words w sp [0x15151515; 0x14141414; 0x13131313; 0x12121212; 0xbbbbbbbb; rsp0 t; rip] in
  Done (Tcb sp (rsp0 t) (rsp3 t) (rflags3 t) (pml4 t) (xsave t) (kernel_stack t), w).
Definition add_thunk_user (trampoline : Z) (t : TCB) (w : words) (rip3 arg0 arg1 rip0 flags : Z) : outcome (TCB * words) :=
  let flags := Z.lor flags 0x200 in
  let sp := u64 (rsp t - 8 * 9) in
  let t := Tcb sp (rsp0 t) (rsp3 t) flags (pml4 t) (xsave t) (kernel_stack t) in
  let* w := put_words w sp [arg0; arg1; 0x15151515; 0x14141414; 0x13131313; 0x12121212; 0xbbbbbbbb; rsp3 t; rip3] in
  add_thunk_kernel t w (if negb (rip0 =? 0) then rip0 else trampoline).

(** ** Running the parts *)

(** Words of other regions; and a load or a store of a word that is there. *)
Ltac other Ngt Ngs Nts := solve [lia | apply Ngt; lia | apply Ngs; lia | apply Nts; lia | apply not_eq_sym; apply Ngs; lia].
Ltac here Ht Hg Hs Hdi Ngt Ngs Nts :=
  cbn [address]; reg_simp; rewrite ?Hdi; rewrite ?(wrap_at _ _ 48 Ht), ?(wrap_at _ _ 88 Hg), ?(wrap_at _ _ 12 Hs) by lia;
  repeat rewrite lookup_insert_ne by other Ngt Ngs Nts; (done || reflexivity).
Section parts.
Context (callee : Z → machine → outcome machine).
Abbreviation run := (exec callee 0).

Lemma save_frame_spec m code :
  room (mem m) (regs m RSP) 6 → 48 ≤ regs m RSP < 2 ^ 64 →
  ∃ f w, run (save_frame ++ code) m = run code (with_mem (with_regs m f) w) ∧
    f RSP = regs m RSP - 48 ∧ f RDI = regs m RDI ∧ words_at w (regs m RSP - 48) (regs m <$> saved) ∧
    same_outside [(regs m RSP - 48, 48)] (mem m) w ∧ (∀ a, is_Some (mem m !! a) → is_Some (w !! a)).
Proof.
  intros Hr Hb. unfold save_frame.
  change ([Push RBP; Mov RBP RSP; Push RBX; Push R12; Push R13; Push R14; Push R15] ++ code)
    with ((Push <$> [RBP]) ++ Mov RBP RSP :: (Push <$> [RBX; R12; R13; R14; R15]) ++ code).
  destruct (exec_pushes callee [RBP] m (Mov RBP RSP :: (Push <$> [RBX; R12; R13; R14; R15]) ++ code))
    as (f1 & w1 & -> & Hf1 & Hfr1 & Hw1 & Ho1 & Hk1); [by apply (bool_decide_eq_true_1 _)| |cbn; lia|].
  { intros i Hi. apply Hr. cbn in Hi. lia. }
  cbn [exec step]. cbn [mbind outcome_bind]. set (m1 := put _ _ _).
  assert (E1 : regs m1 RSP = regs m RSP - 8) by (unfold m1; reg_simp; rewrite Hf1; cbn; lia).
  destruct (exec_pushes callee [RBX; R12; R13; R14; R15] m1 code) as (f & w & -> & Hf & Hfr & Hw & Ho & Hk);
    [by apply (bool_decide_eq_true_1 _)| |rewrite E1; cbn; lia|].
  { intros i Hi. rewrite E1. apply Hk1. cbn in Hi. destruct (Hr (S i) ltac:(lia)) as [y Hy]. exists y. rewrite <-Hy. f_equal. lia. }
  rewrite E1 in Hf. change (8 * Z.of_nat (length [RBX; R12; R13; R14; R15])) with 40 in *. change (8 * Z.of_nat (length [RBP])) with 8 in *.
  exists f, w. split; [done|]. rewrite Hf in *. rewrite Hf1 in *. replace (regs m RSP - 8 - 40) with (regs m RSP - 48) in * by lia. split; [done|].
  split; [rewrite Hfr by done; unfold m1; reg_simp; by rewrite Hfr1|]. split; [|split].
  - assert (Hm1 : ∀ r, r ≠ RSP → r ≠ RBP → regs m1 r = regs m r) by (intros r ? ?; unfold m1; cbn; rewrite set_reg_ne by done; by apply Hfr1).
    cbn [fmap list_fmap reverse rev_append] in Hw. rewrite !Hm1 in Hw by done.
    intros i v Hi. destruct (decide (i = 5%nat)) as [->|Hi5].
    + injection Hi as <-. replace (regs m RSP - 48 + 8 * Z.of_nat 5) with (regs m RSP - 8) by lia.
      rewrite Ho by (rewrite outside_cons, outside_nil; lia). specialize (Hw1 0%nat _ eq_refl). by rewrite Z.add_0_r in Hw1.
    + apply Hw. by destruct i as [|[|[|[|[|[|i]]]]]].
  - intros a Ha. rewrite outside_cons, outside_nil in Ha. rewrite Ho by (rewrite outside_cons, outside_nil; lia).
    apply Ho1. rewrite outside_cons, outside_nil. lia.
  - intros a Ha. by apply Hk, Hk1.
Qed.

Lemma save_tcb_spec m code t r3 fl :
  region_ok (gs m, 88) → region_ok (t, 48) → disjoint (gs m, 88) (t, 48) →
  mem m !! (gs m + cpu_tcb) = Some t → mem m !! (gs m + cpu_rsp3) = Some r3 → mem m !! (gs m + cpu_rflags3) = Some fl →
  is_Some (mem m !! (t + tcb_rsp)) → is_Some (mem m !! (t + tcb_rsp3)) → is_Some (mem m !! (t + tcb_rflags3)) →
  ∃ f, run (save_tcb ++ code) m = run code (with_mem (with_regs m f)
      (<[t + tcb_rflags3 := fl]> (<[t + tcb_rsp3 := r3]> (<[t + tcb_rsp := regs m RSP]> (mem m))))) ∧
    f R15 = t ∧ f RSP = regs m RSP ∧ f RDI = regs m RDI.
Proof.
  intros Hg Ht Hd H1 H2 H3 H4 H5 H6. unfold save_tcb. cbn [app].
  assert (Hne : ∀ i j, 0 ≤ i < 48 → 0 ≤ j < 88 → t + i ≠ gs m + j) by (intros i j Hi Hj; destruct Hd as [Hd|Hd]; cbn [fst snd] in Hd; lia).
  unfold cpu_tcb, cpu_rsp3, cpu_rflags3, tcb_rsp, tcb_rsp3, tcb_rflags3 in *.
  rewrite (exec_load _ _ _ _ _ t) by (cbn [address]; by rewrite (wrap_at _ _ 88)).
  rewrite (exec_store _ _ _ _ _ (t + 0)) by (cbn [address]; reg_simp; by rewrite ?(wrap_at t _ 48)).
  rewrite (exec_load _ _ _ _ _ r3) by (cbn [address]; reg_simp; rewrite (wrap_at _ _ 88), lookup_insert_ne by (done || lia || apply Hne; lia); done).
  rewrite (exec_store _ _ _ _ _ (t + 16)) by (cbn [address]; reg_simp; rewrite ?(wrap_at t _ 48) by (done || lia); rewrite ?lookup_insert_ne by lia; done).
  rewrite (exec_load _ _ _ _ _ fl) by (cbn [address]; reg_simp; rewrite (wrap_at _ _ 88), !lookup_insert_ne by (done || lia || apply Hne; lia); done).
  rewrite (exec_store _ _ _ _ _ (t + 24)) by (cbn [address]; reg_simp; rewrite ?(wrap_at t _ 48) by (done || lia); rewrite ?lookup_insert_ne by lia; done).
  reg_simp. eexists. split; [reflexivity|]. by reg_simp.
Qed.

(** The mask has the lower half of [xcr0_val]; [shl rdx, 32] leaves nothing of the upper one. *)
Lemma xmask_low m v : regs m RAX = v → regs m RDX = u64 (Z.shiftl v 32) → xmask m = wrap 32 v.
Proof.
  intros Ha Hd. unfold xmask. rewrite Ha, Hd. assert (E : wrap 32 (u64 (Z.shiftl v 32)) = 0).
  { unfold wrap. rewrite Z.shiftl_mul_pow2 by lia. rewrite <-(Znumtheory.Zmod_div_mod (2 ^ 32) (2 ^ 64)) by (lia || by exists (2 ^ 32)).
    by rewrite Z.mod_mul by lia. }
  by rewrite E, Z.shiftl_0_l, Z.lor_0_l.
Qed.
(** The areas after the state is saved, and the state after it is loaded, for the area at [a]. *)
Definition areas_saved (xv a : Z) (x : Z → Z) (ar : gmap Z (Z → Z)) : gmap Z (Z → Z) :=
  match ar !! a with Some old => if a =? 0 then ar else <[a := masked (wrap 32 xv) x old]> ar | None => ar end.
Definition xstate_loaded (xv a : Z) (x : Z → Z) (ar : gmap Z (Z → Z)) : Z → Z :=
  match ar !! a with Some st => if a =? 0 then x else masked (wrap 32 xv) st x | None => x end.
(** A thread has no area, or one that is there. *)
Definition has_area (ar : gmap Z (Z → Z)) (a : Z) : Prop := a = 0 ∨ is_Some (ar !! a).

Lemma save_xstate_spec m code xcr0 t xv a :
  region_ok (t, 48) → regs m R15 = t → mem m !! (t + tcb_xsave) = Some a → mem m !! xcr0 = Some xv → has_area (areas m) a → is_u64 a →
  ∃ f z l, run (save_xstate xcr0 ++ code) m = run code (with_flags (with_xstate (with_regs m f) (xstate m) (areas_saved xv a (xstate m) (areas m))) z l) ∧
    f RSP = regs m RSP ∧ f RDI = regs m RDI.
Proof.
  intros Ht Hr Ha Hx Har Hwa. unfold save_xstate. cbn [app]. unfold tcb_xsave in *.
  rewrite (exec_load _ _ _ _ _ a) by (cbn [address]; rewrite Hr; by rewrite (wrap_at _ _ 48) by (done || lia)).
  erewrite (exec_next _ (CmpI RCX 0) _ _ _ 0); [|reflexivity]. unfold compare. reg_simp. unfold areas_saved. destruct (Z.eqb_spec a 0) as [->|Hne].
  - erewrite (exec_next _ (Je 4) _ _ _ 4); [|reflexivity]. eexists _, _, _. split; [destruct (areas m !! 0); reflexivity|]. by reg_simp.
  - destruct Har as [?|[old Hold]]; [done|]. erewrite (exec_next _ (Je 4) _ _ _ 0); [|reflexivity].
    rewrite (exec_load _ _ _ _ _ xv) by (cbn [address]; done). erewrite (exec_next _ (Mov RDX RAX) _ _ _ 0); [|reflexivity].
    erewrite (exec_next _ (ShlI RDX 32) _ _ _ 0); [|reflexivity]. reg_simp. erewrite (exec_next _ (Xsave RCX)); [|cbn [step]; reg_simp; rewrite Hold; reflexivity].
    rewrite (xmask_low _ xv) by by reg_simp. rewrite Hold. eexists _, _, _. split; [reflexivity|]. by reg_simp.
Qed.
Lemma load_xstate_spec m code xcr0 t xv a :
  region_ok (t, 48) → regs m RDI = t → mem m !! (t + tcb_xsave) = Some a → mem m !! xcr0 = Some xv → has_area (areas m) a → is_u64 a →
  ∃ f z l, run (load_xstate xcr0 ++ code) m = run code (with_flags (with_xstate (with_regs m f) (xstate_loaded xv a (xstate m) (areas m)) (areas m)) z l) ∧
    f RSP = regs m RSP ∧ f RDI = regs m RDI ∧ f R14 = regs m R14.
Proof.
  intros Ht Hr Ha Hx Har Hwa. unfold load_xstate. cbn [app]. unfold tcb_xsave in *.
  rewrite (exec_load _ _ _ _ _ a) by (cbn [address]; rewrite Hr; by rewrite (wrap_at _ _ 48) by (done || lia)).
  erewrite (exec_next _ (CmpI RCX 0) _ _ _ 0); [|reflexivity]. unfold compare. reg_simp. unfold xstate_loaded. destruct (Z.eqb_spec a 0) as [->|Hne].
  - erewrite (exec_next _ (Je 4) _ _ _ 4); [|reflexivity]. eexists _, _, _. split; [destruct (areas m !! 0); reflexivity|]. by reg_simp.
  - destruct Har as [?|[st Hst]]; [done|]. erewrite (exec_next _ (Je 4) _ _ _ 0); [|reflexivity].
    rewrite (exec_load _ _ _ _ _ xv) by (cbn [address]; done). erewrite (exec_next _ (Mov RDX RAX) _ _ _ 0); [|reflexivity].
    erewrite (exec_next _ (ShlI RDX 32) _ _ _ 0); [|reflexivity]. reg_simp. erewrite (exec_next _ (Xrstor RCX)); [|cbn [step]; reg_simp; rewrite Hst; reflexivity].
    rewrite (xmask_low _ xv) by by reg_simp. rewrite Hst. eexists _, _, _. split; [reflexivity|]. by reg_simp.
Qed.

Lemma install_tcb_spec m code t tss s r0 r3 p4 :
  region_ok (gs m, 88) → region_ok (t, 48) → region_ok (tss, 12) →
  disjoint (gs m, 88) (t, 48) → disjoint (gs m, 88) (tss, 12) → disjoint (t, 48) (tss, 12) →
  regs m RDI = t → mem m !! (t + tcb_rsp) = Some s → mem m !! (t + tcb_rsp0) = Some r0 → mem m !! (t + tcb_rsp3) = Some r3 →
  mem m !! (t + tcb_pml4) = Some p4 → mem m !! (gs m + cpu_tss) = Some tss →
  is_Some (mem m !! (gs m + cpu_tcb)) → is_Some (mem m !! (gs m + cpu_rsp0)) → is_Some (mem m !! (gs m + cpu_rsp3)) →
  is_Some (mem m !! (tss + tss_rsp0)) →
  ∃ f, run (install_tcb ++ code) m = run code (with_mem (with_regs m f)
      (<[gs m + cpu_rsp3 := r3]> (<[tss + tss_rsp0 := r0]> (<[gs m + cpu_rsp0 := r0]> (<[gs m + cpu_tcb := t]> (mem m)))))) ∧
    f RSP = s ∧ f RDI = t ∧ f R14 = Z.land 0x00003fffffffffff p4.
Proof.
  intros Hg Ht Hs Hgt Hgs Hts Hdi H1 H2 H3 H4 H5 K1 K2 K3 K4. unfold install_tcb. cbn [app].
  assert (Ngt : ∀ i j, 0 ≤ i < 88 → 0 ≤ j < 48 → gs m + i ≠ t + j) by (intros i j Hi Hj; destruct Hgt as [E|E]; cbn [fst snd] in E; lia).
  assert (Ngs : ∀ i j, 0 ≤ i < 88 → 0 ≤ j < 12 → gs m + i ≠ tss + j) by (intros i j Hi Hj; destruct Hgs as [E|E]; cbn [fst snd] in E; lia).
  assert (Nts : ∀ i j, 0 ≤ i < 12 → 0 ≤ j < 48 → tss + i ≠ t + j) by (intros i j Hi Hj; destruct Hts as [E|E]; cbn [fst snd] in E; lia).
  unfold cpu_tcb, cpu_rsp0, cpu_rsp3, cpu_tss, tss_rsp0, tcb_rsp, tcb_rsp0, tcb_rsp3, tcb_pml4 in *.
  erewrite (exec_store _ _ _ _ _ (gs m + 40)) by here Ht Hg Hs Hdi Ngt Ngs Nts. reg_simp. rewrite Hdi.
  erewrite (exec_load _ _ _ _ _ s) by here Ht Hg Hs Hdi Ngt Ngs Nts.
  erewrite (exec_next _ (MovI R14 _) _ _ _ 0); [|reflexivity].
  erewrite (exec_andm _ _ _ _ _ p4) by here Ht Hg Hs Hdi Ngt Ngs Nts.
  erewrite (exec_load _ _ _ _ _ r0) by here Ht Hg Hs Hdi Ngt Ngs Nts.
  erewrite (exec_store _ _ _ _ _ (gs m + 16)) by here Ht Hg Hs Hdi Ngt Ngs Nts. reg_simp.
  erewrite (exec_load _ _ _ _ _ tss) by here Ht Hg Hs Hdi Ngt Ngs Nts.
  erewrite (exec_store _ _ _ _ _ (tss + 4)) by here Ht Hg Hs Hdi Ngt Ngs Nts. reg_simp.
  erewrite (exec_load _ _ _ _ _ r3) by here Ht Hg Hs Hdi Ngt Ngs Nts.
  erewrite (exec_store _ _ _ _ _ (gs m + 24)) by here Ht Hg Hs Hdi Ngt Ngs Nts. reg_simp.
  eexists. split; [reflexivity|]. reg_simp. by rewrite ?Hdi.
Qed.
Lemma load_space_spec m code t fl :
  region_ok (gs m, 88) → region_ok (t, 48) → regs m RDI = t → mem m !! (t + tcb_rflags3) = Some fl → is_Some (mem m !! (gs m + cpu_rflags3)) →
  ∃ f z l, run (load_space ++ code) m =
      run code (with_flags (with_cr3 (with_mem (with_regs m f) (<[gs m + cpu_rflags3 := fl]> (mem m))) (regs m R14)) z l) ∧
    f RSP = regs m RSP.
Proof.
  intros Hg Ht Hdi H1 H2. unfold load_space. cbn [app]. unfold tcb_rflags3, cpu_rflags3 in *.
  rewrite (exec_load _ _ _ _ _ fl) by (cbn [address]; rewrite Hdi, (wrap_at _ _ 48 Ht) by lia; done).
  rewrite (exec_store _ _ _ _ _ (gs m + 32)) by (cbn [address]; reg_simp; rewrite ?(wrap_at _ _ 88 Hg) by lia; done). reg_simp.
  erewrite (exec_next _ (FromCr3 RDX) _ _ _ 0); [|reflexivity]. erewrite (exec_next _ (Cmp R14 RDX) _ _ _ 0); [|reflexivity].
  unfold compare. reg_simp. destruct (Z.eqb_spec (regs m R14) (cr3 m)) as [E|E].
  - erewrite (exec_next _ (Je 1) _ _ _ 1); [|reflexivity]. exists (set_reg (set_reg (regs m) RCX fl) RDX (cr3 m)). eexists _, _. split; [rewrite E; reflexivity|]. by reg_simp.
  - erewrite (exec_next _ (Je 1) _ _ _ 0); [|reflexivity]. erewrite (exec_next _ (ToCr3 R14) _ _ _ 0); [|reflexivity]. reg_simp.
    eexists _, _, _. split; [reflexivity|]. by reg_simp.
Qed.
End parts.

(** ** A switch *)

Definition tcb_at (w : words) (t : Z) (x : TCB) : Prop := words_at w t [rsp x; rsp0 x; rsp3 x; rflags3 x; pml4 x; xsave x].
Record cpu_at (w : words) (g r0 r3 fl t tss : Z) : Prop := {
  ca_rsp0 : w !! (g + cpu_rsp0) = Some r0;
  ca_rsp3 : w !! (g + cpu_rsp3) = Some r3;
  ca_rflags3 : w !! (g + cpu_rflags3) = Some fl;
  ca_tcb : w !! (g + cpu_tcb) = Some t;
  ca_tss : w !! (g + cpu_tss) = Some tss;
}.
Lemma tcb_at_words w t x :
  tcb_at w t x ↔ w !! (t + tcb_rsp) = Some (rsp x) ∧ w !! (t + tcb_rsp0) = Some (rsp0 x) ∧ w !! (t + tcb_rsp3) = Some (rsp3 x) ∧
    w !! (t + tcb_rflags3) = Some (rflags3 x) ∧ w !! (t + tcb_pml4) = Some (pml4 x) ∧ w !! (t + tcb_xsave) = Some (xsave x).
Proof.
  unfold tcb_at. rewrite !words_at_cons, <-!Z.add_assoc. unfold tcb_rsp. rewrite Z.add_0_r.
  split; [intros (? & ? & ? & ? & ? & ? & _); done|]. intros (? & ? & ? & ? & ? & ?). by repeat split.
Qed.
Lemma outside_of L (x n a : Z) : Forall (disjoint (x, n)) L → x ≤ a < x + n → outside L a.
Proof. intros HL Ha. eapply Forall_impl; [exact HL|]. intros r [H|H]; cbn [fst snd] in H; lia. Qed.
Lemma disjoint_sym r r' : disjoint r r' → disjoint r' r.
Proof. intros [H|H]; [by right|by left]. Qed.
(** Part of a region. *)
Lemma disjoint_part x n k (r : region) : disjoint (x, n) r → k ≤ n → 0 ≤ k → disjoint (x, k) r.
Proof. intros [H|H] Hk H0; cbn [fst snd] in *; [left|right]; cbn [fst snd]; lia. Qed.
Lemma words_at_outside L w w' x n vs :
  same_outside L w w' → Forall (disjoint (x, n)) L → 8 * Z.of_nat (length vs) ≤ n → words_at w x vs → words_at w' x vs.
Proof. intros Hs HL Hn. apply (words_at_same L); [done|]. intros i Hi. apply (outside_of L x n); [done|lia]. Qed.
Lemma same_outside_more L L' w w' : same_outside L w w' → same_outside (L ++ L') w w'.
Proof. intros H a Ha. apply H. unfold outside in *. by apply Forall_app in Ha as [? _]. Qed.
Lemma same_outside_write L w w' x n a v :
  same_outside L w w' → (x, n) ∈ L → x ≤ a < x + n → same_outside L w (<[a := v]> w').
Proof.
  intros H Hin Ha b Hb. rewrite lookup_insert_ne; [by apply H|]. intros <-. unfold outside in Hb. rewrite Forall_forall in Hb.
  specialize (Hb _ Hin). cbn [fst snd] in Hb. lia.
Qed.

(** The thread of the TCB [a] at [tA] runs and calls [task_switch] with the TCB at [tB], whose stack
    pointer is [sB]. *)
Record switch_call (m : machine) (xcr0 tA tB tss r0 r3 fl xv : Z) (a : TCB) (sB : Z) : Prop := {
  sc_apart : apart [(regs m RSP - 48, 56); (tA, 48); (tB, 48); (gs m, 88); (tss, 12); (sB, 56); (xcr0, 8)];
  sc_room : room (mem m) (regs m RSP) 6;
  sc_rdi : regs m RDI = tB;
  sc_tcb : tcb_at (mem m) tA a;
  sc_cpu : cpu_at (mem m) (gs m) r0 r3 fl tA tss;
  sc_tss : is_Some (mem m !! (tss + tss_rsp0));
  sc_xcr0 : mem m !! xcr0 = Some xv;
  sc_area : has_area (areas m) (xsave a);
  sc_word : is_u64 (xsave a);
}.
(** The TCB [b] at [tB] is of a thread that can be switched to: its stack has the registers [bs] and
    the address to return to. *)
Record switch_target (m : machine) (tB : Z) (b : TCB) (bs : list Z) (ret : Z) : Prop := {
  st_tcb : tcb_at (mem m) tB b;
  st_frame : words_at (mem m) (rsp b) (bs ++ [ret]);
  st_length : length bs = 6%nat;
  st_area : has_area (areas m) (xsave b);
  st_word : is_u64 (xsave b);
}.
(** The machine after the switch. *)
Record switched (m m' : machine) (tA tB tss r3 fl xv : Z) (a b : TCB) (bs : list Z) : Prop := {
  sw_rsp : regs m' RSP = u64 (rsp b + 56);
  sw_regs i r v : saved !! i = Some r → bs !! i = Some v → regs m' r = v;
  sw_frame : words_at (mem m') (regs m RSP - 48) (regs m <$> saved);
  sw_a : tcb_at (mem m') tA (Tcb (regs m RSP - 48) (rsp0 a) r3 fl (pml4 a) (xsave a) (kernel_stack a));
  sw_b : tcb_at (mem m') tB b;
  sw_cpu : cpu_at (mem m') (gs m) (rsp0 b) (rsp3 b) (rflags3 b) tB tss;
  sw_tss : mem m' !! (tss + tss_rsp0) = Some (rsp0 b);
  sw_same : same_outside [(regs m RSP - 48, 48); (tA, 48); (gs m, 88); (tss, 12)] (mem m) (mem m');
  sw_cr3 : cr3 m' = Z.land 0x00003fffffffffff (pml4 b);
  sw_gs : gs m' = gs m ∧ other_gs m' = other_gs m;
  sw_areas : areas m' = areas_saved xv (xsave a) (xstate m) (areas m);
  sw_xstate : xstate m' = xstate_loaded xv (xsave b) (xstate m) (areas m');
}.

Lemma has_area_saved xv a x ar b : has_area ar b → has_area (areas_saved xv a x ar) b.
Proof.
  intros [->|[o Ho]]; [by left|]. right. unfold areas_saved. destruct (ar !! a); [|by eexists]. destruct (a =? 0); [by eexists|].
  apply lookup_insert_is_Some'. right. by eexists.
Qed.

(** Hypotheses on regions that are apart, one by one, and a list of them again. *)
Ltac regions H :=
  let H1 := fresh in let H2 := fresh in destruct H as [H1 H2]; cbn [pairwise_disjoint] in H2;
  rewrite ?Forall_cons, ?Forall_nil in H1; rewrite ?Forall_cons, ?Forall_nil in H2; destruct_and?.
Ltac disjoint_regions := rewrite ?Forall_cons, ?Forall_nil; repeat split; first [assumption | apply disjoint_sym; assumption].
Ltac apart_again := split; [repeat (apply Forall_cons_2; [assumption|]); by apply Forall_nil|cbn [pairwise_disjoint]; disjoint_regions].

Section switch.
Context (callee : Z → machine → outcome machine).
Abbreviation run := (exec callee 0).

(** The first half: the running thread is saved. *)
Lemma save_spec m code xcr0 tA r0 r3 fl tss xv a :
  apart [(regs m RSP - 48, 48); (tA, 48); (gs m, 88); (xcr0, 8)] → room (mem m) (regs m RSP) 6 → regs m RSP < 2 ^ 64 →
  tcb_at (mem m) tA a → cpu_at (mem m) (gs m) r0 r3 fl tA tss → mem m !! xcr0 = Some xv → has_area (areas m) (xsave a) → is_u64 (xsave a) →
  ∃ f w z l, run (save_frame ++ save_tcb ++ save_xstate xcr0 ++ code) m =
      run code (with_flags (with_xstate (with_mem (with_regs m f) w) (xstate m) (areas_saved xv (xsave a) (xstate m) (areas m))) z l) ∧
    f RDI = regs m RDI ∧ words_at w (regs m RSP - 48) (regs m <$> saved) ∧
    tcb_at w tA (Tcb (regs m RSP - 48) (rsp0 a) r3 fl (pml4 a) (xsave a) (kernel_stack a)) ∧
    same_outside [(regs m RSP - 48, 48); (tA, 48)] (mem m) w ∧ (∀ x, is_Some (mem m !! x) → is_Some (w !! x)).
Proof.
  intros Hap Hroom Hsp Ha Hcpu Hx Har Hwa. regions Hap.
  destruct (save_frame_spec callee m (save_tcb ++ save_xstate xcr0 ++ code)) as (f1 & w1 & -> & Hf1 & Hd1 & Hw1 & Ho1 & Hk1); [done| |].
  { match goal with H : region_ok (regs m RSP - 48, 48) |- _ => destruct H as (? & _ & _) end. cbn [fst] in *. lia. }
  pose proof Hcpu as [_ C2 C3 C4 _]. apply tcb_at_words in Ha as (A1 & A2 & A3 & A4 & A5 & A6).
  assert (G1 : ∀ off, 0 ≤ off < 88 → w1 !! (gs m + off) = mem m !! (gs m + off)).
  { intros off Hoff. apply Ho1, (outside_of _ (gs m) 88); [disjoint_regions|lia]. }
  assert (T1 : ∀ off, 0 ≤ off < 48 → w1 !! (tA + off) = mem m !! (tA + off)).
  { intros off Hoff. apply Ho1, (outside_of _ tA 48); [disjoint_regions|lia]. }
  set (m1 := with_mem (with_regs m f1) w1).
  destruct (save_tcb_spec callee m1 (save_xstate xcr0 ++ code) tA r3 fl) as (f2 & -> & H15 & Hf2 & Hd2).
  { done. } { done. } { by apply disjoint_sym. }
  1-3: cbn [m1 mem gs with_mem with_regs]; rewrite G1 by (unfold cpu_tcb, cpu_rsp3, cpu_rflags3; lia); done.
  1-3: apply Hk1; by eexists.
  cbn [m1 mem regs xstate areas with_mem with_regs] in *. rewrite Hf1 in *.
  set (w2 := <[tA + tcb_rflags3 := fl]> _). set (m2 := with_mem (with_regs m1 f2) w2).
  assert (Ho2 : same_outside [(regs m RSP - 48, 48); (tA, 48)] (mem m) w2).
  { unfold tcb_rsp, tcb_rsp3, tcb_rflags3 in w2. repeat (apply (same_outside_write _ _ _ tA 48); [|by right; left|lia]).
    exact (same_outside_more _ [(tA, 48)] _ _ Ho1). }
  destruct (save_xstate_spec callee m2 code xcr0 tA xv (xsave a)) as (f3 & z & l & -> & Hf3 & Hd3); [done|done| | |done|done|].
  { cbn [m2 mem with_mem]. unfold w2, tcb_rsp, tcb_rsp3, tcb_rflags3, tcb_xsave in *. rewrite !lookup_insert_ne by lia. by rewrite T1 by lia. }
  { cbn [m2 mem with_mem]. rewrite Ho2; [done|]. apply (outside_of _ xcr0 8); [disjoint_regions|lia]. }
  exists f3, w2, z, l. split; [done|]. cbn [m2 regs with_mem with_regs] in Hd3. split; [congruence|].
  split; [|split; [|split; [done|]]].
  - intros i v Hi. pose proof (lookup_lt_Some _ _ _ Hi) as Hl. cbn in Hl. unfold w2, tcb_rsp, tcb_rsp3, tcb_rflags3.
    assert (Hne : ∀ off, 0 ≤ off < 48 → tA + off ≠ regs m RSP - 48 + 8 * Z.of_nat i).
    { intros off Hoff. match goal with H : disjoint (regs m RSP - 48, 48) (tA, 48) |- _ => destruct H as [H|H]; cbn [fst snd] in H end; lia. }
    rewrite !lookup_insert_ne by (apply Hne; lia). by apply Hw1.
  - apply tcb_at_words. cbn [rsp rsp0 rsp3 rflags3 pml4 xsave]. unfold w2, tcb_rsp, tcb_rsp0, tcb_rsp3, tcb_rflags3, tcb_pml4, tcb_xsave in *.
    repeat split; repeat first [rewrite lookup_insert_eq | rewrite lookup_insert_ne by lia]; rewrite ?T1 by lia; done.
  - intros x Hs. unfold w2. repeat (apply lookup_insert_is_Some'; right). by apply Hk1.
Qed.

(** The second half: the next thread is installed. *)
Lemma switch_load_spec m xcr0 tB tss r0 r3 fl t xv ret b bs :
  apart [(tB, 48); (gs m, 88); (tss, 12); (rsp b, 56); (xcr0, 8)] → regs m RDI = tB →
  tcb_at (mem m) tB b → cpu_at (mem m) (gs m) r0 r3 fl t tss → is_Some (mem m !! (tss + tss_rsp0)) → mem m !! xcr0 = Some xv →
  words_at (mem m) (rsp b) (bs ++ [ret]) → length bs = 6%nat → has_area (areas m) (xsave b) → is_u64 (xsave b) →
  ∃ m', run (install_tcb ++ load_xstate xcr0 ++ load_space ++ (Pop <$> saved) ++ [Ret]) m = Done (m', Returned ret) ∧
    regs m' RSP = u64 (rsp b + 56) ∧ (∀ i r v, saved !! i = Some r → bs !! i = Some v → regs m' r = v) ∧
    cpu_at (mem m') (gs m) (rsp0 b) (rsp3 b) (rflags3 b) tB tss ∧ mem m' !! (tss + tss_rsp0) = Some (rsp0 b) ∧
    same_outside [(gs m, 88); (tss, 12)] (mem m) (mem m') ∧ cr3 m' = Z.land 0x00003fffffffffff (pml4 b) ∧
    gs m' = gs m ∧ other_gs m' = other_gs m ∧ areas m' = areas m ∧ xstate m' = xstate_loaded xv (xsave b) (xstate m) (areas m).
Proof.
  intros Hap Hdi Hb [C1 C2 C3 C4 C5] Hts Hx Hfr Hlen Har Hwb. regions Hap. apply tcb_at_words in Hb as (B1 & B2 & B3 & B4 & B5 & B6).
  destruct (install_tcb_spec callee m (load_xstate xcr0 ++ load_space ++ (Pop <$> saved) ++ [Ret]) tB tss (rsp b) (rsp0 b) (rsp3 b) (pml4 b))
    as (f1 & -> & Hsp1 & Hd1 & H14); try (done || by eexists).
  set (w1 := <[gs m + cpu_rsp3 := rsp3 b]> _). set (m1 := with_mem (with_regs m f1) w1).
  assert (Ho1 : same_outside [(gs m, 88); (tss, 12)] (mem m) w1).
  { unfold w1, cpu_rsp3, cpu_tcb, cpu_rsp0, tss_rsp0. apply (same_outside_write _ _ _ (gs m) 88); [|by left|lia].
    apply (same_outside_write _ _ _ tss 12); [|by right; left|lia]. repeat (apply (same_outside_write _ _ _ (gs m) 88); [|by left|lia]). done. }
  assert (T1 : ∀ off, 0 ≤ off < 48 → w1 !! (tB + off) = mem m !! (tB + off)).
  { intros off Hoff. apply Ho1, (outside_of _ tB 48); [disjoint_regions|lia]. }
  destruct (load_xstate_spec callee m1 (load_space ++ (Pop <$> saved) ++ [Ret]) xcr0 tB xv (xsave b)) as (f2 & z & l & -> & Hsp2 & Hd2 & H142);
    [done|done| | |done|done|].
  { cbn [m1 mem with_mem]. rewrite T1 by (unfold tcb_xsave; lia). done. }
  { cbn [m1 mem with_mem]. rewrite Ho1; [done|]. apply (outside_of _ xcr0 8); [disjoint_regions|lia]. }
  cbn [m1 regs with_mem with_regs xstate areas] in *. set (m2 := with_flags _ _ _).
  assert (Ngs : ∀ i j, 0 ≤ i < 88 → 0 ≤ j < 12 → gs m + i ≠ tss + j).
  { intros i j Hi Hj. match goal with H : disjoint (gs m, 88) (tss, 12) |- _ => destruct H as [H|H]; cbn [fst snd] in H end; lia. }
  destruct (load_space_spec callee m2 ((Pop <$> saved) ++ [Ret]) tB (rflags3 b)) as (f3 & z3 & l3 & -> & Hsp3); [done|done|cbn; congruence| | |].
  { cbn [m2 m1 mem with_mem with_flags with_xstate with_regs]. rewrite T1 by (unfold tcb_rflags3; lia). done. }
  { cbn [m2 m1 mem gs with_mem with_flags with_xstate with_regs]. unfold w1. repeat (apply lookup_insert_is_Some'; right). by eexists. }
  cbn [m2 m1 mem gs regs with_mem with_flags with_xstate with_regs] in *. set (w3 := <[gs m + cpu_rflags3 := rflags3 b]> w1).
  assert (Ho3 : same_outside [(gs m, 88); (tss, 12)] (mem m) w3) by (apply (same_outside_write _ _ _ (gs m) 88); [done|by left|unfold cpu_rflags3; lia]).
  assert (Hf3 : words_at w3 (rsp b) (bs ++ [ret])).
  { apply (words_at_outside _ _ _ _ 56 _ Ho3); [disjoint_regions|rewrite length_app; cbn; lia|done]. }
  set (m3 := with_flags _ _ _). assert (E3 : regs m3 RSP = rsp b) by (cbn; congruence).
  match goal with H : region_ok (rsp b, 56) |- _ => destruct H as (R1 & _ & R2); cbn [fst snd] in R1, R2 end.
  destruct (exec_pops callee saved bs m3 [Ret]) as (f4 & -> & Hsp4 & Hrs & _); [done|by apply (bool_decide_eq_true_1 _)|by apply (bool_decide_eq_true_1 _)| |lia|cbn in *; lia|].
  { rewrite E3. intros i v Hi. apply Hf3. rewrite lookup_app_l; [done|]. by eapply lookup_lt_Some. }
  change (8 * Z.of_nat (length saved)) with 48 in Hsp4. rewrite E3 in Hsp4.
  assert (Hret : w3 !! (rsp b + 48) = Some ret).
  { specialize (Hf3 6%nat ret). rewrite lookup_app_r in Hf3 by lia. rewrite Hlen in Hf3. by specialize (Hf3 eq_refl). }
  cbn [exec step]. unfold pop, load. reg_simp. cbn [mem with_regs m3 with_flags with_cr3 with_mem] in *. rewrite Hsp4, Hret. cbn [deref mbind outcome_bind].
  eexists. split; [reflexivity|]. reg_simp. split; [f_equal; lia|].
  split; [intros i r v Hr Hv; rewrite set_reg_ne; [by apply (Hrs i)|]; intros <-; by destruct i as [|[|[|[|[|[|i]]]]]]|].
  change (mem m3) with w3. change (cr3 m3) with (f2 R14). split; [split|split; [|split; [done|split; [|done]]]].
  1-5: unfold w3, w1, cpu_rsp0, cpu_rsp3, cpu_rflags3, cpu_tcb, cpu_tss, tss_rsp0 in *;
    repeat first [rewrite lookup_insert_eq | rewrite lookup_insert_ne by (lia || (apply not_eq_sym, Ngs; lia))]; done.
  - unfold w3, w1, cpu_rsp0, cpu_rsp3, cpu_rflags3, cpu_tcb, cpu_tss, tss_rsp0 in *.
    repeat first [rewrite lookup_insert_eq | rewrite lookup_insert_ne by (lia || (apply Ngs; lia))]; done.
  - congruence.
Qed.

Lemma task_switch_spec m xcr0 tA tB tss r0 r3 fl xv ret a b bs :
  switch_call m xcr0 tA tB tss r0 r3 fl xv a (rsp b) → switch_target m tB b bs ret →
  ∃ m', run (task_switch xcr0) m = Done (m', Returned ret) ∧ switched m m' tA tB tss r3 fl xv a b bs.
Proof.
  intros [Hap Hroom Hdi Ha Hcpu Htss Hx Haa Hwa] [Hb Hfr Hlen Hab Hwb]. regions Hap. unfold task_switch.
  assert (Hpart : ∀ r, disjoint (regs m RSP - 48, 56) r → disjoint (regs m RSP - 48, 48) r) by (intros r Hr; apply (disjoint_part _ 56); [done|lia..]).
  match goal with H : region_ok (regs m RSP - 48, 56) |- _ => destruct H as (R1 & _ & R2); cbn [fst snd] in R1, R2 end.
  assert (RS : region_ok (regs m RSP - 48, 48)) by (repeat split; cbn [fst snd]; lia).
  repeat match goal with H : disjoint (regs m RSP - 48, 56) ?r |- _ => apply Hpart in H end.
  destruct (save_spec m (install_tcb ++ load_xstate xcr0 ++ load_space ++ (Pop <$> saved) ++ [Ret]) xcr0 tA r0 r3 fl tss xv a)
    as (f & w & z & l & -> & Hd1 & Hw & Hta & Ho & Hk); [|done|lia|done..|].
  { apart_again. }
  set (m1 := with_flags _ z l).
  assert (G1 : ∀ off, 0 ≤ off < 88 → w !! (gs m + off) = mem m !! (gs m + off)).
  { intros off Hoff. apply Ho, (outside_of _ (gs m) 88); [disjoint_regions|lia]. }
  assert (Hb1 : tcb_at w tB b) by (apply (words_at_outside _ _ _ _ 48 _ Ho); [disjoint_regions|cbn; lia|done]).
  assert (Hcpu1 : cpu_at w (gs m) r0 r3 fl tA tss).
  { destruct Hcpu as [C1 C2 C3 C4 C5]. unfold cpu_rsp0, cpu_rsp3, cpu_rflags3, cpu_tcb, cpu_tss in *.
    split; (rewrite G1; [done|unfold cpu_rsp0, cpu_rsp3, cpu_rflags3, cpu_tcb, cpu_tss; lia]). }
  destruct (switch_load_spec m1 xcr0 tB tss r0 r3 fl tA xv ret b bs) as (m' & Hrun & Hsp & Hrs & Hc & Hts & Ho2 & Hcr & Hg & Hog & Har & Hxs); try done.
  { apart_again. }
  { cbn. congruence. }
  { by apply Hk. }
  { cbn. rewrite Ho; [done|]. apply (outside_of _ xcr0 8); [disjoint_regions|lia]. }
  { apply (words_at_outside _ _ _ _ 56 _ Ho); [disjoint_regions|rewrite length_app; cbn; lia|done]. }
  { by apply has_area_saved. }
  exists m'. split; [exact Hrun|]. cbn [m1 gs mem with_flags with_xstate with_mem with_regs other_gs areas xstate] in *. split; try done.
  - apply (words_at_outside _ _ _ _ 48 _ Ho2); [disjoint_regions|cbn; lia|done].
  - apply (words_at_outside _ _ _ _ 48 _ Ho2); [disjoint_regions|cbn; lia|done].
  - apply (words_at_outside _ _ _ _ 48 _ Ho2); [disjoint_regions|cbn; lia|done].
  - intros x Hx'. unfold outside in Hx'. rewrite !Forall_cons in Hx'. destruct Hx' as (X1 & X2 & X3 & X4 & _).
    rewrite Ho2 by (unfold outside; by rewrite !Forall_cons). apply Ho. unfold outside. by rewrite !Forall_cons.
  - by rewrite Hxs, Har.
Qed.
End switch.

(** ** New threads *)

Lemma put_words_spec vs : ∀ w a,
  0 ≤ a → a + 8 * Z.of_nat (length vs) < 2 ^ 64 → (∀ i, (i < length vs)%nat → is_Some (w !! (a + 8 * Z.of_nat i))) →
  ∃ w', put_words w a vs = Done w' ∧ words_at w' a vs ∧ same_outside [(a, 8 * Z.of_nat (length vs))] w w' ∧
    (∀ x, is_Some (w !! x) → is_Some (w' !! x)).
Proof.
  induction vs as [|v vs IH]; intros w a H0 Hb Hs.
  { exists w. split; [done|]. split; [by intros [|i] x Hi|]. done. }
  cbn [put_words length] in *. unfold put_word. destruct (Hs 0%nat ltac:(lia)) as [y Hy]. rewrite Z.add_0_r in Hy. rewrite Hy. cbn [deref mbind outcome_bind].
  rewrite wrap_small by (unfold is_word; lia).
  destruct (IH (<[a := v]> w) (a + 8)) as (w' & -> & Hw & Ho & Hk); [lia|lia| |].
  { intros i Hi. apply lookup_insert_is_Some'. right. destruct (Hs (S i) ltac:(lia)) as [x Hx]. exists x. rewrite <-Hx. f_equal. lia. }
  exists w'. split; [done|]. split; [|split].
  - apply words_at_cons. split; [|done]. rewrite Ho by (rewrite outside_cons, outside_nil; lia). apply lookup_insert_eq.
  - intros x Hx. rewrite outside_cons, outside_nil in Hx. rewrite Ho by (rewrite outside_cons, outside_nil; lia). apply lookup_insert_ne. lia.
  - intros x Hx. apply Hk. by apply lookup_insert_is_Some'; right.
Qed.

(** The stack that a new thread gets, from the address in its TCB to the end of its section. *)
Definition new_stack (trampoline rip3 arg0 arg1 rsp3 top : Z) : list Z :=
  [0x15151515; 0x14141414; 0x13131313; 0x12121212; 0xbbbbbbbb; top; trampoline;
   arg0; arg1; 0x15151515; 0x14141414; 0x13131313; 0x12121212; 0xbbbbbbbb; rsp3; rip3; 0; 0].
Lemma new_stack_spec tramp t0 w s rip3 arg0 arg1 flags :
  0 ≤ s → s + stack_bytes < 2 ^ 64 → (∀ i, 1006 ≤ i < 1024 → is_Some (w !! (s + 8 * i))) →
  ∃ t1 w1 t w', setup_kernel_stack t0 w s = Done (t1, w1) ∧ add_thunk_user tramp t1 w1 rip3 arg0 arg1 0 flags = Done (t, w') ∧
    rsp t = s + stack_bytes - 144 ∧ rsp0 t = s + stack_bytes - 16 ∧ rsp3 t = rsp3 t0 ∧ rflags3 t = Z.lor flags 0x200 ∧
    pml4 t = pml4 t0 ∧ xsave t = xsave t0 ∧ kernel_stack t = s ∧
    words_at w' (rsp t) (new_stack tramp rip3 arg0 arg1 (rsp3 t0) (rsp0 t)) ∧
    same_outside [(s, stack_bytes)] w w'.
Proof.
  intros H0 Hb Hs. unfold stack_bytes, kernel_stack_pages, frame_size in *. change (2 * 0x1000) with 8192 in *.
  unfold setup_kernel_stack, stack_bytes, null_frame_size, null_frame_entries, kernel_stack_pages, frame_size. change (2 * 0x1000) with 8192. change (2 * 8) with 16.
  rewrite (wrap_small 64 (s + 8192)) by (unfold is_word; lia). rewrite wrap_small by (unfold is_word; lia).
  destruct (put_words_spec [0; 0] w (s + 8192 - 16)) as (w1 & -> & Hw1 & Ho1 & Hk1); [lia|cbn [length]; lia| |].
  { intros i Hi. cbn [length] in Hi. replace (s + 8192 - 16 + 8 * Z.of_nat i) with (s + 8 * (1022 + Z.of_nat i)) by lia. apply Hs. lia. }
  cbn [mbind outcome_bind]. exists (Tcb (s + 8192 - 16) (s + 8192 - 16) (rsp3 t0) (rflags3 t0) (pml4 t0) (xsave t0) s), w1. unfold add_thunk_user. cbn [rsp rsp0 rsp3 pml4 xsave kernel_stack]. change (8 * 9) with 72.
  rewrite (wrap_small 64 (s + 8192 - 16 - 72)) by (unfold is_word; lia).
  destruct (put_words_spec [arg0; arg1; 0x15151515; 0x14141414; 0x13131313; 0x12121212; 0xbbbbbbbb; rsp3 t0; rip3] w1 (s + 8192 - 16 - 72))
    as (w2 & E2 & Hw2 & Ho2 & Hk2); [lia|cbn [length]; lia| |].
  { intros i Hi. cbn [length] in Hi. apply Hk1. replace (s + 8192 - 16 - 72 + 8 * Z.of_nat i) with (s + 8 * (1013 + Z.of_nat i)) by lia. apply Hs. lia. }
  rewrite E2. cbn [mbind outcome_bind Z.eqb negb]. unfold add_thunk_kernel. cbn [rsp rsp0 rsp3 pml4 xsave kernel_stack rflags3]. change (8 * 7) with 56.
  rewrite (wrap_small 64 (s + 8192 - 16 - 72 - 56)) by (unfold is_word; lia).
  destruct (put_words_spec [0x15151515; 0x14141414; 0x13131313; 0x12121212; 0xbbbbbbbb; s + 8192 - 16; tramp] w2 (s + 8192 - 16 - 72 - 56))
    as (w3 & E3 & Hw3 & Ho3 & Hk3); [lia|cbn [length]; lia| |].
  { intros i Hi. cbn [length] in Hi. apply Hk2, Hk1. replace (s + 8192 - 16 - 72 - 56 + 8 * Z.of_nat i) with (s + 8 * (1006 + Z.of_nat i)) by lia. apply Hs. lia. }
  rewrite E3. cbn [mbind outcome_bind]. eexists _, w3. split; [done|]. split; [done|]. cbn [rsp rsp0 rsp3 rflags3 pml4 xsave kernel_stack].
  do 7 (split; [done || lia|]). split.
  - unfold new_stack. change [0x15151515; 0x14141414; 0x13131313; 0x12121212; 0xbbbbbbbb; s + 8192 - 16; tramp; arg0; arg1; 0x15151515; 0x14141414;
      0x13131313; 0x12121212; 0xbbbbbbbb; rsp3 t0; rip3; 0; 0]
      with ([0x15151515; 0x14141414; 0x13131313; 0x12121212; 0xbbbbbbbb; s + 8192 - 16; tramp] ++
            [arg0; arg1; 0x15151515; 0x14141414; 0x13131313; 0x12121212; 0xbbbbbbbb; rsp3 t0; rip3] ++ [0; 0]).
    apply words_at_app. split; [done|]. apply words_at_app. cbn [length] in *.
    replace (s + 8192 - 16 - 72 - 56 + 8 * Z.of_nat 7) with (s + 8192 - 16 - 72) by lia.
    replace (s + 8192 - 16 - 72 + 8 * Z.of_nat 9) with (s + 8192 - 16) by lia.
    split; [|apply (words_at_same _ _ _ _ _ Ho3); [|apply (words_at_same _ _ _ _ _ Ho2); [|done]]; intros i Hi; cbn [length] in *; rewrite outside_cons, outside_nil; lia].
    apply (words_at_same _ _ _ _ _ Ho3); [|done]. intros i Hi. cbn [length] in *. rewrite outside_cons, outside_nil. lia.
  - intros x Hx. rewrite outside_cons, outside_nil in Hx. cbn [length] in *.
    rewrite Ho3, Ho2, Ho1 by (rewrite outside_cons, outside_nil; lia). done.
Qed.

(** ** The trampoline *)

Lemma trampoline_spec callee m vs r0 r3 fl t tss :
  words_at (mem m) (regs m RSP) vs → length vs = 7%nat → 0 ≤ regs m RSP → regs m RSP + 56 < 2 ^ 64 →
  region_ok (gs m, 88) → region_ok (tss, 12) → disjoint (gs m, 88) (tss, 12) →
  cpu_at (mem m) (gs m) r0 r3 fl t tss → is_Some (mem m !! (tss + tss_rsp0)) →
  ∃ m' rip, exec callee 0 kernel_to_user_trampoline m = Done (m', User rip fl) ∧ vs !! 6%nat = Some rip ∧ regs m' RSP = r3 ∧
    (∀ i r v, [R15; R14; R13; R12; RBX; RBP] !! i = Some r → vs !! i = Some v → regs m' r = v) ∧
    (∀ r, r ∈ [RAX; RDX; RDI; RSI; R8; R9; R10] → regs m' r = regs m r) ∧
    mem m' = <[gs m + cpu_rsp0 := regs m RSP + 56]> (<[tss + tss_rsp0 := regs m RSP + 56]> (mem m)) ∧
    gs m' = other_gs m ∧ other_gs m' = gs m ∧ cr3 m' = cr3 m.
Proof.
  intros Hw Hl H0 Hb Hg Hu Hd [C1 C2 C3 C4 C5] Hts. unfold kernel_to_user_trampoline.
  destruct (exec_pops callee [R15; R14; R13; R12; RBX; RBP; RCX] vs m
    [Load R11 (Gs cpu_tss); Store (At R11 tss_rsp0) RSP; Store (Gs cpu_rsp0) RSP; Load RSP (Gs cpu_rsp3); Load R11 (Gs cpu_rflags3); Swapgs; Sysret])
    as (f & -> & Hsp & Hrs & Hfr); [done|by apply (bool_decide_eq_true_1 _)|by apply (bool_decide_eq_true_1 _)|done|done|cbn [length]; lia|].
  change (8 * Z.of_nat (length [R15; R14; R13; R12; RBX; RBP; RCX])) with 56 in Hsp.
  assert (Ngs : ∀ i j, 0 ≤ i < 88 → 0 ≤ j < 12 → gs m + i ≠ tss + j) by (intros i j Hi Hj; destruct Hd as [E|E]; cbn [fst snd] in E; lia).
  unfold cpu_rsp0, cpu_rsp3, cpu_rflags3, cpu_tcb, cpu_tss, tss_rsp0 in *.
  erewrite (exec_load _ _ _ _ _ tss) by (cbn [address]; reg_simp; rewrite (wrap_at _ _ 88 Hg) by lia; done).
  erewrite (exec_store _ _ _ _ _ (tss + 4)) by (cbn [address]; reg_simp; rewrite ?(wrap_at _ _ 12 Hu) by lia; done). reg_simp.
  erewrite (exec_store _ _ _ _ _ (gs m + 16)) by (cbn [address]; reg_simp; rewrite ?(wrap_at _ _ 88 Hg) by lia; first [done|apply lookup_insert_is_Some'; right; by eexists]).
  reg_simp.
  erewrite (exec_load _ _ _ _ _ r3) by (cbn [address]; reg_simp; rewrite (wrap_at _ _ 88 Hg) by lia; rewrite !lookup_insert_ne by (lia || (apply not_eq_sym, Ngs; lia)); done).
  erewrite (exec_load _ _ _ _ _ fl) by (cbn [address]; reg_simp; rewrite (wrap_at _ _ 88 Hg) by lia; rewrite !lookup_insert_ne by (lia || (apply not_eq_sym, Ngs; lia)); done).
  erewrite (exec_next _ Swapgs _ _ _ 0); [|reflexivity]. cbn [exec step]. cbn [mbind outcome_bind].
  assert (Hrip : ∃ rip, vs !! 6%nat = Some rip) by (apply lookup_lt_is_Some; lia). destruct Hrip as [rip Hrip].
  eexists _, rip. split; [reg_simp; rewrite (Hrs 6%nat RCX rip eq_refl Hrip); reflexivity|]. split; [done|]. reg_simp. split; [done|]. split; [|split; [|split]].
  - intros i r v Hr Hv. assert (Hi : [R15; R14; R13; R12; RBX; RBP; RCX] !! i = Some r) by (by destruct i as [|[|[|[|[|[|i]]]]]]).
    rewrite <-(Hrs i r v Hi Hv). destruct i as [|[|[|[|[|[|i]]]]]]; try done; injection Hr as <-; by reg_simp.
  - intros r Hr. repeat (apply elem_of_cons in Hr as [->|Hr]; [reg_simp; apply Hfr; by apply (bool_decide_eq_true_1 _)|]). by apply not_elem_of_nil in Hr.
  - by rewrite Hsp.
  - done.
Qed.

(** A function in C++: it returns, keeps the registers of the ABI and the GS base, and does not write to
    some regions. *)
Definition keeps (callee : Z → machine → outcome machine) (f : Z) (L : list region) : Prop :=
  ∀ m, ∃ m', callee f m = Done m' ∧ (∀ r, r ∈ RSP :: callee_saved → regs m' r = regs m r) ∧
    gs m' = gs m ∧ other_gs m' = other_gs m ∧
    (∀ x, Exists (λ r, r.1 ≤ x < r.1 + r.2) L → mem m' !! x = mem m !! x).
Lemma words_at_kept (w w' : words) x n vs (L : list region) :
  (∀ y, Exists (λ r : region, r.1 ≤ y < r.1 + r.2) L → w' !! y = w !! y) → (x, n) ∈ L →
  ∀ a, x ≤ a → a + 8 * Z.of_nat (length vs) ≤ x + n → words_at w a vs → words_at w' a vs.
Proof.
  intros Hk Hin a Ha Hb Hw i v Hi. pose proof (lookup_lt_Some _ _ _ Hi). rewrite Hk; [by apply Hw|].
  apply Exists_exists. exists (x, n). split; [done|]. cbn [fst snd]. lia.
Qed.

Lemma enter_user_spec callee init m s w' tss tB t arg0 arg1 rip3 tramp :
  keeps callee init [(s, stack_bytes); (gs m, 88); (tss, 12)] →
  0 ≤ s → s + stack_bytes < 2 ^ 64 → region_ok (gs m, 88) → region_ok (tss, 12) → disjoint (gs m, 88) (tss, 12) →
  disjoint (s, stack_bytes) (gs m, 88) → disjoint (s, stack_bytes) (tss, 12) →
  words_at w' (s + stack_bytes - 144) (new_stack tramp rip3 arg0 arg1 (rsp3 t) (rsp0 t)) →
  regs m RSP = s + stack_bytes - 88 → (∀ x, s ≤ x < s + stack_bytes → mem m !! x = w' !! x) →
  cpu_at (mem m) (gs m) (rsp0 t) (rsp3 t) (rflags3 t) tB tss → is_Some (mem m !! (tss + tss_rsp0)) →
  ∃ m', exec callee 0 (initialize_user_cpu init ++ kernel_to_user_trampoline) m = Done (m', User rip3 (rflags3 t)) ∧
    regs m' RDI = arg0 ∧ regs m' RSI = arg1 ∧ regs m' RSP = rsp3 t ∧ regs m' RBP = rsp3 t ∧
    mem m' !! (gs m + cpu_rsp0) = Some (s + stack_bytes - 16) ∧ mem m' !! (tss + tss_rsp0) = Some (s + stack_bytes - 16) ∧
    gs m' = other_gs m ∧ other_gs m' = gs m.
Proof.
  intros Hkeep H0 Hb Hg Hu Hd Dsg Dsu Hst Hsp Hmem Hcpu Hts. unfold initialize_user_cpu. rewrite <-app_assoc. cbn [app].
  destruct (Hkeep m) as (m1 & Hcall & Hregs & Hgs1 & Hog1 & Hk). unfold stack_bytes, kernel_stack_pages, frame_size in *. change (2 * 0x1000) with 8192 in *.
  assert (Hsp1 : regs m1 RSP = s + 8192 - 88) by (rewrite Hregs by (by left); done).
  erewrite (exec_next _ (Call init)); [|cbn [step]; rewrite Hcall; reflexivity].
  do 6 (erewrite (exec_next _ (MovI _ _)); [|reflexivity]). set (m2 := put _ _ _).
  assert (Hw2 : words_at (mem m2) (s + 8192 - 88) [arg0; arg1; 0x15151515; 0x14141414; 0x13131313; 0x12121212; 0xbbbbbbbb; rsp3 t; rip3]).
  { change (mem m2) with (mem m1). apply (words_at_kept (mem m) _ s 8192 _ _ Hk ltac:(by left)); [lia|cbn [length]; lia|].
    intros i v Hi. pose proof (lookup_lt_Some _ _ _ Hi) as Hl. cbn [length] in Hl. rewrite Hmem by lia.
    specialize (Hst (7 + i)%nat v). rewrite <-Hst; [f_equal; lia|]. unfold new_stack. cbn [Nat.add].
    by destruct i as [|[|[|[|[|[|[|[|[|i]]]]]]]]]; try lia. }
  assert (Hsp2 : regs m2 RSP = s + 8192 - 88) by (unfold m2; by reg_simp).
  change ((Pop <$> [RDI; RSI]) ++ kernel_to_user_trampoline) with ((Pop <$> [RDI; RSI]) ++ kernel_to_user_trampoline).
  destruct (exec_pops callee [RDI; RSI] [arg0; arg1] m2 kernel_to_user_trampoline) as (f & Hrun & Hf & Hrs & Hfr);
    [done|by apply (bool_decide_eq_true_1 _)|by apply (bool_decide_eq_true_1 _)| |lia|cbn [length]; lia|].
  { rewrite Hsp2. intros i v Hi. apply Hw2. by destruct i as [|[|i]]. }
  cbn [fmap list_fmap app] in Hrun. cbn [fmap list_fmap app]. rewrite Hrun. change (8 * Z.of_nat (length [RDI; RSI])) with 16 in Hf.
  set (m3 := with_regs m2 f). assert (Hgs3 : gs m3 = gs m) by done.
  assert (Hin : ∀ a k x, (a, k) ∈ [(s, 8192); (gs m, 88); (tss, 12)] → a ≤ x < a + k → mem m1 !! x = mem m !! x).
  { intros a k x Ha Hx. apply Hk, Exists_exists. exists (a, k). split; [done|]. exact Hx. }
  destruct (trampoline_spec callee m3 [0x15151515; 0x14141414; 0x13131313; 0x12121212; 0xbbbbbbbb; rsp3 t; rip3] (rsp0 t) (rsp3 t) (rflags3 t) tB tss)
    as (m4 & rip & Hrun4 & Hrip & Hsp4 & Hrs4 & Hfr4 & Hmem4 & Hgs4 & Hog4 & _); try done.
  { cbn [m3 regs mem with_regs]. rewrite Hf, Hsp2. intros i v Hi. specialize (Hw2 (2 + i)%nat v Hi). rewrite <-Hw2. f_equal. lia. }
  { cbn. lia. } { cbn. lia. } { by rewrite Hgs3. } { by rewrite Hgs3. }
  { destruct Hcpu as [C1 C2 C3 C4 C5]. unfold cpu_rsp0, cpu_rsp3, cpu_rflags3, cpu_tcb, cpu_tss in *. rewrite Hgs3.
    split; unfold cpu_rsp0, cpu_rsp3, cpu_rflags3, cpu_tcb, cpu_tss; change (mem m3) with (mem m1); (rewrite (Hin (gs m) 88); [done|by right; left|lia]). }
  { change (mem m3) with (mem m1). rewrite (Hin tss 12); [done|by right; right; left|unfold tss_rsp0; lia]. }
  injection Hrip as <-. exists m4. split; [exact Hrun4|]. rewrite (Hfr4 RDI), (Hfr4 RSI) by (by apply (bool_decide_eq_true_1 _)).
  cbn [m3 regs with_regs]. rewrite (Hrs 0%nat RDI arg0), (Hrs 1%nat RSI arg1) by done. split; [done|]. split; [done|]. split; [done|].
  split; [by apply (Hrs4 5%nat)|]. rewrite Hmem4, Hgs4, Hog4, Hgs3. cbn [m3 regs with_regs]. rewrite Hf, Hsp2.
  assert (Hne : gs m + cpu_rsp0 ≠ tss + tss_rsp0) by (unfold cpu_rsp0, tss_rsp0; destruct Hd as [E|E]; cbn [fst snd] in E; lia).
  rewrite lookup_insert_eq, lookup_insert_ne, lookup_insert_eq by done. split; [f_equal; lia|]. split; [f_equal; lia|]. split; [|done]. cbn. done.
Qed.

(** ** Theorems *)

(** C12: a thread that calls [task_switch] is continued by a later switch to it, on whatever CPU and
    from whatever thread, as if the call had just returned: its return address, its stack pointer, the
    registers of the ABI and the components of the extended state that are in use are as they were,
    its user stack and flags are those of the CPU again, and its address space is in use.  In between
    the thread that was switched to runs with its own. *)
Theorem task_switch_roundtrip callee m xcr0 tA tB tss r0 r3 fl xv ret a b bs back :
  switch_call m xcr0 tA tB tss r0 r3 fl xv a (rsp b) → switch_target m tB b bs ret → mem m !! regs m RSP = Some back →
  ∃ m1, exec callee 0 (task_switch xcr0) m = Done (m1, Returned ret) ∧
    (∀ i r v, saved !! i = Some r → bs !! i = Some v → regs m1 r = v) ∧
    ∀ m2 tC tss' r0' r3' fl' c,
      switch_call m2 xcr0 tC tA tss' r0' r3' fl' xv c (regs m RSP - 48) →
      (∀ x, tA ≤ x < tA + 48 ∨ regs m RSP - 48 ≤ x < regs m RSP + 8 → mem m2 !! x = mem m1 !! x) →
      areas m2 !! xsave a = areas m1 !! xsave a → xsave c ≠ xsave a ∨ xsave a = 0 →
      ∃ m3, exec callee 0 (task_switch xcr0) m2 = Done (m3, Returned back) ∧
        regs m3 RSP = u64 (regs m RSP + 8) ∧ (∀ r, r ∈ callee_saved → regs m3 r = regs m r) ∧
        cpu_at (mem m3) (gs m2) (rsp0 a) r3 fl tA tss' ∧ cr3 m3 = Z.land 0x00003fffffffffff (pml4 a) ∧
        (xsave a ≠ 0 → ∀ i, Z.testbit (wrap 32 xv) i = true → xstate m3 i = xstate m i).
Proof.
  intros Hcall Htgt Hback. destruct (task_switch_spec callee _ _ _ _ _ _ _ _ _ _ _ _ _ Hcall Htgt) as (m1 & Hrun & [S1 S2 S3 S4 S5 S6 S7 S8 S9 S10 S11 S12]).
  exists m1. split; [done|]. split; [exact S2|]. intros m2 tC tss' r0' r3' fl' c Hcall2 Hsame Harea Hne.
  set (a' := Tcb (regs m RSP - 48) (rsp0 a) r3 fl (pml4 a) (xsave a) (kernel_stack a)) in *.
  assert (Hback1 : mem m1 !! regs m RSP = Some back).
  { rewrite S8; [done|]. destruct (sc_apart _ _ _ _ _ _ _ _ _ _ _ Hcall) as [Hok Hp]. cbn [pairwise_disjoint] in Hp. destruct Hp as [Hp _].
    rewrite !Forall_cons in Hp. destruct Hp as (P1 & _ & P3 & P4 & _).
    apply outside_cons. split; [lia|]. apply (outside_of _ (regs m RSP - 48) 56); [|lia]. disjoint_regions. }
  assert (Htgt2 : switch_target m2 tA a' (regs m <$> saved) back).
  { split; [..|done| |exact (sc_word _ _ _ _ _ _ _ _ _ _ _ Hcall)].
    - intros i v Hi. pose proof (lookup_lt_Some _ _ _ Hi) as Hl. cbn [length] in Hl. rewrite Hsame by lia. by apply S4.
    - cbn [a' rsp]. apply words_at_app. split.
      + intros i v Hi. pose proof (lookup_lt_Some _ _ _ Hi) as Hl. cbn [length saved fmap list_fmap] in Hl. rewrite Hsame by lia. by apply S3.
      + rewrite length_fmap. change (8 * Z.of_nat (length saved)) with 48. apply words_at_cons. split; [|by intros [|i] v Hi].
        replace (regs m RSP - 48 + 48) with (regs m RSP) by lia. rewrite Hsame by lia. done.
    - cbn [a' xsave]. unfold has_area. rewrite Harea, S11. apply has_area_saved. exact (sc_area _ _ _ _ _ _ _ _ _ _ _ Hcall). }
  destruct (task_switch_spec callee _ _ _ _ _ _ _ _ _ _ _ a' _ Hcall2 Htgt2) as (m3 & Hrun3 & [R1 R2 R3 R4 R5 R6 R7 R8 R9 R10 R11 R12]).
  exists m3. split; [done|]. split; [rewrite R1; cbn [a' rsp]; f_equal; lia|]. split; [|split; [done|split; [done|]]].
  - intros r Hr. unfold callee_saved in Hr. assert (Hs : ∃ i, saved !! i = Some r).
    { apply list_elem_of_lookup. revert r Hr. apply Forall_forall. apply (bool_decide_eq_true_1 _). reflexivity. }
    destruct Hs as [i Hi]. apply (R2 i); [done|]. by rewrite list_lookup_fmap, Hi.
  - intros Hx i Hi. destruct Hne as [Hne|?]; [|done]. rewrite R12, R11. unfold xstate_loaded. cbn [a' xsave].
    rewrite (proj2 (Z.eqb_neq _ _)) by done.
    assert (Hold : ∃ old, areas m !! xsave a = Some old) by (destruct (sc_area _ _ _ _ _ _ _ _ _ _ _ Hcall) as [?|[old ?]]; [done|by eexists]).
    destruct Hold as [old Hold].
    assert (E2 : areas m2 !! xsave a = Some (masked (wrap 32 xv) (xstate m) old)).
    { rewrite Harea, S11. unfold areas_saved. rewrite Hold, (proj2 (Z.eqb_neq _ _)) by done. apply lookup_insert_eq. }
    assert (E3 : areas_saved xv (xsave c) (xstate m2) (areas m2) !! xsave a = Some (masked (wrap 32 xv) (xstate m) old)).
    { unfold areas_saved. destruct (areas m2 !! xsave c); [|done]. destruct (xsave c =? 0); [done|]. by rewrite lookup_insert_ne. }
    rewrite E3. unfold masked. by rewrite Hi.
Qed.

(** C14: the stack that is prepared for a new thread makes the first switch to it return into
    [initialize_user_cpu], and from there the CPU goes to user mode at the thread's entry point, with
    its two arguments, its stack and interrupts enabled; the kernel stack is empty again and is the one
    that system calls and interrupts of the thread will use. *)
Theorem new_thread_enters_user callee init tramp t0 w s rip3 arg0 arg1 flags m xcr0 tA tB tss r0 r3 fl xv a :
  0 ≤ s → s + stack_bytes < 2 ^ 64 → (∀ i, 1006 ≤ i < 1024 → is_Some (w !! (s + 8 * i))) →
  ∃ t1 w1 t w', setup_kernel_stack t0 w s = Done (t1, w1) ∧ add_thunk_user tramp t1 w1 rip3 arg0 arg1 0 flags = Done (t, w') ∧
    same_outside [(s, stack_bytes)] w w' ∧
    (switch_call m xcr0 tA tB tss r0 r3 fl xv a (rsp t) → tcb_at (mem m) tB t →
     apart [(s, stack_bytes); (regs m RSP - 48, 48); (tA, 48); (gs m, 88); (tss, 12)] →
     (∀ x, s ≤ x < s + stack_bytes → mem m !! x = w' !! x) → has_area (areas m) (xsave t) → is_u64 (xsave t) →
     keeps callee init [(s, stack_bytes); (gs m, 88); (tss, 12)] →
     ∃ m1 m2, exec callee 0 (task_switch xcr0) m = Done (m1, Returned tramp) ∧
       exec callee 0 (initialize_user_cpu init ++ kernel_to_user_trampoline) m1 = Done (m2, User rip3 (Z.lor flags 0x200)) ∧
       regs m2 RDI = arg0 ∧ regs m2 RSI = arg1 ∧ regs m2 RSP = rsp3 t0 ∧ regs m2 RBP = rsp3 t0 ∧
       mem m2 !! (gs m + cpu_rsp0) = Some (s + stack_bytes - 16) ∧ mem m2 !! (tss + tss_rsp0) = Some (s + stack_bytes - 16) ∧
       gs m2 = other_gs m ∧ other_gs m2 = gs m).
Proof.
  intros H0 Hb Hs. destruct (new_stack_spec tramp t0 w s rip3 arg0 arg1 flags H0 Hb Hs)
    as (t1 & w1 & t & w' & E1 & E2 & T1 & T2 & T3 & T4 & T5 & T6 & T7 & Hst & Ho).
  exists t1, w1, t, w'. split; [done|]. split; [done|]. split; [done|]. intros Hcall Htcb Hap Hmem Har Hwd Hkeep.
  assert (Hsb : stack_bytes = 8192) by reflexivity.
  assert (Htgt : switch_target m tB t [0x15151515; 0x14141414; 0x13131313; 0x12121212; 0xbbbbbbbb; rsp0 t] tramp).
  { split; try done. intros i v Hi. pose proof (lookup_lt_Some _ _ _ Hi) as Hl. cbn [app length] in Hl. rewrite Hmem by lia. apply Hst.
    by destruct i as [|[|[|[|[|[|[|i]]]]]]]; try lia. }
  destruct (task_switch_spec callee _ _ _ _ _ _ _ _ _ _ _ _ _ Hcall Htgt) as (m1 & Hrun & [S1 S2 S3 S4 S5 S6 S7 S8 S9 [S10 S10'] S11 S12]).
  regions Hap. rewrite T1 in Hst. rewrite T1 in S1.
  destruct (enter_user_spec callee init m1 s w' tss tB t arg0 arg1 rip3 tramp) as (m2 & Hrun2 & P1 & P2 & P3 & P4 & P5 & P6 & P7 & P8);
    rewrite ?S10; try done.
  { by rewrite T3. }
  { rewrite S1. rewrite wrap_small by (unfold is_word; lia). lia. }
  { intros x Hx. rewrite <-Hmem by done. apply S8. apply (outside_of _ s stack_bytes); [disjoint_regions|lia]. }
  exists m1, m2. split; [done|]. rewrite T4 in Hrun2. split; [done|]. rewrite S10 in P5, P8. rewrite S10' in P7. rewrite T3 in P3, P4. done.
Qed.

(** ** Witnesses *)

(** Two threads: the TCBs at 0x20000 and 0x20100, the CPU's data at 0x20200, the TSS at 0x20300, a stack
    that ends at 0x20508, [xcr0_val] at 0x20600 and an area for each thread's extended state. *)
Definition demo_a : TCB := Tcb 0 0x20508 0x500 0x202 0x7000 0x900 0.
Definition demo_cells (b : TCB) : words :=
  list_to_map (zip ((λ i, 0x20000 + 8 * i) <$> seqZ 0 6) [rsp demo_a; rsp0 demo_a; rsp3 demo_a; rflags3 demo_a; pml4 demo_a; xsave demo_a] ++
    zip ((λ i, 0x20100 + 8 * i) <$> seqZ 0 6) [rsp b; rsp0 b; rsp3 b; rflags3 b; pml4 b; xsave b] ++
    [(0x20210, 0x20508); (0x20218, 0x700); (0x20220, 0x246); (0x20228, 0x20000); (0x20248, 0x20300); (0x20304, 0x20508); (0x20600, 7)] ++
    zip ((λ i, 0x204c8 + 8 * i) <$> seqZ 0 8) [0; 0; 0; 0; 0; 0; 0; 0x4444]).
Definition demo_regs (r : reg) : Z :=
  match r with RSP => 0x20500 | RDI => 0x20100 | RBX => 1 | RBP => 2 | R12 => 3 | R13 => 4 | R14 => 5 | R15 => 6 | _ => 0 end.
Definition demo_machine (w : words) : machine :=
  Machine demo_regs w 0x7000 0x20200 0x55 false false (λ i, 100 + i) {[0x900 := λ _, 0; 0x980 := λ _, 0]}.

Ltac demo_apart :=
  split; [rewrite !Forall_cons, Forall_nil; repeat split; by vm_compute
    |cbn [pairwise_disjoint]; rewrite ?Forall_cons, ?Forall_nil; repeat split; first [left; by vm_compute|right; by vm_compute]].
Ltac demo_words := unfold tcb_at; cbn [app];
  repeat (apply (proj2 (words_at_cons _ _ _ _)); split; [vm_compute; reflexivity|]); intros [|?] ? ?; discriminate.
Ltac demo_there := apply (bool_decide_eq_true_1 _); vm_compute; reflexivity.
Ltac demo_call := split; [demo_apart|intros i Hi; do 6 (destruct i as [|i]; [demo_there|]); lia|vm_compute; reflexivity|demo_words
  |split; vm_compute; reflexivity|demo_there|vm_compute; reflexivity|right; demo_there|by split; vm_compute].

(** The stack of the second thread, with the registers 11 to 16 and the address 0x5555. *)
Definition demo_b : TCB := Tcb 0x20700 0x20738 0x600 0x203 0x8000 0x980 0.
Definition demo_pair : words :=
  list_to_map (zip ((λ i, 0x20700 + 8 * i) <$> seqZ 0 7) [11; 12; 13; 14; 15; 16; 0x5555] ++ zip ((λ i, 0x206c8 + 8 * i) <$> seqZ 0 7) [0; 0; 0; 0; 0; 0; 0])
  ∪ demo_cells demo_b.
(** The machine in the second thread, which switches back. *)
Definition demo_mid : machine :=
  match exec (λ _ m, Done m) 0 (task_switch 0x20600) (demo_machine demo_pair) with Done (m, _) => m | _ => demo_machine ∅ end.
Definition demo_back : machine := put demo_mid RDI 0x20000.
Lemma demo_mid_eq m1 : exec (λ _ m, Done m) 0 (task_switch 0x20600) (demo_machine demo_pair) = Done (m1, Returned 0x5555) → m1 = demo_mid.
Proof. intros H. unfold demo_mid. by rewrite H. Qed.
Lemma demo_back_same : mem demo_back = mem demo_mid ∧ areas demo_back = areas demo_mid.
Proof. unfold demo_back. by destruct demo_mid. Qed.
#[local] Opaque demo_mid.
Lemma demo_back_call : switch_call demo_back 0x20600 0x20100 0x20000 0x20300 0x20738 0x600 0x203 7 demo_b (regs (demo_machine demo_pair) RSP - 48).
Proof. demo_call. Qed.
Lemma task_switch_roundtrip_witness :
  exec (λ _ m, Done m) 0 (task_switch 0x20600) (demo_machine demo_pair) = Done (demo_mid, Returned 0x5555) ∧ regs demo_mid R15 = 11 ∧
  ∃ m3, exec (λ _ m, Done m) 0 (task_switch 0x20600) demo_back = Done (m3, Returned 0x4444) ∧ regs m3 R15 = 6 ∧ xstate m3 1 = 101.
Proof.
  destruct (task_switch_roundtrip (λ _ m, Done m) (demo_machine demo_pair) 0x20600 0x20000 0x20100 0x20300 0x20508 0x700 0x246 7 0x5555
    demo_a demo_b [11; 12; 13; 14; 15; 16] 0x4444) as (m1 & H1 & H2 & H3).
  - demo_call.
  - split; [demo_words|demo_words|done|right; demo_there|by split; vm_compute].
  - vm_compute. reflexivity.
  - pose proof (demo_mid_eq m1 H1) as E. subst m1.
    split; [exact H1|]. split; [exact (H2 0%nat R15 11 eq_refl eq_refl)|].
    destruct (H3 demo_back 0x20100 0x20300 0x20738 0x600 0x203 demo_b) as (m3 & K1 & K2 & K3 & K4 & K5 & K6).
    + exact demo_back_call.
    + intros x _. by rewrite (proj1 demo_back_same).
    + by rewrite (proj2 demo_back_same).
    + left. clear. done.
    + exists m3. split; [exact K1|]. split; [exact (K3 R15 ltac:(clear; by apply (bool_decide_eq_true_1 _)))|].
      exact (K6 ltac:(clear; done) 1 eq_refl).
Defined.

(** The stack of a new thread. *)
Definition demo_section : words := list_to_map ((λ i, (0x10000 + 8 * i, 0)) <$> seqZ 1006 18).
Definition demo_t0 : TCB := Tcb 0 0 0x600 0 0x8000 0x980 0.
Definition demo_prepared : TCB * words :=
  match setup_kernel_stack demo_t0 demo_section 0x10000 with
  | Done (t1, w1) => match add_thunk_user 0x6666 t1 w1 0x400000 41 42 0 0 with Done x => x | _ => (demo_t0, ∅) end
  | _ => (demo_t0, ∅)
  end.
Definition demo_new : machine := demo_machine (demo_cells demo_prepared.1 ∪ demo_prepared.2).
Lemma demo_section_mapped i : 1006 ≤ i < 1024 → is_Some (demo_section !! (0x10000 + 8 * i)).
Proof.
  intros Hi. assert (H : Forall (λ i, is_Some (demo_section !! (0x10000 + 8 * i))) (seqZ 1006 18)) by (apply (bool_decide_eq_true_1 _); vm_compute; reflexivity).
  rewrite Forall_forall in H. apply H, elem_of_seqZ. lia.
Qed.
Lemma demo_cells_above x v : demo_cells demo_prepared.1 !! x = Some v → 0x20000 ≤ x.
Proof.
  intros H. assert (A : map_Forall (λ k _, 0x20000 ≤ k) (demo_cells demo_prepared.1)) by (apply (bool_decide_eq_true_1 _); vm_compute; reflexivity).
  by apply (A x v).
Qed.
Lemma demo_new_call : switch_call demo_new 0x20600 0x20000 0x20100 0x20300 0x20508 0x700 0x246 7 demo_a (rsp demo_prepared.1).
Proof. demo_call. Qed.
Lemma demo_new_tcb : tcb_at (mem demo_new) 0x20100 demo_prepared.1.
Proof. demo_words. Qed.
Lemma demo_new_apart : apart [(0x10000, stack_bytes); (regs demo_new RSP - 48, 48); (0x20000, 48); (gs demo_new, 88); (0x20300, 12)].
Proof. demo_apart. Qed.
Lemma demo_new_area : has_area (areas demo_new) (xsave demo_prepared.1) ∧ is_u64 (xsave demo_prepared.1).
Proof. split; [right; demo_there|by split; vm_compute]. Qed.
Lemma demo_new_stack x : 0x10000 ≤ x < 0x10000 + stack_bytes → mem demo_new !! x = demo_prepared.2 !! x.
Proof.
  intros Hx. unfold demo_new, demo_machine. cbn [mem]. apply lookup_union_r. destruct (demo_cells demo_prepared.1 !! x) eqn:Ex; [|done].
  apply demo_cells_above in Ex. change stack_bytes with 8192 in Hx. lia.
Qed.
Lemma demo_prepared_eq t1 w1 t w' :
  setup_kernel_stack demo_t0 demo_section 0x10000 = Done (t1, w1) → add_thunk_user 0x6666 t1 w1 0x400000 41 42 0 0 = Done (t, w') →
  t = demo_prepared.1 ∧ w' = demo_prepared.2.
Proof. intros E1 E2. unfold demo_prepared. by rewrite E1, E2. Qed.
Lemma new_thread_enters_user_witness :
  ∃ m1 m2, exec (λ _ m, Done m) 0 (task_switch 0x20600) demo_new = Done (m1, Returned 0x6666) ∧
    exec (λ _ m, Done m) 0 (initialize_user_cpu 0x77 ++ kernel_to_user_trampoline) m1 = Done (m2, User 0x400000 0x200) ∧
    regs m2 RDI = 41 ∧ regs m2 RSI = 42 ∧ regs m2 RSP = 0x600.
Proof.
  destruct (new_thread_enters_user (λ _ m, Done m) 0x77 0x6666 demo_t0 demo_section 0x10000 0x400000 41 42 0 demo_new 0x20600 0x20000 0x20100
    0x20300 0x20508 0x700 0x246 7 demo_a) as (t1 & w1 & t & w' & E1 & E2 & _ & H); [lia|vm_compute; reflexivity|exact demo_section_mapped|].
  destruct (demo_prepared_eq t1 w1 t w' E1 E2) as [-> ->]. destruct demo_new_area as [A1 A2].
  destruct (H demo_new_call demo_new_tcb demo_new_apart demo_new_stack A1 A2) as (m1 & m2 & H1 & H2 & H3 & H4 & H5 & _).
  - intros m. exists m. by repeat split.
  - exists m1, m2. exact (conj H1 (conj H2 (conj H3 (conj H4 H5)))).
Defined.
