(* ===== verification/SyscallEntry.v ===== *)
(** * The way of a system call

    Models [syscall_handler_prelude] of src/kernel/syscall.s with what follows it in the file, as a
    program of Machine.v: a jump to the end of the handler skips the code in between, and code that does
    not jump falls through to the next function, as in the file.  The SYSCALL instruction has put the
    return address in rcx and the flags in r11; the functions of the table are parameters.

    [syscall_roundtrip] shows that a call in the table gets its arguments and returns to the user's
    code with the user's stack, flags and registers, also when the thread slept in the call and went on
    on another CPU.  [invalid_syscall_derails] shows that the handler of unknown calls falls through to
    code that expects another stack, and [negative_syscall_escapes] that the signed comparison lets
    numbers through that lie before the table. *)
From S2P Require Import Prelude Machine ContextSwitch.

(** ** The program *)

Definition entry (counter : Z) : list instr :=
  [Swapgs; Store (Gs cpu_rsp3) RSP; Load RSP (Gs cpu_rsp0); Store (Gs cpu_rflags3) R11] ++
  (Push <$> [RCX; RBP]) ++ [Mov RBP RSP; Mov RCX R10] ++ (Push <$> [RBX; R12; R13; R14; R15; RBX]) ++ [Inc (Rel counter)].
(** The look-up in the table; both jumps go to [.bad_syscall]. *)
Definition dispatch (num_syscalls registry counter : Z) : list instr :=
  [CmpI RAX num_syscalls; Jge 8; Lea R11 registry; Load R11 (Indexed R11 RAX); CmpI R11 0; Je 4;
   CallR R11; AddI RSP 8; Inc (Rel counter); Jmp 11].
Definition bad_syscall (syscall_invalid : Z) : list instr := [Mov RDI RAX; Call syscall_invalid].
Definition syscall_text (num_syscalls registry enter sysret invalid init : Z) : list instr :=
  entry enter ++ dispatch num_syscalls registry sysret ++ bad_syscall invalid ++ initialize_user_cpu init ++ kernel_to_user_trampoline.

(** ** Entering the kernel *)

(** The CPU at [other_gs m], with the thread's kernel stack [r0], and the counters. *)
Record syscall_state (m : machine) (num registry enter sysret r0 r3 fl t tss : Z) : Prop := {
  ss_apart : apart [(r0 - 64, 64); (other_gs m, 88); (tss, 12); (enter, 8); (sysret, 8); (registry, 8 * num)];
  ss_cpu : cpu_at (mem m) (other_gs m) r0 r3 fl t tss;
  ss_tss : is_Some (mem m !! (tss + tss_rsp0));
  ss_room : room (mem m) r0 8;
  ss_enter : is_Some (mem m !! enter);
  ss_sysret : is_Some (mem m !! sysret);
  ss_num : 0 < num < 2 ^ 31;
  ss_words : ∀ r, is_u64 (regs m r);
  ss_top : r0 < 2 ^ 64;
}.
(** The frame on the kernel stack: the seventh argument, the saved registers and the return address. *)
Definition frame (m : machine) : list Z :=
  [regs m RBX; regs m R15; regs m R14; regs m R13; regs m R12; regs m RBX; regs m RBP; regs m RCX].
(** The machine in the kernel. *)
Record entered (m m1 : machine) (enter r0 t tss : Z) : Prop := {
  en_rsp : regs m1 RSP = r0 - 64;
  en_rcx : regs m1 RCX = regs m R10;
  en_regs r : r ∈ [RAX; RBX; RDX; RSI; RDI; R8; R9; R10; R12; R13; R14; R15] → regs m1 r = regs m r;
  en_frame : words_at (mem m1) (r0 - 64) (frame m);
  en_cpu : cpu_at (mem m1) (other_gs m) r0 (regs m RSP) (regs m R11) t tss;
  en_same : same_outside [(r0 - 64, 64); (other_gs m, 88); (enter, 8)] (mem m) (mem m1);
  en_there x : is_Some (mem m !! x) → is_Some (mem m1 !! x);
  en_gs : gs m1 = other_gs m ∧ other_gs m1 = gs m;
}.

Section entry.
Context (callee : Z → machine → outcome machine).
Abbreviation run := (exec callee 0).

(** The user's stack and flags are kept in the CPU's data, and the kernel stack is taken from it. *)
Lemma entry_cpu_spec m code r0 r3 fl t tss :
  region_ok (other_gs m, 88) → cpu_at (mem m) (other_gs m) r0 r3 fl t tss →
  ∃ m0, run (Swapgs :: Store (Gs cpu_rsp3) RSP :: Load RSP (Gs cpu_rsp0) :: Store (Gs cpu_rflags3) R11 :: code) m = run code m0 ∧
    regs m0 RSP = r0 ∧ (∀ r, r ≠ RSP → regs m0 r = regs m r) ∧
    cpu_at (mem m0) (other_gs m) r0 (regs m RSP) (regs m R11) t tss ∧ same_outside [(other_gs m, 88)] (mem m) (mem m0) ∧
    (∀ x, is_Some (mem m !! x) → is_Some (mem m0 !! x)) ∧ gs m0 = other_gs m ∧ other_gs m0 = gs m.
Proof.
  intros Hg [C1 C2 C3 C4 C5]. set (g := other_gs m) in *.
  erewrite (exec_next _ Swapgs _ _ _ 0); [|reflexivity].
  unfold cpu_rsp0, cpu_rsp3, cpu_rflags3, cpu_tcb, cpu_tss in *.
  erewrite (exec_store _ _ _ _ _ (g + 24)) by (cbn [address]; reg_simp; rewrite ?(wrap_at _ _ 88 Hg) by lia; first [reflexivity|by eexists]). reg_simp.
  erewrite (exec_load _ _ _ _ _ r0) by (cbn [address]; reg_simp; rewrite (wrap_at _ _ 88 Hg) by lia; rewrite lookup_insert_ne by lia; done).
  erewrite (exec_store _ _ _ _ _ (g + 32)) by (cbn [address]; reg_simp; rewrite ?(wrap_at _ _ 88 Hg) by lia;
    first [reflexivity|apply lookup_insert_is_Some'; right; by eexists]). reg_simp.
  set (w0 := <[g + 32 := _]> _). eexists. split; [reflexivity|]. split; [by reg_simp|].
  split; [intros r Hr; cbn; by rewrite set_reg_ne|]. cbn [mem with_mem]. split; [|split; [|split; [|done]]].
  - split; unfold cpu_rsp0, cpu_rsp3, cpu_rflags3, cpu_tcb, cpu_tss, w0;
      repeat first [rewrite lookup_insert_eq | rewrite lookup_insert_ne by lia]; done.
  - intros x Hx. rewrite outside_cons, outside_nil in Hx. unfold w0. by rewrite !lookup_insert_ne by lia.
  - intros x Hx. unfold w0. by repeat (apply lookup_insert_is_Some'; right).
Qed.

(** The frame is pushed, and the fourth argument moved. *)
Lemma entry_push_spec m0 code enter r0 :
  region_ok (r0 - 64, 64) → disjoint (r0 - 64, 64) (enter, 8) → r0 < 2 ^ 64 → regs m0 RSP = r0 → room (mem m0) r0 8 → is_Some (mem m0 !! enter) →
  ∃ m1, run ((Push <$> [RCX; RBP]) ++ [Mov RBP RSP; Mov RCX R10] ++ (Push <$> [RBX; R12; R13; R14; R15; RBX]) ++ [Inc (Rel enter)] ++ code) m0 = run code m1 ∧
    regs m1 RSP = r0 - 64 ∧ regs m1 RCX = regs m0 R10 ∧ (∀ r, r ∉ [RSP; RBP; RCX] → regs m1 r = regs m0 r) ∧
    words_at (mem m1) (r0 - 64) (frame m0) ∧ same_outside [(r0 - 64, 64); (enter, 8)] (mem m0) (mem m1) ∧
    (∀ x, is_Some (mem m0 !! x) → is_Some (mem m1 !! x)) ∧ gs m1 = gs m0 ∧ other_gs m1 = other_gs m0.
Proof.
  intros (R1 & _ & R2) De Htop S0 Hroom Hen. cbn [fst snd] in R1, R2.
  edestruct (exec_pushes callee [RCX; RBP] m0) as (f1 & w1 & Hrun1 & Hf1 & Hfr1 & Hw1 & Ho1 & Hk1);
    [by apply (bool_decide_eq_true_1 _)|intros i Hi; rewrite S0; apply Hroom; cbn [length] in Hi; lia|cbn [length]; lia|].
  rewrite Hrun1. clear Hrun1. cbn [app].
  change (8 * Z.of_nat (length [RCX; RBP])) with 16 in *. rewrite S0 in Hf1. rewrite Hf1 in Hw1, Ho1.
  erewrite (exec_next _ (Mov RBP RSP) _ _ _ 0); [|reflexivity]. erewrite (exec_next _ (Mov RCX R10) _ _ _ 0); [|reflexivity]. reg_simp.
  set (m1 := put _ RCX _).
  assert (S1 : regs m1 RSP = r0 - 16) by (unfold m1; reg_simp; done).
  assert (F1 : ∀ r, r ∉ [RSP; RBP; RCX] → regs m1 r = regs m0 r).
  { intros r Hr. rewrite !not_elem_of_cons in Hr. destruct Hr as (? & ? & ? & _). unfold m1. cbn. rewrite !set_reg_ne by done. by apply Hfr1. }
  edestruct (exec_pushes callee [RBX; R12; R13; R14; R15; RBX] m1)
    as (f2 & w2 & Hrun2 & Hf2 & Hfr2 & Hw2 & Ho2 & Hk2); [by apply (bool_decide_eq_true_1 _)| |cbn [length]; lia|].
  { intros i Hi. rewrite S1. cbn [length] in Hi. apply Hk1. destruct (Hroom (2 + i)%nat ltac:(lia)) as [y Hy]. exists y. rewrite <-Hy. f_equal. lia. }
  rewrite Hrun2. clear Hrun2. change (8 * Z.of_nat (length [RBX; R12; R13; R14; R15; RBX])) with 48 in *.
  rewrite S1 in Hf2. rewrite Hf2 in Hw2, Ho2. replace (r0 - 16 - 48) with (r0 - 64) in * by lia.
  destruct (Hk2 _ (Hk1 _ Hen)) as [n Hn]. set (m2 := with_mem _ w2).
  erewrite (exec_next _ (Inc (Rel enter)) _ _ _ 0); [|cbn [step]; unfold load, store; cbn [address]; change (mem m2) with w2; rewrite Hn; reflexivity].
  eexists. split; [reflexivity|]. cbn [regs mem gs other_gs with_mem with_regs m2]. split; [done|].
  split; [rewrite Hfr2 by done; unfold m1; reg_simp; by apply Hfr1|].
  split; [intros r Hr; rewrite Hfr2; [by apply F1|by apply not_elem_of_cons in Hr as [? _]]|]. split; [|split; [|split; [|done]]].
  - unfold frame. cbn [fmap list_fmap reverse rev_append] in Hw1, Hw2. rewrite !F1 in Hw2 by (by apply (bool_decide_eq_true_1 _)).
    assert (Hall : words_at w2 (r0 - 64) ([regs m0 RBX; regs m0 R15; regs m0 R14; regs m0 R13; regs m0 R12; regs m0 RBX] ++ [regs m0 RBP; regs m0 RCX])).
    { apply words_at_app. split; [done|]. cbn [length]. replace (r0 - 64 + 8 * Z.of_nat 6) with (r0 - 16) by lia.
      apply (words_at_same _ _ _ _ _ Ho2); [|done]. intros i Hi. cbn [length] in Hi. rewrite outside_cons, outside_nil. lia. }
    intros i v Hi. pose proof (lookup_lt_Some _ _ _ Hi) as Hl. cbn [length] in Hl.
    rewrite lookup_insert_ne by (destruct De as [De|De]; cbn [fst snd] in De; lia). by apply Hall.
  - intros x Hx. rewrite !outside_cons, outside_nil in Hx. rewrite lookup_insert_ne by lia.
    rewrite Ho2 by (rewrite outside_cons, outside_nil; lia). apply Ho1. rewrite outside_cons, outside_nil. lia.
  - intros x Hx. apply lookup_insert_is_Some'. right. by apply Hk2, Hk1.
Qed.

Lemma syscall_entry_spec m code num registry enter sysret r0 r3 fl t tss :
  syscall_state m num registry enter sysret r0 r3 fl t tss →
  ∃ m1, run (entry enter ++ code) m = run code m1 ∧ entered m m1 enter r0 t tss.
Proof.
  intros [Hap Hc Htss Hroom Hen Hsy Hnum Hwords Htop]. regions Hap. unfold entry. rewrite <-!app_assoc. cbn [app].
  edestruct (entry_cpu_spec m) as (m0 & -> & S0 & F0 & C0 & O0 & K0 & G0 & G0'); [done|exact Hc|].
  edestruct (entry_push_spec m0 code enter r0) as (m1 & Hrun & S1 & Hcx & F1 & W1 & O1 & K1 & G1 & G1'); [done|done|done|done| |by apply K0|].
  { intros i Hi. by apply K0, Hroom. }
  exists m1. split; [exact Hrun|]. clear Hrun. split; rewrite ?G1, ?G1'.
  - done.
  - by rewrite Hcx, F0.
  - intros r Hr. repeat (apply elem_of_cons in Hr as [->|Hr]; [rewrite F1 by (by apply (bool_decide_eq_true_1 _)); by apply F0|]). by apply not_elem_of_nil in Hr.
  - unfold frame in *. by rewrite !F0 in W1 by done.
  - destruct C0 as [C1 C2 C3 C4 C5]. unfold cpu_rsp0, cpu_rsp3, cpu_rflags3, cpu_tcb, cpu_tss in *.
    split; unfold cpu_rsp0, cpu_rsp3, cpu_rflags3, cpu_tcb, cpu_tss; (rewrite O1; [done|apply (outside_of _ (other_gs m) 88); [disjoint_regions|lia]]).
  - intros x Hx. rewrite !outside_cons, outside_nil in Hx. rewrite O1, O0 by (rewrite ?outside_cons, outside_nil; tauto). done.
  - intros x Hx. by apply K1, K0.
  - done.
Qed.
End entry.

(** ** The call *)

(** The machine after a function of the table has returned: the ABI's registers, the frame and the
    user's stack and flags are kept, on a CPU that may be another one. *)
Record returns (m m1 m2 : machine) (sysret r0 r0' t' tss' : Z) : Prop := {
  rt_regs r : r ∈ RSP :: callee_saved → regs m2 r = regs m1 r;
  rt_frame : words_at (mem m2) (r0 - 64) (frame m);
  rt_cpu : cpu_at (mem m2) (gs m2) r0' (regs m RSP) (regs m R11) t' tss';
  rt_tss : is_Some (mem m2 !! (tss' + tss_rsp0));
  rt_sysret : is_Some (mem m2 !! sysret);
  rt_apart : apart [(r0 - 64, 64); (gs m2, 88); (tss', 12); (sysret, 8)];
  rt_gs : other_gs m2 = other_gs m1;
}.

Section call.
Context (callee : Z → machine → outcome machine).
Abbreviation run := (exec callee 0).
Context (num registry enter sysret invalid init : Z).
Abbreviation text := (syscall_text num registry enter sysret invalid init).

(** The way to the function that the table has at [rax]. *)
Lemma dispatch_spec m1 code f :
  signed64 (regs m1 RAX) < signed64 num → mem m1 !! u64 (registry + regs m1 RAX * 8) = Some f → f ≠ 0 →
  ∃ mc, run (dispatch num registry sysret ++ code) m1 =
      (let* m2 := callee f mc in run ([AddI RSP 8; Inc (Rel sysret); Jmp 11] ++ code) m2) ∧
    mem mc = mem m1 ∧ gs mc = gs m1 ∧ other_gs mc = other_gs m1 ∧ (∀ r, r ≠ R11 → regs mc r = regs m1 r).
Proof.
  intros Hlt Hf Hne. unfold dispatch. cbn [app].
  erewrite (exec_next _ (CmpI RAX num) _ _ _ 0); [|reflexivity]. unfold compare. rewrite (proj2 (Z.ltb_lt _ _) Hlt).
  erewrite (exec_next _ (Jge 8) _ _ _ 0); [|reflexivity]. erewrite (exec_next _ (Lea R11 registry) _ _ _ 0); [|reflexivity].
  rewrite (exec_load _ _ _ _ _ f) by (cbn [address]; reg_simp; done).
  erewrite (exec_next _ (CmpI R11 0) _ _ _ 0); [|reflexivity]. unfold compare. reg_simp. rewrite (proj2 (Z.eqb_neq f 0)) by done.
  erewrite (exec_next _ (Je 4) _ _ _ 0); [|reflexivity]. set (mc := with_flags _ _ _).
  exists mc. split; [|split; [done|]; split; [done|]; split; [done|]; intros r Hr; cbn; by rewrite !set_reg_ne by congruence].
  cbn [exec step]. assert (E : regs mc R11 = f) by (unfold mc; by reg_simp). rewrite E. by destruct (callee f mc).
Qed.

(** The way to [.bad_syscall]. *)
Lemma bad_dispatch_spec m1 code :
  signed64 num ≤ signed64 (regs m1 RAX) → ∃ z l, run (dispatch num registry sysret ++ code) m1 = run code (with_flags m1 z l).
Proof.
  intros Hge. unfold dispatch. cbn [app]. erewrite (exec_next _ (CmpI RAX num) _ _ _ 0); [|reflexivity]. unfold compare.
  rewrite (proj2 (Z.ltb_ge _ _) Hge). erewrite (exec_next _ (Jge 8) _ _ _ 8); [|reflexivity]. eexists _, _.
  exact (exec_skip callee [Lea R11 registry; Load R11 (Indexed R11 RAX); CmpI R11 0; Je 4; CallR R11; AddI RSP 8; Inc (Rel sysret); Jmp 11] code _).
Qed.

(** Back to the user's code. *)
Lemma return_spec m m1 m2 r0 r0' t' tss' :
  returns m m1 m2 sysret r0 r0' t' tss' → regs m1 RSP = r0 - 64 → r0 < 2 ^ 64 →
  ∃ m', run ([AddI RSP 8; Inc (Rel sysret); Jmp 11] ++ bad_syscall invalid ++ initialize_user_cpu init ++ kernel_to_user_trampoline) m2
      = Done (m', User (regs m RCX) (regs m R11)) ∧
    regs m' RSP = regs m RSP ∧ (∀ r, r ∈ callee_saved → regs m' r = regs m r) ∧ regs m' RAX = regs m2 RAX ∧
    gs m' = other_gs m1 ∧ other_gs m' = gs m2 ∧ mem m' !! (gs m2 + cpu_rsp0) = Some r0.
Proof.
  intros [Rr Rf Rc Rt Rs Rap Rg] Hsp Htop. regions Rap. cbn [app].
  match goal with H : region_ok (r0 - 64, 64) |- _ => pose proof H as (R1 & _ & R2); cbn [fst snd] in R1, R2 end.
  assert (Hsp2 : regs m2 RSP = r0 - 64) by (rewrite Rr by (by left); done).
  erewrite (exec_next _ (AddI RSP 8) _ _ _ 0); [|reflexivity]. rewrite Hsp2, wrap_small by (unfold is_word; lia).
  destruct Rs as [n Hn]. erewrite (exec_next _ (Inc (Rel sysret)) _ _ _ 0); [|cbn [step]; unfold load, store; cbn [address]; reg_simp; rewrite Hn; reflexivity].
  erewrite (exec_next _ (Jmp 11) _ _ _ 11); [|reflexivity].
  rewrite app_assoc. change 11%nat with (length (bad_syscall invalid ++ initialize_user_cpu init)). rewrite exec_skip. reg_simp.
  set (w3 := <[sysret := _]> _). set (m3 := with_mem _ w3).
  assert (Ho : same_outside [(sysret, 8)] (mem m2) w3) by (apply same_outside_insert; rewrite outside_cons, outside_nil; lia).
  assert (Gw : ∀ off, 0 ≤ off < 88 → w3 !! (gs m2 + off) = mem m2 !! (gs m2 + off)) by (intros off Hx; apply Ho, (outside_of _ (gs m2) 88); [disjoint_regions|lia]).
  assert (Hf3 : words_at w3 (r0 - 64) (frame m)) by (apply (words_at_outside _ _ _ _ 64 _ Ho); [disjoint_regions|cbn; lia|done]).
  unfold frame in Hf3. apply words_at_cons in Hf3 as [_ Hf3].
  destruct (trampoline_spec callee m3 [regs m R15; regs m R14; regs m R13; regs m R12; regs m RBX; regs m RBP; regs m RCX] r0' (regs m RSP) (regs m R11) t' tss')
    as (m' & rip & Hrun & Hrip & Hsp' & Hrs & Hfr & Hmem & Hgs & Hog & _).
  { replace (regs m3 RSP) with (r0 - 64 + 8) by (unfold m3; reg_simp; done). exact Hf3. }
  { done. } { unfold m3. reg_simp. lia. } { unfold m3. reg_simp. lia. } { done. } { done. } { done. }
  { destruct Rc as [C1 C2 C3 C4 C5]. unfold cpu_rsp0, cpu_rsp3, cpu_rflags3, cpu_tcb, cpu_tss in *. change (mem m3) with w3. change (gs m3) with (gs m2).
    split; unfold cpu_rsp0, cpu_rsp3, cpu_rflags3, cpu_tcb, cpu_tss; rewrite Gw by lia; done. }
  { change (mem m3) with w3. apply lookup_insert_is_Some'. by right. }
  injection Hrip as <-. exists m'. split; [exact Hrun|]. split; [done|]. split; [|split; [|split; [|split]]].
  - intros r Hr. unfold callee_saved in Hr.
    repeat (apply elem_of_cons in Hr as [->|Hr]; [first [by apply (Hrs 0%nat)|by apply (Hrs 1%nat)|by apply (Hrs 2%nat)|by apply (Hrs 3%nat)|by apply (Hrs 4%nat)|by apply (Hrs 5%nat)]|]).
    by apply not_elem_of_nil in Hr.
  - rewrite Hfr by (by left). unfold m3. by reg_simp.
  - rewrite Hgs. unfold m3. reg_simp. done.
  - by rewrite Hog.
  - rewrite Hmem. change (gs m3) with (gs m2). rewrite lookup_insert_eq. f_equal. unfold m3. reg_simp. lia.
Qed.
End call.

(** ** Theorems *)

Lemma signed64_small v : 0 ≤ v < 2 ^ 63 → signed64 v = v.
Proof. intros Hv. unfold signed64. by rewrite (proj2 (Z.ltb_lt _ _)) by lia. Qed.
Lemma entered_word m m1 enter r0 t tss x v :
  entered m m1 enter r0 t tss → outside [(r0 - 64, 64); (other_gs m, 88); (enter, 8)] x → mem m !! x = Some v → mem m1 !! x = Some v.
Proof. intros E Hx Hv. by rewrite (en_same _ _ _ _ _ _ E). Qed.
(** Only rax, r11 and the flags tell the machine at the call from the one that entered. *)
Lemma entered_same m m1 mc enter r0 t tss :
  entered m m1 enter r0 t tss → mem mc = mem m1 → gs mc = gs m1 → other_gs mc = other_gs m1 → (∀ r, r ≠ R11 → regs mc r = regs m1 r) →
  entered m mc enter r0 t tss.
Proof.
  intros [E1 E2 E3 E4 E5 E6 E7 E8] Hm Hg Ho Hr. split; rewrite ?Hm, ?Hg, ?Ho; try done; [by rewrite Hr..|].
  intros r Hin. rewrite Hr; [by apply E3|]. intros ->. revert Hin. by apply (bool_decide_eq_true_1 _).
Qed.

(** C15: a system call in the table runs the table's function with the user's arguments, the fourth one
    taken from r10 and the seventh one on the stack.  When the function returns, the user's code goes on
    behind its SYSCALL with its own stack, flags and saved registers and the function's result; the
    kernel stack of the CPU it is on is the thread's, and empty. *)
Theorem syscall_roundtrip callee m num registry enter sysret invalid init r0 r3 fl t tss f :
  syscall_state m num registry enter sysret r0 r3 fl t tss →
  regs m RAX < num → mem m !! (registry + 8 * regs m RAX) = Some f → f ≠ 0 →
  (∀ m1, entered m m1 enter r0 t tss → ∃ m2 r0' t' tss', callee f m1 = Done m2 ∧ returns m m1 m2 sysret r0 r0' t' tss') →
  ∃ m1 m2 m', entered m m1 enter r0 t tss ∧ callee f m1 = Done m2 ∧
    exec callee 0 (syscall_text num registry enter sysret invalid init) m = Done (m', User (regs m RCX) (regs m R11)) ∧
    regs m' RSP = regs m RSP ∧ (∀ r, r ∈ callee_saved → regs m' r = regs m r) ∧ regs m' RAX = regs m2 RAX ∧
    gs m' = gs m ∧ other_gs m' = gs m2 ∧ mem m' !! (gs m2 + cpu_rsp0) = Some r0.
Proof.
  intros Hs Hlt Hreg Hf Hfun. pose proof (ss_num _ _ _ _ _ _ _ _ _ _ Hs) as Hnum. pose proof (ss_words _ _ _ _ _ _ _ _ _ _ Hs RAX) as [Hrax _].
  pose proof (ss_apart _ _ _ _ _ _ _ _ _ _ Hs) as Hap. regions Hap.
  assert (Hrg : 0 ≤ registry ∧ registry + 8 * num ≤ 2 ^ 64) by (match goal with H : region_ok (registry, _) |- _ => destruct H as (? & _ & ?) end; done).
  destruct (syscall_entry_spec callee m (dispatch num registry sysret ++ bad_syscall invalid ++ initialize_user_cpu init ++ kernel_to_user_trampoline)
    _ _ _ _ _ _ _ _ _ Hs) as (m1 & Hrun1 & He).
  assert (Hax : regs m1 RAX = regs m RAX) by (apply (en_regs _ _ _ _ _ _ He); by left).
  destruct (dispatch_spec callee num registry sysret m1 (bad_syscall invalid ++ initialize_user_cpu init ++ kernel_to_user_trampoline) f)
    as (mc & Hrun2 & Hm & Hg & Ho & Hr).
  { rewrite Hax, !signed64_small by lia. done. }
  { rewrite Hax, wrap_small by (unfold is_word; lia). rewrite Z.mul_comm. apply (entered_word _ _ _ _ _ _ _ _ He); [|done].
    apply (outside_of _ registry (8 * num)); [disjoint_regions|lia]. }
  { done. }
  pose proof (entered_same _ _ _ _ _ _ _ He Hm Hg Ho Hr) as Hec.
  destruct (Hfun mc Hec) as (m2 & r0' & t' & tss' & Hcall & Hret).
  destruct (return_spec callee sysret invalid init m mc m2 r0 r0' t' tss' Hret (en_rsp _ _ _ _ _ _ Hec) (ss_top _ _ _ _ _ _ _ _ _ _ Hs)) as (m' & Hrun3 & P1 & P2 & P3 & P4 & P5 & P6).
  exists mc, m2, m'. split; [done|]. split; [done|]. split; [|split; [done|split; [done|split; [done|split; [|done]]]]].
  - unfold syscall_text. rewrite Hrun1, Hrun2, Hcall. exact Hrun3.
  - rewrite P4, (proj2 (en_gs _ _ _ _ _ _ Hec)). done.
Qed.

(** C34: a number of 2^64 - k passes the comparison, which is signed, and the word k places before the
    table is called as a function with what the user put in the registers. *)
Theorem negative_syscall_escapes callee m num registry enter sysret invalid init r0 r3 fl t tss k f :
  syscall_state m num registry enter sysret r0 r3 fl t tss →
  1 ≤ k → 8 * k ≤ registry → regs m RAX = 2 ^ 64 - k → outside [(r0 - 64, 64); (other_gs m, 88); (enter, 8)] (registry - 8 * k) →
  mem m !! (registry - 8 * k) = Some f → f ≠ 0 →
  ∃ mc, entered m mc enter r0 t tss ∧
    exec callee 0 (syscall_text num registry enter sysret invalid init) m =
    (let* m2 := callee f mc in
     exec callee 0 ([AddI RSP 8; Inc (Rel sysret); Jmp 11] ++ bad_syscall invalid ++ initialize_user_cpu init ++ kernel_to_user_trampoline) m2).
Proof.
  intros Hs Hk Hkr Hax Hout Hw Hf. pose proof (ss_num _ _ _ _ _ _ _ _ _ _ Hs) as Hnum.
  pose proof (ss_apart _ _ _ _ _ _ _ _ _ _ Hs) as Hap. regions Hap.
  assert (Hrg : 0 ≤ registry ∧ registry + 8 * num ≤ 2 ^ 64) by (match goal with H : region_ok (registry, _) |- _ => destruct H as (? & _ & ?) end; done).
  destruct (syscall_entry_spec callee m (dispatch num registry sysret ++ bad_syscall invalid ++ initialize_user_cpu init ++ kernel_to_user_trampoline)
    _ _ _ _ _ _ _ _ _ Hs) as (m1 & Hrun1 & He).
  assert (Hax1 : regs m1 RAX = 2 ^ 64 - k) by (rewrite (en_regs _ _ _ _ _ _ He) by (by left); done).
  destruct (dispatch_spec callee num registry sysret m1 (bad_syscall invalid ++ initialize_user_cpu init ++ kernel_to_user_trampoline) f)
    as (mc & Hrun2 & Hm & Hg & Ho & Hr).
  { rewrite Hax1, (signed64_small num) by lia. unfold signed64. rewrite (proj2 (Z.ltb_ge _ _)) by lia. lia. }
  { rewrite Hax1. assert (E : u64 (registry + (2 ^ 64 - k) * 8) = registry - 8 * k).
    { replace (registry + (2 ^ 64 - k) * 8) with (registry - 8 * k + 8 * 2 ^ 64) by lia. unfold wrap. rewrite Z.mod_add by lia. apply Z.mod_small. lia. }
    rewrite E. by apply (entered_word _ _ _ _ _ _ _ _ He). }
  { done. }
  exists mc. split; [by apply (entered_same _ _ _ _ _ _ _ He)|]. unfold syscall_text. by rewrite Hrun1, Hrun2.
Qed.

(** The code behind the handler run on the frame of a system call: it pops two words more than there
    are for it. *)
Lemma fall_through_spec callee init m m2 r0 t tss x :
  keeps callee init [(r0 - 64, 72); (gs m2, 88); (tss, 12)] →
  apart [(r0 - 64, 72); (gs m2, 88); (tss, 12)] → regs m2 RSP = r0 - 64 → words_at (mem m2) (r0 - 64) (frame m ++ [x]) →
  cpu_at (mem m2) (gs m2) r0 (regs m RSP) (regs m R11) t tss → is_Some (mem m2 !! (tss + tss_rsp0)) → r0 + 8 < 2 ^ 64 →
  ∃ m', exec callee 0 (initialize_user_cpu init ++ kernel_to_user_trampoline) m2 = Done (m', User x (regs m R11)) ∧
    regs m' RBX = regs m RBP ∧ regs m' RBP = regs m RCX ∧ regs m' R15 = regs m R14 ∧ regs m' RSP = regs m RSP ∧
    mem m' !! (gs m2 + cpu_rsp0) = Some (r0 + 8).
Proof.
  intros Hkeep Hap Hsp Hw Hcpu Hts Htop. regions Hap. unfold initialize_user_cpu. rewrite <-app_assoc. cbn [app].
  match goal with H : region_ok (r0 - 64, 72) |- _ => pose proof H as (R1 & _ & R2); cbn [fst snd] in R1, R2 end.
  destruct (Hkeep m2) as (m3 & Hcall & Hregs & Hgs3 & Hog3 & Hk).
  assert (Hin : ∀ a k y, (a, k) ∈ [(r0 - 64, 72); (gs m2, 88); (tss, 12)] → a ≤ y < a + k → mem m3 !! y = mem m2 !! y).
  { intros a k y Ha Hy. apply Hk, Exists_exists. exists (a, k). split; [done|]. exact Hy. }
  erewrite (exec_next _ (Call init)); [|cbn [step]; rewrite Hcall; reflexivity].
  do 6 (erewrite (exec_next _ (MovI _ _)); [|reflexivity]). set (m4 := put _ _ _).
  assert (Hsp4 : regs m4 RSP = r0 - 64) by (unfold m4; reg_simp; rewrite Hregs by (by left); done).
  assert (Hw4 : words_at (mem m4) (r0 - 64) (frame m ++ [x])).
  { change (mem m4) with (mem m3). apply (words_at_kept (mem m2) _ (r0 - 64) 72 _ _ Hk ltac:(by left)); [lia|cbn; lia|done]. }
  destruct (exec_pops callee [RDI; RSI] [regs m RBX; regs m R15] m4 kernel_to_user_trampoline) as (f & Hrun & Hf & Hrs & _);
    [done|by apply (bool_decide_eq_true_1 _)|by apply (bool_decide_eq_true_1 _)| |lia|cbn [length]; lia|].
  { rewrite Hsp4. intros i v Hi. apply Hw4. by destruct i as [|[|i]]. }
  cbn [fmap list_fmap app] in Hrun. cbn [fmap list_fmap app]. rewrite Hrun. change (8 * Z.of_nat (length [RDI; RSI])) with 16 in Hf. rewrite Hsp4 in Hf.
  destruct (trampoline_spec callee (with_regs m4 f) [regs m R14; regs m R13; regs m R12; regs m RBX; regs m RBP; regs m RCX; x] r0 (regs m RSP) (regs m R11) t tss)
    as (m5 & rip & Hrun5 & Hrip & Hsp5 & Hrs5 & _ & Hmem5 & _).
  { cbn [regs with_regs mem]. rewrite Hf. intros i v Hi. specialize (Hw4 (2 + i)%nat v). rewrite <-Hw4; [f_equal; lia|]. exact Hi. }
  { done. } { cbn. lia. } { cbn. lia. } { cbn. by rewrite Hgs3. } { done. } { cbn. by rewrite Hgs3. }
  { destruct Hcpu as [C1 C2 C3 C4 C5]. change (mem (with_regs m4 f)) with (mem m3). change (gs (with_regs m4 f)) with (gs m3). rewrite Hgs3.
    unfold cpu_rsp0, cpu_rsp3, cpu_rflags3, cpu_tcb, cpu_tss in *.
    split; unfold cpu_rsp0, cpu_rsp3, cpu_rflags3, cpu_tcb, cpu_tss; (rewrite (Hin (gs m2) 88); [done|by right; left|lia]). }
  { change (mem (with_regs m4 f)) with (mem m3). rewrite (Hin tss 12); [done|by right; right; left|unfold tss_rsp0; lia]. }
  injection Hrip as <-. exists m5. split; [exact Hrun5|]. rewrite (Hrs5 4%nat RBX (regs m RBP)), (Hrs5 5%nat RBP (regs m RCX)), (Hrs5 0%nat R15 (regs m R14)) by done.
  do 3 (split; [done|]). split; [done|]. rewrite Hmem5. change (gs (with_regs m4 f)) with (gs m3). rewrite Hgs3, lookup_insert_eq. f_equal. cbn. lia.
Qed.

(** after a call with a number above the table the handler does not return an error: it runs into
    the code that starts new threads, which pops two words too many.  The user's code goes on at the
    address in the word above the kernel stack, which a new thread's stack has as 0, with its registers
    moved one place up, and the kernel stack of the CPU begins one word too high. *)
Theorem invalid_syscall_derails callee m num registry enter sysret invalid init r0 r3 fl t tss x :
  syscall_state m num registry enter sysret r0 r3 fl t tss →
  num ≤ regs m RAX < 2 ^ 63 → mem m !! r0 = Some x → apart [(r0 - 64, 72); (other_gs m, 88); (tss, 12); (enter, 8)] → r0 + 8 < 2 ^ 64 →
  keeps callee invalid [(r0 - 64, 72); (other_gs m, 88); (tss, 12)] → keeps callee init [(r0 - 64, 72); (other_gs m, 88); (tss, 12)] →
  ∃ m', exec callee 0 (syscall_text num registry enter sysret invalid init) m = Done (m', User x (regs m R11)) ∧
    regs m' RBX = regs m RBP ∧ regs m' RBP = regs m RCX ∧ regs m' R15 = regs m R14 ∧ regs m' RSP = regs m RSP ∧
    mem m' !! (other_gs m + cpu_rsp0) = Some (r0 + 8).
Proof.
  intros Hs Hax Hx Hap Htop Hinv Hinit. pose proof (ss_num _ _ _ _ _ _ _ _ _ _ Hs) as Hnum.
  destruct (syscall_entry_spec callee m (dispatch num registry sysret ++ bad_syscall invalid ++ initialize_user_cpu init ++ kernel_to_user_trampoline)
    _ _ _ _ _ _ _ _ _ Hs) as (m1 & Hrun1 & [E1 E2 E3 E4 E5 E6 E7 [E8 E9]]).
  assert (Hax1 : regs m1 RAX = regs m RAX) by (apply E3; by left). unfold syscall_text. rewrite Hrun1. clear Hrun1.
  destruct (bad_dispatch_spec callee num registry sysret m1 (bad_syscall invalid ++ initialize_user_cpu init ++ kernel_to_user_trampoline)) as (z & l & ->);
    [rewrite Hax1, !signed64_small by lia; lia|].
  cbn [bad_syscall app]. erewrite (exec_next _ (Mov RDI RAX) _ _ _ 0); [|reflexivity].
  set (m2 := put _ _ _). destruct (Hinv m2) as (m3 & Hcall & Hregs & Hgs3 & Hog3 & Hk).
  erewrite (exec_next _ (Call invalid)); [|cbn [step]; rewrite Hcall; reflexivity].
  assert (Hg3 : gs m3 = other_gs m) by (rewrite Hgs3; exact E8). destruct Hap as [Hok Hp]. cbn [pairwise_disjoint] in Hp.
  rewrite !Forall_cons, ?Forall_nil in Hok. rewrite !Forall_cons, ?Forall_nil in Hp. destruct_and?.
  assert (Hin : ∀ a k y, (a, k) ∈ [(r0 - 64, 72); (other_gs m, 88); (tss, 12)] → a ≤ y < a + k → mem m3 !! y = mem m1 !! y).
  { intros a k y Ha Hy. rewrite Hk; [done|]. apply Exists_exists. exists (a, k). split; [done|]. exact Hy. }
  assert (Hw1 : words_at (mem m1) (r0 - 64) (frame m ++ [x])).
  { apply words_at_app. split; [done|]. cbn [length frame]. replace (r0 - 64 + 8 * Z.of_nat 8) with r0 by lia. apply words_at_cons.
    split; [|by intros [|i] v Hi]. rewrite E6; [done|]. apply outside_cons. split; [lia|]. apply (outside_of _ (r0 - 64) 72); [disjoint_regions|lia]. }
  destruct (fall_through_spec callee init m m3 r0 t tss x) as (m' & Hrun & P); rewrite ?Hg3; [done|apart_again|..|done|].
  - rewrite Hregs by (by left). unfold m2. reg_simp. exact E1.
  - apply (words_at_kept (mem m2) _ (r0 - 64) 72 _ _ Hk ltac:(by left)); [lia|cbn; lia|exact Hw1].
  - destruct E5 as [C1 C2 C3 C4 C5]. unfold cpu_rsp0, cpu_rsp3, cpu_rflags3, cpu_tcb, cpu_tss in *.
    split; unfold cpu_rsp0, cpu_rsp3, cpu_rflags3, cpu_tcb, cpu_tss; (rewrite (Hin (other_gs m) 88); [done|by right; left|lia]).
  - rewrite (Hin tss 12); [by apply E7, (ss_tss _ _ _ _ _ _ _ _ _ _ Hs)|by right; right; left|unfold tss_rsp0; lia].
  - exists m'. split; [exact Hrun|]. by rewrite Hg3 in P.
Qed.

(** ** Witnesses *)

(** A table of four calls, of which number 2 is there, with a word 0x8888 before it. *)
Definition demo_table : words :=
  list_to_map ([(0x2fff8, 0x8888); (0x30000, 0); (0x30008, 0); (0x30010, 0x9999); (0x30018, 0); (0x30100, 10); (0x30108, 20);
    (0x20210, 0x20508); (0x20218, 0x700); (0x20220, 0x246); (0x20228, 0x20000); (0x20248, 0x20300); (0x20304, 0x20508); (0x20508, 0xbeef)] ++
    ((λ i, (0x204c8 + 8 * i, 0)) <$> seqZ 0 8)).
Definition demo_user (rax : Z) : machine :=
  Machine (λ r, match r with RAX => rax | RCX => 0x401000 | R11 => 0x202 | RSP => 0x700000 | RBX => 1 | RBP => 2 | R14 => 5 | R15 => 6 | _ => 0 end)
    demo_table 0x7000 0x55 0x20200 false false (λ _, 0) ∅.
(** The function of the table returns 77. *)
Definition demo_callee (f : Z) (m : machine) : outcome machine := Done (put m RAX 77).

Lemma demo_user_state rax : is_u64 rax → syscall_state (demo_user rax) 4 0x30000 0x30100 0x30108 0x20508 0x700 0x246 0x20000 0x20300.
Proof.
  intros Hrax. split.
  - demo_apart.
  - split; vm_compute; reflexivity.
  - exists 0x20508. vm_compute. reflexivity.
  - intros i Hi. exists 0. do 8 (destruct i as [|i]; [vm_compute; reflexivity|]). lia.
  - exists 10. vm_compute. reflexivity.
  - exists 20. vm_compute. reflexivity.
  - lia.
  - intros []; cbn [regs demo_user]; first [exact Hrax|split; by vm_compute].
  - lia.
Qed.
Lemma demo_callee_returns m1 :
  entered (demo_user 2) m1 0x30100 0x20508 0x20000 0x20300 → returns (demo_user 2) m1 (put m1 RAX 77) 0x30108 0x20508 0x20508 0x20000 0x20300.
Proof.
  intros [E1 E2 E3 E4 E5 E6 E7 [E8 E9]]. split.
  - intros r Hr. cbn. apply set_reg_ne. intros <-. revert Hr. by apply (bool_decide_eq_true_1 _).
  - exact E4.
  - cbn [gs put with_regs mem]. rewrite E8. exact E5.
  - apply E7. exists 0x20508. vm_compute. reflexivity.
  - apply E7. exists 20. vm_compute. reflexivity.
  - cbn [gs put with_regs]. rewrite E8. demo_apart.
  - reflexivity.
Qed.
Lemma syscall_roundtrip_witness :
  ∃ m', exec demo_callee 0 (syscall_text 4 0x30000 0x30100 0x30108 0x40 0x48) (demo_user 2) = Done (m', User 0x401000 0x202) ∧
    regs m' RSP = 0x700000 ∧ regs m' RAX = 77 ∧ gs m' = 0x55.
Proof.
  destruct (syscall_roundtrip demo_callee (demo_user 2) 4 0x30000 0x30100 0x30108 0x40 0x48 0x20508 0x700 0x246 0x20000 0x20300 0x9999)
    as (m1 & m2 & m' & He & Hc & H1 & H2 & _ & H3 & H4 & _).
  - apply demo_user_state. split; by vm_compute.
  - by vm_compute.
  - vm_compute. reflexivity.
  - discriminate.
  - intros m1 He. exists (put m1 RAX 77), 0x20508, 0x20000, 0x20300. exact (conj eq_refl (demo_callee_returns m1 He)).
  - exists m'. assert (E : regs m2 RAX = 77) by (injection Hc as <-; reflexivity).
    exact (conj H1 (conj H2 (conj (eq_trans H3 E) H4))).
Defined.

Lemma negative_syscall_escapes_witness :
  ∃ mc, entered (demo_user (2 ^ 64 - 1)) mc 0x30100 0x20508 0x20000 0x20300 ∧
    exec (λ f m, if f =? 0x8888 then Panic else Done m) 0 (syscall_text 4 0x30000 0x30100 0x30108 0x40 0x48) (demo_user (2 ^ 64 - 1)) = Panic.
Proof.
  destruct (negative_syscall_escapes (λ f m, if f =? 0x8888 then Panic else Done m) (demo_user (2 ^ 64 - 1)) 4 0x30000 0x30100 0x30108 0x40 0x48
    0x20508 0x700 0x246 0x20000 0x20300 1 0x8888) as (mc & He & H).
  - apply demo_user_state. split; by vm_compute.
  - lia.
  - lia.
  - reflexivity.
  - rewrite !outside_cons, outside_nil. cbn [other_gs demo_user]. lia.
  - vm_compute. reflexivity.
  - discriminate.
  - exists mc. exact (conj He H).
Defined.

Lemma invalid_syscall_derails_witness :
  ∃ m', exec (λ _ m, Done m) 0 (syscall_text 4 0x30000 0x30100 0x30108 0x40 0x48) (demo_user 4) = Done (m', User 0xbeef 0x202) ∧
    regs m' RBX = 2 ∧ mem m' !! (0x20200 + cpu_rsp0) = Some 0x20510.
Proof.
  destruct (invalid_syscall_derails (λ _ m, Done m) (demo_user 4) 4 0x30000 0x30100 0x30108 0x40 0x48 0x20508 0x700 0x246 0x20000 0x20300 0xbeef)
    as (m' & H1 & H2 & _ & _ & _ & H3).
  - apply demo_user_state. split; by vm_compute.
  - split; by vm_compute.
  - vm_compute. reflexivity.
  - demo_apart.
  - lia.
  - intros m. exists m. by repeat split.
  - intros m. exists m. by repeat split.
  - exists m'. exact (conj H1 (conj H2 H3)).
Defined.
