(* ===== verification/InterruptEntry.v ===== *)
(** * The way of an interrupt

    Models src/kernel/interrupts.s with push_all.inc as programs of Machine.v: the stubs that the table of
    vectors points to, the two preludes, which save the registers as a [cpu_state] and call the handler,
    and the return.  The processor has put the place to return to on the stack, and the error code for
    some exceptions; the handlers are parameters.

    [interrupt_roundtrip] shows that a handler finds the registers of the interrupted code in the
    structure that it gets, with the kernel's GS base in use, and that the code goes on with what the
    handler leaves in the structure. *)
From S2P Require Import Prelude Machine.

(** ** The program *)

(** [REGS], without what the processor and the stubs push *)
Definition reg_fields : list (reg * Z) :=
  [(RAX, 0x70); (RCX, 0x68); (RDX, 0x60); (RBX, 0x58); (RBP, 0x50); (RSI, 0x48); (RDI, 0x40);
   (R8, 0x38); (R9, 0x30); (R10, 0x28); (R11, 0x20); (R12, 0x18); (R13, 0x10); (R14, 0x08); (R15, 0x00)].
Definition field_int : Z := 0x78.
Definition field_err : Z := 0x80.
Definition field_rip : Z := 0x88.
Definition field_cs : Z := 0x90.
Definition regs_total_size : Z := 0xb0.
Definition regs_extra_size : Z := 0x78.

Definition push_all : list instr := SubI RSP regs_extra_size :: (store_at RSP <$> reg_fields).
Definition pop_all : list instr := (load_at RSP <$> reg_fields) ++ [AddI RSP regs_extra_size].
Definition check_swap_gs : list instr := [Load RAX (At RSP 0x90); AndI RAX 0x03; CmpI RAX 0x03; Jne 1; Swapgs].

(** The two instructions before the label [.real] are never executed. *)
Definition fake_prelude : list instr := [Push RBP; Mov RBP RSP].
Definition irq_handler_prelude (irq_handler : Z) : list instr :=
  fake_prelude ++ push_all ++ check_swap_gs ++ [Mov RDI RSP; Mov RSI RSP; Call irq_handler].
Definition isr_handler_prelude (isr_handler irq_handler : Z) : list instr :=
  fake_prelude ++ push_all ++ check_swap_gs ++ [Mov RDI RSP; Call isr_handler; Jmp (length (irq_handler_prelude irq_handler))].
Definition isr_handler_return : list instr := check_swap_gs ++ pop_all ++ [AddI RSP 16; Iretq].
Definition interrupt_text (isr_handler irq_handler : Z) : list instr :=
  isr_handler_prelude isr_handler irq_handler ++ irq_handler_prelude irq_handler ++ isr_handler_return.

(** [EMIT_ISR], [EMIT_EISR] and [EMIT_IRQ]; the jumps go to [.real] of a prelude. *)
Inductive stub := ISR | EISR | IRQ.
#[global] Instance stub_eq_dec : EqDecision stub.
Proof. solve_decision. Defined.
Definition stub_text (k : stub) (v : Z) (isr_handler irq_handler : Z) : list instr :=
  match k with
  | ISR => [PushI 0; PushI v; Jmp 2]
  | EISR => [PushI v; Jmp 2]
  | IRQ => [PushI 0; PushI v; Jmp (length (isr_handler_prelude isr_handler irq_handler) + 2)]
  end.
Definition vector_text (k : stub) (v isr_handler irq_handler : Z) : list instr :=
  stub_text k v isr_handler irq_handler ++ interrupt_text isr_handler irq_handler.

(** ** The interrupted machine *)

(** The processor has left the place to return to at the end of the structure at [base], below it the
    error code if there is one, and there is room for the rest. *)
Record interrupted (m : machine) (k : stub) (base err : Z) (frame : list Z) : Prop := {
  in_rsp : regs m RSP = base + (match k with EISR => field_err | _ => field_rip end);
  in_region : region_ok (base, regs_total_size);
  in_frame : words_at (mem m) (base + field_rip) frame;
  in_length : length frame = 5%nat;
  in_err : match k with EISR => mem m !! (base + field_err) = Some err | _ => err = 0 end;
  in_room o : 0 ≤ o < field_rip → o mod 8 = 0 → is_Some (mem m !! (base + o));
}.
(** A [cpu_state]: the registers [f], the vector, the error code and the place to return to. *)
Record cpu_state_at (w : gmap Z Z) (base : Z) (f : reg → Z) (v err : Z) (frame : list Z) : Prop := {
  cs_regs r o : (r, o) ∈ reg_fields → w !! (base + o) = Some (f r);
  cs_int : w !! (base + field_int) = Some v;
  cs_err : w !! (base + field_err) = Some err;
  cs_frame : words_at w (base + field_rip) frame;
}.
(** The GS bases after [check_swap_gs] for a code segment. *)
Definition gs_for (cs : Z) (p : Z * Z) : Z * Z := if Z.land cs 3 =? 3 then (p.2, p.1) else p.
Definition gs_pair (m : machine) : Z * Z := (gs m, other_gs m).
(** The handler of a stub. *)
Definition handler_of (k : stub) (isr_handler irq_handler : Z) : Z := match k with IRQ => irq_handler | _ => isr_handler end.

(** ** The parts *)

Lemma reg_fields_range r o : (r, o) ∈ reg_fields → 0 ≤ o < field_int ∧ o mod 8 = 0 ∧ r ≠ RSP.
Proof.
  intros H. cut (Forall (λ x, 0 ≤ x.2 < field_int ∧ x.2 mod 8 = 0 ∧ x.1 ≠ RSP) reg_fields); [|by apply (bool_decide_eq_true_1 _)].
  intros HF. rewrite Forall_forall in HF. by apply (HF (r, o)).
Qed.
Lemma reg_fields_all r : r ≠ RSP → ∃ o, (r, o) ∈ reg_fields.
Proof.
  intros Hr. cut (r ∈ reg_fields.*1); [intros ([r' o] & -> & Hin)%list_elem_of_fmap; by exists o|].
  destruct r; try done; by apply (bool_decide_eq_true_1 _).
Qed.

Section parts.
Context (callee : Z → machine → outcome machine).
Abbreviation run := (exec callee 0).

Lemma check_swap_gs_spec m base cs code :
  regs m RSP = base → region_ok (base, regs_total_size) → mem m !! (base + field_cs) = Some cs →
  ∃ f z l, run (check_swap_gs ++ code) m =
      run code (with_gs (with_flags (with_regs m f) z l) (gs_for cs (gs_pair m)).1 (gs_for cs (gs_pair m)).2) ∧
    (∀ r, r ≠ RAX → f r = regs m r).
Proof.
  intros Hsp Hr Hcs. unfold check_swap_gs. cbn [app].
  rewrite (exec_load _ _ _ _ _ cs) by (cbn [address]; rewrite Hsp, (wrap_at _ _ _ Hr) by (by vm_compute); done).
  do 2 (erewrite exec_next; [|reflexivity]). unfold compare, gs_for, gs_pair. reg_simp.
  exists (set_reg (set_reg (regs m) RAX cs) RAX (Z.land cs 3)).
  exists (Z.land cs 3 =? 3), (signed64 (Z.land cs 3) <? signed64 3). split; [|intros r Hne; by rewrite !set_reg_ne].
  destruct (Z.eqb_spec (Z.land cs 3) 3) as [E|E].
  - erewrite exec_next; [|reflexivity]. erewrite exec_next; [|reflexivity]. reflexivity.
  - erewrite exec_next; [|reflexivity]. cbn [exec]. by destruct m.
Qed.

(** The structure is complete after [push_all]. *)
Lemma push_all_spec m base v err frame code :
  regs m RSP = base + field_int → region_ok (base, regs_total_size) →
  (∀ o, 0 ≤ o < field_int → o mod 8 = 0 → is_Some (mem m !! (base + o))) →
  mem m !! (base + field_int) = Some v → mem m !! (base + field_err) = Some err → words_at (mem m) (base + field_rip) frame →
  ∃ w, run (push_all ++ code) m = run code (put (with_mem m w) RSP base) ∧ cpu_state_at w base (regs m) v err frame ∧
    same_outside [(base, field_int)] (mem m) w.
Proof.
  intros Hsp Hr Hroom Hv He Hf. unfold push_all. cbn [app]. pose proof Hr as (H0 & _ & H1). cbn [fst snd] in H0, H1.
  unfold regs_total_size, field_int, regs_extra_size in *.
  erewrite exec_next; [|cbn [step]; rewrite Hsp; replace (base + 120 - 120) with base by lia; rewrite (wrap_small 64) by (unfold is_word; lia); reflexivity].
  set (m1 := put _ _ _). assert (E1 : regs m1 RSP = base) by (unfold m1; by reg_simp).
  edestruct (exec_stores callee RSP 176 reg_fields) as (w & -> & Hw & Hk & _); [by rewrite E1| |by apply (bool_decide_eq_true_1 _)|].
  { rewrite E1. apply Forall_forall. intros [r o] (Ho & Hm & _)%reg_fields_range. cbn [fst snd]. unfold field_int in Ho. split; [lia|]. by apply Hroom. }
  rewrite E1 in Hw, Hk. assert (Hout : same_outside [(base, 120)] (mem m) w).
  { intros a Ha. rewrite outside_cons, outside_nil in Ha. apply Hk. intros o Ho ->. apply list_elem_of_fmap in Ho as ([r o'] & -> & Hin).
    apply reg_fields_range in Hin as (Ho & _). unfold field_int in Ho. cbn [snd] in *. lia. }
  exists w. split; [reflexivity|]. split; [|done]. constructor.
  - intros r o Hin. rewrite (Hw r o Hin). pose proof Hin as (_ & _ & Hne)%reg_fields_range. unfold m1. cbn. by rewrite set_reg_ne.
  - rewrite Hout by (rewrite outside_cons, outside_nil; unfold field_int; lia). done.
  - rewrite Hout by (rewrite outside_cons, outside_nil; unfold field_err; lia). done.
  - apply (words_at_same [(base, 120)] (mem m)); [done| |done]. intros i Hi. rewrite outside_cons, outside_nil. unfold field_rip. lia.
Qed.

(** What runs after the stub. *)
Definition call_part (k : stub) (isr irq : Z) : list instr :=
  match k with
  | IRQ => [Mov RDI RSP; Mov RSI RSP; Call irq] ++ isr_handler_return
  | _ => [Mov RDI RSP; Call isr; Jmp (length (irq_handler_prelude irq))] ++ irq_handler_prelude irq ++ isr_handler_return
  end.
Definition after_stub (k : stub) (isr irq : Z) : list instr :=
  push_all ++ check_swap_gs ++ call_part k isr irq.
Lemma exec_skip_more code code' n m : exec callee (length code + n) (code ++ code') m = exec callee n code' m.
Proof. induction code as [|i code IH]; [done|apply IH]. Qed.
Lemma jump_to_real k isr irq m :
  exec callee (match k with IRQ => length (isr_handler_prelude isr irq) + 2 | _ => 2 end)%nat (interrupt_text isr irq) m =
  run (after_stub k isr irq) m.
Proof.
  unfold interrupt_text, after_stub, call_part. change 2%nat with (length fake_prelude). destruct k.
  - unfold isr_handler_prelude. rewrite <-!app_assoc. apply exec_skip.
  - unfold isr_handler_prelude. rewrite <-!app_assoc. apply exec_skip.
  - rewrite exec_skip_more. unfold irq_handler_prelude. rewrite <-!app_assoc. apply exec_skip.
Qed.
Lemma exec_pushi v code m :
  8 ≤ regs m RSP < 2 ^ 64 → is_Some (mem m !! (regs m RSP - 8)) →
  run (PushI v :: code) m = run code (put (with_mem m (<[regs m RSP - 8 := v]> (mem m))) RSP (regs m RSP - 8)).
Proof.
  intros Hb [x Hx]. cbn [exec step]. rewrite (wrap_small 64) by (unfold is_word; lia). unfold store. rewrite Hx. reflexivity.
Qed.
Lemma stub_spec m k base err frame v isr irq : interrupted m k base err frame →
  ∃ f w, run (vector_text k v isr irq) m = run (after_stub k isr irq) (with_mem (with_regs m f) w) ∧
    f RSP = base + field_int ∧ (∀ r, r ≠ RSP → f r = regs m r) ∧ (∀ a, is_Some (mem m !! a) → is_Some (w !! a)) ∧
    w !! (base + field_int) = Some v ∧ w !! (base + field_err) = Some err ∧ words_at w (base + field_rip) frame ∧
    same_outside [(base, regs_total_size)] (mem m) w.
Proof.
  intros [Hsp (H0 & _ & H1) Hf Hl He Hroom]. cbn [fst snd] in H0, H1. unfold vector_text, regs_total_size in *.
  assert (Hfr : ∀ w, same_outside [(base, field_rip)] (mem m) w → words_at w (base + field_rip) frame).
  { intros w Hw. apply (words_at_same [(base, field_rip)] (mem m)); [done| |done]. intros i Hi. rewrite outside_cons, outside_nil. unfold field_rip. lia. }
  assert (Hmore : ∀ w, same_outside [(base, field_rip)] (mem m) w → same_outside [(base, 0xb0)] (mem m) w).
  { intros w Hw a Ha. apply Hw. rewrite outside_cons, outside_nil in *. unfold field_rip. lia. }
  destruct (decide (k = EISR)) as [->|Hk].
  - unfold stub_text. cbn [app]. rewrite exec_pushi by (rewrite Hsp; unfold field_err in *; first [lia | replace (base + 128 - 8) with (base + 120) by lia; by apply Hroom]).
    erewrite exec_next; [|reflexivity]. rewrite (jump_to_real EISR). rewrite Hsp. unfold field_err, field_int, field_rip in *. replace (base + 128 - 8) with (base + 120) by lia.
    eexists _, (<[base + 120 := v]> (mem m)). split; [reflexivity|]. split; [by reg_simp|]. split; [intros r Hne; by apply set_reg_ne, not_eq_sym|].
    split; [intros a Ha; by apply lookup_insert_is_Some'; right|]. split; [apply lookup_insert_eq|]. split; [by rewrite lookup_insert_ne by lia|].
    assert (Ho : same_outside [(base, 136)] (mem m) (<[base + 120 := v]> (mem m))) by (apply same_outside_insert; rewrite outside_cons, outside_nil; lia).
    split; [by apply Hfr|by apply Hmore].
  - assert (Et : stub_text k v isr irq = [PushI 0; PushI v; Jmp (match k with IRQ => length (isr_handler_prelude isr irq) + 2 | _ => 2 end)]) by by destruct k.
    assert (Esp : regs m RSP = base + 136) by by destruct k. assert (err = 0) as -> by by destruct k. rewrite Et. clear Et Hsp He Hk.
    cbn [app]. unfold field_err, field_int, field_rip in *.
    rewrite exec_pushi by (rewrite Esp; first [lia | replace (base + 136 - 8) with (base + 128) by lia; by apply Hroom]).
    rewrite Esp. replace (base + 136 - 8) with (base + 128) by lia.
    rewrite exec_pushi by (reg_simp; first [lia | replace (base + 128 - 8) with (base + 120) by lia; apply lookup_insert_is_Some'; right; by apply Hroom]).
    erewrite exec_next; [|reflexivity]. rewrite (jump_to_real k). reg_simp. replace (base + 128 - 8) with (base + 120) by lia.
    eexists _, (<[base + 120 := v]> (<[base + 128 := 0]> (mem m))). split; [reflexivity|]. split; [by reg_simp|]. split; [intros r Hne; etransitivity; by apply set_reg_ne, not_eq_sym|].
    split; [intros a Ha; apply lookup_insert_is_Some'; right; by apply lookup_insert_is_Some'; right|]. split; [apply lookup_insert_eq|].
    split; [rewrite lookup_insert_ne by lia; apply lookup_insert_eq|].
    assert (Ho : same_outside [(base, 136)] (mem m) (<[base + 120 := v]> (<[base + 128 := 0]> (mem m)))).
    { eapply same_outside_trans; apply same_outside_insert; rewrite outside_cons, outside_nil; lia. }
    split; [by apply Hfr|by apply Hmore].
Qed.
Lemma iretq_spec m rip cs flags sp ss :
  words_at (mem m) (regs m RSP) [rip; cs; flags; sp; ss] → 0 ≤ regs m RSP → regs m RSP + 40 ≤ 2 ^ 64 →
  ∃ f, run [Iretq] m = Done (with_regs m f, Resumed rip cs flags ss) ∧ f RSP = sp ∧ (∀ r, r ≠ RSP → f r = regs m r).
Proof.
  intros Hw H0 H1. rewrite !words_at_cons in Hw. destruct Hw as (F1 & F2 & F3 & F4 & F5 & _). cbn [exec step]. unfold pop, load.
  rewrite F1. cbn [deref mbind outcome_bind]. reg_simp. rewrite (wrap_small 64 (regs m RSP + 8)) by (unfold is_word; lia).
  rewrite F2. cbn [deref mbind outcome_bind]. reg_simp. rewrite (wrap_small 64 (regs m RSP + 8 + 8)) by (unfold is_word; lia).
  rewrite F3. cbn [deref mbind outcome_bind]. reg_simp. rewrite (wrap_small 64 (regs m RSP + 8 + 8 + 8)) by (unfold is_word; lia).
  rewrite F4. cbn [deref mbind outcome_bind]. reg_simp. rewrite (wrap_small 64 (regs m RSP + 8 + 8 + 8 + 8)) by (unfold is_word; lia).
  rewrite F5. cbn [deref mbind outcome_bind]. eexists. split; [reflexivity|]. split; [apply set_reg_eq|]. intros r Hne. cbn. by rewrite !set_reg_ne.
Qed.
Lemma irq_return_spec m base f v err rip cs flags sp ss :
  regs m RSP = base → region_ok (base, regs_total_size) → cpu_state_at (mem m) base f v err [rip; cs; flags; sp; ss] →
  ∃ m', run isr_handler_return m = Done (m', Resumed rip cs flags ss) ∧ regs m' RSP = sp ∧ (∀ r, r ≠ RSP → regs m' r = f r) ∧
    mem m' = mem m ∧ gs_pair m' = gs_for cs (gs_pair m).
Proof.
  intros Hsp Hr [Hf Hv He Hfr]. pose proof Hr as (H0 & _ & H1). cbn [fst snd] in H0, H1. unfold isr_handler_return, regs_total_size in *.
  assert (F2 : mem m !! (base + field_cs) = Some cs) by (rewrite <-(Hfr 1%nat cs eq_refl); f_equal; unfold field_cs, field_rip; lia). unfold field_rip in *.
  destruct (check_swap_gs_spec m base cs (pop_all ++ [AddI RSP 16; Iretq])) as (g & z & l & -> & Hg); [done|done|done|].
  unfold pop_all. rewrite <-app_assoc. set (m1 := with_gs _ _ _).
  assert (E1 : regs m1 RSP = base) by (cbn; by rewrite Hg).
  edestruct (exec_loads callee RSP 176 reg_fields) as (g2 & -> & Hg2 & Hk); [by rewrite E1| |by apply (bool_decide_eq_true_1 _)..|].
  { rewrite E1. apply Forall_forall. intros [r o] Hin. pose proof Hin as (Ho & _)%reg_fields_range. cbn [fst snd]. unfold field_int in Ho.
    split; [lia|]. eexists. by apply Hf. }
  rewrite E1 in Hg2. assert (G2 : g2 RSP = base) by (rewrite Hk; [done|by apply (bool_decide_eq_true_1 _)]).
  cbn [app]. erewrite exec_next; [|cbn [step regs with_regs]; unfold regs_extra_size; rewrite G2, (wrap_at _ _ _ Hr) by lia; reflexivity].
  erewrite exec_next; [|cbn [step]; reg_simp; replace (base + 120 + 16) with (base + 136) by lia; rewrite (wrap_at _ _ _ Hr) by lia; reflexivity].
  destruct (iretq_spec (put (put (with_regs m1 g2) RSP (base + 120)) RSP (base + 136)) rip cs flags sp ss) as (h & -> & Hh1 & Hh2);
    [reg_simp; cbn [mem m1 with_gs with_flags with_regs]; (done || lia)..|].
  eexists. split; [reflexivity|]. cbn [regs with_regs mem put with_gs m1 with_flags gs_pair gs other_gs]. split; [done|]. split; [|split; [done|]].
  - intros r Hne. rewrite Hh2 by done. cbn. rewrite !set_reg_ne by done. destruct (reg_fields_all r Hne) as [o Ho].
    apply (inj Some). rewrite <-(Hg2 r o Ho). by apply Hf.
  - symmetry. apply surjective_pairing.
Qed.

(** The call of the handler and what follows. *)
Definition called (k : stub) (m : machine) : machine :=
  let m' := put m RDI (regs m RSP) in match k with IRQ => put m' RSI (regs m RSP) | _ => m' end.
Lemma call_part_spec k isr irq m :
  run (call_part k isr irq) m = (callee (handler_of k isr irq) (called k m) ≫= run isr_handler_return).
Proof.
  unfold call_part, called, handler_of. destruct k; cbn [app exec step mbind outcome_bind].
  1-2: destruct (callee isr _) as [m'| | |]; [|done..]; cbn [mbind outcome_bind]; apply exec_skip.
  by destruct (callee irq _).
Qed.
End parts.

(** ** The interrupt *)

(** The machine [m1] in which the handler of [m] is called. *)
Record handler_call (m m1 : machine) (k : stub) (base v err cs : Z) (frame : list Z) : Prop := {
  hc_rsp : regs m1 RSP = base;
  hc_rdi : regs m1 RDI = base;
  hc_rsi : k = IRQ → regs m1 RSI = base;
  hc_state : cpu_state_at (mem m1) base (regs m) v err frame;
  hc_gs : gs_pair m1 = gs_for cs (gs_pair m);
  hc_outside : same_outside [(base, regs_total_size)] (mem m) (mem m1);
}.

(** C16: An interrupt of any vector reaches the handler with the address of a [cpu_state] that holds the
    registers of the interrupted code, the vector, the error code or 0, and the place to return to, and
    with the GS bases swapped if the code was in user mode.  When the handler returns, the code that the
    structure then describes goes on with the registers of the structure, and the bases are swapped
    back if that code is in user mode. *)
Theorem interrupt_roundtrip callee k v isr irq m base err rip cs flags sp ss :
  interrupted m k base err [rip; cs; flags; sp; ss] →
  ∃ m1, handler_call m m1 k base v err cs [rip; cs; flags; sp; ss] ∧
    ∀ m2 f' v' err' rip' cs' flags' sp' ss', callee (handler_of k isr irq) m1 = Done m2 → regs m2 RSP = base →
      cpu_state_at (mem m2) base f' v' err' [rip'; cs'; flags'; sp'; ss'] →
      ∃ m3, exec callee 0 (vector_text k v isr irq) m = Done (m3, Resumed rip' cs' flags' ss') ∧
        regs m3 RSP = sp' ∧ (∀ r, r ≠ RSP → regs m3 r = f' r) ∧ mem m3 = mem m2 ∧ gs_pair m3 = gs_for cs' (gs_pair m2).
Proof.
  intros Hi. destruct (stub_spec callee m k base err [rip; cs; flags; sp; ss] v isr irq Hi) as (f & w & E & Hf & Hfr & Hk & Hv & He & Hw & Ho).
  rewrite E. clear E. destruct Hi as [_ Hr _ _ _ Hroom]. unfold after_stub.
  edestruct (push_all_spec callee (with_mem (with_regs m f) w) base v err [rip; cs; flags; sp; ss]) as (w2 & E & Hc & Ho2);
    [done|done| |done|done|done|].
  { intros o H1 H2. apply Hk, Hroom; [|done]. unfold field_rip, field_int in *. lia. }
  rewrite E. clear E. 
  edestruct (check_swap_gs_spec callee (put (with_mem (with_mem (with_regs m f) w) w2) RSP base) base cs) as (g & z & l & E & Hg); [by reg_simp|done| |].
  { cbn. rewrite <-(cs_frame _ _ _ _ _ _ Hc 1%nat cs eq_refl). f_equal. unfold field_cs, field_rip. lia. }
  rewrite E. clear E. set (m0 := with_gs _ _ _). rewrite call_part_spec.
  assert (E0 : regs m0 RSP = base) by (cbn; rewrite Hg by done; by reg_simp).
  exists (called k m0). split.
  - assert (Em : mem (called k m0) = w2) by by destruct k. constructor.
    + destruct k; unfold called; reg_simp; done.
    + destruct k; unfold called; reg_simp; done.
    + intros ->. unfold called. reg_simp. done.
    + rewrite Em. destruct Hc as [C1 C2 C3 C4]. constructor; [|done..]. intros r o Hin. rewrite (C1 r o Hin). cbn. f_equal. apply Hfr.
      by apply reg_fields_range in Hin as (_ & _ & Hne).
    + assert (Eg : gs_pair (called k m0) = gs_pair m0) by by destruct k. rewrite Eg. symmetry. apply surjective_pairing.
    + rewrite Em. eapply same_outside_trans; [exact Ho|]. intros a Ha. apply Ho2. rewrite outside_cons, outside_nil in *. unfold field_int, regs_total_size in *. lia.
  - intros m2 f' v' err' rip' cs' flags' sp' ss' E2 Es Hc'. rewrite E2. cbn [mbind outcome_bind].
    by apply (irq_return_spec callee m2 base f' v' err' rip' cs' flags' sp' ss').
Qed.

(** ** Example *)

(** A page fault of user code at 0x401000, with the error code 6, on the kernel stack below 0x2000. *)
Definition fault_machine : machine :=
  Machine (λ r, match r with RSP => 0x1fd0 | RAX => 11 | R15 => 12 | _ => 0 end)
    (list_to_map ([(0x1fd0, 6); (0x1fd8, 0x401000); (0x1fe0, 0x2b); (0x1fe8, 0x202); (0x1ff0, 0x700000); (0x1ff8, 0x23)] ++
      ((λ i, (0x1f50 + 8 * Z.of_nat i, 0)) <$> seq 0 17)))
    0 0x55 0x8000 false false (λ _, 0) ∅.
Lemma fault_interrupted : interrupted fault_machine EISR 0x1f50 6 [0x401000; 0x2b; 0x202; 0x700000; 0x23].
Proof.
  split; [done| | |done|done|].
  - by vm_compute.
  - intros i v Hi. do 5 (destruct i as [|i]; [injection Hi as <-; reflexivity|]). done.
  - intros o Ho Hm. assert (Hc : ∃ k, (k < 17)%nat ∧ o = 8 * Z.of_nat k).
    { exists (Z.to_nat (o / 8)). pose proof (Z.div_mod o 8). unfold field_rip in Ho. split; [|lia].
      apply Nat2Z.inj_lt. rewrite Z2Nat.id by lia. lia. }
    destruct Hc as (k & Hk & ->). do 17 (destruct k as [|k]; [by vm_compute; eexists|]). lia.
Qed.
(** A handler that changes scratch registers only. *)
Definition clobber (f : Z) (m : machine) : outcome machine := Done (put (put m RAX 99) RCX 98).
Lemma interrupt_roundtrip_witness :
  ∃ m1 m3, handler_call fault_machine m1 EISR 0x1f50 14 6 0x2b [0x401000; 0x2b; 0x202; 0x700000; 0x23] ∧
    exec clobber 0 (vector_text EISR 14 1 2) fault_machine = Done (m3, Resumed 0x401000 0x2b 0x202 0x23) ∧
    regs m3 RAX = 11 ∧ regs m3 R15 = 12 ∧ regs m3 RSP = 0x700000 ∧ gs m1 = 0x8000 ∧ gs m3 = 0x55.
Proof.
  destruct (interrupt_roundtrip clobber EISR 14 1 2 fault_machine 0x1f50 6 0x401000 0x2b 0x202 0x700000 0x23 fault_interrupted)
    as (m1 & Hc & Hr). destruct (Hr (put (put m1 RAX 99) RCX 98) (regs fault_machine) 14 6 0x401000 0x2b 0x202 0x700000 0x23)
    as (m3 & E & Hsp & Hf & _ & Hg).
  - reflexivity.
  - reg_simp. exact (hc_rsp _ _ _ _ _ _ _ _ Hc).
  - exact (hc_state _ _ _ _ _ _ _ _ Hc).
  - exists m1, m3. split; [exact Hc|]. split; [exact E|]. clear E. rewrite !Hf by discriminate. do 2 (split; [reflexivity|]). split; [exact Hsp|].
    pose proof (hc_gs _ _ _ _ _ _ _ _ Hc) as Hg1. unfold gs_pair, gs_for in *. cbn in Hg, Hg1. injection Hg1 as E1 E2. injection Hg as E3 E4.
    split; [exact E1|]. rewrite E3. exact E2.
Defined.
