(* ===== verification/SetJmp.v ===== *)
(** * Nonlocal jumps

    Models [setjmp] and [longjmp] of src/libraries/libc/setjmp/setjmp.s as programs of Machine.v, with
    the buffer of nine words of setjmp.h.  [longjmp_resumes] shows that a jump comes back as a second
    return from [setjmp], with the registers and the floating-point control of the first, as long as
    the two words that [setjmp] used on the stack are still there.  [longjmp_returns_to_its_call] shows
    what happens when they are not: the saved address is never read again, so a jump from the function
    that called [setjmp] comes out behind the call of [longjmp] itself. *)
From S2P Require Import Prelude Machine.

(** ** The programs *)

Definition jb_rbx : Z := 0.
Definition jb_rsp : Z := 8.
Definition jb_rbp : Z := 16.
Definition jb_r12 : Z := 24.
Definition jb_r13 : Z := 32.
Definition jb_r14 : Z := 40.
Definition jb_r15 : Z := 48.
Definition jb_retaddr : Z := 56.
Definition jb_mxcsr : Z := 64.
Definition jb_fcw : Z := 68.
(** [jmp_buf] *)
Definition jmp_buf_size : Z := 9 * 8.

Definition jmp_fields : list (reg * Z) :=
  [(RAX, jb_retaddr); (RBX, jb_rbx); (RSP, jb_rsp); (RBP, jb_rbp); (R12, jb_r12); (R13, jb_r13); (R14, jb_r14); (R15, jb_r15)].
Definition setjmp : list instr :=
  [Push RBP; Mov RBP RSP; Load RAX (At RSP 8)] ++ (store_at RDI <$> jmp_fields) ++
  [Stmxcsr (At RDI jb_mxcsr); Fnstcw (At RDI jb_fcw); MovI RAX 0; Pop RBP; Ret].
Definition loaded_fields : list (reg * Z) :=
  [(RBX, jb_rbx); (RBP, jb_rbp); (R12, jb_r12); (R13, jb_r13); (R14, jb_r14); (R15, jb_r15)].
Definition longjmp : list instr :=
  [Push RBP; Mov RBP RSP] ++ (load_at RDI <$> loaded_fields) ++
  [Ldmxcsr (At RDI jb_mxcsr); Fnclex; Fldcw (At RDI jb_fcw); Load RSP (At RDI jb_rsp);
   Mov RAX RSI; CmpI RAX 0; Jne 1; MovI RAX 1; Pop RBP; Ret].

(** ** Parts of words *)

Lemma part_put_get v n x sh : 0 ≤ n → 0 ≤ sh → wrap n (Z.shiftr (part_put v n x sh) sh) = wrap n x.
Proof.
  intros Hn Hs. apply Z.bits_inj'. intros i Hi. rewrite !wrap_testbit, Z.shiftr_spec by lia. unfold part_put.
  rewrite Z.lor_spec, Z.ldiff_spec, !Z.shiftl_spec by lia. replace (i + sh - sh) with i by lia. rewrite wrap_testbit by lia.
  destruct (Z.ltb_spec i n); [|done]. rewrite Z.ones_spec_low by lia. cbn. by rewrite andb_false_r.
Qed.
Lemma part_put_below v n x sh k : 0 ≤ k ≤ sh → 0 ≤ n → wrap k (part_put v n x sh) = wrap k v.
Proof.
  intros Hk Hn. apply Z.bits_inj'. intros i Hi. rewrite !wrap_testbit by lia. destruct (Z.ltb_spec i k); [|done]. cbn.
  unfold part_put. rewrite Z.lor_spec, Z.ldiff_spec, !Z.shiftl_spec by lia. rewrite !(Z.testbit_neg_r _ (i - sh)) by lia.
  by rewrite andb_true_r, orb_false_r.
Qed.
Lemma set_component_eq m c n v : 0 ≤ n → wrap n (xstate (set_component m c n v) c) = wrap n v.
Proof.
  intros Hn. cbn. rewrite Z.eqb_refl. apply Z.bits_inj'. intros i Hi. rewrite wrap_testbit, Z.lor_spec, Z.ldiff_spec, wrap_testbit by done.
  destruct (Z.ltb_spec i n); [|done]. rewrite Z.ones_spec_low by lia. cbn. by rewrite andb_false_r.
Qed.
Lemma wrap_lxor_twice n v k : 0 ≤ n → is_word n k → Z.lxor (wrap n (Z.lxor v k)) k = wrap n v.
Proof.
  intros Hn Hk. apply Z.bits_inj'. intros i Hi. rewrite Z.lxor_spec, !wrap_testbit, Z.lxor_spec by done. destruct (Z.ltb_spec i n); cbn.
  - by destruct (Z.testbit v i), (Z.testbit k i).
  - apply (word_testbit_high n); [done..|lia].
Qed.
Lemma mxcsr_set m v : mxcsr (set_mxcsr m v) = wrap 32 v.
Proof. unfold mxcsr, set_mxcsr. rewrite set_component_eq by lia. apply wrap_lxor_twice; [lia|]. by vm_compute. Qed.
Lemma fcw_set m v : fcw (set_fcw m v) = wrap 16 v.
Proof. unfold fcw, set_fcw. rewrite set_component_eq by lia. apply wrap_lxor_twice; [lia|]. by vm_compute. Qed.
Lemma wrap_lxor_word n v k : 0 ≤ n → is_word n k → wrap n (Z.lxor (wrap n v) k) = Z.lxor (wrap n v) k.
Proof. intros Hn Hk. apply wrap_small, lxor_word; [lia|by apply wrap_word|done]. Qed.
Lemma mxcsr_word m : wrap 32 (mxcsr m) = mxcsr m.
Proof. apply wrap_lxor_word; [lia|]. by vm_compute. Qed.
Lemma fcw_word m : wrap 16 (fcw m) = fcw m.
Proof. apply wrap_lxor_word; [lia|]. by vm_compute. Qed.
Lemma word_of_low a : a mod 8 = 0 → word_of a = a ∧ part_of a = 0.
Proof. unfold word_of, part_of. intros E. split; [|lia]. pose proof (Z.div_mod a 8). lia. Qed.
Lemma word_of_high a : a mod 8 = 0 → word_of (a + 4) = a ∧ part_of (a + 4) = 32.
Proof.
  unfold word_of, part_of. intros E. pose proof (Z.div_mod a 8 ltac:(lia)) as Ha. rewrite E, Z.add_0_r in Ha.
  set (q := a / 8) in *. clearbody q. subst a. replace (8 * q + 4) with (4 + q * 8) by lia. rewrite Z.div_add, Z.mod_add by lia.
  change (4 / 8) with 0. change (4 mod 8) with 4. lia.
Qed.

(** ** The buffer *)

(** [setjmp] is called with a buffer, to return to [ra]. *)
Record setjmp_call (m : machine) (buf ra : Z) : Prop := {
  sj_rdi : regs m RDI = buf;
  sj_apart : apart [(regs m RSP - 8, 16); (buf, jmp_buf_size)];
  sj_align : buf mod 8 = 0;
  sj_ret : mem m !! regs m RSP = Some ra;
  sj_room : is_Some (mem m !! (regs m RSP - 8));
  sj_buf o : 0 ≤ o < jmp_buf_size → o mod 8 = 0 → is_Some (mem m !! (buf + o));
}.
(** The registers that go through the buffer; rbp and rsp are those inside [setjmp]. *)
Definition jump_fields : list (reg * Z) := [(RBX, jb_rbx); (R12, jb_r12); (R13, jb_r13); (R14, jb_r14); (R15, jb_r15)].
(** A buffer that holds the state of the machine [m] that called. *)
Record saved_by (w : gmap Z Z) (m : machine) (buf ra : Z) : Prop := {
  sb_regs r o : (r, o) ∈ jump_fields → w !! (buf + o) = Some (regs m r);
  sb_rsp : w !! (buf + jb_rsp) = Some (regs m RSP - 8);
  sb_rbp : w !! (buf + jb_rbp) = Some (regs m RSP - 8);
  sb_retaddr : w !! (buf + jb_retaddr) = Some ra;
  sb_control : ∃ x, w !! (buf + 64) = Some x ∧ wrap 32 x = mxcsr m ∧ wrap 16 (Z.shiftr x 32) = fcw m;
}.

Lemma jmp_fields_range o : o ∈ jmp_fields.*2 → 0 ≤ o < 64.
Proof. intros H. cut (Forall (λ o, 0 ≤ o < 64) jmp_fields.*2); [intros HF; rewrite Forall_forall in HF; auto|]. by apply (bool_decide_eq_true_1 _). Qed.
Lemma jump_fields_in r o : (r, o) ∈ jump_fields → (r, o) ∈ jmp_fields ∧ r ∉ [RAX; RSP; RBP; RDI] ∧ (r, o) ∈ loaded_fields.
Proof.
  intros H. cut (Forall (λ x, x ∈ jmp_fields ∧ x.1 ∉ [RAX; RSP; RBP; RDI] ∧ x ∈ loaded_fields) jump_fields); [|by apply (bool_decide_eq_true_1 _)].
  intros HF. rewrite Forall_forall in HF. by apply (HF (r, o)).
Qed.
Lemma loaded_fields_in r o : (r, o) ∈ loaded_fields → ((r, o) ∈ jump_fields ∨ (r, o) = (RBP, jb_rbp)) ∧ 0 ≤ o < 64.
Proof.
  intros H. cut (Forall (λ x, (x ∈ jump_fields ∨ x = (RBP, jb_rbp)) ∧ 0 ≤ x.2 < 64) loaded_fields); [|by apply (bool_decide_eq_true_1 _)].
  intros HF. rewrite Forall_forall in HF. by apply (HF (r, o)).
Qed.
(** Nothing of the buffer changes. *)
Lemma saved_by_keep w w' m buf ra :
  (∀ a, buf ≤ a < buf + jmp_buf_size → w' !! a = w !! a) → saved_by w m buf ra → saved_by w' m buf ra.
Proof.
  intros Hk [Hr Hsp Hbp Hra (x & Hx & Hx1)]. constructor.
  - intros r o Hin. rewrite Hk; [by apply Hr|]. apply jump_fields_in in Hin as (Hin & _). apply (list_elem_of_fmap_2 snd), jmp_fields_range in Hin. unfold jmp_buf_size. cbn in Hin. lia.
  - rewrite Hk by (unfold jb_rsp, jmp_buf_size; lia). done.
  - rewrite Hk by (unfold jb_rbp, jmp_buf_size; lia). done.
  - rewrite Hk by (unfold jb_retaddr, jmp_buf_size; lia). done.
  - exists x. rewrite Hk by (unfold jmp_buf_size; lia). done.
Qed.
Lemma callee_saved_field r : r ∈ callee_saved → r = RBP ∨ ∃ o, (r, o) ∈ jump_fields.
Proof.
  intros H. destruct (decide (r = RBP)) as [->|Hr]; [by left|right]. cut (r ∈ jump_fields.*1); [intros ([r' o] & -> & Hin)%list_elem_of_fmap; by exists o|].
  revert r H Hr. apply (proj1 (Forall_forall (λ r, r ≠ RBP → r ∈ jump_fields.*1) _)). by apply (bool_decide_eq_true_1 _).
Qed.

Section specs.
Context (callee : Z → machine → outcome machine).
Abbreviation run := (exec callee 0).

(** The two stores of the floating-point control. *)
Lemma store_control m buf code x :
  regs m RDI = buf → region_ok (buf, jmp_buf_size) → buf mod 8 = 0 → mem m !! (buf + 64) = Some x →
  ∃ y, run ([Stmxcsr (At RDI jb_mxcsr); Fnstcw (At RDI jb_fcw)] ++ code) m =
      run code (with_mem m (<[buf + 64 := y]> (mem m))) ∧ wrap 32 y = mxcsr m ∧ wrap 16 (Z.shiftr y 32) = fcw m.
Proof.
  intros Hd Hr Ha Hx. cbn [app]. assert (Ha' : (buf + 64) mod 8 = 0) by (rewrite <-(Z.mod_add buf 8 8) in Ha by lia; done).
  destruct (word_of_low _ Ha') as [W1 P1]. destruct (word_of_high _ Ha') as [W2 P2].
  exists (part_put (part_put x 32 (mxcsr m) 0) 16 (fcw m) 32). split; [|split].
  - unfold jb_mxcsr, jb_fcw. erewrite exec_next; [|cbn [step]; unfold store_bits, load, store; cbn [address]; rewrite Hd, (wrap_at _ _ _ Hr), W1, P1, Hx by (unfold jmp_buf_size; lia); reflexivity].
    erewrite exec_next; [|cbn [step]; unfold store_bits, load, store; cbn [address]; reg_simp; rewrite Hd, (wrap_at _ _ _ Hr) by (unfold jmp_buf_size; lia);
      replace (buf + 68) with (buf + 64 + 4) by lia; rewrite W2, P2, lookup_insert_eq; reflexivity].
    by rewrite insert_insert_eq.
  - rewrite part_put_below by lia. rewrite <-(Z.shiftr_0_r (part_put _ _ _ 0)), part_put_get by lia. apply mxcsr_word.
  - rewrite part_put_get by lia. apply fcw_word.
Qed.

(** The end of both functions. *)
Lemma pop_return m p ret :
  0 ≤ regs m RSP → regs m RSP + 8 < 2 ^ 64 → mem m !! regs m RSP = Some p → mem m !! (regs m RSP + 8) = Some ret →
  run [Pop RBP; Ret] m = Done (put (put (put m RSP (regs m RSP + 8)) RBP p) RSP (u64 (regs m RSP + 16)), Returned ret).
Proof.
  intros H0 H1 Hp Hr. cbn [exec step]. unfold pop, load. rewrite Hp. cbn [deref mbind outcome_bind]. reg_simp.
  rewrite (wrap_small 64 (regs m RSP + 8)) by (unfold is_word; lia). rewrite Hr. cbn [deref mbind outcome_bind].
  by replace (regs m RSP + 8 + 8) with (regs m RSP + 16) by lia.
Qed.

Lemma setjmp_spec m buf ra : setjmp_call m buf ra →
  ∃ m1, run setjmp m = Done (m1, Returned ra) ∧ saved_by (mem m1) m buf ra ∧
    mem m1 !! (regs m RSP - 8) = Some (regs m RBP) ∧ mem m1 !! regs m RSP = Some ra ∧
    regs m1 RSP = u64 (regs m RSP + 8) ∧ regs m1 RAX = 0 ∧ (∀ r, r ∉ [RAX; RSP] → regs m1 r = regs m r) ∧
    xstate m1 = xstate m ∧ same_outside [(regs m RSP - 8, 16); (buf, jmp_buf_size)] (mem m) (mem m1).
Proof.
  intros [Hd [Hok Hdis] Ha Hret [z Hz] Hbuf]. set (S := regs m RSP) in *. apply Forall_cons in Hok as [Hs [Hb _]%Forall_cons].
  destruct Hdis as [Hdis _]. apply Forall_cons in Hdis as [Hdis _].
  assert (Hne : ∀ i j, 0 ≤ i < 16 → 0 ≤ j < jmp_buf_size → buf + j ≠ S - 8 + i) by (intros i j ? ?; destruct Hdis as [E|E]; cbn [fst snd] in E; lia).
  pose proof Hs as (Hs0 & _ & Hs1). cbn [fst snd] in Hs0, Hs1.
  unfold setjmp. cbn [app]. erewrite exec_next; [|cbn [step]; unfold store; fold S; rewrite (wrap_small 64) by (unfold is_word; lia); rewrite Hz; reflexivity].
  erewrite exec_next; [|reflexivity]. reg_simp.
  rewrite (exec_load _ _ _ _ _ ra) by (cbn [address]; reg_simp; rewrite (wrap_at _ _ 16) by (done || lia); rewrite lookup_insert_ne by lia; rewrite <-Hret; f_equal; lia).
  set (m1 := put _ _ _). assert (E1 : regs m1 RDI = buf) by (unfold m1; by reg_simp).
  assert (M1 : ∀ j, 0 ≤ j < jmp_buf_size → mem m1 !! (buf + j) = mem m !! (buf + j)).
  { intros j Hj. apply lookup_insert_ne. specialize (Hne 0 j ltac:(lia) Hj). lia. }
  edestruct (exec_stores callee RDI jmp_buf_size jmp_fields) as (w & -> & Hw & Hk & Hd1); [by rewrite E1|rewrite E1|by apply (bool_decide_eq_true_1 _)|].
  { repeat (apply Forall_cons; split; [cbn [fst snd]; split; [by vm_compute|rewrite M1 by (by vm_compute); by apply Hbuf]|]). by apply Forall_nil. }
  rewrite E1 in Hw, Hk. assert (Hko : ∀ a, a < buf ∨ buf + 64 ≤ a → w !! a = mem m1 !! a).
  { intros a Hr. apply Hk. intros o Ho%jmp_fields_range. lia. }
  destruct (Hbuf 64) as [x Hx]; [by vm_compute|done|].
  destruct (store_control (with_mem m1 w) buf [MovI RAX 0; Pop RBP; Ret] x) as (y & E & Hy1 & Hy2); [done|done|done| |].
  { cbn. rewrite Hko by lia. by rewrite M1. }
  cbn [app] in E. rewrite E. clear E. erewrite exec_next; [|reflexivity]. reg_simp.
  set (m2 := put _ RAX 0). set (w2 := <[buf + 64 := y]> w) in *.
  assert (W2 : ∀ a, a < buf ∨ buf + jmp_buf_size ≤ a → w2 !! a = mem m1 !! a).
  { intros a Hr. unfold w2, jmp_buf_size in *. rewrite lookup_insert_ne by lia. apply Hko. lia. }
  assert (Hp : w2 !! (S - 8) = Some (regs m RBP)).
  { rewrite W2 by (destruct Hdis as [E|E]; cbn [fst snd] in E; lia). apply lookup_insert_eq. }
  assert (Hq : w2 !! S = Some ra).
  { rewrite W2 by (destruct Hdis as [E|E]; cbn [fst snd] in E; lia). cbn. by rewrite lookup_insert_ne by lia. }
  assert (E2 : regs m2 RSP = S - 8) by (unfold m2, m1; by reg_simp).
  rewrite (pop_return m2 (regs m RBP) ra) by (rewrite ?E2; cbn [mem m2 put with_regs with_mem]; (lia || done || by replace (S - 8 + 8) with S by lia)).
  rewrite E2. eexists. split; [reflexivity|]. cbn [mem put with_regs with_mem m2]. split; [|split; [done|split; [done|]]].
  - assert (HF : ∀ r o, (r, o) ∈ jmp_fields → w2 !! (buf + o) = Some (regs m1 r)).
    { intros r o Hin. unfold w2. rewrite lookup_insert_ne; [by apply Hw|]. apply (list_elem_of_fmap_2 snd), jmp_fields_range in Hin. cbn in Hin. lia. }
    assert (Hm1 : ∀ r, r ∉ [RAX; RSP; RBP; RDI] → regs m1 r = regs m r).
    { intros r Hr. rewrite !not_elem_of_cons in Hr. destruct Hr as (? & ? & ? & ? & _). unfold m1. cbn. by rewrite !set_reg_ne. }
    constructor.
    + intros r o (Hin & Hr & _)%jump_fields_in. by rewrite (HF r o), Hm1.
    + rewrite (HF RSP) by (by apply (bool_decide_eq_true_1 _)). unfold m1. by reg_simp.
    + rewrite (HF RBP) by (by apply (bool_decide_eq_true_1 _)). unfold m1. by reg_simp.
    + rewrite (HF RAX) by (by apply (bool_decide_eq_true_1 _)). unfold m1. by reg_simp.
    + exists y. split; [apply lookup_insert_eq|done].
  - reg_simp. split; [f_equal; lia|]. split; [done|]. split; [|split; [done|]].
    + intros r [? [? _]%not_elem_of_cons]%not_elem_of_cons. unfold m2, m1. cbn. unfold set_reg. repeat case_decide; congruence.
    + intros a Ha2. rewrite !outside_cons in Ha2. destruct Ha2 as (Ha1 & Ha2 & _). rewrite W2 by lia. apply lookup_insert_ne. lia.
Qed.

(** The loads of the floating-point control. *)
Lemma load_control m buf code x :
  regs m RDI = buf → region_ok (buf, jmp_buf_size) → buf mod 8 = 0 → mem m !! (buf + 64) = Some x →
  ∃ xs, run ([Ldmxcsr (At RDI jb_mxcsr); Fnclex; Fldcw (At RDI jb_fcw)] ++ code) m = run code (with_xstate m xs (areas m)) ∧
    mxcsr (with_xstate m xs (areas m)) = wrap 32 x ∧ fcw (with_xstate m xs (areas m)) = wrap 16 (Z.shiftr x 32).
Proof.
  intros Hd Hr Ha Hx. cbn [app]. assert (Ha' : (buf + 64) mod 8 = 0) by (rewrite <-(Z.mod_add buf 8 8) in Ha by lia; done).
  destruct (word_of_low _ Ha') as [W1 P1]. destruct (word_of_high _ Ha') as [W2 P2]. unfold jb_mxcsr, jb_fcw.
  erewrite exec_next; [|cbn [step]; unfold load_bits, load; cbn [address]; rewrite Hd, (wrap_at _ _ _ Hr), W1, P1, Hx by (unfold jmp_buf_size; lia); reflexivity].
  erewrite exec_next; [|reflexivity].
  erewrite exec_next; [|cbn [step]; unfold load_bits, load; cbn [address]; cbn [regs mem clear_exceptions set_mxcsr set_component with_xstate];
    rewrite Hd, (wrap_at _ _ _ Hr) by (unfold jmp_buf_size; lia); replace (buf + 68) with (buf + 64 + 4) by lia; rewrite W2, P2, Hx; reflexivity].
  set (m' := set_fcw _ _). exists (xstate m'). split; [reflexivity|]. split.
  - transitivity (mxcsr (set_mxcsr m (wrap 32 (Z.shiftr x 0)))); [reflexivity|]. rewrite mxcsr_set, Z.shiftr_0_r. apply wrap_small, wrap_word. lia.
  - transitivity (fcw m'); [reflexivity|]. unfold m'. rewrite fcw_set. apply wrap_small, wrap_word. lia.
Qed.

(** [longjmp] up to its last two instructions. *)
Lemma longjmp_loads m m2 buf ra :
  saved_by (mem m2) m buf ra → regs m2 RDI = buf → buf mod 8 = 0 →
  apart [(regs m2 RSP - 8, 8); (buf, jmp_buf_size)] → is_Some (mem m2 !! (regs m2 RSP - 8)) →
  let w := <[regs m2 RSP - 8 := regs m2 RBP]> (mem m2) in
  ∃ m', run longjmp m2 = run [Pop RBP; Ret] m' ∧ regs m' RSP = regs m RSP - 8 ∧ mem m' = w ∧
    (∀ r o, (r, o) ∈ jump_fields → regs m' r = regs m r) ∧ regs m' RAX = (if regs m2 RSI =? 0 then 1 else regs m2 RSI) ∧
    mxcsr m' = mxcsr m ∧ fcw m' = fcw m.
Proof.
  intros [Hr Hsp Hbp Hra (x & Hx & Hx1 & Hx2)] Hd Ha [Hok [Hdis _]] [z Hz] w.
  apply Forall_cons in Hok as [Hs2 [Hb _]%Forall_cons]. apply Forall_cons in Hdis as [Hdis _].
  pose proof Hs2 as (Hs20 & _ & Hs21). cbn [fst snd] in *.
  assert (Hw : ∀ o, 0 ≤ o < jmp_buf_size → w !! (buf + o) = mem m2 !! (buf + o)).
  { intros o Ho. apply lookup_insert_ne. destruct Hdis as [E|E]; cbn [fst snd] in E; lia. }
  unfold longjmp. cbn [app]. erewrite exec_next; [|cbn [step]; unfold store; rewrite (wrap_small 64) by (unfold is_word; lia); rewrite Hz; reflexivity].
  erewrite exec_next; [|reflexivity]. reg_simp. fold w. set (m1 := put _ _ _).
  assert (E1 : regs m1 RDI = buf) by (unfold m1; by reg_simp).
  edestruct (exec_loads callee RDI jmp_buf_size loaded_fields) as (f & -> & Hf & Hfk); [by rewrite E1| |by apply (bool_decide_eq_true_1 _)..|].
  { rewrite E1. apply Forall_forall. intros [r o] [Hin Ho]%loaded_fields_in. cbn [fst snd mem m1 put with_regs with_mem].
    split; [unfold jmp_buf_size; lia|]. rewrite Hw by (unfold jmp_buf_size; lia). destruct Hin as [Hin|[= -> ->]]; [|by eexists]. eexists. by apply Hr. }
  rewrite E1 in Hf. cbn [mem m1 put with_regs with_mem] in Hf.
  assert (Fd : f RDI = buf) by (rewrite Hfk; [done|by apply (bool_decide_eq_true_1 _)]).
  assert (Fs : f RSI = regs m2 RSI) by (rewrite Hfk; [unfold m1; by reg_simp|by apply (bool_decide_eq_true_1 _)]).
  destruct (load_control (with_regs m1 f) buf [Load RSP (At RDI jb_rsp); Mov RAX RSI; CmpI RAX 0; Jne 1; MovI RAX 1; Pop RBP; Ret] x)
    as (xs & E & Hxs1 & Hxs2); [done|done|done|cbn; by rewrite Hw|]. cbn [app] in E. rewrite E. clear E.
  rewrite (exec_load _ _ _ _ _ (regs m RSP - 8)) by (cbn [address]; reg_simp; rewrite Fd, (wrap_at _ _ _ Hb) by (by vm_compute); cbn; by rewrite Hw).
  erewrite exec_next; [|reflexivity]. erewrite exec_next; [|reflexivity]. unfold compare. reg_simp. rewrite Fs.
  assert (Hfr : ∀ g r o, (r, o) ∈ jump_fields → (∀ r, r ∉ [RAX; RSP] → g r = f r) → g r = regs m r).
  { intros g r o Hin Hg. pose proof Hin as (_ & Hn & Hl)%jump_fields_in. rewrite !not_elem_of_cons in Hn. destruct Hn as (? & ? & ? & ? & _).
    rewrite Hg by (rewrite !not_elem_of_cons; auto using not_elem_of_nil). apply (inj Some). rewrite <-(Hf r o), Hw; [by apply Hr| |done].
    apply loaded_fields_in in Hl as [_ Ho]. unfold jmp_buf_size. lia. }
  rewrite <-Hx1, <-Hx2, <-Hxs1, <-Hxs2. destruct (Z.eqb_spec (regs m2 RSI) 0) as [E0|E0].
  - erewrite exec_next; [|reflexivity]. erewrite exec_next; [|reflexivity]. eexists. split; [reflexivity|]. reg_simp.
    do 2 (split; [done|]). split; [|done]. intros r o Hin. eapply Hfr; [done|]. intros r' Hn. rewrite !not_elem_of_cons in Hn. cbn. by rewrite !set_reg_ne by naive_solver.
  - erewrite exec_next; [|reflexivity]. cbn [exec]. eexists. split; [reflexivity|]. reg_simp.
    do 2 (split; [done|]). split; [|done]. intros r o Hin. eapply Hfr; [done|]. intros r' Hn. rewrite !not_elem_of_cons in Hn. cbn. by rewrite !set_reg_ne by naive_solver.
Qed.
Lemma longjmp_spec m m2 buf ra p ret :
  saved_by (mem m2) m buf ra → regs m2 RDI = buf → buf mod 8 = 0 →
  apart [(regs m2 RSP - 8, 8); (buf, jmp_buf_size)] → is_Some (mem m2 !! (regs m2 RSP - 8)) → region_ok (regs m RSP - 8, 16) →
  let w := <[regs m2 RSP - 8 := regs m2 RBP]> (mem m2) in w !! (regs m RSP - 8) = Some p → w !! regs m RSP = Some ret →
  ∃ m3, run longjmp m2 = Done (m3, Returned ret) ∧ regs m3 RSP = u64 (regs m RSP + 8) ∧ regs m3 RBP = p ∧
    (∀ r o, (r, o) ∈ jump_fields → regs m3 r = regs m r) ∧ regs m3 RAX = (if regs m2 RSI =? 0 then 1 else regs m2 RSI) ∧
    mxcsr m3 = mxcsr m ∧ fcw m3 = fcw m.
Proof.
  intros Hsv Hd Ha Hok Hz (Hs0 & _ & Hs1) w Hp Hret. cbn [fst snd] in *.
  destruct (longjmp_loads m m2 buf ra) as (m' & -> & Es & Em & Er & Ea & Ex1 & Ex2); [done..|]. fold w in Em.
  rewrite (pop_return m' p ret); rewrite ?Es, ?Em; [|lia|lia|done|by replace (regs m RSP - 8 + 8) with (regs m RSP) by lia].
  eexists. split; [reflexivity|]. reg_simp. split; [f_equal; lia|]. split; [done|]. split; [|done].
  intros r o Hin. rewrite <-(Er r o Hin). apply jump_fields_in in Hin as (_ & Hn & _). rewrite !not_elem_of_cons in Hn.
  cbn. by rewrite !set_reg_ne by naive_solver.
Qed.
End specs.

(** ** A jump *)

(** [setjmp] returns 0 with the registers of its caller.  A later [longjmp] with its buffer, from
    anywhere, returns to the same place with the same stack pointer, the same registers that functions
    keep and the same floating-point control, and with its argument as the result, or 1 for 0; this
    needs the buffer and the two words below the caller's stack pointer to be as [setjmp] left them. *)
Theorem longjmp_resumes callee m buf ra : setjmp_call m buf ra →
  ∃ m1, exec callee 0 setjmp m = Done (m1, Returned ra) ∧ regs m1 RAX = 0 ∧ regs m1 RSP = u64 (regs m RSP + 8) ∧
    (∀ r, r ∈ callee_saved → regs m1 r = regs m r) ∧
    same_outside [(regs m RSP - 8, 16); (buf, jmp_buf_size)] (mem m) (mem m1) ∧
    ∀ m2, regs m2 RDI = buf → apart [(regs m2 RSP - 8, 8); (buf, jmp_buf_size); (regs m RSP - 8, 16)] →
      is_Some (mem m2 !! (regs m2 RSP - 8)) →
      (∀ a, ¬ outside [(regs m RSP - 8, 16); (buf, jmp_buf_size)] a → mem m2 !! a = mem m1 !! a) →
      ∃ m3, exec callee 0 longjmp m2 = Done (m3, Returned ra) ∧ regs m3 RSP = regs m1 RSP ∧
        (∀ r, r ∈ callee_saved → regs m3 r = regs m1 r) ∧ regs m3 RAX = (if regs m2 RSI =? 0 then 1 else regs m2 RSI) ∧
        mxcsr m3 = mxcsr m ∧ fcw m3 = fcw m.
Proof.
  intros Hc. destruct (setjmp_spec callee m buf ra Hc) as (m1 & E1 & Hsv & Hp & Hret & Esp & Eax & Er & Ex & Hso).
  destruct Hc as [_ [Hok Hdis] Ha _ _ _]. apply Forall_cons in Hok as [Hs _]. destruct Hdis as [[Hdis _]%Forall_cons _].
  pose proof Hs as (Hs0 & _ & Hs1). cbn [fst snd] in Hs0, Hs1.
  assert (Ek : ∀ r, r ∈ callee_saved → regs m1 r = regs m r).
  { intros r Hin. apply Er. intros Hn. revert r Hin Hn. apply (proj1 (Forall_forall (.∉ [RAX; RSP]) _)). by apply (bool_decide_eq_true_1 _). }
  exists m1. do 5 (split; [done|]). intros m2 Hd [Hok2 Hap] Hroom Hkeep.
  apply Forall_cons in Hok2 as [Hr2 [Hb _]%Forall_cons]. destruct Hap as [[D1 [D2 _]%Forall_cons]%Forall_cons _].
  assert (Hsv2 : saved_by (mem m2) m buf ra).
  { apply (saved_by_keep (mem m1)); [|done]. intros a H. apply Hkeep. rewrite !outside_cons. lia. }
  destruct (longjmp_spec callee m m2 buf ra (regs m RBP) ra) as (m3 & E3 & Esp3 & Ebp3 & Er3 & Eax3 & Ex3); [done|done|done| |done|done| | |].
  { by apply apart_two. }
  { rewrite lookup_insert_ne by (destruct D2 as [H|H]; cbn [fst snd] in H; lia). rewrite Hkeep; [done|]. rewrite !outside_cons. lia. }
  { rewrite lookup_insert_ne by (destruct D2 as [H|H]; cbn [fst snd] in H; lia). rewrite Hkeep; [done|]. rewrite !outside_cons. lia. }
  exists m3. split; [done|]. split; [by rewrite Esp3, Esp|]. split; [|done]. intros r Hin. rewrite (Ek r Hin).
  destruct (callee_saved_field r Hin) as [->|[o Ho]]; [done|]. by apply (Er3 r o).
Qed.

(** C39: A function that calls [setjmp] and later, with the same stack pointer, calls [longjmp] with the
    buffer does not get back to the first call: [longjmp] takes the address to return to from the stack,
    where its own call has put one, and returns behind that call, with the registers as they are. *)
Theorem longjmp_returns_to_its_call callee m buf ra v ra2 : setjmp_call m buf ra →
  ∃ m1, exec callee 0 setjmp m = Done (m1, Returned ra) ∧
    ∃ m3, exec callee 0 ([MovI RDI buf; MovI RSI v; PushI ra2] ++ longjmp) m1 = Done (m3, Returned ra2) ∧
      regs m3 RSP = regs m1 RSP ∧ (∀ r, r ∈ callee_saved → regs m3 r = regs m1 r).
Proof.
  intros Hc. destruct (setjmp_spec callee m buf ra Hc) as (m1 & E1 & Hsv & Hp & Hret & Esp & _ & Er & _ & _).
  destruct Hc as [_ [Hok Hdis] Ha _ _ _]. apply Forall_cons in Hok as [Hs [Hb _]%Forall_cons]. destruct Hdis as [[Hdis _]%Forall_cons _].
  pose proof Hs as (Hs0 & _ & Hs1). cbn [fst snd] in Hs0, Hs1.
  exists m1. split; [exact E1|]. clear E1. cbn [app]. do 2 (erewrite exec_next; [|reflexivity]).
  assert (Eback : u64 (regs m1 RSP - 8) = regs m RSP).
  { rewrite Esp. unfold wrap. rewrite Zminus_mod_idemp_l. replace (regs m RSP + 8 - 8) with (regs m RSP) by lia. apply Z.mod_small. lia. }
  erewrite exec_next; [|cbn [step]; unfold store; reg_simp; rewrite Eback, Hret; reflexivity]. reg_simp. set (m2 := put _ RSP _).
  assert (E2 : regs m2 RSP = regs m RSP) by (unfold m2; by reg_simp).
  assert (Ebp : regs m2 RBP = regs m1 RBP) by (unfold m2; by reg_simp).
  destruct (longjmp_spec callee m m2 buf ra (regs m1 RBP) ra2) as (m3 & E3 & Esp3 & Ebp3 & Er3 & _);
    rewrite ?E2, ?Ebp; cbn [mem m2 put with_regs with_mem].
  { apply (saved_by_keep (mem m1)); [|done]. intros a Hr. apply lookup_insert_ne. destruct Hdis as [E|E]; cbn [fst snd] in E; lia. }
  { unfold m2. by reg_simp. }
  { exact Ha. }
  { apply apart_two. split; [unfold region_ok; cbn; lia|]. split; [done|]. destruct Hdis as [E|E]; [left|right]; cbn [fst snd] in *; lia. }
  { rewrite lookup_insert_ne by lia. by eexists. }
  { exact Hs. }
  { by rewrite lookup_insert_eq. }
  { by rewrite lookup_insert_ne, lookup_insert_eq by lia. }
  exists m3. split; [exact E3|]. clear E3. split; [by rewrite Esp3|]. intros r Hin. destruct (callee_saved_field r Hin) as [->|[o Ho]]; [done|].
  rewrite (Er3 r o Ho). symmetry. apply Er. apply jump_fields_in in Ho as (_ & Hn & _). rewrite !not_elem_of_cons in *. naive_solver.
Qed.

(** ** Examples *)

(** A stack at 0x1010 and a buffer at 0x2000. *)
Definition jump_machine : machine :=
  Machine (λ r, match r with RSP => 0x1010 | RDI => 0x2000 | RBP => 0x1100 | RBX => 7 | R12 => 8 | _ => 0 end)
    (<[0x1010 := 0x401000]> (list_to_map ((λ a, (a, 0)) <$> ([0x900; 0x1008] ++ ((λ i, 0x2000 + 8 * Z.of_nat i) <$> seq 0 9)))))
    0 0 0 false false (λ _, 0) ∅.
Lemma jump_machine_call : setjmp_call jump_machine 0x2000 0x401000.
Proof.
  split; [done| |done|by vm_compute|by vm_compute; eexists|].
  - apply apart_two. split; [by vm_compute|]. split; [by vm_compute|]. left. by vm_compute.
  - intros o Ho Hm. assert (Hc : ∃ k, (k < 9)%nat ∧ o = 8 * Z.of_nat k).
    { exists (Z.to_nat (o / 8)). pose proof (Z.div_mod o 8). unfold jmp_buf_size in Ho. split; [|lia].
      apply Nat2Z.inj_lt. rewrite Z2Nat.id by lia. lia. }
    destruct Hc as (k & Hk & ->). do 9 (destruct k as [|k]; [by vm_compute; eexists|]). lia.
Qed.

Lemma longjmp_resumes_witness :
  ∃ m1 m3, exec (λ _ m, Done m) 0 setjmp jump_machine = Done (m1, Returned 0x401000) ∧
    exec (λ _ m, Done m) 0 longjmp (put (put m1 RSP 0x908) RSI 0) = Done (m3, Returned 0x401000) ∧ regs m3 RBX = 7 ∧ regs m3 RAX = 1.
Proof.
  destruct (longjmp_resumes (λ _ m, Done m) jump_machine 0x2000 0x401000 jump_machine_call) as (m1 & E1 & _ & _ & Er & Ho & Hj).
  assert (Hd : regs m1 RDI = 0x2000).
  { pose proof (f_equal (λ o, match o with Done (m, _) => regs m RDI | _ => 0 end) E1) as E. cbv beta iota in E. rewrite <-E. clear. vm_compute. reflexivity. }
  destruct (Hj (put (put m1 RSP 0x908) RSI 0)) as (m3 & E3 & _ & Er3 & Eax & _).
  - cbn. exact Hd.
  - clear. reg_simp. change (regs jump_machine RSP) with 0x1010. unfold apart, region_ok, disjoint, jmp_buf_size. cbn [pairwise_disjoint].
    rewrite !Forall_cons, !Forall_nil. unfold disjoint. cbn [fst snd]. lia.
  - clear -Ho. cbn. rewrite Ho by (rewrite !outside_cons; split; [left; by vm_compute|]; split; [left; by vm_compute|by apply outside_nil]). by vm_compute; eexists.
  - intros a _. reflexivity.
  - exists m1, m3. split; [exact E1|]. split; [exact E3|]. split; [|exact Eax].
    rewrite Er3, Er by (apply (bool_decide_eq_true_1 _); reflexivity). reflexivity.
Defined.
Lemma longjmp_returns_to_its_call_witness :
  ∃ m1 m3, exec (λ _ m, Done m) 0 setjmp jump_machine = Done (m1, Returned 0x401000) ∧
    exec (λ _ m, Done m) 0 ([MovI RDI 0x2000; MovI RSI 5; PushI 0x402000] ++ longjmp) m1 = Done (m3, Returned 0x402000).
Proof.
  destruct (longjmp_returns_to_its_call (λ _ m, Done m) jump_machine 0x2000 0x401000 5 0x402000 jump_machine_call) as (m1 & E1 & m3 & E3 & _).
  exists m1, m3. split; [exact E1|exact E3].
Defined.
