(* ===== verification/Logger.v ===== *)
(** * The kernel log

    Models src/kernel/logger.cpp and logger.h with the header of a log entry in
    src/libraries/j6/include/j6/types.h.  Entries lie one behind the other in a ring buffer whose pages
    follow each other twice in the address space (a [vm_area_ring]); [output] formats a message with
    [Format.vformat], drops old entries until the new one fits and copies it to the end, and [get_entry]
    walks the entries to the first one that a reader has not seen.

    The byte at each offset is a cell that the parameter [cell] names: the theorems hold for every
    mapping of the two copies in which offsets that share a cell differ by the buffer's size, so also
    when the copies do not share all their pages.  A thread that waits in [get_entry] is not
    represented; the call returns [None] and is made again when the thread is woken.

    [log_reader_sees_entries] shows that the log holds its newest entries, unaltered and in order, and
    that a reader gets the first one it has not seen.  [get_entry_future_panics] shows that a number
    that is not yet reached fails the kernel's assertion. *)
From S2P Require Import Prelude Format.

(** ** Entries *)

(** [level] *)
Definition level_silent : Z := 0.
Definition level_fatal : Z := 1.
Definition level_info : Z := 4.
Definition level_verbose : Z := 5.
Definition level_spam : Z := 6.

(** [j6_log_entry]: bit fields of one word, and the message behind it. *)
Record log_entry := LogEntry {
  le_id : Z;
  le_severity : Z;
  le_area : Z;
  le_message : list Z;
}.
Definition header_size : Z := 8.
Definition entry_bytes (e : log_entry) : Z := header_size + Z.of_nat (length (le_message e)).
Definition header_word (id bytes severity area : Z) : Z :=
  wrap 42 id + wrap 11 bytes * 2 ^ 42 + wrap 4 severity * 2 ^ 53 + wrap 7 area * 2 ^ 57.
Definition word_id (w : Z) : Z := wrap 42 w.
Definition word_bytes (w : Z) : Z := wrap 11 (w / 2 ^ 42).
Definition word_severity (w : Z) : Z := wrap 4 (w / 2 ^ 53).
Definition word_area (w : Z) : Z := wrap 7 (w / 2 ^ 57).

Definition encode (e : log_entry) : list Z :=
  le_bytes 8 (header_word (le_id e) (entry_bytes e) (le_severity e) (le_area e)) ++ le_message e.

(** ** The logger *)

Record logger := Logger {
  m_levels : list Z;
  m_cells : gmap Z Z;
  m_size : Z;
  m_start : Z;
  m_end : Z;
  m_count : Z;
}.

Definition areas_count : nat := 15.
(** The levels of log_areas.inc, in its order. *)
Definition log_areas : list Z :=
  [level_info; level_info; level_info; level_info; level_info; level_info; level_info; level_info; level_info;
   level_verbose; level_info; level_spam; level_spam; level_spam; level_info].
Definition set_level (l : logger) (area lvl : Z) : logger :=
  Logger (<[Z.to_nat area := lvl]> (m_levels l)) (m_cells l) (m_size l) (m_start l) (m_end l) (m_count l).
Definition get_level (l : logger) (area : Z) : outcome Z := arr_get (m_levels l) area.
Fixpoint set_levels (l : logger) (area : Z) (lvls : list Z) : logger :=
  match lvls with [] => l | lvl :: lvls => set_levels (set_level l area lvl) (area + 1) lvls end.
(** The constructor on a buffer of [size] bytes. *)
Definition make_logger (size : Z) : outcome logger :=
  let* _ := kassert (Z.land size (u64 (size - 1)) =? 0) in
  Done (set_levels (Logger (replicate areas_count 0) ∅ size 0 0 0) 0 log_areas).

Definition offset (l : logger) (i : Z) : Z := Z.land i (u64 (m_size l - 1)).
Definition free (l : logger) : Z := u64 (m_size l - u64 (m_end l - m_start l)).
Definition has_entry (l : logger) (seen : Z) : bool := seen <? m_count l.

Section ring.
(** The cell of an offset in the two copies of the buffer. *)
Context (cell : Z → Z).

Definition read_byte (m : gmap Z Z) (v : Z) : Z := default 0 (m !! cell v).
Fixpoint read_bytes (m : gmap Z Z) (v : Z) (n : nat) : list Z :=
  match n with O => [] | S n => read_byte m v :: read_bytes m (v + 1) n end.
Fixpoint write_bytes (m : gmap Z Z) (v : Z) (bs : list Z) : gmap Z Z :=
  match bs with [] => m | b :: bs => write_bytes (<[cell v := b]> m) (v + 1) bs end.
Definition header_at (l : logger) (off : Z) : Z := of_le (read_bytes (m_cells l) (offset l off) 8).

(** [while (free() < size)] *)
Fixpoint make_room (fuel : nat) (l : logger) (size : Z) : outcome logger :=
  match fuel with
  | O => Diverge
  | S fuel =>
      if free l <? size then
        let bytes := word_bytes (header_at l (m_start l)) in
        make_room fuel (Logger (m_levels l) (m_cells l) (m_size l) (u64 (m_start l + bytes)) (m_end l) (m_count l)) size
      else Done l
  end.

Definition buffer_len : Z := 256.
Definition message_len : Z := buffer_len - header_size.
Definition output (l : logger) (severity area : Z) (fmt : list Z) (args : list arg) : outcome logger :=
  let* message := vformat message_len fmt args in
  let size := header_size + Z.of_nat (length message) in
  let* l := make_room (S (Z.to_nat (m_size l))) l size in
  let count := u64 (m_count l + 1) in
  let entry := le_bytes 8 (header_word count size severity area) ++ message in
  Done (Logger (m_levels l) (write_bytes (m_cells l) (offset l (m_end l)) entry) (m_size l)
          (m_start l) (u64 (m_end l + size)) count).

(** [log]: dropped when it is less severe than the area's level. *)
Definition log (l : logger) (area severity : Z) (fmt : list Z) (args : list arg) : outcome logger :=
  let* limit := get_level l area in
  if limit <? severity then Done l else output l severity area fmt args.
Definition fatal (l : logger) (area : Z) (fmt : list Z) (args : list arg) : outcome logger :=
  let* _ := output l level_fatal area fmt args in Panic.

(** [while (seen >= ent->id)] *)
Fixpoint find_entry (fuel : nat) (l : logger) (seen off : Z) : outcome Z :=
  match fuel with
  | O => Diverge
  | S fuel =>
      let w := header_at l off in
      if word_id w <=? seen then
        let off := u64 (off + word_bytes w) in
        let* _ := kassert (off <? m_end l) in
        find_entry fuel l seen off
      else Done off
  end.
(** [get_entry] with a buffer of [size] bytes: the entry's size, and its bytes when they fit; [None]
    when there is no entry to return and the thread waits. *)
Definition get_entry (l : logger) (seen size : Z) : outcome (option (Z * option (list Z))) :=
  if seen =? m_count l then Done None
  else
    let* off := find_entry (S (Z.to_nat (m_size l))) l seen (m_start l) in
    let bytes := word_bytes (header_at l off) in
    Done (Some (bytes,
      if bytes <=? size then Some (read_bytes (m_cells l) (offset l off) (Z.to_nat bytes)) else None)).
End ring.
Definition j6_status_ok : Z := 0.
Definition j6_err_insufficient : Z := 0x8000000000000005.
(** [system_get_log] *)
Definition system_get_log (cell : Z → Z) (l : logger) (seen buffer_len : Z) : outcome (option (Z * Z * option (list Z))) :=
  let* r := get_entry cell l seen buffer_len in
  Done (match r with
        | None => None
        | Some (n, bs) => Some (if buffer_len <? n then j6_err_insufficient else j6_status_ok, n, bs)
        end).

(** ** Headers *)

Lemma header_fields id bytes severity area :
  let w := header_word id bytes severity area in
  is_u64 w ∧ word_id w = wrap 42 id ∧ word_bytes w = wrap 11 bytes ∧
  word_severity w = wrap 4 severity ∧ word_area w = wrap 7 area.
Proof.
  cbv zeta. unfold header_word. pose proof (wrap_range 42 id ltac:(lia)) as Ha. pose proof (wrap_range 11 bytes ltac:(lia)) as Hb.
  pose proof (wrap_range 4 severity ltac:(lia)) as Hc. pose proof (wrap_range 7 area ltac:(lia)) as Hd. unfold is_word in *.
  set (a := wrap 42 id) in *. set (b := wrap 11 bytes) in *. set (c := wrap 4 severity) in *. set (d := wrap 7 area) in *.
  clearbody a b c d. unfold word_id, word_bytes, word_severity, word_area, wrap. split; [lia|].
  assert (H : ∀ n q r m, 0 < m → 0 ≤ r < m → n = m * q + r → n / m = q ∧ n mod m = r).
  { intros n q r m Hm Hr ->. split; [symmetry; apply (Z.div_unique _ _ _ r); lia|symmetry; apply (Z.mod_unique _ _ q); lia]. }
  set (w := a + _ + _ + _). split; [apply (H w (b + c * 2 ^ 11 + d * 2 ^ 15)); lia|].
  rewrite (proj1 (H w (b + c * 2 ^ 11 + d * 2 ^ 15) a (2 ^ 42) ltac:(lia) ltac:(lia) ltac:(lia))).
  rewrite (proj1 (H w (c + d * 2 ^ 4) (a + b * 2 ^ 42) (2 ^ 53) ltac:(lia) ltac:(lia) ltac:(lia))).
  rewrite (proj1 (H w d (a + b * 2 ^ 42 + c * 2 ^ 53) (2 ^ 57) ltac:(lia) ltac:(lia) ltac:(lia))).
  split; [apply (H _ (c + d * 2 ^ 4)); lia|]. split; [apply (H _ d); lia|]. apply (H _ 0); lia.
Qed.
Lemma length_encode e : Z.of_nat (length (encode e)) = entry_bytes e.
Proof. unfold encode, entry_bytes, header_size. rewrite length_app, length_le_bytes. lia. Qed.

(** ** The log as a list of entries *)

Definition total (es : list log_entry) : Z := foldr (λ e n, entry_bytes e + n) 0 es.
Lemma entry_bytes_pos e : 8 ≤ entry_bytes e.
Proof. unfold entry_bytes, header_size. lia. Qed.
Lemma total_nonneg es : 0 ≤ total es.
Proof. induction es as [|e es IH]; cbn; [done|]. pose proof (entry_bytes_pos e). fold (total es). lia. Qed.
Lemma total_cons e es : total (e :: es) = entry_bytes e + total es.
Proof. done. Qed.
Lemma total_app es es' : total (es ++ es') = total es + total es'.
Proof. induction es as [|e es IH]; [done|]. cbn [app]. rewrite !total_cons. lia. Qed.
Lemma length_le_total es : 8 * Z.of_nat (length es) ≤ total es.
Proof. induction es as [|e es IH]; [done|]. rewrite total_cons. cbn [length]. pose proof (entry_bytes_pos e). lia. Qed.

(** The entries that remain when room is made for [size] bytes in a buffer of [n]. *)
Fixpoint keep (n size : Z) (es : list log_entry) : list log_entry :=
  match es with
  | [] => []
  | e :: es' => if n <? total es + size then keep n size es' else es
  end.
Lemma keep_suffix n size es : ∃ pre, es = pre ++ keep n size es.
Proof.
  induction es as [|e es [pre IH]]; cbn [keep]; [by exists []|]. case_match; [|by exists []].
  exists (e :: pre). cbn. by f_equal.
Qed.
Lemma keep_fits n size es : size ≤ n → total (keep n size es) + size ≤ n.
Proof.
  intros Hs. induction es as [|e es IH]; cbn [keep]; [cbn; lia|].
  destruct (Z.ltb_spec n (total (e :: es) + size)); [done|lia].
Qed.

Lemma mod_apart x y n : 0 < y - x < n → x mod n ≠ y mod n.
Proof.
  intros H E. assert (E0 : (y - x) mod n = 0) by (rewrite Zminus_mod, E, Z.sub_diag; apply Z.mod_0_l; lia).
  rewrite Z.mod_small in E0; lia.
Qed.

Section refinement.
Context (cell : Z → Z) (k : Z).
Context (Hk : 8 ≤ k ≤ 62).
Context (Hcell : ∀ x y, 0 ≤ x < 2 * 2 ^ k → 0 ≤ y < 2 * 2 ^ k → cell x = cell y → x mod 2 ^ k = y mod 2 ^ k).
Let N : Z := 2 ^ k.

Lemma ring_size : 256 ≤ N < 2 ^ 63.
Proof.
  unfold N. split; [change 256 with (2 ^ 8); apply Z.pow_le_mono_r; lia|apply Z.pow_lt_mono_r; lia].
Qed.

(** Entry [e] lies at position [o]. *)
Definition holds (m : gmap Z Z) (o : Z) (e : log_entry) : Prop :=
  ∀ j b, encode e !! j = Some b → m !! cell (o mod N + Z.of_nat j) = Some b.
Fixpoint chain (m : gmap Z Z) (o : Z) (es : list log_entry) : Prop :=
  match es with [] => True | e :: es => holds m o e ∧ chain m (o + entry_bytes e) es end.

Record log_rep (l : logger) (es : list log_entry) : Prop := {
  rep_size : m_size l = N;
  rep_start : 0 ≤ m_start l;
  rep_end : m_end l = m_start l + total es;
  rep_fits : total es ≤ N;
  rep_count : Z.of_nat (length es) ≤ m_count l < 2 ^ 42;
  rep_bound : m_end l ≤ 256 * m_count l;
  rep_chain : chain (m_cells l) (m_start l) es;
  rep_ids : ∀ i e, es !! i = Some e → le_id e = m_count l - Z.of_nat (length es) + 1 + Z.of_nat i;
  rep_small : Forall (λ e, entry_bytes e ≤ 256) es;
}.

Lemma offset_mod l i : m_size l = N → offset l i = i mod N.
Proof.
  intros Hs. unfold offset. pose proof ring_size. rewrite Hs, wrap_small by (unfold is_word; lia).
  unfold N. rewrite <-Z.land_ones by lia. f_equal. rewrite Z.ones_equiv. lia.
Qed.
Lemma log_free l es : log_rep l es → free l = N - total es.
Proof.
  intros R. destruct R. pose proof ring_size. pose proof (total_nonneg es). unfold free. rewrite rep_size0.
  rewrite (wrap_small 64 (m_end l - m_start l)) by (unfold is_word; lia). rewrite wrap_small by (unfold is_word; lia). lia.
Qed.

(** *** Bytes *)

Lemma read_bytes_holds m bs : ∀ v,
  (∀ j b, bs !! j = Some b → m !! cell (v + Z.of_nat j) = Some b) → read_bytes cell m v (length bs) = bs.
Proof.
  induction bs as [|b bs IH]; intros v H; cbn [length read_bytes]; [done|]. f_equal.
  - unfold read_byte. specialize (H 0%nat b eq_refl). rewrite Z.add_0_r in H. by rewrite H.
  - apply IH. intros j b' Hj. specialize (H (S j) b' Hj). by replace (v + 1 + Z.of_nat j) with (v + Z.of_nat (S j)) by lia.
Qed.
Lemma read_bytes_entry l o e :
  m_size l = N → holds (m_cells l) o e →
  read_bytes cell (m_cells l) (offset l o) (Z.to_nat (entry_bytes e)) = encode e.
Proof.
  intros Hs Hh. rewrite offset_mod by done. rewrite <-length_encode, Nat2Z.id. apply read_bytes_holds. exact Hh.
Qed.
Lemma header_at_entry l o e :
  m_size l = N → holds (m_cells l) o e →
  header_at cell l o = header_word (le_id e) (entry_bytes e) (le_severity e) (le_area e).
Proof.
  intros Hs Hh. unfold header_at. rewrite offset_mod by done.
  pose proof (header_fields (le_id e) (entry_bytes e) (le_severity e) (le_area e)) as [Hw _].
  set (w := header_word _ _ _ _) in *. pose proof (read_bytes_holds (m_cells l) (le_bytes 8 w) (o mod N)) as Hr.
  rewrite length_le_bytes in Hr. rewrite Hr; [by apply of_le_word|].
  intros j b Hj. apply Hh. unfold encode. fold w. by apply lookup_app_l_Some.
Qed.
Lemma entry_header l o e :
  m_size l = N → holds (m_cells l) o e → 0 ≤ le_id e < 2 ^ 42 → entry_bytes e ≤ 256 →
  word_id (header_at cell l o) = le_id e ∧ word_bytes (header_at cell l o) = entry_bytes e.
Proof.
  intros Hs Hh Hid Hb. rewrite (header_at_entry l o e) by done. pose proof (entry_bytes_pos e).
  destruct (header_fields (le_id e) (entry_bytes e) (le_severity e) (le_area e)) as (_ & -> & -> & _).
  by rewrite !wrap_small by (unfold is_word; lia).
Qed.

Lemma write_bytes_other bs c : ∀ m v,
  (∀ j, 0 ≤ j < Z.of_nat (length bs) → cell (v + j) ≠ c) → write_bytes cell m v bs !! c = m !! c.
Proof.
  induction bs as [|b bs IH]; intros m v H; cbn [write_bytes]; [done|]. cbn [length] in H. rewrite IH.
  - apply lookup_insert_ne. rewrite <-(Z.add_0_r v). apply H. lia.
  - intros j Hj. replace (v + 1 + j) with (v + (1 + j)) by lia. apply H. lia.
Qed.
Lemma write_bytes_at bs : ∀ m v j b,
  (∀ i i', 0 ≤ i < i' → i' < Z.of_nat (length bs) → cell (v + i) ≠ cell (v + i')) →
  bs !! j = Some b → write_bytes cell m v bs !! cell (v + Z.of_nat j) = Some b.
Proof.
  induction bs as [|b' bs IH]; intros m v j b Hd Hj; [done|]. cbn [write_bytes]. cbn [length] in Hd. destruct j as [|j]; cbn in Hj.
  - injection Hj as ->. rewrite Z.add_0_r. rewrite write_bytes_other; [apply lookup_insert_eq|].
    intros i Hi E. apply (Hd 0 (1 + i)); [lia..|]. rewrite Z.add_0_r. by replace (v + (1 + i)) with (v + 1 + i) by lia.
  - replace (v + Z.of_nat (S j)) with (v + 1 + Z.of_nat j) by lia. apply IH; [|done]. intros i i' Hi Hi'.
    replace (v + 1 + i) with (v + (1 + i)) by lia. replace (v + 1 + i') with (v + (1 + i')) by lia. apply Hd; lia.
Qed.

(** Positions less than the buffer's size apart are in different cells. *)
Lemma cells_apart o o' j j' :
  0 ≤ j ≤ 256 → 0 ≤ j' ≤ 256 → 0 < (o' + j') - (o + j) < N → cell (o mod N + j) ≠ cell (o' mod N + j').
Proof.
  intros Hj Hj' Hd E. pose proof ring_size as HN. pose proof (Z.mod_pos_bound o N ltac:(lia)). pose proof (Z.mod_pos_bound o' N ltac:(lia)).
  apply Hcell in E; [|fold N; lia..]. fold N in E. rewrite !Zplus_mod_idemp_l in E.
  revert E. by apply mod_apart.
Qed.

Lemma holds_write m o o' e bs :
  holds m o e → entry_bytes e ≤ 256 → Z.of_nat (length bs) ≤ 256 → o + entry_bytes e ≤ o' → o' + Z.of_nat (length bs) - o ≤ N →
  holds (write_bytes cell m (o' mod N) bs) o e.
Proof.
  intros Hh He Hl Ho Hn j b Hj. rewrite write_bytes_other; [by apply Hh|]. intros i Hi E.
  pose proof (lookup_lt_Some _ _ _ Hj) as Hlt. pose proof (length_encode e).
  symmetry in E. revert E. apply cells_apart; lia.
Qed.
Lemma chain_write m o' bs es : ∀ o,
  chain m o es → Forall (λ e, entry_bytes e ≤ 256) es → Z.of_nat (length bs) ≤ 256 → o + total es ≤ o' →
  o' + Z.of_nat (length bs) - o ≤ N → chain (write_bytes cell m (o' mod N) bs) o es.
Proof.
  induction es as [|e es IH]; intros o Hc Hs Hl Ho Hn; [done|]. destruct Hc as [He Hc]. apply Forall_cons in Hs as [Hse Hs].
  rewrite total_cons in Ho. pose proof (total_nonneg es). pose proof (entry_bytes_pos e).
  split; [apply holds_write; (done || lia)|]. apply IH; (done || lia).
Qed.
Lemma chain_app m es es' : ∀ o, chain m o (es ++ es') ↔ chain m o es ∧ chain m (o + total es) es'.
Proof.
  induction es as [|e es IH]; intros o; cbn [app chain]; [cbn; rewrite Z.add_0_r; tauto|].
  rewrite IH, total_cons. replace (o + entry_bytes e + total es) with (o + (entry_bytes e + total es)) by lia. tauto.
Qed.

(** *** Output *)

Lemma rep_tail l e es :
  log_rep l (e :: es) →
  log_rep (Logger (m_levels l) (m_cells l) (m_size l) (m_start l + entry_bytes e) (m_end l) (m_count l)) es.
Proof.
  intros [Hs Hst He Hf Hc Hb Hch Hid Hsm]. rewrite total_cons in *. cbn [length] in *. pose proof (entry_bytes_pos e). destruct Hch as [_ Hch].
  apply Forall_cons in Hsm as [_ Hsm]. split; cbn [m_size m_start m_end m_count m_cells]; try (done || lia).
  intros i e' Hi. rewrite (Hid (S i) e' Hi). lia.
Qed.
Lemma make_room_spec size fuel : ∀ l es,
  log_rep l es → 0 ≤ size ≤ N → (length es < fuel)%nat →
  ∃ l', make_room cell fuel l size = Done l' ∧ log_rep l' (keep N size es) ∧ m_levels l' = m_levels l ∧ m_count l' = m_count l.
Proof.
  induction fuel as [|fuel IH]; intros l es R Hsz Hf; [lia|]. cbn [make_room]. rewrite (log_free l es R). pose proof ring_size.
  destruct (Z.ltb_spec (N - total es) size) as [Hlt|Hge].
  - destruct es as [|e es]; [cbn in Hlt; lia|]. pose proof R as [Hs Hst He Hfit Hc Hb [Hh _] Hid Hsm].
    apply Forall_cons in Hsm as [Hse _]. cbn [length] in *. rewrite total_cons in *. pose proof (total_nonneg es). pose proof (entry_bytes_pos e).
    destruct (entry_header l (m_start l) e Hs Hh) as [_ ->]; [rewrite (Hid 0%nat e eq_refl); cbn [length]; lia|done|].
    rewrite wrap_small by (unfold is_word; lia). cbn [keep]. rewrite (proj2 (Z.ltb_lt _ _)) by (rewrite total_cons; lia).
    apply (IH _ es (rep_tail l e es R)); lia.
  - exists l. split; [done|]. split; [|done]. destruct es as [|e es]; [done|]. cbn [keep]. by rewrite (proj2 (Z.ltb_ge _ _)) by lia.
Qed.
Lemma vformat_length cap fmt args w : vformat cap fmt args = Done w → Z.of_nat (length w) < cap.
Proof.
  unfold vformat. destruct (vformat_loop _ _ _ _ _ _) as [w'| | |]; [|done..]. cbn [mbind outcome_bind].
  destruct (Z.ltb_spec (Z.of_nat (length w')) cap); [|done]. by intros [= <-].
Qed.

Lemma output_spec l es severity area fmt args message :
  log_rep l es → m_count l + 1 < 2 ^ 42 → vformat message_len fmt args = Done message →
  let e := LogEntry (m_count l + 1) severity area message in
  ∃ l', output cell l severity area fmt args = Done l' ∧ log_rep l' (keep N (entry_bytes e) es ++ [e]) ∧
    m_levels l' = m_levels l ∧ m_count l' = m_count l + 1.
Proof.
  intros R Hc Hm e. unfold output. rewrite Hm. cbn [mbind outcome_bind]. pose proof (vformat_length _ _ _ _ Hm) as Hml.
  unfold message_len, buffer_len, header_size in Hml. change (header_size + Z.of_nat (length message)) with (entry_bytes e).
  assert (He : 8 ≤ entry_bytes e ≤ 256) by (unfold entry_bytes, header_size; cbn; lia). pose proof ring_size as HN.
  pose proof R as [Hs0 _ _ Hf0 _ _ _ _ _]. pose proof (length_le_total es).
  destruct (make_room_spec (entry_bytes e) (S (Z.to_nat (m_size l))) l es R) as (l1 & -> & R1 & Hlv & Hct); [lia|rewrite Hs0; lia|].
  cbn [mbind outcome_bind]. set (es1 := keep N (entry_bytes e) es) in *. assert (Hfit : total es1 + entry_bytes e ≤ N) by (apply keep_fits; lia).
  pose proof R1 as [Hs Hst Hen Hf Hcn Hb Hch Hid Hsm]. rewrite Hct in *. pose proof (total_nonneg es1).
  rewrite (wrap_small 64 (m_count l + 1)), (wrap_small 64 (m_end l1 + entry_bytes e)) by (unfold is_word; lia).
  change (le_bytes 8 _ ++ message) with (encode e). rewrite offset_mod by done.
  eexists. split; [done|]. split; [|done].
  pose proof (length_encode e) as Hle. assert (Hte : total [e] = entry_bytes e) by (cbn; lia).
  split; cbn [m_size m_start m_end m_count m_cells m_levels]; rewrite ?total_app, ?Hte, ?length_app; cbn [length]; try (done || lia).
  - apply chain_app. split; [apply chain_write; (done || lia)|]. cbn [chain]. split; [|done].
    rewrite <-Hen. intros j b Hj. apply write_bytes_at; [|done]. intros i i' Hi Hi'. apply cells_apart; lia.
  - intros i e' [Hi|[Hi Hi']]%lookup_app_Some; [rewrite (Hid i e' Hi); lia|].
    apply list_lookup_singleton_Some in Hi' as [Hi0 <-]. cbn [le_id e]. lia.
  - apply Forall_app. split; [done|]. apply Forall_singleton. lia.
Qed.

(** *** Reading *)

Lemma find_entry_spec l seen es : ∀ fuel off,
  m_size l = N → m_end l < 2 ^ 64 → chain (m_cells l) off es → Forall (λ e, 0 ≤ le_id e < 2 ^ 42 ∧ entry_bytes e ≤ 256) es →
  0 ≤ off → off + total es = m_end l → (length es ≤ fuel)%nat →
  ∀ i e, list_find (λ e, seen < le_id e) es = Some (i, e) →
  ∃ off', find_entry cell fuel l seen off = Done off' ∧ holds (m_cells l) off' e ∧ e ∈ es.
Proof.
  induction es as [|e es IH]; intros fuel off Hs Hen Hc Hok Ho Ht Hf i e' Hfd; [done|]. destruct Hc as [Hh Hc].
  apply Forall_cons in Hok as [[Hid Hb] Hok]. rewrite total_cons in Ht. cbn [length] in Hf. destruct fuel as [|fuel]; [lia|].
  cbn [find_entry]. destruct (entry_header l off e Hs Hh Hid Hb) as [-> ->]. pose proof (total_nonneg es). pose proof (entry_bytes_pos e).
  cbn [list_find] in Hfd. destruct (Z.leb_spec (le_id e) seen).
  - rewrite decide_False in Hfd by lia. apply fmap_Some in Hfd as ([i' e''] & Hfd & [= -> ->]).
    rewrite wrap_small by (unfold is_word; lia). destruct es as [|e2 es2]; [done|].
    rewrite (proj2 (Z.ltb_lt (off + entry_bytes e) (m_end l))) by (rewrite total_cons in Ht; pose proof (entry_bytes_pos e2); pose proof (total_nonneg es2); lia).
    cbn [kassert mbind outcome_bind]. destruct (IH fuel (off + entry_bytes e) Hs Hen Hc Hok ltac:(lia) ltac:(lia) ltac:(lia) i' e'' Hfd) as (off' & Hf1 & Hf2 & Hf3).
    exists off'. split; [done|]. split; [done|]. by apply elem_of_cons; right.
  - rewrite decide_True in Hfd by done. injection Hfd as <- <-. exists off. split; [done|]. split; [done|]. apply elem_of_cons. by left.
Qed.
Lemma get_entry_spec l es seen size :
  log_rep l es → es ≠ [] → 0 ≤ seen < m_count l →
  ∃ i e, list_find (λ e, seen < le_id e) es = Some (i, e) ∧
    get_entry cell l seen size = Done (Some (entry_bytes e, if entry_bytes e <=? size then Some (encode e) else None)).
Proof.
  intros R Hne Hseen. pose proof R as [Hs Hst Hen Hf Hcn Hb Hch Hid Hsm]. pose proof ring_size. pose proof (length_le_total es).
  assert (Hok : Forall (λ e, 0 ≤ le_id e < 2 ^ 42 ∧ entry_bytes e ≤ 256) es).
  { rewrite Forall_forall in *. intros e He. split; [|by apply Hsm]. apply list_elem_of_lookup in He as [i Hi].
    rewrite (Hid i e Hi). pose proof (lookup_lt_Some _ _ _ Hi). lia. }
  assert (Hex : is_Some (list_find (λ e, seen < le_id e) es)).
  { destruct es as [|e0 es0 _] using rev_ind; [done|].
    apply (list_find_elem_of _ (es0 ++ [e0]) e0); [apply elem_of_app; right; by apply list_elem_of_singleton|].
    rewrite (Hid (length es0) e0) by (by rewrite lookup_app_r, Nat.sub_diag by lia). rewrite length_app. cbn [length]. lia. }
  destruct Hex as [[i e] Hfd]. exists i, e. split; [done|]. unfold get_entry. rewrite (proj2 (Z.eqb_neq seen (m_count l))) by lia.
  destruct (find_entry_spec l seen es (S (Z.to_nat (m_size l))) (m_start l) Hs ltac:(lia) Hch Hok ltac:(lia) ltac:(lia) ltac:(rewrite Hs; lia) i e Hfd)
    as (off & -> & Hh & He). cbn [mbind outcome_bind]. rewrite Forall_forall in Hok. destruct (Hok e He) as [Hide Hbe].
  destruct (entry_header l off e Hs Hh Hide Hbe) as [_ ->]. destruct (entry_bytes e <=? size); [|done].
  by rewrite read_bytes_entry.
Qed.
Lemma find_entry_panics l seen es : ∀ fuel off,
  m_size l = N → m_end l < 2 ^ 64 → chain (m_cells l) off es → Forall (λ e, 0 ≤ le_id e < 2 ^ 42 ∧ entry_bytes e ≤ 256) es →
  0 ≤ off → off + total es = m_end l → (length es ≤ fuel)%nat → es ≠ [] → Forall (λ e, le_id e ≤ seen) es →
  find_entry cell fuel l seen off = Panic.
Proof.
  induction es as [|e es IH]; intros fuel off Hs Hen Hc Hok Ho Ht Hf Hne Hall; [done|]. destruct Hc as [Hh Hc].
  apply Forall_cons in Hok as [[Hid Hb] Hok], Hall as [Hle Hall]. rewrite total_cons in Ht. cbn [length] in Hf. destruct fuel as [|fuel]; [lia|].
  cbn [find_entry]. destruct (entry_header l off e Hs Hh Hid Hb) as [-> ->]. pose proof (total_nonneg es). pose proof (entry_bytes_pos e).
  rewrite (proj2 (Z.leb_le _ _)) by done. rewrite wrap_small by (unfold is_word; lia).
  destruct (Z.ltb_spec (off + entry_bytes e) (m_end l)); [|done]. cbn [kassert mbind outcome_bind].
  apply IH; try (done || lia). intros ->. cbn in *. lia.
Qed.

(** *** Runs of the log *)

(** A call of [log] with what it is given. *)
Record log_call := LogCall { lc_area : Z; lc_severity : Z; lc_fmt : list Z; lc_args : list arg }.
Definition call_ok (c : log_call) : Prop :=
  0 ≤ lc_area c < Z.of_nat areas_count ∧ ∃ message, vformat message_len (lc_fmt c) (lc_args c) = Done message.
Fixpoint run_log (l : logger) (cs : list log_call) : outcome logger :=
  match cs with
  | [] => Done l
  | c :: cs => let* l := log cell l (lc_area c) (lc_severity c) (lc_fmt c) (lc_args c) in run_log l cs
  end.
(** The entries that the calls make, numbered from [n + 1]. *)
Fixpoint history (n : Z) (cs : list log_call) : list log_entry :=
  match cs with
  | [] => []
  | c :: cs =>
      if znth log_areas (lc_area c) <? lc_severity c then history n cs
      else
        match vformat message_len (lc_fmt c) (lc_args c) with
        | Done message => LogEntry (n + 1) (lc_severity c) (lc_area c) message :: history (n + 1) cs
        | _ => []
        end
  end.

(** The log holds the newest of the entries made so far; when some were dropped it is full but for
    less than one entry. *)
Definition log_state (l : logger) (past : list log_entry) : Prop :=
  m_levels l = log_areas ∧ m_count l = Z.of_nat (length past) ∧
  ∃ dropped es, past = dropped ++ es ∧ log_rep l es ∧ (past ≠ [] → es ≠ []) ∧ (dropped ≠ [] → N < total es + 256).

Lemma keep_full size e es : ∀ pre, es = pre ++ keep N size es → pre = e :: tail pre → Forall (λ e, entry_bytes e ≤ 256) es → 8 ≤ size →
  N < total (keep N size es) + size + 256.
Proof.
  revert e. induction es as [|e0 es IH]; intros e pre Hp He Hsm Hsz.
  - rewrite He in Hp. discriminate.
  - apply Forall_cons in Hsm as [Hse Hsm]. cbn [keep] in *. destruct (Z.ltb_spec N (total (e0 :: es) + size)) as [Hlt|Hge].
    + rewrite total_cons in Hlt. destruct (keep_suffix N size es) as [pre' Hp']. destruct pre' as [|e1 pre'].
      * cbn in Hp'. rewrite <-Hp'. lia.
      * by apply (IH e1 (e1 :: pre')).
    + rewrite He in Hp. apply (f_equal length) in Hp. cbn in Hp. rewrite length_app in Hp. cbn in Hp. lia.
Qed.
Lemma log_step l past c :
  log_state l past → call_ok c → Z.of_nat (length past) + 1 < 2 ^ 42 →
  ∃ l', log cell l (lc_area c) (lc_severity c) (lc_fmt c) (lc_args c) = Done l' ∧
    log_state l' (past ++ history (Z.of_nat (length past)) [c]).
Proof.
  intros (Hlv & Hct & dropped & es & -> & R & Hne & Hfull) (Ha & message & Hm) Hb. unfold log, get_level. rewrite Hlv.
  rewrite arr_get_znth by exact Ha. cbn [mbind outcome_bind history]. rewrite Hm.
  destruct (znth log_areas (lc_area c) <? lc_severity c).
  { exists l. split; [done|]. rewrite app_nil_r. split; [done|]. split; [done|]. by exists dropped, es. }
  set (past := dropped ++ es) in *. destruct (output_spec l es (lc_severity c) (lc_area c) (lc_fmt c) (lc_args c) message R ltac:(lia) Hm)
    as (l' & Ho & R' & Hlv' & Hct'). rewrite Hct in *. set (e := LogEntry _ _ _ _) in *.
  exists l'. split; [done|]. split; [by rewrite Hlv'|]. split; [rewrite Hct', length_app; cbn; lia|].
  destruct (keep_suffix N (entry_bytes e) es) as [pre Hpre].
  exists (dropped ++ pre), (keep N (entry_bytes e) es ++ [e]). split; [unfold past; rewrite Hpre at 1; by rewrite <-!app_assoc|].
  split; [done|]. split; [by destruct (keep N (entry_bytes e) es)|]. intros Hd. rewrite total_app.
  assert (Hte : total [e] = entry_bytes e) by (cbn; lia). rewrite Hte. destruct pre as [|e1 pre].
  - rewrite app_nil_r in Hd. cbn in Hpre. rewrite <-Hpre. specialize (Hfull Hd). pose proof (entry_bytes_pos e). lia.
  - apply (keep_full _ e1 es (e1 :: pre)); [done|done|apply R|apply entry_bytes_pos].
Qed.
Lemma length_history n cs : (length (history n cs) ≤ length cs)%nat.
Proof.
  revert n. induction cs as [|c cs IH]; intros n; cbn [history length]; [done|]. case_match; [specialize (IH n); lia|].
  destruct (vformat _ _ _); cbn [length]; [specialize (IH (n + 1)); lia|lia..].
Qed.
Lemma run_log_spec cs : ∀ l past,
  log_state l past → Forall call_ok cs → Z.of_nat (length past) + Z.of_nat (length cs) < 2 ^ 42 →
  ∃ l', run_log l cs = Done l' ∧ log_state l' (past ++ history (Z.of_nat (length past)) cs).
Proof.
  induction cs as [|c cs IH]; intros l past Hl Hok Hb; cbn [run_log]; [exists l; cbn; by rewrite app_nil_r|].
  apply Forall_cons in Hok as [Hc Hok]. cbn [length] in Hb. destruct (log_step l past c Hl Hc ltac:(lia)) as (l1 & -> & Hl1). cbn [mbind outcome_bind].
  pose proof (length_history (Z.of_nat (length past)) [c]) as Hh. cbn [length] in Hh.
  destruct (IH l1 _ Hl1 Hok) as (l2 & Hr & Hl2); [rewrite length_app; lia|]. exists l2. split; [done|].
  rewrite <-app_assoc in Hl2. destruct Hc as (_ & message & Hm). cbn [history] in Hl2 |- *. rewrite Hm in Hl2 |- *.
  destruct (znth log_areas (lc_area c) <? lc_severity c); cbn [app length] in Hl2; rewrite length_app in Hl2; cbn [length] in Hl2.
  - rewrite Nat.add_0_r in Hl2. exact Hl2.
  - replace (Z.of_nat (length past + 1)) with (Z.of_nat (length past) + 1) in Hl2 by lia. exact Hl2.
Qed.
Lemma make_logger_state : ∃ l, make_logger N = Done l ∧ log_state l [].
Proof.
  unfold make_logger. pose proof ring_size as HN. rewrite wrap_small by (unfold is_word; lia).
  replace (Z.land N (N - 1)) with 0.
  - eexists. split; [reflexivity|]. split; [reflexivity|]. split; [done|]. exists [], []. split; [done|]. split; [|done].
    split; cbn; try (done || lia).
  - symmetry. unfold N at 2. replace (2 ^ k - 1) with (Z.ones k) by (rewrite Z.ones_equiv; lia). rewrite Z.land_ones by lia.
    apply Z.mod_same. unfold N in HN. lia.
Qed.
End refinement.

(** ** Theorems *)

(** C19: whatever calls of [log] are made, each returns; the log holds the newest of the messages that
    their areas' levels let through, numbered in order, and has dropped old ones only when it was full
    to within one entry; and a reader that has seen the entries up to any earlier number gets the first
    entry behind it that is left, with its exact bytes. *)
Theorem log_reader_sees_entries (cell : Z → Z) (k : Z) (cs : list log_call) :
  8 ≤ k ≤ 62 →
  (∀ x y, 0 ≤ x < 2 * 2 ^ k → 0 ≤ y < 2 * 2 ^ k → cell x = cell y → x mod 2 ^ k = y mod 2 ^ k) →
  Forall call_ok cs → Z.of_nat (length cs) < 2 ^ 42 →
  ∃ l0 l dropped es, make_logger (2 ^ k) = Done l0 ∧ run_log cell l0 cs = Done l ∧
    history 0 cs = dropped ++ es ∧ m_count l = Z.of_nat (length (history 0 cs)) ∧
    (dropped ≠ [] → 2 ^ k < total es + 256) ∧
    ∀ seen size, 0 ≤ seen < m_count l →
      ∃ i e, list_find (λ e, seen < le_id e) es = Some (i, e) ∧
        get_entry cell l seen size
          = Done (Some (entry_bytes e, if entry_bytes e <=? size then Some (encode e) else None)).
Proof.
  intros Hk Hcell Hok Hlen. destruct (make_logger_state cell k Hk) as (l0 & Hl0 & Hs0).
  destruct (run_log_spec cell k Hk Hcell cs l0 [] Hs0 Hok) as (l & Hl & _ & Hct & dropped & es & Hpast & R & Hne & Hfull); [cbn; lia|].
  cbn [app length] in *. change (Z.of_nat 0) with 0 in *. exists l0, l, dropped, es. rewrite <-Hpast.
  split; [done|]. split; [done|]. split; [done|]. split; [done|]. split; [done|].
  intros seen size Hseen. apply (get_entry_spec cell k Hk l es seen size R); [|done]. apply Hne. intros E.
  rewrite E in Hct. cbn in Hct. lia.
Qed.

(** asking for what comes behind an entry that does not exist yet fails an assertion of the kernel,
    in every state of the log, so any process with the log's capability can stop the system. *)
Theorem get_entry_future_panics (cell : Z → Z) (k : Z) (cs : list log_call) (seen size : Z) :
  8 ≤ k ≤ 62 →
  (∀ x y, 0 ≤ x < 2 * 2 ^ k → 0 ≤ y < 2 * 2 ^ k → cell x = cell y → x mod 2 ^ k = y mod 2 ^ k) →
  Forall call_ok cs → Z.of_nat (length cs) < 2 ^ 42 → history 0 cs ≠ [] → Z.of_nat (length (history 0 cs)) < seen →
  ∃ l0 l, make_logger (2 ^ k) = Done l0 ∧ run_log cell l0 cs = Done l ∧ get_entry cell l seen size = Panic.
Proof.
  intros Hk Hcell Hok Hlen Hh Hseen. destruct (make_logger_state cell k Hk) as (l0 & Hl0 & Hs0).
  destruct (run_log_spec cell k Hk Hcell cs l0 [] Hs0 Hok) as (l & Hl & _ & Hct & dropped & es & Hpast & R & Hne & _); [cbn; lia|].
  cbn [app length] in *. change (Z.of_nat 0) with 0 in *. exists l0, l. split; [done|]. split; [done|].
  pose proof R as [Hs Hst Hen Hf Hcn Hb Hch Hid Hsm]. pose proof (ring_size k Hk). pose proof (length_le_total es).
  unfold get_entry. rewrite (proj2 (Z.eqb_neq seen (m_count l))) by lia.
  assert (Hids : ∀ e, e ∈ es → 0 ≤ le_id e < 2 ^ 42 ∧ le_id e ≤ seen).
  { intros e [i Hi]%list_elem_of_lookup. rewrite (Hid i e Hi). pose proof (lookup_lt_Some _ _ _ Hi). lia. }
  rewrite (find_entry_panics cell k Hk l seen es); [done|done|lia|done| |done|lia|rewrite Hs; lia| |].
  - rewrite Forall_forall in Hsm |- *. intros e He. split; [by apply Hids|by apply Hsm].
  - by apply Hne.
  - apply Forall_forall. intros e He. by apply Hids.
Qed.

(** ** Witnesses *)

(** The cells of the buffer's two copies as [vm_area_ring::get_page] maps them, page by page: an
    offset above the size is moved back by it, so the first page of the second copy is not shared. *)
Definition ring_cell (size x : Z) : Z := if size <? x - x mod 4096 then x - size else x.
Lemma ring_cell_apart size x y :
  0 < size → 0 ≤ x < 2 * size → 0 ≤ y < 2 * size → ring_cell size x = ring_cell size y → x mod size = y mod size.
Proof.
  intros Hs Hx Hy. unfold ring_cell. assert (Hm : ∀ z, (z - size) mod size = z mod size).
  { intros z. rewrite <-(Z_mod_plus_full z (-1) size). by replace (z + -1 * size) with (z - size) by lia. }
  destruct (size <? x - x mod 4096), (size <? y - y mod 4096); intros E.
  - by replace y with x by lia.
  - by rewrite <-E, Hm.
  - by rewrite E, Hm.
  - by rewrite E.
Qed.

(** Forty messages in a buffer of 256 bytes, of which one is below its area's level. *)
Definition demo_calls : list log_call :=
  LogCall 0 5 [104; 105; 0] [] :: replicate 40 (LogCall 11 4 [ch_per; ch_s; 33; 0] [A_str (Some [104; 101; 108; 108; 111])]).
Lemma demo_calls_ok : Forall call_ok demo_calls.
Proof.
  apply Forall_cons. split; [|apply Forall_replicate]; (split; [unfold areas_count; cbn; lia|]); eexists; vm_compute; reflexivity.
Qed.
Lemma log_reader_sees_entries_witness :
  ∃ l0 l, make_logger 256 = Done l0 ∧ run_log (ring_cell 256) l0 demo_calls = Done l ∧
    ∃ e, 3 < le_id e ∧ get_entry (ring_cell 256) l 3 1000
      = Done (Some (entry_bytes e, if entry_bytes e <=? 1000 then Some (encode e) else None)).
Proof.
  destruct (log_reader_sees_entries (ring_cell 256) 8 demo_calls) as (l0 & l & dropped & es & H1 & H2 & _ & H4 & _ & H5).
  - lia.
  - intros x y Hx Hy. by apply (ring_cell_apart 256).
  - exact demo_calls_ok.
  - cbn. lia.
  - exists l0, l. split; [exact H1|]. split; [exact H2|].
    assert (E : length (history 0 demo_calls) = 40%nat) by (vm_compute; reflexivity). rewrite E in H4.
    destruct (H5 3 1000) as (i & e & Hf & Hg); [rewrite H4; lia|]. exists e. split; [|exact Hg].
    exact (proj1 (proj2 (proj1 (list_find_Some _ _ _ _) Hf))).
Defined.
Lemma get_entry_future_panics_witness :
  ∃ l0 l, make_logger 256 = Done l0 ∧ run_log (ring_cell 256) l0 demo_calls = Done l ∧ get_entry (ring_cell 256) l 41 100 = Panic.
Proof.
  apply (get_entry_future_panics (ring_cell 256) 8 demo_calls 41 100); [lia| |exact demo_calls_ok|cbn; lia|by vm_compute|by vm_compute].
  intros x y Hx Hy. by apply (ring_cell_apart 256).
Defined.
