(* ===== verification/UserSync.v ===== *)
(** * Mutexes and condition variables of user programs

    Models src/libraries/j6/mutex.cpp and condition.cpp on the futexes of
    src/kernel/syscalls/futex.cpp, as threads that interleave at the granularity of their atomic
    accesses and system calls.  [futex_wait] compares the word before it takes the lock of the futexes
    and queues the thread (by [wait_queue::wait], which is atomic), so it is two steps; [Kernel] is that
    system call, and [Atomic] one that compares and queues in one step, which tells what is due to the
    mutex and what to the system call.

    [mutex_excludes] is that at most one thread holds a mutex, under every interleaving.
    [mutex_no_lost_wakeup] is that with an atomic wait no thread sleeps while nobody has or will pass on
    the mutex; with the kernel's, [mutex_can_lose_wakeup] is a run after which a thread sleeps for good
    beside a free mutex.  A condition's waiter can miss the wake-up it waits for even with an atomic
    wait, when another thread waits at the same time ([condition_can_miss_wake]). *)
From stdpp Require Import functions.
From S2P Require Import Prelude.

Abbreviation tid := positive.

(** How [futex_wait] compares and queues. *)
Inductive wait_mode := Kernel | Atomic.

Module Mutex.
(** The next access of a thread in [lock] or [unlock]. *)
Inductive pc :=
  | Idle          (** does not have the mutex *)
  | Cas           (** lock: compare_and_swap(&m_state, 0, 1) *)
  | Exchange      (** lock: exchange(&m_state, 2) *)
  | WaitCheck     (** lock: futex_wait, the comparison with 2 *)
  | WaitQueue     (** lock: futex_wait, queueing the thread *)
  | Sleep         (** in the futex's queue *)
  | Held          (** has the mutex *)
  | FetchSub      (** unlock: fetch_sub(&m_state, 1) *)
  | Store         (** unlock: m_state = 0 *)
  | Wake.         (** unlock: futex_wake(&m_state, 1) *)

Record mutex := State {
  m_state : Z;
  queue : list tid;
  pcs : tid → pc;
}.
Definition goto (s : mutex) (t : tid) (p : pc) : mutex := State (m_state s) (queue s) (<[t := p]> (pcs s)).
Definition set_state (s : mutex) (v : Z) : mutex := State v (queue s) (pcs s).
Definition set_queue (s : mutex) (q : list tid) : mutex := State (m_state s) q (pcs s).

(** [mutex()] *)
Definition new_mutex : mutex := State 0 [] (λ _, Idle).

(** [lock] after a read of [lock]: taken when it was 0. *)
Definition lock_step (m : wait_mode) (s : mutex) (t : tid) : option mutex :=
  match pcs s t with
  | Cas =>
      let lock := m_state s in
      if lock =? 0 then Some (goto (set_state s 1) t Held)
      else if negb (lock =? 2) then Some (goto s t Exchange)
      else Some (goto s t WaitCheck)
  | Exchange =>
      let lock := m_state s in
      let s := set_state s 2 in
      Some (goto s t (if lock =? 0 then Held else WaitCheck))
  | WaitCheck =>
      if negb (m_state s =? 2) then Some (goto s t Exchange)
      else
        match m with
        | Kernel => Some (goto s t WaitQueue)
        | Atomic => Some (goto (set_queue s (queue s ++ [t])) t Sleep)
        end
  | WaitQueue => Some (goto (set_queue s (queue s ++ [t])) t Sleep)
  | _ => None
  end.
Definition unlock_step (s : mutex) (t : tid) : option mutex :=
  match pcs s t with
  | FetchSub =>
      let old := m_state s in
      let s := set_state s (u32 (old - 1)) in
      Some (goto s t (if negb (old =? 1) then Store else Idle))
  | Store => Some (goto (set_state s 0) t Wake)
  | Wake =>
      match queue s with
      | [] => Some (goto s t Idle)
      | u :: q => Some (goto (goto (set_queue s q) u Exchange) t Idle)
      end
  | _ => None
  end.
(** A step of thread [t]: a thread outside calls [lock], one that has the mutex [unlock]. *)
Definition step (m : wait_mode) (s : mutex) (t : tid) : option mutex :=
  match pcs s t with
  | Idle => Some (goto s t Cas)
  | Held => Some (goto s t FetchSub)
  | Cas | Exchange | WaitCheck | WaitQueue => lock_step m s t
  | FetchSub | Store | Wake => unlock_step s t
  | Sleep => None
  end.
Fixpoint run (m : wait_mode) (s : mutex) (ts : list tid) : option mutex :=
  match ts with
  | [] => Some s
  | t :: ts => match step m s t with Some s => run m s ts | None => None end
  end.
Inductive reachable (m : wait_mode) : mutex → Prop :=
  | reach_init : reachable m new_mutex
  | reach_step s t s' : reachable m s → step m s t = Some s' → reachable m s'.

(** ** Mutual exclusion *)

(** The thread that the mutex counts as its owner: up to the access that frees it. *)
Definition owns (p : pc) : bool := match p with Held | FetchSub | Store => true | _ => false end.

Record inv (s : mutex) : Prop := {
  inv_word : 0 ≤ m_state s ≤ 2;
  inv_owner : ∀ t, owns (pcs s t) = true → m_state s ≠ 0;
  inv_one : ∀ t u, owns (pcs s t) = true → owns (pcs s u) = true → t = u;
  inv_taken : m_state s ≠ 0 → ∃ t, owns (pcs s t) = true;
  inv_queue : ∀ t, t ∈ queue s ↔ pcs s t = Sleep;
  inv_nodup : NoDup (queue s);
}.

Lemma pcs_goto s t p u : pcs (goto s t p) u = if decide (t = u) then p else pcs s u.
Proof. cbn. case_decide; [subst; apply fn_lookup_insert|by apply fn_lookup_insert_ne]. Qed.

(** Cases on whether each thread that is looked at is the one that moved. *)
Ltac threads :=
  repeat match goal with
  | H : context [pcs (goto _ _ _) _] |- _ => rewrite pcs_goto in H
  | |- context [pcs (goto _ _ _) _] => rewrite pcs_goto
  end;
  cbn [m_state queue pcs goto set_state set_queue] in *;
  repeat case_decide; subst; cbn [owns] in *.

Lemma inv_init : inv new_mutex.
Proof. split; cbn; try done; [|constructor]. intros t. split; [by intros ?%not_elem_of_nil|done]. Qed.
(** A thread goes on without gaining or losing the mutex. *)
Lemma inv_goto s t p v :
  inv s → owns p = owns (pcs s t) → pcs s t ≠ Sleep → p ≠ Sleep → 0 ≤ v ≤ 2 → (v = 0 ↔ m_state s = 0) →
  inv (goto (set_state s v) t p).
Proof.
  intros [I1 I2 I3 I4 I5 I6] Ho Hs Hp Hv Hz. split; cbn [m_state queue goto set_state].
  - done.
  - intros u Hu. rewrite Hz. threads; [eapply I2; by rewrite <-Ho|by eapply I2].
  - intros u u' Hu Hu'. threads; try done; eapply I3; try done; by rewrite <-Ho.
  - rewrite Hz. intros [u Hu]%I4. exists u. threads; congruence.
  - intros u. rewrite I5. threads; naive_solver.
  - done.
Qed.
Lemma inv_acquire s t v : inv s → m_state s = 0 → pcs s t ≠ Sleep → 0 < v ≤ 2 → inv (goto (set_state s v) t Held).
Proof.
  intros [I1 I2 I3 I4 I5 I6] Hz Hs Hv.
  assert (Hno : ∀ u, owns (pcs s u) = true → False) by (intros u Hu; by apply (I2 u)).
  split; cbn [m_state queue goto set_state]; try (done || lia).
  - intros u u' Hu Hu'. threads; try done; naive_solver.
  - intros _. exists t. by threads.
  - intros u. rewrite I5. threads; naive_solver.
Qed.
Lemma inv_release s t p : inv s → owns (pcs s t) = true → owns p = false → p ≠ Sleep → inv (goto (set_state s 0) t p).
Proof.
  intros [I1 I2 I3 I4 I5 I6] Hown Hp Hs.
  assert (Hno : ∀ u, owns (pcs s u) = true → u = t) by (intros u Hu; by apply I3).
  split; cbn [m_state queue goto set_state]; try (done || lia).
  - intros u Hu. threads; [congruence|by rewrite (Hno u Hu) in *].
  - intros u u' Hu Hu'. threads; try congruence. by rewrite (Hno u Hu) in *.
  - intros u. rewrite I5. threads; [|done]. split; [|naive_solver]. intros E. by rewrite E in Hown.
Qed.
Lemma inv_sleep s t : inv s → owns (pcs s t) = false → pcs s t ≠ Sleep → inv (goto (set_queue s (queue s ++ [t])) t Sleep).
Proof.
  intros [I1 I2 I3 I4 I5 I6] Hown Hs. split; cbn [m_state queue goto set_queue].
  - done.
  - intros u Hu. threads; [done|by eapply I2].
  - intros u u' Hu Hu'. threads; try done; by apply I3.
  - intros [u Hu]%I4. exists u. threads; congruence.
  - intros u. rewrite elem_of_app, list_elem_of_singleton, I5. threads; naive_solver.
  - apply NoDup_app. split; [done|]. split; [|apply NoDup_singleton]. intros u Hu ->%list_elem_of_singleton. by apply Hs, I5.
Qed.
Lemma inv_wake s t u q : inv s → pcs s t = Wake → queue s = u :: q → inv (goto (goto (set_queue s q) u Exchange) t Idle).
Proof.
  intros [I1 I2 I3 I4 I5 I6] Ht Hq. rewrite Hq in *. apply NoDup_cons in I6 as [Hu I6].
  assert (Hsl : pcs s u = Sleep) by (apply I5, elem_of_cons; by left).
  split; cbn [m_state queue goto set_queue].
  - done.
  - intros x Hx. threads; try done; by eapply I2.
  - intros x x' Hx Hx'. threads; try done; by apply I3.
  - intros [x Hx]%I4. exists x. threads; [by rewrite Ht in Hx|by rewrite Hsl in Hx|done].
  - intros x. specialize (I5 x). rewrite elem_of_cons in I5. destruct I5 as [I5a I5b]. threads.
    + split; [|done]. intros Hx. rewrite I5a in Ht by (by right). done.
    + by split.
    + split; [by auto|]. intros Hx. by destruct (I5b Hx).
  - done.
Qed.
Lemma inv_same s t p : inv s → owns p = owns (pcs s t) → pcs s t ≠ Sleep → p ≠ Sleep → inv (goto s t p).
Proof. intros I Ho Hs Hp. destruct s as [v q ps]. apply (inv_goto (State v q ps) t p v); try done. apply I. Qed.

Lemma inv_step m s t s' : inv s → step m s t = Some s' → inv s'.
Proof.
  intros I Hst. unfold step, lock_step, unlock_step in Hst. pose proof (inv_word s I) as Hw.
  destruct (pcs s t) eqn:Hpc; try done.
  - injection Hst as <-. by apply inv_same; rewrite ?Hpc.
  - destruct (Z.eqb_spec (m_state s) 0); [injection Hst as <-; apply inv_acquire; rewrite ?Hpc; (done || lia)|].
    destruct (negb (m_state s =? 2)); injection Hst as <-; by apply inv_same; rewrite ?Hpc.
  - injection Hst as <-. destruct (Z.eqb_spec (m_state s) 0).
    + apply inv_acquire; rewrite ?Hpc; (done || lia).
    + apply inv_goto; rewrite ?Hpc; (done || lia).
  - destruct (negb (m_state s =? 2)); [injection Hst as <-; by apply inv_same; rewrite ?Hpc|].
    destruct m; injection Hst as <-; [by apply inv_same; rewrite ?Hpc|by apply inv_sleep; rewrite ?Hpc].
  - injection Hst as <-. by apply inv_sleep; rewrite ?Hpc.
  - injection Hst as <-. by apply inv_same; rewrite ?Hpc.
  - injection Hst as <-. pose proof (inv_owner s I t) as Ho. rewrite Hpc in Ho. specialize (Ho eq_refl).
    destruct (Z.eqb_spec (m_state s) 1) as [->|]; cbn [negb].
    + apply inv_release; by rewrite ?Hpc.
    + rewrite wrap_small by (unfold is_word; lia). apply inv_goto; rewrite ?Hpc; (done || lia).
  - injection Hst as <-. apply inv_release; by rewrite ?Hpc.
  - destruct (queue s) as [|u q] eqn:Hq; injection Hst as <-; [by apply inv_same; rewrite ?Hpc|by apply inv_wake].
Qed.
Lemma mutex_reachable_inv m s : reachable m s → inv s.
Proof. induction 1; [apply inv_init|by eapply inv_step]. Qed.

(** ** Wake-ups *)

(** Whoever will pass the mutex on or claim it for the threads that sleep. *)
Definition passes (p : pc) : bool := match p with Store | Wake | Exchange => true | _ => false end.
Record covered (s : mutex) : Prop := {
  cov_wait : ∀ t, pcs s t ≠ WaitQueue;
  cov_pass : queue s ≠ [] → m_state s = 2 ∨ ∃ t, passes (pcs s t) = true;
}.

Lemma covered_goto s t p v :
  covered s → p ≠ WaitQueue → (passes (pcs s t) = true → passes p = true) →
  (m_state s = 2 → v = 2 ∨ passes p = true) → covered (goto (set_state s v) t p).
Proof.
  intros [Hw Hc] Hpw Hp Hv. split; [intros u; threads; done|]. cbn [queue goto set_state m_state]. intros Hq.
  destruct (Hc Hq) as [E|[u Hu]].
  - destruct (Hv E) as [->|Hpp]; [by left|]. right. exists t. by threads.
  - right. exists u. threads; [by apply Hp|done].
Qed.
Lemma covered_same s t p : covered s → p ≠ WaitQueue → (passes (pcs s t) = true → passes p = true) → covered (goto s t p).
Proof. destruct s as [v q ps]. intros Hc Hw Hp. apply (covered_goto (State v q ps) t p v); [done..|]. by left. Qed.
Lemma covered_step s t s' : inv s → covered s → step Atomic s t = Some s' → covered s'.
Proof.
  intros I Hc Hst. unfold step, lock_step, unlock_step in Hst. destruct (pcs s t) eqn:Hpc; try done.
  - injection Hst as <-. by apply covered_same; rewrite ?Hpc.
  - destruct (Z.eqb_spec (m_state s) 0) as [E|].
    + injection Hst as <-. apply covered_goto; rewrite ?Hpc; (done || lia).
    + destruct (negb (m_state s =? 2)); injection Hst as <-; by apply covered_same; rewrite ?Hpc.
  - injection Hst as <-. split; [|by left]. intros u. destruct Hc as [Hw _]. threads; [by case_match|done].
  - destruct (Z.eqb_spec (m_state s) 2) as [E|]; cbn [negb] in Hst; injection Hst as <-.
    + split; [|by left]. intros u. destruct Hc as [Hw _]. by threads.
    + by apply covered_same; rewrite ?Hpc.
  - by destruct (cov_wait s Hc t).
  - injection Hst as <-. by apply covered_same; rewrite ?Hpc.
  - injection Hst as <-. apply covered_goto; rewrite ?Hpc; try done; [by case_match|]. intros ->. by right.
  - injection Hst as <-. apply covered_goto; rewrite ?Hpc; try done. by right.
  - destruct (queue s) as [|u q] eqn:Hq; injection Hst as <-.
    + split; [intros u; destruct Hc as [Hw _]; by threads|]. cbn [queue goto]. by rewrite Hq.
    + split; [intros x; destruct Hc as [Hw _]; by threads|]. intros _. right. exists u.
      assert (u ≠ t) by (intros ->; assert (pcs s t = Sleep) by (apply (inv_queue s I); rewrite Hq; apply elem_of_cons; by left); congruence).
      by threads.
Qed.
Lemma reachable_covered s : reachable Atomic s → covered s.
Proof.
  induction 1 as [|s t s' Hr IH Hst]; [split; done|]. eapply covered_step; [by eapply mutex_reachable_inv|done..].
Qed.

Lemma run_app m ts ts' : ∀ s, run m s (ts ++ ts') = match run m s ts with Some s' => run m s' ts' | None => None end.
Proof. induction ts as [|t ts IH]; intros s; cbn [app run]; [done|]. destruct (step m s t); [apply IH|done]. Qed.
(** A thread alone locks and unlocks a free mutex. *)
Lemma lock_unlock_spec s t :
  m_state s = 0 → pcs s t = Idle →
  ∃ s', run Kernel s [t; t; t; t] = Some s' ∧ m_state s' = 0 ∧ pcs s' t = Idle ∧ ∀ u, u ≠ t → pcs s' u = pcs s u.
Proof.
  intros Hm Ht. set (s1 := goto s t Cas). set (s2 := goto (set_state s1 1) t Held). set (s3 := goto s2 t FetchSub).
  set (s4 := goto (set_state s3 (u32 (1 - 1))) t Idle).
  assert (E1 : step Kernel s t = Some s1) by (unfold step; by rewrite Ht).
  assert (E2 : step Kernel s1 t = Some s2) by (unfold step, lock_step, s1; rewrite pcs_goto, decide_True by done; cbn; by rewrite Hm).
  assert (E3 : step Kernel s2 t = Some s3) by (unfold step, s2; by rewrite pcs_goto, decide_True by done).
  assert (E4 : step Kernel s3 t = Some s4) by (unfold step, unlock_step, s3; by rewrite pcs_goto, decide_True by done).
  exists s4. cbn [run]. rewrite E1, E2, E3, E4. split; [done|]. split; [done|]. unfold s4, s3, s2, s1.
  assert (Hset : ∀ s v u, pcs (set_state s v) u = pcs s u) by done.
  split; [by rewrite pcs_goto, decide_True by done|]. intros u Hu. by repeat (rewrite pcs_goto, decide_False, ?Hset by congruence).
Qed.
End Mutex.

(** ** Theorems on mutexes *)

(** C25: under every interleaving of [lock] and [unlock], with either way of waiting, at most one
    thread has the mutex, and its word is 0 exactly when nobody has it. *)
Theorem mutex_excludes (m : wait_mode) (s : Mutex.mutex) (t u : tid) :
  Mutex.reachable m s → Mutex.pcs s t = Mutex.Held → Mutex.pcs s u = Mutex.Held →
  t = u ∧ Mutex.m_state s ≠ 0.
Proof.
  intros Hr%Mutex.mutex_reachable_inv Ht Hu. split; [apply (Mutex.inv_one s Hr)|apply (Mutex.inv_owner s Hr t)]; by rewrite ?Ht, ?Hu.
Qed.


(** One thread has the mutex, a second waits for it and has compared the word when the first frees it
    and finds nobody to wake. *)
Definition lost_schedule : list tid := [1; 1; 2; 2; 2; 2; 1; 1; 1; 1; 2]%positive.
Definition lost_state : Mutex.mutex := default Mutex.new_mutex (Mutex.run Kernel Mutex.new_mutex lost_schedule).
(** Locking and unlocking with nobody in the way. *)
Definition lock_unlock (t : tid) : list tid := [t; t; t; t].

(** with the kernel's futexes there is a run after which the mutex is free and a thread sleeps in
    its queue, and however often another thread then locks and unlocks the mutex the thread sleeps on. *)
Theorem mutex_can_lose_wakeup (n : nat) :
  Mutex.run Kernel Mutex.new_mutex lost_schedule = Some lost_state ∧
  ∃ s, Mutex.run Kernel lost_state (mjoin (replicate n (lock_unlock 1))) = Some s ∧
    Mutex.m_state s = 0 ∧ Mutex.pcs s 2%positive = Mutex.Sleep ∧ Mutex.pcs s 1%positive = Mutex.Idle.
Proof.
  split; [reflexivity|]. assert (H : Mutex.m_state lost_state = 0 ∧ Mutex.pcs lost_state 2%positive = Mutex.Sleep ∧
    Mutex.pcs lost_state 1%positive = Mutex.Idle) by (split; [|split]; reflexivity).
  revert H. generalize lost_state. induction n as [|n IH]; intros s (Hm & H2 & H1); [by exists s|].
  destruct (Mutex.lock_unlock_spec s 1 Hm H1) as (s' & Hrun & Hm' & H1' & Hother).
  destruct (IH s') as (s'' & Hr & Hs''); [split; [done|]; split; [by rewrite Hother|done]|].
  exists s''. split; [|done]. cbn [replicate mjoin list_join]. rewrite Mutex.run_app. change (lock_unlock 1) with [1; 1; 1; 1]%positive at 1.
  by rewrite Hrun.
Qed.

(** ** Condition variables *)

Module Condition.
Inductive pc :=
  | Idle
  | AddFetch            (** wait: v = add_fetch(&m_state, 1) *)
  | WaitCheck (v : Z)   (** wait: futex_wait, the comparison with v *)
  | WaitQueue           (** wait: futex_wait, queueing the thread *)
  | Sleep               (** in the futex's queue *)
  | Reload              (** wait: v = m_state after a change *)
  | Exchange            (** wake: v = exchange(&m_state, 0) *)
  | WakeAll.            (** wake: futex_wake(&m_state, 0) *)
Inductive action := CallWait | CallWake | Continue.

Record condition := State {
  m_state : Z;
  queue : list tid;
  pcs : tid → pc;
}.
Definition goto (s : condition) (t : tid) (p : pc) : condition := State (m_state s) (queue s) (<[t := p]> (pcs s)).
Definition set_state (s : condition) (v : Z) : condition := State v (queue s) (pcs s).
Definition set_queue (s : condition) (q : list tid) : condition := State (m_state s) q (pcs s).
Definition new_condition : condition := State 0 [] (λ _, Idle).

(** [wait]; a thread that is woken returns from it. *)
Definition wait_step (m : wait_mode) (s : condition) (t : tid) : option condition :=
  match pcs s t with
  | AddFetch =>
      let v := u32 (m_state s + 1) in Some (goto (set_state s v) t (WaitCheck v))
  | WaitCheck v =>
      if negb (m_state s =? v) then Some (goto s t Reload)
      else
        match m with
        | Kernel => Some (goto s t WaitQueue)
        | Atomic => Some (goto (set_queue s (queue s ++ [t])) t Sleep)
        end
  | WaitQueue => Some (goto (set_queue s (queue s ++ [t])) t Sleep)
  | Reload =>
      let v := m_state s in
      if v =? 0 then Some (goto s t Idle) else Some (goto s t (WaitCheck v))
  | _ => None
  end.
(** Every thread of the queue returns. *)
Fixpoint wake_queue (ps : tid → pc) (q : list tid) : tid → pc :=
  match q with [] => ps | t :: q => wake_queue (<[t := Idle]> ps) q end.
Definition wake_step (s : condition) (t : tid) : option condition :=
  match pcs s t with
  | Exchange =>
      let v := m_state s in
      Some (goto (set_state s 0) t (if negb (v =? 0) then WakeAll else Idle))
  | WakeAll => Some (goto (State (m_state s) [] (wake_queue (pcs s) (queue s))) t Idle)
  | _ => None
  end.
Definition step (m : wait_mode) (s : condition) (t : tid) (a : action) : option condition :=
  match a, pcs s t with
  | CallWait, Idle => Some (goto s t AddFetch)
  | CallWake, Idle => Some (goto s t Exchange)
  | Continue, (AddFetch | WaitCheck _ | WaitQueue | Reload) => wait_step m s t
  | Continue, (Exchange | WakeAll) => wake_step s t
  | _, _ => None
  end.
Fixpoint run (m : wait_mode) (s : condition) (ts : list (tid * action)) : option condition :=
  match ts with
  | [] => Some s
  | (t, a) :: ts => match step m s t a with Some s => run m s ts | None => None end
  end.
(** Runs with fewer than 2^32 waits between two wake-ups, so that the word does not wrap. *)
Inductive reachable (m : wait_mode) : condition → Prop :=
  | reach_init : reachable m new_condition
  | reach_step s t a s' :
      reachable m s → m_state s + 1 < 2 ^ 32 → step m s t a = Some s' → reachable m s'.

Record inv (s : condition) : Prop := {
  inv_word : 0 ≤ m_state s;
  inv_queue : ∀ t, t ∈ queue s ↔ pcs s t = Sleep;
  inv_wait : ∀ t, pcs s t ≠ WaitQueue;
  inv_check : ∀ t v, pcs s t = WaitCheck v → 0 < v;
  inv_awake : queue s ≠ [] → m_state s ≠ 0 ∨ ∃ t, pcs s t = WakeAll;
}.
Lemma cond_pcs_goto s t p u : pcs (goto s t p) u = if decide (t = u) then p else pcs s u.
Proof. cbn. case_decide; [subst; apply fn_lookup_insert|by apply fn_lookup_insert_ne]. Qed.
Lemma wake_queue_pcs q : ∀ ps u, wake_queue ps q u = if decide (u ∈ q) then Idle else ps u.
Proof.
  induction q as [|t q IH]; intros ps u; cbn [wake_queue].
  { by rewrite decide_False by apply not_elem_of_nil. }
  rewrite IH. destruct (decide (u ∈ q)); [by rewrite decide_True by (by apply elem_of_cons; right)|].
  destruct (decide (t = u)) as [->|Hne].
  - rewrite fn_lookup_insert, decide_True by (by apply elem_of_cons; left). done.
  - rewrite fn_lookup_insert_ne, decide_False by (done || rewrite elem_of_cons; naive_solver). done.
Qed.

(** A thread that neither falls asleep nor wakes one. *)
Lemma cond_inv_goto s t p v :
  inv s → pcs s t ≠ Sleep → p ≠ Sleep → p ≠ WaitQueue → (∀ x, p = WaitCheck x → 0 < x) → 0 ≤ v →
  (m_state s ≠ 0 → v ≠ 0 ∨ p = WakeAll) → (pcs s t = WakeAll → p = WakeAll) → inv (goto (set_state s v) t p).
Proof.
  intros [I1 I2 I3 I4 I5] Ht Hp Hpw Hpc Hv Hz Hw.
  assert (Hset : ∀ u, pcs (set_state s v) u = pcs s u) by done.
  split; cbn [queue goto set_state m_state]; try done.
  - intros u. rewrite I2, cond_pcs_goto, Hset. case_decide; [subst; naive_solver|done].
  - intros u. rewrite cond_pcs_goto, Hset. by case_decide.
  - intros u x. rewrite cond_pcs_goto, Hset. case_decide; [apply Hpc|apply I4].
  - intros Hq. destruct (I5 Hq) as [E|[u Hu]].
    + destruct (Hz E) as [?|Hpw']; [by left|]. right. exists t. by rewrite cond_pcs_goto, decide_True by done.
    + right. exists u. rewrite cond_pcs_goto, Hset. case_decide; [subst; by apply Hw|done].
Qed.
Lemma cond_inv_same s t p :
  inv s → pcs s t ≠ Sleep → p ≠ Sleep → p ≠ WaitQueue → (∀ x, p = WaitCheck x → 0 < x) →
  (pcs s t = WakeAll → p = WakeAll) → inv (goto s t p).
Proof. intros I H1 H2 H3 H4 H5. destruct s as [v q ps]. apply (cond_inv_goto (State v q ps) t p v); try done; [apply I|by left]. Qed.
Lemma cond_inv_step s t a s' : inv s → m_state s + 1 < 2 ^ 32 → step Atomic s t a = Some s' → inv s'.
Proof.
  intros I Hb Hst. pose proof (inv_word s I) as Hw. unfold step, wait_step, wake_step in Hst.
  destruct a, (pcs s t) eqn:Hpc; try done.
  - injection Hst as <-. by apply cond_inv_same; rewrite ?Hpc.
  - injection Hst as <-. by apply cond_inv_same; rewrite ?Hpc.
  - injection Hst as <-. rewrite wrap_small by (unfold is_word; lia). apply cond_inv_goto; rewrite ?Hpc; try (done || lia).
    intros x [= <-]. lia.
  - destruct (Z.eqb_spec (m_state s) v) as [E|]; cbn [negb] in Hst; injection Hst as <-; [|by apply cond_inv_same; rewrite ?Hpc].
    pose proof (inv_check s I t v Hpc) as Hv. destruct I as [I1 I2 I3 I4 I5]. split; cbn [queue goto set_queue m_state].
    + done.
    + intros u. rewrite elem_of_app, list_elem_of_singleton, I2, cond_pcs_goto. cbn [pcs set_queue].
      case_decide; [subst; naive_solver|naive_solver].
    + intros u. rewrite cond_pcs_goto. cbn [pcs set_queue]. by case_decide.
    + intros u x. rewrite cond_pcs_goto. cbn [pcs set_queue]. case_decide; [done|apply I4].
    + intros _. left. lia.
  - by destruct (inv_wait s I t).
  - destruct (Z.eqb_spec (m_state s) 0); injection Hst as <-; apply cond_inv_same; rewrite ?Hpc; try done.
    intros x [= <-]. lia.
  - injection Hst as <-. destruct (Z.eqb_spec (m_state s) 0); cbn [negb]; apply cond_inv_goto; rewrite ?Hpc; try (done || lia). by right.
  - injection Hst as <-. destruct I as [I1 I2 I3 I4 I5].
    assert (Hp : ∀ u, pcs (goto (State (m_state s) [] (wake_queue (pcs s) (queue s))) t Idle) u
      = if decide (t = u) then Idle else if decide (u ∈ queue s) then Idle else pcs s u).
    { intros u. rewrite cond_pcs_goto. cbn [pcs]. by rewrite wake_queue_pcs. }
    split; [done| | | |done].
    + intros u. rewrite Hp. cbn [queue goto]. split; [by intros ?%not_elem_of_nil|]. repeat case_decide; try done. by intros ?%I2.
    + intros u. rewrite Hp. by repeat case_decide.
    + intros u x. rewrite Hp. repeat case_decide; [done..|apply I4].
Qed.
Lemma cond_reachable_inv s : reachable Atomic s → inv s.
Proof.
  induction 1 as [|s t a s' Hr IH Hb Hst]; [|by eapply cond_inv_step]. split; cbn; try done.
  intros t. split; [by intros ?%not_elem_of_nil|done].
Qed.
End Condition.

(** ** Theorems on condition variables *)

(** if waiting on a futex compares and queues at once, a call of [wake] with no other under way
    wakes every thread that sleeps. *)
Theorem condition_wake_wakes_all (s : Condition.condition) (w : tid) :
  Condition.reachable Atomic s → Condition.pcs s w = Condition.Idle →
  (∀ u, Condition.pcs s u ≠ Condition.WakeAll) → Condition.queue s ≠ [] →
  ∃ s', Condition.run Atomic s [(w, Condition.CallWake); (w, Condition.Continue); (w, Condition.Continue)] = Some s' ∧
    Condition.queue s' = [] ∧ ∀ u, Condition.pcs s' u ≠ Condition.Sleep.
Proof.
  intros Hr Hw Hno Hq. pose proof (Condition.cond_reachable_inv s Hr) as I.
  assert (Hz : Condition.m_state s ≠ 0).
  { destruct (Condition.inv_awake s I Hq) as [?|[u Hu]]; [done|]. by destruct (Hno u). }
  set (s1 := Condition.goto s w Condition.Exchange).
  set (s2 := Condition.goto (Condition.set_state s1 0) w Condition.WakeAll).
  set (s3 := Condition.goto (Condition.State 0 [] (Condition.wake_queue (Condition.pcs s2) (Condition.queue s2))) w Condition.Idle).
  assert (E1 : Condition.step Atomic s w Condition.CallWake = Some s1) by (unfold Condition.step; by rewrite Hw).
  assert (E2 : Condition.step Atomic s1 w Condition.Continue = Some s2).
  { unfold Condition.step, Condition.wake_step, s1. rewrite Condition.cond_pcs_goto, decide_True by done. cbn [Condition.m_state Condition.goto].
    by rewrite (proj2 (Z.eqb_neq _ 0)) by done. }
  assert (E3 : Condition.step Atomic s2 w Condition.Continue = Some s3).
  { unfold Condition.step, Condition.wake_step, s2. by rewrite Condition.cond_pcs_goto, decide_True by done. }
  exists s3. cbn [Condition.run]. rewrite E1, E2, E3. split; [done|]. split; [done|]. intros u. unfold s3.
  rewrite Condition.cond_pcs_goto. case_decide; [done|]. cbn [Condition.pcs]. rewrite Condition.wake_queue_pcs. case_decide as Hin; [done|].
  unfold s2, s1 in Hin |- *. rewrite !Condition.cond_pcs_goto. case_decide; [done|]. intros Hs. apply Hin.
  cbn [Condition.pcs Condition.set_state] in Hs. rewrite Condition.cond_pcs_goto, decide_False in Hs by done. by apply (Condition.inv_queue s I).
Qed.

(** The wake-up comes between a thread's announcement and its comparison, and a second thread that
    announces itself makes the word equal again. *)
Definition missed_schedule : list (tid * Condition.action) :=
  [(1, Condition.CallWait); (1, Condition.Continue);
   (3, Condition.CallWake); (3, Condition.Continue); (3, Condition.Continue);
   (2, Condition.CallWait); (2, Condition.Continue); (2, Condition.Continue);
   (1, Condition.Continue)]%positive.

(** a thread that has begun to wait can sleep through a whole call of [wake], even if waiting on a
    futex compares and queues at once. *)
Theorem condition_can_miss_wake :
  ∃ s, Condition.run Atomic Condition.new_condition missed_schedule = Some s ∧
    Condition.pcs s 1%positive = Condition.Sleep ∧ Condition.pcs s 3%positive = Condition.Idle.
Proof. eexists. split; [reflexivity|]. split; reflexivity. Qed.

(** ** Witnesses *)

Lemma run_reachable m ts : ∀ s s', Mutex.reachable m s → Mutex.run m s ts = Some s' → Mutex.reachable m s'.
Proof.
  induction ts as [|t ts IH]; intros s s' Hr Hrun; cbn in Hrun; [by injection Hrun as <-|].
  destruct (Mutex.step m s t) as [s1|] eqn:E; [|done]. eapply IH; [|done]. by eapply Mutex.reach_step.
Qed.
Definition held_state : Mutex.mutex := default Mutex.new_mutex (Mutex.run Kernel Mutex.new_mutex [1; 1; 2; 2; 2]%positive).
Lemma mutex_excludes_witness : 1%positive = 1%positive ∧ Mutex.m_state held_state ≠ 0.
Proof.
  apply (mutex_excludes Kernel held_state 1 1).
  - apply (run_reachable Kernel [1; 1; 2; 2; 2]%positive Mutex.new_mutex); [apply Mutex.reach_init|reflexivity].
  - reflexivity.
  - reflexivity.
Defined.
Definition asleep_state : Mutex.mutex := default Mutex.new_mutex (Mutex.run Atomic Mutex.new_mutex [1; 1; 2; 2; 2; 2]%positive).
Definition waiting_state : Condition.condition :=
  Condition.State 1 [2%positive] (<[2%positive := Condition.Sleep]> (<[2%positive := Condition.WaitCheck 1]>
    (<[2%positive := Condition.AddFetch]> (λ _, Condition.Idle)))).
Lemma condition_wake_wakes_all_witness :
  ∃ s', Condition.run Atomic waiting_state [(1%positive, Condition.CallWake); (1%positive, Condition.Continue); (1%positive, Condition.Continue)] = Some s' ∧
    Condition.queue s' = [] ∧ ∀ u, Condition.pcs s' u ≠ Condition.Sleep.
Proof.
  apply (condition_wake_wakes_all waiting_state 1).
  - apply (Condition.reach_step Atomic (Condition.State 1 [] (<[2%positive := Condition.WaitCheck 1]> (<[2%positive := Condition.AddFetch]> (λ _, Condition.Idle)))) 2 Condition.Continue); [|cbn; lia|reflexivity].
    apply (Condition.reach_step Atomic (Condition.State 0 [] (<[2%positive := Condition.AddFetch]> (λ _, Condition.Idle))) 2 Condition.Continue); [|cbn; lia|reflexivity].
    apply (Condition.reach_step Atomic Condition.new_condition 2 Condition.CallWait); [apply Condition.reach_init|cbn; lia|reflexivity].
  - reflexivity.
  - intros u. unfold waiting_state. cbn [Condition.pcs]. unfold insert, fn_insert. repeat case_decide; done.
  - done.
Defined.
