(* ===== verification/Channel.v ===== *)
(** * Channels

    Models src/libraries/j6/channel.cpp: one direction of a channel, a bip buffer (BipBuffer.v) with a
    mutex and a condition (UserSync.v) in memory that two processes share.  The sender's [reserve] and
    [commit] and the receiver's [get_block] and [consume] are run by any number of threads; the section
    under the area's mutex is one step, and the calls of [wait] and [wake] are the steps of the
    condition.  [consume] takes the mutex of the other direction, so its section is not excluded by the
    one of a sender.  The functions that create and open channels only make and map the memory.

    [channel_fifo] shows that the bytes a receiver takes are those sent, in order, however the calls
    interleave.  [channel_can_stall] is a run after which the receiver sleeps although there is data:
    nothing ties the test of the buffer to the waiting. *)
From stdpp Require Import functions.
From S2P Require Import Prelude BipBuffer UserSync.

Definition frame_size : Z := 0x1000.
Definition j6_err_insufficient : Z := 0x8000000000000005.
Definition sizeof_channel_memory_area : Z := 8 + sizeof_bip_buffer.

Definition check_channel_size (s : Z) : bool :=
  negb ((s <? frame_size) || negb (Z.land s (u64 (s - 1)) =? 0)).

(** Where a thread is in a call. *)
Inductive pc :=
  | Outside
  | Reserving (size : Z) (block : bool)   (** reserve: the test under the mutex *)
  | ReserveWait (size : Z)                (** reserve: waiting.wait() *)
  | Getting (block : bool)                (** get_block: the test under the mutex *)
  | GetWait                               (** get_block: waiting.wait() *)
  | CommitWake                            (** commit: waiting.wake(), with the mutex *)
  | ConsumeWake.                          (** consume: waiting.wake() *)

(** [channel_memory_area], with what each thread's last call returned, the mutex's holder when it is
    held across steps, and the bytes sent and received so far. *)
Record area := Area {
  buf : bip_buffer;
  waiting : Condition.condition;
  holder : option tid;
  pcs : tid → pc;
  returned : tid → Z;
  sent : list Z;
  received : list Z;
}.
Definition goto (a : area) (t : tid) (p : pc) : area :=
  Area (buf a) (waiting a) (holder a) (<[t := p]> (pcs a)) (returned a) (sent a) (received a).
Definition return_ (a : area) (t : tid) (v : Z) : area :=
  Area (buf a) (waiting a) (holder a) (<[t := Outside]> (pcs a)) (<[t := v]> (returned a)) (sent a) (received a).
Definition set_buf (a : area) (b : bip_buffer) (s r : list Z) : area :=
  Area b (waiting a) (holder a) (pcs a) (returned a) (sent a ++ s) (received a ++ r).
Definition set_waiting (a : area) (c : Condition.condition) : area :=
  Area (buf a) c (holder a) (pcs a) (returned a) (sent a) (received a).
Definition set_holder (a : area) (h : option tid) : area :=
  Area (buf a) (waiting a) h (pcs a) (returned a) (sent a) (received a).

(** [init_channel_memory_area] in a mapping of [size] bytes. *)
Definition init_channel_memory_area (size start_r : Z) (mem : list Z) : area :=
  Area (new_bip_buffer (u64 (size - sizeof_channel_memory_area)) start_r mem) Condition.new_condition None
    (λ _, Outside) (λ _, 0) [] [].

Inductive action :=
  | CallReserve (size : Z) (block : bool)
  | Store (off : Z) (data : list Z)
  | CallCommit (size : Z)
  | CallGetBlock (block : bool)
  | CallConsume (size : Z)
  | Continue.

(** A call of the condition, begun or continued. *)
Definition call_condition (m : wait_mode) (a : area) (t : tid) (c : Condition.action) (p : pc) : option area :=
  match Condition.step m (waiting a) t c with
  | Some w => Some (goto (set_waiting a w) t p)
  | None => None
  end.
(** An operation of the buffer. *)
Definition with_buf (a : area) (op : bip_op) (k : area → option area) : option area :=
  match step (buf a) op with Done (b, s, r) => k (set_buf a b s r) | _ => None end.

(** [reserve] *)
Definition reserve_step (m : wait_mode) (a : area) (t : tid) (size : Z) (block : bool) : option area :=
  match holder a with
  | Some _ => None
  | None =>
      if write_available (buf a) <? size then
        if block then call_condition m a t Condition.CallWait (ReserveWait size) else Some (return_ a t 0)
      else with_buf a (Reserve size) (λ a', Some (return_ a' t (reserve (buf a) size).1.1))
  end.
(** [commit] *)
Definition commit_step (m : wait_mode) (a : area) (t : tid) (size : Z) : option area :=
  match holder a with
  | Some _ => None
  | None =>
      with_buf a (Commit size) (λ a,
        if size =? 0 then Some a
        else call_condition m (set_holder a (Some t)) t Condition.CallWake CommitWake)
  end.
(** [get_block] *)
Definition get_step (m : wait_mode) (a : area) (t : tid) (block : bool) : option area :=
  match holder a with
  | Some _ => None
  | None =>
      if bip_size (buf a) =? 0 then
        if block then call_condition m a t Condition.CallWait GetWait else Some (return_ a t 0)
      else Some (return_ a t (get_block (buf a)).1)
  end.
(** [consume] *)
Definition consume_step (m : wait_mode) (a : area) (t : tid) (size : Z) : option area :=
  with_buf a (Consume size) (λ a,
    if size =? 0 then Some a else call_condition m a t Condition.CallWake ConsumeWake).

(** A step of thread [t]; a thread that is woken tests the buffer again. *)
Definition chan_step (m : wait_mode) (a : area) (t : tid) (act : action) : option area :=
  match act, pcs a t with
  | CallReserve size block, Outside =>
      if m_buffer_size (buf a) <? size then Some (return_ a t j6_err_insufficient)
      else Some (goto a t (Reserving size block))
  | Store off data, Outside => with_buf a (Write off data) Some
  | CallCommit size, Outside => commit_step m a t size
  | CallGetBlock block, Outside => Some (goto a t (Getting block))
  | CallConsume size, Outside => consume_step m a t size
  | Continue, Reserving size block => reserve_step m a t size block
  | Continue, Getting block => get_step m a t block
  | Continue, (ReserveWait _ | GetWait | CommitWake | ConsumeWake) as p =>
      match Condition.pcs (waiting a) t, p with
      | Condition.Idle, ReserveWait size => Some (goto a t (Reserving size true))
      | Condition.Idle, GetWait => Some (goto a t (Getting true))
      | Condition.Idle, CommitWake => Some (goto (set_holder a None) t Outside)
      | Condition.Idle, _ => Some (goto a t Outside)
      | _, _ => call_condition m a t Condition.Continue p
      end
  | _, _ => None
  end.
Fixpoint chan_run (m : wait_mode) (a : area) (ts : list (tid * action)) : option area :=
  match ts with
  | [] => Some a
  | (t, act) :: ts => match chan_step m a t act with Some a => chan_run m a ts | None => None end
  end.

(** The contract of the two sides, as for the buffer. *)
Definition action_ok (a : area) (act : action) : bool :=
  match act with
  | CallReserve size _ => bool_decide (is_u64 size)
  | Store off data => op_ok (buf a) (Write off data)
  | CallCommit size => op_ok (buf a) (Commit size)
  | CallConsume size => op_ok (buf a) (Consume size)
  | _ => true
  end.
Fixpoint actions_ok (m : wait_mode) (a : area) (ts : list (tid * action)) : bool :=
  match ts with
  | [] => true
  | (t, act) :: ts =>
      action_ok a act && match chan_step m a t act with Some a => actions_ok m a ts | None => true end
  end.

(** ** Bytes arrive in order *)

(** What is true of the buffer in every state: the bytes sent are those received and those in it, and
    no thread asks for a size that is not a [size_t]. *)
Record chan_inv (a : area) : Prop := {
  ci_wf : bip_wf (buf a);
  ci_bytes : sent a = received a ++ contents (buf a);
  ci_sizes : ∀ t size block, pcs a t = Reserving size block ∨ pcs a t = ReserveWait size → is_u64 size;
}.
Lemma chan_pcs_insert a t p u : (<[t := p]> (pcs a)) u = if decide (t = u) then p else pcs a u.
Proof. case_decide; [subst; apply fn_lookup_insert|by apply fn_lookup_insert_ne]. Qed.
Lemma chan_inv_goto a t p :
  chan_inv a → (∀ size block, p = Reserving size block ∨ p = ReserveWait size → is_u64 size) → chan_inv (goto a t p).
Proof.
  intros [H1 H2 H3] Hp. split; [done..|]. intros u size block. cbn [pcs goto]. rewrite chan_pcs_insert.
  case_decide; [apply Hp|apply H3].
Qed.
Lemma chan_inv_return a t v : chan_inv a → chan_inv (return_ a t v).
Proof.
  intros [H1 H2 H3]. split; [done..|]. intros u size block. cbn [pcs return_]. rewrite chan_pcs_insert.
  case_decide; [by intros [?|?]|apply H3].
Qed.
Lemma chan_inv_condition m a t c p a' :
  chan_inv a → (∀ size block, p = Reserving size block ∨ p = ReserveWait size → is_u64 size) →
  call_condition m a t c p = Some a' → chan_inv a'.
Proof.
  intros [H1 H2 H3] Hp. unfold call_condition. destruct (Condition.step _ _ _ _) as [w|]; [|done]. intros [= <-].
  apply chan_inv_goto; [by split|done].
Qed.
Lemma chan_inv_holder a h : chan_inv a → chan_inv (set_holder a h).
Proof. by intros [H1 H2 H3]. Qed.
Lemma chan_inv_buf a op k a' :
  chan_inv a → op_ok (buf a) op = true → (∀ a1, chan_inv a1 → k a1 = Some a' → chan_inv a') →
  with_buf a op k = Some a' → chan_inv a'.
Proof.
  intros [H1 H2 H3] Hok Hk. unfold with_buf. destruct (step_spec (buf a) op H1 Hok) as (b & s & r & -> & Hw & Hc).
  apply Hk. split; [done| |done]. cbn [sent received buf set_buf]. by rewrite H2, <-!app_assoc, Hc.
Qed.

Lemma chan_step_inv m a t act a' :
  chan_inv a → action_ok a act = true → chan_step m a t act = Some a' → chan_inv a'.
Proof.
  intros I Hok Hst. destruct act as [size block|off data|size|block|size|]; cbn [chan_step action_ok] in *;
    destruct (pcs a t) as [|size' block'|size'|block'| | |] eqn:Hpc; try done.
  - apply bool_decide_eq_true in Hok. destruct (m_buffer_size (buf a) <? size); injection Hst as <-; [by apply chan_inv_return|].
    apply chan_inv_goto; [done|]. intros s b [[= <- <-]|]; done.
  - eapply chan_inv_buf; [done|exact Hok| |done]. by intros a1 Ha1 [= <-].
  - unfold commit_step in Hst. destruct (holder a); [done|]. eapply chan_inv_buf; [done|exact Hok| |done]. intros a1 Ha1 Hk.
    destruct (size =? 0); [by injection Hk as <-|]. eapply chan_inv_condition; [by apply chan_inv_holder| |done]. by intros ?? [?|?].
  - injection Hst as <-. apply chan_inv_goto; [done|]. by intros ?? [?|?].
  - eapply chan_inv_buf; [done|exact Hok| |done]. intros a1 Ha1 Hk.
    destruct (size =? 0); [by injection Hk as <-|]. eapply chan_inv_condition; [done| |done]. by intros ?? [?|?].
  - pose proof (ci_sizes a I t size' block' ltac:(by left)) as Hs. unfold reserve_step in Hst. destruct (holder a); [done|].
    destruct (write_available (buf a) <? size').
    + destruct block'; [|injection Hst as <-; by apply chan_inv_return].
      eapply chan_inv_condition; [done| |done]. intros s b [?|[= <-]]; done.
    + eapply (chan_inv_buf a (Reserve size')); [done|cbn [op_ok]; by apply bool_decide_eq_true| |done]. intros a1 Ha1 [= <-]. by apply chan_inv_return.
  - pose proof (ci_sizes a I t size' true ltac:(by right)) as Hs.
    destruct (Condition.pcs (waiting a) t); try (eapply chan_inv_condition; [done| |done]; intros s b [?|[= <-]]; done).
    injection Hst as <-. apply chan_inv_goto; [done|]. intros s b [[= <- <-]|]; done.
  - unfold get_step in Hst. destruct (holder a); [done|]. destruct (bip_size (buf a) =? 0); [|injection Hst as <-; by apply chan_inv_return].
    destruct block'; [|injection Hst as <-; by apply chan_inv_return]. eapply chan_inv_condition; [done| |done]. by intros ?? [?|?].
  - destruct (Condition.pcs (waiting a) t); try (eapply chan_inv_condition; [done| |done]; by intros ?? [?|?]).
    injection Hst as <-. apply chan_inv_goto; [done|]. by intros ?? [?|?].
  - destruct (Condition.pcs (waiting a) t); try (eapply chan_inv_condition; [done| |done]; by intros ?? [?|?]).
    injection Hst as <-. apply chan_inv_goto; [by apply chan_inv_holder|]. by intros ?? [?|?].
  - destruct (Condition.pcs (waiting a) t); try (eapply chan_inv_condition; [done| |done]; by intros ?? [?|?]).
    injection Hst as <-. apply chan_inv_goto; [done|]. by intros ?? [?|?].
Qed.
Lemma init_area_inv size start_r mem :
  check_channel_size size = true → size < 2 ^ 64 → Z.of_nat (length mem) = size - sizeof_channel_memory_area - sizeof_bip_buffer →
  chan_inv (init_channel_memory_area size start_r mem).
Proof.
  intros Hc Hs Hm. unfold check_channel_size, frame_size in Hc. apply negb_true_iff, orb_false_iff in Hc as [Hc%Z.ltb_ge _].
  unfold init_channel_memory_area, sizeof_channel_memory_area, sizeof_bip_buffer in *. change (8 + 64) with 72 in *.
  rewrite wrap_small by (unfold is_word; lia).
  destruct (new_bip_buffer_wf (size - 72) start_r mem) as [Hw Hn]; [unfold sizeof_bip_buffer; lia..|].
  split; cbn [buf sent received pcs]; [exact Hw|by rewrite Hn|]. by intros ??? [?|?].
Qed.

(** ** Theorems *)


(** The receiver finds the buffer empty; the sender sends and wakes nobody; then the receiver waits. *)
Definition stall_schedule : list (tid * action) :=
  [(2%positive, CallGetBlock true); (2%positive, Continue);
   (1%positive, CallReserve 4 true); (1%positive, Continue); (1%positive, Store 0 [10; 20; 30; 40]); (1%positive, CallCommit 4); (1%positive, Continue); (1%positive, Continue);
   (2%positive, Continue); (2%positive, Continue)].
Definition new_channel : area := init_channel_memory_area 4096 0 (replicate 3960 0).

(** a receiver that blocks for data can sleep although data was sent and the sender is done, also
    when waiting on a futex compares and queues at once. *)
Theorem channel_can_stall :
  ∃ a, chan_run Atomic new_channel stall_schedule = Some a ∧ contents (buf a) = [10; 20; 30; 40] ∧
    pcs a 1%positive = Outside ∧ pcs a 2%positive = GetWait ∧ Condition.pcs (waiting a) 2%positive = Condition.Sleep.
Proof. eexists. split; [vm_compute; reflexivity|]. split; [vm_compute; reflexivity|]. split; [|split]; vm_compute; reflexivity. Qed.

(** ** Witness *)

(** The schedule with the receiver's call at the end, and what it takes. *)
Definition exchange_schedule : list (tid * action) :=
  [(1%positive, CallReserve 4 true); (1%positive, Continue); (1%positive, Store 0 [10; 20; 30; 40]); (1%positive, CallCommit 4); (1%positive, Continue); (1%positive, Continue);
   (2%positive, CallGetBlock true); (2%positive, Continue); (2%positive, CallConsume 3); (2%positive, Continue); (2%positive, Continue)].
Definition exchanged : area := default new_channel (chan_run Kernel new_channel exchange_schedule).
