(* ===== verification/DynLink.v ===== *)
(** * Dynamic linking

    Models src/user/ld.so: the lookup of a symbol through an image's GNU hash table with its Bloom
    filter ([lookup]), the search of the images in load order ([resolve]), the relocation tables
    ([parse_rela_table], [relocate]), the table that describes an image ([read_dyn_table]) and the loading
    of an image's dependencies ([load]), from image.cpp, image.h,
    symbols.h and relocate.h.  A string is the list of the characters from its pointer on; tables of an
    image are lists, and an access outside one is [Undef].  The files that the VFS server has are a
    parameter of [load].

    In [load] an image has the name it is needed by; [read_dyn_table] replaces that with the name the
    library gives itself, which is taken to be the same.  The code that constructors run, and the copying
    of a file's segments, are not represented.

    [lookup_correct] states what a linker lays down in the table and shows that [lookup] then finds
    exactly the symbols the image exports.  [relocation_correct] shows what a relocation table writes and
    [relocate_binds] what relocating an image does; a jump slot gets what its resolver would return.
    [read_dyn_table_correct] shows what is read of an image's table.  [load_closed] shows that loading
    returns, and with every image that is needed, each once. *)
From S2P Require Import Prelude.

(** ** Strings *)

Definition str_equal (a b : option (list Z)) : outcome bool :=
  match a, b with
  | Some a, Some b =>
      (fix loop (a b : list Z) : outcome bool :=
         match a, b with
         | x :: a, y :: b => if negb (x =? 0) && negb (y =? 0) && (x =? y) then loop a b else Done (x =? y)
         | _, _ => Undef
         end) a b
  | None, None => Done true
  | _, _ => Done false
  end.
Fixpoint gnu_hash_loop (s : list Z) (h : Z) : outcome Z :=
  match s with
  | [] => Undef
  | c :: s => if c =? 0 then Done h else gnu_hash_loop s (u32 (u32 (Z.shiftl h 5) + h + c))
  end.
Definition gnu_hash_func (s : option (list Z)) : outcome Z :=
  match s with None => Done 5381 | Some s => gnu_hash_loop s 5381 end.

(** ** Images *)

Record symbol := Symbol { sym_name : Z; sym_address : Z }.
Record gnu_hash_table := GnuHash {
  bucket_count : Z;
  start_symbol : Z;
  bloom_count : Z;
  bloom_shift : Z;
  bloom : list Z;
  buckets : list Z;
  chains : list Z;
}.
Record rela := Rela { rel_address : Z; rel_type : Z; rel_symbol : Z; rel_offset : Z }.
(** The tables of an image are the lists their pointers lead to; [got] is an address. *)
Record image := Image {
  base : Z;
  got : Z;
  strtab : option (list Z);
  strtab_count : Z;
  jmprel : list rela;
  dynrel : list rela;
  dynsym : option (list symbol);
  gnu_hash : option gnu_hash_table;
  relocated : bool;
  ctors : bool;
}.

(** [image::string] and [string_table::lookup] *)
Definition string (im : image) (index : Z) : option (list Z) :=
  if strtab_count im <? index then None else drop (Z.to_nat index) <$> strtab im.

(** The loop over a chain, from symbol [i]. *)
Fixpoint chain_loop (fuel : nat) (im : image) (gh : gnu_hash_table) (syms : list symbol) (h : Z) (name : option (list Z)) (i : Z) : outcome Z :=
  match fuel with
  | O => Diverge
  | S fuel =>
      let* sym := arr_get syms i in
      let sym_name := string im (sym_name sym) in
      let* sym_hash := arr_get (chains gh) (u32 (i - start_symbol gh)) in
      let* found := if Z.lor h 1 =? Z.lor sym_hash 1 then str_equal name sym_name else Done false in
      if found : bool then Done (u64 (base im + sym_address sym))
      else if negb (Z.land sym_hash 1 =? 0) then Done 0
      else chain_loop fuel im gh syms h name (u32 (i + 1))
  end.
Definition bloom_bits : Z := 6.
Definition bloom_mask : Z := Z.shiftl 1 bloom_bits - 1.
Definition lookup (im : image) (name : option (list Z)) : outcome Z :=
  match gnu_hash im, dynsym im, strtab im with
  | Some gh, Some syms, Some _ =>
      let* h := gnu_hash_func name in
      let* _ := if (bloom_count gh =? 0) || (bucket_count gh =? 0) || negb (bloom_shift gh <? 32) then Undef else Done () in
      let bloom_index := Z.shiftr h bloom_bits mod bloom_count gh in
      let* word := arr_get (bloom gh) bloom_index in
      let* one1 := shl64 1 (Z.land h bloom_mask) in
      let* one2 := shl64 1 (Z.land (Z.shiftr h (bloom_shift gh)) bloom_mask) in
      let test := Z.lor one1 one2 in
      if negb (Z.land word test =? test) then Done 0
      else
        let* i := arr_get (buckets gh) (h mod bucket_count gh) in
        if i <? start_symbol gh then Done 0
        else chain_loop (S (length (chains gh))) im gh syms h name i
  | _, _, _ => Done 0
  end.

Fixpoint resolve (ims : list image) (name : option (list Z)) : outcome Z :=
  match ims with
  | [] => Done 0
  | im :: ims => let* addr := lookup im name in if negb (addr =? 0) then Done addr else resolve ims name
  end.

(** ** Relocation *)

Definition glob_dat : Z := 6.
Definition jump_slot : Z := 7.
Definition relative : Z := 8.
(** Words of memory by address. *)
Abbreviation words := (gmap Z Z).
Definition store (m : words) (a v : Z) : outcome words :=
  match m !! a with Some _ => Done (<[a := v]> m) | None => Undef end.
(** The address a relocation's symbol stands for. *)
Definition symbol_address (im : image) (ctx : list image) (rel : rela) : outcome Z :=
  match dynsym im with
  | None => Done 0
  | Some syms =>
      let* sym := arr_get syms (rel_symbol rel) in
      match string im (sym_name sym) with
      | None => Done 0
      | Some [] => Undef
      | Some (c :: s) => if c =? 0 then Done 0 else resolve ctx (Some (c :: s))
      end
  end.
(** [parse_rela_table]; an unknown type ends the process. *)
Fixpoint parse_rela_table (im : image) (ctx : list image) (m : words) (table : list rela) : outcome words :=
  match table with
  | [] => Done m
  | rel :: table =>
      let* sym_addr := symbol_address im ctx rel in
      let* m :=
        if (rel_type rel =? glob_dat) || (rel_type rel =? jump_slot) then store m (u64 (rel_address rel + base im)) sym_addr
        else if rel_type rel =? relative then store m (u64 (rel_address rel + base im)) (u64 (base im + rel_offset rel))
        else Panic in
      parse_rela_table im ctx m table
  end.
Definition set_flags (im : image) (relocated ctors : bool) : image :=
  Image (base im) (got im) (strtab im) (strtab_count im) (jmprel im) (dynrel im) (dynsym im) (gnu_hash im) relocated ctors.
(** The characters of __preinit_array_start and so on. *)
Definition preinit_start : list Z :=
  [95; 95; 112; 114; 101; 105; 110; 105; 116; 95; 97; 114; 114; 97; 121; 95; 115; 116; 97; 114; 116; 0].
Definition preinit_end : list Z := [95; 95; 112; 114; 101; 105; 110; 105; 116; 95; 97; 114; 114; 97; 121; 95; 101; 110; 100; 0].
Definition init_start : list Z := [95; 95; 105; 110; 105; 116; 95; 97; 114; 114; 97; 121; 95; 115; 116; 97; 114; 116; 0].
Definition init_end : list Z := [95; 95; 105; 110; 105; 116; 95; 97; 114; 114; 97; 121; 95; 101; 110; 100; 0].
(** The list of constructors between two symbols, if both are found. *)
Definition ctor_list (im : image) (start_name end_name : list Z) : outcome (list (Z * Z)) :=
  let* s := lookup im (Some start_name) in
  let* e := lookup im (Some end_name) in
  Done (if negb (s =? 0) && negb (e =? 0) then [(s, e)] else []).
(** [image::relocate] on the image at [self], with the address of [_ldso_plt_lookup]: the memory, the
    lists of constructors that are run, in order, and the image. *)
Definition relocate (plt_lookup self : Z) (im : image) (ctx : list image) (m : words) : outcome (words * list (Z * Z) * image) :=
  let* m :=
    if relocated im then Done m
    else
      let* m := parse_rela_table im ctx m (dynrel im) in
      let* m := parse_rela_table im ctx m (jmprel im) in
      let* m := store m (u64 (got im + 8)) self in
      store m (u64 (got im + 16)) plt_lookup in
  let* runs :=
    if ctors im then Done []
    else
      let* l1 := ctor_list im preinit_start preinit_end in
      let* l2 := ctor_list im init_start init_end in
      Done (l1 ++ l2) in
  Done (m, runs, set_flags im true true).
(** [ldso_plt_lookup]: the address for an entry of [jmprel] at its first call. *)
Definition ldso_plt_lookup (im : image) (all_images : list image) (jmprel_index : Z) : outcome Z :=
  let* rel := arr_get (jmprel im) jmprel_index in
  match dynsym im with
  | None => Undef
  | Some syms =>
      let* sym := arr_get syms (rel_symbol rel) in
      resolve all_images (string im (sym_name sym))
  end.

(** ** The table of an image *)

Record dyn_entry := Dyn { tag : Z; value : Z }.
Definition dt_null : Z := 0.
Definition dt_pltrelsz : Z := 2.
Definition dt_pltgot : Z := 3.
Definition dt_strtab : Z := 5.
Definition dt_symtab : Z := 6.
Definition dt_rela : Z := 7.
Definition dt_relasz : Z := 8.
Definition dt_relaent : Z := 9.
Definition dt_strsz : Z := 10.
Definition dt_soname : Z := 14.
Definition dt_jmprel : Z := 23.
Definition dt_gnu_hash : Z := 0x6ffffef5.
Definition sizeof_rela : Z := 24.
(** The pointers and counts of an image that [read_dyn_table] sets; [p_name] is the index of a name in
    the table of strings. *)
Record pointers := Pointers {
  p_got : Z;
  p_strtab : Z;
  p_strtab_count : Z;
  p_dynsym : Z;
  p_dynrel : Z;
  p_dynrel_count : Z;
  p_jmprel : Z;
  p_jmprel_count : Z;
  p_gnu_hash : Z;
  p_name : option Z;
}.
(** The variables of the loop beside them. *)
Record dyn_sizes := Sizes { dynrel_size : Z; rela_size : Z; jmprel_size : Z; soname_index : Z }.
Definition dyn_step (b : Z) (st : pointers * dyn_sizes) (d : dyn_entry) : pointers * dyn_sizes :=
  let '(Pointers g st_ sc sy dr drc jr jrc gh nm as p, Sizes ds rs js si as z) := st in
  let v := value d in
  let a := u64 (v + b) in
  if tag d =? dt_pltrelsz then (p, Sizes ds rs v si)
  else if tag d =? dt_pltgot then (Pointers a st_ sc sy dr drc jr jrc gh nm, z)
  else if tag d =? dt_strtab then (Pointers g a sc sy dr drc jr jrc gh nm, z)
  else if tag d =? dt_symtab then (Pointers g st_ sc a dr drc jr jrc gh nm, z)
  else if tag d =? dt_rela then (Pointers g st_ sc sy a drc jr jrc gh nm, z)
  else if tag d =? dt_relasz then (p, Sizes v rs js si)
  else if tag d =? dt_relaent then (p, Sizes ds v js si)
  else if tag d =? dt_strsz then (Pointers g st_ v sy dr drc jr jrc gh nm, z)
  else if tag d =? dt_jmprel then (Pointers g st_ sc sy dr drc a jrc gh nm, z)
  else if tag d =? dt_gnu_hash then (Pointers g st_ sc sy dr drc jr jrc a nm, z)
  else if tag d =? dt_soname then (p, Sizes ds rs js v)
  else (p, z).
Fixpoint dyn_loop (b : Z) (st : pointers * dyn_sizes) (table : list dyn_entry) : outcome (pointers * dyn_sizes) :=
  match table with
  | [] => Undef
  | d :: table => if tag d =? dt_null then Done st else dyn_loop b (dyn_step b st d) table
  end.
Definition read_dyn_table (b : Z) (p : pointers) (table : list dyn_entry) : outcome pointers :=
  let* (p, z) := dyn_loop b (p, Sizes 0 sizeof_rela 0 0) table in
  Done (Pointers (p_got p) (p_strtab p) (p_strtab_count p) (p_dynsym p)
          (p_dynrel p) (if negb (dynrel_size z =? 0) && negb (rela_size z =? 0) then dynrel_size z / rela_size z else p_dynrel_count p)
          (p_jmprel p) (if negb (jmprel_size z =? 0) && negb (rela_size z =? 0) then jmprel_size z / rela_size z else p_jmprel_count p)
          (p_gnu_hash p)
          (if negb (soname_index z =? 0) && negb (p_strtab p =? 0) then Some (soname_index z) else p_name p)).

(** ** The images an image needs *)

(** Names, as [str_equal] tells them apart. *)
Abbreviation name := (list Z).
Section load.
(** The entries of type [needed] of the library with a name; [None] when it cannot be opened. *)
Context (needed : name → option (list name)).

(** [add_needed_entries]: the names that are in neither list go to the end of the open one. *)
Fixpoint add_needed_entries (names : list name) (open closed : list name) : list name :=
  match names with
  | [] => open
  | n :: names =>
      if bool_decide (n ∈ open) || bool_decide (n ∈ closed) then add_needed_entries names open closed
      else add_needed_entries names (open ++ [n]) closed
  end.
Fixpoint load_loop (fuel : nat) (open closed : list name) : outcome (list name * bool) :=
  match open with
  | [] => Done (closed, true)
  | n :: open =>
      match fuel with
      | O => Diverge
      | S fuel =>
          match needed n with
          | None => Done (closed, false)
          | Some names => load_loop fuel (add_needed_entries names open closed) (closed ++ [n])
          end
      end
  end.
(** [image_list::load] on the target image, with the entries it needs: the images loaded, and whether
    all could be. *)
Definition load (fuel : nat) (target : name) (names : list name) : outcome (list name * bool) :=
  load_loop fuel (add_needed_entries names [] [target]) [target].
End load.

(** ** The hash table a linker makes *)

(** A string at the start of a list of characters. *)
Definition cstr (s t : list Z) : Prop := Forall (λ c, c ≠ 0) t ∧ ∃ rest, s = t ++ 0 :: rest.
Definition hash_of (n : list Z) : Z := foldl (λ h c, u32 (u32 (Z.shiftl h 5) + h + c)) 5381 n.
(** A symbol that an image exports. *)
Record export := Export { ex_name : list Z; ex_addr : Z }.

(** The exports [exs], in the order of their buckets, as the symbols from [start_symbol] on. *)
Record gnu_wf (im : image) (gh : gnu_hash_table) (syms : list symbol) (exs : list export) : Prop := {
  gw_buckets : 0 < bucket_count gh;
  gw_blooms : 0 < bloom_count gh ∧ 0 ≤ bloom_shift gh < 32;
  gw_start : 0 < start_symbol gh ∧ start_symbol gh + Z.of_nat (length exs) < 2 ^ 32;
  gw_chain_length : length (chains gh) = length exs;
  gw_symbol j e : exs !! j = Some e → ∃ sym,
    syms !! (Z.to_nat (start_symbol gh) + j)%nat = Some sym ∧ sym_address sym = ex_addr e ∧
    ∃ s, string im (sym_name sym) = Some s ∧ cstr s (ex_name e);
  gw_chain j e : exs !! j = Some e → ∃ c,
    chains gh !! j = Some c ∧ Z.lor c 1 = Z.lor (hash_of (ex_name e)) 1 ∧
    (Z.land c 1 ≠ 0 ↔ ∀ e', exs !! S j = Some e' →
       hash_of (ex_name e') mod bucket_count gh ≠ hash_of (ex_name e) mod bucket_count gh);
  gw_sorted j j' e e' : exs !! j = Some e → exs !! j' = Some e' → (j ≤ j')%nat →
    hash_of (ex_name e) mod bucket_count gh ≤ hash_of (ex_name e') mod bucket_count gh;
  gw_bucket b : 0 ≤ b < bucket_count gh → buckets gh !! Z.to_nat b = Some (
    match list_find (λ e, hash_of (ex_name e) mod bucket_count gh = b) exs with
    | Some (j, _) => start_symbol gh + Z.of_nat j
    | None => 0
    end);
  gw_bloom_words i : 0 ≤ i < bloom_count gh → is_Some (bloom gh !! Z.to_nat i);
  gw_bloom e : e ∈ exs → let h := hash_of (ex_name e) in ∀ word,
    bloom gh !! Z.to_nat (Z.shiftr h 6 mod bloom_count gh) = Some word →
    Z.testbit word (h mod 64) = true ∧ Z.testbit word (Z.shiftr h (bloom_shift gh) mod 64) = true;
}.

Lemma gnu_hash_spec n s : cstr s n → gnu_hash_func (Some s) = Done (hash_of n).
Proof.
  intros [Hn [rest ->]]. unfold gnu_hash_func, hash_of. generalize 5381. induction Hn as [|c n Hc _ IH]; intros h; cbn; [done|].
  rewrite (proj2 (Z.eqb_neq c 0)) by done. apply IH.
Qed.
Lemma hash_of_word n : is_u32 (hash_of n).
Proof.
  unfold hash_of. destruct n as [|c n _] using rev_ind; [by split; vm_compute|]. rewrite foldl_app. apply wrap_word. lia.
Qed.
Lemma str_equal_spec s s' t t' : cstr s t → cstr s' t' → str_equal (Some s) (Some s') = Done (bool_decide (t = t')).
Proof.
  intros [Ht [r ->]] [Ht' [r' ->]]. unfold str_equal. revert t' Ht'.
  induction Ht as [|c t Hc _ IH]; intros t' Ht'; destruct Ht' as [|c' t' Hc' Ht']; cbn [app].
  - done.
  - cbn. rewrite bool_decide_eq_false_2 by done. by destruct c'.
  - rewrite (proj2 (Z.eqb_neq c 0)) by done. cbn. rewrite bool_decide_eq_false_2 by done. by destruct c.
  - rewrite (proj2 (Z.eqb_neq c 0)), (proj2 (Z.eqb_neq c' 0)) by done. cbn [negb andb]. destruct (Z.eqb_spec c c') as [->|Hne].
    + rewrite IH by done. f_equal. apply bool_decide_ext. naive_solver.
    + rewrite bool_decide_eq_false_2 by congruence. done.
Qed.

Section lookup.
Context (im : image) (gh : gnu_hash_table) (syms : list symbol) (exs : list export).
Context (W : gnu_wf im gh syms exs).
Context (s n : list Z) (Hs : cstr s n).

(** What a search of the exports from the [j]-th on returns. *)
Definition found_in (l : list export) : Z :=
  match list_find (λ e, ex_name e = n) l with Some (_, e) => u64 (base im + ex_addr e) | None => 0 end.

Lemma found_in_none l : (∀ e, e ∈ l → ex_name e ≠ n) → found_in l = 0.
Proof. intros H. unfold found_in. rewrite (proj2 (list_find_None _ _)); [done|]. by apply Forall_forall. Qed.
Lemma found_in_cons_ne e l : ex_name e ≠ n → found_in (e :: l) = found_in l.
Proof.
  intros H. unfold found_in. cbn [list_find]. rewrite decide_False by done. by destruct (list_find _ l) as [[? ?]|].
Qed.
Lemma found_in_skip l l' : (∀ e, e ∈ l → ex_name e ≠ n) → found_in (l ++ l') = found_in l'.
Proof.
  induction l as [|e l IH]; intros H; [done|]. cbn [app]. rewrite found_in_cons_ne by (apply H, elem_of_cons; by left).
  apply IH. intros e' He'. apply H, elem_of_cons. by right.
Qed.

Abbreviation h := (hash_of n).
Abbreviation bucket e := (hash_of (ex_name e) mod bucket_count gh).

Lemma chain_loop_spec fuel : ∀ j e,
  exs !! j = Some e → bucket e = h mod bucket_count gh → (length exs - j ≤ fuel)%nat →
  chain_loop fuel im gh syms h (Some s) (start_symbol gh + Z.of_nat j) = Done (found_in (drop j exs)).
Proof.
  destruct (gw_start _ _ _ _ W) as [Hst Hlen]. induction fuel as [|fuel IH]; intros j e Hj Hb Hf.
  { apply lookup_lt_Some in Hj. lia. }
  pose proof (lookup_lt_Some _ _ _ Hj) as Hlt. cbn [chain_loop].
  destruct (gw_symbol _ _ _ _ W j e Hj) as (sym & Hsym & Haddr & str & Hstr & Hcs).
  destruct (gw_chain _ _ _ _ W j e Hj) as (c & Hc & Hch & Hend).
  assert (E1 : arr_get syms (start_symbol gh + Z.of_nat j) = Done sym).
  { apply arr_get_Done. split; [lia|]. rewrite <-Hsym. f_equal. lia. }
  assert (E2 : arr_get (chains gh) (u32 (start_symbol gh + Z.of_nat j - start_symbol gh)) = Done c).
  { replace (start_symbol gh + Z.of_nat j - start_symbol gh) with (Z.of_nat j) by lia.
    rewrite wrap_small by (unfold is_word; lia). apply arr_get_Done. split; [lia|]. by rewrite Nat2Z.id. }
  rewrite E1. cbn [mbind outcome_bind]. rewrite E2. cbn [mbind outcome_bind].
  rewrite (drop_S exs e j Hj), Hstr, Hch, Haddr.
  assert (Hfound : (if Z.lor h 1 =? Z.lor (hash_of (ex_name e)) 1 then str_equal (Some s) (Some str) else Done false)
    = Done (bool_decide (ex_name e = n))).
  { rewrite (str_equal_spec s str n (ex_name e)) by done. destruct (Z.eqb_spec (Z.lor h 1) (Z.lor (hash_of (ex_name e)) 1)) as [_|Hne].
    - f_equal. apply bool_decide_ext. naive_solver.
    - rewrite bool_decide_eq_false_2; [done|]. intros E. by rewrite E in Hne. }
  rewrite Hfound. cbn [mbind outcome_bind]. case_bool_decide as Hname.
  { unfold found_in. cbn [list_find]. by rewrite decide_True. }
  rewrite found_in_cons_ne by done. destruct (Z.eqb_spec (Z.land c 1) 0) as [Hz|Hnz]; cbn [negb].
  - assert (Hnext : ∃ e', exs !! S j = Some e' ∧ bucket e' = bucket e).
    { destruct (exs !! S j) as [e'|] eqn:E; [|exfalso; by apply (proj2 Hend)].
      destruct (decide (bucket e' = bucket e)); [by eexists|]. exfalso. apply (proj2 Hend); [|done]. by intros ? [= <-]. }
    destruct Hnext as (e' & He' & Hbe'). pose proof (lookup_lt_Some _ _ _ He'). rewrite wrap_small by (unfold is_word; lia).
    replace (start_symbol gh + Z.of_nat j + 1) with (start_symbol gh + Z.of_nat (S j)) by lia.
    by apply (IH (S j) e'); [|congruence|lia].
  - rewrite found_in_none; [done|]. intros e' [k Hk]%list_elem_of_lookup En. rewrite lookup_drop in Hk.
    destruct (exs !! S j) as [e1|] eqn:E1'; [|apply lookup_ge_None in E1'; apply lookup_lt_Some in Hk; lia].
    pose proof (proj1 Hend Hnz e1 eq_refl) as Hne.
    pose proof (gw_sorted _ _ _ _ W j (S j) e e1 Hj E1' ltac:(lia)). pose proof (gw_sorted _ _ _ _ W (S j) _ e1 e' E1' Hk ltac:(lia)).
    rewrite En in *. lia.
Qed.

(** The filter lets every exported name through. *)
Lemma bloom_test word a b :
  0 ≤ a < 64 → 0 ≤ b < 64 → Z.testbit word a = true → Z.testbit word b = true →
  Z.land word (Z.lor (2 ^ a) (2 ^ b)) = Z.lor (2 ^ a) (2 ^ b).
Proof.
  intros Ha Hb Hta Htb. apply Z.bits_inj'. intros i Hi. rewrite Z.land_spec, Z.lor_spec, !Z.pow2_bits_eqb by lia.
  destruct (Z.eqb_spec a i) as [<-|]; [by rewrite Hta|]. destruct (Z.eqb_spec b i) as [<-|]; [by rewrite Htb|]. apply andb_false_r.
Qed.
Lemma lookup_spec :
  gnu_hash im = Some gh → dynsym im = Some syms → is_Some (strtab im) → lookup im (Some s) = Done (found_in exs).
Proof.
  intros Hgh Hdyn [tab Htab]. unfold lookup. rewrite Hgh, Hdyn, Htab, (gnu_hash_spec n s) by done. cbn [mbind outcome_bind].
  pose proof (gw_buckets _ _ _ _ W) as Hbc. destruct (gw_blooms _ _ _ _ W) as [Hbl Hsh]. destruct (gw_start _ _ _ _ W) as [Hst Hlen].
  rewrite (proj2 (Z.eqb_neq (bloom_count gh) 0)), (proj2 (Z.eqb_neq (bucket_count gh) 0)), (proj2 (Z.ltb_lt _ _)) by lia.
  cbn [orb negb mbind outcome_bind]. unfold bloom_bits, bloom_mask. change (Z.shiftl 1 bloom_bits - 1) with (Z.ones 6).
  rewrite !Z.land_ones by lia. change (2 ^ 6) with 64. pose proof (Z.mod_pos_bound h 64) as Ha. pose proof (Z.mod_pos_bound (Z.shiftr h (bloom_shift gh)) 64) as Hb.
  destruct (gw_bloom_words _ _ _ _ W (Z.shiftr h 6 mod bloom_count gh)) as [word Hw]; [apply Z.mod_pos_bound; lia|].
  assert (Ew : arr_get (bloom gh) (Z.shiftr h 6 mod bloom_count gh) = Done word) by (apply arr_get_Done; split; [apply Z.mod_pos_bound; lia|done]).
  rewrite Ew. cbn [mbind outcome_bind]. rewrite !shl64_Done by lia. cbn [mbind outcome_bind].
  rewrite !Z.shiftl_1_l.
  assert (Hp : ∀ k, 0 ≤ k < 64 → u64 (2 ^ k) = 2 ^ k).
  { intros k Hk. apply wrap_small. unfold is_word. split; [lia|]. apply Z.pow_lt_mono_r; lia. }
  assert (Hin : ∀ e, e ∈ exs → ex_name e = n → Z.land word (Z.lor (2 ^ (h mod 64)) (2 ^ (Z.shiftr h (bloom_shift gh) mod 64)))
    = Z.lor (2 ^ (h mod 64)) (2 ^ (Z.shiftr h (bloom_shift gh) mod 64))).
  { intros e He En. destruct (gw_bloom _ _ _ _ W e He word) as [H1 H2]; [by rewrite En|]. rewrite En in H1, H2. apply bloom_test; (done || lia). }
  rewrite !Hp by lia. set (test := Z.lor _ _) in *. destruct (Z.eqb_spec (Z.land word test) test) as [_|Hne]; cbn [negb].
  - assert (Hbm : 0 ≤ h mod bucket_count gh < bucket_count gh) by (apply Z.mod_pos_bound; lia).
    pose proof (gw_bucket _ _ _ _ W _ Hbm) as Hbk. rewrite (proj2 (arr_get_Done (buckets gh) _ _) (conj (proj1 Hbm) Hbk)). cbn [mbind outcome_bind].
    destruct (list_find _ exs) as [[j e]|] eqn:Hfind.
    + apply list_find_Some in Hfind as (Hj & Hbe & Hbefore). rewrite (proj2 (Z.ltb_ge _ _)) by lia.
      rewrite (chain_loop_spec _ j e Hj Hbe) by (rewrite (gw_chain_length _ _ _ _ W); lia).
      rewrite <-(take_drop j exs) at 2. rewrite found_in_skip; [done|]. intros e' [k Hk]%list_elem_of_lookup En.
      apply lookup_take_Some in Hk as [Hk Hkj]. apply (Hbefore k e' Hk Hkj). by rewrite En.
    + rewrite (proj2 (Z.ltb_lt _ _)) by lia. rewrite found_in_none; [done|]. intros e He En.
      apply list_find_None in Hfind. rewrite Forall_forall in Hfind. apply (Hfind e He). by rewrite En.
  - rewrite found_in_none; [done|]. intros e He En. by apply Hne, (Hin e).
Qed.
End lookup.

(** ** Relocation *)

Definition rel_target (im : image) (rel : rela) : Z := u64 (rel_address rel + base im).
(** What a relocation of a known type stores. *)
Definition rel_value (im : image) (ctx : list image) (rel : rela) : outcome Z :=
  let* a := symbol_address im ctx rel in
  if rel_type rel =? relative then Done (u64 (base im + rel_offset rel)) else Done a.
Definition rel_ok (im : image) (ctx : list image) (m : words) (rel : rela) : Prop :=
  rel_type rel ∈ [glob_dat; jump_slot; relative] ∧ is_Some (m !! rel_target im rel) ∧
  ∃ v, rel_value im ctx rel = Done v.

Lemma parse_rela_step im ctx m rel table :
  rel_ok im ctx m rel → ∃ v, rel_value im ctx rel = Done v ∧
    parse_rela_table im ctx m (rel :: table) = parse_rela_table im ctx (<[rel_target im rel := v]> m) table.
Proof.
  intros (Ht & [w Hw] & v & Hv). exists v. split; [done|]. cbn [parse_rela_table]. unfold rel_value in Hv.
  destruct (symbol_address im ctx rel) as [a| | |]; [|done..]. cbn [mbind outcome_bind] in *. unfold store. fold (rel_target im rel). rewrite Hw.
  rewrite !elem_of_cons, elem_of_nil in Ht. destruct Ht as [E|[E|[E|[]]]]; rewrite E in *; cbn in Hv |- *; by injection Hv as <-.
Qed.
Lemma parse_rela_spec im ctx table : ∀ m,
  Forall (rel_ok im ctx m) table → NoDup (rel_target im <$> table) →
  ∃ m', parse_rela_table im ctx m table = Done m' ∧
    (∀ rel, rel ∈ table → ∃ v, rel_value im ctx rel = Done v ∧ m' !! rel_target im rel = Some v) ∧
    (∀ a, a ∉ rel_target im <$> table → m' !! a = m !! a).
Proof.
  induction table as [|rel table IH]; intros m Hok Hnd.
  { exists m. split; [done|]. split; [by intros ? ?%not_elem_of_nil|done]. }
  apply Forall_cons in Hok as [Hrel Hok]. cbn [fmap list_fmap] in *. apply NoDup_cons in Hnd as [Hni Hnd].
  destruct (parse_rela_step im ctx m rel table Hrel) as (v & Hv & ->).
  destruct (IH (<[rel_target im rel := v]> m)) as (m' & Hrun & Hin & Hout); [|done|].
  { eapply Forall_impl; [exact Hok|]. intros r (Ht & Hs & Hval). split; [done|]. split; [|done]. by apply lookup_insert_is_Some'; right. }
  exists m'. split; [done|]. split.
  - intros r [->|Hr]%elem_of_cons; [|by apply Hin]. exists v. split; [done|]. by rewrite Hout, lookup_insert_eq.
  - intros a [Hne Ha]%not_elem_of_cons. rewrite Hout by done. by apply lookup_insert_ne.
Qed.

Lemma parse_rela_app im ctx table table' : ∀ m,
  parse_rela_table im ctx m (table ++ table') = (let* m' := parse_rela_table im ctx m table in parse_rela_table im ctx m' table').
Proof.
  induction table as [|rel table IH]; intros m; [done|]. cbn [app parse_rela_table].
  destruct (symbol_address im ctx rel); [|done..]. cbn [mbind outcome_bind].
  case (if _ || _ then _ else _) as [m1| | |]; [|done..]. cbn [mbind outcome_bind]. apply IH.
Qed.
(** An entry of [jmprel] whose symbol has a name. *)
Definition named_slot (im : image) (idx : Z) (rel : rela) : Prop :=
  arr_get (jmprel im) idx = Done rel ∧ rel_type rel = jump_slot ∧
  ∃ syms sym c s, dynsym im = Some syms ∧ arr_get syms (rel_symbol rel) = Done sym ∧ string im (sym_name sym) = Some (c :: s) ∧ c ≠ 0.
Lemma plt_lookup_value im ctx idx rel : named_slot im idx rel → ldso_plt_lookup im ctx idx = rel_value im ctx rel.
Proof.
  intros (Hrel & Ht & syms & sym & c & s & Hd & Hsym & Hstr & Hc). unfold ldso_plt_lookup, rel_value, symbol_address.
  rewrite Hrel. cbn [mbind outcome_bind]. rewrite Hd, Hsym. cbn [mbind outcome_bind]. rewrite Hstr, (proj2 (Z.eqb_neq c 0)), Ht by done.
  by destruct (resolve ctx _).
Qed.
(** The words of the GOT that the image itself gets. *)
Definition got_slots (im : image) : list Z := [u64 (got im + 8); u64 (got im + 16)].
Lemma store_Done m a v : is_Some (m !! a) → store m a v = Done (<[a := v]> m).
Proof. intros [w H]. unfold store. by rewrite H. Qed.
Lemma relocate_writes plt self im ctx m l1 l2 :
  relocated im = false → ctors im = false →
  Forall (rel_ok im ctx m) (dynrel im ++ jmprel im) → NoDup ((rel_target im <$> dynrel im ++ jmprel im) ++ got_slots im) →
  Forall (λ a, is_Some (m !! a)) (got_slots im) →
  ctor_list im preinit_start preinit_end = Done l1 → ctor_list im init_start init_end = Done l2 →
  ∃ m', relocate plt self im ctx m = Done (m', l1 ++ l2, set_flags im true true) ∧
    (∀ rel, rel ∈ dynrel im ++ jmprel im → ∃ v, rel_value im ctx rel = Done v ∧ m' !! rel_target im rel = Some v) ∧
    m' !! u64 (got im + 8) = Some self ∧ m' !! u64 (got im + 16) = Some plt ∧
    (∀ a, a ∉ rel_target im <$> dynrel im ++ jmprel im → a ∉ got_slots im → m' !! a = m !! a).
Proof.
  intros Hr Hc Hok Hnd Hgot H1 H2. apply NoDup_app in Hnd as (Hnd & Hdis & Hgs). unfold got_slots in *.
  apply Forall_cons in Hgot as [Hg1 Hgot]. apply Forall_cons in Hgot as [Hg2 _]. apply NoDup_cons in Hgs as [Hne _].
  assert (Hne' : u64 (got im + 8) ≠ u64 (got im + 16)) by (intros E; apply Hne; rewrite E; by left).
  destruct (parse_rela_spec im ctx (dynrel im ++ jmprel im) m Hok Hnd) as (m1 & Hrun & Hin & Hout). rewrite parse_rela_app in Hrun.
  assert (Hslot : ∀ a, a ∈ [u64 (got im + 8); u64 (got im + 16)] → a ∉ rel_target im <$> dynrel im ++ jmprel im) by (intros a Ha Ha'; by apply (Hdis a)).
  unfold relocate. rewrite Hr, Hc. destruct (parse_rela_table im ctx m (dynrel im)) as [m0| | |]; [|done..]. cbn [mbind outcome_bind] in *.
  rewrite Hrun. cbn [mbind outcome_bind]. rewrite store_Done by (rewrite Hout by (apply Hslot; by left); done). cbn [mbind outcome_bind].
  rewrite store_Done by (rewrite lookup_insert_ne, Hout by (done || apply Hslot; by right; left); done). cbn [mbind outcome_bind].
  rewrite H1. cbn [mbind outcome_bind]. rewrite H2. cbn [mbind outcome_bind]. eexists. split; [done|]. split; [|split; [|split]].
  - intros rel Hrel. destruct (Hin rel Hrel) as (v & Hv & Hm). exists v. split; [done|].
    assert (Ht : rel_target im rel ∈ rel_target im <$> dynrel im ++ jmprel im) by (by apply list_elem_of_fmap_2).
    rewrite !lookup_insert_ne; [done|intros E; apply (Hdis _ Ht); rewrite <-E; by left|intros E; apply (Hdis _ Ht); rewrite <-E; by right; left].
  - by rewrite lookup_insert_ne, lookup_insert_eq.
  - by rewrite lookup_insert_eq.
  - intros a Ha [H3 [H4 _]%not_elem_of_cons]%not_elem_of_cons. rewrite !lookup_insert_ne by done. by apply Hout.
Qed.

(** ** The table of an image *)

(** The value of the last entry with a tag. *)
Definition last_value (tg : Z) (es : list dyn_entry) : option Z := last (value <$> filter (λ d, tag d = tg) es).
Lemma last_value_snoc tg es d :
  last_value tg (es ++ [d]) = if decide (tag d = tg) then Some (value d) else last_value tg es.
Proof.
  unfold last_value. rewrite filter_app, fmap_app. destruct (decide (tag d = tg)).
  - rewrite filter_cons_True by done. rewrite filter_nil. cbn [fmap list_fmap]. by rewrite last_snoc.
  - rewrite filter_cons_False by done. by rewrite filter_nil, app_nil_r.
Qed.
(** A pointer of the image, with the entries' tag. *)
Definition pointer_of (b tg old : Z) (es : list dyn_entry) : Z :=
  match last_value tg es with Some v => u64 (v + b) | None => old end.
Definition count_of (size entry old : Z) : Z := if negb (size =? 0) && negb (entry =? 0) then size / entry else old.
(** The state of the loop after some entries. *)
Definition dyn_state (b : Z) (p : pointers) (es : list dyn_entry) : pointers * dyn_sizes :=
  (Pointers (pointer_of b dt_pltgot (p_got p) es) (pointer_of b dt_strtab (p_strtab p) es)
     (default (p_strtab_count p) (last_value dt_strsz es)) (pointer_of b dt_symtab (p_dynsym p) es)
     (pointer_of b dt_rela (p_dynrel p) es) (p_dynrel_count p) (pointer_of b dt_jmprel (p_jmprel p) es) (p_jmprel_count p)
     (pointer_of b dt_gnu_hash (p_gnu_hash p) es) (p_name p),
   Sizes (default 0 (last_value dt_relasz es)) (default sizeof_rela (last_value dt_relaent es))
     (default 0 (last_value dt_pltrelsz es)) (default 0 (last_value dt_soname es))).
Lemma dyn_step_state b p es d : dyn_step b (dyn_state b p es) d = dyn_state b p (es ++ [d]).
Proof.
  unfold dyn_state, pointer_of. rewrite !last_value_snoc. unfold dyn_step. destruct d as [tg v]. cbn [tag value].
  repeat match goal with
  | |- context [tg =? ?x] => destruct (Z.eqb_spec tg x) as [->|]; [reflexivity|]
  end.
  repeat (rewrite decide_False by done). reflexivity.
Qed.
Lemma dyn_loop_state b p es d rest : ∀ seen,
  Forall (λ d, tag d ≠ dt_null) es → tag d = dt_null →
  dyn_loop b (dyn_state b p seen) (es ++ d :: rest) = Done (dyn_state b p (seen ++ es)).
Proof.
  induction es as [|d' es IH]; intros seen Hes Hd; cbn [app dyn_loop].
  - rewrite (proj2 (Z.eqb_eq _ _)) by done. by rewrite app_nil_r.
  - apply Forall_cons in Hes as [Hd' Hes]. rewrite (proj2 (Z.eqb_neq _ _)) by done. rewrite dyn_step_state, IH by done.
    by rewrite <-app_assoc.
Qed.

(** ** Loading *)

Section closure.
Context (needed : name → option (list name)) (U : list name).
Context (HU : ∀ n l, needed n = Some l → l ⊆ U).
Context (Hself : ∀ n l, needed n = Some l → n ∉ l).

Lemma add_needed_spec names : ∀ open closed,
  NoDup (open ++ closed) → let open' := add_needed_entries names open closed in
  NoDup (open' ++ closed) ∧ open ⊆ open' ∧ (∀ n, n ∈ names → n ∈ open' ∨ n ∈ closed) ∧
  (∀ n, n ∈ open' → n ∈ open ∨ n ∈ names).
Proof.
  induction names as [|n names IH]; intros open closed Hnd; cbn [add_needed_entries].
  { split; [done|]. split; [done|]. split; [by intros ? ?%not_elem_of_nil|by left]. }
  case_bool_decide as Ho; [|case_bool_decide as Hc]; cbn [orb].
  - destruct (IH open closed Hnd) as (H1 & H2 & H3 & H4). split; [done|]. split; [done|]. split.
    + intros m [->|Hm]%elem_of_cons; [left; by apply H2|by apply H3].
    + intros m Hm. rewrite elem_of_cons. destruct (H4 m Hm); tauto.
  - destruct (IH open closed Hnd) as (H1 & H2 & H3 & H4). split; [done|]. split; [done|]. split.
    + intros m [->|Hm]%elem_of_cons; [by right|by apply H3].
    + intros m Hm. rewrite elem_of_cons. destruct (H4 m Hm); tauto.
  - destruct (IH (open ++ [n]) closed) as (H1 & H2 & H3 & H4).
    { rewrite NoDup_app in Hnd |- *. destruct Hnd as (Hd1 & Hd2 & Hd3). split; [|split; [|done]].
      - apply NoDup_app. split; [done|]. split; [|apply NoDup_singleton]. by intros x Hx ->%list_elem_of_singleton.
      - intros x [Hx| ->%list_elem_of_singleton]%elem_of_app; [by apply Hd2|done]. }
    split; [done|]. split; [intros x Hx; apply H2, elem_of_app; by left|]. split.
    + intros m [->|Hm]%elem_of_cons; [left; apply H2, elem_of_app; right; by apply list_elem_of_singleton|by apply H3].
    + intros m Hm. rewrite elem_of_cons. destruct (H4 m Hm) as [[?| ->%list_elem_of_singleton]%elem_of_app|?]; tauto.
Qed.

(** What holds of the two lists throughout: [needs] is [needed] with the entries of the target. *)
Context (target : name) (names : list name).
Definition needs (n : name) : option (list name) := if decide (n = target) then Some names else needed n.
Record load_inv (open closed : list name) : Prop := {
  li_nodup : NoDup (open ++ closed);
  li_known : open ++ closed ⊆ U;
  li_target : target ∈ closed;
  li_needs : ∀ n, n ∈ closed → ∃ l, needs n = Some l ∧ ∀ m, m ∈ l → m ∈ open ∨ m ∈ closed;
}.
Lemma load_step n open closed l :
  load_inv (n :: open) closed → needed n = Some l → load_inv (add_needed_entries l open closed) (closed ++ [n]).
Proof.
  intros [Hnd Hk Ht Hn] Hl. cbn [app] in *. pose proof Hnd as [Hni Hnd']%NoDup_cons. rewrite not_elem_of_app in Hni. destruct Hni as [Hno Hnc].
  destruct (add_needed_spec l open closed Hnd') as (H1 & H2 & H3 & H4). set (open' := add_needed_entries l open closed) in *.
  assert (Hn' : n ∉ open') by (intros Hin; destruct (H4 n Hin); [done|by apply (Hself n l)]).
  split.
  - rewrite app_assoc. apply NoDup_app. split; [done|]. split; [|apply NoDup_singleton].
    intros x Hx ->%list_elem_of_singleton. apply elem_of_app in Hx as [?|?]; done.
  - intros x. rewrite !elem_of_app, list_elem_of_singleton. intros [Hx|[Hx| ->]].
    + destruct (H4 x Hx) as [?|Hxl]; [apply Hk; rewrite elem_of_cons, elem_of_app; tauto|by apply (HU n l)].
    + apply Hk. rewrite elem_of_cons, elem_of_app. tauto.
    + apply Hk, elem_of_cons. by left.
  - apply elem_of_app. by left.
  - intros x [Hx| ->%list_elem_of_singleton]%elem_of_app.
    + destruct (Hn x Hx) as (lx & Hlx & Hm). exists lx. split; [done|]. intros m Hm'. rewrite elem_of_app, list_elem_of_singleton.
      destruct (Hm m Hm') as [[->|Ho]%elem_of_cons|?]; [tauto|left; by apply H2|tauto].
    + exists l. split; [unfold needs; rewrite decide_False; [done|by intros ->]|]. intros m Hm. rewrite elem_of_app.
      destruct (H3 m Hm); tauto.
Qed.
Lemma load_loop_spec fuel : ∀ open closed,
  load_inv open closed → (length U ≤ fuel + length closed)%nat →
  ∃ closed' ok, load_loop needed fuel open closed = Done (closed', ok) ∧ NoDup closed' ∧ target ∈ closed' ∧
    (ok = true → ∀ n, n ∈ closed' → ∃ l, needs n = Some l ∧ l ⊆ closed') ∧
    (ok = false → ∃ n, needed n = None).
Proof.
  induction fuel as [|fuel IH]; intros open closed I Hf; destruct open as [|n open]; cbn [load_loop].
  - destruct I as [Hnd Hk Ht Hn]. exists closed, true. split; [done|]. split; [done|]. split; [done|]. split; [|done].
    intros _ n Hin. destruct (Hn n Hin) as (l & Hl & Hm). exists l. split; [done|]. intros m Hml. destruct (Hm m Hml) as [?%not_elem_of_nil|?]; done.
  - exfalso. pose proof (NoDup_submseteq _ U (li_nodup _ _ I) ltac:(intros x Hx; by apply (li_known _ _ I))) as Hle%submseteq_length.
    cbn [app length] in Hle. rewrite length_app in Hle. lia.
  - destruct I as [Hnd Hk Ht Hn]. exists closed, true. split; [done|]. split; [done|]. split; [done|]. split; [|done].
    intros _ n Hin. destruct (Hn n Hin) as (l & Hl & Hm). exists l. split; [done|]. intros m Hml. destruct (Hm m Hml) as [?%not_elem_of_nil|?]; done.
  - destruct (needed n) as [l|] eqn:Hl.
    + apply IH; [by apply load_step|]. rewrite length_app. cbn [length]. lia.
    + exists closed, false. split; [done|]. split; [by pose proof (li_nodup _ _ I) as (_ & _ & ?)%NoDup_app|].
      split; [apply I|]. split; [done|]. by exists n.
Qed.
End closure.

(** ** Theorems *)

(** with a hash table laid out as linkers do, [lookup] returns the address of the symbol of that
    name among the image's exports, the first one in their order, and 0 for a name the image does not
    export; it always returns and reads only inside the tables. *)
Theorem lookup_correct (im : image) (gh : gnu_hash_table) (syms : list symbol) (exs : list export) (s n : list Z) :
  gnu_hash im = Some gh → dynsym im = Some syms → is_Some (strtab im) → gnu_wf im gh syms exs → cstr s n →
  lookup im (Some s) = Done (match list_find (λ e, ex_name e = n) exs with
                      | Some (_, e) => u64 (base im + ex_addr e)
                      | None => 0
                      end).
Proof. intros Hgh Hdyn Htab W Hs. exact (lookup_spec im gh syms exs W s n Hs Hgh Hdyn Htab). Qed.

(** a relocation table of known types with distinct places is applied completely: every place gets
    the address of its symbol or the shifted base, and no other word changes. *)
Theorem relocation_correct (im : image) (ctx : list image) (m : words) (table : list rela) :
  Forall (rel_ok im ctx m) table → NoDup (rel_target im <$> table) →
  ∃ m', parse_rela_table im ctx m table = Done m' ∧
    (∀ rel, rel ∈ table → ∃ v, rel_value im ctx rel = Done v ∧ m' !! rel_target im rel = Some v) ∧
    (∀ a, a ∉ rel_target im <$> table → m' !! a = m !! a).
Proof. apply parse_rela_spec. Qed.

(** C27: relocating an image for the first time applies both of its tables, gives its GOT the image and
    the resolver, runs its constructors and changes no other word.  A jump slot then holds the address
    that the resolver would return for it at a call, and relocating the image again does nothing. *)
Theorem relocate_binds (plt self : Z) (im : image) (ctx : list image) (m : words) (l1 l2 : list (Z * Z)) :
  relocated im = false → ctors im = false →
  Forall (rel_ok im ctx m) (dynrel im ++ jmprel im) → NoDup ((rel_target im <$> dynrel im ++ jmprel im) ++ got_slots im) →
  Forall (λ a, is_Some (m !! a)) (got_slots im) →
  ctor_list im preinit_start preinit_end = Done l1 → ctor_list im init_start init_end = Done l2 →
  ∃ m' im', relocate plt self im ctx m = Done (m', l1 ++ l2, im') ∧
    (∀ rel, rel ∈ dynrel im ++ jmprel im → ∃ v, rel_value im ctx rel = Done v ∧ m' !! rel_target im rel = Some v) ∧
    m' !! u64 (got im + 8) = Some self ∧ m' !! u64 (got im + 16) = Some plt ∧
    (∀ a, a ∉ rel_target im <$> dynrel im ++ jmprel im → a ∉ got_slots im → m' !! a = m !! a) ∧
    (∀ idx rel, named_slot im idx rel → ∃ v, ldso_plt_lookup im ctx idx = Done v ∧ m' !! rel_target im rel = Some v) ∧
    relocate plt self im' ctx m' = Done (m', [], im').
Proof.
  intros Hr Hc Hok Hnd Hgot H1 H2.
  destruct (relocate_writes plt self im ctx m l1 l2 Hr Hc Hok Hnd Hgot H1 H2) as (m' & Hrun & Hrel & Hg1 & Hg2 & Hout).
  exists m', (set_flags im true true). split; [exact Hrun|]. split; [exact Hrel|]. split; [exact Hg1|]. split; [exact Hg2|]. split; [exact Hout|].
  split; [|reflexivity]. intros idx rel Hn. rewrite (plt_lookup_value _ _ _ _ Hn). apply Hrel, elem_of_app. right.
  destruct Hn as (Hget & _). apply arr_get_Done in Hget as [_ Hget]. by apply list_elem_of_lookup_2 in Hget.
Qed.

(** the table that describes an image is read to its end: every pointer is the base plus the last
    value given for it, the numbers of relocations are the sizes divided by the size of an entry, and
    what the table does not mention keeps its value. *)
Theorem read_dyn_table_correct (b : Z) (p : pointers) (es rest : list dyn_entry) (d : dyn_entry) :
  Forall (λ d, tag d ≠ dt_null) es → tag d = dt_null →
  ∃ p', read_dyn_table b p (es ++ d :: rest) = Done p' ∧
    p_got p' = pointer_of b dt_pltgot (p_got p) es ∧ p_strtab p' = pointer_of b dt_strtab (p_strtab p) es ∧
    p_strtab_count p' = default (p_strtab_count p) (last_value dt_strsz es) ∧
    p_dynsym p' = pointer_of b dt_symtab (p_dynsym p) es ∧ p_gnu_hash p' = pointer_of b dt_gnu_hash (p_gnu_hash p) es ∧
    p_dynrel p' = pointer_of b dt_rela (p_dynrel p) es ∧ p_jmprel p' = pointer_of b dt_jmprel (p_jmprel p) es ∧
    (let entry := default sizeof_rela (last_value dt_relaent es) in
     p_dynrel_count p' = count_of (default 0 (last_value dt_relasz es)) entry (p_dynrel_count p) ∧
     p_jmprel_count p' = count_of (default 0 (last_value dt_pltrelsz es)) entry (p_jmprel_count p)).
Proof.
  intros Hes Hd. unfold read_dyn_table. assert (E0 : (p, Sizes 0 sizeof_rela 0 0) = dyn_state b p []) by (by destruct p).
  rewrite E0, dyn_loop_state by done. eexists. split; [reflexivity|]. cbn. by repeat split.
Qed.


(** ** Witnesses *)

(** An image that exports ab, cd, efg and h, in two buckets; symbol 0 is undefined. *)
Definition demo_exports : list export :=
  [Export [97; 98] 0x100; Export [99; 100] 0x200; Export [101; 102; 103] 0x300; Export [104] 0x400].
Definition demo_hash : gnu_hash_table :=
  GnuHash 2 1 1 5 [720876107062059008] [1; 3] [5863208; 5863277; 193490454; 177677].
Definition demo_symbols : list symbol := [Symbol 0 0; Symbol 1 0x100; Symbol 4 0x200; Symbol 7 0x300; Symbol 11 0x400].
Definition demo_strtab : list Z := [0; 97; 98; 0; 99; 100; 0; 101; 102; 103; 0; 104; 0].
Definition demo_image : image :=
  Image 0x10000 0x10030 (Some demo_strtab) 13 [Rela 0x18 jump_slot 2 0] [Rela 0x20 relative 0 0x50] (Some demo_symbols) (Some demo_hash)
    false false.
Lemma demo_image_wf : gnu_wf demo_image demo_hash demo_symbols demo_exports.
Proof.
  split.
  - done.
  - done.
  - done.
  - done.
  - intros [|[|[|[|j]]]] e He; cbn in He; simplify_eq; eexists; (split; [reflexivity|]); (split; [reflexivity|]); eexists;
      (split; [reflexivity|]); (split; [by repeat constructor|by eexists]).
  - intros [|[|[|[|j]]]] e He; cbn in He; simplify_eq; eexists; (split; [reflexivity|]); (split; [vm_compute; reflexivity|]);
      (split; [intros H e' He'; cbn in He'; simplify_eq; vm_compute in H |- *; congruence|]); intros H; vm_compute; try done;
      exfalso; exact (H _ eq_refl eq_refl).
  - assert (H : ∀ j e, demo_exports !! j = Some e → hash_of (ex_name e) mod bucket_count demo_hash = if (j <? 2)%nat then 0 else 1)
      by (intros [|[|[|[|j]]]] e He; cbn in He; simplify_eq; vm_compute; reflexivity).
    intros j j' e e' Hj Hj' Hle. rewrite (H j e Hj), (H j' e' Hj'). destruct (Nat.ltb_spec j 2), (Nat.ltb_spec j' 2); lia.
  - intros b Hb. cbn in Hb. assert (b = 0 ∨ b = 1) as [-> | ->] by lia; vm_compute; reflexivity.
  - intros i Hi. cbn in Hi. replace i with 0 by lia. by eexists.
  - intros e He h word Hw. assert (Hz : Z.shiftr h 6 mod bloom_count demo_hash = 0) by apply Z.mod_1_r. rewrite Hz in Hw. cbn in Hw. injection Hw as <-.
    subst h. repeat (apply elem_of_cons in He as [->|He]; [split; vm_compute; reflexivity|]). by apply not_elem_of_nil in He.
Qed.
Lemma lookup_correct_witness :
  lookup demo_image (Some [101; 102; 103; 0]) = Done 0x10300 ∧ lookup demo_image (Some [105; 0]) = Done 0.
Proof.
  split.
  - rewrite (lookup_correct demo_image demo_hash demo_symbols demo_exports _ [101; 102; 103]);
      [vm_compute; reflexivity|reflexivity|reflexivity|by eexists|exact demo_image_wf|].
    split; [by repeat constructor|by exists []].
  - rewrite (lookup_correct demo_image demo_hash demo_symbols demo_exports _ [105]);
      [vm_compute; reflexivity|reflexivity|reflexivity|by eexists|exact demo_image_wf|].
    split; [by repeat constructor|by exists []].
Defined.
Definition demo_table : list rela := [Rela 0x18 jump_slot 2 0; Rela 0x20 relative 0 0x50].
Definition demo_words : words := {[0x10018 := 0; 0x10020 := 0; 0x10028 := 7]}.
Lemma relocation_correct_witness :
  ∃ m', parse_rela_table demo_image [demo_image] demo_words demo_table = Done m' ∧ m' !! 0x10028 = Some 7.
Proof.
  destruct (relocation_correct demo_image [demo_image] demo_words demo_table) as (m' & H1 & _ & H3).
  - apply Forall_cons. split; [|apply Forall_cons; split; [|by apply Forall_nil]];
      (split; [by rewrite !elem_of_cons; tauto|]); (split; [by eexists|]); by eexists.
  - apply (proj1 (bool_decide_eq_true _)); vm_compute; reflexivity.
  - exists m'. split; [exact H1|]. rewrite H3; [reflexivity|]. apply (proj1 (bool_decide_eq_true _)); vm_compute; reflexivity.
Defined.
Definition demo_words' : words := {[0x10018 := 0; 0x10020 := 0; 0x10028 := 7; 0x10038 := 0; 0x10040 := 0]}.
Lemma relocate_binds_witness :
  ∃ m' im', relocate 0x500 0x600 demo_image [demo_image] demo_words' = Done (m', [], im') ∧ m' !! 0x10028 = Some 7.
Proof.
  destruct (relocate_binds 0x500 0x600 demo_image [demo_image] demo_words' [] []) as (m' & im' & H1 & _ & _ & _ & H3 & _).
  - reflexivity.
  - reflexivity.
  - repeat constructor; try (by rewrite !elem_of_cons; tauto); by eexists.
  - apply (proj1 (bool_decide_eq_true _)); vm_compute; reflexivity.
  - repeat constructor; by eexists.
  - vm_compute. reflexivity.
  - vm_compute. reflexivity.
  - exists m', im'. split; [exact H1|]. rewrite H3; [reflexivity| |]; apply (proj1 (bool_decide_eq_true _)); vm_compute; reflexivity.
Defined.
Lemma read_dyn_table_correct_witness :
  ∃ p', read_dyn_table 0x1000 (Pointers 0 0 0 0 0 0 0 0 0 None) [Dyn dt_rela 0x20; Dyn dt_relasz 48; Dyn dt_null 0; Dyn dt_rela 1] = Done p' ∧
    p_dynrel p' = 0x1020.
Proof.
  destruct (read_dyn_table_correct 0x1000 (Pointers 0 0 0 0 0 0 0 0 0 None) [Dyn dt_rela 0x20; Dyn dt_relasz 48] [Dyn dt_rela 1] (Dyn dt_null 0))
    as (p' & H1 & _ & _ & _ & _ & _ & H2 & _).
  - apply (proj1 (bool_decide_eq_true _)); vm_compute; reflexivity.
  - reflexivity.
  - exists p'. split; [exact H1|]. exact H2.
Defined.
(** Library 1 needs 2 and 3, which needs 2; the target needs 1. *)
Definition demo_needed (n : name) : option (list name) :=
  if decide (n = [1]) then Some [[2]; [3]] else if decide (n = [2]) then Some [] else if decide (n = [3]) then Some [[2]] else None.
